(* ===== verification/_CoqProject ===== *)
-Q . S2P
Prelude.v
CircuitBreaker.v
Retry.v
RateLimiter.v
Deduplication.v
FileText.v
IngestionState.v
IssueDetector.v
FilesRepository.v
Ingestion.v
IngestionFacts.v
IngestionSafety.v
Futures.v
InferenceScheduler.v
RerankScheduler.v
MemoryIndex.v
MemoryService.v
MemoryReconciliation.v
MemorySafety.v
MemoryConvergence.v
PyValue.v
ConversationStages.v
ContextAssembler.v
LlmReplies.v
RetrievalTrace.v
CitationMetrics.v
LearnedReranker.v
ConversationWorld.v
ConversationStore.v
ConversationGraph.v
ConversationFacts.v
ConversationNodes.v
ConversationSafety.v
ConversationContext.v
ConversationResume.v
RankFusion.v
Base64.v
Auth.v
SparseRetrieval.v
VectorStore.v
ChunkStore.v
QdrantStore.v
VectorService.v
VectorSafety.v
VectorSchemas.v
VectorMessages.v
VectorProtocol.v
Interleaving.v
GatewayAuth.v
GatewayHttp.v
GatewayLogic.v
GatewaySafety.v
GatewayLogin.v
MemoryConsolidation.v
MemoryNormalize.v
MemoryClients.v
MemoryWrite.v
MemoryRetrieve.v
MemoryAdmin.v
MemoryFacts.v
MemoryCompare.v
MemoryWriteSafety.v
MemoryDeletion.v
MemoryConfined.v
MemoryReplay.v
MemoryRanking.v
ProviderCapacity.v
TextWindow.v
LlmPrompts.v
LlmRegistry.v
VllmClient.v
LlmExecution.v
LlmSafety.v
RetrievalMetrics.v
GoldenSet.v
EvalStore.v
EvalSafety.v
EvalScoring.v
EvalRunner.v
Benchmark.v
