(* ===== verification/Prelude.v ===== *)
(** * RagForge backend: verification library

    RagForge answers questions over uploaded documents.  Its Python services talk through
    message queues: the gateway authenticates requests and forwards them; the files service
    runs each upload through extraction, issue detection, human review and chunking; the
    embedding service turns chunks and queries into vectors; the vector service stores and
    searches them; the rag service retrieves, reranks and assembles context; the LLM agent
    generates answers; the memory service keeps long-term facts with a vector index beside
    them.  All share the package [src/backend/shared].

    This library models the parts that carry the system's guarantees as executable Rocq
    definitions, translated operation by operation from the source, and proves what makes
    them correct.

    ** Files and what they model

    - [Prelude]: exact rationals for clocks and scores, record update, exceptions, Python
      slices, [sorted] and [strip], identities ([shared/auth.py]).
    - [CircuitBreaker] ([shared/circuit_breaker.py]): the breaker around every gateway RPC,
      as operations under its lock and a step relation for the calls in flight.
    - [Retry] ([shared/retry.py]): backoff with jitter and the [execute] loop.
    - [RateLimiter] ([shared/rate_limiter.py]): token buckets, the global and per-IP limiter
      and the middleware's decision.
    - [Deduplication] ([shared/deduplication.py]): the idempotency cache of the consumers.
    - [FileText] ([files/app/utils/common.py]): chunking, redaction patches, snippets.
    - [IngestionState], [IssueDetector], [FilesRepository], [Ingestion]
      ([files/app/services/ingestion_state.py], [issue_detector.py], [files/app/db/_*.py],
      [file_ingestion_state_machine.py]): the ingestion workflow.  The repository is a state
      and exception monad over the collections, with tenant and ownership scope, unique
      indexes and both transaction topologies; [Ingestion] has the two message handlers
      with every branch.  [IngestionFacts] is the program logic for that monad, with the
      class [RepoInvariant] as interface between repository and workflow;
      [IngestionSafety] has the theorems.
    - [Futures], [InferenceScheduler], [RerankScheduler]
      ([embedding/app/services/inference_scheduler.py],
      [rag/app/services/rerank_scheduler.py]): the two schedulers that batch model calls.
      Each critical section is one function on the shared state; a step relation
      interleaves callers, workers, cancellation and shutdown.
    - [MemoryIndex], [MemoryService], [MemoryReconciliation]
      ([memory/app/services/memory_vector_index.py], [memory_embedding_client.py],
      [memory_service.py], [memory_reconciliation.py]): the memory store, its vector index
      and the pass that brings them together again; [MemorySafety] and [MemoryConvergence]
      have the theorems.  The vector database is the class [VectorStore] with the laws
      [VectorStoreLaws], for which [MemoryIndex] gives an instance.
    - [PyValue]: dictionaries without a schema as [json], the effect monad of the
      conversation runtime and its two program logics ([hoare], [within]).
    - [ConversationStages] ([rag/app/services/conversation_stages.py] and the routing of
      [conversation_graph.py]), [ConversationWorld] ([conversation_types.py], the state a
      turn shares, [conversation_events.py], [output_approval.py]), [ConversationStore]
      ([conversation_persistence.py], [conversation_backend_client.py]), [LlmReplies] ([conversation_kafka_utils.py]),
      [ContextAssembler] ([context_assembler.py]), [LearnedReranker]
      ([learned_reranker.py], over the rerank scheduler through the class
      [ScoringService]), [RetrievalTrace] ([retrieval_trace.py]), [CitationMetrics]
      ([citation_metrics.py]) and [ConversationGraph] ([conversation_graph.py]): a
      conversation turn from the request to its terminal event, with every node, the
      wrapper, the workflow, the fallback loop, resumption and the exception handlers.
      Everything outside the service is the class [Env]: one answer per interaction, so a
      request, an event or a store operation may fail at any point.  [ConversationFacts] and
      [ConversationNodes] describe what each node may add to the world;
      [ConversationSafety], [ConversationContext] and [ConversationResume] have the theorems
      about whole turns, evaluated in the environments at the end of [ConversationGraph].
    - [Base64], [Auth] ([shared/auth.py]): identities, signed tickets and password records.
      Hashes and the JSON printer are the class [Crypto] with its laws.
    - [RankFusion] ([vector_db/app/services/hybrid_retrieval.py]), [SparseRetrieval]
      ([shared/sparse_retrieval.py]), [VectorStore] ([vector_db/app/db/interfaces.py], as
      classes of operations and laws), [ChunkStore] and [QdrantStore] (the two backends,
      with the proofs that they keep the laws), [VectorService], [VectorSchemas] and
      [VectorMessages] ([vector_service.py], [schemas/vector.py], [services/base.py]): the
      vector service from the message to the store.  [VectorSafety] has the theorems over
      any store that keeps the laws, [VectorProtocol] those about whole messages.
    - [Interleaving]: request handlers as sequences of atomic database calls, schedules, and
      a rely-guarantee logic.  [GatewayAuth], [GatewayHttp]
      ([gateway/app/services/auth_service.py], [rest/v1/auth.py], [rest/v1/admin_users.py],
      [core/auth.py], [schemas/auth.py]): tenants, users, lockout, sessions and the
      endpoints.  [GatewayLogic] verifies every activity in that logic; [GatewaySafety] and
      [GatewayLogin] have the theorems.
    - [MemoryConsolidation] ([memory_consolidation.py]), [MemoryNormalize], [MemoryClients],
      [MemoryWrite], [MemoryRetrieve], [MemoryAdmin] ([memory_service.py] with its clients):
      the memory service on the dictionaries it stores, with [write_memory], retrieval and
      the legacy operations.  ([MemoryService] above has the operations that reconciliation
      calls, on typed documents.)  [MemoryFacts], [MemoryCompare] and [MemoryWriteSafety]
      are the program logic of that effect and the write path in it; [MemoryDeletion],
      [MemoryConfined], [MemoryReplay] and [MemoryRanking] have the theorems.
    - [ProviderCapacity] ([llm_agent/app/llm/provider_capacity.py]): the gate in front of the
      model server, as a step relation.  [TextWindow] ([services/text_window.py]),
      [LlmPrompts] ([llm/prompts]), [LlmRegistry] ([schemas/llm.py],
      [llm/prompt_registry.py]), [VllmClient] ([llm/implementations/vllm.py]) and
      [LlmExecution] ([services/execution_pipeline.py], [llm_service.py],
      [messaging/llm_handler.py]): the typed execution of a request, from the message to its
      tokens and its reply.  [LlmSafety] has the calculus of these programs, the bound of the
      prompts and the protocol of stream and reply.
    - [RetrievalMetrics] ([rag/app/services/retrieval_metrics.py]), [GoldenSet]
      ([golden_set_parser.py]), [EvalStore] ([eval_store.py]), [EvalScoring] (the pure part of
      [eval_runner.py], [failure_attribution.py]), [EvalRunner] (the rest of
      [eval_runner.py]) and [Benchmark] ([benchmark_runner.py]): golden sets, the runs that
      evaluate retrieval and answers against them and the benchmarks made of such runs, as
      programs of [Interleaving] over the collections.  [EvalSafety] has the theorems about the
      store; those about scores, runs and benchmarks stand beside the definitions.

    ** What the theorems show

    - Ingestion: handlers never change another tenant's data; nothing above a detector's
      threshold is chunked without a review; a review case is decided at most once; what is
      indexed after a decision is exactly the reviewed text; deletion removes exactly the
      file's chunks and at most one file, inside its own directory; what a failing handler
      leaves behind with and without transactions.
    - Text: chunks rejoin to the text within their size; applying patches from the end
      equals splicing them simultaneously; the state table admits no endless workflow.
    - Schedulers: every reachable state keeps the capacity bounds and owns each future
      exactly once; a caller gets the vectors of its own texts in order, or an exception;
      rerank scores go back to the pairs they belong to; batches are fair, and a worker takes
      nothing only when there is nothing it may take; shutdown settles every future.
    - Breaker, retry, limiter and cache: reachable states respect the thresholds, an open
      breaker rejects, the retry loop refines its specification and terminates with enough
      fuel, buckets admit no more than rate and burst allow, cleanup is transparent, and the
      cache's answers are those of the history for every interleaving of its callers, clears
      included.
    - Memory: reconciliation is tenant-safe, bounded, total and idempotent, never resurrects
      a deleted fact, and a complete pass leaves rows and points in agreement as far as the
      rows record what is missing; [delete_memory] keeps its contract.
    - Conversation turns: tokens reach the client only after an output scan of that very
      answer that did not block it (a reply that is not an object counts as one that did
      not); the terminal event is the last; the events of a client who is not an
      administrator are of the public types and fields only; every chunk in a prompt, a
      checkpoint, an event or a result is eligible; all model calls of a turn get the one
      committed context, from which its sources are taken; at most two generations; the declared workflow, under any
      graph library that walks the declared edges, and the fallback loop are the same
      computation; a milestone checkpoint resumes exactly after its node.
      The assembled context respects its budget and its order of preference, the reranker
      orders exactly the bounded candidates by the scores of the scheduler, evidence kept of
      a model call is typed and bounded, and traces keep their bounds.
    - Tickets: an envelope is accepted only with a ticket signed for its very message,
      audience and lifetime; every byte string survives base64.
    - Vector service: searches return only retrievable chunks of the caller; no sequence of
      messages, signed or not, changes the chunks of another tenant; fusion, verification
      and the sparse encoding compute what they say.
    - Gateway, for any number of concurrent requests in any interleaving of their database
      calls, some of which fail: the collections stay well formed, a revoked session stays
      dead, an account changes only through its own administrator or itself.  Without
      interference a login locks after five failures and opens a session that
      authenticates.
    - Memory writes: a decision to retire a memory rests on a declared identity, never on
      similarity alone; an exact duplicate that supersedes nothing is not stored again; a
      deleted fact does not
      come back; a request id is written once; requests of one user never touch the rows of
      another; retrieval returns current memories of the caller in its order.
    - LLM agent: in every interleaving of callers, deadlines and shutdown the gate keeps its
      limit, reserves a place for live traffic and loses no wake-up; every prompt of the typed
      pipeline fits the window of its model; tokens are published in order and before the one
      event that ends the stream, and a listener hears a subsequence of them when the
      transport fails; a reply succeeds with a validated output or fails with exactly one
      error; citations resolve to the passages the prompt printed under their numbers.
    - Evaluation: validating an upload and importing it agree; the fingerprint of a dataset
      depends on its labels and on nothing else, and unless digests collide its version changes
      exactly with them; a tenant's evaluation data is seen and changed only by its administrators; a run
      that was opened is closed whatever the services answer, with one row per item and
      figures that are the aggregate of the rows; a stale run is recovered, and by one replica
      only; a failure is attributed to a stage only on evidence of the trace; any number of
      benchmarks executing at once close their documents, with phases run in order of cost,
      skipped after the first failure and backed by closed runs.
    - Some theorems state where the code does not do what its comments say: the standalone
      transaction fallback, a breaker that stays half-open, the starvation of large rerank
      requests, the memory rows a pass never repairs, the collision of point ids, the input
      block a client is not told of, the restart after a failed turn, the risk levels a
      malformed verdict lets pass, the races of setup, lockout and password reset, the
      preferences that share one content hash, the edits of a dataset that race, the late
      worker that overwrites an interrupted run, the timeouts that count as no error, the phase a
      failed benchmark leaves running, the totals reconciliation inflates.

    ** Modelling decisions

    Integers are [Z]; clock readings, rates and scores are exact rationals, so float
    rounding is outside the model.  Each clock reading, random draw, generated identifier
    and answer of an external service is an argument or a parameter.  Strings are [string]
    where only equality matters and lists of code points where characters do; Unicode
    tables and regular expressions are parameters.  Waiting is not modelled as time: an
    operation that would wait leaves the state alone and may be tried again, and deadlines
    are flags.  Loops without a structural measure take fuel: chunking takes one more than
    the length of the text, which is proved to be enough, and the retry loop's fuel is
    bounded by its theorem; the shrinking of a passage takes its length and the selection of
    the context the number of candidates, one of which every iteration removes.  The graph
    library is the record [engine]: an operation that runs a compiled graph, with the law that
    it follows the declared edges within its recursion limit of 25; the longest path has 14
    nodes, and an instance by supersteps shows that the law can hold.
    Concurrent searches of one turn are started in order and awaited in order; the
    interleaving of their requests inside the other services is not visible to the turn.
    A call of a database or of another service may fail before or after it took effect.
    Documents without a schema are ordered association lists of JSON values; dates in the
    gateway are microseconds, of which BSON keeps the milliseconds.  What libraries compute
    (numpy, pydantic's conversions, Unicode tables, [fromisoformat], Qdrant) is a class, with
    laws where a theorem needs them and an instance that meets the laws.
    Prometheus metrics, log lines and trace spans are left out
    everywhere, because no operation reads them.

    ** Not modelled

    Kafka and RabbitMQ transport, HTTP routes other than authentication, document parsers,
    model servers and database drivers are I/O around third-party packages.  Prompt and
    output guards are tables of regular expressions and need a model of the regular
    expression engine.  Summaries, comparisons and exports of benchmarks, the queries behind the
    metrics pages, the memory agent and
    its handlers, summaries and metadata of the LLM agent, feedback, the MongoDB store of
    conversations, the upload and query handlers of the files service and the bounded
    executor have logic of their own and are not modelled. *)

From Stdlib Require Import QArith Qminmax Lqa.
From stdpp Require Import base list strings gmap sorting.

(** ** Scopes

    Counters and sizes of the Python code are unbounded integers, modelled in
    [Z]; clock readings, timeouts, rates and scores are Python floats, modelled
    by exact rationals in [Q] (float rounding is not part of the model). *)

Declare Scope ragforge_scope.
Delimit Scope ragforge_scope with rf.

Definition qleb (x y : Q) : bool := Qle_bool x y.
Definition qltb (x y : Q) : bool := negb (Qle_bool y x).

Infix "<=?q" := qleb (at level 70, no associativity) : ragforge_scope.
Infix "<?q" := qltb (at level 70, no associativity) : ragforge_scope.
Open Scope ragforge_scope.

Lemma qleb_true x y : (x <=?q y) = true <-> (x <= y)%Q.
Proof. apply Qle_bool_iff. Qed.

Lemma qleb_false x y : (x <=?q y) = false <-> (y < x)%Q.
Proof.
  rewrite <- not_true_iff_false, qleb_true. split; [apply Qnot_le_lt | apply Qlt_not_le].
Qed.

Lemma qltb_true x y : (x <?q y) = true <-> (x < y)%Q.
Proof. unfold qltb. rewrite negb_true_iff. apply qleb_false. Qed.

Lemma qltb_false x y : (x <?q y) = false <-> (y <= x)%Q.
Proof. unfold qltb. rewrite negb_false_iff. apply qleb_true. Qed.

#[export] Instance Qle_decision (x y : Q) : Decision (x <= y)%Q.
Proof.
  refine (match Qlt_le_dec y x with left H => right _ | right H => left H end).
  by apply Qlt_not_le.
Defined.

#[export] Instance Qlt_decision (x y : Q) : Decision (x < y)%Q.
Proof.
  refine (match Qlt_le_dec x y with left H => left H | right H => right _ end).
  by apply Qle_not_lt.
Defined.

(** [Qmin] picks its first argument syntactically, so a capped value is equal to
    its cap and not only [==]-equal. *)
Lemma Qmin_left x y : (x <= y)%Q -> Qmin x y = x.
Proof.
  intros H. unfold Qmin, GenericMinMax.gmin. destruct (x ?= y)%Q eqn:E; try done.
Qed.

(** ** Record update

    [x {{ field := v }}] is the record [x] with one field replaced, the shape
    of a Python attribute assignment.  A record type opts in with an [Eta]
    instance that rebuilds a value from its projections; the setter of a field
    is then derived by replacing the projection inside that term. *)

Class Eta (R : Type) := eta : R -> R.
Class Setter {R E : Type} (proj : R -> E) := setf : (E -> E) -> R -> R.
Arguments setf {R E} proj {Setter} _ _.

Ltac derive_setter R E proj :=
  exact (fun (f : E -> E) (x : R) =>
    ltac:(let b := eval hnf in (@eta R ltac:(typeclasses eauto) x) in
          match b with
          | context C [proj x] => let b' := context C [f (proj x)] in exact b'
          end)).

#[export] Hint Extern 1 (@Setter ?R ?E ?proj) =>
  derive_setter R E proj : typeclass_instances.

Notation "x {{ p := v }}" := (setf p (fun _ => v) x)
  (at level 1, left associativity, p at level 0, v at level 99,
   format "x {{  p  :=  v  }}") : ragforge_scope.
Notation "x {{ p ::= f }}" := (setf p f x)
  (at level 1, left associativity, p at level 0, f at level 99,
   format "x {{  p  ::=  f  }}") : ragforge_scope.

(** ** Exceptions

    A Python call either returns a value or raises. *)

Inductive outcome (E A : Type) := Ok (a : A) | Raise (e : E).
Arguments Ok {E A} a.
Arguments Raise {E A} e.

Definition obind {E A B} (c : outcome E A) (k : A -> outcome E B) : outcome E B :=
  match c with Ok a => k a | Raise e => Raise e end.

Notation "'let*' x ':=' c 'in' k" := (obind c (fun x => k))
  (at level 200, x pattern, c at level 100, k at level 200) : ragforge_scope.

(** ** Truthiness of optional strings

    [a or b] on strings: [None] and the empty string are false. *)

Definition truthy (o : option string) : bool :=
  match o with Some s => negb (bool_decide (s = ""%string)) | None => false end.

Definition or_else (o : option string) (d : string) : string :=
  match o with Some s => if decide (s = ""%string) then d else s | None => d end.

(** ** [len] *)

Definition zlen {A} (l : list A) : Z := Z.of_nat (length l).

Lemma zlen_nonneg {A} (l : list A) : (0 <= zlen l)%Z.
Proof. unfold zlen. lia. Qed.

Lemma zlen_app {A} (l k : list A) : zlen (l ++ k) = (zlen l + zlen k)%Z.
Proof. unfold zlen. rewrite length_app. lia. Qed.

Lemma zlen_cons {A} (x : A) l : zlen (x :: l) = (1 + zlen l)%Z.
Proof. unfold zlen. cbn. lia. Qed.

(** ** Text

    A string whose characters matter is a list of code points. *)

Abbreviation text := (list Z).

Fixpoint drop_while {A} (f : A -> bool) (l : list A) : list A :=
  match l with
  | [] => []
  | x :: l' => if f x then drop_while f l' else l
  end.

(** [str.strip], for the class of characters it removes. *)
Definition strip (isspace : Z -> bool) (t : text) : text :=
  reverse (drop_while isspace (reverse (drop_while isspace t))).

(** ** Identities

    [AuthIdentity] of [src/backend/shared/auth.py], without the address and the session
    that no modelled operation reads. *)

Inductive role := ROLE_ADMIN | ROLE_USER | ROLE_SERVICE.

#[export] Instance role_eq_dec : EqDecision role.
Proof. solve_decision. Defined.

Record AuthIdentity := mkIdentity {
  id_tenant : string; id_user : string; id_role : role; id_admin : option string
}.

(** ** Python slices

    [py_slice l i j] is [l[i:j]]: negative bounds count from the end, bounds are
    clamped, and an empty range gives the empty list. *)

Definition py_index {A} (l : list A) (i : Z) : Z :=
  let n := Z.of_nat (length l) in
  if (i <? 0)%Z then Z.max 0 (n + i) else Z.min i n.

Definition py_slice {A} (l : list A) (i j : Z) : list A :=
  let a := Z.to_nat (py_index l i) in
  let b := Z.to_nat (py_index l j) in
  take (b - a) (drop a l).

(** [l[:j]] and [l[i:]]. *)
Definition py_prefix {A} (l : list A) (j : Z) : list A := py_slice l 0 j.
Definition py_suffix {A} (l : list A) (i : Z) : list A := py_slice l i (Z.of_nat (length l)).

Lemma py_slice_bounded {A} (l : list A) i j :
  (0 <= i)%Z -> (0 <= j)%Z ->
  py_slice l i j = take (Z.to_nat j - Z.to_nat i) (drop (Z.to_nat i) l).
Proof.
  intros Hi Hj. unfold py_slice, py_index.
  destruct (Z.ltb_spec i 0), (Z.ltb_spec j 0); try lia.
  destruct (decide (Z.to_nat i < length l)%nat) as [Hlt|Hge].
  - rewrite (Z.min_l i) by lia. destruct (decide (Z.to_nat j <= length l)%nat).
    + by rewrite (Z.min_l j) by lia.
    + rewrite !take_ge by (rewrite length_drop; lia). done.
  - rewrite !(drop_ge l) by lia. by rewrite !take_nil.
Qed.

Lemma py_prefix_nonneg {A} (l : list A) j : (0 <= j)%Z -> py_prefix l j = take (Z.to_nat j) l.
Proof. intros. unfold py_prefix. rewrite py_slice_bounded by lia. by rewrite Nat.sub_0_r. Qed.

Lemma py_suffix_nonneg {A} (l : list A) i : (0 <= i)%Z -> py_suffix l i = drop (Z.to_nat i) l.
Proof.
  intros. unfold py_suffix. rewrite py_slice_bounded by lia.
  apply take_ge. rewrite length_drop. lia.
Qed.

Lemma length_py_slice {A} (l : list A) i j :
  (0 <= i <= j)%Z -> (j <= Z.of_nat (length l))%Z ->
  Z.of_nat (length (py_slice l i j)) = (j - i)%Z.
Proof.
  intros Hi Hj. rewrite py_slice_bounded by lia. rewrite length_take, length_drop. lia.
Qed.

(** Two adjacent slices are one. *)
Lemma py_slice_app {A} (l : list A) i j k :
  (0 <= i <= j)%Z -> (j <= k)%Z -> py_slice l i j ++ py_slice l j k = py_slice l i k.
Proof.
  intros Hi Hj. rewrite !py_slice_bounded by lia.
  rewrite <- (take_drop (Z.to_nat j - Z.to_nat i) (take (Z.to_nat k - Z.to_nat i) _)).
  rewrite take_take, Nat.min_l by lia. f_equal.
  rewrite skipn_firstn_comm, drop_drop. f_equal; [lia|f_equal; lia].
Qed.

(** ** [sorted]

    Python's sort is stable; insertion sort with a "less or equal" test is the
    executable model.  [sorted(..., reverse=True)] is the same sort with the test
    flipped, which keeps equal elements in their original order too. *)

Section PySorted.
Context {A : Type} (leb : A -> A -> bool).

Fixpoint insert_sorted (x : A) (l : list A) : list A :=
  match l with
  | [] => [x]
  | y :: l' => if leb x y then x :: l else y :: insert_sorted x l'
  end.

Definition py_sorted (l : list A) : list A := foldr insert_sorted [] l.

Lemma insert_sorted_perm x l : insert_sorted x l ≡ₚ x :: l.
Proof.
  induction l as [|y l IH]; cbn; [done|]. destruct (leb x y); [done|].
  rewrite IH. apply Permutation_swap.
Qed.

Lemma py_sorted_perm l : py_sorted l ≡ₚ l.
Proof. induction l as [|x l IH]; cbn; [done|]. by rewrite insert_sorted_perm, IH. Qed.

Lemma length_py_sorted l : length (py_sorted l) = length l.
Proof. by rewrite py_sorted_perm. Qed.

Context (Htotal : forall x y, leb x y = true \/ leb y x = true)
        (Htrans : forall x y z, leb x y = true -> leb y z = true -> leb x z = true).

Lemma insert_sorted_sorted x l :
  StronglySorted (fun x y => leb x y = true) l ->
  StronglySorted (fun x y => leb x y = true) (insert_sorted x l).
Proof using Htotal Htrans.
  induction 1 as [|y l Hl IH Hy]; cbn; [repeat constructor|].
  destruct (leb x y) eqn:E.
  - constructor; [by constructor|]. constructor; [done|].
    eapply Forall_impl; [exact Hy|]. eauto.
  - constructor; [done|]. rewrite insert_sorted_perm. constructor; [|done].
    destruct (Htotal x y); congruence.
Qed.

Lemma py_sorted_sorted l : StronglySorted (fun x y => leb x y = true) (py_sorted l).
Proof using Htotal Htrans. induction l; cbn; [constructor|by apply insert_sorted_sorted]. Qed.
End PySorted.
