(* ===== verification/CircuitBreaker.v ===== *)
(** * Circuit breaker ([src/backend/shared/circuit_breaker.py])

    The three-state breaker every gateway RPC goes through, its registry, and
    the interleavings its lock allows: a call is admitted under the lock, runs
    outside it, and reports back under the lock again, so any number of calls
    may be in flight when the state changes.  Each [time.monotonic()] reading
    is an argument of the operation that takes it. *)

From Stdlib Require Import QArith Qminmax Lqa.
From stdpp Require Import base list strings gmap relations.
From S2P Require Import Prelude.

Local Open Scope Z_scope.

Create HintDb breaker.

(** ** State *)

Inductive CircuitState := CLOSED | OPEN | HALF_OPEN.

#[export] Instance CircuitState_eq_dec : EqDecision CircuitState.
Proof. solve_decision. Defined.

Definition STATE_GAUGE_VALUES (s : CircuitState) : Z :=
  match s with CLOSED => 0 | OPEN => 1 | HALF_OPEN => 2 end.

(** Attributes of one [CircuitBreaker]; the three [metric_] fields are the
    Prometheus series it writes ([None]: the gauge was never set). *)
Record CircuitBreaker := mkCB {
  name : string;
  failure_threshold : Z;
  recovery_timeout : Q;
  half_open_max_calls : Z;
  success_threshold : Z;
  state_ : CircuitState;
  failure_count : Z;
  success_count : Z;
  half_open_calls : Z;
  last_failure_time : Q;
  opened_at : Q;
  total_calls : Z;
  total_successes : Z;
  total_failures : Z;
  total_rejected : Z;
  metric_state : option Z;
  metric_rejections : Z;
  metric_failures : Z
}.

#[export] Instance eta_CB : Eta CircuitBreaker := fun x =>
  mkCB (name x) (failure_threshold x) (recovery_timeout x) (half_open_max_calls x)
    (success_threshold x) (state_ x) (failure_count x) (success_count x)
    (half_open_calls x) (last_failure_time x) (opened_at x) (total_calls x)
    (total_successes x) (total_failures x) (total_rejected x) (metric_state x)
    (metric_rejections x) (metric_failures x).

Definition init_breaker (nm : string) (ft : Z) (rt : Q) (hm st : Z) : CircuitBreaker :=
  mkCB nm ft rt hm st CLOSED 0 0 0 0 0 0 0 0 0 None 0 0.

(** Keyword defaults of [CircuitBreaker.__init__]. *)
Definition default_breaker (nm : string) : CircuitBreaker :=
  init_breaker nm 5 30 3 2.

(** ** Operations *)

(** [_transition_to]; [t] is the reading taken on entry to OPEN. *)
Definition transition_to (t : Q) (new_state : CircuitState) (cb : CircuitBreaker)
  : CircuitBreaker :=
  let cb := cb {{ state_ := new_state }}
               {{ metric_state := Some (STATE_GAUGE_VALUES new_state) }} in
  match new_state with
  | OPEN => cb {{ opened_at := t }} {{ success_count := 0 }} {{ half_open_calls := 0 }}
  | HALF_OPEN => cb {{ half_open_calls := 0 }} {{ success_count := 0 }}
  | CLOSED => cb {{ failure_count := 0 }} {{ success_count := 0 }}
                 {{ half_open_calls := 0 }}
  end.

(** [_check_state_transition]. *)
Definition check_state_transition (t : Q) (cb : CircuitBreaker) : CircuitBreaker :=
  match state_ cb with
  | OPEN => if recovery_timeout cb <=?q (t - opened_at cb)
            then transition_to t HALF_OPEN cb else cb
  | _ => cb
  end.

(** The [state] property, which may move OPEN to HALF_OPEN on read. *)
Definition read_state (t : Q) (cb : CircuitBreaker) : CircuitBreaker * CircuitState :=
  let cb := check_state_transition t cb in (cb, state_ cb).

(** What the locked prologue of [call] decides. *)
Inductive admission := Allowed | Rejected (remaining_seconds : Q).

Definition reject (remaining : Q) (cb : CircuitBreaker) : CircuitBreaker * admission :=
  (cb {{ total_rejected ::= Z.add 1 }} {{ metric_rejections ::= Z.add 1 }},
   Rejected remaining).

(** The admission test of [call] once the transition check has run. *)
Definition decide_admission (t' : Q) (cb : CircuitBreaker) : CircuitBreaker * admission :=
  match state_ cb with
  | OPEN => reject (Qmax 0 (recovery_timeout cb - (t' - opened_at cb))) cb
  | HALF_OPEN =>
      if half_open_max_calls cb <=? half_open_calls cb then reject 0 cb
      else (cb {{ half_open_calls ::= Z.add 1 }}, Allowed)
  | CLOSED => (cb, Allowed)
  end.

(** [call] up to the release of the lock: [t] is read by the transition check,
    [t'] by the computation of the remaining time. *)
Definition begin_call (t t' : Q) (cb : CircuitBreaker) : CircuitBreaker * admission :=
  decide_admission t' (check_state_transition t (cb {{ total_calls ::= Z.add 1 }})).

Definition on_success (t : Q) (cb : CircuitBreaker) : CircuitBreaker :=
  let cb := cb {{ total_successes ::= Z.add 1 }} in
  match state_ cb with
  | HALF_OPEN =>
      let cb := cb {{ success_count ::= Z.add 1 }} in
      if success_threshold cb <=? success_count cb then transition_to t CLOSED cb else cb
  | _ => cb {{ failure_count := 0 }}
  end.

(** [t] is stored as the failure time, [t'] read again on entry to OPEN. *)
Definition on_failure (t t' : Q) (cb : CircuitBreaker) : CircuitBreaker :=
  let cb := cb {{ total_failures ::= Z.add 1 }} {{ metric_failures ::= Z.add 1 }}
               {{ failure_count ::= Z.add 1 }} {{ last_failure_time := t }} in
  match state_ cb with
  | HALF_OPEN => transition_to t' OPEN cb
  | CLOSED => if failure_threshold cb <=? failure_count cb
              then transition_to t' OPEN cb else cb
  | OPEN => cb
  end.

Definition reset (t : Q) (cb : CircuitBreaker) : CircuitBreaker := transition_to t CLOSED cb.

(** What the guarded callable does: return, raise an [Exception], or leave with
    a [BaseException] that [except Exception] does not catch. *)
Inductive func_result (A : Type) :=
  | Returns (a : A)
  | RaisesException
  | RaisesBaseException.
Arguments Returns {A} a.
Arguments RaisesException {A}.
Arguments RaisesBaseException {A}.

Inductive call_result (A : Type) :=
  | CallReturned (a : A)
  | CallRaised
  | CallRejected (nm : string) (remaining : Q).
Arguments CallReturned {A} a.
Arguments CallRaised {A}.
Arguments CallRejected {A} nm remaining.

(** The four clock readings one [call] can take. *)
Record call_clock := mkClock { t_check : Q; t_remaining : Q; t_done : Q; t_open : Q }.

(** [call] run to completion without interleaving. *)
Definition call {A} (k : call_clock) (func : func_result A) (cb : CircuitBreaker)
  : CircuitBreaker * call_result A :=
  match begin_call (t_check k) (t_remaining k) cb with
  | (cb, Rejected r) => (cb, CallRejected (name cb) r)
  | (cb, Allowed) =>
      match func with
      | Returns a => (on_success (t_done k) cb, CallReturned a)
      | RaisesException => (on_failure (t_done k) (t_open k) cb, CallRaised)
      | RaisesBaseException => (cb, CallRaised)
      end
  end.

(** ** Interleaved executions

    A world is a breaker, the number of admitted calls that have not reported
    back, and the number of admitted calls that never will. *)
Record world := mkWorld { breaker : CircuitBreaker; in_flight : Z; escaped : Z }.

(** What can happen to a breaker, with the clock readings involved. *)
Inductive event :=
  | Begin (t t' : Q)
  | Success (t : Q)
  | Failure (t t' : Q)
  | Escape
  | Read (t : Q)
  | Reset_ (t : Q).

Inductive step : event -> world -> world -> Prop :=
  | step_admit cb cb' n e t t' :
      begin_call t t' cb = (cb', Allowed) ->
      step (Begin t t') (mkWorld cb n e) (mkWorld cb' (n + 1) e)
  | step_reject cb cb' n e t t' r :
      begin_call t t' cb = (cb', Rejected r) ->
      step (Begin t t') (mkWorld cb n e) (mkWorld cb' n e)
  | step_success cb n e t :
      0 < n -> step (Success t) (mkWorld cb n e) (mkWorld (on_success t cb) (n - 1) e)
  | step_failure cb n e t t' :
      0 < n -> step (Failure t t') (mkWorld cb n e) (mkWorld (on_failure t t' cb) (n - 1) e)
  | step_escape cb n e :
      0 < n -> step Escape (mkWorld cb n e) (mkWorld cb (n - 1) (e + 1))
  | step_read cb n e t :
      step (Read t) (mkWorld cb n e) (mkWorld (read_state t cb).1 n e)
  | step_reset cb n e t :
      step (Reset_ t) (mkWorld cb n e) (mkWorld (reset t cb) n e).

Inductive trace : list event -> world -> world -> Prop :=
  | trace_nil w : trace [] w w
  | trace_cons ev evs w w' w'' :
      step ev w w' -> trace evs w' w'' -> trace (ev :: evs) w w''.

Definition initial_world (nm : string) (ft : Z) (rt : Q) (hm st : Z) : world :=
  mkWorld (init_breaker nm ft rt hm st) 0 0.

(** Executable form of [step], used to evaluate concrete schedules. *)
Definition exec (ev : event) (w : world) : option world :=
  let '(mkWorld cb n e) := w in
  match ev with
  | Begin t t' =>
      let '(cb', a) := begin_call t t' cb in
      Some (mkWorld cb' (match a with Allowed => n + 1 | Rejected _ => n end) e)
  | Success t => if 0 <? n then Some (mkWorld (on_success t cb) (n - 1) e) else None
  | Failure t t' => if 0 <? n then Some (mkWorld (on_failure t t' cb) (n - 1) e) else None
  | Escape => if 0 <? n then Some (mkWorld cb (n - 1) (e + 1)) else None
  | Read t => Some (mkWorld (read_state t cb).1 n e)
  | Reset_ t => Some (mkWorld (reset t cb) n e)
  end.

Fixpoint exec_all (evs : list event) (w : world) : option world :=
  match evs with
  | [] => Some w
  | ev :: evs => exec ev w ≫= exec_all evs
  end.

Lemma exec_step ev w w' : exec ev w = Some w' -> step ev w w'.
Proof.
  destruct w as [cb n e], ev; cbn; intros H;
    try (destruct (Z.ltb_spec 0 n); [|done]); simplify_eq; try (by constructor).
  destruct (begin_call t t' cb) as [cb' []] eqn:E; simplify_eq; econstructor; exact E.
Qed.

Lemma exec_all_trace evs w w' : exec_all evs w = Some w' -> trace evs w w'.
Proof.
  revert w. induction evs as [|ev evs IH]; cbn; intros w H; [simplify_eq; constructor|].
  destruct (exec ev w) as [w1|] eqn:E; [|done]. econstructor; [by apply exec_step|by apply IH].
Qed.

(** ** Monitoring snapshot *)

Record breaker_metrics := mkMetrics {
  m_name : string; m_state : CircuitState; m_failure_count : Z; m_success_count : Z;
  m_total_calls : Z; m_total_successes : Z; m_total_failures : Z; m_total_rejected : Z;
  m_opened_at : Q; m_failure_threshold : Z; m_recovery_timeout : Q
}.

Definition metrics (cb : CircuitBreaker) : breaker_metrics :=
  mkMetrics (name cb) (state_ cb) (failure_count cb) (success_count cb) (total_calls cb)
    (total_successes cb) (total_failures cb) (total_rejected cb) (opened_at cb)
    (failure_threshold cb) (recovery_timeout cb).

(** ** Registry *)

Definition get_or_create (nm : string) (fresh : CircuitBreaker) (r : gmap string CircuitBreaker)
  : gmap string CircuitBreaker * CircuitBreaker :=
  match r !! nm with
  | Some cb => (r, cb)
  | None => (<[nm := fresh]> r, fresh)
  end.

Definition registry_get (nm : string) (r : gmap string CircuitBreaker) : option CircuitBreaker :=
  r !! nm.

Definition reset_all (t : Q) (r : gmap string CircuitBreaker) : gmap string CircuitBreaker :=
  reset t <$> r.

Definition get_all_metrics (r : gmap string CircuitBreaker) : gmap string breaker_metrics :=
  metrics <$> r.

(** ** Invariant *)

(** Constructor arguments the invariant needs; the Python constructor itself
    accepts anything. *)
Definition config_ok (cb : CircuitBreaker) : Prop :=
  1 <= failure_threshold cb /\ 1 <= success_threshold cb /\ 0 <= half_open_max_calls cb.

Definition gauge_ok (cb : CircuitBreaker) : Prop :=
  match metric_state cb with
  | None => state_ cb = CLOSED
  | Some g => g = STATE_GAUGE_VALUES (state_ cb)
  end.

Definition counters_ok (cb : CircuitBreaker) : Prop :=
  match state_ cb with
  | CLOSED => 0 <= failure_count cb < failure_threshold cb /\
              success_count cb = 0 /\ half_open_calls cb = 0
  | OPEN => success_count cb = 0 /\ half_open_calls cb = 0
  | HALF_OPEN => 0 <= success_count cb < success_threshold cb /\
                 0 <= half_open_calls cb <= half_open_max_calls cb
  end.

Definition wf (cb : CircuitBreaker) : Prop :=
  config_ok cb /\ counters_ok cb /\ gauge_ok cb /\
  metric_rejections cb = total_rejected cb /\ metric_failures cb = total_failures cb.

(** Every call is accounted for exactly once, and in HALF_OPEN each probe slot
    taken in this episode is explained by a success, a running call or a call
    that left without reporting. *)
Definition accounted (w : world) : Prop :=
  let cb := breaker w in
  total_calls cb = total_rejected cb + total_successes cb + total_failures cb
                   + in_flight w + escaped w /\
  0 <= in_flight w /\ 0 <= escaped w /\
  (state_ cb = HALF_OPEN -> half_open_calls cb <= success_count cb + in_flight w + escaped w).

Definition wf_world (w : world) : Prop := wf (breaker w) /\ accounted w.

(** Case analysis over the operations: split the comparisons of the code and
    the states of abstract breakers, then close arithmetic. *)
Ltac cb_cases :=
  repeat (match goal with
  | |- context [Z.leb ?a ?b] => destruct (Z.leb_spec a b)
  | |- context [qleb ?a ?b] => destruct (qleb a b) eqn:?
  | |- context [state_ ?cb] => is_var cb; destruct (state_ cb) eqn:?
  end; cbn).

Ltac cb_solve :=
  cb_cases; intros; destruct_and?; split_and?; intros;
  repeat match goal with H : ?a = ?a -> _ |- _ => specialize (H eq_refl) end;
  try done; try lia.

Ltac cb_unfold :=
  unfold wf, config_ok, counters_ok, gauge_ok, accounted, reset, read_state,
    on_success, on_failure, decide_admission, reject, check_state_transition, transition_to; cbn.

Lemma check_state_transition_wf t cb : wf cb -> wf (check_state_transition t cb).
Proof. cb_unfold. cb_solve. Qed.

Lemma on_success_wf t cb : wf cb -> wf (on_success t cb).
Proof. cb_unfold. cb_solve. Qed.

Lemma on_failure_wf t t' cb : wf cb -> wf (on_failure t t' cb).
Proof. cb_unfold. cb_solve. Qed.

Lemma reset_wf t cb : wf cb -> wf (reset t cb).
Proof. cb_unfold. cb_solve. Qed.

Lemma decide_admission_wf t' cb : wf cb -> wf (decide_admission t' cb).1.
Proof. cb_unfold. cb_solve. Qed.

#[export] Hint Resolve check_state_transition_wf on_success_wf on_failure_wf reset_wf
  decide_admission_wf : breaker.

Lemma begin_call_wf t t' cb : wf cb -> wf (begin_call t t' cb).1.
Proof. intros H. apply decide_admission_wf, check_state_transition_wf, H. Qed.

Lemma begin_call_accounted t t' cb n e :
  accounted (mkWorld cb n e) ->
  match begin_call t t' cb with
  | (cb', Allowed) => accounted (mkWorld cb' (n + 1) e)
  | (cb', Rejected _) => accounted (mkWorld cb' n e)
  end.
Proof. unfold begin_call. cb_unfold. cb_solve. Qed.

Lemma on_success_accounted t cb n e :
  0 < n -> accounted (mkWorld cb n e) -> accounted (mkWorld (on_success t cb) (n - 1) e).
Proof. cb_unfold. cb_solve. Qed.

Lemma on_failure_accounted t t' cb n e :
  0 < n -> accounted (mkWorld cb n e) -> accounted (mkWorld (on_failure t t' cb) (n - 1) e).
Proof. cb_unfold. cb_solve. Qed.

Lemma read_accounted t cb n e :
  accounted (mkWorld cb n e) -> accounted (mkWorld (read_state t cb).1 n e).
Proof. cb_unfold. cb_solve. Qed.

Lemma reset_accounted t cb n e :
  accounted (mkWorld cb n e) -> accounted (mkWorld (reset t cb) n e).
Proof. cb_unfold. cb_solve. Qed.

#[export] Hint Resolve on_success_accounted on_failure_accounted read_accounted
  reset_accounted begin_call_wf : breaker.

Lemma begin_call_wf_eq t t' cb cb' a : begin_call t t' cb = (cb', a) -> wf cb -> wf cb'.
Proof. intros H. pose proof (begin_call_wf t t' cb) as Hb. by rewrite H in Hb. Qed.

Lemma admit_accounted t t' cb cb' n e :
  begin_call t t' cb = (cb', Allowed) ->
  accounted (mkWorld cb n e) -> accounted (mkWorld cb' (n + 1) e).
Proof. intros H Ha. pose proof (begin_call_accounted t t' _ _ _ Ha) as Hb. by rewrite H in Hb. Qed.

Lemma reject_accounted t t' cb cb' n e r :
  begin_call t t' cb = (cb', Rejected r) ->
  accounted (mkWorld cb n e) -> accounted (mkWorld cb' n e).
Proof. intros H Ha. pose proof (begin_call_accounted t t' _ _ _ Ha) as Hb. by rewrite H in Hb. Qed.

Lemma escape_accounted cb n e :
  0 < n -> accounted (mkWorld cb n e) -> accounted (mkWorld cb (n - 1) (e + 1)).
Proof. cb_unfold. cb_solve. Qed.

Lemma read_state_wf t cb : wf cb -> wf (read_state t cb).1.
Proof. apply check_state_transition_wf. Qed.

#[export] Hint Resolve read_state_wf begin_call_wf_eq admit_accounted reject_accounted escape_accounted
  : breaker.

Lemma step_wf ev w w' : step ev w w' -> wf_world w -> wf_world w'.
Proof. intros [] [Hwf Hacc]; split; cbn [breaker] in *; eauto with breaker. Qed.

Lemma init_wf nm ft rt hm st :
  1 <= ft -> 1 <= st -> 0 <= hm -> wf_world (initial_world nm ft rt hm st).
Proof. intros. unfold initial_world, wf_world. cb_unfold. split_and!; try done; lia. Qed.

(** ** Properties *)

(** in every world reachable from a fresh breaker by any interleaving of
    admissions, late successes and failures, escapes, state reads and resets, the
    counters respect their thresholds (fewer failures than the threshold while
    CLOSED, at most [half_open_max_calls] probes and fewer successes than the
    threshold while HALF_OPEN), the exported gauge mirrors the state, and each of
    the [total_calls] is exactly one of rejected, succeeded, failed, running or
    lost to a non-[Exception]. *)
Theorem breaker_reachable_wf nm ft rt hm st evs w :
  1 <= ft -> 1 <= st -> 0 <= hm ->
  trace evs (initial_world nm ft rt hm st) w -> wf_world w.
Proof.
  intros Hft Hst Hhm Htr. assert (Hi := init_wf nm ft rt hm st Hft Hst Hhm).
  induction Htr; eauto using step_wf.
Qed.

(** An event that neither resets the breaker nor looks at the clock after the
    recovery timeout counted from [t0]. *)
Definition within_open_window (t0 rt : Q) (ev : event) : Prop :=
  match ev with
  | Begin t _ | Read t => (t - t0 < rt)%Q
  | Reset_ _ => False
  | _ => True
  end.

Definition is_begin (ev : event) : bool := match ev with Begin _ _ => true | _ => false end.

Lemma check_open t cb :
  state_ cb = OPEN -> (t - opened_at cb < recovery_timeout cb)%Q ->
  check_state_transition t cb = cb.
Proof. intros Ho Ht. unfold check_state_transition. rewrite Ho. by apply qleb_false in Ht as ->. Qed.

Lemma begin_call_open t t' cb :
  state_ cb = OPEN -> (t - opened_at cb < recovery_timeout cb)%Q ->
  begin_call t t' cb =
    reject (Qmax 0 (recovery_timeout cb - (t' - opened_at cb)))
      (cb {{ total_calls ::= Z.add 1 }}).
Proof.
  intros Ho Ht. unfold begin_call. rewrite check_open by done.
  unfold decide_admission. cbn. by rewrite Ho.
Qed.

Lemma begin_call_closed t t' cb :
  state_ cb = CLOSED -> begin_call t t' cb = (cb {{ total_calls ::= Z.add 1 }}, Allowed).
Proof.
  intros Hc. unfold begin_call, check_state_transition. cbn. rewrite Hc.
  unfold decide_admission. cbn. by rewrite Hc.
Qed.

Lemma begin_call_half t t' cb :
  state_ cb = HALF_OPEN ->
  begin_call t t' cb =
    let cb := cb {{ total_calls ::= Z.add 1 }} in
    if half_open_max_calls cb <=? half_open_calls cb then reject 0 cb
    else (cb {{ half_open_calls ::= Z.add 1 }}, Allowed).
Proof.
  intros Hc. unfold begin_call, check_state_transition. cbn. rewrite Hc.
  unfold decide_admission. cbn. by rewrite Hc.
Qed.

Lemma open_window_step ev w w' :
  step ev w w' -> state_ (breaker w) = OPEN ->
  within_open_window (opened_at (breaker w)) (recovery_timeout (breaker w)) ev ->
  state_ (breaker w') = OPEN /\ opened_at (breaker w') = opened_at (breaker w) /\
  recovery_timeout (breaker w') = recovery_timeout (breaker w) /\
  in_flight w' <= in_flight w /\
  total_rejected (breaker w') = total_rejected (breaker w) + (if is_begin ev then 1 else 0).
Proof.
  intros [cb cb' n e t t' H|cb cb' n e t t' r H| | | | |] Ho Hw; cbn in *; try done.
  - by rewrite begin_call_open in H.
  - rewrite begin_call_open in H by done. injection H as <- _. cbn. split_and!; try done; lia.
  - unfold on_success. cbn. rewrite Ho. cbn. split_and!; try done; lia.
  - unfold on_failure. cbn. rewrite Ho. cbn. split_and!; try done; lia.
  - split_and!; try done; lia.
  - rewrite check_open by done. split_and!; try done; lia.
Qed.

(** once OPEN, and until [recovery_timeout] has elapsed since it opened, no
    interleaving of new calls, state reads and late results lets a call through:
    the breaker stays OPEN with the same opening time, every call begun is counted
    as rejected, and the calls in flight can only drain. *)
Theorem breaker_open_window evs w w' :
  trace evs w w' -> state_ (breaker w) = OPEN ->
  Forall (within_open_window (opened_at (breaker w)) (recovery_timeout (breaker w))) evs ->
  state_ (breaker w') = OPEN /\ opened_at (breaker w') = opened_at (breaker w) /\
  in_flight w' <= in_flight w /\
  total_rejected (breaker w') =
    total_rejected (breaker w) + Z.of_nat (length (List.filter is_begin evs)).
Proof.
  induction 1 as [w|ev evs w w1 w2 Hstep _ IH]; intros Ho HF; [cbn; split_and!; try done; lia|].
  apply Forall_cons in HF as [Hev HF].
  destruct (open_window_step _ _ _ Hstep Ho Hev) as (Ho1 & Ht & Hr & Hn & Hrej).
  rewrite <- Ht, <- Hr in HF. destruct (IH Ho1 HF) as (? & ? & ? & ?).
  split_and!; [done|congruence|lia|]. cbn. destruct (is_begin ev); cbn; lia.
Qed.

(** Sequential calls that all fail, or all succeed, one clock per call. *)
Definition call_all {A} (f : func_result A) (ks : list call_clock) (cb : CircuitBreaker)
  : CircuitBreaker := fold_left (fun cb k => (call k f cb).1) ks cb.

Lemma call_failure_closed k cb :
  state_ cb = CLOSED ->
  (call (A := unit) k RaisesException cb).1 =
    on_failure (t_done k) (t_open k) (cb {{ total_calls ::= Z.add 1 }}).
Proof. intros Hc. unfold call. by rewrite begin_call_closed. Qed.

(** a CLOSED breaker trips on exactly the [failure_threshold]-th consecutive
    failure: fewer failing calls leave it CLOSED with the failures counted, and
    reaching the threshold opens it at the time of the last failure. *)
Theorem breaker_trips ks k cb :
  state_ cb = CLOSED ->
  failure_count cb + Z.of_nat (length ks) < failure_threshold cb ->
  let cb1 := call_all (A := unit) RaisesException ks cb in
  let cb2 := call_all (A := unit) RaisesException (ks ++ [k]) cb in
  state_ cb1 = CLOSED /\
  failure_count cb1 = failure_count cb + Z.of_nat (length ks) /\
  (failure_count cb + Z.of_nat (length ks) + 1 = failure_threshold cb ->
   state_ cb2 = OPEN /\ opened_at cb2 = t_open k).
Proof.
  intros Hc Hlt. unfold call_all. rewrite fold_left_app. cbn -[call].
  revert cb Hc Hlt. induction ks as [|k0 ks IH]; intros cb Hc Hlt.
  - cbn -[call] in *. split_and!; [done|lia|]. intros Heq. rewrite call_failure_closed by done.
    unfold on_failure. cbn. rewrite Hc.
    destruct (Z.leb_spec (failure_threshold cb) (1 + failure_count cb)); [done|lia].
  - rewrite length_cons in Hlt. cbn -[call] in *. rewrite call_failure_closed by done.
    set (cb' := on_failure _ _ _).
    assert (Hs : state_ cb' = CLOSED /\ failure_count cb' = 1 + failure_count cb /\
                 failure_threshold cb' = failure_threshold cb).
    { subst cb'. unfold on_failure. cbn. rewrite Hc.
      destruct (Z.leb_spec (failure_threshold cb) (1 + failure_count cb)); [lia|done]. }
    destruct Hs as (Hc' & Hf' & Ht'). destruct (IH cb' Hc') as (H1 & H2 & H3); [lia|].
    split_and!; [done|lia|]. intros. apply H3. lia.
Qed.

Lemma call_success_half k cb :
  state_ cb = HALF_OPEN -> half_open_calls cb < half_open_max_calls cb ->
  (call k (Returns tt) cb).1 =
    on_success (t_done k) (cb {{ total_calls ::= Z.add 1 }} {{ half_open_calls ::= Z.add 1 }}).
Proof.
  intros Hc Hlt. unfold call. rewrite begin_call_half by done. cbn.
  destruct (Z.leb_spec (half_open_max_calls cb) (half_open_calls cb)); [lia|done].
Qed.

Lemma call_elapsed_open {A} k (f : func_result A) cb :
  state_ cb = OPEN -> (recovery_timeout cb <= t_check k - opened_at cb)%Q ->
  call k f cb = call k f (transition_to (t_check k) HALF_OPEN cb).
Proof.
  intros Ho Ht. apply qleb_true in Ht. unfold call, begin_call, check_state_transition.
  cbn. rewrite Ho, Ht. done.
Qed.

Lemma probes_close ks cb :
  state_ cb = HALF_OPEN -> ks <> [] ->
  success_count cb + Z.of_nat (length ks) = success_threshold cb ->
  half_open_calls cb + Z.of_nat (length ks) <= half_open_max_calls cb ->
  state_ (call_all (Returns tt) ks cb) = CLOSED /\
  failure_count (call_all (Returns tt) ks cb) = 0.
Proof.
  unfold call_all. revert cb. induction ks as [|k ks IH]; [done|]; intros cb Hs _ Hsucc Hmax.
  rewrite length_cons in Hsucc, Hmax. cbn -[call]. rewrite call_success_half by (done || lia).
  set (cb' := on_success _ _). destruct ks as [|k' ks].
  - cbn in *. subst cb'. unfold on_success. cbn. rewrite Hs. cbn.
    destruct (Z.leb_spec (success_threshold cb) (1 + success_count cb)); [done|lia].
  - rewrite length_cons in *.
    assert (Hs' : state_ cb' = HALF_OPEN /\ success_count cb' = 1 + success_count cb /\
                  half_open_calls cb' = 1 + half_open_calls cb /\
                  success_threshold cb' = success_threshold cb /\
                  half_open_max_calls cb' = half_open_max_calls cb).
    { subst cb'. unfold on_success. cbn. rewrite Hs. cbn.
      destruct (Z.leb_spec (success_threshold cb) (1 + success_count cb)); [lia|done]. }
    destruct Hs' as (? & ? & ? & ? & ?). apply IH; [done|done| |]; cbn [length] in *; lia.
Qed.

(** Once the recovery timeout has elapsed an OPEN breaker recovers: with a
    positive success threshold that fits in the probe budget, exactly
    [success_threshold] successful calls close it and clear its failures. *)
Theorem breaker_recovers k ks cb :
  state_ cb = OPEN ->
  (recovery_timeout cb <= t_check k - opened_at cb)%Q ->
  success_threshold cb <= half_open_max_calls cb ->
  Z.of_nat (length (k :: ks)) = success_threshold cb ->
  state_ (call_all (Returns tt) (k :: ks) cb) = CLOSED /\
  failure_count (call_all (Returns tt) (k :: ks) cb) = 0.
Proof.
  intros Ho Ht Hle Hlen. unfold call_all. cbn [fold_left]. rewrite call_elapsed_open by done.
  apply (probes_close (k :: ks) (transition_to (t_check k) HALF_OPEN cb)); cbn -[Z.of_nat length]; try done; lia.
Qed.

(** No starvation while probing.  When the success threshold fits in the
    probe budget and no call was lost to a non-[Exception], a HALF_OPEN breaker
    with nothing in flight admits the next call, so it can always make progress. *)
Theorem breaker_half_open_progress w t t' :
  wf_world w -> state_ (breaker w) = HALF_OPEN ->
  success_threshold (breaker w) <= half_open_max_calls (breaker w) ->
  in_flight w = 0 -> escaped w = 0 ->
  (begin_call t t' (breaker w)).2 = Allowed.
Proof.
  intros [(_ & Hc & _) (_ & _ & _ & Hh)] Hs Hle Hn He.
  unfold counters_ok in Hc. rewrite Hs in Hc. specialize (Hh Hs).
  rewrite begin_call_half by done. cbn.
  destruct (Z.leb_spec (half_open_max_calls (breaker w)) (half_open_calls (breaker w))); [lia|done].
Qed.

Definition is_reset (ev : event) : bool := match ev with Reset_ _ => true | _ => false end.

(** Out of probe slots with nothing running. *)
Definition wedged (w : world) : Prop :=
  state_ (breaker w) = HALF_OPEN /\
  half_open_max_calls (breaker w) <= half_open_calls (breaker w) /\ in_flight w = 0.

Lemma wedged_step ev w w' :
  step ev w w' -> is_reset ev = false -> wedged w ->
  wedged w' /\ total_successes (breaker w') = total_successes (breaker w) /\
  total_rejected (breaker w') = total_rejected (breaker w) + (if is_begin ev then 1 else 0).
Proof.
  unfold wedged. intros [cb cb' n e t t' H|cb cb' n e t t' r H| | | | |] Hr (Hs & Hmax & Hn);
    cbn in *; try done; try lia.
  - rewrite begin_call_half in H by done. cbn in H.
    destruct (Z.leb_spec (half_open_max_calls cb) (half_open_calls cb)); [done|lia].
  - rewrite begin_call_half in H by done. cbn in H.
    destruct (Z.leb_spec (half_open_max_calls cb) (half_open_calls cb)); [|lia].
    injection H as <- _. cbn. split_and!; try done; lia.
  - unfold check_state_transition. rewrite Hs. split_and!; try done; lia.
Qed.

(** a HALF_OPEN breaker whose probe slots are all used while nothing is in
    flight never recovers by itself: whatever calls and clock readings follow, as
    long as nobody calls [reset] it stays HALF_OPEN and rejects every call. *)
Theorem breaker_wedge evs w w' :
  trace evs w w' -> Forall (fun ev => is_reset ev = false) evs -> wedged w ->
  wedged w' /\ total_successes (breaker w') = total_successes (breaker w) /\
  total_rejected (breaker w') =
    total_rejected (breaker w) + Z.of_nat (length (List.filter is_begin evs)).
Proof.
  induction 1 as [w|ev evs w w1 w2 Hstep _ IH]; intros HF Hw; [cbn; split_and!; try done; lia|].
  apply Forall_cons in HF as [Hev HF].
  destruct (wedged_step _ _ _ Hstep Hev Hw) as (Hw1 & Hs1 & Hr1).
  destruct (IH HF Hw1) as (? & ? & ?). split_and!; [done|lia|].
  cbn. destruct (is_begin ev); cbn; lia.
Qed.

(** ** Concrete schedules *)

(** Five failures at second 0 trip the default breaker. *)
Definition tripped : list event := concat (repeat [Begin 0 0; Failure 0 0] 5).

Definition world_after (evs : list event) : world :=
  default (initial_world "embedding" 5 30 3 2)
    (exec_all evs (initial_world "embedding" 5 30 3 2)).

Lemma breaker_reachable_wf_witness :
  wf_world (world_after (tripped ++ [Begin 31 31; Success 31])).
Proof.
  apply (breaker_reachable_wf "embedding" 5 30 3 2 (tripped ++ [Begin 31 31; Success 31]));
    [lia|lia|lia|]. apply exec_all_trace. vm_compute. reflexivity.
Defined.

Lemma breaker_open_window_witness :
  state_ (breaker (world_after (tripped ++ [Begin 10 10; Read 29]))) = OPEN /\
  total_rejected (breaker (world_after (tripped ++ [Begin 10 10; Read 29]))) = 1.
Proof.
  destruct (breaker_open_window [Begin 10 10; Read 29] (world_after tripped)
              (world_after (tripped ++ [Begin 10 10; Read 29]))) as (H1 & _ & _ & H2).
  - apply exec_all_trace. vm_compute. reflexivity.
  - vm_compute. reflexivity.
  - repeat constructor; vm_compute; reflexivity.
  - split; [exact H1|]. rewrite H2. vm_compute. reflexivity.
Defined.

Definition clock (t : Q) : call_clock := mkClock t t t t.

Lemma breaker_trips_witness :
  state_ (call_all (A := unit) RaisesException (repeat (clock 7) 5) (default_breaker "rag")) = OPEN.
Proof.
  destruct (breaker_trips (repeat (clock 7) 4) (clock 7) (default_breaker "rag")) as (_ & _ & H).
  - reflexivity.
  - vm_compute. reflexivity.
  - apply H. vm_compute. reflexivity.
Defined.

Lemma breaker_recovers_witness :
  state_ (call_all (Returns tt) [clock 40; clock 41] (breaker (world_after tripped))) = CLOSED.
Proof.
  apply (breaker_recovers (clock 40) [clock 41] (breaker (world_after tripped)));
    vm_compute; (reflexivity || discriminate).
Defined.

Lemma breaker_half_open_progress_witness :
  (begin_call 33 33
    (breaker (world_after (tripped ++ [Begin 31 31; Success 32])))).2 = Allowed.
Proof.
  apply (breaker_half_open_progress (world_after (tripped ++ [Begin 31 31; Success 32])));
    try (vm_compute; (reflexivity || discriminate)).
  apply (step_wf (Success 32) (world_after (tripped ++ [Begin 31 31]))).
  - apply exec_step. vm_compute. reflexivity.
  - unfold wf_world. vm_compute. repeat split; (discriminate || intros; discriminate).
Defined.

(** Three probes that end with a [BaseException] (a cancelled task, say). *)
Definition lost_probes : list event := concat (repeat [Begin 31 31; Escape] 3).

Lemma breaker_wedge_witness :
  trace (tripped ++ lost_probes) (initial_world "embedding" 5 30 3 2)
    (world_after (tripped ++ lost_probes)) /\
  total_rejected (breaker (world_after (tripped ++ lost_probes ++ [Begin 3600 3600]))) = 1.
Proof.
  split; [apply exec_all_trace; vm_compute; reflexivity|].
  destruct (breaker_wedge [Begin 3600 3600] (world_after (tripped ++ lost_probes))
              (world_after (tripped ++ lost_probes ++ [Begin 3600 3600]))) as (_ & _ & H).
  - apply exec_all_trace. vm_compute. reflexivity.
  - repeat constructor.
  - vm_compute. repeat split; discriminate.
  - rewrite H. vm_compute. reflexivity.
Defined.
