(* ===== verification/Retry.v ===== *)
(** * Retry policy ([src/backend/shared/retry.py])

    Exponential backoff with full jitter and the [execute] loop.  The callable,
    the random draws of [random.uniform] and the outcome classes of the
    exceptions are parameters: [func i] is what the [i]-th invocation does and
    [rnd i] the [i]-th draw in [[0,1]]. *)

From Stdlib Require Import QArith Qminmax Lqa.
From stdpp Require Import base list.
From S2P Require Import Prelude.

Local Open Scope Z_scope.

Record RetryPolicy := mkPolicy {
  max_retries : Z;
  base_delay : Q;
  max_delay : Q;
  jitter : bool;
  attempt : nat
}.

#[export] Instance eta_RetryPolicy : Eta RetryPolicy := fun x =>
  mkPolicy (max_retries x) (base_delay x) (max_delay x) (jitter x) (attempt x).

Definition init_policy (mr : Z) (bd md : Q) (j : bool) : RetryPolicy := mkPolicy mr bd md j 0.

Definition create_consumer_retry_policy : RetryPolicy := init_policy 0 1 30 true.

Definition reset (p : RetryPolicy) : RetryPolicy := p {{ attempt := 0%nat }}.

(** [base_delay * (2 ** attempt)] multiplies a float by an exact [int]; the
    conversion of that [int] raises [OverflowError] from [2 ** 1024] on. *)
Definition FLOAT_MAX_EXP : nat := 1024.

Definition pow2 (n : nat) : Q := inject_Z (2 ^ Z.of_nat n).

(** [float(min(max_delay, base_delay * 2 ** attempt))]; [None] is the
    [OverflowError]. *)
Definition exp_delay (p : RetryPolicy) : option Q :=
  if (attempt p <? FLOAT_MAX_EXP)%nat
  then Some (Qmin (max_delay p) (base_delay p * pow2 (attempt p)))
  else None.

(** [get_delay] with [u] the draw of [random.random()] behind
    [random.uniform(0, d) = 0 + (d - 0) * u]. *)
Definition get_delay (u : Q) (p : RetryPolicy) : option Q :=
  d ← exp_delay p; Some (if jitter p then 0 + (d - 0) * u else d)%Q.

Definition should_retry (p : RetryPolicy) : bool :=
  if max_retries p =? 0 then true else Z.of_nat (attempt p) <? max_retries p.

(** [wait]: the delay handed to [time.sleep] and the incremented policy. *)
Definition wait (u : Q) (p : RetryPolicy) : option (RetryPolicy * Q) :=
  d ← get_delay u p; Some (p {{ attempt ::= S }}, d).

(** ** [execute] *)

Section Execute.
Context {A E : Type}.

(** What one invocation of [func] does. *)
Inductive invocation :=
  | Returns (a : A)
  | RaisesRetryable (e : E)
  | RaisesOther (e : E).

Inductive outcome :=
  | Returned (a : A)
  | RetryExhausted (attempts : nat) (last_error : option E)
  | Propagated (e : E)
  | DelayOverflow.

(** Observable effects of one [execute]: invocations of [func], arguments of
    [on_retry], delays slept, the policy it leaves and how it ended. *)
Record run := mkRun {
  calls : nat;
  on_retry : list (nat * E);
  delays : list Q;
  final_policy : RetryPolicy;
  ended : outcome
}.

Variable func : nat -> invocation.
Variable rnd : nat -> Q.

Fixpoint execute_loop (fuel : nat) (p : RetryPolicy) (n : nat) (last : option E)
    (retries : list (nat * E)) (slept : list Q) : option run :=
  match fuel with
  | O => None
  | S fuel =>
      if should_retry p then
        match func n with
        | Returns a => Some (mkRun (S n) retries slept (reset p) (Returned a))
        | RaisesOther e => Some (mkRun (S n) retries slept p (Propagated e))
        | RaisesRetryable e =>
            let retries := retries ++ [(attempt p, e)] in
            if negb (should_retry p) then
              Some (mkRun (S n) retries slept p (RetryExhausted (attempt p) (Some e)))
            else
              match wait (rnd n) p with
              | None => Some (mkRun (S n) retries slept p DelayOverflow)
              | Some (p', d) => execute_loop fuel p' (S n) (Some e) retries (slept ++ [d])
              end
        end
      else Some (mkRun n retries slept p (RetryExhausted (attempt p) last))
  end.

(** [execute]; [fuel] bounds the iterations of the [while] loop. *)
Definition execute (fuel : nat) (p : RetryPolicy) : option run :=
  execute_loop fuel (reset p) 0 None [] [].

(** ** Reference behaviour *)

Definition is_retryable (i : invocation) : option E :=
  match i with RaisesRetryable e => Some e | _ => None end.

(** Failures of the invocations before the first decisive one, at most [n]. *)
Fixpoint failures (i n : nat) : list E :=
  match n with
  | O => []
  | S n => match func i with
           | RaisesRetryable e => e :: failures (S i) n
           | _ => []
           end
  end.

Definition delay_at (p : RetryPolicy) (i : nat) : Q :=
  let d := Qmin (max_delay p) (base_delay p * pow2 i) in
  (if jitter p then 0 + (d - 0) * rnd i else d)%Q.

(** What a caller of [execute] with [n] retries may rely on: with [k] leading
    retryable failures it invokes [func] once more when [k < n], sleeps after
    each failure, and reports the decisive invocation or exhaustion. *)
Definition reference (n : nat) (p : RetryPolicy) : run :=
  let fs := failures 0 n in
  let k := length fs in
  let retries := imap (fun i e => (i, e)) fs in
  let slept := map (delay_at p) (seq 0 k) in
  if (k <? n)%nat then
    match func k with
    | Returns a => mkRun (S k) retries slept (p {{ attempt := 0%nat }}) (Returned a)
    | RaisesOther e => mkRun (S k) retries slept (p {{ attempt := k }}) (Propagated e)
    | RaisesRetryable e => mkRun (S k) retries slept (p {{ attempt := k }}) DelayOverflow
    end
  else mkRun k retries slept (p {{ attempt := k }}) (RetryExhausted k (last fs)).
End Execute.

Arguments invocation : clear implicits.
Arguments outcome : clear implicits.
Arguments run : clear implicits.

(** ** Lemmas *)

Section Lemmas.
Context {A E : Type} (func : nat -> invocation A E) (rnd : nat -> Q).

Lemma wait_below_overflow u p :
  (attempt p < FLOAT_MAX_EXP)%nat ->
  wait u p = Some (p {{ attempt ::= S }}, delay_at (fun _ => u) p (attempt p)).
Proof.
  intros H. unfold wait, get_delay, exp_delay, delay_at.
  destruct (Nat.ltb_spec (attempt p) FLOAT_MAX_EXP); [done|lia].
Qed.

Lemma should_retry_bounded p n :
  max_retries p = Z.of_nat n -> (0 < n)%nat -> should_retry p = (attempt p <? n)%nat.
Proof.
  intros Hm Hn. unfold should_retry. rewrite Hm.
  destruct (Z.eqb_spec (Z.of_nat n) 0); [lia|].
  destruct (Z.ltb_spec (Z.of_nat (attempt p)) (Z.of_nat n)), (Nat.ltb_spec (attempt p) n);
    done || lia.
Qed.

Lemma length_failures i n : (length (failures func i n) <= n)%nat.
Proof. revert i. induction n as [|n IH]; intros i; cbn; [lia|]. destruct (func i); cbn; [lia| |lia].
  specialize (IH (S i)). lia. Qed.

Lemma policy_attempt_id p : p {{ attempt := attempt p }} = p.
Proof. by destruct p. Qed.

(** The loop from its [i]-th iteration: it consumes the failures ahead of it,
    then stops for the reason the reference gives. *)
Lemma execute_loop_spec n m fuel p last0 retries slept :
  let i := attempt p in
  let fs := failures func i m in
  let k := length fs in
  max_retries p = Z.of_nat n -> (0 < n <= FLOAT_MAX_EXP)%nat -> (i + m = n)%nat ->
  (m < fuel)%nat ->
  execute_loop func rnd fuel p i last0 retries slept = Some (
    let retries := retries ++ imap (fun j e => ((i + j)%nat, e)) fs in
    let slept := slept ++ map (delay_at rnd p) (seq i k) in
    if (k <? m)%nat then
      match func (i + k)%nat with
      | Returns a => mkRun (S (i + k)) retries slept (p {{ attempt := 0%nat }}) (Returned a)
      | RaisesOther e =>
          mkRun (S (i + k)) retries slept (p {{ attempt := (i + k)%nat }}) (Propagated e)
      | RaisesRetryable e =>
          mkRun (S (i + k)) retries slept (p {{ attempt := (i + k)%nat }}) DelayOverflow
      end
    else mkRun (i + k) retries slept (p {{ attempt := (i + k)%nat }})
           (RetryExhausted (i + k) (match last fs with Some e => Some e | None => last0 end))).
Proof.
  cbn zeta. revert fuel p last0 retries slept.
  induction m as [|m IH]; intros [|fuel] p last0 retries slept Hm Hn Hi Hf; try lia.
  - cbn [execute_loop failures length imap seq map last]. rewrite !app_nil_r, Nat.add_0_r.
    rewrite (should_retry_bounded p n) by (done || lia).
    destruct (Nat.ltb_spec (attempt p) n); [lia|]. cbn. by rewrite policy_attempt_id.
  - cbn [execute_loop]. rewrite (should_retry_bounded p n) by (done || lia).
    destruct (Nat.ltb_spec (attempt p) n); [|lia].
    cbn [failures]. destruct (func (attempt p)) as [a|e|e] eqn:Ef.
    + cbn. rewrite Nat.add_0_r, Ef, !app_nil_r. done.
    + cbn [negb]. rewrite wait_below_overflow by lia.
      set (p' := p {{ attempt ::= S }}).
      change (S (attempt p)) with (attempt p').
      rewrite (IH fuel p') by (cbn; lia || done).
      cbn [length]. replace (attempt p' + length (failures func (attempt p') m))%nat
        with (attempt p + S (length (failures func (attempt p') m)))%nat by (cbn; lia).
      set (fs := failures func (attempt p') m). cbn [seq map imap].
      rewrite <- !app_assoc. cbn [app].
      replace (S (length fs) <? S m)%nat with (length fs <? m)%nat by done.
      assert (Himap : imap (fun j e => ((attempt p' + j)%nat, e)) fs =
                      imap ((fun j e => ((attempt p + j)%nat, e)) ∘ S) fs).
      { apply imap_ext. intros j x _. cbn. f_equal. lia. }
      rewrite Himap, Nat.add_0_r. do 2 f_equal.
      destruct fs using rev_ind; [done|]. by rewrite !last_snoc, app_comm_cons, last_snoc.
    + cbn. rewrite Nat.add_0_r, Ef, !app_nil_r. by rewrite policy_attempt_id.
Qed.
End Lemmas.

Lemma execute_spec {A E} (func : nat -> invocation A E) rnd n fuel p :
  max_retries p = Z.of_nat n -> (0 < n <= FLOAT_MAX_EXP)%nat -> (n < fuel)%nat ->
  execute func rnd fuel p = Some (reference func rnd n p).
Proof.
  intros Hm Hn Hf.
  pose proof (execute_loop_spec func rnd n n fuel (reset p) None [] []) as H. cbn zeta in H.
  change (attempt (reset p)) with 0%nat in H. unfold execute.
  rewrite H by (done || lia). unfold reference. cbn [Nat.add app]. do 2 f_equal.
  by destruct (last (failures func 0 n)).
Qed.

(** ** Properties *)

(** C37: with a positive retry budget [n] (at most 1024, where the backoff factor
    still fits a float) [execute] terminates within [n] loop iterations and does
    exactly what the reference says: the first invocation that is not a retryable
    failure decides the result (a success also resets the policy), [on_retry] sees
    every earlier failure with its attempt number, one backoff delay is slept per
    failure, and [n] failures raise [RetryExhausted] with the last one. *)
Theorem retry_execute_refines {A E} (func : nat -> invocation A E) rnd n fuel p :
  max_retries p = Z.of_nat n -> (0 < n <= FLOAT_MAX_EXP)%nat -> (n < fuel)%nat ->
  execute func rnd fuel p = Some (reference func rnd n p).
Proof. apply execute_spec. Qed.

Lemma failures_all {A E} (func : nat -> invocation A E) (e : nat -> E) n i :
  (forall j, (i <= j < i + n)%nat -> func j = RaisesRetryable (e j)) ->
  failures func i n = map e (seq i n).
Proof.
  revert i. induction n as [|n IH]; intros i H; [done|]. cbn.
  rewrite H by lia. f_equal. apply IH. intros j Hj. apply H. lia.
Qed.

(** When all [n] permitted attempts fail, [execute] sleeps [n] times: the
    [should_retry] test after a failure never fires, because the counter only moves
    inside [wait], so one backoff is slept after the last attempt before
    [RetryExhausted] is raised. *)
Theorem retry_sleeps_after_last_failure {A E} (func : nat -> invocation A E) rnd e n fuel p :
  max_retries p = Z.of_nat n -> (0 < n <= FLOAT_MAX_EXP)%nat -> (n < fuel)%nat ->
  (forall j, (j < n)%nat -> func j = RaisesRetryable (e j)) ->
  exists r, execute func rnd fuel p = Some r /\
    calls r = n /\ length (delays r) = n /\
    ended r = RetryExhausted n (Some (e (n - 1)%nat)).
Proof.
  intros Hm Hn Hf Hall.
  assert (Hfs : failures func 0 n = map e (seq 0 n)) by (apply failures_all; intros; apply Hall; lia).
  rewrite (execute_spec func rnd n) by done. eexists; split; [done|].
  unfold reference. rewrite Hfs, length_map, length_seq.
  rewrite Nat.ltb_irrefl. cbn [calls delays ended app].
  rewrite length_map, length_seq. split_and!; [done|done|]. do 2 f_equal.
  destruct n as [|n]; [lia|]. rewrite seq_S, map_app. cbn. rewrite last_snoc.
  do 2 f_equal. lia.
Qed.

Lemma pow2_pos n : (0 <= pow2 n)%Q.
Proof. unfold pow2, Qle. cbn. lia. Qed.

(** Every backoff delay below the overflow bound exists, is non-negative and
    is capped by both [max_delay] and [base_delay * 2 ^ attempt], whatever the
    random draw. *)
Theorem retry_delay_bounds u p :
  (0 <= u <= 1)%Q -> (0 <= base_delay p)%Q -> (0 <= max_delay p)%Q ->
  (attempt p < FLOAT_MAX_EXP)%nat ->
  exists d, get_delay u p = Some d /\
    (0 <= d)%Q /\ (d <= max_delay p)%Q /\ (d <= base_delay p * pow2 (attempt p))%Q.
Proof.
  intros [Hu0 Hu1] Hb Hm Ha. unfold get_delay, exp_delay.
  destruct (Nat.ltb_spec (attempt p) FLOAT_MAX_EXP); [|lia].
  eexists; split; [done|].
  assert (Hp := pow2_pos (attempt p)).
  assert (Hx : (0 <= base_delay p * pow2 (attempt p))%Q) by (by apply Qmult_le_0_compat).
  set (d := Qmin (max_delay p) (base_delay p * pow2 (attempt p))).
  assert (Hd0 : (0 <= d)%Q) by (by apply Q.min_glb).
  assert (Hd1 : (d <= max_delay p)%Q) by apply Q.le_min_l.
  assert (Hd2 : (d <= base_delay p * pow2 (attempt p))%Q) by apply Q.le_min_r.
  destruct (jitter p); [|done].
  assert (0 <= d * u)%Q by (by apply Qmult_le_0_compat).
  assert (d * u <= d)%Q by nra.
  split_and!; lra.
Qed.

Lemma execute_loop_overflow {A E} (func : nat -> invocation A E) rnd m fuel p last0 retries slept :
  max_retries p = 0 -> (attempt p + m = FLOAT_MAX_EXP)%nat -> (m < fuel)%nat ->
  (forall j, exists e, func j = RaisesRetryable e) ->
  exists r, execute_loop func rnd fuel p (attempt p) last0 retries slept = Some r /\
    calls r = S FLOAT_MAX_EXP /\ ended r = DelayOverflow.
Proof.
  intros Hm Hi Hf Hall. revert fuel p last0 retries slept Hm Hi Hf.
  induction m as [|m IH]; intros [|fuel] p last0 retries slept Hm Hi Hf; try lia;
    destruct (Hall (attempt p)) as [e He];
    assert (Hs : should_retry p = true) by (unfold should_retry; by rewrite Hm);
    cbn [execute_loop]; rewrite Hs, He; cbn [negb].
  - unfold wait, get_delay, exp_delay.
    destruct (Nat.ltb_spec (attempt p) FLOAT_MAX_EXP); [lia|].
    eexists; split; [done|]. cbn. split; [lia|done].
  - rewrite wait_below_overflow by lia.
    change (S (attempt p)) with (attempt (p {{ attempt ::= S }})).
    apply IH; cbn; lia || done.
Qed.

(** The "infinite" policy is not infinite: with [max_retries = 0] a callable
    that keeps failing is invoked 1025 times and then [execute] leaves with an
    [OverflowError] from the backoff computation instead of retrying. *)
Theorem retry_infinite_overflows {A E} (func : nat -> invocation A E) rnd fuel p :
  max_retries p = 0 -> (FLOAT_MAX_EXP < fuel)%nat ->
  (forall j, exists e, func j = RaisesRetryable e) ->
  exists r, execute func rnd fuel p = Some r /\
    calls r = S FLOAT_MAX_EXP /\ ended r = DelayOverflow.
Proof. intros. unfold execute. by apply (execute_loop_overflow func rnd FLOAT_MAX_EXP fuel (reset p)). Qed.

(** ** Concrete runs *)

Definition flaky (i : nat) : invocation nat nat :=
  if (i <? 2)%nat then RaisesRetryable i else Returns 42%nat.

Lemma retry_execute_refines_witness :
  execute flaky (fun _ => 1 # 2)%Q 4 (init_policy 3 1 60 true) =
    Some (reference flaky (fun _ => 1 # 2)%Q 3 (init_policy 3 1 60 true)).
Proof. apply (retry_execute_refines flaky _ 3 4); [reflexivity|unfold FLOAT_MAX_EXP; lia|lia]. Defined.

Lemma retry_sleeps_after_last_failure_witness :
  exists r, execute (fun j => @RaisesRetryable nat nat j) (fun _ => 1 # 2)%Q 4
              (init_policy 3 1 60 false) = Some r /\
    calls r = 3%nat /\ length (delays r) = 3%nat /\ ended r = RetryExhausted 3 (Some 2%nat).
Proof.
  apply (retry_sleeps_after_last_failure (fun j => RaisesRetryable j) _ (fun j => j) 3 4);
    [reflexivity|unfold FLOAT_MAX_EXP; lia|lia|reflexivity].
Defined.

Lemma retry_delay_bounds_witness :
  exists d, get_delay (1 # 3) (create_consumer_retry_policy {{ attempt := 3%nat }}) = Some d /\
    (d <= 30)%Q.
Proof.
  destruct (retry_delay_bounds (1 # 3) (create_consumer_retry_policy {{ attempt := 3%nat }}))
    as (d & Hd & _ & Hm & _).
  - split; vm_compute; discriminate.
  - vm_compute; discriminate.
  - vm_compute; discriminate.
  - cbn. unfold FLOAT_MAX_EXP. lia.
  - exists d. split; [exact Hd|exact Hm].
Defined.

Lemma retry_infinite_overflows_witness :
  exists r, execute (fun j => @RaisesRetryable nat nat j) (fun _ => 1 # 2)%Q 1026
              create_consumer_retry_policy = Some r /\
    ended r = DelayOverflow.
Proof.
  destruct (retry_infinite_overflows (fun j => @RaisesRetryable nat nat j) (fun _ => 1 # 2)%Q 1026
              create_consumer_retry_policy) as (r & H1 & _ & H2).
  - reflexivity.
  - unfold FLOAT_MAX_EXP. lia.
  - intros j. by exists j.
  - exists r. split; [exact H1|exact H2].
Defined.
