(* ===== verification/RateLimiter.v ===== *)
(** * Rate limiter ([src/backend/shared/rate_limiter.py])

    The token bucket, the global/per-IP limiter with its periodic cleanup, and
    the decision part of the HTTP middleware.  Every [time.monotonic()] reading
    is an argument; [_client_ip] (address parsing) is outside the model, so the
    middleware takes the client address. *)

From Stdlib Require Import QArith Qminmax Qround Lqa.
From stdpp Require Import base list strings gmap fin_maps.
From S2P Require Import Prelude.

Local Open Scope Z_scope.

(** ** Token bucket *)

Record TokenBucket := mkBucket { rate : Q; capacity : Q; tokens_ : Q; last_refill : Q }.

#[export] Instance eta_TokenBucket : Eta TokenBucket := fun b =>
  mkBucket (rate b) (capacity b) (tokens_ b) (last_refill b).

Definition init_bucket (r c now : Q) : TokenBucket := mkBucket r c c now.

(** Tokens after the refill for the time elapsed up to [now]. *)
Definition available_tokens (now : Q) (b : TokenBucket) : Q :=
  Qmin (capacity b) (tokens_ b + (now - last_refill b) * rate b).

Definition consume (now tokens : Q) (b : TokenBucket) : TokenBucket * bool :=
  let b := b {{ tokens_ := available_tokens now b }} {{ last_refill := now }} in
  if tokens <=?q tokens_ b then (b {{ tokens_ := tokens_ b - tokens }}, true)%Q
  else (b, false).

(** A number of seconds, or [float("inf")]. *)
Inductive seconds := Sec (q : Q) | Infinite.

Definition time_until_available (b : TokenBucket) : seconds :=
  if 1 <=?q tokens_ b then Sec 0
  else let deficit := (1 - tokens_ b)%Q in
       if 0 <?q rate b then Sec (deficit / rate b) else Infinite.

(** ** Limiter *)

Record RateLimiter := mkLimiter {
  global_rate : Q;
  per_ip_rate : Q;
  burst_multiplier : Q;
  cleanup_interval : Q;
  global_bucket : TokenBucket;
  ip_buckets : gmap string TokenBucket;
  ip_last_seen : gmap string Q;
  last_cleanup : Q;
  total_allowed : Z;
  total_rejected : Z;
  rejected_by_ip : gmap string Z
}.

#[export] Instance eta_RateLimiter : Eta RateLimiter := fun x =>
  mkLimiter (global_rate x) (per_ip_rate x) (burst_multiplier x) (cleanup_interval x)
    (global_bucket x) (ip_buckets x) (ip_last_seen x) (last_cleanup x) (total_allowed x)
    (total_rejected x) (rejected_by_ip x).

Definition init_limiter (gr pr bm ci now : Q) : RateLimiter :=
  mkLimiter gr pr bm ci (init_bucket gr (gr * bm) now) ∅ ∅ now 0 0 ∅.

(** The [stale_ips] test of [_maybe_cleanup]. *)
Definition stale (now : Q) (l : RateLimiter) (ip : string) : bool :=
  match ip_last_seen l !! ip with
  | Some seen => cleanup_interval l <?q (now - seen)
  | None => false
  end.

(** [_maybe_cleanup]; [None] is the [KeyError] of deleting a bucket that a stale
    address does not have. *)
Definition maybe_cleanup (now : Q) (l : RateLimiter) : option RateLimiter :=
  if (now - last_cleanup l) <?q cleanup_interval l then Some l
  else
    let l := l {{ last_cleanup := now }} in
    if decide (map_Forall (fun ip _ => stale now l ip = true -> is_Some (ip_buckets l !! ip))
                          (ip_last_seen l)) then
      Some (l {{ ip_buckets ::= filter (fun kv => stale now l kv.1 = false) }}
              {{ ip_last_seen ::= filter (fun kv => stale now l kv.1 = false) }}
              {{ rejected_by_ip ::= filter (fun kv => stale now l kv.1 = false) }})
    else None.

(** [_get_ip_bucket]: [t] stamps the visit, [t'] a bucket created now. *)
Definition get_ip_bucket (t t' : Q) (ip : string) (l : RateLimiter) : RateLimiter * TokenBucket :=
  let l := l {{ ip_last_seen ::= <[ip := t]> }} in
  match ip_buckets l !! ip with
  | Some b => (l, b)
  | None =>
      let b := init_bucket (per_ip_rate l) (per_ip_rate l * burst_multiplier l) t' in
      (l {{ ip_buckets ::= <[ip := b]> }}, b)
  end.

(** The clock readings of one [check], in order. *)
Record check_clock := mkCheckClock {
  t_cleanup : Q; t_global : Q; t_seen : Q; t_new : Q; t_ip : Q
}.

Inductive verdict :=
  | AllowedReq
  | RejectedGlobal (retry_after : seconds)
  | RejectedIp (retry_after : seconds).

(** [check]; [None] only for the [KeyError] of the cleanup. *)
Definition check (k : check_clock) (ip : string) (l : RateLimiter)
  : option (RateLimiter * verdict) :=
  l ← maybe_cleanup (t_cleanup k) l;
  let '(g, ok) := consume (t_global k) 1 (global_bucket l) in
  let l := l {{ global_bucket := g }} in
  if negb ok then
    Some (l {{ total_rejected ::= Z.add 1 }}, RejectedGlobal (time_until_available g))
  else
    let '(l, b) := get_ip_bucket (t_seen k) (t_new k) ip l in
    let '(b, ok) := consume (t_ip k) 1 b in
    let l := l {{ ip_buckets ::= <[ip := b]> }} in
    if negb ok then
      Some (l {{ total_rejected ::= Z.add 1 }}
              {{ rejected_by_ip := <[ip := default 0 (rejected_by_ip l !! ip) + 1]>
                                     (rejected_by_ip l) }},
            RejectedIp (time_until_available b))
    else Some (l {{ total_allowed ::= Z.add 1 }}, AllowedReq).

(** ** Middleware *)

Definition EXEMPT_PATHS : list string :=
  ["/health"; "/live"; "/ready"; "/docs"; "/openapi.json"; "/redoc"]%string.

(** The whitelist is a class attribute, one set shared by every limiter. *)
Definition add_to_whitelist (ip : string) (wl : gset string) : gset string := {[ip]} ∪ wl.
Definition is_whitelisted (ip : string) (wl : gset string) : bool := bool_decide (ip ∈ wl).

(** [int(x)] truncates towards zero. *)
Definition py_int (x : Q) : Z := Z.quot (Qnum x) (Zpos (Qden x)).

Inductive response :=
  | PassThrough
  | TooManyRequests (retry_after_header : Z)
  | Forwarded (limit remaining : Z)
  | ServerError.

Definition retry_after_header (s : seconds) : option Z :=
  match s with
  | Infinite => None
  | Sec q => Some (if negb (Qeq_bool q 0) then py_int q + 1 else 1)
  end.

(** [dispatch] up to the status and headers it decides; [t] and [t'] are read by
    the second [_get_ip_bucket], [t''] by [available_tokens].  [ServerError] is
    the [OverflowError] of [int(inf)] or the [KeyError] of the cleanup. *)
Definition dispatch (k : check_clock) (t t' t'' : Q) (path ip : string) (wl : gset string)
    (l : RateLimiter) : RateLimiter * response :=
  if bool_decide (path ∈ EXEMPT_PATHS) then (l, PassThrough)
  else if is_whitelisted ip wl then (l, PassThrough)
  else
    match check k ip l with
    | None => (l, ServerError)
    | Some (l, AllowedReq) =>
        let '(l, b) := get_ip_bucket t t' ip l in
        (l, Forwarded (py_int (per_ip_rate l)) (py_int (available_tokens t'' b)))
    | Some (l, RejectedGlobal s) | Some (l, RejectedIp s) =>
        (l, match retry_after_header s with
            | Some h => TooManyRequests h
            | None => ServerError
            end)
    end.

(** ** Bucket lemmas *)

Definition bucket_ok (b : TokenBucket) : Prop :=
  (0 <= rate b)%Q /\ (0 <= tokens_ b)%Q /\ (tokens_ b <= capacity b)%Q.

Lemma available_bounds now b :
  bucket_ok b -> (last_refill b <= now)%Q ->
  (tokens_ b <= available_tokens now b)%Q /\ (available_tokens now b <= capacity b)%Q /\
  (available_tokens now b <= tokens_ b + (now - last_refill b) * rate b)%Q.
Proof.
  intros (Hr & Ht & Hc) Hn. unfold available_tokens.
  assert (0 <= (now - last_refill b) * rate b)%Q by (apply Qmult_le_0_compat; lra).
  split_and!; [apply Q.min_glb; lra | apply Q.le_min_l | apply Q.le_min_r].
Qed.

Lemma consume_spec now n b :
  consume now n b =
    if n <=?q available_tokens now b
    then (mkBucket (rate b) (capacity b) (available_tokens now b - n)%Q now, true)
    else (mkBucket (rate b) (capacity b) (available_tokens now b) now, false).
Proof. unfold consume. cbn. by destruct (qleb n _). Qed.

Lemma consume_ok now n b :
  bucket_ok b -> (last_refill b <= now)%Q -> (0 <= n)%Q -> bucket_ok (consume now n b).1.
Proof.
  intros Hb Hn H0. destruct (available_bounds now b Hb Hn) as (H1 & H2 & _).
  destruct Hb as (Hr & Ht & Hc). rewrite consume_spec.
  destruct (qleb n _) eqn:E; unfold bucket_ok; cbn; [apply qleb_true in E|]; split_and!; lra.
Qed.

(** A run of unit-token requests at the given times, with the number granted. *)
Fixpoint consume_all (ts : list Q) (b : TokenBucket) : TokenBucket * Z :=
  match ts with
  | [] => (b, 0)
  | t :: ts => let '(b, ok) := consume t 1 b in
               let '(b, n) := consume_all ts b in
               (b, n + if (ok : bool) then 1 else 0)
  end.

(** Times read from a monotonic clock, starting at [t]. *)
Fixpoint monotone_from (t : Q) (ts : list Q) : Prop :=
  match ts with
  | [] => True
  | t' :: ts => (t <= t')%Q /\ monotone_from t' ts
  end.

Fixpoint final_time (t : Q) (ts : list Q) : Q :=
  match ts with [] => t | t' :: ts => final_time t' ts end.

Lemma consume_all_budget ts b :
  bucket_ok b -> monotone_from (last_refill b) ts ->
  bucket_ok (consume_all ts b).1 /\
  (inject_Z (consume_all ts b).2 + tokens_ (consume_all ts b).1 <=
   tokens_ b + (final_time (last_refill b) ts - last_refill b) * rate b)%Q.
Proof.
  revert b. induction ts as [|t ts IH]; intros b Hb Hm; cbn.
  { split; [done|]. change (inject_Z 0) with 0%Q. lra. }
  destruct Hm as [Hle Hm]. assert (Hok := consume_ok t 1 b Hb Hle ltac:(lra)).
  destruct (available_bounds t b Hb Hle) as (_ & _ & Hav).
  rewrite consume_spec in *.
  destruct (qleb 1 (available_tokens t b)); cbn in Hok;
    match goal with |- context [consume_all ts ?b0] => destruct (IH b0 Hok Hm) as (H1 & H3) end;
    match goal with |- context [consume_all ts ?b0] => destruct (consume_all ts b0) as [b' n] end;
    cbn in *; (split; [done|]);
    rewrite inject_Z_plus; change (inject_Z 1) with 1%Q; change (inject_Z 0) with 0%Q; nra.
Qed.

(** ** Limiter lemmas *)

(** Every address seen has a bucket and conversely, the buckets are sound, and
    rejections are only recorded for known addresses. *)
Record limiter_ok (l : RateLimiter) : Prop := {
  lo_dom : dom (ip_buckets l) = dom (ip_last_seen l);
  lo_rej : dom (rejected_by_ip l) ⊆ dom (ip_last_seen l);
  lo_shape : map_Forall (fun _ b => rate b = per_ip_rate l /\
    capacity b = (per_ip_rate l * burst_multiplier l)%Q) (ip_buckets l)
}.

Lemma init_limiter_ok gr pr bm ci now : limiter_ok (init_limiter gr pr bm ci now).
Proof. split; cbn; [set_solver|set_solver|apply map_Forall_empty]. Qed.

Lemma dom_filter_stale {A B} (m : gmap string A) (m' : gmap string B) (P : string -> Prop)
    `{!forall k, Decision (P k)} :
  dom m ⊆ dom m' ->
  dom (filter (fun kv => P kv.1) m) ⊆ dom (filter (fun kv => P kv.1) m').
Proof.
  intros Hd k. rewrite !elem_of_dom. intros [x [Hx Hk]%map_lookup_filter_Some].
  assert (k ∈ dom m') as [y Hy]%elem_of_dom by (apply Hd, elem_of_dom; eauto).
  exists y. by apply map_lookup_filter_Some.
Qed.

(** The cleanup never fails on a sound limiter, keeps it sound, and drops
    exactly the stale addresses. *)
Lemma maybe_cleanup_ok now l :
  limiter_ok l ->
  exists l', maybe_cleanup now l = Some l' /\ limiter_ok l' /\
    global_bucket l' = global_bucket l /\ total_allowed l' = total_allowed l /\
    total_rejected l' = total_rejected l /\ ip_buckets l' ⊆ ip_buckets l /\
    per_ip_rate l' = per_ip_rate l /\ burst_multiplier l' = burst_multiplier l.
Proof.
  intros [Hd Hr Hs]. unfold maybe_cleanup.
  destruct (qltb (now - last_cleanup l) (cleanup_interval l)); [by eexists|].
  destruct (decide _) as [_|Hn].
  - eexists; split; [done|]. split; [split|]; cbn.
    + set (P := fun ip => stale now (l {{ last_cleanup := now }}) ip = false).
      pose proof (dom_filter_stale (ip_buckets l) (ip_last_seen l) P) as H1.
      pose proof (dom_filter_stale (ip_last_seen l) (ip_buckets l) P) as H2.
      rewrite Hd in H1, H2. apply (anti_symm (⊆)); auto.
    + set (P := fun ip => stale now (l {{ last_cleanup := now }}) ip = false).
      pose proof (dom_filter_stale (rejected_by_ip l) (ip_last_seen l) P Hr) as H1. auto.
    + intros k b [Hb _]%map_lookup_filter_Some. by apply (Hs k).
    + split_and!; try done. apply map_filter_subseteq.
  - destruct Hn. intros ip t Ht _. cbn in *.
    assert (ip ∈ dom (ip_buckets l)) as ?%elem_of_dom by (rewrite Hd; apply elem_of_dom; eauto).
    done.
Qed.

Lemma get_ip_bucket_ok t t' ip l :
  limiter_ok l ->
  let '(l', b) := get_ip_bucket t t' ip l in
  limiter_ok l' /\ ip_buckets l' !! ip = Some b /\ ip ∈ dom (ip_last_seen l') /\
  global_bucket l' = global_bucket l /\ total_allowed l' = total_allowed l /\
  total_rejected l' = total_rejected l /\
  b = default (init_bucket (per_ip_rate l) (per_ip_rate l * burst_multiplier l) t')
        (ip_buckets l !! ip).
Proof.
  intros [Hd Hr Hs]. unfold get_ip_bucket. cbn.
  destruct (ip_buckets l !! ip) as [b|] eqn:E; cbn.
  - assert (ip ∈ dom (ip_last_seen l)) by (rewrite <- Hd; apply elem_of_dom; eauto).
    split_and!; try done; [|set_solver]. split; cbn; [set_solver|set_solver|done].
  - split_and!; try done; [|by simplify_map_eq|set_solver].
    split; cbn; [set_solver|set_solver|]. by apply map_Forall_insert_2.
Qed.

Lemma limiter_ok_set_bucket ip b l :
  limiter_ok l -> ip_buckets l !! ip = Some b -> forall b', rate b' = rate b ->
  capacity b' = capacity b -> limiter_ok (l {{ ip_buckets ::= <[ip := b']> }}).
Proof.
  intros [Hd Hr Hs] Hb b' H1 H2.
  assert (ip ∈ dom (ip_last_seen l)) by (rewrite <- Hd; apply elem_of_dom; eauto).
  split; cbn; [set_solver|done|]. apply map_Forall_insert_2; [|done].
  rewrite H1, H2. by apply (Hs ip).
Qed.

Lemma limiter_ok_frame l l' :
  limiter_ok l -> ip_buckets l' = ip_buckets l -> ip_last_seen l' = ip_last_seen l ->
  dom (rejected_by_ip l') ⊆ dom (ip_last_seen l) ->
  per_ip_rate l' = per_ip_rate l -> burst_multiplier l' = burst_multiplier l -> limiter_ok l'.
Proof. intros [Hd Hr Hs] H1 H2 H3 H4 H5. split; rewrite ?H1, ?H2, ?H4, ?H5; done. Qed.

(** ** Properties *)

(** over any run of requests at times read from a monotonic clock, a bucket
    grants at most its initial tokens plus [rate] tokens per elapsed second, and its
    level always stays between 0 and [capacity]. *)
Theorem bucket_rate_bound ts b :
  bucket_ok b -> monotone_from (last_refill b) ts ->
  bucket_ok (consume_all ts b).1 /\
  (inject_Z (consume_all ts b).2 <=
     tokens_ b + (final_time (last_refill b) ts - last_refill b) * rate b)%Q.
Proof.
  intros Hb Hm. destruct (consume_all_budget ts b Hb Hm) as [H1 H2].
  split; [done|]. destruct H1 as (_ & H1 & _). lra.
Qed.

(** [time_until_available] is exact.  After a refused request on a bucket with
    a positive rate and room for one token, it reports a positive delay, and a later
    request is granted if and only if it comes at least that much later. *)
Theorem bucket_retry_after_exact t b b' :
  (0 < rate b)%Q -> (1 <= capacity b)%Q -> consume t 1 b = (b', false) ->
  exists d, time_until_available b' = Sec d /\ (0 < d)%Q /\
    forall t', (t <= t')%Q -> ((consume t' 1 b').2 = true <-> (t + d <= t')%Q).
Proof.
  intros Hr Hc Hcons. rewrite consume_spec in Hcons.
  destruct (qleb 1 (available_tokens t b)) eqn:E; [done|]. injection Hcons as <-.
  apply qleb_false in E. set (a := available_tokens t b) in *.
  unfold time_until_available. cbn. apply qleb_false in E as E'. rewrite E'.
  apply qltb_true in Hr as Hr'. rewrite Hr'. eexists; split; [done|].
  assert (Hd : (((1 - a) / rate b) * rate b == 1 - a)%Q) by (field; lra).
  set (d := ((1 - a) / rate b)%Q) in *. split; [nra|]. intros t' Ht'.
  rewrite consume_spec. unfold available_tokens. cbn.
  match goal with |- context [qleb 1 ?q] => destruct (qleb 1 q) eqn:E2 end; cbn.
  - apply qleb_true in E2. split; [intros _|done].
    assert (H := Q.le_min_r (capacity b) (a + (t' - t) * rate b)). nra.
  - apply qleb_false in E2. split; [done|intros Hge]. exfalso.
    assert (1 <= Qmin (capacity b) (a + (t' - t) * rate b))%Q; [|lra].
    apply Q.min_glb; [done|]. nra.
Qed.

(** dropping an idle bucket is invisible: once the time since its last refill
    is long enough to refill it completely, the next request gets the same verdict,
    and leaves the same bucket, as one made against a bucket created afresh. *)
Theorem bucket_cleanup_transparent t t0 n b :
  (0 <= rate b)%Q -> (0 <= tokens_ b)%Q -> (t0 <= t)%Q ->
  (capacity b <= (t - last_refill b) * rate b)%Q ->
  consume t n b = consume t n (init_bucket (rate b) (capacity b) t0).
Proof.
  intros Hr Ht H0 Hc. rewrite !consume_spec.
  assert (Ha : available_tokens t b = capacity b).
  { unfold available_tokens. apply Qmin_left. lra. }
  assert (Hb : available_tokens t (init_bucket (rate b) (capacity b) t0) = capacity b).
  { unfold available_tokens. cbn. apply Qmin_left.
    assert (0 <= (t - t0) * rate b)%Q by (apply Qmult_le_0_compat; lra). lra. }
  rewrite Ha, Hb. done.
Qed.

Lemma consume_shape t n b :
  rate (consume t n b).1 = rate b /\ capacity (consume t n b).1 = capacity b /\
  last_refill (consume t n b).1 = t.
Proof. rewrite consume_spec. by destruct (qleb n _). Qed.

Lemma check_ok k ip l l' v :
  limiter_ok l -> check k ip l = Some (l', v) ->
  limiter_ok l' /\ total_allowed l' + total_rejected l' = total_allowed l + total_rejected l + 1.
Proof.
  intros Hok. unfold check. destruct (maybe_cleanup_ok (t_cleanup k) l Hok)
    as (l1 & -> & Hok1 & Hg1 & Ha1 & Hr1 & _ & Hp1 & Hb1). cbn [mbind option_bind].
  destruct (consume (t_global k) 1 (global_bucket l1)) as [g []]; cbn [negb].
  2: { intros [= <- <-]. split; [by apply (limiter_ok_frame l1); destruct Hok1|cbn; lia]. }
  assert (Hok2 : limiter_ok (l1 {{ global_bucket := g }}))
    by (by apply (limiter_ok_frame l1); destruct Hok1).
  pose proof (get_ip_bucket_ok (t_seen k) (t_new k) ip _ Hok2) as Hget.
  destruct (get_ip_bucket _ _ _ _) as [l2 b] eqn:Eget. destruct Hget as (Hok3 & Hb & Hin & _ & Ha & Hr & _).
  destruct (consume (t_ip k) 1 b) as [b' ok] eqn:Ec.
  destruct (consume_shape (t_ip k) 1 b) as (Hsr & Hsc & _). rewrite Ec in Hsr, Hsc.
  assert (Hok4 := limiter_ok_set_bucket ip b l2 Hok3 Hb b' Hsr Hsc).
  cbn in Ha, Hr. destruct ok; cbn [negb]; intros [= <- <-];
    (split; [|cbn; lia]); apply (limiter_ok_frame (l2 {{ ip_buckets ::= <[ip := b']> }})); try done;
    destruct Hok3; cbn in *; [done|set_solver].
Qed.

(** A sequence of checks, counting the verdicts delivered. *)
Fixpoint check_all (reqs : list (check_clock * string)) (l : RateLimiter) : option RateLimiter :=
  match reqs with
  | [] => Some l
  | (k, ip) :: reqs => '(l, _) ← check k ip l; check_all reqs l
  end.

Lemma check_total k ip l : limiter_ok l -> exists l' v, check k ip l = Some (l', v).
Proof.
  intros Hok. unfold check.
  destruct (maybe_cleanup_ok (t_cleanup k) l Hok) as (l1 & -> & _). cbn [mbind option_bind].
  destruct (consume _ _ _) as [g []]; cbn [negb]; [|by eauto].
  destruct (get_ip_bucket _ _ _ _) as [l2 b]. destruct (consume _ _ _) as [b' []]; eauto.
Qed.

(** from a fresh limiter, any sequence of checks (whatever addresses and clock
    readings, cleanups included) runs without a [KeyError], keeps the bucket and
    last-seen tables on the same addresses, and counts each request exactly once as
    allowed or rejected. *)
Theorem limiter_checks_ok reqs gr pr bm ci now :
  exists l, check_all reqs (init_limiter gr pr bm ci now) = Some l /\ limiter_ok l /\
    total_allowed l + total_rejected l = Z.of_nat (length reqs).
Proof.
  assert (H : forall l, limiter_ok l -> exists l', check_all reqs l = Some l' /\ limiter_ok l' /\
    total_allowed l' + total_rejected l' = total_allowed l + total_rejected l + Z.of_nat (length reqs)).
  { induction reqs as [|[k ip] reqs IH]; intros l Hl; [exists l; split_and!; [done|done|cbn; lia]|].
    cbn -[Z.of_nat]. destruct (check_total k ip l Hl) as (l1 & v & E). rewrite E. cbn -[Z.of_nat].
    destruct (check_ok k ip l l1 v Hl E) as [Hl1 Ht].
    destruct (IH l1 Hl1) as (l2 & H1 & H2 & H3). exists l2. split_and!; [done|done|lia]. }
  destruct (H _ (init_limiter_ok gr pr bm ci now)) as (l & H1 & H2 & H3).
  exists l. split_and!; [done|done|]. rewrite H3. cbn. lia.
Qed.

(** The global bucket is charged before the per-IP one: a request refused for
    its address has already spent a global token, so an address over its own limit
    still drains the budget of everybody else. *)
Theorem ip_rejection_spends_global k ip l l' s :
  limiter_ok l -> check k ip l = Some (l', RejectedIp s) ->
  (tokens_ (global_bucket l') == available_tokens (t_global k) (global_bucket l) - 1)%Q /\
  last_refill (global_bucket l') = t_global k.
Proof.
  intros Hok. unfold check. destruct (maybe_cleanup_ok (t_cleanup k) l Hok)
    as (l1 & -> & Hok1 & Hg1 & _). cbn [mbind option_bind]. rewrite Hg1.
  rewrite consume_spec. destruct (qleb 1 _); cbn [negb]; [|intros [=]].
  match goal with |- context [get_ip_bucket ?a ?b ?c ?l0] =>
    assert (Hok2 : limiter_ok l0) by (by apply (limiter_ok_frame l1); destruct Hok1);
    pose proof (get_ip_bucket_ok a b c l0 Hok2) as Hget; destruct (get_ip_bucket a b c l0) as [l2 b0]
  end. destruct Hget as (_ & _ & _ & Hg & _).
  destruct (consume (t_ip k) 1 b0) as [b' []]; cbn [negb]; intros [= <- _].
  cbn in *. rewrite Hg. cbn. split; [lra|done].
Qed.

Lemma py_int_lt q : (0 <= q)%Q -> (q < inject_Z (py_int q + 1))%Q.
Proof.
  destruct q as [n d]. unfold Qle, Qlt, py_int. cbn. intros H.
  rewrite Z.quot_div_nonneg by lia. pose proof (Z.mul_succ_div_gt n (Zpos d)). lia.
Qed.

(** The [Retry-After] header a refused client receives is honest: waiting that
    many seconds is enough for the bucket that refused it (with a positive rate and
    room for one token) to grant its next request. *)
Theorem retry_after_header_sufficient t b b' h t' :
  (0 < rate b)%Q -> (1 <= capacity b)%Q -> consume t 1 b = (b', false) ->
  retry_after_header (time_until_available b') = Some h ->
  (t + inject_Z h <= t')%Q -> (consume t' 1 b').2 = true.
Proof.
  intros Hr Hc Hcons Hh Ht'. rewrite consume_spec in Hcons.
  destruct (qleb 1 (available_tokens t b)) eqn:E; [done|]. injection Hcons as <-.
  revert Hh. unfold time_until_available. cbn. rewrite E. apply qltb_true in Hr as Hr'.
  rewrite Hr'. apply qleb_false in E. cbn. set (a := available_tokens t b) in *.
  assert (Hd : (((1 - a) / rate b) * rate b == 1 - a)%Q) by (field; lra).
  set (d := ((1 - a) / rate b)%Q) in *. assert (Hd0 : (0 < d)%Q) by nra.
  assert (Hlt := py_int_lt d ltac:(lra)).
  destruct (Qeq_bool d 0) eqn:Ed; [apply Qeq_bool_eq in Ed; lra|]. cbn. intros [= <-].
  rewrite consume_spec. unfold available_tokens. cbn.
  match goal with |- context [qleb 1 ?q] => assert (Hq : qleb 1 q = true) end; [|by rewrite Hq].
  apply qleb_true, Q.min_glb; [done|]. nra.
Qed.

(** ** Concrete runs *)

Definition bucket20 : TokenBucket := init_bucket 20 40 0.

Lemma bucket_rate_bound_witness :
  (inject_Z (consume_all (repeat 0%Q 50 ++ [1 # 2]%Q) bucket20).2 <= 50)%Q.
Proof.
  destruct (bucket_rate_bound (repeat 0%Q 50 ++ [1 # 2]%Q) bucket20) as [_ H].
  - vm_compute. repeat split; discriminate.
  - vm_compute. repeat split; discriminate.
  - eapply Qle_trans; [exact H|]. vm_compute. discriminate.
Defined.

Definition empty_bucket : TokenBucket := mkBucket 20 40 0 5.

Lemma bucket_retry_after_exact_witness :
  exists d, time_until_available empty_bucket = Sec d /\ (0 < d)%Q.
Proof.
  destruct (bucket_retry_after_exact 5 empty_bucket empty_bucket) as (d & H1 & H2 & _).
  - reflexivity.
  - discriminate.
  - reflexivity.
  - exists d. split; [exact H1|exact H2].
Defined.

Lemma bucket_cleanup_transparent_witness :
  consume 10 1 empty_bucket = consume 10 1 (init_bucket 20 40 9).
Proof. apply (bucket_cleanup_transparent 10 9 1 empty_bucket); vm_compute; discriminate. Defined.

Lemma retry_after_header_sufficient_witness : (consume 6 1 empty_bucket).2 = true.
Proof.
  apply (retry_after_header_sufficient 5 empty_bucket empty_bucket 1 6);
    vm_compute; (reflexivity || discriminate).
Defined.

(** One address may send a single request here; its second request is refused
    and costs the global bucket a token all the same. *)
Definition small_limiter : RateLimiter := init_limiter 2 1 1 300 0.
Definition at_zero : check_clock := mkCheckClock 0 0 0 0 0.

Lemma ip_rejection_spends_global_witness :
  exists l l' s, check at_zero "10.0.0.1" small_limiter = Some (l, AllowedReq) /\
    check at_zero "10.0.0.1" l = Some (l', RejectedIp s) /\
    (tokens_ (global_bucket l') == 0)%Q.
Proof.
  destruct (check at_zero "10.0.0.1" small_limiter) as [[l v]|] eqn:E; [|discriminate].
  destruct (check at_zero "10.0.0.1" l) as [[l' v']|] eqn:E'.
  - pose proof (check_ok _ _ _ _ _ (init_limiter_ok 2 1 1 300 0) E) as [Hok _].
    vm_compute in E. injection E as <- <-. vm_compute in E'. injection E' as <- <-.
    eexists _, _, _. split; [reflexivity|]. split; [reflexivity|].
    match goal with |- context [tokens_ (global_bucket ?l1)] =>
      destruct (ip_rejection_spends_global at_zero "10.0.0.1" _ l1 (Sec 1) Hok) as [H _] end.
    + vm_compute. reflexivity.
    + rewrite H. vm_compute. reflexivity.
  - vm_compute in E. injection E as <- <-. vm_compute in E'. discriminate.
Defined.
