(* ===== verification/Deduplication.v ===== *)
(** * Idempotency cache ([src/backend/shared/deduplication.py])

    The TTL cache that message consumers ask before processing a redelivered
    message.  The cache is a Python dict: an association list in insertion order, in
    which re-marking a key keeps its position.  Each operation takes the clock values
    it reads. *)

From Stdlib Require Import QArith Qminmax.
From stdpp Require Import base list strings gmap.
From S2P Require Import Prelude.

Local Open Scope Z_scope.
Local Open Scope ragforge_scope.

Abbreviation entry := (string * Q)%type.

Record settings := mkSettings { ttl_seconds : Q; max_size : Z; cleanup_interval : Q }.

Record cache_state := mkCache {
  cache : list entry; last_cleanup : Q; hits : Z; misses : Z; evictions : Z
}.

#[export] Instance eta_cache_state : Eta cache_state := fun x =>
  mkCache (cache x) (last_cleanup x) (hits x) (misses x) (evictions x).

Definition init_cache (now : Q) : cache_state := mkCache [] now 0 0 0.

(** ** Dict operations *)

Fixpoint dict_get (k : string) (c : list entry) : option Q :=
  match c with
  | [] => None
  | (k', e) :: c => if bool_decide (k' = k) then Some e else dict_get k c
  end.

Fixpoint dict_set (k : string) (e : Q) (c : list entry) : list entry :=
  match c with
  | [] => [(k, e)]
  | (k', e') :: c => if bool_decide (k' = k) then (k, e) :: c else (k', e') :: dict_set k e c
  end.

Definition dict_del (k : string) (c : list entry) : list entry :=
  List.filter (fun '(k', _) => negb (bool_decide (k' = k))) c.

Section Cache.
Context (cfg : settings).

(** ** Operations *)

(** The locked part of [_maybe_cleanup]. *)
Definition sweep (now : Q) (s : cache_state) : cache_state :=
  let keep := List.filter (fun '(_, e) => now <?q e) (cache s) in
  s {{ last_cleanup := now }} {{ cache := keep }}
    {{ evictions ::= Z.add (Z.of_nat (length (cache s) - length keep)) }}.

Definition maybe_cleanup (now : Q) (s : cache_state) : cache_state :=
  if (now - last_cleanup s)%Q <?q cleanup_interval cfg then s else sweep now s.

(** The locked part of [is_duplicate]. *)
Definition lookup_key (now : Q) (k : string) (s : cache_state) : bool * cache_state :=
  match dict_get k (cache s) with
  | Some expiry =>
      if now <?q expiry then (true, s {{ hits ::= Z.add 1 }})
      else (false, s {{ cache ::= dict_del k }} {{ misses ::= Z.add 1 }})
  | None => (false, s {{ misses ::= Z.add 1 }})
  end.

(** [is_duplicate]: the cleanup reads the clock at [now1], the check at [now2]. *)
Definition is_duplicate (now1 now2 : Q) (k : string) (s : cache_state) : bool * cache_state :=
  lookup_key now2 k (maybe_cleanup now1 s).

Definition evict_oldest (s : cache_state) : cache_state :=
  let count := Z.to_nat (Z.max 1 (Z.of_nat (length (cache s)) / 5)) in
  let victims := take count (py_sorted (fun x y : entry => x.2 <=?q y.2) (cache s)) in
  s {{ cache := fold_left (fun c v => dict_del v.1 c) victims (cache s) }}
    {{ evictions ::= Z.add (Z.of_nat (length victims)) }}.

Definition mark_processed (now : Q) (k : string) (ttl_override : option Q) (s : cache_state)
  : cache_state :=
  let ttl := match ttl_override with Some t => t | None => ttl_seconds cfg end in
  let s := s {{ cache ::= dict_set k (now + ttl)%Q }} in
  if max_size cfg <? Z.of_nat (length (cache s)) then evict_oldest s else s.

(** [clear]: the entries go, the metrics stay. *)
Definition clear (s : cache_state) : cache_state := s {{ cache := [] }}.

(** ** Histories

    A history is a sequence of critical sections.  [Query] is an [is_duplicate] that no
    other thread interrupts; when one does, its two critical sections appear apart, as
    [Sweep] (whose clock value was read before the lock was taken, and may be old) and
    [Lookup].  The section of [metrics] only reads. *)

Inductive op :=
  | Query (now1 now2 : Q) (k : string)
  | Sweep (now : Q)
  | Lookup (now : Q) (k : string)
  | Mark (now : Q) (k : string) (ttl_override : option Q)
  | Clear.

Definition step_op (o : op) (s : cache_state) : list bool * cache_state :=
  match o with
  | Query n1 n2 k => let '(b, s) := is_duplicate n1 n2 k s in ([b], s)
  | Sweep n => ([], sweep n s)
  | Lookup n k => let '(b, s) := lookup_key n k s in ([b], s)
  | Mark n k t => ([], mark_processed n k t s)
  | Clear => ([], clear s)
  end.

Fixpoint run_ops (ops : list op) (s : cache_state) : list bool * cache_state :=
  match ops with
  | [] => ([], s)
  | o :: ops => let '(b, s) := step_op o s in let '(bs, s) := run_ops ops s in (b ++ bs, s)
  end.

(** The promise: a key is a duplicate until the expiry of its latest mark, and no longer than
    the next [clear]. *)
Definition marked_until (m : gmap string Q) (now : Q) (k : string) : bool :=
  match m !! k with Some e => now <?q e | None => false end.

Definition spec_op (o : op) (m : gmap string Q) : list bool * gmap string Q :=
  match o with
  | Query _ now k | Lookup now k => ([marked_until m now k], m)
  | Sweep _ => ([], m)
  | Mark n k t => ([], <[k := (n + match t with Some t => t | None => ttl_seconds cfg end)%Q]> m)
  | Clear => ([], ∅)
  end.

Fixpoint spec_ops (ops : list op) (m : gmap string Q) : list bool * gmap string Q :=
  match ops with
  | [] => ([], m)
  | o :: ops => let '(b, m) := spec_op o m in let '(bs, m) := spec_ops ops m in (b ++ bs, m)
  end.

(** At no point of the history more than [max_size] keys were marked since the last [clear]. *)
Fixpoint fits (ops : list op) (m : gmap string Q) : Prop :=
  Z.of_nat (size m) <= max_size cfg /\
  match ops with [] => True | o :: ops => fits ops (spec_op o m).2 end.

(** A monotonic clock: every read under the lock is at or after those before it. *)
Fixpoint clock_ok (now : Q) (ops : list op) : Prop :=
  match ops with
  | [] => True
  | Query n1 n2 _ :: ops => (now <= n1)%Q /\ (n1 <= n2)%Q /\ clock_ok n2 ops
  | Sweep n :: ops => clock_ok (Qmax now n) ops
  | Clear :: ops => clock_ok now ops
  | Lookup n _ :: ops | Mark n _ _ :: ops => (now <= n)%Q /\ clock_ok n ops
  end.

(** ** Dict lemmas *)

Lemma dict_get_set k k' e c :
  dict_get k (dict_set k' e c) = if bool_decide (k' = k) then Some e else dict_get k c.
Proof.
  induction c as [|[x ex] c IH]; cbn; [done|].
  destruct (decide (x = k')) as [->|Hx].
  - rewrite bool_decide_true by done. cbn. by case_bool_decide.
  - rewrite bool_decide_false by done. cbn. rewrite IH. repeat case_bool_decide; congruence.
Qed.

Lemma dict_get_del k k' c :
  dict_get k (dict_del k' c) = if bool_decide (k' = k) then None else dict_get k c.
Proof.
  induction c as [|[x ex] c IH]; cbn; [by case_bool_decide|].
  destruct (decide (x = k')) as [->|Hx].
  - rewrite bool_decide_true by done. cbn. unfold dict_del in IH. rewrite IH. by repeat case_bool_decide.
  - rewrite bool_decide_false by done. cbn. unfold dict_del in IH. rewrite IH.
    repeat case_bool_decide; congruence.
Qed.

Lemma dict_get_None k c : k ∉ c.*1 -> dict_get k c = None.
Proof.
  induction c as [|[x e] c IH]; cbn; [done|]. intros [Hx Hc]%not_elem_of_cons.
  rewrite bool_decide_false by done. auto.
Qed.

Lemma dict_get_filter (f : entry -> bool) k c :
  NoDup c.*1 ->
  dict_get k (List.filter f c) =
  match dict_get k c with Some e => if f (k, e) then Some e else None | None => None end.
Proof.
  induction c as [|[x e] c IH]; cbn; [done|]. intros [Hx Hc]%NoDup_cons. specialize (IH Hc).
  destruct (decide (x = k)) as [->|Hne].
  - rewrite (bool_decide_true (k = k)) by done. destruct (f (k, e)); cbn.
    + by rewrite bool_decide_true.
    + rewrite IH. by rewrite dict_get_None.
  - rewrite (bool_decide_false (x = k)) by done. destruct (f (x, e)); cbn; [|done].
    by rewrite bool_decide_false.
Qed.

Lemma keys_filter_sublist (f : entry -> bool) c : (List.filter f c).*1 `sublist_of` c.*1.
Proof. induction c as [|x c IH]; cbn; [done|]. destruct (f x); cbn; by constructor. Qed.

Lemma keys_set k e c : k ∈ c.*1 -> (dict_set k e c).*1 = c.*1.
Proof.
  induction c as [|[x ex] c IH]; cbn; [by intros ?%elem_of_nil|].
  case_bool_decide as Hx; [by subst|]. intros [->|Hk]%elem_of_cons; [done|]. cbn. by rewrite IH.
Qed.

Lemma keys_set_new k e c : k ∉ c.*1 -> (dict_set k e c).*1 = c.*1 ++ [k].
Proof.
  induction c as [|[x ex] c IH]; cbn; [done|]. intros [Hx Hc]%not_elem_of_cons.
  rewrite bool_decide_false by done. cbn. by rewrite IH.
Qed.

Lemma nodup_set k e c : NoDup c.*1 -> NoDup (dict_set k e c).*1.
Proof.
  intros Hc. destruct (decide (k ∈ c.*1)); [by rewrite keys_set|]. rewrite keys_set_new by done.
  apply NoDup_app. split_and!; [done| |apply NoDup_singleton]. intros x Hx ->%list_elem_of_singleton. done.
Qed.

(** ** Refinement *)

(** Every entry is one the history has; [refines] adds that no live one is missing. *)
Record sound (s : cache_state) (m : gmap string Q) : Prop := {
  sd_nodup : NoDup (cache s).*1;
  sd_get : forall k e, dict_get k (cache s) = Some e -> m !! k = Some e
}.

Record refines (now : Q) (s : cache_state) (m : gmap string Q) : Prop := {
  rf_sound : sound s m;
  rf_complete : forall k e, m !! k = Some e -> (now < e)%Q -> dict_get k (cache s) = Some e
}.

Lemma dict_get_elem k c : k ∈ c.*1 -> is_Some (dict_get k c).
Proof.
  induction c as [|[x e] c IH]; cbn; [by intros ?%elem_of_nil|].
  case_bool_decide; [eauto|]. intros [->|Hk]%elem_of_cons; [done|auto].
Qed.

(** The cache never holds more keys than were ever marked. *)
Lemma sound_size s m : sound s m -> (length (cache s) <= size m)%nat.
Proof.
  intros [Hnd Hs]. rewrite <-(length_fmap fst), <-(size_list_to_set (C := gset string) (cache s).*1) by done.
  rewrite <-size_dom. apply subseteq_size. intros k Hk. apply elem_of_dom.
  apply elem_of_list_to_set, dict_get_elem in Hk as [e He]. exists e. by apply Hs.
Qed.

Lemma sound_ext s s' m : cache s' = cache s -> sound s m -> sound s' m.
Proof. intros E [Hnd Hs]. by split; rewrite E. Qed.

Lemma sound_filter f s m c :
  cache s = List.filter f c -> sound (s {{ cache := c }}) m -> sound s m.
Proof.
  intros E [Hnd Hs]. cbn in *. split; rewrite E.
  - eapply sublist_NoDup; [exact Hnd|]. apply keys_filter_sublist.
  - intros k e. rewrite dict_get_filter by done. specialize (Hs k).
    destruct (dict_get k c); [|done]. destruct (f _); [|done]. auto.
Qed.

Lemma sound_sweep n s m : sound s m -> sound (sweep n s) m.
Proof. intros Hs. eapply sound_filter; [reflexivity|]. by apply (sound_ext s). Qed.

Lemma sound_lookup n k s m : sound s m -> sound (lookup_key n k s).2 m.
Proof.
  intros Hs. unfold lookup_key.
  destruct (dict_get k (cache s)); [destruct (n <?q _)|]; [by apply (sound_ext s)| |by apply (sound_ext s)].
  eapply sound_filter; [reflexivity|]. by apply (sound_ext s).
Qed.

Lemma sound_del_all (vs : list entry) s m :
  sound s m -> sound (s {{ cache := fold_left (fun c v => dict_del v.1 c) vs (cache s) }}) m.
Proof.
  revert s. induction vs as [|v vs IH]; intros s Hs; [by apply (sound_ext s)|]. cbn.
  eapply sound_ext; [|apply (IH (s {{ cache ::= dict_del v.1 }}))]; [done|]. eapply sound_filter; [reflexivity|]. by apply (sound_ext s).
Qed.

Lemma sound_set k e s m : sound s m -> sound (s {{ cache ::= dict_set k e }}) (<[k := e]> m).
Proof.
  intros [H1 H2]. split; cbn; [by apply nodup_set|]. intros k' e'. rewrite dict_get_set.
  case_bool_decide; [subst; by rewrite lookup_insert_eq|].
  rewrite lookup_insert_ne by done. apply H2.
Qed.

Lemma sound_mark n k t s m : sound s m -> sound (mark_processed n k t s) (spec_op (Mark n k t) m).2.
Proof.
  intros Hs. unfold mark_processed. apply (sound_set k (n + match t with Some t => t | None => ttl_seconds cfg end)%Q) in Hs.
  destruct (_ <? _); [|exact Hs]. unfold evict_oldest. set (s1 := s {{ cache ::= _ }}) in *.
  set (vs := take _ _). destruct (sound_del_all vs s1 _ Hs). by split.
Qed.

Lemma lookup_key_sound n k s m : sound s m -> (lookup_key n k s).1 = true -> marked_until m n k = true.
Proof.
  intros [_ Hs]. unfold lookup_key, marked_until. specialize (Hs k).
  destruct (dict_get k (cache s)) as [e|]; [|done]. rewrite (Hs e) by done. by destruct (n <?q e).
Qed.

Lemma refines_later now now' s m : (now <= now')%Q -> refines now s m -> refines now' s m.
Proof.
  intros Hle [H1 H2]. split; [done|]. intros k e Hk He. apply H2; [done|].
  eapply Qle_lt_trans; eauto.
Qed.

Lemma refines_sweep now n s m : (n <= now)%Q -> refines now s m -> refines now (sweep n s) m.
Proof.
  intros Hle [H1 H2]. split; [by apply sound_sweep|]. intros k e Hk He. cbn.
  rewrite dict_get_filter by apply H1. rewrite (H2 _ _ Hk He).
  rewrite (proj2 (qltb_true _ _)); [done|]. eapply Qle_lt_trans; eauto.
Qed.

Lemma refines_lookup now n k s m :
  (now <= n)%Q -> refines now s m ->
  (lookup_key n k s).1 = marked_until m n k /\ refines n (lookup_key n k s).2 m.
Proof.
  intros Hle [Hs Hc]%(refines_later _ _ _ _ Hle).
  pose proof (sound_lookup n k s m Hs) as Hs'. unfold lookup_key, marked_until in *.
  destruct (dict_get k (cache s)) as [e|] eqn:E.
  - rewrite (sd_get _ _ Hs _ _ E). destruct (n <?q e) eqn:Elt; cbn in *; (split; [done|]); split; try done.
    apply qltb_false in Elt. intros k' e' Hk' He'. cbn. rewrite dict_get_del.
    case_bool_decide; [subst k'|auto]. rewrite (sd_get _ _ Hs _ _ E) in Hk'. simplify_eq.
    exfalso. eapply Qlt_not_le; eauto.
  - cbn in *. split; [|by split]. destruct (m !! k) as [e|] eqn:Em; [|done]. symmetry. apply qltb_false.
    apply Qnot_lt_le. intros Hlt. rewrite (Hc _ _ Em Hlt) in E. done.
Qed.

Lemma refines_mark now n k t s m :
  (now <= n)%Q -> refines now s m -> let m' := (spec_op (Mark n k t) m).2 in
  Z.of_nat (size m') <= max_size cfg -> refines n (mark_processed n k t s) m'.
Proof.
  intros Hle [Hs Hc]%(refines_later _ _ _ _ Hle) m' Hsz. split; [by apply sound_mark|].
  apply (sound_set k (n + match t with Some t => t | None => ttl_seconds cfg end)%Q) in Hs.
  unfold mark_processed. subst m'. cbn in *. set (e := (n + _)%Q) in *.
  pose proof (sound_size _ _ Hs) as Hlen. cbn in Hlen.
  destruct (Z.ltb_spec (max_size cfg) (Z.of_nat (length (dict_set k e (cache s))))); [lia|].
  intros k' e' Hk' He'. cbn. rewrite dict_get_set. case_bool_decide as Hk.
  - subst k'. by rewrite lookup_insert_eq in Hk'.
  - rewrite lookup_insert_ne in Hk' by done. auto.
Qed.

Lemma refines_cleanup now s m : refines now s m -> refines now (maybe_cleanup now s) m.
Proof. intros Hr. unfold maybe_cleanup. destruct (_ <?q _); [done|]. by apply refines_sweep; [apply Qle_refl|]. Qed.

Lemma sound_cleanup n s m : sound s m -> sound (maybe_cleanup n s) m.
Proof. intros Hr. unfold maybe_cleanup. destruct (_ <?q _); [done|]. by apply sound_sweep. Qed.

(** The time after an operation. *)
Definition after (now : Q) (o : op) : Q :=
  match o with Query _ n _ | Lookup n _ | Mark n _ _ => n | Sweep n => Qmax now n | Clear => now end.

Lemma sound_clear s : sound (clear s) ∅.
Proof. split; [constructor|done]. Qed.

Lemma step_refines now o s m :
  clock_ok now [o] -> refines now s m -> Z.of_nat (size (spec_op o m).2) <= max_size cfg ->
  (step_op o s).1 = (spec_op o m).1 /\ refines (after now o) (step_op o s).2 (spec_op o m).2.
Proof.
  destruct o as [n1 n2 k|n|n k|n k t|]; cbn [clock_ok step_op spec_op after fst snd].
  - intros (H1 & H2 & _) Hr _. apply (refines_later _ _ _ _ H1), refines_cleanup in Hr.
    destruct (refines_lookup _ n2 k _ _ H2 Hr) as [Ha Hb]. unfold is_duplicate.
    destruct (lookup_key n2 k (maybe_cleanup n1 s)). cbn in *. by rewrite Ha.
  - intros _ Hr _. split; [done|]. apply refines_sweep; [apply Q.le_max_r|].
    eapply refines_later; [apply Q.le_max_l|done].
  - intros (H & _) Hr _. destruct (refines_lookup _ n k _ _ H Hr) as [Ha Hb].
    destruct (lookup_key n k s). cbn in *. by rewrite Ha.
  - intros (H & _) Hr Hsz. split; [done|]. by apply (refines_mark now n k t s m).
  - intros _ _ _. split; [done|]. split; [apply sound_clear|]. intros k e. by rewrite lookup_empty.
Qed.

Lemma step_sound o s m :
  sound s m -> sound (step_op o s).2 (spec_op o m).2 /\
  Forall2 (fun b b' => b = true -> b' = true) (step_op o s).1 (spec_op o m).1.
Proof.
  destruct o as [n1 n2 k|n|n k|n k t|]; intros Hs; cbn [step_op spec_op fst snd].
  - apply (sound_cleanup n1) in Hs. unfold is_duplicate. set (s1 := maybe_cleanup n1 s) in *.
    pose proof (sound_lookup n2 k s1 m Hs). pose proof (lookup_key_sound n2 k s1 m Hs).
    destruct (lookup_key n2 k s1). cbn in *. auto.
  - split; [by apply sound_sweep|done].
  - pose proof (sound_lookup n k s m Hs). pose proof (lookup_key_sound n k s m Hs).
    destruct (lookup_key n k s). cbn in *. auto.
  - split; [by apply sound_mark|done].
  - split; [apply sound_clear|done].
Qed.

Lemma run_ops_cons o ops s :
  run_ops (o :: ops) s = ((step_op o s).1 ++ (run_ops ops (step_op o s).2).1, (run_ops ops (step_op o s).2).2).
Proof. cbn. destruct (step_op o s) as [b s1]. cbn. by destruct (run_ops ops s1). Qed.

Lemma spec_ops_cons o ops m :
  spec_ops (o :: ops) m = ((spec_op o m).1 ++ (spec_ops ops (spec_op o m).2).1, (spec_ops ops (spec_op o m).2).2).
Proof. cbn. destruct (spec_op o m) as [b m1]. cbn. by destruct (spec_ops ops m1). Qed.

Lemma clock_ok_cons now o ops :
  clock_ok now (o :: ops) -> clock_ok now [o] /\ clock_ok (after now o) ops.
Proof. destruct o; cbn; tauto. Qed.

Lemma run_refines ops now s m :
  refines now s m -> clock_ok now ops -> fits ops m ->
  (run_ops ops s).1 = (spec_ops ops m).1.
Proof.
  revert now s m. induction ops as [|o ops IH]; intros now s m Hr Hck Hsz; [done|].
  apply clock_ok_cons in Hck as [Ho Hck]. cbn in Hsz. destruct Hsz as [_ Hsz].
  assert (Z.of_nat (size (spec_op o m).2) <= max_size cfg) by (by destruct ops, Hsz).
  destruct (step_refines now o s m Ho Hr ltac:(lia)) as [E Hr'].
  rewrite run_ops_cons, spec_ops_cons. cbn [fst]. rewrite E. f_equal. by eapply IH.
Qed.

Lemma run_sound ops s m :
  sound s m -> Forall2 (fun b b' => b = true -> b' = true) (run_ops ops s).1 (spec_ops ops m).1.
Proof.
  revert s m. induction ops as [|o ops IH]; intros s m Hs; [by constructor|].
  destruct (step_sound o s m Hs) as [Hs' Hb]. rewrite run_ops_cons, spec_ops_cons. cbn [fst].
  apply Forall2_app; auto.
Qed.

(** ** Size bound *)

Lemma length_del_le k c : (length (dict_del k c) <= length c)%nat.
Proof. apply List.filter_length_le. Qed.

Lemma length_del_in k c : k ∈ c.*1 -> (length (dict_del k c) < length c)%nat.
Proof.
  induction c as [|[x e] c IH]; cbn; [by intros ?%elem_of_nil|].
  case_bool_decide as Hx; cbn.
  - intros _. pose proof (length_del_le k c). unfold dict_del in *. lia.
  - intros [->|Hk]%elem_of_cons; [done|]. specialize (IH Hk). unfold dict_del in *. lia.
Qed.

Lemma length_fold_del vs c :
  (length (fold_left (fun c (v : entry) => dict_del v.1 c) vs c) <= length c)%nat.
Proof.
  revert c. induction vs as [|v vs IH]; intros c; cbn; [done|]. etrans; [apply IH|apply length_del_le].
Qed.

Lemma evict_shrinks s : cache s <> [] -> (length (cache (evict_oldest s)) < length (cache s))%nat.
Proof.
  intros Hne. unfold evict_oldest. cbn. set (l := py_sorted _ (cache s)).
  assert (Hl : l ≡ₚ cache s) by apply py_sorted_perm.
  destruct l as [|v l]; [by apply Permutation_nil_l in Hl|].
  destruct (Z.to_nat (Z.max 1 _)) as [|n] eqn:En; [lia|]. cbn.
  eapply Nat.le_lt_trans; [apply length_fold_del|]. apply length_del_in.
  apply list_elem_of_fmap. exists v. split; [done|]. rewrite <-Hl. left.
Qed.

Lemma length_set k e c : (length (dict_set k e c) <= S (length c))%nat.
Proof. induction c as [|[x ex] c IH]; cbn; [done|]. case_bool_decide; cbn; lia. Qed.

Lemma mark_bounded n k t s :
  0 <= max_size cfg -> Z.of_nat (length (cache s)) <= max_size cfg ->
  Z.of_nat (length (cache (mark_processed n k t s))) <= max_size cfg.
Proof.
  intros H0 Hs. unfold mark_processed. set (s1 := s {{ cache ::= _ }}).
  pose proof (length_set k (n + match t with Some t => t | None => ttl_seconds cfg end)%Q (cache s)) as Hl.
  change (dict_set _ _ (cache s)) with (cache s1) in Hl.
  destruct (Z.ltb_spec (max_size cfg) (Z.of_nat (length (cache s1)))); [|lia].
  assert (Hne : cache s1 <> []) by (intros E; rewrite E in *; cbn in *; lia).
  pose proof (evict_shrinks s1 Hne). lia.
Qed.

Lemma sweep_shrinks n s : (length (cache (sweep n s)) <= length (cache s))%nat.
Proof. apply List.filter_length_le. Qed.

Lemma lookup_shrinks n k s : (length (cache (lookup_key n k s).2) <= length (cache s))%nat.
Proof. unfold lookup_key. repeat case_match; cbn; try done. apply length_del_le. Qed.

Lemma step_bounded o s :
  0 <= max_size cfg -> Z.of_nat (length (cache s)) <= max_size cfg ->
  Z.of_nat (length (cache (step_op o s).2)) <= max_size cfg.
Proof.
  intros H0 Hs. destruct o as [n1 n2 k|n|n k|n k t|]; cbn [step_op snd].
  - pose proof (lookup_shrinks n2 k (maybe_cleanup n1 s)). unfold is_duplicate, maybe_cleanup in *.
    pose proof (sweep_shrinks n1 s). destruct (lookup_key _ _ _), (_ <?q _); cbn in *; lia.
  - pose proof (sweep_shrinks n s). lia.
  - pose proof (lookup_shrinks n k s). destruct (lookup_key n k s). cbn in *. lia.
  - by apply mark_bounded.
  - done.
Qed.

Lemma run_bounded ops s :
  0 <= max_size cfg -> Z.of_nat (length (cache s)) <= max_size cfg ->
  Z.of_nat (length (cache (run_ops ops s).2)) <= max_size cfg.
Proof.
  intros H0. revert s. induction ops as [|o ops IH]; intros s Hs; [done|].
  rewrite run_ops_cons. cbn [snd]. by apply IH, step_bounded.
Qed.

(** C39: the cache keeps its promise for every interleaving of the critical sections of
    concurrent callers (cleanups, lookups, marks and clears) under a monotonic clock.  A key
    is never reported as a duplicate unless it was marked since the last clear and its
    latest mark is unexpired, even when entries are evicted; while no more than [max_size]
    distinct keys were marked since the last clear, every answer is exactly the history's:
    duplicate until the expiry of the latest mark.  The cache never holds more than
    [max_size] entries. *)
Theorem dedup_refines_history ops start :
  0 <= max_size cfg -> clock_ok start ops ->
  Forall2 (fun b b' => b = true -> b' = true)
    (run_ops ops (init_cache start)).1 (spec_ops ops ∅).1 /\
  (fits ops ∅ ->
   (run_ops ops (init_cache start)).1 = (spec_ops ops ∅).1) /\
  Z.of_nat (length (cache (run_ops ops (init_cache start)).2)) <= max_size cfg.
Proof.
  intros H0 Hck. assert (Hs : sound (init_cache start) ∅) by (split; [constructor|done]).
  split_and!; [by apply run_sound| |by apply run_bounded].
  intros Hsz. apply (run_refines ops start); [|done|done]. split; [done|].
  intros k e. by rewrite lookup_empty.
Qed.
End Cache.

(** ** A concrete history *)

Definition demo : settings := mkSettings 300 2 60.
Definition demo_ops : list op :=
  [Query 0 0 "a"; Mark 1 "a" None; Query 2 2 "a"; Mark 3 "b" (Some 5%Q); Sweep 2; Lookup 9 "b";
   Query 300 302 "a"; Mark 303 "a" None; Clear; Lookup 304 "a"; Mark 305 "c" None; Mark 306 "d" None; Lookup 307 "c"].

Lemma dedup_refines_history_witness :
  (run_ops demo demo_ops (init_cache 0)).1 = [false; true; false; false; false; true].
Proof.
  destruct (dedup_refines_history demo demo_ops 0) as (_ & H & _).
  - discriminate.
  - cbn. split_and!; try done; discriminate.
  - rewrite H; [reflexivity|]. vm_compute. by repeat split.
Defined.
