(* ===== verification/FileText.v ===== *)
(** * Text utilities of the files service ([src/backend/files/app/utils/common.py])

    Chunking of extracted text into overlapping windows, redaction patch maps,
    and the bounded snippets shown to reviewers.  A text is a list of characters
    (Python strings index by code point); the character type is a parameter. *)

From stdpp Require Import base list strings sorting.
From S2P Require Import Prelude.

Local Open Scope Z_scope.

Inductive text_error := ValueError (msg : string) | OutOfFuel.

Section FileText.
Context {A : Type}.
Implicit Types text : list A.

(** ** Chunking *)

Record span := mkSpan { char_start : Z; char_end : Z }.

(** The [while] loop of [chunk_text]; [None] when [fuel] runs out. *)
Fixpoint chunk_loop (fuel : nat) (start n chunk_size chunk_overlap : Z) : option (list span) :=
  match fuel with
  | O => None
  | S fuel =>
      if start <? n then
        let end_ := Z.min (start + chunk_size) n in
        if end_ =? n then Some [mkSpan start end_]
        else rest ← chunk_loop fuel (end_ - chunk_overlap) n chunk_size chunk_overlap;
             Some (mkSpan start end_ :: rest)
      else Some []
  end.

Definition chunk_text (text : list A) (chunk_size chunk_overlap : Z)
  : outcome text_error (list span) :=
  match text with
  | [] => Ok []
  | _ =>
      if chunk_size <=? 0 then Raise (ValueError "chunk_size must be positive")
      else if chunk_size <=? chunk_overlap
      then Raise (ValueError "chunk_overlap must be smaller than chunk_size")
      else match chunk_loop (S (length text)) 0 (zlen text) chunk_size chunk_overlap with
           | Some spans => Ok spans
           | None => Raise OutOfFuel
           end
  end.

Definition chunk_body text (s : span) : list A := py_slice text (char_start s) (char_end s).

(** ** Redaction *)

Record patch := mkPatch { start : Z; end_ : Z; replacement : list A }.

(** Lexicographic order on [(start, end)]. *)
Definition patch_leb (p q : patch) : bool :=
  (start p <? start q) || ((start p =? start q) && (end_ p <=? end_ q)).

Definition apply_patch text (p : patch) : list A :=
  py_prefix text (start p) ++ replacement p ++ py_suffix text (end_ p).

Definition apply_patch_map text (patch_map : list patch) : list A :=
  fold_left apply_patch (py_sorted (fun p q => patch_leb q p) patch_map) text.

Fixpoint validate_ordered (text_length previous_end : Z) (ps : list patch)
  : outcome text_error unit :=
  match ps with
  | [] => Ok tt
  | p :: ps =>
      if (start p <? 0) || (end_ p <? 0) || (end_ p <=? start p) || (text_length <? end_ p)
      then Raise (ValueError "Patch span is out of bounds")
      else if start p <? previous_end
      then Raise (ValueError "Patch spans must not overlap")
      else validate_ordered text_length (end_ p) ps
  end.

Definition validate_patch_map text (patch_map : list patch) : outcome text_error unit :=
  match patch_map with
  | [] => Raise (ValueError "patch_map must not be empty")
  | _ => validate_ordered (zlen text) (-1) (py_sorted patch_leb patch_map)
  end.

(** ** Snippets *)

Definition build_snippet text (start end_ max_chars : Z) : list A :=
  match text with
  | [] => []
  | _ =>
      let safe_start := Z.max 0 start in
      let safe_end := Z.min (zlen text) (Z.max end_ safe_start) in
      if max_chars <=? safe_end - safe_start
      then py_slice text safe_start (safe_start + max_chars)
      else
        let remaining := max_chars - (safe_end - safe_start) in
        let pad_left := remaining / 2 in
        let pad_right := remaining - pad_left in
        let snippet_start := Z.max 0 (safe_start - pad_left) in
        let snippet_end := Z.min (zlen text) (safe_end + pad_right) in
        py_prefix (py_slice text snippet_start snippet_end) max_chars
  end.

Definition build_preview text (max_chars : Z) : list A := py_prefix text max_chars.

(** ** Reference definitions *)

(** Undo the overlap: the first chunk, then each later one without the
    [overlap] characters it repeats. *)
Definition join_chunks (overlap : Z) (chunks : list (list A)) : list A :=
  match chunks with
  | [] => []
  | c :: cs => c ++ concat (map (drop (Z.to_nat overlap)) cs)
  end.

(** Simultaneous substitution of non-overlapping spans listed left to right. *)
Fixpoint splice text (pos : Z) (ps : list patch) : list A :=
  match ps with
  | [] => py_suffix text pos
  | p :: ps => py_slice text pos (start p) ++ replacement p ++ splice text (end_ p) ps
  end.

(** ** Chunking lemmas *)

Lemma py_slice_drop_front text i j (o : nat) :
  0 <= i -> i + Z.of_nat o <= j -> drop o (py_slice text i j) = py_slice text (i + Z.of_nat o) j.
Proof.
  intros. rewrite !py_slice_bounded by lia.
  rewrite skipn_firstn_comm, drop_drop. f_equal; [lia|f_equal; lia].
Qed.

Definition span_ok (n size : Z) (s : span) : Prop :=
  0 <= char_start s < char_end s /\ char_end s <= n /\ char_end s - char_start s <= size.

(** The loop from [st]: it ends within [n - st] iterations, every window is
    within bounds, and joining the windows gives back the text from [st] on. *)
Lemma chunk_loop_spec text size overlap fuel st :
  0 <= overlap < size -> 0 <= st < zlen text -> zlen text - st < Z.of_nat fuel ->
  exists e rest, chunk_loop fuel st (zlen text) size overlap = Some (mkSpan st e :: rest) /\
    Forall (span_ok (zlen text) size) (mkSpan st e :: rest) /\
    e = Z.min (st + size) (zlen text) /\
    chunk_body text (mkSpan st e) ++
      concat (map (drop (Z.to_nat overlap)) (map (chunk_body text) rest)) =
    py_slice text st (zlen text).
Proof.
  revert st. induction fuel as [|fuel IH]; intros st Ho Hst Hf; [lia|]. cbn [chunk_loop].
  destruct (Z.ltb_spec st (zlen text)); [|lia].
  destruct (Z.eqb_spec (Z.min (st + size) (zlen text)) (zlen text)) as [Heq|Hne].
  - eexists _, []. split; [done|]. rewrite Heq. split_and!; [|done|cbn; by rewrite app_nil_r].
    repeat constructor; cbn; lia.
  - assert (He : Z.min (st + size) (zlen text) = st + size) by lia. rewrite He in *.
    destruct (IH (st + size - overlap)) as (e & rest & -> & HF & Hee & Hj); [lia|lia|lia|].
    cbn [mbind option_bind]. eexists _, _. split; [done|]. split_and!; [|done|].
    + constructor; [repeat split; cbn; lia|done].
    + cbn [map concat] in *. unfold chunk_body in * |-. unfold chunk_body at 1 2.
      cbn [char_start char_end] in *.
      rewrite py_slice_drop_front by lia.
      replace (st + size - overlap + Z.of_nat (Z.to_nat overlap)) with (st + size) by lia.
      rewrite <- (py_slice_app text (st + size - overlap) (st + size) e) in Hj by lia.
      rewrite <- (py_slice_app text (st + size - overlap) (st + size) (zlen text)) in Hj by lia.
      rewrite <- app_assoc in Hj. apply app_inv_head in Hj. unfold chunk_body.
      rewrite Hj. apply py_slice_app; lia.
Qed.

(** Windows start at multiples of the stride. *)
Lemma chunk_loop_starts fuel st n size overlap spans :
  chunk_loop fuel st n size overlap = Some spans ->
  forall i s, spans !! i = Some s -> char_start s = st + Z.of_nat i * (size - overlap).
Proof.
  revert st spans. induction fuel as [|fuel IH]; intros st spans; cbn [chunk_loop]; [done|].
  destruct (st <? n); [|intros [= <-]; by intros []].
  destruct (Z.eqb_spec (Z.min (st + size) n) n).
  { intros [= <-] [|i] s; cbn; [|done]. intros [= <-]. cbn. lia. }
  destruct (chunk_loop fuel _ _ _ _) as [rest|] eqn:E; [|done]. cbn. intros [= <-] [|i] s.
  - intros [= <-]. cbn. lia.
  - cbn. intros Hs. rewrite (IH _ _ E _ _ Hs). lia.
Qed.

Lemma py_slice_all text : py_slice text 0 (zlen text) = text.
Proof.
  unfold zlen. rewrite py_slice_bounded by lia. cbn. rewrite Nat.sub_0_r, Nat2Z.id. apply firstn_all.
Qed.
End FileText.

Arguments span : clear implicits.
Arguments patch : clear implicits.

(** ** Redaction lemmas *)

Section Patches.
Context {A : Type}.
Implicit Types (text : list A) (p : patch A).

(** Spans listed left to right from [pos], disjoint and within the text. *)
Fixpoint ordered_from (n pos : Z) (ps : list (patch A)) : Prop :=
  match ps with
  | [] => True
  | p :: ps => pos <= start p < end_ p /\ end_ p <= n /\ ordered_from n (end_ p) ps
  end.

Lemma validate_ordered_spec n prev ps :
  validate_ordered n prev ps = Ok tt -> ordered_from n (Z.max 0 prev) ps.
Proof.
  revert prev. induction ps as [|p ps IH]; intros prev; cbn; [done|].
  destruct ((start p <? 0) || (end_ p <? 0) || (end_ p <=? start p) || (n <? end_ p)) eqn:E; [done|].
  rewrite !orb_false_iff, !Z.ltb_ge, Z.leb_gt in E. destruct E as [[[? ?] ?] ?].
  destruct (Z.ltb_spec (start p) prev); [done|]. intros Hv%IH.
  replace (Z.max 0 (end_ p)) with (end_ p) in Hv by lia. split_and!; done || lia.
Qed.

Lemma ordered_from_starts n pos ps :
  ordered_from n pos ps -> Forall (fun p => pos <= start p) ps.
Proof.
  revert pos. induction ps as [|p ps IH]; intros pos; cbn; [done|].
  intros (? & ? & Hps). constructor; [lia|].
  eapply Forall_impl; [exact (IH _ Hps)|]. cbn. lia.
Qed.

Lemma ordered_from_sorted n pos ps :
  ordered_from n pos ps -> StronglySorted (fun p q => start p < start q) ps.
Proof.
  revert pos. induction ps as [|p ps IH]; intros pos; cbn; [constructor|].
  intros (? & ? & Hps). constructor; [by eapply IH|].
  eapply Forall_impl; [exact (ordered_from_starts _ _ _ Hps)|]. cbn. lia.
Qed.

Lemma patch_leb_total p q : patch_leb p q = true \/ patch_leb q p = true.
Proof. unfold patch_leb. rewrite !orb_true_iff, !andb_true_iff, !Z.ltb_lt, !Z.eqb_eq, !Z.leb_le. lia. Qed.

Lemma patch_leb_trans p q r :
  patch_leb p q = true -> patch_leb q r = true -> patch_leb p r = true.
Proof. unfold patch_leb. rewrite !orb_true_iff, !andb_true_iff, !Z.ltb_lt, !Z.eqb_eq, !Z.leb_le. lia. Qed.

(** With distinct starts, sorting in reverse is sorting and reversing. *)
Lemma sorted_reverse_eq (ps : list (patch A)) :
  StronglySorted (fun p q => start p < start q) (py_sorted patch_leb ps) ->
  py_sorted (fun p q => patch_leb q p) ps = reverse (py_sorted patch_leb ps).
Proof.
  intros Hs.
  assert (Hrev : StronglySorted (fun p q => patch_leb q p = true) (reverse (py_sorted patch_leb ps))).
  { apply Sorted_StronglySorted.
    { intros x y z H1 H2. eapply patch_leb_trans; eassumption. }
    apply Sorted_reverse. apply StronglySorted_Sorted, py_sorted_sorted;
      [apply patch_leb_total|apply patch_leb_trans]. }
  eapply StronglySorted_unique_strong; [|
    apply (py_sorted_sorted (fun p q => patch_leb q p)) | exact Hrev |].
  - intros x1 x2 Hx1 Hx2 H1 H2.
    assert (Hx1' : x1 ∈ py_sorted patch_leb ps).
    { by rewrite py_sorted_perm, <- (py_sorted_perm (fun p q => patch_leb q p)). }
    assert (Hx2' : x2 ∈ py_sorted patch_leb ps).
    { by rewrite <- reverse_Permutation. }
    assert (Heq : start x1 = start x2).
    { unfold patch_leb in H1, H2.
      rewrite !orb_true_iff, !andb_true_iff, !Z.ltb_lt, !Z.eqb_eq, !Z.leb_le in H1, H2. lia. }
    clear -Hs Hx1' Hx2' Heq. induction Hs as [|y l Hl IH Hy]; [by apply not_elem_of_nil in Hx1'|].
    rewrite Forall_forall in Hy.
    apply elem_of_cons in Hx1' as [->|H1]; apply elem_of_cons in Hx2' as [->|H2]; try done.
    + specialize (Hy _ H2). lia.
    + specialize (Hy _ H1). lia.
    + auto.
  - intros x y. apply patch_leb_total.
  - intros x y z H1 H2. eapply patch_leb_trans; eassumption.
  - by rewrite reverse_Permutation, !py_sorted_perm.
Qed.

(** Applying ordered patches from the right rewrites everything after [pos]
    and nothing before it. *)
Lemma foldr_apply_splice text pos ps :
  0 <= pos -> pos <= zlen text -> ordered_from (zlen text) pos ps ->
  foldr (fun p acc => apply_patch acc p) text ps = take (Z.to_nat pos) text ++ splice text pos ps.
Proof.
  revert pos. induction ps as [|p ps IH]; intros pos H0 Hn; cbn.
  { intros _. rewrite py_suffix_nonneg by lia. by rewrite take_drop. }
  intros (Hs & He & Hps). rewrite (IH (end_ p)) by (done || lia).
  unfold apply_patch. rewrite py_prefix_nonneg, py_suffix_nonneg by lia.
  unfold zlen in *.
  rewrite take_app_le by (rewrite length_take; lia).
  rewrite take_take, Nat.min_l by lia.
  rewrite drop_app_ge by (rewrite length_take; lia).
  rewrite length_take, Nat.min_l, Nat.sub_diag by lia. cbn [drop].
  rewrite !app_assoc. do 2 f_equal.
  rewrite <- (take_drop (Z.to_nat pos) (take (Z.to_nat (start p)) text)).
  rewrite take_take, Nat.min_l by lia. f_equal.
  rewrite py_slice_bounded by lia. rewrite skipn_firstn_comm. done.
Qed.

Lemma apply_patch_map_foldr text ps :
  StronglySorted (fun p q => start p < start q) (py_sorted patch_leb ps) ->
  apply_patch_map text ps =
  foldr (fun p acc => apply_patch acc p) text (py_sorted patch_leb ps).
Proof.
  intros Hs. unfold apply_patch_map. rewrite sorted_reverse_eq by done.
  rewrite <- (reverse_involutive (py_sorted patch_leb ps)) at 2.
  generalize (reverse (py_sorted patch_leb ps)) as l. intros l.
  revert text. induction l as [|p l IH]; intros text; [done|]. cbn [fold_left].
  rewrite IH, reverse_cons, foldr_app. done.
Qed.

Lemma validate_patch_map_ordered text ps :
  validate_patch_map text ps = Ok tt -> ordered_from (zlen text) 0 (py_sorted patch_leb ps).
Proof. destruct ps; [done|]. apply (validate_ordered_spec _ (-1)). Qed.
End Patches.

(** ** Properties *)

(** Chunking succeeds on every text; see [chunk_text_roundtrip]. *)
Lemma chunk_text_spec {A} (text : list A) size overlap :
  0 <= overlap < size ->
  exists spans, chunk_text text size overlap = Ok spans /\
    join_chunks overlap (map (chunk_body text) spans) = text /\
    Forall (span_ok (zlen text) size) spans.
Proof.
  intros Ho. unfold chunk_text. destruct text as [|c text']; [by exists []|].
  set (text := c :: text') in *.
  destruct (Z.leb_spec size 0); [lia|]. destruct (Z.leb_spec size overlap); [lia|].
  destruct (chunk_loop_spec text size overlap (S (length text)) 0)
    as (e & rest & -> & HF & _ & Hj); [done|unfold zlen, text; cbn; lia|unfold zlen; lia|].
  eexists; split_and!; [done| |done]. cbn [map join_chunks]. by rewrite Hj, py_slice_all.
Qed.

(** for every text and every window size with [0 <= overlap < size],
    [chunk_text] terminates without error and loses nothing: the windows' texts,
    each without the [overlap] characters it repeats, concatenate to the original
    text; every window is non-empty, inside the text, at most [size] long, and all
    but the last step forward by exactly [size - overlap]. *)
Theorem chunk_text_roundtrip {A} (text : list A) size overlap :
  0 <= overlap < size ->
  exists spans, chunk_text text size overlap = Ok spans /\
    join_chunks overlap (map (chunk_body text) spans) = text /\
    Forall (span_ok (zlen text) size) spans /\
    (forall i s, spans !! i = Some s -> char_start s = Z.of_nat i * (size - overlap)).
Proof.
  intros Ho. destruct (chunk_text_spec text size overlap Ho) as (spans & E & Hj & HF).
  exists spans. split_and!; [done..|]. intros i s Hs. unfold chunk_text in E.
  destruct text as [|c text']; [by simplify_eq|].
  destruct (Z.leb_spec size 0); [lia|]. destruct (Z.leb_spec size overlap); [lia|].
  destruct (chunk_loop _ _ _ _ _) as [l|] eqn:El; [|done]. simplify_eq.
  apply (chunk_loop_starts _ _ _ _ _ _ El) in Hs. lia.
Qed.

(** on every patch map that [validate_patch_map] accepts, applying the patches
    one by one from the end of the string is the simultaneous substitution of the
    listed spans: the text between spans is kept verbatim, every span is replaced
    by its replacement, and no character of a redacted span survives. *)
Theorem apply_patch_map_splice {A} (text : list A) patch_map :
  validate_patch_map text patch_map = Ok tt ->
  apply_patch_map text patch_map = splice text 0 (py_sorted patch_leb patch_map).
Proof.
  intros Hv%validate_patch_map_ordered.
  rewrite apply_patch_map_foldr by (by eapply ordered_from_sorted).
  rewrite (foldr_apply_splice text 0) by (done || unfold zlen; lia). done.
Qed.

(** A snippet never exceeds [max_chars] characters, and when the flagged span
    fits it is contained verbatim in the snippet. *)
Theorem build_snippet_bounded {A} (text : list A) s e max_chars :
  0 <= max_chars ->
  zlen (build_snippet text s e max_chars) <= max_chars /\
  (0 <= s <= e -> e <= zlen text -> e - s <= max_chars ->
   exists a b, build_snippet text s e max_chars = a ++ py_slice text s e ++ b).
Proof.
  intros Hm. unfold build_snippet. destruct text as [|c text']; [split; [done|]|].
  { intros Hs He Hl. exists [], []. unfold zlen in He. cbn in He.
    assert (s = 0) as -> by lia. by assert (e = 0) as -> by lia. }
  set (text := c :: text'). set (n := zlen text).
  assert (Hn : 0 < n) by (unfold n, zlen, text; cbn; lia).
  set (ss := Z.max 0 s). set (se := Z.min n (Z.max e ss)).
  destruct (Z.leb_spec max_chars (se - ss)) as [Hle|Hgt].
  - split.
    + unfold zlen. rewrite py_slice_bounded, length_take by lia. lia.
    + intros Hs He Hl. exists [], []. cbn. rewrite app_nil_r. f_equal; lia.
  - set (pl := (max_chars - (se - ss)) / 2). set (pr := max_chars - (se - ss) - pl).
    split; [unfold zlen; rewrite py_prefix_nonneg, length_take by lia; lia|].
    intros Hs He Hl. fold n in He.
    assert (0 <= pl <= pr) by (unfold pr, pl;
      pose proof (Z.mul_div_le (max_chars - (se - ss)) 2);
      pose proof (Z.div_pos (max_chars - (se - ss)) 2); lia).
    assert (ss = s) as Hss by lia. assert (se = e) as Hse by lia. rewrite Hss, Hse in *.
    set (a := Z.max 0 (s - pl)). set (b := Z.min n (e + pr)).
    assert (Hlen := length_py_slice text a b ltac:(lia) ltac:(fold (zlen text); lia)).
    rewrite py_prefix_nonneg, take_ge by lia.
    exists (py_slice text a s), (py_slice text e b).
    rewrite (py_slice_app text s e b), py_slice_app by lia. done.
Qed.

(** ** Concrete runs *)

Definition sample : list nat := seq 0 10.

Lemma chunk_text_roundtrip_witness :
  exists spans, chunk_text sample 4 1 = Ok spans /\
    join_chunks 1 (map (chunk_body sample) spans) = sample.
Proof.
  destruct (chunk_text_roundtrip sample 4 1 ltac:(lia)) as (spans & E & J & _).
  exists spans. by split.
Defined.

Definition sample_patches : list (patch nat) := [mkPatch 6 8 [77]; mkPatch 1 3 [99; 99; 99]]%nat.

Lemma apply_patch_map_splice_witness :
  apply_patch_map sample sample_patches = [0; 99; 99; 99; 3; 4; 5; 77; 8; 9]%nat.
Proof. rewrite (apply_patch_map_splice sample sample_patches); reflexivity. Defined.

Lemma build_snippet_bounded_witness : zlen (build_snippet sample 4 6 5) <= 5.
Proof. apply (build_snippet_bounded sample 4 6 5). lia. Defined.
