(* ===== verification/IngestionState.v ===== *)
(** * Ingestion states ([src/backend/files/app/services/ingestion_state.py],
      [IngestionState] of [src/backend/files/app/core/constants.py])

    The persisted workflow states of a file-ingestion task, the transition table,
    and the checked transition every task update goes through. *)

From stdpp Require Import base list strings relations.
From S2P Require Import Prelude.

Inductive IngestionState :=
  | LOAD_EXTRACTION_RESULT
  | DETECT_ISSUES
  | AWAIT_HUMAN_REVIEW
  | APPLY_DECISION
  | CHUNK_TEXT
  | REQUEST_EMBEDDINGS
  | FINALIZE.

#[export] Instance IngestionState_eq_dec : EqDecision IngestionState.
Proof. solve_decision. Defined.

Definition all_states : list IngestionState :=
  [LOAD_EXTRACTION_RESULT; DETECT_ISSUES; AWAIT_HUMAN_REVIEW; APPLY_DECISION; CHUNK_TEXT;
   REQUEST_EMBEDDINGS; FINALIZE].

(** The [.value] stored in Mongo. *)
Definition value (s : IngestionState) : string :=
  match s with
  | LOAD_EXTRACTION_RESULT => "load_extraction_result"
  | DETECT_ISSUES => "detect_issues"
  | AWAIT_HUMAN_REVIEW => "await_human_review"
  | APPLY_DECISION => "apply_decision"
  | CHUNK_TEXT => "chunk_text"
  | REQUEST_EMBEDDINGS => "request_embeddings"
  | FINALIZE => "finalize"
  end.

(** [IngestionState(current)]: the member with that value, or [ValueError]. *)
Definition parse (current : string) : option IngestionState :=
  head (filter (fun s => value s = current) all_states).

Definition ALLOWED_INGESTION_TRANSITIONS (s : IngestionState) : list IngestionState :=
  match s with
  | LOAD_EXTRACTION_RESULT => [DETECT_ISSUES]
  | DETECT_ISSUES => [AWAIT_HUMAN_REVIEW; CHUNK_TEXT]
  | AWAIT_HUMAN_REVIEW => [APPLY_DECISION]
  | APPLY_DECISION => [CHUNK_TEXT; FINALIZE]
  | CHUNK_TEXT => [REQUEST_EMBEDDINGS]
  | REQUEST_EMBEDDINGS => [FINALIZE]
  | FINALIZE => []
  end.

Inductive transition_error :=
  | UnknownState (current : string)
  | InvalidTransition (from to_ : IngestionState).

Definition transition_ingestion_state (current : string) (target : IngestionState)
  : outcome transition_error string :=
  match parse current with
  | None => Raise (UnknownState current)
  | Some s =>
      if decide (target ∈ ALLOWED_INGESTION_TRANSITIONS s) then Ok (value target)
      else Raise (InvalidTransition s target)
  end.

(** ** Properties of the table *)

Definition allowed (s t : IngestionState) : Prop := t ∈ ALLOWED_INGESTION_TRANSITIONS s.

(** Position of a state on the way to FINALIZE; every transition increases it. *)
Definition progress (s : IngestionState) : nat :=
  match s with
  | LOAD_EXTRACTION_RESULT => 0 | DETECT_ISSUES => 1 | AWAIT_HUMAN_REVIEW => 2
  | APPLY_DECISION => 3 | CHUNK_TEXT => 4 | REQUEST_EMBEDDINGS => 5 | FINALIZE => 6
  end.

Lemma parse_value s : parse (value s) = Some s.
Proof. by destruct s. Qed.

Lemma parse_Some c s : parse c = Some s -> c = value s.
Proof.
  unfold parse. intros H.
  assert (Hin : s ∈ filter (fun s => value s = c) all_states).
  { destruct (filter _ _) as [|x l]; [done|]. cbn in H. simplify_eq. left. }
  by apply list_elem_of_filter in Hin as [<- _].
Qed.

Lemma transition_spec c t v :
  transition_ingestion_state c t = Ok v <->
  v = value t /\ exists s, c = value s /\ allowed s t.
Proof.
  unfold transition_ingestion_state, allowed. split.
  - destruct (parse c) as [s|] eqn:E; [|done]. destruct (decide _); [|done].
    intros [= <-]. apply parse_Some in E. eauto.
  - intros [-> (s & -> & Ha)]. rewrite parse_value. by destruct (decide _).
Qed.

Lemma allowed_progress s t : allowed s t -> (progress s < progress t)%nat.
Proof. unfold allowed. destruct s, t; cbn; rewrite ?elem_of_cons, ?elem_of_nil; intuition (lia || done). Qed.

Lemma allowed_detect s : allowed s DETECT_ISSUES -> s = LOAD_EXTRACTION_RESULT.
Proof. unfold allowed. destruct s; cbn; rewrite ?elem_of_cons, ?elem_of_nil; naive_solver. Qed.

(** the persisted workflow is acyclic and always finishes: a sequence of
    checked transitions makes strict progress, so it has at most six steps and never
    revisits a state; from every state FINALIZE is reachable, and only FINALIZE has
    no successor. *)
Theorem ingestion_transitions_terminate :
  (forall s t, rtc allowed s t -> s = t \/ (progress s < progress t)%nat) /\
  (forall n s t, nsteps allowed n s t -> (n <= 6)%nat) /\
  (forall s, rtc allowed s FINALIZE) /\
  (forall s, (forall t, ~ allowed s t) <-> s = FINALIZE).
Proof.
  split_and!.
  - induction 1 as [|s u t H _ [->|IH]]; [by left|right|right]; apply allowed_progress in H; lia.
  - intros n s t H. assert (Hp : (n + progress s <= progress t)%nat).
    { induction H as [|n s u t H _ IH]; [lia|]. apply allowed_progress in H. lia. }
    destruct t; cbn in Hp; lia.
  - assert (Hstep : forall s t, allowed s t -> rtc allowed t FINALIZE -> rtc allowed s FINALIZE)
      by (intros; by eapply rtc_l).
    assert (HF : rtc allowed FINALIZE FINALIZE) by done.
    assert (HR : rtc allowed REQUEST_EMBEDDINGS FINALIZE) by (eapply Hstep; [|exact HF]; left).
    assert (HC : rtc allowed CHUNK_TEXT FINALIZE) by (eapply Hstep; [|exact HR]; left).
    assert (HA : rtc allowed APPLY_DECISION FINALIZE) by (eapply Hstep; [|exact HC]; left).
    assert (HW : rtc allowed AWAIT_HUMAN_REVIEW FINALIZE) by (eapply Hstep; [|exact HA]; left).
    assert (HD : rtc allowed DETECT_ISSUES FINALIZE) by (eapply Hstep; [|exact HW]; left).
    intros []; try done. eapply Hstep; [|exact HD]; left.
  - intros s. split; [|intros -> t; unfold allowed; apply not_elem_of_nil].
    destruct s; intros H; try done; exfalso; eapply H; unfold allowed; cbn; left.
Qed.
