(* ===== verification/FilesRepository.v ===== *)
(** * Files repository ([src/backend/files/app/db/_base.py], [_files.py],
      [_tasks.py], [_review.py], [_chunks.py], [_audit.py])

    The Mongo collections of the files service behind their tenant and ownership
    scope, as a state-and-exception monad.  Documents keep the fields the workflow
    reads or writes; wall-clock stamps such as [updated_at] are left out.
    [transaction] models both the transactional topology (an exception restores
    the collections) and the standalone fallback (it does not). *)

From Stdlib Require Import QArith.
From stdpp Require Import base list strings gmap.
From S2P Require Import Prelude FileText IssueDetector IngestionState.

Local Open Scope Z_scope.

(** ** Ownership *)

(** The three scope fields of a document. *)
Record ownership := mkOwner {
  tenant_id : option string; owner_user_id : option string; owner_admin_id : option string
}.

#[export] Instance ownership_eq_dec : EqDecision ownership.
Proof. solve_decision. Defined.

(** ** Documents *)

(** [stage] subdocument of a file. *)
Record stages := mkStages {
  st_extraction : string; st_review : string; st_chunking : string; st_embedding : string
}.

#[export] Instance eta_stages : Eta stages := fun x =>
  mkStages (st_extraction x) (st_review x) (st_chunking x) (st_embedding x).

Record FileDoc := mkFile {
  f_file_id : string;
  f_document_id : option string;
  f_filename : string;
  f_path : option string;
  f_status : string;
  f_review_status : string;
  f_current_task_id : option string;
  f_latest_review_case_id : option string;
  f_sanitized_text_version : Z;
  f_accepted_risk_categories : list string;
  f_stage : stages;
  f_owner : ownership
}.

#[export] Instance eta_FileDoc : Eta FileDoc := fun x =>
  mkFile (f_file_id x) (f_document_id x) (f_filename x) (f_path x) (f_status x) (f_review_status x)
    (f_current_task_id x) (f_latest_review_case_id x) (f_sanitized_text_version x)
    (f_accepted_risk_categories x) (f_stage x) (f_owner x).

(** The persisted [graph_state] dictionary. *)
Record GraphState := mkGraph {
  g_extracted_text : option text;
  g_extracted_text_hash : option string;
  g_sanitized_text : option text;
  g_sanitized_text_version : Z;
  g_issue_findings : list (finding * text);
  g_review_required : bool;
  g_review_case_id : option string;
  g_review_decision : option string;
  g_redaction_patch_map : list (patch Z);
  g_chunk_ids : list string;
  g_embedding_job_ids : list string;
  g_cleanup_required : bool;
  g_request_id : option string;
  g_trace_id : option string;
  g_correlation_id : option string
}.

#[export] Instance eta_GraphState : Eta GraphState := fun x =>
  mkGraph (g_extracted_text x) (g_extracted_text_hash x) (g_sanitized_text x)
    (g_sanitized_text_version x) (g_issue_findings x) (g_review_required x) (g_review_case_id x)
    (g_review_decision x) (g_redaction_patch_map x) (g_chunk_ids x) (g_embedding_job_ids x)
    (g_cleanup_required x) (g_request_id x) (g_trace_id x) (g_correlation_id x).

Record TaskDoc := mkTask {
  t_task_id : string;
  t_graph_run_id : string;
  t_status : string;
  t_current_node : string;
  t_checkpoint_id : option string;
  t_resume_token_hash : option string;
  t_resume_token_expires_at : option Z;
  t_graph_state : GraphState;
  t_owner : ownership
}.

#[export] Instance eta_TaskDoc : Eta TaskDoc := fun x =>
  mkTask (t_task_id x) (t_graph_run_id x) (t_status x) (t_current_node x) (t_checkpoint_id x)
    (t_resume_token_hash x) (t_resume_token_expires_at x) (t_graph_state x) (t_owner x).

Record CaseDoc := mkCase {
  c_review_case_id : string;
  c_file_id : string;
  c_task_id : string;
  c_status : string;
  c_decision_status : string;
  c_extracted_text_hash : option string;
  c_issue_categories : list (finding * text);
  c_allowed_actions : list string;
  c_redaction_patch_map : list (patch Z);
  c_checkpoint_id : string;
  c_resume_token_hash : option string;
  c_resume_token_expires_at : option Z;
  c_resolution_claim_id : option string;
  c_owner : ownership
}.

#[export] Instance eta_CaseDoc : Eta CaseDoc := fun x =>
  mkCase (c_review_case_id x) (c_file_id x) (c_task_id x) (c_status x) (c_decision_status x)
    (c_extracted_text_hash x) (c_issue_categories x) (c_allowed_actions x)
    (c_redaction_patch_map x) (c_checkpoint_id x) (c_resume_token_hash x)
    (c_resume_token_expires_at x) (c_resolution_claim_id x) (c_owner x).

Record DecisionDoc := mkDecision {
  d_decision_id : string; d_review_case_id : string; d_file_id : string; d_task_id : string;
  d_decision : string; d_based_on_text_hash : option string; d_patch_map : list (patch Z);
  d_submitted_by : string; d_owner : ownership
}.

Record ChunkDoc := mkChunk {
  k_chunk_id : string; k_file_id : string; k_document_id : string; k_task_id : string;
  k_chunk_index : Z; k_chunk_version : Z; k_text : text; k_text_preview : text;
  k_text_source : string; k_char_start : Z; k_char_end : Z; k_source_name : string;
  k_review_status : string; k_retrieval_allowed : bool; k_issue_flags : list string;
  k_redaction_applied : bool; k_owner : ownership
}.

Record AuditEvent := mkAudit {
  a_event_id : string; a_file_id : string; a_document_id : string; a_task_id : string;
  a_review_case_id : option string; a_decision_id : option string; a_event_type : string;
  a_from_status : option string; a_to_status : option string; a_actor : string;
  a_owner : ownership
}.

(** ** Collections and world *)

(** Documents are keyed by tenant and identifier, as their unique indexes are. *)
Record db := mkDb {
  files : gmap (string * string) FileDoc;
  tasks : gmap (string * string) TaskDoc;
  cases : gmap (string * string) CaseDoc;
  decisions : list DecisionDoc;
  chunks : list ChunkDoc;
  audit : list AuditEvent
}.

#[export] Instance eta_db : Eta db := fun x =>
  mkDb (files x) (tasks x) (cases x) (decisions x) (chunks x) (audit x).

(** The collections, the uploaded files on disk, and the number of identifiers
    generated so far. *)
Record world := mkWorld { store : db; disk : gset (list string); uuids : nat }.

#[export] Instance eta_world : Eta world := fun x => mkWorld (store x) (disk x) (uuids x).

Inductive exn :=
  | NotFoundException (msg : string)
  | ValidationException (msg : string)
  | DatabaseException (msg : string)
  | ValueError_ (msg : string).

(** ** Monad *)

Definition M (A : Type) : Type := world -> outcome exn A * world.

Definition ret {A} (a : A) : M A := fun w => (Ok a, w).
Definition raise {A} (e : exn) : M A := fun w => (Raise e, w).
Definition bind {A B} (c : M A) (k : A -> M B) : M B := fun w =>
  match c w with
  | (Ok a, w') => k a w'
  | (Raise e, w') => (Raise e, w')
  end.

Notation "x <-- c ; k" := (bind c (fun x => k))
  (at level 100, c at next level, right associativity) : ragforge_scope.
Notation "c ;;; k" := (bind c (fun _ => k))
  (at level 100, right associativity) : ragforge_scope.

Definition gets {A} (f : world -> A) : M A := fun w => (Ok (f w), w).
Definition modify (f : world -> world) : M unit := fun w => (Ok tt, f w).
Definition guard (b : bool) (e : exn) : M unit := if b then ret tt else raise e.
Definition lift {A E} (f : E -> exn) (o : outcome E A) : M A :=
  match o with Ok a => ret a | Raise e => raise (f e) end.

#[export] Instance AuthIdentity_eq_dec : EqDecision AuthIdentity.
Proof. solve_decision. Defined.

(** The identity of [_identity] when the context of the request has none and internal
    authentication is not required. *)
Definition legacy_identity : AuthIdentity :=
  mkIdentity "legacy" "legacy-user" ROLE_SERVICE (Some "legacy-user").

Section Repository.
(** What [_identity] returns. *)
Context (ident : AuthIdentity).

(** [_scope_document]. *)
Definition scope_document (o : ownership) : outcome exn ownership :=
  if negb (bool_decide (tenant_id o = None \/ tenant_id o = Some (id_tenant ident)))
  then Raise (DatabaseException "Cross-tenant document write denied")
  else
    match id_role ident with
    | ROLE_USER =>
        Ok (mkOwner (Some (id_tenant ident)) (Some (id_user ident))
              (Some (or_else (id_admin ident) (id_user ident))))
    | ROLE_ADMIN =>
        if negb (bool_decide (owner_admin_id o = None \/ owner_admin_id o = Some (id_user ident)))
        then Raise (DatabaseException "Document is outside the administrator scope")
        else Ok (mkOwner (Some (id_tenant ident))
                   (Some (match owner_user_id o with Some u => u | None => id_user ident end))
                   (Some (id_user ident)))
    | ROLE_SERVICE =>
        if truthy (owner_user_id o) && truthy (owner_admin_id o)
        then Ok (mkOwner (Some (id_tenant ident)) (owner_user_id o) (owner_admin_id o))
        else Raise (DatabaseException "Service document writes require explicit ownership")
    end.

(** [_scope_filter]: does the identity see a document with this ownership? *)
Definition owner_in_scope (o : ownership) : bool :=
  bool_decide (tenant_id o = Some (id_tenant ident)) &&
  match id_role ident with
  | ROLE_USER => bool_decide (owner_user_id o = Some (id_user ident))
  | ROLE_ADMIN => bool_decide (owner_admin_id o = Some (id_user ident))
  | ROLE_SERVICE => true
  end.

Definition key (id : string) : string * string := (id_tenant ident, id).

(** [find_one] by identifier under the scope filter. *)
Definition find_scoped {D} (owner : D -> ownership) (id : string)
    (m : gmap (string * string) D) : option D :=
  match m !! key id with
  | Some d => if owner_in_scope (owner d) then Some d else None
  | None => None
  end.

Definition get_raw_by_id (file_id : string) : M (option FileDoc) :=
  gets (fun w => find_scoped f_owner file_id (files (store w))).
Definition get_raw_task_by_id (task_id : string) : M (option TaskDoc) :=
  gets (fun w => find_scoped t_owner task_id (tasks (store w))).
Definition get_raw_review_case_by_id (case_id : string) : M (option CaseDoc) :=
  gets (fun w => find_scoped c_owner case_id (cases (store w))).

(** [update_one] of the scoped document, a no-op when nothing matches. *)
Definition update_scoped {D} (owner : D -> ownership) (id : string) (f : D -> D)
    (m : gmap (string * string) D) : gmap (string * string) D :=
  match find_scoped owner id m with
  | Some d => <[key id := f d]> m
  | None => m
  end.

Definition update_file (file_id : string) (f : FileDoc -> FileDoc) : M unit :=
  modify (fun w => w {{ store := (store w) {{ files ::= update_scoped f_owner file_id f }} }}).
Definition update_task (task_id : string) (f : TaskDoc -> TaskDoc) : M unit :=
  modify (fun w => w {{ store := (store w) {{ tasks ::= update_scoped t_owner task_id f }} }}).
Definition update_review_case (case_id : string) (f : CaseDoc -> CaseDoc) : M unit :=
  modify (fun w => w {{ store := (store w) {{ cases ::= update_scoped c_owner case_id f }} }}).

(** The partial unique index: one open case per tenant and file. *)
Definition open_case_exists (file_id : string) (m : gmap (string * string) CaseDoc) : bool :=
  bool_decide (map_Exists (fun k c => k.1 = id_tenant ident /\ c_file_id c = file_id /\
                                      c_status c = "open"%string) m).

Definition create_review_case (c : CaseDoc) : M unit :=
  o <-- lift (fun e => e) (scope_document (c_owner c));
  taken <-- gets (fun w => (bool_decide (c_status c = "open"%string) &&
                            open_case_exists (c_file_id c) (cases (store w))) ||
                           bool_decide (is_Some (cases (store w) !! key (c_review_case_id c))));
  guard (negb taken) (DatabaseException "Failed to create review case");;;
  modify (fun w => w {{ store := (store w)
    {{ cases ::= <[key (c_review_case_id c) := c {{ c_owner := o }}]> }} }}).

(** [claim_review_case]: the conditional update that reserves a pending case;
    the [$set] always changes the status, so matching is modifying. *)
Definition claim_review_case (case_id : string) (text_hash token_hash : option string)
    (claim_id : string) : M bool :=
  fun w =>
    match find_scoped c_owner case_id (cases (store w)) with
    | Some c =>
        if bool_decide (c_status c = "open"%string) &&
           bool_decide (c_decision_status c = "pending"%string) &&
           bool_decide (c_extracted_text_hash c = text_hash) &&
           bool_decide (c_resume_token_hash c = token_hash)
        then (Ok true, w {{ store := (store w) {{ cases ::= <[key case_id :=
               c {{ c_status := "resolving"%string }} {{ c_decision_status := "resolving"%string }}
                 {{ c_resolution_claim_id := Some claim_id }} ]> }} }})
        else (Ok false, w)
    | None => (Ok false, w)
    end.

(** One decision per tenant and review case. *)
Definition create_review_decision (d : DecisionDoc) : M unit :=
  o <-- lift (fun e => e) (scope_document (d_owner d));
  taken <-- gets (fun w => existsb (fun d' =>
      bool_decide (d_review_case_id d' = d_review_case_id d /\
                   tenant_id (d_owner d') = Some (id_tenant ident)))
    (decisions (store w)));
  guard (negb taken) (DatabaseException "Failed to create review decision");;;
  modify (fun w => w {{ store := (store w) {{ decisions ::= fun ds => ds ++
    [mkDecision (d_decision_id d) (d_review_case_id d) (d_file_id d) (d_task_id d) (d_decision d)
       (d_based_on_text_hash d) (d_patch_map d) (d_submitted_by d) o] }} }}).

Definition set_chunk_owner (o : ownership) (k : ChunkDoc) : ChunkDoc :=
  mkChunk (k_chunk_id k) (k_file_id k) (k_document_id k) (k_task_id k) (k_chunk_index k)
    (k_chunk_version k) (k_text k) (k_text_preview k) (k_text_source k) (k_char_start k)
    (k_char_end k) (k_source_name k) (k_review_status k) (k_retrieval_allowed k)
    (k_issue_flags k) (k_redaction_applied k) o.

Fixpoint scope_chunks (ks : list ChunkDoc) : outcome exn (list ChunkDoc) :=
  match ks with
  | [] => Ok []
  | k :: ks => let* o := scope_document (k_owner k) in
               let* ks := scope_chunks ks in Ok (set_chunk_owner o k :: ks)
  end.

(** [insert_many(ordered=True)]: one document at a time, stopping at the first
    duplicate identifier; what was inserted before it stays. *)
Fixpoint insert_many (docs : list ChunkDoc) : M unit :=
  match docs with
  | [] => ret tt
  | k :: docs =>
      taken <-- gets (fun w => existsb (fun k' =>
          bool_decide (k_chunk_id k' = k_chunk_id k /\ tenant_id (k_owner k') = Some (id_tenant ident)))
        (chunks (store w)));
      guard (negb taken) (DatabaseException "Failed to create chunks");;;
      modify (fun w => w {{ store := (store w) {{ chunks ::= fun cs => cs ++ [k] }} }});;;
      insert_many docs
  end.

Definition create_chunks (ks : list ChunkDoc) : M Z :=
  docs <-- lift (fun e => e) (scope_chunks ks);
  insert_many docs;;;
  ret (zlen docs).

Definition delete_chunks_for_file (file_id : string) : M Z :=
  fun w =>
    let hit k := bool_decide (k_file_id k = file_id) && owner_in_scope (k_owner k) in
    (Ok (zlen (List.filter hit (chunks (store w)))),
     w {{ store := (store w) {{ chunks ::= List.filter (fun k => negb (hit k)) }} }}).

Definition get_next_chunk_version (document_id : string) : M Z :=
  gets (fun w => 1 + foldr Z.max 0 (map k_chunk_version (List.filter (fun k =>
    bool_decide (k_document_id k = document_id) && owner_in_scope (k_owner k)) (chunks (store w))))).

Definition insert_audit_event (e : AuditEvent) : M unit :=
  o <-- lift (fun e => e) (scope_document (a_owner e));
  modify (fun w => w {{ store := (store w) {{ audit ::= fun es => es ++
    [mkAudit (a_event_id e) (a_file_id e) (a_document_id e) (a_task_id e) (a_review_case_id e)
       (a_decision_id e) (a_event_type e) (a_from_status e) (a_to_status e) (a_actor e) o] }} }}).

(** [transaction]: on a replica set an exception aborts and the collections are
    as before; on a standalone server the writes already made stay. *)
Definition transaction {A} (supported : bool) (c : M A) : M A := fun w =>
  match c w with
  | (Ok a, w') => (Ok a, w')
  | (Raise e, w') => (Raise e, if supported then w' {{ store := store w }} else w')
  end.
End Repository.
