(* ===== verification/Ingestion.v ===== *)
(** * File-ingestion workflow ([src/backend/files/app/services/
      file_ingestion_state_machine.py], [ingestion_state.py])

    Extraction completion, the pause for human review, and the three review
    decisions, each as one transaction over the repository.  [now] is the clock of
    the handler, [uuid i] the [i]-th generated identifier, [hash_text] the text
    digest, [token] the random resume token; the detector's Unicode and regex
    parameters are those of [IssueDetector].  Prometheus counters, tracer spans and
    free-text reasons of audit events are not modelled.  The file system is seen
    through [path_parts] and [resolve] ([Path(p).parts], [Path.resolve]) and
    [os_remove] (whether a deletion succeeds). *)

From Stdlib Require Import QArith Ascii.
From stdpp Require Import base list strings gmap pretty.
From S2P Require Import Prelude FileText IssueDetector IngestionState FilesRepository.

Local Open Scope string_scope.
Local Open Scope Z_scope.

Record Settings := mkSettings {
  cfg_thresholds : thresholds;
  chunk_size : Z;
  chunk_overlap : Z;
  review_snippet_max_chars : Z;
  chunk_preview_max_chars : Z;
  review_resume_token_ttl_seconds : Z;
  files_events_topic : string;
  embedding_jobs_topic : string;
  vector_db_delete_topic : string;
  service_name : string;
  upload_dir : string
}.

Record request_context := mkCtx {
  ctx_request_id : option string; ctx_trace_id : option string; ctx_correlation_id : option string
}.

Record decision_payload := mkPayload {
  dp_decision : string; dp_based_on_text_hash : option string; dp_patch_map : list (patch Z)
}.

(** ** Outbound messages *)

Inductive payload :=
  | ReviewRequired (event_id file_id document_id task_id review_case_id : string)
      (issue_categories : list string) (highest_severity_score : Q) (allowed_actions : list string)
  | VectorDeleteRequested (event_id file_id document_id task_id : string)
  | ChunkingCompleted (event_id file_id document_id task_id : string) (chunk_count : Z)
      (text_source : string) (review_case_id : option string)
  | EmbeddingJob (job_id file_id document_id : string) (job_chunks : list ChunkDoc).

Record OutboundMessage := mkOut {
  topic : string; message_type : string; action : string; source_service : string;
  target_service : string; request_id : string; trace_id : string; correlation_id : string;
  body : payload
}.

Section Workflow.
Context (ident : AuthIdentity) (cfg : Settings).
Context (lower : text -> text) (isspace : Z -> bool)
        (pii_patterns : list (text -> option (Z * Z))).
Context (hash_text : text -> string) (token : nat -> text) (uuid : nat -> string).
Context (isalnum : Ascii.ascii -> bool) (path_parts : string -> list string)
        (resolve : list string -> list string) (os_remove : list string -> bool).
Context (upper : string -> string).
Context (now : Z).

(** ** Identifiers *)

Definition generate_id : M string :=
  fun w => (Ok (uuid (uuids w)), w {{ uuids ::= S }}).

(** [make_resume_token]: the digest of a fresh token and its expiry. *)
Definition make_resume_token : M (string * Z) :=
  fun w => (Ok (hash_text (token (uuids w)), now + review_resume_token_ttl_seconds cfg),
            w {{ uuids ::= S }}).

Definition document_id (f : FileDoc) : string := or_else (f_document_id f) (f_file_id f).

(** ** Task transitions *)

(** [_transition]: checked node change, persisted together with the graph state
    and the given field updates; returns the updated in-memory task. *)
Definition transition (task : TaskDoc) (st : GraphState) (target : IngestionState)
    (upd : TaskDoc -> TaskDoc) : M TaskDoc :=
  next <-- lift (fun _ => ValueError_ "Invalid ingestion transition")
                (transition_ingestion_state (t_current_node task) target);
  let f t := (upd t) {{ t_current_node := next }} {{ t_graph_state := st }} in
  update_task ident (t_task_id task) f;;;
  ret (f task).

Definition set_status (s : string) (t : TaskDoc) : TaskDoc := t {{ t_status := s }}.

Definition begin_issue_detection (task : TaskDoc) (st : GraphState) : M TaskDoc :=
  transition task st DETECT_ISSUES (set_status "running").

Definition pause_for_review (task : TaskDoc) (st : GraphState) (checkpoint : string)
    (tok : string * Z) : M TaskDoc :=
  transition task st AWAIT_HUMAN_REVIEW (fun t =>
    (set_status "waiting_for_review" t) {{ t_checkpoint_id := Some checkpoint }}
      {{ t_resume_token_hash := Some tok.1 }} {{ t_resume_token_expires_at := Some tok.2 }}).

Definition resume_review (task : TaskDoc) (st : GraphState) : M TaskDoc :=
  transition task st APPLY_DECISION (fun t =>
    (set_status "resuming" t) {{ t_checkpoint_id := None }}
      {{ t_resume_token_hash := None }} {{ t_resume_token_expires_at := None }}).

Definition begin_chunking (task : TaskDoc) (st : GraphState) : M TaskDoc :=
  transition task st CHUNK_TEXT (set_status "running").
Definition request_embeddings (task : TaskDoc) (st : GraphState) : M TaskDoc :=
  transition task st REQUEST_EMBEDDINGS (set_status "running").
Definition finalize (task : TaskDoc) (st : GraphState) : M TaskDoc :=
  transition task st FINALIZE (set_status "completed").
Definition finalize_rejected (task : TaskDoc) (st : GraphState) : M TaskDoc :=
  transition task st FINALIZE (set_status "rejected").

(** ** Helpers *)

Definition merge_request_context (ctx : request_context) (st : GraphState) : GraphState :=
  let set old new := match new with Some v => Some v | None => old end in
  st {{ g_request_id := set (g_request_id st) (ctx_request_id ctx) }}
     {{ g_trace_id := set (g_trace_id st) (ctx_trace_id ctx) }}
     {{ g_correlation_id := set (g_correlation_id st) (ctx_correlation_id ctx) }}.

(** [build_message_envelope] as [_build_outbound_envelope] calls it: missing
    identifiers fall back on each other and then on a generated one. *)
Definition build_outbound (st : GraphState) (tpc mtype act target : string) (p : payload)
  : M OutboundMessage :=
  rid <-- (if truthy (g_request_id st) || truthy (g_correlation_id st)
           then ret (or_else (g_request_id st) (or_else (g_correlation_id st) ""))
           else generate_id);
  ret (mkOut tpc mtype act (service_name cfg) target rid (or_else (g_trace_id st) rid)
         (or_else (g_correlation_id st) rid) p).

Definition write_audit_event (f : FileDoc) (task : TaskDoc) (etype actor : string)
    (case_id decision_id from_status to_status : option string) : M unit :=
  eid <-- generate_id;
  insert_audit_event ident
    (mkAudit eid (f_file_id f) (document_id f) (t_task_id task) case_id decision_id etype
       from_status to_status actor (f_owner f)).

Definition enrich_findings (fs : list finding) (t : text) : list (finding * text) :=
  map (fun f => (f, build_snippet t (span_start f) (span_end f) (review_snippet_max_chars cfg))) fs.

(** [_issue_categories]: distinct non-empty categories in order of appearance. *)
Fixpoint distinct_categories (seen : list string) (fs : list (finding * text)) : list string :=
  match fs with
  | [] => []
  | (f, _) :: fs =>
      if bool_decide (category f = "") || bool_decide (category f ∈ seen)
      then distinct_categories seen fs
      else category f :: distinct_categories (category f :: seen) fs
  end.

Definition issue_categories (c : CaseDoc) : list string :=
  distinct_categories [] (c_issue_categories c).

(** [_default_patch_map]: one replacement per finding with a non-empty span. *)
Definition default_patch_map (fs : list (finding * text))
  : list (patch Z) :=
  concat (map (fun '(f, _) =>
    if (span_end f <=? span_start f)%Z then []
    else [mkPatch (span_start f) (span_end f)
            (codes ("[REDACTED_" +:+ upper (category f) +:+ "]"))]) fs).

(** [max(findings, key=score)]: the first finding with the highest score. *)
Fixpoint highest (best : finding) (fs : list finding) : finding :=
  match fs with
  | [] => best
  | f :: fs => highest (if score best <?q score f then f else best) fs
  end.

Definition chunk_id (doc : string) (version index : Z) : string :=
  doc +:+ "__v" +:+ pretty version +:+ "__c" +:+ pretty index.

Definition build_chunk_documents (f : FileDoc) (task_id : string) (t : text)
    (text_source review_status : string) (issue_flags : list string) (redaction_applied : bool)
    (version : Z) : outcome text_error (list ChunkDoc) :=
  let* spans := chunk_text t (chunk_size cfg) (chunk_overlap cfg) in
  Ok (imap (fun i s =>
    let body := py_slice t (char_start s) (char_end s) in
    mkChunk (chunk_id (document_id f) version (Z.of_nat i)) (f_file_id f) (document_id f) task_id
      (Z.of_nat i) version body (build_preview body (chunk_preview_max_chars cfg)) text_source
      (char_start s) (char_end s) (f_filename f) review_status
      (negb (bool_decide (review_status = "removed"))) issue_flags redaction_applied (f_owner f))
    spans).

Definition text_exn (e : text_error) : exn :=
  match e with ValueError m => ValueError_ m | OutOfFuel => ValueError_ "" end.

(** ** [_complete_chunking_flow] *)

Definition complete_chunking_flow (f : FileDoc) (task : TaskDoc) (st : GraphState) (actor : string)
    (text_source review_status : string) (issue_flags : list string) (redaction_applied : bool)
    (case_id decision_id : option string) : M (list OutboundMessage) :=
  let source := if bool_decide (text_source = "sanitized") then g_sanitized_text st
                else g_extracted_text st in
  let source_text := default [] source in
  version <-- get_next_chunk_version ident (document_id f);
  docs <-- lift text_exn (build_chunk_documents f (t_task_id task) source_text text_source
                            review_status issue_flags redaction_applied version);
  created <-- create_chunks ident docs;
  job_id <-- generate_id;
  let st := st {{ g_chunk_ids := map k_chunk_id docs }} {{ g_embedding_job_ids := [job_id] }} in
  update_file ident (f_file_id f) (fun d => d {{ f_status := "processing" }}
    {{ f_stage ::= fun s => s {{ st_review := "done" }} {{ st_chunking := "done" }}
                              {{ st_embedding := "running" }} }});;;
  task <-- request_embeddings task st;
  task <-- finalize task st;
  write_audit_event f task "chunking_completed" actor case_id decision_id None None;;;
  write_audit_event f task "embedding_jobs_requested" actor case_id decision_id None None;;;
  write_audit_event f task "ingestion_completed" actor case_id decision_id None None;;;
  eid <-- generate_id;
  m1 <-- build_outbound st (files_events_topic cfg) "event" "files.chunking.completed" "gateway"
           (ChunkingCompleted eid (f_file_id f) (document_id f) (t_task_id task) (zlen docs)
              text_source case_id);
  m2 <-- build_outbound st (embedding_jobs_topic cfg) "command" "process_embedding_job" "embedding"
           (EmbeddingJob job_id (f_file_id f) (document_id f) docs);
  ret [m1; m2].

(** ** [_create_review_case] *)

Definition ALLOWED_ACTIONS : list string :=
  ["delete_file"; "remove_problematic_text"; "accept_as_is"].

Definition create_case (f : FileDoc) (task : TaskDoc) (st : GraphState) (actor : string)
    (best : finding) : M (list OutboundMessage) :=
  let findings := g_issue_findings st in
  case_id <-- generate_id;
  let checkpoint := "checkpoint-" +:+ case_id in
  tok <-- make_resume_token;
  let patches := default_patch_map findings in
  let st := st {{ g_review_required := true }} {{ g_review_case_id := Some case_id }}
               {{ g_redaction_patch_map := patches }} in
  create_review_case ident
    (mkCase case_id (f_file_id f) (t_task_id task) "open" "pending" (g_extracted_text_hash st)
       findings ALLOWED_ACTIONS patches checkpoint (Some tok.1) (Some tok.2) None (f_owner f));;;
  update_file ident (f_file_id f) (fun d => d {{ f_status := "awaiting_review" }}
    {{ f_review_status := "pending" }} {{ f_latest_review_case_id := Some case_id }}
    {{ f_current_task_id := Some (t_task_id task) }}
    {{ f_stage ::= fun s => s {{ st_review := "paused" }} }});;;
  task <-- pause_for_review task st checkpoint tok;
  write_audit_event f task "issue_detected" actor (Some case_id) None
    (Some "processing") (Some "awaiting_review");;;
  write_audit_event f task "review_case_created" actor (Some case_id) None
    (Some "processing") (Some "awaiting_review");;;
  write_audit_event f task "ingestion_paused_for_review" actor (Some case_id) None
    (Some "processing") (Some "awaiting_review");;;
  eid <-- generate_id;
  m <-- build_outbound st (files_events_topic cfg) "event" "files.review.required" "gateway"
          (ReviewRequired eid (f_file_id f) (document_id f) (t_task_id task) case_id
             (map (fun '(x, _) => category x) findings) (score best) ALLOWED_ACTIONS);
  ret [m].

(** ** [handle_extraction_completion] *)

(** The reset of the graph state when a new extraction result is loaded. *)
Definition load_extraction (f : FileDoc) (t : text) (st : GraphState) : GraphState :=
  st {{ g_extracted_text := Some t }} {{ g_extracted_text_hash := Some (hash_text t) }}
     {{ g_sanitized_text := None }} {{ g_sanitized_text_version := f_sanitized_text_version f }}
     {{ g_issue_findings := [] }} {{ g_review_required := false }} {{ g_review_case_id := None }}
     {{ g_review_decision := None }} {{ g_redaction_patch_map := [] }} {{ g_chunk_ids := [] }}
     {{ g_embedding_job_ids := [] }} {{ g_cleanup_required := false }}.

Definition extraction_body (file_id task_id : string) (extracted : text) (warnings : list string)
    (actor : string) (ctx : request_context) : M (list OutboundMessage) :=
  ofile <-- get_raw_by_id ident file_id;
  otask <-- get_raw_task_by_id ident task_id;
  match ofile, otask with
  | Some f, Some task =>
      let st := load_extraction f extracted (merge_request_context ctx (t_graph_state task)) in
      update_file ident (f_file_id f) (fun d => d {{ f_document_id := Some (document_id f) }}
        {{ f_current_task_id := Some (t_task_id task) }} {{ f_status := "processing" }}
        {{ f_stage ::= fun s => s {{ st_extraction := "done" }} }});;;
      task <-- begin_issue_detection task st;
      write_audit_event f task "extraction_completed" actor None None
        (Some "started") (Some "processing");;;
      let found := detect lower isspace pii_patterns (cfg_thresholds cfg) extracted warnings in
      let st := st {{ g_issue_findings := enrich_findings found extracted }}
                   {{ g_review_required := review_required found }} in
      match review_required found, found with
      | true, x :: xs => create_case f task st actor (highest x xs)
      | _, _ =>
          update_file ident (f_file_id f) (fun d => d {{ f_status := "processing" }}
            {{ f_review_status := "not_required" }} {{ f_latest_review_case_id := None }}
            {{ f_stage ::= fun s => s {{ st_review := "done" }} }});;;
          task <-- begin_chunking task st;
          complete_chunking_flow f task st actor "original" "clean" [] false None None
      end
  | _, _ => raise (NotFoundException "File task not found")
  end.

Definition handle_extraction_completion (tx : bool) (file_id task_id : string) (extracted : text)
    (warnings : list string) (actor : string) (ctx : request_context) : M (list OutboundMessage) :=
  transaction tx (extraction_body file_id task_id extracted warnings actor ctx).

(** ** Review decisions *)

Definition validate_review_decision (c : CaseDoc) (task : TaskDoc) (p : decision_payload) : M unit :=
  guard (bool_decide (c_status c = "open")) (ValidationException "Review case is not active");;;
  guard (bool_decide (c_decision_status c = "pending"))
    (ValidationException "Review case already has a decision");;;
  guard (bool_decide (dp_based_on_text_hash p = c_extracted_text_hash c))
    (ValidationException "based_on_text_hash does not match extracted text");;;
  guard (match c_resume_token_expires_at c with Some t => now <? t | None => true end)
    (ValidationException "Review resume token has expired");;;
  guard (truthy (t_resume_token_hash task))
    (ValidationException "Review resume token has already been consumed");;;
  guard (bool_decide (dp_decision p ∈ c_allowed_actions c))
    (ValidationException "Decision is not allowed for this review case");;;
  guard (negb (bool_decide (dp_decision p = "remove_problematic_text") &&
               bool_decide (dp_patch_map p = [])))
    (ValidationException "patch_map is required for remove_problematic_text");;;
  guard (negb (bool_decide (dp_decision p ∈ ["delete_file"; "accept_as_is"]) &&
               negb (bool_decide (dp_patch_map p = []))))
    (ValidationException "patch_map is not allowed for this decision").

(** [validate_managed_file_path]. *)
Definition safe_id (s : string) : string :=
  String.string_of_list_ascii (List.filter
    (fun c => isalnum c || Ascii.eqb c "-" || Ascii.eqb c "_") (String.list_ascii_of_string s)).

Definition validate_managed_file_path (tenant file_id file_path : string)
  : outcome exn (list string) :=
  if negb (bool_decide (safe_id tenant = tenant)) || negb (bool_decide (safe_id file_id = file_id))
     || bool_decide (safe_id tenant = "") || bool_decide (safe_id file_id = "")
  then Raise (ValidationException "Invalid tenant or file identifier")
  else
    let base := resolve (path_parts (upload_dir cfg)) in
    let expected := resolve (base ++ [safe_id tenant; safe_id file_id]) in
    let candidate := resolve (path_parts file_path) in
    let parent := take (length candidate - 1) candidate in
    if bool_decide (parent = expected) &&
       (length base <? length candidate)%nat && bool_decide (take (length base) candidate = base)
    then Ok candidate
    else Raise (ValidationException "File path is outside the managed tenant directory").

(** [identity_from_context()], which here does not fall back to the legacy identity of the
    repository: without an authenticated identity it raises [AuthError], a [ValueError]. *)
Definition context_identity : outcome exn AuthIdentity :=
  if bool_decide (ident = legacy_identity)
  then Raise (ValueError_ "authenticated identity is missing from request context")
  else Ok ident.

Definition remove_stored_file (f : FileDoc) : M unit :=
  if truthy (f_path f) then
    identity <-- lift (fun e => e) context_identity;
    p <-- lift (fun e => e)
            (validate_managed_file_path (id_tenant identity) (f_file_id f) (or_else (f_path f) ""));
    modify (fun w => if os_remove p then w {{ disk ::= fun d => d ∖ {[p]} }} else w)
  else ret tt.

Definition apply_delete_decision (f : FileDoc) (task : TaskDoc) (c : CaseDoc) (st : GraphState)
    (actor decision_id : string) : M (list OutboundMessage) :=
  deleted <-- delete_chunks_for_file ident (f_file_id f);
  remove_stored_file f;;;
  let cleanup := (0 <? deleted) || bool_decide (st_chunking (f_stage f) = "done") in
  let st := st {{ g_review_decision := Some "delete_file" }} {{ g_cleanup_required := cleanup }}
               {{ g_extracted_text := None }} {{ g_sanitized_text := None }}
               {{ g_chunk_ids := [] }} {{ g_embedding_job_ids := [] }} in
  update_file ident (f_file_id f) (fun d => d {{ f_status := "rejected" }}
    {{ f_review_status := "rejected" }}
    {{ f_stage ::= fun s => s {{ st_review := "done" }} {{ st_chunking := "skipped" }}
                              {{ st_embedding := "skipped" }} }});;;
  task <-- finalize_rejected task st;
  write_audit_event f task "file_rejected" actor (Some (c_review_case_id c)) (Some decision_id)
    (Some "awaiting_review") (Some "rejected");;;
  out <-- (if cleanup then
             eid <-- generate_id;
             m <-- build_outbound st (vector_db_delete_topic cfg) "event"
                     "vector_db.delete.requested" "vector_db"
                     (VectorDeleteRequested eid (f_file_id f) (document_id f) (t_task_id task));
             write_audit_event f task "vector_delete_requested" actor
               (Some (c_review_case_id c)) (Some decision_id) None None;;;
             ret [m]
           else ret []);
  write_audit_event f task "cleanup_completed" actor (Some (c_review_case_id c)) (Some decision_id)
    None None;;;
  ret out.

Definition apply_redaction_decision (f : FileDoc) (task : TaskDoc) (c : CaseDoc) (st : GraphState)
    (actor decision_id : string) (patch_map : list (patch Z)) : M (list OutboundMessage) :=
  let extracted := default [] (g_extracted_text st) in
  lift text_exn (validate_patch_map extracted patch_map);;;
  let sanitized := apply_patch_map extracted patch_map in
  let version := f_sanitized_text_version f + 1 in
  let st := st {{ g_sanitized_text := Some sanitized }} {{ g_sanitized_text_version := version }}
               {{ g_redaction_patch_map := patch_map }} in
  update_file ident (f_file_id f) (fun d => d {{ f_review_status := "approved_sanitized" }}
    {{ f_status := "processing" }} {{ f_sanitized_text_version := version }}
    {{ f_stage ::= fun s => s {{ st_review := "done" }} }});;;
  write_audit_event f task "file_sanitized" actor (Some (c_review_case_id c)) (Some decision_id)
    (Some "awaiting_review") (Some "processing");;;
  task <-- begin_chunking task st;
  complete_chunking_flow f task st actor "sanitized" "sanitized" (issue_categories c) true
    (Some (c_review_case_id c)) (Some decision_id).

Definition apply_accept_decision (f : FileDoc) (task : TaskDoc) (c : CaseDoc) (st : GraphState)
    (actor decision_id : string) : M (list OutboundMessage) :=
  let categories := issue_categories c in
  update_file ident (f_file_id f) (fun d => d {{ f_review_status := "approved_as_is" }}
    {{ f_status := "processing" }} {{ f_accepted_risk_categories := categories }}
    {{ f_stage ::= fun s => s {{ st_review := "done" }} }});;;
  write_audit_event f task "file_accepted_with_risk" actor (Some (c_review_case_id c))
    (Some decision_id) (Some "awaiting_review") (Some "processing");;;
  task <-- begin_chunking task st;
  complete_chunking_flow f task st actor "original" "accepted_with_risk" categories false
    (Some (c_review_case_id c)) (Some decision_id).

(** Resume the task and run the chosen branch. *)
Definition resume_and_apply (f : FileDoc) (task : TaskDoc) (c : CaseDoc) (p : decision_payload)
    (st : GraphState) (actor decision_id : string) : M (list OutboundMessage) :=
  task <-- resume_review task st;
  write_audit_event f task "review_decision_submitted" actor (Some (c_review_case_id c))
    (Some decision_id) None None;;;
  write_audit_event f task "graph_resumed" actor (Some (c_review_case_id c)) (Some decision_id)
    None None;;;
  if bool_decide (dp_decision p = "delete_file") then
    apply_delete_decision f task c st actor decision_id
  else if bool_decide (dp_decision p = "remove_problematic_text") then
    apply_redaction_decision f task c st actor decision_id (dp_patch_map p)
  else apply_accept_decision f task c st actor decision_id.

(** The decision once the case is claimed: record it and resolve the case. *)
Definition resolve_and_apply (f : FileDoc) (task : TaskDoc) (c : CaseDoc) (p : decision_payload)
    (actor decision_id : string) (ctx : request_context) : M (list OutboundMessage) :=
  let st := (merge_request_context ctx (t_graph_state task))
              {{ g_review_decision := Some (dp_decision p) }}
              {{ g_review_case_id := Some (c_review_case_id c) }} in
  create_review_decision ident
    (mkDecision decision_id (c_review_case_id c) (f_file_id f) (t_task_id task) (dp_decision p)
       (dp_based_on_text_hash p) (dp_patch_map p) actor (f_owner f));;;
  update_review_case ident (c_review_case_id c) (fun d => d {{ c_status := "resolved" }}
    {{ c_decision_status := dp_decision p }} {{ c_resume_token_hash := None }}
    {{ c_resume_token_expires_at := None }});;;
  resume_and_apply f task c p st actor decision_id.

Definition review_body (file_id task_id case_id : string) (p : decision_payload) (actor : string)
    (ctx : request_context) : M (list OutboundMessage) :=
  ofile <-- get_raw_by_id ident file_id;
  otask <-- get_raw_task_by_id ident task_id;
  ocase <-- get_raw_review_case_by_id ident case_id;
  match ofile, otask, ocase with
  | Some f, Some task, Some c =>
      validate_review_decision c task p;;;
      decision_id <-- generate_id;
      claimed <-- claim_review_case ident (c_review_case_id c) (dp_based_on_text_hash p)
                    (Some (or_else (t_resume_token_hash task) "")) decision_id;
      guard claimed (ValidationException "Review case is already being resolved");;;
      resolve_and_apply f task c p actor decision_id ctx
  | _, _, _ => raise (NotFoundException "Review decision target not found")
  end.

Definition handle_review_decision (tx : bool) (file_id task_id case_id : string)
    (p : decision_payload) (actor : string) (ctx : request_context) : M (list OutboundMessage) :=
  transaction tx (review_body file_id task_id case_id p actor ctx).
End Workflow.
