(* ===== verification/IngestionFacts.v ===== *)
(** * Reasoning about the ingestion workflow

    A small program logic for the repository monad: [keeps V c] says the program
    [c] leaves a view of the world alone whether it returns or raises, and
    [returns c Q] that a normal return establishes [Q].  Both are compositional,
    so the facts about the handlers follow the structure of the code. *)

From Stdlib Require Import QArith.
From stdpp Require Import base list strings gmap pretty.
From S2P Require Import Prelude FileText IssueDetector IngestionState FilesRepository Ingestion.

Local Open Scope string_scope.
Local Open Scope list_scope.
Local Open Scope Z_scope.

Create HintDb keeps.
Create HintDb stable.

(** ** Preservation *)

Definition keeps {V A} (view : world -> V) (c : M A) : Prop :=
  forall w, view (c w).2 = view w.

Section Keeps.
Context {V : Type} (view : world -> V).

Lemma keeps_ret {A} (a : A) : keeps view (ret a).
Proof. done. Qed.
Lemma keeps_raise {A} e : keeps view (@raise A e).
Proof. done. Qed.
Lemma keeps_gets {A} (f : world -> A) : keeps view (gets f).
Proof. done. Qed.
Lemma keeps_guard b e : keeps view (guard b e).
Proof. by destruct b. Qed.
Lemma keeps_lift {A E} (f : E -> exn) (o : outcome E A) : keeps view (lift f o).
Proof. by destruct o. Qed.

Lemma keeps_bind {A B} (c : M A) (k : A -> M B) :
  keeps view c -> (forall a, keeps view (k a)) -> keeps view (bind c k).
Proof.
  intros Hc Hk w. unfold bind. specialize (Hc w). destruct (c w) as [[a|e] w'] eqn:E; cbn in *.
  - by rewrite (Hk a w').
  - done.
Qed.

Lemma keeps_modify f : (forall w, view (f w) = view w) -> keeps view (modify f).
Proof. done. Qed.
End Keeps.

#[export] Hint Resolve keeps_ret keeps_raise keeps_gets keeps_guard keeps_lift : keeps.

(** Walk through a program, splitting binds, conditionals and matches. *)
Ltac keeps_auto :=
  repeat first
    [ progress cbn beta iota zeta
    | solve [auto with keeps]
    | apply keeps_bind; [|intros ?]
    | match goal with
      | |- keeps _ (if ?b then _ else _) => destruct b
      | |- keeps _ (match ?x with _ => _ end) => destruct x
      | |- keeps _ (let _ := _ in _) => cbn zeta
      end ].

(** ** Views *)

Definition view_files (w : world) := files (store w).
Definition view_tasks (w : world) := tasks (store w).
Definition view_cases (w : world) := cases (store w).
Definition view_chunks (w : world) := chunks (store w).

(** Everything in the collections that belongs to another tenant. *)
Record foreign := mkForeign {
  fo_files : gmap (string * string) FileDoc;
  fo_tasks : gmap (string * string) TaskDoc;
  fo_cases : gmap (string * string) CaseDoc;
  fo_decisions : list DecisionDoc;
  fo_chunks : list ChunkDoc;
  fo_audit : list AuditEvent
}.

Section Views.
Context (ident : AuthIdentity).

Definition foreign_owner (o : ownership) : bool :=
  negb (bool_decide (tenant_id o = Some (id_tenant ident))).

Definition foreign_map {D} (m : gmap (string * string) D) : gmap (string * string) D :=
  filter (fun kv => kv.1.1 <> id_tenant ident) m.

Definition foreign_of (d : db) : foreign :=
  mkForeign (foreign_map (files d)) (foreign_map (tasks d)) (foreign_map (cases d))
    (List.filter (fun d => foreign_owner (d_owner d)) (decisions d))
    (List.filter (fun k => foreign_owner (k_owner k)) (chunks d))
    (List.filter (fun e => foreign_owner (a_owner e)) (audit d)).

Definition view_foreign (w : world) : foreign := foreign_of (store w).

Lemma foreign_map_insert {D} id (d : D) m : foreign_map (<[key ident id := d]> m) = foreign_map m.
Proof. unfold foreign_map. apply map_filter_insert_not. intros y. cbn. tauto. Qed.

Lemma foreign_map_update {D} (owner : D -> ownership) id f m :
  foreign_map (update_scoped ident owner id f m) = foreign_map m.
Proof.
  unfold update_scoped. destruct (find_scoped _ _ _ _); [apply foreign_map_insert|done].
Qed.

Lemma scope_document_tenant o o' :
  scope_document ident o = Ok o' -> tenant_id o' = Some (id_tenant ident).
Proof.
  unfold scope_document. destruct (negb _); [done|].
  destruct (id_role ident); repeat case_match; naive_solver.
Qed.

Lemma scope_document_foreign o o' :
  scope_document ident o = Ok o' -> foreign_owner o' = false.
Proof.
  intros H%scope_document_tenant. unfold foreign_owner. rewrite H.
  by rewrite bool_decide_true.
Qed.

Lemma scope_chunks_foreign ks ks' :
  scope_chunks ident ks = Ok ks' ->
  List.filter (fun k => foreign_owner (k_owner k)) ks' = [].
Proof.
  revert ks'. induction ks as [|k ks IH]; cbn; intros ks'; [by intros [= <-]|].
  destruct (scope_document ident (k_owner k)) as [o|] eqn:E; [|done]. cbn.
  destruct (scope_chunks ident ks) as [ks1|]; [|done]. cbn. intros [= <-]. cbn.
  rewrite (scope_document_foreign _ _ E). by apply IH.
Qed.

Lemma filter_app_nil {A} (f : A -> bool) l l' :
  List.filter f l' = [] -> List.filter f (l ++ l') = List.filter f l.
Proof. intros H. by rewrite List.filter_app, H, app_nil_r. Qed.

Lemma in_scope_not_foreign o : owner_in_scope ident o = true -> foreign_owner o = false.
Proof. unfold owner_in_scope, foreign_owner. destruct (bool_decide _); [done|by intros]. Qed.

(** *** Repository primitives *)

Lemma keeps_foreign_update_file id f : keeps view_foreign (update_file ident id f).
Proof. intros w. unfold view_foreign, foreign_of. cbn. by rewrite foreign_map_update. Qed.
Lemma keeps_foreign_update_task id f : keeps view_foreign (update_task ident id f).
Proof. intros w. unfold view_foreign, foreign_of. cbn. by rewrite foreign_map_update. Qed.
Lemma keeps_foreign_update_case id f : keeps view_foreign (update_review_case ident id f).
Proof. intros w. unfold view_foreign, foreign_of. cbn. by rewrite foreign_map_update. Qed.

Lemma keeps_foreign_create_case c : keeps view_foreign (create_review_case ident c).
Proof.
  unfold create_review_case. keeps_auto. apply keeps_modify. intros w.
  unfold view_foreign, foreign_of. cbn. by rewrite foreign_map_insert.
Qed.

Lemma keeps_foreign_claim id h t cl : keeps view_foreign (claim_review_case ident id h t cl).
Proof.
  intros w. unfold claim_review_case. destruct (find_scoped _ _ _ _); [|done].
  destruct (_ && _); [|done]. unfold view_foreign, foreign_of. cbn. by rewrite foreign_map_insert.
Qed.

Lemma keeps_lift_then {A E B} (view : world -> B) (f : E -> exn) (o : outcome E A) {C} (k : A -> M C) :
  (forall a, o = Ok a -> keeps view (k a)) -> keeps view (bind (lift f o) k).
Proof. intros H w. destruct o as [a|e]; [by apply (H a)|done]. Qed.

Lemma keeps_foreign_create_decision d : keeps view_foreign (create_review_decision ident d).
Proof.
  unfold create_review_decision. apply keeps_lift_then. intros o Ho.
  keeps_auto. apply keeps_modify. intros w. unfold view_foreign, foreign_of. cbn.
  rewrite filter_app_nil; [done|]. cbn. by rewrite (scope_document_foreign _ _ Ho).
Qed.

Lemma keeps_foreign_audit e : keeps view_foreign (insert_audit_event ident e).
Proof.
  unfold insert_audit_event. apply keeps_lift_then. intros o Ho. apply keeps_modify.
  intros w. unfold view_foreign, foreign_of. cbn.
  rewrite filter_app_nil; [done|]. cbn. by rewrite (scope_document_foreign _ _ Ho).
Qed.

Lemma keeps_insert_many {V} (view : world -> V) docs :
  (forall k w, k ∈ docs ->
    view (w {{ store := (store w) {{ chunks ::= fun cs => cs ++ [k] }} }}) = view w) ->
  keeps view (insert_many ident docs).
Proof.
  induction docs as [|k docs IH]; intros H; cbn [insert_many]; [apply keeps_ret|].
  keeps_auto; [apply keeps_modify; intros; apply H; left|].
  apply IH. intros. apply H. by right.
Qed.

Lemma keeps_foreign_create_chunks ks : keeps view_foreign (create_chunks ident ks).
Proof.
  unfold create_chunks. apply keeps_lift_then. intros docs Hd%scope_chunks_foreign.
  apply keeps_bind; [|keeps_auto]. apply keeps_insert_many. intros k w Hk.
  unfold view_foreign, foreign_of. cbn. rewrite filter_app_nil; [done|]. cbn.
  destruct (foreign_owner (k_owner k)) eqn:E; [|done].
  assert (Hin : In k (List.filter (fun k => foreign_owner (k_owner k)) docs)).
  { apply filter_In. split; [by apply list_elem_of_In|done]. }
  by rewrite Hd in Hin.
Qed.

Lemma keeps_foreign_delete_chunks id : keeps view_foreign (delete_chunks_for_file ident id).
Proof.
  intros w. unfold view_foreign, foreign_of. cbn. f_equal.
  induction (chunks (store w)) as [|k ks IH]; [done|]. cbn.
  destruct (bool_decide (k_file_id k = id)) eqn:E1, (owner_in_scope ident (k_owner k)) eqn:E2; cbn;
    rewrite ?IH; try done. by rewrite (in_scope_not_foreign _ E2).
Qed.
End Views.

#[export] Hint Resolve keeps_foreign_update_file keeps_foreign_update_task
  keeps_foreign_update_case keeps_foreign_create_case keeps_foreign_claim
  keeps_foreign_create_decision keeps_foreign_audit keeps_foreign_create_chunks
  keeps_foreign_delete_chunks : keeps.

(** *** Which collections a primitive leaves alone *)

Ltac keeps_prim := intros; try (unfold create_chunks; keeps_auto; by apply keeps_insert_many);
  unfold create_review_case, create_review_decision,
  insert_audit_event, update_file, update_task, update_review_case; keeps_auto;
  try (apply keeps_modify; done).

Section Untouched.
Context (ident : AuthIdentity).

Lemma keeps_tasks_update_file id f : keeps view_tasks (update_file ident id f).
Proof. keeps_prim. Qed.
Lemma keeps_tasks_update_case id f : keeps view_tasks (update_review_case ident id f).
Proof. keeps_prim. Qed.
Lemma keeps_tasks_create_case c : keeps view_tasks (create_review_case ident c).
Proof. keeps_prim. Qed.
Lemma keeps_tasks_create_decision d : keeps view_tasks (create_review_decision ident d).
Proof. keeps_prim. Qed.
Lemma keeps_tasks_audit e : keeps view_tasks (insert_audit_event ident e).
Proof. keeps_prim. Qed.
Lemma keeps_tasks_create_chunks ks : keeps view_tasks (create_chunks ident ks).
Proof. keeps_prim. Qed.
Lemma keeps_tasks_delete_chunks id : keeps view_tasks (delete_chunks_for_file ident id).
Proof. done. Qed.
Lemma keeps_tasks_claim id h t cl : keeps view_tasks (claim_review_case ident id h t cl).
Proof. intros w. unfold claim_review_case. by repeat case_match. Qed.

Lemma keeps_cases_update_file id f : keeps view_cases (update_file ident id f).
Proof. keeps_prim. Qed.
Lemma keeps_cases_update_task id f : keeps view_cases (update_task ident id f).
Proof. keeps_prim. Qed.
Lemma keeps_cases_create_decision d : keeps view_cases (create_review_decision ident d).
Proof. keeps_prim. Qed.
Lemma keeps_cases_audit e : keeps view_cases (insert_audit_event ident e).
Proof. keeps_prim. Qed.
Lemma keeps_cases_create_chunks ks : keeps view_cases (create_chunks ident ks).
Proof. keeps_prim. Qed.
Lemma keeps_cases_delete_chunks id : keeps view_cases (delete_chunks_for_file ident id).
Proof. done. Qed.

Lemma keeps_chunks_update_file id f : keeps view_chunks (update_file ident id f).
Proof. keeps_prim. Qed.
Lemma keeps_chunks_update_task id f : keeps view_chunks (update_task ident id f).
Proof. keeps_prim. Qed.
Lemma keeps_chunks_update_case id f : keeps view_chunks (update_review_case ident id f).
Proof. keeps_prim. Qed.
Lemma keeps_chunks_create_case c : keeps view_chunks (create_review_case ident c).
Proof. keeps_prim. Qed.
Lemma keeps_chunks_create_decision d : keeps view_chunks (create_review_decision ident d).
Proof. keeps_prim. Qed.
Lemma keeps_chunks_audit e : keeps view_chunks (insert_audit_event ident e).
Proof. keeps_prim. Qed.
Lemma keeps_chunks_claim id h t cl : keeps view_chunks (claim_review_case ident id h t cl).
Proof. intros w. unfold claim_review_case. by repeat case_match. Qed.

Lemma keeps_files_update_task id f : keeps view_files (update_task ident id f).
Proof. keeps_prim. Qed.
Lemma keeps_files_update_case id f : keeps view_files (update_review_case ident id f).
Proof. keeps_prim. Qed.
Lemma keeps_files_create_decision d : keeps view_files (create_review_decision ident d).
Proof. keeps_prim. Qed.
Lemma keeps_files_audit e : keeps view_files (insert_audit_event ident e).
Proof. keeps_prim. Qed.
Lemma keeps_files_claim id h t cl : keeps view_files (claim_review_case ident id h t cl).
Proof. intros w. unfold claim_review_case. by repeat case_match. Qed.

Lemma keeps_disk_update_file id f : keeps disk (update_file ident id f).
Proof. keeps_prim. Qed.
Lemma keeps_disk_update_task id f : keeps disk (update_task ident id f).
Proof. keeps_prim. Qed.
Lemma keeps_disk_update_case id f : keeps disk (update_review_case ident id f).
Proof. keeps_prim. Qed.
Lemma keeps_disk_create_case c : keeps disk (create_review_case ident c).
Proof. keeps_prim. Qed.
Lemma keeps_disk_create_decision d : keeps disk (create_review_decision ident d).
Proof. keeps_prim. Qed.
Lemma keeps_disk_audit e : keeps disk (insert_audit_event ident e).
Proof. keeps_prim. Qed.
Lemma keeps_disk_create_chunks ks : keeps disk (create_chunks ident ks).
Proof. keeps_prim. Qed.
Lemma keeps_disk_delete_chunks id : keeps disk (delete_chunks_for_file ident id).
Proof. done. Qed.
Lemma keeps_disk_claim id h t cl : keeps disk (claim_review_case ident id h t cl).
Proof. intros w. unfold claim_review_case. by repeat case_match. Qed.
End Untouched.

#[export] Hint Resolve keeps_disk_update_file keeps_disk_update_task keeps_disk_update_case
  keeps_disk_create_case keeps_disk_create_decision keeps_disk_audit keeps_disk_create_chunks
  keeps_disk_delete_chunks keeps_disk_claim : keeps.

#[export] Hint Resolve keeps_tasks_update_file keeps_tasks_update_case keeps_tasks_create_case
  keeps_tasks_create_decision keeps_tasks_audit keeps_tasks_create_chunks
  keeps_tasks_delete_chunks keeps_tasks_claim keeps_cases_update_file keeps_cases_update_task
  keeps_cases_create_decision keeps_cases_audit keeps_cases_create_chunks
  keeps_cases_delete_chunks keeps_chunks_update_file keeps_chunks_update_task
  keeps_chunks_update_case keeps_chunks_create_case keeps_chunks_create_decision
  keeps_chunks_audit keeps_chunks_claim keeps_files_update_task keeps_files_update_case
  keeps_files_create_decision keeps_files_audit keeps_files_claim : keeps.

Lemma keeps_disk_transaction {A} tx (c : M A) : keeps disk c -> keeps disk (transaction tx c).
Proof.
  intros Hc w. unfold transaction. specialize (Hc w).
  destruct (c w) as [[a|e] w'] eqn:E; cbn in *; [done|]. by destruct tx.
Qed.

Lemma keeps_transaction {V A} (view : db -> V) tx (c : M A) :
  keeps (fun w => view (store w)) c -> keeps (fun w => view (store w)) (transaction tx c).
Proof.
  intros Hc w. unfold transaction. specialize (Hc w).
  destruct (c w) as [[a|e] w'] eqn:E; cbn in *; [done|]. by destruct tx.
Qed.


(** ** Inversion of successful runs *)

Lemma bind_Ok {A B} (c : M A) (k : A -> M B) w b w2 :
  bind c k w = (Ok b, w2) -> exists a w1, c w = (Ok a, w1) /\ k a w1 = (Ok b, w2).
Proof. unfold bind. destruct (c w) as [[a|e] w1]; [eauto|done]. Qed.

Lemma guard_Ok b e w a w' : guard b e w = (Ok a, w') -> b = true /\ w' = w.
Proof. destruct b; [|done]. by intros [= _ <-]. Qed.

Lemma lift_Ok {A E} (f : E -> exn) (o : outcome E A) w a w' :
  lift f o w = (Ok a, w') -> o = Ok a /\ w' = w.
Proof. destruct o; [|done]. by intros [= <- <-]. Qed.

Lemma transaction_Ok {A} tx (c : M A) w a w' :
  transaction tx c w = (Ok a, w') -> c w = (Ok a, w').
Proof. unfold transaction. by destruct (c w) as [[|] ?]. Qed.

Lemma keeps_Ok {V A} (view : world -> V) (c : M A) w r w' :
  keeps view c -> c w = (r, w') -> view w' = view w.
Proof. intros H E. specialize (H w). by rewrite E in H. Qed.

(** Split every bind, guard and lifted outcome of a successful run. *)
Ltac run_inv :=
  repeat match goal with
  | H : bind _ _ _ = (Ok _, _) |- _ =>
      apply bind_Ok in H as (? & ? & ? & ?); cbn beta in *
  | H : guard _ _ _ = (Ok _, _) |- _ => apply guard_Ok in H as [? ->]
  | H : lift _ _ _ = (Ok _, _) |- _ => apply lift_Ok in H as [? ->]
  | H : ret _ _ = (_, _) |- _ => apply pair_equal_spec in H as [? <-]; simplify_eq
  | H : gets _ _ = (_, _) |- _ => apply pair_equal_spec in H as [? <-]; simplify_eq
  | H : raise _ _ = (Ok _, _) |- _ => discriminate H
  | H : modify _ _ = (_, _) |- _ => apply pair_equal_spec in H as [? <-]
  end.

(** ** Stability *)

Definition stable {A} (P : world -> Prop) (c : M A) : Prop := forall w, P w -> P (c w).2.

Lemma stable_ret {A} P (a : A) : stable P (ret a).
Proof. by intros w. Qed.
Lemma stable_raise {A} P e : stable P (@raise A e).
Proof. by intros w. Qed.
Lemma stable_gets {A} P (f : world -> A) : stable P (gets f).
Proof. by intros w. Qed.
Lemma stable_guard P b e : stable P (guard b e).
Proof. by destruct b; intros w. Qed.
Lemma stable_lift {A E} P (f : E -> exn) (o : outcome E A) : stable P (lift f o).
Proof. by destruct o; intros w. Qed.

Lemma stable_bind {A B} P (c : M A) (k : A -> M B) :
  stable P c -> (forall a, stable P (k a)) -> stable P (bind c k).
Proof.
  intros Hc Hk w Hw. unfold bind. specialize (Hc w Hw). destruct (c w) as [[a|e] w']; [|done].
  by apply Hk.
Qed.

Lemma stable_transaction {A} (P : db -> Prop) tx (c : M A) :
  stable (fun w => P (store w)) c -> stable (fun w => P (store w)) (transaction tx c).
Proof.
  intros Hc w Hw. unfold transaction. specialize (Hc w Hw).
  destruct (c w) as [[a|e] w']; [done|]. by destruct tx.
Qed.

Lemma stable_keeps {V A} (view : world -> V) (Q : V -> Prop) (c : M A) :
  keeps view c -> stable (fun w => Q (view w)) c.
Proof. intros Hk w. by rewrite Hk. Qed.

#[export] Hint Resolve stable_ret stable_raise stable_gets stable_guard stable_lift : stable.

(** Walk through a program, splitting binds, conditionals and matches. *)
Ltac stable_auto :=
  repeat first
    [ progress cbn beta iota zeta
    | solve [eauto with stable]
    | apply stable_bind; [|intros ?]
    | match goal with
      | |- stable _ (if ?b then _ else _) => destruct b
      | |- stable _ (match ?x with _ => _ end) => destruct x
      end ].

(** ** Invariants of the repository

    What the workflow may assume of an invariant [P] of the collections, and what
    an implementation of the repository owes: [P] survives each primitive as the
    handlers use it.  Identifiers and ownership are never rewritten, and a case is
    only ever updated to "resolved". *)
Class RepoInvariant (ident : AuthIdentity) (P : db -> Prop) : Prop := {
  ri_file id f : (forall d, f_file_id (f d) = f_file_id d /\ f_owner (f d) = f_owner d) ->
    stable (fun w => P (store w)) (update_file ident id f);
  ri_task id f : (forall d, t_task_id (f d) = t_task_id d /\ t_owner (f d) = t_owner d) ->
    stable (fun w => P (store w)) (update_task ident id f);
  ri_case id f : (forall d, c_review_case_id (f d) = c_review_case_id d /\
                            c_owner (f d) = c_owner d /\ c_status (f d) = "resolved") ->
    stable (fun w => P (store w)) (update_review_case ident id f);
  ri_create_case c : stable (fun w => P (store w)) (create_review_case ident c);
  ri_claim id h t cl : stable (fun w => P (store w)) (claim_review_case ident id h t cl);
  ri_decision d : stable (fun w => P (store w)) (create_review_decision ident d);
  ri_create_chunks ks : stable (fun w => P (store w)) (create_chunks ident ks);
  ri_delete_chunks id : stable (fun w => P (store w)) (delete_chunks_for_file ident id);
  ri_audit e : stable (fun w => P (store w)) (insert_audit_event ident e)
}.

Section Handlers.
Context (ident : AuthIdentity) (cfg : Settings).
Context (lower : text -> text) (isspace : Z -> bool)
        (pii_patterns : list (text -> option (Z * Z))).
Context (hash_text : text -> string) (token : nat -> text) (uuid : nat -> string).
Context (isalnum : Ascii.ascii -> bool) (path_parts : string -> list string)
        (resolve : list string -> list string) (os_remove : list string -> bool).
Context (upper : string -> string) (now : Z).

(** *** Programs that only write audit events or build messages *)

Section Store.
Context {V : Type} (view : db -> V).
Notation S := (fun w => view (store w)).

Lemma keeps_generate_id : keeps S (generate_id uuid).
Proof. done. Qed.
Lemma keeps_resume_token : keeps S (make_resume_token cfg hash_text token now).
Proof. done. Qed.
Lemma keeps_remove_stored_file f :
  keeps S (remove_stored_file ident cfg isalnum path_parts resolve os_remove f).
Proof.
  unfold remove_stored_file. keeps_auto. apply keeps_modify. intros w. by destruct (os_remove _).
Qed.
Lemma keeps_build_outbound st a b c d p : keeps S (build_outbound cfg uuid st a b c d p).
Proof. unfold build_outbound. keeps_auto; apply keeps_generate_id. Qed.
Lemma keeps_write_audit f t a b c d e g :
  (forall e, keeps S (insert_audit_event ident e)) ->
  keeps S (write_audit_event ident uuid f t a b c d e g).
Proof. intros. unfold write_audit_event. keeps_auto. apply keeps_generate_id. Qed.
End Store.

Lemma keeps_disk_build_outbound st a b c d p : keeps disk (build_outbound cfg uuid st a b c d p).
Proof. unfold build_outbound. keeps_auto; done. Qed.
Lemma keeps_disk_write_audit f t a b c d e g :
  keeps disk (write_audit_event ident uuid f t a b c d e g).
Proof. unfold write_audit_event. keeps_auto. done. Qed.

(** *** A repository invariant survives every handler *)

Section Invariant.
Context (P : db -> Prop) {HP : RepoInvariant ident P}.
Notation PP := (fun w => P (store w)).

Lemma stable_store {A} (c : M A) : keeps store c -> stable PP c.
Proof using Type. intros Hc w. by rewrite Hc. Qed.

Lemma stable_write_audit f t a b c d e g :
  stable PP (write_audit_event ident uuid f t a b c d e g).
Proof using HP. apply stable_bind; [by apply stable_store|]. intros. apply ri_audit. Qed.

Lemma stable_transition t st tgt upd :
  (forall d, t_task_id (upd d) = t_task_id d /\ t_owner (upd d) = t_owner d) ->
  stable PP (transition ident t st tgt upd).
Proof using HP. intros. unfold transition. stable_auto. by apply ri_task. Qed.

#[local] Hint Resolve ri_create_case ri_claim ri_decision
  ri_create_chunks ri_delete_chunks ri_audit stable_write_audit : stable.
#[local] Hint Extern 1 (stable _ (update_file _ _ _)) => by apply ri_file : stable.
#[local] Hint Extern 1 (stable _ (update_task _ _ _)) => by apply ri_task : stable.
#[local] Hint Extern 1 (stable _ (update_review_case _ _ _)) => by apply ri_case : stable.
#[local] Hint Extern 1 (stable _ (transition _ _ _ _ _)) => by apply stable_transition : stable.
#[local] Hint Extern 2 (stable _ (generate_id _)) => by apply stable_store : stable.
#[local] Hint Extern 2 (stable _ (make_resume_token _ _ _ _)) => by apply stable_store : stable.
#[local] Hint Extern 2 (stable _ (remove_stored_file _ _ _ _ _ _ _)) =>
  apply stable_store; apply (keeps_remove_stored_file (fun d => d)) : stable.
#[local] Hint Extern 2 (stable _ (build_outbound _ _ _ _ _ _ _ _)) =>
  apply stable_store; apply (keeps_build_outbound (fun d => d)) : stable.

Lemma stable_chunking f t st a b c d e g h :
  stable PP (complete_chunking_flow ident cfg uuid f t st a b c d e g h).
Proof using HP.
  unfold complete_chunking_flow, get_next_chunk_version, request_embeddings, finalize.
  stable_auto.
Qed.
#[local] Hint Resolve stable_chunking : stable.

Lemma stable_create_case f t st a best :
  stable PP (create_case ident cfg hash_text token uuid upper now f t st a best).
Proof using HP. unfold create_case, pause_for_review. stable_auto. Qed.
#[local] Hint Resolve stable_create_case : stable.

Lemma stable_resume f t c p st a d :
  stable PP (resume_and_apply ident cfg uuid isalnum path_parts resolve os_remove f t c p st a d).
Proof using HP.
  unfold resume_and_apply, apply_delete_decision, apply_redaction_decision,
    apply_accept_decision, resume_review, finalize_rejected, begin_chunking. stable_auto.
Qed.
#[local] Hint Resolve stable_resume : stable.

Lemma stable_resolve f t c p a d ctx :
  stable PP (resolve_and_apply ident cfg uuid isalnum path_parts resolve os_remove f t c p a d ctx).
Proof using HP.
  unfold resolve_and_apply. stable_auto.
Qed.
#[local] Hint Resolve stable_resolve : stable.

Lemma stable_extraction tx file_id task_id t ws a ctx :
  stable PP (handle_extraction_completion ident cfg lower isspace pii_patterns hash_text token
               uuid upper now tx file_id task_id t ws a ctx).
Proof using HP.
  apply stable_transaction. unfold extraction_body, get_raw_by_id, get_raw_task_by_id,
    begin_issue_detection, begin_chunking. stable_auto.
Qed.

Lemma stable_review tx file_id task_id case_id p a ctx :
  stable PP (handle_review_decision ident cfg uuid isalnum path_parts resolve os_remove now
               tx file_id task_id case_id p a ctx).
Proof using HP.
  apply stable_transaction. unfold review_body, get_raw_by_id, get_raw_task_by_id,
    get_raw_review_case_by_id, validate_review_decision. stable_auto.
Qed.
End Invariant.
End Handlers.

#[export] Hint Extern 1 (keeps _ (generate_id _)) => apply keeps_generate_id : keeps.
#[export] Hint Extern 1 (keeps _ (make_resume_token _ _ _ _)) => apply keeps_resume_token : keeps.
#[export] Hint Extern 1 (keeps _ (remove_stored_file _ _ _ _ _ _ _)) =>
  apply keeps_remove_stored_file : keeps.
#[export] Hint Extern 1 (keeps _ (build_outbound _ _ _ _ _ _ _ _)) =>
  apply keeps_build_outbound : keeps.
#[export] Hint Extern 1 (keeps _ (write_audit_event _ _ _ _ _ _ _ _ _ _)) =>
  apply keeps_write_audit; intros; solve [auto with keeps] : keeps.
#[export] Hint Extern 0 (keeps disk (generate_id _)) => done : keeps.
#[export] Hint Extern 0 (keeps disk (make_resume_token _ _ _ _)) => done : keeps.
#[export] Hint Resolve keeps_disk_build_outbound keeps_disk_write_audit : keeps.
