(* ===== verification/IngestionSafety.v ===== *)
(** * Safety of the ingestion workflow

    Tenant isolation, well-formedness of the collections, the human-review gate,
    exactly-once decisions and the content of what is finally chunked, proved for
    the handlers of [Ingestion] with the logic of [IngestionFacts]. *)

From Stdlib Require Import QArith Ascii.
From stdpp Require Import base list strings gmap pretty.
From S2P Require Import Prelude FileText IssueDetector IngestionState FilesRepository Ingestion.
From S2P Require Import IngestionFacts.

Local Open Scope string_scope.
Local Open Scope list_scope.
Local Open Scope Z_scope.

(** ** Repository invariants *)

(** The identity's view of the other tenants never changes. *)
#[export] Instance foreign_invariant ident fo :
  RepoInvariant ident (fun d => foreign_of ident d = fo).
Proof.
  split; intros; apply (stable_keeps (view_foreign ident) (fun x => x = fo)); auto with keeps.
Qed.

(** Every document is filed under its own identifier and owning tenant. *)
Definition filed {D} (id : D -> string) (owner : D -> ownership)
    (m : gmap (string * string) D) : Prop :=
  map_Forall (fun k d => id d = k.2 /\ tenant_id (owner d) = Some k.1) m.

Definition db_wf (d : db) : Prop :=
  filed f_file_id f_owner (files d) /\ filed t_task_id t_owner (tasks d) /\
  filed c_review_case_id c_owner (cases d).

Lemma filed_update {D} ident (id : D -> string) owner key f m :
  (forall d, id (f d) = id d /\ owner (f d) = owner d) ->
  filed id owner m -> filed id owner (update_scoped ident owner key f m).
Proof.
  intros Hf Hm. unfold update_scoped, find_scoped.
  destruct (m !! _) as [d|] eqn:E; [|done]. destruct (owner_in_scope _ _); [|done].
  apply map_Forall_insert_2; [|done]. destruct (Hf d) as [-> ->]. by apply (Hm _ _ E).
Qed.

Lemma lift_bind_stable {A E C} P (f : E -> exn) (o : outcome E A) (k : A -> M C) :
  (forall a, o = Ok a -> stable P (k a)) -> stable P (bind (lift f o) k).
Proof. intros H w. destruct o as [a|e]; [by apply (H a)|done]. Qed.

Lemma guard_bind_stable {C} P b e (k : unit -> M C) :
  (b = true -> stable P (k tt)) -> stable P (bind (guard b e) k).
Proof. intros H w. destruct b; [by apply H|done]. Qed.

Lemma guard_bind_at {C} (P : world -> Prop) b e (k : unit -> M C) w :
  (b = true -> P (k tt w).2) -> P w -> P (bind (guard b e) k w).2.
Proof. by destruct b; auto. Qed.

Lemma stable_gets_bind {A C} P (f : world -> A) (k : A -> M C) :
  (forall w, P w -> P (k (f w) w).2) -> stable P (bind (gets f) k).
Proof. intros H w. apply H. Qed.

Lemma stable_insert_many i P docs :
  (forall k w, P w -> P (w {{ store := (store w) {{ chunks ::= fun cs => cs ++ [k] }} }})) ->
  stable P (insert_many i docs).
Proof.
  intros H. induction docs as [|k docs IH]; cbn [insert_many]; stable_auto. intros w. apply H.
Qed.

#[export] Instance wf_invariant ident : RepoInvariant ident db_wf.
Proof.
  split; intros.
  - intros w (? & ? & ?). split_and!; cbn; auto using filed_update.
  - intros w (? & ? & ?). split_and!; cbn; auto using filed_update.
  - intros w (? & ? & ?). split_and!; cbn; auto. apply filed_update; [|done]. naive_solver.
  - apply lift_bind_stable. intros o Ho. apply stable_bind; [apply stable_gets|]. intros taken.
    apply guard_bind_stable. intros _ w (? & ? & ?). split_and!; cbn; auto.
    apply map_Forall_insert_2; [|done]. split; [done|]. by eapply scope_document_tenant.
  - intros w (? & ? & Hc). unfold claim_review_case, find_scoped.
    destruct (cases (store w) !! _) as [c|] eqn:E; [|done]. destruct (owner_in_scope _ _); [|done].
    destruct (_ && _); [|done]. split_and!; cbn; auto.
    apply map_Forall_insert_2; [|done]. by apply (Hc _ _ E).
  - unfold create_review_decision. stable_auto. by intros w.
  - unfold create_chunks. stable_auto. by apply stable_insert_many.
  - by intros w.
  - unfold insert_audit_event. stable_auto. by intros w.
Qed.

(** A case that is no longer open: claimed or resolved. *)
Definition closed (tenant id : string) (d : db) : Prop :=
  exists c, cases d !! (tenant, id) = Some c /\ c_status c <> "open".

Lemma closed_insert (tenant id : string) (k : string * string) (c : CaseDoc)
    (m : gmap (string * string) CaseDoc) :
  (tenant, id) <> k \/ c_status c <> "open" ->
  (exists c, m !! (tenant, id) = Some c /\ c_status c <> "open") ->
  exists c', <[k := c]> m !! (tenant, id) = Some c' /\ c_status c' <> "open".
Proof.
  intros Hk (c' & Hc' & Hs). destruct (decide ((tenant, id) = k)) as [<-|Hne].
  - destruct Hk; [done|]. exists c. by rewrite lookup_insert_eq.
  - exists c'. by rewrite lookup_insert_ne.
Qed.

#[export] Instance closed_invariant ident tenant id : RepoInvariant ident (closed tenant id).
Proof.
  split; intros.
  - by intros w.
  - by intros w.
  - intros w Hw. unfold closed. cbn. unfold update_scoped.
    destruct (find_scoped _ _ _ _) as [d|]; [|done]. apply closed_insert; [|done]. right.
    by destruct (H d) as (_ & _ & ->).
  - apply lift_bind_stable. intros o Ho. apply stable_gets_bind. intros w Hw.
    apply (guard_bind_at (fun w => closed tenant id (store w))); [|done]. intros Hf.
    apply closed_insert; [left|done].
    apply negb_true_iff, orb_false_iff in Hf as [_ Hf].
    apply bool_decide_eq_false in Hf. intros Heq. apply Hf. destruct Hw as (c' & Hc' & _).
    cbn. unfold key in *. rewrite <-Heq. eauto.
  - intros w Hw. unfold claim_review_case, find_scoped.
    destruct (cases (store w) !! _) as [c|] eqn:E; [|done]. destruct (owner_in_scope _ _); [|done].
    destruct (_ && _); [|done]. apply closed_insert; [|done]. by right.
  - unfold create_review_decision. stable_auto. by intros w.
  - unfold create_chunks. stable_auto. by apply stable_insert_many.
  - by intros w.
  - unfold insert_audit_event. stable_auto. by intros w.
Qed.

(** ** Runs of the workflow *)

Inductive event :=
  | ExtractionDone (i : AuthIdentity) (now : Z) (tx : bool) (file_id task_id : string)
      (extracted : text) (warnings : list string) (actor : string) (ctx : request_context)
  | ReviewDecision (i : AuthIdentity) (now : Z) (tx : bool) (file_id task_id case_id : string)
      (p : decision_payload) (actor : string) (ctx : request_context).

Set Default Proof Using "Type".

Section Safety.
Context (cfg : Settings).
Context (lower : text -> text) (isspace : Z -> bool)
        (pii_patterns : list (text -> option (Z * Z))).
Context (hash_text : text -> string) (token : nat -> text) (uuid : nat -> string).
Context (isalnum : Ascii.ascii -> bool) (path_parts : string -> list string)
        (resolve : list string -> list string) (os_remove : list string -> bool).
Context (upper : string -> string).

Notation extraction i now := (handle_extraction_completion i cfg lower isspace pii_patterns
  hash_text token uuid upper now).
Notation decision i now := (handle_review_decision i cfg uuid isalnum path_parts resolve
  os_remove now).

Definition run_event (e : event) : M (list OutboundMessage) :=
  match e with
  | ExtractionDone i now tx f t x ws a ctx => extraction i now tx f t x ws a ctx
  | ReviewDecision i now tx f t c p a ctx => decision i now tx f t c p a ctx
  end.

Definition event_identity (e : event) : AuthIdentity :=
  match e with ExtractionDone i _ _ _ _ _ _ _ _ | ReviewDecision i _ _ _ _ _ _ _ _ => i end.

Definition run (es : list event) (w : world) : world :=
  fold_left (fun w e => (run_event e w).2) es w.

Lemma run_event_stable P e :
  RepoInvariant (event_identity e) P -> stable (fun w => P (store w)) (run_event e).
Proof. intros. destruct e; cbn in *; [by apply stable_extraction|by apply stable_review]. Qed.

Lemma run_stable P es w :
  (forall i, RepoInvariant i P) -> P (store w) -> P (store (run es w)).
Proof.
  intros HP. revert w. induction es as [|e es IH]; intros w Hw; [done|]. cbn.
  apply IH. by apply (run_event_stable P e).
Qed.

(** C8: tenant isolation: whatever a tenant's extraction result or review decision
    does, with any input, succeeding or failing, with or without transactions, the
    files, tasks, cases, decisions, chunks and audit events of every other tenant
    are exactly as before. *)
Theorem workflow_tenant_isolation e w :
  view_foreign (event_identity e) (run_event e w).2 = view_foreign (event_identity e) w.
Proof.
  apply (run_event_stable (fun d => foreign_of (event_identity e) d =
    view_foreign (event_identity e) w)); [apply _|done].
Qed.

(** the collections stay well formed: after any sequence of extraction results
    and review decisions, by any identities and in either topology, every file, task
    and case is still filed under its own identifier and owning tenant. *)
Theorem workflow_preserves_wf es w : db_wf (store w) -> db_wf (store (run es w)).
Proof. intros Hw. apply run_stable; [apply _|done]. Qed.

(** ** Decisions *)

Lemma closed_refuses i now tx file_id task_id case_id p a ctx w :
  closed (id_tenant i) case_id (store w) ->
  exists e, decision i now tx file_id task_id case_id p a ctx w = (Raise e, w).
Proof.
  intros (c & Hc & Hs). unfold handle_review_decision, transaction.
  assert (H : exists e, review_body i cfg uuid isalnum path_parts resolve os_remove now
            file_id task_id case_id p a ctx w = (Raise e, w)).
  { unfold review_body, bind at 1 2 3. cbn.
    repeat case_match; eauto. simplify_eq. unfold find_scoped in *. case_match; [|done].
    case_match; simplify_eq. unfold key in *. simplify_eq.
    unfold validate_review_decision, bind. rewrite bool_decide_false by done. cbn. eauto. }
  destruct H as [e ->]. exists e. f_equal. by destruct tx, w.
Qed.

Definition value_error (e : exn) : bool := match e with ValueError_ _ => true | _ => false end.

(** A program that either succeeds or raises a validation error, changing nothing. *)
Definition checks {A} (c : M A) : Prop :=
  forall w, (exists a, c w = (Ok a, w)) \/ exists m, c w = (Raise (ValidationException m), w).

Lemma checks_guard b m : checks (guard b (ValidationException m)).
Proof. intros w. destruct b; cbn; eauto. Qed.

Lemma checks_bind {A B} (c : M A) (k : A -> M B) :
  checks c -> (forall a, checks (k a)) -> checks (bind c k).
Proof.
  intros Hc Hk w. unfold bind. destruct (Hc w) as [[a ->]|[m ->]]; [apply Hk|eauto].
Qed.

Lemma checks_validate now c task p : checks (validate_review_decision now c task p).
Proof. repeat first [apply checks_bind; [|intros _] | apply checks_guard]. Qed.

Lemma claim_closes i id h t cl w w' :
  claim_review_case i id h t cl w = (Ok true, w') ->
  closed (id_tenant i) id (store w') /\
  exists c, find_scoped i c_owner id (cases (store w)) = Some c /\ c_status c = "open".
Proof.
  unfold claim_review_case. destruct (find_scoped _ _ _ _) as [c|] eqn:E; [|done].
  destruct (bool_decide (c_status c = "open")) eqn:Eo; [|done].
  destruct (_ && _); [|done]. intros [= <-]. apply bool_decide_eq_true in Eo.
  split; [|eauto]. unfold closed, key. cbn. eexists. by rewrite lookup_insert_eq.
Qed.

Lemma claim_false i id h t cl w w' :
  claim_review_case i id h t cl w = (Ok false, w') -> w' = w.
Proof. unfold claim_review_case. repeat case_match; by intros [= <-]. Qed.

Lemma claim_Ok i id h t cl w : exists b w', claim_review_case i id h t cl w = (Ok b, w').
Proof. unfold claim_review_case. repeat case_match; eauto. Qed.

Lemma find_scoped_filed {D} i (did : D -> string) owner id m d :
  filed did owner m -> find_scoped i owner id m = Some d ->
  did d = id /\ m !! key i id = Some d /\ owner_in_scope i (owner d) = true.
Proof.
  unfold find_scoped. intros Hm. destruct (m !! _) eqn:E; [|done].
  destruct (owner_in_scope _ _) eqn:Es; [|done]. intros [= ->]. split; [by apply (Hm _ _ E)|done].
Qed.

(** Either the decision is refused before anything is written, or the case is
    closed by the time the handler ends, whatever the outcome. *)
Lemma review_body_closes i now file_id task_id case_id p a ctx w r w' :
  db_wf (store w) ->
  review_body i cfg uuid isalnum path_parts resolve os_remove now file_id task_id case_id p a ctx w
    = (r, w') ->
  (exists e, r = Raise e /\ value_error e = false /\ store w' = store w) \/
  closed (id_tenant i) case_id (store w').
Proof.
  intros (_ & _ & Hwf). unfold review_body. cbn.
  destruct (find_scoped i f_owner _ _) as [f|]; [|intros [= <- <-]; eauto].
  destruct (find_scoped i t_owner _ _) as [t|]; [|intros [= <- <-]; eauto].
  destruct (find_scoped i c_owner _ _) as [c|] eqn:Ec; [|intros [= <- <-]; eauto].
  unfold bind at 1. destruct (checks_validate now c t p w) as [[? ->]|[m ->]];
    [|intros [= <- <-]; eauto].
  unfold bind at 1. cbn. unfold bind at 1.
  edestruct claim_Ok as (b & w1 & Hcl). rewrite Hcl. unfold bind.
  destruct b; cbn; [|apply claim_false in Hcl as ->; intros [= <- <-]; eauto].
  intros E. right. apply claim_closes in Hcl as [Hcl _].
  destruct (find_scoped_filed _ _ _ _ _ _ Hwf Ec) as [Hid _]. rewrite Hid in Hcl.
  eapply (stable_resolve i cfg uuid isalnum path_parts resolve os_remove
            (closed (id_tenant i) case_id)) in Hcl.
  by rewrite E in Hcl.
Qed.

(** C20: a review case is decided at most once: after a decision on a case has
    succeeded, and after any further sequence of extraction results and decisions,
    every later decision on that case by any identity of the tenant is refused with
    an exception and changes nothing at all. *)
Theorem review_decided_once i now tx file_id task_id case_id p a ctx w msgs w' :
  db_wf (store w) ->
  decision i now tx file_id task_id case_id p a ctx w = (Ok msgs, w') ->
  forall es j now' tx' file_id' task_id' p' a' ctx', id_tenant j = id_tenant i ->
  exists e, decision j now' tx' file_id' task_id' case_id p' a' ctx' (run es w')
            = (Raise e, run es w').
Proof.
  intros Hwf H%transaction_Ok es j now' tx' file_id' task_id' p' a' ctx' Hj.
  apply closed_refuses. rewrite Hj. apply (run_stable (closed (id_tenant i) case_id)); [apply _|].
  by edestruct review_body_closes as [(e & [=] & _)|Hc].
Qed.

(** C23: what a review decision that raises leaves behind.  Without transactions (a standalone
    server) there are two cases, whatever the exception: the decision was refused before
    anything was written and every collection is as it was; or its case is closed for good,
    and every later decision on it, by any identity of the tenant and after any further
    extraction results and decisions, is refused and changes nothing.  An exception that is a
    ValueError (an invalid patch map, say) is always of the second kind: the decision failed
    and cannot be made again.  With transactions the rollback restores every collection. *)
Theorem review_failure_atomicity i now tx file_id task_id case_id p a ctx w e w' :
  db_wf (store w) ->
  decision i now tx file_id task_id case_id p a ctx w = (Raise e, w') ->
  if tx then store w' = store w
  else (value_error e = false /\ store w' = store w) \/
       (forall es j now' tx' file_id' task_id' p' a' ctx', id_tenant j = id_tenant i ->
        exists e', decision j now' tx' file_id' task_id' case_id p' a' ctx' (run es w')
                   = (Raise e', run es w')).
Proof.
  intros Hwf. unfold handle_review_decision at 1, transaction at 1.
  destruct (review_body _ _ _ _ _ _ _ _ _ _ _ _ _ _ w) as [[?|e1] w1] eqn:E; [done|].
  destruct tx; intros [= -> <-]; [done|].
  destruct (review_body_closes _ _ _ _ _ _ _ _ _ _ _ Hwf E) as [(e1 & [= <-] & He & Hs)|Hc]; [by left|].
  right. intros es j now' tx' file_id' task_id' p' a' ctx' Hj. apply closed_refuses. rewrite Hj.
  by apply (run_stable (closed (id_tenant i) case_id)); [apply _|].
Qed.

(** ** What reaches the index *)

Lemma find_scoped_update {D} i (owner : D -> ownership) id f m :
  (forall d, owner (f d) = owner d) ->
  find_scoped i owner id (update_scoped i owner id f m) = f <$> find_scoped i owner id m.
Proof.
  intros Hf. unfold update_scoped. destruct (find_scoped i owner id m) as [d|] eqn:E; [|done].
  cbn. unfold find_scoped. rewrite lookup_insert_eq, Hf. unfold find_scoped in E.
  repeat case_match; simplify_eq; congruence.
Qed.

(** The stored task [id], as the identity sees it. *)
Definition task_of i id (w : world) : option TaskDoc := find_scoped i t_owner id (tasks (store w)).

Lemma task_of_eq i id w w' : view_tasks w' = view_tasks w -> task_of i id w' = task_of i id w.
Proof. unfold task_of, view_tasks. by intros ->. Qed.

(** A transition that returns was allowed, and is what the store now holds. *)
Lemma transition_Ok i task st tgt upd w t w' :
  (forall d, t_task_id (upd d) = t_task_id d /\ t_owner (upd d) = t_owner d) ->
  transition i task st tgt upd w = (Ok t, w') ->
  (exists s, t_current_node task = value s /\ allowed s tgt) /\
  t_task_id t = t_task_id task /\ t_current_node t = value tgt /\ t_graph_state t = st /\
  task_of i (t_task_id task) w' =
    (fun d => (upd d) {{ t_current_node := value tgt }} {{ t_graph_state := st }}) <$>
    task_of i (t_task_id task) w.
Proof.
  intros Hupd H. unfold transition, update_task in H. run_inv. apply transition_spec in H as [-> Hs].
  split_and!; [done|apply Hupd|done|done|]. unfold task_of. cbn.
  rewrite find_scoped_update; [done|]. intros d. apply Hupd.
Qed.

Definition joined (ks : list ChunkDoc) : text := join_chunks (chunk_overlap cfg) (map k_text ks).

Lemma build_chunk_documents_spec f task_id t src rs flags red v docs :
  0 <= chunk_overlap cfg < chunk_size cfg ->
  build_chunk_documents cfg f task_id t src rs flags red v = Ok docs ->
  joined docs = t /\
  Forall (fun k => k_file_id k = f_file_id f /\ k_text_source k = src /\ k_review_status k = rs /\
                   k_redaction_applied k = red) docs.
Proof.
  intros Ho. unfold build_chunk_documents.
  destruct (chunk_text_spec t _ _ Ho) as (spans & -> & Hj & _). cbn. intros [= <-]. split.
  - unfold joined. etrans; [|exact Hj]. f_equal. rewrite (fmap_imap _ k_text).
    by rewrite <-(imap_const (chunk_body t)).
  - apply Forall_lookup. intros j k. rewrite list_lookup_imap.
    destruct (spans !! j); [|done]. by intros [= <-].
Qed.

Lemma scope_chunks_texts i ks ks' :
  scope_chunks i ks = Ok ks' -> map k_text ks' = map k_text ks.
Proof.
  revert ks'. induction ks as [|k ks IH]; cbn; intros ks'; [by intros [= <-]|].
  destruct (scope_document i (k_owner k)); [|done]. cbn.
  destruct (scope_chunks i ks) as [ks1|]; [|done]. cbn. intros [= <-]. cbn. f_equal. by apply IH.
Qed.

Lemma insert_many_Ok i docs w x w' :
  insert_many i docs w = (Ok x, w') ->
  chunks (store w') = chunks (store w) ++ docs /\ view_tasks w' = view_tasks w.
Proof.
  revert w. induction docs as [|k docs IH]; intros w H; cbn [insert_many] in H; run_inv.
  - by rewrite app_nil_r.
  - match goal with H : insert_many _ _ _ = _ |- _ => apply IH in H as [-> ->] end.
    cbn. by rewrite <-app_assoc.
Qed.

Lemma create_chunks_Ok i ks w n w' :
  create_chunks i ks w = (Ok n, w') ->
  exists new, chunks (store w') = chunks (store w) ++ new /\ map k_text new = map k_text ks /\
              view_tasks w' = view_tasks w.
Proof.
  intros H. unfold create_chunks in H. run_inv.
  match goal with H : insert_many _ _ _ = _ |- _ => apply insert_many_Ok in H as [-> ->] end.
  eexists. split_and!; [done|by eapply scope_chunks_texts|done].
Qed.

(** What a chunking flow leaves behind, and what it sends to be embedded, is the
    chosen source text. *)
Definition chunked i (f : FileDoc) (id : string) (src_text : text) (src rs : string) (red : bool)
    (w : world) (msgs : list OutboundMessage) (w' : world) : Prop :=
  exists new docs m1 m2 job,
    chunks (store w') = chunks (store w) ++ new /\
    msgs = [m1; m2] /\ body m2 = EmbeddingJob job (f_file_id f) (document_id f) docs /\
    map k_text new = map k_text docs /\ joined docs = src_text /\
    Forall (fun k => k_file_id k = f_file_id f /\ k_text_source k = src /\
                     k_review_status k = rs /\ k_redaction_applied k = red) docs /\
    (is_Some (task_of i id w) ->
     exists t, task_of i id w' = Some t /\ t_current_node t = value FINALIZE /\
               t_status t = "completed").

Lemma keeps_chunks_transition i t st tgt upd : keeps view_chunks (transition i t st tgt upd).
Proof. unfold transition. keeps_auto. Qed.

(** Record that every step known to keep the view [V] did. *)
Ltac run_keeps V :=
  repeat match goal with
  | H : ?c ?w = (?r, ?w') |- _ =>
      lazymatch type of r with outcome _ _ => idtac end;
      lazymatch goal with K : V w' = V w |- _ => fail | _ => idtac end;
      assert (V w' = V w) by (eapply keeps_Ok; [|exact H]; solve [auto with keeps])
  end.

Ltac task_ids := repeat match goal with H : t_task_id _ = t_task_id _ |- _ => rewrite H in *; clear H end.

(** Follow the stored task [id] back through the recorded steps. *)
Ltac task_chase i id :=
  repeat match goal with
  | H : view_tasks _ = view_tasks _ |- _ => apply (task_of_eq i id) in H
  | H : t_task_id _ = t_task_id _ |- _ => rewrite H in *; clear H
  end;
  repeat match goal with
  | H : task_of _ _ ?x = _ |- context [task_of _ _ ?x] => rewrite H
  end.

Lemma body_outbound st tp mt ac tg p w m w' :
  build_outbound cfg uuid st tp mt ac tg p w = (Ok m, w') -> body m = p.
Proof. intros H. unfold build_outbound in H. run_inv. done. Qed.

#[local] Hint Resolve keeps_chunks_transition : keeps.

Lemma chunking_flow_Ok i f task st a src rs flags red oc od w msgs w' :
  0 <= chunk_overlap cfg < chunk_size cfg ->
  complete_chunking_flow i cfg uuid f task st a src rs flags red oc od w = (Ok msgs, w') ->
  chunked i f (t_task_id task)
    (default [] (if bool_decide (src = "sanitized") then g_sanitized_text st else g_extracted_text st))
    src rs red w msgs w'.
Proof.
  intros Ho H.
  unfold complete_chunking_flow, get_next_chunk_version, request_embeddings, finalize in H. run_inv.
  match goal with H : build_chunk_documents _ _ _ _ _ _ _ _ _ = Ok ?d |- _ =>
    apply build_chunk_documents_spec in H as [Hj HF]; [|done]; rename d into docs end.
  match goal with H : create_chunks _ _ _ = _ |- _ =>
    destruct (create_chunks_Ok _ _ _ _ _ H) as (new & Hnew & Htexts & Ht); clear H end.
  run_keeps view_chunks. run_keeps view_tasks.
  match goal with H : build_outbound _ _ _ _ "command" _ _ _ _ = _ |- _ =>
    apply body_outbound in H end.
  repeat match goal with H : transition _ _ _ _ _ _ = _ |- _ =>
    apply transition_Ok in H as (_ & ? & _ & _ & ?); [|done] end.
  exists new, docs. do 3 eexists. split_and!; [|done|eassumption|done..|].
  - unfold view_chunks in *. congruence.
  - intros [t Hta]. task_chase i (t_task_id task). cbn. eauto.
Qed.

(** ** Review outcomes *)

Definition authorised now (c : CaseDoc) (t : TaskDoc) (p : decision_payload) : Prop :=
  c_status c = "open" /\ c_decision_status c = "pending" /\
  dp_based_on_text_hash p = c_extracted_text_hash c /\
  (forall e, c_resume_token_expires_at c = Some e -> now < e) /\
  truthy (t_resume_token_hash t) = true /\ dp_decision p ∈ c_allowed_actions c.

Lemma validate_authorised now c t p w x w' :
  validate_review_decision now c t p w = (Ok x, w') -> w' = w /\ authorised now c t p.
Proof.
  intros H. unfold validate_review_decision in H. run_inv.
  rewrite ?bool_decide_eq_true in *. split; [done|]. split_and!; try done.
  intros e He. rewrite He in *. by apply Z.ltb_lt.
Qed.

(** The state a successful decision runs its branch in. *)
Lemma decision_Ok i now tx file_id task_id case_id p a ctx w msgs w' :
  db_wf (store w) ->
  decision i now tx file_id task_id case_id p a ctx w = (Ok msgs, w') ->
  exists f t c st did w1,
    find_scoped i f_owner file_id (files (store w)) = Some f /\ f_file_id f = file_id /\
    task_of i task_id w = Some t /\ t_task_id t = task_id /\
    find_scoped i c_owner case_id (cases (store w)) = Some c /\ authorised now c t p /\
    g_extracted_text st = g_extracted_text (t_graph_state t) /\
    view_chunks w1 = view_chunks w /\ view_tasks w1 = view_tasks w /\
    resume_and_apply i cfg uuid isalnum path_parts resolve os_remove f t c p st a did w1
      = (Ok msgs, w').
Proof.
  intros (Hf & Ht & Hc) H%transaction_Ok. unfold review_body, get_raw_by_id, get_raw_task_by_id,
    get_raw_review_case_by_id in H. run_inv.
  destruct (find_scoped i f_owner _ _) as [f|] eqn:Ef; [|done].
  destruct (find_scoped i t_owner _ _) as [t|] eqn:Et; [|done].
  destruct (find_scoped i c_owner _ _) as [c|] eqn:Ec; [|done].
  unfold resolve_and_apply in *. run_inv.
  match goal with H : validate_review_decision _ _ _ _ _ = _ |- _ =>
    apply validate_authorised in H as [-> Ha] end.
  run_keeps view_chunks. run_keeps view_tasks.
  destruct (find_scoped_filed _ _ _ _ _ _ Hf Ef) as [? _].
  destruct (find_scoped_filed _ _ _ _ _ _ Ht Et) as [? _].
  lazymatch goal with
  | H : resume_and_apply _ _ _ _ _ _ _ _ _ _ _ ?st _ ?did ?w1 = _ |- _ => exists f, t, c, st, did, w1
  end.
  split_and!; done || congruence.
Qed.

#[local] Hint Resolve keeps_chunks_transition : keeps.

Lemma chunked_from i f id x src rs red w w1 msgs w' :
  chunked i f id x src rs red w1 msgs w' -> view_chunks w1 = view_chunks w ->
  (is_Some (task_of i id w) -> is_Some (task_of i id w1)) ->
  chunked i f id x src rs red w msgs w'.
Proof.
  intros (new & docs & m1 & m2 & job & E & ? & ? & ? & ? & ? & Hn) Hc Ht.
  unfold view_chunks in Hc. rewrite Hc in E.
  exists new, docs, m1, m2, job. split_and!; auto.
Qed.

(** Close a [chunked] goal from the run's call of the chunking flow. *)
Ltac chunked_by Ho :=
  run_keeps view_chunks; run_keeps view_tasks;
  repeat match goal with H : transition _ _ _ _ _ _ = _ |- _ =>
    apply transition_Ok in H as (_ & ? & _ & _ & ?); [|done] end;
  subst;
  match goal with
  | H : complete_chunking_flow _ _ _ _ _ _ _ _ _ _ _ _ _ _ = (Ok _, _)
    |- chunked ?i _ ?id _ _ _ _ _ _ _ =>
      apply chunking_flow_Ok in H; [|exact Ho];
      eapply chunked_from; [task_ids; exact H|unfold view_chunks in *; congruence|];
      task_chase i id; rewrite ?fmap_is_Some; by eauto
  end.

(** C21: an approved decision indexes exactly the reviewed text.  When a
    remove_problematic_text decision succeeds, its patch map was valid for the
    extracted text, and the chunks added to the collection and sent to the embedding
    service join to the patched text, all marked as sanitized and redacted; when
    accept_as_is succeeds they join to the extracted text itself.  In both cases the
    decision was authorised and the task has reached FINALIZE.  (For well-formed collections
    and a chunk overlap smaller than the chunk size.) *)
Theorem review_content i now tx file_id task_id case_id p a ctx w msgs w' :
  db_wf (store w) -> 0 <= chunk_overlap cfg < chunk_size cfg ->
  decision i now tx file_id task_id case_id p a ctx w = (Ok msgs, w') ->
  dp_decision p <> "delete_file" ->
  exists f t c, find_scoped i f_owner file_id (files (store w)) = Some f /\
    task_of i task_id w = Some t /\
    find_scoped i c_owner case_id (cases (store w)) = Some c /\ authorised now c t p /\
    let extracted := default [] (g_extracted_text (t_graph_state t)) in
    if bool_decide (dp_decision p = "remove_problematic_text") then
      validate_patch_map extracted (dp_patch_map p) = Ok tt /\
      chunked i f task_id (apply_patch_map extracted (dp_patch_map p)) "sanitized" "sanitized" true
        w msgs w'
    else chunked i f task_id extracted "original" "accepted_with_risk" false w msgs w'.
Proof.
  intros Hwf Ho H Hd. destruct (decision_Ok _ _ _ _ _ _ _ _ _ _ _ _ Hwf H)
    as (f & t & c & st & did & w1 & Hf & Hfid & Ht & Htid & Hc & Ha & Hst & Hk & Htk & Hr).
  exists f, t, c. split_and!; [done..|]. cbv zeta. rewrite <-Hst.
  unfold resume_and_apply, resume_review in Hr. run_inv.
  rewrite (bool_decide_false (dp_decision p = "delete_file")) in * by done.
  destruct (bool_decide (dp_decision p = _)).
  - unfold apply_redaction_decision, begin_chunking in *. run_inv.
    match goal with H : validate_patch_map _ _ = Ok ?u |- _ => destruct u; split; [exact H|] end.
    chunked_by Ho.
  - unfold apply_accept_decision, begin_chunking in *. run_inv. chunked_by Ho.
Qed.

(** ** Deletion *)

Definition file_chunk i file_id (k : ChunkDoc) : bool :=
  bool_decide (k_file_id k = file_id) && owner_in_scope i (k_owner k).

Lemma delete_chunks_Ok i id w n w' :
  delete_chunks_for_file i id w = (Ok n, w') ->
  n = zlen (List.filter (file_chunk i id) (chunks (store w))) /\
  view_chunks w' = List.filter (fun k => negb (file_chunk i id k)) (chunks (store w)) /\
  view_tasks w' = view_tasks w.
Proof. by intros [= <- <-]. Qed.

Lemma delete_outbound_Ok i st f task a oc od w msgs w' (b : bool) :
  (if b then
     eid <-- generate_id uuid;
     m <-- build_outbound cfg uuid st (vector_db_delete_topic cfg) "event"
             "vector_db.delete.requested" "vector_db"
             (VectorDeleteRequested eid (f_file_id f) (document_id f) (t_task_id task));
     write_audit_event i uuid f task "vector_delete_requested" a oc od None None;;;
     ret [m]
   else ret [])%rf w = (Ok msgs, w') ->
  view_chunks w' = view_chunks w /\ view_tasks w' = view_tasks w /\
  if b then exists m eid, msgs = [m] /\
    body m = VectorDeleteRequested eid (f_file_id f) (document_id f) (t_task_id task)
  else msgs = [].
Proof.
  intros H. destruct b; run_inv; [|done]. run_keeps view_chunks. run_keeps view_tasks.
  split_and!; [congruence..|]. do 2 eexists. split; [done|]. by eapply body_outbound.
Qed.

(** a delete_file decision that succeeds leaves no chunk of the file and no
    other chunk less, ends the task as rejected in FINALIZE, and asks the vector
    store to delete exactly when chunks were removed or chunking had been done. *)
Theorem review_delete i now tx file_id task_id case_id p a ctx w msgs w' :
  db_wf (store w) ->
  decision i now tx file_id task_id case_id p a ctx w = (Ok msgs, w') ->
  dp_decision p = "delete_file" ->
  exists f t c, find_scoped i f_owner file_id (files (store w)) = Some f /\
    find_scoped i c_owner case_id (cases (store w)) = Some c /\ authorised now c t p /\
    chunks (store w') = List.filter (fun k => negb (file_chunk i file_id k)) (chunks (store w)) /\
    (exists t', task_of i task_id w' = Some t' /\ t_current_node t' = value FINALIZE /\
                t_status t' = "rejected" /\ g_extracted_text (t_graph_state t') = None) /\
    (if (0 <? zlen (List.filter (file_chunk i file_id) (chunks (store w)))) ||
        bool_decide (st_chunking (f_stage f) = "done")
     then exists m eid, msgs = [m] /\
            body m = VectorDeleteRequested eid file_id (document_id f) task_id
     else msgs = []).
Proof.
  intros Hwf H Hd. destruct (decision_Ok _ _ _ _ _ _ _ _ _ _ _ _ Hwf H)
    as (f & t & c & st & did & w1 & Hf & Hfid & Ht & Htid & Hc & Ha & Hst & Hk & Htk & Hr).
  exists f, t, c. unfold resume_and_apply, resume_review in Hr. run_inv.
  rewrite bool_decide_true in * by done.
  unfold apply_delete_decision, finalize_rejected in *. run_inv.
  match goal with H : delete_chunks_for_file _ _ ?v = _ |- _ =>
    apply delete_chunks_Ok in H as (-> & Hdel & Hdt); rename v into w0 end.
  match goal with H : (if _ then _ else _) _ = _ |- _ =>
    apply delete_outbound_Ok in H as (Hdo & Hdo' & Hout) end.
  run_keeps view_chunks. run_keeps view_tasks.
  repeat match goal with H : transition _ _ _ _ _ _ = _ |- _ =>
    apply transition_Ok in H as (_ & ? & _ & _ & ?); [|done] end.
  subst. assert (Hch : chunks (store w0) = chunks (store w)) by (unfold view_chunks in *; congruence).
  rewrite Hch in *. split_and!; [done..| | |].
  - unfold view_chunks in *. congruence.
  - task_chase i (t_task_id t). cbn. eauto.
  - by task_ids.
Qed.

(** ** Extraction results *)

Lemma keeps_chunks_create_case' i now f t st a best :
  keeps view_chunks (create_case i cfg hash_text token uuid upper now f t st a best).
Proof. unfold create_case, pause_for_review. keeps_auto. Qed.
#[local] Hint Resolve keeps_chunks_create_case' : keeps.

Notation found t ws := (detect lower isspace pii_patterns (cfg_thresholds cfg) t ws).

Lemma create_review_case_Ok i c w x w' :
  create_review_case i c w = (Ok x, w') ->
  exists o, cases (store w') !! key i (c_review_case_id c) = Some (c {{ c_owner := o }}).
Proof.
  intros H. unfold create_review_case in H. run_inv. eexists. cbn. by rewrite lookup_insert_eq.
Qed.

Lemma keeps_cases_transition i t st tgt upd : keeps view_cases (transition i t st tgt upd).
Proof. unfold transition. keeps_auto. Qed.
#[local] Hint Resolve keeps_cases_transition : keeps.

(** What a paused ingestion looks like: one message announces an open, pending
    case, and the task waits at it with the same resume token. *)
Definition paused i (f : FileDoc) (task_id : string) (hash : option string)
    (w : world) (msgs : list OutboundMessage) (w' : world) : Prop :=
  exists m eid case_id cats top c,
    msgs = [m] /\
    body m = ReviewRequired eid (f_file_id f) (document_id f) task_id case_id cats top
               ALLOWED_ACTIONS /\
    cases (store w') !! key i case_id = Some c /\ c_status c = "open" /\
    c_decision_status c = "pending" /\ c_extracted_text_hash c = hash /\
    c_task_id c = task_id /\ c_allowed_actions c = ALLOWED_ACTIONS /\
    (is_Some (task_of i task_id w) ->
     exists t, task_of i task_id w' = Some t /\ t_current_node t = value AWAIT_HUMAN_REVIEW /\
               t_status t = "waiting_for_review" /\ t_resume_token_hash t = c_resume_token_hash c).

Lemma create_case_paused i now f task st a best w msgs w' :
  create_case i cfg hash_text token uuid upper now f task st a best w = (Ok msgs, w') ->
  paused i f (t_task_id task) (g_extracted_text_hash st) w msgs w'.
Proof.
  intros H. unfold create_case, pause_for_review in H. run_inv.
  match goal with H : create_review_case _ _ _ = _ |- _ =>
    destruct (create_review_case_Ok _ _ _ _ _ H) as [o Hc] end.
  match goal with H : build_outbound _ _ _ _ _ _ _ _ _ = _ |- _ =>
    pose proof (body_outbound _ _ _ _ _ _ _ _ _ H) as Hb end.
  run_keeps view_cases. run_keeps view_tasks.
  repeat match goal with H : transition _ _ _ _ _ _ = _ |- _ =>
    apply transition_Ok in H as (_ & ? & _ & _ & ?); [|done] end.
  task_ids. match type of Hc with _ = Some ?c => do 5 eexists; exists c end.
  split_and!; [done|exact Hb| |done..|].
  - unfold view_cases in *. rewrite <-Hc. f_equal. congruence.
  - intros [t Ht]. task_chase i (t_task_id task). cbn. eauto.
Qed.

Lemma paused_from i f id h w w1 msgs w' :
  paused i f id h w1 msgs w' -> (is_Some (task_of i id w) -> is_Some (task_of i id w1)) ->
  paused i f id h w msgs w'.
Proof.
  intros (m & eid & cid & cats & top & c & H) Ht. destruct_and! H.
  exists m, eid, cid, cats, top, c. split_and!; auto.
Qed.

(** The state a successful extraction result branches in. *)
Lemma extraction_Ok i now tx file_id task_id t ws a ctx w msgs w' :
  db_wf (store w) ->
  extraction i now tx file_id task_id t ws a ctx w = (Ok msgs, w') ->
  exists f tk task st w1,
    find_scoped i f_owner file_id (files (store w)) = Some f /\
    task_of i task_id w = Some tk /\ t_current_node tk = value LOAD_EXTRACTION_RESULT /\
    t_task_id task = task_id /\ view_chunks w1 = view_chunks w /\ is_Some (task_of i task_id w1) /\
    g_extracted_text st = Some t /\ g_extracted_text_hash st = Some (hash_text t) /\
    match review_required (found t ws), found t ws with
    | true, x :: xs =>
        create_case i cfg hash_text token uuid upper now f task st a (highest x xs)
    | _, _ =>
        update_file i (f_file_id f) (fun d => d {{ f_status := "processing" }}
          {{ f_review_status := "not_required" }} {{ f_latest_review_case_id := None }}
          {{ f_stage ::= fun s => s {{ st_review := "done" }} }});;;
        task <-- begin_chunking i task st;
        complete_chunking_flow i cfg uuid f task st a "original" "clean" [] false None None
    end%rf w1 = (Ok msgs, w').
Proof.
  intros (Hf & Ht & _) E%transaction_Ok.
  unfold extraction_body, begin_issue_detection, get_raw_by_id, get_raw_task_by_id in E. run_inv.
  destruct (find_scoped i f_owner _ _) as [f|] eqn:Eff; [|done].
  destruct (find_scoped i t_owner _ _) as [tk|] eqn:Et; [|done]. run_inv.
  destruct (find_scoped_filed _ _ _ _ _ _ Ht Et) as [<- _].
  run_keeps view_chunks. run_keeps view_tasks.
  match goal with H : transition _ _ _ _ _ _ = _ |- _ =>
    apply transition_Ok in H as ((s & Hs & Hal) & ? & _ & _ & ?); [|done] end.
  do 5 eexists. split_and!. all: cycle -1. { eassumption. } all: try (done || congruence).
  - rewrite Hs. f_equal. by apply allowed_detect.
  - task_chase i (t_task_id tk). rewrite ?fmap_is_Some. unfold task_of. rewrite Et. eauto.
Qed.

(** C19: the human-review gate: when the detector finds anything at or above its
    threshold, an extraction result never adds a chunk, whatever happens; if it
    succeeds, the only message announces a new open review case offering the three
    decisions, and the task waits for review on that case. *)
Theorem review_gate i now tx file_id task_id t ws a ctx w r w' :
  review_required (found t ws) = true ->
  extraction i now tx file_id task_id t ws a ctx w = (r, w') ->
  chunks (store w') = chunks (store w) /\
  (forall msgs, r = Ok msgs -> db_wf (store w) ->
    exists f, find_scoped i f_owner file_id (files (store w)) = Some f /\
      paused i f task_id (Some (hash_text t)) w msgs w').
Proof.
  intros Hr E. destruct (found t ws) as [|x xs] eqn:Ef; [done|]. split.
  - change (view_chunks w' = view_chunks w). eapply keeps_Ok; [|exact E].
    apply (keeps_transaction chunks). unfold extraction_body, begin_issue_detection.
    rewrite Ef, Hr. unfold get_raw_by_id, get_raw_task_by_id. fold view_chunks. keeps_auto.
  - intros msgs -> Hwf. destruct (extraction_Ok _ _ _ _ _ _ _ _ _ _ _ _ Hwf E)
      as (f & tk & task & st & w1 & Hf & Ht & _ & Hid & _ & Hs & _ & Hh & Hc).
    rewrite Ef, Hr in Hc. apply create_case_paused in Hc. rewrite Hid, Hh in Hc.
    exists f. split; [done|]. by eapply paused_from.
Qed.

(** an extraction result is consumed once: it succeeds only for a task still at
    LOAD_EXTRACTION_RESULT, and when nothing needs review the chunks it stores and
    sends to the embedding service join to the extracted text, unredacted, with the
    task completed in FINALIZE. *)
Theorem extraction_outcome i now tx file_id task_id t ws a ctx w msgs w' :
  db_wf (store w) -> 0 <= chunk_overlap cfg < chunk_size cfg ->
  extraction i now tx file_id task_id t ws a ctx w = (Ok msgs, w') ->
  exists f tk, find_scoped i f_owner file_id (files (store w)) = Some f /\
    task_of i task_id w = Some tk /\ t_current_node tk = value LOAD_EXTRACTION_RESULT /\
    (review_required (found t ws) = false ->
     chunked i f task_id t "original" "clean" false w msgs w').
Proof.
  intros Hwf Ho E. destruct (extraction_Ok _ _ _ _ _ _ _ _ _ _ _ _ Hwf E)
    as (f & tk & task & st & w1 & Hf & Ht & Hn & Hid & Hk & Hs & Hx & _ & Hc).
  exists f, tk. split_and!; [done..|]. intros Hr. rewrite Hr in Hc.
  replace t with (default [] (g_extracted_text st)) by by rewrite Hx.
  unfold begin_chunking in Hc. run_inv. chunked_by Ho.
Qed.

(** ** Files on disk *)

(** The only deletion: one file directly inside the managed directory of the tenant
    and file, with identifiers that cannot leave it. *)
Definition removes {A} (i : AuthIdentity) (c : M A) : Prop := forall w,
  disk (c w).2 = disk w \/
  exists path file_id, disk (c w).2 = disk w ∖ {[path]} /\
    safe_id isalnum (id_tenant i) = id_tenant i /\ safe_id isalnum file_id = file_id /\
    take (length path - 1) path =
      resolve (resolve (path_parts (upload_dir cfg)) ++ [id_tenant i; file_id]) /\
    resolve (path_parts (upload_dir cfg)) `prefix_of` path.

Lemma removes_keeps {A} i (c : M A) : keeps disk c -> removes i c.
Proof. intros H w. left. apply H. Qed.

Lemma removes_bind {A B} i (c : M A) (k : A -> M B) :
  keeps disk c -> (forall a, removes i (k a)) -> removes i (bind c k).
Proof.
  intros Hc Hk w. unfold bind. specialize (Hc w). destruct (c w) as [[a|e] w1]; cbn in *; [|by left].
  rewrite <-Hc. apply Hk.
Qed.

Lemma removes_then {A B} i (c : M A) (k : A -> M B) :
  removes i c -> (forall a, keeps disk (k a)) -> removes i (bind c k).
Proof.
  intros Hc Hk w. unfold bind. specialize (Hc w). destruct (c w) as [[a|e] w1]; cbn in *; [|done].
  by rewrite (Hk a w1).
Qed.

Lemma removes_transaction {A} i tx (c : M A) : removes i c -> removes i (transaction tx c).
Proof.
  intros Hc w. unfold transaction. specialize (Hc w).
  destruct (c w) as [[a|e] w1]; [done|]. by destruct tx.
Qed.

Lemma validate_managed_Ok tenant file_id path q :
  validate_managed_file_path cfg isalnum path_parts resolve tenant file_id path = Ok q ->
  safe_id isalnum tenant = tenant /\ safe_id isalnum file_id = file_id /\
  take (length q - 1) q = resolve (resolve (path_parts (upload_dir cfg)) ++ [tenant; file_id]) /\
  resolve (path_parts (upload_dir cfg)) `prefix_of` q.
Proof.
  unfold validate_managed_file_path.
  destruct (bool_decide (safe_id isalnum tenant = tenant)) eqn:E1; [|done].
  destruct (bool_decide (safe_id isalnum file_id = file_id)) eqn:E2; [|done].
  apply bool_decide_eq_true in E1, E2. rewrite E1, E2. cbn.
  destruct (bool_decide (tenant = "") || _); [done|].
  destruct (bool_decide (take _ _ = resolve _)) eqn:E3; [|done]. cbn.
  destruct (match length _ with O => false | S _ => _ end); [|done]. cbn.
  destruct (bool_decide (take _ _ = resolve (path_parts _))) eqn:E4; [|done]. cbn.
  intros [= <-]. apply bool_decide_eq_true in E3, E4. split_and!; [done..|].
  rewrite <-E4. apply prefix_take.
Qed.

Lemma removes_stored_file i f :
  removes i (remove_stored_file i cfg isalnum path_parts resolve os_remove f).
Proof.
  unfold remove_stored_file. destruct (truthy _); [|by apply removes_keeps; auto with keeps].
  intros w. unfold bind, lift, context_identity. destruct (bool_decide (i = _)); [by left|]. cbn.
  destruct (validate_managed_file_path _ _ _ _ _ _ _) as [q|] eqn:E; [|by left]. cbn.
  destruct (os_remove q); [right|by left]. apply validate_managed_Ok in E as (? & ? & ? & ?).
  by exists q, (f_file_id f).
Qed.

Lemma keeps_disk_transition i t st tgt upd : keeps disk (transition i t st tgt upd).
Proof. unfold transition. keeps_auto. Qed.
#[local] Hint Resolve keeps_disk_transition : keeps.

Lemma keeps_disk_chunking i f t st a b c d e g h :
  keeps disk (complete_chunking_flow i cfg uuid f t st a b c d e g h).
Proof.
  unfold complete_chunking_flow, get_next_chunk_version, request_embeddings, finalize. keeps_auto.
Qed.
#[local] Hint Resolve keeps_disk_chunking : keeps.

Lemma removes_resolve i f t c p a d ctx :
  removes i (resolve_and_apply i cfg uuid isalnum path_parts resolve os_remove f t c p a d ctx).
Proof.
  unfold resolve_and_apply, resume_and_apply, resume_review.
  repeat (apply removes_bind; [solve [auto with keeps]|intros ?]).
  case_match; [|case_match; apply removes_keeps].
  - unfold apply_delete_decision, finalize_rejected. apply removes_bind; [auto with keeps|intros n].
    apply removes_then; [apply removes_stored_file|]. intros _. keeps_auto.
  - unfold apply_redaction_decision, begin_chunking. keeps_auto.
  - unfold apply_accept_decision, begin_chunking. keeps_auto.
Qed.

(** file deletion is confined: an extraction result never touches the disk, and
    a review decision removes at most one file, which lies directly in the upload
    directory of its own tenant and file and whose identifiers hold no separator. *)
Theorem file_deletion_confined e w :
  match e with
  | ExtractionDone _ _ _ _ _ _ _ _ _ => disk (run_event e w).2 = disk w
  | ReviewDecision i _ _ _ _ _ _ _ _ => removes i (run_event e)
  end.
Proof.
  destruct e; cbn [run_event].
  - apply keeps_disk_transaction. unfold extraction_body, get_raw_by_id, get_raw_task_by_id,
      begin_issue_detection, begin_chunking, create_case, pause_for_review. keeps_auto.
  - apply removes_transaction. unfold review_body, get_raw_by_id, get_raw_task_by_id,
      get_raw_review_case_by_id.
    repeat (apply removes_bind; [solve [auto with keeps]|intros ?]).
    repeat case_match; try (apply removes_keeps; solve [auto with keeps]).
    apply removes_bind; [unfold validate_review_decision; keeps_auto|intros _].
    do 3 (apply removes_bind; [solve [auto with keeps]|intros ?]). apply removes_resolve.
Qed.
End Safety.

(** ** A concrete scenario

    A service identity ingests a document that quotes a prompt-injection phrase,
    then a reviewer decides. *)

Module Scenario.
Definition ident : AuthIdentity := mkIdentity "acme" "svc" ROLE_SERVICE None.
Definition owner : ownership := mkOwner (Some "acme") (Some "u1") (Some "a1").

Definition cfg : Settings :=
  mkSettings (mkThresholds (8#10) (8#10) (8#10) (7#10)) 12 3 40 20 3600
    "files.events" "embedding.jobs" "vector_db.delete" "files" "/data".

Definition file : FileDoc :=
  mkFile "f1" None "a.txt" (Some "/data/acme/f1/a.txt") "started" "none" None None 0 []
    (mkStages "running" "pending" "pending" "pending") owner.

Definition state0 : GraphState :=
  mkGraph None None None 0 [] false None None [] [] [] false None None None.

Definition task : TaskDoc :=
  mkTask "t1" "run1" "running" (value LOAD_EXTRACTION_RESULT) None None None state0 owner.

Definition w0 : world :=
  mkWorld (mkDb {[("acme", "f1") := file]} {[("acme", "t1") := task]} ∅ [] [] [])
    {[ ["data"; "acme"; "f1"; "a.txt"] ]} 0.

Definition hash (t : text) : string := "h" +:+ pretty (zlen t).
Definition uuid (n : nat) : string := "id" +:+ pretty n.
Definition isalnum (c : Ascii.ascii) : bool := negb (Ascii.eqb c "/"%char) && negb (Ascii.eqb c "."%char).
Definition parts (p : string) : list string :=
  if bool_decide (p = "/data") then ["data"] else ["data"; "acme"; "f1"; "a.txt"].
Definition ctx : request_context := mkCtx (Some "r1") None None.

Definition clean : text := codes "a short and harmless note".
Definition bad : text := codes "see the system prompt below".

Definition extract (t : text) : M (list OutboundMessage) :=
  handle_extraction_completion ident cfg (fun t => t) (fun c => c =? 32) [] hash
    (fun n => [Z.of_nat n]) uuid (fun s => s) 100 true "f1" "t1" t [] "system" ctx.

Definition decide_ (tx : bool) (p : decision_payload) : M (list OutboundMessage) :=
  handle_review_decision ident cfg uuid isalnum parts (fun p => p) (fun _ => true) 200
    tx "f1" "t1" "id1" p "reviewer" ctx.

Definition accept : decision_payload := mkPayload "accept_as_is" (Some (hash bad)) [].
Definition delete : decision_payload := mkPayload "delete_file" (Some (hash bad)) [].
Definition redact : decision_payload :=
  mkPayload "remove_problematic_text" (Some (hash bad)) [mkPatch 8 21 (codes "[X]")].
Definition overlapping : decision_payload :=
  mkPayload "remove_problematic_text" (Some (hash bad))
    [mkPatch 8 21 (codes "[X]"); mkPatch 10 12 (codes "[Y]")].

Definition is_ok {A} (r : outcome exn A * world) : bool :=
  match r.1 with Ok _ => true | Raise _ => false end.

Definition w1 : world := (extract bad w0).2.
End Scenario.

#[export] Instance filed_dec {D} id owner m : Decision (@filed D id owner m).
Proof. unfold filed. apply _. Defined.
#[export] Instance db_wf_dec d : Decision (db_wf d).
Proof. unfold db_wf. apply _. Defined.

Lemma ok_run {A} (r : outcome exn A * world) :
  Scenario.is_ok r = true -> exists a w', r = (Ok a, w').
Proof. destruct r as [[a|e] w']; [eauto|done]. Qed.

Lemma wf0 : db_wf (store Scenario.w0).
Proof. apply (bool_decide_eq_true_1 _). vm_compute. reflexivity. Qed.
Lemma wf1 : db_wf (store Scenario.w1).
Proof. apply (bool_decide_eq_true_1 _). vm_compute. reflexivity. Qed.

Lemma workflow_preserves_wf_witness :
  let e := ExtractionDone Scenario.ident 100 true "f1" "t1" Scenario.bad [] "system" Scenario.ctx in
  db_wf (store (run Scenario.cfg (fun t => t) (fun c => c =? 32) [] Scenario.hash
    (fun n => [Z.of_nat n]) Scenario.uuid Scenario.isalnum Scenario.parts (fun p => p) (fun _ => true)
    (fun s => s) [e] Scenario.w0)).
Proof. apply workflow_preserves_wf. exact wf0. Defined.

Lemma review_decided_once_witness : exists msgs w' e,
  Scenario.decide_ true Scenario.accept Scenario.w1 = (Ok msgs, w') /\
  Scenario.decide_ true Scenario.delete w' = (Raise e, w').
Proof.
  destruct (ok_run (Scenario.decide_ true Scenario.accept Scenario.w1)) as (msgs & w' & H);
    [vm_compute; reflexivity|].
  destruct (review_decided_once Scenario.cfg (fun t => t) (fun c => c =? 32) [] Scenario.hash
    (fun n => [Z.of_nat n]) Scenario.uuid Scenario.isalnum Scenario.parts (fun p => p) (fun _ => true)
    (fun s => s) _ _ _ _ _ _ _ _ _ _ _ _ wf1 H [] Scenario.ident 200 true "f1" "t1"
    Scenario.delete "reviewer" Scenario.ctx eq_refl) as [e He].
  exists msgs, w', e. by split.
Defined.

Lemma review_failure_atomicity_witness : exists m w' e,
  Scenario.decide_ false Scenario.overlapping Scenario.w1 = (Raise (ValueError_ m), w') /\
  Scenario.decide_ false Scenario.redact w' = (Raise e, w').
Proof.
  destruct (Scenario.decide_ false Scenario.overlapping Scenario.w1) as [r w'] eqn:H.
  assert (Hr : r = Raise (ValueError_ "Patch spans must not overlap")).
  { transitivity (Scenario.decide_ false Scenario.overlapping Scenario.w1).1;
      [by rewrite H|vm_compute; reflexivity]. }
  subst r.
  destruct (review_failure_atomicity Scenario.cfg (fun t => t) (fun c => c =? 32) [] Scenario.hash
    (fun n => [Z.of_nat n]) Scenario.uuid Scenario.isalnum Scenario.parts (fun p => p) (fun _ => true)
    (fun s => s) _ _ _ _ _ _ _ _ _ _ _ _ wf1 H) as [[? _]|Hlater]; [discriminate|].
  destruct (Hlater [] Scenario.ident 200 false "f1" "t1" Scenario.redact "reviewer" Scenario.ctx eq_refl)
    as [e He].
  exists "Patch spans must not overlap", w', e. by split.
Defined.

Lemma review_content_witness : exists msgs w' f,
  Scenario.decide_ true Scenario.redact Scenario.w1 = (Ok msgs, w') /\
  chunked Scenario.cfg Scenario.ident f "t1" (codes "see the [X] below") "sanitized" "sanitized" true
    Scenario.w1 msgs w'.
Proof.
  destruct (ok_run (Scenario.decide_ true Scenario.redact Scenario.w1)) as (msgs & w' & H);
    [vm_compute; reflexivity|].
  destruct (review_content Scenario.cfg _ _ _ _ _ _ _ _ _ _ _ _ _ _ _ _ _ wf1
    ltac:(cbn; lia) H ltac:(discriminate)) as (f & t & c & _ & Ht & _ & _ & Hp).
  exists msgs, w', f. split; [done|].
  assert (Hx : default [] (g_extracted_text (t_graph_state t)) = Scenario.bad).
  { assert (E : g_extracted_text ∘ t_graph_state <$> task_of Scenario.ident "t1" Scenario.w1 =
      Some (Some Scenario.bad)) by (vm_compute; reflexivity).
    rewrite Ht in E. cbn in E. by injection E as ->. }
  rewrite Hx in Hp. cbn zeta in Hp. rewrite bool_decide_true in Hp by done. by destruct Hp.
Defined.

Lemma review_delete_witness : exists msgs w',
  Scenario.decide_ true Scenario.delete Scenario.w1 = (Ok msgs, w') /\ chunks (store w') = [].
Proof.
  destruct (ok_run (Scenario.decide_ true Scenario.delete Scenario.w1)) as (msgs & w' & H);
    [vm_compute; reflexivity|].
  destruct (review_delete Scenario.cfg _ _ _ _ _ _ _ _ _ _ _ _ _ _ _ _ _ wf1 H eq_refl)
    as (f & t & c & _ & _ & _ & Hc & _).
  exists msgs, w'. split; [done|]. rewrite Hc. vm_compute. reflexivity.
Defined.

Lemma review_gate_witness : exists msgs w' f,
  Scenario.extract Scenario.bad Scenario.w0 = (Ok msgs, w') /\
  paused Scenario.ident f "t1" (Some (Scenario.hash Scenario.bad)) Scenario.w0 msgs w'.
Proof.
  destruct (ok_run (Scenario.extract Scenario.bad Scenario.w0)) as (msgs & w' & H);
    [vm_compute; reflexivity|].
  assert (Hr : review_required (detect (fun t => t) (fun c => c =? 32) []
    (cfg_thresholds Scenario.cfg) Scenario.bad []) = true) by (vm_compute; reflexivity).
  edestruct (review_gate Scenario.cfg) as [_ Hg]; [exact Hr|exact H|].
  destruct (Hg msgs eq_refl wf0) as (f & _ & Hp). exists msgs, w', f. exact (conj H Hp).
Defined.

Lemma extraction_outcome_witness : exists msgs w' f,
  Scenario.extract Scenario.clean Scenario.w0 = (Ok msgs, w') /\
  chunked Scenario.cfg Scenario.ident f "t1" Scenario.clean "original" "clean" false
    Scenario.w0 msgs w'.
Proof.
  destruct (ok_run (Scenario.extract Scenario.clean Scenario.w0)) as (msgs & w' & H);
    [vm_compute; reflexivity|].
  edestruct (extraction_outcome Scenario.cfg) as (f & tk & _ & _ & _ & Hc);
    [exact wf0|cbn; lia|exact H|].
  exists msgs, w', f. split; [done|]. apply Hc. vm_compute. reflexivity.
Defined.
