(* ===== verification/Futures.v ===== *)
(** * Futures ([concurrent.futures.Future])

    The part of the standard library's [Future] that the two inference schedulers
    use: the five states, [set_running_or_notify_cancel], [cancel], and completion
    through the schedulers' [_settle], which ignores a future that is already
    settled.  A future is an identifier into a map of states. *)

From stdpp Require Import base list gmap.
From S2P Require Import Prelude.


Inductive fstate (R E : Type) :=
  | PENDING
  | RUNNING
  | CANCELLED
  | CANCELLED_AND_NOTIFIED
  | FINISHED (r : outcome E R).
Arguments PENDING {R E}.
Arguments RUNNING {R E}.
Arguments CANCELLED {R E}.
Arguments CANCELLED_AND_NOTIFIED {R E}.
Arguments FINISHED {R E} r.

Abbreviation futures R E := (gmap nat (fstate R E)).

Section Futures.
Context {R E : Type}.
Implicit Types (fs : futures R E) (s : fstate R E).

(** [Some b] is the returned boolean; [None] is the [RuntimeError] raised on a
    future in an unexpected state. *)
Definition set_running_or_notify_cancel fs (i : nat) : option (bool * futures R E) :=
  match fs !! i with
  | Some PENDING => Some (true, <[i := RUNNING]> fs)
  | Some CANCELLED => Some (false, <[i := CANCELLED_AND_NOTIFIED]> fs)
  | _ => None
  end.

Definition cancel fs (i : nat) : futures R E :=
  match fs !! i with
  | Some PENDING => <[i := CANCELLED]> fs
  | _ => fs
  end.

(** [future.cancelled()]. *)
Definition cancelled fs (i : nat) : bool :=
  match fs !! i with Some CANCELLED | Some CANCELLED_AND_NOTIFIED => true | _ => false end.

(** [_settle]: [set_result] or [set_exception], swallowing [InvalidStateError]. *)
Definition settle fs (i : nat) (r : outcome E R) : futures R E :=
  match fs !! i with
  | Some PENDING | Some RUNNING => <[i := FINISHED r]> fs
  | _ => fs
  end.

(** Waiting in a queue: not started, possibly abandoned. *)
Definition queued s : Prop := s = PENDING \/ s = CANCELLED.

(** Someone still has to complete it. *)
Definition unsettled s : Prop := s = PENDING \/ s = RUNNING.

Definition pending_b fs (i : nat) : bool :=
  match fs !! i with Some PENDING => true | _ => false end.

(** ** Marking a queue prefix as taken *)

Definition start_state s : fstate R E :=
  match s with PENDING => RUNNING | CANCELLED => CANCELLED_AND_NOTIFIED | s => s end.

Definition mark fs (ids : list nat) : futures R E := foldr (alter start_state) fs ids.

Lemma lookup_mark_ne fs ids i : i ∉ ids -> mark fs ids !! i = fs !! i.
Proof.
  induction ids as [|j ids IH]; [done|]. intros [Hij Hi]%not_elem_of_cons. cbn.
  rewrite lookup_alter_ne by done. by apply IH.
Qed.

Lemma start_state_idemp s : start_state (start_state s) = start_state s.
Proof. by destruct s. Qed.

Lemma lookup_mark fs ids i : i ∈ ids -> mark fs ids !! i = start_state <$> fs !! i.
Proof.
  induction ids as [|j ids IH]; [by intros ?%elem_of_nil|]. cbn. intros Hi.
  destruct (decide (j = i)) as [->|Hne].
  - rewrite lookup_alter_eq. destruct (decide (i ∈ ids)) as [Hin|Hin].
    + unfold mark in IH. rewrite IH by done. destruct (fs !! i); cbn; [|done].
      by rewrite start_state_idemp.
    + by rewrite lookup_mark_ne.
  - rewrite lookup_alter_ne by done. apply IH. by apply elem_of_cons in Hi as [->|?].
Qed.

Lemma is_Some_mark fs ids i : is_Some (mark fs ids !! i) <-> is_Some (fs !! i).
Proof.
  induction ids as [|j ids IH]; [done|]. cbn. destruct (decide (j = i)) as [->|].
  - by rewrite lookup_alter_eq, fmap_is_Some.
  - by rewrite lookup_alter_ne.
Qed.

Lemma mark_cons_comm fs i ids :
  i ∉ ids -> mark (alter start_state i fs) ids = mark fs (i :: ids).
Proof.
  induction ids as [|j ids IH]; [done|]. intros [Hij Hi]%not_elem_of_cons.
  unfold mark in *. cbn [foldr] in *. rewrite IH by done. by apply alter_alter_ne.
Qed.

Lemma set_running_queued fs i s :
  fs !! i = Some s -> queued s ->
  set_running_or_notify_cancel fs i = Some (pending_b fs i, alter start_state i fs).
Proof.
  intros Hi Hq. unfold set_running_or_notify_cancel, pending_b. rewrite Hi.
  destruct Hq as [-> | ->]; do 2 f_equal; apply map_eq; intros j;
    (destruct (decide (i = j)) as [<-|];
      [by rewrite lookup_insert_eq, lookup_alter_eq, Hi|by rewrite lookup_insert_ne, lookup_alter_ne]).
Qed.

(** ** Completing a batch *)

Definition settle_all fs (l : list (nat * outcome E R)) : futures R E :=
  fold_left (fun fs '(i, r) => settle fs i r) l fs.

Lemma lookup_settle_ne fs i j r : i <> j -> settle fs i r !! j = fs !! j.
Proof. intros. unfold settle. repeat case_match; try done; by rewrite lookup_insert_ne. Qed.

Lemma lookup_settle_all_ne fs l j : j ∉ l.*1 -> settle_all fs l !! j = fs !! j.
Proof.
  revert fs. induction l as [|[i r] l IH]; intros fs; [done|]. intros [Hij Hi]%not_elem_of_cons.
  cbn. change (settle_all (settle fs i r) l !! j = fs !! j).
  rewrite IH by done. by rewrite lookup_settle_ne.
Qed.

Lemma lookup_settle_all fs l i r :
  NoDup l.*1 -> (i, r) ∈ l -> fs !! i = Some RUNNING ->
  settle_all fs l !! i = Some (FINISHED r).
Proof.
  revert fs. induction l as [|[j q] l IH]; intros fs; [by intros _ ?%elem_of_nil|].
  intros [Hj Hnd]%NoDup_cons Hin Hi. cbn.
  change (settle_all (settle fs j q) l !! i = Some (FINISHED r)).
  apply elem_of_cons in Hin as [[= <- <-]|Hin].
  - rewrite lookup_settle_all_ne by done. unfold settle. rewrite Hi. by rewrite lookup_insert_eq.
  - apply IH; [done..|]. rewrite lookup_settle_ne; [done|]. intros ->. apply Hj.
    apply list_elem_of_fmap. by exists (i, r).
Qed.

(** ** Ownership of futures

    Every future that somebody still has to complete is either waiting in a queue
    or in a running batch, exactly once; a queued one has not started, a batched one
    is running; and identifiers are never reused. *)
Record owned fs (queue running : list nat) (next : nat) : Prop := {
  ow_nodup : NoDup (queue ++ running);
  ow_queued : forall i, i ∈ queue -> exists s, fs !! i = Some s /\ queued s;
  ow_running : forall i, i ∈ running -> fs !! i = Some RUNNING;
  ow_complete : forall i s, fs !! i = Some s -> unsettled s -> i ∈ queue ++ running;
  ow_fresh : forall i, is_Some (fs !! i) -> i < next
}.

Lemma owned_perm fs q q' r r' n :
  q ≡ₚ q' -> r ≡ₚ r' -> owned fs q r n -> owned fs q' r' n.
Proof.
  intros Hq Hr [H1 H2 H3 H4 H5]. split; intros.
  - by rewrite <-Hq, <-Hr.
  - apply H2. by rewrite Hq.
  - apply H3. by rewrite Hr.
  - rewrite <-Hq, <-Hr. eauto.
  - auto.
Qed.

Lemma owned_empty : owned ∅ [] [] 0.
Proof.
  split; intros.
  - constructor.
  - by apply not_elem_of_nil in H.
  - by apply not_elem_of_nil in H.
  - by rewrite lookup_empty in H.
  - destruct H as [? H]. by rewrite lookup_empty in H.
Qed.

(** A caller abandons a future. *)
Lemma owned_cancel fs q r n i : owned fs q r n -> owned (cancel fs i) q r n.
Proof.
  intros [H1 H2 H3 H4 H5]. unfold cancel. destruct (fs !! i) as [[]|] eqn:Ei; try done.
  split; [done|..].
  - intros j Hj. destruct (decide (i = j)) as [<-|]; [rewrite lookup_insert_eq|rewrite lookup_insert_ne by done].
    + eexists. split; [done|]. by right.
    + auto.
  - intros j Hj. rewrite lookup_insert_ne; [auto|]. intros <-. specialize (H3 _ Hj). congruence.
  - intros j s. destruct (decide (i = j)) as [<-|]; [rewrite lookup_insert_eq|rewrite lookup_insert_ne by done].
    + intros [= <-] [|]; done.
    + eauto.
  - intros j. destruct (decide (i = j)) as [<-|]; [|rewrite lookup_insert_ne by done; auto].
    intros _. apply H5. by rewrite Ei.
Qed.

(** New futures enter the queue. *)
Definition create fs (ids : list nat) : futures R E := foldr (fun i => <[i := PENDING]>) fs ids.

Lemma lookup_create fs ids i :
  create fs ids !! i = if decide (i ∈ ids) then Some PENDING else fs !! i.
Proof.
  induction ids as [|j ids IH]; cbn; [by rewrite decide_False by apply not_elem_of_nil|].
  destruct (decide (j = i)) as [->|Hne].
  - by rewrite lookup_insert_eq, decide_True by left.
  - rewrite lookup_insert_ne by done. unfold create in IH. rewrite IH.
    destruct (decide (i ∈ ids)); [by rewrite decide_True by (by right)|].
    rewrite decide_False; [done|]. by intros [->|?]%elem_of_cons.
Qed.

Lemma owned_create fs q r n k :
  owned fs q r n -> owned (create fs (seq n k)) (q ++ seq n k) r (n + k).
Proof.
  intros [H1 H2 H3 H4 H5].
  assert (Hold : forall i, i ∈ q ++ r -> i < n).
  { intros i [Hi|Hi]%elem_of_app; apply H5.
    - destruct (H2 _ Hi) as (s & -> & _). done.
    - by rewrite (H3 _ Hi). }
  assert (Hnew : forall i, i ∈ q ++ r -> create fs (seq n k) !! i = fs !! i).
  { intros i Hi. rewrite lookup_create, decide_False; [done|]. rewrite elem_of_seq.
    specialize (Hold _ Hi). lia. }
  split.
  - rewrite <-app_assoc, (Permutation_app_comm (seq n k)), app_assoc. apply NoDup_app. split_and!.
    + done.
    + intros i Hi%Hold. rewrite elem_of_seq. lia.
    + apply NoDup_seq.
  - intros i [Hi|Hi]%elem_of_app.
    + rewrite Hnew by (apply elem_of_app; by left). auto.
    + rewrite lookup_create, decide_True by done. eexists. split; [done|]. by left.
  - intros i Hi. rewrite Hnew by (apply elem_of_app; by right). auto.
  - intros i s. rewrite lookup_create. destruct (decide _) as [Hi|Hi].
    + intros _ _. rewrite !elem_of_app. auto.
    + intros Hs Hu. specialize (H4 _ _ Hs Hu). rewrite !elem_of_app in *. tauto.
  - intros i. rewrite lookup_create. destruct (decide _) as [Hi|Hi].
    + intros _. apply elem_of_seq in Hi. lia.
    + intros Hi'%H5. lia.
Qed.

(** An abandoned future leaves the queue. *)
Lemma owned_drop fs i q r n :
  owned fs (i :: q) r n -> fs !! i = Some CANCELLED -> owned fs q r n.
Proof.
  intros [H1 H2 H3 H4 H5] Hi. split.
  - by apply NoDup_cons in H1 as [_ ?].
  - intros j Hj. apply H2. by right.
  - done.
  - intros j s Hs Hu. specialize (H4 _ _ Hs Hu). apply elem_of_cons in H4 as [->|H4]; [|done].
    simplify_eq. by destruct Hu.
  - done.
Qed.

(** A batch is taken from the queue: the abandoned ones are dropped. *)
Lemma owned_take fs pre q r n :
  owned fs (pre ++ q) r n ->
  owned (mark fs pre) q (List.filter (pending_b fs) pre ++ r) n.
Proof.
  intros [H1 H2 H3 H4 H5].
  assert (Hnd : NoDup pre) by (rewrite <-app_assoc in H1; by apply NoDup_app in H1 as [? _]).
  assert (Hne : forall i, i ∈ q ++ r -> mark fs pre !! i = fs !! i).
  { intros i Hi. apply lookup_mark_ne. intros Hp. rewrite <-app_assoc in H1.
    apply NoDup_app in H1 as (_ & H1 & _). by apply (H1 i). }
  assert (Hfil : forall i, i ∈ List.filter (pending_b fs) pre <-> i ∈ pre /\ fs !! i = Some PENDING).
  { intros i. rewrite !list_elem_of_In, filter_In. unfold pending_b.
    destruct (fs !! i) as [[]|]; naive_solver. }
  split.
  - rewrite Permutation_app_swap_app. rewrite <-app_assoc in H1.
    eapply sublist_NoDup; [exact H1|]. apply sublist_app; [|done].
    clear. induction pre as [|i pre IH]; [done|]. cbn. destruct (pending_b fs i); by constructor.
  - intros i Hi. rewrite Hne by (apply elem_of_app; by left). apply H2, elem_of_app. by right.
  - intros i [[Hp Hi]%Hfil|Hi]%elem_of_app.
    + by rewrite lookup_mark, Hi by done.
    + rewrite Hne by (apply elem_of_app; by right). auto.
  - intros i s Hs Hu. destruct (decide (i ∈ pre)) as [Hi|Hi].
    + rewrite lookup_mark in Hs by done. destruct (fs !! i) as [s'|] eqn:Ei; [|done].
      destruct (H2 i) as (s0 & Hs0 & Hq); [apply elem_of_app; by left|]. simplify_eq/=.
      rewrite !elem_of_app. right. left. apply Hfil. split; [done|].
      destruct Hq as [-> | ->]; [done|]. by destruct Hu.
    + rewrite lookup_mark_ne in Hs by done. specialize (H4 _ _ Hs Hu).
      rewrite !elem_of_app in *. tauto.
  - intros i. rewrite is_Some_mark. auto.
Qed.

(** A batch completes. *)
Lemma owned_finish fs q b r n l :
  l.*1 = b -> owned fs q (b ++ r) n -> owned (settle_all fs l) q r n.
Proof.
  intros <- [H1 H2 H3 H4 H5].
  assert (Hnd : NoDup l.*1 /\ forall i, i ∈ l.*1 -> i ∉ q ++ r).
  { rewrite Permutation_app_swap_app in H1. by apply NoDup_app in H1 as (? & ? & _). }
  destruct Hnd as [Hnd Hdis].
  assert (Hne : forall i, i ∈ q ++ r -> settle_all fs l !! i = fs !! i).
  { intros i Hi. apply lookup_settle_all_ne. intros Hl. by apply (Hdis i). }
  assert (Hin : forall i, i ∈ l.*1 -> exists r, settle_all fs l !! i = Some (FINISHED r)).
  { intros i Hi. apply list_elem_of_fmap in Hi as ([i' x] & -> & Hi). exists x.
    apply lookup_settle_all; [done..|]. apply H3, elem_of_app. left.
    apply list_elem_of_fmap. by exists (i', x). }
  split.
  - rewrite Permutation_app_swap_app in H1. by apply NoDup_app in H1 as (_ & _ & ?).
  - intros i Hi. rewrite Hne by (apply elem_of_app; by left). auto.
  - intros i Hi. rewrite Hne by (apply elem_of_app; by right). apply H3, elem_of_app. by right.
  - intros i s Hs Hu. destruct (decide (i ∈ l.*1)) as [Hi|Hi].
    + destruct (Hin _ Hi) as [x Hx]. simplify_eq. by destruct Hu.
    + rewrite lookup_settle_all_ne in Hs by done. specialize (H4 _ _ Hs Hu).
      rewrite !elem_of_app in *. tauto.
  - intros i Hi. apply H5. destruct (decide (i ∈ l.*1)) as [Hl|Hl].
    + exists RUNNING. apply H3, elem_of_app. by left.
    + by rewrite lookup_settle_all_ne in Hi.
Qed.

(** [_fail_remaining]'s loop over the left-over items. *)
Fixpoint fail_loop fs (ids : list nat) (e : E) : option (futures R E) :=
  match ids with
  | [] => Some fs
  | i :: ids =>
      match set_running_or_notify_cancel fs i with
      | None => None
      | Some (_, fs) => fail_loop (settle fs i (Raise e)) ids e
      end
  end.

Lemma fail_loop_ne fs ids e fs' j :
  fail_loop fs ids e = Some fs' -> j ∉ ids -> fs' !! j = fs !! j.
Proof.
  revert fs. induction ids as [|i ids IH]; intros fs; cbn; [by intros [= ->]|].
  destruct (set_running_or_notify_cancel fs i) as [[b fs1]|] eqn:E1; [|done].
  intros H [Hij Hj]%not_elem_of_cons. rewrite (IH _ H Hj), lookup_settle_ne by done.
  unfold set_running_or_notify_cancel in E1.
  repeat case_match; simplify_eq; by rewrite lookup_insert_ne.
Qed.

Lemma fail_loop_in fs ids e fs' j :
  fail_loop fs ids e = Some fs' -> NoDup ids -> j ∈ ids ->
  fs' !! j = Some (FINISHED (Raise e)) \/ fs' !! j = Some CANCELLED_AND_NOTIFIED.
Proof.
  revert fs. induction ids as [|i ids IH]; intros fs; cbn; [by intros _ _ ?%elem_of_nil|].
  destruct (set_running_or_notify_cancel fs i) as [[b fs1]|] eqn:E1; [|done].
  intros H [Hi Hnd]%NoDup_cons [->|Hj]%elem_of_cons; [|by eapply IH].
  rewrite (fail_loop_ne _ _ _ _ _ H Hi). unfold set_running_or_notify_cancel in E1. unfold settle.
  repeat case_match; simplify_eq; rewrite ?lookup_insert_eq in *; simplify_eq; auto.
Qed.

Lemma owned_fail fs q r n e :
  owned fs q r n -> exists fs', fail_loop fs q e = Some fs' /\ owned fs' [] r n.
Proof.
  revert fs. induction q as [|i q IH]; intros fs Ho; [by exists fs|]. cbn.
  destruct (ow_queued _ _ _ _ Ho i ltac:(left)) as (s & Hs & Hq).
  rewrite (set_running_queued _ _ _ Hs Hq). apply IH.
  apply (owned_take fs [i] q) in Ho. cbn in Ho.
  unfold pending_b in Ho. rewrite Hs in Ho. destruct Hq as [-> | ->].
  - by apply (owned_finish _ q [i] r n [(i, Raise e)]) in Ho.
  - unfold settle. rewrite lookup_alter_eq, Hs. done.
Qed.
End Futures.

(** ** Queues of items

    The schedulers queue records that carry a future. *)

Section Items.
Context {R E I : Type} (future : I -> nat).
Implicit Types (fs : futures R E).

Definition startable (fs : futures R E) (queue : list I) : Prop :=
  NoDup (map future queue) /\
  forall i, i ∈ map future queue -> exists s, fs !! i = Some s /\ queued s.

Definition live_of (fs : futures R E) (pre : list I) : list I :=
  List.filter (fun i => pending_b fs (future i)) pre.

Lemma map_live_of fs pre : List.filter (pending_b fs) (map future pre) = map future (live_of fs pre).
Proof.
  induction pre as [|i pre IH]; [done|]. unfold live_of in *. cbn.
  destruct (pending_b fs (future i)); cbn; by rewrite IH.
Qed.

Lemma live_of_mark fs ids pre :
  (forall i, i ∈ map future pre -> i ∉ ids) -> live_of (mark fs ids) pre = live_of fs pre.
Proof.
  intros H. apply List.filter_ext_in. intros i Hi. unfold pending_b.
  rewrite lookup_mark_ne; [done|]. by apply H, list_elem_of_In, in_map.
Qed.

Lemma owned_startable fs q1 q2 q3 r n :
  owned fs (map future (q1 ++ q2 ++ q3)) r n -> startable fs q2.
Proof.
  intros [Hnd Hq _ _ _]. rewrite !map_app in *. split.
  - apply NoDup_app in Hnd as [Hnd _]. apply NoDup_app in Hnd as (_ & _ & Hnd).
    by apply NoDup_app in Hnd as [? _].
  - intros i Hi. apply Hq. rewrite !elem_of_app. auto.
Qed.

Lemma owned_take_items fs q1 pre q2 r n :
  owned fs (map future (q1 ++ pre ++ q2)) r n ->
  owned (mark fs (map future pre)) (map future (q1 ++ q2)) (map future (live_of fs pre) ++ r) n /\
  forall i, i ∈ map future (q1 ++ q2) -> i ∉ map future pre.
Proof.
  intros Ho. rewrite <-map_live_of.
  assert (Hp : owned fs (map future pre ++ map future (q1 ++ q2)) r n).
  { eapply owned_perm; [|done|exact Ho]. rewrite !map_app. by rewrite Permutation_app_swap_app. }
  split; [by apply owned_take|]. intros i Hi Hpre. destruct Hp as [Hnd _ _ _ _].
  rewrite <-app_assoc in Hnd. apply NoDup_app in Hnd as (_ & Hnd & _). apply (Hnd i Hpre).
  apply elem_of_app. by left.
Qed.

Lemma live_of_sub fs pre P : Forall P pre -> Forall P (live_of fs pre).
Proof.
  rewrite !Forall_forall. intros H i Hi. apply H. apply list_elem_of_In in Hi.
  apply filter_In in Hi as [Hi _]. by apply list_elem_of_In.
Qed.

Lemma live_of_app fs p q : live_of fs (p ++ q) = live_of fs p ++ live_of fs q.
Proof. apply List.filter_app. Qed.

Lemma elem_live_of fs pre i : i ∈ live_of fs pre <-> i ∈ pre /\ pending_b fs (future i) = true.
Proof. unfold live_of. by rewrite !list_elem_of_In, filter_In. Qed.


(** Taking the head of the queue commutes with marking a later prefix. *)
Lemma take_head fs i queue :
  startable fs (i :: queue) ->
  set_running_or_notify_cancel fs (future i) =
    Some (pending_b fs (future i), alter start_state (future i) fs) /\
  startable (alter start_state (future i) fs) queue /\
  forall pre rest, queue = pre ++ rest ->
    mark (alter start_state (future i) fs) (map future pre) = mark fs (map future (i :: pre)) /\
    live_of (alter start_state (future i) fs) pre = live_of fs pre.
Proof.
  intros [Hnd Hq]. destruct (Hq (future i) ltac:(left)) as (s & Hs & Hqs). cbn in Hnd.
  apply NoDup_cons in Hnd as [Hi Hnd]. split_and!.
  - by apply (set_running_queued _ _ _ Hs Hqs).
  - split; [done|]. intros j Hj. rewrite lookup_alter_ne by (by intros <-). apply Hq. by right.
  - intros pre rest ->. rewrite map_app in Hi. apply not_elem_of_app in Hi as [Hi _].
    split; [by apply mark_cons_comm|]. unfold live_of. apply List.filter_ext_in.
    intros j Hj. unfold pending_b. rewrite lookup_alter_ne; [done|]. intros Heq. apply Hi.
    rewrite Heq. by apply list_elem_of_In, in_map.
Qed.
End Items.
