(* ===== verification/InferenceScheduler.v ===== *)
(** * Embedding inference scheduler
      ([src/backend/embedding/app/services/inference_scheduler.py])

    Bounded admission, live-first batch composition with a background floor, the
    per-batch fan-out to futures, and shutdown.  Each operation that holds the
    scheduler's condition variable is one atomic function on the shared state; the
    interleaving of callers and workers is the relation [step].  Waiting is not
    modelled: an admission that would wait leaves the state alone and may be tried
    again, and the micro-batch window only delays when [collect] runs. *)

From Stdlib Require Import QArith.
From stdpp Require Import base list strings gmap relations.
From S2P Require Import Prelude Futures.

Local Open Scope Z_scope.

Inductive sclass := CLASS_LIVE | CLASS_BACKGROUND.

#[export] Instance sclass_eq_dec : EqDecision sclass.
Proof. solve_decision. Defined.

(** ** Configuration *)

Record config := mkConfig {
  max_batch_size : Z;
  max_pending_items : Z;
  inference_workers : Z;
  max_background_inflight : Z;
  live_reserve : Z;
  background_floor : Z
}.

(** [__init__]: validation and the derived reservations. *)
Definition init (max_batch : Z) (window_ms : Q) (max_pending : Z) (admission_timeout : Q)
    (inference_timeout : Q) (workers : Z) (max_bg : option Z) : outcome string config :=
  if workers <? 1 then Raise "inference_workers must be at least 1"%string
  else if max_batch <? 1 then Raise "max_batch_size must be at least 1"%string
  else if (window_ms <?q 0)%rf then Raise "microbatch_window_ms cannot be negative"%string
  else if max_pending <? max_batch then Raise "max_pending_items must be at least max_batch_size"%string
  else if (admission_timeout <=?q 0)%rf || (inference_timeout <=?q 0)%rf
  then Raise "scheduler timeouts must be positive"%string
  else
    let bg := match max_bg with Some n => n | None => Z.max 1 (workers - 1) end in
    if (1 <=? bg) && (bg <=? workers)
    then Ok (mkConfig max_batch max_pending workers bg
               (Z.max 1 (Z.min max_batch (max_pending / 2))) (Z.max 1 (max_batch / 4)))
    else Raise "max_background_inflight must be between 1 and inference_workers"%string.

(** [create_scheduler]: the arguments built from service configuration. *)
Definition create_scheduler (workers max_batch : Z) (window_ms : Q) (max_pending : Z)
    (admission_timeout inference_timeout : Q) (max_bg : option Z) : outcome string config :=
  let workers := Z.max 1 workers in
  let bg := match max_bg with Some n => n | None => Z.max 1 (workers - 1) end in
  init (Z.max 1 max_batch) window_ms max_pending admission_timeout inference_timeout workers
    (Some (Z.max 1 (Z.min workers bg))).

Inductive wait_error (X : Type) := FutureFailed (x : X) | CancelledError | TimeoutError.
Arguments FutureFailed {X} x.
Arguments CancelledError {X}.
Arguments TimeoutError {X}.

(** What a failed batch or a shutdown puts in a future. *)
Inductive batch_error (X : Type) :=
  | ModelError (x : X)
  | ResultMismatch (expected got : Z)
  | SchedulerClosed.
Arguments ModelError {X} x.
Arguments ResultMismatch {X} expected got.
Arguments SchedulerClosed {X}.

Section Scheduler.
Context {T V X : Type}.

Record item := mkItem { text : T; scheduling_class : sclass; future : nat }.

(** The shared state.  [running] holds the batches now with a worker thread, and
      [next] the next future identifier. *)
Record state := mkState {
  live : list item;
  background : list item;
  closed : bool;
  drain_pending : bool;
  inference_calls : Z;
  items_embedded : Z;
  busy_workers : Z;
  background_inflight : Z;
  futs : futures V (batch_error X);
  running : list (list item);
  next : nat
}.

#[export] Instance eta_state : Eta state := fun x =>
  mkState (live x) (background x) (closed x) (drain_pending x) (inference_calls x)
    (items_embedded x) (busy_workers x) (background_inflight x) (futs x) (running x) (next x).

Definition initial : state := mkState [] [] false true 0 0 0 0 ∅ [] 0.

Definition total_pending (st : state) : Z := zlen (live st) + zlen (background st).

Definition carries_background (batch : list item) : bool :=
  existsb (fun i => bool_decide (scheduling_class i = CLASS_BACKGROUND)) batch.
#[local] Arguments carries_background : simpl never.

Section Config.
Context (cfg : config).

(** ** Admission *)

Definition pending_limit (c : sclass) : Z :=
  match c with
  | CLASS_LIVE => max_pending_items cfg
  | CLASS_BACKGROUND => Z.max 1 (max_pending_items cfg - live_reserve cfg)
  end.

Inductive admission :=
  | Accepted (st : state)
  | Refused (reason : string)
  | Waiting.

Definition enqueue (c : sclass) (items : list item) (st : state) : state :=
  match c with
  | CLASS_LIVE => st {{ live ::= fun q => q ++ items }}
  | CLASS_BACKGROUND => st {{ background ::= fun q => q ++ items }}
  end.

(** One pass of [_admit]'s loop; [expired] is whether the deadline has passed. *)
Definition _admit (st : state) (c : sclass) (items : list item) (expired : bool) : admission :=
  let count := zlen items in
  let limit := pending_limit c in
  if limit <? count then Refused "oversized"
  else if closed st then Refused "closed"
  else if total_pending st + count <=? limit then Accepted (enqueue c items st)
  else if expired then Refused "saturated"
  else Waiting.

(** The logical items of one call, each with its own new future. *)
Definition make_items (st : state) (c : sclass) (texts : list T) : list item :=
  imap (fun k t => mkItem t c (next st + k)) texts.

(** [encode] up to the wait: new futures, then admission.  A refused call's futures
    are unreachable, so they are created on admission only. *)
Definition submit (st : state) (c : sclass) (texts : list T) (expired : bool) : admission :=
  let items := make_items st c texts in
  let st' := st {{ futs ::= fun fs => create fs (map future items) }}
              {{ next ::= Nat.add (length texts) }} in
  _admit st' c items expired.

(** [encode]'s wait: the results in submission order.  The deadline expires after
    [reached] futures have been waited for, or at the first one still unsettled. *)
Fixpoint results_of (fs : futures V (batch_error X)) (reached : nat) (items : list item) {struct items}
  : outcome (wait_error (batch_error X)) (list V) :=
  match items, reached with
  | [], _ => Ok []
  | _ :: _, O => Raise TimeoutError
  | i :: items, S reached =>
    match fs !! future i with
    | Some (FINISHED (Ok v)) => let* vs := results_of fs reached items in Ok (v :: vs)
    | Some (FINISHED (Raise e)) => Raise (FutureFailed e)
    | Some CANCELLED | Some CANCELLED_AND_NOTIFIED => Raise CancelledError
    | _ => Raise TimeoutError
    end
  end.

Definition cancel_all (fs : futures V (batch_error X)) (items : list item)
  : futures V (batch_error X) := fold_left (fun fs i => cancel fs (future i)) items fs.

Definition await (st : state) (reached : nat) (items : list item)
  : outcome (wait_error (batch_error X)) (list V) * state :=
  match results_of (futs st) reached items with
  | Ok vs => (Ok vs, st)
  | Raise e => (Raise e, st {{ futs ::= fun fs => cancel_all fs items }})
  end.

(** ** Workers *)

Definition background_admissible (st : state) : bool :=
  match background st with [] => false | _ => true end &&
  (background_inflight st <? max_background_inflight cfg).

(** [_take_locked]: [None] when a future is in an unexpected state. *)
Fixpoint take_locked (fs : futures V (batch_error X)) (batch : list item) (capacity : Z)
  (queue : list item) : option (futures V (batch_error X) * list item * list item) :=
  match queue with
  | [] => Some (fs, batch, [])
  | i :: rest =>
    if (zlen batch <? max_batch_size cfg) && (0 <? capacity) then
      match set_running_or_notify_cancel fs (future i) with
      | None => None
      | Some (true, fs) => take_locked fs (batch ++ [i]) (capacity - 1) rest
      | Some (false, fs) => take_locked fs batch capacity rest
      end
    else Some (fs, batch, queue)
  end.

Definition compose (st : state) : option (list item * state) :=
  let allow := background_admissible st in
  let reserved := if allow then background_floor cfg else 0 in
  '(fs, b, l) ← take_locked (futs st) [] (Z.max (max_batch_size cfg - reserved) 0) (live st);
  '(fs, b, g) ← (if allow
               then take_locked fs b (max_batch_size cfg - zlen b) (background st)
               else Some (fs, b, background st));
  '(fs, b, l) ← take_locked fs b (max_batch_size cfg - zlen b) l;
  Some (b, st {{ futs := fs }} {{ live := l }} {{ background := g }}).

(** The decision at the head of [_collect_batch].  The lock is released while the worker
    then waits for the micro-batch window, so the batch is composed in a later state:
    [step_collect] does not assume the check. *)
Inductive worker_decision := Exit | Park | Compose.

Definition worker_check (st : state) : worker_decision :=
  if closed st && (negb (drain_pending st) || (total_pending st =? 0)) then Exit
  else if (match live st with [] => false | _ => true end) || background_admissible st
  then Compose else Park.

(** [_collect_batch] once it composes: claim the worker and the background slot. *)
Definition collect (st : state) : option state :=
  '(b, st) ← compose st;
  Some (match b with
      | [] => st
      | _ => st {{ busy_workers ::= Z.add 1 }}
                {{ background_inflight ::= fun n => if carries_background b then n + 1 else n }}
                {{ running ::= cons b }}
      end).

(** [_run_batch]: the model's answer [r] is fanned out to the batch's futures. *)
Definition batch_results (batch : list item) (r : outcome X (list V))
  : list (nat * outcome (batch_error X) V) :=
  match r with
  | Raise x => map (fun i => (future i, Raise (ModelError x))) batch
  | Ok vs =>
    if negb (zlen vs =? zlen batch)
    then map (fun i => (future i, Raise (ResultMismatch (zlen batch) (zlen vs)))) batch
    else zip (map future batch) (map Ok vs)
  end.

Definition run_batch (st : state) (batch : list item) (r : outcome X (list V)) : state :=
  st {{ inference_calls ::= Z.add 1 }}
   {{ items_embedded ::= fun n => match r with
        | Ok vs => if zlen vs =? zlen batch then n + zlen batch else n
        | Raise _ => n end }}
   {{ futs ::= fun fs => settle_all fs (batch_results batch r) }}.

(** [_run]: the batch, then the release of the worker's capacity. *)
Definition finish (st : state) (batch : list item) (rest : list (list item))
  (r : outcome X (list V)) : state :=
  (run_batch st batch r)
  {{ busy_workers ::= fun n => n - 1 }}
  {{ background_inflight ::= fun n => if carries_background batch then n - 1 else n }}
  {{ running := rest }}.

(** ** Shutdown *)

Definition close (st : state) (drain : bool) : state :=
  st {{ closed := true }} {{ drain_pending := drain }}.

Definition fail_remaining (st : state) : option state :=
  fs ← fail_loop (futs st) (map future (live st ++ background st)) SchedulerClosed;
  Some (st {{ futs := fs }} {{ live := [] }} {{ background := [] }}).

(** ** Interleavings *)

Context (model : list T -> outcome X (list V) -> Prop).

(** One atomic step of a caller, a worker or the shutdown; [model] relates the texts
    of a physical batch to what [encode_batch] may answer. *)
Inductive step : state -> state -> Prop :=
  | step_submit st c texts expired st' :
    texts <> [] -> submit st c texts expired = Accepted st' -> step st st'
  | step_await st reached items r st' : await st reached items = (r, st') -> step st st'
  | step_collect st st' :
    zlen (running st) < inference_workers cfg -> collect st = Some st' -> step st st'
  | step_finish st l1 b l2 r :
    running st = l1 ++ b :: l2 -> model (map text b) r -> step st (finish st b (l1 ++ l2) r)
  | step_close st drain : step st (close st drain)
  | step_fail st st' : fail_remaining st = Some st' -> step st st'.

Definition reachable (st : state) : Prop := rtc step initial st.

(** ** Taking items *)

Abbreviation startable := (Futures.startable future).
Abbreviation live_of := (Futures.live_of future).

(** A take removes a prefix of the queue; the batch gains its items that were not
    abandoned, within both bounds, and it stops only at a bound or an empty queue. *)
Lemma take_spec fs batch cap queue :
  startable fs queue ->
  exists pre rest, queue = pre ++ rest /\
    take_locked fs batch cap queue =
      Some (mark fs (map future pre), batch ++ live_of fs pre, rest) /\
    (zlen batch <= max_batch_size cfg -> zlen (batch ++ live_of fs pre) <= max_batch_size cfg) /\
    (0 <= cap -> zlen (live_of fs pre) <= cap) /\
    (rest = [] \/ max_batch_size cfg <= zlen (batch ++ live_of fs pre) \/
     cap <= zlen (live_of fs pre)).
Proof.
  revert fs batch cap. induction queue as [|i queue IH]; intros fs batch cap [Hnd Hq].
  { exists [], []. cbn. rewrite app_nil_r. split_and!; auto. }
  destruct (take_head future fs i queue) as (Hrun & Hq' & Hmark); [by split|].
  cbn [take_locked]. rewrite Hrun.
  destruct ((zlen batch <? max_batch_size cfg) && (0 <? cap)) eqn:Eb; cycle 1.
  { exists [], (i :: queue). cbn. rewrite app_nil_r. split_and!; auto. right.
    apply andb_false_iff in Eb. rewrite !Z.ltb_ge in Eb. exact Eb. }
  apply andb_true_iff in Eb as [Eb Ec]. apply Z.ltb_lt in Eb. apply Z.ltb_lt in Ec.
  destruct (pending_b fs (future i)) eqn:Ep.
  - destruct (IH _ (batch ++ [i]) (cap - 1) Hq') as (pre & rest & Hpre & -> & H1 & H2 & H3).
    destruct (Hmark _ _ Hpre) as [-> Hl]. rewrite Hl in *.
    exists (i :: pre), rest. unfold Futures.live_of. cbn. rewrite Ep. fold (live_of fs pre).
    rewrite <-app_assoc in *. cbn in *. rewrite !zlen_app, !zlen_cons in *.
    change (zlen (@nil item)) with 0 in *. rewrite <-Hpre. split_and!; [done|done|lia..|].
    destruct H3 as [?|[?|?]]; [by left|right; left; lia|right; right; lia].
  - destruct (IH _ batch cap Hq') as (pre & rest & Hpre & -> & H1 & H2 & H3).
    destruct (Hmark _ _ Hpre) as [-> Hl]. rewrite Hl in *.
    exists (i :: pre), rest. unfold Futures.live_of. cbn. rewrite Ep. fold (live_of fs pre).
    rewrite <-Hpre. split_and!; auto.
Qed.

(** What [_compose_locked] removes from each queue and puts in the batch: a live
    prefix up to the reserved capacity, then background, then more live. *)
Record composed (st : state) (b : list item) (st' : state) (lp1 lp2 gp : list item) : Prop := {
  co_state : st' = st {{ futs := futs st' }} {{ live := live st' }} {{ background := background st' }};
  co_live : live st = lp1 ++ lp2 ++ live st';
  co_background : background st = gp ++ background st';
  co_futs : futs st' = mark (futs st) (map future (lp2 ++ gp ++ lp1));
  co_batch : b = live_of (futs st) lp1 ++ live_of (futs st) gp ++ live_of (futs st) lp2;
  co_size : zlen b <= max_batch_size cfg;
  co_disallowed : background_admissible st = false -> gp = [];
  co_reserved : background_admissible st = true ->
    zlen (live_of (futs st) lp1) <= Z.max (max_batch_size cfg - background_floor cfg) 0;
  co_first : background_admissible st = true ->
    lp2 ++ live st' = [] \/
    max_batch_size cfg - background_floor cfg <= zlen (live_of (futs st) lp1);
  co_second : background_admissible st = true ->
    background st' = [] \/
    max_batch_size cfg <= zlen (live_of (futs st) lp1) + zlen (live_of (futs st) gp);
  co_full : live st' = [] \/ max_batch_size cfg <= zlen b
}.

(** The background take between the two live takes. *)
Lemma background_stage st l1 lp1 b1 fs1 R :
  live st = lp1 ++ l1 ->
  (forall i, i ∈ map future (l1 ++ background st) -> i ∉ map future lp1) ->
  fs1 = mark (futs st) (map future lp1) -> zlen b1 <= max_batch_size cfg ->
  owned fs1 (map future (l1 ++ background st)) (map future b1 ++ R) (next st) ->
  exists fs2 gp g,
    (if background_admissible st
     then take_locked fs1 b1 (max_batch_size cfg - zlen b1) (background st)
     else Some (fs1, b1, background st)) = Some (fs2, b1 ++ live_of (futs st) gp, g) /\
    fs2 = mark fs1 (map future gp) /\
    background st = gp ++ g /\ zlen (b1 ++ live_of (futs st) gp) <= max_batch_size cfg /\
    owned fs2 (map future (l1 ++ g)) (map future (live_of (futs st) gp) ++ map future b1 ++ R)
      (next st) /\
    (forall p q, l1 = p ++ q -> live_of fs2 p = live_of (futs st) p) /\
    (background_admissible st = false -> gp = []) /\
    (background_admissible st = true ->
     g = [] \/ max_batch_size cfg <= zlen b1 + zlen (live_of (futs st) gp)).
Proof.
  intros El Hd1 -> H1 Ho1. set (fs1 := mark (futs st) (map future lp1)) in *.
  assert (Hl1 : forall p q, l1 = p ++ q -> live_of fs1 p = live_of (futs st) p).
  { intros p q ->. apply live_of_mark. intros i Hi. apply Hd1. rewrite !map_app, !elem_of_app. auto. }
  destruct (background_admissible st); cycle 1.
  { exists fs1, [], (background st). cbn. rewrite app_nil_r. split_and!; done. }
  destruct (take_spec fs1 b1 (max_batch_size cfg - zlen b1) (background st))
    as (gp & g & Eg & -> & H2 & _ & H2s).
  { apply (owned_startable future _ l1 _ [] (map future b1 ++ R) (next st)). by rewrite app_nil_r. }
  rewrite Eg in Ho1. destruct (owned_take_items future _ l1 gp g _ _ Ho1) as [Ho2 Hd2].
  assert (Egp : live_of fs1 gp = live_of (futs st) gp).
  { apply live_of_mark. intros i Hi. apply Hd1. rewrite Eg, !map_app, !elem_of_app. auto. }
  rewrite Egp in *. exists (mark fs1 (map future gp)), gp, g.
  split_and!; [done|done|done|auto|done| |done|].
  - intros p q Ep. rewrite <-(Hl1 p q Ep). apply live_of_mark. intros i Hi. apply Hd2.
    rewrite Ep, !map_app, !elem_of_app. auto.
  - intros _. rewrite zlen_app in *. destruct H2s as [?|[?|?]]; [by left|right; lia..].
Qed.

Lemma compose_spec st R :
  1 <= max_batch_size cfg -> 1 <= background_floor cfg ->
  owned (futs st) (map future (live st ++ background st)) R (next st) ->
  exists b st' lp1 lp2 gp, compose st = Some (b, st') /\ composed st b st' lp1 lp2 gp /\
    owned (futs st') (map future (live st' ++ background st')) (map future b ++ R) (next st).
Proof.
  intros Hmax Hfl Ho. unfold compose.
  set (res := if background_admissible st then background_floor cfg else 0).
  set (cap1 := Z.max (max_batch_size cfg - res) 0).
  destruct (take_spec (futs st) [] cap1 (live st)) as (lp1 & l1 & El & -> & H1 & H1c & H1s);
    [by apply (owned_startable future _ [] _ (background st) R (next st))|].
  cbn [mbind option_bind]. cbn [app] in H1, H1s |- *.
  specialize (H1 ltac:(change (zlen []) with 0; lia)).
  rewrite El, <-app_assoc in Ho. destruct (owned_take_items future _ [] lp1 _ _ _ Ho) as [Ho1 Hd1].
  cbn [app] in Ho1, Hd1.
  set (fs1 := mark (futs st) (map future lp1)) in *. set (b1 := live_of (futs st) lp1) in *.
  destruct (background_stage st l1 lp1 b1 fs1 R El Hd1 eq_refl H1 Ho1)
    as (fs2 & gp & g & -> & Efs & Eg & H2 & Ho2 & Hl2 & Hdis & Hg).
  cbn [mbind option_bind]. set (b2 := b1 ++ live_of (futs st) gp) in *.
  destruct (take_spec fs2 b2 (max_batch_size cfg - zlen b2) l1) as (lp2 & l & El1 & -> & H3 & _ & H3s);
    [by apply (owned_startable future _ [] _ g _ _ Ho2)|].
  cbn [mbind option_bind]. rewrite El1, <-app_assoc in Ho2.
  destruct (owned_take_items future _ [] lp2 _ _ _ Ho2) as [Ho3 _]. rewrite (Hl2 _ _ El1) in *.
  eexists (b2 ++ live_of (futs st) lp2), _, lp1, lp2, gp. split; [done|]. split.
  - split; cbn; fold b1; [done|by rewrite El, El1|done|by rewrite Efs, !map_app; unfold mark; rewrite !foldr_app|by unfold b2; rewrite <-app_assoc|auto|done| | |done|].
    + intros Ha. subst res cap1. rewrite Ha in *. apply H1c. lia.
    + intros Ha. subst res cap1. rewrite Ha, <-El1 in *.
      destruct H1s as [?|[?|?]]; [by left|right; lia..].
    + rewrite zlen_app in *. destruct H3s as [?|[?|?]]; [by left|right; lia..].
  - cbn [futs live background]. eapply owned_perm; [done| |exact Ho3].
    unfold b2. rewrite !map_app, <-!app_assoc.
    rewrite (Permutation_app_swap_app (map future (live_of (futs st) gp)) (map future b1)).
    rewrite (Permutation_app_swap_app _ (map future b1)).
    by rewrite (Permutation_app_swap_app _ (map future (live_of (futs st) gp))).
Qed.

(** ** Counting by class *)

Definition class_count (c : sclass) (b : list item) : Z :=
  zlen (List.filter (fun i => bool_decide (scheduling_class i = c)) b).

Lemma class_count_app c b1 b2 : class_count c (b1 ++ b2) = class_count c b1 + class_count c b2.
Proof. unfold class_count. by rewrite List.filter_app, zlen_app. Qed.

Lemma class_count_all c c' b :
  Forall (fun i => scheduling_class i = c') b ->
  class_count c b = if bool_decide (c' = c) then zlen b else 0.
Proof.
  induction 1 as [|i b Hi _ IH]; [by case_bool_decide|]. unfold class_count in *. cbn [List.filter].
  rewrite Hi. case_bool_decide; [|done]. rewrite !zlen_cons. lia.
Qed.

(** ** The scheduler invariant *)

Record config_ok : Prop := {
  ok_batch : 1 <= max_batch_size cfg;
  ok_pending : max_batch_size cfg <= max_pending_items cfg;
  ok_background : 1 <= max_background_inflight cfg <= inference_workers cfg;
  ok_reserve : live_reserve cfg = Z.max 1 (Z.min (max_batch_size cfg) (max_pending_items cfg / 2));
  ok_floor : background_floor cfg = Z.max 1 (max_batch_size cfg / 4)
}.

Definition background_batches (bs : list (list item)) : Z := zlen (List.filter carries_background bs).

Record inv (st : state) : Prop := {
  inv_owned : owned (futs st) (map future (live st ++ background st))
                (map future (concat (running st))) (next st);
  inv_live : Forall (fun i => scheduling_class i = CLASS_LIVE) (live st);
  inv_background : Forall (fun i => scheduling_class i = CLASS_BACKGROUND) (background st);
  inv_busy : busy_workers st = zlen (running st) /\ zlen (running st) <= inference_workers cfg;
  inv_slots : background_inflight st = background_batches (running st) /\
              background_inflight st <= max_background_inflight cfg;
  inv_sizes : Forall (fun b => 1 <= zlen b <= max_batch_size cfg) (running st);
  inv_pending : total_pending st <= max_pending_items cfg;
  inv_reserve : zlen (background st) <= pending_limit CLASS_BACKGROUND
}.

Context (Hcfg : config_ok).

Lemma inv_initial : inv initial.
Proof using Hcfg.
  destruct Hcfg. split; cbn; [apply owned_empty|done|done|..]; try done;
    unfold background_batches, total_pending, zlen; cbn; lia.
Qed.

Lemma map_make_items st c texts : map future (make_items st c texts) = seq (next st) (length texts).
Proof.
  unfold make_items. apply list_eq. intros k. change (map future) with (fmap (M := list) future).
  rewrite list_lookup_fmap, list_lookup_imap.
  destruct (texts !! k) as [t|] eqn:E; cbn.
  - symmetry. apply lookup_seq. split; [done|]. by apply lookup_lt_Some in E.
  - symmetry. apply lookup_seq_ge. by apply lookup_ge_None in E.
Qed.

Lemma make_items_class st c texts : Forall (fun i => scheduling_class i = c) (make_items st c texts).
Proof.
  apply Forall_lookup. intros k i. unfold make_items. rewrite list_lookup_imap.
  destruct (texts !! k); [|done]. by intros [= <-].
Qed.

Lemma zlen_make_items st c texts : zlen (make_items st c texts) = zlen texts.
Proof. unfold zlen, make_items. by rewrite length_imap. Qed.

Lemma inv_submit st c texts expired st' :
  inv st -> submit st c texts expired = Accepted st' -> inv st'.
Proof.
  intros [Ho Hl Hg Hb Hs Hz Hp Hr]. unfold submit, _admit.
  rewrite zlen_make_items.
  destruct (Z.ltb_spec (pending_limit c) (zlen texts)); [done|].
  match goal with |- context [closed ?s] => change (closed s) with (closed st);
    change (total_pending s) with (total_pending st) end.
  destruct (closed st); [done|].
  destruct (Z.leb_spec (total_pending st + zlen texts) (pending_limit c)) as [Hfit|];
    [|by destruct expired].
  intros [= <-]. pose proof (make_items_class st c texts) as Hc.
  apply (owned_create _ _ _ _ (length texts)) in Ho. rewrite <-(map_make_items st c) in Ho.
  unfold total_pending in *. cbn in Hfit. rewrite (Nat.add_comm (next st)) in Ho.
  destruct c; split; cbn; try done.
  - eapply owned_perm; [|done|exact Ho]. rewrite <-!map_app, <-!app_assoc.
    apply Permutation_map, Permutation_app_head, Permutation_app_comm.
  - by apply Forall_app.
  - unfold total_pending. cbn. rewrite zlen_app, zlen_make_items. cbn in Hfit. lia.
  - by rewrite app_assoc, map_app.
  - by apply Forall_app.
  - unfold total_pending. cbn. rewrite zlen_app, zlen_make_items. cbn in Hfit. destruct Hcfg. lia.
  - rewrite zlen_app, zlen_make_items. pose proof (zlen_nonneg (live st)). cbn in Hfit |- *. lia.
Qed.

Lemma inv_await st reached items r st' : inv st -> await st reached items = (r, st') -> inv st'.
Proof.
  intros Hi. unfold await. destruct (results_of _ _ _); intros [= _ <-]; [done|].
  destruct Hi as [Ho Hl Hg Hb Hs Hz Hp Hr]. split; cbn; try done.
  unfold cancel_all. generalize dependent (futs st). clear.
  induction items as [|i items IH]; intros fs Ho; cbn; [done|]. by apply IH, owned_cancel.
Qed.

Lemma carries_live b :
  Forall (fun i => scheduling_class i = CLASS_LIVE) b -> carries_background b = false.
Proof.
  induction 1 as [|i b Hi _ IH]; [done|]. unfold carries_background in *. cbn.
  rewrite Hi, IH. done.
Qed.

(** A batch that carries background work was composed with a free slot. *)
Lemma composed_slot st b st' lp1 lp2 gp :
  inv st -> composed st b st' lp1 lp2 gp -> carries_background b = true ->
  background_inflight st < max_background_inflight cfg.
Proof.
  intros Hi Hc Hb. destruct (background_admissible st) eqn:Ea.
  - unfold background_admissible in Ea. apply andb_true_iff in Ea as [_ Ea]. lia.
  - pose proof (inv_live _ Hi) as Hl. rewrite (co_live _ _ _ _ _ _ Hc), !Forall_app in Hl.
    destruct Hl as (H1 & H2 & _). rewrite carries_live in Hb; [done|].
    rewrite (co_batch _ _ _ _ _ _ Hc), (co_disallowed _ _ _ _ _ _ Hc Ea). cbn.
    apply Forall_app. split; by apply live_of_sub.
Qed.

Lemma inv_collect st st' :
  zlen (running st) < inference_workers cfg -> inv st -> collect st = Some st' -> inv st'.
Proof.
  intros Hw Hi. unfold collect. destruct Hcfg as [Hb1 Hb2 Hb3 Hb4 Hb5].
  destruct (compose_spec st _ Hb1 ltac:(lia) (inv_owned _ Hi))
    as (b & st1 & lp1 & lp2 & gp & -> & Hc & Ho). cbn. intros [= <-].
  pose proof (composed_slot _ _ _ _ _ _ Hi Hc) as Hslot.
  destruct Hc as [Hst Hl Hg _ _ Hsz _ _ _ _ _].
  destruct Hi as [_ Il Ig Ib Is Iz Ip Ir].
  rewrite Hl, !Forall_app in Il. rewrite Hg, Forall_app in Ig.
  unfold total_pending in Ip. rewrite Hl, Hg, !zlen_app in Ip. rewrite Hg, zlen_app in Ir.
  pose proof (zlen_nonneg lp1). pose proof (zlen_nonneg lp2). pose proof (zlen_nonneg gp).
  cbn in Ir. destruct b as [|i b]; rewrite Hst; split; cbn; try tauto;
    try (unfold total_pending; cbn; lia); try lia.
  - by rewrite (map_app future b).
  - rewrite !zlen_cons. lia.
  - unfold background_batches in *. cbn [List.filter].
    destruct (carries_background (i :: b)) eqn:Ec; [specialize (Hslot eq_refl); rewrite zlen_cons|]; lia.
  - constructor; [|done]. rewrite zlen_cons in *. pose proof (zlen_nonneg b). lia.
Qed.

Lemma batch_results_ids (batch : list item) (r : outcome X (list V)) :
  (batch_results batch r).*1 = map future batch.
Proof.
  unfold batch_results. destruct r as [vs|x]; [destruct (Z.eqb_spec (zlen vs) (zlen batch)) as [E|]|]; cbn.
  - rewrite fst_zip; [done|]. rewrite !length_map. unfold zlen in E. lia.
  - etrans; [apply map_map|done].
  - etrans; [apply map_map|done].
Qed.

Lemma inv_finish st l1 b l2 r :
  inv st -> running st = l1 ++ b :: l2 -> inv (finish st b (l1 ++ l2) r).
Proof.
  intros [Ho Hl Hg Hb Hs Hz Hp Hr] E. rewrite E in *. split; cbn; try done.
  - apply (owned_finish _ _ (map future b)); [by rewrite batch_results_ids|].
    eapply owned_perm; [done| |exact Ho]. rewrite !concat_app. cbn. rewrite !map_app.
    by rewrite Permutation_app_swap_app.
  - rewrite !zlen_app, zlen_cons in *. lia.
  - unfold background_batches in *. rewrite List.filter_app in *. cbn in Hs.
    destruct (carries_background b); rewrite ?zlen_app, ?zlen_cons in *; lia.
  - apply Forall_app in Hz as [? Hz]. inversion Hz. by apply Forall_app.
Qed.

Lemma inv_fail st : inv st -> exists st', fail_remaining st = Some st' /\ inv st' /\
  live st' = [] /\ background st' = [] /\ running st' = running st.
Proof.
  intros [Ho Hl Hg Hb Hs Hz Hp Hr]. unfold fail_remaining.
  destruct (owned_fail _ _ _ _ SchedulerClosed Ho) as (fs & -> & Ho'). cbn.
  eexists. split; [done|]. split; [|done]. split; cbn; try done.
  - destruct Hcfg. unfold total_pending, zlen. cbn. lia.
  - unfold zlen. cbn. lia.
Qed.

Lemma inv_step st st' : inv st -> step st st' -> inv st'.
Proof.
  intros Hi Hs. destruct Hs as [? ? ? ? ? _ H|? ? ? ? ? H|? ? Hw H|? ? ? ? ? H _|? ?|? ? H].
  - by eapply inv_submit.
  - by eapply inv_await.
  - by eapply inv_collect.
  - by eapply inv_finish.
  - destruct Hi. by split.
  - destruct (inv_fail _ Hi) as (st1 & E & Hi' & _). by simplify_eq.
Qed.

Lemma inv_steps st st' : rtc step st st' -> inv st -> inv st'.
Proof. induction 1; eauto using inv_step. Qed.

Lemma inv_reachable st : reachable st -> inv st.
Proof. intros Hr. eapply inv_steps; [exact Hr|apply inv_initial]. Qed.


Lemma composed_counts st b st' lp1 lp2 gp :
  inv st -> composed st b st' lp1 lp2 gp ->
  class_count CLASS_BACKGROUND b = zlen (live_of (futs st) gp) /\
  class_count CLASS_LIVE b = zlen (live_of (futs st) lp1) + zlen (live_of (futs st) lp2) /\
  zlen b = class_count CLASS_LIVE b + class_count CLASS_BACKGROUND b.
Proof.
  intros Hi Hc. pose proof (inv_live _ Hi) as Hl. pose proof (inv_background _ Hi) as Hg.
  rewrite (co_live _ _ _ _ _ _ Hc), !Forall_app in Hl. destruct Hl as (Hl1 & Hl2 & _).
  rewrite (co_background _ _ _ _ _ _ Hc), Forall_app in Hg. destruct Hg as [Hg _].
  apply (live_of_sub future (futs st)) in Hl1, Hl2, Hg.
  rewrite (co_batch _ _ _ _ _ _ Hc), !class_count_app, !zlen_app.
  rewrite !(class_count_all _ _ _ Hl1), !(class_count_all _ _ _ Hl2), !(class_count_all _ _ _ Hg).
  change (bool_decide (CLASS_LIVE = CLASS_BACKGROUND)) with false.
  change (bool_decide (CLASS_BACKGROUND = CLASS_LIVE)) with false.
  rewrite !bool_decide_true by done. lia.
Qed.

Lemma composed_progress st b st' lp1 lp2 gp :
  1 <= max_batch_size cfg ->
  composed st b st' lp1 lp2 gp -> live st <> [] \/ background_admissible st = true ->
  total_pending st' < total_pending st.
Proof.
  intros Hm Hc Hw. unfold total_pending.
  rewrite (co_live _ _ _ _ _ _ Hc), (co_background _ _ _ _ _ _ Hc), !zlen_app.
  pose proof (zlen_nonneg lp1). pose proof (zlen_nonneg lp2). pose proof (zlen_nonneg gp).
  destruct lp1; [|rewrite zlen_cons in *; pose proof (zlen_nonneg lp1); lia].
  destruct lp2; [|rewrite zlen_cons in *; pose proof (zlen_nonneg lp2); lia].
  destruct gp; [|rewrite zlen_cons in *; pose proof (zlen_nonneg gp); lia].
  exfalso. pose proof (co_batch _ _ _ _ _ _ Hc) as Eb. cbn in Eb. subst b.
  destruct (co_full _ _ _ _ _ _ Hc) as [El|Hf]; [|unfold zlen in Hf; cbn in Hf; lia].
  pose proof (co_live _ _ _ _ _ _ Hc) as El'. rewrite El in El'. cbn in El'.
  destruct Hw as [Hw|Ea]; [done|].
  destruct (co_second _ _ _ _ _ _ Hc Ea) as [Eg|Hf]; [|unfold zlen in Hf; cbn in Hf; lia].
  pose proof (co_background _ _ _ _ _ _ Hc) as Eg'. rewrite Eg in Eg'. cbn in Eg'.
  unfold background_admissible in Ea. by rewrite Eg' in Ea.
Qed.

(** ** Following one call *)

Section Call.
Context (enc : T -> V).
Context (Hmodel : forall ts vs, model ts (Ok vs) -> length vs = length ts -> vs = map enc ts).

(** Still in a queue or a batch, or settled with nothing but its own vector. *)
Definition tracked (i : item) (st : state) : Prop :=
  i ∈ live st ++ background st ++ concat (running st) \/
  futs st !! future i = Some CANCELLED_AND_NOTIFIED \/
  (exists e, futs st !! future i = Some (FINISHED (Raise e))) \/
  futs st !! future i = Some (FINISHED (Ok (enc (text i)))).

Definition settled_alone (i : item) (st : state) : Prop :=
  exists s, futs st !! future i = Some s /\
    (s = CANCELLED_AND_NOTIFIED \/ (exists e, s = FINISHED (Raise e)) \/
     s = FINISHED (Ok (enc (text i)))).

Lemma tracked_settled i st :
  tracked i st <-> i ∈ live st ++ background st ++ concat (running st) \/ settled_alone i st.
Proof. unfold tracked, settled_alone. naive_solver. Qed.

Lemma settled_keep i st st' :
  settled_alone i st -> futs st' !! future i = futs st !! future i -> settled_alone i st'.
Proof. unfold settled_alone. by intros H ->. Qed.

(** A settled future belongs to no queue and no batch. *)
Lemma settled_out i st : inv st -> settled_alone i st ->
  future i ∉ map future (live st ++ background st) /\ future i ∉ map future (concat (running st)).
Proof.
  intros [[_ Hq Hr _ _] _ _ _ _ _ _ _] (s & Hs & Hc). split; intros Hin.
  - destruct (Hq _ Hin) as (s' & Hs' & [-> | ->]); naive_solver.
  - specialize (Hr _ Hin). naive_solver.
Qed.

Lemma tracked_submit i st c texts expired st' :
  inv st -> submit st c texts expired = Accepted st' -> tracked i st -> tracked i st'.
Proof.
  rewrite !tracked_settled. intros Hi Hs [Hin|Hset]; unfold submit, _admit in Hs;
    repeat case_match; simplify_eq.
  - left. destruct c; cbn; rewrite !elem_of_app in *; naive_solver.
  - right. eapply settled_keep; [exact Hset|].
    assert (Hf : forall q, futs (enqueue c q st) = futs st) by by destruct c.
    destruct Hset as (s & Hss & _). destruct c; cbn;
    (rewrite lookup_create, decide_False; [done|]; rewrite map_make_items, elem_of_seq;
     pose proof (ow_fresh _ _ _ _ (inv_owned _ Hi) (future i) ltac:(by rewrite Hss)); lia).
Qed.

Lemma cancel_all_settled i items fs s :
  fs !! future i = Some s -> s <> PENDING -> cancel_all fs items !! future i = Some s.
Proof.
  revert fs. induction items as [|j items IH]; intros fs Hs Hp; [done|]. cbn. apply IH; [|done].
  unfold cancel. destruct (decide (future j = future i)) as [->|].
  - rewrite Hs. by destruct s.
  - repeat case_match; try done. by rewrite lookup_insert_ne.
Qed.

Lemma tracked_await i st reached items r st' :
  await st reached items = (r, st') -> tracked i st -> tracked i st'.
Proof.
  rewrite !tracked_settled. unfold await. destruct (results_of _ _ _); intros [= _ <-]; [done|].
  intros [Hin|(s & Hs & Hc)]; [by left|right]. exists s. split; [|done]. cbn.
  apply cancel_all_settled; [done|]. naive_solver.
Qed.

Lemma tracked_composed i st b st' lp1 lp2 gp :
  inv st -> composed st b st' lp1 lp2 gp -> tracked i st ->
  i ∈ live st' ++ background st' ++ b ++ concat (running st) \/ settled_alone i st'.
Proof.
  intros Hi Hc [Hin|Hset]%tracked_settled.
  - rewrite (co_live _ _ _ _ _ _ Hc), (co_background _ _ _ _ _ _ Hc) in Hin.
    assert (Hcase : i ∈ lp2 ++ gp ++ lp1 \/ i ∈ live st' ++ background st' ++ concat (running st)).
    { rewrite !elem_of_app in *. naive_solver. }
    clear Hin. destruct Hcase as [Hp|Hin].
    + assert (Hq : exists s, futs st !! future i = Some s /\ queued s).
      { apply (ow_queued _ _ _ _ (inv_owned _ Hi)).
        rewrite (co_live _ _ _ _ _ _ Hc), (co_background _ _ _ _ _ _ Hc).
        apply list_elem_of_In, in_map, list_elem_of_In. rewrite !elem_of_app in *. naive_solver. }
      destruct Hq as (s & Hs & [-> | ->]).
      * left. rewrite (co_batch _ _ _ _ _ _ Hc). rewrite !elem_of_app, !elem_live_of.
        unfold pending_b. rewrite Hs. rewrite !elem_of_app in Hp. naive_solver.
      * right. exists CANCELLED_AND_NOTIFIED. split; [|by left].
        rewrite (co_futs _ _ _ _ _ _ Hc), lookup_mark, Hs; [done|].
        apply list_elem_of_In, in_map, list_elem_of_In, Hp.
    + left. rewrite !elem_of_app in *. naive_solver.
  - right. eapply settled_keep; [exact Hset|]. rewrite (co_futs _ _ _ _ _ _ Hc).
    apply lookup_mark_ne. intros Hp. apply (settled_out _ _ Hi) in Hset as [Hout _]. apply Hout.
    rewrite (co_live _ _ _ _ _ _ Hc), (co_background _ _ _ _ _ _ Hc).
    rewrite !map_app, !elem_of_app in *. naive_solver.
Qed.

Lemma tracked_collect i st st' : inv st -> collect st = Some st' -> tracked i st -> tracked i st'.
Proof.
  intros Hi Hs Ht. unfold collect in Hs. destruct Hcfg as [Hb1 Hb2 Hb3 Hb4 Hb5].
  destruct (compose_spec st _ Hb1 ltac:(lia) (inv_owned _ Hi))
    as (b & st1 & lp1 & lp2 & gp & E & Hc & _). rewrite E in Hs. cbn in Hs.
  pose proof (tracked_composed _ _ _ _ _ _ _ Hi Hc Ht) as H. apply tracked_settled.
  assert (Hrun : running st1 = running st) by (by rewrite (co_state _ _ _ _ _ _ Hc)).
  destruct b as [|j b]; simplify_eq; cbn; rewrite Hrun; destruct H as [H|H]; auto.
Qed.

Lemma lookup_zip_results (batch : list item) vs k i :
  length vs = length batch -> batch !! k = Some i ->
  exists v, vs !! k = Some v /\ (future i, Ok v) ∈ batch_results batch (Ok vs).
Proof.
  intros Hl Hk. destruct (lookup_lt_is_Some_2 vs k) as [v Hv].
  { rewrite Hl. by eapply lookup_lt_Some. }
  exists v. split; [done|]. unfold batch_results. unfold zlen. rewrite Hl, Z.eqb_refl. cbn.
  apply list_elem_of_lookup_2 with k. rewrite lookup_zip_Some.
  change (map future batch) with (future <$> batch). change (map Ok vs) with (Ok (E := batch_error X) <$> vs).
  by rewrite !list_lookup_fmap, Hk, Hv.
Qed.

Lemma batch_results_error (batch : list item) r i :
  i ∈ batch -> (forall vs, r = Ok vs -> length vs <> length batch) ->
  exists e, (future i, Raise e) ∈ batch_results batch r.
Proof.
  intros Hi Hr. assert (Hmap : forall e : batch_error X,
    (future i, Raise e) ∈ map (fun i => (future i, Raise (A := V) e)) batch).
  { intros e. apply list_elem_of_In, in_map_iff. exists i. split; [done|]. by apply list_elem_of_In. }
  unfold batch_results. destruct r as [vs|x]; [|eexists; apply Hmap].
  destruct (Z.eqb_spec (zlen vs) (zlen batch)) as [E|]; [|eexists; apply Hmap].
  exfalso. apply (Hr vs eq_refl). unfold zlen in E. lia.
Qed.

Lemma batch_nodup st l1 b l2 (r : outcome X (list V)) :
  inv st -> running st = l1 ++ b :: l2 -> NoDup (batch_results b r).*1.
Proof.
  intros Hi E. rewrite batch_results_ids. pose proof (ow_nodup _ _ _ _ (inv_owned _ Hi)) as Hnd.
  apply NoDup_app in Hnd as (_ & _ & Hnd). rewrite E, concat_app, map_app in Hnd.
  apply NoDup_app in Hnd as (_ & _ & Hnd). cbn in Hnd. rewrite map_app in Hnd.
  by apply NoDup_app in Hnd as [? _].
Qed.

Lemma batch_answer b r i :
  model (map text b) r -> i ∈ b ->
  (future i, Ok (enc (text i))) ∈ batch_results b r \/
  exists e, (future i, Raise e) ∈ batch_results b r.
Proof.
  intros Hm Hi. destruct r as [vs|x]; [|right; by apply batch_results_error].
  destruct (Nat.eq_dec (length vs) (length b)) as [Hl|Hl]; [left|right; apply batch_results_error; naive_solver].
  apply list_elem_of_lookup in Hi as [k Hk].
  destruct (lookup_zip_results b vs k i Hl Hk) as (v & Hv & Hin).
  rewrite (Hmodel _ _ Hm) in Hv by (by rewrite length_map).
  change (map enc (map text b)) with (enc <$> (text <$> b)) in Hv.
  rewrite !list_lookup_fmap, Hk in Hv. cbn in Hv. by injection Hv as <-.
Qed.

(** Fan-out: every item of a finished batch is settled with its own vector or an
    error, and no other future is touched. *)
Lemma tracked_finish i st l1 b l2 r :
  inv st -> running st = l1 ++ b :: l2 -> model (map text b) r -> tracked i st ->
  tracked i (finish st b (l1 ++ l2) r).
Proof.
  intros Hi E Hm [Hin|Hset]%tracked_settled; apply tracked_settled.
  - rewrite E, concat_app in Hin. cbn in Hin.
    assert (Hcase : i ∈ b \/ i ∈ live st ++ background st ++ concat l1 ++ concat l2).
    { rewrite !elem_of_app in *. naive_solver. }
    clear Hin. destruct Hcase as [Hb|Hin]; [|left; cbn; by rewrite concat_app]. right.
    assert (Hrun : futs st !! future i = Some RUNNING).
    { apply (ow_running _ _ _ _ (inv_owned _ Hi)). apply list_elem_of_In, in_map, list_elem_of_In.
      rewrite E, concat_app. cbn. rewrite !elem_of_app. auto. }
    pose proof (batch_nodup _ _ _ _ r Hi E) as Hnd. unfold settled_alone. cbn.
    destruct (batch_answer b r i Hm Hb) as [Ha|[e Ha]];
      rewrite (lookup_settle_all _ _ _ _ Hnd Ha Hrun); eauto 10.
  - right. eapply settled_keep; [exact Hset|]. cbn. apply lookup_settle_all_ne.
    rewrite batch_results_ids. intros Hb. apply (settled_out _ _ Hi) in Hset as [_ Hout]. apply Hout.
    rewrite E, concat_app, map_app. cbn. rewrite map_app, !elem_of_app. auto.
Qed.

Lemma tracked_fail i st st' : inv st -> fail_remaining st = Some st' -> tracked i st -> tracked i st'.
Proof.
  intros Hi Hs [Hin|Hset]%tracked_settled; apply tracked_settled; unfold fail_remaining in Hs;
    destruct (fail_loop _ _ _) as [fs|] eqn:Ef; simplify_eq/=.
  - rewrite app_assoc in Hin. apply elem_of_app in Hin as [Hin|Hin]; [right|by left].
    pose proof (ow_nodup _ _ _ _ (inv_owned _ Hi)) as Hnd. apply NoDup_app in Hnd as [Hnd _].
    unfold settled_alone. cbn.
    destruct (fail_loop_in _ _ _ _ (future i) Ef Hnd) as [-> | ->]; eauto 10.
    by apply list_elem_of_In, in_map, list_elem_of_In.
  - right. eapply settled_keep; [exact Hset|]. cbn. eapply fail_loop_ne; [exact Ef|].
    by apply (settled_out _ _ Hi) in Hset as [? _].
Qed.

Lemma tracked_steps i st st' : rtc step st st' -> inv st -> tracked i st -> tracked i st'.
Proof.
  induction 1 as [|st st1 st2 Hs _ IH]; [done|]. intros Hi Ht. apply IH; [by eapply inv_step|].
  destruct Hs; try exact Ht; eauto using tracked_submit, tracked_await, tracked_collect, tracked_finish, tracked_fail.
Qed.

Lemma results_tracked st reached items vs :
  Forall (fun i => tracked i st) items -> inv st -> results_of (futs st) reached items = Ok vs ->
  vs = map (fun i => enc (text i)) items.
Proof.
  intros Hf Hi. revert reached vs. induction Hf as [|i items Ht _ IH]; intros reached vs.
  { cbn. by intros [= <-]. }
  destruct reached as [|reached]; [done|]. cbn. destruct (futs st !! future i) as [[]|] eqn:Ef; try done. destruct r as [v|]; [|done].
  destruct (results_of (futs st) reached items) as [vs'|] eqn:Er; [|done]. cbn. intros [= <-].
  f_equal; [|by eapply IH]. destruct Ht as [Hin|[Hc|[[e He]|Hok]]]; [|naive_solver..].
  exfalso. rewrite app_assoc in Hin. apply elem_of_app in Hin as [Hin|Hin].
  - destruct (ow_queued _ _ _ _ (inv_owned _ Hi) (future i)) as (s & Hs & [-> | ->]); [|congruence..].
    by apply list_elem_of_In, in_map, list_elem_of_In.
  - rewrite (ow_running _ _ _ _ (inv_owned _ Hi) (future i)) in Ef; [done|].
    by apply list_elem_of_In, in_map, list_elem_of_In.
Qed.
End Call.
End Config.
End Scheduler.

Lemma init_ok mb w mp ta ti wk bg cfg :
  init mb w mp ta ti wk bg = Ok cfg -> config_ok cfg.
Proof.
  unfold init. repeat (case_match; [done|]).
  match goal with |- context [if ?a && ?b then _ else _] =>
    destruct a eqn:E1; [|done]; destruct b eqn:E2; [|done] end.
  intros [= <-]. split; cbn; lia.
Qed.

(** ** Properties *)

Section Properties.
Context {T V X : Type} (model : list T -> outcome X (list V) -> Prop).
Context (mb mp wk : Z) (window ta ti : Q) (bg : option Z) (cfg : config).

(** in every interleaving of callers, workers and shutdown of a scheduler that
    [__init__] accepted: the pending bound holds, background never enters the live
    reservation, at most [max_background_inflight] batches carry background work, every
    physical batch has between one and [max_batch_size] items, the counters equal what
    the workers hold, each unsettled future is in exactly one queue position or batch,
    and neither composing nor failing the rest ever meets a future in an unexpected
    state. *)
Theorem embedding_reachable_inv (st : @state T V X) :
  init mb window mp ta ti wk bg = Ok cfg -> reachable cfg model st ->
  inv cfg st /\ (exists st', collect cfg st = Some st') /\
  (exists st', fail_remaining st = Some st').
Proof.
  intros Hc%init_ok Hr. apply inv_reachable in Hr; [|done]. split_and!; [done| |].
  - unfold collect. destruct Hc. destruct (compose_spec cfg st _ ok_batch0 ltac:(lia) (inv_owned _ _ Hr))
      as (b & st' & ? & ? & ? & -> & _). by eexists.
  - destruct (inv_fail cfg Hc st Hr) as (st' & ? & _). by exists st'.
Qed.

(** the live reservation works: while the scheduler is open, a query that fits the
    reservation beside the live items already queued is admitted at once, however much
    background work is pending. *)
Theorem embedding_live_admission (st : @state T V X) texts expired :
  init mb window mp ta ti wk bg = Ok cfg -> reachable cfg model st -> 2 <= mp ->
  closed st = false -> zlen (live st) + zlen texts <= live_reserve cfg ->
  exists st', submit cfg st CLASS_LIVE texts expired = Accepted st'.
Proof.
  intros Hi Hr Hmp Hcl Hfit. pose proof (init_ok _ _ _ _ _ _ _ _ Hi) as Hc.
  apply inv_reachable in Hr; [|done]. pose proof (inv_reserve _ _ Hr) as Hb. cbn in Hb.
  assert (Emp : max_pending_items cfg = mp).
  { unfold init in Hi. repeat (case_match; try done); by simplify_eq/=. }
  pose proof (Z.mul_div_le mp 2 ltac:(lia)). rewrite Emp in *.
  destruct Hc. rewrite Emp in *. unfold submit, _admit. rewrite zlen_make_items. cbn [pending_limit].
  rewrite Emp.
  pose proof (zlen_nonneg (live st)). pose proof (zlen_nonneg (background st)).
  destruct (Z.ltb_spec mp (zlen texts)); [lia|].
  match goal with |- context [closed ?s] => change (closed s) with (closed st);
    change (total_pending s) with (total_pending st) end.
  rewrite Hcl. unfold total_pending.
  destruct (Z.leb_spec (zlen (live st) + zlen (background st) + zlen texts) mp);
    [eauto|lia].
Qed.

(** a call gets exactly its own vectors.  If the model embeds texts pointwise
    whenever it returns as many vectors as texts, then whatever other calls,
    cancellations, batch compositions and failures happen in between, a call that
    returns gives the embeddings of its texts, in submission order. *)
Theorem embedding_call_exact (enc : T -> V) st c texts expired st1 st2 reached vs st3 :
  init mb window mp ta ti wk bg = Ok cfg ->
  (forall ts vs, model ts (Ok vs) -> length vs = length ts -> vs = map enc ts) ->
  reachable cfg model st -> texts <> [] -> submit cfg st c texts expired = Accepted st1 ->
  rtc (step cfg model) st1 st2 -> await st2 reached (make_items st c texts) = (Ok vs, st3) ->
  vs = map enc texts /\ st3 = st2.
Proof.
  intros Hc%init_ok Hm Hr Hne Hs Hsteps Ha. apply inv_reachable in Hr; [|done].
  assert (H1 : inv cfg st1) by (by eapply inv_submit).
  assert (H2 : inv cfg st2) by (by eapply inv_steps).
  unfold await in Ha. destruct (results_of _ _ _) as [vs'|] eqn:E; simplify_eq. split; [|done].
  apply (results_tracked cfg enc) in E; [|  |done].
  - rewrite E. unfold make_items. change (map ?f ?l) with (f <$> l).
    rewrite fmap_imap. change (imap _ texts) with (imap (const enc) texts). apply imap_const.
  - apply Forall_forall. intros i Hi. eapply tracked_steps; [done..|]. left.
    unfold submit, _admit in Hs. repeat case_match; simplify_eq.
    destruct c; cbn; rewrite !elem_of_app; auto.
Qed.

(** no caller waits forever on a stopped scheduler: once the workers hold no batch,
    failing the rest settles every future that was ever accepted. *)
Theorem embedding_shutdown_settles (st : @state T V X) :
  init mb window mp ta ti wk bg = Ok cfg -> reachable cfg model st -> running st = [] ->
  exists st', fail_remaining st = Some st' /\ total_pending st' = 0 /\
    forall i s, futs st' !! i = Some s -> ~ unsettled s.
Proof.
  intros Hc%init_ok Hr Hrun. apply inv_reachable in Hr; [|done].
  destruct (inv_fail cfg Hc st Hr) as (st' & E & Hi & Hl & Hb & Hr').
  exists st'. split_and!; [done|by unfold total_pending; rewrite Hl, Hb|].
  intros i s Hs Hu. pose proof (ow_complete _ _ _ _ (inv_owned _ _ Hi) i s Hs Hu) as Hin.
  rewrite Hl, Hb, Hr', Hrun in Hin. by apply not_elem_of_nil in Hin.
Qed.

(** batch composition is fair and wastes nothing.  A worker that composes
    while a live item is queued or a background one may be started shrinks the queues.  With a background slot free the batch holds at least
    [background_floor] background items and [max_batch_size - background_floor] live
    items, or all there are; without one it holds no background.  A batch that is not
    full leaves no live item behind, nor an admissible background one. *)
Theorem embedding_batch_fair (st : @state T V X) b st' :
  init mb window mp ta ti wk bg = Ok cfg -> reachable cfg model st ->
  compose cfg st = Some (b, st') ->
  let waiting q := zlen (live_of future (futs st) q) in
  (live st <> [] \/ background_admissible cfg st = true -> total_pending st' < total_pending st) /\
  (background_admissible cfg st = false -> class_count CLASS_BACKGROUND b = 0) /\
  (background_admissible cfg st = true ->
   Z.min (background_floor cfg) (waiting (background st)) <= class_count CLASS_BACKGROUND b /\
   Z.min (max_batch_size cfg - background_floor cfg) (waiting (live st))
     <= class_count CLASS_LIVE b) /\
  (zlen b < max_batch_size cfg ->
   live st' = [] /\ (background_admissible cfg st = true -> background st' = [])).
Proof.
  intros Hc%init_ok Hr Hcomp waiting. apply inv_reachable in Hr; [|done].
  destruct Hc as [Hb1 Hb2 Hb3 Hb4 Hb5].
  destruct (compose_spec cfg st _ Hb1 ltac:(lia) (inv_owned _ _ Hr))
    as (b' & st1 & lp1 & lp2 & gp & E & Hco & _). rewrite E in Hcomp. simplify_eq.
  destruct (composed_counts cfg _ _ _ _ _ _ Hr Hco) as (Hnb & Hnl & Hn).
  split_and!.
  - by apply (composed_progress cfg _ _ _ _ _ _ Hb1 Hco).
  - intros Ha. rewrite Hnb. by rewrite (co_disallowed _ _ _ _ _ _ _ Hco Ha).
  - intros Ha. unfold waiting.
    pose proof (co_first _ _ _ _ _ _ _ Hco Ha) as Hf. pose proof (co_second _ _ _ _ _ _ _ Hco Ha) as Hs.
    pose proof (co_reserved _ _ _ _ _ _ _ Hco Ha) as Hres.
    rewrite (co_live _ _ _ _ _ _ _ Hco), (co_background _ _ _ _ _ _ _ Hco), !live_of_app, !zlen_app.
    pose proof (zlen_nonneg (live_of future (futs st) lp2)). pose proof (zlen_nonneg (live_of future (futs st) gp)).
    split.
    + destruct Hs as [->|Hs]; [change (zlen (live_of future (futs st) [])) with 0; lia|].
      rewrite Hnb. pose proof (Z.div_le_upper_bound (max_batch_size cfg) 4 (max_batch_size cfg)). lia.
    + destruct Hf as [[-> ->]%app_eq_nil|Hf]; [change (zlen (live_of future (futs st) [])) with 0 in *|]; lia.
  - intros Hlt. split.
    + destruct (co_full _ _ _ _ _ _ _ Hco); [done|lia].
    + intros Ha. destruct (co_second _ _ _ _ _ _ _ Hco Ha); [done|].
      pose proof (zlen_nonneg (live_of future (futs st) lp2)). lia.
Qed.
End Properties.

(** ** A concrete run *)

Module Demo.
Definition cfg : config := mkConfig 4 8 2 1 4 1.
Definition model (ts : list nat) (r : outcome unit (list nat)) : Prop := r = Ok (map S ts).
Definition st0 : @state nat nat unit := initial.
Definition admitted (a : @admission nat nat unit) (d : state) : state :=
  match a with Accepted st => st | _ => d end.
(** Three background items, then a two-text query, then one composed batch. *)
Definition st1 : state := admitted (submit cfg st0 CLASS_BACKGROUND [10; 20; 30]%nat false) st0.
Definition st2 : state := admitted (submit cfg st1 CLASS_LIVE [1; 2]%nat false) st1.
Definition st3 : state := default st2 (collect cfg st2).
Definition batch : list (@item nat) := match running st3 with b :: _ => b | [] => [] end.
Definition st4 : state := finish st3 batch [] (Ok (map S (map text batch))).

Lemma init_cfg : init 4 5 8 1 1 2 None = Ok cfg.
Proof. reflexivity. Qed.
Lemma step1 : step cfg model st0 st1.
Proof. apply (step_submit cfg model st0 CLASS_BACKGROUND [10; 20; 30]%nat false); [done|reflexivity]. Qed.
Lemma step2 : step cfg model st1 st2.
Proof. apply (step_submit cfg model st1 CLASS_LIVE [1; 2]%nat false); [done|reflexivity]. Qed.
Lemma step3 : step cfg model st2 st3.
Proof. apply step_collect; [done|vm_compute; reflexivity]. Qed.
Lemma step4 : step cfg model st3 st4.
Proof. apply (step_finish cfg model st3 [] batch []); [vm_compute; reflexivity|done]. Qed.
Lemma reach1 : reachable cfg model st1.
Proof. eapply rtc_l; [exact step1|done]. Qed.
Lemma reach2 : reachable cfg model st2.
Proof. eapply rtc_r; [exact reach1|exact step2]. Qed.
End Demo.

Lemma embedding_reachable_inv_witness : inv Demo.cfg Demo.st2.
Proof.
  apply (embedding_reachable_inv Demo.model 4 8 2 5 1 1 None Demo.cfg Demo.st2 Demo.init_cfg Demo.reach2).
Defined.

Lemma embedding_live_admission_witness :
  exists st', submit Demo.cfg Demo.st1 CLASS_LIVE [1; 2]%nat true = Accepted st'.
Proof.
  apply (embedding_live_admission Demo.model 4 8 2 5 1 1 None Demo.cfg Demo.st1 [1; 2]%nat true
    Demo.init_cfg Demo.reach1); [lia|reflexivity|vm_compute; discriminate].
Defined.

Lemma embedding_call_exact_witness :
  exists vs st, await Demo.st4 2 (make_items Demo.st1 CLASS_LIVE [1; 2]%nat) = (Ok vs, st) /\
                vs = [2; 3]%nat.
Proof.
  destruct (await Demo.st4 2 (make_items Demo.st1 CLASS_LIVE [1; 2]%nat)) as [[vs|e] st] eqn:E;
    [|vm_compute in E; discriminate].
  exists vs, st. split; [done|].
  apply (embedding_call_exact Demo.model 4 8 2 5 1 1 None Demo.cfg S Demo.st1 CLASS_LIVE
    [1; 2]%nat false Demo.st2 Demo.st4 2 vs st); auto using Demo.init_cfg, Demo.reach1.
  - intros ts vs' Hm _. unfold Demo.model in Hm. congruence.
  - eapply rtc_l; [exact Demo.step3|]. eapply rtc_l; [exact Demo.step4|done].
Defined.

Lemma embedding_shutdown_settles_witness :
  exists st', fail_remaining Demo.st2 = Some st' /\ total_pending st' = 0.
Proof.
  destruct (embedding_shutdown_settles Demo.model 4 8 2 5 1 1 None Demo.cfg Demo.st2
    Demo.init_cfg Demo.reach2) as (st' & H1 & H2 & _); [reflexivity|]. by exists st'.
Defined.

Lemma embedding_batch_fair_witness : exists b st',
  compose Demo.cfg Demo.st2 = Some (b, st') /\ total_pending st' < total_pending Demo.st2.
Proof.
  destruct (compose Demo.cfg Demo.st2) as [[b st']|] eqn:E; [|vm_compute in E; discriminate].
  exists b, st'. split; [done|].
  apply (embedding_batch_fair Demo.model 4 8 2 5 1 1 None Demo.cfg Demo.st2 b st'
    Demo.init_cfg Demo.reach2 E). left. by vm_compute.
Defined.
