(* ===== verification/RerankScheduler.v ===== *)
(** * Rerank inference scheduler
      ([src/backend/rag/app/services/rerank_scheduler.py])

    The cross-encoder twin of the embedding scheduler.  Requests are never split
    across physical batches, capacity is counted in (query, passage) pairs, and live
    admission is also bounded by the pairs in service.  As there, each critical section
    is one atomic function, interleavings are the relation [step], and waiting only
    delays when an operation is tried. *)

From Stdlib Require Import QArith Qminmax.
From stdpp Require Import base list strings gmap relations.
From S2P Require Import Prelude Futures.

Local Open Scope Z_scope.

Inductive rclass := LIVE | BACKGROUND.

#[export] Instance rclass_eq_dec : EqDecision rclass.
Proof. solve_decision. Defined.

(** ** Configuration *)

Record config := mkConfig {
  max_batch_pairs : Z;
  max_outstanding_pairs : Z;
  max_pending_pairs : Z;
  inference_workers : Z;
  inference_slot_pairs : Z;
  max_background_inflight : Z;
  live_reserve : Z;
  background_floor : Z
}.

(** [__init__]: validation and the derived reservations. *)
Definition init (max_batch : Z) (window_ms : Q) (max_outstanding max_pending : Z)
    (admission_timeout : Q) (workers : Z) (slot max_bg : option Z) : outcome string config :=
  if workers <? 1 then Raise "inference_workers must be at least 1"%string
  else if max_batch <? 1 then Raise "max_batch_pairs must be at least 1"%string
  else if (window_ms <?q 0)%rf then Raise "microbatch_window_ms cannot be negative"%string
  else if max_pending <? 1 then Raise "max_pending_pairs must be at least 1"%string
  else if max_outstanding <? 1 then Raise "max_outstanding_pairs must be at least 1"%string
  else if (admission_timeout <=?q 0)%rf
  then Raise "admission_timeout_seconds must be positive"%string
  else
    let slot := match slot with Some n => n | None => max_batch end in
    if (slot <? 1) || (max_batch <? slot)
    then Raise "inference_slot_pairs must be between 1 and max_batch_pairs"%string
    else
      let bg := match max_bg with Some n => n | None => Z.max 1 (workers - 1) end in
      if (1 <=? bg) && (bg <=? workers)
      then Ok (mkConfig max_batch max_outstanding max_pending workers slot bg
                 (Z.max 1 (Z.min max_batch (max_pending / 2))) (Z.max 1 (max_batch / 4)))
      else Raise "max_background_inflight must be between 1 and inference_workers"%string.

(** [create_rerank_scheduler]: the arguments built from service configuration. *)
Definition create_rerank_scheduler (workers max_batch : Z) (window_ms : Q)
    (max_outstanding max_pending : Z) (admission_timeout : Q) (candidate_k : Z)
    (max_bg : option Z) : outcome string config :=
  let workers := Z.max 1 workers in
  let bg := match max_bg with Some n => n | None => Z.max 1 (workers - 1) end in
  init (Z.max 1 max_batch) (Qmax 0 window_ms) (Z.max 1 max_outstanding) (Z.max 1 max_pending)
    (Qmax (1 # 1000) admission_timeout) workers (Some (Z.max 1 (Z.min candidate_k max_batch)))
    (Some (Z.max 1 (Z.min workers bg))).

Inductive batch_error (X : Type) :=
  | ModelError (x : X)
  | ScoreCountMismatch (expected got : Z)
  | SchedulerClosed.
Arguments ModelError {X} x.
Arguments ScoreCountMismatch {X} expected got.
Arguments SchedulerClosed {X}.

Section Scheduler.
(** Texts, scores and model exceptions. *)
Context {T S X : Type}.

Record request := mkRequest {
  query : T; passages : list T; scheduling_class : rclass; future : nat
}.

Definition pairs (r : request) : Z := zlen (passages r).

Fixpoint batch_pairs (b : list request) : Z :=
  match b with [] => 0 | r :: b => pairs r + batch_pairs b end.

Definition carries_background (b : list request) : bool :=
  existsb (fun r => bool_decide (scheduling_class r = BACKGROUND)) b.
#[local] Arguments carries_background : simpl never.

Record state := mkState {
  live : list request;
  background : list request;
  pending_live : Z;
  pending_background : Z;
  closed : bool;
  drain_pending : bool;
  inference_calls : Z;
  pairs_scored : Z;
  busy_workers : Z;
  inflight_pairs : Z;
  background_inflight : Z;
  futs : futures (list S) (batch_error X);
  running : list (list request);
  next : nat
}.

#[export] Instance eta_state : Eta state := fun x =>
  mkState (live x) (background x) (pending_live x) (pending_background x) (closed x)
    (drain_pending x) (inference_calls x) (pairs_scored x) (busy_workers x) (inflight_pairs x)
    (background_inflight x) (futs x) (running x) (next x).

Definition initial : state := mkState [] [] 0 0 false true 0 0 0 0 0 ∅ [] 0.

Definition total_pending_pairs (st : state) : Z := pending_live st + pending_background st.

Section Config.
Context (cfg : config).

(** ** Admission *)

Definition pending_limit (c : rclass) : Z :=
  match c with
  | LIVE => max_pending_pairs cfg
  | BACKGROUND => Z.max 1 (max_pending_pairs cfg - live_reserve cfg)
  end.

Inductive admission :=
  | Accepted (st : state)
  | Refused (reason : string)
  | Waiting.

Definition enqueue (r : request) (st : state) : state :=
  match scheduling_class r with
  | LIVE => st {{ live ::= fun q => q ++ [r] }} {{ pending_live ::= Z.add (pairs r) }}
  | BACKGROUND =>
      st {{ background ::= fun q => q ++ [r] }} {{ pending_background ::= Z.add (pairs r) }}
  end.

(** One pass of [_admit]'s loop; [expired] is whether the deadline has passed. *)
Definition _admit (st : state) (r : request) (expired : bool) : admission :=
  let limit := pending_limit (scheduling_class r) in
  if Z.min limit (max_batch_pairs cfg) <? pairs r then Refused "oversized"
  else if closed st then Refused "closed"
  else
    let pending_fits := total_pending_pairs st + pairs r <=? limit in
    let outstanding_fits :=
      negb (bool_decide (scheduling_class r = LIVE)) ||
      (pending_live st + inflight_pairs st + pairs r <=? max_outstanding_pairs cfg) in
    if pending_fits && outstanding_fits then Accepted (enqueue r st)
    else if expired then Refused "saturated"
    else Waiting.

(** [submit]: a request with a new future. *)
Definition make_request (st : state) (q : T) (ps : list T) (c : rclass) : request :=
  mkRequest q ps c (next st).

Definition submit (st : state) (q : T) (ps : list T) (c : rclass) (expired : bool) : admission :=
  let r := make_request st q ps c in
  _admit (st {{ futs ::= fun fs => create fs [next st] }} {{ next ::= Nat.succ }}) r expired.

(** ** Cancellation *)

(** [future.cancel()] by a caller. *)
Definition cancel_future (st : state) (i : nat) : state :=
  st {{ futs ::= fun fs => cancel fs i }}.

Fixpoint delete_request (i : nat) (q : list request) : option (request * list request) :=
  match q with
  | [] => None
  | r :: q =>
      if bool_decide (future r = i) then Some (r, q)
      else '(r', q') ← delete_request i q; Some (r', r :: q')
  end.

(** [_release_cancelled], the done callback, under the lock. *)
Definition release_cancelled (st : state) (c : rclass) (i : nat) : state :=
  if cancelled (futs st) i then
    match c with
    | LIVE =>
        match delete_request i (live st) with
        | Some (r, q) => st {{ live := q }} {{ pending_live ::= fun n => n - pairs r }}
        | None => st
        end
    | BACKGROUND =>
        match delete_request i (background st) with
        | Some (r, q) => st {{ background := q }} {{ pending_background ::= fun n => n - pairs r }}
        | None => st
        end
    end
  else st.

(** ** Workers *)

Definition background_admissible (st : state) : bool :=
  match background st with [] => false | _ => true end &&
  (background_inflight st <? max_background_inflight cfg).

(** [_take_locked]'s loop: whole requests in FIFO order, stopping at the first head
    that does not fit; [used] is the batch's pairs, [pend] the class's counter, [None]
    a future in an unexpected state. *)
Fixpoint take_loop (fs : futures (list S) (batch_error X)) (pend : Z) (batch : list request)
    (used budget : Z) (queue : list request)
  : option (futures (list S) (batch_error X) * Z * list request * list request) :=
  match queue with
  | [] => Some (fs, pend, batch, [])
  | head :: rest =>
      if Z.min budget (max_batch_pairs cfg) <? used + pairs head
      then Some (fs, pend, batch, queue)
      else
        match set_running_or_notify_cancel fs (future head) with
        | None => None
        | Some (true, fs) =>
            take_loop fs (pend - pairs head) (batch ++ [head]) (used + pairs head) budget rest
        | Some (false, fs) => take_loop fs (pend - pairs head) batch used budget rest
        end
  end.

Definition take_locked fs pend batch budget queue :=
  take_loop fs pend batch (batch_pairs batch) budget queue.

Definition compose (st : state) : option (list request * state) :=
  let allow := background_admissible st in
  let reserved := if allow then background_floor cfg else 0 in
  '(fs, nl, b, l) ← take_locked (futs st) (pending_live st) []
                      (Z.max (max_batch_pairs cfg - reserved) 0) (live st);
  '(fs, ng, b, g) ← (if allow
                     then take_locked fs (pending_background st) b (max_batch_pairs cfg)
                            (background st)
                     else Some (fs, pending_background st, b, background st));
  '(fs, nl, b, l) ← take_locked fs nl b (max_batch_pairs cfg) l;
  Some (b, st {{ futs := fs }} {{ live := l }} {{ background := g }} {{ pending_live := nl }}
              {{ pending_background := ng }}).

(** The decision at the head of [_collect_batch].  The lock is released while the worker
    then waits for the micro-batch window, so the batch is composed in a later state, in
    which others may have taken what it saw: [step_collect] does not assume the check. *)
Inductive worker_decision := Exit | Park | Compose.

Definition worker_check (st : state) : worker_decision :=
  if closed st && (negb (drain_pending st) || (total_pending_pairs st =? 0)) then Exit
  else if (match live st with [] => false | _ => true end) || background_admissible st
  then Compose else Park.

Definition collect (st : state) : option state :=
  '(b, st) ← compose st;
  Some (match b with
        | [] => st
        | _ => st {{ busy_workers ::= Z.add 1 }} {{ inflight_pairs ::= Z.add (batch_pairs b) }}
                  {{ background_inflight ::= fun n => if carries_background b then n + 1 else n }}
                  {{ running ::= cons b }}
        end).

(** [_run_batch]: the pairs handed to the model, and the fan-out of its scores. *)
Definition batch_input (b : list request) : list (T * T) :=
  concat (map (fun r => map (pair (query r)) (passages r)) b).

Fixpoint fan_out (offset : Z) (b : list request) (scores : list S)
  : list (nat * outcome (batch_error X) (list S)) :=
  match b with
  | [] => []
  | r :: b => (future r, Ok (py_slice scores offset (offset + pairs r)))
              :: fan_out (offset + pairs r) b scores
  end.

Definition batch_results (b : list request) (res : outcome X (list S))
  : list (nat * outcome (batch_error X) (list S)) :=
  match res with
  | Raise x => map (fun r => (future r, Raise (ModelError x))) b
  | Ok scores =>
      if negb (zlen scores =? zlen (batch_input b))
      then map (fun r => (future r, Raise (ScoreCountMismatch (zlen (batch_input b)) (zlen scores)))) b
      else fan_out 0 b scores
  end.

Definition run_batch (st : state) (b : list request) (res : outcome X (list S)) : state :=
  st {{ inference_calls ::= Z.add 1 }}
     {{ pairs_scored ::= fun n => match res with
          | Ok scores => if zlen scores =? zlen (batch_input b) then n + zlen (batch_input b) else n
          | Raise _ => n end }}
     {{ futs ::= fun fs => settle_all fs (batch_results b res) }}.

(** [_run]: the batch, then the release of the worker's capacity. *)
Definition finish (st : state) (b : list request) (rest : list (list request))
    (res : outcome X (list S)) : state :=
  (run_batch st b res)
    {{ busy_workers ::= fun n => n - 1 }} {{ inflight_pairs ::= fun n => n - batch_pairs b }}
    {{ background_inflight ::= fun n => if carries_background b then n - 1 else n }}
    {{ running := rest }}.

(** ** Shutdown *)

Definition close (st : state) (drain : bool) : state :=
  st {{ closed := true }} {{ drain_pending := drain }}.

Definition fail_remaining (st : state) : option state :=
  fs ← fail_loop (futs st) (map future (live st ++ background st)) SchedulerClosed;
  Some (st {{ futs := fs }} {{ live := [] }} {{ background := [] }}
           {{ pending_live := 0 }} {{ pending_background := 0 }}).

(** ** Interleavings *)

Context (model : list (T * T) -> outcome X (list S) -> Prop).

(** One atomic step of a caller, a worker or the shutdown; [model] relates the pairs of
    a physical batch to what [predict] may answer. *)
Inductive step : state -> state -> Prop :=
  | step_submit st q ps c expired st' :
      ps <> [] -> submit st q ps c expired = Accepted st' -> step st st'
  | step_cancel st i : step st (cancel_future st i)
  | step_release st c i : step st (release_cancelled st c i)
  | step_collect st st' :
      zlen (running st) < inference_workers cfg -> collect st = Some st' -> step st st'
  | step_finish st l1 b l2 res :
      running st = l1 ++ b :: l2 -> model (batch_input b) res -> step st (finish st b (l1 ++ l2) res)
  | step_close st drain : step st (close st drain)
  | step_fail st st' : fail_remaining st = Some st' -> step st st'.

Definition reachable (st : state) : Prop := rtc step initial st.

(** ** Taking requests *)

Lemma batch_pairs_app b1 b2 : batch_pairs (b1 ++ b2) = batch_pairs b1 + batch_pairs b2.
Proof. induction b1 as [|r b1 IH]; cbn [batch_pairs app]; lia. Qed.

Lemma pairs_nonneg r : 0 <= pairs r.
Proof. apply zlen_nonneg. Qed.

Lemma batch_pairs_nonneg b : 0 <= batch_pairs b.
Proof. induction b as [|r b IH]; cbn [batch_pairs]; [lia|]. pose proof (pairs_nonneg r). lia. Qed.

Abbreviation live_of := (Futures.live_of (R := list S) (E := batch_error X) future).

Lemma live_of_pairs fs b : batch_pairs (live_of fs b) <= batch_pairs b.
Proof.
  induction b as [|r b IH]; [cbn; lia|]. pose proof (pairs_nonneg r). unfold Futures.live_of in *.
  cbn [List.filter]. destruct (pending_b fs (future r)); cbn [batch_pairs]; lia.
Qed.

(** A take removes a prefix; it stops at an empty queue or at a head that does not fit. *)
Lemma r_take_spec fs pend batch used budget queue :
  Futures.startable future fs queue ->
  exists pre rest, queue = pre ++ rest /\
    take_loop fs pend batch used budget queue =
      Some (mark fs (map future pre), pend - batch_pairs pre, batch ++ live_of fs pre, rest) /\
    (used <= Z.min budget (max_batch_pairs cfg) ->
     used + batch_pairs (live_of fs pre) <= Z.min budget (max_batch_pairs cfg)) /\
    (rest = [] \/ exists h t, rest = h :: t /\
      Z.min budget (max_batch_pairs cfg) < used + batch_pairs (live_of fs pre) + pairs h).
Proof.
  revert fs pend batch used. induction queue as [|i queue IH]; intros fs pend batch used Hq.
  { exists [], []. change (live_of fs []) with (@nil request). cbn [batch_pairs].
    rewrite !app_nil_r, Z.sub_0_r, Z.add_0_r. split_and!; [done..|by left]. }
  destruct (take_head future fs i queue Hq) as (Hrun & Hq' & Hmark). cbn [take_loop].
  destruct (Z.ltb_spec (Z.min budget (max_batch_pairs cfg)) (used + pairs i)) as [Hlt|Hfit].
  { exists [], (i :: queue). change (live_of fs []) with (@nil request). cbn [batch_pairs].
    rewrite !app_nil_r, Z.sub_0_r, !Z.add_0_r. split_and!; [done..|].
    right. by exists i, queue. }
  rewrite Hrun. destruct (pending_b fs (future i)) eqn:Ep.
  - destruct (IH (alter start_state (future i) fs) (pend - pairs i) (batch ++ [i]) (used + pairs i) Hq')
      as (pre & rest & Hpre & -> & H1 & H2).
    destruct (Hmark _ _ Hpre) as [-> Hl]. rewrite Hl in *.
    exists (i :: pre), rest. unfold Futures.live_of in *. cbn. rewrite Ep. cbn.
    rewrite <-app_assoc, Z.sub_add_distr, Z.add_assoc, Hpre. split_and!; [done..| |done].
    intros _. apply H1. lia.
  - destruct (IH (alter start_state (future i) fs) (pend - pairs i) batch used Hq')
      as (pre & rest & Hpre & -> & H1 & H2).
    destruct (Hmark _ _ Hpre) as [-> Hl]. rewrite Hl in *.
    exists (i :: pre), rest. unfold Futures.live_of in *. cbn. rewrite Ep.
    rewrite Z.sub_add_distr, Hpre. split_and!; done.
Qed.

(** What [_compose_locked] removes from each queue and puts in the batch. *)
Record composed (st : state) (b : list request) (st' : state) (lp1 lp2 gp : list request) : Prop := {
  rc_state : st' = st {{ futs := futs st' }} {{ live := live st' }} {{ background := background st' }}
                      {{ pending_live := pending_live st' }}
                      {{ pending_background := pending_background st' }};
  rc_live : live st = lp1 ++ lp2 ++ live st';
  rc_background : background st = gp ++ background st';
  rc_pending_live : pending_live st' = pending_live st - batch_pairs (lp1 ++ lp2);
  rc_pending_background : pending_background st' = pending_background st - batch_pairs gp;
  rc_futs : futs st' = mark (futs st) (map future (lp2 ++ gp ++ lp1));
  rc_batch : b = live_of (futs st) lp1 ++ live_of (futs st) gp ++ live_of (futs st) lp2;
  rc_size : batch_pairs b <= max_batch_pairs cfg;
  rc_disallowed : background_admissible st = false -> gp = [];
  rc_reserved : background_admissible st = true ->
    batch_pairs (live_of (futs st) lp1) <= Z.max (max_batch_pairs cfg - background_floor cfg) 0;
  rc_second : background_admissible st = true ->
    background st' = [] \/ exists h t, background st' = h :: t /\
      max_batch_pairs cfg < batch_pairs (live_of (futs st) lp1 ++ live_of (futs st) gp) + pairs h;
  rc_last : live st' = [] \/
    exists h t, live st' = h :: t /\ max_batch_pairs cfg < batch_pairs b + pairs h
}.

(** The background take between the two live takes. *)
Lemma r_background_stage st l1 lp1 b1 fs1 R :
  (forall i, i ∈ map future (l1 ++ background st) -> i ∉ map future lp1) ->
  fs1 = mark (futs st) (map future lp1) -> batch_pairs b1 <= max_batch_pairs cfg ->
  owned fs1 (map future (l1 ++ background st)) (map future b1 ++ R) (next st) ->
  exists fs2 gp g,
    (if background_admissible st
     then take_locked fs1 (pending_background st) b1 (max_batch_pairs cfg) (background st)
     else Some (fs1, pending_background st, b1, background st)) =
      Some (fs2, pending_background st - batch_pairs gp, b1 ++ live_of (futs st) gp, g) /\
    fs2 = mark fs1 (map future gp) /\
    background st = gp ++ g /\
    batch_pairs (b1 ++ live_of (futs st) gp) <= max_batch_pairs cfg /\
    owned fs2 (map future (l1 ++ g)) (map future (live_of (futs st) gp) ++ map future b1 ++ R)
      (next st) /\
    (forall p q, l1 = p ++ q -> live_of fs2 p = live_of (futs st) p) /\
    (background_admissible st = false -> gp = []) /\
    (background_admissible st = true ->
     g = [] \/ exists h t, g = h :: t /\
       max_batch_pairs cfg < batch_pairs (b1 ++ live_of (futs st) gp) + pairs h).
Proof.
  intros Hd1 -> H1 Ho1. set (fs1 := mark (futs st) (map future lp1)) in *.
  assert (Hl1 : forall p q, l1 = p ++ q -> live_of fs1 p = live_of (futs st) p).
  { intros p q ->. apply live_of_mark. intros i Hi. apply Hd1. rewrite !map_app, !elem_of_app. auto. }
  destruct (background_admissible st); cycle 1.
  { exists fs1, [], (background st). cbn. rewrite app_nil_r, Z.sub_0_r. split_and!; done. }
  unfold take_locked. destruct (r_take_spec fs1 (pending_background st) b1 (batch_pairs b1)
    (max_batch_pairs cfg) (background st)) as (gp & g & Eg & -> & H2 & H2s).
  { apply (owned_startable future _ l1 _ [] (map future b1 ++ R) (next st)). by rewrite app_nil_r. }
  rewrite Eg in Ho1. destruct (owned_take_items future _ l1 gp g _ _ Ho1) as [Ho2 Hd2].
  assert (Egp : live_of fs1 gp = live_of (futs st) gp).
  { apply live_of_mark. intros i Hi. apply Hd1. rewrite Eg, !map_app, !elem_of_app. auto. }
  rewrite Egp in *. rewrite Z.min_id in H2, H2s.
  exists (mark fs1 (map future gp)), gp, g. rewrite batch_pairs_app.
  split_and!; [done|done|done|auto|done| |done|done].
  intros p q Ep. rewrite <-(Hl1 p q Ep). apply live_of_mark. intros i Hi. apply Hd2.
  rewrite Ep, !map_app, !elem_of_app. auto.
Qed.

Lemma r_compose_spec st R :
  1 <= max_batch_pairs cfg ->
  owned (futs st) (map future (live st ++ background st)) R (next st) ->
  exists b st' lp1 lp2 gp, compose st = Some (b, st') /\ composed st b st' lp1 lp2 gp /\
    owned (futs st') (map future (live st' ++ background st')) (map future b ++ R) (next st).
Proof.
  intros Hmax Ho. unfold compose.
  match goal with |- context [take_locked (futs st) _ _ ?c _] => set (cap1 := c) end.
  destruct (r_take_spec (futs st) (pending_live st) [] 0 cap1 (live st)) as (lp1 & l1 & El & E1 & H1 & _);
    [by apply (owned_startable future _ [] _ (background st) R (next st))|].
  change (take_loop _ _ [] 0 cap1 _) with
    (take_locked (futs st) (pending_live st) [] cap1 (live st)) in E1. rewrite E1. clear E1.
  cbn [mbind option_bind app].
  specialize (H1 ltac:(unfold cap1; lia)). rewrite Z.add_0_l in H1.
  rewrite El, <-app_assoc in Ho. destruct (owned_take_items future _ [] lp1 _ _ _ Ho) as [Ho1 Hd1].
  cbn [app] in Ho1, Hd1. set (b1 := live_of (futs st) lp1) in *.
  destruct (r_background_stage st l1 lp1 b1 _ R Hd1 eq_refl ltac:(lia) Ho1)
    as (fs2 & gp & g & -> & Efs & Eg & H2 & Ho2 & Hl2 & Hdis & Hg).
  cbn [mbind option_bind]. set (b2 := b1 ++ live_of (futs st) gp) in *. unfold take_locked.
  destruct (r_take_spec fs2 (pending_live st - batch_pairs lp1) b2 (batch_pairs b2)
    (max_batch_pairs cfg) l1) as (lp2 & l & El1 & -> & H3 & H3s);
    [by apply (owned_startable future _ [] _ g _ _ Ho2)|].
  cbn [mbind option_bind]. rewrite El1, <-app_assoc in Ho2. rewrite Z.min_id in H3, H3s.
  destruct (owned_take_items future _ [] lp2 _ _ _ Ho2) as [Ho3 _]. rewrite (Hl2 _ _ El1) in *.
  eexists (b2 ++ live_of (futs st) lp2), _, lp1, lp2, gp. split; [done|]. split.
  - split; cbn; fold b1; [done|by rewrite El, El1|done| |done| |by unfold b2; rewrite <-app_assoc| |done| |done|].
    + rewrite batch_pairs_app. lia.
    + by rewrite Efs, !map_app; unfold mark; rewrite !foldr_app.
    + rewrite batch_pairs_app. auto.
    + intros Ha. subst cap1. rewrite Ha in *. lia.
    + rewrite batch_pairs_app. done.
  - cbn [futs live background]. eapply owned_perm; [done| |exact Ho3].
    unfold b2. rewrite !map_app, <-!app_assoc.
    rewrite (Permutation_app_swap_app (map future (live_of (futs st) gp)) (map future b1)).
    rewrite (Permutation_app_swap_app _ (map future b1)).
    by rewrite (Permutation_app_swap_app _ (map future (live_of (futs st) gp))).
Qed.

(** ** The scheduler invariant *)

Record config_ok : Prop := {
  rok_batch : 1 <= max_batch_pairs cfg;
  rok_pending : 1 <= max_pending_pairs cfg;
  rok_outstanding : 1 <= max_outstanding_pairs cfg;
  rok_background : 1 <= max_background_inflight cfg <= inference_workers cfg;
  rok_reserve : live_reserve cfg = Z.max 1 (Z.min (max_batch_pairs cfg) (max_pending_pairs cfg / 2));
  rok_floor : background_floor cfg = Z.max 1 (max_batch_pairs cfg / 4)
}.

Definition is_live (r : request) : bool := bool_decide (scheduling_class r = LIVE).

(** Live pairs now with the workers. *)
Definition live_inflight (st : state) : Z :=
  batch_pairs (List.filter is_live (concat (running st))).

Record r_inv (st : state) : Prop := {
  ri_owned : owned (futs st) (map future (live st ++ background st))
               (map future (concat (running st))) (next st);
  ri_live : Forall (fun r => scheduling_class r = LIVE) (live st);
  ri_background : Forall (fun r => scheduling_class r = BACKGROUND) (background st);
  ri_fit : Forall (fun r => 1 <= pairs r <= max_batch_pairs cfg) (live st ++ background st);
  ri_counts : pending_live st = batch_pairs (live st) /\
              pending_background st = batch_pairs (background st);
  ri_busy : busy_workers st = zlen (running st) /\ zlen (running st) <= inference_workers cfg;
  ri_inflight : inflight_pairs st = batch_pairs (concat (running st));
  ri_slots : background_inflight st = zlen (List.filter carries_background (running st)) /\
             background_inflight st <= max_background_inflight cfg;
  ri_sizes : Forall (fun b => b <> [] /\ batch_pairs b <= max_batch_pairs cfg) (running st);
  ri_pending : total_pending_pairs st <= max_pending_pairs cfg;
  ri_reserve : pending_background st <= pending_limit BACKGROUND;
  ri_outstanding : pending_live st + live_inflight st <= max_outstanding_pairs cfg
}.

Context (Hcfg : config_ok).

Lemma r_inv_initial : r_inv initial.
Proof using Hcfg.
  destruct Hcfg. split; cbn; [apply owned_empty|done|done|done|..]; try done;
    unfold total_pending_pairs, zlen, live_inflight; cbn; lia.
Qed.

Lemma filter_live_pairs b : batch_pairs (List.filter is_live b) <= batch_pairs b.
Proof.
  induction b as [|r b IH]; cbn [List.filter batch_pairs]; [lia|]. pose proof (pairs_nonneg r).
  destruct (is_live r); cbn [batch_pairs]; lia.
Qed.

Lemma r_inv_submit st q ps c expired st' :
  ps <> [] -> r_inv st -> submit st q ps c expired = Accepted st' -> r_inv st'.
Proof.
  intros Hps [Ho Hl Hg Hf [Hc1 Hc2] Hb Hi Hs Hz Hp Hr Hu] E. unfold submit, _admit in E.
  assert (H1 : 1 <= zlen ps) by (destruct ps; [done|]; unfold zlen; cbn; lia).
  unfold make_request, enqueue, pairs in E. cbn in E.
  destruct (Z.ltb_spec (Z.min (pending_limit c) (max_batch_pairs cfg)) (zlen ps)); [done|].
  destruct (closed st); [done|]. unfold total_pending_pairs in *. cbn in E.
  destruct (Z.leb_spec (pending_live st + pending_background st + zlen ps) (pending_limit c));
    [|by destruct expired].
  apply (owned_create _ _ _ _ 1) in Ho. cbn [seq] in Ho.
  rewrite Nat.add_1_r in Ho.
  pose proof (batch_pairs_nonneg (live st)).
  assert (Hfit : 1 <= zlen ps <= max_batch_pairs cfg) by lia.
  destruct c; cbn in E.
  - destruct (Z.leb_spec (pending_live st + inflight_pairs st + zlen ps) (max_outstanding_pairs cfg));
      [|by destruct expired].
    injection E as <-. split; cbn; try done; unfold total_pending_pairs, live_inflight in *; cbn.
    + eapply owned_perm; [|done|exact Ho]. rewrite !map_app. cbn. rewrite <-!app_assoc.
      apply Permutation_app_head, Permutation_app_comm.
    + apply Forall_app. split; [done|by constructor].
    + rewrite !Forall_app in *. repeat split; try tauto. by constructor.
    + rewrite batch_pairs_app. cbn. unfold pairs in *. cbn. lia.
    + unfold pairs. cbn in *. lia.
    + pose proof (filter_live_pairs (concat (running st))). unfold pairs. cbn in *. lia.
  - injection E as <-. split; cbn; try done; unfold total_pending_pairs, live_inflight in *; cbn.
    + by rewrite app_assoc, map_app.
    + apply Forall_app. split; [done|by constructor].
    + rewrite !Forall_app in *. repeat split; try tauto. by constructor.
    + rewrite batch_pairs_app. cbn. unfold pairs in *. cbn. lia.
    + destruct Hcfg. unfold pairs. cbn in *. lia.
    + unfold pairs. cbn in *. lia.
Qed.

Lemma delete_request_Some i q r q' :
  delete_request i q = Some (r, q') ->
  future r = i /\ exists q1 q2, q = q1 ++ r :: q2 /\ q' = q1 ++ q2.
Proof.
  revert q'. induction q as [|x q IH]; cbn; [done|]. intros q'. case_bool_decide.
  - intros [= <- <-]. split; [done|]. by exists [], q.
  - destruct (delete_request i q) as [[r1 q1]|]; [|done]. cbn. intros [= <- <-].
    destruct (IH q1 eq_refl) as (Hr & p1 & p2 & -> & ->). split; [done|]. by exists (x :: p1), p2.
Qed.

(** The released request was waiting in the queue, abandoned. *)
Lemma owned_release fs p1 r p2 q run n :
  owned (R := list S) (E := batch_error X) fs (map future ((p1 ++ r :: p2) ++ q)) run n ->
  cancelled fs (future r) = true ->
  owned fs (map future ((p1 ++ p2) ++ q)) run n.
Proof.
  intros Ho Hc.
  assert (Hp : owned fs (future r :: map future ((p1 ++ p2) ++ q)) run n).
  { eapply owned_perm; [|done|exact Ho]. rewrite <-!app_assoc, !map_app. cbn.
    by rewrite <-Permutation_middle. }
  eapply owned_drop; [exact Hp|]. destruct (ow_queued _ _ _ _ Hp (future r)) as (s & Hs & Hq); [left|].
  unfold cancelled in Hc. rewrite Hs in *. by destruct Hq as [-> | ->].
Qed.

Lemma r_inv_release st c i : r_inv st -> r_inv (release_cancelled st c i).
Proof.
  intros Hinv. unfold release_cancelled.
  destruct (cancelled (futs st) i) eqn:Hc; [|done].
  destruct Hinv as [Ho Hl Hg Hf [Hc1 Hc2] Hb Hi Hs Hz Hp Hr Hu].
  destruct c; (destruct (delete_request i _) as [[r q]|] eqn:E; [|by split]);
    apply delete_request_Some in E as (<- & q1 & q2 & E & ->); pose proof (pairs_nonneg r);
    rewrite E in *; rewrite ?Forall_app, ?Forall_cons, ?batch_pairs_app in *; cbn [batch_pairs] in *;
    unfold total_pending_pairs, live_inflight in *; split; cbn; try done; try tauto;
    unfold total_pending_pairs, live_inflight; cbn;
    rewrite ?Forall_app, ?batch_pairs_app; try tauto; try lia.
  - by eapply owned_release.
  - assert (Hsw : forall p q, map future (p ++ q) ≡ₚ map future (q ++ p))
      by (intros; apply Permutation_map, Permutation_app_comm).
    eapply owned_perm; [apply (Hsw (q1 ++ q2))|done|].
    eapply (owned_release _ q1 r q2); [|exact Hc]. eapply owned_perm; [apply Hsw|done|exact Ho].
  - cbn in Hr. lia.
Qed.

Lemma r_carries_live b :
  Forall (fun r => scheduling_class r = LIVE) b ->
  carries_background b = false /\ List.filter is_live b = b.
Proof.
  induction 1 as [|r b Hr _ [IH1 IH2]]; [done|]. unfold carries_background, is_live in *. cbn.
  rewrite Hr, IH1, IH2. done.
Qed.

Lemma filter_live_background b :
  Forall (fun r => scheduling_class r = BACKGROUND) b -> List.filter is_live b = [].
Proof. induction 1 as [|r b Hr _ IH]; [done|]. unfold is_live in *. cbn. by rewrite Hr, IH. Qed.

(** Classes of what a composition removes. *)
Lemma composed_classes st b st' lp1 lp2 gp :
  r_inv st -> composed st b st' lp1 lp2 gp ->
  Forall (fun r => scheduling_class r = LIVE) (live_of (futs st) lp1) /\
  Forall (fun r => scheduling_class r = LIVE) (live_of (futs st) lp2) /\
  Forall (fun r => scheduling_class r = BACKGROUND) (live_of (futs st) gp).
Proof.
  intros Hi Hc. pose proof (ri_live _ Hi) as Hl. pose proof (ri_background _ Hi) as Hg.
  rewrite (rc_live _ _ _ _ _ _ Hc), !Forall_app in Hl.
  rewrite (rc_background _ _ _ _ _ _ Hc), Forall_app in Hg.
  split_and!; apply live_of_sub; tauto.
Qed.

(** Composing moves live pairs into service, and never adds any. *)
Lemma composed_outstanding st b st' lp1 lp2 gp :
  r_inv st -> composed st b st' lp1 lp2 gp ->
  pending_live st' + batch_pairs (List.filter is_live b) <= pending_live st.
Proof.
  intros Hi Hc. destruct (composed_classes _ _ _ _ _ _ Hi Hc) as (H1 & H2 & H3).
  rewrite (rc_pending_live _ _ _ _ _ _ Hc), (rc_batch _ _ _ _ _ _ Hc), !List.filter_app.
  rewrite (filter_live_background _ H3), (proj2 (r_carries_live _ H1)), (proj2 (r_carries_live _ H2)).
  cbn. rewrite !batch_pairs_app.
  pose proof (live_of_pairs (futs st) lp1). pose proof (live_of_pairs (futs st) lp2). lia.
Qed.

Lemma r_composed_slot st b st' lp1 lp2 gp :
  r_inv st -> composed st b st' lp1 lp2 gp -> carries_background b = true ->
  background_inflight st < max_background_inflight cfg.
Proof.
  intros Hi Hc Hb. destruct (background_admissible st) eqn:Ea.
  - unfold background_admissible in Ea. apply andb_true_iff in Ea as [_ Ea]. lia.
  - destruct (composed_classes _ _ _ _ _ _ Hi Hc) as (H1 & H2 & _).
    rewrite (rc_batch _ _ _ _ _ _ Hc), (rc_disallowed _ _ _ _ _ _ Hc Ea) in Hb. cbn in Hb.
    rewrite (proj1 (r_carries_live (live_of (futs st) lp1 ++ live_of (futs st) lp2) ltac:(by apply Forall_app)))
      in Hb. done.
Qed.

Lemma r_inv_collect st st' :
  zlen (running st) < inference_workers cfg -> r_inv st -> collect st = Some st' -> r_inv st'.
Proof.
  intros Hw Hi. unfold collect. destruct Hcfg as [Hb1 Hb2 Hb3 Hb4 Hb5 Hb6].
  destruct (r_compose_spec st _ Hb1 (ri_owned _ Hi))
    as (b & st1 & lp1 & lp2 & gp & -> & Hc & Ho). cbn. intros [= <-].
  pose proof (r_composed_slot _ _ _ _ _ _ Hi Hc) as Hslot.
  pose proof (composed_outstanding _ _ _ _ _ _ Hi Hc) as Hout.
  destruct Hc as [Hst Hl Hg Hpl Hpg _ _ Hsz _ _ _ _].
  destruct Hi as [_ Il Ig If [Ic1 Ic2] Ib Ii Is Iz Ip Ir Iu].
  rewrite Hl, !Forall_app in Il. rewrite Hg, Forall_app in Ig. rewrite Hl, Hg, !Forall_app in If.
  rewrite Hl, !batch_pairs_app in Ic1. rewrite Hg, batch_pairs_app in Ic2.
  rewrite batch_pairs_app in Hpl. unfold total_pending_pairs, live_inflight in *.
  pose proof (batch_pairs_nonneg lp1). pose proof (batch_pairs_nonneg lp2).
  pose proof (batch_pairs_nonneg gp). cbn in Ir.
  destruct b as [|i b]; rewrite Hst; split; cbn; try tauto; try lia;
    rewrite ?Forall_app; try tauto; unfold total_pending_pairs, live_inflight; cbn; try lia.
  - by rewrite (map_app future b).
  - rewrite !zlen_cons. lia.
  - rewrite batch_pairs_app. lia.
  - destruct (carries_background (i :: b)); [specialize (Hslot eq_refl); rewrite zlen_cons|]; lia.
  - by constructor.
  - cbn in Hout. rewrite List.filter_app.
    destruct (is_live i); cbn [batch_pairs] in *; rewrite batch_pairs_app; lia.
Qed.

Lemma r_batch_results_ids (b : list request) (res : outcome X (list S)) :
  (batch_results b res).*1 = map future b.
Proof.
  unfold batch_results. destruct res as [sc|x]; [case_match|]; [etrans; [apply map_map|done]| |].
  - generalize 0 as o. clear. induction b as [|r b IH]; intros o; cbn; [done|]. f_equal. apply IH.
  - etrans; [apply map_map|done].
Qed.

Lemma r_inv_finish st l1 b l2 res :
  r_inv st -> running st = l1 ++ b :: l2 -> r_inv (finish st b (l1 ++ l2) res).
Proof.
  intros [Ho Hl Hg Hf Hc Hb Hi Hs Hz Hp Hr Hu] E. unfold live_inflight in Hu. rewrite E in *.
  rewrite concat_app in *. cbn in Hi, Hu, Ho. rewrite !batch_pairs_app in Hi.
  rewrite !List.filter_app, !batch_pairs_app in Hu.
  split; cbn; try done.
  - rewrite concat_app. apply (owned_finish _ _ (map future b)); [by rewrite r_batch_results_ids|].
    eapply owned_perm; [done| |exact Ho]. rewrite !map_app. by rewrite Permutation_app_swap_app.
  - rewrite !zlen_app, zlen_cons in *. lia.
  - rewrite concat_app, batch_pairs_app. lia.
  - rewrite List.filter_app in *. cbn in Hs.
    destruct (carries_background b); rewrite ?zlen_app, ?zlen_cons in *; lia.
  - apply Forall_app in Hz as [? Hz]. inversion Hz. by apply Forall_app.
  - unfold live_inflight. cbn. rewrite concat_app, List.filter_app, batch_pairs_app.
    pose proof (batch_pairs_nonneg (List.filter is_live b)). lia.
Qed.

Lemma r_inv_fail st : r_inv st -> exists st', fail_remaining st = Some st' /\ r_inv st' /\
  live st' = [] /\ background st' = [] /\ running st' = running st.
Proof.
  intros [Ho Hl Hg Hf Hc Hb Hi Hs Hz Hp Hr Hu]. unfold fail_remaining.
  destruct (owned_fail _ _ _ _ SchedulerClosed Ho) as (fs & -> & Ho'). cbn.
  eexists. split; [done|]. split; [|done]. destruct Hcfg.
  pose proof (batch_pairs_nonneg (live st)). unfold live_inflight in *.
  split; cbn; try done; unfold total_pending_pairs, live_inflight; cbn; lia.
Qed.

Lemma r_inv_step st st' : r_inv st -> step st st' -> r_inv st'.
Proof.
  intros Hi Hs. destruct Hs as [? ? ? ? ? ? Hne H|? ?|? ? ?|? ? Hw H|? ? ? ? ? H _|? ?|? ? H].
  - by eapply r_inv_submit.
  - destruct Hi. split; cbn; try done. by apply owned_cancel.
  - by apply r_inv_release.
  - by eapply r_inv_collect.
  - by eapply r_inv_finish.
  - destruct Hi. by split.
  - destruct (r_inv_fail _ Hi) as (st1 & E & Hi' & _). by simplify_eq.
Qed.

Lemma r_inv_steps st st' : rtc step st st' -> r_inv st -> r_inv st'.
Proof. induction 1; eauto using r_inv_step. Qed.

Lemma r_inv_reachable st : reachable st -> r_inv st.
Proof. intros Hr. eapply r_inv_steps; [exact Hr|apply r_inv_initial]. Qed.

(** Something a worker may take in this state. *)
Definition takeable (st : state) : Prop := live st <> [] \/ background_admissible st = true.

Lemma check_takeable st : worker_check st = Compose -> takeable st.
Proof using.
  unfold worker_check, takeable. destruct (_ && _); [done|]. destruct (live st); [|by left].
  cbn. destruct (background_admissible st); [by right|done].
Qed.

Lemma r_composed_progress st b st' lp1 lp2 gp :
  r_inv st -> composed st b st' lp1 lp2 gp -> takeable st -> lp1 ++ lp2 ++ gp <> [].
Proof.
  intros Hi Hc Hw Hnil. apply app_eq_nil in Hnil as [-> [-> ->]%app_eq_nil].
  pose proof (rc_batch _ _ _ _ _ _ Hc) as Eb. cbn in Eb. subst b.
  pose proof (rc_live _ _ _ _ _ _ Hc) as El. pose proof (rc_background _ _ _ _ _ _ Hc) as Eg.
  pose proof (ri_fit _ Hi) as Hf. cbn in El, Eg. rewrite El, Eg, Forall_app in Hf.
  destruct Hf as [Hf1 Hf2].
  destruct (rc_last _ _ _ _ _ _ Hc) as [El'|(h & t & El' & Hlt)]; cycle 1.
  { rewrite El', Forall_cons in Hf1. cbn in Hlt. lia. }
  destruct Hw as [Hw|Ea]; [by rewrite El, El' in Hw|].
  destruct (rc_second _ _ _ _ _ _ Hc Ea) as [Eg'|(h & t & Eg' & Hlt)]; cycle 1.
  { rewrite Eg', Forall_cons in Hf2. cbn in Hlt. lia. }
  unfold background_admissible in Ea. by rewrite Eg, Eg' in Ea.
Qed.

(** ** Fan-out *)

Lemma batch_input_cons r b :
  batch_input (r :: b) = map (pair (query r)) (passages r) ++ batch_input b.
Proof. done. Qed.

(** The slice a request owns is the scores of its own pairs. *)
Lemma fan_out_exact (score : T * T -> S) (before : list S) b :
  fan_out (zlen before) b (before ++ map score (batch_input b)) =
  map (fun r => (future r, Ok (map (fun p => score (query r, p)) (passages r)))) b.
Proof.
  revert before. induction b as [|r b IH]; intros before; [done|]. cbn [fan_out map]. f_equal.
  - do 2 f_equal. unfold pairs, zlen. rewrite py_slice_bounded by lia.
    rewrite Nat2Z.id, drop_app_length, batch_input_cons, map_app, map_map.
    apply take_app_length'. rewrite length_map. lia.
  - rewrite batch_input_cons, map_app, map_map, app_assoc.
    replace (zlen before + pairs r) with
      (zlen (before ++ map (fun p => score (query r, p)) (passages r)))
      by (unfold pairs, zlen; rewrite length_app, length_map; lia).
    apply IH.
Qed.

(** ** Overtaking

    A full-size live request at the head of the queue, and nothing running: a
    background request that arrives before the next batch goes first. *)

Record stuck (h : request) (st : state) : Prop := {
  sk_inv : r_inv st;
  sk_live : exists l, live st = h :: l;
  sk_background : background st = [];
  sk_running : running st = [];
  sk_open : closed st = false;
  sk_head : futs st !! future h = Some PENDING;
  sk_full : pairs h = max_batch_pairs cfg;
  sk_room : pending_live st + 1 <= pending_limit BACKGROUND
}.

Lemma batch_pairs_head h (pre l : list request) fs st :
  live st = h :: l -> pre `prefix_of` live st -> fs !! future h = Some PENDING -> pre <> [] ->
  pairs h <= batch_pairs (live_of fs pre).
Proof.
  intros -> Hp Hh Hne. destruct pre as [|x pre]; [done|]. apply prefix_cons_inv_1 in Hp as ->.
  unfold Futures.live_of. cbn [List.filter]. unfold pending_b at 1. rewrite Hh. cbn [batch_pairs].
  pose proof (batch_pairs_nonneg (live_of fs pre)). unfold Futures.live_of in *. lia.
Qed.

(** The batch composed while one background pair is queued behind a stuck head. *)
Lemma overtake_compose h g l st b st' lp1 lp2 gp :
  composed st b st' lp1 lp2 gp -> background_admissible st = true ->
  live st = h :: l -> background st = [g] -> futs st !! future h = Some PENDING ->
  futs st !! future g = Some PENDING -> pairs h = max_batch_pairs cfg -> pairs g = 1 ->
  b = [g] /\ lp1 = [] /\ lp2 = [] /\ gp = [g].
Proof using Hcfg.
  intros Hc Ha El Eg Hh Hg Hph Hpg. destruct Hcfg as [Hb1 _ _ _ _ Hb6].
  assert (E1 : lp1 = []).
  { destruct lp1; [done|]. pose proof (rc_reserved _ _ _ _ _ _ Hc Ha) as Hres.
    pose proof (batch_pairs_head h (r :: lp1) l (futs st) st El) as Hle.
    specialize (Hle ltac:(rewrite (rc_live _ _ _ _ _ _ Hc); by eexists) Hh ltac:(done)). lia. }
  subst lp1. assert (E2 : gp = [g]).
  { pose proof (rc_background _ _ _ _ _ _ Hc) as Ebg. rewrite Eg in Ebg.
    destruct gp as [|x gp]; cbn in Ebg.
    - destruct (rc_second _ _ _ _ _ _ Hc Ha) as [E|(x & t & E & Hlt)]; [congruence|].
      rewrite E in Ebg. injection Ebg as -> ->. cbn in Hlt. lia.
    - injection Ebg as -> E. by symmetry in E; apply app_eq_nil in E as [-> _]. }
  subst gp. pose proof (rc_batch _ _ _ _ _ _ Hc) as Eb.
  assert (Elg : live_of (futs st) [g] = [g]) by (unfold Futures.live_of, pending_b; cbn; by rewrite Hg).
  rewrite Elg in Eb. cbn in Eb. destruct lp2 as [|x lp2]; [done|].
  pose proof (rc_size _ _ _ _ _ _ Hc) as Hsz. rewrite Eb in Hsz. cbn [batch_pairs] in Hsz.
  pose proof (batch_pairs_head h (x :: lp2) l (futs st) st El) as Hle.
  specialize (Hle ltac:(rewrite (rc_live _ _ _ _ _ _ Hc); by eexists) Hh ltac:(done)). lia.
Qed.

(** The overtaking background request is admitted at once. *)
Lemma stuck_submit h st :
  stuck h st -> let g := mkRequest (query h) [query h] BACKGROUND (next st) in
  exists st1, submit st (query h) [query h] BACKGROUND false = Accepted st1 /\
    live st1 = live st /\ background st1 = [g] /\ running st1 = [] /\ closed st1 = false /\
    futs st1 !! future h = Some PENDING /\ futs st1 !! next st = Some PENDING /\
    pending_live st1 = pending_live st /\ background_inflight st1 = 0 /\
    inference_calls st1 = inference_calls st.
Proof using Hcfg.
  intros [Hi [l El] Eg Er Eo Hh Hph Hroom] g. destruct Hcfg as [Hb1 Hb2 Hb3 Hb4 Hb5 Hb6].
  destruct (ri_counts _ Hi) as [_ Hcb]. rewrite Eg in Hcb. cbn in Hcb.
  destruct (ri_slots _ Hi) as [Hsl _]. rewrite Er in Hsl. cbn in Hsl.
  pose proof (ow_fresh _ _ _ _ (ri_owned _ Hi) (future h) ltac:(by rewrite Hh)) as Hfr.
  exists (enqueue g (st {{ futs ::= fun fs => create fs [next st] }} {{ next ::= Nat.succ }})).
  split; [|cbn; split_and!; try done].
  - unfold submit, _admit, make_request. cbn [scheduling_class]. fold g. change (pairs g) with 1.
    destruct (Z.ltb_spec (Z.min (pending_limit BACKGROUND) (max_batch_pairs cfg)) 1) as [H|_].
    { cbn in H. lia. }
    match goal with |- context [closed ?s] => change (closed s) with (closed st);
      change (total_pending_pairs s) with (total_pending_pairs st) end.
    rewrite Eo. unfold total_pending_pairs. rewrite Hcb, Z.add_0_r.
    destruct (Z.leb_spec (pending_live st + 1) (pending_limit BACKGROUND)); [|lia].
    reflexivity.
  - by rewrite Eg.
  - rewrite lookup_insert_ne by lia. done.
  - by rewrite lookup_insert_eq.
Qed.

Lemma stuck_cycle h st :
  (forall ps, exists res, model ps res) -> stuck h st ->
  exists st', rtc step st st' /\ stuck h st' /\ live st' = live st /\
    inference_calls st' = inference_calls st + 1.
Proof.
  intros Hmodel Hst. destruct (stuck_submit h st Hst)
    as (st1 & Es & El1 & Eg1 & Er1 & Eo1 & Hh1 & Hg1 & Hp1 & Hbi1 & Hic1).
  destruct Hst as [Hi [l El] Eg Er Eo Hh Hph Hroom]. rewrite El in El1.
  set (g := mkRequest (query h) [query h] BACKGROUND (next st)) in *.
  assert (Hs1 : step st st1)
    by (apply (step_submit st (query h) [query h] BACKGROUND false); [done|exact Es]).
  assert (Hi1 : r_inv st1) by (by eapply r_inv_step).
  destruct (r_compose_spec st1 _ (rok_batch Hcfg) (ri_owned _ Hi1))
    as (b & st2 & lp1 & lp2 & gp & Ec & Hc & _).
  assert (Ha : background_admissible st1 = true).
  { unfold background_admissible. rewrite Eg1, Hbi1. cbn. apply Z.ltb_lt. destruct Hcfg. lia. }
  destruct (overtake_compose h g l _ _ _ _ _ _ Hc Ha El1 Eg1 Hh1 Hg1 Hph eq_refl)
    as (-> & -> & -> & ->).
  assert (Ecol : exists st3, collect st1 = Some st3 /\ running st3 = [[g]] /\ live st3 = live st1 /\
    background st3 = [] /\ closed st3 = false /\ futs st3 = mark (futs st1) [next st] /\
    pending_live st3 = pending_live st1 /\ inference_calls st3 = inference_calls st1).
  { unfold collect. rewrite Ec. cbn. eexists. split; [done|].
    pose proof (rc_live _ _ _ _ _ _ Hc) as Hl2. pose proof (rc_background _ _ _ _ _ _ Hc) as Hg2.
    pose proof (rc_pending_live _ _ _ _ _ _ Hc) as Hp2. pose proof (rc_futs _ _ _ _ _ _ Hc) as Hf2.
    pose proof (rc_state _ _ _ _ _ _ Hc) as Hs2. rewrite Eg1 in Hg2. cbn in Hl2, Hg2, Hp2, Hf2.
    injection Hg2 as Hg2. rewrite Hs2. cbn. rewrite Er1. split_and!; try done. lia. }
  destruct Ecol as (st3 & Ecol & Er3 & El3 & Eg3 & Eo3 & Ef3 & Ep3 & Ei3).
  assert (Hs3 : step st1 st3).
  { apply step_collect; [|done]. rewrite Er1. destruct Hcfg. unfold zlen. cbn. lia. }
  destruct (Hmodel (batch_input [g])) as [res Hres].
  assert (Hs4 : step st3 (finish st3 [g] [] res)) by (by apply (step_finish st3 [] [g] [])).
  exists (finish st3 [g] [] res). split; [by eapply rtc_l; [|eapply rtc_l; [|eapply rtc_once]]|].
  assert (Hne : next st <> future h).
  { pose proof (ow_fresh _ _ _ _ (ri_owned _ Hi) (future h) ltac:(by rewrite Hh)). lia. }
  split_and!; [split|..]; cbn; try done.
  - eapply r_inv_step; [|exact Hs4]. by eapply r_inv_step.
  - exists l. congruence.
  - rewrite lookup_settle_all_ne by (rewrite r_batch_results_ids; cbn; set_solver).
    rewrite Ef3, lookup_mark_ne by set_solver. done.
  - rewrite Ep3, Hp1. done.
  - congruence.
  - lia.
Qed.
End Config.
End Scheduler.

Lemma r_init_ok mb w mo mp ta wk slot bg cfg :
  init mb w mo mp ta wk slot bg = Ok cfg -> config_ok cfg.
Proof.
  unfold init. repeat (case_match; [done|]).
  match goal with |- context [if ?a && ?b then _ else _] =>
    destruct a eqn:E1; [|done]; destruct b eqn:E2; [|done] end.
  intros [= <-]. split; cbn; lia.
Qed.

(** ** Properties *)

Section Properties.
Context {T S X : Type} (model : list (T * T) -> outcome X (list S) -> Prop).
Context (mb mo mp wk : Z) (window ta : Q) (slot bg : option Z) (cfg : config).

(** in every interleaving of submitters, cancellations, workers and shutdown of a
    scheduler that [__init__] accepted: the pair counters equal what the queues and the
    workers hold, pending and background pairs stay within their bounds, live pairs
    waiting or in service never exceed [max_outstanding_pairs], no physical batch is
    larger than [max_batch_pairs], at most [max_background_inflight] batches carry
    background work, every unsettled future is in exactly one place, and no worker or
    shutdown meets a future in an unexpected state. *)
Theorem rerank_reachable_inv (st : @state T S X) :
  init mb window mo mp ta wk slot bg = Ok cfg -> reachable cfg model st ->
  r_inv cfg st /\ (exists st', collect cfg st = Some st') /\
  (exists st', fail_remaining st = Some st').
Proof.
  intros Hc%r_init_ok Hr. apply r_inv_reachable in Hr; [|done]. split_and!; [done| |].
  - unfold collect. destruct (r_compose_spec cfg st _ (rok_batch _ Hc) (ri_owned _ _ Hr))
      as (b & st' & ? & ? & ? & -> & _). by eexists.
  - destruct (r_inv_fail cfg Hc st Hr) as (st' & ? & _). by exists st'.
Qed.

(** Finishing a batch settles each of its futures with the scores of its own pairs. *)
Lemma finish_fan_out (score : T * T -> S) (st : @state T S X) l1 b l2 r :
  r_inv cfg st -> running st = l1 ++ b :: l2 -> r ∈ b ->
  futs (finish st b (l1 ++ l2) (Ok (map score (batch_input b)))) !! future r =
    Some (FINISHED (Ok (map (fun p => score (query r, p)) (passages r)))).
Proof.
  intros Hr E Hin. pose proof (ri_owned _ _ Hr) as Ho. rewrite E, concat_app in Ho. cbn in Ho.
  apply (lookup_settle_all (futs st) (batch_results b (Ok (map score (batch_input b))))).
  - rewrite (r_batch_results_ids b (Ok (map score (batch_input b)) : outcome X (list S))).
    pose proof (ow_nodup _ _ _ _ Ho) as Hnd. rewrite !map_app in Hnd.
    apply NoDup_app in Hnd as (_ & _ & Hnd). apply NoDup_app in Hnd as (_ & _ & Hnd).
    by apply NoDup_app in Hnd as [? _].
  - unfold batch_results. rewrite (proj2 (Z.eqb_eq _ _)) by (unfold zlen; by rewrite length_map).
    cbn. rewrite (fan_out_exact score [] b). apply list_elem_of_In, in_map_iff. exists r.
    split; [done|]. by apply list_elem_of_In.
  - apply (ow_running _ _ _ _ Ho). apply list_elem_of_In, in_map, list_elem_of_In.
    rewrite !elem_of_app. auto.
Qed.

(** exact fan-out: when the model scores pairs pointwise, finishing a batch gives
    each request the scores of its own passages against its own query, in passage order
    and whatever else shared the batch, and changes no other future. *)
Theorem rerank_fanout_exact (score : T * T -> S) (st : @state T S X) l1 b l2 :
  init mb window mo mp ta wk slot bg = Ok cfg -> reachable cfg model st ->
  running st = l1 ++ b :: l2 ->
  let st' := finish st b (l1 ++ l2) (Ok (map score (batch_input b))) in
  (forall r, r ∈ b -> futs st' !! future r =
     Some (FINISHED (Ok (map (fun p => score (query r, p)) (passages r))))) /\
  (forall i, i ∉ map future b -> futs st' !! i = futs st !! i) /\
  pairs_scored st' = pairs_scored st + zlen (batch_input b).
Proof.
  intros Hc%r_init_ok Hr E st'. apply r_inv_reachable in Hr; [|done].
  pose proof (r_batch_results_ids b (Ok (map score (batch_input b)) : outcome X (list S))) as Hids.
  split_and!; [intros r Hin; by apply finish_fan_out| |].
  - intros i Hi. change (futs st') with
      (settle_all (futs st) (batch_results b (Ok (map score (batch_input b))))).
    apply lookup_settle_all_ne. by rewrite Hids.
  - cbn. rewrite (proj2 (Z.eqb_eq _ _)) by (unfold zlen; by rewrite length_map). done.
Qed.

(** C40: composing is work-conserving across the micro-batch window.  A worker whose check
    found work waits with the lock released, while callers and other workers take any
    steps, and then composes in the state it finds.  It takes requests from the front of
    the queues, only live ones when no background slot is free; the batch is exactly the
    requests it took that were not cancelled, within the physical bound; and it takes
    nothing only when in that state no live request is queued and no background request may
    be started, which cannot be when nothing happened in the window. *)
Theorem rerank_compose_progress (seen st : @state T S X) :
  init mb window mo mp ta wk slot bg = Ok cfg -> reachable cfg model seen ->
  worker_check cfg seen = Compose -> rtc (step cfg model) seen st ->
  exists b st' lp gp, compose cfg st = Some (b, st') /\
    live st = lp ++ live st' /\ background st = gp ++ background st' /\
    (background_admissible cfg st = false -> gp = []) /\
    (forall r, r ∈ b <-> r ∈ lp ++ gp /\ futs st !! future r = Some PENDING) /\
    batch_pairs b <= mb /\
    (lp ++ gp = [] <-> live st = [] /\ background_admissible cfg st = false) /\
    (st = seen -> lp ++ gp <> []).
Proof.
  intros Hi Hr0 Hw Hsteps. pose proof (r_init_ok _ _ _ _ _ _ _ _ _ Hi) as Hc.
  assert (Hr : r_inv cfg st) by (eapply (r_inv_reachable cfg model); [done|unfold reachable in *; by etrans]).
  assert (Emb : max_batch_pairs cfg = mb).
  { unfold init in Hi. repeat (case_match; try done); by simplify_eq/=. }
  destruct (r_compose_spec cfg st _ (rok_batch _ Hc) (ri_owned _ _ Hr))
    as (b & st' & lp1 & lp2 & gp & E & Hco & _).
  pose proof (r_composed_progress cfg _ _ _ _ _ _ Hr Hco) as Hne. rewrite app_assoc in Hne.
  exists b, st', (lp1 ++ lp2), gp. split_and!.
  - done.
  - rewrite <-app_assoc. apply (rc_live _ _ _ _ _ _ _ Hco).
  - apply (rc_background _ _ _ _ _ _ _ Hco).
  - apply (rc_disallowed _ _ _ _ _ _ _ Hco).
  - intros r. rewrite (rc_batch _ _ _ _ _ _ _ Hco), !elem_of_app, !elem_live_of.
    assert (Hp : pending_b (futs st) (future r) = true <-> futs st !! future r = Some PENDING)
      by (unfold pending_b; repeat case_match; split; congruence).
    rewrite Hp. tauto.
  - rewrite <-Emb. apply (rc_size _ _ _ _ _ _ _ Hco).
  - split.
    + intros E0. split.
      * destruct (live st) eqn:El; [done|]. exfalso. apply Hne; [|done]. left. by rewrite El.
      * destruct (background_admissible cfg st) eqn:Ea; [|done]. exfalso. apply Hne; [by right|done].
    + intros [El Ea]. pose proof (rc_live _ _ _ _ _ _ _ Hco) as Hl. rewrite El in Hl.
      rewrite (rc_disallowed _ _ _ _ _ _ _ Hco Ea). symmetry in Hl.
      by apply app_eq_nil in Hl as [-> [-> _]%app_eq_nil].
  - intros ->. apply Hne. by apply check_takeable.
Qed.

(** A live request with more pairs than [max_outstanding_pairs] can never be
    admitted, in any state, yet admission does not refuse it as oversized: it waits,
    and is refused as saturated at its deadline. *)
Theorem rerank_unadmittable (st : @state T S X) q ps expired :
  init mb window mo mp ta wk slot bg = Ok cfg -> reachable cfg model st ->
  mo < zlen ps -> zlen ps <= Z.min mp mb -> closed st = false ->
  submit cfg st q ps LIVE expired = if expired then Refused "saturated" else Waiting.
Proof.
  intros Hi Hr Hbig Hfit Hcl. pose proof (r_init_ok _ _ _ _ _ _ _ _ _ Hi) as Hc.
  apply r_inv_reachable in Hr; [|done].
  assert (E : max_batch_pairs cfg = mb /\ max_pending_pairs cfg = mp /\ max_outstanding_pairs cfg = mo).
  { unfold init in Hi. repeat (case_match; try done); by simplify_eq/=. }
  destruct E as (E1 & E2 & E3).
  destruct (ri_counts _ _ Hr) as [Hpl _]. pose proof (batch_pairs_nonneg (live st)).
  pose proof (ri_inflight _ _ Hr) as Hin. pose proof (batch_pairs_nonneg (concat (running st))).
  unfold submit, _admit, make_request, pairs. cbn [scheduling_class passages pending_limit].
  rewrite E1, E2, E3. destruct (Z.ltb_spec (Z.min mp mb) (zlen ps)); [lia|].
  match goal with |- context [closed ?s] => change (closed s) with (closed st);
    change (pending_live s) with (pending_live st); change (inflight_pairs s) with (inflight_pairs st) end.
  rewrite Hcl. destruct (Z.leb_spec (pending_live st + inflight_pairs st + zlen ps) mo); [lia|].
  rewrite bool_decide_true, andb_false_r by done. done.
Qed.

(** background traffic can starve a large live request: with a model that answers,
    from any state where a full-size live request heads the queue and the workers are
    idle, there are runs with any number of physical batches in which background goes
    first every time and the live request is never taken. *)
Theorem rerank_live_starvation (h : @request T) (st : @state T S X) (n : nat) :
  init mb window mo mp ta wk slot bg = Ok cfg ->
  (forall ps, exists res, model ps res) -> stuck cfg h st ->
  exists st', rtc (step cfg model) st st' /\ live st' = live st /\
    futs st' !! future h = Some PENDING /\ inference_calls st' = inference_calls st + Z.of_nat n.
Proof.
  intros Hc%r_init_ok Hm Hst.
  assert (H : exists st', rtc (step cfg model) st st' /\ stuck cfg h st' /\ live st' = live st /\
    inference_calls st' = inference_calls st + Z.of_nat n).
  { induction n as [|n (st1 & Hr1 & Hs1 & Hl1 & Hn1)]; [exists st; split_and!; done || lia|].
    destruct (stuck_cycle cfg model Hc h st1 Hm Hs1) as (st2 & Hr2 & Hs2 & Hl2 & Hn2).
    exists st2. split_and!; [by etrans|done|congruence|lia]. }
  destruct H as (st' & Hr & Hs & Hl & Hn). exists st'. split_and!; try done. by apply sk_head with cfg.
Qed.
End Properties.

(** ** A concrete run *)

Module RerankDemo.
Definition cfg : config := mkConfig 4 8 16 1 4 1 4 1.
Definition score (p : nat * nat) : nat := (10 * p.1 + p.2)%nat.
Definition model (ps : list (nat * nat)) (r : outcome unit (list nat)) : Prop :=
  r = Ok (map score ps).
Definition st0 : @state nat nat unit := initial.
Definition admitted (a : @admission nat nat unit) (d : state) : state :=
  match a with Accepted st => st | _ => d end.
(** A full-size live request waits; then also a background one. *)
Definition st1 : state := admitted (submit cfg st0 7%nat [1; 2; 3; 4]%nat LIVE false) st0.
Definition st2 : state := admitted (submit cfg st1 8%nat [5]%nat BACKGROUND false) st1.
Definition st3 : state := default st2 (collect cfg st2).
Definition batch : list (@request nat) := match running st3 with b :: _ => b | [] => [] end.
Definition head : @request nat := mkRequest 7%nat [1; 2; 3; 4]%nat LIVE 0.

Lemma init_rerank_cfg : init 4 5 8 16 1 1 None None = Ok cfg.
Proof. reflexivity. Qed.
Lemma rerank_reach1 : reachable cfg model st1.
Proof.
  eapply rtc_l; [|done]. apply (step_submit cfg model st0 7%nat [1; 2; 3; 4]%nat LIVE false);
    [done|reflexivity].
Qed.
Lemma rerank_reach2 : reachable cfg model st2.
Proof.
  eapply rtc_r; [exact rerank_reach1|]. apply (step_submit cfg model st1 8%nat [5]%nat BACKGROUND false);
    [done|reflexivity].
Qed.
Lemma window : rtc (step cfg model) st1 st2.
Proof.
  eapply rtc_l; [|done]. apply (step_submit cfg model st1 8%nat [5]%nat BACKGROUND false);
    [done|reflexivity].
Qed.
Lemma reach3 : reachable cfg model st3.
Proof. eapply rtc_r; [exact rerank_reach2|]. apply step_collect; [done|vm_compute; reflexivity]. Qed.
Lemma stuck1 : stuck cfg head st1.
Proof.
  split; try (vm_compute; done).
  - apply (r_inv_reachable cfg model); [by eapply r_init_ok, init_rerank_cfg|exact rerank_reach1].
  - by exists [].
Qed.
End RerankDemo.

Lemma rerank_reachable_inv_witness : r_inv RerankDemo.cfg RerankDemo.st3.
Proof.
  apply (rerank_reachable_inv RerankDemo.model 4 8 16 1 5 1 None None RerankDemo.cfg RerankDemo.st3
    RerankDemo.init_rerank_cfg RerankDemo.reach3).
Defined.

Lemma rerank_fanout_exact_witness :
  exists b, running RerankDemo.st3 = [b] /\
    futs (finish RerankDemo.st3 b [] (Ok (map RerankDemo.score (batch_input b)))) !! 1%nat =
      Some (FINISHED (Ok [85%nat])).
Proof.
  assert (E : running RerankDemo.st3 = [] ++ RerankDemo.batch :: []) by (vm_compute; reflexivity).
  exists RerankDemo.batch. split; [exact E|].
  destruct (rerank_fanout_exact RerankDemo.model 4 8 16 1 5 1 None None RerankDemo.cfg
    RerankDemo.score RerankDemo.st3 [] RerankDemo.batch [] RerankDemo.init_rerank_cfg RerankDemo.reach3 E)
    as [H _].
  apply (H (mkRequest 8%nat [5]%nat BACKGROUND 1)). vm_compute. left.
Defined.

(** The check sees one live request; a background one arrives in the window. *)
Lemma rerank_compose_progress_witness : exists b st',
  compose RerankDemo.cfg RerankDemo.st2 = Some (b, st') /\ batch_pairs b <= 4 /\ b <> [].
Proof.
  destruct (rerank_compose_progress RerankDemo.model 4 8 16 1 5 1 None None RerankDemo.cfg
    RerankDemo.st1 RerankDemo.st2 RerankDemo.init_rerank_cfg RerankDemo.rerank_reach1)
    as (b & st' & lp & gp & H & _ & _ & _ & _ & Hb & _); [vm_compute; reflexivity|exact RerankDemo.window|].
  exists b, st'. split; [exact H|]. split; [exact Hb|]. intros ->. vm_compute in H. discriminate.
Defined.

Definition narrow : config := mkConfig 4 3 16 1 4 1 4 1.

Lemma rerank_unadmittable_witness :
  submit narrow (@initial nat nat unit) 7%nat [1; 2; 3; 4]%nat LIVE true = Refused "saturated".
Proof.
  apply (rerank_unadmittable RerankDemo.model 4 3 16 1 5 1 None None narrow initial 7%nat
    [1; 2; 3; 4]%nat true); [reflexivity|apply rtc_refl|reflexivity|discriminate|reflexivity].
Defined.

Lemma rerank_live_starvation_witness :
  exists st, rtc (step RerankDemo.cfg RerankDemo.model) RerankDemo.st1 st /\
    live st = live RerankDemo.st1 /\ inference_calls st = 1000.
Proof.
  destruct (rerank_live_starvation RerankDemo.model 4 8 16 1 5 1 None None RerankDemo.cfg
    RerankDemo.head RerankDemo.st1 1000 RerankDemo.init_rerank_cfg) as (st & H1 & H2 & _ & H3).
  - intros ps. by eexists.
  - exact RerankDemo.stuck1.
  - exists st. split_and!; [exact H1|exact H2|exact H3].
Defined.
