(* ===== verification/MemoryIndex.v ===== *)
(** * Memory vector index ([src/backend/memory/app/services/memory_vector_index.py],
      [memory_embedding_client.py], [tenant_scope.py])

    Memory documents, the world the memory service works on, and its two clients: the
    embedding RPC and the Qdrant collection.  Qdrant is a parameter: the class
    [VectorStore] has its point operations and [VectorStoreLaws] what its API documents
    of them, where a request that reports an error may have been applied or not.  [rpc n]
    is what the [n]-th embedding request answers ([None] when it fails in any way),
    [now n] the [n]-th reading of the clock, and [uuid5] the name-based UUID. *)

From Stdlib Require Import QArith.
From stdpp Require Import base list strings gmap.
From S2P Require Import Prelude.

Local Open Scope Z_scope.

(** ** Documents *)

(** The [retrieval] subdocument; a missing one reads as the empty one. *)
Record retrieval := mkRetrieval {
  r_embedding_status : option string;
  r_qdrant_point_id : option string;
  r_embedding_model : option string;
  r_embedding_dimensions : option Z;
  r_vector_collection : option string;
  r_vector_synced_at : option string;
  r_indexed_revision : option Z
}.

#[export] Instance eta_retrieval : Eta retrieval := fun x =>
  mkRetrieval (r_embedding_status x) (r_qdrant_point_id x) (r_embedding_model x)
    (r_embedding_dimensions x) (r_vector_collection x) (r_vector_synced_at x)
    (r_indexed_revision x).

(** The fields the modelled operations read or write; [m_tenant] and [m_user] are the
    ownership boundary. *)
Record MemDoc := mkMemDoc {
  m_id : string;
  m_owner_id : string;
  m_owner_type : string;
  m_memory_class : string;
  m_text : text;
  m_status : option string;
  m_archived_at : option string;
  m_valid_to : option string;
  m_revision : option Z;
  m_superseded_by : option string;
  m_deleted_at : option string;
  m_updated_at : string;
  m_content_hash : option string;
  m_fact_key : option string;
  m_preference_key : option string;
  m_scope_key : option string;
  m_retrieval : retrieval;
  m_tenant : option string;
  m_user : option string
}.

#[export] Instance eta_MemDoc : Eta MemDoc := fun x =>
  mkMemDoc (m_id x) (m_owner_id x) (m_owner_type x) (m_memory_class x) (m_text x) (m_status x)
    (m_archived_at x) (m_valid_to x) (m_revision x) (m_superseded_by x) (m_deleted_at x)
    (m_updated_at x) (m_content_hash x) (m_fact_key x) (m_preference_key x) (m_scope_key x)
    (m_retrieval x) (m_tenant x) (m_user x).

(** [doc.get("revision", 1)]. *)
Definition revision (d : MemDoc) : Z := default 1 (m_revision d).

Record Tombstone := mkTombstone {
  tb_memory_id : string;
  tb_owner_id : string;
  tb_owner_type : string;
  tb_memory_class : string;
  tb_content_hash : option string;
  tb_fact_key : option string;
  tb_preference_key : option string;
  tb_scope_key : string;
  tb_deleted_at : string;
  tb_revision : Z;
  tb_tenant : option string;
  tb_user : option string
}.

(** ** Qdrant *)

Record payload := mkPayload {
  pl_owner_id : option string;
  pl_owner_type : option string;
  pl_memory_id : option string;
  pl_memory_class : option string;
  pl_text : text;
  pl_status : string;
  pl_revision : Z;
  pl_valid_to : option string;
  pl_archived : bool;
  pl_tenant_id : option string;
  pl_owner_user_id : option string;
  pl_owner_admin_id : option string
}.

Inductive selector :=
  | ByPoint (point_id : string)
  | ByFilter (memory_id tenant user : string).

Definition owned_by (t u : string) (p : payload) : Prop :=
  pl_tenant_id p = Some t /\ pl_owner_user_id p = Some u.

#[export] Instance owned_by_dec t u p : Decision (owned_by t u p).
Proof. unfold owned_by. apply _. Defined.

Definition selects (sel : selector) (x : string * payload) : Prop :=
  match sel with
  | ByPoint i => x.1 = i
  | ByFilter m t u => pl_memory_id x.2 = Some m /\ owned_by t u x.2
  end.

#[export] Instance selects_dec sel x : Decision (selects sel x).
Proof. destruct sel; cbn; apply _. Defined.

Class VectorStore (S : Type) := {
  q_points : S -> gmap string payload;
  q_ensure : S -> bool * S;
  q_put : string -> payload -> list Q -> S -> bool * S;
  q_delete : selector -> S -> bool * S;
  q_scroll : Z -> option string -> string -> string -> S ->
             option (list (string * payload) * option string) * S
}.

Class VectorStoreLaws (S : Type) `{VectorStore S} := {
  points_named s : q_points s !! ""%string = None;
  ensure_points s : q_points (q_ensure s).2 = q_points s;
  put_done id p v s :
    (q_put id p v s).1 = true -> q_points (q_put id p v s).2 = <[id := p]> (q_points s);
  put_any id p v s :
    q_points (q_put id p v s).2 = q_points s \/
    q_points (q_put id p v s).2 = <[id := p]> (q_points s);
  delete_done sel s :
    (q_delete sel s).1 = true ->
    q_points (q_delete sel s).2 = filter (fun x => ~ selects sel x) (q_points s);
  delete_any sel s :
    q_points (q_delete sel s).2 = q_points s \/
    q_points (q_delete sel s).2 = filter (fun x => ~ selects sel x) (q_points s);
  scroll_points_same limit off t u s : q_points (q_scroll limit off t u s).2 = q_points s;
  scroll_sound limit off t u s ps next :
    (q_scroll limit off t u s).1 = Some (ps, next) ->
    NoDup ps.*1 /\ zlen ps <= Z.max 0 limit /\
    Forall (fun x => q_points s !! x.1 = Some x.2 /\ owned_by t u x.2) ps;
  scroll_all limit t u s ps :
    (q_scroll limit None t u s).1 = Some (ps, None) ->
    forall id p, q_points s !! id = Some p -> owned_by t u p -> (id, p) ∈ ps
}.

(** ** World *)

Record mem_settings := mkMemSettings {
  index_enabled : bool;
  vector_size : Z;
  collection_name : string;
  embedding_model : string;
  embedding_max_chars : Z;
  passage_prefix : text;
  reconciliation_batch_limit : Z;
  reconciliation_scan_orphans : bool
}.

Section World.
Context {S : Type}.

Record mem_world := mkMemWorld {
  episodic : list MemDoc;
  semantic : list MemDoc;
  tombstones : list Tombstone;
  index : S;
  collection_ready : bool;
  rpcs : nat;
  ticks : nat
}.

#[global] Instance eta_mem_world : Eta mem_world := fun x =>
  mkMemWorld (episodic x) (semantic x) (tombstones x) (index x) (collection_ready x) (rpcs x)
    (ticks x).
End World.
Arguments mem_world S : clear implicits.

Inductive mem_exn :=
  | MemoryEmbeddingError (msg : string)
  | MemoryVectorIndexError (msg : string)
  | MemoryNotFound (memory_id : string).

(** ** Monad *)

Definition W (S A : Type) : Type := mem_world S -> outcome mem_exn A * mem_world S.

Definition wret {S A} (a : A) : W S A := fun w => (Ok a, w).
Definition wraise {S A} (e : mem_exn) : W S A := fun w => (Raise e, w).
Definition wbind {S A B} (c : W S A) (k : A -> W S B) : W S B := fun w =>
  match c w with
  | (Ok a, w') => k a w'
  | (Raise e, w') => (Raise e, w')
  end.

(** [try: c except (MemoryEmbeddingError, MemoryVectorIndexError): h else: k]. *)
Definition wtry {S A B} (c : W S A) (h : W S B) (k : A -> W S B) : W S B := fun w =>
  match c w with
  | (Ok a, w') => k a w'
  | (Raise (MemoryNotFound m), w') => (Raise (MemoryNotFound m), w')
  | (Raise _, w') => h w'
  end.

Declare Scope mem_scope.
Delimit Scope mem_scope with mem.
Notation "x <-- c ; k" := (wbind c (fun x => k))
  (at level 100, c at next level, right associativity) : mem_scope.
Notation "c ;;; k" := (wbind c (fun _ => k))
  (at level 100, right associativity) : mem_scope.
Open Scope mem_scope.

Definition wgets {S A} (f : mem_world S -> A) : W S A := fun w => (Ok (f w), w).
Definition wmodify {S} (f : mem_world S -> mem_world S) : W S unit := fun w => (Ok tt, f w).
Definition wguard {S} (b : bool) (e : mem_exn) : W S unit := if b then wret tt else wraise e.

Section Clients.
Context {S : Type} {VS : VectorStore S}.
Context (me : option AuthIdentity) (cfg : mem_settings).
Context (uuid5 : string -> string) (now : nat -> string).
Context (isspace : Z -> bool) (rpc : nat -> text -> option (list Q)).

Definition now_fn : W S string := fun w => (Ok (now (ticks w)), w {{ ticks ::= Nat.succ }}).

(** ** Embedding client *)

Definition bounded_text (t : text) : outcome mem_exn text :=
  match strip isspace t with
  | [] => Raise (MemoryEmbeddingError "embedding text is empty")
  | normalized => Ok (py_prefix normalized (embedding_max_chars cfg))
  end.

Definition embed_memory (t : text) : W S (list Q) := fun w =>
  match bounded_text t with
  | Raise e => (Raise e, w)
  | Ok b =>
      let w' := w {{ rpcs ::= Nat.succ }} in
      match rpc (rpcs w) (passage_prefix cfg ++ b) with
      | Some ((_ :: _) as v) =>
          if zlen v =? vector_size cfg then (Ok v, w')
          else (Raise (MemoryEmbeddingError "embedding dimensionality mismatch"), w')
      | Some [] => (Raise (MemoryEmbeddingError "embedding service returned no vector"), w')
      | None => (Raise (MemoryEmbeddingError "embedding request failed"), w')
      end
  end.

(** ** Index client *)

Definition ensure_collection : W S unit := fun w =>
  if collection_ready w || negb (index_enabled cfg) then (Ok tt, w)
  else
    let '(done, s) := q_ensure (index w) in
    if done then (Ok tt, w {{ index := s }} {{ collection_ready := true }})
    else (Raise (MemoryVectorIndexError "collection"), w {{ index := s }}).

Definition require_identity : W S AuthIdentity :=
  match me with
  | Some i => wret i
  | None => wraise (MemoryVectorIndexError "authenticated identity is required")
  end.

Definition point_id (tenant user memory_id : string) : string :=
  uuid5 ("memory:" +:+ tenant +:+ ":" +:+ user +:+ ":" +:+ memory_id)%string.

(** One HTTP request that changes points. *)
Definition request (f : S -> bool * S) : W S unit := fun w =>
  let '(done, s) := f (index w) in
  (if done then Ok tt else Raise (MemoryVectorIndexError "request"), w {{ index := s }}).

Definition memory_payload (i : AuthIdentity) (d : MemDoc) : payload :=
  mkPayload (Some (m_owner_id d)) (Some (m_owner_type d)) (Some (m_id d)) (Some (m_memory_class d))
    (m_text d) (match m_status d with Some s => s | None => "active"%string end) (revision d)
    (m_valid_to d) (truthy (m_archived_at d)) (Some (id_tenant i)) (Some (id_user i))
    (Some (or_else (id_admin i) (id_user i))).

Definition upsert_memory (d : MemDoc) (v : list Q) : W S string :=
  wguard (index_enabled cfg) (MemoryVectorIndexError "memory vector index is disabled");;;
  wguard (zlen v =? vector_size cfg) (MemoryVectorIndexError "vector dimensionality mismatch");;;
  i <-- require_identity;
  ensure_collection;;;
  let pid := point_id (id_tenant i) (id_user i) (m_id d) in
  request (q_put pid (memory_payload i d) v);;;
  wret pid.

Definition scroll_points (limit : Z) (offset : option string)
  : W S (list (string * payload) * option string) :=
  wguard (index_enabled cfg) (MemoryVectorIndexError "memory vector index is disabled");;;
  i <-- require_identity;
  ensure_collection;;;
  fun w => let '(r, s) := q_scroll limit offset (id_tenant i) (id_user i) (index w) in
           (match r with Some x => Ok x | None => Raise (MemoryVectorIndexError "request") end,
            w {{ index := s }}).

Definition delete_point (pid : string) : W S unit :=
  wguard (index_enabled cfg) (MemoryVectorIndexError "memory vector index is disabled");;;
  i <-- require_identity;
  ensure_collection;;;
  request (q_delete (ByPoint pid)).

Definition index_delete_memory (memory_id : string) : W S unit :=
  wguard (index_enabled cfg) (MemoryVectorIndexError "memory vector index is disabled");;;
  i <-- require_identity;
  ensure_collection;;;
  request (q_delete (ByFilter memory_id (id_tenant i) (id_user i))).
End Clients.

(** ** A store in memory

    A collection that never fails and pages in the order of its map, from the point the
    offset names; it shows that the laws can hold. *)

Definition toy_points (m : gmap string payload) : gmap string payload := delete ""%string m.

Definition toy_put (id : string) (p : payload) (m : gmap string payload)
  : bool * gmap string payload :=
  if bool_decide (id = ""%string) then (false, m) else (true, <[id := p]> m).

Definition toy_scroll (limit : Z) (off : option string) (t u : string) (m : gmap string payload)
  : option (list (string * payload) * option string) :=
  let own := map_to_list (filter (fun x => owned_by t u x.2) (toy_points m)) in
  let rest := match off with
              | None => own
              | Some o => drop_while (fun x => negb (bool_decide (x.1 = o))) own
              end in
  Some (take (Z.to_nat limit) rest, fst <$> head (drop (Z.to_nat limit) rest)).

#[export] Instance toy_store : VectorStore (gmap string payload) := {
  q_points := toy_points;
  q_ensure m := (true, m);
  q_put id p _ m := toy_put id p m;
  q_delete sel m := (true, filter (fun x => ~ selects sel x) m);
  q_scroll limit off t u m := (toy_scroll limit off t u m, m)
}.

Lemma drop_while_sublist {A} (f : A -> bool) l : drop_while f l `sublist_of` l.
Proof. induction l as [|x l IH]; cbn; [done|]. destruct (f x); [by constructor|done]. Qed.

Lemma toy_delete sel m :
  toy_points (filter (fun x => ~ selects sel x) m) = filter (fun x => ~ selects sel x) (toy_points m).
Proof. unfold toy_points. by rewrite map_filter_delete. Qed.

Lemma toy_put_points id p m :
  toy_points (toy_put id p m).2 = toy_points m /\ (toy_put id p m).1 = false \/
  toy_points (toy_put id p m).2 = <[id := p]> (toy_points m).
Proof.
  unfold toy_put, toy_points. case_bool_decide; [by left|right].
  cbn. by rewrite delete_insert_ne.
Qed.

Lemma toy_page limit off t u m ps next :
  toy_scroll limit off t u m = Some (ps, next) ->
  ps `sublist_of` map_to_list (filter (fun x => owned_by t u x.2) (toy_points m)) /\
  zlen ps <= Z.max 0 limit.
Proof.
  unfold toy_scroll. intros [= <- _]. split.
  - etrans; [apply sublist_take|]. destruct off; [apply drop_while_sublist|done].
  - unfold zlen. rewrite length_take. lia.
Qed.

#[export] Instance toy_laws : VectorStoreLaws (gmap string payload).
Proof.
  split.
  - intros s. apply lookup_delete_eq.
  - done.
  - intros id p v s H. destruct (toy_put_points id p s) as [[_ E]|E]; [|done].
    cbn in H. congruence.
  - intros id p v s. destruct (toy_put_points id p s) as [[E _]|E]; [by left|by right].
  - intros sel s _. apply toy_delete.
  - intros sel s. right. apply toy_delete.
  - done.
  - intros limit off t u s ps next [Hs Hl]%toy_page. split_and!.
    + eapply (sublist_NoDup _ (map_to_list (filter (fun x => owned_by t u x.2) (toy_points s))).*1);
        [apply NoDup_fst_map_to_list|by apply fmap_sublist].
    + done.
    + apply Forall_forall. intros [id p] Hx. eapply elem_of_submseteq in Hx; [|by apply sublist_submseteq, Hs].
      by apply elem_of_map_to_list, map_lookup_filter_Some in Hx.
  - intros limit t u s ps. cbn. unfold toy_scroll. intros [= <- Hn] id p Hp Ho.
    set (own := map_to_list _) in *. destruct (drop (Z.to_nat limit) own) eqn:E; [|done].
    assert (Hin : (id, p) ∈ own) by by apply elem_of_map_to_list, map_lookup_filter_Some.
    by rewrite <-(take_drop (Z.to_nat limit) own), E, app_nil_r in Hin.
Qed.
