(* ===== verification/MemoryService.v ===== *)
(** * Canonical memory store ([src/backend/memory/app/services/memory_service.py])

    The two memory collections and the durable deletion identities, under the ownership
    boundary of [tenant_scope.py], with the operations that keep the vector index in step
    with them: synchronisation, supersession and deletion.  Metrics, logs and index
    creation are left out; writing and retrieval are in [MemoryWrite] and [MemoryRetrieve]. *)

From Stdlib Require Import QArith.
From stdpp Require Import base list strings gmap.
From S2P Require Import Prelude MemoryIndex.

Local Open Scope Z_scope.

Definition MEMORY_STATUS_ACTIVE : string := "active".
Definition MEMORY_STATUS_SUPERSEDED : string := "superseded".
Definition MEMORY_STATUS_ARCHIVED : string := "archived".
Definition MEMORY_STATUS_DELETED : string := "deleted".

Definition EMBEDDING_STATUS_DISABLED : string := "disabled".
Definition EMBEDDING_STATUS_INDEXED : string := "indexed".
Definition EMBEDDING_STATUS_PENDING : string := "pending".
Definition EMBEDDING_STATUS_FAILED : string := "failed".
Definition EMBEDDING_STATUS_DELETE_PENDING : string := "delete_pending".

(** ** Collections *)

(** [update_one] and [delete_one]: the first matching document. *)
Fixpoint update_one {D} (p : D -> bool) (f : D -> D) (l : list D) : list D :=
  match l with
  | [] => []
  | d :: l => if p d then f d :: l else d :: update_one p f l
  end.

Fixpoint delete_one {D} (p : D -> bool) (l : list D) : list D :=
  match l with
  | [] => []
  | d :: l => if p d then l else d :: delete_one p l
  end.

Inductive collection := Episodic | Semantic.

#[export] Instance collection_eq_dec : EqDecision collection.
Proof. solve_decision. Defined.

Definition docs_of {S} (c : collection) (w : mem_world S) : list MemDoc :=
  match c with Episodic => episodic w | Semantic => semantic w end.

Definition on_docs {S} (c : collection) (f : list MemDoc -> list MemDoc) : W S unit :=
  wmodify (fun w => match c with
                    | Episodic => w {{ episodic ::= f }}
                    | Semantic => w {{ semantic ::= f }}
                    end).

Definition collection_for (memory_class : string) : collection :=
  if bool_decide (memory_class = "semantic_preference"%string) then Semantic else Episodic.

(** ** Document status *)

Definition memory_status (d : MemDoc) : string :=
  match m_status d with
  | Some s => if bool_decide (s = ""%string)
              then (if truthy (m_archived_at d) then MEMORY_STATUS_ARCHIVED else MEMORY_STATUS_ACTIVE)
              else s
  | None => if truthy (m_archived_at d) then MEMORY_STATUS_ARCHIVED else MEMORY_STATUS_ACTIVE
  end.

Definition embedding_status (d : MemDoc) : option string := r_embedding_status (m_retrieval d).

Section Service.
Context {S : Type} {VS : VectorStore S}.
Context (me : option AuthIdentity) (cfg : mem_settings).
Context (uuid5 : string -> string) (now : nat -> string).
Context (isspace : Z -> bool) (rpc : nat -> text -> option (list Q)).

(** ** Scope *)

Definition scope_filter (tenant user : option string) : bool :=
  match me with
  | None => true
  | Some i => bool_decide (tenant = Some (id_tenant i)) && bool_decide (user = Some (id_user i))
  end.

Definition mine (d : MemDoc) : bool := scope_filter (m_tenant d) (m_user d).

Definition has_id (memory_id : string) (d : MemDoc) : bool :=
  mine d && bool_decide (m_id d = memory_id).

Definition tomb_mine (t : Tombstone) : bool := scope_filter (tb_tenant t) (tb_user t).

Definition tomb_has_id (memory_id : string) (t : Tombstone) : bool :=
  tomb_mine t && bool_decide (tb_memory_id t = memory_id).

(** ** Reads *)

Definition all_memory_documents (include_tombstones : bool) : W S (list MemDoc) :=
  wgets (fun w =>
    let documents := List.filter mine (episodic w) ++ List.filter mine (semantic w) in
    if include_tombstones then documents
    else List.filter (fun d => negb (bool_decide (m_status d = Some MEMORY_STATUS_DELETED))) documents).

(** [find_one] in each collection in turn. *)
Definition find_memory_document (memory_id : string) (include_tombstones : bool)
  : W S (option (collection * MemDoc)) :=
  wgets (fun w =>
    let visible d := include_tombstones || negb (bool_decide (m_status d = Some MEMORY_STATUS_DELETED)) in
    match List.find (has_id memory_id) (episodic w) with
    | Some d => if visible d then Some (Episodic, d)
                else match List.find (has_id memory_id) (semantic w) with
                     | Some d => if visible d then Some (Semantic, d) else None
                     | None => None
                     end
    | None => match List.find (has_id memory_id) (semantic w) with
              | Some d => if visible d then Some (Semantic, d) else None
              | None => None
              end
    end).

Definition deletion_tombstone_by_memory_id (memory_id : string) : W S (option Tombstone) :=
  wgets (fun w => if bool_decide (memory_id = ""%string) then None
                  else List.find (tomb_has_id memory_id) (tombstones w)).

Definition deletion_tombstone_ids (memory_ids : list string) : W S (list string) :=
  wgets (fun w =>
    let wanted := List.filter (fun i => negb (bool_decide (i = ""%string))) memory_ids in
    map tb_memory_id (List.filter (fun t => tomb_mine t && bool_decide (tb_memory_id t ∈ wanted))
                        (tombstones w))).

(** ** Writes *)

Definition store_deletion_tombstone (d : MemDoc) : W S Tombstone :=
  existing <-- deletion_tombstone_by_memory_id (m_id d);
  match existing with
  | Some t => wret t
  | None =>
      at_ <-- now_fn now;
      let t := mkTombstone (m_id d) (m_owner_id d) (m_owner_type d) (m_memory_class d)
                 (m_content_hash d) (m_fact_key d) (m_preference_key d) (or_else (m_scope_key d) "")
                 at_ (revision d) (id_tenant <$> me) (id_user <$> me) in
      wmodify (fun w => w {{ tombstones ::= fun ts =>
        if existsb (tomb_has_id (m_id d)) ts then ts else ts ++ [t] }});;;
      wret t
  end.

Definition persist_retrieval_state (d : MemDoc) : W S unit :=
  on_docs (if bool_decide (m_memory_class d = "episodic"%string) then Episodic else Semantic)
    (update_one (has_id (m_id d)) (fun x => x {{ m_retrieval := m_retrieval d }}
                                              {{ m_updated_at := m_updated_at d }})).

(** The retrieval state after a successful upsert. *)
Definition indexed_state (pid synced_at : string) (rev : Z) (r : retrieval) : retrieval :=
  r {{ r_embedding_status := Some EMBEDDING_STATUS_INDEXED }} {{ r_qdrant_point_id := Some pid }}
    {{ r_embedding_model := Some (embedding_model cfg) }}
    {{ r_embedding_dimensions := Some (vector_size cfg) }}
    {{ r_vector_collection := Some (collection_name cfg) }}
    {{ r_vector_synced_at := Some synced_at }} {{ r_indexed_revision := Some rev }}.

(** Mark a document as indexed by [pid] and persist that. *)
Definition mark_indexed (d : MemDoc) (pid : string) : W S unit :=
  synced <-- now_fn now;
  updated <-- now_fn now;
  persist_retrieval_state
    (d {{ m_retrieval ::= indexed_state pid synced (revision d) }} {{ m_updated_at := updated }}).

Definition record_vector_failure (d : MemDoc) (status : string) : W S unit :=
  updated <-- now_fn now;
  persist_retrieval_state
    (d {{ m_retrieval := mkRetrieval (Some status) None (Some (embedding_model cfg))
            (Some (vector_size cfg)) (Some (collection_name cfg)) None None }}
       {{ m_updated_at := updated }}).

(** [None]: the index is disabled; otherwise whether the vector was stored. *)
Definition sync_vector_index (d : MemDoc) (vector : option (list Q)) : W S (option bool) :=
  if negb (index_enabled cfg) then
    persist_retrieval_state
      (d {{ m_retrieval ::= fun r => r {{ r_embedding_status := Some EMBEDDING_STATUS_DISABLED }} }});;;
    wret None
  else
    let store v := wtry (upsert_memory me cfg uuid5 d v)
      (record_vector_failure d EMBEDDING_STATUS_PENDING;;; wret (Some false))
      (fun pid => mark_indexed d pid;;; wret (Some true)) in
    match vector with
    | Some v => store v
    | None => wtry (embed_memory cfg isspace rpc (m_text d))
                (record_vector_failure d EMBEDDING_STATUS_FAILED;;; wret (Some false)) store
    end.

(** [_apply_supersession], after the normalisation of [superseded_id]. *)
Definition apply_supersession (new_id : string) (valid_from : option string) (superseded_id : string)
  : W S (option string) :=
  if bool_decide (superseded_id = ""%string) then wret None else
  found <-- find_memory_document superseded_id false;
  match found with
  | None => wret None
  | Some (c, d) =>
      closed_at <-- (if truthy valid_from then wret (or_else valid_from "") else now_fn now);
      updated <-- now_fn now;
      on_docs c (update_one (has_id superseded_id) (fun x =>
        x {{ m_status := Some MEMORY_STATUS_SUPERSEDED }} {{ m_superseded_by := Some new_id }}
          {{ m_valid_to := Some closed_at }} {{ m_updated_at := updated }}));;;
      (if index_enabled cfg then
         wtry (index_delete_memory me cfg superseded_id)
           (on_docs c (update_one (has_id superseded_id) (fun x =>
              x {{ m_retrieval ::= fun r =>
                     r {{ r_embedding_status := Some EMBEDDING_STATUS_DELETE_PENDING }} }})))
           wret
       else wret tt);;;
      wret (Some superseded_id)
  end.

(** ** Deletion *)

Inductive delete_status := Deleted | Partial.

Record delete_result := mkDelete {
  dr_status : delete_status;
  dr_vector_deleted : option bool;
  dr_reconciliation_required : bool;
  dr_already_deleted : bool
}.

(** The removal of the canonical row, once its point is gone. *)
Definition remove_row (c : collection) (memory_id : string) : W S delete_result := fun w =>
  if existsb (has_id memory_id) (docs_of c w)
  then (on_docs c (delete_one (has_id memory_id));;;
        wret (mkDelete Deleted (Some (index_enabled cfg)) false false)) w
  else (Raise (MemoryNotFound memory_id), w).

Definition delete_memory (memory_id : string) : W S delete_result :=
  found <-- find_memory_document memory_id true;
  match found with
  | None =>
      t <-- deletion_tombstone_by_memory_id memory_id;
      match t with
      | Some _ => wret (mkDelete Deleted None false true)
      | None => wraise (MemoryNotFound memory_id)
      end
  | Some (c, d) =>
      if bool_decide (memory_status d = MEMORY_STATUS_DELETED)
      then wret (mkDelete Partial (Some false) true true)
      else
        store_deletion_tombstone d;;;
        if index_enabled cfg then
          wtry (index_delete_memory me cfg memory_id)
            (deleted_at <-- now_fn now;
             updated <-- now_fn now;
             on_docs c (update_one (has_id memory_id) (fun x =>
               x {{ m_status := Some MEMORY_STATUS_DELETED }} {{ m_deleted_at := Some deleted_at }}
                 {{ m_updated_at := updated }}
                 {{ m_retrieval ::= fun r =>
                      r {{ r_embedding_status := Some EMBEDDING_STATUS_DELETE_PENDING }} }}));;;
             wret (mkDelete Partial (Some false) true false))
            (fun _ => remove_row c memory_id)
        else remove_row c memory_id
  end.
End Service.
