(* ===== verification/MemoryReconciliation.v ===== *)
(** * Memory reconciliation ([src/backend/memory/app/services/memory_reconciliation.py])

    The bounded pass that closes divergence between the canonical memory store and the
    vector index, and what its documentation promises of it: bounded, idempotent and
    tenant-safe.  The documents of a pass are read once at its start.  Metrics and log
    lines are left out. *)

From Stdlib Require Import QArith.
From stdpp Require Import base list strings gmap.
From S2P Require Import Prelude MemoryIndex MemoryService.

Local Open Scope Z_scope.

Inductive drift_class :=
  | MissingVector | StaleVector | TombstoneVector | OrphanVector | DuplicateVector.

#[export] Instance drift_class_eq_dec : EqDecision drift_class.
Proof. solve_decision. Defined.

Inductive run_status := Success | PartialRun | Skipped.

Record report := mkReport {
  rp_status : run_status;
  rp_scanned : Z;
  rp_drift : drift_class -> Z;
  rp_repaired : Z;
  rp_failed : Z;
  rp_unresolved : list string;
  rp_next_cursor : option string;
  rp_truncated : bool;
  rp_index_enabled : bool
}.

#[export] Instance eta_report : Eta report := fun x =>
  mkReport (rp_status x) (rp_scanned x) (rp_drift x) (rp_repaired x) (rp_failed x)
    (rp_unresolved x) (rp_next_cursor x) (rp_truncated x) (rp_index_enabled x).

Definition empty_report (enabled : bool) : report :=
  mkReport Success 0 (fun _ => 0) 0 0 [] None false enabled.

(** [report["drift"][c] += 1]. *)
Definition count_drift (c : drift_class) (r : report) : report :=
  r {{ rp_drift ::= fun f c' => if bool_decide (c = c') then f c' + 1 else f c' }}.

Definition count_failed (unresolved : list string) (r : report) : report :=
  r {{ rp_failed ::= fun n => n + 1 }} {{ rp_unresolved ::= fun l => l ++ unresolved }}.

Definition count_repaired (r : report) : report := r {{ rp_repaired ::= fun n => n + 1 }}.

(** [sorted(set(l))]. *)
Definition sorted_set (l : list string) : list string := py_sorted String.leb (remove_dups l).

Section Reconciliation.
Context {S : Type} {VS : VectorStore S}.
Context (me : option AuthIdentity) (cfg : mem_settings).
Context (uuid5 : string -> string) (now : nat -> string).
Context (isspace : Z -> bool) (rpc : nat -> text -> option (list Q)).

(** ** Canonical side *)

Definition repair_missing_vector (d : MemDoc) (c : drift_class) (rep : report) : W S report :=
  let rep := count_drift c rep in
  wtry (v <-- embed_memory cfg isspace rpc (m_text d); upsert_memory me cfg uuid5 d v)
    (wret (count_failed [m_id d] rep))
    (fun pid => mark_indexed me cfg now d pid;;; wret (count_repaired rep)).

Definition repair_tombstone (d : MemDoc) (deleted_ids : list string) (rep : report) : W S report :=
  let rep := count_drift TombstoneVector rep in
  wtry (index_delete_memory me cfg (m_id d))
    (wret (count_failed [m_id d] rep))
    (fun _ =>
       on_docs (collection_for (m_memory_class d))
         (if bool_decide (memory_status d = MEMORY_STATUS_DELETED) ||
             bool_decide (m_id d ∈ deleted_ids)
          then delete_one (has_id me (m_id d))
          else update_one (has_id me (m_id d)) (fun x =>
                 x {{ m_retrieval ::= fun r =>
                        r {{ r_embedding_status := Some EMBEDDING_STATUS_DISABLED }}
                          {{ r_qdrant_point_id := None }} }}));;;
       wret (count_repaired rep)).

(** What one document needs, by the ladder of [_reconcile_document]. *)
Inductive work := NoWork | Tombstone_ | Missing (c : drift_class).

Definition work_of (deleted_ids : list string) (d : MemDoc) : work :=
  if bool_decide (m_id d ∈ deleted_ids) then Tombstone_
  else if bool_decide (memory_status d = MEMORY_STATUS_DELETED)
       || bool_decide (memory_status d = MEMORY_STATUS_SUPERSEDED) || truthy (m_valid_to d)
  then if bool_decide (embedding_status d = Some EMBEDDING_STATUS_DELETE_PENDING)
          || (bool_decide (memory_status d = MEMORY_STATUS_DELETED) &&
              negb (bool_decide (embedding_status d = Some EMBEDDING_STATUS_DISABLED)))
       then Tombstone_ else NoWork
  else if bool_decide (embedding_status d = Some EMBEDDING_STATUS_PENDING)
       || bool_decide (embedding_status d = Some EMBEDDING_STATUS_FAILED)
  then Missing MissingVector
  else match r_indexed_revision (m_retrieval d) with
       | Some r => if r =? revision d then NoWork else Missing StaleVector
       | None => NoWork
       end.

(** [_reconcile_document]: whether the document needed work, and the new report. *)
Definition reconcile_document (d : MemDoc) (deleted_ids : list string) (rep : report)
  : W S (bool * report) :=
  match work_of deleted_ids d with
  | NoWork => wret (false, rep)
  | Tombstone_ => rep <-- repair_tombstone d deleted_ids rep; wret (true, rep)
  | Missing c => rep <-- repair_missing_vector d c rep; wret (true, rep)
  end.

(** The document loop, with [budget] attempts left. *)
Fixpoint reconcile_documents (ds : list MemDoc) (budget : Z) (deleted_ids : list string)
  (rep : report) : W S report :=
  match ds with
  | [] => wret rep
  | d :: ds =>
      if budget <=? 0 then wret (rep {{ rp_truncated := true }})
      else
        r <-- reconcile_document d deleted_ids rep;
        reconcile_documents ds (if r.1 : bool then budget - 1 else budget) deleted_ids r.2
  end.

(** ** Index side *)

Definition delete_stray (c : drift_class) (pid memory_id : string) (rep : report) : W S report :=
  let rep := count_drift c rep in
  if bool_decide (pid = ""%string) then wret rep
  else wtry (delete_point me cfg pid)
         (wret (count_failed [if bool_decide (memory_id = ""%string) then pid else memory_id] rep))
         (fun _ => wret (count_repaired rep)).

Definition canonical_point_id (memory_id : string) : option string :=
  match me with
  | Some i => if bool_decide (memory_id = ""%string) then None
              else Some (point_id uuid5 (id_tenant i) (id_user i) memory_id)
  | None => None
  end.

(** What one scanned point is, given the memory ids seen on this page. *)
Definition stray_class (known seen : list string) (pid memory_id : string) : option drift_class :=
  if negb (bool_decide (memory_id = ""%string)) && negb (bool_decide (memory_id ∈ known))
  then Some OrphanVector
  else if bool_decide (memory_id ∈ seen)
       || match canonical_point_id memory_id with
          | Some c => negb (bool_decide (pid = ""%string)) && negb (bool_decide (pid = c))
          | None => false
          end
  then Some DuplicateVector
  else None.

Fixpoint reconcile_points (known seen : list string) (ps : list (string * payload)) (rep : report)
  : W S report :=
  match ps with
  | [] => wret rep
  | (pid, p) :: ps =>
      let memory_id := default "" (pl_memory_id p) in
      match stray_class known seen pid memory_id with
      | Some c =>
          rep <-- delete_stray c pid memory_id rep;
          reconcile_points known seen ps rep
      | None =>
          reconcile_points known
            (if bool_decide (memory_id = ""%string) then seen else memory_id :: seen) ps rep
      end
  end.

Definition reconcile_index_points (known : list string) (batch : Z) (cursor : option string)
    (rep : report) : W S (option string * report) :=
  wtry (scroll_points me cfg batch cursor)
    (wret (None, rep {{ rp_failed ::= fun n => n + 1 }}))
    (fun page => rep <-- reconcile_points known [] page.1 rep; wret (page.2, rep)).

(** ** The pass *)

Definition batch_of (limit : option Z) : Z :=
  Z.max 1 (match limit with
           | Some n => if n =? 0 then reconciliation_batch_limit cfg else n
           | None => reconciliation_batch_limit cfg
           end).

Definition reconcile (limit : option Z) (cursor : option string) : W S report :=
  let batch := batch_of limit in
  let rep := empty_report (index_enabled cfg) in
  if negb (index_enabled cfg) then wret (rep {{ rp_status := Skipped }})
  else
    documents <-- all_memory_documents me true;
    let rep := rep {{ rp_scanned := zlen documents }} in
    let known := map m_id documents in
    deleted_ids <-- deletion_tombstone_ids me known;
    rep <-- reconcile_documents documents batch deleted_ids rep;
    rep <-- (if reconciliation_scan_orphans cfg then
               r <-- reconcile_index_points known batch cursor rep;
               wret (r.2 {{ rp_next_cursor := r.1 }})
             else wret rep);
    let rep := rep {{ rp_unresolved ::= sorted_set }} in
    wret (if 0 <? rp_failed rep then rep {{ rp_status := PartialRun }} else rep).

(** [drift_report]: identifiers and status of the rows that owe reconciliation. *)
Definition drift_report : W S (list (string * string)) :=
  documents <-- all_memory_documents me true;
  wret (map (fun d => (m_id d, memory_status d))
    (List.filter (fun d => bool_decide (embedding_status d ∈
       [Some EMBEDDING_STATUS_PENDING; Some EMBEDDING_STATUS_FAILED;
        Some EMBEDDING_STATUS_DELETE_PENDING])) documents)).
End Reconciliation.
