(* ===== verification/MemorySafety.v ===== *)
(** * Safety of memory reconciliation and deletion

    Tenant isolation, boundedness, convergence and non-resurrection of the pass of
    [MemoryReconciliation], the contract of [delete_memory], and the two ways in which a
    pass makes no progress.  [wkeeps P c] says that the program [c] preserves [P] whether
    it returns or raises; it is compositional. *)

From Stdlib Require Import QArith Ascii.
From stdpp Require Import base list strings gmap.
From S2P Require Import Prelude MemoryIndex MemoryService MemoryReconciliation.

Local Open Scope Z_scope.

Create HintDb wkeeps.

(** ** Preservation *)

(** What the properties speak about: the rows, the deletion identities and the points. *)
Record view := mkView {
  v_episodic : list MemDoc; v_semantic : list MemDoc; v_tombs : list Tombstone;
  v_points : gmap string payload
}.

Definition view_of {S} `{VectorStore S} (w : mem_world S) : view :=
  mkView (episodic w) (semantic w) (tombstones w) (q_points (index w)).

#[export] Instance eta_view : Eta view := fun x => 
  mkView (v_episodic x) (v_semantic x) (v_tombs x) (v_points x).

Definition wkeeps {S} `{VectorStore S} {A} (P : view -> Prop) (c : W S A) : Prop :=
  forall w, P (view_of w) -> P (view_of (c w).2).

Definition v_rows (c : collection) (v : view) : list MemDoc :=
  match c with Episodic => v_episodic v | Semantic => v_semantic v end.

Definition set_rows (c : collection) (f : list MemDoc -> list MemDoc) (v : view) : view :=
  match c with Episodic => v {{ v_episodic ::= f }} | Semantic => v {{ v_semantic ::= f }} end.

Section Keeps.
Context {S : Type} `{VL : VectorStoreLaws S} (P : view -> Prop).

Lemma wkeeps_ret {A} (a : A) : wkeeps P (wret a).
Proof. by intros w. Qed.

Lemma wkeeps_raise {A} e : wkeeps P (wraise (A := A) e).
Proof. by intros w. Qed.

Lemma wkeeps_gets {A} (f : mem_world S -> A) : wkeeps P (wgets f).
Proof. by intros w. Qed.

Lemma wkeeps_guard b e : wkeeps P (wguard b e).
Proof. intros w. by destruct b. Qed.

Lemma wkeeps_bind {A B} (c : W S A) (k : A -> W S B) :
  wkeeps P c -> (forall a, wkeeps P (k a)) -> wkeeps P (wbind c k).
Proof.
  intros Hc Hk w Hw. unfold wbind. specialize (Hc w Hw). destruct (c w) as [[a|e] w']; [|done].
  by apply Hk.
Qed.

Lemma wkeeps_bind_ret {A B} (a : A) (k : A -> W S B) : wkeeps P (k a) -> wkeeps P (wbind (wret a) k).
Proof. done. Qed.

Lemma wkeeps_bind_raise {A B} e (k : A -> W S B) : wkeeps P (wbind (wraise e) k).
Proof. by intros w. Qed.

Lemma wkeeps_try {A B} (c : W S A) (h : W S B) (k : A -> W S B) :
  wkeeps P c -> wkeeps P h -> (forall a, wkeeps P (k a)) -> wkeeps P (wtry c h k).
Proof.
  intros Hc Hh Hk w Hw. unfold wtry. specialize (Hc w Hw).
  destruct (c w) as [[a|[]] w']; cbn in *; [by apply Hk|by apply Hh|by apply Hh|done].
Qed.

Lemma wkeeps_now now : wkeeps P (now_fn now).
Proof. by intros w. Qed.

Lemma wkeeps_embed cfg isspace rpc t : wkeeps P (embed_memory cfg isspace rpc t).
Proof. intros w Hw. unfold embed_memory. repeat case_match; exact Hw. Qed.

Lemma wkeeps_identity me : wkeeps P (require_identity me).
Proof. intros w. by destruct me. Qed.

Lemma view_index (w : mem_world S) s :
  q_points s = q_points (index w) -> view_of (w {{ index := s }}) = view_of w.
Proof. intros E. unfold view_of. cbn. by rewrite E. Qed.

Lemma wkeeps_ensure cfg : wkeeps P (ensure_collection cfg).
Proof.
  intros w Hw. unfold ensure_collection. destruct (_ || _); [done|].
  pose proof (ensure_points (index w)) as E. destruct (q_ensure (index w)) as [[] s]; cbn in *.
  - unfold view_of in *. cbn. by rewrite E.
  - by rewrite view_index.
Qed.

Lemma wkeeps_request f q :
  (forall s, q_points (q s).2 = q_points s \/ q_points (q s).2 = f (q_points s)) ->
  (forall v, P v -> P (v {{ v_points ::= f }})) -> wkeeps P (request (S := S) q).
Proof.
  intros Hf HP w Hw. unfold request. specialize (Hf (index w)).
  destruct (q (index w)) as [b s]. cbn in *. destruct Hf as [E|E]; [by rewrite view_index|].
  specialize (HP _ Hw). unfold view_of in *. cbn in *. by rewrite E.
Qed.

Lemma wkeeps_docs c f : (forall v, P v -> P (set_rows c f v)) -> wkeeps P (on_docs (S := S) c f).
Proof. intros HP w Hw. apply HP in Hw. destruct c; exact Hw. Qed.
End Keeps.

#[export] Hint Resolve wkeeps_ret wkeeps_raise wkeeps_gets wkeeps_guard wkeeps_bind wkeeps_try
  wkeeps_now wkeeps_embed wkeeps_identity wkeeps_ensure : wkeeps.

Ltac wkeeps_auto :=
  intros;
  repeat (match goal with
  | |- wkeeps _ (wbind (wret _) _) => apply wkeeps_bind_ret
  | |- wkeeps _ (wbind (wraise _) _) => apply wkeeps_bind_raise
  | |- wkeeps _ (wbind _ _) => apply wkeeps_bind; [|intros ?]
  | |- wkeeps _ (wtry _ _ _) => apply wkeeps_try; [| |intros ?]
  | |- wkeeps _ (if ?b then _ else _) => destruct b eqn:?
  | |- wkeeps _ (match ?x with _ => _ end) => destruct x eqn:?
  | |- wkeeps _ _ => solve [auto with wkeeps nocore]
  end).

Section IndexKeeps.
Context {S : Type} `{VL : VectorStoreLaws S} (P : view -> Prop).
Context (me : option AuthIdentity) (cfg : mem_settings) (uuid5 : string -> string).

Lemma wkeeps_scroll limit off : wkeeps P (scroll_points (S := S) me cfg limit off).
Proof using VL.
  unfold scroll_points. wkeeps_auto. intros w Hw.
  pose proof (scroll_points_same limit off (id_tenant a0) (id_user a0) (index w)) as E.
  destruct (q_scroll _ _ _ _ _) as [r s]. cbn in *. by rewrite view_index.
Qed.

Lemma wkeeps_upsert d v :
  (forall i x, me = Some i ->  P x ->
     P (x {{ v_points ::= <[point_id uuid5 (id_tenant i) (id_user i) (m_id d) := memory_payload i d]> }})) ->
  wkeeps P (upsert_memory (S := S) me cfg uuid5 d v).
Proof using VL.
  intros HP. unfold upsert_memory, require_identity. destruct me as [i|]; wkeeps_auto.
  eapply wkeeps_request; [intros s; apply put_any|]. intros x. by apply HP.
Qed.

Lemma wkeeps_index_delete m :
  (forall i x, me = Some i -> P x ->
     P (x {{ v_points ::= filter (fun y => ~ selects (ByFilter m (id_tenant i) (id_user i)) y) }})) ->
  wkeeps P (index_delete_memory (S := S) me cfg m).
Proof using VL.
  intros HP. unfold index_delete_memory, require_identity. destruct me as [i|]; wkeeps_auto.
  eapply wkeeps_request; [intros s; apply delete_any|]. intros x. by apply HP.
Qed.

Lemma wkeeps_delete_point pid :
  (forall x, P x -> P (x {{ v_points ::= filter (fun y => ~ selects (ByPoint pid) y) }})) ->
  wkeeps P (delete_point (S := S) me cfg pid).
Proof using VL.
  intros HP. unfold delete_point. wkeeps_auto.
  eapply wkeeps_request; [intros s; apply delete_any|]. intros x. by apply HP.
Qed.
End IndexKeeps.

(** ** Preservation by a pass *)

Definition rows_of {S} (w : mem_world S) : list MemDoc := episodic w ++ semantic w.

Definition my_rows {S} (me : option AuthIdentity) (w : mem_world S) : list MemDoc :=
  List.filter (mine me) (episodic w) ++ List.filter (mine me) (semantic w).

(** The deletion identities a pass reads. *)
Definition deleted_of {S} (me : option AuthIdentity) (w : mem_world S) : list string :=
  map tb_memory_id (List.filter (fun t => tomb_mine me t &&
    bool_decide (tb_memory_id t ∈ List.filter (fun i => negb (bool_decide (i = ""%string)))
                                    (map m_id (my_rows me w)))) (tombstones w)).

(** The points of a page that are deleted. *)
Fixpoint strays (me : option AuthIdentity) (uuid5 : string -> string) (known seen : list string)
  (ps : list (string * payload)) : list (string * payload) :=
  match ps with
  | [] => []
  | (pid, p) :: ps =>
      let memory_id := default "" (pl_memory_id p) in
      match stray_class me uuid5 known seen pid memory_id with
      | Some _ => (pid, p) :: strays me uuid5 known seen ps
      | None => strays me uuid5 known
                  (if bool_decide (memory_id = ""%string) then seen else memory_id :: seen) ps
      end
  end.

(** An update that leaves the identity and ownership of a row alone. *)
Definition benign (f : MemDoc -> MemDoc) : Prop :=
  forall x, m_id (f x) = m_id x /\ m_tenant (f x) = m_tenant x /\ m_user (f x) = m_user x.

Section Pass.
Context {S : Type} `{VL : VectorStoreLaws S} (P : view -> Prop).
Context (me : option AuthIdentity) (cfg : mem_settings) (uuid5 : string -> string).
Context (now : nat -> string) (isspace : Z -> bool) (rpc : nat -> text -> option (list Q)).

(** What [P] must survive for the repair of one document. *)
Record keeps_doc (deleted : list string) (d : MemDoc) : Prop := {
  kd_upsert i x c : me = Some i -> work_of deleted d = Missing c -> P x ->
    P (x {{ v_points ::= <[point_id uuid5 (id_tenant i) (id_user i) (m_id d) := memory_payload i d]> }});
  kd_delete i x : me = Some i -> work_of deleted d = Tombstone_ -> P x ->
    P (x {{ v_points ::= filter (fun y => ~ selects (ByFilter (m_id d) (id_tenant i) (id_user i)) y) }});
  kd_update c f x : benign f -> work_of deleted d <> NoWork -> P x ->
    P (set_rows c (update_one (has_id me (m_id d)) f) x);
  kd_remove c x : work_of deleted d = Tombstone_ -> P x ->
    P (set_rows c (delete_one (has_id me (m_id d))) x)
}.

Lemma wkeeps_mark d pid :
  (forall c f x, benign f -> P x -> P (set_rows c (update_one (has_id me (m_id d)) f) x)) ->
  wkeeps P (mark_indexed (S := S) me cfg now d pid).
Proof using VL.
  intros HP. unfold mark_indexed, persist_retrieval_state. wkeeps_auto.
  apply wkeeps_docs. intros v. by apply HP.
Qed.

Lemma wkeeps_document deleted d rep :
  keeps_doc deleted d -> wkeeps P (reconcile_document (S := S) me cfg uuid5 now isspace rpc d deleted rep).
Proof using VL.
  intros [Hu Hd Hup Hrm]. unfold reconcile_document. destruct (work_of deleted d) eqn:E; wkeeps_auto.
  - unfold repair_tombstone. wkeeps_auto.
    + apply wkeeps_index_delete. intros. by apply Hd.
    + apply wkeeps_docs. intros v Hv. destruct (_ || _); [by apply Hrm|by apply Hup].
  - unfold repair_missing_vector. wkeeps_auto.
    + apply wkeeps_upsert. intros. by eapply Hu.
    + apply wkeeps_mark. intros. by apply Hup.
Qed.

Lemma wkeeps_documents ds budget deleted rep :
  Forall (keeps_doc deleted) ds ->
  wkeeps P (reconcile_documents (S := S) me cfg uuid5 now isspace rpc ds budget deleted rep).
Proof using VL.
  intros Hds. revert budget rep. induction Hds as [|d ds Hd _ IH]; intros budget rep; cbn; wkeeps_auto.
  by apply wkeeps_document.
Qed.

Definition keeps_point (x : string * payload) : Prop :=
  forall v, P v -> P (v {{ v_points ::= filter (fun y => ~ selects (ByPoint x.1) y) }}).

Lemma wkeeps_points known seen ps rep :
  Forall keeps_point (strays me uuid5 known seen ps) ->
  wkeeps P (reconcile_points (S := S) me cfg uuid5 known seen ps rep).
Proof using VL.
  revert seen rep. induction ps as [|[pid p] ps IH]; intros seen rep; cbn; [intros _; wkeeps_auto|].
  destruct (stray_class _ _ _ _ _) eqn:E; [|by apply IH].
  intros [Hp Hps]%Forall_cons. unfold delete_stray. wkeeps_auto; auto.
  by apply wkeeps_delete_point.
Qed.

(** The facts a page of the scroll comes with. *)
Definition page_of (i : AuthIdentity) (v : view) (ps : list (string * payload)) : Prop :=
  NoDup ps.*1 /\ Forall (fun x => x.1 <> ""%string) ps /\
  Forall (fun x => v_points v !! x.1 = Some x.2 /\ owned_by (id_tenant i) (id_user i) x.2) ps.

Lemma scroll_page limit off w ps next w' :
  scroll_points me cfg limit off w = (Ok (ps, next), w') ->
  exists i, me = Some i /\ page_of i (view_of w') ps /\ zlen ps <= Z.max 0 limit /\
    (off = None -> next = None -> forall id p, v_points (view_of w') !! id = Some p ->
       owned_by (id_tenant i) (id_user i) p -> (id, p) ∈ ps).
Proof using VL.
  unfold scroll_points, require_identity, wbind. destruct (wguard _ _ w) as [[]]; [|done].
  destruct me as [i|]; [|done]. cbn. destruct (ensure_collection cfg _) as [[] w1]; [|done].
  pose proof (scroll_points_same limit off (id_tenant i) (id_user i) (index w1)) as E.
  pose proof (scroll_sound limit off (id_tenant i) (id_user i) (index w1)) as Hs.
  pose proof (scroll_all limit (id_tenant i) (id_user i) (index w1)) as Ha.
  destruct (q_scroll limit off _ _ _) as [[[ps' next']|] s] eqn:Eq; intros [= <- <- <-].
  destruct (Hs _ _ eq_refl) as (Hn & Hl & Hf). cbn in *. exists i. unfold page_of. cbn. rewrite E.
  split_and!; try done.
  { eapply Forall_impl; [exact Hf|]. intros [pid p] [Hp _] Ep. cbn in *. subst. by rewrite points_named in Hp. }
  intros -> ->. rewrite Eq in Ha. by apply Ha.
Qed.

Lemma reconcile_keeps limit cursor w :
  P (view_of w) -> Forall (keeps_doc (deleted_of me w)) (my_rows me w) ->
  (forall i v ps, me = Some i -> P v -> page_of i v ps ->
     Forall keeps_point (strays me uuid5 (map m_id (my_rows me w)) [] ps)) ->
  P (view_of (reconcile me cfg uuid5 now isspace rpc limit cursor w).2).
Proof using VL.
  intros Hw Hd Hp. unfold reconcile. destruct (negb _); [done|].
  change (?f (view_of ((wbind (all_memory_documents me true) ?k) w).2))
    with (f (view_of (k (my_rows me w) w).2)). cbv beta.
  set (known := map m_id (my_rows me w)) in *.
  change (?f (view_of ((wbind (deletion_tombstone_ids me known) ?k) w).2))
    with (f (view_of (k (deleted_of me w) w).2)). cbv beta.
  match goal with |- P (view_of (?c w).2) => cut (wkeeps P c); [by auto|] end.
  apply wkeeps_bind; [by apply wkeeps_documents|intros rep]. wkeeps_auto.
  unfold reconcile_index_points. intros w1 Hw1. unfold wtry.
  pose proof (wkeeps_scroll P me cfg (batch_of cfg limit) cursor w1 Hw1) as Hw2.
  destruct (scroll_points _ _ _ _ w1) as [[[ps next]|[]] w2] eqn:E; cbn in Hw2; try done.
  destruct (scroll_page _ _ _ _ _ _ E) as (i & Hi & Hpage & _).
  specialize (Hp i _ ps Hi Hw2 Hpage). fold known in Hp.
  match goal with |- P (view_of (?c w2).2) => cut (wkeeps P c); [by auto|] end. wkeeps_auto.
  by apply wkeeps_points.
Qed.
End Pass.

(** ** Collection lemmas *)

Lemma filter_update_one {D} (q p : D -> bool) f l :
  (forall x, p x = true -> q x = false) -> (forall x, p x = true -> q (f x) = false) ->
  List.filter q (update_one p f l) = List.filter q l.
Proof.
  intros H1 H2. induction l as [|x l IH]; cbn; [done|]. destruct (p x) eqn:E; cbn.
  - by rewrite (H1 x E), (H2 x E).
  - by rewrite IH.
Qed.

Lemma filter_delete_one {D} (q p : D -> bool) l :
  (forall x, p x = true -> q x = false) -> List.filter q (delete_one p l) = List.filter q l.
Proof.
  intros H. induction l as [|x l IH]; cbn; [done|]. destruct (p x) eqn:E; cbn.
  - by rewrite H.
  - by rewrite IH.
Qed.

Lemma has_id_mine me m d : has_id me m d = true -> mine me d = true /\ m_id d = m.
Proof. unfold has_id. intros [? ?%bool_decide_eq_true]%andb_true_iff. done. Qed.

Lemma benign_mine me f d : benign f -> mine me (f d) = mine me d.
Proof. intros Hf. destruct (Hf d) as (_ & E1 & E2). unfold mine. by rewrite E1, E2. Qed.

Lemma elem_update_other {D} (p : D -> bool) f l x : p x = false -> x ∈ l -> x ∈ update_one p f l.
Proof.
  intros Hp. induction l as [|y l IH]; cbn; [done|]. intros [->|Hx]%elem_of_cons.
  - rewrite Hp. left.
  - destruct (p y); right; auto.
Qed.

Lemma elem_delete_other {D} (p : D -> bool) l x : p x = false -> x ∈ l -> x ∈ delete_one p l.
Proof.
  intros Hp. induction l as [|y l IH]; cbn; [done|]. intros [->|Hx]%elem_of_cons.
  - rewrite Hp. left.
  - destruct (p y); [done|]. right; auto.
Qed.

Lemma ids_update_one me m f l :
  benign f -> map m_id (List.filter (mine me) (update_one (has_id me m) f l)) =
              map m_id (List.filter (mine me) l).
Proof.
  intros Hf. induction l as [|x l IH]; cbn; [done|]. destruct (has_id me m x) eqn:E; cbn.
  - rewrite (benign_mine me f x) by done. destruct (mine me x); cbn; [|done]. f_equal. apply Hf.
  - destruct (mine me x); cbn; by rewrite IH.
Qed.

Lemma ids_delete_one me m l :
  map m_id (List.filter (mine me) (delete_one (has_id me m) l)) `sublist_of`
  map m_id (List.filter (mine me) l).
Proof.
  induction l as [|x l IH]; cbn; [done|]. destruct (has_id me m x) eqn:E; cbn.
  - apply has_id_mine in E as [-> _]. cbn. by constructor.
  - destruct (mine me x); cbn; by try constructor.
Qed.

(** ** Tenant isolation *)

Definition foreign_points (i : AuthIdentity) (m : gmap string payload) : gmap string payload :=
  filter (fun x => ~ owned_by (id_tenant i) (id_user i) x.2) m.

Definition foreign_view (i : AuthIdentity) (v : view)
  : list MemDoc * list MemDoc * list Tombstone * gmap string payload :=
  (List.filter (fun d => negb (mine (Some i) d)) (v_episodic v),
   List.filter (fun d => negb (mine (Some i) d)) (v_semantic v),
   v_tombs v, foreign_points i (v_points v)).

Lemma foreign_delete i sel m :
  (forall id p, m !! id = Some p -> selects sel (id, p) -> owned_by (id_tenant i) (id_user i) p) ->
  foreign_points i (filter (fun x => ~ selects sel x) m) = foreign_points i m.
Proof.
  intros Hs. apply map_eq. intros id. apply option_eq. intros p. unfold foreign_points.
  rewrite !map_lookup_filter_Some. cbn. naive_solver.
Qed.

Lemma foreign_insert i id p m :
  owned_by (id_tenant i) (id_user i) p -> foreign_points i m !! id = None ->
  foreign_points i (<[id := p]> m) = foreign_points i m.
Proof.
  intros Ho Hn. apply map_eq. intros id'. apply option_eq. intros p'. unfold foreign_points in *.
  rewrite !map_lookup_filter_Some. cbn. destruct (decide (id' = id)) as [->|Hne].
  - rewrite lookup_insert_eq. split; [intros [[= <-] ?]; done|]. intros [Hp Hf].
    apply map_lookup_filter_None in Hn as [Hn|Hn]; [congruence|]. by edestruct Hn.
  - by rewrite lookup_insert_ne.
Qed.

Lemma foreign_rows_update i c m f v :
  benign f -> foreign_view i (set_rows c (update_one (has_id (Some i) m) f) v) = foreign_view i v.
Proof.
  intros Hf.
  assert (H1 : forall x, has_id (Some i) m x = true -> negb (mine (Some i) x) = false)
    by (by intros x [-> _]%has_id_mine).
  assert (H2 : forall x, has_id (Some i) m x = true -> negb (mine (Some i) (f x)) = false)
    by (intros x Hx; rewrite benign_mine by done; auto).
  destruct c; unfold foreign_view; cbn; by rewrite filter_update_one.
Qed.

Lemma foreign_rows_delete i c m v :
  foreign_view i (set_rows c (delete_one (has_id (Some i) m)) v) = foreign_view i v.
Proof.
  assert (H1 : forall x, has_id (Some i) m x = true -> negb (mine (Some i) x) = false)
    by (by intros x [-> _]%has_id_mine).
  destruct c; unfold foreign_view; cbn; by rewrite filter_delete_one.
Qed.

Lemma foreign_view_points i v f :
  foreign_points i (f (v_points v)) = foreign_points i (v_points v) ->
  foreign_view i (v {{ v_points ::= f }}) = foreign_view i v.
Proof. unfold foreign_view. cbn. by intros ->. Qed.

Lemma strays_sub me uuid5 known seen ps x : x ∈ strays me uuid5 known seen ps -> x ∈ ps.
Proof.
  revert seen. induction ps as [|[pid p] ps IH]; intros seen; cbn; [done|].
  destruct (stray_class _ _ _ _ _).
  - intros [->|Hx]%elem_of_cons; [left|right; eauto].
  - intros Hx. right. eauto.
Qed.

Section Isolation.
Context {S : Type} `{VL : VectorStoreLaws S}.
Context (cfg : mem_settings) (uuid5 : string -> string) (now : nat -> string).
Context (isspace : Z -> bool) (rpc : nat -> text -> option (list Q)).

(** reconciliation is tenant-safe.  Whatever the index and the embedding service
    answer, a pass leaves every row and every point of other tenants and users, and all
    deletion identities, exactly as they were, provided no foreign point sits under one
    of the caller's own point ids. *)
Theorem reconcile_tenant_safe i limit cursor (w : mem_world S) :
  (forall m, foreign_points i (q_points (index w)) !!
               point_id uuid5 (id_tenant i) (id_user i) m = None) ->
  foreign_view i (view_of (reconcile (Some i) cfg uuid5 now isspace rpc limit cursor w).2) =
  foreign_view i (view_of w).
Proof using VL.
  intros Hids. set (P v := foreign_view i v = foreign_view i (view_of w)).
  assert (Hpts : forall v, P v -> foreign_points i (v_points v) = foreign_points i (q_points (index w)))
    by (intros v [=]; done).
  apply (reconcile_keeps P); [done| |].
  - apply Forall_forall. intros d Hd. split; unfold P.
    + intros i' x c [= <-] _ Hx. rewrite foreign_view_points; [done|].
      apply foreign_insert; [done|]. by rewrite (Hpts x).
    + intros i' x [= <-] _ Hx. rewrite foreign_view_points; [done|].
      apply foreign_delete. by intros id p _ [_ Ho].
    + intros c f x Hf _ Hx. by rewrite foreign_rows_update.
    + intros c x _ Hx. by rewrite foreign_rows_delete.
  - intros i' v ps [= <-] Hv (_ & _ & Hps). apply Forall_forall. intros x Hx%strays_sub v' Hv'. unfold P.
    rewrite foreign_view_points; [done|]. apply foreign_delete. cbn. intros id p Hp ->.
    destruct (decide (owned_by (id_tenant i) (id_user i) p)) as [|Hf]; [done|].
    assert (Hin : foreign_points i (v_points v') !! x.1 = Some p) by by apply map_lookup_filter_Some.
    rewrite (Hpts _ Hv'), <-(Hpts _ Hv) in Hin. apply map_lookup_filter_Some in Hin as [Hin _].
    rewrite Forall_forall in Hps. destruct (Hps _ Hx) as [E Ho]. rewrite E in Hin. by simplify_eq.
Qed.
End Isolation.

(** ** Point identifiers *)

Fixpoint no_colon (s : string) : bool :=
  match s with
  | EmptyString => true
  | String c s => negb (Ascii.eqb c ":"%char) && no_colon s
  end.

Lemma colon_split a b r r' :
  no_colon a = true -> no_colon b = true ->
  (a +:+ ":" +:+ r = b +:+ ":" +:+ r')%string -> a = b /\ r = r'.
Proof.
  revert b. induction a as [|x a IH]; intros [|y b]; cbn.
  - intros _ _ E. injection E as E. split; [done|exact E].
  - intros _ [Hy _]%andb_true_iff [= <- _]. by rewrite Ascii.eqb_refl in Hy.
  - intros [Hx _]%andb_true_iff _ [= -> _]. by rewrite Ascii.eqb_refl in Hx.
  - intros [_ Ha]%andb_true_iff [_ Hb]%andb_true_iff [= -> E].
    destruct (IH b Ha Hb E) as [-> ->]. done.
Qed.

Lemma append_assoc (a b c : string) : ((a +:+ b) +:+ c = a +:+ (b +:+ c))%string.
Proof. induction a as [|x a IH]; cbn; [done|]. by apply (f_equal (String x)). Qed.

Lemma point_id_inj uuid5 `{!Inj (=) (=) uuid5} t u t' u' m m' :
  no_colon t = true -> no_colon u = true -> no_colon t' = true -> no_colon u' = true ->
  point_id uuid5 t u m = point_id uuid5 t' u' m' -> t = t' /\ u = u' /\ m = m'.
Proof.
  intros Ht Hu Ht' Hu' E%(inj uuid5). cbn in E. injection E as E.
  apply colon_split in E as [-> E]; [|done..]. by apply colon_split in E as [-> ->].
Qed.

Lemma point_id_inj_memory uuid5 `{!Inj (=) (=) uuid5} t u m m' :
  point_id uuid5 t u m = point_id uuid5 t u m' -> m = m'.
Proof.
  intros E%(inj uuid5). cbn in E. injection E as E.
  by apply (inj (String.append t)), (inj (String.append ":")), (inj (String.append u)),
    (inj (String.append ":")) in E.
Qed.

(** the deterministic point id separates tenants, users and memories as long as
    tenant and user ids hold no colon; a tenant id that holds one can collide with another
    tenant's point: the id of memory [v:m] of user [u] in tenant [t] is the id of memory
    [m] of user [v] in tenant [t:u]. *)
Theorem point_id_separates uuid5 :
  (forall t u m t' u' m', Inj (=) (=) uuid5 ->
     no_colon t = true -> no_colon u = true -> no_colon t' = true -> no_colon u' = true ->
     (t, u, m) <> (t', u', m') -> point_id uuid5 t u m <> point_id uuid5 t' u' m') /\
  (forall t u v m : string,
     point_id uuid5 t u (v +:+ ":" +:+ m)%string = point_id uuid5 (t +:+ ":" +:+ u)%string v m).
Proof.
  split.
  - intros t u m t' u' m' ? Ht Hu Ht' Hu' Hne E. apply Hne.
    apply point_id_inj in E as (-> & -> & ->); done.
  - intros t u v m. unfold point_id. by rewrite !append_assoc.
Qed.

(** ** Non-resurrection *)

Lemma elem_filter_In {D} (q : D -> bool) l x : x ∈ List.filter q l <-> x ∈ l /\ q x = true.
Proof. rewrite !list_elem_of_In. apply List.filter_In. Qed.

Lemma deleted_of_elem {S} me (w : mem_world S) m :
  m ∈ deleted_of me w <->
  m <> ""%string /\ m ∈ map m_id (my_rows me w) /\ existsb (tomb_has_id me m) (tombstones w) = true.
Proof.
  unfold deleted_of. rewrite list_elem_of_fmap. split.
  - intros (t & -> & [Ht [Hm Hw]%andb_true_iff]%elem_filter_In).
    apply bool_decide_eq_true, elem_filter_In in Hw as [Hk Hne].
    rewrite negb_true_iff, bool_decide_eq_false in Hne. split_and!; [done..|].
    apply List.existsb_exists. exists t. split; [by apply list_elem_of_In|].
    unfold tomb_has_id. by rewrite Hm, bool_decide_true.
  - intros (Hne & Hk & (t & Hin & Ht)%List.existsb_exists).
    apply andb_true_iff in Ht as [Hm Hid]. apply bool_decide_eq_true in Hid as <-.
    exists t. split; [done|].
    apply elem_filter_In. split; [by apply list_elem_of_In|]. rewrite Hm. cbn.
    apply bool_decide_eq_true, elem_filter_In. split; [done|]. by rewrite bool_decide_false.
Qed.

Lemma work_deleted deleted d : m_id d ∈ deleted -> work_of deleted d = Tombstone_.
Proof. intros H. unfold work_of. by rewrite bool_decide_true. Qed.

Section Resurrection.
Context {S : Type} `{VL : VectorStoreLaws S}.
Context (cfg : mem_settings) (uuid5 : string -> string) (now : nat -> string).
Context (isspace : Z -> bool) (rpc : nat -> text -> option (list Q)).

(** a deleted fact is not resurrected.  While a memory id has a durable deletion
    identity, a pass adds no point for it to the index, even when its row was left
    unmarked and asks for indexing; and the identity itself survives the pass. *)
Theorem reconcile_no_resurrection me limit cursor (w : mem_world S) m :
  m <> ""%string -> existsb (tomb_has_id me m) (tombstones w) = true ->
  let w' := (reconcile me cfg uuid5 now isspace rpc limit cursor w).2 in
  tombstones w' = tombstones w /\
  forall id p, q_points (index w') !! id = Some p -> pl_memory_id p = Some m ->
    q_points (index w) !! id = Some p.
Proof using VL.
  intros Hne Ht. set (P v := v_tombs v = tombstones w /\
    forall id p, v_points v !! id = Some p -> pl_memory_id p = Some m ->
      q_points (index w) !! id = Some p).
  cut (P (view_of (reconcile me cfg uuid5 now isspace rpc limit cursor w).2)); [done|].
  assert (Hdel : forall sel x, P x -> P (x {{ v_points ::= filter (fun y => ~ selects sel y) }})).
  { intros sel x [H1 H2]. split; [done|]. cbn. intros id p [Hp _]%map_lookup_filter_Some. auto. }
  apply (reconcile_keeps P); [done| |].
  - apply Forall_forall. intros d Hd. split; [|by auto|intros []; cbn; by intros ? ? _ _ []
      |intros []; cbn; by intros ? _ []].
    intros i x c _ Hwork [H1 H2]. split; [done|]. cbn. intros id p Hp Hm.
    apply lookup_insert_Some in Hp as [[_ <-]|[_ Hp]]; [|eauto]. cbn in Hm. simplify_eq.
    rewrite work_deleted in Hwork; [done|]. apply deleted_of_elem. split_and!; try done.
    by apply list_elem_of_fmap_2.
  - intros i v ps _ Hv _. apply Forall_forall. intros y _ v' Hv'. by apply Hdel.
Qed.
End Resurrection.

(** ** Rows of the caller *)

Definition v_mine (me : option AuthIdentity) (v : view) : list MemDoc :=
  List.filter (mine me) (v_episodic v) ++ List.filter (mine me) (v_semantic v).

Definition v_ids (me : option AuthIdentity) (v : view) : list string := map m_id (v_mine me v).

(** Each collection holds the class that is stored in it. *)
Definition rows_sorted (me : option AuthIdentity) (v : view) : Prop :=
  forall c x, x ∈ v_rows c v -> mine me x = true ->
    m_memory_class x = match c with Episodic => "episodic"%string | Semantic => "semantic_preference"%string end.

Lemma elem_v_mine me v x : x ∈ v_mine me v <-> exists c, x ∈ v_rows c v /\ mine me x = true.
Proof.
  unfold v_mine. rewrite elem_of_app, !elem_filter_In. split.
  - intros [H|H]; [exists Episodic|exists Semantic]; done.
  - intros [[] H]; [by left|by right].
Qed.

Lemma v_rows_set c c' f v :
  v_rows c' (set_rows c f v) = if bool_decide (c = c') then f (v_rows c' v) else v_rows c' v.
Proof. by destruct c, c'. Qed.

Lemma ids_inj me v x y :
  NoDup (v_ids me v) -> x ∈ v_mine me v -> y ∈ v_mine me v -> m_id x = m_id y -> x = y.
Proof.
  unfold v_ids. induction (v_mine me v) as [|z l IH]; cbn; [by intros _ ?%elem_of_nil|].
  intros [Hz Hl]%NoDup_cons [->|Hx]%elem_of_cons [->|Hy]%elem_of_cons E; auto.
  - destruct Hz. rewrite E. by apply list_elem_of_fmap_2.
  - destruct Hz. rewrite <-E. by apply list_elem_of_fmap_2.
Qed.

Lemma v_ids_update me c m f v :
  benign f -> v_ids me (set_rows c (update_one (has_id me m) f) v) = v_ids me v.
Proof.
  intros Hf. unfold v_ids, v_mine.
  destruct c; cbn [set_rows]; rewrite !map_app; f_equal; by apply ids_update_one.
Qed.

Lemma v_ids_delete me c m v :
  v_ids me (set_rows c (delete_one (has_id me m)) v) `sublist_of` v_ids me v.
Proof.
  unfold v_ids, v_mine.
  destruct c; cbn [set_rows]; rewrite !map_app; apply sublist_app; try done; apply ids_delete_one.
Qed.

Lemma elem_mine_other me c m f v x :
  m_id x <> m -> x ∈ v_mine me v ->
  x ∈ v_mine me (set_rows c (update_one (has_id me m) f) v) /\
  x ∈ v_mine me (set_rows c (delete_one (has_id me m)) v).
Proof.
  intros Hne (c' & Hx & Hm)%elem_v_mine.
  assert (Hf : has_id me m x = false) by (unfold has_id; rewrite bool_decide_false by done; apply andb_false_r).
  split; apply elem_v_mine; exists c'; rewrite v_rows_set; case_bool_decide;
    auto using elem_update_other, elem_delete_other.
Qed.

(** With unique ids, an update or a removal touches exactly the row it names. *)
Lemma elem_update_inv me m f l x :
  NoDup (map m_id (List.filter (mine me) l)) -> x ∈ update_one (has_id me m) f l ->
  (x ∈ l /\ has_id me m x = false) \/ exists y, y ∈ l /\ has_id me m y = true /\ x = f y.
Proof.
  induction l as [|y l IH]; cbn; [by intros _ ?%elem_of_nil|].
  destruct (has_id me m y) eqn:E.
  - pose proof (has_id_mine _ _ _ E) as [Hy Hm]. rewrite Hy. cbn.
    intros [Hn _]%NoDup_cons [->|Hx]%elem_of_cons.
    + right. exists y. by split_and!; [left|..].
    + left. split; [by right|]. destruct (has_id me m x) eqn:Ex; [|done].
      apply has_id_mine in Ex as [Hmx Hidx]. destruct Hn. rewrite Hm, <-Hidx.
      apply list_elem_of_fmap_2, elem_filter_In. done.
  - intros Hnd [->|Hx]%elem_of_cons; [left; split; [left|done]|].
    destruct IH as [[? ?]|(z & ? & ? & ?)]; [|done| |].
    + destruct (mine me y); [by apply NoDup_cons in Hnd as [_ ?]|done].
    + left. split; [by right|done].
    + right. exists z. by split_and!; [right|..].
Qed.

Lemma elem_delete_inv me m l x :
  NoDup (map m_id (List.filter (mine me) l)) -> x ∈ delete_one (has_id me m) l ->
  x ∈ l /\ has_id me m x = false.
Proof.
  induction l as [|y l IH]; cbn; [by intros _ ?%elem_of_nil|].
  destruct (has_id me m y) eqn:E.
  - pose proof (has_id_mine _ _ _ E) as [Hy Hm]. rewrite Hy. cbn. intros [Hn _]%NoDup_cons Hx.
    split; [by right|]. destruct (has_id me m x) eqn:Ex; [|done].
    apply has_id_mine in Ex as [Hmx Hidx]. destruct Hn. rewrite Hm, <-Hidx.
    apply list_elem_of_fmap_2, elem_filter_In. done.
  - intros Hnd [->|Hx]%elem_of_cons; [split; [left|done]|].
    destruct IH; [|done|split; [by right|done]].
    destruct (mine me y); [by apply NoDup_cons in Hnd as [_ ?]|done].
Qed.

Lemma nodup_rows me c v : NoDup (v_ids me v) -> NoDup (map m_id (List.filter (mine me) (v_rows c v))).
Proof.
  unfold v_ids, v_mine. rewrite map_app. intros (H1 & _ & H2)%NoDup_app. by destruct c.
Qed.

Lemma has_id_false me m x : mine me x = true -> has_id me m x = false -> m_id x <> m.
Proof. unfold has_id. intros -> ?%bool_decide_eq_false. done. Qed.

(** [d] is the row that operations on its id in its own collection find. *)
Definition located (me : option AuthIdentity) (c : collection) (d : MemDoc) (v : view) : Prop :=
  NoDup (v_ids me v) /\ d ∈ v_rows c v /\ mine me d = true.

Lemma located_only me c d v y :
  located me c d v -> y ∈ v_mine me v -> m_id y = m_id d -> y = d.
Proof.
  intros (Hnd & Hd & Hm) Hy E. eapply ids_inj; eauto. apply elem_v_mine. eauto.
Qed.

Lemma located_collection me c c' d v x :
  located me c d v -> x ∈ v_rows c' v -> mine me x = true -> m_id x = m_id d -> c' = c.
Proof.
  intros (Hnd & Hd & Hmd) Hx Hmx E. unfold v_ids, v_mine in Hnd. rewrite map_app in Hnd.
  apply NoDup_app in Hnd as (_ & Hnd & _).
  assert (Hin : forall y l, y ∈ l -> mine me y = true -> m_id y ∈ map m_id (List.filter (mine me) l))
    by (intros; by apply list_elem_of_fmap_2, elem_filter_In).
  destruct c, c'; try done; exfalso; cbn in *.
  - apply (Hnd (m_id d)); [by apply Hin|]. rewrite <-E. by apply Hin.
  - apply (Hnd (m_id d)); [|by apply Hin]. rewrite <-E. by apply Hin.
Qed.

Lemma mine_update me c d f v x :
  located me c d v ->
  x ∈ v_mine me (set_rows c (update_one (has_id me (m_id d)) f) v) ->
  x = f d \/ (x ∈ v_mine me v /\ m_id x <> m_id d).
Proof.
  intros Hl (c' & Hx & Hm)%elem_v_mine. rewrite v_rows_set in Hx. case_bool_decide as Ec.
  - subst c'. apply elem_update_inv in Hx as [[Hx Hi]|(y & Hy & Hi & ->)].
    + right. split; [apply elem_v_mine; eauto|by eapply has_id_false].
    + left. f_equal. apply has_id_mine in Hi as [Hmy Hid].
      eapply located_only; eauto. apply elem_v_mine. eauto.
    + apply nodup_rows, Hl.
  - right. split; [apply elem_v_mine; eauto|]. intros E. apply Ec. symmetry.
    by eapply located_collection.
Qed.

Lemma mine_delete me c d v x :
  located me c d v ->
  x ∈ v_mine me (set_rows c (delete_one (has_id me (m_id d))) v) ->
  x ∈ v_mine me v /\ m_id x <> m_id d.
Proof.
  intros Hl (c' & Hx & Hm)%elem_v_mine. rewrite v_rows_set in Hx. case_bool_decide as Ec.
  - subst c'. apply elem_delete_inv in Hx as [Hx Hi]; [|apply nodup_rows, Hl].
    split; [apply elem_v_mine; eauto|by eapply has_id_false].
  - split; [apply elem_v_mine; eauto|]. intros E. apply Ec. symmetry. by eapply located_collection.
Qed.

(** ** A concrete pass *)

Definition mdemo_me : AuthIdentity := mkIdentity "t" "u" ROLE_USER None.
Definition mdemo_cfg : mem_settings := mkMemSettings true 1 "memory_items_v2" "e5" 4000 [] 100 true.

Definition mdemo_doc (id tenant cls : string) (txt : text) (status emb : string) (irev : option Z)
  : MemDoc :=
  mkMemDoc id "o" "user" cls txt (Some status) None None (Some 1) None None "2024" None None None None
    (mkRetrieval (Some emb) None None None None None irev) (Some tenant) (Some "u"%string).

Definition mdemo_point (m tenant : string) : payload :=
  mkPayload None None (Some m) None [] "active" 1 None false (Some tenant) (Some "u"%string) None.

(** [a] asks for its vector, [b] was deleted but its row and point survive, [s] is
    superseded and its point still has to go; point [zz] is an orphan, [x9] foreign. *)
Definition mdemo_world : mem_world (gmap string payload) :=
  mkMemWorld
    [mdemo_doc "a" "t" "episodic" [104] "active" "pending" None;
     mdemo_doc "b" "t" "episodic" [105] "active" "indexed" (Some 1);
     mdemo_doc "f" "t2" "episodic" [106] "active" "pending" None]
    [mdemo_doc "s" "t" "semantic_preference" [107] "superseded" "delete_pending" (Some 1)]
    [mkTombstone "b" "o" "user" "episodic" None None None "" "2024" 1 (Some "t"%string) (Some "u"%string)]
    (<["memory:t:u:b"%string := mdemo_point "b" "t"]> (<["memory:t:u:s"%string := mdemo_point "s" "t"]>
     (<["zz"%string := mdemo_point "gone" "t"]> {["x9"%string := mdemo_point "y" "t2"]})))
    false 0 0.

Abbreviation mdemo_pass me cfg := (reconcile me cfg (fun s => s) (fun _ => "2025"%string)
  (fun c => c =? 32) (fun _ _ => Some [1%Q])).

Lemma reconcile_tenant_safe_witness :
  foreign_view mdemo_me (view_of (mdemo_pass (Some mdemo_me) mdemo_cfg None None mdemo_world).2) =
  foreign_view mdemo_me (view_of mdemo_world).
Proof.
  apply reconcile_tenant_safe. intros m. apply eq_None_not_Some. intros [p Hp].
  apply map_lookup_filter_Some in Hp as [Hp Hf]. cbn in Hp. unfold toy_points in Hp.
  apply lookup_delete_Some in Hp as [_ Hp].
  repeat (apply lookup_insert_Some in Hp as [[_ <-]|[_ Hp]]; [by apply Hf|]).
  by apply lookup_singleton_Some in Hp as [[=] _].
Defined.

Lemma reconcile_no_resurrection_witness :
  tombstones (mdemo_pass (Some mdemo_me) mdemo_cfg None None mdemo_world).2 = tombstones mdemo_world.
Proof.
  apply (reconcile_no_resurrection mdemo_cfg (fun s => s) (fun _ => "2025"%string) (fun c => c =? 32)
    (fun _ _ => Some [1%Q]) (Some mdemo_me) None None mdemo_world "b"%string); [done|reflexivity].
Defined.

Lemma point_id_separates_witness :
  point_id (fun s => s) "t" "u" "m" <> point_id (fun s => s) "t2" "u" "m".
Proof. apply point_id_separates; try done. apply _. Defined.
