(* ===== verification/MemoryConvergence.v ===== *)
(** * Progress of memory reconciliation

    What a pass achieves: it is bounded and never raises, a complete pass leaves rows and
    points in agreement, and a pass that finds nothing to do changes nothing.  And what it does
    not: a superseded row whose point outlived a crash keeps it, and rows that can never be
    embedded use up every pass. *)

From Stdlib Require Import QArith Ascii.
From stdpp Require Import base list strings gmap.
From S2P Require Import Prelude MemoryIndex MemoryService MemoryReconciliation MemorySafety.

Local Open Scope Z_scope.

(** ** Pages *)

Abbreviation memory_of p := (default ""%string (pl_memory_id p)).

(** A point that belongs where it is: unnamed, or the canonical point of a known row. *)
Definition proper_point (uuid5 : string -> string) (i : AuthIdentity) (known : list string)
    (x : string * payload) : Prop :=
  memory_of x.2 = ""%string \/
  (memory_of x.2 ∈ known /\ x.1 = point_id uuid5 (id_tenant i) (id_user i) (memory_of x.2)).

Section Page.
Context (uuid5 : string -> string) (i : AuthIdentity) (known : list string).

Lemma stray_class_proper seen x :
  x.1 <> ""%string -> memory_of x.2 ∉ seen ->
  stray_class (Some i) uuid5 known seen x.1 (memory_of x.2) = None <-> proper_point uuid5 i known x.
Proof.
  intros Hp Hs. unfold stray_class, proper_point, canonical_point_id.
  rewrite (bool_decide_false (x.1 = _)) by done. rewrite (bool_decide_false (_ ∈ seen)) by done.
  repeat case_bool_decide; cbn; split; intros; try done; naive_solver.
Qed.

(** Only proper points enter [seen], so a proper point is never taken for a duplicate:
    two proper points of one memory have the same id. *)
Lemma strays_proper seen ps :
  NoDup ps.*1 -> Forall (fun x => x.1 <> ""%string) ps ->
  Forall (fun x => proper_point uuid5 i known x -> memory_of x.2 ∉ seen) ps ->
  forall x, x ∈ ps -> x ∈ strays (Some i) uuid5 known seen ps <-> ~ proper_point uuid5 i known x.
Proof.
  revert seen. induction ps as [|y ps IH]; intros seen; [by intros _ _ _ ? ?%elem_of_nil|].
  cbn [fmap list_fmap]. intros [Hy Hnd]%NoDup_cons [Hne Hnes]%Forall_cons [Hs Hss]%Forall_cons x Hx.
  assert (Hnot : forall known' seen', y ∉ strays (Some i) uuid5 known' seen' ps).
  { intros known' seen' Hin%strays_sub. apply Hy. by apply list_elem_of_fmap_2. }
  destruct y as [pid p]. cbn [strays].
  destruct (decide (proper_point uuid5 i known (pid, p))) as [Hpr|Hpr].
  - pose proof (proj2 (stray_class_proper seen (pid, p) Hne (Hs Hpr)) Hpr) as Ecl.
    cbn [fst snd] in Ecl. rewrite Ecl.
    assert (Hss' : Forall (fun x => proper_point uuid5 i known x -> memory_of x.2 ∉
        (if bool_decide (memory_of p = ""%string) then seen else memory_of p :: seen)) ps).
    { apply Forall_forall. intros z Hz Hzp. rewrite Forall_forall in Hss. specialize (Hss z Hz Hzp).
      case_bool_decide as He; [done|]. apply not_elem_of_cons. split; [|done]. intros E.
      destruct Hpr as [?|[_ E1]]; [done|]. destruct Hzp as [?|[_ E2]]; [cbn in *; congruence|].
      apply Hy. cbn in *. rewrite E1, <-E, <-E2. by apply list_elem_of_fmap_2. }
    apply elem_of_cons in Hx as [->|Hx]; [|by apply IH].
    split; [intros Hin; by apply Hnot in Hin|by intros []].
  - destruct (stray_class (Some i) uuid5 known seen pid (memory_of p)) eqn:E.
    + apply elem_of_cons in Hx as [->|Hx].
      * split; [done|]. intros _. left.
      * rewrite elem_of_cons, <-(IH seen) by done. split; [intros [->|]; [|done]|by right].
        destruct Hy. by apply list_elem_of_fmap_2.
    + destruct Hpr. destruct (decide (memory_of p ∈ seen)) as [Hin|Hin].
      * exfalso. unfold stray_class in E. rewrite (bool_decide_true (_ ∈ seen)) in E by done.
        by destruct (_ && _) in E.
      * by apply (stray_class_proper seen (pid, p)) in E.
Qed.
End Page.

(** ** Passes *)

Section Passes.
Context {S : Type} `{VL : VectorStoreLaws S}.
Context (me : option AuthIdentity) (cfg : mem_settings) (uuid5 : string -> string).
Context (now : nat -> string) (isspace : Z -> bool) (rpc : nat -> text -> option (list Q)).

Abbreviation pass := (reconcile (S := S) me cfg uuid5 now isspace rpc).

Fixpoint passes (l : list (option Z * option string)) (w : mem_world S) : mem_world S :=
  match l with
  | [] => w
  | (limit, cursor) :: l => passes l (pass limit cursor w).2
  end.

Lemma passes_keeps (P : view -> Prop) l w :
  (forall limit cursor w, P (view_of w) -> P (view_of (pass limit cursor w).2)) ->
  P (view_of w) -> P (view_of (passes l w)).
Proof using.
  intros HP. revert w. induction l as [|[limit cursor] l IH]; intros w Hw; [done|]. cbn. auto.
Qed.
End Passes.

(** ** A superseded row keeps its point *)

Section Superseded.
Context {S : Type} `{VL : VectorStoreLaws S}.
Context (i : AuthIdentity) (cfg : mem_settings) (uuid5 : string -> string) `{!Inj (=) (=) uuid5}.
Context (now : nat -> string) (isspace : Z -> bool) (rpc : nat -> text -> option (list Q)).
Abbreviation me := (Some i).
Abbreviation canonical d := (point_id uuid5 (id_tenant i) (id_user i) (m_id d)).

(** The row and its point, with unique ids around them and no deletion identity. *)
Record abandoned (c : collection) (d : MemDoc) (p : payload) (v : view) : Prop := {
  ab_located : located me c d v;
  ab_superseded : memory_status d = MEMORY_STATUS_SUPERSEDED;
  ab_indexed : embedding_status d = Some EMBEDDING_STATUS_INDEXED;
  ab_no_tomb : existsb (tomb_has_id me (m_id d)) (v_tombs v) = false;
  ab_point : v_points v !! canonical d = Some p;
  ab_memory : pl_memory_id p = Some (m_id d)
}.

Lemma abandoned_no_work c d p deleted v :
  abandoned c d p v -> m_id d ∉ deleted -> work_of deleted d = NoWork.
Proof.
  intros [_ Hs Hi _ _ _] Hd. unfold work_of. rewrite bool_decide_false by done. by rewrite Hs, Hi.
Qed.

Lemma abandoned_rows c d p c' f v :
  abandoned c d p v -> NoDup (v_ids me (set_rows c' f v)) ->
  (forall l, d ∈ l -> d ∈ f l) -> abandoned c d p (set_rows c' f v).
Proof.
  intros [(Hn & Hd & Hm) ? ? Ht Hp ?] Hnd Hf. split; try done; try (by destruct c').
  split_and!; [done| |done]. rewrite v_rows_set. case_bool_decide; auto.
Qed.

Lemma abandoned_points c d p f v :
  abandoned c d p v -> f (v_points v) !! canonical d = Some p ->
  abandoned c d p (v {{ v_points ::= f }}).
Proof. by intros [? ? ? ? ? ?] Hf; split. Qed.

Lemma abandoned_pass c d p limit cursor (w : mem_world S) :
  abandoned c d p (view_of w) ->
  abandoned c d p (view_of (reconcile me cfg uuid5 now isspace rpc limit cursor w).2).
Proof using VL Inj0.
  intros Hw. pose proof Hw as [Hloc _ _ Ht _ _].
  assert (Hnd : m_id d ∉ deleted_of me w) by (intros (_ & _ & E)%deleted_of_elem; cbn in *; congruence).
  assert (Hother : forall d', d' ∈ my_rows me w -> work_of (deleted_of me w) d' <> NoWork ->
            m_id d <> m_id d').
  { intros d' Hd' Hwk E. apply Hwk. rewrite (located_only _ _ _ _ d' Hloc); [|done..].
    by eapply abandoned_no_work. }
  apply (reconcile_keeps (abandoned c d p)); [done| |].
  - apply Forall_forall. intros d' Hd'. specialize (Hother d' Hd'). split.
    + intros i' x c' [= <-] Hwk Hx. apply abandoned_points; [done|].
      rewrite lookup_insert_ne; [apply Hx|]. intros E%point_id_inj_memory; [|done].
      by apply Hother; [rewrite Hwk|].
    + intros i' x [= <-] Hwk Hx. apply abandoned_points; [done|]. apply map_lookup_filter_Some.
      destruct Hx as [_ _ _ _ Hp Hm]. split; [done|]. cbn. rewrite Hm. intros [[= E] _].
      by apply Hother; [rewrite Hwk|].
    + intros c' f x Hf Hwk Hx. apply abandoned_rows; [done|rewrite v_ids_update; [apply Hx|done]|].
      intros l. apply elem_update_other. unfold has_id. rewrite bool_decide_false by auto.
      apply andb_false_r.
    + intros c' x Hwk Hx. apply abandoned_rows; [done|eapply sublist_NoDup; [apply Hx|apply v_ids_delete]|].
      intros l. apply elem_delete_other. unfold has_id.
      rewrite bool_decide_false by (apply Hother; by rewrite Hwk). apply andb_false_r.
  - intros i' v ps [= <-] Hv (Hn & Hne & Hps). apply Forall_forall. intros x Hx v' Hv'.
    apply abandoned_points; [done|]. apply map_lookup_filter_Some. split; [apply Hv'|].
    cbn. intros E. pose proof (strays_sub _ _ _ _ _ _ Hx) as Hin.
    apply strays_proper in Hx; [|done|done|by apply Forall_forall; intros ? _ _; apply not_elem_of_nil|done].
    rewrite Forall_forall in Hps. destruct (Hps x Hin) as [Hpt _]. rewrite <-E, (ab_point _ _ _ _ Hv) in Hpt.
    injection Hpt as Hpt. destruct Hv as [_ _ _ _ _ Hm]. apply Hx. right. rewrite <-Hpt, Hm, <-E.
    split; [|done]. apply (list_elem_of_fmap_2 m_id _ d). destruct Hloc as (_ & Hd & Hmd).
    apply (elem_v_mine me (view_of w)). eauto.
Qed.

(** a superseded memory whose index deletion was cut short by a crash (the row is
    superseded but still marked as indexed, and its point is still there) is never
    repaired: however many passes run, the row and the point stay as they are. *)
Theorem superseded_vector_survives c d p l (w : mem_world S) :
  abandoned c d p (view_of w) ->
  abandoned c d p (view_of (passes me cfg uuid5 now isspace rpc l w)).
Proof using VL Inj0. apply passes_keeps. intros. by apply abandoned_pass. Qed.
End Superseded.

(** ** Rows that can never be embedded *)

Section Blocked.
Context {S : Type} `{VL : VectorStoreLaws S}.
Context (me : option AuthIdentity) (cfg : mem_settings) (uuid5 : string -> string).
Context (now : nat -> string) (isspace : Z -> bool) (rpc : nat -> text -> option (list Q)).

(** A row that asks for a vector and has no text to embed. *)
Definition unembeddable (deleted : list string) (d : MemDoc) : Prop :=
  (exists c, work_of deleted d = Missing c) /\ strip isspace (m_text d) = [].

Lemma blocked_documents bad rest deleted rep (w : mem_world S) :
  Forall (unembeddable deleted) bad ->
  (reconcile_documents me cfg uuid5 now isspace rpc (bad ++ rest) (zlen bad) deleted rep w).2 = w.
Proof using.
  intros Hb. revert rep. induction Hb as [|d bad [[c Hc] Ht] _ IH]; intros rep.
  - by destruct rest.
  - rewrite zlen_cons. cbn [app reconcile_documents].
    destruct (Z.leb_spec (1 + zlen bad) 0); [pose proof (zlen_nonneg bad); lia|].
    unfold reconcile_document, repair_missing_vector, embed_memory, bounded_text, wbind, wtry.
    rewrite Hc, Ht. cbn. replace (1 + zlen bad - 1) with (zlen bad) by lia. apply IH.
Qed.

(** head-of-line blocking: when as many rows as one pass may attempt come first and
    have no text to embed, every pass spends its whole budget on them; no row after them
    is ever repaired, whatever it needs and however many passes run. *)
Theorem blocked_head_starves bad rest l (w : mem_world S) :
  my_rows me w = bad ++ rest -> Forall (unembeddable (deleted_of me w)) bad ->
  Forall (fun x => batch_of cfg x.1 = zlen bad) l ->
  let w' := passes me cfg uuid5 now isspace rpc l w in
  episodic w' = episodic w /\ semantic w' = semantic w /\ tombstones w' = tombstones w.
Proof using VL.
  intros Hr Hb. revert w Hr Hb. induction l as [|[limit cursor] l IH]; intros w Hr Hb Hl; [done|].
  apply Forall_cons in Hl as [Hlim Hl]. cbn in Hlim |- *.
  set (w1 := (reconcile me cfg uuid5 now isspace rpc limit cursor w).2).
  assert (H1 : episodic w1 = episodic w /\ semantic w1 = semantic w /\ tombstones w1 = tombstones w).
  { set (P v := v_episodic v = episodic w /\ v_semantic v = semantic w /\ v_tombs v = tombstones w).
    cut (P (view_of w1)); [done|]. subst w1. unfold reconcile. destruct (negb _); [done|].
    change (wbind (all_memory_documents me true) ?k w) with (k (my_rows me w) w). cbv beta zeta.
    change (wbind (deletion_tombstone_ids me _) ?k w) with (k (deleted_of me w) w). cbv beta.
    rewrite Hr, Hlim. unfold wbind at 1.
    pose proof (blocked_documents bad rest (deleted_of me w)
      ((empty_report (index_enabled cfg)) {{ rp_scanned := zlen (bad ++ rest) }}) w Hb) as E.
    destruct (reconcile_documents _ _ _ _ _ _ _ _ _ _ w) as [[rep|e] w2]; cbn in E; subst w2; [|done].
    match goal with |- P (view_of (?c w).2) => cut (wkeeps P c); [intros Hk; by apply Hk|] end.
    wkeeps_auto. unfold reconcile_index_points. wkeeps_auto.
    - apply wkeeps_scroll.
    - apply wkeeps_points, Forall_forall. intros x _ v. done. }
  destruct H1 as (E1 & E2 & E3).
  assert (Em : my_rows me w1 = my_rows me w) by (unfold my_rows; by rewrite E1, E2).
  assert (Ed : deleted_of me w1 = deleted_of me w) by (unfold deleted_of; by rewrite Em, E3).
  rewrite <-E1, <-E2, <-E3. apply (IH w1); [by rewrite Em|by rewrite Ed|done].
Qed.
End Blocked.

(** ** Results of the clients *)

(** [c] returns with [Q], or raises one of the two exceptions the pass catches. *)
Definition attempts {S A} (c : W S A) (w : mem_world S) (Q : A -> mem_world S -> Prop) : Prop :=
  match c w with
  | (Ok a, w') => Q a w'
  | (Raise (MemoryNotFound _), _) => False
  | (Raise _, _) => True
  end.

Lemma attempts_bind {S A B} (c : W S A) (k : A -> W S B) w Q R :
  attempts c w Q -> (forall a w', Q a w' -> attempts (k a) w' R) -> attempts (wbind c k) w R.
Proof.
  unfold attempts, wbind. intros Hc Hk. destruct (c w) as [[a|[]] w']; try done. by apply Hk.
Qed.

Lemma attempts_guard {S} b e (w : mem_world S) (Q : unit -> mem_world S -> Prop) :
  match e with MemoryNotFound _ => False | _ => True end -> Q tt w -> attempts (wguard b e) w Q.
Proof. by destruct b, e. Qed.

Lemma attempts_try {S A B} (c : W S A) (r : B) (k : A -> W S B) w Q :
  attempts c w Q ->
  (exists w', wtry c (wret r) k w = (Ok r, w')) \/
  exists a w', Q a w' /\ wtry c (wret r) k w = k a w'.
Proof.
  unfold attempts, wtry. intros Hc. destruct (c w) as [[a|[]] w']; try done; [right|left|left]; eauto.
Qed.

Section Specs.
Context {S : Type} `{VL : VectorStoreLaws S}.
Context (me : option AuthIdentity) (cfg : mem_settings) (uuid5 : string -> string).
Context (now : nat -> string) (isspace : Z -> bool) (rpc : nat -> text -> option (list Q)).

Lemma embed_attempts t (w : mem_world S) :
  attempts (embed_memory cfg isspace rpc t) w (fun _ w' => view_of w' = view_of w).
Proof using. unfold attempts, embed_memory, bounded_text. repeat case_match; by simplify_eq. Qed.

Lemma ensure_attempts (w : mem_world S) :
  attempts (ensure_collection cfg) w (fun _ w' => view_of w' = view_of w).
Proof using VL.
  unfold attempts, ensure_collection. destruct (_ || _); [done|].
  pose proof (ensure_points (index w)) as E. destruct (q_ensure (index w)) as [[] s]; cbn in *; [|done].
  unfold view_of. cbn. by rewrite E.
Qed.

Lemma request_attempts f q (w : mem_world S) :
  (forall s, (q s).1 = true -> q_points (q s).2 = f (q_points s)) ->
  attempts (request q) w (fun _ w' => view_of w' = (view_of w) {{ v_points ::= f }}).
Proof using.
  intros Hf. unfold attempts, request. specialize (Hf (index w)).
  destruct (q (index w)) as [[] s]; cbn in *; [|done]. unfold view_of. cbn. by rewrite Hf.
Qed.

(** The checks every index operation starts with. *)
Lemma guarded_attempts {A} e (k : AuthIdentity -> W S A) (w : mem_world S) R :
  (forall i w', me = Some i -> view_of w' = view_of w -> attempts (k i) w' R) ->
  attempts (wguard (index_enabled cfg) (MemoryVectorIndexError e);;;
            i <-- require_identity me; ensure_collection cfg;;; k i) w R.
Proof using VL.
  intros Hk. eapply (attempts_bind _ _ _ (fun _ w' => w' = w)); [by apply attempts_guard|].
  intros ? ? ->. unfold require_identity. destruct me as [i|]; [|done].
  eapply (attempts_bind _ _ _ (fun a w' => a = i /\ w' = w)); [done|]. intros ? ? [-> ->].
  eapply attempts_bind; [apply ensure_attempts|]. intros ? w' E. by apply Hk.
Qed.

Lemma upsert_attempts d v (w : mem_world S) :
  attempts (upsert_memory me cfg uuid5 d v) w (fun pid w' => exists i, me = Some i /\
    pid = point_id uuid5 (id_tenant i) (id_user i) (m_id d) /\
    view_of w' = (view_of w) {{ v_points ::= <[pid := memory_payload i d]> }}).
Proof using VL.
  unfold upsert_memory. eapply (attempts_bind _ _ _ (fun _ w' => w' = w)); [by apply attempts_guard|].
  intros ? ? ->. eapply (attempts_bind _ _ _ (fun _ w' => w' = w)); [by apply attempts_guard|].
  intros ? ? ->. unfold require_identity. destruct me as [i|]; [|done].
  eapply (attempts_bind _ _ _ (fun a w' => a = i /\ w' = w)); [done|]. intros ? ? [-> ->].
  eapply attempts_bind; [apply ensure_attempts|]. intros ? w1 E1.
  eapply attempts_bind; [apply request_attempts; intros s; apply put_done|]. intros ? w2 E2.
  unfold attempts. cbn. exists i. split_and!; [done..|]. by rewrite E2, E1.
Qed.

Lemma index_delete_attempts m (w : mem_world S) :
  attempts (index_delete_memory me cfg m) w (fun _ w' => exists i, me = Some i /\ view_of w' =
    (view_of w) {{ v_points ::= filter (fun y => ~ selects (ByFilter m (id_tenant i) (id_user i)) y) }}).
Proof using VL.
  apply guarded_attempts. intros i w' Hi E.
  pose proof (request_attempts _ (q_delete (ByFilter m (id_tenant i) (id_user i))) w'
    (fun s => delete_done _ s)) as H1.
  unfold attempts in *. destruct (request _ w') as [[a|[]] w2]; try done. exists i. by rewrite H1, E.
Qed.

Lemma delete_point_attempts pid (w : mem_world S) :
  attempts (delete_point me cfg pid) w (fun _ w' => view_of w' =
    (view_of w) {{ v_points ::= filter (fun y => ~ selects (ByPoint pid) y) }}).
Proof using VL.
  apply guarded_attempts. intros i w' Hi E. rewrite <-E.
  apply request_attempts. intros s. apply delete_done.
Qed.

Lemma scroll_attempts limit off (w : mem_world S) :
  attempts (scroll_points me cfg limit off) w (fun _ w' => view_of w' = view_of w).
Proof using VL.
  apply guarded_attempts. intros i w' Hi E. unfold attempts.
  pose proof (scroll_points_same limit off (id_tenant i) (id_user i) (index w')) as Es.
  destruct (q_scroll _ _ _ _ _) as [[|] s]; [|done]. cbn in Es. by rewrite view_index.
Qed.
End Specs.

(** ** Reports *)

Definition acted (r : report) : Z := rp_repaired r + rp_failed r.

Definition drift_total (r : report) : Z :=
  rp_drift r MissingVector + rp_drift r StaleVector + rp_drift r TombstoneVector +
  rp_drift r OrphanVector + rp_drift r DuplicateVector.

(** From [r] to [r'] at most [n] repairs were attempted. *)
Record within (n : Z) (r r' : report) : Prop := {
  wi_failed : rp_failed r <= rp_failed r';
  wi_acted : acted r' <= acted r + n;
  wi_drift : drift_total r' <= drift_total r + n
}.

Lemma within_refl n r : 0 <= n -> within n r r.
Proof. split; lia. Qed.

Lemma within_trans n m r r1 r2 : within n r r1 -> within m r1 r2 -> within (n + m) r r2.
Proof. intros [] []. split; lia. Qed.

Lemma drift_count c r : drift_total (count_drift c r) = drift_total r + 1.
Proof. unfold drift_total. cbn. destruct c; repeat case_bool_decide; try congruence; lia. Qed.

Lemma within_count c r r' :
  rp_failed r' = rp_failed (count_drift c r) + 1 /\ rp_repaired r' = rp_repaired r \/
  rp_failed r' = rp_failed r /\ rp_repaired r' <= rp_repaired r + 1 ->
  rp_drift r' = rp_drift (count_drift c r) -> within 1 r r'.
Proof.
  intros H E. pose proof (drift_count c r) as Hd. unfold drift_total in Hd. rewrite <-E in Hd.
  split; unfold acted, drift_total; cbn in *; lia.
Qed.

Section Documents.
Context {S : Type} `{VL : VectorStoreLaws S}.
Context (me : option AuthIdentity) (cfg : mem_settings) (uuid5 : string -> string).
Context (now : nat -> string) (isspace : Z -> bool) (rpc : nat -> text -> option (list Q)).

Definition indexed (pid synced upd : string) (d x : MemDoc) : MemDoc :=
  x {{ m_retrieval := indexed_state cfg pid synced (revision d) (m_retrieval d) }} {{ m_updated_at := upd }}.

Definition released (x : MemDoc) : MemDoc :=
  x {{ m_retrieval ::= fun r => r {{ r_embedding_status := Some EMBEDDING_STATUS_DISABLED }}
                                  {{ r_qdrant_point_id := None }} }}.

(** What a successful repair of [d] does to the stores. *)
Definition repaired_view (deleted : list string) (d : MemDoc) (v v' : view) : Prop :=
  match work_of deleted d with
  | NoWork => v' = v
  | Tombstone_ => exists i, me = Some i /\ v' =
      set_rows (collection_for (m_memory_class d))
        (if bool_decide (memory_status d = MEMORY_STATUS_DELETED) || bool_decide (m_id d ∈ deleted)
         then delete_one (has_id me (m_id d)) else update_one (has_id me (m_id d)) released)
        (v {{ v_points ::= filter (fun y => ~ selects (ByFilter (m_id d) (id_tenant i) (id_user i)) y) }})
  | Missing _ => exists i synced upd, me = Some i /\
      let pid := point_id uuid5 (id_tenant i) (id_user i) (m_id d) in v' =
      set_rows (if bool_decide (m_memory_class d = "episodic"%string) then Episodic else Semantic)
        (update_one (has_id me (m_id d)) (indexed pid synced upd d))
        (v {{ v_points ::= <[pid := memory_payload i d]> }})
  end.

Lemma view_on_docs c f (w : mem_world S) :
  exists w', on_docs c f w = (Ok tt, w') /\ view_of w' = set_rows c f (view_of w).
Proof using. destruct c; eexists; done. Qed.

(** One document: it always returns, and without a new failure it is repaired. *)
Lemma reconcile_document_spec d deleted rep (w : mem_world S) :
  exists b rep' w', reconcile_document me cfg uuid5 now isspace rpc d deleted rep w = (Ok (b, rep'), w') /\
    (b = false -> rep' = rep) /\ within (if b then 1 else 0) rep rep' /\
    rp_truncated rep' = rp_truncated rep /\
    (rp_failed rep' = rp_failed rep -> repaired_view deleted d (view_of w) (view_of w')).
Proof using VL.
  unfold reconcile_document, repaired_view. destruct (work_of deleted d) as [| |c] eqn:E.
  - exists false, rep, w. split_and!; try done. by apply within_refl.
  - unfold repair_tombstone. unfold wbind at 1.
    match goal with |- context [wtry _ (wret ?r) ?k w] =>
      destruct (attempts_try _ r k w _ (index_delete_attempts me cfg (m_id d) w))
        as [[w1 E1]|(a & w1 & (i & Hi & Hv) & E1)] end.
    + rewrite E1. do 3 eexists. split; [done|]. cbn. split_and!; [done| |done|lia].
      apply (within_count TombstoneVector); [cbn; lia|done].
    + rewrite E1. unfold wbind at 1.
      match goal with |- context [on_docs ?c ?f w1] =>
        destruct (view_on_docs c f w1) as (w2 & -> & Hv2) end.
      do 3 eexists. split; [done|]. cbn. split_and!; [done| |done|].
      * apply (within_count TombstoneVector); [cbn; lia|done].
      * intros _. exists i. split; [done|]. by rewrite Hv2, Hv.
  - unfold repair_missing_vector. unfold wbind at 1.
    assert (Ha : attempts (v <-- embed_memory cfg isspace rpc (m_text d); upsert_memory me cfg uuid5 d v) w
      (fun pid w' => exists i, me = Some i /\ pid = point_id uuid5 (id_tenant i) (id_user i) (m_id d) /\
         view_of w' = (view_of w) {{ v_points ::= <[pid := memory_payload i d]> }})).
    { eapply attempts_bind; [apply embed_attempts|]. intros v w' Hw. cbn in Hw. rewrite <-Hw.
      apply upsert_attempts. }
    match goal with |- context [wtry _ (wret ?r) ?k w] => destruct (attempts_try _ r k w _ Ha)
      as [[w1 E1]|(pid & w1 & (i & Hi & -> & Hv) & E1)] end; rewrite E1.
    + do 3 eexists. split; [done|]. cbn. split_and!; [done| |done|lia].
      apply (within_count c); [cbn; lia|done].
    + unfold wbind at 1, mark_indexed, persist_retrieval_state. unfold wbind, now_fn.
      match goal with |- context [on_docs ?c' ?f ?w'] =>
        destruct (view_on_docs c' f w') as (w2 & -> & Hv2) end.
      do 3 eexists. split; [done|]. cbn. split_and!; [done| |done|].
      * apply (within_count c); [cbn; lia|done].
      * intros _. exists i. do 2 eexists. split; [done|]. rewrite Hv2, <-Hv. done.
Qed.
End Documents.

(** ** The document loop *)

Lemma elem_update_weak {D} (p : D -> bool) f l x :
  x ∈ update_one p f l -> x ∈ l \/ exists y, y ∈ l /\ p y = true /\ x = f y.
Proof.
  induction l as [|y l IH]; cbn; [by intros ?%elem_of_nil|]. destruct (p y) eqn:E.
  - intros [->|Hx]%elem_of_cons; [right; exists y; by split_and!; [left|..]|left; by right].
  - intros [->|Hx]%elem_of_cons; [left; left|].
    destruct (IH Hx) as [?|(z & ? & ? & ?)]; [left; by right|right; exists z; by split_and!; [right|..]].
Qed.

Lemma elem_delete_weak {D} (p : D -> bool) l x : x ∈ delete_one p l -> x ∈ l.
Proof.
  induction l as [|y l IH]; cbn; [done|]. destruct (p y); [by right|].
  intros [->|Hx]%elem_of_cons; [left|right; auto].
Qed.

Section Settling.
Context (i : AuthIdentity) (cfg : mem_settings) (uuid5 : string -> string).
Context (known deleted : list string).
Abbreviation me := (Some i).

(** The stores when the documents [ds] of the pass are still to be visited. *)
Record settled (ds : list MemDoc) (v : view) : Prop := {
  se_sorted : rows_sorted me v;
  se_unique : NoDup (v_ids me v);
  se_known x : x ∈ v_mine me v -> m_id x ∈ known;
  se_todo x : x ∈ ds -> x ∈ v_mine me v;
  se_nodup : NoDup (map m_id ds);
  se_done x : x ∈ v_mine me v -> x ∈ ds \/ work_of deleted x = NoWork;
  se_points id p m : v_points v !! id = Some p -> owned_by (id_tenant i) (id_user i) p ->
    pl_memory_id p = Some m -> m ∈ known -> m ∈ v_ids me v
}.

Lemma settled_located d ds v :
  settled (d :: ds) v -> exists c, located me c d v /\ collection_for (m_memory_class d) = c /\
    (if bool_decide (m_memory_class d = "episodic"%string) then Episodic else Semantic) = c.
Proof.
  intros [Hs Hu _ Ht _ _ _]. destruct (proj1 (elem_v_mine _ _ _) (Ht d ltac:(left))) as (c & Hd & Hm).
  exists c. split; [done|]. rewrite (Hs c d Hd Hm). by destruct c.
Qed.

Lemma settled_points ds v g :
  settled ds v ->
  (forall id p m, g (v_points v) !! id = Some p -> pl_memory_id p = Some m ->
     m ∈ v_ids me v \/ v_points v !! id = Some p) ->
  settled ds (v {{ v_points ::= g }}).
Proof.
  intros [H1 H2 H3 H4 H5 H6 H7] Hg. split; try done. cbn. intros id p m Hp Ho Hm Hk.
  destruct (Hg _ _ _ Hp Hm); [done|]. by eapply H7.
Qed.

Lemma other_row d ds x : NoDup (map m_id (d :: ds)) -> x ∈ ds -> m_id x <> m_id d.
Proof. cbn. intros [Hn _]%NoDup_cons Hx E. apply Hn. rewrite <-E. by apply list_elem_of_fmap_2. Qed.

Lemma settled_update d ds v c f :
  settled (d :: ds) v -> located me c d v -> benign f ->
  (forall x, m_memory_class (f x) = m_memory_class x) -> work_of deleted (f d) = NoWork ->
  settled ds (set_rows c (update_one (has_id me (m_id d)) f) v).
Proof.
  intros [H1 H2 H3 H4 H5 H6 H7] Hl Hf Hcl Hw. split.
  - intros c' x Hx Hm. rewrite v_rows_set in Hx. case_bool_decide; [|by eapply H1].
    apply elem_update_weak in Hx as [Hx|(y & Hy & _ & ->)]; [by eapply H1|].
    rewrite Hcl. apply H1; [done|]. by rewrite benign_mine in Hm.
  - by rewrite v_ids_update.
  - intros x Hx. destruct (mine_update _ _ _ _ _ _ Hl Hx) as [->|[Hx' _]]; [|auto].
    rewrite (proj1 (Hf d)). apply H3, H4. left.
  - intros x Hx. apply elem_mine_other; [by eapply other_row|]. apply H4. by right.
  - cbn in H5. by apply NoDup_cons in H5 as [_ ?].
  - intros x Hx. destruct (mine_update _ _ _ _ _ _ Hl Hx) as [->|[Hx' Hne]]; [by right|].
    destruct (H6 x Hx') as [[->|]%elem_of_cons|]; [done|by left|by right].
  - intros id p m. rewrite v_ids_update by done. destruct c; apply H7.
Qed.

Lemma settled_delete d ds v c :
  settled (d :: ds) v -> located me c d v ->
  (forall id p, v_points v !! id = Some p -> owned_by (id_tenant i) (id_user i) p ->
     pl_memory_id p <> Some (m_id d)) ->
  settled ds (set_rows c (delete_one (has_id me (m_id d))) v).
Proof.
  intros [H1 H2 H3 H4 H5 H6 H7] Hl Hp. split.
  - intros c' x Hx Hm. rewrite v_rows_set in Hx. case_bool_decide; [|by eapply H1].
    apply elem_delete_weak in Hx. by eapply H1.
  - eapply sublist_NoDup; [exact H2|apply v_ids_delete].
  - intros x Hx%mine_delete; [|done]. apply H3, Hx.
  - intros x Hx. apply (elem_mine_other me c (m_id d) id); [by eapply other_row|]. apply H4. by right.
  - cbn in H5. by apply NoDup_cons in H5 as [_ ?].
  - intros x [Hx Hne]%mine_delete; [|done].
    destruct (H6 x Hx) as [[->|]%elem_of_cons|]; [done|by left|by right].
  - intros id p m Hid Ho Hm Hk.
    assert (Hid' : v_points v !! id = Some p) by by destruct c.
    destruct (proj1 (list_elem_of_fmap _ _ _) (H7 _ _ _ Hid' Ho Hm Hk)) as (x & -> & Hx).
    apply list_elem_of_fmap_2. apply (elem_mine_other me c (m_id d) (fun y => y) v x); [|done].
    intros E. rewrite E in Hm. by eapply Hp.
Qed.

(** A row that is closed: deleted, superseded or no longer valid. *)
Definition closed_row (d : MemDoc) : bool :=
  bool_decide (memory_status d = MEMORY_STATUS_DELETED) ||
  bool_decide (memory_status d = MEMORY_STATUS_SUPERSEDED) || truthy (m_valid_to d).

Lemma work_missing_inv d c : work_of deleted d = Missing c -> m_id d ∉ deleted /\ closed_row d = false.
Proof.
  unfold work_of, closed_row. case_bool_decide; [done|]. destruct (_ || _ || _); [|done].
  by destruct (_ || _).
Qed.

Lemma work_indexed pid synced upd d c :
  work_of deleted d = Missing c -> work_of deleted (indexed cfg pid synced upd d d) = NoWork.
Proof.
  intros [Hd Hc]%work_missing_inv. unfold work_of.
  change (m_id (indexed cfg pid synced upd d d)) with (m_id d).
  change (revision (indexed cfg pid synced upd d d)) with (revision d).
  fold (closed_row (indexed cfg pid synced upd d d)).
  change (closed_row (indexed cfg pid synced upd d d)) with (closed_row d).
  rewrite Hc, bool_decide_false by done. cbn. by rewrite Z.eqb_refl.
Qed.

Lemma work_released d :
  work_of deleted d = Tombstone_ -> memory_status d <> MEMORY_STATUS_DELETED -> m_id d ∉ deleted ->
  work_of deleted (released d) = NoWork.
Proof.
  unfold work_of. intros Hw Hs Hd. rewrite bool_decide_false in Hw by done. fold (closed_row d) in Hw.
  change (m_id (released d)) with (m_id d). fold (closed_row (released d)).
  change (closed_row (released d)) with (closed_row d).
  change (memory_status (released d)) with (memory_status d).
  rewrite (bool_decide_false (m_id d ∈ deleted)) by done. destruct (closed_row d).
  - by rewrite (bool_decide_false (memory_status d = _)).
  - repeat case_match; done.
Qed.

Lemma settled_step d ds v v' :
  settled (d :: ds) v -> repaired_view me cfg uuid5 deleted d v v' -> settled ds v'.
Proof.
  intros Hs. pose proof (se_todo _ _ Hs d ltac:(left)) as Hd.
  destruct (settled_located _ _ _ Hs) as (c & Hl & Ec & Ep). unfold repaired_view. rewrite Ec, Ep.
  destruct (work_of deleted d) as [| |cl] eqn:E.
  - intros ->. destruct Hs as [H1 H2 H3 H4 H5 H6 H7]. split; try done.
    + intros x Hx. apply H4. by right.
    + cbn in H5. by apply NoDup_cons in H5 as [_ ?].
    + intros x Hx. destruct (H6 x Hx) as [[->|]%elem_of_cons|]; [by right|by left|by right].
  - intros (i' & [= <-] & ->).
    assert (Hs' := settled_points _ _ (filter (fun y => ~ selects (ByFilter (m_id d) (id_tenant i) (id_user i)) y)) Hs
      ltac:(intros ? ? ? [? _]%map_lookup_filter_Some; by right)).
    destruct (_ || _) eqn:Eb.
    + apply settled_delete; [done|done|]. cbn. intros id p [_ Hn]%map_lookup_filter_Some Ho Hm.
      by apply Hn.
    + apply settled_update; [done|done|done|done|].
      apply orb_false_iff in Eb as [?%bool_decide_eq_false ?%bool_decide_eq_false].
      by apply work_released.
  - intros (i' & synced & upd & [= <-] & ->).
    apply settled_update; [|done|done|done|by eapply work_indexed].
    apply settled_points; [done|]. intros id p m Hp Hm.
    apply lookup_insert_Some in Hp as [[_ <-]|[_ Hp]]; [left|by right].
    cbn in Hm. injection Hm as <-. by apply list_elem_of_fmap_2.
Qed.
End Settling.

(** ** What a pass does to rows and points *)

Section Agreement.
Context (i : AuthIdentity) (uuid5 : string -> string).

(** Neither deleted nor superseded, and still valid. *)
Definition live (d : MemDoc) : Prop :=
  memory_status d <> MEMORY_STATUS_DELETED /\ memory_status d <> MEMORY_STATUS_SUPERSEDED /\
  truthy (m_valid_to d) = false.

Definition own_point (m : string) : string := point_id uuid5 (id_tenant i) (id_user i) m.

(** The point of the memory [m] in the index is [p]. *)
Definition point_of (m : string) (p : payload) (v : view) : Prop :=
  v_points v !! own_point m = Some p /\ owned_by (id_tenant i) (id_user i) p /\ pl_memory_id p = Some m.

(** The index has no point of the memory [m], under any id. *)
Definition pointless (m : string) (v : view) : Prop :=
  forall id p, v_points v !! id = Some p -> owned_by (id_tenant i) (id_user i) p -> pl_memory_id p <> Some m.

(** [d'] is [d] but for its retrieval state and its time of update. *)
Definition same_memory (d d' : MemDoc) : Prop :=
  exists r u, d' = d {{ m_retrieval := r }} {{ m_updated_at := u }}.

(** A live row has its point, with the row's own payload, or it is a row that was left as
    it was, with the point it had.  A row that is no longer live has no point, or it is a
    row that was left as it was, and gained none.  No row is lost, but those of the ids
    [deleted] and with the status deleted. *)
Record advances (deleted : list string) (v v' : view) : Prop := {
  ad_live d : d ∈ v_mine (Some i) v' -> live d ->
    point_of (m_id d) (memory_payload i d) v' \/
    (d ∈ v_mine (Some i) v /\ forall p, point_of (m_id d) p v -> point_of (m_id d) p v');
  ad_closed d : d ∈ v_mine (Some i) v' -> ~ live d ->
    pointless (m_id d) v' \/
    (d ∈ v_mine (Some i) v /\ (pointless (m_id d) v -> pointless (m_id d) v'));
  ad_kept d : d ∈ v_mine (Some i) v -> m_id d ∉ deleted -> memory_status d <> MEMORY_STATUS_DELETED ->
    exists d', d' ∈ v_mine (Some i) v' /\ same_memory d d'
}.

Lemma same_memory_refl d : same_memory d d.
Proof. exists (m_retrieval d), (m_updated_at d). by destruct d. Qed.

Lemma advances_refl deleted v : advances deleted v v.
Proof. split; [by right..|]. intros d Hd _ _. exists d. split; [done|apply same_memory_refl]. Qed.

Lemma advances_trans deleted v v1 v2 : advances deleted v v1 -> advances deleted v1 v2 -> advances deleted v v2.
Proof.
  intros [L1 C1 K1] [L2 C2 K2]. split.
  - intros d Hd Hl. destruct (L2 d Hd Hl) as [?|[H1 Hp]]; [by left|].
    destruct (L1 d H1 Hl) as [?|[H0 Hp0]]; [left; auto|right; auto].
  - intros d Hd Hl. destruct (C2 d Hd Hl) as [?|[H1 Hp]]; [by left|].
    destruct (C1 d H1 Hl) as [?|[H0 Hp0]]; [left; auto|right; auto].
  - intros d Hd Hn Hs. destruct (K1 d Hd Hn Hs) as (d1 & Hd1 & r & u & ->).
    destruct (K2 _ Hd1 Hn Hs) as (d2 & Hd2 & r' & u' & ->).
    eexists. split; [exact Hd2|]. by exists r', u'.
Qed.

Lemma live_closed d : live d <-> closed_row d = false.
Proof.
  unfold live, closed_row. rewrite !orb_false_iff, !bool_decide_eq_false. tauto.
Qed.

(** Only points change, and neither the points of rows nor their absence. *)
Lemma advances_points deleted v g :
  (forall d p, d ∈ v_mine (Some i) v -> live d -> point_of (m_id d) p v ->
     g (v_points v) !! own_point (m_id d) = Some p) ->
  (forall id p, g (v_points v) !! id = Some p -> v_points v !! id = Some p) ->
  advances deleted v (v {{ v_points ::= g }}).
Proof.
  intros Hk Hs. split; cbn.
  - intros d Hd Hl. right. split; [done|]. intros p Hp. pose proof (Hk d p Hd Hl Hp). by destruct Hp.
  - intros d Hd Hl. right. split; [done|]. intros Hn id p Hp. by eapply Hn, Hs.
  - intros d Hd _ _. exists d. split; [done|apply same_memory_refl].
Qed.

Context (cfg : mem_settings) (known deleted : list string).
Context (Hcanon : forall m m', m ∈ known -> m' ∈ known -> own_point m = own_point m' -> m = m').

Lemma mine_updated d v c f :
  located (Some i) c d v -> benign f -> f d ∈ v_mine (Some i) (set_rows c (update_one (has_id (Some i) (m_id d)) f) v).
Proof.
  intros Hl Hf. assert (Hin : m_id d ∈ v_ids (Some i) (set_rows c (update_one (has_id (Some i) (m_id d)) f) v)).
  { rewrite v_ids_update by done. apply list_elem_of_fmap_2, elem_v_mine. exists c. apply Hl. }
  apply list_elem_of_fmap in Hin as (x & E & Hx).
  by destruct (mine_update _ _ _ _ _ _ Hl Hx) as [<-|[_ ?]].
Qed.

(** The kinds of repair: the row is marked, or it goes. *)
Lemma advances_update d v c f g :
  located (Some i) c d v -> benign f -> (forall x, same_memory x (f x)) ->
  (if closed_row d then pointless (m_id d) (v {{ v_points ::= g }})
   else point_of (m_id d) (memory_payload i d) (v {{ v_points ::= g }})) ->
  (forall x p, x ∈ v_mine (Some i) v -> m_id x <> m_id d -> point_of (m_id x) p v ->
     g (v_points v) !! own_point (m_id x) = Some p) ->
  (forall id p, g (v_points v) !! id = Some p -> v_points v !! id = Some p \/ pl_memory_id p = Some (m_id d)) ->
  advances deleted v (set_rows c (update_one (has_id (Some i) (m_id d)) f) (v {{ v_points ::= g }})).
Proof.
  intros Hl Hf Hsame Hd Hk Hs. set (v1 := v {{ v_points ::= g }}).
  set (v2 := set_rows c _ v1).
  assert (Ep : v_points v2 = v_points v1) by by destruct c.
  assert (Hpt : forall m p, point_of m p v2 <-> point_of m p v1) by (unfold point_of; by rewrite Ep).
  assert (Hno : forall m, pointless m v2 <-> pointless m v1) by (unfold pointless; by rewrite Ep).
  assert (Hcl : closed_row (f d) = closed_row d) by (destruct (Hsame d) as (? & ? & ->); done).
  assert (Hpay : memory_payload i (f d) = memory_payload i d) by (destruct (Hsame d) as (? & ? & ->); done).
  assert (Hid : m_id (f d) = m_id d) by apply Hf.
  assert (Hl1 : located (Some i) c d v1) by by destruct c.
  split.
  - intros x Hx Hlx. rewrite Hpt. destruct (mine_update _ _ _ _ _ _ Hl1 Hx) as [->|[Hx' Hne]].
    + left. apply live_closed in Hlx. rewrite Hcl in Hlx. rewrite Hlx in Hd. by rewrite Hid, Hpay.
    + right. split; [done|]. intros p Hp. rewrite Hpt. pose proof (Hk x p Hx' Hne Hp). by destruct Hp.
  - intros x Hx Hlx. rewrite Hno. destruct (mine_update _ _ _ _ _ _ Hl1 Hx) as [->|[Hx' Hne]].
    + left. rewrite live_closed, Hcl in Hlx. apply not_false_is_true in Hlx. rewrite Hlx in Hd. by rewrite Hid.
    + right. split; [done|]. intros Hn id p Hp Ho Hm. destruct (Hs id p Hp) as [Hv|E]; [by eapply Hn|congruence].
  - intros x Hx _ _. destruct (decide (m_id x = m_id d)) as [E|Hne].
    + assert (x = d) as -> by by eapply located_only. exists (f d). split; [by apply mine_updated|apply Hsame].
    + exists x. split; [by apply elem_mine_other|apply same_memory_refl].
Qed.

Lemma advances_delete d v c g :
  located (Some i) c d v -> (m_id d ∈ deleted \/ memory_status d = MEMORY_STATUS_DELETED) ->
  (forall x p, x ∈ v_mine (Some i) v -> m_id x <> m_id d -> point_of (m_id x) p v ->
     g (v_points v) !! own_point (m_id x) = Some p) ->
  (forall id p, g (v_points v) !! id = Some p -> v_points v !! id = Some p) ->
  advances deleted v (set_rows c (delete_one (has_id (Some i) (m_id d))) (v {{ v_points ::= g }})).
Proof.
  intros Hl Hgo Hk Hs. set (v1 := v {{ v_points ::= g }}). set (v2 := set_rows c _ v1).
  assert (Ep : v_points v2 = v_points v1) by by destruct c.
  assert (Hl1 : located (Some i) c d v1) by by destruct c.
  split.
  - intros x Hx Hlx. apply mine_delete in Hx as [Hx Hne]; [|done]. right. split; [done|]. intros p Hp.
    pose proof (Hk x p Hx Hne Hp). unfold point_of. rewrite Ep. by destruct Hp.
  - intros x Hx Hlx. apply mine_delete in Hx as [Hx Hne]; [|done]. right. split; [done|].
    intros Hn id p. rewrite Ep. intros Hp. by eapply Hn, Hs.
  - intros x Hx Hnd Hns. exists x. split; [|apply same_memory_refl].
    apply (elem_mine_other (Some i) c (m_id d) id); [|done]. intros E.
    assert (x = d) as -> by by eapply located_only. by destruct Hgo.
Qed.

Lemma advances_step d ds v v' :
  settled i known deleted (d :: ds) v -> repaired_view (Some i) cfg uuid5 deleted d v v' ->
  advances deleted v v'.
Proof using Hcanon.
  intros Hs. pose proof (se_todo _ _ _ _ _ Hs d ltac:(left)) as Hd.
  destruct (settled_located _ _ _ _ _ _ Hs) as (c & Hl & Ec & Ep). unfold repaired_view. rewrite Ec, Ep.
  destruct (work_of deleted d) as [| |cl] eqn:E.
  - intros ->. apply advances_refl.
  - intros (i' & [= <-] & ->).
    assert (Hk : forall x p, x ∈ v_mine (Some i) v -> m_id x <> m_id d -> point_of (m_id x) p v ->
      filter (fun y => ~ selects (ByFilter (m_id d) (id_tenant i) (id_user i)) y) (v_points v)
        !! own_point (m_id x) = Some p).
    { intros x p _ Hne (Hp & Ho & Hm). apply map_lookup_filter_Some. split; [done|]. cbn. intros [? _]. congruence. }
    destruct (_ || _) eqn:Eb.
    + apply advances_delete; [done| |done|by intros id p [? _]%map_lookup_filter_Some].
      apply orb_true_iff in Eb as [?%bool_decide_eq_true|?%bool_decide_eq_true]; auto.
    + apply advances_update; [done|done|by do 2 eexists| |done|intros id p [? _]%map_lookup_filter_Some; by left].
      assert (Hc : closed_row d = true).
      { apply orb_false_iff in Eb as [_ Hn%bool_decide_eq_false]. unfold work_of in E.
        rewrite bool_decide_false in E by done. fold (closed_row d) in E.
        destruct (closed_row d); [done|]. by repeat case_match. }
      rewrite Hc. cbn. intros id p [_ Hn]%map_lookup_filter_Some Ho Hm. by apply Hn.
  - intros (i' & synced & upd & [= <-] & ->). fold (own_point (m_id d)).
    pose proof (se_known _ _ _ _ _ Hs) as Hkn. apply work_missing_inv in E as [_ Hc].
    apply advances_update; [done|done| | | |].
    + intros x. unfold same_memory, indexed. by do 2 eexists.
    + rewrite Hc. split; [apply lookup_insert_eq|done].
    + intros x p Hx Hne (Hp & _). rewrite lookup_insert_ne; [done|].
      intros E'. apply Hne. symmetry. by apply Hcanon; [apply Hkn..|].
    + intros id p [[_ <-]|[_ ?]]%lookup_insert_Some; [by right|by left].
Qed.
End Agreement.

(** ** The whole pass *)

Lemma view_points_ext v f g :
  f (v_points v) = g (v_points v) -> v {{ v_points ::= f }} = v {{ v_points ::= g }}.
Proof. intros E. unfold setf. by rewrite E. Qed.

Lemma view_points_id v f : f (v_points v) = v_points v -> v {{ v_points ::= f }} = v.
Proof. intros E. unfold setf. rewrite E. by destruct v. Qed.

Lemma view_points_twice v f g :
  v {{ v_points ::= f }} {{ v_points ::= g }} = v {{ v_points ::= fun m => g (f m) }}.
Proof. done. Qed.

Section Whole.
Context {S : Type} `{VL : VectorStoreLaws S}.
Context (me : option AuthIdentity) (cfg : mem_settings) (uuid5 : string -> string).
Context (now : nat -> string) (isspace : Z -> bool) (rpc : nat -> text -> option (list Q)).

(** Every document of [ds] was visited and repaired without a failure. *)
Fixpoint repaired_all (deleted : list string) (ds : list MemDoc) (v v' : view) : Prop :=
  match ds with
  | [] => v' = v
  | d :: ds => exists v1, repaired_view me cfg uuid5 deleted d v v1 /\ repaired_all deleted ds v1 v'
  end.

Lemma documents_spec ds budget deleted rep (w : mem_world S) :
  0 <= budget ->
  exists rep' w', reconcile_documents me cfg uuid5 now isspace rpc ds budget deleted rep w = (Ok rep', w') /\
    within budget rep rep' /\
    (rp_failed rep' = rp_failed rep -> rp_truncated rep' = false ->
     repaired_all deleted ds (view_of w) (view_of w')).
Proof using VL.
  revert budget rep w. induction ds as [|d ds IH]; intros budget rep w Hb.
  - exists rep, w. split_and!; [done|by apply within_refl|done].
  - cbn [reconcile_documents]. destruct (Z.leb_spec budget 0).
    + do 2 eexists. split_and!; [done| |done]. split; cbn; unfold acted, drift_total; cbn; lia.
    + unfold wbind at 1.
      destruct (reconcile_document_spec me cfg uuid5 now isspace rpc d deleted rep w)
        as (b & rep1 & w1 & -> & Hf & Hw & Ht & Hv). cbn [fst snd].
      destruct (IH (if b then budget - 1 else budget) rep1 w1 ltac:(destruct b; lia))
        as (rep' & w' & -> & Hw' & Hv').
      exists rep', w'. split; [done|].
      pose proof (within_trans _ _ _ _ _ Hw Hw') as Hall.
      split; [destruct Hall; split; destruct b; lia|].
      intros Ef Etr. destruct Hw as [Hw _ _], Hw' as [Hw' _ _].
      exists (view_of w1). split; [apply Hv; lia|apply Hv'; [lia|done]].
Qed.

Lemma points_spec known seen ps rep (w : mem_world S) :
  exists rep' w', reconcile_points me cfg uuid5 known seen ps rep w = (Ok rep', w') /\
    within (zlen (strays me uuid5 known seen ps)) rep rep' /\ rp_truncated rep' = rp_truncated rep /\
    (strays me uuid5 known seen ps = [] -> rep' = rep /\ w' = w) /\
    (rp_failed rep' = rp_failed rep -> Forall (fun x => x.1 <> ""%string) ps ->
     view_of w' = (view_of w) {{ v_points ::=
       filter (fun y => y.1 ∉ (strays me uuid5 known seen ps).*1) }}).
Proof using VL.
  revert seen rep w. induction ps as [|[pid p] ps IH]; intros seen rep w.
  - exists rep, w. cbn. split_and!; [done|by apply within_refl|done|done|]. intros _ _.
    symmetry. apply view_points_id, map_filter_id. intros. apply not_elem_of_nil.
  - cbn [reconcile_points strays].
    destruct (stray_class _ _ _ _ _ _) as [c|] eqn:Ec.
    2: { destruct (IH (if bool_decide (memory_of p = ""%string) then seen else memory_of p :: seen) rep w)
           as (rep' & w' & E & H1 & H2 & H3 & H4).
         exists rep', w'. split_and!; try done. intros Ef [_ Hne]%Forall_cons. by apply H4. }
    unfold wbind at 1.
    assert (Hd : exists rep1 w1, delete_stray me cfg c pid (memory_of p) rep w = (Ok rep1, w1) /\
      within 1 rep rep1 /\ rp_truncated rep1 = rp_truncated rep /\
      (rp_failed rep1 = rp_failed rep -> pid <> ""%string ->
       view_of w1 = (view_of w) {{ v_points ::= filter (fun y => ~ selects (ByPoint pid) y) }})).
    { unfold delete_stray. case_bool_decide as Hpid.
      - do 2 eexists. split_and!; [done| |done|done]. apply (within_count c); [cbn; lia|done].
      - match goal with |- context [wtry _ (wret ?r) ?k w] =>
          destruct (attempts_try _ r k w _ (delete_point_attempts me cfg pid w))
            as [[w1 E1]|(a & w1 & Hv & E1)] end; rewrite E1; do 2 eexists; (split; [done|]);
        (split; [apply (within_count c); [cbn; lia|done]|]); (split; [done|]); cbn; [lia|done]. }
    destruct Hd as (rep1 & w1 & -> & Hw1 & Ht1 & Hv1). cbn [fst snd].
    destruct (IH seen rep1 w1) as (rep' & w' & E & H1 & H2 & _ & H4). rewrite E.
    exists rep', w'. split; [done|]. rewrite zlen_cons.
    split; [by eapply within_trans|]. split; [congruence|]. split; [done|].
    intros Ef [Hne Hnes]%Forall_cons. pose proof (wi_failed _ _ _ Hw1). pose proof (wi_failed _ _ _ H1).
    rewrite H4, Hv1 by (done || lia). rewrite view_points_twice. apply view_points_ext, map_eq. intros id. apply option_eq. intros q. rewrite !map_lookup_filter_Some. cbn.
    rewrite not_elem_of_cons. naive_solver.
Qed.

Lemma batch_pos limit : 1 <= batch_of cfg limit.
Proof using. unfold batch_of. lia. Qed.

(** The second half of the pass, and what it adds to the report at the end. *)
Definition scan (known : list string) (limit : option Z) (cursor : option string) (rep : report)
  : W S report :=
  if reconciliation_scan_orphans cfg then
    r <-- reconcile_index_points me cfg uuid5 known (batch_of cfg limit) cursor rep;
    wret (r.2 {{ rp_next_cursor := r.1 }})
  else wret rep.

Definition conclude (rep : report) : report :=
  let rep := rep {{ rp_unresolved ::= sorted_set }} in
  if 0 <? rp_failed rep then rep {{ rp_status := PartialRun }} else rep.

Lemma reconcile_halves limit cursor (w : mem_world S) :
  index_enabled cfg = true ->
  reconcile me cfg uuid5 now isspace rpc limit cursor w =
  (rep <-- reconcile_documents me cfg uuid5 now isspace rpc (my_rows me w) (batch_of cfg limit)
             (deleted_of me w) ((empty_report true) {{ rp_scanned := zlen (my_rows me w) }});
   rep <-- scan (map m_id (my_rows me w)) limit cursor rep;
   wret (conclude rep)) w.
Proof using. intros E. unfold reconcile. by rewrite E. Qed.

Lemma within_next n r r' c : within n r r' -> within n r (r' {{ rp_next_cursor := c }}).
Proof using. by intros [? ? ?]. Qed.

Lemma length_strays known seen ps : zlen (strays me uuid5 known seen ps) <= zlen ps.
Proof using.
  revert seen. induction ps as [|[pid p] ps IH]; intros seen; cbn; [done|].
  destruct (stray_class _ _ _ _ _ _); rewrite ?zlen_cons; [specialize (IH seen)|etrans; [apply IH|]]; lia.
Qed.

Lemma scan_spec known limit cursor rep (w : mem_world S) :
  exists rep' w', scan known limit cursor rep w = (Ok rep', w') /\
    within (batch_of cfg limit) rep rep' /\ rp_truncated rep' = rp_truncated rep /\
    (forall i, me = Some i ->
      (Forall (proper_point uuid5 i known) (map_to_list (filter
         (fun x => owned_by (id_tenant i) (id_user i) x.2) (v_points (view_of w)))) ->
       view_of w' = view_of w /\ rp_drift rep' = rp_drift rep /\ rp_repaired rep' = rp_repaired rep /\
       rp_unresolved rep' = rp_unresolved rep) /\
      (rp_failed rep' = rp_failed rep -> reconciliation_scan_orphans cfg = true -> cursor = None ->
       rp_next_cursor rep' = None ->
       exists f, view_of w' = (view_of w) {{ v_points ::= f }} /\
         (forall id p, f (v_points (view_of w)) !! id = Some p ->
           v_points (view_of w) !! id = Some p /\
           (owned_by (id_tenant i) (id_user i) p -> proper_point uuid5 i known (id, p))) /\
         forall id p, v_points (view_of w) !! id = Some p -> proper_point uuid5 i known (id, p) ->
           f (v_points (view_of w)) !! id = Some p)).
Proof using VL.
  pose proof (batch_pos limit) as Hb. unfold scan. destruct (reconciliation_scan_orphans cfg).
  2: { exists rep, w. split_and!; [done|apply within_refl; lia|done|]. intros i _. split; [done|done]. }
  unfold wbind at 1, reconcile_index_points. pose proof (scroll_attempts me cfg (batch_of cfg limit) cursor w) as Hatt.
  pose proof (wkeeps_scroll (fun v => v = view_of w) me cfg (batch_of cfg limit) cursor w eq_refl) as Ha.
  unfold attempts in Hatt. unfold wtry.
  destruct (scroll_points me cfg (batch_of cfg limit) cursor w) as [[[ps next]|[m|m|m]] w1] eqn:Es;
    cbn in Ha; try done.
  - destruct (scroll_page _ _ _ _ _ _ _ _ Es) as (i & Hi & (Hn & Hne & Hps) & Hlen & Hall).
    destruct (points_spec known [] ps rep w1) as (rep1 & w2 & E & Hw & Ht & Hz & Hv).
    unfold wbind. cbn [fst snd]. rewrite E. do 2 eexists. split; [done|]. cbn [fst snd].
    split; [apply within_next; pose proof (length_strays known [] ps); destruct Hw; split; lia|].
    split; [done|]. intros i' Hi'. rewrite Hi in Hi'. injection Hi' as <-. rewrite <-Ha.
    assert (Hst : forall x, x ∈ ps -> x ∈ strays me uuid5 known [] ps <-> ~ proper_point uuid5 i known x).
    { rewrite Hi. apply strays_proper; [done..|]. apply Forall_forall. intros. apply not_elem_of_nil. }
    split.
    + intros Hpr. rewrite Forall_forall in Hpr. destruct Hz as [-> ->]; [|done].
      destruct (strays me uuid5 known [] ps) as [|x l] eqn:Ex; [done|]. exfalso.
      assert (Hx : x ∈ ps) by (eapply strays_sub; rewrite Ex; left).
      apply (proj1 (Hst x Hx)); [left|]. apply Hpr. rewrite Forall_forall in Hps.
      destruct (Hps x Hx). destruct x. apply elem_of_map_to_list, map_lookup_filter_Some. done.
    + intros Ef _ Hcur Hnext. change (next = None) in Hnext. eexists. split; [by apply Hv|]. cbn. split.
      * intros id p [Hp Hns]%map_lookup_filter_Some.
        split; [done|]. intros Ho. specialize (Hall Hcur Hnext id p Hp Ho).
        destruct (decide (proper_point uuid5 i known (id, p))) as [|Hnp]; [done|]. exfalso. apply Hns.
        apply (list_elem_of_fmap_2 fst _ (id, p)). by apply Hst.
      * intros id p Hp Hpr. apply map_lookup_filter_Some. split; [done|]. cbn.
        intros ([id' q] & E' & Hx)%list_elem_of_fmap. cbn in E'. subst id'.
        pose proof (strays_sub _ _ _ _ _ _ Hx) as Hin. rewrite Forall_forall in Hps.
        destruct (Hps _ Hin) as [Hq _]. cbn in Hq.
        assert (q = p) as -> by (unfold view_of in Hp; cbn in Hp; congruence).
        by apply (proj1 (Hst _ Hin)).
  - do 2 eexists. split; [done|]. split; [split; cbn; unfold acted, drift_total; cbn; lia|].
    split; [done|]. intros i Hi. split; [done|cbn; lia].
  - do 2 eexists. split; [done|]. split; [split; cbn; unfold acted, drift_total; cbn; lia|].
    split; [done|]. intros i Hi. split; [done|cbn; lia].
Qed.
End Whole.

(** ** Theorems *)

Lemma conclude_same rep :
  rp_drift (conclude rep) = rp_drift rep /\ rp_repaired (conclude rep) = rp_repaired rep /\
  rp_failed (conclude rep) = rp_failed rep /\ rp_truncated (conclude rep) = rp_truncated rep /\
  rp_next_cursor (conclude rep) = rp_next_cursor rep /\
  rp_unresolved (conclude rep) = sorted_set (rp_unresolved rep).
Proof. unfold conclude. cbn. by destruct (0 <? rp_failed rep). Qed.

Lemma work_of_ext A B d : (m_id d ∈ A <-> m_id d ∈ B) -> work_of A d = work_of B d.
Proof. intros E. unfold work_of. by rewrite (bool_decide_ext _ _ E). Qed.

Section Pass_theorems.
Context {S : Type} `{VL : VectorStoreLaws S}.
Context (cfg : mem_settings) (uuid5 : string -> string).
Context (now : nat -> string) (isspace : Z -> bool) (rpc : nat -> text -> option (list Q)).

(** a pass is bounded and total: whatever the stores hold and the services answer, it
    returns a report, in which the repairs that succeeded and failed, and the drift that
    was found, are at most [batch] for the rows and [batch] for the points. *)
Theorem reconcile_bounded me limit cursor (w : mem_world S) :
  exists rep w', reconcile me cfg uuid5 now isspace rpc limit cursor w = (Ok rep, w') /\
    acted rep <= 2 * batch_of cfg limit /\ drift_total rep <= 2 * batch_of cfg limit.
Proof using VL.
  pose proof (batch_pos cfg limit) as Hb. destruct (index_enabled cfg) eqn:He.
  2: { unfold reconcile. rewrite He. do 2 eexists. split; [done|]. cbn. unfold acted, drift_total. cbn. lia. }
  rewrite reconcile_halves by done. unfold wbind.
  destruct (documents_spec me cfg uuid5 now isspace rpc (my_rows me w) (batch_of cfg limit) (deleted_of me w)
    ((empty_report true) {{ rp_scanned := zlen (my_rows me w) }}) w ltac:(lia)) as (rep1 & w1 & -> & H1 & _).
  destruct (scan_spec me cfg uuid5 (map m_id (my_rows me w)) limit cursor rep1 w1)
    as (rep2 & w2 & -> & H2 & _). do 2 eexists. split; [done|].
  pose proof (within_trans _ _ _ _ _ H1 H2) as [_ Ha Hd].
  destruct (conclude_same rep2) as (E1 & E2 & E3 & _).
  unfold acted, drift_total in *. rewrite E1, E2, E3. cbn in Ha, Hd. lia.
Qed.

(** A pass would find nothing to do for one identity: no row needs work, and every point of
    the identity that names a memory is the canonical point of one of its rows. *)
Definition consistent (i : AuthIdentity) (w : mem_world S) : Prop :=
  Forall (fun d => work_of (deleted_of (Some i) w) d = NoWork) (my_rows (Some i) w) /\
  forall id p, q_points (index w) !! id = Some p -> owned_by (id_tenant i) (id_user i) p ->
    proper_point uuid5 i (map m_id (my_rows (Some i) w)) (id, p).

Lemma repaired_tombs me deleted d v v' :
  repaired_view me cfg uuid5 deleted d v v' -> v_tombs v' = v_tombs v.
Proof using.
  unfold repaired_view. destruct (work_of deleted d).
  - by intros ->.
  - intros (i & _ & ->). by destruct (collection_for _).
  - intros (i & s & u & _ & ->). by destruct (bool_decide _).
Qed.

Lemma settled_all i known deleted ds v v' :
  (forall m m', m ∈ known -> m' ∈ known -> own_point i uuid5 m = own_point i uuid5 m' -> m = m') ->
  settled i known deleted ds v -> repaired_all (Some i) cfg uuid5 deleted ds v v' ->
  settled i known deleted [] v' /\ v_tombs v' = v_tombs v /\ advances i uuid5 deleted v v'.
Proof using.
  intros Hc. revert v. induction ds as [|d ds IH]; intros v Hs.
  { intros ->. split_and!; [done..|apply advances_refl]. }
  cbn. intros (v1 & H1 & H2).
  destruct (IH v1 (settled_step _ _ _ _ _ _ _ _ _ Hs H1) H2) as (? & -> & Ha).
  split_and!; [done|by eapply repaired_tombs|].
  eapply advances_trans; [by eapply advances_step|done].
Qed.

Lemma canonical_inj i (l : list MemDoc) :
  NoDup (map (fun d => own_point i uuid5 (m_id d)) l) ->
  NoDup (map m_id l) /\
  forall m m', m ∈ map m_id l -> m' ∈ map m_id l -> own_point i uuid5 m = own_point i uuid5 m' -> m = m'.
Proof using.
  intros Hnd. assert (E : map (fun d => own_point i uuid5 (m_id d)) l = map (own_point i uuid5) (map m_id l))
    by by rewrite List.map_map. rewrite E in Hnd. split; [by eapply NoDup_fmap_1|].
  intros m m' [k Hk]%list_elem_of_lookup [k' Hk']%list_elem_of_lookup Em.
  assert (k = k') as ->; [|congruence].
  eapply (NoDup_lookup _ _ _ (own_point i uuid5 m)); [exact Hnd|..]; apply list_lookup_fmap_Some; eauto.
Qed.

(** What a complete pass leaves, in terms of the pass. *)
Lemma complete_pass i limit (w : mem_world S) rep w' :
  index_enabled cfg = true -> reconciliation_scan_orphans cfg = true ->
  rows_sorted (Some i) (view_of w) ->
  NoDup (map (fun d => own_point i uuid5 (m_id d)) (my_rows (Some i) w)) ->
  reconcile (Some i) cfg uuid5 now isspace rpc limit None w = (Ok rep, w') ->
  rp_failed rep = 0 -> rp_truncated rep = false -> rp_next_cursor rep = None ->
  consistent i w' /\ tombstones w' = tombstones w /\
  advances i uuid5 (deleted_of (Some i) w) (view_of w) (view_of w').
Proof using VL.
  intros He Ho Hsort [Hnd Hcan]%canonical_inj. rewrite reconcile_halves by done. unfold wbind.
  pose proof (batch_pos cfg limit) as Hb. set (me := Some i) in *.
  set (rep0 := (empty_report true) {{ rp_scanned := zlen (my_rows me w) }}).
  destruct (documents_spec me cfg uuid5 now isspace rpc (my_rows me w) (batch_of cfg limit) (deleted_of me w)
    rep0 w ltac:(lia)) as (rep1 & w1 & -> & H1 & Hall).
  destruct (scan_spec me cfg uuid5 (map m_id (my_rows me w)) limit None rep1 w1)
    as (rep2 & w2 & -> & H2 & Ht & Hscan). intros [= <- <-].
  destruct (conclude_same rep2) as (_ & _ & E3 & E4 & E5 & _). rewrite E3, E4, E5.
  intros Hf Htr Hnx. destruct H1 as [H1 _ _], H2 as [H2 _ _]. cbn in H1.
  destruct (Hscan i eq_refl) as [_ Hpts].
  destruct (Hpts ltac:(lia) Ho eq_refl Hnx) as (f & Ev & Hprop & Hstay).
  specialize (Hall ltac:(cbn; lia) ltac:(congruence)).
  assert (Hinit : settled i (map m_id (my_rows me w)) (deleted_of me w) (my_rows me w) (view_of w)).
  { split; try done.
    - intros x Hx. by apply (list_elem_of_fmap_2 m_id).
    - intros x Hx. by left. }
  destruct (settled_all _ _ _ _ _ _ Hcan Hinit Hall) as (Hs & Htomb & Hadv).
  assert (Er : my_rows me w2 = my_rows me w1).
  { change (v_mine me (view_of w2) = v_mine me (view_of w1)). by rewrite Ev. }
  assert (Et : tombstones w2 = tombstones w).
  { change (v_tombs (view_of w2) = tombstones w). by rewrite Ev. }
  split; [|split; [done|]].
  - unfold consistent. fold me. rewrite Er. split.
    + apply Forall_forall. intros x Hx. destruct (se_done _ _ _ _ _ Hs x Hx) as [?%elem_of_nil|Hw]; [done|].
      rewrite <-Hw. apply work_of_ext. rewrite !deleted_of_elem, Er, Et.
      pose proof (se_known _ _ _ _ _ Hs x Hx). split; [by intros (? & _ & ?)|].
      intros (? & _ & ?). split_and!; [done| |done]. by apply (list_elem_of_fmap_2 m_id).
    + intros id p Hp Hown. change (v_points (view_of w2) !! id = Some p) in Hp. rewrite Ev in Hp.
      destruct (Hprop id p Hp) as [Hp1 Hpr]. destruct (Hpr Hown) as [He1|[Hk Hc]]; [by left|].
      unfold proper_point. cbn in Hk, Hc |- *.
      destruct (pl_memory_id p) as [m|] eqn:Em; [right|by left]. split; [|done].
      by eapply (se_points _ _ _ _ _ Hs).
  - eapply advances_trans; [done|]. rewrite Ev. apply advances_points.
    + intros d p Hd _ (Hp & _ & Hm). apply Hstay; [done|]. right. cbn. rewrite Hm.
      split; [by eapply (se_known _ _ _ _ _ Hs)|done].
    + intros id p Hp. by apply Hprop.
Qed.

(** The rows of one identity agree with the index after a pass from [w] to [w']. *)
Record agree (i : AuthIdentity) (w w' : mem_world S) : Prop := {
  (* a memory with a durable deletion identity has no row, and a row with the status
     deleted is left only when its vector is known to be gone *)
  ag_tombstone d : d ∈ my_rows (Some i) w' -> m_id d <> ""%string ->
    existsb (tomb_has_id (Some i) (m_id d)) (tombstones w') = false;
  ag_deleted d : d ∈ my_rows (Some i) w' -> memory_status d = MEMORY_STATUS_DELETED ->
    embedding_status d = Some EMBEDDING_STATUS_DISABLED;
  (* a live row is neither pending nor failed and its recorded revision is its own; it has
     its point, with the payload of the row, unless the pass left the row as it was, and then
     the point it had is kept *)
  ag_live d : d ∈ my_rows (Some i) w' -> live d ->
    embedding_status d <> Some EMBEDDING_STATUS_PENDING /\
    embedding_status d <> Some EMBEDDING_STATUS_FAILED /\
    (forall r, r_indexed_revision (m_retrieval d) = Some r -> r = revision d) /\
    (point_of i uuid5 (m_id d) (memory_payload i d) (view_of w') \/
     (d ∈ my_rows (Some i) w /\
      forall p, point_of i uuid5 (m_id d) p (view_of w) -> point_of i uuid5 (m_id d) p (view_of w')));
  (* a row that is deleted, superseded or ended awaits no deletion of its point; it has
     none, unless the pass left the row as it was, and then it gained none *)
  ag_closed d : d ∈ my_rows (Some i) w' -> ~ live d ->
    embedding_status d <> Some EMBEDDING_STATUS_DELETE_PENDING /\
    (pointless i (m_id d) (view_of w') \/
     (d ∈ my_rows (Some i) w /\ (pointless i (m_id d) (view_of w) -> pointless i (m_id d) (view_of w'))));
  (* every point of the identity that names a memory is the canonical point of a row *)
  ag_points id p m : q_points (index w') !! id = Some p -> owned_by (id_tenant i) (id_user i) p ->
    pl_memory_id p = Some m -> m <> ""%string ->
    id = own_point i uuid5 m /\ exists d, d ∈ my_rows (Some i) w' /\ m_id d = m;
  (* no memory that was not deleted is lost, and of a row only the retrieval state and the
     time of update change *)
  ag_kept d : d ∈ my_rows (Some i) w ->
    m_id d = ""%string \/ existsb (tomb_has_id (Some i) (m_id d)) (tombstones w) = false ->
    memory_status d <> MEMORY_STATUS_DELETED ->
    exists d', d' ∈ my_rows (Some i) w' /\ same_memory d d'
}.

Lemma no_work_inv deleted d : work_of deleted d = NoWork ->
  m_id d ∉ deleted /\
  (live d -> embedding_status d <> Some EMBEDDING_STATUS_PENDING /\
     embedding_status d <> Some EMBEDDING_STATUS_FAILED /\
     forall r, r_indexed_revision (m_retrieval d) = Some r -> r = revision d) /\
  (~ live d -> embedding_status d <> Some EMBEDDING_STATUS_DELETE_PENDING /\
     (memory_status d = MEMORY_STATUS_DELETED -> embedding_status d = Some EMBEDDING_STATUS_DISABLED)).
Proof using.
  rewrite live_closed. unfold work_of. case_bool_decide as Hd; [done|]. fold (closed_row d).
  destruct (closed_row d).
  - destruct (_ || _) eqn:E; [done|]. intros _. apply orb_false_iff in E as [E1%bool_decide_eq_false E2].
    split_and!; [done|done|]. intros _. split; [done|]. intros Es. rewrite bool_decide_true in E2 by done.
    by apply negb_false_iff, bool_decide_eq_true in E2.
  - destruct (_ || _) eqn:E; [done|].
    apply orb_false_iff in E as [E1%bool_decide_eq_false E2%bool_decide_eq_false].
    intros Hr. split_and!; [done| |by intros []]. intros _. split_and!; [done..|]. intros r Er.
    rewrite Er in Hr. by destruct (Z.eqb_spec r (revision d)).
Qed.

(** C33: a complete pass converges.  When the caller's rows are in the collections of their
    classes and have different point ids, a pass over the whole index that was not cut short
    and reports no failure leaves no row of a memory with a durable deletion identity and,
    unless its vector is recorded as gone, none with the status deleted.  A live row is
    neither pending nor failed and its recorded revision is its own; a row the pass repaired
    has its point with the row's payload.  A superseded or ended row awaits no deletion, and
    one the pass repaired has no point.  Every point that names a memory is the canonical
    point of a row.  No memory that was not deleted is lost, and of a row only the retrieval
    state and the time of update change.  The pass trusts the bookkeeping: a row recorded as
    settled is left as it is, so a live one whose point is gone stays without it, and a
    superseded one recorded as indexed keeps its point. *)
Theorem reconcile_converges i limit (w : mem_world S) rep w' :
  index_enabled cfg = true -> reconciliation_scan_orphans cfg = true ->
  rows_sorted (Some i) (view_of w) ->
  NoDup (map (fun d => own_point i uuid5 (m_id d)) (my_rows (Some i) w)) ->
  reconcile (Some i) cfg uuid5 now isspace rpc limit None w = (Ok rep, w') ->
  rp_failed rep = 0 -> rp_truncated rep = false -> rp_next_cursor rep = None ->
  agree i w w'.
Proof using VL.
  intros He Ho Hsort Hnd Hrun Hf Htr Hnx.
  destruct (complete_pass i limit w rep w' He Ho Hsort Hnd Hrun Hf Htr Hnx) as ((Hwork & Hpts) & Et & [L C K]).
  rewrite Forall_forall in Hwork.
  assert (Hdel : forall d, d ∈ my_rows (Some i) w' -> memory_status d = MEMORY_STATUS_DELETED -> ~ live d)
    by by intros d _ E [? _].
  split.
  - intros d Hd Hne. destruct (no_work_inv _ _ (Hwork d Hd)) as [Hn _].
    destruct (existsb _ _) eqn:E; [|done]. exfalso. apply Hn, deleted_of_elem.
    split_and!; [done|by apply list_elem_of_fmap_2|done].
  - intros d Hd Hs. destruct (no_work_inv _ _ (Hwork d Hd)) as (_ & _ & Hx). by apply Hx; [apply Hdel|].
  - intros d Hd Hl. destruct (no_work_inv _ _ (Hwork d Hd)) as (_ & Hx & _).
    destruct (Hx Hl) as (? & ? & ?). split_and!; [done..|]. by apply L.
  - intros d Hd Hl. destruct (no_work_inv _ _ (Hwork d Hd)) as (_ & _ & Hx).
    split; [by apply Hx|by apply C].
  - intros id p m Hp Hown Hm Hne. destruct (Hpts id p Hp Hown) as [E|[Hk Hid]]; cbn [fst snd] in *; rewrite Hm in *; [done|].
    split; [done|]. apply list_elem_of_fmap in Hk as (d & E & Hd). exists d. by cbn in E.
  - intros d Hd Hn Hs. apply K; [done| |done]. intros (? & _ & E)%deleted_of_elem.
    destruct Hn; congruence.
Qed.

Lemma documents_idle me ds budget deleted rep (w : mem_world S) :
  1 <= budget -> Forall (fun d => work_of deleted d = NoWork) ds ->
  reconcile_documents me cfg uuid5 now isspace rpc ds budget deleted rep w = (Ok rep, w).
Proof using.
  intros Hb Hds. induction Hds as [|d ds Hd _ IH]; [done|]. cbn [reconcile_documents].
  destruct (Z.leb_spec budget 0); [lia|]. unfold reconcile_document, wbind. by rewrite Hd.
Qed.

(** reconciliation is idempotent: over consistent stores a pass changes no row, no
    deletion identity and no point, finds no drift, repairs nothing, leaves nothing
    unresolved and is not cut short. *)
Theorem reconcile_idempotent i limit cursor (w : mem_world S) :
  index_enabled cfg = true -> consistent i w ->
  exists rep w', reconcile (Some i) cfg uuid5 now isspace rpc limit cursor w = (Ok rep, w') /\
    view_of w' = view_of w /\ (forall c, rp_drift rep c = 0) /\ rp_repaired rep = 0 /\
    rp_unresolved rep = [] /\ rp_truncated rep = false.
Proof using VL.
  intros He [Hrows Hpts]. rewrite reconcile_halves by done. unfold wbind at 1.
  rewrite documents_idle by (done || apply batch_pos). unfold wbind.
  match goal with |- context [scan _ _ _ ?k limit cursor ?r w] =>
    destruct (scan_spec (Some i) cfg uuid5 k limit cursor r w) as (rep2 & w2 & -> & _ & Ht & Hscan) end.
  destruct (Hscan i eq_refl) as [Hidle _].
  destruct Hidle as (Ev & Ed & Er & Eu).
  { apply Forall_forall. intros [id p] Hx%elem_of_map_to_list.
    apply map_lookup_filter_Some in Hx as [Hp Ho]. by apply Hpts. }
  destruct (conclude_same rep2) as (E1 & E2 & _ & E4 & _ & E6).
  do 2 eexists. split; [done|]. rewrite E1, E2, E4, E6, Ed, Er, Eu, Ht. done.
Qed.
End Pass_theorems.

(** ** Deletion *)

Lemma find_has_id me m l d : List.find (has_id me m) l = Some d -> d ∈ l /\ mine me d = true /\ m_id d = m.
Proof. intros [Hin Hd%has_id_mine]%List.find_some. split; [by apply list_elem_of_In|done]. Qed.

Lemma find_no_id me m l : List.find (has_id me m) l = None -> m ∉ map m_id (List.filter (mine me) l).
Proof.
  intros Hf (x & -> & [Hx Hm]%elem_filter_In)%list_elem_of_fmap.
  apply List.find_none with (x := x) in Hf; [|by apply list_elem_of_In].
  by eapply has_id_false.
Qed.

Lemma status_deleted d : memory_status d = MEMORY_STATUS_DELETED -> m_status d = Some MEMORY_STATUS_DELETED.
Proof.
  unfold memory_status. destruct (m_status d) as [s|]; [case_bool_decide; [|by intros ->]|];
    by destruct (truthy _).
Qed.

Lemma existsb_app_tomb {D} (q : D -> bool) l x : q x = true -> existsb q (l ++ [x]) = true.
Proof. intros E. rewrite List.existsb_app. cbn. by rewrite E, !orb_true_r. Qed.

(** The row that a lookup over both collections finds. *)
Lemma find_document_spec {S} `{VectorStore S} me m (w : mem_world S) r w' :
  find_memory_document me m true w = (r, w') -> w' = w /\
  match r with
  | Ok (Some (c, d)) => d ∈ docs_of c w /\ mine me d = true /\ m_id d = m
  | Ok None => m ∉ map m_id (my_rows me w)
  | Raise _ => False
  end.
Proof.
  unfold find_memory_document, wgets. intros [= <- <-]. split; [done|].
  destruct (List.find (has_id me m) (episodic w)) as [d|] eqn:E1; cbn.
  - by apply find_has_id in E1.
  - destruct (List.find (has_id me m) (semantic w)) as [d|] eqn:E2; cbn.
    + by apply find_has_id in E2.
    + unfold my_rows. rewrite map_app. apply not_elem_of_app. split; by apply find_no_id.
Qed.

Lemma tomb_mine_new {S} `{VectorStore S} me now d (w : mem_world S) :
  exists t w', store_deletion_tombstone me now d w = (Ok t, w') /\
    existsb (tomb_has_id me (m_id d)) (tombstones w') = true /\
    (episodic w', semantic w', index w') = (episodic w, semantic w, index w).
Proof.
  unfold store_deletion_tombstone, deletion_tombstone_by_memory_id, wbind, wgets.
  set (ex := if bool_decide _ then None else _).
  assert (Hex : forall t, ex = Some t -> existsb (tomb_has_id me (m_id d)) (tombstones w) = true).
  { subst ex. intros t. case_bool_decide; [done|]. intros Hf%List.find_some.
    apply List.existsb_exists. eauto. }
  destruct ex as [t|]; [do 2 eexists; by split_and!; [|eapply Hex|]|].
  do 2 eexists. split; [done|]. split; [|done]. cbn.
  destruct (existsb (tomb_has_id me (m_id d)) (tombstones w)) eqn:E; [done|].
  apply existsb_app_tomb. unfold tomb_has_id, tomb_mine, scope_filter. cbn.
  rewrite (bool_decide_true (m_id d = m_id d)) by done. destruct me as [i|]; [|done]. cbn.
  by rewrite !bool_decide_true.
Qed.

Section Delete.
Context {S : Type} `{VL : VectorStoreLaws S}.
Context (me : option AuthIdentity) (cfg : mem_settings) (now : nat -> string).

(** The state of a memory id after [delete_memory] answered [r]. *)
Definition deleted_as (m : string) (r : delete_result) (w : mem_world S) : Prop :=
  (forall x, x ∈ my_rows me w -> m_id x = m -> m_status x = Some MEMORY_STATUS_DELETED) /\
  match dr_status r with
  | Deleted =>
      existsb (tomb_has_id me m) (tombstones w) = true /\ m ∉ map m_id (my_rows me w) /\
      (dr_vector_deleted r = Some true -> forall i id p, me = Some i ->
         q_points (index w) !! id = Some p -> owned_by (id_tenant i) (id_user i) p ->
         pl_memory_id p <> Some m)
  | Partial =>
      m ∈ map m_id (my_rows me w) /\
      (dr_already_deleted r = false -> existsb (tomb_has_id me m) (tombstones w) = true)
  end.

Lemma removed_as c d (w : mem_world S) :
  located me c d (view_of w) -> existsb (tomb_has_id me (m_id d)) (tombstones w) = true ->
  (index_enabled cfg = true -> forall i id p, me = Some i ->
     q_points (index w) !! id = Some p -> owned_by (id_tenant i) (id_user i) p ->
     pl_memory_id p <> Some (m_id d)) ->
  exists r w', remove_row me cfg c (m_id d) w = (Ok r, w') /\ deleted_as (m_id d) r w'.
Proof using.
  intros Hl Ht Hp. unfold remove_row.
  assert (existsb (has_id me (m_id d)) (docs_of c w) = true) as ->.
  { destruct Hl as (_ & Hd & Hm). apply List.existsb_exists. exists d. split.
    - apply list_elem_of_In. by destruct c.
    - unfold has_id. by rewrite Hm, bool_decide_true. }
  unfold wbind. destruct (view_on_docs c (delete_one (has_id me (m_id d))) w) as (w' & E & Ev).
  rewrite E. do 2 eexists. split; [done|].
  assert (Hno : forall x, x ∈ my_rows me w' -> m_id x <> m_id d).
  { intros x Hx. change (x ∈ v_mine me (view_of w')) in Hx. rewrite Ev in Hx.
    by apply mine_delete in Hx as [_ ?]. }
  split; [intros x Hx E'; by apply Hno in Hx|]. cbn.
  assert (Et : tombstones w' = tombstones w /\ index w' = index w) by (destruct c; by injection E as <-).
  destruct Et as [-> ->]. split_and!; [done| |intros [= He]; by apply Hp].
  intros (x & Ex & Hx)%list_elem_of_fmap. by apply (Hno x Hx).
Qed.

(** The row after a deletion the index did not confirm. *)
Definition buried (deleted_at updated : string) (x : MemDoc) : MemDoc :=
  x {{ m_status := Some MEMORY_STATUS_DELETED }} {{ m_deleted_at := Some deleted_at }}
    {{ m_updated_at := updated }} {{ m_retrieval ::= fun r =>
      r {{ r_embedding_status := Some EMBEDDING_STATUS_DELETE_PENDING }} }}.

Lemma buried_as c d at_ upd (w : mem_world S) :
  located me c d (view_of w) -> existsb (tomb_has_id me (m_id d)) (tombstones w) = true ->
  exists w', on_docs c (update_one (has_id me (m_id d)) (buried at_ upd)) w = (Ok tt, w') /\
    deleted_as (m_id d) (mkDelete Partial (Some false) true false) w'.
Proof using.
  intros Hl Ht. destruct (view_on_docs c (update_one (has_id me (m_id d)) (buried at_ upd)) w)
    as (w' & E & Ev). exists w'. split; [done|]. split.
  - intros x Hx Ex. change (x ∈ v_mine me (view_of w')) in Hx. rewrite Ev in Hx.
    apply mine_update in Hx as [->|[_ Hne]]; done.
  - cbn. split.
    + change (m_id d ∈ v_ids me (view_of w')). rewrite Ev, v_ids_update by done.
      apply (list_elem_of_fmap_2 m_id), elem_v_mine. destruct Hl as (_ & Hd & Hm). eauto.
    + intros _. change (existsb (tomb_has_id me (m_id d)) (v_tombs (view_of w')) = true).
      rewrite Ev. by destruct c.
Qed.

(** The removal of a row whose deletion identity is stored. *)
Lemma remove_as c d (w : mem_world S) r w' :
  located me c d (view_of w) -> existsb (tomb_has_id me (m_id d)) (tombstones w) = true ->
  (if index_enabled cfg then
     wtry (index_delete_memory me cfg (m_id d))
       (d1 <-- now_fn now; d2 <-- now_fn now;
        on_docs c (update_one (has_id me (m_id d)) (buried d1 d2));;;
        wret (mkDelete Partial (Some false) true false))
       (fun _ => remove_row me cfg c (m_id d))
   else remove_row me cfg c (m_id d)) w = (Ok r, w') ->
  deleted_as (m_id d) r w'.
Proof using VL.
  intros Hl Ht. destruct (index_enabled cfg) eqn:Hen.
  2: { destruct (removed_as c d w) as (r' & w2 & -> & Has); [done|done|congruence|]. by intros [= <- <-]. }
  unfold wtry. pose proof (index_delete_attempts me cfg (m_id d) w) as Ha. unfold attempts in Ha.
  pose proof (wkeeps_index_delete (fun v => located me c d v /\ v_tombs v = tombstones w) me cfg (m_id d)
    ltac:(done) w (conj Hl eq_refl)) as [Hl2 Kt].
  destruct (index_delete_memory me cfg (m_id d) w) as [[[]|e] w2]; cbn in Hl2, Kt; rewrite <-Kt in Ht.
  - destruct Ha as (i & Hi & Ev). destruct (removed_as c d w2) as (r' & w3 & -> & Has); [done|done| |].
    { intros _ i' id p Hi' Hp Ho Hpm. rewrite Hi in Hi'. injection Hi' as <-.
      change (v_points (view_of w2) !! id = Some p) in Hp. rewrite Ev in Hp.
      apply map_lookup_filter_Some in Hp as [_ Hn]. by apply Hn. }
    by intros [= <- <-].
  - destruct e; [| |done]; unfold wbind, now_fn; cbn [ticks];
      (match goal with |- context [on_docs c (update_one _ (buried ?d1 ?d2)) ?v] =>
         destruct (buried_as c d d1 d2 v) as (w3 & -> & Has); [done|done|] end;
       by intros [= <- <-]).
Qed.

(** the contract of deletion, with unique row ids.  After any answer no visible row
    has the id.  The answer [deleted] means that the row is gone and the durable deletion
    identity is there, and with the index enabled that no point of the caller is left for
    the memory; [partial] means that the row survives only as a deleted one, with its
    deletion identity. *)
Theorem delete_memory_contract m (w : mem_world S) r w' :
  NoDup (map m_id (my_rows me w)) -> delete_memory me cfg now m w = (Ok r, w') -> deleted_as m r w'.
Proof using VL.
  intros Hnd. unfold delete_memory. unfold wbind at 1.
  destruct (find_memory_document me m true w) as [f w0] eqn:Ef.
  apply find_document_spec in Ef as [-> Hf]. destruct f as [[[c d]|]|]; [| |done].
  2: { unfold wbind, deletion_tombstone_by_memory_id, wgets.
       case_bool_decide; [done|]. destruct (List.find _ _) as [t|] eqn:Et; [|done].
       intros [= <- <-]. split.
       - intros x Hx E. destruct Hf. rewrite <-E. by apply (list_elem_of_fmap_2 m_id).
       - cbn. split_and!; [|done|done]. apply List.existsb_exists. exists t.
         by apply List.find_some in Et. }
  destruct Hf as (Hd & Hm & <-).
  assert (Hin : forall w1 : mem_world S, d ∈ docs_of c w1 -> m_id d ∈ map m_id (my_rows me w1)).
  { intros w1 Hd1. apply (list_elem_of_fmap_2 m_id), (elem_v_mine me (view_of w1)).
    exists c. by destruct c. }
  case_bool_decide as Est.
  { intros [= <- <-]. split; cbn; [|by split; [apply Hin|]]. intros x Hx E.
    rewrite (ids_inj me (view_of w) x d); [by apply status_deleted|done|done| |done].
    apply (elem_v_mine me (view_of w)). exists c. by destruct c. }
  unfold wbind at 1. destruct (tomb_mine_new me now d w) as (t & w1 & -> & Ht & Esame).
  injection Esame as Eep Ese Eix.
  apply remove_as; [|done]. unfold located, v_ids, v_mine. cbn. rewrite Eep, Ese.
  split_and!; [done| |done]. destruct c; cbn; by rewrite ?Eep, ?Ese.
Qed.
End Delete.

(** ** Concrete passes *)

(** A pass that returned without failure, was not cut short and saw the whole index. *)
Definition complete (o : outcome mem_exn report) : bool :=
  match o with
  | Ok rep => (rp_failed rep =? 0) && negb (rp_truncated rep) &&
              match rp_next_cursor rep with None => true | Some _ => false end
  | Raise _ => false
  end.

Lemma complete_inv rep :
  complete (Ok rep) = true -> rp_failed rep = 0 /\ rp_truncated rep = false /\ rp_next_cursor rep = None.
Proof.
  cbn. intros [[?%Z.eqb_eq ?%negb_true_iff]%andb_true_iff ?]%andb_true_iff. by destruct (rp_next_cursor rep).
Qed.

Lemma reconcile_converges_witness :
  agree (fun s => s) mdemo_me mdemo_world (mdemo_pass (Some mdemo_me) mdemo_cfg None None mdemo_world).2.
Proof.
  assert (Hc : complete (mdemo_pass (Some mdemo_me) mdemo_cfg None None mdemo_world).1 = true)
    by (vm_compute; reflexivity).
  destruct (mdemo_pass (Some mdemo_me) mdemo_cfg None None mdemo_world) as [[rep|e] w'] eqn:E; [|discriminate].
  destruct (complete_inv rep Hc) as (Hf & Ht & Hn). cbn [snd].
  apply (reconcile_converges mdemo_cfg (fun s => s) (fun _ => "2025"%string) (fun c => c =? 32)
      (fun _ _ => Some [1%Q]) mdemo_me None mdemo_world rep w');
    [reflexivity|reflexivity| | |exact E|exact Hf|exact Ht|exact Hn].
  - intros c x Hx _. destruct c; cbn [v_rows view_of v_episodic v_semantic episodic semantic mdemo_world] in Hx;
      rewrite ?elem_of_cons, ?elem_of_nil in Hx; destruct_or? Hx; subst; done.
  - apply (bool_decide_unpack _). vm_compute. exact I.
Defined.

(** Stores that agree: one indexed row and its canonical point. *)
Definition mdemo_agreed : mem_world (gmap string payload) :=
  mkMemWorld [mdemo_doc "a" "t" "episodic" [104] "active" "indexed" (Some 1)] [] []
    {["memory:t:u:a"%string := mdemo_point "a" "t"]} false 0 0.

Lemma reconcile_idempotent_witness :
  exists rep w', mdemo_pass (Some mdemo_me) mdemo_cfg None None mdemo_agreed = (Ok rep, w') /\
    view_of w' = view_of mdemo_agreed.
Proof.
  destruct (reconcile_idempotent mdemo_cfg (fun s => s) (fun _ => "2025"%string) (fun c => c =? 32)
    (fun _ _ => Some [1%Q]) mdemo_me None None mdemo_agreed) as (rep & w' & E & Ev & _).
  - reflexivity.
  - split; [by repeat constructor|]. intros id p Hp _. cbn in Hp. unfold toy_points in Hp.
    apply lookup_delete_Some in Hp as [_ Hp].
    apply lookup_singleton_Some in Hp as [<- <-]. right. split; [by left|done].
  - exists rep, w'. by split.
Defined.

(** A superseded row whose point outlived a crash. *)
Definition mdemo_crashed : mem_world (gmap string payload) :=
  mkMemWorld [mdemo_doc "s" "t" "episodic" [104] "superseded" "indexed" (Some 1)] [] []
    {["memory:t:u:s"%string := mdemo_point "s" "t"]} false 0 0.

Lemma superseded_vector_survives_witness :
  abandoned mdemo_me (fun s => s) Episodic
    (mdemo_doc "s" "t" "episodic" [104] "superseded" "indexed" (Some 1)) (mdemo_point "s" "t")
    (view_of (passes (Some mdemo_me) mdemo_cfg (fun s => s) (fun _ => "2025"%string)
       (fun c => c =? 32) (fun _ _ => Some [1%Q]) (repeat (None, None) 5) mdemo_crashed)).
Proof.
  apply superseded_vector_survives; [apply _|].
  split; try reflexivity. split_and!; [by apply NoDup_singleton|by left|done].
Defined.

(** A row without text before one that could be indexed, with one repair per pass. *)
Definition mdemo_blocked : mem_world (gmap string payload) :=
  mkMemWorld [mdemo_doc "a" "t" "episodic" [32; 32] "active" "pending" None;
              mdemo_doc "b" "t" "episodic" [104] "active" "pending" None] [] [] ∅ false 0 0.

Lemma blocked_head_starves_witness :
  episodic (passes (Some mdemo_me) mdemo_cfg (fun s => s) (fun _ => "2025"%string)
    (fun c => c =? 32) (fun _ _ => Some [1%Q]) (repeat (Some 1, None) 9) mdemo_blocked) =
  episodic mdemo_blocked.
Proof.
  destruct (blocked_head_starves (Some mdemo_me) mdemo_cfg (fun s => s) (fun _ => "2025"%string)
    (fun c => c =? 32) (fun _ _ => Some [1%Q]) [mdemo_doc "a" "t" "episodic" [32; 32] "active" "pending" None]
    [mdemo_doc "b" "t" "episodic" [104] "active" "pending" None] (repeat (Some 1, None) 9) mdemo_blocked)
    as [E _]; [reflexivity|repeat constructor; by eexists|repeat constructor|exact E].
Defined.

Lemma delete_memory_contract_witness :
  exists r w', delete_memory (Some mdemo_me) mdemo_cfg (fun _ => "2025"%string) "a" mdemo_agreed = (Ok r, w') /\
    deleted_as (Some mdemo_me) "a" r w'.
Proof.
  destruct (delete_memory (Some mdemo_me) mdemo_cfg (fun _ => "2025"%string) "a" mdemo_agreed)
    as [[r|e] w'] eqn:E; [|vm_compute in E; discriminate].
  exists r, w'. split; [done|]. refine (delete_memory_contract _ _ _ _ _ _ _ _ E). by apply NoDup_singleton.
Defined.

Lemma reconcile_bounded_witness :
  exists rep w', mdemo_pass (Some mdemo_me) mdemo_cfg (Some 2) None mdemo_world = (Ok rep, w') /\
    acted rep <= 4 /\ drift_total rep <= 4.
Proof.
  exact (reconcile_bounded mdemo_cfg (fun s => s) (fun _ => "2025"%string) (fun c => c =? 32)
    (fun _ _ => Some [1%Q]) (Some mdemo_me) (Some 2) None mdemo_world).
Defined.
