(* ===== verification/PyValue.v ===== *)
(** * Dynamic values, effects and their program logic

    Replies, checkpoints and chunks are Python dictionaries without a schema.  They are
    modelled as [json] values with the operations the code uses on them: [.get], [or],
    truthiness, assignment to a key, slices and [str].  A computation of the conversation
    runtime is a function from a world to an outcome and the world it leaves, so effects
    done before an exception stay done.  [hoare] is the logic for it: a postcondition for
    a normal return and one for every exception. *)

From Stdlib Require Import QArith Ascii String.
From stdpp Require Import base list sets strings pretty.
From S2P Require Import Prelude.

Local Open Scope string_scope.
Local Open Scope list_scope.
Local Open Scope Z_scope.

(** ** Text literals *)

Fixpoint lit (s : string) : text :=
  match s with
  | EmptyString => []
  | String a s' => Z.of_nat (Ascii.nat_of_ascii a) :: lit s'
  end.
Arguments lit s : simpl never.

#[export] Instance lit_inj : Inj (=) (=) lit.
Proof.
  intros s. induction s as [|a s IH]; intros [|b s']; try done.
  change (Z.of_nat (Ascii.nat_of_ascii a) :: lit s =
          Z.of_nat (Ascii.nat_of_ascii b) :: lit s' -> String a s = String b s').
  intros [= H1%Nat2Z.inj H2]. f_equal; [|by apply IH].
  rewrite <- (Ascii.ascii_nat_embedding a), <- (Ascii.ascii_nat_embedding b). by f_equal.
Qed.

(** ** Values *)

Inductive json :=
  | JNull
  | JBool (b : bool)
  | JInt (n : Z)
  | JFloat (q : Q)
  | JStr (s : text)
  | JArr (l : list json)
  | JObj (o : list (string * json)).

Abbreviation obj := (list (string * json)).

(** A dictionary keeps its keys in insertion order; assigning an existing key keeps its
    place. *)
Fixpoint obj_get (o : obj) (k : string) : option json :=
  match o with
  | [] => None
  | (k', v) :: o' => if decide (k = k') then Some v else obj_get o' k
  end.

Fixpoint obj_set (o : obj) (k : string) (v : json) : obj :=
  match o with
  | [] => [(k, v)]
  | (k', v') :: o' => if decide (k = k') then (k, v) :: o' else (k', v') :: obj_set o' k v
  end.

Definition obj_pop (o : obj) (k : string) : obj :=
  List.filter (fun kv => negb (bool_decide (kv.1 = k))) o.

(** [{**o, **o'}]. *)
Definition obj_update (o o' : obj) : obj :=
  foldl (fun acc kv => obj_set acc kv.1 kv.2) o o'.

Definition has_key (o : obj) (k : string) : bool :=
  match obj_get o k with Some _ => true | None => false end.

(** [o.get(k, d)] and [o.get(k)]. *)
Definition get_or (o : obj) (k : string) (d : json) : json :=
  match obj_get o k with Some v => v | None => d end.
Definition get (o : obj) (k : string) : json := get_or o k JNull.

(** [dict.setdefault]. *)
Definition obj_setdefault (o : obj) (k : string) (v : json) : obj :=
  if has_key o k then o else obj_set o k v.

(** [bool(v)]. *)
Definition jtrue (v : json) : bool :=
  match v with
  | JNull => false
  | JBool b => b
  | JInt n => negb (n =? 0)
  | JFloat q => negb (Qeq_bool q 0)
  | JStr s => negb (bool_decide (s = []))
  | JArr l => match l with [] => false | _ => true end
  | JObj o => match o with [] => false | _ => true end
  end.

(** [a or b]. *)
Definition jor (a b : json) : json := if jtrue a then a else b.
Notation "a '|||' b" := (jor a b) (at level 50, left associativity) : ragforge_scope.

(** A number as the comparisons and [float] see it. *)
Definition as_num (v : json) : option Q :=
  match v with
  | JBool b => Some (if b then 1 else 0)%Q
  | JInt n => Some (inject_Z n)
  | JFloat q => Some q
  | _ => None
  end.

(** [isinstance(v, dict)]. *)
Definition as_obj (v : json) : option obj :=
  match v with JObj o => Some o | _ => None end.

Definition is_none (v : json) : bool := match v with JNull => true | _ => false end.

(** [isinstance(v, str)] compared with a literal. *)
Definition is_str (v : json) (s : string) : bool :=
  match v with JStr t => bool_decide (t = lit s) | _ => false end.

Definition s_ (s : string) : json := JStr (lit s).

(** [a == b]: numbers compare by value across their types, dictionaries without order. *)
Fixpoint py_eqb (a b : json) {struct a} : bool :=
  match a, b with
  | JNull, JNull => true
  | JStr s, JStr t => bool_decide (s = t)
  | JArr l, JArr k =>
      (fix all (l k : list json) : bool :=
         match l, k with
         | [], [] => true
         | x :: l', y :: k' => py_eqb x y && all l' k'
         | _, _ => false
         end) l k
  | JObj o, JObj p =>
      (length o =? length p)%nat &&
      (fix all (o : list (string * json)) : bool :=
         match o with
         | [] => true
         | (k, v) :: o' => match obj_get p k with Some w => py_eqb v w | None => false end && all o'
         end) o
  | _, _ => match as_num a, as_num b with Some x, Some y => Qeq_bool x y | _, _ => false end
  end.

Lemma py_eqb_str v t : py_eqb v (JStr t) = true <-> v = JStr t.
Proof.
  destruct v; cbn; try done.
  - rewrite bool_decide_eq_true. split; [by intros ->|by intros [= ->]].
Qed.

(** ** Text functions of the interpreter

    What depends on Unicode tables or on the printing of values: [str.isspace],
    [str.casefold], [str.lower], the words [\w+] finds, [str.isdigit] on one character,
    what [str] prints for a value that is not a string, and [float] and [int] of a string,
    [None] when they raise. *)
Class PyText := {
  isspace : Z -> bool;
  casefold : text -> text;
  lower : text -> text;
  findall_words : text -> list text;
  isdigit : Z -> bool;
  repr : json -> text;
  parse_float : text -> option Q;
  parse_int : text -> option Z
}.

(** Integers as [str] prints them. *)
Definition show (n : Z) : text := lit (pretty n).

Section PyStr.
Context `{PyText}.

(** [str(v)]: a string is itself. *)
Definition py_str (v : json) : text := match v with JStr s => s | _ => repr v end.

(** [str.rstrip()] and [str.strip()]. *)
Definition rstrip (t : text) : text := reverse (drop_while isspace (reverse t)).
Definition py_strip (t : text) : text := strip isspace t.

(** [str.split()]: the maximal runs of characters that are not spaces. *)
Fixpoint split_words (cur : text) (t : text) : list text :=
  match t with
  | [] => match cur with [] => [] | _ => [reverse cur] end
  | c :: t' =>
      if isspace c
      then match cur with [] => split_words [] t' | _ => reverse cur :: split_words [] t' end
      else split_words (c :: cur) t'
  end.
Definition py_split (t : text) : list text := split_words [] t.

(** [sep.join(l)]. *)
Fixpoint join (sep : text) (l : list text) : text :=
  match l with
  | [] => []
  | [x] => x
  | x :: l' => x ++ sep ++ join sep l'
  end.
End PyStr.

(** Comparison of strings by code points. *)
Fixpoint text_leb (a b : text) : bool :=
  match a, b with
  | [], _ => true
  | _, [] => false
  | x :: a', y :: b' => (x <? y) || ((x =? y) && text_leb a' b')
  end.

Lemma text_leb_total a b : text_leb a b = true \/ text_leb b a = true.
Proof.
  revert b. induction a as [|x a IH]; intros [|y b]; cbn; [by left|by left|by right|].
  rewrite !orb_true_iff, !andb_true_iff, !Z.ltb_lt, !Z.eqb_eq.
  destruct (Z.lt_total x y) as [?|[->|?]]; [by left; left| |by right; left].
  destruct (IH b); [left|right]; by right.
Qed.

Lemma text_leb_trans a b c : text_leb a b = true -> text_leb b c = true -> text_leb a c = true.
Proof.
  revert b c. induction a as [|x a IH]; intros [|y b] [|z c]; cbn; try done.
  rewrite !orb_true_iff, !andb_true_iff, !Z.ltb_lt, !Z.eqb_eq.
  intros [?|[-> ?]] [?|[-> ?]]; [left; lia|by left|by left|right; split; [done|]; eauto].
Qed.

Lemma text_leb_antisymm a b : text_leb a b = true -> text_leb b a = true -> a = b.
Proof.
  revert b. induction a as [|x a IH]; intros [|y b]; cbn; try done.
  rewrite !orb_true_iff, !andb_true_iff, !Z.ltb_lt, !Z.eqb_eq.
  intros [?|[-> ?]] [?|[? ?]]; try lia. f_equal. by apply IH.
Qed.

(** The functions on ASCII, for evaluating the model. *)
Section Ascii.
Definition ascii_space (c : Z) : bool := (c =? 32) || ((9 <=? c) && (c <=? 13)).
Definition ascii_lower (t : text) : text :=
  map (fun c => if (65 <=? c) && (c <=? 90) then c + 32 else c) t.
Definition ascii_word_char (c : Z) : bool :=
  ((97 <=? c) && (c <=? 122)) || ((65 <=? c) && (c <=? 90)) || ((48 <=? c) && (c <=? 57)) || (c =? 95).
Fixpoint ascii_words (cur : text) (t : text) : list text :=
  match t with
  | [] => match cur with [] => [] | _ => [reverse cur] end
  | c :: t' =>
      if ascii_word_char c then ascii_words (c :: cur) t'
      else match cur with [] => ascii_words [] t' | _ => reverse cur :: ascii_words [] t' end
  end.
Definition ascii_repr (v : json) : text :=
  match v with
  | JNull => lit "None"
  | JBool true => lit "True"
  | JBool false => lit "False"
  | JInt n => show n
  | JFloat q => show (Qnum q) ++ lit "/" ++ show (Zpos (Qden q))
  | JStr s => s
  | JArr _ => lit "[...]"
  | JObj _ => lit "{...}"
  end.
Definition ascii_int (t : text) : option Z :=
  if existsb (fun c => negb ((48 <=? c) && (c <=? 57))) t || bool_decide (t = []) then None
  else Some (foldl (fun n c => n * 10 + (c - 48)) 0 t).
End Ascii.

Definition ascii_text : PyText := {|
  isspace := ascii_space; casefold := ascii_lower; lower := ascii_lower;
  findall_words := ascii_words []; isdigit := fun c => (48 <=? c) && (c <=? 57);
  repr := ascii_repr; parse_float := fun _ => None; parse_int := ascii_int
|}.

Lemma obj_get_set o k k' v :
  obj_get (obj_set o k v) k' = if decide (k' = k) then Some v else obj_get o k'.
Proof.
  induction o as [|[k0 v0] o IH]; cbn; [done|].
  destruct (decide (k = k0)) as [->|Hk]; cbn.
  - by destruct (decide (k' = k0)).
  - destruct (decide (k' = k0)) as [->|]; [by rewrite decide_False by done|done].
Qed.

Lemma obj_get_set_eq o k v : obj_get (obj_set o k v) k = Some v.
Proof. rewrite obj_get_set. by rewrite decide_True. Qed.

Lemma obj_get_set_ne o k k' v : k' <> k -> obj_get (obj_set o k v) k' = obj_get o k'.
Proof. intros. rewrite obj_get_set. by rewrite decide_False. Qed.

Lemma obj_get_pop o k k' :
  obj_get (obj_pop o k) k' = if decide (k' = k) then None else obj_get o k'.
Proof.
  induction o as [|[k0 v0] o IH]; cbn; [by destruct (decide _)|].
  unfold obj_pop in *. cbn [List.filter fst].
  destruct (decide (k0 = k)) as [->|Hk].
  - rewrite (bool_decide_true (k = k)) by done. cbn. rewrite IH.
    destruct (decide (k' = k)); done.
  - rewrite (bool_decide_false (k0 = k)) by done. cbn. rewrite IH.
    destruct (decide (k' = k0)) as [->|]; [by rewrite decide_False by done|done].
Qed.

Lemma get_set o k k' v : get (obj_set o k v) k' = if decide (k' = k) then v else get o k'.
Proof. unfold get, get_or. rewrite obj_get_set. by destruct (decide (k' = k)). Qed.

Lemma obj_set_in o k v x : x ∈ (obj_set o k v).*1 -> x = k \/ x ∈ o.*1.
Proof.
  induction o as [|[k' v'] o IH]; cbn; [set_solver|].
  destruct (decide (k = k')) as [->|]; cbn; [set_solver|]. rewrite !elem_of_cons. naive_solver.
Qed.

Lemma obj_set_keys o k v : NoDup o.*1 -> NoDup (obj_set o k v).*1.
Proof.
  induction o as [|[k' v'] o IH]; cbn; intros Hnd; [apply NoDup_singleton|].
  destruct (decide (k = k')) as [->|Hk]; [done|]. cbn in *. apply NoDup_cons in Hnd as [Hk' Hnd].
  constructor; [|by apply IH]. intros [->|?]%obj_set_in; done.
Qed.

Lemma obj_set_values (P : json -> Prop) o k v :
  Forall (fun kv => P kv.2) o -> P v -> Forall (fun kv => P kv.2) (obj_set o k v).
Proof.
  induction 1 as [|[k' v'] o Hv Ho IH]; cbn; intros Hp; [by repeat constructor|].
  destruct (decide (k = k')); constructor; auto.
Qed.

Lemma obj_update_keys o e : NoDup o.*1 -> NoDup (obj_update o e).*1.
Proof.
  unfold obj_update. revert o. induction e as [|[k v] e IH]; intros o Ho; cbn; [done|].
  by apply IH, obj_set_keys.
Qed.

Lemma obj_update_values (P : json -> Prop) o e :
  Forall (fun kv => P kv.2) o -> Forall (fun kv => P kv.2) e -> Forall (fun kv => P kv.2) (obj_update o e).
Proof.
  unfold obj_update. intros Ho He. revert o Ho. induction He as [|[k v] e Hv He IH]; intros o Ho; cbn; [done|].
  by apply IH, obj_set_values.
Qed.

Lemma obj_get_cons k v o k' : obj_get ((k, v) :: o) k' = if decide (k' = k) then Some v else obj_get o k'.
Proof. done. Qed.

(** Read a field of a dictionary given by its entries. *)
Ltac obj_field :=
  repeat (rewrite obj_get_cons; first [rewrite decide_True by reflexivity|rewrite decide_False by discriminate]).

Lemma obj_get_not_in o k : k ∉ o.*1 -> obj_get o k = None.
Proof. induction o as [|[k' v] o IH]; cbn; [done|]. intros Hk. rewrite decide_False by set_solver. apply IH. set_solver. Qed.

Lemma obj_get_update o e k : NoDup e.*1 ->
  obj_get (obj_update o e) k = match obj_get e k with Some v => Some v | None => obj_get o k end.
Proof.
  unfold obj_update. revert o. induction e as [|[k' v] e IH]; intros o He; cbn; [done|].
  apply NoDup_cons in He as [Hk He]. rewrite IH by done. destruct (decide (k = k')) as [->|Hne].
  - rewrite obj_get_not_in by done. apply obj_get_set_eq.
  - destruct (obj_get e k); [done|]. by apply obj_get_set_ne.
Qed.

Lemma NoDup_keys_filter {K V} (f : K * V -> bool) (l : list (K * V)) :
  NoDup l.*1 -> NoDup (List.filter f l).*1.
Proof.
  induction l as [|[k v] l IH]; cbn; [done|]. intros [Hk Hn]%NoDup_cons.
  destruct (f (k, v)); cbn; [|auto]. constructor; [|auto].
  intros ([k2 v2] & -> & Hin)%list_elem_of_fmap. apply list_elem_of_In, filter_In in Hin as [Hin _].
  apply Hk, list_elem_of_fmap. exists (k2, v2). split; [done|]. by apply list_elem_of_In.
Qed.

Lemma obj_pop_keys f k : NoDup f.*1 -> NoDup (obj_pop f k).*1.
Proof. apply NoDup_keys_filter. Qed.

Lemma obj_get_elem f k v : NoDup f.*1 -> (k, v) ∈ f -> obj_get f k = Some v.
Proof.
  induction f as [|[k' v'] f IH]; cbn; [set_solver|]. intros [Hk Hn]%NoDup_cons.
  rewrite elem_of_cons. destruct (decide (k = k')) as [->|].
  - intros [[= ->]|Hin]; [done|]. destruct Hk. apply list_elem_of_fmap. by exists (k', v).
  - intros [[= -> ->]|Hin]; [done|auto].
Qed.

Lemma jor_true a b : jtrue a = true -> (a ||| b)%rf = a.
Proof. unfold jor. by intros ->. Qed.

(** ** Facts about [rstrip] *)

Lemma drop_while_suffix {A} (f : A -> bool) (l : list A) :
  exists pre, l = pre ++ drop_while f l.
Proof.
  induction l as [|x l [pre IH]]; cbn; [by exists []|].
  destruct (f x); [exists (x :: pre); cbn; by rewrite <- IH|by exists []].
Qed.

Lemma rstrip_prefix `{PyText} (t : text) : rstrip t `prefix_of` t.
Proof.
  unfold rstrip. destruct (drop_while_suffix isspace (reverse t)) as [pre Hp].
  exists (reverse pre). rewrite <- reverse_app, <- Hp. by rewrite reverse_involutive.
Qed.

Lemma length_rstrip `{PyText} (t : text) : (length (rstrip t) <= length t)%nat.
Proof. apply prefix_length, rstrip_prefix. Qed.

(** ** Exceptions of the conversation runtime

    [Cancelled] is [asyncio.CancelledError], which [except Exception] does not catch. *)

Inductive py_exn :=
  | GuardrailBlockedError (stage : text)
  | DownstreamRPCError (code message : text) (evidence : option obj)
  | PyError (cls message : text)
  | Cancelled.

(** [str(exc)]. *)
Definition exn_text (e : py_exn) : text :=
  match e with
  | GuardrailBlockedError stage => stage ++ lit " guardrail blocked the request"
  | DownstreamRPCError code message _ => code ++ lit ": " ++ message
  | PyError _ message => message
  | Cancelled => []
  end.

Definition is_class (cls : string) (e : py_exn) : bool :=
  match e with PyError c _ => bool_decide (c = lit cls) | _ => false end.

(** [except Exception]. *)
Definition is_exception (e : py_exn) : bool := match e with Cancelled => false | _ => true end.

Definition AttributeError {A} : outcome py_exn A :=
  Raise (PyError (lit "AttributeError") (lit "no attribute 'get'")).
Definition TypeError {A} : outcome py_exn A :=
  Raise (PyError (lit "TypeError") (lit "unsupported operand")).

(** [v.get(k, d)] on a value of unknown type. *)
Definition vget_or (v : json) (k : string) (d : json) : outcome py_exn json :=
  match v with JObj o => Ok (get_or o k d) | _ => AttributeError end.

(** [for item in v]: the items of a list, each used as a dictionary. *)
Fixpoint as_objs (l : list json) : outcome py_exn (list obj) :=
  match l with
  | [] => Ok []
  | JObj o :: l' => let* r := as_objs l' in Ok (o :: r)
  | _ :: _ => AttributeError
  end.

(** [v[:n]]. *)
Definition jprefix (v : json) (n : Z) : outcome py_exn json :=
  match v with
  | JStr s => Ok (JStr (py_prefix s n))
  | JArr l => Ok (JArr (py_prefix l n))
  | _ => TypeError
  end.

(** ** Effects *)

Section Effects.
Context {W : Type}.

Definition eff (A : Type) : Type := W -> outcome py_exn A * W.

Definition ret {A} (a : A) : eff A := fun w => (Ok a, w).
Definition raise {A} (e : py_exn) : eff A := fun w => (Raise e, w).
Definition bind {A B} (c : eff A) (k : A -> eff B) : eff B := fun w =>
  match c w with
  | (Ok a, w') => k a w'
  | (Raise e, w') => (Raise e, w')
  end.
Definition gets {A} (f : W -> A) : eff A := fun w => (Ok (f w), w).
Definition modify (f : W -> W) : eff unit := fun w => (Ok tt, f w).
Definition lift {A} (o : outcome py_exn A) : eff A := fun w => (o, w).

(** [try: c except E: h(e)], for the exceptions the clause names. *)
Definition catch {A} (c : eff A) (h : py_exn -> option (eff A)) : eff A := fun w =>
  match c w with
  | (Ok a, w') => (Ok a, w')
  | (Raise e, w') => match h e with Some k => k w' | None => (Raise e, w') end
  end.

(** The outcome of a task as a value: [asyncio.create_task] followed by awaiting it later. *)
Definition attempt {A} (c : eff A) : eff (outcome py_exn A) := fun w =>
  let '(o, w') := c w in (Ok o, w').

(** [for x in l: f(x)]. *)
Fixpoint iterM {A} (f : A -> eff unit) (l : list A) : eff unit :=
  match l with
  | [] => ret tt
  | x :: l' => bind (f x) (fun _ => iterM f l')
  end.

(** [for x in l: acc = f(acc, x)]. *)
Fixpoint foldM {A B} (f : A -> B -> eff A) (a : A) (l : list B) : eff A :=
  match l with
  | [] => ret a
  | x :: l' => bind (f a x) (fun a' => foldM f a' l')
  end.

(** *** Program logic *)

Definition hoare {A} (P : W -> Prop) (c : eff A) (Q : A -> W -> Prop)
    (E : py_exn -> W -> Prop) : Prop :=
  forall w, P w ->
    match c w with
    | (Ok a, w') => Q a w'
    | (Raise e, w') => E e w'
    end.

Lemma hoare_ret {A} (a : A) (P : W -> Prop) (Q : A -> W -> Prop) E :
  (forall w, P w -> Q a w) -> hoare P (ret a) Q E.
Proof. intros H w Hw. by apply H. Qed.

Lemma hoare_raise {A} e (P : W -> Prop) (Q : A -> W -> Prop) (E : py_exn -> W -> Prop) :
  (forall w, P w -> E e w) -> hoare P (raise e) Q E.
Proof. intros H w Hw. by apply H. Qed.

Lemma hoare_bind {A B} (c : eff A) (k : A -> eff B) P R Q E :
  hoare P c R E -> (forall a, hoare (R a) (k a) Q E) -> hoare P (bind c k) Q E.
Proof.
  intros Hc Hk w Hw. specialize (Hc w Hw). unfold bind. destruct (c w) as [[a|e] w'].
  - by apply Hk.
  - done.
Qed.

Lemma hoare_gets {A} (f : W -> A) (P : W -> Prop) (Q : A -> W -> Prop) E :
  (forall w, P w -> Q (f w) w) -> hoare P (gets f) Q E.
Proof. intros H w Hw. by apply H. Qed.

Lemma hoare_modify f (P : W -> Prop) (Q : unit -> W -> Prop) E :
  (forall w, P w -> Q tt (f w)) -> hoare P (modify f) Q E.
Proof. intros H w Hw. by apply H. Qed.

Lemma hoare_lift {A} (o : outcome py_exn A) (P : W -> Prop) (Q : A -> W -> Prop)
    (E : py_exn -> W -> Prop) :
  (forall w a, o = Ok a -> P w -> Q a w) -> (forall w e, P w -> E e w) ->
  hoare P (lift o) Q E.
Proof. intros H1 H2 w Hw. unfold lift. destruct o; eauto. Qed.

Lemma hoare_conseq {A} (c : eff A) (P P' : W -> Prop) (Q Q' : A -> W -> Prop)
    (E E' : py_exn -> W -> Prop) :
  hoare P' c Q' E' -> (forall w, P w -> P' w) -> (forall a w, Q' a w -> Q a w) ->
  (forall e w, E' e w -> E e w) -> hoare P c Q E.
Proof.
  intros H HP HQ HE w Hw. specialize (H w (HP w Hw)). destruct (c w) as [[a|e] w']; eauto.
Qed.

Lemma hoare_and {A} (c : eff A) (P P' : W -> Prop) (Q Q' : A -> W -> Prop)
    (E E' : py_exn -> W -> Prop) :
  hoare P c Q E -> hoare P' c Q' E' ->
  hoare (fun w => P w /\ P' w) c (fun a w => Q a w /\ Q' a w) (fun e w => E e w /\ E' e w).
Proof.
  intros H H' w [Hw Hw']. specialize (H w Hw). specialize (H' w Hw').
  destruct (c w) as [[a|e] w']; eauto.
Qed.

Lemma hoare_attempt {A} (c : eff A) (P : W -> Prop) (R : W -> Prop) E :
  hoare P c (fun _ => R) (fun _ => R) -> hoare P (attempt c) (fun _ => R) E.
Proof.
  intros H w Hw. specialize (H w Hw). unfold attempt. by destruct (c w) as [[a|e] w'].
Qed.

Lemma hoare_catch {A} (c : eff A) h P Q E (E' : py_exn -> W -> Prop) :
  hoare P c Q E' ->
  (forall e, match h e with
             | Some k => hoare (E' e) k Q E
             | None => forall w, E' e w -> E e w
             end) ->
  hoare P (catch c h) Q E.
Proof.
  intros Hc Hh w Hw. specialize (Hc w Hw). unfold catch.
  destruct (c w) as [[a|e] w']; [done|]. specialize (Hh e). destruct (h e); by apply Hh.
Qed.

(** A relation every run respects, from the world before to the world after, whether it
    returns or raises.  For a preorder it composes. *)
Definition within {A} (R : W -> W -> Prop) (c : eff A) : Prop := forall w, R w (c w).2.

Section Within.
Context (R : W -> W -> Prop) `{!PreOrder R}.

Lemma within_ret {A} (a : A) : within R (ret a).
Proof. intros w. reflexivity. Qed.
Lemma within_raise {A} e : within R (@raise A e).
Proof. intros w. reflexivity. Qed.
Lemma within_gets {A} (f : W -> A) : within R (gets f).
Proof. intros w. reflexivity. Qed.
Lemma within_lift {A} (o : outcome py_exn A) : within R (lift o).
Proof. intros w. reflexivity. Qed.
Lemma within_modify f : (forall w, R w (f w)) -> within R (modify f).
Proof. intros Hf w. apply Hf. Qed.

Lemma within_bind {A B} (c : eff A) (k : A -> eff B) :
  within R c -> (forall a, within R (k a)) -> within R (bind c k).
Proof.
  intros Hc Hk w. unfold bind. specialize (Hc w). destruct (c w) as [[a|e] w'] eqn:E; cbn in *.
  - etrans; [exact Hc|apply Hk].
  - exact Hc.
Qed.

Lemma within_iterM {A} (f : A -> eff unit) l :
  (forall x, within R (f x)) -> within R (iterM f l).
Proof.
  intros Hf. induction l as [|x l IH]; cbn; [apply within_ret|]. by apply within_bind.
Qed.

Lemma within_foldM {A B} (f : A -> B -> eff A) a l :
  (forall a x, x ∈ l -> within R (f a x)) -> within R (foldM f a l).
Proof.
  revert a. induction l as [|x l IH]; intros a Hf; cbn; [apply within_ret|].
  apply within_bind; [apply Hf; by left|]. intros a'. apply IH. intros. apply Hf. by right.
Qed.

Lemma within_attempt {A} (c : eff A) : within R c -> within R (attempt c).
Proof. intros Hc w. unfold attempt. specialize (Hc w). by destruct (c w). Qed.

Lemma within_catch {A} (c : eff A) h :
  within R c -> (forall e k, h e = Some k -> within R k) -> within R (catch c h).
Proof.
  intros Hc Hh w. unfold catch. specialize (Hc w). destruct (c w) as [[a|e] w'] eqn:E; cbn in *.
  - exact Hc.
  - destruct (h e) as [k|] eqn:Ek; [|exact Hc]. etrans; [exact Hc|]. by eapply Hh.
Qed.
End Within.
End Effects.

Arguments eff W A : clear implicits.

Notation "x <-- c ; k" := (bind c (fun x => k))
  (at level 100, c at next level, right associativity) : ragforge_scope.
Notation "c ;;; k" := (bind c (fun _ => k))
  (at level 100, right associativity) : ragforge_scope.

Create HintDb effects.
#[export] Hint Resolve within_ret within_raise within_gets within_lift : effects.

(** Walk through a program whose parts all respect a preorder. *)
Ltac within_walk :=
  repeat first
    [ solve [eauto with effects nocore typeclass_instances]
    | apply within_bind; [typeclasses eauto| |intros ?]
    | apply within_iterM; [typeclasses eauto|intros ?]
    | apply within_attempt
    | match goal with
      | |- within _ (if ?b then _ else _) => destruct b
      | |- within _ (match ?x with _ => _ end) => destruct x
      | |- within _ (let _ := _ in _) => cbn zeta
      | |- within _ ((fun _ => _) _) => cbn beta
      end ].
