(* ===== verification/ConversationStages.v ===== *)
(** * Execution order of a conversation turn

    [src/backend/rag/app/services/conversation_stages.py] and the routing part of
    [conversation_graph.py]: the two execution paths, the checkpoint milestones and the
    nodes that remain after one, and the LangGraph workflow [_build_graph] declares.

    The library that runs the compiled workflow (LangGraph) is not part of the repository:
    it is a parameter, any [engine] with the documented law that a workflow whose edges
    lead from each node to one next node is run one node after the other along them, up to
    [END], within the recursion limit.  [superstep_engine] is one. *)

From Stdlib Require Import QArith.
From stdpp Require Import base list strings.
From S2P Require Import Prelude PyValue.

Local Open Scope string_scope.
Local Open Scope list_scope.

(** [Mode] of [conversation_types.py]. *)
Inductive Mode := regular | extended.

#[export] Instance Mode_eq_dec : EqDecision Mode.
Proof. solve_decision. Defined.

Inductive NodeName :=
  | input_guardrails
  | load_short_term_context
  | load_memory_light
  | retrieve_chunks_once
  | generate_answer
  | evaluate_answer_light
  | load_memory_deep
  | rewrite_or_decompose_query
  | retrieve_pass_one
  | retrieve_pass_two_if_needed
  | merge_candidates
  | rerank_candidates
  | generate_draft_answer
  | evaluate_answer_deep
  | revise_once_if_needed
  | output_guardrails
  | persist_turn
  | stream_done.

#[export] Instance NodeName_eq_dec : EqDecision NodeName.
Proof. solve_decision. Defined.

Definition node_name (n : NodeName) : string :=
  match n with
  | input_guardrails => "input_guardrails"
  | load_short_term_context => "load_short_term_context"
  | load_memory_light => "load_memory_light"
  | retrieve_chunks_once => "retrieve_chunks_once"
  | generate_answer => "generate_answer"
  | evaluate_answer_light => "evaluate_answer_light"
  | load_memory_deep => "load_memory_deep"
  | rewrite_or_decompose_query => "rewrite_or_decompose_query"
  | retrieve_pass_one => "retrieve_pass_one"
  | retrieve_pass_two_if_needed => "retrieve_pass_two_if_needed"
  | merge_candidates => "merge_candidates"
  | rerank_candidates => "rerank_candidates"
  | generate_draft_answer => "generate_draft_answer"
  | evaluate_answer_deep => "evaluate_answer_deep"
  | revise_once_if_needed => "revise_once_if_needed"
  | output_guardrails => "output_guardrails"
  | persist_turn => "persist_turn"
  | stream_done => "stream_done"
  end.

Definition EXECUTION_PATHS (m : Mode) : list NodeName :=
  match m with
  | regular =>
      [ input_guardrails; load_short_term_context; load_memory_light; retrieve_chunks_once;
        rerank_candidates; generate_answer; evaluate_answer_light; output_guardrails;
        persist_turn; stream_done ]
  | extended =>
      [ input_guardrails; load_short_term_context; load_memory_deep;
        rewrite_or_decompose_query; retrieve_pass_one; retrieve_pass_two_if_needed;
        merge_candidates; rerank_candidates; generate_draft_answer; evaluate_answer_deep;
        revise_once_if_needed; output_guardrails; persist_turn; stream_done ]
  end.

Definition COMPLETED_NODE_BY_STAGE (m : Mode) : list (string * NodeName) :=
  match m with
  | regular =>
      [ ("after_context_load", load_short_term_context);
        ("after_retrieval", retrieve_chunks_once);
        ("after_final_ranking", rerank_candidates);
        ("after_generation", generate_answer);
        ("after_evaluation", evaluate_answer_light);
        ("after_persistence", persist_turn) ]
  | extended =>
      [ ("after_context_load", load_short_term_context);
        ("after_retrieval", retrieve_pass_one);
        ("after_pass_one", retrieve_pass_one);
        ("after_pass_two", retrieve_pass_two_if_needed);
        ("after_final_ranking", rerank_candidates);
        ("after_generation", generate_draft_answer);
        ("after_evaluation", evaluate_answer_deep);
        ("after_persistence", persist_turn) ]
  end.

Definition completed_node (m : Mode) (stage : string) : option NodeName :=
  (List.find (fun e => bool_decide (e.1 = stage)) (COMPLETED_NODE_BY_STAGE m)) ≫=
    (fun e => Some e.2).

(** [path[path.index(n) + 1 :]]. *)
Fixpoint after_node (n : NodeName) (path : list NodeName) : list NodeName :=
  match path with
  | [] => []
  | x :: path' => if decide (x = n) then path' else after_node n path'
  end.

Definition remaining_nodes (m : Mode) (stage : string) : option (list NodeName) :=
  let path := EXECUTION_PATHS m in
  if decide (stage = "graph_start") then Some path
  else match completed_node m stage with
       | None => None
       | Some n => Some (after_node n path)
       end.

(** ** The workflow *)

Inductive target := To (n : NodeName) | END.

#[export] Instance target_eq_dec : EqDecision target.
Proof. solve_decision. Defined.

(** What a node's outgoing declaration says: [add_edge] or [add_conditional_edges] on the
    mode. *)
Inductive edge := Edge (t : target) | CondEdge (by_mode : list (Mode * target)).

Record workflow := mkWorkflow { entry : NodeName; edges : list (NodeName * edge) }.

(** [successors.setdefault(current, {})[mode] = following]. *)
Fixpoint set_successor (cur : NodeName) (m : Mode) (t : target)
    (succ : list (NodeName * list (Mode * target))) : list (NodeName * list (Mode * target)) :=
  match succ with
  | [] => [(cur, [(m, t)])]
  | (n, by_mode) :: succ' =>
      if decide (n = cur)
      then (n, List.filter (fun e => negb (bool_decide (e.1 = m))) by_mode ++ [(m, t)]) :: succ'
      else (n, by_mode) :: set_successor cur m t succ'
  end.

(** The pairs [zip(path[2:], path[3:])], then the last node with [END]. *)
Fixpoint links (path : list NodeName) : list (NodeName * target) :=
  match path with
  | [] => []
  | [x] => [(x, END)]
  | x :: ((y :: _) as path') => (x, To y) :: links path'
  end.

Definition successors : list (NodeName * list (Mode * target)) :=
  foldl (fun acc m =>
           foldl (fun acc l => set_successor l.1 m l.2 acc) acc
                 (links (drop 2 (EXECUTION_PATHS m))))
        [] [regular; extended].

Definition edge_of (by_mode : list (Mode * target)) : edge :=
  match remove_dups by_mode.*2 with
  | [t] => Edge t
  | _ => CondEdge by_mode
  end.

(** [regular_path[i]] for the fixed path. *)
Definition nth_node (m : Mode) (i : nat) : NodeName := nth i (EXECUTION_PATHS m) stream_done.

Definition build_graph : workflow :=
  mkWorkflow (nth_node regular 0)
    ([ (nth_node regular 0, Edge (To (nth_node regular 1)));
       (nth_node regular 1, CondEdge [ (regular, To (nth_node regular 2));
                                       (extended, To (nth_node extended 2)) ]) ]
     ++ map (fun e => (e.1, edge_of e.2)) successors).

(** The targets one declaration selects for the mode of the state. *)
Definition select (e : edge) (m : Mode) : list target :=
  match e with
  | Edge t => [t]
  | CondEdge by_mode =>
      match List.find (fun x => bool_decide (x.1 = m)) by_mode with
      | Some x => [x.2]
      | None => []
      end
  end.

Definition frontier (g : workflow) (n : NodeName) (m : Mode) : list target :=
  flat_map (fun e => if decide (e.1 = n) then select e.2 m else []) (edges g).

(** ** The graph library, a parameter *)

(** The recursion limit the library documents as its default. *)
Definition RECURSION_LIMIT : nat := 25.

Section Library.
Context {W St : Type}.

(** A run of [k] nodes of the workflow from the node [n]: each node runs on the state the
    one before returned, the edges declared for it select the next one by the mode of the
    new state, [END] ends the run and an exception of a node leaves it. *)
Inductive walk (mode_of : St -> Mode) (g : workflow) (run : NodeName -> St -> eff W St)
    : nat -> NodeName -> St -> W -> outcome py_exn St * W -> Prop :=
  | walk_raise n s w e w' :
      run n s w = (Raise e, w') -> walk mode_of g run 1 n s w (Raise e, w')
  | walk_end n s w s' w' :
      run n s w = (Ok s', w') -> frontier g n (mode_of s') = [END] ->
      walk mode_of g run 1 n s w (Ok s', w')
  | walk_next k n s w s' w' n' r :
      run n s w = (Ok s', w') -> frontier g n (mode_of s') = [To n'] ->
      walk mode_of g run k n' s' w' r -> walk mode_of g run (S k) n s w r.

(** [workflow.compile().ainvoke(state)] of a library that does so. *)
Record engine := mkEngine {
  ainvoke : (St -> Mode) -> workflow -> (NodeName -> St -> eff W St) -> St -> eff W St;
  ainvoke_walk : forall mode_of g run k s w r,
    (k <= RECURSION_LIMIT)%nat -> walk mode_of g run k (entry g) s w r ->
    ainvoke mode_of g run s w = r
}.

Definition GraphRecursionError : py_exn :=
  PyError (lit "GraphRecursionError") (lit "Recursion limit reached").
Definition InvalidUpdateError : py_exn :=
  PyError (lit "InvalidUpdateError") (lit "Can receive only one value per step").

(** An engine: supersteps with the recursion limit as fuel. *)
Fixpoint supersteps (mode_of : St -> Mode) (g : workflow) (run : NodeName -> St -> eff W St)
    (limit : nat) (front : list target) (s : St) : eff W St :=
  match front with
  | [] | [END] => ret s
  | [To n] =>
      match limit with
      | O => raise GraphRecursionError
      | S limit' =>
          s' <-- run n s ;
          supersteps mode_of g run limit' (frontier g n (mode_of s')) s'
      end
  | _ => raise InvalidUpdateError
  end%rf.

Lemma supersteps_walk mode_of g run k n s w r :
  walk mode_of g run k n s w r -> forall limit, (k <= limit)%nat ->
  supersteps mode_of g run limit [To n] s w = r.
Proof.
  induction 1 as [n s w e w' Hr|n s w s' w' Hr He|k n s w s' w' n' r Hr He _ IH];
    intros [|limit] Hl; try lia; cbn [supersteps]; unfold bind; rewrite Hr; [done|..]; rewrite He.
  - by destruct limit.
  - apply IH. lia.
Qed.

Definition superstep_engine : engine :=
  mkEngine (fun mode_of g run s => supersteps mode_of g run RECURSION_LIMIT [To (entry g)] s)
    (fun mode_of g run k s w r Hk Hw => supersteps_walk mode_of g run k (entry g) s w r Hw _ Hk).
End Library.
Arguments engine : clear implicits.

Section Invoke.
Context {W St : Type} (mode_of : St -> Mode) (run : NodeName -> St -> eff W St).

(** [_run_fallback_graph] and the loop of [_resume_from_checkpoint]. *)
Definition run_nodes (path : list NodeName) (s : St) : eff W St :=
  foldM (fun s n => run n s) s path.

Definition run_fallback_graph (s : St) : eff W St := run_nodes (EXECUTION_PATHS (mode_of s)) s.

Definition resume_from_checkpoint (s : St) (stage : string) : eff W St :=
  match remaining_nodes (mode_of s) stage with
  | None => run_fallback_graph s
  | Some remaining => run_nodes remaining s
  end.

(** ** The workflow follows the path of the mode *)

(** Following the edges of [g] in mode [m] visits exactly [path]. *)
Fixpoint follows (g : workflow) (m : Mode) (path : list NodeName) : bool :=
  match path with
  | [] => false
  | [x] => bool_decide (frontier g x m = [END])
  | x :: ((y :: _) as path') => bool_decide (frontier g x m = [To y]) && follows g m path'
  end.

Context (m : Mode)
        (Hmode : forall n s w s' w', mode_of s = m -> run n s w = (Ok s', w') -> mode_of s' = m).

(** The nodes of a path the edges follow, run as a walk of the workflow. *)
Lemma follows_walk g path x s w :
  mode_of s = m -> follows g m (x :: path) = true ->
  exists k, (k <= S (length path))%nat /\ walk mode_of g run k x s w (run_nodes (x :: path) s w).
Proof using Hmode.
  revert x s w. induction path as [|y path IH]; intros x s w Hm Hf; unfold run_nodes;
    cbn [foldM]; unfold bind; destruct (run x s w) as [[s'|e] w'] eqn:E.
  - exists 1%nat. split; [lia|]. apply walk_end; [done|]. cbn in Hf.
    apply bool_decide_eq_true in Hf. by rewrite (Hmode _ _ _ _ _ Hm E).
  - exists 1%nat. split; [lia|]. by apply walk_raise.
  - cbn [follows] in Hf. apply andb_true_iff in Hf as [Hx Hp]. apply bool_decide_eq_true in Hx.
    pose proof (Hmode _ _ _ _ _ Hm E) as Hm'. destruct (IH y s' w' Hm' Hp) as (k & Hk & Hw).
    exists (S k). split; [cbn; lia|]. eapply walk_next; [done|by rewrite Hm'|exact Hw].
  - exists 1%nat. split; [cbn; lia|]. by apply walk_raise.
Qed.

Lemma build_graph_follows m' : follows build_graph m' (EXECUTION_PATHS m') = true.
Proof. destruct m'; vm_compute; reflexivity. Qed.

Lemma ainvoke_fallback (e : engine W St) s w :
  mode_of s = m -> ainvoke e mode_of build_graph run s w = run_fallback_graph s w.
Proof using Hmode.
  intros Hm. unfold run_fallback_graph. rewrite Hm. pose proof (build_graph_follows m) as Hf.
  destruct (EXECUTION_PATHS m) as [|x path] eqn:E; [by destruct m|].
  destruct (follows_walk build_graph path x s w Hm Hf) as (k & Hk & Hw).
  apply (ainvoke_walk e mode_of build_graph run k s w).
  - etrans; [exact Hk|]. destruct m; injection E as _ <-; unfold RECURSION_LIMIT; cbn; lia.
  - replace (entry build_graph) with x; [exact Hw|]. destruct m; injection E as <- _; reflexivity.
Qed.
End Invoke.

(** ** Resuming *)

Lemma after_node_split n path :
  n ∈ path -> exists before, path = before ++ n :: after_node n path.
Proof.
  induction path as [|x path IH]; [by intros ?%elem_of_nil|]. cbn.
  destruct (decide (x = n)) as [->|Hx]; [by exists []|].
  intros [->|H]%elem_of_cons; [done|]. destruct (IH H) as [before Hb].
  exists (x :: before). cbn. by rewrite <- Hb.
Qed.

Lemma completed_node_in_path m stage n :
  completed_node m stage = Some n -> n ∈ EXECUTION_PATHS m.
Proof.
  unfold completed_node. destruct (List.find _ _) as [e|] eqn:E; [|done]. intros [= <-].
  apply List.find_some in E as [HE _]. apply list_elem_of_In in HE.
  assert (Forall (fun e => e.2 ∈ EXECUTION_PATHS m) (COMPLETED_NODE_BY_STAGE m)) as HF
    by (destruct m; apply (bool_decide_unpack _); vm_compute; exact I).
  rewrite Forall_forall in HF. by apply HF.
Qed.

Lemma remaining_nodes_suffix m stage rest :
  remaining_nodes m stage = Some rest ->
  exists before, EXECUTION_PATHS m = before ++ rest /\
    (before = [] \/ exists n, completed_node m stage = Some n /\ last before = Some n).
Proof.
  unfold remaining_nodes. destruct (decide _) as [_|_]; [intros [= <-]; exists []; eauto|].
  destruct (completed_node m stage) as [n|] eqn:E; [|done]. intros [= <-].
  destruct (after_node_split n (EXECUTION_PATHS m)) as [before Hb];
    [exact (completed_node_in_path _ _ _ E)|].
  exists (before ++ [n]). split; [by rewrite <- app_assoc|]. right. exists n.
  split; [done|]. apply last_snoc.
Qed.
