(* ===== verification/ContextAssembler.v ===== *)
(** * Final context selection

    [src/backend/rag/app/services/context_assembler.py]: choosing, from the ranked
    candidates, the passages the answer is generated from.  Duplicates and near duplicates
    are dropped, the best remaining score wins unless its source is already present and a
    new source is close enough, and the token estimate of the numbered passages stays
    within the budget. *)

From Stdlib Require Import QArith Qround Lqa.
From stdpp Require Import base list strings pretty sets sorting.
From S2P Require Import Prelude PyValue.

Local Open Scope string_scope.
Local Open Scope list_scope.
Local Open Scope Z_scope.

Section Assembler.
Context `{PyText}.

(** ** Token estimates *)

Definition PASSAGE_SEPARATOR_TOKENS : Z := 2.

(** [math.ceil(len(text) / 3.5)]. *)
Definition estimate_tokens (t : text) : Z :=
  match t with
  | [] => 0
  | _ => Qceiling (inject_Z (zlen t) / (7 # 2))
  end.

Definition chunk_text (chunk : obj) : text :=
  py_str (get chunk "text" ||| get chunk "chunk" ||| get chunk "content" ||| JStr []).

Definition source_id (chunk : obj) (index : Z) : text :=
  py_str (get chunk "chunk_id" ||| get chunk "id" ||| JStr (lit "passage_" ++ show (index + 1))).

Definition source_key (chunk : obj) (index : Z) : text :=
  py_str (get chunk "document_id" ||| get chunk "file_id" ||| get chunk "source_name"
          ||| get chunk "source" ||| JStr (source_id chunk index)).

Definition passage_token_cost (chunk : obj) (passage_number : Z) : Z :=
  let sid := source_id chunk (passage_number - 1) in
  let locator := if is_none (get chunk "page") then get chunk "section" else get chunk "page" in
  let header := lit "[" ++ show passage_number ++ lit "] source=" ++ sid in
  let header := if is_none locator then header
                else header ++ lit " locator=" ++ py_str locator in
  estimate_tokens header + estimate_tokens (chunk_text chunk) + PASSAGE_SEPARATOR_TOKENS.

(** [enumerate(chunks, start)]. *)
Fixpoint enumerate {A} (start : Z) (l : list A) : list (Z * A) :=
  match l with
  | [] => []
  | x :: l' => (start, x) :: enumerate (start + 1) l'
  end.

Definition sumZ (l : list Z) : Z := foldr Z.add 0 l.

Definition context_token_count (chunks : list obj) : Z :=
  sumZ (map (fun e => passage_token_cost e.2 e.1) (enumerate 1 chunks)).

(** ** Redundancy *)

Definition normalized_text (t : text) : text := join (lit " ") (py_split (casefold t)).

(** A set of words, as a list without repetitions. *)
Definition word_set (t : text) : list text := remove_dups (findall_words (casefold t)).

Definition set_inter (a b : list text) : list text :=
  List.filter (fun x => bool_decide (x ∈ b)) a.
Definition set_union (a b : list text) : list text :=
  a ++ List.filter (fun x => negb (bool_decide (x ∈ a))) b.

Definition redundant_with (normalized : text) (words : list text)
    (prior : text * list text) : bool :=
  let '(prior_normalized, prior_words) := prior in
  bool_decide (normalized = prior_normalized) ||
  (let union := set_union words prior_words in
   (5 <=? zlen words) && (5 <=? zlen prior_words) && negb (bool_decide (union = [])) &&
   ((9 # 10) <=?q (inject_Z (zlen (set_inter words prior_words)) / inject_Z (zlen union)))).

Definition redundant (t : text) (accepted : list (text * list text)) : bool :=
  existsb (redundant_with (normalized_text t) (word_set t)) accepted.

(** [float(...)], with [0.0] when it raises. *)
Definition chunk_score (chunk : obj) : Q :=
  let v := if is_none (get chunk "reranker_score") then get_or chunk "score" (JFloat 0)
           else get chunk "reranker_score" in
  match as_num v with
  | Some q => q
  | None => match v with
            | JStr s => match parse_float s with Some q => q | None => 0%Q end
            | _ => 0%Q
            end
  end.

Fixpoint deduplicate_loop (seen_ids : list text) (accepted : list (text * list text))
    (candidates : list (Z * obj)) : list (Z * obj) :=
  match candidates with
  | [] => []
  | (index, candidate) :: rest =>
      let t := chunk_text candidate in
      let chunk_id := source_id candidate index in
      if bool_decide (t = []) then deduplicate_loop seen_ids accepted rest
      else if bool_decide (chunk_id ∈ seen_ids) || redundant t accepted
      then deduplicate_loop seen_ids accepted rest
      else (index, candidate) ::
           deduplicate_loop (chunk_id :: seen_ids)
             (accepted ++ [(normalized_text t, word_set t)]) rest
  end.

Definition deduplicate (candidates : list obj) : list (Z * obj) :=
  deduplicate_loop [] [] (enumerate 0 candidates).

(** ** Truncation of the first passage *)

(** [while prefix and cost > budget: prefix = prefix[:-1].rstrip()].  Every iteration
    shortens the prefix, so its length is enough fuel. *)
Fixpoint shrink (fuel : nat) (probe : obj) (prefix : text) (budget passage_number : Z) : obj * text :=
  match fuel with
  | O => (probe, prefix)
  | S fuel' =>
      if negb (bool_decide (prefix = [])) && (budget <? passage_token_cost probe passage_number)
      then let prefix' := rstrip (py_prefix prefix (-1)) in
           shrink fuel' (obj_set probe "text" (JStr prefix')) prefix' budget passage_number
      else (probe, prefix)
  end.

Definition truncate_to_budget (chunk : obj) (budget passage_number : Z) : option obj :=
  let original := chunk_text chunk in
  let probe := obj_set chunk "text" (JStr []) in
  let fixed_cost := passage_token_cost probe passage_number in
  let available := budget - fixed_cost in
  if available <=? 0 then None
  else
    let max_chars := Qfloor (inject_Z available * (7 # 2)) in
    if max_chars <=? 0 then None
    else
      let prefix := rstrip (py_prefix original max_chars) in
      if bool_decide (prefix = []) then None
      else
        let probe := obj_set probe "text" (JStr prefix) in
        let probe := obj_set probe "context_truncated" (JBool (zlen prefix <? zlen original)) in
        let '(probe, prefix) := shrink (S (length prefix)) probe prefix budget passage_number in
        if bool_decide (prefix = []) then None else Some probe.

(** ** Selection *)

(** [key=lambda item: (-_score(item[1]), item[0])]. *)
Definition rank_leb (a b : Z * obj) : bool :=
  let sa := chunk_score a.2 in let sb := chunk_score b.2 in
  (sb <?q sa) || (Qeq_bool sa sb && (a.1 <=? b.1)).

Definition ranked (remaining : list (Z * obj)) : list (Z * obj) := py_sorted rank_leb remaining.

Definition choose_ranked (tolerance : Q) (selected_sources : list text) (ranked : list (Z * obj))
    : option (Z * obj) :=
  match ranked with
  | [] => None
  | ((best_index, best) :: _) as r =>
      let best_score := chunk_score best in
      if bool_decide (source_key best best_index ∈ selected_sources) then
        let diverse := List.filter (fun item =>
            negb (bool_decide (source_key item.2 item.1 ∈ selected_sources)) &&
            ((best_score - chunk_score item.2)%Q <=?q tolerance)) r in
        match diverse with
        | d :: _ => Some d
        | [] => Some (best_index, best)
        end
      else Some (best_index, best)
  end.

Definition choose (tolerance : Q) (selected_sources : list text) (remaining : list (Z * obj))
    : option (Z * obj) := choose_ranked tolerance selected_sources (ranked remaining).

(** [remaining.remove(choice)]: the original indexes are distinct. *)
Definition remove_choice (i : Z) (remaining : list (Z * obj)) : list (Z * obj) :=
  List.filter (fun e => negb (e.1 =? i)) remaining.

(** What one turn of the loop adds: the passage and its cost, or nothing. *)
Definition fit_passage (candidate : obj) (nselected available : Z) : option (obj * Z) :=
  let passage_number := nselected + 1 in
  let cost := passage_token_cost candidate passage_number in
  if available <? cost then
    if 0 <? nselected then None
    else match truncate_to_budget candidate available passage_number with
         | None => None
         | Some truncated => Some (truncated, passage_token_cost truncated passage_number)
         end
  else Some (candidate, cost).

(** Every iteration removes one candidate, so their number is enough fuel. *)
Fixpoint select_loop (fuel : nat) (token_budget max_passages : Z) (tolerance : Q)
    (remaining : list (Z * obj)) (selected : list obj) (selected_sources : list text)
    (used_tokens : Z) : list obj :=
  match fuel with
  | O => selected
  | S fuel' =>
      if zlen selected <? max_passages then
        match choose tolerance selected_sources remaining with
        | None => selected
        | Some (original_index, candidate) =>
            let remaining' := remove_choice original_index remaining in
            match fit_passage candidate (zlen selected) (token_budget - used_tokens) with
            | None => select_loop fuel' token_budget max_passages tolerance remaining'
                        selected selected_sources used_tokens
            | Some (c, cost) =>
                select_loop fuel' token_budget max_passages tolerance remaining'
                  (selected ++ [c]) (source_key c original_index :: selected_sources)
                  (used_tokens + cost)
            end
        end
      else selected
  end.

Definition assemble_context (candidates : list obj) (token_budget max_passages : Z)
    (diversity_score_tolerance : Q) : list obj :=
  if (token_budget <=? 0) || (max_passages <=? 0) then []
  else let remaining := deduplicate candidates in
       select_loop (length remaining) token_budget max_passages diversity_score_tolerance
         remaining [] [] 0.

(** ** Facts *)

Lemma enumerate_app {A} n (l k : list A) :
  enumerate n (l ++ k) = enumerate n l ++ enumerate (n + zlen l) k.
Proof.
  revert n. induction l as [|x l IH]; intros n; cbn; [by rewrite Z.add_0_r|].
  rewrite IH. unfold zlen. cbn [length]. do 3 f_equal. lia.
Qed.

Lemma enumerate_values {A} n (l : list A) : (enumerate n l).*2 = l.
Proof. revert n. induction l as [|x l IH]; intros n; cbn; [done|]. by rewrite IH. Qed.

Lemma enumerate_nodup {A} n (l : list A) :
  NoDup (enumerate n l).*1 /\ Forall (fun e => n <= e.1) (enumerate n l).
Proof.
  revert n. induction l as [|x l IH]; intros n; cbn; [by repeat constructor|].
  destruct (IH (n + 1)) as [H1 H2]. split; constructor; [|done|cbn; lia|].
  - intros (e & He & Hin)%list_elem_of_fmap. rewrite Forall_forall in H2.
    specialize (H2 e Hin). lia.
  - eapply Forall_impl; [exact H2|]. cbn. lia.
Qed.

Lemma sumZ_app l k : sumZ (l ++ k) = sumZ l + sumZ k.
Proof. unfold sumZ. induction l as [|x l IH]; cbn; [done|]. rewrite IH. lia. Qed.

Lemma context_token_count_snoc l c :
  context_token_count (l ++ [c]) = context_token_count l + passage_token_cost c (zlen l + 1).
Proof.
  unfold context_token_count. rewrite enumerate_app, map_app, sumZ_app. cbn.
  replace (1 + zlen l) with (zlen l + 1) by lia. lia.
Qed.

(** *** Truncation *)

Lemma removelast_prefix (t : text) : py_prefix t (-1) `prefix_of` t.
Proof.
  unfold py_prefix, py_slice. rewrite drop_0 || idtac.
  replace (Z.to_nat (py_index t 0)) with 0%nat; [|unfold py_index; cbn; lia].
  rewrite drop_0. apply prefix_take.
Qed.

Lemma length_removelast (t : text) : t <> [] -> (length (py_prefix t (-1)) < length t)%nat.
Proof.
  intros Ht. unfold py_prefix, py_slice, py_index. cbn -[length Z.add].
  rewrite length_take, length_drop.
  destruct t as [|x t]; [done|]. cbn [length]. lia.
Qed.

(** [c'] is [c] with its text cut to a non-empty prefix. *)
Definition truncation_of (c c' : obj) : Prop :=
  chunk_text c' <> [] /\ chunk_text c' `prefix_of` chunk_text c /\
  forall k, k <> "text" -> k <> "context_truncated" -> obj_get c' k = obj_get c k.

Lemma chunk_text_set c t : t <> [] -> chunk_text (obj_set c "text" (JStr t)) = t.
Proof.
  intros Ht. unfold chunk_text. rewrite get_set, decide_True by done.
  assert (jtrue (JStr t) = true) as E by (cbn; by rewrite bool_decide_false).
  unfold jor. by rewrite !E.
Qed.

Lemma chunk_text_ext c c' :
  obj_get c' "text" = obj_get c "text" -> obj_get c' "chunk" = obj_get c "chunk" ->
  obj_get c' "content" = obj_get c "content" -> chunk_text c' = chunk_text c.
Proof. intros H1 H2 H3. unfold chunk_text, get, get_or. by rewrite H1, H2, H3. Qed.

Lemma shrink_spec fuel probe prefix budget n probe' prefix' :
  (length prefix < fuel)%nat ->
  shrink fuel probe prefix budget n = (probe', prefix') ->
  obj_get probe "text" = Some (JStr prefix) ->
  (prefix' = [] \/ passage_token_cost probe' n <= budget) /\
  obj_get probe' "text" = Some (JStr prefix') /\ prefix' `prefix_of` prefix /\
  forall k, k <> "text" -> obj_get probe' k = obj_get probe k.
Proof.
  revert probe prefix. induction fuel as [|fuel IH]; intros probe prefix Hl; [lia|]. cbn [shrink].
  destruct (bool_decide_reflect (prefix = [])) as [->|Hp]; cbn [negb andb].
  { intros [= <- <-]. eauto. }
  destruct (Z.ltb_spec budget (passage_token_cost probe n)) as [Hc|Hc].
  - intros Hs Ht. apply IH in Hs as (H1 & H2 & H3 & H4).
    + split; [done|]. split; [done|]. split.
      * etrans; [exact H3|]. etrans; [apply rstrip_prefix|apply removelast_prefix].
      * intros k Hk. rewrite H4 by done. by apply obj_get_set_ne.
    + pose proof (length_rstrip (py_prefix prefix (-1))).
      pose proof (length_removelast prefix Hp). lia.
    + apply obj_get_set_eq.
  - intros [= <- <-]. eauto 10.
Qed.

Lemma truncate_to_budget_spec chunk budget n c :
  truncate_to_budget chunk budget n = Some c ->
  passage_token_cost c n <= budget /\ truncation_of chunk c.
Proof.
  unfold truncate_to_budget. destruct (_ - _ <=? 0); [done|]. destruct (Qfloor _ <=? 0); [done|].
  set (prefix := rstrip _). case_bool_decide as Hp; [done|].
  destruct (shrink _ _ _ _ _) as [probe' prefix'] eqn:Hs. case_bool_decide as Hp'; [done|].
  intros [= <-]. eapply shrink_spec in Hs as (H1 & H2 & H3 & H4); [|lia|].
  2: { rewrite obj_get_set_ne by done. apply obj_get_set_eq. }
  split; [by destruct H1|].
  assert (chunk_text probe' = prefix') as Ht.
  { rewrite <- (chunk_text_set probe' prefix') by done. apply chunk_text_ext;
      rewrite obj_get_set; cbn; done. }
  unfold truncation_of. rewrite Ht. split; [done|]. split.
  - etrans; [exact H3|]. etrans; [apply rstrip_prefix|].
    unfold py_prefix, py_slice. replace (Z.to_nat (py_index _ 0)) with 0%nat;
      [rewrite drop_0; apply prefix_take|unfold py_index; cbn; lia].
  - intros k Hk Hk'. rewrite H4, !obj_get_set_ne by done. done.
Qed.

(** *** Duplicates *)

Lemma redundant_normalized t accepted :
  redundant t accepted = false -> normalized_text t ∉ accepted.*1.
Proof.
  unfold redundant. intros Hr ([n ws] & Hn & Hin)%list_elem_of_fmap. cbn in Hn.
  apply not_true_iff_false in Hr. apply Hr, existsb_exists. exists (n, ws).
  split; [by apply list_elem_of_In|]. cbn. by rewrite bool_decide_true.
Qed.

Definition pick_id (e : Z * obj) : text := source_id e.2 e.1.
Definition pick_text (e : Z * obj) : text := normalized_text (chunk_text e.2).

Lemma deduplicate_loop_spec seen accepted cs :
  let r := deduplicate_loop seen accepted cs in
  r `sublist_of` cs /\
  Forall (fun e => pick_id e ∉ seen /\ pick_text e ∉ accepted.*1) r /\
  NoDup (map pick_id r) /\ NoDup (map pick_text r).
Proof.
  revert seen accepted. induction cs as [|[i c] cs IH]; intros seen accepted; cbn -[redundant].
  { repeat constructor. }
  destruct (IH seen accepted) as (S1 & S2 & S3 & S4). pose proof (@list.sublist_cons _ (i, c) _ _ S1) as S1'.
  case_bool_decide; [by auto|]. case_bool_decide as Hid; [by cbn; auto|].
  destruct (redundant _ accepted) eqn:Hr; [by cbn; auto|]. clear S1 S1' S2 S3 S4.
  cbn [orb]. apply redundant_normalized in Hr.
  destruct (IH (source_id c i :: seen)
    (accepted ++ [(normalized_text (chunk_text c), word_set (chunk_text c))])) as (H1 & H2 & H3 & H4).
  rewrite fmap_app in H2. cbn in H2.
  split; [by apply sublist_skip|]. split; [|split].
  - constructor; [done|]. eapply Forall_impl; [exact H2|]. cbn. set_solver.
  - cbn. constructor; [|done].
    rewrite list_elem_of_In, in_map_iff. intros (e & He & Hin%list_elem_of_In).
    rewrite Forall_forall in H2. destruct (H2 e Hin). set_solver.
  - cbn. constructor; [|done].
    rewrite list_elem_of_In, in_map_iff. intros (e & He & Hin%list_elem_of_In).
    rewrite Forall_forall in H2. destruct (H2 e Hin). set_solver.
Qed.

(** *** The order of the candidates *)

Lemma rank_leb_spec a b :
  rank_leb a b = true <->
  (chunk_score b.2 < chunk_score a.2)%Q \/ (chunk_score a.2 == chunk_score b.2)%Q /\ a.1 <= b.1.
Proof.
  unfold rank_leb. rewrite orb_true_iff, andb_true_iff, qltb_true, Qeq_bool_iff, Z.leb_le. done.
Qed.

Lemma rank_leb_total a b : rank_leb a b = true \/ rank_leb b a = true.
Proof.
  rewrite !rank_leb_spec. destruct (Q_dec (chunk_score a.2) (chunk_score b.2)) as [[?|?]|E]; eauto.
  destruct (Z.le_ge_cases a.1 b.1); [left|right]; right; by rewrite ?E.
Qed.

Lemma rank_leb_trans a b c :
  rank_leb a b = true -> rank_leb b c = true -> rank_leb a c = true.
Proof.
  rewrite !rank_leb_spec. intros [H1|[H1 ?]] [H2|[H2 ?]]; [left; lra|left; lra|left; lra|].
  right. split; [lra|lia].
Qed.

Lemma rank_leb_refl a : rank_leb a a = true.
Proof. destruct (rank_leb_total a a); done. Qed.

Lemma ranked_sorted remaining :
  StronglySorted (fun x y => rank_leb x y = true) (ranked remaining).
Proof. apply py_sorted_sorted; eauto using rank_leb_total, rank_leb_trans. Qed.

Lemma ranked_perm remaining : ranked remaining ≡ₚ remaining.
Proof. apply py_sorted_perm. Qed.

Lemma sorted_filter_head {A} (R : A -> A -> Prop) (f : A -> bool) l d ds :
  StronglySorted R l -> (forall x, R x x) -> List.filter f l = d :: ds ->
  d ∈ l /\ f d = true /\ Forall (fun y => f y = true -> R d y) l.
Proof.
  intros Hs Hrefl. induction Hs as [|x l Hs IH Hx]; [done|]. cbn.
  destruct (f x) eqn:E.
  - intros [= <- _]. split; [set_solver|]. split; [done|]. constructor; [done|].
    eapply Forall_impl; [exact Hx|]. done.
  - intros Hd. destruct (IH Hd) as (H1 & H2 & H3). split; [set_solver|]. split; [done|].
    constructor; [congruence|done].
Qed.

Definition item_source (e : Z * obj) : text := source_key e.2 e.1.

Lemma choose_elem tol src remaining x :
  choose tol src remaining = Some x -> x ∈ remaining.
Proof.
  intros Hc. rewrite <- (ranked_perm remaining). revert Hc. unfold choose, choose_ranked.
  destruct (ranked remaining) as [|[bi b] r] eqn:Er; [done|].
  case_bool_decide; [|intros [= <-]; set_solver].
  destruct (List.filter _ _) as [|d ds] eqn:Ed; [intros [= <-]; set_solver|].
  intros [= <-]. assert (In d (d :: ds)) as Hd by (by left).
  rewrite <- Ed in Hd. apply filter_In in Hd as [Hd _]. by apply list_elem_of_In.
Qed.

Lemma choose_ranked_spec tol src l x :
  StronglySorted (fun x y => rank_leb x y = true) l ->
  choose_ranked tol src l = Some x ->
  exists best, best ∈ l /\ Forall (fun y => rank_leb best y = true) l /\
    ((x = best /\
      (item_source best ∉ src \/
       Forall (fun y => item_source y ∈ src \/
                        (tol < chunk_score best.2 - chunk_score y.2)%Q) l))
     \/
     (item_source best ∈ src /\ item_source x ∉ src /\
      (chunk_score best.2 - chunk_score x.2 <= tol)%Q /\
      Forall (fun y => item_source y ∉ src -> rank_leb x y = true) l)).
Proof.
  intros Hs Hc. unfold choose_ranked in Hc. destruct l as [|best r]; [done|].
  assert (Forall (fun y => rank_leb best y = true) (best :: r)) as Hbest.
  { inversion Hs; subst. constructor; [apply rank_leb_refl|done]. }
  exists best. split; [by left|]. split; [done|]. destruct best as [bi b].
  case_bool_decide as Hsrc; [|injection Hc as <-; by left; eauto].
  destruct (List.filter _ _) as [|d ds] eqn:Ed.
  - injection Hc as <-. left. split; [done|]. right. rewrite Forall_forall. intros y Hy.
    destruct (decide (item_source y ∈ src)) as [|Hy']; [by left|right].
    apply Qnot_le_lt. intros Hle. assert (In y []) as []. rewrite <- Ed. apply filter_In.
    split; [by apply list_elem_of_In|]. apply andb_true_iff. split; [|by apply qleb_true].
    unfold item_source in Hy'. by rewrite bool_decide_false.
  - injection Hc as <-. right.
    destruct (sorted_filter_head _ _ _ _ _ Hs rank_leb_refl Ed) as (H1 & H2 & H3).
    apply andb_true_iff in H2 as [H2 H2']. apply negb_true_iff, bool_decide_eq_false in H2.
    apply qleb_true in H2'. do 3 (split; [done|]).
    eapply Forall_impl; [exact H3|]. intros y Hy Hnew.
    destruct (decide ((chunk_score b - chunk_score y.2) <= tol)%Q) as [Hle|Hgt].
    + apply Hy, andb_true_iff. split; [by unfold item_source in Hnew; rewrite bool_decide_false|].
      by apply qleb_true.
    + apply rank_leb_spec. left. cbn in *. lra.
Qed.

(** at every step of the context selection the chosen passage is the best remaining one
    by score (earlier retrieval order among equals), unless the best one's source is already
    in the context; only then a passage of a new source is taken instead, it is within the
    score tolerance of the best one, and it is the best of the passages from new sources.
    Clearly stronger evidence is never displaced to diversify the prompt. *)
Theorem context_choice tol src remaining x :
  choose tol src remaining = Some x ->
  x ∈ remaining /\
  exists best, best ∈ remaining /\ Forall (fun y => rank_leb best y = true) remaining /\
    ((x = best /\
      (item_source best ∉ src \/
       Forall (fun y => item_source y ∈ src \/
                        (tol < chunk_score best.2 - chunk_score y.2)%Q) remaining))
     \/
     (item_source best ∈ src /\ item_source x ∉ src /\
      (chunk_score best.2 - chunk_score x.2 <= tol)%Q /\
      Forall (fun y => item_source y ∉ src -> rank_leb x y = true) remaining)).
Proof.
  intros Hc. split; [by eapply choose_elem|]. apply choose_ranked_spec in Hc
    as (best & H1 & H2 & H3); [|apply ranked_sorted].
  exists best. split; [by rewrite <- (ranked_perm remaining)|].
  split; [by rewrite <- (ranked_perm remaining)|].
  destruct H3 as [(-> & H3)|(H3 & H4 & H5 & H6)]; [left; split; [done|]|right].
  - destruct H3; [by left|right]. by rewrite <- (ranked_perm remaining).
  - do 3 (split; [done|]). by rewrite <- (ranked_perm remaining).
Qed.

(** *** The selection *)

(** [c] is what the selection made of the candidate [p]. *)
Definition derived (p : Z * obj) (c : obj) : Prop := c = p.2 \/ truncation_of p.2 c.

Lemma fit_passage_spec candidate nselected available c cost :
  fit_passage candidate nselected available = Some (c, cost) ->
  cost = passage_token_cost c (nselected + 1) /\ cost <= available /\
  (c = candidate \/ nselected <= 0 /\ truncation_of candidate c).
Proof.
  unfold fit_passage. destruct (Z.ltb_spec available (passage_token_cost candidate (nselected + 1))).
  - destruct (Z.ltb_spec 0 nselected); [done|].
    destruct (truncate_to_budget _ _ _) as [c'|] eqn:Et; [|done].
    apply truncate_to_budget_spec in Et as [??]. intros [= <- <-]. eauto.
  - intros [= <- <-]. eauto.
Qed.

Section Loop.
Context (budget maxp : Z) (tol : Q) (pool : list (Z * obj)).

(** The invariant: the tokens used are the estimate of what is selected, within the budget,
    and the selection is made of distinct candidates of the pool, only the first of which
    may be cut. *)
Definition selection_ok (remaining : list (Z * obj)) (selected : list obj) (used : Z) : Prop :=
  used = context_token_count selected /\ used <= budget /\ zlen selected <= maxp /\
  exists picks, Forall2 derived picks selected /\ drop 1 selected = drop 1 picks.*2 /\
    NoDup (picks ++ remaining) /\ picks ++ remaining ⊆ pool.

Lemma remove_choice_perm i c remaining :
  NoDup remaining.*1 -> (i, c) ∈ remaining ->
  (i, c) :: remove_choice i remaining ≡ₚ remaining.
Proof.
  intros Hnd. induction remaining as [|[j d] r IH]; [by intros ?%elem_of_nil|].
  cbn in Hnd. apply NoDup_cons in Hnd as [Hj Hnd]. unfold remove_choice in *. cbn.
  intros [[= <- <-]|Hin]%elem_of_cons.
  - rewrite Z.eqb_refl. cbn. f_equiv. clear IH.
    induction r as [|[k e] r IH]; cbn; [done|]. cbn in *.
    destruct (Z.eqb_spec k i) as [->|]; [set_solver|]. cbn. f_equiv. apply IH; [set_solver|].
    by apply NoDup_cons in Hnd as [_ ?].
  - destruct (Z.eqb_spec j i) as [->|]; cbn.
    + destruct Hj. apply list_elem_of_fmap. by exists (i, c).
    + etrans; [apply Permutation_swap|]. f_equiv. by apply IH.
Qed.

Lemma select_loop_ok fuel remaining selected sources used :
  NoDup remaining.*1 -> selection_ok remaining selected used ->
  exists remaining' used',
    selection_ok remaining' (select_loop fuel budget maxp tol remaining selected sources used) used'.
Proof.
  revert remaining selected sources used. induction fuel as [|fuel IH];
    intros remaining selected sources used Hnd Hok; cbn [select_loop]; [eauto|].
  destruct (Z.ltb_spec (zlen selected) maxp) as [Hlen|]; [|eauto].
  destruct (choose tol sources remaining) as [[i c]|] eqn:Ec; [|eauto].
  apply choose_elem in Ec. pose proof (remove_choice_perm i c remaining Hnd Ec) as Hperm.
  assert (NoDup (remove_choice i remaining).*1) as Hnd'.
  { rewrite <- Hperm in Hnd. by apply NoDup_cons in Hnd as [_ ?]. }
  destruct Hok as (Hu & Hb & Hl & picks & Hd & Htail & Hnp & Hpool).
  rewrite <- Hperm in Hnp, Hpool.
  destruct (fit_passage c (zlen selected) (budget - used)) as [[c' cost]|] eqn:Ef.
  - apply fit_passage_spec in Ef as (-> & Hcost & Hc'). apply IH; [done|].
    split; [rewrite context_token_count_snoc; lia|]. split; [lia|].
    split; [rewrite zlen_app; unfold zlen in *; cbn; lia|]. exists (picks ++ [(i, c)]).
    split; [apply Forall2_app; [done|]; constructor; [unfold derived; cbn; tauto|constructor]|].
    split; [|by rewrite <- app_assoc].
    rewrite fmap_app. apply Forall2_length in Hd.
    destruct selected, picks; try done; cbn in *.
    rewrite !drop_0 in *. rewrite Htail. f_equal.
    destruct Hc' as [->|[? _]]; [done|]. unfold zlen in *. cbn in *. lia.
  - apply IH; [done|]. split; [done|]. split; [done|]. split; [done|]. exists picks.
    split; [done|]. split; [done|]. split.
    + apply NoDup_app in Hnp as (H1 & H2 & H3). apply NoDup_cons in H3 as [_ H3].
      apply NoDup_app. split; [done|]. split; [set_solver|done].
    + set_solver.
Qed.
End Loop.

Lemma deduplicate_facts candidates :
  NoDup (deduplicate candidates).*1 /\ NoDup (map pick_id (deduplicate candidates)) /\
  NoDup (map pick_text (deduplicate candidates)) /\
  forall p, p ∈ deduplicate candidates -> p ∈ enumerate 0 candidates.
Proof.
  unfold deduplicate. destruct (deduplicate_loop_spec [] [] (enumerate 0 candidates))
    as (H1 & _ & H3 & H4). split; [|split; [done|split; [done|]]].
  - eapply sublist_NoDup; [|by apply fmap_sublist, H1]. apply enumerate_nodup.
  - intros p Hp. eapply elem_of_sublist; [exact Hp|exact H1].
Qed.

Lemma NoDup_map_subset {A B} (f : A -> B) (l k : list A) :
  NoDup (map f k) -> NoDup l -> l ⊆ k -> NoDup (map f l).
Proof.
  intros Hk Hl Hlk. apply NoDup_fmap_2_strong; [|done]. intros x y Hx Hy Hf.
  apply Hlk in Hx, Hy. clear Hlk Hl. induction k as [|z k IH]; [by apply elem_of_nil in Hx|].
  cbn in Hk. apply NoDup_cons in Hk as [Hz Hk].
  assert (forall u, u ∈ k -> f u ∈ map f k) as Hin by (intros; by apply list_elem_of_fmap_2).
  apply elem_of_cons in Hx as [->|Hx], Hy as [->|Hy]; [done| | |by apply IH].
  - destruct Hz. rewrite Hf. by apply Hin.
  - destruct Hz. rewrite <- Hf. by apply Hin.
Qed.

(** The selection the loop ends with, or nothing when the budgets are exhausted. *)
Lemma assemble_context_selection candidates budget maxp tol :
  let sel := assemble_context candidates budget maxp tol in
  ((budget <= 0 \/ maxp <= 0) /\ sel = []) \/
  (0 < budget /\ 0 < maxp /\
   exists r u, selection_ok budget maxp (deduplicate candidates) r sel u).
Proof.
  cbn zeta. unfold assemble_context. destruct ((budget <=? 0) || (maxp <=? 0)) eqn:E.
  { left. split; [|done]. apply orb_true_iff in E as [?%Z.leb_le|?%Z.leb_le]; lia. }
  apply orb_false_iff in E as [Eb%Z.leb_gt Em%Z.leb_gt]. right. split; [done|]. split; [done|].
  destruct (deduplicate_facts candidates) as (Hd1 & _).
  apply select_loop_ok; [done|].
  split; [done|]. split; [lia|]. split; [unfold zlen; cbn [length]; lia|]. exists []. cbn.
  split; [constructor|]. split; [done|]. split; [|done]. by eapply NoDup_fmap_1.
Qed.

(** What holds of every candidate and does not look at the text holds of the context. *)
Lemma assemble_context_forall (P : obj -> Prop) candidates budget maxp tol :
  (forall c c', P c -> (forall k, k <> "text" -> k <> "context_truncated" ->
                                  obj_get c' k = obj_get c k) -> P c') ->
  Forall P candidates -> Forall P (assemble_context candidates budget maxp tol).
Proof.
  intros HP Hc. destruct (assemble_context_selection candidates budget maxp tol)
    as [[_ ->]|(_ & _ & r & u & _ & _ & _ & picks & H1 & _ & _ & H4)]; [constructor|].
  destruct (deduplicate_facts candidates) as (_ & _ & _ & Hd).
  rewrite Forall_forall in Hc |- *. intros c Hin.
  apply list_elem_of_lookup in Hin as [i Hi].
  destruct (Forall2_lookup_r _ _ _ _ _ H1 Hi) as (p & Hp & Hder).
  assert (P p.2) as Hp2.
  { apply Hc. rewrite <- (enumerate_values 0 candidates). apply list_elem_of_fmap_2, Hd, H4.
    apply elem_of_app. left. by eapply list_elem_of_lookup_2. }
  destruct Hder as [->|(_ & _ & Hk)]; [done|]. by eapply HP.
Qed.

(** the context a turn is generated from has at most [max_passages] passages, its token
    estimate (headers and separators included) is within the budget, and it consists of
    distinct retrieved candidates: different chunk ids, different normalized text, each
    taken unchanged except that the first may be cut to a non-empty prefix of its text. *)
Theorem assemble_context_sound candidates budget maxp tol :
  let sel := assemble_context candidates budget maxp tol in
  zlen sel <= Z.max 0 maxp /\ context_token_count sel <= Z.max 0 budget /\
  exists picks, Forall2 derived picks sel /\ drop 1 sel = drop 1 picks.*2 /\
    Forall (fun p => p ∈ enumerate 0 candidates) picks /\
    NoDup (map pick_id picks) /\ NoDup (map pick_text picks).
Proof.
  cbn zeta. destruct (assemble_context_selection candidates budget maxp tol)
    as [[_ ->]|(? & ? & r & u & Hu & Hb & Hl & picks & H1 & H2 & H3 & H4)].
  { change (zlen (@nil obj)) with 0. change (context_token_count []) with 0.
    split; [lia|]. split; [lia|]. exists []. repeat constructor. }
  destruct (deduplicate_facts candidates) as (_ & Hd2 & Hd3 & Hd4).
  split; [lia|]. split; [lia|]. apply NoDup_app in H3 as (H3 & _ & _).
  assert (picks ⊆ deduplicate candidates) as Hsub by set_solver.
  exists picks. split; [done|]. split; [done|]. split.
  - rewrite Forall_forall. intros p Hp. by apply Hd4, Hsub.
  - split; eapply NoDup_map_subset; eauto.
Qed.
End Assembler.

(** ** Evaluation on concrete candidates *)

Section Witness.
#[local] Existing Instance ascii_text.

Definition demo_chunk (id doc txt : string) (score : Q) : obj :=
  [("chunk_id", s_ id); ("document_id", s_ doc); ("text", s_ txt); ("score", JFloat score)].

Definition demo_candidates : list obj :=
  [ demo_chunk "c1" "d1" "first passage" (9 # 10);
    demo_chunk "c2" "d1" "second passage" (8 # 10);
    demo_chunk "c3" "d2" "third passage" (79 # 100);
    demo_chunk "c1" "d3" "same id as the first" (7 # 10) ].

(** The second passage yields to the new source within the tolerance; the repeated id is
    dropped. *)
Example demo_selection :
  map (fun c => get c "chunk_id") (assemble_context demo_candidates 100 2 (8 # 100)) =
  [s_ "c1"; s_ "c3"].
Proof. vm_compute. reflexivity. Qed.

Lemma context_choice_witness :
  exists x, choose (8 # 100) [lit "d1"] (drop 1 (deduplicate demo_candidates)) = Some x /\
    get x.2 "chunk_id" = s_ "c3" /\ x ∈ drop 1 (deduplicate demo_candidates).
Proof.
  eexists. split; [vm_compute; reflexivity|]. split; [vm_compute; reflexivity|].
  apply (context_choice (8 # 100) [lit "d1"]). vm_compute. reflexivity.
Defined.
End Witness.
