(* ===== verification/LlmReplies.v ===== *)
(** * Message envelopes and replies

    [src/backend/rag/app/services/conversation_kafka_utils.py]: the envelope of a message to
    another service, what a reply's payload is, the bounded evidence of one LLM call, the
    flattening of typed replies, and the passages and history sent to the LLM agent.

    [make_json_safe] converts every value to a JSON value; the values of the model are JSON
    values already, on which it is the identity. *)

From Stdlib Require Import QArith Qround.
From stdpp Require Import base list strings pretty sets.
From S2P Require Import Prelude PyValue ContextAssembler.

Local Open Scope string_scope.
Local Open Scope list_scope.
Local Open Scope Z_scope.

Section Replies.
Context `{PyText}.

(** [v in {...}] for string literals. *)
Definition str_in (v : json) (names : list string) : bool := existsb (is_str v) names.

(** ** Envelopes *)

Record envelope_ids := mkIds {
  message_id : text; fresh_correlation : text; timestamp_ms : Z
}.

Definition opt_field (k : string) (v : json) : obj := if jtrue v then [(k, v)] else [].

Definition build_message_envelope (message_type action source_service target_service : string)
    (request_id trace_id : json) (payload : obj) (correlation_id reply_to stream_to : json)
    (traffic_class : string) (ids : envelope_ids) : obj :=
  [ ("message_id", JStr (message_id ids));
    ("message_type", s_ message_type);
    ("action", s_ action);
    ("source_service", s_ source_service);
    ("target_service", s_ target_service);
    ("request_id", request_id);
    ("trace_id", trace_id);
    ("correlation_id", correlation_id ||| JStr (fresh_correlation ids));
    ("timestamp", JInt (timestamp_ms ids));
    ("traffic_class", s_ (if decide (traffic_class = "eval") then "eval" else "live"));
    ("payload", JObj payload) ]
  ++ opt_field "reply_to" reply_to ++ opt_field "stream_to" stream_to.

Definition envelope_keys : list string :=
  [ "request_id"; "trace_id"; "correlation_id"; "reply_to"; "stream_to"; "action";
    "source_service"; "target_service"; "message_type"; "message_id"; "timestamp" ].

Definition copy_missing (message : obj) (payload : obj) (k : string) : obj :=
  if negb (is_none (get message k)) && negb (has_key payload k)
  then obj_set payload k (get message k) else payload.

Definition extract_message_payload (message : json) : obj :=
  match message with
  | JObj m =>
      match get m "payload" with
      | JObj payload =>
          if str_in (get m "message_type") ["command"; "query"; "reply"; "event"; "stream_event"]
          then foldl (copy_missing m) payload envelope_keys
          else m
      | _ => m
      end
  | _ => []
  end.

(** ** Evidence of one LLM call *)

Definition BOUNDED_FINISH_REASONS : list string :=
  [ "stop"; "length"; "completed"; "content_filter"; "tool_calls"; "cancelled"; "other"; "unknown" ].
Definition BOUNDED_APPLICATION_STATUSES : list string :=
  [ "success"; "provider_error"; "structured_output_invalid"; "timeout"; "execution_error";
    "streaming_not_supported"; "invalid_request"; "unknown" ].
Definition BOUNDED_PARSE_STAGES : list string := [ "parse"; "validation"; "unknown" ].
Definition LLM_EVIDENCE_KEY : string := "_llm_evidence".

Definition bounded (value : json) (allowed : list string) (default : string) : text :=
  let t := if is_none value then [] else lower (py_strip (py_str value)) in
  if existsb (fun a => bool_decide (t = lit a)) allowed then t else lit default.

(** [int(value)] truncates towards zero. *)
Definition trunc (q : Q) : Z := if Qle_bool 0 q then Qfloor q else - Qfloor (- q).

Definition token_count (value : json) : json :=
  match value with
  | JInt n => JInt n
  | JFloat q => JInt (trunc q)
  | _ => JNull
  end.

Definition evidence_status (payload : obj) : json :=
  if is_none (get payload "application_status") then
    let first := match get payload "errors" with
                 | JArr (e :: _) => e
                 | _ => JNull
                 end in
    match first with
    | JObj e => if jtrue (get e "code") then get e "code"
                else if is_str (get payload "status") "success" then s_ "success" else JNull
    | _ => if is_str (get payload "status") "success" then s_ "success" else JNull
    end
  else get payload "application_status".

Definition llm_action_evidence (payload : json) : option obj :=
  match payload with
  | JObj p =>
      match get p "request_type" with
      | JStr ((_ :: _) as request_type) =>
          let usage_map := match get p "usage" with JObj u => u | _ => [] end in
          let finish := get p "provider_finish_reason" in
          let absent := if bool_decide (py_strip (py_str (finish ||| JStr [])) = [])
                        then "unknown" else "other" in
          let status := bounded (evidence_status p) BOUNDED_APPLICATION_STATUSES "unknown" in
          let evidence :=
            [ ("request_type", JStr request_type);
              ("provider_finish_reason", JStr (bounded finish BOUNDED_FINISH_REASONS absent));
              ("application_status", JStr status);
              ("input_tokens", token_count (get usage_map "input_tokens"));
              ("output_tokens", token_count (get usage_map "output_tokens"));
              ("total_tokens", token_count (get usage_map "total_tokens"));
              ("max_tokens", token_count (get p "max_tokens"));
              ("latency_ms", token_count (get p "latency_ms")) ] in
          let parse_stage := get p "parse_stage" in
          Some (if negb (is_none parse_stage)
                then obj_set evidence "parse_stage"
                       (JStr (bounded parse_stage BOUNDED_PARSE_STAGES "unknown"))
                else if bool_decide (status = lit "structured_output_invalid")
                then obj_set evidence "parse_stage" (s_ "unknown")
                else evidence)
      | _ => None
      end
  | _ => None
  end.

(** ** Typed replies *)

Definition STRUCTURED_OUTPUT_DEBUG_PREFIX : text := lit "__structured_output_debug__:".

Section Parse.
(** [json.loads], [None] when it raises. *)
Context (json_loads : text -> option json).

Definition has_prefix (p t : text) : bool := bool_decide (take (length p) t = p).

Fixpoint structured_output_steps (steps : list json) : option obj :=
  match steps with
  | [] => None
  | JStr s :: rest =>
      if has_prefix STRUCTURED_OUTPUT_DEBUG_PREFIX s then
        match json_loads (drop (length STRUCTURED_OUTPUT_DEBUG_PREFIX) s) with
        | None => None
        | Some (JObj o) => Some o
        | Some _ => structured_output_steps rest
        end
      else structured_output_steps rest
  | _ :: rest => structured_output_steps rest
  end.

Definition extract_structured_output_debug (visible_reasoning_steps : json) : option obj :=
  match visible_reasoning_steps with
  | JArr steps => structured_output_steps steps
  | _ => None
  end.

Definition set_default (o : obj) (k : string) (v : json) : obj :=
  if has_key o k then o else obj_set o k v.

Definition normalize_llm_agent_response (payload : obj) : obj :=
  let request_type := get payload "request_type" in
  let evidence := llm_action_evidence (JObj payload) in
  match get payload "parsed_output" with
  | JObj parsed_output =>
      let normalized := parsed_output in
      let normalized := match evidence with
                        | Some e => obj_set normalized LLM_EVIDENCE_KEY (JObj e)
                        | None => normalized
                        end in
      let normalized := obj_set normalized "status" (get payload "status") in
      let normalized := obj_set normalized "errors" (get_or payload "errors" (JArr [])) in
      let normalized := obj_set normalized "trace" (get_or payload "trace" (JObj [])) in
      let normalized := obj_set normalized "prompt_version" (get payload "prompt_version") in
      let normalized := obj_set normalized "raw_output" (get_or payload "raw_output" (JStr [])) in
      let normalized :=
        match extract_structured_output_debug (get payload "visible_reasoning_steps") with
        | Some ((_ :: _) as d) => obj_set normalized "_structured_output_debug" (JObj d)
        | _ => normalized
        end in
      if is_str request_type "answer_generation" then
        let answer := get_or parsed_output "answer" (get_or payload "raw_output" (JStr [])) in
        let normalized := obj_set normalized "answer" answer in
        let normalized := obj_set normalized "raw_output" (get_or payload "raw_output" answer) in
        let normalized := obj_set normalized "model_name" (get payload "model") in
        let normalized := obj_set normalized "usage" (get payload "usage") in
        let normalized := obj_set normalized "raw_prompt" (get_or payload "raw_prompt" (JStr [])) in
        obj_set normalized "system_prompt" (get_or payload "system_prompt" (JStr []))
      else if is_str request_type "answer_evaluation" then
        let normalized := obj_set normalized "model_name"
                            (get parsed_output "model_name" ||| get payload "model") in
        obj_set normalized "should_revise" (JBool (is_str (get parsed_output "verdict") "revise"))
      else if is_str request_type "query_rewrite" then
        set_default (set_default (set_default normalized "subqueries" (JArr []))
                                 "pass_two_hints" (JArr [])) "decision" (s_ "rewrite")
      else if is_str request_type "content_risk_scan" then
        let risk_level := lower (py_str (get_or parsed_output "risk_level" (JStr []))) in
        let normalized := obj_set normalized "blocked"
          (JBool (existsb (fun l => bool_decide (risk_level = lit l))
                          ["high"; "critical"; "blocked"])) in
        obj_set normalized "message" (get_or parsed_output "summary" (JStr []))
      else normalized
  | _ =>
      match evidence with
      | Some e => obj_set payload LLM_EVIDENCE_KEY (JObj e)
      | None => payload
      end
  end.

Definition extract_reply_payload (message : json) : outcome py_exn obj :=
  match message with
  | JObj m =>
      if is_str (get m "message_type") "reply" then
        let from_llm := is_str (get m "source_service") "llm_agent" in
        if jtrue (get_or m "success" (JBool true)) then
          let payload := extract_message_payload message in
          Ok (if from_llm then normalize_llm_agent_response payload else payload)
        else
          let evidence := if from_llm
                          then llm_action_evidence (JObj (extract_message_payload message))
                          else None in
          match get m "error" with
          | JObj error =>
              Raise (DownstreamRPCError (py_str (get error "code" ||| s_ "downstream_error"))
                       (py_str (get error "message" ||| s_ "Service request failed")) evidence)
          | error =>
              Raise (DownstreamRPCError (lit "downstream_error")
                       (py_str (error ||| s_ "Service request failed")) evidence)
          end
      else
        match get m "data" with
        | JObj data => Ok data
        | _ => Ok (extract_message_payload message)
        end
  | _ => Ok []
  end.
End Parse.

(** ** Stream events *)

Definition copy_id (message : obj) (event : obj) (k : string) : obj :=
  if jtrue (get message k) && negb (has_key event k)
  then obj_set event k (get message k) else event.

Definition extract_stream_event (message : json) : obj :=
  let event := extract_message_payload message in
  let event :=
    match get event "data" with
    | JObj data =>
        if jtrue (get event "event_type") then
          let event_type := get event "event_type" in
          if is_str event_type "llm.token" then
            let event := obj_set event "event" (s_ "delta") in
            let event := obj_set event "text_delta" (get_or data "token" (JStr [])) in
            obj_set event "token_index" (get data "index")
          else if is_str event_type "llm.done" then
            let event := obj_set event "event" (s_ "completed") in
            let event := obj_set event "finish_reason" (get data "finish_reason") in
            obj_set event "token_count" (get data "token_count")
          else if is_str event_type "llm.error" then
            let event := obj_set event "event" (s_ "error") in
            let event := obj_set event "code" (get data "code") in
            obj_set event "message" (get data "message")
          else event
        else event
    | _ => event
    end in
  match message with
  | JObj m => foldl (copy_id m) event ["request_id"; "trace_id"; "correlation_id"]
  | _ => event
  end.

(** ** History and passages *)

Definition message_role (message : obj) : text :=
  let role := lower (py_str (get message "role" ||| get message "sender" ||| s_ "user")) in
  let named s := bool_decide (role = lit s) in
  if named "assistant" || named "system" || named "tool" || named "user" then role
  else if named "bot" || named "ai" || named "model" then lit "assistant"
  else lit "user".

Definition history_entry (message : json) : list json :=
  match message with
  | JObj m =>
      let content := get m "content" ||| get m "message" ||| get m "text" ||| JStr [] in
      if jtrue content
      then [JObj [("role", JStr (message_role m)); ("content", JStr (py_str content))]]
      else []
  | _ => []
  end.

Definition conversation_history (messages : json) : list json :=
  match messages with
  | JArr l => flat_map history_entry l
  | _ => []
  end.

Definition passage_of (e : Z * obj) : list obj :=
  let '(index, chunk) := e in
  let t := get chunk "text" ||| get chunk "chunk" ||| get chunk "content" ||| JStr [] in
  if jtrue t then
    let locator := if negb (is_none (get chunk "page"))
                   then JStr (lit "p." ++ py_str (get chunk "page"))
                   else if jtrue (get chunk "section") then JStr (py_str (get chunk "section"))
                   else JNull in
    [[ ("source_id", JStr (source_id chunk index));
       ("text", JStr (py_str t));
       ("locator", locator) ]]
  else [].

Definition chunk_passages (retrieved_chunks : list obj) : list obj :=
  flat_map passage_of (enumerate 0 retrieved_chunks).

(** ** The evidence record is closed *)

Definition label_in (v : json) (names : list string) : Prop := exists n, n ∈ names /\ v = s_ n.
Definition count_typed (v : json) : Prop := v = JNull \/ exists n, v = JInt n.

(** The type of each field an evidence record may carry; no other field is allowed. *)
Definition evidence_field (k : string) (v : json) : Prop :=
  if decide (k = "request_type") then exists s, v = JStr s /\ s <> []
  else if decide (k = "provider_finish_reason") then label_in v BOUNDED_FINISH_REASONS
  else if decide (k = "application_status") then label_in v BOUNDED_APPLICATION_STATUSES
  else if decide (k = "parse_stage") then label_in v BOUNDED_PARSE_STAGES
  else k ∈ ["input_tokens"; "output_tokens"; "total_tokens"; "max_tokens"; "latency_ms"] /\
       count_typed v.

Lemma bounded_label v allowed default :
  default ∈ allowed -> label_in (JStr (bounded v allowed default)) allowed.
Proof.
  intros Hd. unfold bounded. destruct (existsb _ allowed) eqn:E; [|by exists default].
  apply existsb_exists in E as (a & Ha%list_elem_of_In & Hq%bool_decide_eq_true).
  exists a. by rewrite Hq.
Qed.

Lemma token_count_typed v : count_typed (token_count v).
Proof. destruct v; cbn; unfold count_typed; eauto. Qed.

Lemma Forall_obj_set (P : string -> json -> Prop) o k v :
  Forall (fun kv => P kv.1 kv.2) o -> P k v -> Forall (fun kv => P kv.1 kv.2) (obj_set o k v).
Proof.
  intros Ho Hv. induction Ho as [|[k' v'] o Hk Ho IH]; cbn; [by repeat constructor|].
  destruct (decide (k = k')) as [->|]; by constructor.
Qed.

(** C38: whatever the reply of the LLM agent holds, the evidence kept of it has only the
    declared fields; finish reason, application status and parse stage are from their closed
    vocabularies and every count is an integer or absent, so no prompt, output or context
    text enters a turn's evidence through them. *)
Theorem llm_evidence_typed payload evidence :
  llm_action_evidence payload = Some evidence ->
  Forall (fun kv => evidence_field kv.1 kv.2) evidence.
Proof.
  unfold llm_action_evidence. destruct payload as [| | | | | |p]; try done.
  destruct (get p "request_type") as [| | | |[|c cs]| |] eqn:Er; try done.
  intros [= <-]. destruct (negb _); [|case_bool_decide];
    repeat (apply Forall_cons; split); try apply Forall_nil_2; cbn [fst snd];
    unfold evidence_field; cbn -[label_in count_typed bounded token_count elem_of];
    first [ split; [set_solver|apply token_count_typed]
          | by exists (c :: cs)
          | apply bounded_label; first [case_bool_decide; set_solver | set_solver]
          | exists "unknown"; split; [set_solver|done] ].
Qed.

(** ** The verdict of a risk scan *)

Lemma get_set_eq o k v : get (obj_set o k v) k = v.
Proof. rewrite get_set. by rewrite decide_True. Qed.
Lemma get_set_ne o k k' v : k' <> k -> get (obj_set o k v) k' = get o k'.
Proof. intros. rewrite get_set. by rewrite decide_False. Qed.

Definition scan_level (parsed : obj) : text :=
  lower (py_str (get_or parsed "risk_level" (JStr []))).

(** the verdict the graph reads from a risk-scan reply.  A reply is blocking exactly
    when its risk level, lower-cased, is one of three words; any other level a model may
    write (["severe"], ["high "] with a trailing space) and a reply without parsed output
    let the text pass. *)
Theorem risk_scan_verdict json_loads payload :
  is_str (get payload "request_type") "content_risk_scan" = true ->
  jtrue (get payload "blocked") = false ->
  jtrue (get (normalize_llm_agent_response json_loads payload) "blocked") = true <->
  exists parsed, get payload "parsed_output" = JObj parsed /\
    (scan_level parsed = lit "high" \/ scan_level parsed = lit "critical" \/
     scan_level parsed = lit "blocked").
Proof.
  intros Hr Hb. unfold normalize_llm_agent_response.
  assert (forall o, o = "content_risk_scan" \/ is_str (get payload "request_type") o = false) as Hn.
  { intros o. destruct (decide (o = "content_risk_scan")); [by left|right].
    destruct (get payload "request_type"); try done. cbn in *.
    apply bool_decide_eq_true in Hr. subst. apply bool_decide_eq_false. intros Eo%(inj lit). congruence. }
  destruct (get payload "parsed_output") as [| | | | | |parsed] eqn:Ep.
  7: {
    destruct (Hn "answer_generation") as [|Hx]; [done|rewrite Hx; clear Hx].
    destruct (Hn "answer_evaluation") as [|Hx]; [done|rewrite Hx; clear Hx].
    destruct (Hn "query_rewrite") as [|Hx]; [done|rewrite Hx; clear Hx]. rewrite Hr.
    rewrite get_set_ne, get_set_eq by done. cbn [jtrue]. fold (scan_level parsed).
    rewrite existsb_exists. split.
    - intros (l & Hl & He%bool_decide_eq_true). exists parsed. split; [done|]. rewrite He.
      cbn in Hl. naive_solver.
    - intros (q & [= <-] & Hl). destruct Hl as [->|[->| ->]];
        eexists; (split; [|by apply bool_decide_eq_true]); cbn; tauto. }
  all: split; [|naive_solver]; intros Ht; exfalso;
    destruct (llm_action_evidence (JObj payload)); rewrite ?get_set_ne in Ht by done; congruence.
Qed.
End Replies.

Section Witness.
#[local] Existing Instance ascii_text.

Definition demo_reply (level : string) : obj :=
  [ ("request_type", s_ "content_risk_scan"); ("status", s_ "success");
    ("provider_finish_reason", s_ "Stop");
    ("parsed_output", JObj [("risk_level", s_ level); ("summary", s_ "prompt leak")]) ].

Lemma llm_evidence_typed_witness :
  exists e, llm_action_evidence (JObj (demo_reply "high")) = Some e /\
    get e "provider_finish_reason" = s_ "stop" /\
    Forall (fun kv => evidence_field kv.1 kv.2) e.
Proof.
  eexists. split; [vm_compute; reflexivity|]. split; [vm_compute; reflexivity|].
  apply (llm_evidence_typed (JObj (demo_reply "high"))). vm_compute. reflexivity.
Defined.

Lemma risk_scan_verdict_witness :
  jtrue (get (normalize_llm_agent_response (fun _ => None) (demo_reply "high")) "blocked") = true /\
  jtrue (get (normalize_llm_agent_response (fun _ => None) (demo_reply "severe")) "blocked") = false.
Proof.
  split; [|vm_compute; reflexivity].
  apply (risk_scan_verdict (fun _ => None) (demo_reply "high")); [reflexivity|reflexivity|].
  eexists. split; [reflexivity|]. left. vm_compute. reflexivity.
Defined.
End Witness.
