(* ===== verification/RetrievalTrace.v ===== *)
(** * Retrieval lineage

    [src/backend/rag/app/services/retrieval_trace.py]: the bounded record of what each
    retrieval step of a turn yielded, collected only for evaluation runs. *)

From Stdlib Require Import QArith.
From stdpp Require Import base list strings pretty sets.
From S2P Require Import Prelude PyValue ContextAssembler.

Local Open Scope string_scope.
Local Open Scope list_scope.
Local Open Scope Z_scope.

Definition STAGE_BASE : string := "base".
Definition STAGE_PASS_ONE : string := "pass_one".
Definition STAGE_MERGED : string := "merged".
Definition STAGE_RERANKED : string := "reranked".
Definition STAGE_PASS_TWO : string := "pass_two".
Definition STAGE_FINAL_CONTEXT : string := "final_context".

(** One recorded step.  Candidates are identity, position and score, never text. *)
Record stage_entry := mkEntry {
  se_stage : string;
  se_query : option text;
  se_query_source : option text;
  se_requested_k : option Z;
  se_returned_count : Z;
  se_kept_count : Z;
  se_candidates : list obj;
  se_truncated : bool;
  se_dropped : list obj
}.

Record decision_entry := mkDecisionEntry {
  de_stage : string; de_decision : string; de_reason : option string; de_detail : obj
}.

Record RetrievalTrace := mkTrace {
  max_candidates : Z; max_stages : Z; max_query_chars : Z;
  stages : list stage_entry; decisions : list decision_entry; truncated : bool
}.

#[export] Instance eta_RetrievalTrace : Eta RetrievalTrace := fun x =>
  mkTrace (max_candidates x) (max_stages x) (max_query_chars x)
    (stages x) (decisions x) (truncated x).

Section Trace.
Context `{PyText}.

(** [value in (None, "")]. *)
Definition blank (v : json) : bool :=
  match v with JNull => true | JStr [] => true | _ => false end.

Definition clean_id (v : json) : json := if blank v then JNull else JStr (py_str v).

Definition trace_score (v : json) : json :=
  match v with
  | JInt n => JFloat (inject_Z n)
  | JFloat q => JFloat q
  | JStr s => match parse_float s with Some q => JFloat q | None => JNull end
  | _ => JNull
  end.

(** [chunk.get(k) or {}] used as a dictionary. *)
Definition sub_obj (v : json) : outcome py_exn obj :=
  match v ||| JObj [] with JObj o => Ok o | _ => AttributeError end.

Definition trace_field (chunk : obj) (name : string) : outcome py_exn json :=
  let* payload := sub_obj (get chunk "payload") in
  let* metadata := sub_obj (get chunk "metadata" ||| get payload "metadata") in
  Ok (if negb (blank (get chunk name)) then get chunk name
      else if negb (blank (get payload name)) then get payload name
      else get metadata name).

Definition arms_prefix (v : json) : outcome py_exn json :=
  match v ||| JArr [] with JArr l => Ok (JArr (take 2 l)) | _ => TypeError end.

Definition candidate_view (chunk : obj) (rank : Z) : outcome py_exn obj :=
  let* chunk_id := trace_field chunk "chunk_id" in
  let* file_id := trace_field chunk "file_id" in
  let* document_id := trace_field chunk "document_id" in
  let* score := trace_field chunk "score" in
  let view := [ ("rank", JInt rank);
                ("chunk_id", clean_id chunk_id);
                ("file_id", clean_id (file_id ||| document_id));
                ("score", trace_score score) ] in
  let view := if is_none (get chunk "reranker_score") then view
              else view ++ [("reranker_score", trace_score (get chunk "reranker_score"))] in
  let* diagnostics := sub_obj (get chunk "retrieval_diagnostics") in
  if jtrue (JObj diagnostics) then
    let* arms := arms_prefix (get diagnostics "matched_arms") in
    Ok (view ++ [("retrieval", JObj
      [ ("dense_rank", get diagnostics "dense_rank");
        ("dense_score", trace_score (get diagnostics "dense_score"));
        ("sparse_rank", get diagnostics "sparse_rank");
        ("sparse_score", trace_score (get diagnostics "sparse_score"));
        ("fused_rank", get diagnostics "fused_rank");
        ("fused_score", trace_score (get diagnostics "fused_score"));
        ("matched_arms", arms) ])])
  else Ok view.

(** The ranks are given before the cap. *)
Fixpoint candidate_views_from (rank : Z) (chunks : list obj) (limit : Z)
    : outcome py_exn (list obj) :=
  match chunks with
  | [] => Ok []
  | chunk :: rest =>
      if Z.max 0 limit <? rank then Ok []
      else let* v := candidate_view chunk rank in
           let* vs := candidate_views_from (rank + 1) rest limit in
           Ok (v :: vs)
  end.

Definition candidate_views (chunks : list obj) (limit : Z) : outcome py_exn (list obj) :=
  candidate_views_from 1 chunks limit.

(** [_query], with the flag it may set. *)
Definition trace_query (t : RetrievalTrace) (query : option text) : option text * bool :=
  match query with
  | None => (None, truncated t)
  | Some q =>
      let limit := Z.max 0 (max_query_chars t) in
      if zlen q <=? limit then (Some q, truncated t)
      else (Some (py_prefix q limit ++ lit "..."), true)
  end.

Definition dropped_entry (d : obj) : obj :=
  [("chunk_id", clean_id (get d "chunk_id")); ("reason", get d "reason")].

(** The index of the first entry that is not one of the kept diagnostic stages. *)
Fixpoint drop_index (l : list stage_entry) : nat :=
  match l with
  | [] => 0
  | e :: l' =>
      if bool_decide (se_stage e ∈ [STAGE_BASE; STAGE_MERGED; STAGE_PASS_TWO])
      then S (drop_index l') else 0%nat
  end.

Definition pop_entry (i : nat) (l : list stage_entry) : list stage_entry :=
  take i l ++ drop (S i) l.

(** [l.pop(next(..., len(l) - 1))]. *)
Definition evict (l : list stage_entry) : list stage_entry :=
  match List.find (fun e => negb (bool_decide
          (se_stage e ∈ [STAGE_BASE; STAGE_MERGED; STAGE_PASS_TWO]))) l with
  | Some _ => pop_entry (drop_index l) l
  | None => pop_entry (length l - 1) l
  end.

Definition record_stage (t : RetrievalTrace) (stage : string) (candidates : list obj)
    (query query_source : option text) (requested_k returned_count : option Z)
    (dropped : list obj) : outcome py_exn RetrievalTrace :=
  let* views := candidate_views candidates (max_candidates t) in
  let '(q, flag) := trace_query t query in
  let entry := mkEntry stage q query_source requested_k
    (match returned_count with Some n => n | None => zlen candidates end)
    (zlen candidates) views (zlen views <? zlen candidates)
    (map dropped_entry (py_prefix dropped (max_candidates t))) in
  let flag := flag || se_truncated entry in
  let stage_limit := Z.max 1 (max_stages t) in
  if decide (stage = STAGE_FINAL_CONTEXT) then
    let kept := List.filter (fun e => negb (bool_decide (se_stage e = STAGE_FINAL_CONTEXT)))
                  (stages t) in
    if stage_limit <=? zlen kept
    then Ok (t {{ stages := evict kept ++ [entry] }} {{ truncated := true }})
    else Ok (t {{ stages := kept ++ [entry] }} {{ truncated := flag }})
  else if stage_limit <=? zlen (stages t)
  then Ok (t {{ truncated := true }})
  else Ok (t {{ stages ::= (fun l => l ++ [entry]) }} {{ truncated := flag }}).

Definition final_context_stage (t : RetrievalTrace) : option stage_entry :=
  List.find (fun e => bool_decide (se_stage e = STAGE_FINAL_CONTEXT)) (reverse (stages t)).

Definition scalar (v : json) : bool :=
  match v with JArr _ | JObj _ => false | _ => true end.

Definition record_decision (t : RetrievalTrace) (stage decision : string)
    (reason : option string) (detail : obj) : RetrievalTrace :=
  t {{ decisions ::= (fun l => l ++
       [mkDecisionEntry stage decision reason (List.filter (fun kv => scalar kv.2) detail)]) }}.

(** ** Where a selected chunk came from *)

Definition same_id (v w : json) : bool :=
  match v, w with
  | JNull, JNull => true
  | JStr s, JStr t => bool_decide (s = t)
  | _, _ => false
  end.

Definition rank_in (chunk_id : json) (e : stage_entry) : option json :=
  match List.find (fun c => same_id (get c "chunk_id") chunk_id) (se_candidates e) with
  | Some c => Some (get c "rank")
  | None => None
  end.

Definition ranks_by_stage (chunk_id : json) (earlier : list stage_entry) : obj :=
  foldl (fun ranks e =>
           match rank_in chunk_id e with
           | Some r => if is_none r || has_key ranks (se_stage e) then ranks
                       else obj_set ranks (se_stage e) r
           | None => ranks
           end) [] earlier.

Definition provenance (t : RetrievalTrace) : list obj :=
  match final_context_stage t with
  | None => []
  | Some final =>
      let earlier := List.filter (fun e => negb (bool_decide (se_stage e = STAGE_FINAL_CONTEXT)))
                       (stages t) in
      map (fun c =>
             let ranks := ranks_by_stage (get c "chunk_id") earlier in
             [ ("chunk_id", get c "chunk_id");
               ("file_id", get c "file_id");
               ("final_rank", get c "rank");
               ("first_seen_stage", match ranks with (k, _) :: _ => s_ k | [] => JNull end);
               ("ranks_by_stage", JObj ranks) ])
          (se_candidates final)
  end.

(** ** Bounds *)

Definition is_final (e : stage_entry) : bool := bool_decide (se_stage e = STAGE_FINAL_CONTEXT).

Definition view_keys : list string :=
  ["rank"; "chunk_id"; "file_id"; "score"; "reranker_score"; "retrieval"].

Definition entry_ok (t : RetrievalTrace) (e : stage_entry) : Prop :=
  zlen (se_candidates e) <= max_candidates t /\
  Forall (fun c => Forall (fun k => k ∈ view_keys) c.*1) (se_candidates e) /\
  zlen (se_dropped e) <= max_candidates t /\
  match se_query e with
  | Some q => zlen q <= Z.max 0 (max_query_chars t) + 3
  | None => True
  end.

Definition trace_wf (t : RetrievalTrace) : Prop :=
  0 <= max_candidates t /\ zlen (stages t) <= Z.max 1 (max_stages t) /\
  Forall (entry_ok t) (stages t) /\
  (length (List.filter is_final (stages t)) <= 1)%nat.

Lemma obind_ok {E A B} (c : outcome E A) (k : A -> outcome E B) b :
  obind c k = Ok b -> exists a, c = Ok a /\ k a = Ok b.
Proof. destruct c; cbn; [eauto|done]. Qed.

Lemma candidate_view_keys chunk rank v :
  candidate_view chunk rank = Ok v -> Forall (fun k => k ∈ view_keys) v.*1.
Proof.
  unfold candidate_view. intros (? & _ & (? & _ & (? & _ & (? & _ & Hv)%obind_ok)%obind_ok)%obind_ok)%obind_ok.
  apply obind_ok in Hv as (d & _ & Hv). revert Hv.
  destruct (jtrue (JObj d)); [intros (? & _ & [= <-])%obind_ok|intros [= <-]];
    destruct (is_none _); apply (bool_decide_unpack _); reflexivity.
Qed.

Lemma candidate_views_ok rank chunks limit vs :
  1 <= rank -> candidate_views_from rank chunks limit = Ok vs ->
  zlen vs <= Z.max 0 (Z.max 0 limit - (rank - 1)) /\
  Forall (fun c => Forall (fun k => k ∈ view_keys) c.*1) vs.
Proof.
  revert rank vs. induction chunks as [|c chunks IH]; intros rank vs Hr; cbn.
  { intros [= <-]. unfold zlen. cbn [length]. split; [lia|constructor]. }
  destruct (Z.ltb_spec (Z.max 0 limit) rank).
  { intros [= <-]. unfold zlen. cbn [length]. split; [lia|constructor]. }
  intros (v & Hv & (vs' & Hvs & [= <-])%obind_ok)%obind_ok.
  apply IH in Hvs as [H1 H2]; [|lia]. rewrite zlen_cons.
  split; [lia|]. constructor; [by eapply candidate_view_keys|done].
Qed.

Lemma trace_query_bound t query :
  match (trace_query t query).1 with
  | Some q => zlen q <= Z.max 0 (max_query_chars t) + 3
  | None => True
  end.
Proof.
  unfold trace_query. destruct query as [q|]; [|done]. 
  destruct (Z.leb_spec (zlen q) (Z.max 0 (max_query_chars t))); cbn -[lit]; [lia|].
  rewrite zlen_app, py_prefix_nonneg by lia. unfold zlen.
  rewrite length_take. change (length (lit "...")) with 3%nat. lia.
Qed.

Lemma pop_entry_sublist i l : pop_entry i l `sublist_of` l.
Proof.
  unfold pop_entry. rewrite <- (take_drop i l) at 3. apply sublist_app; [done|].
  replace (S i) with (i + 1)%nat by lia. rewrite <- drop_drop. apply sublist_drop.
Qed.

Lemma length_pop_entry i l : (i < length l)%nat -> length (pop_entry i l) = (length l - 1)%nat.
Proof. intros Hi. unfold pop_entry. rewrite length_app, length_take, length_drop. lia. Qed.

Lemma drop_index_lt l e :
  List.find (fun e => negb (bool_decide
    (se_stage e ∈ [STAGE_BASE; STAGE_MERGED; STAGE_PASS_TWO]))) l = Some e ->
  (drop_index l < length l)%nat.
Proof.
  induction l as [|x l IH]; cbn; [done|]. case_bool_decide; cbn; [|lia].
  intros Hf. apply IH in Hf. lia.
Qed.

Lemma evict_facts l : l <> [] -> evict l `sublist_of` l /\ length (evict l) = (length l - 1)%nat.
Proof.
  intros Hl. unfold evict. destruct (List.find _ l) eqn:E;
    (split; [apply pop_entry_sublist|]); apply length_pop_entry.
  - by eapply drop_index_lt.
  - destruct l; [done|cbn; lia].
Qed.

Lemma filter_sublist {A} (f : A -> bool) l : List.filter f l `sublist_of` l.
Proof. induction l as [|x l IH]; cbn; [constructor|]. destruct (f x); by constructor. Qed.

Lemma filter_none {A} (f g : A -> bool) l :
  (forall x, f x = true -> g x = false) -> List.filter g (List.filter f l) = [].
Proof.
  intros Hfg. induction l as [|x l IH]; cbn; [done|]. destruct (f x) eqn:E; [|done].
  cbn. by rewrite (Hfg x E).
Qed.

Lemma sublist_filter_nil {A} (g : A -> bool) l k :
  k `sublist_of` l -> List.filter g l = [] -> List.filter g k = [].
Proof.
  induction 1 as [|x l1 l2 H1 IH|x l1 l2 H1 IH]; cbn; [done| |]; destruct (g x); eauto; done.
Qed.

Lemma find_rev_snoc {A} (f : A -> bool) l x :
  List.find f (reverse (l ++ [x])) = if f x then Some x else List.find f (reverse l).
Proof. rewrite reverse_app. cbn. by destruct (f x). Qed.

(** What [record_stage] builds for this step. *)
Definition new_entry (t : RetrievalTrace) (stage : string) (candidates : list obj)
    (query query_source : option text) (requested_k returned_count : option Z)
    (dropped views : list obj) : stage_entry :=
  mkEntry stage (trace_query t query).1 query_source requested_k
    (match returned_count with Some n => n | None => zlen candidates end)
    (zlen candidates) views (zlen views <? zlen candidates)
    (map dropped_entry (py_prefix dropped (max_candidates t))).

Lemma new_entry_ok t stage candidates query qs rk rc dropped views :
  0 <= max_candidates t -> candidate_views candidates (max_candidates t) = Ok views ->
  entry_ok t (new_entry t stage candidates query qs rk rc dropped views).
Proof.
  intros Hm Hv. apply candidate_views_ok in Hv as [H1 H2]; [|lia].
  split; [cbn; lia|]. split; [done|]. split; [|apply trace_query_bound].
  cbn. unfold zlen. rewrite length_map, py_prefix_nonneg, length_take by lia. lia.
Qed.

(** The three ways a step ends: the terminal context replaces any earlier one, a full trace
    refuses a diagnostic step, or the step is appended. *)
Lemma record_stage_cases t stage candidates query qs rk rc dropped t' :
  record_stage t stage candidates query qs rk rc dropped = Ok t' ->
  exists views, candidate_views candidates (max_candidates t) = Ok views /\
    let entry := new_entry t stage candidates query qs rk rc dropped views in
    let kept := List.filter (fun e => negb (is_final e)) (stages t) in
    max_candidates t' = max_candidates t /\ max_stages t' = max_stages t /\
    max_query_chars t' = max_query_chars t /\
    ((stage = STAGE_FINAL_CONTEXT /\
      stages t' = (if Z.max 1 (max_stages t) <=? zlen kept then evict kept else kept) ++ [entry]) \/
     (stage <> STAGE_FINAL_CONTEXT /\ Z.max 1 (max_stages t) <= zlen (stages t) /\
      stages t' = stages t) \/
     (stage <> STAGE_FINAL_CONTEXT /\ zlen (stages t) < Z.max 1 (max_stages t) /\
      stages t' = stages t ++ [entry])).
Proof.
  unfold record_stage. intros (views & Hv & Ht)%obind_ok. exists views. split; [done|].
  unfold new_entry, is_final. destruct (trace_query t query) as [q flag]. cbn zeta.
  destruct (decide (stage = STAGE_FINAL_CONTEXT)) as [Hs|Hs].
  - revert Ht. destruct (Z.max 1 (max_stages t) <=? _); intros [= <-]; repeat split; by left.
  - destruct (Z.leb_spec (Z.max 1 (max_stages t)) (zlen (stages t))); injection Ht as <-;
      repeat split; eauto 10.
Qed.

Lemma kept_facts t :
  trace_wf t ->
  let kept := List.filter (fun e => negb (is_final e)) (stages t) in
  let base := if Z.max 1 (max_stages t) <=? zlen kept then evict kept else kept in
  base `sublist_of` stages t /\ zlen base < Z.max 1 (max_stages t) /\
  List.filter is_final base = [].
Proof.
  intros (_ & Hl & _ & _). cbn zeta. set (kept := List.filter _ _).
  assert (kept `sublist_of` stages t) as Hk by apply filter_sublist.
  assert (List.filter is_final kept = []) as Hn.
  { apply filter_none. intros x Hx. by destruct (is_final x). }
  pose proof (sublist_length _ _ Hk) as Hlen. unfold zlen in *.
  destruct (Z.leb_spec (Z.max 1 (max_stages t)) (Z.of_nat (length kept))) as [Hf|Hf]; [|done].
  destruct (evict_facts kept) as [He Hle]; [by intros Hnil; rewrite Hnil in Hf; cbn in Hf; lia|].
  split; [by etrans|]. split; [lia|]. by eapply sublist_filter_nil.
Qed.

(** every reachable trace respects its bounds (steps, candidates per step, query length,
    refused candidates), its candidates carry identity, rank and score fields only, and the
    context the answer was generated from, once recorded, is always the terminal entry:
    recording it succeeds on a full trace and no later diagnostic step displaces it. *)
Theorem trace_bounded t stage candidates query qs rk rc dropped t' :
  trace_wf t -> record_stage t stage candidates query qs rk rc dropped = Ok t' ->
  trace_wf t' /\
  (stage = STAGE_FINAL_CONTEXT ->
     exists e, final_context_stage t' = Some e /\ se_kept_count e = zlen candidates) /\
  (stage <> STAGE_FINAL_CONTEXT -> final_context_stage t' = final_context_stage t).
Proof.
  intros Hwf Hr. pose proof (kept_facts t Hwf) as (K1 & K2 & K3).
  apply record_stage_cases in Hr as (views & Hv & Hmc & Hms & Hmq & Hc).
  destruct Hwf as (Hm & Hl & He & Hf). pose proof (new_entry_ok t stage candidates query qs rk rc
    dropped views Hm Hv) as Hok. set (entry := new_entry _ _ _ _ _ _ _ _ _) in *.
  replace (Forall (entry_ok t) (stages t)) with (Forall (entry_ok t') (stages t)) in He
    by (unfold entry_ok; by rewrite Hmc, Hmq).
  assert (entry_ok t' entry) as Hok' by (unfold entry_ok in *; by rewrite Hmc, Hmq).
  unfold trace_wf, final_context_stage. rewrite Hmc, Hms.
  assert (stage <> STAGE_FINAL_CONTEXT -> is_final entry = false) as Hnf
    by (intros; by apply bool_decide_eq_false).
  destruct Hc as [(Hs & ->)|[(Hs & Hfull & ->)|(Hs & Hroom & ->)]].
  - assert (is_final entry = true) as Hfin by (by apply bool_decide_eq_true).
    split; [|split; [|done]].
    + split; [done|]. split; [rewrite zlen_app; unfold zlen in *; cbn; lia|].
      split; [apply Forall_app_2; [|by apply Forall_singleton];
        rewrite Forall_forall in *; intros e Hin; apply He; by eapply elem_of_sublist|].
      rewrite List.filter_app, length_app, K3. cbn.
      by destruct (is_final entry); cbn; lia.
    + intros _. exists entry. split; [|done].
      rewrite find_rev_snoc. unfold is_final in Hfin. by rewrite Hfin.
  - split; [done|]. split; [done|]. done.
  - split; [|split; [done|]].
    + split; [done|]. split; [rewrite zlen_app; unfold zlen in *; cbn; lia|].
      split; [apply Forall_app_2; [done|by apply Forall_singleton]|].
      rewrite List.filter_app, length_app. cbn. rewrite (Hnf Hs). cbn. lia.
    + intros _. rewrite find_rev_snoc. specialize (Hnf Hs).
      unfold is_final in Hnf. by rewrite Hnf.
Qed.
End Trace.

Section Witness.
#[local] Existing Instance ascii_text.

Definition demo_trace : RetrievalTrace :=
  mkTrace 2 1 10 [mkEntry STAGE_BASE (Some (lit "q")) None None 0 0 [] false []] [] false.

Lemma trace_bounded_witness :
  exists t', record_stage demo_trace STAGE_FINAL_CONTEXT
               [demo_chunk "c1" "d1" "text" 1; demo_chunk "c2" "d1" "text" 1;
                demo_chunk "c3" "d1" "text" 1] None None None None [] = Ok t' /\
    length (stages t') = 1%nat /\ truncated t' = true /\ trace_wf t'.
Proof.
  eexists. split; [vm_compute; reflexivity|]. split; [vm_compute; reflexivity|].
  split; [vm_compute; reflexivity|].
  eapply (trace_bounded demo_trace STAGE_FINAL_CONTEXT
    [demo_chunk "c1" "d1" "text" 1; demo_chunk "c2" "d1" "text" 1;
     demo_chunk "c3" "d1" "text" 1] None None None None []); [|vm_compute; reflexivity].
  split; [cbn; lia|]. split; [vm_compute; discriminate|]. split; [|vm_compute; lia].
  apply Forall_singleton. split; [vm_compute; discriminate|]. split; [constructor|].
  split; vm_compute; discriminate.
Defined.
End Witness.
