(* ===== verification/CitationMetrics.v ===== *)
(** * Citation quality

    [src/backend/rag/app/services/citation_metrics.py]: how many of an answer's citations
    the judge confirmed, and how many of the judge's claims the answer credited.  A Python
    set of ids is a list without repetitions.  [None] is "not measured". *)

From Stdlib Require Import QArith Lqa Qminmax.
From stdpp Require Import base list strings sets.
From S2P Require Import Prelude PyValue ContextAssembler.

Local Open Scope string_scope.
Local Open Scope list_scope.
Local Open Scope Z_scope.

Section Citations.
Context `{PyText}.

(** [for x in v] over a value of unknown type. *)
Definition iter_json (v : json) : outcome py_exn (list json) :=
  match v with
  | JArr l => Ok l
  | JStr s => Ok (map (fun c => JStr [c]) s)
  | JObj o => Ok (map (fun kv => s_ kv.1) o)
  | _ => TypeError
  end.

Definition distinct (ids : list json) : list text :=
  remove_dups (List.filter (fun t => negb (bool_decide (t = [])))
                 (map py_str (List.filter (fun v => negb (is_none v)) ids))).

(** The ids of a claim that is a dictionary the judge marked supported. *)
Definition claim_ids (claim : json) : outcome py_exn (option (list text)) :=
  match claim with
  | JObj c =>
      if jtrue (get c "supported") then
        let* ids := iter_json (get c "supporting_passage_ids" ||| JArr []) in
        Ok (Some (distinct ids))
      else Ok None
  | _ => Ok None
  end.

Fixpoint supporting_passage_ids (claims : list json) : outcome py_exn (list text) :=
  match claims with
  | [] => Ok []
  | claim :: rest =>
      let* own := claim_ids claim in
      let* others := supporting_passage_ids rest in
      Ok (match own with Some ids => set_union ids others | None => others end)
  end.

(** [str(raw).strip().strip("[]")]. *)
Definition reference_of (raw : json) : text :=
  strip (fun c => (c =? 91) || (c =? 93)) (py_strip (py_str raw)).

Definition add_new (ids : list text) (x : text) : list text :=
  if bool_decide (x ∈ ids) then ids else ids ++ [x].

Definition resolve_reference (passage_ids : list text) (ids : list text) (raw : json)
    : outcome py_exn (list text) :=
  let reference := reference_of raw in
  if bool_decide (reference ∈ passage_ids) then Ok (add_new ids reference)
  else if negb (bool_decide (reference = [])) && forallb isdigit reference then
    match parse_int reference with
    | None => Raise (PyError (lit "ValueError") (lit "invalid literal for int()"))
    | Some index =>
        if (1 <=? index) && (index <=? zlen passage_ids) then
          match passage_ids !! Z.to_nat (index - 1) with
          | Some chunk_id => Ok (add_new ids chunk_id)
          | None => Ok ids
          end
        else Ok ids
    end
  else Ok ids.

Fixpoint resolve_references (passage_ids : list text) (ids : list text) (raws : list json)
    : outcome py_exn (list text) :=
  match raws with
  | [] => Ok ids
  | raw :: rest =>
      let* ids' := resolve_reference passage_ids ids raw in
      resolve_references passage_ids ids' rest
  end.

Fixpoint resolve_claim_passage_ids (claims : list json) (passage_ids : list text)
    : outcome py_exn (list obj) :=
  match claims with
  | [] => Ok []
  | JObj claim :: rest =>
      let* raws := iter_json (get claim "supporting_passage_ids" ||| JArr []) in
      let* ids := resolve_references passage_ids [] raws in
      let* others := resolve_claim_passage_ids rest passage_ids in
      Ok (obj_set claim "supporting_passage_ids" (JArr (map JStr ids)) :: others)
  | _ :: rest => resolve_claim_passage_ids rest passage_ids
  end.

Definition ratio (a b : list text) : Q := inject_Z (zlen a) / inject_Z (zlen b).

Definition citation_precision (cited_ids : list json) (supporting_ids : list text) : option Q :=
  let cited := distinct cited_ids in
  if bool_decide (cited = []) then None
  else Some (ratio (set_inter cited (distinct (map JStr supporting_ids))) cited).

(** The claims the judge found supportable, each with whether the answer credits it. *)
Fixpoint credit (claims : list json) (cited : option (list text)) : outcome py_exn (list bool) :=
  match claims with
  | [] => Ok []
  | claim :: rest =>
      let* own := claim_ids claim in
      let* others := credit rest cited in
      Ok (match own with
          | Some ((_ :: _) as ids) =>
              (match cited with
               | None => match claim with JObj c => jtrue (get c "cited") | _ => false end
               | Some cs => negb (bool_decide (set_inter ids cs = []))
               end) :: others
          | _ => others
          end)
  end.

Definition citation_recall (claims : list json) (cited_ids : option (list json))
    : outcome py_exn (option Q) :=
  let* credits := credit claims (distinct <$> cited_ids) in
  Ok (if bool_decide (credits = []) then None
      else Some (inject_Z (zlen (List.filter (fun b => b) credits)) / inject_Z (zlen credits))%Q).

Definition citation_f1 (precision recall : option Q) : option Q :=
  match precision, recall with
  | Some p, Some r =>
      if Qeq_bool (p + r) 0 then Some 0%Q else Some (2 * p * r / (p + r))%Q
  | _, _ => None
  end.

Definition cited_chunk_ratio (cited_ids : list json) (retrieved_chunk_count : Z) : option Q :=
  if retrieved_chunk_count =? 0 then None
  else Some (Qmin 1 (inject_Z (zlen (distinct cited_ids)) / inject_Z retrieved_chunk_count)).

Definition sumQ (l : list Q) : Q := foldl Qplus 0%Q l.

Record mean_result := mkMean { mean : option Q; counted : Z; excluded : Z }.

Definition aggregate_mean (values : list (option Q)) : mean_result :=
  let measured := omap id values in
  mkMean (if bool_decide (measured = []) then None
          else Some (sumQ measured / inject_Z (zlen measured))%Q)
         (zlen measured) (zlen values - zlen measured).

(** ** Scores are fractions *)

Definition unit_interval (q : Q) : Prop := (0 <= q <= 1)%Q.
Definition measured_unit (o : option Q) : Prop :=
  match o with Some q => unit_interval q | None => True end.

Lemma fraction_unit a b : 0 <= a <= b -> 0 < b -> unit_interval (inject_Z a / inject_Z b).
Proof.
  intros Ha Hb. assert (0 < inject_Z b)%Q as Hb' by (change 0%Q with (inject_Z 0); by rewrite <- Zlt_Qlt).
  split.
  - apply Qle_shift_div_l; [done|]. rewrite Qmult_0_l. change 0%Q with (inject_Z 0).
    rewrite <- Zle_Qle. lia.
  - apply Qle_shift_div_r; [done|]. rewrite Qmult_1_l, <- Zle_Qle. lia.
Qed.

Lemma filter_zlen {A} (f : A -> bool) l : 0 <= zlen (List.filter f l) <= zlen l.
Proof.
  unfold zlen. induction l as [|x l IH]; [done|]. simpl List.filter.
  destruct (f x); simpl length in *; lia.
Qed.

Lemma zlen_pos {A} (l : list A) : l <> [] -> 0 < zlen l.
Proof. destruct l; [done|]. rewrite zlen_cons. pose proof (zlen_nonneg l). lia. Qed.

Lemma filter_full {A} (f : A -> bool) l :
  zlen (List.filter f l) = zlen l <-> Forall (fun x => f x = true) l.
Proof.
  induction l as [|x l IH]; [by split|]. simpl List.filter. pose proof (filter_zlen f l).
  destruct (f x) eqn:E; rewrite ?zlen_cons, Forall_cons; [|split; [lia|intros [? _]; congruence]].
  rewrite <- IH. split; [intros; split; [done|lia]|intros [_ ?]; lia].
Qed.

Lemma fraction_one a b : 0 < b -> (inject_Z a / inject_Z b == 1)%Q <-> a = b.
Proof.
  intros Hb. assert (~ inject_Z b == 0)%Q as Hn.
  { change 0%Q with (inject_Z 0). rewrite inject_Z_injective. lia. }
  split.
  - intros He. assert (inject_Z a == inject_Z b)%Q as Hab.
    { transitivity (inject_Z a / inject_Z b * inject_Z b)%Q; [by field|]. rewrite He. ring. }
    exact (proj1 (inject_Z_injective a b) Hab).
  - intros ->. by field.
Qed.

Lemma citation_precision_unit cited supporting :
  measured_unit (citation_precision cited supporting).
Proof.
  unfold citation_precision. case_bool_decide as Hc; cbn; [done|].
  apply fraction_unit; [apply filter_zlen|by apply zlen_pos].
Qed.

Lemma citation_recall_unit claims cited r :
  citation_recall claims cited = Ok r -> measured_unit r.
Proof.
  unfold citation_recall. destruct (credit _ _) as [credits|]; cbn; [|done]. intros [= <-].
  case_bool_decide as Hc; cbn; [done|]. apply fraction_unit; [apply filter_zlen|by apply zlen_pos].
Qed.

Lemma citation_f1_unit p r : measured_unit p -> measured_unit r -> measured_unit (citation_f1 p r).
Proof.
  destruct p as [p|], r as [r|]; cbn; try done. intros [Hp0 Hp1] [Hr0 Hr1].
  destruct (Qeq_bool (p + r) 0) eqn:E; cbn; [split; lra|].
  apply Qeq_bool_neq in E. assert (0 < p + r)%Q as Hpos by (destruct (Qlt_le_dec 0 (p + r)); lra).
  split.
  - apply Qle_shift_div_l; [done|]. rewrite Qmult_0_l. nra.
  - apply Qle_shift_div_r; [done|]. nra.
Qed.

Lemma cited_chunk_ratio_unit cited n : 0 <= n -> measured_unit (cited_chunk_ratio cited n).
Proof.
  intros Hn. unfold cited_chunk_ratio. destruct (Z.eqb_spec n 0); cbn; [done|].
  split; [|apply Q.le_min_l]. apply Q.min_glb; [lra|].
  apply Qle_shift_div_l; [change 0%Q with (inject_Z 0); rewrite <- Zlt_Qlt; lia|].
  rewrite Qmult_0_l. change 0%Q with (inject_Z 0). rewrite <- Zle_Qle. apply zlen_nonneg.
Qed.

Lemma distinct_nodup ids : NoDup (distinct ids).
Proof. apply NoDup_remove_dups. Qed.

(** what citation precision says.  It is unmeasured exactly when the answer cited
    nothing; otherwise it is a fraction of the distinct cited passages, it is 1 exactly when
    the judge confirmed every cited passage, and a repeated citation changes nothing. *)
Theorem citation_precision_meaning cited supporting :
  (citation_precision cited supporting = None <-> distinct cited = []) /\
  forall p, citation_precision cited supporting = Some p ->
    unit_interval p /\
    ((p == 1)%Q <-> distinct cited ⊆ distinct (map JStr supporting)) /\
    forall c, c ∈ cited -> citation_precision (c :: cited) supporting = Some p.
Proof.
  split; [unfold citation_precision; by case_bool_decide|]. intros p Hp.
  pose proof (citation_precision_unit cited supporting) as Hu. rewrite Hp in Hu.
  split; [done|]. split.
  - revert Hp. unfold citation_precision. case_bool_decide as Hc; [done|]. intros [= <-].
    unfold ratio. rewrite fraction_one by (by apply zlen_pos). unfold set_inter.
    rewrite filter_full, Forall_forall. split; intros Hs x Hx.
    + specialize (Hs x Hx). by apply bool_decide_eq_true in Hs.
    + apply bool_decide_eq_true, Hs, Hx.
  - intros c Hc. rewrite <- Hp. unfold citation_precision.
    enough (distinct (c :: cited) = distinct cited) as -> by done.
    unfold distinct. cbn. destruct (is_none c) eqn:En; cbn; [done|].
    destruct (bool_decide_reflect (py_str c = [])) as [|Hn]; cbn; [done|].
    apply decide_True. apply list_elem_of_In, List.filter_In. split.
    + apply in_map, List.filter_In. split; [by apply list_elem_of_In|]. by rewrite En.
    + by rewrite bool_decide_false.
Qed.

(** ** The judge's references end up in the namespace of the citations *)

Lemma resolve_reference_in passage_ids ids raw ids' :
  resolve_reference passage_ids ids raw = Ok ids' ->
  Forall (fun x => x ∈ passage_ids) ids -> NoDup ids ->
  Forall (fun x => x ∈ passage_ids) ids' /\ NoDup ids'.
Proof.
  assert (forall x, x ∈ passage_ids -> Forall (fun x => x ∈ passage_ids) ids -> NoDup ids ->
    Forall (fun x => x ∈ passage_ids) (add_new ids x) /\ NoDup (add_new ids x)) as Hadd.
  { intros x Hx Hf Hn. unfold add_new. case_bool_decide; [done|]. split.
    - apply Forall_app_2; [done|]. by apply Forall_singleton.
    - apply NoDup_app. split; [done|]. split; [set_solver|apply NoDup_singleton]. }
  unfold resolve_reference. case_bool_decide; [intros [= <-]; by apply Hadd|].
  destruct (_ && _); [|by intros [= <-]]. destruct (parse_int _) as [i|]; [|done].
  destruct (_ && _); [|by intros [= <-]]. destruct (_ !! _) eqn:El; intros [= <-]; [|done].
  apply Hadd. by eapply list_elem_of_lookup_2.
Qed.

Lemma resolve_references_in passage_ids ids raws ids' :
  resolve_references passage_ids ids raws = Ok ids' ->
  Forall (fun x => x ∈ passage_ids) ids -> NoDup ids ->
  Forall (fun x => x ∈ passage_ids) ids' /\ NoDup ids'.
Proof.
  revert ids. induction raws as [|raw raws IH]; intros ids; cbn; [by intros [= <-]|].
  destruct (resolve_reference _ _ _) as [i|] eqn:E; cbn; [|done]. intros Hr Hf Hn.
  destruct (resolve_reference_in _ _ _ _ E Hf Hn). by eapply IH.
Qed.

(** after resolution every supporting passage a claim names is one of the passages the
    judge was shown, in the namespace of the answer's citations, each once; every other
    field of the claim is kept and malformed claims are left out. *)
Theorem resolved_claims_in_namespace claims passage_ids resolved :
  resolve_claim_passage_ids claims passage_ids = Ok resolved ->
  Forall2 (fun claim entry =>
    (exists ids, get entry "supporting_passage_ids" = JArr (map JStr ids) /\ NoDup ids /\
       Forall (fun x => x ∈ passage_ids) ids) /\
    forall k, k <> "supporting_passage_ids" -> obj_get entry k = obj_get claim k)
    (omap as_obj claims) resolved.
Proof.
  revert resolved. induction claims as [|claim claims IH]; intros resolved; cbn.
  { intros [= <-]. constructor. }
  destruct claim as [| | | | | |claim]; try apply IH. cbn.
  destruct (iter_json _) as [raws|]; cbn; [|done].
  destruct (resolve_references _ _ _) as [ids|] eqn:Er; cbn; [|done].
  destruct (resolve_claim_passage_ids claims passage_ids) as [others|]; cbn; [|done].
  intros [= <-]. constructor; [|by apply IH].
  destruct (resolve_references_in _ _ _ _ Er) as [H1 H2]; [constructor|constructor|].
  split.
  - exists ids. rewrite get_set, decide_True by done. done.
  - intros k Hk. by apply obj_get_set_ne.
Qed.
End Citations.

Section Witness.
#[local] Existing Instance ascii_text.

Definition demo_claims : list json :=
  [ JObj [("claim", s_ "a"); ("supported", JBool true);
          ("supporting_passage_ids", JArr [s_ "[2]"; s_ "c9"; JInt 1; s_ "7"])];
    s_ "malformed" ].

Lemma citation_precision_meaning_witness :
  citation_precision [s_ "c2"; s_ "c2"] [lit "c2"] = Some (inject_Z 1 / inject_Z 1)%Q /\
  unit_interval (inject_Z 1 / inject_Z 1).
Proof.
  split; [vm_compute; reflexivity|].
  apply (proj2 (citation_precision_meaning [s_ "c2"; s_ "c2"] [lit "c2"])).
  vm_compute. reflexivity.
Defined.

Lemma resolved_claims_in_namespace_witness :
  exists r, resolve_claim_passage_ids demo_claims [lit "c1"; lit "c2"] = Ok r /\
    map (fun c => get c "supporting_passage_ids") r = [JArr [s_ "c2"; s_ "c1"]] /\
    length r = length (omap as_obj demo_claims).
Proof.
  eexists. split; [vm_compute; reflexivity|]. split; [vm_compute; reflexivity|].
  symmetry. eapply Forall2_length.
  apply (resolved_claims_in_namespace demo_claims [lit "c1"; lit "c2"]).
  vm_compute. reflexivity.
Defined.
End Witness.
