(* ===== verification/LearnedReranker.v ===== *)
(** * Reranking with a cross-encoder

    [src/backend/rag/app/services/learned_reranker.py]: scoring the bounded candidates
    through the rerank scheduler and ordering them by score, with the retrieval order as
    the deterministic fallback.  What the scheduler answers is [score_reply]; the class
    [ScoringService] states what it promises, and the scheduler's fan-out discharges it. *)

From Stdlib Require Import QArith Lqa.
From stdpp Require Import base list strings gmap sorting.
From S2P Require Import Prelude PyValue ContextAssembler Futures RerankScheduler.

Local Open Scope string_scope.
Local Open Scope list_scope.
Local Open Scope Z_scope.

(** What submitting to the scheduler and awaiting its future can give before the deadline. *)
Inductive score_reply :=
  | Overloaded
  | SubmitRaised (e : py_exn)
  | Scores (l : list Q)
  | DeadlinePassed
  | InferenceFailed
  | CallerCancelled.

Record RerankResult := mkRerank { rr_candidates : list obj; rr_status : string }.

Section Reranker.
Context `{PyText}.

Definition rerank_text (candidate : obj) : outcome py_exn text :=
  let* payload := match get candidate "payload" ||| JObj [] with
                  | JObj o => Ok o | _ => AttributeError end in
  let* metadata := match get candidate "metadata" ||| get payload "metadata" ||| JObj [] with
                   | JObj o => Ok o | _ => AttributeError end in
  Ok (py_str (get candidate "text" ||| get candidate "chunk" ||| get candidate "content"
              ||| get payload "text" ||| get metadata "text" ||| JStr [])).

Fixpoint rerank_texts (candidates : list obj) : outcome py_exn (list text) :=
  match candidates with
  | [] => Ok []
  | c :: rest =>
      let* t := rerank_text c in
      let* ts := rerank_texts rest in
      Ok (t :: ts)
  end.

Definition annotate (candidate : obj) (score : Q) : obj :=
  obj_set (obj_set candidate "retrieval_score" (get candidate "score"))
          "reranker_score" (JFloat score).

(** [(-float(item[1]["reranker_score"]), item[0])]. *)
Definition rerank_leb (a b : Z * (obj * Q)) : bool :=
  (b.2.2 <?q a.2.2) || (Qeq_bool a.2.2 b.2.2 && (a.1 <=? b.1)).

Definition rank_candidates (bounded : list obj) (scores : list Q) : list obj :=
  map (fun item => annotate item.2.1 item.2.2)
      (py_sorted rerank_leb (enumerate 0 (zip bounded scores))).

Definition rerank (enabled : bool) (candidate_limit : Z) (reply : json -> list text -> score_reply)
    (query : json) (candidates : list obj) : outcome py_exn RerankResult :=
  let bounded := py_prefix candidates candidate_limit in
  if negb enabled then Ok (mkRerank bounded "disabled")
  else
    let* passages := rerank_texts bounded in
    if (zlen bounded <? 2) || negb (jtrue query) || existsb (fun p => bool_decide (p = [])) passages
    then Ok (mkRerank bounded "insufficient_input")
    else
      match reply query passages with
      | SubmitRaised e => Raise e
      | CallerCancelled => Raise Cancelled
      | Overloaded => Ok (mkRerank bounded "busy")
      | DeadlinePassed => Ok (mkRerank bounded "timeout")
      | InferenceFailed => Ok (mkRerank bounded "error")
      | Scores scores =>
          if zlen scores =? zlen bounded
          then Ok (mkRerank (rank_candidates bounded scores) "success")
          else Ok (mkRerank bounded "error")
      end.

(** ** What the scheduler promises *)

Class ScoringService (reply : json -> list text -> score_reply) (score : json -> text -> Q) : Prop :=
  scores_exact : forall q ps l, reply q ps = Scores l -> l = map (score q) ps.

(** ** Facts *)

Lemma rerank_leb_spec a b :
  rerank_leb a b = true <->
  (b.2.2 < a.2.2)%Q \/ (a.2.2 == b.2.2)%Q /\ a.1 <= b.1.
Proof.
  unfold rerank_leb. rewrite orb_true_iff, andb_true_iff, qltb_true, Qeq_bool_iff, Z.leb_le. done.
Qed.

Lemma rerank_leb_total a b : rerank_leb a b = true \/ rerank_leb b a = true.
Proof.
  rewrite !rerank_leb_spec. destruct (Q_dec a.2.2 b.2.2) as [[?|?]|E]; eauto.
  destruct (Z.le_ge_cases a.1 b.1); [left|right]; right; by rewrite ?E.
Qed.

Lemma rerank_leb_trans a b c :
  rerank_leb a b = true -> rerank_leb b c = true -> rerank_leb a c = true.
Proof.
  rewrite !rerank_leb_spec. intros [H1|[H1 ?]] [H2|[H2 ?]]; [left; lra|left; lra|left; lra|].
  right. split; [lra|lia].
Qed.

Lemma rank_candidates_perm bounded scores :
  rank_candidates bounded scores ≡ₚ map (fun p => annotate p.1 p.2) (zip bounded scores).
Proof.
  unfold rank_candidates. rewrite py_sorted_perm.
  rewrite <- (enumerate_values 0 (zip bounded scores)) at 2.
  change ((enumerate 0 (zip bounded scores)).*2) with (map snd (enumerate 0 (zip bounded scores))).
  by rewrite map_map.
Qed.

Lemma rerank_texts_length cs ts : rerank_texts cs = Ok ts -> length ts = length cs.
Proof.
  revert ts. induction cs as [|c cs IH]; intros ts; cbn; [by intros [= <-]|].
  destruct (rerank_text c); cbn; [|done]. destruct (rerank_texts cs); cbn; [|done].
  intros [= <-]. cbn. by rewrite IH.
Qed.

Lemma zip_map_r {A B C} (f : B -> C) (l : list A) (k : list B) :
  zip l (map f k) = map (fun p => (p.1, f p.2)) (zip l k).
Proof. revert k. induction l as [|x l IH]; intros [|y k]; cbn; [done..|]. by rewrite IH. Qed.

(** A result is the bounded candidates themselves, or their annotated copies in order. *)
Lemma rerank_cases enabled limit reply query candidates res :
  rerank enabled limit reply query candidates = Ok res ->
  let bounded := py_prefix candidates limit in
  (rr_status res <> "success" /\ rr_candidates res = bounded) \/
  (rr_status res = "success" /\ enabled = true /\ 2 <= zlen bounded /\
   exists passages scores, rerank_texts bounded = Ok passages /\
     reply query passages = Scores scores /\ zlen scores = zlen bounded /\
     rr_candidates res = rank_candidates bounded scores).
Proof.
  unfold rerank. destruct enabled; cbn [negb]; [|intros [= <-]; by left].
  destruct (rerank_texts _) as [ps|] eqn:Et; cbn [obind]; [|done].
  destruct (_ || _ || _) eqn:Eg; [intros [= <-]; by left|].
  apply orb_false_iff in Eg as [[Eg%Z.ltb_ge _]%orb_false_iff _].
  destruct (reply query ps) as [|e|l| | |] eqn:Er; try (intros [= <-]; by left); try done.
  destruct (Z.eqb_spec (zlen l) (zlen (py_prefix candidates limit))) as [El|];
    [|intros [= <-]; by left].
  intros [= <-]. right. cbn. do 3 (split; [done|]). by exists ps, l.
Qed.

(** reranking neither loses nor invents a candidate.  Unless it reports success it
    returns the first [candidate_limit] candidates in retrieval order, untouched.  On success
    with a scheduler that keeps its promise, the result is those candidates reordered, each
    with the model's score of the query against its own passage, in descending score and, for
    equal scores, in retrieval order. *)
Theorem rerank_exact enabled limit reply score `{!ScoringService reply score} query candidates res :
  rerank enabled limit reply query candidates = Ok res ->
  let bounded := py_prefix candidates limit in
  (rr_status res <> "success" -> rr_candidates res = bounded) /\
  (rr_status res = "success" ->
     exists passages items, rerank_texts bounded = Ok passages /\
       items ≡ₚ enumerate 0 (zip bounded (map (score query) passages)) /\
       StronglySorted (fun a b => rerank_leb a b = true) items /\
       rr_candidates res = map (fun item => annotate item.2.1 item.2.2) items).
Proof.
  intros Hr. apply rerank_cases in Hr as [[Hs Hc]|(Hs & _ & _ & ps & l & Ht & Hrep & _ & Hc)];
    (split; [done|]); [done|]. intros _. exists ps. eexists. split; [done|].
  rewrite <- (scores_exact _ _ _ Hrep). split; [apply py_sorted_perm|]. split; [|exact Hc].
  apply py_sorted_sorted; eauto using rerank_leb_total, rerank_leb_trans.
Qed.
End Reranker.

(** ** The scheduler as the scoring service

    [asyncio.wait_for(future, deadline)]: what the caller sees of the scheduler's future when
    it stops waiting. *)
Definition await_scores {X} (fs : futures (list Q) (batch_error X)) (i : nat) : score_reply :=
  match fs !! i with
  | Some (FINISHED (Ok l)) => Scores l
  | Some (FINISHED (Raise _)) => InferenceFailed
  | _ => DeadlinePassed
  end.

Section SchedulerService.
Context {X : Type} (cfg : config) (model : list (text * text) -> outcome X (list Q) -> Prop)
        (score : text * text -> Q).
Context (st : @state text Q X) (l1 l2 : list (list request)) (b : list request)
        (Hcfg : config_ok cfg) (Hst : reachable cfg model st)
        (Hrun : running st = l1 ++ b :: l2).

(** The state after the worker finished the batch [b], its model scoring pairs pointwise. *)
Definition after_batch : @state text Q X :=
  finish st b (l1 ++ l2) (Ok (map score (batch_input b))).

(** The reply to a caller whose request travelled in [b]. *)
Definition scheduler_reply (q : json) (ps : list text) : score_reply :=
  match q with
  | JStr t =>
      match List.find (fun r => bool_decide (query r = t /\ passages r = ps)) b with
      | Some r => await_scores (futs after_batch) (future r)
      | None => DeadlinePassed
      end
  | _ => DeadlinePassed
  end.

Definition query_score (q : json) (p : text) : Q :=
  match q with JStr t => score (t, p) | _ => 0%Q end.

(** The scheduler keeps the promise of [ScoringService], whatever else shared the batch. *)
#[export] Instance scheduler_scores_exact : ScoringService scheduler_reply query_score.
Proof using Hcfg Hst Hrun.
  intros q ps l. unfold scheduler_reply, query_score. destruct q as [| | | |t| |]; try done.
  destruct (List.find _ b) as [r|] eqn:E; [|done].
  apply List.find_some in E as [Hin%list_elem_of_In [Hq Hp]%bool_decide_eq_true].
  unfold await_scores, after_batch. rewrite (finish_fan_out cfg score st l1 b l2 r).
  - subst. by intros [= <-].
  - by apply (r_inv_reachable cfg model).
  - done.
  - done.
Qed.
End SchedulerService.

Section Witness.
#[local] Existing Instance ascii_text.

Definition demo_score (q : json) (p : text) : Q := inject_Z (zlen p).
Definition demo_reply (q : json) (ps : list text) : score_reply := Scores (map (demo_score q) ps).

Lemma rerank_exact_witness :
  exists res, rerank true 3 demo_reply (s_ "q") demo_candidates = Ok res /\
    rr_status res = "success" /\
    map (fun c => get c "chunk_id") (rr_candidates res) = [s_ "c2"; s_ "c1"; s_ "c3"] /\
    exists passages, rerank_texts (py_prefix demo_candidates 3) = Ok passages.
Proof.
  eexists. split; [vm_compute; reflexivity|]. split; [reflexivity|].
  split; [vm_compute; reflexivity|].
  assert (ScoringService demo_reply demo_score) as Hs by (by intros q ps l [= <-]).
  edestruct (rerank_exact true 3 demo_reply demo_score (s_ "q") demo_candidates) as [_ Hr];
    [vm_compute; reflexivity|].
  destruct Hr as (ps & items & Hp & _); [reflexivity|]. by exists ps.
Defined.
End Witness.
