(* ===== verification/ConversationWorld.v ===== *)
(** * Requests, graph state and the world of a conversation turn

    [src/backend/rag/app/services/conversation_types.py] and the mutable objects a turn
    shares: the event emitter, the output approval buffer, the runtime dictionary of the
    graph and the conversation store.

    Everything outside the service is the class [Env], one answer per interaction: what a
    request to another service returns or raises, whether publishing an event to the client
    or a store operation raises, the clock and the identifier generator.  [tick] numbers the
    interactions, so every answer may differ from the one before. *)

From Stdlib Require Import QArith.
From stdpp Require Import base list strings gmap sets.
From S2P Require Import Prelude PyValue LlmReplies RetrievalTrace LearnedReranker ConversationStages.

Local Open Scope string_scope.
Local Open Scope list_scope.
Local Open Scope Z_scope.

(** ** Requests *)

(** An optional string is [JNull] or a string. *)
Record ConversationRequest := mkRequest {
  user_message : text; mode : Mode; model : json;
  conversation_id : text; turn_id : text; request_id : text; trace_id : text;
  graph_run_id : text; correlation_id : json;
  owner_id : json; owner_type : json; session_id : json; connection_id : json;
  user_id : json; role : json; history : json; debug : bool
}.

#[export] Instance eta_ConversationRequest : Eta ConversationRequest := fun x =>
  mkRequest (user_message x) (mode x) (model x) (conversation_id x) (turn_id x) (request_id x)
    (trace_id x) (graph_run_id x) (correlation_id x) (owner_id x) (owner_type x) (session_id x)
    (connection_id x) (user_id x) (role x) (history x) (debug x).

(** [__post_init__]. *)
Definition post_init (r : ConversationRequest) : ConversationRequest :=
  if jtrue (user_id r) then r {{ owner_id := user_id r }} {{ owner_type := s_ "user" }}
  else
    let r := if is_str (owner_type r) "session" && negb (jtrue (owner_id r)) && jtrue (session_id r)
             then r {{ owner_id := session_id r }} else r in
    let r := if is_str (owner_type r) "conversation" && negb (jtrue (owner_id r))
             then r {{ owner_id := JStr (conversation_id r) }} else r in
    if jtrue (owner_id r) then r {{ owner_type ::= (fun t => t ||| s_ "user") }}
    else r {{ owner_id := JStr (conversation_id r) }} {{ owner_type := s_ "conversation" }}.

Definition owner_key (r : ConversationRequest) : json :=
  owner_id r ||| JStr (conversation_id r).

Section Modes.
Context `{PyText}.

(** [normalize_mode], on optional strings. *)
Definition normalize_mode (mode answer_mode : json) : Mode :=
  let raw := lower (py_strip (py_str (mode ||| answer_mode ||| s_ "regular"))) in
  if bool_decide (raw = lit "quick") then regular
  else if bool_decide (raw = lit "extended") then extended
  else regular.
End Modes.

Definition mode_str (m : Mode) : string := match m with regular => "regular" | extended => "extended" end.

(** ** Graph state *)

Record ConversationState := mkState {
  st_conversation_id : text; st_turn_id : text; st_mode : Mode; st_user_message : text;
  short_term_summary : text; recent_messages : list json; memory_hits : json;
  retrieved_chunks : list obj; retrieval_plan : obj; draft_answer : obj; answer_review : obj;
  trace_events : list obj; debug_payloads : obj; outcome_ : text; guardrail_stage : json
}.

#[export] Instance eta_ConversationState : Eta ConversationState := fun x =>
  mkState (st_conversation_id x) (st_turn_id x) (st_mode x) (st_user_message x)
    (short_term_summary x) (recent_messages x) (memory_hits x) (retrieved_chunks x)
    (retrieval_plan x) (draft_answer x) (answer_review x) (trace_events x) (debug_payloads x)
    (outcome_ x) (guardrail_stage x).

(** [request.history or ""]; a history is an optional string. *)
Definition history_text (r : ConversationRequest) : text :=
  match history r with JStr s => s | _ => [] end.

Definition build_initial_state (r : ConversationRequest) : ConversationState :=
  mkState (conversation_id r) (turn_id r) (mode r) (user_message r) (history_text r)
    [] (JArr []) [] [] [] [] [] [] (lit "success") JNull.

(** ** Configuration of the service *)

Record RAGConfig := mkRAGConfig {
  top_k_documents : Z; dense_candidate_k : Z; sparse_candidate_k : Z; hybrid_rrf_k : Z;
  hybrid_search_enabled : bool;
  generation_input_token_budget : Z; generation_system_prompt_reserve_tokens : Z;
  context_token_budget : Z; context_diversity_score_tolerance : Q;
  max_recent_messages : Z; max_memory_hits : Z;
  pass_two_chunk_threshold : Z; pass_two_score_threshold : Q;
  extended_retrieval_max_concurrency : Z;
  debug_payload_max_chars : Z; debug_payload_max_items : Z; allow_debug_payloads : bool;
  reranker_enabled : bool; reranker_candidate_k : Z
}.

(** [self.candidate_limit] of the reranker. *)
Definition candidate_limit (cfg : RAGConfig) : Z := Z.max 1 (reranker_candidate_k cfg).

(** ** Events, checkpoints and the store *)

Record event := mkEvent {
  ev_type : string; ev_request_id : text; ev_trace_id : text; ev_conversation_id : text;
  ev_turn_id : text; ev_timestamp : text; ev_data : obj
}.

Record Checkpoint := mkCheckpoint {
  cp_conversation_id : text; cp_turn_id : text; cp_request_id : text; cp_trace_id : text;
  cp_graph_run_id : text; cp_correlation_id : json; cp_owner_id : json; cp_owner_type : json;
  cp_node : string; cp_stage : string; cp_status : string; cp_state : ConversationState;
  cp_created_at : text; cp_extra : obj; cp_ownership : obj
}.

(** A Python dictionary from identifiers to documents, in insertion order. *)
Abbreviation documents := (list (text * obj)).

Record conversation_db := mkDb {
  threads : documents; turns : documents; summaries : documents;
  checkpoints : list Checkpoint; answer_reviews : documents
}.

#[export] Instance eta_conversation_db : Eta conversation_db := fun x =>
  mkDb (threads x) (turns x) (summaries x) (checkpoints x) (answer_reviews x).

(** ** The world *)

Record world := mkWorld {
  tick : nat;
  sent : list (obj * outcome py_exn json);
  notices : list obj;
  store : conversation_db;
  (* emitter *)
  terminal_sent : bool; events : list event;
  (* output approval buffer *)
  candidate_source : text; tokens : list (text * Z);
  (* runtime dictionary *)
  current_node : string; final_context : option (list obj); guardrail_blocked : option bool;
  reranker_changed_top1 : option bool; model_used : json; usage : json;
  llm_actions : list obj; retrieval_trace : option RetrievalTrace
}.

#[export] Instance eta_world : Eta world := fun x =>
  mkWorld (tick x) (sent x) (notices x) (store x) (terminal_sent x) (events x)
    (candidate_source x) (tokens x) (current_node x) (final_context x) (guardrail_blocked x)
    (reranker_changed_top1 x) (model_used x) (usage x) (llm_actions x) (retrieval_trace x).

(** The identity in whose context a turn runs, when there is one. *)
Record context_identity := mkContextIdentity {
  ci_tenant : text; ci_user : text; ci_admin : json
}.

Class Env := {
  (** the reply to a request to another service, or what it raises *)
  service_reply : nat -> obj -> outcome py_exn json;
  (** the stream events of a generation, then its reply *)
  service_stream : nat -> obj -> list json * outcome py_exn json;
  (** [_publish] of an event to the client *)
  publish_fault : nat -> event -> option py_exn;
  (** an operation of the store *)
  store_fault : nat -> option py_exn;
  (** [utc_now_iso], [uuid4] and the message timestamp *)
  clock : nat -> text;
  uuid : nat -> text;
  epoch_ms : nat -> Z;
  (** the rerank scheduler *)
  rerank_scores : nat -> json -> list text -> score_reply;
  (** [shared/sparse_retrieval.py] and [json.loads] *)
  sparse_lexical_vector : text -> obj;
  json_loads : text -> option json;
  (** the patterns of the debug redaction *)
  secret_key : string -> bool;
  redact_secrets : text -> text;
  identity : option context_identity;
  (** [f"{x:.3f}"] *)
  format3 : Q -> text;
  traffic_class : string
}.

Abbreviation M := (eff world).

(** One interaction with the outside. *)
Definition interact {A} (f : nat -> A) : M A := fun w => (Ok (f (tick w)), w {{ tick ::= S }}).

Section Interact.
Context `{Env}.

Definition utc_now_iso : M text := interact clock.
Definition uuid4 : M text := interact uuid.

(** A request to another service; what was sent and what came back are on record. *)
Definition service_request (envelope : obj) : M json := fun w =>
  let r := service_reply (tick w) envelope in
  (r, w {{ tick ::= S }} {{ sent ::= (fun l => l ++ [(envelope, r)]) }}).

(** An operation of the store that may raise before it takes effect. *)
Definition store_op {A} (f : conversation_db -> A * conversation_db) : M A := fun w =>
  match store_fault (tick w) with
  | Some e => (Raise e, w {{ tick ::= S }})
  | None => let '(a, d) := f (store w) in (Ok a, w {{ tick ::= S }} {{ store := d }})
  end.
End Interact.

(** A turn starts with a fresh emitter, buffer and runtime; the services and the store go
    on from where they were. *)
Definition fresh_turn (w : world) (trace : option RetrievalTrace) : world :=
  mkWorld (tick w) (sent w) (notices w) (store w) false [] (lit "final") [] "graph_start" None
    None None JNull JNull [] trace.

(** ** Events to the client and the output approval boundary

    [src/backend/rag/app/services/conversation_events.py] and [output_approval.py]. *)

Definition ALLOWED_EVENT_TYPES : list string :=
  ["status"; "trace"; "token"; "answer_review"; "done"; "error"].

Definition terminal_type (t : string) : bool := bool_decide (t ∈ ["done"; "error"]).

Section Events.
Context `{PyText} `{Env}.
Context (request : ConversationRequest).

Definition build_event (event_type : string) (now : text) (data : obj) : outcome py_exn event :=
  if bool_decide (event_type ∈ ALLOWED_EVENT_TYPES) then
    Ok (mkEvent event_type (request_id request) (trace_id request) (conversation_id request)
          (turn_id request) now data)
  else Raise (PyError (lit "ValueError") (lit "Unsupported event type: " ++ lit event_type)).

Definition is_admin : bool := is_str (role request) "admin".

(** [_publish]: a failure leaves the event on record, because it was appended before. *)
Definition publish (e : event) : M unit := fun w =>
  match publish_fault (tick w) e with
  | Some x => (Raise x, w {{ tick ::= S }})
  | None => (Ok tt, w {{ tick ::= S }})
  end.

(** The data a user who is not an administrator may receive. *)
Definition public_data (event_type : string) (data : obj) : obj :=
  if negb is_admin && bool_decide (event_type = "done")
  then obj_pop (obj_pop (obj_pop data "trace_summary") "safe_debug_payloads") "debug_payloads"
  else data.

Definition emit (event_type : string) (data : obj) : M unit :=
  sent_before <-- gets terminal_sent ;
  if sent_before && terminal_type event_type then ret tt
  else if negb is_admin && bool_decide (event_type = "trace") then ret tt
  else
    now <-- utc_now_iso ;
    e <-- lift (build_event event_type now (public_data event_type data)) ;
    modify (fun w => (if terminal_type event_type then w {{ terminal_sent := true }} else w)
                     {{ events ::= (fun l => l ++ [e]) }}) ;;;
    publish e.

(** ** [OutputApprovalBuffer] *)

Definition start_candidate (source : text) : M unit :=
  modify (fun w => w {{ candidate_source := source }} {{ tokens := [] }}).

Definition buffer_token (text_delta : text) (token_index : Z) : M unit :=
  match text_delta with
  | [] => ret tt
  | _ => modify (fun w => w {{ tokens ::= (fun l => l ++ [(text_delta, token_index)]) }})
  end.

Definition reject : M unit := modify (fun w => w {{ tokens := [] }}).

Definition token_data (source : text) (t : text * Z) : obj :=
  [("text_delta", JStr t.1); ("token_index", JInt t.2); ("source", JStr source)].

(** The tokens an approved answer is flushed as: the buffered ones when they spell it, else
    the answer as one token. *)
Definition approved_tokens (buffered : list (text * Z)) (final_answer : text) : list (text * Z) :=
  if bool_decide (rstrip (concat (buffered.*1)) = rstrip final_answer) then buffered
  else match final_answer with [] => [] | _ => [(final_answer, 0)] end.

(** The flush runs under a timeout; a timeout raises out of the publication it interrupts. *)
Definition approve (final_answer : text) : M unit :=
  buffered <-- gets tokens ;
  source <-- gets candidate_source ;
  reject ;;;
  iterM (fun t => emit "token" (token_data source t)) (approved_tokens buffered final_answer).
End Events.

(** ** Facts *)

Section EventFacts.
Context `{PyText} `{Env}.
Context (request : ConversationRequest).

(** [emit] either says nothing, or appends one event and then reports whether publishing it
    failed; in both cases only the emitter and the interaction counter change. *)
Lemma emit_cases event_type data w :
  (exists o, emit request event_type data w = (o, w)) \/
  (exists e o w1, emit request event_type data w = (o, w1) /\
     build_event request event_type (clock (tick w)) (public_data request event_type data) = Ok e /\
     (terminal_sent w = true -> terminal_type event_type = false) /\
     (is_admin request = false -> event_type <> "trace") /\
     w1 = (w {{ tick := S (S (tick w)) }} {{ events := events w ++ [e] }}
             {{ terminal_sent := terminal_sent w || terminal_type event_type }})) \/
  (exists x, emit request event_type data w = (Raise x, w {{ tick ::= S }})).
Proof.
  unfold emit, bind, gets, lift, utc_now_iso, interact, modify, publish.
  destruct (terminal_sent w && terminal_type event_type) eqn:Et; [left; by eexists|].
  destruct (negb (is_admin request) && bool_decide (event_type = "trace")) eqn:Ea;
    [left; by eexists|].
  destruct (build_event _ _ _ _) as [e|x] eqn:Eb; [|right; right; by eexists].
  right; left. exists e. destruct (publish_fault _ _) as [x|] eqn:Ep; eexists _, _.
  all: split; [reflexivity|]; split; [done|]; split;
    [intros Ht; rewrite Ht in Et; by destruct (terminal_type event_type)|]; split;
    [intros Hn ->; rewrite Hn in Ea; cbn in Ea; by rewrite bool_decide_true in Ea|].
  all: destruct (terminal_sent w) eqn:E1, (terminal_type event_type); try done;
    destruct w; cbn in *; subst; done.
Qed.

(** An event that is due goes on record, whether or not publishing it then fails. *)
Lemma emit_appends event_type data w :
  event_type ∈ ALLOWED_EVENT_TYPES -> event_type <> "trace" ->
  terminal_sent w && terminal_type event_type = false ->
  exists e o, build_event request event_type (clock (tick w)) (public_data request event_type data) = Ok e /\
    emit request event_type data w =
      (o, w {{ tick := S (S (tick w)) }} {{ events := events w ++ [e] }}
            {{ terminal_sent := terminal_sent w || terminal_type event_type }}).
Proof.
  intros Ha Ht Hs. unfold emit, bind, gets, lift, utc_now_iso, interact, modify, publish.
  rewrite Hs, (bool_decide_false (event_type = "trace")), andb_false_r by done.
  unfold build_event. rewrite bool_decide_true by done. cbn -[terminal_type].
  destruct (publish_fault _ _) as [x|]; eexists _, _; (split; [reflexivity|]).
  all: destruct (terminal_sent w) eqn:E1, (terminal_type event_type); try done;
    destruct w; cbn in *; subst; reflexivity.
Qed.

(** When publishing works, so does [emit]. *)
Lemma emit_publishes event_type data w :
  event_type ∈ ALLOWED_EVENT_TYPES -> event_type <> "trace" ->
  terminal_sent w && terminal_type event_type = false -> (forall n e, publish_fault n e = None) ->
  (emit request event_type data w).1 = Ok tt.
Proof.
  intros Ha Ht Hs Hp. unfold emit, bind, gets, lift, utc_now_iso, interact, modify, publish.
  rewrite Hs, (bool_decide_false (event_type = "trace")), andb_false_r by done.
  unfold build_event. rewrite bool_decide_true by done. cbn -[terminal_type]. by rewrite Hp.
Qed.
End EventFacts.
