(* ===== verification/ConversationStore.v ===== *)
(** * Persistence of conversations

    [src/backend/rag/app/services/conversation_persistence.py]: ownership of documents, the
    in-memory store, and the asynchronous boundary the graph calls it through.  The bounded
    thread pool of that boundary is not visible to a single turn; an operation may raise. *)

From Stdlib Require Import QArith.
From stdpp Require Import base list strings gmap sets.
From S2P Require Import Prelude PyValue ConversationWorld ContextAssembler LlmReplies ConversationStages.

Local Open Scope string_scope.
Local Open Scope list_scope.
Local Open Scope Z_scope.

Section Store.
Context `{PyText} `{Env}.

(** ** Ownership *)

Definition ownership : obj :=
  match identity with
  | None => []
  | Some i =>
      [ ("tenant_id", JStr (ci_tenant i));
        ("owner_user_id", JStr (ci_user i));
        ("owner_admin_id", ci_admin i ||| JStr (ci_user i)) ]
  end.

Definition owned_document (document : obj) : obj := obj_update document ownership.

Definition memory_key (identifier : text) : text :=
  match identity with
  | None => identifier
  | Some i => ci_tenant i ++ lit ":" ++ ci_user i ++ lit ":" ++ identifier
  end.

Definition same_str (a b : json) : bool :=
  match a, b with JStr s, JStr t => bool_decide (s = t) | _, _ => false end.

Definition visible (document : obj) : bool :=
  forallb (fun kv => bool_decide (kv.1 = "owner_admin_id") || same_str (get document kv.1) kv.2)
    ownership.

(** ** Documents *)

Fixpoint doc_get (d : documents) (k : text) : option obj :=
  match d with
  | [] => None
  | (k', v) :: d' => if decide (k = k') then Some v else doc_get d' k
  end.

Fixpoint doc_set (d : documents) (k : text) (v : obj) : documents :=
  match d with
  | [] => [(k, v)]
  | (k', v') :: d' => if decide (k = k') then (k, v) :: d' else (k', v') :: doc_set d' k v
  end.

Definition created_at (d : obj) : text :=
  match get_or d "created_at" (JStr []) with JStr s => s | _ => [] end.

(** [l[-n:]]. *)
Definition last_items {A} (l : list A) (n : Z) : list A := py_suffix l (- n).

Definition turn_messages (turn : obj) : list json :=
  [ JObj [("role", s_ "user"); ("content", get_or turn "user_message" (JStr []))];
    JObj [("role", s_ "assistant"); ("content", get_or turn "final_answer" (JStr []))] ].

Definition load_context (cid : text) (recent_limit : Z) (d : conversation_db) : obj :=
  let mine := List.filter (fun t => same_str (get t "conversation_id") (JStr cid) && visible t)
                (map snd (turns d)) in
  let sorted := py_sorted (fun a b => text_leb (created_at a) (created_at b)) mine in
  let messages := flat_map turn_messages (last_items sorted recent_limit) in
  let summary := match doc_get (summaries d) (memory_key cid) with Some s => s | None => [] end in
  [ ("thread", JObj (match doc_get (threads d) (memory_key cid) with Some t => t | None => [] end));
    ("summary", get_or summary "summary" (JStr []));
    ("recent_messages", JArr (last_items messages recent_limit)) ].

Definition save_thread (cid : text) (document : obj) (d : conversation_db) : conversation_db :=
  d {{ threads ::= (fun m => doc_set m (memory_key cid) (owned_document document)) }}.
Definition save_turn (tid : text) (document : obj) (d : conversation_db) : conversation_db :=
  d {{ turns ::= (fun m => doc_set m (memory_key tid) (owned_document document)) }}.
Definition save_summary (cid : text) (document : obj) (d : conversation_db) : conversation_db :=
  d {{ summaries ::= (fun m => doc_set m (memory_key cid) (owned_document document)) }}.
Definition save_answer_review (rid : text) (document : obj) (d : conversation_db) : conversation_db :=
  d {{ answer_reviews ::= (fun m => doc_set m (memory_key rid) (owned_document document)) }}.

Definition owned_checkpoint (c : Checkpoint) : Checkpoint :=
  mkCheckpoint (cp_conversation_id c) (cp_turn_id c) (cp_request_id c) (cp_trace_id c)
    (cp_graph_run_id c) (cp_correlation_id c) (cp_owner_id c) (cp_owner_type c) (cp_node c)
    (cp_stage c) (cp_status c) (cp_state c) (cp_created_at c) (cp_extra c) ownership.

Definition save_checkpoint (c : Checkpoint) (d : conversation_db) : conversation_db :=
  d {{ checkpoints ::= (fun l => l ++ [owned_checkpoint c]) }}.

Definition checkpoint_matches (cid : text) (rid : option text) (c : Checkpoint) : bool :=
  bool_decide (cp_conversation_id c = cid) &&
  (match rid with None => true | Some r => bool_decide (cp_request_id c = r) end) &&
  visible (cp_ownership c).

Definition checkpoint_leb (a b : Checkpoint) : bool :=
  text_leb (cp_created_at a) (cp_created_at b).

Definition get_latest_checkpoint (cid : text) (rid : option text) (d : conversation_db)
    : option Checkpoint :=
  last (py_sorted checkpoint_leb (List.filter (checkpoint_matches cid rid) (checkpoints d))).

(** ** The asynchronous boundary *)

Definition p_load_context (cid : text) (recent_limit : Z) : M obj :=
  store_op (fun d => (load_context cid recent_limit d, d)).
Definition p_save_thread (cid : text) (document : obj) : M unit :=
  store_op (fun d => (tt, save_thread cid document d)).
Definition p_save_turn (tid : text) (document : obj) : M unit :=
  store_op (fun d => (tt, save_turn tid document d)).
Definition p_save_summary (cid : text) (document : obj) : M unit :=
  store_op (fun d => (tt, save_summary cid document d)).
Definition p_save_answer_review (rid : text) (document : obj) : M unit :=
  store_op (fun d => (tt, save_answer_review rid document d)).
Definition p_save_checkpoint (c : Checkpoint) : M unit :=
  store_op (fun d => (tt, save_checkpoint c d)).
Definition p_get_latest_checkpoint (cid : text) (rid : option text) : M (option Checkpoint) :=
  store_op (fun d => (get_latest_checkpoint cid rid d, d)).

(** ** The latest checkpoint *)

Lemma visible_ownership : visible ownership = true.
Proof.
  unfold visible, ownership. destruct identity as [i|]; [|done].
  assert (forall s, same_str (JStr s) (JStr s) = true) as Hs
    by (intros; cbn; by apply bool_decide_eq_true).
  apply forallb_forall. intros kv [<-|[<-|[<-|[]]]]; apply orb_true_iff.
  - right. exact (Hs _).
  - right. exact (Hs _).
  - left. reflexivity.
Qed.

Lemma py_sorted_last {A} (leb : A -> A -> bool) l x :
  Forall (fun y => leb y x = true) l -> last (py_sorted leb (l ++ [x])) = Some x.
Proof.
  intros Hl. enough (exists pre, py_sorted leb (l ++ [x]) = pre ++ [x]) as [pre ->] by apply last_snoc.
  induction Hl as [|y l Hy Hl [pre IH]]; [by exists []|].
  cbn. change (foldr (insert_sorted leb) [] (l ++ [x])) with (py_sorted leb (l ++ [x])).
  rewrite IH. clear IH Hl. induction pre as [|z pre IH]; cbn.
  - rewrite Hy. by exists [y].
  - destruct (leb y z); [by exists (y :: z :: pre)|]. destruct IH as [pre' ->]. by exists (z :: pre').
Qed.

(** The last checkpoint saved for a request is its latest, when no stored one is newer. *)
Lemma latest_of cid rid c d d' :
  checkpoints d' = checkpoints d ++ [c] ->
  cp_conversation_id c = cid -> cp_request_id c = rid -> cp_ownership c = ownership ->
  Forall (fun y => checkpoint_leb y c = true) (checkpoints d) ->
  get_latest_checkpoint cid (Some rid) d' = Some c.
Proof.
  intros Hd Hc Hr Ho Hl. unfold get_latest_checkpoint. rewrite Hd, List.filter_app. cbn [List.filter].
  assert (checkpoint_matches cid (Some rid) c = true) as ->.
  { unfold checkpoint_matches. rewrite Ho, visible_ownership, !bool_decide_true by done. done. }
  apply py_sorted_last. apply Forall_forall. intros y Hy.
  apply list_elem_of_In, List.filter_In in Hy as [Hy%list_elem_of_In _].
  rewrite Forall_forall in Hl. by apply (Hl y).
Qed.

Lemma get_latest_elem cid rid d c :
  get_latest_checkpoint cid rid d = Some c -> c ∈ checkpoints d.
Proof.
  intros Hl%last_Some_elem_of. rewrite py_sorted_perm in Hl.
  apply list_elem_of_In, List.filter_In in Hl as [Hl _]. by apply list_elem_of_In.
Qed.
End Store.

(** ** Calls to the other services

    [src/backend/rag/app/services/conversation_backend_client.py]: the payloads of the
    requests, the dispatcher, the streamed generation and the domain events.  Transport and
    the services behind it are the environment. *)

Section Client.
Context `{PyText} `{Env} (cfg : RAGConfig).
Context (request : ConversationRequest).

(** ** Payloads *)

Definition base_llm_metadata (extras : obj) : obj :=
  obj_update
    [ ("conversation_id", JStr (conversation_id request));
      ("turn_id", JStr (turn_id request));
      ("request_id", JStr (request_id request));
      ("trace_id", JStr (trace_id request));
      ("graph_run_id", JStr (graph_run_id request));
      ("owner_id", owner_id request);
      ("owner_type", owner_type request);
      ("mode", s_ (mode_str (mode request))) ]
    (List.filter (fun kv => negb (is_none kv.2)) extras).

Definition or_none (l : list json) : json := match l with [] => JNull | _ => JArr l end.

Definition debug_block : json :=
  JObj [("include_visible_reasoning_steps", JBool (debug request))].

Definition llm_query_rewrite_payload (context : obj) : obj :=
  let recent_messages := conversation_history (get context "recent_messages") in
  let rewrite_goal :=
    lit "Rewrite the user query for " ++ lit (mode_str (mode request)) ++
    lit " retrieval in rag. Use the conversation summary, recent messages, and memory hits when they help retrieval precision. Prefer one best rewrite." in
  [ ("request_type", s_ "query_rewrite");
    ("model", model request);
    ("metadata", JObj (base_llm_metadata []));
    ("debug", debug_block);
    ("input", JObj [ ("query", JStr (user_message request));
                     ("conversation_history", or_none recent_messages);
                     ("rewrite_goal", JStr rewrite_goal) ]) ].

Definition embedding_query_payload (query : json) : obj :=
  [ ("action", s_ "embed");
    ("text", query);
    ("conversation_id", JStr (conversation_id request));
    ("turn_id", JStr (turn_id request));
    ("request_id", JStr (request_id request));
    ("trace_id", JStr (trace_id request));
    ("graph_run_id", JStr (graph_run_id request)) ].

Definition llm_risk_scan_payload (t : json) (stage : string) : obj :=
  let content_type := if decide (stage = "input") then "user_input" else "assistant_output" in
  let policy_hints := if decide (stage = "output")
                      then [s_ "prompt_injection"; s_ "unsafe_output"]
                      else [s_ "prompt_injection"] in
  [ ("request_type", s_ "content_risk_scan");
    ("model", model request);
    ("metadata", JObj (base_llm_metadata [("stage", s_ stage)]));
    ("debug", debug_block);
    ("input", JObj [ ("content", t);
                     ("policy_hints", JArr policy_hints);
                     ("content_type", s_ content_type) ]) ].

Definition llm_answer_evaluation_payload (answer : json) (retrieved_chunks : list obj)
    (mode : string) : obj :=
  [ ("request_type", s_ "answer_evaluation");
    ("model", model request);
    ("metadata", JObj (base_llm_metadata [("mode", s_ mode)]));
    ("debug", debug_block);
    ("input", JObj [ ("question", JStr (user_message request));
                     ("answer", answer);
                     ("reference_context", JArr (map JObj (chunk_passages retrieved_chunks))) ]) ].

Definition llm_answer_generation_payload (prompt : obj) (stream_request_id : text) : obj :=
  let recent_messages := conversation_history (get prompt "recent_messages") in
  [ ("request_type", s_ "answer_generation");
    ("model", model request);
    ("metadata", JObj (base_llm_metadata
       [ ("request_id", JStr stream_request_id);
         ("generation_mode", s_ (mode_str (mode request)));
         ("revision_attempted", get prompt "revision_attempted") ]));
    ("debug", debug_block);
    ("input", JObj [ ("question", JStr (user_message request));
                     ("retrieved_context", get_or prompt "retrieved_context" (JArr []));
                     ("conversation_history", or_none recent_messages);
                     ("instructions", get prompt "instructions") ]) ].

(** ** Dispatch *)

Definition envelope (message_type action target_service : string) (rid : text) (payload : obj)
    (traffic : string) : M obj :=
  mid <-- uuid4 ;
  cid <-- uuid4 ;
  ts <-- interact epoch_ms ;
  ret (build_message_envelope message_type action "rag" target_service (JStr rid)
         (JStr (trace_id request)) payload (correlation_id request) JNull JNull traffic
         (mkIds mid cid ts)).

Definition send_request (target_service action : string) (payload : obj) : M obj :=
  env <-- envelope "query" action target_service (request_id request) payload traffic_class ;
  reply <-- service_request env ;
  lift (extract_reply_payload json_loads reply).

Definition get_relevant_memories (depth : string) : M obj :=
  send_request "memory" "get_relevant_memories"
    [ ("action", s_ "get_relevant_memories");
      ("owner_id", owner_id request);
      ("owner_type", owner_type request);
      ("conversation_id", JStr (conversation_id request));
      ("turn_id", JStr (turn_id request));
      ("request_id", JStr (request_id request));
      ("trace_id", JStr (trace_id request));
      ("graph_run_id", JStr (graph_run_id request));
      ("query", JStr (user_message request));
      ("depth", s_ depth) ].

Definition RuntimeError (msg : text) : py_exn := PyError (lit "RuntimeError") msg.

Definition search_payload (query_vector query : json) (plan : obj) (pass_name : string)
    (requested_top_k : Z) : obj :=
  let hybrid_active := hybrid_search_enabled cfg in
  [ ("query_vector", query_vector);
    ("top_k", JInt requested_top_k);
    ("retrieval_strategy", s_ (if hybrid_active then "hybrid" else "dense"));
    ("dense_candidate_k", JInt (Z.max (dense_candidate_k cfg) requested_top_k));
    ("sparse_candidate_k", JInt (Z.max (sparse_candidate_k cfg) requested_top_k));
    ("rrf_k", JInt (hybrid_rrf_k cfg));
    ("filters", JObj []);
    ("include_payload", JBool true);
    ("include_vector", JBool false);
    ("query", query);
    ("pass_name", s_ pass_name);
    ("conversation_id", JStr (conversation_id request));
    ("turn_id", JStr (turn_id request));
    ("request_id", JStr (request_id request));
    ("trace_id", JStr (trace_id request));
    ("graph_run_id", JStr (graph_run_id request));
    ("retrieval_plan", JObj plan) ]
  ++ (if hybrid_active
      then [("query_sparse", JObj (sparse_lexical_vector (py_str query)))] else []).

(** A hybrid search of a query that is not a string raises in [sparse_lexical_vector]. *)
Definition check_query (query : json) : outcome py_exn unit :=
  match query with
  | JStr _ => Ok tt
  | _ => if hybrid_search_enabled cfg
         then Raise (PyError (lit "TypeError") (lit "text must be a string")) else Ok tt
  end.

Definition search_chunks (query : json) (plan : obj) (pass_name : string) (top_k : option Z)
    : M obj :=
  embedding_response <-- send_request "embedding" "embed" (embedding_query_payload query) ;
  let query_vector := get embedding_response "embedding" ||| JArr [] in
  if negb (jtrue query_vector)
  then raise (RuntimeError (lit "Embedding query returned no query_vector"))
  else
    lift (check_query query) ;;;
    send_request "vector_db" "search_chunks"
      (search_payload query_vector query plan pass_name
         (match top_k with None => top_k_documents cfg | Some k => k end)).

Definition query_rewrite (context : obj) : M obj :=
  send_request "llm_agent" "query_rewrite" (llm_query_rewrite_payload context).

Definition risk_scan (t : json) (stage : string) : M obj :=
  send_request "llm_agent" "content_risk_scan" (llm_risk_scan_payload t stage).

Definition evaluate_answer (answer : json) (retrieved_chunks : list obj) (mode : string) : M obj :=
  send_request "llm_agent" "answer_evaluation"
    (llm_answer_evaluation_payload answer retrieved_chunks mode).

(** ** Streamed generation *)

(** [_on_stream_event]: the text of a delta goes to the token callback; a delta that is not
    a string raises where the pieces are joined, which the model does at once. *)
Definition on_stream_event (acc : list text * Z) (message : json) : M (list text * Z) :=
  let event := extract_stream_event message in
  let '(chunks, token_index) := acc in
  let text_delta := get_or event "text_delta" (JStr []) in
  acc' <-- (match text_delta with
            | JStr ((_ :: _) as t) =>
                buffer_token t token_index ;;; ret (chunks ++ [t], token_index + 1)
            | v => if jtrue v then lift TypeError else ret (chunks, token_index)
            end) ;
  if is_str (get event "event") "error"
  then raise (RuntimeError (py_str (get event "message" ||| s_ "llm stream error")))
  else ret acc'.

Definition request_stream (env : obj) : M (list text * json) :=
  n <-- gets tick ;
  let '(stream, reply) := service_stream n env in
  modify (fun w => w {{ tick ::= S }} {{ sent ::= (fun l => l ++ [(env, reply)]) }}) ;;;
  acc <-- foldM on_stream_event ([], 0) stream ;
  r <-- lift reply ;
  ret (acc.1, r).

Definition generate_answer_rpc (prompt : obj) (stream_request_id : text) : M obj :=
  env <-- envelope "command" "answer_generation" "llm_agent" stream_request_id
            (llm_answer_generation_payload prompt stream_request_id) traffic_class ;
  r <-- request_stream env ;
  let '(chunks, reply) := r in
  response <-- lift (extract_reply_payload json_loads reply) ;
  ret (if negb (jtrue (get response "answer")) && negb (bool_decide (chunks = []))
       then obj_set response "answer" (JStr (concat chunks)) else response).

(** ** Domain events: scheduled, never awaited *)

Definition turn_ids : obj :=
  [ ("service", s_ "rag");
    ("conversation_id", JStr (conversation_id request));
    ("turn_id", JStr (turn_id request));
    ("request_id", JStr (request_id request));
    ("trace_id", JStr (trace_id request));
    ("graph_run_id", JStr (graph_run_id request)) ].

Definition publish_domain_event (action : string) (payload : obj) : M unit :=
  env <-- envelope "event" action "observers" (request_id request) payload "live" ;
  modify (fun w => w {{ notices ::= (fun l => l ++ [env]) }}).

Definition publish_turn_started : M unit :=
  publish_domain_event "rag.turn.started"
    (turn_ids ++ [ ("mode", s_ (mode_str (mode request)));
                   ("owner_id", owner_id request); ("owner_type", owner_type request) ]).
Definition publish_answer_generated (chunk_count : Z) : M unit :=
  publish_domain_event "rag.answer.generated"
    (turn_ids ++ [ ("mode", s_ (mode_str (mode request))); ("chunk_count", JInt chunk_count) ]).
Definition publish_answer_evaluated (verdict : json) : M unit :=
  publish_domain_event "rag.answer.evaluated"
    (turn_ids ++ [ ("mode", s_ (mode_str (mode request))); ("verdict", verdict) ]).
End Client.
