(* ===== verification/ConversationGraph.v ===== *)
(** * The conversation graph

    [src/backend/rag/app/services/conversation_graph.py]: every node of a turn, the wrapper
    around a node, and [run].  A node takes the graph state and returns the state updated
    with its result and what it reports of itself ([_meta]); deep copies are implicit, values
    do not change.  Durations and the metrics derived from a finished turn are left out. *)

From Stdlib Require Import QArith.
From stdpp Require Import base list strings gmap sets pretty.
From S2P Require Import Prelude PyValue ContextAssembler LlmReplies RetrievalTrace CitationMetrics LearnedReranker.
From S2P Require Import ConversationStages ConversationWorld ConversationStore.

Local Open Scope string_scope.
Local Open Scope list_scope.
Local Open Scope Z_scope.

(** [_meta] of a node. *)
Record node_meta := mkMeta {
  meta_phase : string; meta_decision : option text; meta_message : text; meta_counters : obj;
  meta_excerpt : json
}.

Section Graph.
Context `{PyText} `{Env} (cfg : RAGConfig).

(** ** Debug payloads *)

Fixpoint sanitize_debug_value (v : json) : json :=
  match v with
  | JObj o =>
      JObj ((fix go (o : obj) : obj :=
               match o with
               | [] => []
               | (k, x) :: o' =>
                   (k, if secret_key k then s_ "[redacted]" else sanitize_debug_value x) :: go o'
               end) o)
  | JArr l => JArr (map sanitize_debug_value l)
  | JStr s => JStr (redact_secrets s)
  | _ => v
  end.

Fixpoint jdepth (v : json) : nat :=
  match v with
  | JObj o => S ((fix go (o : obj) : nat :=
                    match o with [] => 0%nat | (_, x) :: o' => Nat.max (jdepth x) (go o') end) o)
  | JArr l => S (foldr (fun x n => Nat.max (jdepth x) n) 0%nat l)
  | _ => 1%nat
  end.

(** [_truncate]; sanitizing does not deepen a value, so its depth is enough fuel. *)
Fixpoint truncate_n (fuel : nat) (v : json) : json :=
  match sanitize_debug_value v with
  | JStr s => JStr (py_prefix s (debug_payload_max_chars cfg))
  | JArr l => JArr (py_prefix l (debug_payload_max_items cfg))
  | JObj o =>
      match fuel with
      | O => JObj []
      | S fuel' => JObj (map (fun kv => (kv.1, truncate_n fuel' kv.2))
                             (take (Z.to_nat (debug_payload_max_items cfg)) o))
      end
  | v' => v'
  end.
Definition truncate_debug (v : json) : json := truncate_n (jdepth v) v.
Definition truncate_obj (o : obj) : obj :=
  match truncate_debug (JObj o) with JObj o' => o' | _ => [] end.

Definition append_debug (st : ConversationState) (payloads : obj) : obj :=
  if allow_debug_payloads cfg
  then foldl (fun acc kv => obj_set acc kv.1 (truncate_debug kv.2)) (debug_payloads st) payloads
  else [].

Definition structured_output_debug_payloads (response : obj) (prefix : string) : obj :=
  match get response "_structured_output_debug" with
  | JObj metadata =>
      [ (prefix +:+ "_structured_output_candidates", get_or metadata "candidates" (JArr []));
        (prefix +:+ "_structured_output_selected_index", get metadata "selected_payload_index");
        (prefix +:+ "_structured_output_selection_policy", get metadata "selection_policy");
        (prefix +:+ "_structured_output_extraction_mode", get metadata "extraction_mode");
        (prefix +:+ "_raw_output", get response "raw_output") ]
  | _ => []
  end.

(** ** Review *)

Definition public_review (review : obj) : obj :=
  match review with
  | [] => []
  | _ =>
      [ ("review_id", get review "review_id");
        ("verdict", get review "verdict");
        ("groundedness_score", get review "groundedness_score");
        ("completeness_score", get review "completeness_score");
        ("safety_score", get review "safety_score");
        ("issues", get_or review "issues" (JArr []));
        ("hallucination_verdict", get review "hallucination_verdict");
        ("unsupported_claim_count", get review "unsupported_claim_count");
        ("revision_applied", JBool (jtrue (get_or review "revision_applied" (JBool false))));
        ("model_name", get review "model_name");
        ("created_at", get review "created_at") ]
  end.

(** [float(v)] and [int(v)] of a value of unknown type. *)
Definition py_float (v : json) : outcome py_exn Q :=
  match as_num v with
  | Some q => Ok q
  | None => match v with
            | JStr s => match parse_float s with
                        | Some q => Ok q
                        | None => Raise (PyError (lit "ValueError") (lit "could not convert string to float"))
                        end
            | _ => TypeError
            end
  end.

Definition py_int (v : json) : outcome py_exn Z :=
  match as_num v with
  | Some q => Ok (trunc q)
  | None => match v with
            | JStr s => match parse_int s with
                        | Some n => Ok n
                        | None => Raise (PyError (lit "ValueError") (lit "invalid literal for int()"))
                        end
            | _ => TypeError
            end
  end.

Definition score_field (payload : obj) (k : string) : outcome py_exn json :=
  let* q := py_float (get payload k ||| JFloat 0) in Ok (JFloat q).

Definition unsupported_count (claims : list obj) (unsupported : json) : outcome py_exn json :=
  match claims with
  | [] => if is_none unsupported then Ok JNull
          else let* n := py_int unsupported in Ok (JInt n)
  | _ => Ok (JInt (zlen (List.filter (fun c => negb (jtrue (get c "supported"))) claims)))
  end.

Definition build_review (payload : obj) (request : ConversationRequest) (passages : list obj)
    : M obj :=
  raws <-- lift (iter_json (get payload "claims" ||| JArr [])) ;
  claims <-- lift (resolve_claim_passage_ids raws
                     (map (fun p => py_str (get p "source_id")) passages)) ;
  rid <-- uuid4 ;
  groundedness <-- lift (score_field payload "groundedness_score") ;
  completeness <-- lift (score_field payload "completeness_score") ;
  safety <-- lift (score_field payload "safety_score") ;
  unsupported <-- lift (unsupported_count claims (get payload "unsupported_claim_count")) ;
  now <-- utc_now_iso ;
  ret [ ("review_id", get payload "review_id" ||| JStr rid);
        ("verdict", get_or payload "verdict" (s_ "pass"));
        ("groundedness_score", groundedness);
        ("completeness_score", completeness);
        ("safety_score", safety);
        ("issues", get_or payload "issues" (JArr []));
        ("claims", JArr (map JObj claims));
        ("unsupported_claim_count", unsupported);
        ("hallucination_verdict", get payload "hallucination_verdict");
        ("revision_applied", JBool (jtrue (get_or payload "revision_applied" (JBool false))));
        ("model_name", get payload "model_name" ||| model request ||| s_ "default");
        ("created_at", get payload "created_at" ||| JStr now);
        ("should_revise", JBool (jtrue (get_or payload "should_revise" (JBool false)))) ].

(** ** Runtime records *)

Definition trace_stage (stage : string) (chunks : list obj) (query query_source : option text)
    (returned_count : option Z) : M unit :=
  t <-- gets retrieval_trace ;
  match t with
  | None => ret tt
  | Some t =>
      t' <-- lift (record_stage t stage chunks query query_source None returned_count []) ;
      modify (fun w => w {{ retrieval_trace := Some t' }})
  end.

Definition trace_decision (stage decision reason : string) (detail : obj) : M unit :=
  modify (fun w => match retrieval_trace w with
                   | None => w
                   | Some t => w {{ retrieval_trace :=
                                      Some (record_decision t stage decision (Some reason) detail) }}
                   end).

Definition commit_final_context (st : ConversationState) : M unit :=
  known <-- gets final_context ;
  match known with
  | Some _ => ret tt
  | None =>
      modify (fun w => w {{ final_context := Some (retrieved_chunks st) }}) ;;;
      trace_stage STAGE_FINAL_CONTEXT (retrieved_chunks st) None None None
  end.

Definition record_llm_evidence (response : obj) : M unit :=
  match get response LLM_EVIDENCE_KEY with
  | JObj evidence => modify (fun w => w {{ llm_actions ::= (fun l => l ++ [evidence]) }})
  | _ => ret tt
  end.

Definition record_llm_failure_evidence (e : py_exn) : M unit :=
  match e with
  | DownstreamRPCError _ _ (Some evidence) =>
      modify (fun w => w {{ llm_actions ::= (fun l => l ++ [evidence]) }})
  | _ => ret tt
  end.

Definition save_checkpoint_ (request : ConversationRequest) (st : ConversationState)
    (node stage status : string) (extra : obj) : M unit :=
  now <-- utc_now_iso ;
  p_save_checkpoint
    (mkCheckpoint (conversation_id request) (turn_id request) (request_id request)
       (trace_id request) (graph_run_id request) (correlation_id request) (owner_id request)
       (owner_type request) node stage status st now extra []).

(** ** Chunks *)

(** [item.get("payload", {}) or {}] and the like, used as a dictionary. *)
Definition obj_or_empty (v : json) : outcome py_exn obj :=
  match v ||| JObj [] with JObj o => Ok o | _ => AttributeError end.

(** The eligibility policy: the first place that says anything decides. *)
Definition allowed_flag (item payload metadata : obj) : bool :=
  jtrue (get_or item "retrieval_allowed"
           (get_or payload "retrieval_allowed" (get_or metadata "retrieval_allowed" (JBool true)))).

Definition review_status_of (item payload metadata : obj) : json :=
  get item "review_status" ||| get payload "review_status" ||| get metadata "review_status"
  ||| s_ "clean".

Definition chunk_text_of (item payload metadata : obj) : json :=
  get item "text" ||| get item "chunk" ||| get item "content" ||| get payload "text"
  ||| get_or metadata "text" (JStr []).

Definition normalized_chunk (item payload metadata : obj) (txt review_status : json)
    (count : Z) (preview : json) (now : text) : obj :=
  let chunk_index := get item "chunk_index" ||| get payload "chunk_index"
                     ||| get metadata "chunk_index" ||| JInt count in
  let chunk_version := get item "chunk_version" ||| get payload "chunk_version"
                       ||| get metadata "chunk_version" ||| JInt 1 in
  let source_name := get item "source_name" ||| get item "source" ||| get payload "source_name"
                     ||| get metadata "filename" ||| get metadata "source_name" ||| JStr [] in
  let document_id := get item "document_id" ||| get item "file_id" ||| get payload "document_id"
                     ||| get payload "file_id" ||| get metadata "document_id"
                     ||| get metadata "file_id" ||| source_name ||| get item "chunk_id"
                     ||| get payload "chunk_id" ||| get item "id"
                     ||| JStr (lit "document-" ++ py_str chunk_index) in
  let file_id := get item "file_id" ||| get payload "file_id" ||| get metadata "file_id"
                 ||| document_id in
  [ ("file_id", file_id);
    ("document_id", document_id);
    ("chunk_id", get item "chunk_id" ||| get payload "chunk_id" ||| get item "id"
       ||| JStr (py_str (document_id ||| s_ "document") ++ lit "__v" ++ py_str chunk_version
                 ++ lit "__c" ++ py_str chunk_index));
    ("chunk_index", chunk_index);
    ("chunk_version", chunk_version);
    ("text", txt);
    ("text_preview", preview);
    ("source_name", source_name);
    ("page", get item "page" ||| get payload "page" ||| get metadata "page");
    ("section", get item "section" ||| get payload "section" ||| get metadata "section");
    ("retrieval_allowed", JBool (allowed_flag item payload metadata));
    ("review_status", review_status);
    ("issue_flags", truncate_debug (get item "issue_flags" ||| get payload "issue_flags"
                                    ||| get metadata "issue_flags" ||| JArr []));
    ("created_at", get item "created_at" ||| get payload "created_at"
                   ||| get metadata "created_at" ||| JStr now);
    ("score", get_or item "score" (get_or item "similarity" (JFloat 0)));
    ("retrieval_diagnostics", truncate_debug (get item "retrieval_diagnostics" ||| JObj []));
    ("source", source_name);
    ("metadata", truncate_debug (JObj metadata)) ].

(** One item of a search reply: [None] when it is dropped. *)
Definition normalize_chunk_item (now : text) (count : Z) (item : obj) : outcome py_exn (option obj) :=
  let* payload := obj_or_empty (get_or item "payload" (JObj [])) in
  let* metadata := obj_or_empty (get_or item "metadata" (JObj [])
                                 ||| get_or payload "metadata" (JObj [])) in
  let txt := chunk_text_of item payload metadata in
  if negb (jtrue txt) then Ok None
  else
    let review_status := review_status_of item payload metadata in
    if negb (allowed_flag item payload metadata) then Ok None
    else if is_str review_status "removed" then Ok None
    else
      let given := get item "text_preview" ||| get payload "text_preview" in
      let* preview := if jtrue given then Ok given else jprefix txt 240 in
      Ok (Some (normalized_chunk item payload metadata txt review_status count preview now)).

Definition reply_items (payload : obj) : json :=
  get payload "chunks" ||| get payload "results" ||| JArr [].

Definition normalize_step (normalized : list obj) (item : obj) : M (list obj) :=
  now <-- utc_now_iso ;
  c <-- lift (normalize_chunk_item now (zlen normalized) item) ;
  ret (match c with Some c => normalized ++ [c] | None => normalized end).

Definition normalize_chunks (payload : obj) : M (list obj) :=
  items <-- lift (iter_json (reply_items payload)) ;
  items <-- lift (as_objs items) ;
  foldM normalize_step [] items.

Definition returned_of (payload : obj) : Z :=
  match reply_items payload with JArr l => zlen l | _ => 0 end.

(** ** Prompt *)

Definition prompt_passages (st : ConversationState) : list obj :=
  chunk_passages (retrieved_chunks st).

(** [for item in v: item.get(k, "")], as text. *)
Definition contents_of (v : json) (k : string) : outcome py_exn (list text) :=
  let* items := iter_json v in
  let* objs := as_objs items in
  Ok (map (fun o => py_str (get_or o k (JStr []))) objs).

Definition history_line (m : obj) : text :=
  (if is_str (get m "role") "user" then lit "User" else lit "Assistant") ++ lit ": " ++
  py_str (get_or m "content" (JStr [])).

Definition NL : text := [10].

Definition build_prompt (st : ConversationState) (mode : string) (review_issues : json)
    : outcome py_exn obj :=
  let passages := prompt_passages st in
  let* memories := contents_of (memory_hits st) "content" in
  let memory_context := join NL memories in
  let* messages := as_objs (recent_messages st) in
  let parts :=
    [ lit "Mode: " ++ lit mode;
      lit "Conversation summary:" ++ NL ++ short_term_summary st ]
    ++ (match recent_messages st with
        | [] => []
        | _ => [lit "Recent messages:" ++ NL ++ join NL (map history_line messages)]
        end)
    ++ (match memory_context with
        | [] => [] | _ => [lit "Relevant memory:" ++ NL ++ memory_context] end)
    ++ (match retrieval_plan st with
        | [] => [] | p => [lit "Retrieval plan:" ++ NL ++ repr (JObj p)] end)
    ++ (match passages with
        | [] => []
        | _ => [lit "Retrieved context:" ++ NL ++
                repr (JArr (map (fun p => get p "text") passages))]
        end)
    ++ (if jtrue review_issues
        then [lit "Fix these issues:" ++ NL ++ py_str review_issues] else [])
    ++ [ lit "Answer grounded in the retrieved context when relevant. Be helpful, clear, and explicit about uncertainty. Return the answer only." ] in
  Ok [ ("instructions", JStr (join (NL ++ NL) parts));
       ("retrieved_context", JArr (map JObj passages));
       ("recent_messages", JArr (recent_messages st));
       ("revision_attempted", JBool (jtrue review_issues)) ].

Definition history_content (message : json) : list text :=
  match message with
  | JObj m => [py_str (get m "content" ||| get m "message" ||| get m "text" ||| JStr [])]
  | _ => []
  end.

Definition assemble_generation_context (st : ConversationState) (request : ConversationRequest)
    (mode : string) : outcome py_exn (list obj) :=
  let* prompt := build_prompt (st {{ retrieved_chunks := [] }}) mode JNull in
  let history := join NL (flat_map history_content (recent_messages st)) in
  let reserved := generation_system_prompt_reserve_tokens cfg
                  + estimate_tokens (user_message request)
                  + estimate_tokens (py_str (get prompt "instructions"))
                  + estimate_tokens history in
  let available := Z.max 0 (generation_input_token_budget cfg - reserved) in
  let context_budget := Z.min (context_token_budget cfg) (available / 2) in
  Ok (assemble_context (retrieved_chunks st) context_budget (top_k_documents cfg)
        (context_diversity_score_tolerance cfg)).

(** ** Results *)

Definition summarize_turn (st : ConversationState) : text :=
  let existing := py_strip (short_term_summary st) in
  let snippet := lit "User: " ++ st_user_message st ++ lit " Assistant: " ++
                 py_str (get_or (draft_answer st) "text" (JStr [])) in
  py_prefix (py_strip (existing ++ lit " " ++ snippet)) (debug_payload_max_chars cfg).

Definition opt_float (o : option Q) : json := match o with Some q => JFloat q | None => JNull end.

Definition cited_id (citation : json) : list json :=
  match citation with
  | JObj c => if jtrue (get c "source_id") then [JStr (py_str (get c "source_id"))] else []
  | _ => []
  end.

Definition citation_metrics (st : ConversationState) : outcome py_exn obj :=
  let citations := get (draft_answer st) "citations" in
  if is_none citations then
    Ok [ ("citation_count", JNull); ("cited_chunk_ratio", JNull); ("citation_precision", JNull);
         ("citation_recall", JNull); ("citation_f1", JNull) ]
  else
    let* listed := iter_json citations in
    let cited_ids := flat_map cited_id listed in
    let* claims := iter_json (get (answer_review st) "claims" ||| JArr []) in
    let* supporting := supporting_passage_ids claims in
    let precision := match claims with [] => None | _ => citation_precision cited_ids supporting end in
    let* recalled := citation_recall claims (Some cited_ids) in
    let recall := match claims with [] => None | _ => recalled end in
    Ok [ ("citation_count", JInt (zlen listed));
         ("cited_chunk_ratio", opt_float (cited_chunk_ratio cited_ids (zlen (prompt_passages st))));
         ("citation_precision", opt_float precision);
         ("citation_recall", opt_float recall);
         ("citation_f1", opt_float (citation_f1 precision recall)) ].

Definition objs (l : list obj) : json := JArr (map JObj l).

Definition build_result (st : ConversationState) (sources : list obj) : outcome py_exn obj :=
  let* metrics := citation_metrics st in
  Ok [ ("answer", get_or (draft_answer st) "text" (JStr []));
       ("sources", objs sources);
       ("citations", get (draft_answer st) "citations");
       ("review", JObj (public_review (answer_review st)));
       ("citation_metrics", JObj metrics);
       ("trace_events", objs (trace_events st));
       ("debug_payloads", JObj (debug_payloads st));
       ("outcome", JStr (outcome_ st));
       ("guardrail_stage", guardrail_stage st) ].

(** ** Nodes *)

Section Nodes.
Context (request : ConversationRequest).

Definition meta (message : string) (counters : obj) (excerpt : json) : node_meta :=
  mkMeta "completed" None (lit message) counters excerpt.
Definition count_of (k : string) (n : Z) : obj := [(k, JInt n)].
Definition user_query : json := JStr (user_message request).

(** [x[0]["text"][:120] if x else default]. *)
Definition first_text (chunks : list obj) : outcome py_exn json :=
  match chunks with
  | [] => Ok (s_ "no chunks")
  | c :: _ => jprefix (get c "text") 120
  end.

Definition node_input_guardrails (st : ConversationState) : M (ConversationState * node_meta) :=
  let msg := py_strip (user_message request) in
  if bool_decide (msg = [])
  then raise (PyError (lit "ValueError") (lit "Question is required"))
  else
    scan <-- risk_scan request (JStr msg) "input" ;
    record_llm_evidence scan ;;;
    let payloads := append_debug st [("input_safety_flags", JObj scan)] in
    if jtrue (get scan "blocked") then
      modify (fun w => w {{ guardrail_blocked := Some true }}) ;;;
      raise (GuardrailBlockedError (lit "input"))
    else
      let snapshot := st {{ st_user_message := msg }} {{ debug_payloads := payloads }} in
      save_checkpoint_ request snapshot "input_guardrails" "graph_start" "started" [] ;;;
      ret (st {{ st_mode := mode request }} {{ st_user_message := msg }}
             {{ debug_payloads := payloads }},
           meta "Input validated" [] (get scan "message" ||| s_ "input accepted")).

(** The store keeps the summary as a string and the messages as a list. *)
Definition or_text (v : json) (d : text) : text := match v with JStr ((_ :: _) as s) => s | _ => d end.
Definition or_list (v : json) (d : list json) : list json :=
  match v with JArr ((_ :: _) as l) => l | _ => d end.

Definition node_load_short_term_context (st : ConversationState)
    : M (ConversationState * node_meta) :=
  context <-- p_load_context (conversation_id request) (max_recent_messages cfg) ;
  let summary := or_text (get context "summary") (short_term_summary st) in
  let messages := or_list (get context "recent_messages") (recent_messages st) in
  let snapshot := st {{ short_term_summary := summary }} {{ recent_messages := messages }} in
  save_checkpoint_ request snapshot "load_short_term_context" "after_context_load" "ok" [] ;;;
  ret (snapshot, meta "Short-term context loaded" (count_of "recent_messages" (zlen messages))
                   (JStr (py_prefix summary 120))).

Definition json_len (v : json) : Z :=
  match v with JArr l => zlen l | JStr s => zlen s | JObj o => zlen o | _ => 0 end.

Definition load_memory (depth : string) (message : string) (st : ConversationState)
    : M (ConversationState * node_meta) :=
  response <-- get_relevant_memories request depth ;
  let memories := get response "memories" ||| get response "items" ||| JArr [] in
  hits <-- lift (jprefix memories (max_memory_hits cfg)) ;
  first <-- lift (jprefix memories 1) ;
  ret (st {{ memory_hits := truncate_debug hits }},
       meta message (count_of "memory_hits" (json_len memories)) (JStr (py_prefix (py_str first) 120))).

Definition node_load_memory_light := load_memory "light" "Light memory loaded".
Definition node_load_memory_deep := load_memory "deep" "Deep memory loaded".

Definition node_retrieve_chunks_once (st : ConversationState) : M (ConversationState * node_meta) :=
  response <-- search_chunks cfg request user_query (retrieval_plan st) "regular"
    (if reranker_enabled cfg
     then Some (Z.max (top_k_documents cfg) (candidate_limit cfg)) else None) ;
  chunks <-- normalize_chunks response ;
  trace_stage STAGE_BASE chunks (Some (user_message request)) (Some (lit "user_message"))
    (Some (returned_of response)) ;;;
  let snapshot := st {{ retrieved_chunks := chunks }} in
  save_checkpoint_ request snapshot "retrieve_chunks_once" "after_retrieval" "ok" [] ;;;
  excerpt <-- lift (first_text chunks) ;
  ret (snapshot, meta "Chunks retrieved" (count_of "chunk_count" (zlen chunks)) excerpt).

Definition node_rewrite_or_decompose_query (st : ConversationState)
    : M (ConversationState * node_meta) :=
  response <-- query_rewrite request
    [ ("summary", JStr (short_term_summary st));
      ("recent_messages", JArr (recent_messages st));
      ("memory_hits", memory_hits st) ] ;
  record_llm_evidence response ;;;
  let plan := [ ("rewritten_query", get response "rewritten_query" ||| user_query);
                ("subqueries", get response "subqueries" ||| JArr []);
                ("pass_two_hints", get response "pass_two_hints" ||| JArr []);
                ("decision", get_or response "decision" (s_ "rewrite")) ] in
  excerpt <-- lift (jprefix (get plan "rewritten_query" ||| user_query) 120) ;
  ret (st {{ retrieval_plan := truncate_obj plan }}
          {{ debug_payloads := append_debug st [("rewrite_response", JObj response)] }},
       meta "Query rewrite complete" [] excerpt).

(** *** Pass one: a window of concurrent searches, awaited in query order *)

Definition pass_top_k : option Z := if reranker_enabled cfg then Some (candidate_limit cfg) else None.

Definition spawn_search (plan : obj) (query : json) : M (outcome py_exn obj) :=
  attempt (search_chunks cfg request query plan "pass_one" pass_top_k).

Fixpoint spawn_all (plan : obj) (queries : list json) : M (list (outcome py_exn obj)) :=
  match queries with
  | [] => ret []
  | q :: rest =>
      t <-- spawn_search plan q ;
      ts <-- spawn_all plan rest ;
      ret (t :: ts)
  end.

(** [while pending: await pending.pop(0); start the next query].  A failed call cancels the
    searches still pending and raises. *)
Fixpoint await_window (fuel : nat) (plan : obj) (pending : list (outcome py_exn obj))
    (rest : list json) (responses : list obj) : M (list obj) :=
  match fuel, pending with
  | _, [] => ret responses
  | O, _ => ret responses
  | S fuel', t :: pending' =>
      response <-- lift t ;
      match rest with
      | [] => await_window fuel' plan pending' [] (responses ++ [response])
      | q :: rest' =>
          t' <-- spawn_search plan q ;
          await_window fuel' plan (pending' ++ [t']) rest' (responses ++ [response])
      end
  end.

Definition run_searches (plan : obj) (queries : list json) : M (list obj) :=
  let concurrency := Z.to_nat (Z.max 1 (extended_retrieval_max_concurrency cfg)) in
  pending <-- spawn_all plan (take concurrency queries) ;
  await_window (length queries) plan pending (drop concurrency queries) [].

Definition pass_one_queries (plan : obj) : outcome py_exn (list json) :=
  let* subqueries := iter_json (get plan "subqueries" ||| JArr []) in
  Ok (py_prefix ((get plan "rewritten_query" ||| user_query) :: subqueries)
        (debug_payload_max_items cfg)).

Definition collect_response (chunks : list obj) (e : Z * (json * obj)) : M (list obj) :=
  let '(index, (query, response)) := e in
  normalized <-- normalize_chunks response ;
  trace_stage STAGE_PASS_ONE normalized (Some (py_str query))
    (Some (if index =? 0 then lit "rewritten_query" else lit "subquery_" ++ show index))
    (Some (returned_of response)) ;;;
  ret (chunks ++ normalized).

Definition node_retrieve_pass_one (st : ConversationState) : M (ConversationState * node_meta) :=
  let plan := retrieval_plan st in
  queries <-- lift (pass_one_queries plan) ;
  responses <-- run_searches plan queries ;
  chunks <-- foldM collect_response [] (enumerate 0 (zip queries responses)) ;
  let snapshot := st {{ retrieved_chunks := chunks }} in
  save_checkpoint_ request snapshot "retrieve_pass_one" "after_pass_one" "ok" [] ;;;
  excerpt <-- lift (first_text chunks) ;
  ret (snapshot, meta "Pass one retrieval complete" (count_of "chunk_count" (zlen chunks)) excerpt).

(** *** Merging *)

(** Equality of dictionary keys; a list or dictionary is not hashable. *)
Definition key_eq (a b : json) : bool :=
  match a, b with
  | JNull, JNull => true
  | JStr s, JStr t => bool_decide (s = t)
  | _, _ => match as_num a, as_num b with Some p, Some q => Qeq_bool p q | _, _ => false end
  end.

Definition score_of (c : obj) : outcome py_exn Q :=
  match as_num (get_or c "score" (JFloat 0)) with Some q => Ok q | None => TypeError end.

Fixpoint merge_into (chunk : obj) (merged : list obj) : outcome py_exn (list obj) :=
  match merged with
  | [] => Ok [chunk]
  | current :: rest =>
      if key_eq (get current "chunk_id") (get chunk "chunk_id") then
        let* new := score_of chunk in
        let* old := score_of current in
        Ok (if old <?q new then chunk :: rest else current :: rest)
      else let* rest' := merge_into chunk rest in Ok (current :: rest')
  end.

Fixpoint merge_all (merged : list obj) (incoming : list obj) : outcome py_exn (list obj) :=
  match incoming with
  | [] => Ok merged
  | chunk :: rest =>
      if scalar (get chunk "chunk_id")
      then let* merged' := merge_into chunk merged in merge_all merged' rest
      else TypeError
  end.

Fixpoint with_scores (l : list obj) : outcome py_exn (list (Q * obj)) :=
  match l with
  | [] => Ok []
  | c :: rest => let* q := score_of c in let* r := with_scores rest in Ok ((q, c) :: r)
  end.

(** [sorted(..., key=score, reverse=True)]; one element needs no comparison. *)
Definition sort_by_score (l : list obj) : outcome py_exn (list obj) :=
  match l with
  | [] | [_] => Ok l
  | _ => let* scored := with_scores l in
         Ok (map snd (py_sorted (fun a b => b.1 <=?q a.1) scored))
  end.

Definition format_score (v : json) : outcome py_exn text :=
  match as_num v with Some q => Ok (format3 q) | None => TypeError end.

Definition node_merge_candidates (st : ConversationState) : M (ConversationState * node_meta) :=
  merged <-- lift (merge_all [] (retrieved_chunks st)) ;
  ordered <-- lift (sort_by_score merged) ;
  let kept := py_prefix ordered (candidate_limit cfg) in
  trace_stage STAGE_MERGED kept None None (Some (zlen ordered)) ;;;
  excerpt <-- lift (match kept with
                    | [] => Ok (lit "no merged chunks")
                    | c :: _ => let* t := format_score (get c "score") in
                                Ok (lit "top_retrieval_score=" ++ t)
                    end) ;
  ret (st {{ retrieved_chunks := kept }},
       meta "Candidate results merged" (count_of "chunk_count" (zlen kept)) (JStr excerpt)).

(** *** Reranking *)

Definition node_rerank_candidates (st : ConversationState) : M (ConversationState * node_meta) :=
  let incoming := retrieved_chunks st in
  let query := get (retrieval_plan st) "rewritten_query" ||| user_query in
  reply <-- interact rerank_scores ;
  res <-- lift (rerank (reranker_enabled cfg) (candidate_limit cfg) reply query incoming) ;
  let reranked := rr_candidates res in
  let success := bool_decide (rr_status res = "success") in
  (match incoming with
   | first :: _ =>
       if success && negb (is_none (get first "chunk_id")) then
         modify (fun w => w {{ reranker_changed_top1 := Some
           (match reranked with
            | r :: _ => negb (key_eq (get r "chunk_id") (get first "chunk_id"))
            | [] => false
            end) }})
       else ret tt
   | [] => ret tt
   end) ;;;
  trace_stage STAGE_RERANKED reranked None None None ;;;
  trace_decision STAGE_RERANKED (rr_status res)
    (if success then "learned_cross_encoder" else "deterministic_retrieval_order_fallback")
    (count_of "candidate_count" (zlen reranked)) ;;;
  let snapshot := st {{ retrieved_chunks := reranked }} in
  save_checkpoint_ request snapshot "rerank_candidates" "after_final_ranking" "ok" [] ;;;
  ret (snapshot,
       mkMeta "completed" (Some (lit (rr_status res))) (lit "Candidate reranking " ++ lit (rr_status res))
         (count_of "candidate_count" (zlen reranked))
         (JStr (match reranked with
                | [] => lit "no candidates"
                | c :: _ => lit "top_reranker_score=" ++ py_str (get c "reranker_score")
                end))).

(** *** Pass two *)

Definition top_score (chunks : list obj) : json :=
  match chunks with [] => JFloat 0 | c :: _ => get_or c "score" (JFloat 0) end.

(** The disjunction stops at the first true condition, so a score that is not a number
    raises only when it is looked at. *)
Definition should_run_pass_two (chunks : list obj) (plan : obj) : outcome py_exn bool :=
  if zlen chunks <? pass_two_chunk_threshold cfg then Ok true
  else match as_num (top_score chunks) with
       | None => TypeError
       | Some q => Ok ((q <?q pass_two_score_threshold cfg) || jtrue (get plan "pass_two_hints"))
       end.

Definition first_hint (plan : obj) : outcome py_exn json :=
  match get plan "pass_two_hints" ||| JArr [JNull] with
  | JArr (h :: _) => Ok h
  | JStr (c :: _) => Ok (JStr [c])
  | _ => TypeError
  end.

Definition pass_two_detail (chunks : list obj) : obj :=
  [ ("chunk_count", JInt (zlen chunks)); ("top_score", top_score chunks);
    ("chunk_threshold", JInt (pass_two_chunk_threshold cfg));
    ("score_threshold", JFloat (pass_two_score_threshold cfg)) ].

Definition node_retrieve_pass_two_if_needed (st : ConversationState)
    : M (ConversationState * node_meta) :=
  let chunks := retrieved_chunks st in
  let plan := retrieval_plan st in
  should_run <-- lift (should_run_pass_two chunks plan) ;
  if negb should_run then
    trace_decision STAGE_PASS_TWO "skipped" "sufficient_pass_one" (pass_two_detail chunks) ;;;
    save_checkpoint_ request st "retrieve_pass_two_if_needed" "after_pass_two" "skipped" [] ;;;
    excerpt <-- lift (format_score (top_score chunks)) ;
    ret (st, mkMeta "skipped" (Some (lit "sufficient_pass_one")) (lit "Second retrieval skipped") []
               (JStr (lit "top_score=" ++ excerpt)))
  else
    hint <-- lift (first_hint plan) ;
    let alt_query := hint ||| get plan "rewritten_query" ||| user_query in
    let hinted := jtrue (get plan "pass_two_hints") in
    trace_decision STAGE_PASS_TWO "triggered"
      (if hinted then "pass_two_hint"
       else if zlen chunks <? pass_two_chunk_threshold cfg then "thin_pass_one" else "low_top_score")
      (pass_two_detail chunks) ;;;
    response <-- search_chunks cfg request alt_query plan "pass_two" pass_top_k ;
    second <-- normalize_chunks response ;
    trace_stage STAGE_PASS_TWO second (Some (py_str alt_query))
      (Some (if hinted then lit "pass_two_hint" else lit "rewritten_query"))
      (Some (returned_of response)) ;;;
    let merged := chunks ++ second in
    let snapshot := st {{ retrieved_chunks := merged }} in
    save_checkpoint_ request snapshot "retrieve_pass_two_if_needed" "after_pass_two" "ok" [] ;;;
    excerpt <-- lift (first_text merged) ;
    ret (snapshot, meta "Second retrieval complete" (count_of "chunk_count" (zlen merged)) excerpt).

(** *** Generation *)

Definition generate_common (st : ConversationState) (source mode checkpoint_node : string)
    (review_issues : json) (is_revision : bool) : M (ConversationState * node_meta) :=
  prompt <-- lift (build_prompt st mode review_issues) ;
  start_candidate (lit source) ;;;
  response <-- generate_answer_rpc request prompt (request_id request) ;
  record_llm_evidence response ;;;
  now <-- utc_now_iso ;
  let answer_text := get_or response "answer" (JStr []) in
  let draft :=
    [ ("text", answer_text);
      ("citations", get response "citations");
      ("invalid_citation_count", get response "invalid_citation_count");
      ("sources", objs (retrieved_chunks st));
      ("model_name", get response "model_name" ||| model request ||| s_ "default");
      ("created_at", JStr now);
      ("source", s_ source);
      ("revision_attempted",
        JBool (is_revision || jtrue (get_or (draft_answer st) "revision_attempted" (JBool false)))) ] in
  modify (fun w => w {{ model_used := get draft "model_name" }} {{ usage := get response "usage" }}) ;;;
  let payloads := append_debug st
    [ ("generation_instructions", get prompt "instructions");
      ("generation_context", get prompt "retrieved_context");
      ("raw_output", get response "raw_output" ||| answer_text);
      ("visible_reasoning_summary", get response "visible_reasoning_summary");
      ("raw_prompt", get response "raw_prompt" ||| JStr []);
      ("system_prompt", get response "system_prompt" ||| JStr []) ] in
  let snapshot := st {{ draft_answer := draft }} {{ debug_payloads := payloads }} in
  save_checkpoint_ request snapshot checkpoint_node "after_generation" "ok" [] ;;;
  excerpt <-- lift (jprefix answer_text 120) ;
  ret (snapshot, meta "Answer generated" (count_of "chunk_count" (zlen (retrieved_chunks st))) excerpt).

Definition node_generate_answer (st : ConversationState) : M (ConversationState * node_meta) :=
  generate_common st "final" "regular" "generate_answer" JNull false.
Definition node_generate_draft_answer (st : ConversationState) : M (ConversationState * node_meta) :=
  generate_common st "draft" "extended" "generate_draft_answer" JNull false.

(** *** Evaluation and revision *)

Definition evaluate_common (mode : string) (st : ConversationState)
    : M (ConversationState * node_meta) :=
  response <-- evaluate_answer request (get_or (draft_answer st) "text" (JStr []))
                 (retrieved_chunks st) mode ;
  record_llm_evidence response ;;;
  review <-- build_review response request (prompt_passages st) ;
  let review := if jtrue (get (draft_answer st) "revision_attempted")
                then obj_set review "revision_applied" (JBool true) else review in
  emit request "answer_review" (public_review review) ;;;
  let payloads := append_debug st (structured_output_debug_payloads response "answer_review") in
  let snapshot := st {{ answer_review := review }} {{ debug_payloads := payloads }} in
  save_checkpoint_ request snapshot "evaluate_answer" "after_evaluation" "ok" [] ;;;
  ret (snapshot, meta "Answer evaluated" (count_of "issues" (json_len (get_or review "issues" (JArr []))))
                   (JStr (lit "verdict=" ++ py_str (get_or review "verdict" (s_ "unknown"))))).

Definition node_evaluate_answer_light := evaluate_common "regular".
Definition node_evaluate_answer_deep := evaluate_common "extended".

Definition node_revise_once_if_needed (st : ConversationState) : M (ConversationState * node_meta) :=
  let review := answer_review st in
  if negb (jtrue (get review "should_revise")) || jtrue (get review "revision_applied")
     || jtrue (get (draft_answer st) "revision_attempted")
  then ret (st, mkMeta "skipped" (Some (lit "no_revision_needed")) (lit "Revision skipped") []
                  (JStr (lit "revision_applied=" ++
                         py_str (get_or review "revision_applied" (JBool false)))))
  else
    updated <-- generate_common st "final" "extended" "revise_once_if_needed"
                  (get_or review "issues" (JArr [])) true ;
    let review' := obj_set review "revision_applied" (JBool true) in
    emit request "answer_review" (public_review review') ;;;
    ret (updated.1 {{ answer_review := review' }},
         meta "Revision applied" [] (s_ "single revision applied")).

(** *** Output guardrails *)

Definition canned_refusal : json := s_ "I can't help with that request.".

(** [approve] of a value that is not a string raises where it is stripped. *)
Definition approve_value (v : json) : M unit :=
  match v with
  | JStr s => approve request s
  | _ => reject ;;; lift AttributeError
  end.

Definition node_output_guardrails (st : ConversationState) : M (ConversationState * node_meta) :=
  let answer_text := get_or (draft_answer st) "text" (JStr []) in
  response <-- risk_scan request answer_text "output" ;
  record_llm_evidence response ;;;
  let blocked := jtrue (get response "blocked") in
  modify (fun w => w {{ guardrail_blocked := Some blocked }}) ;;;
  (if blocked then reject else approve_value answer_text) ;;;
  let draft := if blocked
               then obj_set (draft_answer st) "text" (get response "safe_output" ||| canned_refusal)
               else draft_answer st in
  let payloads := append_debug st
    (("output_safety_flags", JObj response) :: structured_output_debug_payloads response "output_safety") in
  ret (st {{ draft_answer := draft }} {{ debug_payloads := payloads }}
          {{ outcome_ := lit (if blocked then "guardrail_blocked" else "success") }}
          {{ guardrail_stage := if blocked then s_ "output" else JNull }},
       meta "Output guardrails completed" []
         (get response "message" ||| s_ (if blocked then "blocked" else "clear"))).

(** *** Persistence *)

Definition owner_fields : obj :=
  [ ("request_id", JStr (request_id request)); ("trace_id", JStr (trace_id request));
    ("graph_run_id", JStr (graph_run_id request)); ("owner_id", owner_id request);
    ("owner_type", owner_type request) ].

Definition do_persist_turn (st : ConversationState) (summary : text)
    : M (ConversationState * node_meta) :=
  let review := answer_review st in
  let cid := conversation_id request in
  now <-- utc_now_iso ;
  p_save_thread cid
    (("conversation_id", JStr cid) :: owner_fields ++
     [ ("session_id", session_id request); ("connection_id", connection_id request);
       ("latest_turn_id", JStr (turn_id request));
       ("latest_mode", s_ (mode_str (mode request))); ("updated_at", JStr now) ]) ;;;
  now <-- utc_now_iso ;
  p_save_turn (turn_id request)
    (("conversation_id", JStr cid) :: ("turn_id", JStr (turn_id request)) :: owner_fields ++
     [ ("correlation_id", correlation_id request);
       ("mode", s_ (mode_str (mode request)));
       ("user_message", user_query);
       ("final_answer", get_or (draft_answer st) "text" (JStr []));
       ("retrieved_chunks", objs (retrieved_chunks st));
       ("review_id", get review "review_id"); ("created_at", JStr now) ]) ;;;
  now <-- utc_now_iso ;
  p_save_summary cid
    (("conversation_id", JStr cid) :: owner_fields ++
     [("summary", JStr summary); ("updated_at", JStr now)]) ;;;
  (match review with
   | [] => ret tt
   | _ => p_save_answer_review (py_str (get review "review_id"))
            (obj_update review
               (("conversation_id", JStr cid) :: ("turn_id", JStr (turn_id request)) :: owner_fields
                ++ [("correlation_id", correlation_id request)]))
   end) ;;;
  let snapshot := st {{ short_term_summary := summary }} in
  save_checkpoint_ request snapshot "persist_turn" "after_persistence" "persisted" [] ;;;
  publish_answer_generated request (zlen (retrieved_chunks st)) ;;;
  publish_answer_evaluated request (get_or review "verdict" (s_ "unknown")) ;;;
  ret (snapshot, meta "Turn persisted" [] (JStr (turn_id request))).

Definition exn_class (e : py_exn) : text :=
  match e with
  | GuardrailBlockedError _ => lit "GuardrailBlockedError"
  | DownstreamRPCError _ _ _ => lit "DownstreamRPCError"
  | PyError cls _ => cls
  | Cancelled => lit "CancelledError"
  end.

Definition node_persist_turn (st : ConversationState) : M (ConversationState * node_meta) :=
  let summary := summarize_turn st in
  catch (do_persist_turn st summary)
    (fun e => match e with
              | Cancelled => None
              | _ => Some (ret (st {{ short_term_summary := summary }},
                     mkMeta "completed" None (lit "Turn persist FAILED: " ++ exn_text e) []
                       (JStr (turn_id request))))
              end).

Definition done_data (st : ConversationState) : obj :=
  [ ("final_answer", get_or (draft_answer st) "text" (JStr []));
    ("sources", objs (retrieved_chunks st));
    ("review_summary", JObj (public_review (answer_review st)));
    ("retrieval_summary", JObj [ ("chunk_count", JInt (zlen (retrieved_chunks st)));
                                 ("plan", JObj (retrieval_plan st)) ]);
    ("trace_summary", objs (trace_events st));
    ("safe_debug_payloads", JObj (debug_payloads st)) ].

Definition node_stream_done (st : ConversationState) : M (ConversationState * node_meta) :=
  emit request "done" (done_data st) ;;;
  ret (st, meta "Done emitted" [] JNull).

(** ** The wrapper and the graph *)

Definition node_map (n : NodeName) : ConversationState -> M (ConversationState * node_meta) :=
  match n with
  | input_guardrails => node_input_guardrails
  | load_short_term_context => node_load_short_term_context
  | load_memory_light => node_load_memory_light
  | retrieve_chunks_once => node_retrieve_chunks_once
  | generate_answer => node_generate_answer
  | evaluate_answer_light => node_evaluate_answer_light
  | load_memory_deep => node_load_memory_deep
  | rewrite_or_decompose_query => node_rewrite_or_decompose_query
  | retrieve_pass_one => node_retrieve_pass_one
  | retrieve_pass_two_if_needed => node_retrieve_pass_two_if_needed
  | merge_candidates => node_merge_candidates
  | rerank_candidates => node_rerank_candidates
  | generate_draft_answer => node_generate_draft_answer
  | evaluate_answer_deep => node_evaluate_answer_deep
  | revise_once_if_needed => node_revise_once_if_needed
  | output_guardrails => node_output_guardrails
  | persist_turn => node_persist_turn
  | stream_done => node_stream_done
  end.

Definition generation_mode (n : NodeName) : option string :=
  match n with
  | generate_answer => Some "regular"
  | generate_draft_answer => Some "extended"
  | _ => None
  end.

Definition status_data (n : NodeName) (phase : string) (message : text) : obj :=
  [ ("node", s_ (node_name n)); ("phase", s_ phase); ("message", JStr message);
    ("mode", s_ (mode_str (mode request))) ].

Definition trace_payload (n : NodeName) (m : node_meta) : obj :=
  [ ("node", s_ (node_name n)); ("event", s_ (meta_phase m));
    ("decision", match meta_decision m with Some d => JStr d | None => s_ (meta_phase m) end);
    ("counters", JObj (meta_counters m)) ]
  ++ (if jtrue (meta_excerpt m)
      then [("debug_excerpt", truncate_debug (meta_excerpt m))] else []).

(** The context entering generation is fixed before the node runs. *)
Definition enter_generation (n : NodeName) (st : ConversationState) : M ConversationState :=
  match generation_mode n with
  | None => ret st
  | Some m =>
      chunks <-- lift (assemble_generation_context st request m) ;
      let st := st {{ retrieved_chunks := chunks }} in
      commit_final_context st ;;;
      ret st
  end.

Definition wrap_node (n : NodeName) (st : ConversationState) : M ConversationState :=
  modify (fun w => w {{ current_node := node_name n }}) ;;;
  st <-- enter_generation n st ;
  emit request "status" (status_data n "started" (lit (node_name n) ++ lit " started")) ;;;
  r <-- node_map n st ;
  let '(st', m) := r in
  let payload := trace_payload n m in
  let next := st' {{ trace_events := trace_events st ++ [payload] }} in
  ended <-- gets terminal_sent ;
  if bool_decide (n = stream_done) && ended then ret next
  else
    emit request "status"
      (status_data n (meta_phase m) (meta_message m) ++ [("progress", JNull)]) ;;;
    emit request "trace" payload ;;;
    ret next.
End Nodes.

(** [graph_library] is the graph library, when it could be imported. *)
Definition run_graph (graph_library : option (engine world ConversationState)) (request : ConversationRequest)
    (checkpoint : option Checkpoint) (st : ConversationState) : M ConversationState :=
  match checkpoint with
  | Some c => resume_from_checkpoint st_mode (wrap_node request) st (cp_stage c)
  | None =>
      match graph_library with
      | Some library => ainvoke library st_mode build_graph (wrap_node request) st
      | None => run_fallback_graph st_mode (wrap_node request) st
      end
  end.

(** What a checkpoint gives back to the request. *)
Definition restore_request (request : ConversationRequest) (checkpoint : option Checkpoint)
    : ConversationRequest :=
  match checkpoint with
  | None => request
  | Some c =>
      let r := if bool_decide (cp_graph_run_id c = []) then request
               else request {{ graph_run_id := cp_graph_run_id c }} in
      let r := if jtrue (cp_owner_id c) &&
                  (key_eq (owner_id r) (JStr (conversation_id r)) || negb (jtrue (owner_id r)))
               then r {{ owner_id := cp_owner_id c }} else r in
      if jtrue (cp_owner_type c) && (is_none (owner_type r) || is_str (owner_type r) "conversation")
      then r {{ owner_type := cp_owner_type c }} else r
  end.

Definition turn_body (graph_library : option (engine world ConversationState)) (request : ConversationRequest)
    (checkpoint : option Checkpoint) (st : ConversationState) : M obj :=
  final_state <-- run_graph graph_library request checkpoint st ;
  commit_final_context final_state ;;;
  final <-- gets final_context ;
  result <-- lift (build_result final_state (default [] final)) ;
  actions <-- gets llm_actions ;
  ret (obj_set result "llm_actions" (objs actions)).

Definition guardrail_handler (request : ConversationRequest) (st : ConversationState) (stage : text)
    : M obj :=
  node <-- gets current_node ;
  save_checkpoint_ request st node "guardrail_blocked" "guardrail_blocked"
    [("outcome", s_ "guardrail_blocked"); ("guardrail_stage", JStr stage)] ;;;
  actions <-- gets llm_actions ;
  ret [ ("answer", JStr []); ("sources", JArr []); ("review", JObj []);
        ("citation_metrics", JObj []); ("outcome", s_ "guardrail_blocked");
        ("guardrail_stage", JStr stage); ("llm_actions", objs actions) ].

Definition failure_handler (request : ConversationRequest) (st : ConversationState) (e : py_exn)
    : M obj :=
  failed_node <-- gets current_node ;
  record_llm_failure_evidence e ;;;
  save_checkpoint_ request st failed_node "error" "error" [("error", JStr (exn_text e))] ;;;
  ended <-- gets terminal_sent ;
  (if ended then ret tt
   else emit request "error"
          [ ("code", s_ "graph_execution_error"); ("failed_node", s_ failed_node);
            ("retryable", JBool true); ("message", JStr (exn_text e)) ]) ;;;
  known <-- gets final_context ;
  actions <-- gets llm_actions ;
  ret [ ("answer", JStr []); ("sources", objs (default [] known)); ("review", JObj []);
        ("citation_metrics", JObj []); ("outcome", s_ "failed");
        ("error", JStr (exn_text e)); ("error_class", JStr (exn_class e));
        ("failed_node", s_ failed_node); ("llm_actions", objs actions) ].

Definition handlers (request : ConversationRequest) (st : ConversationState) (e : py_exn)
    : option (M obj) :=
  match e with
  | GuardrailBlockedError stage => Some (guardrail_handler request st stage)
  | Cancelled => None
  | _ => Some (failure_handler request st e)
  end.

Definition load_checkpoint (request : ConversationRequest) (resume : bool)
    : M (option Checkpoint) :=
  if resume
  then p_get_latest_checkpoint (conversation_id request) (Some (request_id request))
  else ret None.

Definition run (graph_library : option (engine world ConversationState)) (request : ConversationRequest) (resume : bool) : M obj :=
  checkpoint <-- load_checkpoint request resume ;
  let st := match checkpoint with Some c => cp_state c | None => build_initial_state request end in
  let request := restore_request request checkpoint in
  (match checkpoint with None => publish_turn_started request | Some _ => ret tt end) ;;;
  catch (turn_body graph_library request checkpoint st) (handlers request st).
End Graph.

(** ** Concrete environments for the conversation runtime

    Services that answer, block or fail, for evaluating a whole turn. *)

Definition demo_reply (payload : obj) : json :=
  JObj [("message_type", s_ "reply"); ("success", JBool true); ("payload", JObj payload)].

Definition demo_llm_reply (request_type : string) (parsed : obj) : json :=
  JObj [ ("message_type", s_ "reply"); ("success", JBool true); ("source_service", s_ "llm_agent");
         ("payload", JObj [ ("request_type", s_ request_type); ("status", s_ "success");
                            ("parsed_output", JObj parsed) ]) ].

(** One allowed chunk, one whose retrieval is not allowed, one removed by the review. *)
Definition demo_found : json :=
  JArr [ JObj [ ("chunk_id", s_ "c1"); ("text", s_ "alpha beta"); ("score", JFloat (9 # 10));
                ("document_id", s_ "d1") ];
         JObj [ ("chunk_id", s_ "c2"); ("text", s_ "gamma"); ("score", JFloat (8 # 10));
                ("retrieval_allowed", JBool false) ];
         JObj [ ("chunk_id", s_ "c3"); ("text", s_ "delta"); ("score", JFloat (7 # 10));
                ("review_status", s_ "removed") ] ].

(** The stage a scan was requested for. *)
Definition demo_stage (env : obj) : json :=
  match get env "payload" with
  | JObj p => match get p "metadata" with JObj m => get m "stage" | _ => JNull end
  | _ => JNull
  end.

(** The services: the risk levels of the two scans, and the action that fails. *)
Definition demo_service (input_level output_level failing : string) (n : nat) (env : obj)
    : outcome py_exn json :=
  let a := get env "action" in
  if is_str a "content_risk_scan" then
    Ok (demo_llm_reply "content_risk_scan"
          [ ("risk_level", if is_str (demo_stage env) "output" then s_ output_level else s_ input_level);
            ("summary", s_ "ok") ])
  else if is_str a failing then Raise (PyError (lit "TimeoutError") (lit "no reply"))
  else if is_str a "get_relevant_memories" then Ok (demo_reply [("memories", JArr [])])
  else if is_str a "embed" then Ok (demo_reply [("embedding", JArr [JInt 1])])
  else if is_str a "search_chunks" then Ok (demo_reply [("chunks", demo_found)])
  else if is_str a "answer_evaluation"
  then Ok (demo_llm_reply "answer_evaluation" [("verdict", s_ "pass"); ("claims", JArr [])])
  else if is_str a "query_rewrite"
  then Ok (demo_llm_reply "query_rewrite" [("rewritten_query", s_ "alpha?")])
  else Ok JNull.

Definition demo_token (t : string) : json :=
  JObj [ ("message_type", s_ "stream_event");
         ("payload", JObj [ ("event_type", s_ "llm.token");
                            ("data", JObj [("token", s_ t); ("index", JInt 0)]) ]) ].

Definition demo_env (input_level output_level failing : string) : Env := {|
  service_reply := demo_service input_level output_level failing;
  service_stream := fun _ _ =>
    ([demo_token "Alpha "; demo_token "is beta."],
     Ok (demo_llm_reply "answer_generation" [("answer", s_ "Alpha is beta.")]));
  publish_fault := fun _ _ => None;
  store_fault := fun _ => None;
  clock := fun n => show (1000 + Z.of_nat n);
  uuid := fun n => show (Z.of_nat n);
  epoch_ms := fun n => Z.of_nat n;
  rerank_scores := fun _ _ ps => Scores (map (fun p => inject_Z (zlen p)) ps);
  sparse_lexical_vector := fun _ => [];
  json_loads := fun _ => None;
  secret_key := fun _ => false;
  redact_secrets := fun t => t;
  identity := None;
  format3 := fun q => show (Qnum q);
  traffic_class := "live"
|}.

(** The defaults of the service. *)
Definition demo_config : RAGConfig :=
  mkRAGConfig 6 20 20 60 false 6144 512 3072 (8 # 100) 6 6 3 (55 # 100) 4 2000 12 true true 8.

Definition demo_request (m : Mode) : ConversationRequest :=
  mkRequest (lit "What is alpha?") m JNull (lit "conv") (lit "turn") (lit "req") (lit "trace")
    (lit "graph") JNull (s_ "u") (s_ "user") JNull JNull (s_ "u") (s_ "user") JNull true.

Definition demo_world : world :=
  mkWorld 0 [] [] (mkDb [] [] [] [] []) false [] (lit "final") [] "graph_start" None None None
    JNull JNull [] None.
