(* ===== verification/ConversationFacts.v ===== *)
(** * Reasoning about the conversation graph

    [respects a] bounds what a computation may add to the world: events, requests to other
    services and checkpoints, each satisfying the predicate [a] gives for it, with the
    terminal flag and the committed context untouched.  Every node of the graph is shown to
    respect a description of it; the theorems follow from those descriptions and the order
    of the nodes. *)

From Stdlib Require Import QArith.
From stdpp Require Import base list strings gmap sets.
From S2P Require Import Prelude PyValue ContextAssembler LlmReplies RetrievalTrace CitationMetrics LearnedReranker.
From S2P Require Import ConversationStages ConversationWorld ConversationStore ConversationGraph.

Local Open Scope string_scope.
Local Open Scope list_scope.
Local Open Scope Z_scope.

(** ** What a computation may add *)

Record allowed := mkAllowed {
  al_event : event -> Prop;
  al_sent : obj -> Prop;
  al_checkpoint : Checkpoint -> Prop
}.

(** [l'] is [l] with elements satisfying [P] added at the end. *)
Definition grows {A} (P : A -> Prop) (l l' : list A) : Prop := exists k, l' = l ++ k /\ Forall P k.

#[export] Instance grows_preorder {A} (P : A -> Prop) : PreOrder (grows P).
Proof.
  split.
  - intros l. exists []. by rewrite app_nil_r.
  - intros l1 l2 l3 (k1 & -> & H1) (k2 & -> & H2). exists (k1 ++ k2).
    split; [by rewrite app_assoc|]. by apply Forall_app_2.
Qed.

Lemma grows_refl {A} (P : A -> Prop) l : grows P l l.
Proof. reflexivity. Qed.

Lemma grows_snoc {A} (P : A -> Prop) l x : P x -> grows P l (l ++ [x]).
Proof. intros Hx. exists [x]. split; [done|]. by apply Forall_singleton. Qed.

Lemma grows_mono {A} (P Q : A -> Prop) l l' : (forall x, P x -> Q x) -> grows P l l' -> grows Q l l'.
Proof. intros HPQ (k & -> & Hk). exists k. split; [done|]. by eapply Forall_impl. Qed.

Lemma grows_none {A} (P : A -> Prop) l l' : (forall x, ~ P x) -> grows P l l' -> l' = l.
Proof.
  intros HP (k & -> & Hk). destruct Hk as [|x k Hx _]; [by rewrite app_nil_r|]. by apply HP in Hx.
Qed.

Definition sent_ok (P : obj -> Prop) (x : obj * outcome py_exn json) : Prop := P x.1.

Record respects (a : allowed) (w w' : world) : Prop := {
  re_events : grows (al_event a) (events w) (events w');
  re_sent : grows (sent_ok (al_sent a)) (sent w) (sent w');
  re_checkpoints : grows (al_checkpoint a) (checkpoints (store w)) (checkpoints (store w'));
  re_terminal : terminal_sent w' = terminal_sent w;
  re_context : final_context w' = final_context w
}.

#[export] Instance respects_preorder a : PreOrder (respects a).
Proof.
  split.
  - intros w. split; try reflexivity.
  - intros w1 w2 w3 [] []. split; try (etrans; eassumption). all: congruence.
Qed.

(** A step that leaves events, requests, checkpoints, the terminal flag and the committed
    context alone. *)
Definition silent (f : world -> world) : Prop :=
  forall w, events (f w) = events w /\ sent (f w) = sent w /\
            checkpoints (store (f w)) = checkpoints (store w) /\
            terminal_sent (f w) = terminal_sent w /\ final_context (f w) = final_context w.

Lemma silent_respects a f w : silent f -> respects a w (f w).
Proof.
  intros Hf. destruct (Hf w) as (H1 & H2 & H3 & H4 & H5).
  split; rewrite ?H1, ?H2, ?H3; try reflexivity; done.
Qed.

Definition allow_le (a b : allowed) : Prop :=
  (forall e, al_event a e -> al_event b e) /\ (forall x, al_sent a x -> al_sent b x) /\
  (forall c, al_checkpoint a c -> al_checkpoint b c).

Lemma respects_mono a b w w' : allow_le a b -> respects a w w' -> respects b w w'.
Proof.
  intros (H1 & H2 & H3) []. split; try done; (eapply grows_mono; [|eassumption]); eauto.
  unfold sent_ok. eauto.
Qed.

Lemma within_mono {A} a b (c : M A) : allow_le a b -> within (respects a) c -> within (respects b) c.
Proof. intros Hab Hc w. eapply respects_mono; [exact Hab|apply Hc]. Qed.

(** ** Values returned *)

Definition returns {A} (c : M A) (Q : A -> Prop) : Prop :=
  forall w a w', c w = (Ok a, w') -> Q a.

Lemma within_bind_returns {A B} (R : world -> world -> Prop) `{!PreOrder R} (c : M A) (k : A -> M B)
    (Q : A -> Prop) :
  within R c -> returns c Q -> (forall a, Q a -> within R (k a)) -> within R (bind c k).
Proof.
  intros Hc Hq Hk w. unfold bind. specialize (Hc w). specialize (Hq w).
  destruct (c w) as [[a|e] w'] eqn:E; cbn in *; [|exact Hc].
  etrans; [exact Hc|]. apply Hk. by eapply Hq.
Qed.

Lemma returns_bind {A B} (c : M A) (k : A -> M B) (R : A -> Prop) (Q : B -> Prop) :
  returns c R -> (forall a, R a -> returns (k a) Q) -> returns (bind c k) Q.
Proof.
  intros Hc Hk w b w'. unfold bind. destruct (c w) as [[a|e] w1] eqn:E; [|done].
  apply Hk. by eapply Hc.
Qed.

Lemma returns_ret {A} (a : A) (Q : A -> Prop) : Q a -> returns (ret a) Q.
Proof. intros Ha w b w' [= <- _]. done. Qed.

Lemma returns_raise {A} e (Q : A -> Prop) : returns (raise e) Q.
Proof. intros w b w'. done. Qed.

Lemma returns_any {A} (c : M A) : returns c (fun _ => True).
Proof. done. Qed.

Lemma returns_lift {A} (o : outcome py_exn A) (Q : A -> Prop) :
  (forall a, o = Ok a -> Q a) -> returns (lift o) Q.
Proof. intros Ho w a w' [= -> _]. by apply Ho. Qed.

Lemma returns_bind_any {A B} (c : M A) (k : A -> M B) (Q : B -> Prop) :
  (forall a, returns (k a) Q) -> returns (bind c k) Q.
Proof. intros Hk. eapply returns_bind; [apply returns_any|]. intros a _. apply Hk. Qed.

Lemma returns_foldM {A B} (f : A -> B -> M A) (Q : A -> Prop) a l :
  Q a -> (forall a x, Q a -> returns (f a x) Q) -> returns (foldM f a l) Q.
Proof.
  intros Ha Hf. revert a Ha. induction l as [|x l IH]; intros a Ha; cbn; [by apply returns_ret|].
  eapply returns_bind; [by apply Hf|]. intros a' Ha'. by apply IH.
Qed.

Create HintDb graph.
#[export] Hint Resolve returns_any returns_raise : graph.

Section Facts.
Context `{PyText} `{Env} (cfg : RAGConfig).

(** ** Primitive operations *)

Lemma within_silent a f : silent f -> within (respects a) (modify f).
Proof. intros Hf w. by apply silent_respects. Qed.

Lemma within_interact {A} a (f : nat -> A) : within (respects a) (interact f).
Proof. intros w. apply (silent_respects a (fun w => w {{ tick ::= S }})). by intros ?. Qed.

Lemma within_service_request a env : al_sent a env -> within (respects a) (service_request env).
Proof. intros He w. split; try reflexivity. by apply grows_snoc. Qed.

Lemma within_store_op {A} a (f : conversation_db -> A * conversation_db) :
  (forall d, grows (al_checkpoint a) (checkpoints d) (checkpoints (f d).2)) ->
  within (respects a) (store_op f).
Proof.
  intros Hf w. unfold store_op. destruct (store_fault _).
  - apply (silent_respects a (fun w => w {{ tick ::= S }})). by intros ?.
  - specialize (Hf (store w)). destruct (f (store w)) as [x d]. split; cbn; try reflexivity. done.
Qed.

(** Store operations on the other collections. *)
Lemma within_store_other {A} a (f : conversation_db -> A * conversation_db) :
  (forall d, checkpoints (f d).2 = checkpoints d) -> within (respects a) (store_op f).
Proof. intros Hf. apply within_store_op. intros d. rewrite Hf. reflexivity. Qed.

(** ** Events *)

Definition build_ok (request : ConversationRequest) (event_type : string) (data : obj) (e : event) : Prop :=
  ev_type e = event_type /\ ev_data e = public_data request event_type data.

Lemma build_event_ok request event_type now data e :
  build_event request event_type now (public_data request event_type data) = Ok e ->
  build_ok request event_type data e.
Proof. unfold build_event. case_bool_decide; [|done]. by intros [= <-]. Qed.

Lemma within_emit a request event_type data :
  terminal_type event_type = false ->
  (forall e, build_ok request event_type data e ->
             (is_admin request = false -> ev_type e <> "trace") -> al_event a e) ->
  within (respects a) (emit request event_type data).
Proof.
  intros Ht He w. destruct (emit_cases request event_type data w)
    as [[o ->]|[(e & o & w1 & -> & Hb & _ & Htr & ->)|[x ->]]]; cbn.
  - reflexivity.
  - apply build_event_ok in Hb. split; cbn; try reflexivity.
    + apply grows_snoc, He; [done|]. destruct Hb as [-> _]. done.
    + by rewrite Ht, orb_false_r.
  - apply (silent_respects a (fun w => w {{ tick ::= S }})). by intros ?.
Qed.

(** ** Requests *)

(** An envelope for [action] with this payload. *)
Definition is_env (action : string) (payload : obj) (env : obj) : Prop :=
  get env "action" = s_ action /\ get env "payload" = JObj payload.

Lemma returns_envelope request ty action target rid payload traffic :
  returns (envelope request ty action target rid payload traffic) (is_env action payload).
Proof.
  unfold envelope. do 3 (apply returns_bind_any; intros ?). apply returns_ret. split; reflexivity.
Qed.

Lemma within_envelope a request ty action target rid payload traffic :
  within (respects a) (envelope request ty action target rid payload traffic).
Proof.
  unfold envelope, uuid4. do 3 (apply within_bind; [typeclasses eauto|apply within_interact|intros ?]).
  apply within_ret. typeclasses eauto.
Qed.

Lemma within_send_request a request target action payload :
  (forall env, is_env action payload env -> al_sent a env) ->
  within (respects a) (send_request request target action payload).
Proof.
  intros Ha. unfold send_request.
  eapply within_bind_returns; [typeclasses eauto|apply within_envelope|apply returns_envelope|].
  intros env He. apply within_bind; [typeclasses eauto|by apply within_service_request, Ha|].
  intros r. apply within_lift. typeclasses eauto.
Qed.

(** The context a request carries to the model that answers or judges. *)
Definition ctx_of (env : obj) : option json :=
  match get env "payload" with
  | JObj p =>
      match get p "input" with
      | JObj i =>
          if is_str (get env "action") "answer_generation" then Some (get i "retrieved_context")
          else if is_str (get env "action") "answer_evaluation" then Some (get i "reference_context")
          else None
      | _ => None
      end
  | _ => None
  end.

Definition is_generation (env : obj) : bool := is_str (get env "action") "answer_generation".

Lemma is_str_s a b : is_str (s_ a) b = bool_decide (a = b).
Proof. cbn. apply bool_decide_ext. split; [by intros E%(inj lit)|by intros ->]. Qed.

(** A request that carries no retrieved context. *)
Definition quiet_env (env : obj) : Prop := ctx_of env = None /\ is_generation env = false.

Lemma quiet_is_env action payload env :
  is_env action payload env -> action <> "answer_generation" -> action <> "answer_evaluation" ->
  quiet_env env.
Proof.
  intros [Ha Hp] H1 H2. unfold quiet_env, ctx_of, is_generation.
  rewrite Ha, Hp, !is_str_s, !bool_decide_false by done.
  split; [|done]. by destruct (get payload "input").
Qed.

(** *** What reaches the client *)

(** The events of a client who is not an administrator, and the fields of the final one. *)
Definition client_types : list string := ["status"; "answer_review"; "token"; "done"; "error"].
Definition client_done_keys : list string :=
  ["final_answer"; "sources"; "review_summary"; "retrieval_summary"].
Definition public_review_keys : list string :=
  ["review_id"; "verdict"; "groundedness_score"; "completeness_score"; "safety_score"; "issues";
   "hallucination_verdict"; "unsupported_claim_count"; "revision_applied"; "model_name"; "created_at"].

(** Only the public part of a review. *)
Definition public_only (review : obj) : Prop := Forall (fun k => k ∈ public_review_keys) review.*1.

Definition client_safe (request : ConversationRequest) (e : event) : Prop :=
  (is_admin request = false ->
     ev_type e ∈ client_types /\
     (ev_type e = "done" -> Forall (fun k => k ∈ client_done_keys) (ev_data e).*1)) /\
  (ev_type e = "answer_review" -> public_only (ev_data e)) /\
  (ev_type e = "done" -> exists r, get (ev_data e) "review_summary" = JObj r /\ public_only r).

Definition plain (request : ConversationRequest) (e : event) : Prop :=
  ev_type e ∈ ["status"; "trace"; "answer_review"] /\ client_safe request e.

Lemma public_review_public review : public_only (public_review review).
Proof.
  unfold public_review, public_only. destruct review; [constructor|].
  apply (bool_decide_unpack _). vm_compute. exact I.
Qed.

Lemma plain_status request data e :
  build_ok request "status" data e -> plain request e.
Proof.
  intros [Ht _]. unfold plain, client_safe. rewrite Ht. split; [set_solver|].
  split; [|split; done]. intros _. split; [set_solver|done].
Qed.

Lemma plain_trace request data e :
  build_ok request "trace" data e -> (is_admin request = false -> ev_type e <> "trace") ->
  plain request e.
Proof.
  intros [Ht _] Hn. unfold plain, client_safe. rewrite Ht in *. split; [set_solver|].
  split; [|split; done]. intros Ha. by specialize (Hn Ha).
Qed.

Lemma plain_review request review e :
  build_ok request "answer_review" (public_review review) e -> plain request e.
Proof.
  intros [Ht Hd]. unfold plain, client_safe. rewrite Ht, Hd. split; [set_solver|].
  split; [intros _; split; [set_solver|done]|]. split; [|done]. intros _. unfold public_data.
  rewrite (bool_decide_false ("answer_review" = "done")), andb_false_r by done.
  apply public_review_public.
Qed.

(** ** Steps of the nodes *)

Class Quiet (a : allowed) : Prop := allows_quiet : forall env, quiet_env env -> al_sent a env.
Class Plain (request : ConversationRequest) (a : allowed) : Prop :=
  allows_plain : forall e, plain request e -> al_event a e.

Section Leaves.
Context (a : allowed) (request : ConversationRequest) `{!Quiet a} `{!Plain request a}.

Lemma within_status data : within (respects a) (emit request "status" data).
Proof using Plain0. apply within_emit; [done|]. intros. by eapply allows_plain, plain_status. Qed.
Lemma within_trace data : within (respects a) (emit request "trace" data).
Proof using Plain0. apply within_emit; [done|]. intros. by eapply allows_plain, plain_trace. Qed.
Lemma within_review review : within (respects a) (emit request "answer_review" (public_review review)).
Proof using Plain0. apply within_emit; [done|]. intros. by eapply allows_plain, plain_review. Qed.

Lemma within_utc : within (respects a) utc_now_iso.
Proof. apply within_interact. Qed.
Lemma within_uuid : within (respects a) uuid4.
Proof. apply within_interact. Qed.

Lemma within_quiet_request target action payload :
  action <> "answer_generation" -> action <> "answer_evaluation" ->
  within (respects a) (send_request request target action payload).
Proof using Quiet0.
  intros. apply within_send_request. intros. eapply allows_quiet, quiet_is_env; eauto.
Qed.

Lemma within_risk_scan t stage : within (respects a) (risk_scan request t stage).
Proof using Quiet0. by apply within_quiet_request. Qed.
Lemma within_memories depth : within (respects a) (get_relevant_memories request depth).
Proof using Quiet0. by apply within_quiet_request. Qed.
Lemma within_rewrite context : within (respects a) (query_rewrite request context).
Proof using Quiet0. by apply within_quiet_request. Qed.

Lemma within_search query plan pass k : within (respects a) (search_chunks cfg request query plan pass k).
Proof using Quiet0.
  unfold search_chunks. apply within_bind; [typeclasses eauto|by apply within_quiet_request|intros r].
  cbn zeta. destruct (negb _); [apply within_raise; typeclasses eauto|].
  apply within_bind; [typeclasses eauto|apply within_lift; typeclasses eauto|intros _].
  by apply within_quiet_request.
Qed.

Lemma within_evidence response : within (respects a) (record_llm_evidence response).
Proof.
  unfold record_llm_evidence. destruct (get response _); try (apply within_ret; typeclasses eauto).
  apply within_silent. by intros ?.
Qed.

Lemma within_failure_evidence e : within (respects a) (record_llm_failure_evidence e).
Proof.
  unfold record_llm_failure_evidence. destruct e as [|? ? [ev|]| |];
    try (apply within_ret; typeclasses eauto). apply within_silent. by intros ?.
Qed.

Lemma within_trace_stage stage chunks q qs n : within (respects a) (trace_stage stage chunks q qs n).
Proof.
  unfold trace_stage. apply within_bind; [typeclasses eauto|apply within_gets; typeclasses eauto|].
  intros [t|]; [|apply within_ret; typeclasses eauto].
  apply within_bind; [typeclasses eauto|apply within_lift; typeclasses eauto|intros t'].
  apply within_silent. by intros ?.
Qed.

Lemma within_trace_decision stage d r detail : within (respects a) (trace_decision stage d r detail).
Proof. apply within_silent. intros w. by destruct (retrieval_trace w). Qed.

Lemma within_save_checkpoint st node stage status extra :
  (forall now, al_checkpoint a (owned_checkpoint
     (mkCheckpoint (conversation_id request) (turn_id request) (request_id request)
       (trace_id request) (graph_run_id request) (correlation_id request) (owner_id request)
       (owner_type request) node stage status st now extra []))) ->
  within (respects a) (save_checkpoint_ request st node stage status extra).
Proof.
  intros Hc. unfold save_checkpoint_. apply within_bind; [typeclasses eauto|apply within_interact|].
  intros now. apply within_store_op. intros d. apply grows_snoc, Hc.
Qed.

Lemma within_load_context cid n : within (respects a) (p_load_context cid n).
Proof. by apply within_store_other. Qed.

Lemma within_publish action payload : within (respects a) (publish_domain_event request action payload).
Proof.
  unfold publish_domain_event. apply within_bind; [typeclasses eauto|apply within_envelope|intros env].
  apply within_silent. by intros ?.
Qed.

Lemma within_normalize payload : within (respects a) (normalize_chunks cfg payload).
Proof.
  unfold normalize_chunks. do 2 (apply within_bind; [typeclasses eauto|apply within_lift; typeclasses eauto|intros ?]).
  apply within_foldM; [typeclasses eauto|]. intros l item _. unfold normalize_step.
  apply within_bind; [typeclasses eauto|apply within_interact|intros now].
  apply within_bind; [typeclasses eauto|apply within_lift; typeclasses eauto|intros c].
  apply within_ret. typeclasses eauto.
Qed.

Lemma within_build_review payload passages :
  within (respects a) (build_review payload request passages).
Proof.
  unfold build_review. repeat (apply within_bind;
    [typeclasses eauto|first [apply within_lift; typeclasses eauto|apply within_interact]|intros ?]).
  apply within_ret. typeclasses eauto.
Qed.
End Leaves.
End Facts.

#[export] Hint Resolve within_interact within_status within_trace within_review within_utc
  within_uuid within_risk_scan within_memories within_rewrite within_search within_evidence
  within_failure_evidence within_trace_stage within_trace_decision within_load_context
  within_publish within_normalize within_build_review : effects.
