(* ===== verification/ConversationNodes.v ===== *)
(** * What each node of the conversation graph does

    For every node: the events, requests and checkpoints it may add to the world, and how
    the state it returns relates to the one it was given.  The nodes that release output,
    [output_guardrails] and [stream_done], and the commitment of the context before
    generation are described exactly. *)

From Stdlib Require Import QArith.
From stdpp Require Import base list strings gmap sets.
From S2P Require Import Prelude PyValue ContextAssembler LlmReplies RetrievalTrace CitationMetrics LearnedReranker.
From S2P Require Import ConversationStages ConversationWorld ConversationStore ConversationGraph ConversationFacts.

Local Open Scope string_scope.
Local Open Scope list_scope.
Local Open Scope Z_scope.

(** ** Specifications: effects and returned value together *)

Definition spec {A} (R : world -> world -> Prop) (c : M A) (Q : A -> Prop) : Prop :=
  within R c /\ returns c Q.

Section Spec.
Context (R : world -> world -> Prop) `{!PreOrder R}.

Lemma spec_bind {A B} (c : M A) (k : A -> M B) (P : A -> Prop) (Q : B -> Prop) :
  spec R c P -> (forall a, P a -> spec R (k a) Q) -> spec R (bind c k) Q.
Proof.
  intros [Hc Hp] Hk. split.
  - eapply within_bind_returns; [done|exact Hc|exact Hp|]. intros a Ha. by apply Hk.
  - eapply returns_bind; [exact Hp|]. intros a Ha. by apply Hk.
Qed.

Lemma spec_then {A B} (c : M A) (k : A -> M B) (Q : B -> Prop) :
  within R c -> (forall a, spec R (k a) Q) -> spec R (bind c k) Q.
Proof. intros Hc Hk. apply (spec_bind c k (fun _ => True)); [done|]. eauto. Qed.

Lemma spec_lift {A B} (o : outcome py_exn A) (k : A -> M B) (Q : B -> Prop) :
  (forall a, o = Ok a -> spec R (k a) Q) -> spec R (bind (lift o) k) Q.
Proof.
  intros Hk. apply (spec_bind (lift o) k (fun a => o = Ok a)); [|done].
  split; [by apply within_lift|]. by apply returns_lift.
Qed.

Lemma spec_ret {A} (a : A) (Q : A -> Prop) : Q a -> spec R (ret a) Q.
Proof. intros Ha. split; [by apply within_ret|by apply returns_ret]. Qed.

Lemma spec_raise {A} e (Q : A -> Prop) : spec R (raise e) Q.
Proof. split; [by apply within_raise|apply returns_raise]. Qed.

Lemma spec_conseq {A} (c : M A) (P Q : A -> Prop) :
  spec R c P -> (forall a, P a -> Q a) -> spec R c Q.
Proof. intros [H1 H2] HPQ. split; [done|]. intros w a w' E. eapply HPQ, H2, E. Qed.

Lemma spec_catch {A} (c : M A) h (Q : A -> Prop) :
  spec R c Q -> (forall e k, h e = Some k -> spec R k Q) -> spec R (catch c h) Q.
Proof.
  intros [H1 H2] Hh. split.
  { apply within_catch; [done..|]. intros e k Hk. by apply (Hh e k). }
  intros w a w'. unfold catch. destruct (c w) as [[x|e] w1] eqn:E; [intros [= <- <-]; by eapply H2|].
  destruct (h e) as [k|] eqn:Ek; [|done]. apply Hh in Ek as [_ Hk]. apply Hk.
Qed.

Lemma spec_foldM {A B} (f : A -> B -> M A) (Q : A -> Prop) a l :
  Q a -> (forall a x, Q a -> spec R (f a x) Q) -> spec R (foldM f a l) Q.
Proof.
  intros Ha Hf. revert a Ha. induction l as [|x l IH]; intros a Ha; cbn; [by apply spec_ret|].
  eapply spec_bind; [by apply Hf|]. done.
Qed.
End Spec.

(** Walk through a node: steps whose effects are known are taken, values are kept. *)
Ltac spec_step :=
  first
    [ apply spec_lift; [typeclasses eauto|intros ? ?]
    | apply spec_then; [typeclasses eauto|solve [eauto with effects typeclass_instances]|intros ?]
    | apply spec_raise; typeclasses eauto
    | apply spec_ret; [typeclasses eauto|]
    | match goal with
      | |- spec _ (if ?b then _ else _) _ => destruct b eqn:?
      | |- spec _ (let '(_, _) := ?x in _) _ => destruct x as [? ?] eqn:?
      | |- spec _ (let _ := _ in _) _ => cbn zeta
      | |- spec _ ((fun _ => _) _) _ => cbn beta
      end ].
Ltac spec_walk := repeat spec_step.

(** ** Eligibility *)

(** A chunk the policy allows: retrieval allowed, not removed. *)
Definition eligible (c : obj) : Prop :=
  jtrue (get c "retrieval_allowed") = true /\ is_str (get c "review_status") "removed" = false.

Lemma eligible_ext c c' :
  eligible c -> obj_get c' "retrieval_allowed" = obj_get c "retrieval_allowed" ->
  obj_get c' "review_status" = obj_get c "review_status" -> eligible c'.
Proof. unfold eligible, get, get_or. by intros [??] -> ->. Qed.

Lemma normalize_item_eligible `{PyText} `{Env} cfg now n item c :
  normalize_chunk_item cfg now n item = Ok (Some c) -> eligible c.
Proof.
  unfold normalize_chunk_item. destruct (obj_or_empty _) as [payload|]; cbn; [|done].
  destruct (obj_or_empty _) as [metadata|]; cbn; [|done].
  destruct (negb _); [done|]. destruct (allowed_flag item payload metadata) eqn:Ea; cbn; [|done].
  destruct (is_str (review_status_of item payload metadata) "removed") eqn:Er; [done|].
  destruct (if jtrue _ then _ else _) as [preview|]; cbn; [|done].
  intros [= <-]. split; [|exact Er]. cbn. exact Ea.
Qed.

Lemma merge_into_forall (P : obj -> Prop) c l l' :
  merge_into c l = Ok l' -> P c -> Forall P l -> Forall P l'.
Proof.
  intros Hm Hc Hl. revert l' Hm. induction Hl as [|x l Hx Hl IH]; intros l'; cbn.
  { intros [= <-]. by constructor. }
  destruct (key_eq _ _).
  - destruct (score_of c) as [new|]; cbn; [|done]. destruct (score_of x) as [old|]; cbn; [|done].
    destruct (_ <?q _); intros [= <-]; by constructor.
  - destruct (merge_into c l) as [r|] eqn:E; cbn; [|done]. intros [= <-]. constructor; eauto.
Qed.

Lemma merge_all_forall (P : obj -> Prop) l : forall acc l',
  merge_all acc l = Ok l' -> Forall P l -> Forall P acc -> Forall P l'.
Proof.
  induction l as [|c l IH]; intros acc l'; cbn; [by intros [= <-]|].
  destruct (scalar _); [|done]. destruct (merge_into c acc) as [acc'|] eqn:E; cbn; [|done].
  intros Hm [Hc Hl]%Forall_cons Ha. eapply IH; eauto. by eapply merge_into_forall.
Qed.

Lemma with_scores_snd l r : with_scores l = Ok r -> r.*2 = l.
Proof.
  revert r. induction l as [|c l IH]; intros r; cbn; [by intros [= <-]|].
  destruct (score_of c); cbn; [|done]. destruct (with_scores l); cbn; [|done].
  intros [= <-]. cbn. by rewrite IH.
Qed.

Lemma sort_by_score_perm l l' : sort_by_score l = Ok l' -> l' ≡ₚ l.
Proof.
  unfold sort_by_score. destruct l as [|a [|b l]]; [by intros [= <-]..|].
  destruct (with_scores (a :: b :: l)) as [r|] eqn:E; [|done]. intros [= <-].
  apply with_scores_snd in E. rewrite <- E.
  change (map snd ?x) with (fmap snd x). by rewrite py_sorted_perm.
Qed.

Lemma Forall_py_prefix {A} (P : A -> Prop) l n : Forall P l -> Forall P (py_prefix l n).
Proof. intros Hl. unfold py_prefix, py_slice. by apply Forall_take, Forall_drop. Qed.

Lemma rerank_eligible `{PyText} enabled limit reply query l res :
  rerank enabled limit reply query l = Ok res -> Forall eligible l ->
  Forall eligible (rr_candidates res).
Proof.
  intros Hr Hl. apply rerank_cases in Hr. cbn zeta in Hr.
  assert (Forall eligible (py_prefix l limit)) as Hb by by apply Forall_py_prefix.
  destruct Hr as [[_ ->]|(_ & _ & _ & ps & scores & _ & _ & _ & ->)]; [done|].
  rewrite rank_candidates_perm. apply Forall_forall. intros c.
  rewrite list_elem_of_In, in_map_iff. intros ([x q] & <- & Hin%list_elem_of_In).
  apply elem_of_zip_l in Hin. rewrite Forall_forall in Hb. specialize (Hb x Hin). cbn.
  eapply eligible_ext; [exact Hb|..]; unfold annotate; by rewrite !obj_get_set_ne.
Qed.

Section Nodes.
Context `{PyText} `{Env} (cfg : RAGConfig) (request : ConversationRequest).

Lemma assemble_eligible st mode chunks :
  assemble_generation_context cfg st request mode = Ok chunks ->
  Forall eligible (retrieved_chunks st) -> Forall eligible chunks.
Proof.
  unfold assemble_generation_context. destruct (build_prompt _ _ _) as [p|]; cbn; [|done].
  intros [= <-] He. apply assemble_context_forall; [|exact He].
  intros c c' Hc Hk. by eapply eligible_ext; [exact Hc|apply Hk..].
Qed.

(** ** What a node adds *)

(** A request that carries these chunks as its context. *)
Definition carries (chunks : list obj) (env : obj) : Prop :=
  ctx_of env = Some (JArr (map JObj (chunk_passages chunks))).

(** The nodes that send the context to a model, and those that ask for an answer. *)
Definition sends_context (n : NodeName) : bool :=
  bool_decide (n ∈ [generate_answer; generate_draft_answer; evaluate_answer_light;
                    evaluate_answer_deep; revise_once_if_needed]).
Definition asks_answer (n : NodeName) : bool :=
  bool_decide (n ∈ [generate_answer; generate_draft_answer; revise_once_if_needed]).

Definition node_allowed (n : NodeName) (st : ConversationState) : allowed :=
  mkAllowed (plain request)
    (fun env => quiet_env env \/
       sends_context n = true /\ carries (retrieved_chunks st) env /\
       (is_generation env = true -> asks_answer n = true))
    (fun c => Forall eligible (retrieved_chunks st) -> Forall eligible (retrieved_chunks (cp_state c))).

#[local] Instance node_quiet n st : Quiet (node_allowed n st).
Proof. intros env He. by left. Qed.
#[local] Instance node_plain n st : Plain request (node_allowed n st).
Proof. intros e He. exact He. Qed.

(** The nodes that replace the retrieved chunks. *)
Definition retrieves (n : NodeName) : bool :=
  bool_decide (n ∈ [retrieve_chunks_once; retrieve_pass_one; retrieve_pass_two_if_needed;
                    merge_candidates; rerank_candidates]).

Record step_ok (n : NodeName) (st st' : ConversationState) : Prop := {
  so_mode : st_mode st' = st_mode st \/ st_mode st' = mode request;
  so_eligible : Forall eligible (retrieved_chunks st) -> Forall eligible (retrieved_chunks st');
  so_chunks : retrieves n = false -> retrieved_chunks st' = retrieved_chunks st
}.

Definition node_spec (n : NodeName) : Prop := forall st,
  spec (respects (node_allowed n st)) (node_map cfg request n st) (fun r => step_ok n st r.1).

Lemma spec_save_checkpoint {B} n st snapshot node stage status extra (k : unit -> M B) Q :
  (Forall eligible (retrieved_chunks st) -> Forall eligible (retrieved_chunks snapshot)) ->
  (forall u, spec (respects (node_allowed n st)) (k u) Q) ->
  spec (respects (node_allowed n st))
    (bind (save_checkpoint_ request snapshot node stage status extra) k) Q.
Proof.
  intros He Hk. apply spec_then; [typeclasses eauto| |done].
  apply within_save_checkpoint. by intros now.
Qed.

Lemma spec_normalize {B} n st payload (k : list obj -> M B) Q :
  (forall l, Forall eligible l -> spec (respects (node_allowed n st)) (k l) Q) ->
  spec (respects (node_allowed n st)) (bind (normalize_chunks cfg payload) k) Q.
Proof.
  intros Hk. eapply spec_bind; [typeclasses eauto| |exact Hk]. unfold normalize_chunks. spec_walk.
  apply spec_foldM; [typeclasses eauto|constructor|]. intros l item Hl. unfold normalize_step.
  spec_walk. destruct a2 as [c|]; [|done]. apply Forall_app_2; [done|].
  eapply Forall_singleton, normalize_item_eligible. eassumption.
Qed.

(** The chunks stay as they are, the mode too. *)
Lemma step_same n st st' :
  st_mode st' = st_mode st -> retrieved_chunks st' = retrieved_chunks st -> step_ok n st st'.
Proof. intros Hm Hc. split; [by left|by rewrite Hc|done]. Qed.

(** A node that retrieves: the new chunks are eligible. *)
Lemma step_retrieved n st st' :
  st_mode st' = st_mode st -> retrieves n = true ->
  (Forall eligible (retrieved_chunks st) -> Forall eligible (retrieved_chunks st')) -> step_ok n st st'.
Proof. intros Hm Hn Hc. split; [by left|done|by rewrite Hn]. Qed.

Hint Extern 4 (within _ (modify _)) => apply within_silent; intros ?; done : effects.

Ltac node_walk :=
  repeat first
    [ apply spec_normalize; intros ? ?
    | apply spec_save_checkpoint; [try done|intros ?]
    | spec_step ].

Lemma input_guardrails_ok : node_spec input_guardrails.
Proof.
  intros st. cbn [node_map]. unfold node_input_guardrails. node_walk.
  split; [by right|done..].
Qed.

Lemma load_short_term_context_ok : node_spec load_short_term_context.
Proof.
  intros st. cbn [node_map]. unfold node_load_short_term_context. node_walk. by apply step_same.
Qed.

Lemma load_memory_ok n depth message st :
  spec (respects (node_allowed n st)) (load_memory cfg request depth message st)
    (fun r => step_ok n st r.1).
Proof. unfold load_memory. node_walk. by apply step_same. Qed.

Lemma rewrite_ok : node_spec rewrite_or_decompose_query.
Proof.
  intros st. cbn [node_map]. unfold node_rewrite_or_decompose_query. node_walk. by apply step_same.
Qed.

Lemma retrieve_chunks_once_ok : node_spec retrieve_chunks_once.
Proof.
  intros st. cbn [node_map]. unfold node_retrieve_chunks_once. node_walk. by apply step_retrieved.
Qed.

Lemma within_spawn a plan q :
  Quiet a -> within (respects a) (spawn_search cfg request plan q).
Proof. intros Ha. apply within_attempt; eauto with effects typeclass_instances. Qed.

Lemma within_spawn_all a plan qs :
  Quiet a -> within (respects a) (spawn_all cfg request plan qs).
Proof.
  intros Ha. induction qs as [|q qs IH]; cbn; [eauto with effects typeclass_instances|].
  apply within_bind; [typeclasses eauto|by apply within_spawn|intros t].
  apply within_bind; [typeclasses eauto|exact IH|intros ts]. eauto with effects typeclass_instances.
Qed.

Lemma within_await_window a fuel : Quiet a -> forall plan pending rest responses,
  within (respects a) (await_window cfg request fuel plan pending rest responses).
Proof.
  intros Ha. induction fuel as [|fuel IH]; intros plan pending rest responses;
    (destruct pending as [|t pending]; cbn [await_window]; [by apply within_ret; typeclasses eauto|]).
  - apply within_ret. typeclasses eauto.
  - apply within_bind; [typeclasses eauto|apply within_lift; typeclasses eauto|intros r].
    destruct rest as [|q rest]; [apply IH|].
    apply within_bind; [typeclasses eauto|by apply within_spawn|]. intros t'. apply IH.
Qed.

Lemma within_run_searches a plan qs :
  Quiet a -> within (respects a) (run_searches cfg request plan qs).
Proof.
  intros Ha. unfold run_searches. apply within_bind; [typeclasses eauto|by apply within_spawn_all|].
  intros pending. by apply within_await_window.
Qed.
Hint Resolve within_run_searches : effects.

Lemma retrieve_pass_one_ok : node_spec retrieve_pass_one.
Proof.
  intros st. cbn [node_map]. unfold node_retrieve_pass_one. node_walk.
  eapply (spec_bind _ _ _ (Forall eligible)); [|intros chunks Hc; node_walk; by apply step_retrieved].
  apply spec_foldM; [typeclasses eauto|constructor|]. intros l [i [q r]] Hl.
  unfold collect_response. node_walk. by apply Forall_app_2.
Qed.

Lemma retrieve_pass_two_ok : node_spec retrieve_pass_two_if_needed.
Proof.
  intros st. cbn [node_map]. unfold node_retrieve_pass_two_if_needed. node_walk.
  - by apply step_same.
  - intros Hs. by apply Forall_app_2.
  - apply step_retrieved; [done..|]. intros Hs. by apply Forall_app_2.
Qed.

Lemma merge_candidates_ok : node_spec merge_candidates.
Proof.
  intros st. cbn [node_map]. unfold node_merge_candidates. node_walk.
  apply step_retrieved; [done..|]. intros Hs. cbn. apply Forall_py_prefix.
  rewrite sort_by_score_perm by eassumption. by eapply merge_all_forall.
Qed.

Lemma rerank_candidates_ok : node_spec rerank_candidates.
Proof.
  intros st. cbn [node_map]. unfold node_rerank_candidates.
  apply spec_then; [typeclasses eauto|apply within_interact|intros reply]. node_walk.
  apply spec_then; [typeclasses eauto| |intros u].
  { destruct (retrieved_chunks st); [|destruct (_ && _)];
      try (apply within_silent; intros ?); eauto with effects typeclass_instances. }
  node_walk.
  - intros Hs. by eapply rerank_eligible.
  - apply step_retrieved; [done..|]. intros Hs. by eapply rerank_eligible.
Qed.

(** *** Generation and evaluation *)

Lemma carries_generation st mode issues prompt rid env :
  build_prompt st mode issues = Ok prompt ->
  is_env "answer_generation" (llm_answer_generation_payload request prompt rid) env ->
  carries (retrieved_chunks st) env.
Proof.
  intros Hp [Ha He]. unfold carries, ctx_of. rewrite He, Ha, is_str_s. cbn.
  revert Hp. unfold build_prompt. destruct (contents_of _ _); cbn; [|done].
  destruct (as_objs _); cbn; [|done]. by intros [= <-].
Qed.

Lemma carries_evaluation answer chunks mode env :
  is_env "answer_evaluation" (llm_answer_evaluation_payload request answer chunks mode) env ->
  carries chunks env.
Proof. intros [Ha He]. unfold carries, ctx_of. rewrite He, Ha, !is_str_s. done. Qed.

Lemma within_stream_events a acc stream : within (respects a) (foldM on_stream_event acc stream).
Proof.
  apply within_foldM; [typeclasses eauto|]. intros [chunks i] m _. unfold on_stream_event, buffer_token.
  apply within_bind; [typeclasses eauto| |intros ?; within_walk].
  destruct (get_or _ _ _) as [| | | |[|x s]| |]; within_walk. all: by apply within_silent.
Qed.

Lemma within_generate a prompt rid :
  (forall env, is_env "answer_generation" (llm_answer_generation_payload request prompt rid) env ->
               al_sent a env) ->
  within (respects a) (generate_answer_rpc request prompt rid).
Proof.
  intros Ha. unfold generate_answer_rpc.
  eapply within_bind_returns; [typeclasses eauto|apply within_envelope|apply returns_envelope|].
  intros env He. apply within_bind; [typeclasses eauto| |intros [? ?]; within_walk].
  unfold request_stream. apply within_bind; [typeclasses eauto|apply within_gets; typeclasses eauto|].
  intros n. destruct (service_stream n env) as [stream reply].
  apply within_bind; [typeclasses eauto| |intros []].
  { intros w. split; try reflexivity. by apply grows_snoc, Ha. }
  apply within_bind; [typeclasses eauto|apply within_stream_events|intros ?; within_walk].
Qed.

Lemma generate_common_spec n st source mode node issues rev :
  sends_context n = true -> asks_answer n = true ->
  spec (respects (node_allowed n st)) (generate_common cfg request st source mode node issues rev)
    (fun r => step_ok n st r.1 /\ answer_review r.1 = answer_review st).
Proof.
  intros Hn Hask. unfold generate_common. node_walk. unfold start_candidate. node_walk.
  apply spec_then; [typeclasses eauto| |intros response].
  { apply within_generate. intros env He. right. split; [done|]. split; [|done]. by eapply carries_generation. }
  node_walk. split; [|done]. by apply step_same.
Qed.

Lemma generate_ok n st source mode node issues rev :
  sends_context n = true -> asks_answer n = true ->
  spec (respects (node_allowed n st)) (generate_common cfg request st source mode node issues rev)
    (fun r => step_ok n st r.1).
Proof. intros Hn Hask. eapply spec_conseq; [by apply generate_common_spec|]. by intros r [? _]. Qed.

Lemma evaluate_ok n mode st :
  sends_context n = true ->
  spec (respects (node_allowed n st)) (evaluate_common cfg request mode st) (fun r => step_ok n st r.1).
Proof.
  intros Hn. unfold evaluate_common, evaluate_answer. apply spec_then; [typeclasses eauto| |intros response].
  { apply within_send_request. intros env He. right. split; [done|]. split; [by eapply carries_evaluation|].
    destruct He as [He _]. unfold is_generation. by rewrite He, is_str_s. }
  node_walk. by apply step_same.
Qed.

Lemma revise_ok : node_spec revise_once_if_needed.
Proof.
  intros st. cbn [node_map]. unfold node_revise_once_if_needed. cbn zeta.
  destruct (_ || _); [node_walk; by apply step_same|].
  eapply spec_bind; [typeclasses eauto|by apply (generate_ok revise_once_if_needed)|].
  intros [st' m] [H1 H2 H3]. node_walk. by split.
Qed.

(** *** Persistence *)

Lemma do_persist_ok st summary :
  spec (respects (node_allowed persist_turn st)) (do_persist_turn request st summary)
    (fun r => step_ok persist_turn st r.1).
Proof.
  unfold do_persist_turn, publish_answer_generated, publish_answer_evaluated.
  unfold p_save_thread, p_save_turn, p_save_summary, p_save_answer_review.
  repeat first [apply spec_then; [typeclasses eauto|apply within_store_other; done|intros ?]
               |apply spec_then; [typeclasses eauto|apply within_utc|intros ?]].
  apply spec_then; [typeclasses eauto| |intros ?].
  { destruct (answer_review st); [eauto with effects typeclass_instances|by apply within_store_other]. }
  node_walk. by apply step_same.
Qed.

Lemma persist_ok : node_spec persist_turn.
Proof.
  intros st. cbn [node_map]. unfold node_persist_turn. cbn zeta.
  apply spec_catch; [typeclasses eauto|apply do_persist_ok|].
  intros [| | |] k; intros [= <-]; node_walk; by apply step_same.
Qed.

(** The nodes that release nothing to the client but status, trace and review events. *)
Definition releases (n : NodeName) : bool := bool_decide (n ∈ [output_guardrails; stream_done]).

Lemma quiet_node_ok n : releases n = false -> node_spec n.
Proof.
  destruct n; intros Hn; try done.
  - apply input_guardrails_ok.
  - apply load_short_term_context_ok.
  - intros st. apply load_memory_ok.
  - apply retrieve_chunks_once_ok.
  - intros st. by apply generate_ok.
  - intros st. by apply evaluate_ok.
  - intros st. apply load_memory_ok.
  - apply rewrite_ok.
  - apply retrieve_pass_one_ok.
  - apply retrieve_pass_two_ok.
  - apply merge_candidates_ok.
  - apply rerank_candidates_ok.
  - intros st. by apply generate_ok.
  - intros st. by apply evaluate_ok.
  - apply revise_ok.
  - apply persist_ok.
Qed.

(** ** The release of an answer *)

(** The fields [respects] watches, events apart, stay as they are. *)
Record unmoved (w w' : world) : Prop := {
  un_checkpoints : checkpoints (store w') = checkpoints (store w);
  un_terminal : terminal_sent w' = terminal_sent w;
  un_context : final_context w' = final_context w
}.

#[local] Instance unmoved_preorder : PreOrder unmoved.
Proof. split; [by intros ?|]. intros ? ? ? [] []. split; congruence. Qed.

(** A request and its reply are one entry of [sent]. *)
Lemma send_request_run target action payload w :
  exists env reply w',
    send_request request target action payload w =
      (match reply with Ok j => extract_reply_payload json_loads j | Raise e => Raise e end, w') /\
    is_env action payload env /\ sent w' = sent w ++ [(env, reply)] /\
    events w' = events w /\ tokens w' = tokens w /\ unmoved w w' /\
    exists n, reply = service_reply n env.
Proof.
  unfold send_request, envelope, uuid4, bind, interact, service_request, ret, lift. cbn.
  match goal with
  | |- context [service_reply ?n ?env] => exists env, (service_reply n env);
      destruct (service_reply n env) eqn:E; eexists; (split; [reflexivity|]);
      (split; [done|]); split_and!; try done; by exists n
  end.
Qed.

Definition token_event (e : event) (t : text) : Prop :=
  ev_type e = "token" /\ get (ev_data e) "text_delta" = JStr t.

Lemma emit_tokens_run source toks : forall w o w',
  iterM (fun t => emit request "token" (token_data source t)) toks w = (o, w') ->
  exists ks said, events w' = events w ++ ks /\ said `prefix_of` toks /\
    Forall2 token_event ks said.*1 /\ sent w' = sent w /\ unmoved w w'.
Proof.
  induction toks as [|t toks IH]; intros w o w'; cbn.
  { intros [= <- <-]. exists [], []. split; [by rewrite app_nil_r|]. done. }
  unfold bind. destruct (emit_appends request "token" (token_data source t) w)
    as (e & o1 & Hb & E); [set_solver|done|by rewrite andb_false_r|]. rewrite E. clear E.
  apply build_event_ok in Hb as [Ht Hd].
  assert (token_event e t.1) as Hte.
  { split; [done|]. rewrite Hd. unfold public_data.
    by rewrite (bool_decide_false ("token" = "done")), andb_false_r by done. }
  destruct o1 as [[]|x].
  - intros Hi. apply IH in Hi as (ks & said & He & Hs & Hf & Hsent & [H1 H2 H3]). cbn in *.
    exists (e :: ks), (t :: said). split; [by rewrite He, <- app_assoc|].
    split; [by apply prefix_cons|]. split; [by constructor|]. split; [done|].
    split; [done| |done]. by rewrite H2, orb_false_r.
  - intros [= <- <-]. exists [e], [t]. cbn. split; [done|]. split; [by apply prefix_cons, prefix_nil|].
    split; [by constructor|]. split; [done|]. split; cbn; [done| |done]. by rewrite orb_false_r.
Qed.

(** The risk level a typed reply of the LLM service reports for a scan; [None] for any other
    reply. *)
Definition reported_level (reply : json) : option text :=
  match reply with
  | JObj m =>
      let payload := extract_message_payload reply in
      if is_str (get m "message_type") "reply" && is_str (get m "source_service") "llm_agent"
         && is_str (get payload "request_type") "content_risk_scan"
      then match get payload "parsed_output" with
           | JObj parsed => Some (lower (py_str (get_or parsed "risk_level" (JStr []))))
           | _ => None
           end
      else None
  | _ => None
  end.

(** A reply that reports a level is a success whose level is not a blocking one.  A reply
    that reports none (one that is not a dictionary, say) passes when it decodes to a payload
    without a true [blocked]. *)
Definition scan_passes (reply : json) : Prop :=
  match reported_level reply with
  | Some level =>
      (forall m, reply = JObj m -> jtrue (get_or m "success" (JBool true)) = true) /\
      level ∉ map lit ["high"; "critical"; "blocked"]
  | None =>
      exists resp, extract_reply_payload json_loads reply = Ok resp /\ jtrue (get resp "blocked") = false
  end.

Lemma passes_reply j resp :
  extract_reply_payload json_loads j = Ok resp -> jtrue (get resp "blocked") = false -> scan_passes j.
Proof.
  intros He Hb. unfold scan_passes. destruct (reported_level j) as [level|] eqn:Hl; [|by eauto].
  unfold reported_level in Hl. destruct j as [| | | | | |m]; try done.
  destruct (is_str (get m "message_type") "reply") eqn:Hm; [|done].
  destruct (is_str (get m "source_service") "llm_agent") eqn:Hs; [|done].
  destruct (is_str (get (extract_message_payload (JObj m)) "request_type") "content_risk_scan") eqn:Hr; [|done].
  unfold extract_reply_payload in He. rewrite Hm, Hs in He. cbn [andb] in Hl. cbn zeta in He.
  set (p := extract_message_payload (JObj m)) in *. clearbody p.
  destruct (jtrue (get_or m "success" (JBool true))) eqn:Hok; [|by destruct (get m "error")].
  split; [by intros ? [= <-]|]. assert (resp = normalize_llm_agent_response json_loads p) as -> by congruence. revert Hb Hl. unfold normalize_llm_agent_response.
  destruct (get p "parsed_output") as [| | | | | |parsed]; try done.
  destruct (get p "request_type") as [| | | |t| |]; try done.
  cbn in Hr. apply bool_decide_eq_true in Hr as ->. change (JStr (lit "content_risk_scan")) with (s_ "content_risk_scan").
  cbn zeta. rewrite !is_str_s. do 3 rewrite (bool_decide_false (_ = _)) by done.
  rewrite (bool_decide_true (_ = _)) by done.
  intros Hb [= <-]. revert Hb. unfold get at 1, get_or at 1.
  rewrite obj_get_set_ne by done. rewrite obj_get_set_eq. cbn [default jtrue from_option].
  intros Hb Hin. apply not_true_iff_false in Hb. apply Hb. clear Hb. apply existsb_exists.
  apply list_elem_of_In, in_map_iff in Hin as (l & Hl & Hin). exists l. split; [done|].
  apply bool_decide_eq_true. by rewrite Hl.
Qed.

(** The output scan of [answer] was requested, came back, and passes it. *)
Definition approves (x : obj * outcome py_exn json) (answer : text) : Prop :=
  is_env "content_risk_scan" (llm_risk_scan_payload request (JStr answer) "output") x.1 /\
  exists reply, x.2 = Ok reply /\ scan_passes reply.

(** The events are tokens that spell a prefix of the answer, up to trailing space. *)
Definition spells (ks : list event) (answer : text) : Prop :=
  exists said whole, Forall2 token_event ks said /\ concat said `prefix_of` whole /\
    rstrip whole = rstrip answer.

Lemma approved_spells buffered answer said ks :
  said `prefix_of` approved_tokens buffered answer -> Forall2 token_event ks said.*1 ->
  spells ks answer.
Proof.
  intros Hp Hf. exists said.*1, (concat (approved_tokens buffered answer).*1).
  split; [done|]. split.
  - destruct Hp as [rest ->]. rewrite fmap_app, concat_app. by apply prefix_app_r.
  - unfold approved_tokens. case_bool_decide; [done|].
    destruct answer as [|x answer]; cbn; by rewrite ?app_nil_r.
Qed.

Lemma output_guardrails_run st w o w' :
  node_output_guardrails cfg request st w = (o, w') ->
  exists x ks, sent w' = sent w ++ [x] /\ quiet_env x.1 /\ events w' = events w ++ ks /\
    unmoved w w' /\
    (ks = [] \/ exists answer, approves x answer /\ spells ks answer) /\
    (forall r, o = Ok r -> step_ok output_guardrails st r.1).
Proof.
  unfold node_output_guardrails, risk_scan. cbn zeta. unfold bind at 1.
  destruct (send_request_run "llm_agent" "content_risk_scan"
    (llm_risk_scan_payload request (get_or (draft_answer st) "text" (JStr [])) "output") w)
    as (env & reply & w1 & -> & He & Hs & Hev & Htok & Hun & _).
  assert (quiet_env env) as Hq by by eapply quiet_is_env.
  destruct reply as [j|e]; [|intros [= <- <-]; exists (env, Raise e), []; rewrite app_nil_r; split_and!; [done..|by left|done]].
  destruct (extract_reply_payload json_loads j) as [resp|e] eqn:Er;
    [|intros [= <- <-]; exists (env, Ok j), []; rewrite app_nil_r; split_and!; [done..|by left|done]].
  unfold bind at 1.
  assert (exists w2, record_llm_evidence resp w1 = (Ok tt, w2) /\ sent w2 = sent w1 /\
    events w2 = events w1 /\ tokens w2 = tokens w1 /\ unmoved w1 w2) as (w2 & -> & Hs2 & He2 & Ht2 & Hu2).
  { unfold record_llm_evidence. destruct (get resp _); eexists; (split; [reflexivity|]); by split_and!. }
  unfold bind at 1, modify at 1. set (w3 := w2 {{ guardrail_blocked := _ }}).
  assert (sent w3 = sent w ++ [(env, Ok j)] /\ events w3 = events w /\ tokens w3 = tokens w /\
    unmoved w w3) as (Hs3 & He3 & Ht3 & Hu3).
  { subst w3. cbn. split_and!; [congruence..|]. etrans; [exact Hun|]. etrans; [exact Hu2|]. by split. }
  clearbody w3. clear w1 w2 Hs Hev Htok Hun Hs2 He2 Ht2 Hu2. unfold bind at 1.
  destruct (jtrue (get resp "blocked")) eqn:Eb.
  { intros [= <- <-]. exists (env, Ok j), []. cbn. rewrite He3, app_nil_r. split_and!; try done.
    - etrans; [exact Hu3|]. by split.
    - by left.
    - intros r [= <-]. by apply step_same. }
  unfold approve_value. destruct (get_or (draft_answer st) "text" (JStr [])) as [| | | |answer| |] eqn:Et.
  5: { unfold approve. unfold bind at 1, gets at 1. unfold bind at 1, gets at 1.
    unfold bind at 1, reject at 1, modify at 1. destruct (iterM _ _ _) as [o1 w4] eqn:Ei.
    apply emit_tokens_run in Ei as (ks & said & Hk & Hp & Hf & Hs4 & Hu4). cbn in Hk, Hs4.
    assert (unmoved w w4) as Hu. { etrans; [exact Hu3|]. etrans; [|exact Hu4]. by split. }
    assert (spells ks answer) as Hsp by by eapply approved_spells.
    assert (approves (env, Ok j) answer) as Hap by (split; [done|]; exists j; split; [done|]; by eapply passes_reply).
    destruct o1 as [[]|e]; intros [= <- <-]; exists (env, Ok j), ks;
      rewrite Hs4, Hs3, Hk, He3; split_and!; eauto; [|done]. intros r [= <-]. by apply step_same. }
  all: cbn; intros [= <- <-]; exists (env, Ok j), []; cbn; rewrite He3, app_nil_r; split_and!; try done;
    [etrans; [exact Hu3|]; by split|by left].
Qed.

Lemma stream_done_run st w o w' :
  terminal_sent w = false -> node_stream_done request st w = (o, w') ->
  exists e, events w' = events w ++ [e] /\ build_ok request "done" (done_data st) e /\
    terminal_sent w' = true /\ sent w' = sent w /\ store w' = store w /\
    final_context w' = final_context w /\ (forall r, o = Ok r -> r.1 = st).
Proof.
  intros Ht. unfold node_stream_done, bind.
  destruct (emit_appends request "done" (done_data st) w) as (e & o1 & Hb & ->);
    [set_solver|done|by rewrite Ht|]. apply build_event_ok in Hb.
  destruct o1 as [[]|x]; intros [= <- <-]; exists e; cbn; rewrite orb_true_r; split_and!; try done.
  by intros r [= <-].
Qed.

(** ** The wrapper *)

(** [wrap_node] after the node, and after the context of a generation is fixed. *)
Definition node_close (n : NodeName) (st : ConversationState) (r : ConversationState * node_meta)
    : M ConversationState :=
  let '(st', m) := r in
  let payload := trace_payload cfg n m in
  let next := st' {{ trace_events := trace_events st ++ [payload] }} in
  ended <-- gets terminal_sent ;
  if bool_decide (n = stream_done) && ended then ret next
  else
    emit request "status"
      (status_data request n (meta_phase m) (meta_message m) ++ [("progress", JNull)]) ;;;
    emit request "trace" payload ;;;
    ret next.

Definition node_body (n : NodeName) (st : ConversationState) : M ConversationState :=
  emit request "status" (status_data request n "started" (lit (node_name n) ++ lit " started")) ;;;
  bind (node_map cfg request n st) (node_close n st).

Lemma wrap_node_body n st :
  wrap_node cfg request n st =
  bind (modify (fun w => w {{ current_node := node_name n }})) (fun _ =>
  bind (enter_generation cfg request n st) (node_body n)).
Proof. reflexivity. Qed.

Lemma step_ok_traced n st st' l : step_ok n st st' -> step_ok n st (st' {{ trace_events := l }}).
Proof. by intros []. Qed.

Lemma close_quiet n st r :
  step_ok n st r.1 -> spec (respects (node_allowed n st)) (node_close n st r) (step_ok n st).
Proof. intros Hst. destruct r as [st' m]. unfold node_close. node_walk. all: by apply step_ok_traced. Qed.

(** Closing adds status and trace events, nothing else. *)
Lemma close_events n st r :
  within (respects (mkAllowed (plain request) (fun _ => False) (fun _ => False))) (node_close n st r).
Proof.
  destruct r as [st' m]. unfold node_close.
  assert (Plain request (mkAllowed (plain request) (fun _ => False) (fun _ => False)))
    by (intros e He; exact He).
  within_walk.
Qed.

Lemma body_quiet n st :
  releases n = false -> spec (respects (node_allowed n st)) (node_body n st) (step_ok n st).
Proof.
  intros Hn. unfold node_body. apply spec_then; [typeclasses eauto|apply within_status; typeclasses eauto|].
  intros _. eapply spec_bind; [typeclasses eauto|by apply quiet_node_ok|].
  intros r Hr. by apply close_quiet.
Qed.

(** Fixing the context commits it once, and changes nothing else that is watched. *)
Record commits (chunks : list obj) (w w' : world) : Prop := {
  co_events : events w' = events w;
  co_sent : sent w' = sent w;
  co_store : store w' = store w;
  co_terminal : terminal_sent w' = terminal_sent w;
  co_context : final_context w' = Some (default chunks (final_context w))
}.

Lemma within_trace_stage_fields stage chunks q qs k w :
  let w' := (trace_stage stage chunks q qs k w).2 in
  events w' = events w /\ sent w' = sent w /\ store w' = store w /\
  terminal_sent w' = terminal_sent w /\ final_context w' = final_context w.
Proof.
  unfold trace_stage, bind, gets, lift. destruct (retrieval_trace w); [|done]. cbn.
  by destruct (record_stage _ _ _ _ _ _ _ _).
Qed.

Lemma commit_run st w o w' :
  commit_final_context st w = (o, w') -> commits (retrieved_chunks st) w w'.
Proof.
  unfold commit_final_context, bind, gets. destruct (final_context w) as [c|] eqn:E.
  - intros [= <- <-]. split; try done. by rewrite E.
  - unfold modify. intros Hr. pose proof (within_trace_stage_fields STAGE_FINAL_CONTEXT
      (retrieved_chunks st) None None None (w {{ final_context := Some (retrieved_chunks st) }}))
      as (H1 & H2 & H3 & H4 & H5). rewrite Hr in *. cbn in *. split; try done. by rewrite H5, E.
Qed.

Lemma enter_run n st w o w' :
  enter_generation cfg request n st w = (o, w') ->
  (generation_mode n = None /\ o = Ok st /\ w' = w) \/
  (exists m e, generation_mode n = Some m /\ assemble_generation_context cfg st request m = Raise e /\
     o = Raise e /\ w' = w) \/
  (exists m chunks, generation_mode n = Some m /\
     assemble_generation_context cfg st request m = Ok chunks /\ commits chunks w w' /\
     forall st', o = Ok st' -> st' = st {{ retrieved_chunks := chunks }}).
Proof.
  unfold enter_generation. destruct (generation_mode n) as [m|]; [|intros [= <- <-]; by left].
  unfold bind at 1, lift. destruct (assemble_generation_context _ _ _ _) as [chunks|e] eqn:E;
    [|intros [= <- <-]; right; left; by eauto 10].
  cbn zeta. unfold bind at 1. destruct (commit_final_context _ w) as [o1 w1] eqn:Ec.
  apply commit_run in Ec. cbn in Ec. intros Ho. right; right. exists m, chunks.
  split; [done|]. split; [done|].
  destruct o1 as [[]|e]; injection Ho as <- <-; (split; [done|]); by intros st' [= <-].
Qed.

(** ** Everything a wrapped node does *)

(** The events a node adds, the requests it adds meanwhile and the terminal flag after it. *)
Inductive event_shape (n : NodeName) (st : ConversationState) (xs : list (obj * outcome py_exn json))
    : list event -> bool -> Prop :=
  | Quietly k : Forall (plain request) k -> event_shape n st xs k false
  | Released k1 ks k2 x answer :
      n = output_guardrails -> Forall (plain request) k1 -> Forall (plain request) k2 ->
      x ∈ xs -> approves x answer -> spells ks answer ->
      event_shape n st xs (k1 ++ ks ++ k2) false
  | Finished k e :
      n = stream_done -> Forall (plain request) k -> build_ok request "done" (done_data st) e ->
      event_shape n st xs (k ++ [e]) true.

(** The state a node works on, and the committed context after it. *)
Definition entered (n : NodeName) (st : ConversationState) (before after : option (list obj))
    (st1 : ConversationState) : Prop :=
  (generation_mode n = None /\ st1 = st /\ after = before) \/
  (exists m chunks, generation_mode n = Some m /\
     assemble_generation_context cfg st request m = Ok chunks /\
     st1 = st {{ retrieved_chunks := chunks }} /\ after = Some (default chunks before)).

Record added (n : NodeName) (st : ConversationState) (w w' : world) (st1 : ConversationState)
    (k : list event) (xs : list (obj * outcome py_exn json)) (cs : list Checkpoint) : Prop := {
  ad_entered : entered n st (final_context w) (final_context w') st1;
  ad_events : events w' = events w ++ k;
  ad_sent : sent w' = sent w ++ xs;
  ad_checkpoints : checkpoints (store w') = checkpoints (store w) ++ cs;
  ad_shape : event_shape n st1 xs k (terminal_sent w');
  ad_requests : Forall (sent_ok (al_sent (node_allowed n st1))) xs;
  ad_saved : Forall (al_checkpoint (node_allowed n st1)) cs
}.

Definition effect (n : NodeName) (st : ConversationState) (w : world)
    (o : outcome py_exn ConversationState) (w' : world) : Prop :=
  (exists e, o = Raise e /\ events w' = events w /\ sent w' = sent w /\ store w' = store w /\
     terminal_sent w' = false /\ final_context w' = final_context w) \/
  (exists st1 k xs cs, added n st w w' st1 k xs cs /\
     forall st', o = Ok st' -> step_ok n st1 st' /\ (n = stream_done -> terminal_sent w' = true)).

Lemma respects_added n st st1 w w' w1 :
  events w1 = events w -> sent w1 = sent w -> store w1 = store w -> terminal_sent w1 = false ->
  entered n st (final_context w) (final_context w1) st1 ->
  respects (node_allowed n st1) w1 w' -> exists k xs cs, added n st w w' st1 k xs cs.
Proof.
  intros H1 H2 H3 H4 H5 [(k & Hk & Fk) (xs & Hx & Fx) (cs & Hc & Fc) Ht Hf].
  exists k, xs, cs. split; rewrite <- ?H1, <- ?H2, <- ?H3; try done.
  - by rewrite Hf.
  - rewrite Ht, H4. by constructor.
Qed.

(** The status event that opens every node. *)
Lemma status_run data w :
  exists k o w', emit request "status" data w = (o, w') /\ events w' = events w ++ k /\
    Forall (plain request) k /\ sent w' = sent w /\ store w' = store w /\
    terminal_sent w' = terminal_sent w /\ final_context w' = final_context w.
Proof.
  destruct (emit_appends request "status" data w) as (e & o & Hb & ->);
    [set_solver|done|by rewrite andb_false_r|]. apply build_event_ok, plain_status in Hb.
  exists [e], o. eexists. split; [reflexivity|]. cbn. rewrite orb_false_r.
  split_and!; try done. by apply Forall_singleton.
Qed.

Lemma output_body_effect st w o w' :
  terminal_sent w = false -> node_body output_guardrails st w = (o, w') ->
  effect output_guardrails st w o w'.
Proof.
  intros Ht. unfold node_body, bind at 1.
  destruct (status_run (status_data request output_guardrails "started"
    (lit (node_name output_guardrails) ++ lit " started")) w)
    as (k1 & o1 & w1 & -> & He1 & Hk1 & Hs1 & Hd1 & Ht1 & Hf1).
  assert (entered output_guardrails st (final_context w) (final_context w1) st) as Hent
    by (left; by rewrite Hf1).
  destruct o1 as [[]|e].
  2: { intros [= <- <-]. right. exists st, k1, [], []. split; [|done].
    split; rewrite ?app_nil_r; try done; [by rewrite Hd1|]. rewrite Ht1, Ht. by constructor. }
  cbn [node_map]. unfold bind. destruct (node_output_guardrails cfg request st w1) as [o2 w2] eqn:E2.
  apply output_guardrails_run in E2 as (x & ks & Hs2 & Hq & He2 & [Hc2 Ht2 Hf2] & Hks & Hst).
  assert (forall k2 w3, Forall (plain request) k2 -> terminal_sent w3 = false ->
    final_context w3 = final_context w2 -> events w3 = events w2 ++ k2 -> sent w3 = sent w2 ->
    checkpoints (store w3) = checkpoints (store w2) ->
    added output_guardrails st w w3 st (k1 ++ ks ++ k2) [x] []) as Hadd.
  { intros k2 w3 Hk2 Ht3 Hf3 He3 Hs3 Hc3.
    split.
    - by rewrite Hf3, Hf2.
    - by rewrite He3, He2, He1, !app_assoc.
    - by rewrite Hs3, Hs2, Hs1.
    - by rewrite app_nil_r, Hc3, Hc2, Hd1.
    - rewrite Ht3. destruct Hks as [->|(answer & Ha & Hsp)].
      + constructor. by apply Forall_app_2.
      + eapply Released; eauto. set_solver.
    - apply Forall_singleton. by left.
    - constructor. }
  destruct o2 as [r|e].
  2: { intros [= <- <-]. right. exists st, (k1 ++ ks ++ []), [x], []. split; [|done].
    apply Hadd; rewrite ?app_nil_r; done || congruence. }
  pose proof (close_events output_guardrails st r w2) as [(k2 & He3 & Hk2) Hs3 Hc3 Ht3 Hf3].
  apply grows_none in Hs3; [|intros ? Hx; exact Hx].
  apply grows_none in Hc3; [|intros ? Hx; exact Hx].
  intros E3. rewrite E3 in *. cbn in *. right. exists st, (k1 ++ ks ++ k2), [x], [].
  split; [apply Hadd; congruence|]. intros st' ->.
  destruct (close_quiet output_guardrails st r) as [_ Hr]; [by apply Hst|]. by apply Hr in E3.
Qed.

Lemma done_body_effect st w o w' :
  terminal_sent w = false -> node_body stream_done st w = (o, w') -> effect stream_done st w o w'.
Proof.
  intros Ht. unfold node_body, bind at 1.
  destruct (status_run (status_data request stream_done "started"
    (lit (node_name stream_done) ++ lit " started")) w)
    as (k1 & o1 & w1 & -> & He1 & Hk1 & Hs1 & Hd1 & Ht1 & Hf1). rewrite Ht in Ht1.
  destruct o1 as [[]|e].
  2: { intros [= <- <-]. right. exists st, k1, [], []. split; [|done].
    split; rewrite ?app_nil_r; try done; [by left|by rewrite Hd1|]. rewrite Ht1. by constructor. }
  cbn [node_map]. unfold bind. destruct (node_stream_done request st w1) as [o2 w2] eqn:E2.
  apply stream_done_run in E2 as (e & He2 & Hb & Ht2 & Hs2 & Hd2 & Hf2 & Hst); [|done].
  assert (added stream_done st w w2 st (k1 ++ [e]) [] []) as Hadd.
  { split; rewrite ?app_nil_r; try congruence; try done.
    - left. split_and!; [done..|congruence].
    - by rewrite He2, He1, app_assoc.
    - rewrite Ht2. by apply Finished. }
  destruct o2 as [[st' m]|x];
    [|intros [= <- <-]; right; by exists st, (k1 ++ [e]), [], []].
  specialize (Hst _ eq_refl). cbn in Hst. subst st'. unfold node_close, bind, gets. rewrite Ht2.
  intros [= <- <-]. right. exists st, (k1 ++ [e]), [], []. split; [done|]. intros st'' [= <-]. split; [by apply step_same|done].
Qed.

Lemma effect_renamed n st w node o w' :
  effect n st (w {{ current_node := node }}) o w' -> effect n st w o w'.
Proof.
  intros [Hl|(st1 & k & xs & cs & [] & Hst)]; [by left|right]. exists st1, k, xs, cs. by split.
Qed.

Lemma wrap_node_effect n st w o w' :
  terminal_sent w = false -> wrap_node cfg request n st w = (o, w') -> effect n st w o w'.
Proof.
  intros Ht. rewrite wrap_node_body. unfold bind at 1, modify at 1.
  set (w0 := w {{ current_node := _ }}). unfold bind.
  destruct (enter_generation cfg request n st w0) as [o1 w1] eqn:E1.
  apply enter_run in E1 as [(Hg & -> & ->)|[(m & e & Hg & Ha & -> & ->)|(m & chunks & Hg & Ha & Hc & Hst)]].
  - intros E. destruct (decide (n = output_guardrails)) as [->|Hn1];
      [exact (effect_renamed _ _ _ _ _ _ (output_body_effect st w0 o w' Ht E))|].
    destruct (decide (n = stream_done)) as [->|Hn2]; 
      [exact (effect_renamed _ _ _ _ _ _ (done_body_effect st w0 o w' Ht E))|].
    assert (releases n = false) as Hr by (apply bool_decide_eq_false; set_solver).
    destruct (body_quiet n st Hr) as [Hw Hv]. specialize (Hw w0). rewrite E in Hw.
    eapply (respects_added n st st w) in Hw as (k & xs & cs & Hadd); try done; [|by left].
    right. exists st, k, xs, cs. split; [done|]. intros st' ->. split; [by eapply Hv|done].
  - intros [= <- <-]. left. by eauto 10.
  - assert (releases n = false) as Hr by by destruct n. destruct Hc as [H1 H2 H3 H4 H5].
    assert (entered n st (final_context w) (final_context w1) (st {{ retrieved_chunks := chunks }}))
      as Hent by (right; by exists m, chunks).
    destruct o1 as [st1|e].
    + specialize (Hst st1 eq_refl) as ->. intros E. 
      destruct (body_quiet n (st {{ retrieved_chunks := chunks }}) Hr) as [Hw Hv].
      specialize (Hw w1). rewrite E in Hw.
      eapply (respects_added n st _ w) in Hw as (k & xs & cs & Hadd); try done; [|by rewrite H4].
      right. eexists _, k, xs, cs. split; [exact Hadd|]. intros st' ->.
      split; [by eapply Hv|]. intros ->. done.
    + intros [= <- <-]. right. exists (st {{ retrieved_chunks := chunks }}), [], [], [].
      split; [|done]. split; rewrite ?app_nil_r; try done; [by rewrite H3|].
      rewrite H4. cbn. rewrite Ht. by constructor.
Qed.
End Nodes.
