(* ===== verification/ConversationSafety.v ===== *)
(** * Properties of a conversation turn

    Theorems about [run], the whole turn: the workflow and the fallback loop are the same,
    tokens reach the client only after the output scan approved the answer, the terminal
    event is the last and comes at most once, what a client who is not an administrator may
    see, one context for every model call, eligibility of every chunk used, the number of
    generations, and what a checkpoint resumes. *)

From Stdlib Require Import QArith.
From stdpp Require Import base list strings gmap sets pretty.
From S2P Require Import Prelude PyValue ContextAssembler LlmReplies RetrievalTrace CitationMetrics LearnedReranker.
From S2P Require Import ConversationStages ConversationWorld ConversationStore ConversationGraph ConversationFacts ConversationNodes.

Local Open Scope string_scope.
Local Open Scope list_scope.
Local Open Scope Z_scope.

(** ** The execution paths *)

Definition generates (n : NodeName) : bool :=
  match generation_mode n with Some _ => true | None => false end.

(** What the order of the nodes gives at the node [n] with [rest] after it. *)
Record place (n : NodeName) (rest : list NodeName) : Prop := {
  pl_done : n = stream_done <-> rest = [];
  pl_output : n = output_guardrails -> output_guardrails ∉ rest;
  pl_before : existsb generates rest = true -> sends_context n = false /\ generates n = false;
  pl_after : existsb generates (n :: rest) = false -> retrieves n = false
}.

#[local] Instance place_dec n rest : Decision (place n rest).
Proof.
  refine (cast_if (decide ((n = stream_done <-> rest = []) /\
    (n = output_guardrails -> output_guardrails ∉ rest) /\
    (existsb generates rest = true -> sends_context n = false /\ generates n = false) /\
    (existsb generates (n :: rest) = false -> retrieves n = false)))).
  - by destruct a as (? & ? & ? & ?).
  - intros []. tauto.
Defined.

Fixpoint places (path : list NodeName) : bool :=
  match path with [] => true | n :: rest => bool_decide (place n rest) && places rest end.

Lemma places_split before n rest : places (before ++ n :: rest) = true -> place n rest.
Proof.
  induction before as [|x before IH]; cbn; rewrite andb_true_iff; intros [Hp Hr]; [|by apply IH].
  by apply bool_decide_eq_true in Hp.
Qed.

Lemma path_place m before n rest : EXECUTION_PATHS m = before ++ n :: rest -> place n rest.
Proof.
  intros Hp. apply (places_split before). rewrite <- Hp. by destruct m; vm_compute.
Qed.

(** ** Runs as lists of nodes *)

(** An invariant of the nodes still to run, and what holds when one of them raises. *)
Lemma run_nodes_inv {St} (run : NodeName -> St -> M St) (I : list NodeName -> St -> world -> Prop)
    (E : world -> Prop) all path before :
  all = before ++ path ->
  (forall before n rest st w, all = before ++ n :: rest -> I (n :: rest) st w ->
     match run n st w with (Ok st', w') => I rest st' w' | (Raise e, w') => E w' end) ->
  forall st w, I path st w ->
    match run_nodes run path st w with (Ok st', w') => I [] st' w' | (Raise e, w') => E w' end.
Proof.
  intros -> Hstep. unfold run_nodes. revert before Hstep.
  induction path as [|n rest IH]; intros before Hstep st w HI; [exact HI|]. cbn. unfold bind.
  specialize (Hstep before n rest st w eq_refl HI) as Hn. destruct (run n st w) as [[st'|e] w']; [|done].
  apply (IH (before ++ [n])); [|done]. by rewrite <- app_assoc.
Qed.

Section Turn.
Context `{PyText} `{Env} (cfg : RAGConfig).

Lemma wrap_mode request n st : forall w st' w',
  st_mode st = mode request -> wrap_node cfg request n st w = (Ok st', w') ->
  st_mode st' = mode request.
Proof.
  intros w st' w' Hm. rewrite wrap_node_body. unfold bind at 1, modify at 1. unfold bind at 1.
  destruct (enter_generation cfg request n st _) as [[st1|e] w1] eqn:E; [|done].
  assert (st_mode st1 = mode request) as Hm1.
  { apply enter_run in E as [(_ & [= <-] & _)|[(? & ? & _ & _ & ? & _)|(m & c & _ & _ & _ & Hs)]];
      [done..|]. by rewrite (Hs st1 eq_refl). }
  intros Hb. revert Hb. unfold node_body, bind. destruct (emit _ _ _ _) as [[[]|e] w2]; [|done].
  destruct (node_map cfg request n st1 w2) as [[[st2 meta]|e] w3] eqn:En; [|done].
  assert (st_mode st2 = mode request) as Hm2.
  { destruct (releases n) eqn:Hr.
    - apply bool_decide_eq_true in Hr. apply list_elem_of_In in Hr as [<-|[<-|[]]]; cbn in En.
      + apply output_guardrails_run in En as (_ & _ & _ & _ & _ & _ & _ & Hs).
        destruct (so_mode _ _ _ _ (Hs _ eq_refl)); cbn in *; congruence.
      + revert En. unfold node_stream_done, bind. destruct (emit _ _ _ _) as [[[]|?] ?]; [|done].
        by intros [= <- _ _].
    - destruct (quiet_node_ok cfg request n Hr st1) as [_ Hq].
      destruct (so_mode _ _ _ _ (Hq _ _ _ En)); cbn in *; congruence. }
  unfold node_close, bind, gets. destruct (_ && _); [by intros [= <- _]|].
  do 2 (destruct (emit _ _ _ _) as [[[]|?] ?]; [|done]). by intros [= <- _].
Qed.

Lemma run_graph_fresh hl request st w :
  st_mode st = mode request ->
  run_graph cfg hl request None st w =
  run_nodes (wrap_node cfg request) (EXECUTION_PATHS (st_mode st)) st w.
Proof.
  intros Hm. destruct hl; [|done].
  apply (ainvoke_fallback st_mode (wrap_node cfg request) (mode request)); [|done].
  intros n s w1 s' w2. by apply wrap_mode.
Qed.

(** The nodes a turn runs: the end of one of the two paths, never empty. *)
Lemma run_graph_path hl request cp st w :
  (cp = None -> st_mode st = mode request) ->
  exists before path, EXECUTION_PATHS (st_mode st) = before ++ path /\ path <> [] /\
    (cp = None -> before = []) /\ run_graph cfg hl request cp st w = run_nodes (wrap_node cfg request) path st w.
Proof.
  intros Hm. assert (EXECUTION_PATHS (st_mode st) <> []) as Hne by by destruct (st_mode st).
  destruct cp as [c|].
  - cbn. unfold resume_from_checkpoint. destruct (remaining_nodes _ _) as [rest|] eqn:Er;
      [|by exists [], (EXECUTION_PATHS (st_mode st)); split_and!].
    destruct (remaining_nodes_suffix _ _ _ Er) as (before & Hp & Hb). exists before, rest.
    split; [done|]. split; [|by split]. intros ->. rewrite app_nil_r in Hp.
    destruct Hb as [->|(n & Hc & Hl)]; [done|]. rewrite <- Hp in Hl.
    revert Hc Hl. unfold completed_node. destruct (List.find _ _) as [[k n']|] eqn:Ef; [|done].
    intros [= <-] Hl. apply List.find_some in Ef as [Ef%list_elem_of_In _]. revert Ef Hl.
    destruct (st_mode st); cbn; intros Ef Hl; injection Hl as <-; set_solver.
  - specialize (Hm eq_refl). exists [], (EXECUTION_PATHS (st_mode st)). split_and!; [done..|].
    by apply run_graph_fresh.
Qed.

(** C4: the workflow the service declares does what its sequential fallback does.  Take any
    graph library that, as documented, runs a workflow one node after the other along the
    edges declared for it, up to [END] and within 25 supersteps ([engine]; the library is a
    parameter).  Then a turn run through the workflow of [_build_graph] and the same turn run
    through the fallback loop are the same computation, for every request, environment and
    world: same events, requests, stored documents and result. *)
Theorem workflow_is_fallback (library : engine world ConversationState) request resume w :
  run cfg (Some library) request resume w = run cfg None request resume w.
Proof.
  unfold run, bind. destruct (load_checkpoint request resume w) as [[[c|]|e] w1]; [done| |done].
  destruct (publish_turn_started _ w1) as [[[]|e] w2]; [|done].
  unfold catch, turn_body, bind. by rewrite !run_graph_fresh.
Qed.

(** ** Events of a turn *)

Definition is_token (e : event) : bool := bool_decide (ev_type e = "token").
Definition tokens_of (k : list event) : list event := List.filter is_token k.
Definition nonterminal (e : event) : Prop := terminal_type (ev_type e) = false.

(** Tokens only of an answer whose output scan is among the requests [xs] and approved it. *)
Definition tokens_ok (k : list event) (xs : list (obj * outcome py_exn json)) : Prop :=
  tokens_of k = [] \/
  exists r x answer, x ∈ xs /\ approves r x answer /\ spells (tokens_of k) answer.

(** The terminal event, when there is one, is the last. *)
Definition ended_ok (k : list event) (ended : bool) : Prop :=
  if ended then exists k' e, k = k' ++ [e] /\ Forall nonterminal k' /\ terminal_type (ev_type e) = true
  else Forall nonterminal k.

Record events_ok (request : ConversationRequest) (k : list event)
    (xs : list (obj * outcome py_exn json)) (ended : bool) : Prop := {
  eo_safe : Forall (client_safe request) k;
  eo_tokens : tokens_ok k xs;
  eo_ended : ended_ok k ended
}.

Section Request.
Context (request : ConversationRequest).

Lemma tokens_of_app k k' : tokens_of (k ++ k') = tokens_of k ++ tokens_of k'.
Proof. apply List.filter_app. Qed.

Lemma tokens_of_none k : Forall (fun e => ev_type e <> "token") k -> tokens_of k = [].
Proof.
  induction 1 as [|e k He Hk IH]; [done|]. cbn. unfold is_token at 1.
  by rewrite bool_decide_false.
Qed.

Lemma plain_facts k :
  Forall (plain request) k ->
  Forall (client_safe request) k /\ tokens_of k = [] /\ Forall nonterminal k.
Proof.
  intros Hk. split; [by eapply Forall_impl; [exact Hk|]; intros e [_ ?]|]. split.
  - apply tokens_of_none. eapply Forall_impl; [exact Hk|].
    intros e [He%list_elem_of_In _]. by destruct He as [<-|[<-|[<-|[]]]].
  - eapply Forall_impl; [exact Hk|]. unfold nonterminal.
    intros e [He%list_elem_of_In _]. by destruct He as [<-|[<-|[<-|[]]]].
Qed.

Lemma spells_facts ks answer :
  spells ks answer ->
  Forall (client_safe request) ks /\ tokens_of ks = ks /\ Forall nonterminal ks.
Proof.
  intros (said & whole & Hf & _). assert (Forall (fun e => ev_type e = "token") ks) as Hk.
  { apply Forall_forall. intros e He. apply list_elem_of_lookup in He as [i Hi].
    destruct (Forall2_lookup_l _ _ _ _ _ Hf Hi) as (t & _ & Ht & _). done. }
  clear Hf. split; [|split].
  - eapply Forall_impl; [exact Hk|]. intros e He. unfold client_safe. rewrite He.
    split; [|done]. intros _. split; [set_solver|done].
  - induction Hk as [|e k He Hk IH]; [done|]. cbn. unfold is_token at 1.
    rewrite bool_decide_true by done. by f_equal.
  - eapply Forall_impl; [exact Hk|]. intros e He. unfold nonterminal. by rewrite He.
Qed.

Lemma done_safe st e : build_ok request "done" (done_data st) e -> client_safe request e.
Proof.
  intros [Ht Hd]. unfold client_safe. rewrite Ht, Hd. unfold public_data.
  rewrite (bool_decide_true ("done" = "done")), andb_true_r by done.
  split; [|split; [done|]].
  - intros ->. cbn [negb]. split; [set_solver|]. intros _. apply (bool_decide_unpack _). vm_compute. exact I.
  - intros _. exists (public_review (answer_review st)). split; [|apply public_review_public].
    destruct (negb _); [|done]. unfold get, get_or. by rewrite !obj_get_pop.
Qed.

Lemma events_ok_step n st k0 xs0 k xs t :
  events_ok request k0 xs0 false -> event_shape request n st xs k t ->
  (n = output_guardrails -> tokens_of k0 = []) ->
  events_ok request (k0 ++ k) (xs0 ++ xs) t /\
  (n <> output_guardrails -> tokens_of (k0 ++ k) = tokens_of k0).
Proof.
  intros [Hs Ht He] Hk Hno. cbn in He.
  assert (forall x, x ∈ xs0 -> x ∈ xs0 ++ xs) as Hin by set_solver.
  destruct Hk as [k Hk|k1 ks k2 x answer Hn H1 H2 Hx Ha Hsp|k e Hn Hk Hb].
  - apply plain_facts in Hk as (A1 & A2 & A3). split; [split|].
    + by apply Forall_app_2.
    + unfold tokens_ok. rewrite tokens_of_app, A2, app_nil_r.
      destruct Ht as [?|(r & x & a & ? & ?)]; [by left|right]. exists r, x, a. split; auto.
    + by apply Forall_app_2.
    + intros _. by rewrite tokens_of_app, A2, app_nil_r.
  - apply plain_facts in H1 as (A1 & A2 & A3), H2 as (B1 & B2 & B3).
    destruct (spells_facts _ _ Hsp) as (C1 & C2 & C3). split; [split|by intros []].
    + by repeat apply Forall_app_2.
    + right. exists request, x, answer. rewrite !tokens_of_app, Hno, A2, B2, C2, app_nil_r by done.
      split; [set_solver|done].
    + by repeat apply Forall_app_2.
  - apply plain_facts in Hk as (A1 & A2 & A3). pose proof (done_safe _ _ Hb) as Hd.
    destruct Hb as [Hty _]. assert (tokens_of [e] = []) as Hte.
    { apply tokens_of_none, Forall_singleton. by rewrite Hty. }
    split; [split|].
    + apply Forall_app_2; [done|]. apply Forall_app_2; [done|]. by apply Forall_singleton.
    + unfold tokens_ok. rewrite !tokens_of_app, A2, Hte, !app_nil_r.
      destruct Ht as [?|(r & x & a & ? & ?)]; [by left|right]. exists r, x, a. split; auto.
    + exists (k0 ++ k), e. split; [by rewrite app_assoc|]. split; [by apply Forall_app_2|by rewrite Hty].
    + intros _. by rewrite !tokens_of_app, A2, Hte, !app_nil_r.
Qed.

Definition events_since (w0 w : world) (k : list event) : Prop :=
  events w = events w0 ++ k /\
  exists xs, sent w = sent w0 ++ xs /\ events_ok request k xs (terminal_sent w).

Definition events_inv (w0 : world) (rest : list NodeName) (st : ConversationState) (w : world) : Prop :=
  exists k, events_since w0 w k /\ (rest = [] <-> terminal_sent w = true) /\
    (output_guardrails ∈ rest -> tokens_of k = []).

Lemma events_inv_step w0 n rest st w :
  place n rest -> events_inv w0 (n :: rest) st w ->
  match wrap_node cfg request n st w with
  | (Ok st', w') => events_inv w0 rest st' w'
  | (Raise e, w') => exists k, events_since w0 w' k
  end.
Proof.
  intros Hpl (k0 & (He & xs0 & Hs & Hok) & Hterm & Hout).
  assert (terminal_sent w = false) as Hf.
  { apply not_true_iff_false. intros Ht. by apply Hterm in Ht. }
  rewrite Hf in Hok.
  destruct (wrap_node cfg request n st w) as [o w'] eqn:E.
  apply wrap_node_effect in E as [(e & -> & H1 & H2 & _ & H4 & _)|(st1 & k & xs & cs & Had & Hst)]; [| |done].
  { exists k0. split; [by rewrite H1|]. exists xs0. rewrite H2, H4. done. }
  destruct Had as [_ H1 H2 _ Hsh _ _].
  destruct (events_ok_step _ _ _ _ _ _ _ Hok Hsh) as [Hok' Htok].
  { intros ->. apply Hout. by left. }
  assert (events_since w0 w' (k0 ++ k)) as Hsince.
  { split; [by rewrite H1, He, app_assoc|]. exists (xs0 ++ xs). by rewrite H2, Hs, app_assoc. }
  destruct o as [st'|e]; [|by exists (k0 ++ k)]. exists (k0 ++ k). split; [done|]. split.
  - split; [intros ->; apply (proj2 (Hst st' eq_refl)); by apply (pl_done _ _ Hpl)|].
    intros Ht. apply (pl_done _ _ Hpl). by inversion Hsh; congruence.
  - intros Hr. destruct (decide (n = output_guardrails)) as [Hn|Hn];
      [by apply (pl_output _ _ Hpl) in Hn|]. rewrite Htok by done. apply Hout. by right.
Qed.

Lemma events_ok_error k xs e :
  events_ok request k xs false -> ev_type e = "error" -> events_ok request (k ++ [e]) xs true.
Proof.
  intros [Hs Ht He] Hty. split.
  - apply Forall_app_2; [done|]. apply Forall_singleton. unfold client_safe. rewrite Hty.
    split; [|done]. intros _. split; [set_solver|done].
  - unfold tokens_ok. rewrite tokens_of_app, (tokens_of_none [e]), app_nil_r; [done|].
    apply Forall_singleton. by rewrite Hty.
  - exists k, e. by rewrite Hty.
Qed.

(** Steps after the graph that say nothing. *)
Definition no_events : allowed := mkAllowed (fun _ => False) (fun _ => False) (fun _ => True).

Lemma events_since_silent w0 w w' k :
  respects no_events w w' -> events_since w0 w k ->
  events_since w0 w' k /\ terminal_sent w' = terminal_sent w.
Proof.
  intros [H1 H2 _ H4 _] (He & xs & Hs & Hok).
  apply grows_none in H1; [|intros ? Hx; exact Hx]. apply grows_none in H2; [|intros ? Hx; exact Hx].
  split; [|done]. split; [by rewrite H1|]. exists xs. by rewrite H2, H4.
Qed.

Lemma events_since_commits w0 w w' k chunks :
  commits chunks w w' -> events_since w0 w k ->
  events_since w0 w' k /\ terminal_sent w' = terminal_sent w.
Proof.
  intros [H1 H2 _ H4 _] (He & xs & Hs & Hok). split; [|done].
  split; [by rewrite H1|]. exists xs. by rewrite H2, H4.
Qed.

(** The exits of a turn that stopped without a terminal event. *)
Definition input_blocked (r : obj) : Prop :=
  get r "outcome" = s_ "guardrail_blocked" /\ get r "answer" = JStr [].

Lemma guardrail_handler_events w0 w k st stage o w' :
  events_since w0 w k -> guardrail_handler request st stage w = (o, w') ->
  events_since w0 w' k /\ terminal_sent w' = terminal_sent w /\
  (forall r, o = Ok r -> input_blocked r /\ get r "guardrail_stage" = JStr stage).
Proof.
  intros Hk Hh. assert (spec (respects no_events) (guardrail_handler request st stage)
    (fun r => input_blocked r /\ get r "guardrail_stage" = JStr stage)) as [Hw Hv].
  { unfold guardrail_handler. spec_walk. apply spec_then; [typeclasses eauto| |intros ?].
    - apply within_save_checkpoint. done.
    - spec_walk. done. }
  specialize (Hw w). rewrite Hh in Hw. apply (events_since_silent w0 w w' k) in Hw as [H1 H2]; [|done].
  split; [done|]. split; [done|]. intros r ->. by eapply Hv.
Qed.

Lemma failure_handler_events w0 w k st e o w' :
  events_since w0 w k -> failure_handler request st e w = (o, w') ->
  exists k', events_since w0 w' k' /\ (forall r, o = Ok r -> terminal_sent w' = true).
Proof.
  intros Hk. unfold failure_handler. unfold bind at 1, gets at 1. unfold bind at 1.
  pose proof (within_failure_evidence no_events e w) as H1.
  destruct (record_llm_failure_evidence e w) as [o1 w1]. cbn in H1.
  apply (events_since_silent w0 _ _ k) in H1 as [Hk1 _]; [|done].
  destruct o1 as [[]|x]; [|intros [= <- <-]; by exists k]. unfold bind at 1.
  pose proof (within_save_checkpoint no_events request st (current_node w) "error" "error"
    [("error", JStr (exn_text e))] (fun _ => I) w1) as H2.
  destruct (save_checkpoint_ _ _ _ _ _ _ w1) as [o2 w2]. cbn in H2.
  apply (events_since_silent w0 _ _ k) in H2 as [Hk2 _]; [|done].
  destruct o2 as [[]|x]; [|intros [= <- <-]; by exists k].
  unfold bind at 1, gets at 1. destruct (terminal_sent w2) eqn:Ht.
  { intros [= <- <-]. exists k. split; [done|]. by intros. }
  unfold bind at 1.
  match goal with |- context [emit request "error" ?d w2] =>
    destruct (emit_appends request "error" d w2) as (ev & o3 & Hb & ->) end;
    [set_solver|done|by rewrite Ht|].
  apply build_event_ok in Hb as [Hty _]. destruct Hk2 as (He & xs & Hs & Hok). rewrite Ht in Hok.
  destruct o3 as [[]|x]; intros [= <- <-]; exists (k ++ [ev]); cbn; rewrite ?orb_true_r;
    (split; [|done]); (split; [cbn; by rewrite He, app_assoc|]); exists xs; cbn; rewrite ?orb_true_r;
    (split; [done|]); by apply events_ok_error.
Qed.

Lemma turn_body_events hl cp st w o w' :
  (cp = None -> st_mode st = mode request) -> terminal_sent w = false ->
  turn_body cfg hl request cp st w = (o, w') ->
  exists k, events_since w w' k /\ (forall r, o = Ok r -> terminal_sent w' = true).
Proof.
  intros Hm Ht. unfold turn_body. unfold bind at 1.
  destruct (run_graph_path hl request cp st w Hm) as (before & path & Hp & Hne & _ & ->).
  assert (events_inv w path st w) as Hinv.
  { exists []. split; [|split; [by rewrite Ht|done]]. split; [by rewrite app_nil_r|].
    exists []. split; [by rewrite app_nil_r|]. rewrite Ht. split; [constructor|by left|constructor]. }
  pose proof (run_nodes_inv (wrap_node cfg request) (events_inv w) (fun w' => exists k, events_since w w' k)
    _ _ _ Hp (fun before n rest st w' Hb => events_inv_step w n rest st w' (path_place _ _ _ _ Hb))
    st w Hinv) as Hrun.
  destruct (run_nodes _ path st w) as [[st'|e] w1]; [|intros [= <- <-]; by destruct Hrun as [k Hk]; exists k].
  destruct Hrun as (k & Hk & Hterm & _). unfold bind at 1.
  destruct (commit_final_context st' w1) as [o2 w2] eqn:Ec.
  apply commit_run in Ec. apply (events_since_commits w _ _ k) in Ec as [Hk2 Ht2]; [|done].
  assert (terminal_sent w2 = true) as Hend by (rewrite Ht2; by apply Hterm).
  intros Ho. exists k. destruct o2 as [[]|e]; [|by injection Ho as <- <-].
  revert Ho. unfold bind, gets, lift, ret. by destruct (build_result _ _); intros [= <- <-].
Qed.
End Request.

(** ** The whole turn *)

Record same_turn (w w' : world) : Prop := {
  sm_events : events w' = events w;
  sm_sent : sent w' = sent w;
  sm_store : store w' = store w;
  sm_terminal : terminal_sent w' = terminal_sent w;
  sm_context : final_context w' = final_context w
}.

Definition start_state (request : ConversationRequest) (cp : option Checkpoint) : ConversationState :=
  match cp with Some c => cp_state c | None => build_initial_state request end.

(** What [run] does before the graph leaves the turn alone. *)
Lemma run_start hl request resume w o w' :
  run cfg hl request resume w = (o, w') ->
  (exists e, o = Raise e /\ same_turn w w') \/
  exists cp w1, same_turn w w1 /\ (forall c, cp = Some c -> resume = true /\ c ∈ checkpoints (store w)) /\
    let st := start_state request cp in let request := restore_request request cp in
    catch (turn_body cfg hl request cp st) (handlers request st) w1 = (o, w').
Proof.
  unfold run. unfold bind at 1. destruct (load_checkpoint request resume w) as [o1 w1] eqn:El.
  assert (same_turn w w1 /\ forall c, o1 = Ok (Some c) -> resume = true /\ c ∈ checkpoints (store w))
    as [Hsame Hc].
  { revert El. unfold load_checkpoint. destruct resume; [|intros [= <- <-]; by repeat split].
    unfold p_get_latest_checkpoint, store_op. destruct (store_fault _); intros [= <- <-]; [by repeat split|].
    split; [by split|]. intros c [= Hl]. split; [done|]. by eapply get_latest_elem. }
  destruct o1 as [cp|e]; [|intros [= <- <-]; left; by eauto].
  unfold bind at 1. intros Hr. right. exists cp.
  assert (forall c, cp = Some c -> resume = true /\ c ∈ checkpoints (store w)) as Hc'
    by (intros c ->; by apply Hc).
  destruct cp as [c|]; [exists w1; by split_and!|]. revert Hr.
  unfold publish_turn_started, publish_domain_event, envelope, uuid4, bind, interact, ret, modify.
  intros Hr. eexists. split; [|split; [exact Hc'|exact Hr]]. by destruct Hsame.
Qed.

Lemma start_mode request cp :
  cp = None -> st_mode (start_state request cp) = mode (restore_request request cp).
Proof. by intros ->. Qed.

Lemma restore_role request cp : role (restore_request request cp) = role request.
Proof.
  unfold restore_request. destruct cp as [c|]; [|done]. cbn zeta.
  by destruct (bool_decide _), (_ && _), (_ && _).
Qed.

Lemma run_events hl request resume w o w' :
  terminal_sent w = false -> run cfg hl request resume w = (o, w') ->
  exists r' k, role r' = role request /\ events_since r' w w' k /\
    (forall r, o = Ok r -> terminal_sent w' = true \/ input_blocked r).
Proof.
  intros Ht [(e & -> & [H1 H2 _ H4 _])|(cp & w1 & [H1 H2 _ H4 _] & _ & Hc)]%run_start.
  { exists request, []. split; [done|]. split; [|done]. split; [by rewrite app_nil_r|].
    exists []. rewrite H2, H4, Ht, app_nil_r. split; [done|]. split; [constructor|by left|constructor]. }
  exists (restore_request request cp). cbn zeta in Hc. unfold catch in Hc.
  destruct (turn_body _ _ _ _ _ w1) as [o1 w2] eqn:Eb.
  apply turn_body_events in Eb as (k & Hk & Hend); [|by apply start_mode|by rewrite H4].
  enough (exists k, events_since (restore_request request cp) w1 w' k /\
    (forall r, o = Ok r -> terminal_sent w' = true \/ input_blocked r)) as (k' & (E1 & xs & E2 & E3) & E4).
  { exists k'. split; [apply restore_role|]. split; [|done]. split; [by rewrite E1, H1|].
    exists xs. by rewrite E2, H2. }
  destruct o1 as [r|e]; [injection Hc as <- <-; exists k; split; [done|]; intros; left; by eapply Hend|].
  destruct (handlers _ _ e) as [h|] eqn:Eh; [|injection Hc as <- <-; by exists k].
  assert ((exists stage, h = guardrail_handler (restore_request request cp) (start_state request cp) stage) \/
          h = failure_handler (restore_request request cp) (start_state request cp) e) as [[stage ->]| ->]
    by (destruct e; cbn in Eh; simplify_eq; eauto).
  - eapply guardrail_handler_events in Hc as (E1 & _ & E3); [|exact Hk]. exists k. split; [done|].
    intros r Hr. right. by apply E3.
  - eapply failure_handler_events in Hc as (k' & E1 & E3); [|exact Hk]. exists k'. split; [done|]. eauto.
Qed.

(** C1: the answer reaches the client only through the output guardrail.  In every turn, fresh
    or resumed, in both modes and whatever the services, the store and the event channel do
    (so also when the turn is cut short at any point): token events appear only if a scan of
    the answer for stage "output" was requested in this turn, was answered without an error,
    and passes; and the tokens, in order, spell a prefix of the very text that was scanned, up
    to trailing white space.  A typed reply of the LLM service passes if it is a success whose
    risk level is not high, critical or blocked; any other reply passes if its payload has no
    true [blocked], and one that is not a dictionary counts as an empty payload: there the
    boundary is not fail-closed ([malformed_scan_releases], a finding). *)
Theorem tokens_after_approval hl request resume w o w' :
  terminal_sent w = false -> events w = [] -> run cfg hl request resume w = (o, w') ->
  exists xs, sent w' = sent w ++ xs /\ tokens_ok (events w') xs.
Proof.
  intros Ht He Hr. destruct (run_events hl request resume w o w' Ht Hr)
    as (r' & k & _ & (H1 & xs & H2 & [_ H3 _]) & _).
  exists xs. split; [done|]. by rewrite H1, He.
Qed.

(** C5: a turn sends at most one terminal event ("done" or "error") and nothing after it;
    and a turn that returns a result has sent one, except that a turn a guardrail blocked
    returns an empty answer without any. *)
Theorem terminal_event_last hl request resume w o w' :
  terminal_sent w = false -> run cfg hl request resume w = (o, w') ->
  exists k, events w' = events w ++ k /\ ended_ok k (terminal_sent w') /\
    (forall r, o = Ok r -> terminal_sent w' = true \/
       get r "outcome" = s_ "guardrail_blocked" /\ get r "answer" = JStr []).
Proof.
  intros Ht Hr. destruct (run_events hl request resume w o w' Ht Hr)
    as (r' & k & _ & (H1 & xs & _ & [_ _ H3]) & H4). by exists k.
Qed.

(** C6: what a client may see.  A client whose role is not "admin" receives only status,
    answer_review, token, done and error events (no trace), and with the final event only the
    answer, its sources, the review summary and the retrieval summary (no trace summary, no
    debug payloads).  For every role the answer_review event and the review summary hold only
    the public fields of a review (no claims, no raw evaluation).  An administrator's final
    event also carries the debug payloads, which include the raw output of the evaluation. *)
Theorem client_confined hl request resume w o w' :
  terminal_sent w = false -> run cfg hl request resume w = (o, w') ->
  exists k, events w' = events w ++ k /\ Forall (client_safe request) k.
Proof.
  intros Ht Hr. destruct (run_events hl request resume w o w' Ht Hr)
    as (r' & k & Hrole & (H1 & xs & _ & [H2 _ _]) & _).
  exists k. split; [done|]. eapply Forall_impl; [exact H2|]. intros e.
  unfold client_safe, is_admin. by rewrite Hrole.
Qed.

(** The first node of a turn whose question the guardrail blocks. *)
Lemma input_blocked_node request st w :
  py_strip (user_message request) <> [] -> (forall n e, publish_fault n e = None) ->
  (forall n env, get env "action" = s_ "content_risk_scan" ->
     exists j resp, service_reply n env = Ok j /\ extract_reply_payload json_loads j = Ok resp /\
       jtrue (get resp "blocked") = true) ->
  exists w' e, wrap_node cfg request input_guardrails st w = (Raise (GuardrailBlockedError (lit "input")), w') /\
    events w' = events w ++ [e] /\ ev_type e = "status" /\ terminal_sent w' = terminal_sent w.
Proof.
  intros Hmsg Hpub Hscan. rewrite wrap_node_body. unfold bind at 1, modify at 1.
  unfold bind at 1, enter_generation. cbn [generation_mode].
  set (w0 := w {{ current_node := _ }}). unfold ret at 1, node_body, bind at 1.
  assert ("status" ∈ ALLOWED_EVENT_TYPES) as Hal by set_solver.
  match goal with |- context [emit request "status" ?d w0] =>
    pose proof (emit_publishes request "status" d w0 Hal ltac:(done) (andb_false_r _) Hpub) as Ho;
    destruct (emit_appends request "status" d w0 Hal ltac:(done) (andb_false_r _)) as (e & o & Hb & E) end.
  rewrite E in Ho |- *. cbn in Ho. subst o. clear E.
  apply build_event_ok in Hb as [Hty _]. cbn [node_map]. unfold node_input_guardrails.
  cbn zeta. rewrite bool_decide_false by done. unfold risk_scan, bind.
  match goal with |- context [send_request request ?t ?a ?p ?w1] =>
    destruct (send_request_run request t a p w1)
      as (env & reply & w2 & -> & [Hact _] & Hs & Hev & _ & [_ Hterm _] & n & ->) end.
  destruct (Hscan n env Hact) as (j & resp & -> & -> & Hblk). rewrite Hblk.
  pose proof (within_evidence (no_events) resp w2) as [Hev2 _ _ Ht2 _].
  apply grows_none in Hev2; [|intros ? Hx; exact Hx].
  assert (record_llm_evidence resp w2 = (Ok tt, (record_llm_evidence resp w2).2)) as ->
    by (unfold record_llm_evidence; destruct (get resp LLM_EVIDENCE_KEY); reflexivity).
  eexists _, e. split; [reflexivity|]. cbn. rewrite Hev2, Ht2, Hev, Hterm. cbn.
  by rewrite orb_false_r.
Qed.

(** an input the guardrail blocks is not announced: when the scan of the question blocks
    it (and events and checkpoints go through), the turn returns an empty answer with the
    outcome "guardrail_blocked", having sent the client one status event and neither a
    "done" nor an "error" event. *)
Theorem input_block_unannounced hl request w :
  terminal_sent w = false -> py_strip (user_message request) <> [] ->
  (forall n e, publish_fault n e = None) -> (forall n, store_fault n = None) ->
  (forall n env, get env "action" = s_ "content_risk_scan" ->
     exists j resp, service_reply n env = Ok j /\ extract_reply_payload json_loads j = Ok resp /\
       jtrue (get resp "blocked") = true) ->
  exists r w' e, run cfg hl request false w = (Ok r, w') /\
    get r "outcome" = s_ "guardrail_blocked" /\ get r "guardrail_stage" = s_ "input" /\
    get r "answer" = JStr [] /\ events w' = events w ++ [e] /\ ev_type e = "status" /\
    terminal_sent w' = false.
Proof.
  intros Ht Hmsg Hpub Hstore Hscan. unfold run, load_checkpoint. unfold bind at 1, ret at 1.
  cbn [restore_request]. unfold bind at 1.
  unfold publish_turn_started, publish_domain_event, envelope, uuid4, interact, ret, modify.
  unfold bind at 1 2 3 4. set (w1 := _ {{ notices ::= _ }}).
  unfold catch, turn_body, bind at 1. rewrite run_graph_fresh by done.
  assert (exists rest, EXECUTION_PATHS (mode request) = input_guardrails :: rest) as [rest Hp]
    by (destruct (mode request); eexists; reflexivity).
  cbn [build_initial_state st_mode]. rewrite Hp. unfold run_nodes. cbn [foldM]. unfold bind at 1.
  destruct (input_blocked_node request (build_initial_state request) w1 Hmsg Hpub Hscan)
    as (w2 & e & -> & Hev & Hty & Hterm).
  cbn [handlers]. unfold guardrail_handler, save_checkpoint_, p_save_checkpoint, store_op, bind, gets, ret.
  unfold utc_now_iso, interact. rewrite Hstore. eexists _, _, e. split; [reflexivity|].
  split_and!; try reflexivity; [exact Hev|exact Hty|]. cbn. by rewrite Hterm.
Qed.
End Turn.

(** ** Evaluation of a turn *)

Section Witness.
#[local] Existing Instance ascii_text.

Definition demo_turn (input_level output_level failing : string) (m : Mode) :=
  @run ascii_text (demo_env input_level output_level failing) demo_config (Some superstep_engine) (demo_request m) false
    demo_world.

(** An approved answer is streamed as it was buffered; a blocked one is not. *)
Example demo_streams :
  (length (tokens_of (events (demo_turn "low" "low" "" regular).2)),
   length (tokens_of (events (demo_turn "low" "high" "" extended).2)),
   map ev_type (events (demo_turn "high" "low" "" regular).2)) = (2%nat, 0%nat, ["status"]).
Proof. vm_compute. reflexivity. Qed.

(** Services whose output scan answers with something that is not a dictionary. *)
Definition malformed_scan_env : Env :=
  {| service_reply := fun n env =>
       if is_str (get env "action") "content_risk_scan" && is_str (demo_stage env) "output"
       then Ok JNull else demo_service "low" "low" "" n env;
     service_stream := @service_stream (demo_env "low" "low" "");
     publish_fault := fun _ _ => None; store_fault := fun _ => None;
     clock := @clock (demo_env "low" "low" ""); uuid := @uuid (demo_env "low" "low" "");
     epoch_ms := @epoch_ms (demo_env "low" "low" "");
     rerank_scores := @rerank_scores (demo_env "low" "low" "");
     sparse_lexical_vector := fun _ => []; json_loads := fun _ => None;
     secret_key := fun _ => false; redact_secrets := fun t => t; identity := None;
     format3 := @format3 (demo_env "low" "low" ""); traffic_class := "live" |}.

(** The boundary is not fail-closed: an output scan that comes back as something other than a
    dictionary reports no verdict, and the answer is released as approved. *)
Example malformed_scan_releases :
  length (tokens_of (events (@run ascii_text malformed_scan_env demo_config (Some superstep_engine)
    (demo_request regular) false demo_world).2)) = 2%nat.
Proof. vm_compute. reflexivity. Qed.

(** The law of the library can hold: the engine that runs supersteps has it. *)
Lemma workflow_is_fallback_witness :
  let turn library := @run ascii_text (demo_env "low" "low" "") demo_config library
                        (demo_request extended) false demo_world in
  length (events (turn None).2) = 31%nat /\ turn (Some superstep_engine) = turn None.
Proof.
  split; [vm_compute; reflexivity|].
  exact (workflow_is_fallback (H0 := demo_env "low" "low" "") demo_config superstep_engine
    (demo_request extended) false demo_world).
Defined.

Lemma tokens_after_approval_witness :
  tokens_of (events (demo_turn "low" "low" "" regular).2) <> [] /\
  exists xs, sent (demo_turn "low" "low" "" regular).2 = [] ++ xs /\
    @tokens_ok ascii_text (demo_env "low" "low" "") (events (demo_turn "low" "low" "" regular).2) xs.
Proof.
  split; [vm_compute; discriminate|].
  exact (tokens_after_approval (H0 := demo_env "low" "low" "") demo_config (Some superstep_engine) (demo_request regular)
    false demo_world _ _ eq_refl eq_refl (surjective_pairing _)).
Defined.

Lemma terminal_event_last_witness :
  terminal_sent (demo_turn "low" "low" "embed" extended).2 = true /\
  exists k, events (demo_turn "low" "low" "embed" extended).2 = [] ++ k /\
    ended_ok k (terminal_sent (demo_turn "low" "low" "embed" extended).2).
Proof.
  split; [vm_compute; reflexivity|].
  destruct (terminal_event_last (H0 := demo_env "low" "low" "embed") demo_config (Some superstep_engine) (demo_request extended)
    false demo_world _ _ eq_refl (surjective_pairing _)) as (k & H1 & H2 & _).
  exists k. split; [exact H1|exact H2].
Defined.

Lemma client_confined_witness :
  is_admin (demo_request regular) = false /\
  exists k, events (demo_turn "low" "low" "" regular).2 = [] ++ k /\
    Forall (client_safe (demo_request regular)) k.
Proof.
  split; [vm_compute; reflexivity|].
  exact (client_confined (H0 := demo_env "low" "low" "") demo_config (Some superstep_engine) (demo_request regular)
    false demo_world _ _ eq_refl (surjective_pairing _)).
Defined.

Lemma input_block_unannounced_witness :
  exists r w' e, demo_turn "high" "high" "" regular = (Ok r, w') /\
    get r "outcome" = s_ "guardrail_blocked" /\ get r "guardrail_stage" = s_ "input" /\
    get r "answer" = JStr [] /\ events w' = [] ++ [e] /\ ev_type e = "status" /\
    terminal_sent w' = false.
Proof.
  apply (input_block_unannounced (H0 := demo_env "high" "high" "") demo_config (Some superstep_engine) (demo_request regular)
    demo_world); [reflexivity|vm_compute; discriminate|reflexivity|reflexivity|].
  intros n env Ha. cbn [service_reply demo_env]. unfold demo_service. rewrite Ha.
  destruct (is_str (demo_stage env) "output"); eexists _, _;
    (split; [reflexivity|]); (split; [vm_compute; reflexivity|]); vm_compute; reflexivity.
Defined.
End Witness.
