(* ===== verification/ConversationContext.v ===== *)
(** * The context of a turn

    Theorems about what the model calls of a turn are given: every request carries the one
    committed context, every chunk anywhere in a turn is eligible, the number of generations
    is bounded, and a checkpoint resumes exactly after the node that saved it. *)

From Stdlib Require Import QArith.
From stdpp Require Import base list strings gmap sets pretty.
From S2P Require Import Prelude PyValue ContextAssembler LlmReplies RetrievalTrace CitationMetrics LearnedReranker.
From S2P Require Import ConversationStages ConversationWorld ConversationStore ConversationGraph ConversationFacts ConversationNodes ConversationSafety.

Local Open Scope string_scope.
Local Open Scope list_scope.
Local Open Scope Z_scope.

Section Context.
Context `{PyText} `{Env} (cfg : RAGConfig).

(** ** After the graph *)

(** The result of a turn a guardrail ended: no answer and no sources. *)
Definition blocked_result (r : obj) : Prop :=
  get r "outcome" = s_ "guardrail_blocked" /\ get r "answer" = JStr [] /\ get r "sources" = JArr [].

(** What the exception handlers of [run] do: one checkpoint of the state the turn started
    with, the sources taken from the committed context. *)
Record handled (st : ConversationState) (w : world) (o : outcome py_exn obj) (w' : world) : Prop := {
  ha_events : grows (fun e => ev_type e = "error") (events w) (events w');
  ha_sent : sent w' = sent w;
  ha_context : final_context w' = final_context w;
  ha_saved : grows (fun c => cp_state c = st /\ cp_stage c ∈ ["guardrail_blocked"; "error"])
               (checkpoints (store w)) (checkpoints (store w'));
  ha_result : forall r, o = Ok r ->
    blocked_result r \/
    (get r "outcome" = s_ "failed" /\ get r "sources" = objs (default [] (final_context w)))
}.

Lemma handled_refl st w e : handled st w (Raise e) w.
Proof. split; done || reflexivity. Qed.

Lemma handled_trans st w1 o w2 w3 :
  grows (fun e => ev_type e = "error") (events w1) (events w2) -> sent w2 = sent w1 -> final_context w2 = final_context w1 ->
  grows (fun c => cp_state c = st /\ cp_stage c ∈ ["guardrail_blocked"; "error"])
    (checkpoints (store w1)) (checkpoints (store w2)) ->
  handled st w2 o w3 -> handled st w1 o w3.
Proof.
  intros H0' H1 H2 H3 [A0 A1 A2 A3 A4]. split; [by etrans|congruence|congruence|by etrans|].
  intros r Hr. rewrite <- H2. by apply A4.
Qed.

Lemma save_checkpoint_run request st node stage status extra w o w' :
  stage ∈ ["guardrail_blocked"; "error"] ->
  save_checkpoint_ request st node stage status extra w = (o, w') ->
  events w' = events w /\ sent w' = sent w /\ final_context w' = final_context w /\
  grows (fun c => cp_state c = st /\ cp_stage c ∈ ["guardrail_blocked"; "error"])
    (checkpoints (store w)) (checkpoints (store w')).
Proof.
  intros Hs Hr. pose proof (within_save_checkpoint (mkAllowed (fun _ => False) (fun _ => False)
    (fun c => cp_state c = st /\ cp_stage c ∈ ["guardrail_blocked"; "error"]))
    request st node stage status extra (fun _ => conj eq_refl Hs) w) as [H1 H2 H3 _ H5].
  rewrite Hr in *. apply grows_none in H1; [|intros ? Hx; exact Hx].
  apply grows_none in H2; [|intros ? Hx; exact Hx]. by split_and!.
Qed.

Lemma emit_fields request ty data w o w' :
  emit request ty data w = (o, w') ->
  grows (fun e => ev_type e = ty) (events w) (events w') /\
  sent w' = sent w /\ final_context w' = final_context w /\ store w' = store w.
Proof.
  destruct (emit_cases request ty data w) as [[o' ->]|[(e & o' & w1 & -> & Hb & _ & _ & ->)|[x ->]]];
    intros [= <- <-]; split_and!; try done; try reflexivity.
  apply grows_snoc. by apply build_event_ok in Hb as [? _].
Qed.

Lemma guardrail_handled request st stage w o w' :
  guardrail_handler request st stage w = (o, w') -> handled st w o w'.
Proof.
  unfold guardrail_handler. unfold bind at 1, gets at 1. unfold bind at 1.
  destruct (save_checkpoint_ _ _ _ _ _ _ w) as [o1 w1] eqn:Es.
  apply save_checkpoint_run in Es as (H1 & H2 & H3 & H4); [|set_solver].
  destruct o1 as [[]|e]; intros [= <- <-]; (eapply handled_trans; [by rewrite H1|done..|]).
  - split; try done; try reflexivity. intros r [= <-]. by left.
  - apply handled_refl.
Qed.

Lemma failure_handled request st e w o w' :
  failure_handler request st e w = (o, w') -> handled st w o w'.
Proof.
  unfold failure_handler. unfold bind at 1, gets at 1. unfold bind at 1.
  assert (exists w1, record_llm_failure_evidence e w = (Ok tt, w1) /\ events w1 = events w /\
    sent w1 = sent w /\ final_context w1 = final_context w /\ store w1 = store w)
    as (w1 & -> & A0 & A1 & A2 & A3).
  { destruct e as [|? ? [ev|]| |]; by eexists. }
  unfold bind at 1. destruct (save_checkpoint_ _ _ _ _ _ _ w1) as [o2 w2] eqn:Es.
  apply save_checkpoint_run in Es as (B0 & B1 & B2 & B3); [|set_solver]. rewrite A3 in B3.
  intros Hr. apply (handled_trans st w o w2 w'); [by rewrite B0, A0|congruence|congruence|done|].
  revert Hr.
  destruct o2 as [[]|x]; [|intros [= <- <-]; apply handled_refl].
  unfold bind at 1, gets at 1. unfold bind at 1.
  match goal with |- context [(if terminal_sent w2 then ?a else ?b) w2] =>
    destruct ((if terminal_sent w2 then a else b) w2) as [o3 w3] eqn:Ee end.
  assert (grows (fun e => ev_type e = "error") (events w2) (events w3) /\ sent w3 = sent w2 /\
    final_context w3 = final_context w2 /\ store w3 = store w2) as (C0 & C1 & C2 & C3).
  { destruct (terminal_sent w2); [by injection Ee as <- <-|by eapply emit_fields]. }
  intros Hr. apply (handled_trans st w2 o w3 w'); [done..|by rewrite C3|]. revert Hr.
  destruct o3 as [[]|x]; intros [= <- <-]; [|apply handled_refl].
  split; try done; try reflexivity. intros r [= <-]. right. by split.
Qed.

(** How a turn ends: in a handler, from a world where a node raised, or after the graph
    finished and its context was committed. *)
Lemma turn_cases hl request cp st w1 o w' (I : list NodeName -> ConversationState -> world -> Prop)
    (E : world -> Prop) :
  (cp = None -> st_mode st = mode request) ->
  catch (turn_body cfg hl request cp st) (handlers request st) w1 = (o, w') ->
  (forall path before, EXECUTION_PATHS (st_mode st) = before ++ path -> (cp = None -> before = []) ->
     I path st w1) ->
  (forall n rest st w, place n rest -> I (n :: rest) st w ->
     match wrap_node cfg request n st w with (Ok st', w') => I rest st' w' | (Raise e, w') => E w' end) ->
  (exists w2, E w2 /\ handled st w2 o w') \/
  (exists st' w2 w3, I [] st' w2 /\ commits (retrieved_chunks st') w2 w3 /\
     ((w' = w3 /\ exists r, o = Ok r /\ get r "sources" = objs (default [] (final_context w3))) \/
      handled st w3 o w')).
Proof.
  intros Hm Hc HI Hstep. unfold catch in Hc.
  assert (forall e w2, match handlers request st e with Some k => k w2 | None => (Raise e, w2) end = (o, w') ->
    handled st w2 o w') as Hh.
  { intros e w2. destruct e as [stage|? ? ?|? ?|]; intros Hr.
    - exact (guardrail_handled _ _ _ _ _ _ Hr).
    - exact (failure_handled _ _ _ _ _ _ Hr).
    - exact (failure_handled _ _ _ _ _ _ Hr).
    - injection Hr as <- <-. apply handled_refl. }
  revert Hc. unfold turn_body. unfold bind at 1.
  destruct (run_graph_path cfg hl request cp st w1 Hm) as (before & path & Hp & _ & Hb & ->).
  pose proof (run_nodes_inv (wrap_node cfg request) I E _ _ _ Hp
    (fun before n rest st w Hb => Hstep n rest st w (path_place _ _ _ _ Hb)) st w1 (HI _ _ Hp Hb)) as Hrun.
  destruct (run_nodes _ path st w1) as [[st'|e] w2]; [|intros Hc; left; by eauto].
  intros Hc. right. exists st', w2. revert Hc. unfold bind at 1.
  destruct (commit_final_context st' w2) as [o3 w3] eqn:Ec. apply commit_run in Ec.
  intros Hc. exists w3. split; [done|]. split; [done|]. revert Hc.
  destruct o3 as [[]|e]; [|by eauto].
  unfold bind, gets, lift, ret. destruct (build_result _ _) as [r|e] eqn:Er; [|by eauto].
  intros [= <- <-]. left. split; [done|]. eexists. split; [done|]. revert Er. unfold build_result.
  destruct (citation_metrics st'); cbn; [|done]. by intros [= <-].
Qed.

Lemma added_running request n rest st w w' st1 k xs cs :
  place n rest -> added cfg request n st w w' st1 k xs cs -> rest <> [] -> terminal_sent w' = false.
Proof.
  intros Hpl Had Hr. destruct (ad_shape _ _ _ _ _ _ _ _ _ _ Had) as [| |? ? Hn]; [done..|].
  by apply (pl_done _ _ Hpl) in Hn.
Qed.

(** ** One context per turn *)

(** Requests that either carry no context or carry these chunks. *)
Definition fed (c : list obj) (xs : list (obj * outcome py_exn json)) : Prop :=
  Forall (fun x => quiet_env x.1 \/ carries c x.1) xs.

Section Fed.
(** [R] holds of the chunks of the checkpoint the turn resumes, if it does. *)
Context (R : list obj -> Prop) (w0 : world).

(** The committed context is [c], or none is and the turn resumed past the commit. *)
Definition held (w : world) (c : list obj) : Prop :=
  match final_context w with Some c' => c' = c | None => R c end.

Definition fed_since (w : world) (c : list obj) : Prop :=
  exists xs, sent w = sent w0 ++ xs /\ fed c xs /\
    match final_context w with
    | Some c' => c' = c
    | None => Forall (fun x => quiet_env x.1) xs \/ R c
    end.

Definition context_inv (rest : list NodeName) (st : ConversationState) (w : world) : Prop :=
  (rest <> [] -> terminal_sent w = false) /\
  exists xs, sent w = sent w0 ++ xs /\
    if existsb generates rest
    then Forall (fun x => quiet_env x.1) xs /\ final_context w = None
    else fed (retrieved_chunks st) xs /\ held w (retrieved_chunks st).

Lemma context_inv_fed rest st w : context_inv rest st w -> exists c, fed_since w c.
Proof.
  intros (_ & xs & H1 & Hi). destruct (existsb generates rest); destruct Hi as [H2 H3].
  - exists [], xs. rewrite H3. split; [done|]. split; [|by left]. eapply Forall_impl; [exact H2|]. by left.
  - exists (retrieved_chunks st), xs. split; [done|]. split; [done|]. unfold held in H3.
    destruct (final_context w); [done|by right].
Qed.

Lemma fed_app c xs ys : fed c xs -> fed c ys -> fed c (xs ++ ys).
Proof. apply Forall_app_2. Qed.

Lemma fed_requests request n st xs :
  Forall (sent_ok (al_sent (node_allowed request n st))) xs -> fed (retrieved_chunks st) xs.
Proof. intros Hx. eapply Forall_impl; [exact Hx|]. intros x [?|(_ & ? & _)]; [by left|by right]. Qed.

Lemma context_inv_step request n rest st w :
  place n rest -> context_inv (n :: rest) st w ->
  match wrap_node cfg request n st w with
  | (Ok st', w') => context_inv rest st' w'
  | (Raise e, w') => exists c, fed_since w' c
  end.
Proof.
  intros Hpl Hinv. pose proof Hinv as (Hterm & xs & A1 & Hctx).
  destruct (wrap_node cfg request n st w) as [o w'] eqn:Ew.
  apply wrap_node_effect in Ew as [(e & -> & _ & H2 & _ & _ & H5)|(st1 & k & xs' & cs & Had & Hst)];
    [| |by apply Hterm].
  { destruct (context_inv_fed _ _ _ Hinv) as (c & ys & B1 & B2 & B3). exists c, ys. by rewrite H2, H5. }
  pose proof (added_running _ _ _ _ _ _ _ _ _ _ Hpl Had) as Hrun. destruct Had as [Hent _ Hsent _ _ Hreq _].
  enough (context_inv rest st1 w' /\ retrieves n = false \/
          (existsb generates rest = true /\ context_inv rest st1 w')) as Hnext.
  { destruct o as [st'|e]; [|destruct Hnext as [[Hn _]|[_ Hn]]; by eapply context_inv_fed].
    destruct (Hst st' eq_refl) as [[_ _ Hsame] _].
    destruct Hnext as [[(? & ys & ? & Hn) Hr]|[Hg (? & ys & ? & Hn)]]; (split; [done|]); exists ys; (split; [done|]).
    - by rewrite (Hsame Hr).
    - by rewrite Hg in Hn |- *. }
  assert (sent w' = sent w0 ++ xs ++ xs') as Hs by by rewrite Hsent, A1, app_assoc.
  cbn [existsb] in Hctx. destruct Hent as [(Hg & -> & Hf)|(m & chunks & Hg & Ha & -> & Hf)].
  - assert (generates n = false) as Hgn by (unfold generates; by rewrite Hg).
    rewrite Hgn in Hctx. cbn [orb] in Hctx. unfold context_inv, held. rewrite Hf.
    destruct (existsb generates rest) eqn:Er; destruct Hctx as [A2 A3].
    + right. split; [done|]. split; [done|]. exists (xs ++ xs'). split; [done|]. split; [|done].
      apply Forall_app_2; [done|]. eapply Forall_impl; [exact Hreq|].
      intros x [?|(Hs' & _)]; [done|]. destruct (pl_before _ _ Hpl Er); congruence.
    + left. split; [|apply (pl_after _ _ Hpl); cbn; by rewrite Hgn]. split; [done|].
      exists (xs ++ xs'). split; [done|]. split; [|done]. apply fed_app; [done|]. by eapply fed_requests.
  - assert (generates n = true) as Hgn by (unfold generates; by rewrite Hg).
    rewrite Hgn in Hctx. destruct Hctx as [A2 A3].
    left. split; [|by destruct n]. split; [done|]. exists (xs ++ xs'). split; [done|].
    assert (existsb generates rest = false) as ->.
    { apply not_true_iff_false. intros Hr. destruct (pl_before _ _ Hpl Hr). congruence. }
    unfold held. rewrite Hf, A3. split; [|done].
    apply fed_app; [|by eapply fed_requests]. eapply Forall_impl; [exact A2|]. by left.
Qed.

(** How the sources of a result relate to the committed context. *)
Definition result_sources (c : list obj) (w : world) (r : obj) : Prop :=
  (final_context w = Some c /\ get r "sources" = objs c) \/
  (get r "outcome" = s_ "failed" /\ get r "sources" = objs (default [] (final_context w))) \/
  blocked_result r.

Lemma fed_handled w st o w' c :
  fed_since w c -> handled st w o w' ->
  fed_since w' c /\ forall r, o = Ok r -> result_sources c w' r.
Proof.
  intros (xs & A1 & A2 & A3) [_ B1 B2 _ B4]. split; [exists xs; by rewrite B1, B2|].
  intros r Hr. right. rewrite B2. destruct (B4 r Hr) as [?|?]; [by right|by left].
Qed.
End Fed.

(** The chunks of a stored checkpoint. *)
Definition stored_chunks (resume : bool) (w : world) (c : list obj) : Prop :=
  resume = true /\ exists cp, cp ∈ checkpoints (store w) /\ c = retrieved_chunks (cp_state cp).

(** The context of a turn from [w] to [w']: every request for an answer, a revision or an
    evaluation carries the passages of [c]; [c] is what is committed as the final context.
    When nothing is committed, no such request was made, or the turn resumed past the
    generation from a stored checkpoint and [c] are the chunks of that checkpoint. *)
Definition turn_context (resume : bool) (w w' : world) (c : list obj) : Prop :=
  exists xs, sent w' = sent w ++ xs /\
    (forall x ctx, x ∈ xs -> ctx_of x.1 = Some ctx -> ctx = JArr (map JObj (chunk_passages c))) /\
    match final_context w' with
    | Some c' => c' = c
    | None => (forall x, x ∈ xs -> ctx_of x.1 = None /\ is_generation x.1 = false) \/
              stored_chunks resume w c
    end.

Lemma fed_turn_context resume w w' c : fed_since (stored_chunks resume w) w w' c -> turn_context resume w w' c.
Proof.
  intros (xs & H1 & H2 & H3). exists xs. split; [done|]. unfold fed in H2. rewrite Forall_forall in H2. split.
  - intros x ctx Hx Hctx. destruct (H2 x Hx) as [[Hq _]|Hc]; [congruence|]. unfold carries in Hc. congruence.
  - destruct (final_context w'); [done|]. destruct H3 as [H3|H3]; [left|by right].
    rewrite Forall_forall in H3. exact H3.
Qed.

Lemma run_context hl request resume w o w' :
  terminal_sent w = false -> final_context w = None -> run cfg hl request resume w = (o, w') ->
  exists c, turn_context resume w w' c /\ forall r, o = Ok r -> result_sources c w' r.
Proof.
  intros Ht Hf Hr. enough (exists c, fed_since (stored_chunks resume w) w w' c /\
    forall r, o = Ok r -> result_sources c w' r) as (c & H1 & H2).
  { exists c. split; [by apply fed_turn_context|done]. }
  apply run_start in Hr as [(e & -> & [_ S2 _ _ S5])|(cp & w1 & [_ S2 _ S4 S5] & Hcp & Hc)].
  { exists []. split; [|done]. exists []. rewrite app_nil_r, S5, Hf. split; [done|]. split; [constructor|].
    left. constructor. }
  cbn zeta in Hc. eapply (turn_cases _ _ _ _ _ _ _ (context_inv (stored_chunks resume w) w)
    (fun w' => exists c, fed_since (stored_chunks resume w) w w' c)) in Hc.
  - destruct Hc as [(w2 & (c & Hfed) & Hh)|(st' & w2 & w3 & (_ & xs & A1 & A2 & A3) & [C1 C2 _ _ C5] & Hend)].
    { exists c. by eapply fed_handled. }
    exists (retrieved_chunks st').
    assert (final_context w3 = Some (retrieved_chunks st')) as Hw3.
    { unfold held in A3. rewrite C5. by destruct (final_context w2) as [c|]; [rewrite A3|]. }
    assert (fed_since (stored_chunks resume w) w w3 (retrieved_chunks st')) as Hfed
      by (exists xs; by rewrite C2, Hw3).
    destruct Hend as [(-> & r & -> & Hsrc)|Hh]; [|by eapply fed_handled].
    split; [done|]. intros r' [= <-]. left. by rewrite Hsrc, Hw3.
  - apply start_mode.
  - intros path before Hp Hb. split; [by rewrite S4|]. exists []. rewrite S2, app_nil_r. split; [done|].
    destruct (existsb generates path) eqn:Eg; [by rewrite S5|]. split; [constructor|].
    unfold held. rewrite S5, Hf. destruct cp as [c|].
    + destruct (Hcp c eq_refl) as [-> Hin]. split; [done|]. by exists c.
    + rewrite (Hb eq_refl) in Hp. cbn in Hp. rewrite <- Hp in Eg. by destruct (mode request).
  - intros n rest st1 w2. apply context_inv_step.
Qed.

(** C3: one context per turn.  There is one list of chunks such that every request a turn makes
    for an answer, a revision or an evaluation carries exactly their passages, and it is the
    list committed as the final context; if nothing is committed, the turn made no such
    request, or it was resumed past the generation from a stored checkpoint, whose chunks they
    are.  A result reports those chunks as its sources and they are committed, unless the turn
    failed (then the sources are what was committed, or none) or a guardrail ended it (no
    answer and no sources). *)
Theorem one_context_per_turn hl request resume w o w' :
  terminal_sent w = false -> final_context w = None -> run cfg hl request resume w = (o, w') ->
  exists c, turn_context resume w w' c /\ forall r, o = Ok r -> result_sources c w' r.
Proof. apply run_context. Qed.

(** ** Eligibility *)

Definition eligible_state (st : ConversationState) : Prop := Forall eligible (retrieved_chunks st).

(** A final event reports only eligible chunks. *)
Definition done_eligible (e : event) : Prop :=
  ev_type e = "done" -> exists l, get (ev_data e) "sources" = objs l /\ Forall eligible l.

Record eligible_since (w0 w : world) : Prop := {
  es_events : grows done_eligible (events w0) (events w);
  es_saved : grows (fun c => eligible_state (cp_state c)) (checkpoints (store w0)) (checkpoints (store w));
  es_context : forall c, final_context w = Some c -> Forall eligible c
}.

Definition eligible_inv (w0 : world) (rest : list NodeName) (st : ConversationState) (w : world) : Prop :=
  (rest <> [] -> terminal_sent w = false) /\ eligible_state st /\ eligible_since w0 w.

Lemma shape_eligible request n st xs k t :
  eligible_state st -> event_shape request n st xs k t -> Forall done_eligible k.
Proof.
  assert (forall k, Forall (plain request) k -> Forall done_eligible k) as Hplain.
  { intros k' Hk. eapply Forall_impl; [exact Hk|]. intros e [He%list_elem_of_In _] Hd.
    rewrite Hd in He. by destruct He as [?|[?|[?|[]]]]. }
  intros He [k' Hk|k1 ks k2 x a _ H1 H2 _ _ Hsp|k' e _ Hk [Ht Hd]].
  - by apply Hplain.
  - apply Forall_app_2; [by apply Hplain|]. apply Forall_app_2; [|by apply Hplain].
    destruct Hsp as (said & whole & Hf & _). apply Forall_forall. intros e Hin Hd.
    apply list_elem_of_lookup in Hin as [i Hi].
    destruct (Forall2_lookup_l _ _ _ _ _ Hf Hi) as (t' & _ & Ht' & _). congruence.
  - apply Forall_app_2; [by apply Hplain|]. apply Forall_singleton. intros _.
    exists (retrieved_chunks st). split; [|done]. rewrite Hd. unfold public_data.
    destruct (negb _ && _); [|done]. unfold get, get_or. by rewrite !obj_get_pop.
Qed.

Lemma eligible_inv_step w0 request n rest st w :
  place n rest -> eligible_inv w0 (n :: rest) st w ->
  match wrap_node cfg request n st w with
  | (Ok st', w') => eligible_inv w0 rest st' w'
  | (Raise e, w') => eligible_since w0 w'
  end.
Proof.
  intros Hpl (Hterm & Hst & Hsince).
  destruct (wrap_node cfg request n st w) as [o w'] eqn:Ew.
  apply wrap_node_effect in Ew as [(e & -> & H1 & H2 & H3 & _ & H5)|(st1 & k & xs & cs & Had & Hnext)];
    [| |by apply Hterm].
  { destruct Hsince as [A1 A3 A4]. split; by rewrite ?H1, ?H3, ?H5. }
  pose proof (added_running _ _ _ _ _ _ _ _ _ _ Hpl Had) as Hrun.
  destruct Had as [Hent He Hs Hc Hshape Hreq Hcp]. destruct Hsince as [A1 A3 A4].
  assert (eligible_state st1 /\ forall c, final_context w' = Some c -> Forall eligible c) as [Hst1 Hctx].
  { destruct Hent as [(_ & -> & ->)|(m & chunks & _ & Ha & -> & ->)]; [done|].
    assert (Forall eligible chunks) as Hch by by eapply assemble_eligible.
    split; [done|]. intros c [= <-]. destruct (final_context w) as [c'|] eqn:Ef; [|done].
    by apply A4. }
  assert (eligible_since w0 w') as Hsince.
  { split; [rewrite He|rewrite Hc|done].
    - etrans; [exact A1|]. exists k. split; [done|]. by eapply shape_eligible.
    - etrans; [exact A3|]. exists cs. split; [done|]. eapply Forall_impl; [exact Hcp|].
      intros c Hcs. by apply Hcs. }
  destruct o as [st'|e]; [|done]. destruct (Hnext st' eq_refl) as [[_ Hel _] _].
  split; [done|]. split; [|done]. by apply Hel.
Qed.

Definition sources_eligible (o : outcome py_exn obj) : Prop :=
  forall r, o = Ok r -> exists l, get r "sources" = objs l /\ Forall eligible l.

Lemma eligible_handled w0 w st o w' :
  eligible_since w0 w -> eligible_state st -> handled st w o w' ->
  eligible_since w0 w' /\ sources_eligible o.
Proof.
  intros [A1 A3 A4] Hst [B0 B1 B2 B3 B4]. split.
  - split; [| |by rewrite B2].
    + etrans; [exact A1|]. eapply grows_mono; [|exact B0]. intros e He Hd. congruence.
    + etrans; [exact A3|]. eapply grows_mono; [|exact B3]. by intros c [-> _].
  - intros r Hr. destruct (B4 r Hr) as [(_ & _ & ->)|[_ ->]]; [by exists []|].
    destruct (final_context w) as [c|] eqn:Ec; [|by exists []]. exists c. split; [done|by apply A4].
Qed.

Lemma run_eligible hl request resume w o w' :
  terminal_sent w = false -> final_context w = None ->
  Forall (fun c => eligible_state (cp_state c)) (checkpoints (store w)) ->
  run cfg hl request resume w = (o, w') -> eligible_since w w' /\ sources_eligible o.
Proof.
  intros Ht Hf Hcps Hr.
  apply run_start in Hr as [(e & -> & [S1 S2 S3 _ S5])|(cp & w1 & [S1 S2 S3 S4 S5] & Hcp & Hc)].
  { split; [|done]. split; rewrite ?S1, ?S3, ?S5, ?Hf; done || reflexivity. }
  cbn zeta in Hc. assert (eligible_state (start_state request cp)) as Hst.
  { destruct cp as [c|]; [|constructor]. destruct (Hcp c eq_refl) as [_ Hin].
    rewrite Forall_forall in Hcps. by apply Hcps. }
  eapply (turn_cases _ _ _ _ _ _ _ (eligible_inv w) (eligible_since w)) in Hc.
  - destruct Hc as [(w2 & Hs & Hh)|(st' & w2 & w3 & (_ & Hst' & [A1 A3 A4]) & [C1 C2 C3 _ C5] & Hend)].
    { by eapply eligible_handled. }
    assert (eligible_since w w3) as Hs.
    { split; rewrite ?C1, ?C3; try done. rewrite C5. intros c [= <-].
      destruct (final_context w2) as [c|]; [by apply A4|exact Hst']. }
    destruct Hend as [(-> & r & -> & Hsrc)|Hh]; [|by eapply eligible_handled].
    split; [done|]. intros r' [= <-]. rewrite Hsrc, C5. eexists. split; [done|].
    apply (es_context _ _ Hs). by rewrite C5.
  - apply start_mode.
  - intros path before _ _. split; [by rewrite S4|]. split; [done|].
    split; rewrite ?S1, ?S3, ?S5, ?Hf; done || reflexivity.
  - intros n rest st1 w2. apply eligible_inv_step.
Qed.

(** C2: only eligible evidence.  If the chunks in the stored checkpoints are eligible (retrieval
    allowed, not removed), then after any turn, fresh or resumed, in both modes, successful or
    not: the context of the turn (the committed chunks, or those of the checkpoint it resumed
    past the generation), whose passages are what every request for an answer, a revision or
    an evaluation carries, is eligible; and so are the chunks of every checkpoint and the
    sources of the final event and of the result.  No ranking, merging, truncation or
    resumption lets in a chunk the review excluded. *)
Theorem evidence_eligible hl request resume w o w' :
  terminal_sent w = false -> final_context w = None ->
  Forall (fun c => eligible_state (cp_state c)) (checkpoints (store w)) ->
  run cfg hl request resume w = (o, w') ->
  (exists c, turn_context resume w w' c /\ Forall eligible c) /\ eligible_since w w' /\
  Forall (fun c => eligible_state (cp_state c)) (checkpoints (store w')) /\ sources_eligible o.
Proof.
  intros Ht Hf Hcps Hr. destruct (run_eligible hl request resume w o w' Ht Hf Hcps Hr) as [Hs Ho].
  destruct (run_context hl request resume w o w' Ht Hf Hr) as (c & Hc & _).
  split; [|split; [done|]; split; [|done]].
  - destruct Hc as (xs & H1 & H2 & H3). destruct (final_context w') as [c'|] eqn:Ec.
    + exists c. split; [exists xs; by rewrite Ec|]. apply (es_context _ _ Hs). by rewrite Ec, H3.
    + destruct H3 as [H3|(Hres & cp & Hin & ->)].
      * exists []. split; [|constructor]. exists xs. rewrite Ec. split_and!; [done| |by left].
        intros x ctx Hx Hctx. destruct (H3 x Hx). congruence.
      * exists (retrieved_chunks (cp_state cp)). split.
        { exists xs. rewrite Ec. split_and!; [done..|]. right. split; [done|]. by exists cp. }
        rewrite Forall_forall in Hcps. by apply Hcps.
  - destruct (es_saved _ _ Hs) as (cs & -> & Hcs). by apply Forall_app_2.
Qed.

(** ** The number of generations *)

(** The requests for an answer on record. *)
Definition generations (l : list (obj * outcome py_exn json)) : nat :=
  length (List.filter (fun x => is_generation x.1) l).

Lemma generations_app l k : generations (l ++ k) = (generations l + generations k)%nat.
Proof. unfold generations. by rewrite List.filter_app, length_app. Qed.

Lemma generations_none l : Forall (fun x => is_generation x.1 = false) l -> generations l = 0%nat.
Proof. unfold generations. induction 1 as [|x l Hx _ IH]; [done|]. cbn. by rewrite Hx. Qed.

(** A computation that asks for at most [k] answers. *)
Definition asks {A} (k : nat) (c : M A) : Prop :=
  forall w, (generations (sent (c w).2) <= generations (sent w) + k)%nat.

Lemma asks_bind {A B} j k (c : M A) (f : A -> M B) :
  asks j c -> (forall a, asks k (f a)) -> asks (j + k) (bind c f).
Proof.
  intros Hc Hf w. unfold bind. specialize (Hc w). destruct (c w) as [[a|e] w1]; cbn in *; [|lia].
  specialize (Hf a w1). lia.
Qed.

Lemma asks_mono {A} j k (c : M A) : asks j c -> (j <= k)%nat -> asks k c.
Proof. intros Hc Hk w. specialize (Hc w). lia. Qed.

Definition no_generation : allowed :=
  mkAllowed (fun _ => True) (fun env => is_generation env = false) (fun _ => True).

#[local] Instance no_generation_quiet : Quiet no_generation.
Proof. by intros env [_ ?]. Qed.
#[local] Instance no_generation_plain request : Plain request no_generation.
Proof. done. Qed.

Lemma asks_within {A} a (c : M A) :
  within (respects a) c -> (forall env, al_sent a env -> is_generation env = false) -> asks 0 c.
Proof.
  intros Hc Ha w. destruct (Hc w) as [_ (k & -> & Hk) _ _ _].
  rewrite generations_app, (generations_none k); [lia|]. eapply Forall_impl; [exact Hk|].
  intros x. apply Ha.
Qed.

Lemma asks_none {A} (c : M A) : within (respects no_generation) c -> asks 0 c.
Proof. intros Hc. by eapply asks_within. Qed.

Lemma asks_then {A B} k (c : M A) (f : A -> M B) :
  within (respects no_generation) c -> (forall a, asks k (f a)) -> asks k (bind c f).
Proof. intros Hc Hf. apply (asks_bind 0 k); [by apply asks_none|done]. Qed.

Lemma asks_generate request prompt rid : asks 1 (generate_answer_rpc request prompt rid).
Proof.
  unfold generate_answer_rpc. apply asks_then; [apply within_envelope|]. intros env.
  apply (asks_bind 1 0); [|intros [chunks reply]; apply asks_none; within_walk].
  unfold request_stream. apply (asks_bind 0 1); [by intros w; cbn; lia|]. intros n.
  destruct (service_stream n env) as [stream reply]. apply (asks_bind 1 0).
  - intros w. cbn [modify snd].
    change (sent _) with (sent w ++ [(env, reply)]) at 1. rewrite generations_app.
    unfold generations at 2. cbn. destruct (is_generation env); cbn; lia.
  - intros _. apply asks_none.
    apply within_bind; [typeclasses eauto|apply within_stream_events|intros ?; within_walk].
Qed.

Hint Extern 4 (within _ (save_checkpoint_ _ _ _ _ _ _)) => apply within_save_checkpoint; done : effects.
Hint Extern 4 (within _ (modify _)) => apply within_silent; intros ?; done : effects.

Lemma asks_generate_common request st source mode node issues rev :
  asks 1 (generate_common cfg request st source mode node issues rev).
Proof.
  unfold generate_common. apply asks_then; [apply within_lift; typeclasses eauto|intros prompt].
  apply asks_then; [by apply within_silent|intros _].
  apply (asks_bind 1 0); [apply asks_generate|intros response]. apply asks_none.
  within_walk.
Qed.

Lemma asks_emit request ty data : asks 0 (emit request ty data).
Proof.
  intros w. destruct (emit request ty data w) as [o w'] eqn:E.
  apply emit_fields in E as (_ & Hs & _). cbn. rewrite Hs. lia.
Qed.

Definition asks_of (n : NodeName) : nat := if asks_answer n then 1 else 0.

Lemma asks_node request n st : asks (asks_of n) (node_map cfg request n st).
Proof.
  unfold asks_of. destruct (releases n) eqn:Hr.
  { apply bool_decide_eq_true, list_elem_of_In in Hr as [<-|[<-|[]]]; cbn [node_map].
    - intros w. destruct (node_output_guardrails cfg request st w) as [o w'] eqn:E.
      apply output_guardrails_run in E as (x & ks & Hs & [_ Hq] & _). cbn. rewrite Hs, generations_app.
      rewrite (generations_none [x]); [lia|by apply Forall_singleton].
    - apply (asks_bind 0 0); [apply asks_emit|]. intros _. apply asks_none. within_walk. }
  destruct (asks_answer n) eqn:Ha.
  - apply bool_decide_eq_true, list_elem_of_In in Ha as [<-|[<-|[<-|[]]]]; cbn [node_map].
    + apply asks_generate_common.
    + apply asks_generate_common.
    + unfold node_revise_once_if_needed. cbn zeta. destruct (_ || _); [by intros w; cbn; lia|].
      apply (asks_bind 1 0); [apply asks_generate_common|]. intros r. apply asks_none. within_walk.
  - destruct (quiet_node_ok cfg request n Hr st) as [Hw _]. eapply asks_within; [exact Hw|].
    intros env [[_ ?]|(_ & _ & Hg)]; [done|]. destruct (is_generation env); [|done].
    by rewrite Hg in Ha.
Qed.

Lemma asks_wrap request n st : asks (asks_of n) (wrap_node cfg request n st).
Proof.
  rewrite wrap_node_body. apply asks_then; [by apply within_silent|intros _].
  apply (asks_bind 0 (asks_of n)).
  { intros w. destruct (enter_generation cfg request n st w) as [o w'] eqn:E. cbn.
    apply enter_run in E as [(_ & _ & ->)|[(? & ? & _ & _ & _ & ->)|(? & ? & _ & _ & [_ -> _ _ _] & _)]]; lia. }
  intros st1. unfold node_body. apply (asks_bind 0 (asks_of n)); [apply asks_emit|intros _].
  replace (asks_of n) with (asks_of n + 0)%nat by lia. apply asks_bind; [apply asks_node|intros r].
  eapply asks_within; [apply close_events|]. done.
Qed.

Lemma asks_path request path st :
  asks (list_sum (map asks_of path)) (run_nodes (wrap_node cfg request) path st).
Proof.
  revert st. induction path as [|n path IH]; intros st; [by intros w; cbn; lia|].
  cbn. apply asks_bind; [apply asks_wrap|apply IH].
Qed.

Lemma asks_suffix m before path :
  EXECUTION_PATHS m = before ++ path ->
  (list_sum (map asks_of path) <= match m with regular => 1 | extended => 2 end)%nat.
Proof.
  intros Hp. assert (list_sum (map asks_of (EXECUTION_PATHS m)) =
    match m with regular => 1 | extended => 2 end)%nat as Hall by by destruct m.
  rewrite Hp, map_app, list_sum_app in Hall. lia.
Qed.

(** The generations a turn may cost: a resumed turn runs in the mode of its checkpoint. *)
Definition generation_bound (request : ConversationRequest) (resume : bool) : nat :=
  match mode request with regular => if resume then 2 else 1 | extended => 2 end.

(** a turn asks the model for at most one answer in regular mode and at most two in
    extended mode (the draft and a single revision), also when it is resumed, retried by
    the revision node, or fails half way. *)
Theorem generations_bounded hl request resume w :
  (generations (sent (run cfg hl request resume w).2) <=
   generations (sent w) + generation_bound request resume)%nat.
Proof.
  destruct (run cfg hl request resume w) as [o w'] eqn:Hr. cbn [snd].
  apply run_start in Hr as [(e & _ & [_ -> _ _ _])|(cp & w1 & [_ <- _ _ _] & Hcp & Hc)]; [lia|].
  cbn zeta in Hc. eapply (turn_cases _ _ _ _ _ _ _
    (fun path _ w2 => generations (sent w2) + list_sum (map asks_of path) <=
                      generations (sent w1) + generation_bound request resume)%nat
    (fun w2 => generations (sent w2) <= generations (sent w1) + generation_bound request resume)%nat) in Hc.
  - destruct Hc as [(w2 & Hs & [_ -> _ _ _])|(st' & w2 & w3 & Hs & [_ C2 _ _ _] & Hend)]; [done|].
    cbn in Hs. destruct Hend as [[-> _]|[_ -> _ _ _]]; rewrite C2; lia.
  - apply start_mode.
  - intros path before Hp _. apply asks_suffix in Hp. unfold generation_bound.
    destruct cp as [c|].
    + destruct (Hcp c eq_refl) as [-> _]. revert Hp. destruct (mode request), (st_mode (start_state request (Some c))); lia.
    + cbn [start_state build_initial_state st_mode] in Hp. revert Hp. destruct (mode request), resume; lia.
  - intros n rest st w2 _ Hs.
    change (list_sum (map asks_of (n :: rest))) with (asks_of n + list_sum (map asks_of rest))%nat in Hs.
    pose proof (asks_wrap (restore_request request cp) n st w2) as Ha.
    destruct (wrap_node cfg _ n st w2) as [[st'|e] w3]; cbn [snd] in Ha; lia.
Qed.
End Context.

(** ** Evaluation of a turn *)

Section Witness.
#[local] Existing Instance ascii_text.

(** Of the three chunks found, the eligible one is the context. *)
Example demo_sources :
  match (demo_turn "low" "low" "" extended).1 with
  | Ok r => match get r "sources" with
            | JArr l => map (fun c => match c with JObj c => get c "chunk_id" | _ => JNull end) l
            | _ => []
            end
  | Raise _ => []
  end = [s_ "c1"].
Proof. vm_compute. reflexivity. Qed.

Lemma one_context_per_turn_witness :
  generations (sent (demo_turn "low" "low" "" extended).2) = 1%nat /\
  exists c, turn_context false demo_world (demo_turn "low" "low" "" extended).2 c /\
    forall r, (demo_turn "low" "low" "" extended).1 = Ok r ->
      result_sources c (demo_turn "low" "low" "" extended).2 r.
Proof.
  split; [vm_compute; reflexivity|].
  exact (one_context_per_turn (H0 := demo_env "low" "low" "") demo_config (Some superstep_engine)
    (demo_request extended) false demo_world _ _ eq_refl eq_refl (surjective_pairing _)).
Defined.

Lemma evidence_eligible_witness :
  length (checkpoints (store (demo_turn "low" "low" "" regular).2)) = 7%nat /\
  Forall (fun c => eligible_state (cp_state c)) (checkpoints (store (demo_turn "low" "low" "" regular).2)).
Proof.
  split; [vm_compute; reflexivity|].
  apply (evidence_eligible (H0 := demo_env "low" "low" "") demo_config (Some superstep_engine) (demo_request regular)
    false demo_world _ _ eq_refl eq_refl (List.Forall_nil _) (surjective_pairing _)).
Defined.
End Witness.
