(* ===== verification/ConversationResume.v ===== *)
(** * Checkpoints and resumption

    What a milestone checkpoint of a node holds and what resuming from it runs, and what is
    left to resume from after a failed turn. *)

From Stdlib Require Import QArith.
From stdpp Require Import base list strings gmap sets pretty.
From S2P Require Import Prelude PyValue ContextAssembler LlmReplies RetrievalTrace CitationMetrics LearnedReranker.
From S2P Require Import ConversationStages ConversationWorld ConversationStore ConversationGraph ConversationFacts ConversationNodes ConversationSafety ConversationContext.

Local Open Scope string_scope.
Local Open Scope list_scope.
Local Open Scope Z_scope.

(** The stage a node saves its milestone under, for the nodes that save exactly one checkpoint
    whenever they complete.  Not among them: [input_guardrails], whose checkpoint is the start
    of the graph; [revise_once_if_needed], which saves only when it revises, and then under the
    stage of the generation, so that a resume evaluates the revised answer again; and
    [persist_turn], which completes also when its checkpoint could not be stored. *)
Definition milestone (n : NodeName) : option string :=
  match n with
  | load_short_term_context => Some "after_context_load"
  | retrieve_chunks_once => Some "after_retrieval"
  | retrieve_pass_one => Some "after_pass_one"
  | retrieve_pass_two_if_needed => Some "after_pass_two"
  | rerank_candidates => Some "after_final_ranking"
  | generate_answer | generate_draft_answer => Some "after_generation"
  | evaluate_answer_light | evaluate_answer_deep => Some "after_evaluation"
  | _ => None
  end.

Lemma milestone_completes m n stage :
  milestone n = Some stage -> n ∈ EXECUTION_PATHS m -> completed_node m stage = Some n.
Proof.
  destruct n; intros [= <-] Hin; destruct m; try reflexivity; exfalso; revert Hin;
    apply (bool_decide_unpack (_ ∉ _)); exact I.
Qed.

Section Resume.
Context `{PyText} `{Env} (cfg : RAGConfig) (request : ConversationRequest).

Definition no_saves : allowed := mkAllowed (fun _ => True) (fun _ => True) (fun _ => False).

#[local] Instance no_saves_quiet : Quiet no_saves.
Proof. by intros env ?. Qed.
#[local] Instance no_saves_plain : Plain request no_saves.
Proof. done. Qed.

(** The checkpoint a node writes for this turn. *)
Definition turn_checkpoint (stage : string) (st : ConversationState) (c : Checkpoint) : Prop :=
  cp_stage c = stage /\ cp_state c = st /\ cp_conversation_id c = conversation_id request /\
  cp_request_id c = request_id request /\ cp_ownership c = ownership.

(** A node that, when it completes, has saved exactly the state it returns. *)
Definition saves (stage : string) (st : ConversationState) (c : M (ConversationState * node_meta)) : Prop :=
  forall w r w', c w = (Ok r, w') -> trace_events r.1 = trace_events st /\
    exists cp, checkpoints (store w') = checkpoints (store w) ++ [cp] /\ turn_checkpoint stage r.1 cp.

Lemma within_no_saves {A} (c : M A) w :
  within (respects no_saves) c -> checkpoints (store (c w).2) = checkpoints (store w).
Proof. intros Hc. destruct (Hc w) as [_ _ H3 _ _]. by apply grows_none in H3; [|intros ? Hx; exact Hx]. Qed.

Lemma saves_then {A} stage st (c : M A) k :
  within (respects no_saves) c -> (forall a, saves stage st (k a)) -> saves stage st (bind c k).
Proof.
  intros Hc Hk w r w'. unfold bind. pose proof (within_no_saves c w Hc) as Hw.
  destruct (c w) as [[a|e] w1]; [|done]. cbn in Hw. rewrite <- Hw. apply Hk.
Qed.

Lemma saves_end stage st snapshot node status extra (k : unit -> M (ConversationState * node_meta)) :
  trace_events snapshot = trace_events st ->
  (forall u, spec (respects no_saves) (k u) (fun r => r.1 = snapshot)) ->
  saves stage st (bind (save_checkpoint_ request snapshot node stage status extra) k).
Proof.
  intros Ht Hk w r w'. unfold bind at 1, save_checkpoint_, p_save_checkpoint, store_op, bind, utc_now_iso, interact.
  destruct (store_fault _); [done|]. intros Hr. destruct (Hk tt) as [Hw Hv].
  apply (Hv _ r w') in Hr as Hr1. rewrite Hr1. split; [done|].
  match type of Hr with k tt ?w1 = _ => pose proof (within_no_saves (k tt) w1 Hw) as Hs end.
  rewrite Hr in Hs. cbn in Hs. rewrite Hs. eexists. split; [reflexivity|]. done.
Qed.

Hint Extern 4 (within _ (modify _)) => apply within_silent; intros ?; done : effects.
Hint Resolve within_run_searches : effects.

Ltac saves_walk :=
  repeat first
    [ apply saves_end; [done|intros ?; spec_walk; done]
    | apply saves_then; [solve [eauto with effects typeclass_instances]|intros ?]
    | match goal with
      | |- saves _ _ (if ?b then _ else _) => destruct b
      | |- saves _ _ (let _ := _ in _) => cbn zeta
      end ].

Lemma saves_generate stage st source mode node issues rev :
  stage = "after_generation" ->
  saves stage st (generate_common cfg request st source mode node issues rev).
Proof.
  intros ->. unfold generate_common. apply saves_then; [apply within_lift; typeclasses eauto|intros prompt].
  apply saves_then; [by apply within_silent|intros _].
  apply saves_then; [by apply within_generate|intros response]. saves_walk.
Qed.

Lemma saves_evaluate mode st : saves "after_evaluation" st (evaluate_common cfg request mode st).
Proof.
  unfold evaluate_common, evaluate_answer.
  apply saves_then; [by apply within_send_request|intros response]. saves_walk.
Qed.

Lemma saves_pass_one st : saves "after_pass_one" st (node_retrieve_pass_one cfg request st).
Proof.
  unfold node_retrieve_pass_one. saves_walk.
  apply saves_then; [|intros chunks; saves_walk].
  apply within_foldM; [typeclasses eauto|]. intros l [i [q r]] _. unfold collect_response. within_walk.
Qed.

Lemma saves_rerank st : saves "after_final_ranking" st (node_rerank_candidates cfg request st).
Proof.
  unfold node_rerank_candidates. apply saves_then; [apply within_interact|intros reply]. saves_walk.
  apply saves_then; [|intros _; saves_walk].
  destruct (retrieved_chunks st); [|destruct (_ && _)]; eauto with effects typeclass_instances.
Qed.

Lemma milestone_saves n stage st :
  milestone n = Some stage -> saves stage st (node_map cfg request n st).
Proof.
  destruct n; intros [= <-]; cbn [node_map].
  - unfold node_load_short_term_context. saves_walk.
  - unfold node_retrieve_chunks_once. saves_walk.
  - by apply saves_generate.
  - apply saves_evaluate.
  - apply saves_pass_one.
  - unfold node_retrieve_pass_two_if_needed. saves_walk.
  - apply saves_rerank.
  - by apply saves_generate.
  - apply saves_evaluate.
Qed.

Lemma wrap_saves n stage st w next w' :
  milestone n = Some stage -> wrap_node cfg request n st w = (Ok next, w') ->
  exists cp entry, checkpoints (store w') = checkpoints (store w) ++ [cp] /\
    next = (cp_state cp) {{ trace_events := trace_events (cp_state cp) ++ [entry] }} /\
    turn_checkpoint stage (cp_state cp) cp.
Proof.
  intros Hn. rewrite wrap_node_body. unfold bind at 1, modify at 1. unfold bind at 1.
  destruct (enter_generation cfg request n st _) as [[st1|e] w1] eqn:E1; [|done].
  assert (store w1 = store w) as Hs1.
  { apply enter_run in E1 as [(_ & _ & ->)|[(? & ? & _ & _ & ? & _)|(? & ? & _ & _ & [_ _ -> _ _] & _)]]; done. }
  unfold node_body. unfold bind at 1. destruct (emit _ _ _ w1) as [[[]|e] w2] eqn:E2; [|done].
  apply emit_fields in E2 as (_ & _ & _ & Hs2). unfold bind.
  destruct (node_map cfg request n st1 w2) as [[r|e] w3] eqn:E3; [|done].
  apply (milestone_saves n stage st1 Hn) in E3 as (Ht & cp & Hs3 & Hcp).
  intros E4. pose proof (close_events cfg request n st1 r w3) as [_ _ Hs4 _ _].
  apply grows_none in Hs4; [|intros ? Hx; exact Hx]. rewrite E4 in Hs4. cbn in Hs4.
  exists cp. destruct r as [st' m]. cbn in Ht, Hcp. exists (trace_payload cfg n m).
  split; [by rewrite Hs4, Hs3, Hs2, Hs1|]. pose proof Hcp as (_ & Hst & _). rewrite Hst. split; [|done].
  rewrite Ht. revert E4. unfold node_close, bind, gets, ret. destruct (_ && _); [by intros [= <- _]|].
  do 2 (destruct (emit _ _ _ _) as [[[]|?] ?]; [|done]). by intros [= <- _].
Qed.

(** C7: a milestone checkpoint resumes exactly where the turn was.  Take a node that loads the
    context, retrieves (once, pass one or pass two), reranks, generates or evaluates (not the
    input guardrails, the revision and the persistence of the turn, see [milestone]).  When it
    completes it has saved exactly one checkpoint, for this request and under the stage of
    the node, and the state in it is the very one the next node receives but for the trace
    entry of the node itself; that checkpoint is the latest of the request if no stored one is
    newer; and resuming from it runs precisely the nodes of the execution path after this one,
    on that state. *)
Theorem milestone_resumes_exactly m n stage st w next w' :
  milestone n = Some stage -> n ∈ EXECUTION_PATHS m -> st_mode next = m ->
  wrap_node cfg request n st w = (Ok next, w') ->
  exists cp entry,
    checkpoints (store w') = checkpoints (store w) ++ [cp] /\ cp_stage cp = stage /\
    cp_conversation_id cp = conversation_id request /\ cp_request_id cp = request_id request /\
    next = (cp_state cp) {{ trace_events := trace_events (cp_state cp) ++ [entry] }} /\
    (Forall (fun c => checkpoint_leb c cp = true) (checkpoints (store w)) ->
     get_latest_checkpoint (conversation_id request) (Some (request_id request)) (store w') = Some cp) /\
    resume_from_checkpoint st_mode (wrap_node cfg request) (cp_state cp) (cp_stage cp) =
    run_nodes (wrap_node cfg request) (after_node n (EXECUTION_PATHS m)) (cp_state cp).
Proof.
  intros Hn Hin Hm Hw. destruct (wrap_saves n stage st w next w' Hn Hw) as (cp & entry & Hs & Hnext & Hcp).
  exists cp, entry. destruct Hcp as (Hst & _ & Hc & Hr & Ho). do 5 (split; [done|]). split.
  - intros Hl. by eapply latest_of.
  - assert (st_mode (cp_state cp) = m) as Hm' by (by rewrite Hnext in Hm). rewrite Hst.
    unfold resume_from_checkpoint, remaining_nodes. rewrite Hm'.
    rewrite (milestone_completes m n stage Hn Hin). by rewrite decide_False by (intros ->; by destruct n).
Qed.

Lemma failure_handler_saves st e w r w' :
  failure_handler request st e w = (Ok r, w') ->
  exists cp, checkpoints (store w') = checkpoints (store w) ++ [cp] /\ turn_checkpoint "error" st cp.
Proof.
  unfold failure_handler. unfold bind at 1, gets at 1. unfold bind at 1.
  assert (exists w1, record_llm_failure_evidence e w = (Ok tt, w1) /\ store w1 = store w) as (w1 & -> & <-).
  { destruct e as [|? ? [ev|]| |]; by eexists. }
  unfold bind at 1. unfold save_checkpoint_, p_save_checkpoint, store_op, bind at 1, utc_now_iso, interact.
  destruct (store_fault _); [done|]. cbn zeta. set (w2 := _ {{ store := _ }}).
  unfold bind at 1, gets at 1. unfold bind at 1.
  match goal with |- context [(if terminal_sent w2 then ?a else ?b) w2] =>
    destruct ((if terminal_sent w2 then a else b) w2) as [o3 w3] eqn:Ee end.
  assert (store w3 = store w2) as Hs.
  { destruct (terminal_sent w2); [by injection Ee as <- <-|by apply emit_fields in Ee as (_ & _ & _ & ?)]. }
  destruct o3 as [[]|x]; [|done]. intros [= _ <-]. cbn. rewrite Hs. eexists. split; [reflexivity|]. done.
Qed.

(** after a failed turn there is nothing to resume but the start.  A turn that failed
    (its result names the error class) has saved, as its last checkpoint, one of stage
    "error" holding the state the turn began with; unless an older one has a later time it
    is the one a resume loads, and resuming from it runs the whole path again from the
    initial state: the milestones the turn had reached, its retrieval and its answer, are
    not used. *)
Theorem failure_resumes_from_start hl w r w' :
  run cfg hl request false w = (Ok r, w') -> has_key r "error_class" = true ->
  exists cp saved, checkpoints (store w') = saved ++ [cp] /\
    (Forall (fun c => checkpoint_leb c cp = true) saved ->
     get_latest_checkpoint (conversation_id request) (Some (request_id request)) (store w') = Some cp) /\
    cp_state cp = build_initial_state request /\
    resume_from_checkpoint st_mode (wrap_node cfg request) (cp_state cp) (cp_stage cp) =
    run_nodes (wrap_node cfg request) (EXECUTION_PATHS (mode request)) (build_initial_state request).
Proof.
  unfold run, load_checkpoint. unfold bind at 1, ret at 1. cbn [restore_request]. unfold bind at 1.
  unfold publish_turn_started, publish_domain_event, envelope, uuid4, interact, ret, modify.
  unfold bind at 1 2 3 4. set (w1 := _ {{ notices ::= _ }}). unfold catch.
  destruct (turn_body cfg hl request None (build_initial_state request) w1) as [o w2] eqn:Eb.
  assert (forall r', o = Ok r' -> has_key r' "error_class" = false) as Hok.
  { intros r' ->. revert Eb. unfold turn_body, bind, gets, lift, ret.
    destruct (run_graph _ _ _ _ _ _) as [[st|?] w3]; [|done].
    destruct (commit_final_context st w3) as [[[]|?] w4]; [|done].
    unfold build_result. destruct (citation_metrics st); cbn; [|done]. by intros [= <- _]. }
  destruct o as [r'|e]; [intros [= -> ->] Hk; by rewrite (Hok r eq_refl) in Hk|].
  intros Hh Hk. assert (failure_handler request (build_initial_state request) e w2 = (Ok r, w')) as Hf.
  { destruct e as [stage|? ? ?|? ?|]; try done. cbn in Hh. exfalso. revert Hh.
    unfold guardrail_handler, bind, gets, ret. destruct (save_checkpoint_ _ _ _ _ _ _ _) as [[[]|?] ?]; [|done].
    intros [= <- _]. done. }
  apply failure_handler_saves in Hf as (cp & Hs & Hst & Hstate & Hc & Hr & Ho).
  exists cp, (checkpoints (store w2)). split; [done|]. split; [intros Hl; by eapply latest_of|].
  split; [done|]. rewrite Hst, Hstate. unfold resume_from_checkpoint.
  assert (remaining_nodes (st_mode (build_initial_state request)) "error" = None) as ->; [|done].
  cbn [build_initial_state st_mode]. by destruct (mode request).
Qed.
End Resume.

(** ** Evaluation *)

Section Witness.
#[local] Existing Instance ascii_text.

Abbreviation demo_load :=
  (@wrap_node ascii_text (demo_env "low" "low" "") demo_config (demo_request regular)
     load_short_term_context (build_initial_state (demo_request regular)) demo_world).
Abbreviation demo_failure :=
  (@run ascii_text (demo_env "low" "low" "search_chunks") demo_config (Some superstep_engine) (demo_request regular)
     false demo_world).

Definition demo_next : ConversationState :=
  match demo_load.1 with Ok s => s | Raise _ => build_initial_state (demo_request regular) end.
Definition demo_failed : obj := match demo_failure.1 with Ok r => r | Raise _ => [] end.

Lemma milestone_resumes_exactly_witness :
  exists cp entry, demo_load = (Ok demo_next, demo_load.2) /\
    checkpoints (store demo_load.2) = [cp] /\
    demo_next = (cp_state cp) {{ trace_events := trace_events (cp_state cp) ++ [entry] }}.
Proof.
  assert (demo_load = (Ok demo_next, demo_load.2)) as E by (vm_compute; reflexivity).
  assert (st_mode demo_next = regular) as Hm by (vm_compute; reflexivity).
  destruct (milestone_resumes_exactly demo_config (demo_request regular)
    regular load_short_term_context "after_context_load" _ demo_world demo_next demo_load.2 eq_refl
    (list_elem_of_further _ _ _ (list_elem_of_here _ _)) Hm E) as (cp & entry & H1 & _ & _ & _ & H2 & _).
  exists cp, entry. split; [exact E|]. split; [exact H1|exact H2].
Defined.

Lemma failure_resumes_from_start_witness :
  exists cp saved, demo_failure = (Ok demo_failed, demo_failure.2) /\
    length (checkpoints (store demo_failure.2)) = 3%nat /\
    checkpoints (store demo_failure.2) = saved ++ [cp] /\
    cp_state cp = build_initial_state (demo_request regular).
Proof.
  assert (demo_failure = (Ok demo_failed, demo_failure.2)) as E by (vm_compute; reflexivity).
  assert (has_key demo_failed "error_class" = true) as Hk by (vm_compute; reflexivity).
  destruct (failure_resumes_from_start demo_config
    (demo_request regular) (Some superstep_engine) demo_world demo_failed demo_failure.2 E Hk)
    as (cp & saved & H1 & _ & H2 & _).
  exists cp, saved. split; [exact E|]. split; [vm_compute; reflexivity|]. split; [exact H1|exact H2].
Defined.
End Witness.
