(* ===== verification/RankFusion.v ===== *)
(** * Reciprocal-rank fusion

    [src/backend/vector_db/app/services/hybrid_retrieval.py]: the dense and the sparse arm
    of a hybrid search, fused into one ranking. *)

From Stdlib Require Import QArith Lqa.
From stdpp Require Import base list strings sorting sets gmap.
From S2P Require Import Prelude PyValue ContextAssembler.

Local Open Scope string_scope.
Local Open Scope list_scope.
Local Open Scope Z_scope.

Section Fusion.
Context `{PyText}.

Definition candidate_id (candidate : obj) : outcome py_exn text :=
  let* payload := match get candidate "payload" ||| JObj [] with
                  | JObj o => Ok o | _ => AttributeError end in
  Ok (py_str (get payload "chunk_id" ||| get candidate "id" ||| JStr [])).

Inductive arm := Dense | Sparse.

#[local] Instance arm_eq_dec : EqDecision arm.
Proof. solve_decision. Defined.

Record fused_entry := mkFused {
  fe_candidate : obj;
  fe_dense_rank : option Z; fe_dense_score : json;
  fe_sparse_rank : option Z; fe_sparse_score : json;
  fe_score : Q
}.

Definition fresh_entry (candidate : obj) : fused_entry :=
  mkFused candidate None JNull None JNull 0.

Definition rank_of (a : arm) (e : fused_entry) : option Z :=
  match a with Dense => fe_dense_rank e | Sparse => fe_sparse_rank e end.

Definition with_rank (a : arm) (rank : Z) (score : json) (gain : Q) (e : fused_entry) : fused_entry :=
  match a with
  | Dense => mkFused (fe_candidate e) (Some rank) score (fe_sparse_rank e) (fe_sparse_score e)
               (fe_score e + gain)
  | Sparse => mkFused (fe_candidate e) (fe_dense_rank e) (fe_dense_score e) (Some rank) score
                (fe_score e + gain)
  end.

Definition gain (rrf_k rank : Z) : Q := 1 / inject_Z (rrf_k + rank).

(** [fused], a dictionary in insertion order. *)
Abbreviation fusion := (list (text * fused_entry)).

(** One candidate: [setdefault], then the rank of the arm unless it has one. *)
Fixpoint fuse_into (a : arm) (rrf_k rank : Z) (chunk_id : text) (candidate : obj) (fused : fusion)
    : fusion :=
  match fused with
  | [] => [(chunk_id, with_rank a rank (get candidate "score") (gain rrf_k rank) (fresh_entry candidate))]
  | (x, e) :: rest =>
      if decide (x = chunk_id)
      then (x, match rank_of a e with
               | Some _ => e
               | None => with_rank a rank (get candidate "score") (gain rrf_k rank) e
               end) :: rest
      else (x, e) :: fuse_into a rrf_k rank chunk_id candidate rest
  end.

Fixpoint fuse_arm (a : arm) (rrf_k rank : Z) (candidates : list obj) (fused : fusion)
    : outcome py_exn fusion :=
  match candidates with
  | [] => Ok fused
  | c :: rest =>
      let* x := candidate_id c in
      fuse_arm a rrf_k (rank + 1) rest
        (if decide (x = []) then fused else fuse_into a rrf_k rank x c fused)
  end.

(** [min] of the ranks an entry has; every entry has one. *)
Definition best_rank (e : fused_entry) : Z :=
  match fe_dense_rank e, fe_sparse_rank e with
  | Some r, Some s => Z.min r s
  | Some r, None => r
  | None, Some s => s
  | None, None => 0
  end.

(** [(-fused_score, min rank, chunk id)]. *)
Definition fused_leb (a b : text * fused_entry) : bool :=
  (fe_score b.2 <?q fe_score a.2) ||
  (Qeq_bool (fe_score a.2) (fe_score b.2) &&
   ((best_rank a.2 <? best_rank b.2) ||
    ((best_rank a.2 =? best_rank b.2) && text_leb a.1 b.1))).

Definition opt_rank (r : option Z) : json := match r with Some n => JInt n | None => JNull end.

Definition matched_arms (e : fused_entry) : list json :=
  (if fe_dense_rank e then [s_ "dense"] else []) ++ (if fe_sparse_rank e then [s_ "sparse"] else []).

Definition fused_item (e : Z * (text * fused_entry)) : obj :=
  let '(fused_rank, (_, entry)) := e in
  obj_set (obj_set (fe_candidate entry) "score" (JFloat (fe_score entry)))
    "retrieval_diagnostics"
    (JObj [ ("dense_rank", opt_rank (fe_dense_rank entry)); ("dense_score", fe_dense_score entry);
            ("sparse_rank", opt_rank (fe_sparse_rank entry)); ("sparse_score", fe_sparse_score entry);
            ("fused_score", JFloat (fe_score entry)); ("fused_rank", JInt fused_rank);
            ("matched_arms", JArr (matched_arms entry)) ]).

Definition reciprocal_rank_fusion (dense sparse : list obj) (limit rrf_k : Z)
    : outcome py_exn (list obj) :=
  if (limit <? 1) || (rrf_k <? 1)
  then Raise (PyError (lit "ValueError") (lit "limit and rrf_k must be positive"))
  else
    let* fused := fuse_arm Dense rrf_k 1 dense [] in
    let* fused := fuse_arm Sparse rrf_k 1 sparse fused in
    Ok (map fused_item (enumerate 1 (py_prefix (py_sorted fused_leb fused) limit))).

(** ** Reference: the score of an identifier from its ranks alone *)

Definition identified (x : text) (c : obj) : bool :=
  match candidate_id c with Ok y => bool_decide (y = x) | Raise _ => false end.

(** The rank of the first candidate with this identifier. *)
Fixpoint first_rank (x : text) (rank : Z) (candidates : list obj) : option Z :=
  match candidates with
  | [] => None
  | c :: rest =>
      if identified x c then Some rank else first_rank x (rank + 1) rest
  end.

Definition arm_score (rrf_k : Z) (candidates : list obj) (x : text) : Q :=
  match first_rank x 1 candidates with Some r => gain rrf_k r | None => 0 end.

Definition rrf_score (rrf_k : Z) (dense sparse : list obj) (x : text) : Q :=
  arm_score rrf_k dense x + arm_score rrf_k sparse x.

Definition first_of (l : list obj) (x : text) : option Z := first_rank x 1 l.

Definition min_rank (dense sparse : list obj) (x : text) : Z :=
  match first_of dense x, first_of sparse x with
  | Some r, Some t => Z.min r t
  | Some r, None => r
  | None, Some t => t
  | None, None => 0
  end.

(** Higher score first, then the better rank, then the smaller identifier. *)
Definition fused_before (rrf_k : Z) (dense sparse : list obj) (x y : text) : Prop :=
  (rrf_score rrf_k dense sparse y < rrf_score rrf_k dense sparse x)%Q \/
  (rrf_score rrf_k dense sparse x == rrf_score rrf_k dense sparse y)%Q /\
  (min_rank dense sparse x < min_rank dense sparse y \/
   min_rank dense sparse x = min_rank dense sparse y /\ text_leb x y = true).

(** ** The dictionary *)

Fixpoint flookup (f : fusion) (x : text) : option fused_entry :=
  match f with
  | [] => None
  | (y, e) :: rest => if decide (y = x) then Some e else flookup rest x
  end.

Definition updated (a : arm) (rrf_k r : Z) (sc : json) (e : fused_entry) : fused_entry :=
  match rank_of a e with Some _ => e | None => with_rank a r sc (gain rrf_k r) e end.

Lemma fuse_into_lookup a k r x c f y :
  flookup (fuse_into a k r x c f) y =
  if decide (x = y) then Some (updated a k r (get c "score") (default (fresh_entry c) (flookup f x)))
  else flookup f y.
Proof.
  induction f as [|[z e] f IH]; cbn.
  - destruct (decide (x = y)); [|done]. by destruct a.
  - destruct (decide (z = x)) as [->|Hz]; cbn.
    + destruct (decide (x = y)); done.
    + rewrite IH. destruct (decide (x = y)) as [->|]; [by rewrite decide_False|done].
Qed.

Lemma fuse_into_keys a k r x c f :
  NoDup f.*1 -> [] ∉ f.*1 -> x <> [] ->
  NoDup (fuse_into a k r x c f).*1 /\ [] ∉ (fuse_into a k r x c f).*1 /\
  forall y, y ∈ (fuse_into a k r x c f).*1 <-> y = x \/ y ∈ f.*1.
Proof.
  intros Hnd Hne Hx. induction f as [|[z e] f IH]; cbn.
  - split; [apply NoDup_singleton|]. set_solver.
  - cbn in Hnd, Hne. apply NoDup_cons in Hnd as [Hz Hnd].
    destruct (decide (z = x)) as [->|Hzx]; cbn; [split; [by constructor|]; set_solver|].
    destruct IH as (H1 & H2 & H3); [done|set_solver|].
    split; [|set_solver]. constructor; [|done]. rewrite H3. set_solver.
Qed.

Lemma flookup_elem f x : x ∈ f.*1 <-> exists e, flookup f x = Some e.
Proof.
  induction f as [|[y e] f IH]; cbn; [set_solver|]. destruct (decide (y = x)) as [->|]; [set_solver|].
  rewrite elem_of_cons, <- IH. set_solver.
Qed.

Lemma flookup_in f x e : NoDup f.*1 -> (x, e) ∈ f <-> flookup f x = Some e.
Proof.
  induction f as [|[y e'] f IH]; cbn; [set_solver|]. intros [Hy Hnd]%NoDup_cons.
  rewrite elem_of_cons, IH by done. destruct (decide (y = x)) as [->|Hyx].
  - split; [|intros [= ->]; by left]. intros [[= ->]|Hin]; [done|].
    destruct Hy. apply flookup_elem. by exists e.
  - split; [by intros [[= -> ->]|?]|by right].
Qed.

(** What an arm does to one identifier: the first candidate of the arm with it counts. *)
Definition arm_effect (a : arm) (k : Z) (cands : list obj) (r : option Z)
    (x : text) (o o' : option fused_entry) : Prop :=
  match r with
  | None => o' = o
  | Some n => exists c sc, c ∈ cands /\ candidate_id c = Ok x /\
      o' = Some (updated a k n sc (default (fresh_entry c) o))
  end.

Lemma updated_ranked a k r sc e : is_Some (rank_of a (updated a k r sc e)).
Proof. unfold updated. destruct (rank_of a e) eqn:E; [by rewrite E|]. by destruct a. Qed.

Lemma updated_idem a k r sc e r' sc' : updated a k r' sc' (updated a k r sc e) = updated a k r sc e.
Proof. unfold updated at 1. by destruct (updated_ranked a k r sc e) as [? ->]. Qed.

Lemma fuse_arm_effect a k cands : forall r f f',
  fuse_arm a k r cands f = Ok f' -> NoDup f.*1 -> [] ∉ f.*1 ->
  NoDup f'.*1 /\ [] ∉ f'.*1 /\
  forall x, x <> [] -> arm_effect a k cands (first_rank x r cands) x (flookup f x) (flookup f' x).
Proof.
  induction cands as [|c cands IH]; intros r f f'; cbn [fuse_arm first_rank].
  { intros [= <-] H1 H2. done. }
  destruct (candidate_id c) as [y|e] eqn:Ec; cbn [obind]; [|done]. intros Hf Hnd Hne.
  destruct (decide (y = [])) as [->|Hy].
  - destruct (IH _ _ _ Hf Hnd Hne) as (H1 & H2 & H3). split; [done|]. split; [done|]. intros x Hx.
    unfold identified. rewrite Ec, bool_decide_false by congruence. specialize (H3 x Hx).
    destruct (first_rank x (r + 1) cands); [|done]. destruct H3 as (c' & sc & ? & ?).
    exists c', sc. split; [set_solver|done].
  - destruct (fuse_into_keys a k r y c f Hnd Hne Hy) as (H1 & H2 & _).
    destruct (IH _ _ _ Hf H1 H2) as (H4 & H5 & H6). split; [done|]. split; [done|]. intros x Hx.
    specialize (H6 x Hx). rewrite fuse_into_lookup in H6. unfold identified. rewrite Ec.
    destruct (decide (y = x)) as [->|Hyx].
    + rewrite bool_decide_true by done. exists c, (get c "score"). split; [set_solver|]. split; [done|].
      destruct (first_rank x (r + 1) cands); [|done]. destruct H6 as (c' & sc' & _ & _ & ->).
      cbn -[updated]. by rewrite updated_idem.
    + rewrite bool_decide_false by done. destruct (first_rank x (r + 1) cands); [|done].
      destruct H6 as (c' & sc & ? & ?). exists c', sc. split; [set_solver|done].
Qed.

Lemma fuse_arm_total a k cands : forall r f,
  Forall (fun c => exists x, candidate_id c = Ok x) cands -> exists f', fuse_arm a k r cands f = Ok f'.
Proof.
  induction cands as [|c cands IH]; intros r f Hc; cbn; [by eexists|].
  apply Forall_cons in Hc as [[x ->] Hc]. cbn. by apply IH.
Qed.

(** The entry of an identifier after both arms. *)
Definition entry_of (k : Z) (dense sparse : list obj) (x : text) (e : fused_entry) : Prop :=
  fe_dense_rank e = first_of dense x /\ fe_sparse_rank e = first_of sparse x /\
  (fe_score e == rrf_score k dense sparse x)%Q /\
  fe_candidate e ∈ dense ++ sparse /\ candidate_id (fe_candidate e) = Ok x.

Lemma fused_spec k dense sparse f1 f2 :
  fuse_arm Dense k 1 dense [] = Ok f1 -> fuse_arm Sparse k 1 sparse f1 = Ok f2 ->
  NoDup f2.*1 /\
  (forall x, x ∈ f2.*1 <-> x <> [] /\ (is_Some (first_of dense x) \/ is_Some (first_of sparse x))) /\
  (forall x e, (x, e) ∈ f2 -> entry_of k dense sparse x e).
Proof.
  intros H1 H2. apply fuse_arm_effect in H1 as (N1 & E1 & L1); [|constructor|set_solver].
  apply fuse_arm_effect in H2 as (N2 & E2 & L2); [|done..].
  assert (forall x, x <> [] -> match flookup f2 x with
    | Some e => entry_of k dense sparse x e /\ (is_Some (first_of dense x) \/ is_Some (first_of sparse x))
    | None => first_of dense x = None /\ first_of sparse x = None end) as Hx.
  { intros x Hx. specialize (L1 x Hx). specialize (L2 x Hx). unfold entry_of, rrf_score, arm_score.
    unfold first_of. destruct (first_rank x 1 dense) as [r|], (first_rank x 1 sparse) as [t|]; cbn in L1, L2.
    - destruct L1 as (c & sc & Hc & Hid & L1). rewrite L1 in L2.
      destruct L2 as (c' & sc' & Hc' & Hid' & ->). cbn.
      split; [|eauto]. split_and!; try done; first [lra|set_solver].
    - destruct L1 as (c & sc & Hc & Hid & L1). rewrite L2, L1. cbn.
      split; [|eauto]. split_and!; try done; first [lra|set_solver].
    - rewrite L1 in L2. destruct L2 as (c & sc & Hc & Hid & ->). cbn.
      split; [|eauto]. split_and!; try done; first [lra|set_solver].
    - rewrite L2, L1. done. }
  split; [done|]. split.
  - intros x. rewrite flookup_elem. split.
    + intros [e He]. assert (x <> []) as Hne.
      { intros ->. apply E2, flookup_elem. by exists e. }
      split; [done|]. specialize (Hx x Hne). rewrite He in Hx. by destruct Hx.
    + intros [Hne Hs]. specialize (Hx x Hne). destruct (flookup f2 x) as [e|]; [by exists e|].
      destruct Hx as [H1 H2]. rewrite H1, H2 in Hs. by destruct Hs as [[? ?]|[? ?]].
  - intros x e Hin. assert (x <> []) as Hne.
    { intros ->. apply E2. apply list_elem_of_fmap. by exists ([], e). }
    specialize (Hx x Hne). apply flookup_in in Hin; [|done]. rewrite Hin in Hx. by destruct Hx.
Qed.

(** ** The order *)

Lemma fused_leb_spec a b :
  fused_leb a b = true <->
  (fe_score b.2 < fe_score a.2)%Q \/
  (fe_score a.2 == fe_score b.2)%Q /\
  (best_rank a.2 < best_rank b.2 \/ best_rank a.2 = best_rank b.2 /\ text_leb a.1 b.1 = true).
Proof.
  unfold fused_leb. rewrite orb_true_iff, andb_true_iff, orb_true_iff, andb_true_iff.
  by rewrite qltb_true, Qeq_bool_iff, Z.ltb_lt, Z.eqb_eq.
Qed.

Lemma fused_leb_total a b : fused_leb a b = true \/ fused_leb b a = true.
Proof.
  rewrite !fused_leb_spec. destruct (Q_dec (fe_score a.2) (fe_score b.2)) as [[?|?]|E]; eauto.
  destruct (Z.lt_total (best_rank a.2) (best_rank b.2)) as [?|[Er|?]].
  - left. right. split; [done|]. by left.
  - destruct (text_leb_total a.1 b.1); [left|right]; right; (split; [by rewrite E|]); right; done.
  - right. right. split; [by rewrite E|]. by left.
Qed.

Lemma fused_leb_trans a b c : fused_leb a b = true -> fused_leb b c = true -> fused_leb a c = true.
Proof.
  rewrite !fused_leb_spec. intros [H1|[H1 H1']] [H2|[H2 H2']]; [left; lra|left; lra|left; lra|].
  right. split; [lra|]. destruct H1' as [?|[? ?]], H2' as [?|[? ?]]; [left; lia..|].
  right. split; [lia|]. by eapply text_leb_trans.
Qed.

Lemma fused_leb_before k dense sparse a b :
  entry_of k dense sparse a.1 a.2 -> entry_of k dense sparse b.1 b.2 ->
  fused_leb a b = true -> fused_before k dense sparse a.1 b.1.
Proof.
  intros (A1 & A2 & A3 & _) (B1 & B2 & B3 & _). rewrite fused_leb_spec. unfold fused_before.
  assert (best_rank a.2 = min_rank dense sparse a.1) as -> by (unfold best_rank; by rewrite A1, A2).
  assert (best_rank b.2 = min_rank dense sparse b.1) as -> by (unfold best_rank; by rewrite B1, B2).
  intros [?|[? ?]]; [left|right]; [lra|]. split; [lra|done].
Qed.

Lemma py_prefix_pos {A} (l : list A) n : 0 <= n -> py_prefix l n = take (Z.to_nat n) l.
Proof.
  intros Hn. unfold py_prefix. rewrite py_slice_bounded by lia. by rewrite Nat.sub_0_r, drop_0.
Qed.

(** What the caller sees of a fused candidate: the candidate of an arm with this identifier,
    its score replaced by the reference score. *)
Definition fused_as (k : Z) (dense sparse : list obj) (x : text) (item : obj) : Prop :=
  exists c q, c ∈ dense ++ sparse /\ candidate_id c = Ok x /\
    get item "score" = JFloat q /\ (q == rrf_score k dense sparse x)%Q /\
    forall key, key <> "score" -> key <> "retrieval_diagnostics" -> obj_get item key = obj_get c key.

Lemma fused_item_as k dense sparse n x e :
  entry_of k dense sparse x e -> fused_as k dense sparse x (fused_item (n, (x, e))).
Proof.
  intros (_ & _ & Hs & Hin & Hid). exists (fe_candidate e), (fe_score e). split_and!; try done.
  - unfold fused_item. rewrite get_set, decide_False, get_set, decide_True by done. done.
  - intros key H1 H2. unfold fused_item. by rewrite !obj_get_set_ne.
Qed.

Lemma fused_items k dense sparse l n :
  Forall (fun p => entry_of k dense sparse p.1 p.2) l ->
  Forall2 (fused_as k dense sparse) l.*1 (map fused_item (enumerate n l)).
Proof.
  intros Hl. revert n. induction Hl as [|[x e] l Hx Hl IH]; intros n; cbn -[fused_item]; [constructor|].
  constructor; [by apply fused_item_as|apply IH].
Qed.

(** Every fused item is a candidate of an arm, with another score. *)
Definition fused_from (dense sparse : list obj) (item : obj) : Prop :=
  exists c, c ∈ dense ++ sparse /\
    forall key, key <> "score" -> key <> "retrieval_diagnostics" -> obj_get item key = obj_get c key.

Lemma rrf_candidates dense sparse limit k rs :
  reciprocal_rank_fusion dense sparse limit k = Ok rs ->
  Forall (fused_from dense sparse) rs /\ zlen rs <= limit.
Proof.
  unfold reciprocal_rank_fusion. destruct (Z.ltb_spec limit 1); [done|].
  destruct (Z.ltb_spec k 1); [done|]. cbn [orb].
  destruct (fuse_arm Dense k 1 dense []) as [f1|] eqn:E1; cbn [obind]; [|done].
  destruct (fuse_arm Sparse k 1 sparse f1) as [f2|] eqn:E2; cbn [obind]; [|done]. intros [= <-].
  destruct (fused_spec k dense sparse f1 f2 E1 E2) as (_ & _ & Hent). rewrite py_prefix_pos by lia. split.
  - assert (Forall (fun p => entry_of k dense sparse p.1 p.2) (take (Z.to_nat limit) (py_sorted fused_leb f2))) as Hall.
    { apply Forall_take. rewrite py_sorted_perm. apply Forall_forall. intros [x e]. apply Hent. }
    apply (fused_items _ _ _ _ 1) in Hall. eapply Forall2_Forall_r; [exact Hall|].
    apply Forall_forall. intros x _ item (c & q & Hc & _ & _ & _ & Hg). by exists c.
  - unfold zlen. rewrite length_map, <- (length_fmap snd), enumerate_values, length_take. lia.
Qed.

(** Some hit of either arm has this identifier. *)
Definition hit (dense sparse : list obj) (x : text) : Prop :=
  x <> [] /\ (is_Some (first_of dense x) \/ is_Some (first_of sparse x)).

(** rank fusion is exact.  For two ranked lists whose entries have identifiers, the
    result is the first [limit] of all distinct identifiers the arms returned, ordered by
    the sum of [1 / (rrf_k + rank)] over the arms, where only the first occurrence in an
    arm counts, then by the better rank, then by identifier, so the order is deterministic;
    each item is a candidate of an arm with its score replaced by that sum. *)
Theorem rrf_exact dense sparse limit k :
  1 <= limit -> 1 <= k -> Forall (fun c => exists x, candidate_id c = Ok x) (dense ++ sparse) ->
  exists rs ids rest, reciprocal_rank_fusion dense sparse limit k = Ok rs /\
    Forall2 (fused_as k dense sparse) ids rs /\
    NoDup (ids ++ rest) /\ (forall x, x ∈ ids ++ rest <-> hit dense sparse x) /\
    zlen ids <= limit /\ (rest <> [] -> zlen ids = limit) /\
    StronglySorted (fused_before k dense sparse) (ids ++ rest).
Proof.
  intros Hlim Hk [Hd Hs]%Forall_app.
  destruct (fuse_arm_total Dense k dense 1 [] Hd) as [f1 E1].
  destruct (fuse_arm_total Sparse k sparse 1 f1 Hs) as [f2 E2].
  destruct (fused_spec k dense sparse f1 f2 E1 E2) as (Hnd & Hkeys & Hent).
  unfold reciprocal_rank_fusion.
  destruct (Z.ltb_spec limit 1); [lia|]. destruct (Z.ltb_spec k 1); [lia|]. cbn [orb].
  rewrite E1. cbn [obind]. rewrite E2. cbn [obind]. set (sorted := py_sorted fused_leb f2).
  rewrite py_prefix_pos by lia. set (n := Z.to_nat limit).
  assert (sorted ≡ₚ f2) as Hperm by apply py_sorted_perm.
  assert (Forall (fun p => entry_of k dense sparse p.1 p.2) sorted) as Hall.
  { rewrite Hperm. apply Forall_forall. intros [x e] Hin. by apply Hent. }
  exists (map fused_item (enumerate 1 (take n sorted))), (take n sorted).*1, (drop n sorted).*1.
  rewrite <- fmap_app, take_drop. split; [done|]. split; [by apply fused_items, Forall_take|].
  split; [by rewrite Hperm|]. split; [intros x; rewrite Hperm; apply Hkeys|].
  split; [unfold zlen; rewrite length_fmap, length_take; lia|]. split.
  - intros Hr. unfold zlen. rewrite length_fmap, length_take.
    destruct (decide (n <= length sorted)%nat); [lia|]. rewrite drop_ge in Hr by lia. done.
  - assert (StronglySorted (fun a b => fused_leb a b = true) sorted) as Hsort
      by (apply py_sorted_sorted; eauto using fused_leb_total, fused_leb_trans).
    clear -Hsort Hall. induction Hsort as [|p l Hl IH Hp]; [constructor|].
    apply Forall_cons in Hall as [Hpe Hall]. cbn. constructor; [by apply IH|].
    apply Forall_fmap. rewrite Forall_forall in Hp, Hall |- *. intros q Hq.
    apply fused_leb_before; auto.
Qed.
End Fusion.

Section Witness.
#[local] Existing Instance ascii_text.

Definition demo_hit (id : string) (score : Q) : obj := [("id", s_ id); ("score", JFloat score)].
Definition demo_dense : list obj := [demo_hit "a" (9 # 10); demo_hit "b" (8 # 10); demo_hit "a" (7 # 10)].
Definition demo_sparse : list obj := [demo_hit "b" 3; demo_hit "c" 2].

(** The hit of both arms comes first. *)
Example demo_fusion :
  match reciprocal_rank_fusion demo_dense demo_sparse 2 60 with
  | Ok rs => map (fun r => get r "id") rs
  | Raise _ => []
  end = [s_ "b"; s_ "a"].
Proof. vm_compute. reflexivity. Qed.

Lemma rrf_exact_witness :
  exists rs ids rest, reciprocal_rank_fusion demo_dense demo_sparse 2 60 = Ok rs /\
    Forall2 (fused_as 60 demo_dense demo_sparse) ids rs /\
    NoDup (ids ++ rest) /\ (forall x, x ∈ ids ++ rest <-> hit demo_dense demo_sparse x) /\
    zlen ids <= 2 /\ (rest <> [] -> zlen ids = 2) /\
    StronglySorted (fused_before 60 demo_dense demo_sparse) (ids ++ rest).
Proof.
  apply (rrf_exact demo_dense demo_sparse 2 60); [lia|lia|].
  repeat (apply Forall_cons; split; [eexists; reflexivity|]). apply Forall_nil. exact I.
Defined.
End Witness.
