(* ===== verification/Base64.v ===== *)
(** * Bytes, UTF-8 and base64 as the interpreter has them

    What [src/backend/shared/auth.py] uses of the standard library to turn tickets and
    password records into text: [str.encode], [base64.urlsafe_b64encode],
    [base64.urlsafe_b64decode] with its lenient reading of characters outside the
    alphabet, and [str.split] with a limit.  Bytes are numbers below 256. *)

From stdpp Require Import base list sets.
From S2P Require Import Prelude PyValue.

Local Open Scope list_scope.
Local Open Scope Z_scope.

Abbreviation bytes := (list Z).

Definition is_byte (c : Z) : Prop := 0 <= c < 256.

(** [c < 128]: [str.encode("ascii")] raises on any other character. *)
Definition is_ascii (t : text) : bool := forallb (fun c => (0 <=? c) && (c <? 128)) t.

(** [chr(c).encode("utf-8")]; surrogates cannot be encoded. *)
Definition utf8_char (c : Z) : option bytes :=
  if c <? 128 then Some [c]
  else if c <? 2048 then Some [192 + c / 64; 128 + c mod 64]
  else if (55296 <=? c) && (c <? 57344) then None
  else if c <? 65536 then Some [224 + c / 4096; 128 + (c / 64) mod 64; 128 + c mod 64]
  else Some [240 + c / 262144; 128 + (c / 4096) mod 64; 128 + (c / 64) mod 64; 128 + c mod 64].

Fixpoint utf8 (t : text) : option bytes :=
  match t with
  | [] => Some []
  | c :: t' =>
      match utf8_char c, utf8 t' with
      | Some b, Some b' => Some (b ++ b')
      | _, _ => None
      end
  end.

(** [t.split(sep, 1)] in two parts, [None] without a separator. *)
Fixpoint split_once (sep : Z) (t : text) : option (text * text) :=
  match t with
  | [] => None
  | c :: t' =>
      if c =? sep then Some ([], t')
      else match split_once sep t' with Some (a, b) => Some (c :: a, b) | None => None end
  end.

(** ** The alphabet *)

Definition b64_char (n : Z) : Z :=
  if n <? 26 then 65 + n else if n <? 52 then 71 + n else if n <? 62 then n - 4
  else if n <? 63 then 45 else 95.

(** The decoder accepts both alphabets: [-] and [_] are translated to [+] and [/]. *)
Definition b64_value (c : Z) : option Z :=
  if (65 <=? c) && (c <=? 90) then Some (c - 65)
  else if (97 <=? c) && (c <=? 122) then Some (c - 71)
  else if (48 <=? c) && (c <=? 57) then Some (c + 4)
  else if (c =? 43) || (c =? 45) then Some 62
  else if (c =? 47) || (c =? 95) then Some 63
  else None.

(** ** Encoding *)

Fixpoint b64_body (b : bytes) : text :=
  match b with
  | [] => []
  | [x] => [b64_char (x / 4); b64_char (x mod 4 * 16)]
  | [x; y] => [b64_char (x / 4); b64_char (x mod 4 * 16 + y / 16); b64_char (y mod 16 * 4)]
  | x :: y :: z :: b' =>
      b64_char (x / 4) :: b64_char (x mod 4 * 16 + y / 16) ::
      b64_char (y mod 16 * 4 + z / 64) :: b64_char (z mod 64) :: b64_body b'
  end.

Definition urlsafe_b64encode (b : bytes) : text :=
  b64_body b ++ replicate (Z.to_nat (- zlen (b64_body b) mod 4)) 61.

Definition rstrip_eq (t : text) : text := reverse (drop_while (Z.eqb 61) (reverse t)).

Definition b64encode (value : bytes) : text := rstrip_eq (urlsafe_b64encode value).

(** ** Decoding

    [quad] counts the characters of the current group, [left] keeps the bits not yet
    written and [pads] the padding seen in a row. *)
Fixpoint a2b_base64 (quad left pads : Z) (s : text) : option bytes :=
  match s with
  | [] => if quad =? 0 then Some [] else None
  | c :: s' =>
      if c =? 61 then
        if 2 <=? quad
        then if 4 <=? quad + (pads + 1) then Some [] else a2b_base64 quad left (pads + 1) s'
        else a2b_base64 quad left pads s'
      else match b64_value c with
           | None => a2b_base64 quad left pads s'
           | Some v =>
               if quad =? 0 then a2b_base64 1 v 0 s'
               else if quad =? 1 then cons (left * 4 + v / 16) <$> a2b_base64 2 (v mod 16) 0 s'
               else if quad =? 2 then cons (left * 16 + v / 4) <$> a2b_base64 3 (v mod 4) 0 s'
               else cons (left * 64 + v) <$> a2b_base64 0 0 0 s'
           end
  end.

Definition urlsafe_b64decode (s : text) : option bytes :=
  if is_ascii s then a2b_base64 0 0 0 s else None.

Definition b64decode (value : text) : option bytes :=
  urlsafe_b64decode (value ++ replicate (Z.to_nat (- zlen value mod 4)) 61).

(** ** Facts *)

Lemma b64_value_char n : 0 <= n < 64 -> b64_value (b64_char n) = Some n.
Proof.
  intros Hn. unfold b64_char, b64_value.
  repeat match goal with
  | |- context[if ?x <? ?y then _ else _] => destruct (Z.ltb_spec x y)
  | |- context[?x <=? ?y] => destruct (Z.leb_spec x y); try lia; cbn [andb orb]
  | |- context[?x =? ?y] => destruct (Z.eqb_spec x y); try lia; cbn [andb orb]
  end; f_equal; lia.
Qed.

(** The characters of an encoding: letters, digits, [-] and [_]. *)
Definition b64_safe (c : Z) : Prop :=
  48 <= c <= 57 \/ 65 <= c <= 90 \/ 97 <= c <= 122 \/ c = 45 \/ c = 95.

Lemma b64_char_safe n : 0 <= n < 64 -> b64_safe (b64_char n).
Proof.
  intros Hn. unfold b64_char, b64_safe.
  repeat match goal with |- context[if ?x <? ?y then _ else _] => destruct (Z.ltb_spec x y) end; lia.
Qed.

(** Induction three bytes at a time. *)
Lemma bytes_ind3 (P : bytes -> Prop) :
  P [] -> (forall x, P [x]) -> (forall x y, P [x; y]) ->
  (forall x y z b, P b -> P (x :: y :: z :: b)) -> forall b, P b.
Proof.
  intros H0 H1 H2 H3. fix IH 1.
  intros [|x [|y [|z b]]]; [exact H0|apply H1|apply H2|apply H3, IH].
Qed.

Ltac byte_arith := unfold is_byte in *; Z.to_euclidean_division_equations; lia.

Lemma b64_body_safe b : Forall is_byte b -> Forall b64_safe (b64_body b).
Proof.
  induction b as [|x|x y|x y z b IH] using bytes_ind3; cbn [b64_body]; intros Hb.
  - constructor.
  - apply Forall_cons in Hb as [Hx _].
    repeat (constructor; [apply b64_char_safe; byte_arith|]). constructor.
  - apply Forall_cons in Hb as [Hx [Hy _]%Forall_cons].
    repeat (constructor; [apply b64_char_safe; byte_arith|]). constructor.
  - apply Forall_cons in Hb as [Hx [Hy [Hz Hb]%Forall_cons]%Forall_cons].
    repeat (constructor; [apply b64_char_safe; byte_arith|]). auto.
Qed.

Lemma a2b_step quad left pads n s :
  0 <= n < 64 ->
  a2b_base64 quad left pads (b64_char n :: s) =
  if quad =? 0 then a2b_base64 1 n 0 s
  else if quad =? 1 then cons (left * 4 + n / 16) <$> a2b_base64 2 (n mod 16) 0 s
  else if quad =? 2 then cons (left * 16 + n / 4) <$> a2b_base64 3 (n mod 4) 0 s
  else cons (left * 64 + n) <$> a2b_base64 0 0 0 s.
Proof.
  intros Hn. cbn [a2b_base64]. destruct (Z.eqb_spec (b64_char n) 61) as [E|_].
  - destruct (b64_char_safe n Hn) as [?|[?|[?|[?|?]]]]; lia.
  - by rewrite b64_value_char.
Qed.

Lemma a2b_pad2 left : a2b_base64 2 left 0 [61; 61] = Some [].
Proof. done. Qed.
Lemma a2b_pad1 left : a2b_base64 3 left 0 [61] = Some [].
Proof. done. Qed.

Lemma a2b_body b : Forall is_byte b ->
  a2b_base64 0 0 0 (b64_body b ++ replicate (Z.to_nat (- zlen (b64_body b) mod 4)) 61) = Some b.
Proof.
  induction b as [|x|x y|x y z b IH] using bytes_ind3; intros Hb.
  - done.
  - apply Forall_cons in Hb as [Hx _].
    replace (replicate _ 61) with [61; 61] by reflexivity. cbn [b64_body app].
    do 2 (rewrite a2b_step by byte_arith; cbn [Z.eqb Pos.eqb]).
    rewrite a2b_pad2. cbn -[Z.div Z.modulo Z.mul Z.add]. do 2 f_equal. byte_arith.
  - apply Forall_cons in Hb as [Hx [Hy _]%Forall_cons].
    replace (replicate _ 61) with [61] by reflexivity. cbn [b64_body app].
    do 3 (rewrite a2b_step by byte_arith; cbn [Z.eqb Pos.eqb]).
    rewrite a2b_pad1. cbn -[Z.div Z.modulo Z.mul Z.add].
    f_equal. f_equal; [byte_arith|]. f_equal. byte_arith.
  - apply Forall_cons in Hb as [Hx [Hy [Hz Hb]%Forall_cons]%Forall_cons].
    cbn [b64_body]. rewrite !zlen_cons.
    replace (- (1 + (1 + (1 + (1 + zlen (b64_body b))))) mod 4) with (- zlen (b64_body b) mod 4)
      by (Z.to_euclidean_division_equations; lia).
    cbn [app]. do 4 (rewrite a2b_step by byte_arith; cbn [Z.eqb Pos.eqb]).
    rewrite IH by done. cbn -[Z.div Z.modulo Z.mul Z.add]. f_equal. f_equal; [byte_arith|]. f_equal; [byte_arith|]. f_equal. byte_arith.
Qed.

Lemma drop_while_replicate {A} (f : A -> bool) n x l :
  f x = true -> drop_while f (replicate n x ++ l) = drop_while f l.
Proof. intros Hx. induction n as [|n IH]; cbn; [done|]. by rewrite Hx. Qed.

Lemma rstrip_eq_pad t n : Forall b64_safe t -> rstrip_eq (t ++ replicate n 61) = t.
Proof.
  intros Ht. unfold rstrip_eq. rewrite reverse_app.
  assert (reverse (replicate n 61) = replicate n 61) as ->.
  { clear. induction n as [|n IH]; [done|]. cbn [replicate]. rewrite reverse_cons, IH.
    symmetry. apply replicate_cons_app. }
  rewrite drop_while_replicate by reflexivity.
  assert (drop_while (Z.eqb 61) (reverse t) = reverse t) as ->; [|apply reverse_involutive].
  destruct (reverse t) as [|c r] eqn:E; [done|]. cbn [drop_while].
  assert (b64_safe c) as Hc.
  { rewrite Forall_forall in Ht. apply Ht. apply elem_of_reverse. rewrite E. by left. }
  destruct (Z.eqb_spec 61 c); [|done]. unfold b64_safe in Hc. lia.
Qed.

Lemma b64encode_body b : Forall is_byte b -> b64encode b = b64_body b.
Proof. intros Hb. by apply rstrip_eq_pad, b64_body_safe. Qed.

Lemma b64encode_safe b : Forall is_byte b -> Forall b64_safe (b64encode b).
Proof. intros Hb. rewrite b64encode_body by done. by apply b64_body_safe. Qed.

Lemma is_ascii_spec t : is_ascii t = true <-> Forall (fun c => 0 <= c < 128) t.
Proof.
  unfold is_ascii. rewrite forallb_forall, Forall_forall.
  split; intros H x Hx; specialize (H x); rewrite list_elem_of_In in *;
    rewrite ?andb_true_iff, ?Z.leb_le, ?Z.ltb_lt in *; naive_solver lia.
Qed.

Lemma b64_safe_ascii t : Forall b64_safe t -> is_ascii t = true.
Proof. intros Ht. apply is_ascii_spec. eapply Forall_impl; [exact Ht|]. unfold b64_safe. lia. Qed.

Lemma is_ascii_app a b : is_ascii (a ++ b) = is_ascii a && is_ascii b.
Proof. apply forallb_app. Qed.

Lemma b64_roundtrip b : Forall is_byte b -> b64decode (b64encode b) = Some b.
Proof.
  intros Hb. unfold b64decode, urlsafe_b64decode. rewrite b64encode_body by done.
  assert (is_ascii (b64_body b ++ replicate (Z.to_nat (- zlen (b64_body b) mod 4)) 61) = true) as ->.
  { rewrite is_ascii_app, (b64_safe_ascii (b64_body b)) by by apply b64_body_safe.
    apply is_ascii_spec. by apply Forall_replicate. }
  by apply a2b_body.
Qed.

Lemma split_once_app sep a b : sep ∉ a -> split_once sep (a ++ sep :: b) = Some (a, b).
Proof.
  induction a as [|c a IH]; cbn; intros Ha; [by rewrite Z.eqb_refl|].
  destruct (Z.eqb_spec c sep) as [->|]; [set_solver|]. rewrite IH by set_solver. done.
Qed.

Lemma b64_no_sep t sep : Forall b64_safe t -> ~ b64_safe sep -> sep ∉ t.
Proof. intros Ht Hs Hin. rewrite Forall_forall in Ht. eauto. Qed.

Lemma utf8_ascii t : is_ascii t = true -> utf8 t = Some t.
Proof.
  rewrite is_ascii_spec. induction 1 as [|c t Hc Ht IH]; [done|]. cbn. unfold utf8_char.
  destruct (Z.ltb_spec c 128); [|lia]. by rewrite IH.
Qed.
