(* ===== verification/Auth.v ===== *)
(** * Identities and signed tickets

    [src/backend/shared/auth.py]: the identity a request carries, the ticket that binds it
    to one audience, lifetime and message, and password records.  The hash functions and
    the JSON printer and parser are the class [Crypto] with the laws [CryptoLaws]; base64
    and the splitting of text are those of [Base64].  Contextvars and environment
    variables are arguments. *)

From stdpp Require Import pretty countable base strings sets list.
From S2P Require Import Prelude PyValue Base64.

Local Open Scope string_scope.
Local Open Scope list_scope.
Local Open Scope Z_scope.

Definition AuthError {A} (message : string) : outcome py_exn A :=
  Raise (PyError (lit "AuthError") (lit message)).

(** ** Identities *)

Record auth_identity := mkAuth {
  ai_tenant_id : text; ai_user_id : text; ai_role : text;
  ai_email : option text; ai_admin_id : option text; ai_session_id : option text
}.

Definition VALID_ROLES : list text := [lit "admin"; lit "user"; lit "service"].

Definition identity_is_admin (i : auth_identity) : bool := bool_decide (ai_role i = lit "admin").
Definition identity_is_service (i : auth_identity) : bool := bool_decide (ai_role i = lit "service").

(** [__post_init__]. *)
Definition new_identity (i : auth_identity) : outcome py_exn auth_identity :=
  if bool_decide (ai_tenant_id i = []) || bool_decide (ai_user_id i = [])
  then AuthError "tenant_id and user_id are required"
  else if bool_decide (ai_role i ∈ VALID_ROLES) then Ok i
  else Raise (PyError (lit "AuthError") (lit "unsupported role: " ++ ai_role i)).

Definition opt_entry (k : string) (v : option text) : obj :=
  match v with Some t => [(k, JStr t)] | None => [] end.

(** The fields that are not [None], in the order of the class. *)
Definition to_dict (i : auth_identity) : obj :=
  [("tenant_id", JStr (ai_tenant_id i)); ("user_id", JStr (ai_user_id i)); ("role", JStr (ai_role i))]
  ++ opt_entry "email" (ai_email i) ++ opt_entry "admin_id" (ai_admin_id i)
  ++ opt_entry "session_id" (ai_session_id i).

Section Mapping.
Context `{PyText}.

Definition opt_field (value : obj) (k : string) : option text :=
  if jtrue (get value k) then Some (py_str (get value k)) else None.

Definition from_mapping (value : obj) : outcome py_exn auth_identity :=
  new_identity
    (mkAuth (py_str (get value "tenant_id" ||| JStr [])) (py_str (get value "user_id" ||| JStr []))
       (py_str (get value "role" ||| JStr []))
       (opt_field value "email") (opt_field value "admin_id") (opt_field value "session_id")).

(** [context] holds the contextvars that are set. *)
Definition identity_from_context (required : bool) (context : obj)
    : outcome py_exn (option auth_identity) :=
  if negb (jtrue (get context "tenant_id")) || negb (jtrue (get context "user_id"))
     || negb (jtrue (get context "role"))
  then if required then AuthError "authenticated identity is missing from request context" else Ok None
  else let* i := from_mapping context in Ok (Some i).
End Mapping.

(** ** Hashes and JSON *)

Class Crypto := {
  hmac_sha256 : bytes -> bytes -> bytes;
  sha256_hex : bytes -> text;
  pbkdf2_sha256 : bytes -> bytes -> Z -> bytes;
  json_dumps : json -> text;
  json_loads : bytes -> option json
}.

(** Text without surrogates; the JSON escapes of two surrogates in a row read as one
    character. *)
Definition plain (t : text) : Prop := Forall (fun c => 0 <= c < 55296 \/ 57344 <= c < 1114112) t.

Definition scalar (v : json) : Prop :=
  match v with JStr t => plain t | JInt _ => True | _ => False end.

(** Digests are bytes, hexadecimal digests and printed JSON are ASCII, and a dictionary of
    strings and integers reads back with the same entries. *)
Class CryptoLaws `{Crypto} := {
  hmac_bytes k m : Forall is_byte (hmac_sha256 k m);
  pbkdf2_bytes p s n : Forall is_byte (pbkdf2_sha256 p s n);
  sha256_hex_ascii m : is_ascii (sha256_hex m) = true;
  dumps_ascii v : is_ascii (json_dumps v) = true;
  loads_dumps o : NoDup o.*1 -> Forall (fun kv => scalar kv.2) o ->
    exists o', json_loads (json_dumps (JObj o)) = Some (JObj o') /\
               forall k, obj_get o' k = obj_get o k
}.

Section Tickets.
Context `{PyText} `{Crypto}.

Definition encode_utf8 (t : text) : outcome py_exn bytes :=
  match utf8 t with
  | Some b => Ok b
  | None => Raise (PyError (lit "UnicodeEncodeError") (lit "surrogates not allowed"))
  end.

Definition encode_ascii (t : text) : outcome py_exn bytes :=
  if is_ascii t then Ok t
  else Raise (PyError (lit "UnicodeEncodeError") (lit "ordinal not in range(128)")).

Definition b64decode_or_raise (value : text) : outcome py_exn bytes :=
  match b64decode value with Some b => Ok b | None => AuthError "invalid base64 encoding" end.

Definition MINIMUM_SECRET_BYTES : Z := 32.

Definition secret_bytes (secret : text) : outcome py_exn bytes :=
  let* encoded := encode_utf8 secret in
  if zlen encoded <? MINIMUM_SECRET_BYTES
  then AuthError "authentication secret must contain at least 32 bytes"
  else Ok encoded.

(** *** Signing *)

Definition ticket_claims (identity : auth_identity) (audience purpose issuer jti : text)
    (issued_at ttl_seconds : Z) : obj :=
  to_dict identity ++
  [("aud", JStr audience); ("purpose", JStr purpose); ("iat", JInt issued_at);
   ("exp", JInt (issued_at + ttl_seconds)); ("jti", JStr jti); ("iss", JStr issuer)].

Definition sign_auth_ticket (identity : auth_identity) (secret audience : text) (ttl_seconds : Z)
    (purpose issuer : text) (now : Z) (jti : text) (extra_claims : obj) : outcome py_exn text :=
  if bool_decide (audience = []) || (ttl_seconds <=? 0) || (900 <? ttl_seconds)
  then AuthError "invalid ticket audience or lifetime"
  else
    let payload := ticket_claims identity audience purpose issuer jti now ttl_seconds in
    if existsb (fun kv => has_key payload kv.1) extra_claims
    then AuthError "authentication ticket claims contain reserved fields"
    else
      let* json_bytes := encode_utf8 (json_dumps (JObj (obj_update payload extra_claims))) in
      let encoded := b64encode json_bytes in
      let* key := secret_bytes secret in
      let* message := encode_ascii encoded in
      Ok (encoded ++ lit "." ++ b64encode (hmac_sha256 key message)).

(** *** Verification *)

(** [v in {...}] on strings; a list or a dictionary cannot be hashed. *)
Definition in_strings (v : json) (l : list text) : outcome py_exn bool :=
  match v with
  | JStr s => Ok (bool_decide (s ∈ l))
  | JArr _ | JObj _ => TypeError
  | _ => Ok false
  end.

Definition ISSUERS : list text := [lit "ragapp-gateway"; lit "ragapp-internal"].

(** [isinstance(v, int)]; booleans are integers. *)
Definition as_int (v : json) : option Z :=
  match v with JInt n => Some n | JBool b => Some (if b then 1 else 0) | _ => None end.

(** [hmac.compare_digest] on strings raises unless both are ASCII. *)
Definition claim_matches (supplied expected : json) : outcome py_exn bool :=
  match expected, supplied with
  | JStr e, JStr s =>
      if is_ascii e && is_ascii s then Ok (bool_decide (s = e)) else TypeError
  | _, _ => Ok (py_eqb supplied expected)
  end.

Fixpoint check_claims (payload : obj) (required_claims : obj) : outcome py_exn unit :=
  match required_claims with
  | [] => Ok tt
  | (k, expected) :: rest =>
      let* matches := claim_matches (get payload k) expected in
      if matches then check_claims payload rest
      else AuthError "authentication ticket is not bound to this request"
  end.

Definition check_payload (payload : obj) (audience : text) (purpose : option text)
    (current_time clock_skew_seconds : Z) (required_claims : obj) : outcome py_exn auth_identity :=
  let* known := in_strings (get payload "iss") ISSUERS in
  if negb known || negb (py_eqb (get payload "aud") (JStr audience))
  then AuthError "authentication ticket audience mismatch"
  else if match purpose with Some p => negb (py_eqb (get payload "purpose") (JStr p)) | None => false end
  then AuthError "authentication ticket purpose mismatch"
  else match as_int (get payload "iat"), as_int (get payload "exp") with
  | Some iat, Some exp =>
      if current_time + clock_skew_seconds <? iat
      then AuthError "authentication ticket is not active yet"
      else if exp <=? current_time - clock_skew_seconds
      then AuthError "authentication ticket has expired"
      else
        let* _ := check_claims payload required_claims in
        from_mapping payload
  | _, _ => AuthError "authentication ticket has no valid lifetime"
  end.

Definition verify_auth_ticket (ticket secret audience : text) (purpose : option text)
    (now clock_skew_seconds : Z) (required_claims : obj) : outcome py_exn auth_identity :=
  match split_once 46 ticket with
  | None => AuthError "malformed authentication ticket"
  | Some (encoded, raw_signature) =>
      let* key := secret_bytes secret in
      let* message := encode_ascii encoded in
      let* supplied := b64decode_or_raise raw_signature in
      if negb (bool_decide (hmac_sha256 key message = supplied))
      then AuthError "invalid authentication ticket signature"
      else
        let* raw := b64decode_or_raise encoded in
        match json_loads raw with
        | Some (JObj payload) =>
            check_payload payload audience purpose now clock_skew_seconds required_claims
        | _ => AuthError "invalid authentication ticket payload"
        end
  end.

(** ** Envelopes *)

Definition internal_envelope_digest (envelope : obj) : outcome py_exn text :=
  let* serialized := encode_utf8 (json_dumps (JObj (obj_pop envelope "auth_context"))) in
  Ok (sha256_hex serialized).

Definition verify_internal_ticket_from_envelope (auth_required : bool) (secret : text) (now : Z)
    (envelope : obj) : outcome py_exn (option auth_identity) :=
  let ticket := get envelope "auth_context" in
  if jtrue ticket then
    let* digest := internal_envelope_digest envelope in
    let* i := verify_auth_ticket (py_str ticket) secret (lit "internal") (Some (lit "request")) now 30
                [("payload_sha256", JStr digest)] in
    Ok (Some i)
  else if auth_required then AuthError "signed authentication context is required" else Ok None.

Definition attach_internal_auth_context (context : obj) (secret : text) (required : bool) (now : Z)
    (jti : text) (ttl_seconds : Z) (envelope : obj) : outcome py_exn obj :=
  let* identity := identity_from_context false context in
  match identity with
  | Some i =>
      if bool_decide (secret = [])
      then if required
           then AuthError "cannot publish an internal message without authenticated identity"
           else Ok envelope
      else
        let* digest := internal_envelope_digest envelope in
        let* ticket := sign_auth_ticket i secret (lit "internal") ttl_seconds (lit "request")
                         (lit "ragapp-internal") now jti [("payload_sha256", JStr digest)] in
        Ok (obj_set envelope "auth_context" (JStr ticket))
  | None =>
      if required then AuthError "cannot publish an internal message without authenticated identity"
      else Ok envelope
  end.

(** ** Passwords *)

Definition PASSWORD_SCHEME : text := lit "pbkdf2_sha256".

Definition hash_password (password pepper : text) (iterations : Z) (salt : bytes) : outcome py_exn text :=
  if zlen password <? 15 then AuthError "password must contain at least 15 characters"
  else if iterations <? 100000 then AuthError "password hashing iteration count is too low"
  else
    let* material := encode_utf8 (password ++ pepper) in
    Ok (PASSWORD_SCHEME ++ lit "$" ++ show iterations ++ lit "$" ++ b64encode salt ++ lit "$"
        ++ b64encode (pbkdf2_sha256 material salt iterations)).

(** A malformed record, or text that cannot be encoded, means [False]; more iterations than
    an [int] of C holds raise [OverflowError]. *)
Definition verify_password (password encoded pepper : text) : outcome py_exn bool :=
  match split_once 36 encoded with
  | Some (scheme, rest) =>
      match split_once 36 rest with
      | Some (raw_iterations, rest) =>
          match split_once 36 rest with
          | Some (raw_salt, raw_digest) =>
              if bool_decide (scheme = PASSWORD_SCHEME) then
                match parse_int raw_iterations, b64decode raw_salt, b64decode raw_digest,
                      utf8 (password ++ pepper) with
                | Some iterations, Some salt, Some expected, Some material =>
                    if iterations <? 1 then Ok false
                    else if 2147483647 <? iterations
                    then Raise (PyError (lit "OverflowError") (lit "iteration value is too great."))
                    else Ok (bool_decide (pbkdf2_sha256 material salt iterations = expected))
                | _, _, _, _ => Ok false
                end
              else Ok false
          | None => Ok false
          end
      | None => Ok false
      end
  | None => Ok false
  end.
End Tickets.

(** ** Facts *)

Definition optional_ok (o : option text) : Prop := match o with Some t => t <> [] /\ plain t | None => True end.

(** What the constructor and the two callers of it guarantee: required fields are not
    empty, optional fields are absent or not empty, the role is known. *)
Definition wf_identity (i : auth_identity) : Prop :=
  ai_tenant_id i <> [] /\ plain (ai_tenant_id i) /\ ai_user_id i <> [] /\ plain (ai_user_id i) /\
  ai_role i ∈ VALID_ROLES /\
  optional_ok (ai_email i) /\ optional_ok (ai_admin_id i) /\ optional_ok (ai_session_id i).

Section Facts.
Context `{PyText}.

Lemma jtrue_str t : t <> [] -> jtrue (JStr t) = true.
Proof. intros Ht. cbn. by rewrite bool_decide_false. Qed.

Lemma role_nonempty r : r ∈ VALID_ROLES -> r <> [].
Proof. unfold VALID_ROLES. rewrite !elem_of_cons, elem_of_nil. by intros [->|[->|[->|[]]]]. Qed.

Lemma lit_plain s : plain (lit s).
Proof.
  induction s as [|a s IH]; [constructor|].
  change (plain (Z.of_nat (Ascii.nat_of_ascii a) :: lit s)). constructor; [|done].
  pose proof (Ascii.nat_ascii_bounded a). lia.
Qed.

Lemma role_plain r : r ∈ VALID_ROLES -> plain r.
Proof.
  unfold VALID_ROLES. rewrite !elem_of_cons, elem_of_nil. intros [->|[->|[->|[]]]]; apply lit_plain.
Qed.

(** An identity survives being written into a dictionary and read back. *)
Lemma from_mapping_to_dict i o :
  wf_identity i ->
  (forall k, k ∈ ["tenant_id"; "user_id"; "role"; "email"; "admin_id"; "session_id"] ->
     obj_get o k = obj_get (to_dict i) k) ->
  from_mapping o = Ok i.
Proof.
  intros (Ht & _ & Hu & _ & Hr & He & Ha & Hs) Ho.
  assert (forall k, k ∈ ["tenant_id"; "user_id"; "role"; "email"; "admin_id"; "session_id"] ->
            get o k = get (to_dict i) k) as Hg by (intros k Hk; unfold get, get_or; by rewrite Ho).
  unfold from_mapping, opt_field. rewrite !Hg by set_solver. clear Ho Hg.
  destruct i as [t u r e a s]. cbn [ai_tenant_id ai_user_id ai_role ai_email ai_admin_id ai_session_id] in *.
  assert (get (to_dict (mkAuth t u r e a s)) "tenant_id" = JStr t) as -> by done.
  assert (get (to_dict (mkAuth t u r e a s)) "user_id" = JStr u) as -> by done.
  assert (get (to_dict (mkAuth t u r e a s)) "role" = JStr r) as -> by done.
  rewrite !jor_true by (apply jtrue_str; auto using role_nonempty). cbn [py_str].
  assert (forall k (x : option text), optional_ok x ->
            get (to_dict (mkAuth t u r e a s)) k = match x with Some v => JStr v | None => JNull end ->
            (if jtrue (get (to_dict (mkAuth t u r e a s)) k)
             then Some (py_str (get (to_dict (mkAuth t u r e a s)) k)) else None) = x) as Hopt.
  { intros k [x|] Hx ->; [|done]. by rewrite jtrue_str by apply Hx. }
  rewrite (Hopt "email" e), (Hopt "admin_id" a), (Hopt "session_id" s) by (done || by destruct e, a, s).
  unfold new_identity. cbn [ai_tenant_id ai_user_id ai_role].
  by rewrite !bool_decide_false, bool_decide_true by done.
Qed.
End Facts.

Section TicketFacts.
Context `{PyText} `{CryptoLaws}.

(** The characters a ticket must not contain in its encoded parts. *)
Lemma dot_unsafe : ~ b64_safe 46.
Proof. unfold b64_safe. lia. Qed.
Lemma dollar_unsafe : ~ b64_safe 36.
Proof. unfold b64_safe. lia. Qed.

Lemma encode_dumps v : encode_utf8 (json_dumps v) = Ok (json_dumps v).
Proof. unfold encode_utf8. by rewrite utf8_ascii by apply dumps_ascii. Qed.

Lemma dumps_bytes v : Forall is_byte (json_dumps v).
Proof.
  eapply Forall_impl; [apply is_ascii_spec, dumps_ascii|]. unfold is_byte. intros. lia.
Qed.

Lemma ascii_plain t : is_ascii t = true -> plain t.
Proof. intros Ht%is_ascii_spec. eapply Forall_impl; [exact Ht|]. cbn. lia. Qed.

Definition ticket_text (key : bytes) (payload : obj) : text :=
  let encoded := b64encode (json_dumps (JObj payload)) in
  encoded ++ lit "." ++ b64encode (hmac_sha256 key encoded).

(** Every claim is a string or an integer the JSON round trip preserves. *)
Definition claims_ok (o : obj) : Prop := NoDup o.*1 /\ Forall (fun kv => scalar kv.2) o.

Lemma ticket_claims_ok i aud purpose iss jti now ttl extra :
  wf_identity i -> Forall plain [aud; purpose; iss; jti] -> claims_ok extra ->
  claims_ok (obj_update (ticket_claims i aud purpose iss jti now ttl) extra).
Proof.
  intros (_ & Ht & _ & Hu & Hr%role_plain & He & Ha & Hs) Hp [_ Hv].
  rewrite !Forall_cons in Hp. destruct Hp as (P1 & P2 & P3 & P4 & _). split.
  - apply obj_update_keys. apply (bool_decide_unpack _).
    destruct i as [t u r [e|] [a|] [s|]]; vm_compute; exact I.
  - apply (obj_update_values scalar); [|done].
    destruct i as [t u r [e|] [a|] [s|]]; cbn in *; repeat (constructor; [cbn; tauto|]); constructor.
Qed.

Lemma sign_auth_ticket_ok i secret key aud ttl purpose iss now jti extra :
  aud <> [] -> 0 < ttl <= 900 -> secret_bytes secret = Ok key ->
  Forall (fun kv => has_key (ticket_claims i aud purpose iss jti now ttl) kv.1 = false) extra ->
  sign_auth_ticket i secret aud ttl purpose iss now jti extra =
  Ok (ticket_text key (obj_update (ticket_claims i aud purpose iss jti now ttl) extra)).
Proof.
  intros Ha Ht Hk He. unfold sign_auth_ticket. rewrite bool_decide_false by done.
  destruct (Z.leb_spec ttl 0); [lia|]. destruct (Z.ltb_spec 900 ttl); [lia|]. cbn [orb].
  assert (existsb (fun kv => has_key (ticket_claims i aud purpose iss jti now ttl) kv.1) extra = false) as ->.
  { apply not_true_iff_false. rewrite existsb_exists. intros (kv & Hin & Hh).
    rewrite Forall_forall in He. rewrite He in Hh; [done|]. by apply list_elem_of_In. }
  rewrite encode_dumps. cbn [obind]. rewrite Hk. cbn [obind]. unfold encode_ascii.
  by rewrite (b64_safe_ascii _ (b64encode_safe _ (dumps_bytes _))).
Qed.

(** Reading back a ticket reduces verification to the checks on its claims. *)
Lemma verify_ticket_text key secret payload :
  secret_bytes secret = Ok key -> claims_ok payload ->
  exists payload', (forall k, obj_get payload' k = obj_get payload k) /\
    forall aud purpose now skew req,
    verify_auth_ticket (ticket_text key payload) secret aud purpose now skew req =
    check_payload payload' aud purpose now skew req.
Proof.
  intros Hk [Hn Hv]. destruct (loads_dumps payload Hn Hv) as (o' & Ho & Hg). exists o'. split; [done|].
  intros aud purpose now skew req.
  unfold verify_auth_ticket, ticket_text.
  assert (Forall b64_safe (b64encode (json_dumps (JObj payload)))) as Hs by apply b64encode_safe, dumps_bytes.
  change (lit "." ++ ?x) with (46 :: x). rewrite split_once_app by (eapply b64_no_sep; [done|apply dot_unsafe]).
  rewrite Hk. cbn [obind]. unfold encode_ascii. rewrite b64_safe_ascii by done. cbn [obind].
  unfold b64decode_or_raise. rewrite b64_roundtrip by apply hmac_bytes. cbn [obind].
  rewrite bool_decide_true by done. cbn [negb]. rewrite b64_roundtrip by apply dumps_bytes.
  cbn [obind]. by rewrite Ho.
Qed.

(** The required claims of a verification that the ticket was signed with. *)
Definition claims_bound (extra req : obj) : Prop :=
  Forall (fun kv => exists t, kv.2 = JStr t /\ is_ascii t = true /\ obj_get extra kv.1 = Some (JStr t)) req.

Lemma check_claims_bound payload extra req :
  (forall k v, obj_get extra k = Some v -> obj_get payload k = Some v) ->
  claims_bound extra req -> check_claims payload req = Ok tt.
Proof.
  intros He. induction 1 as [|[k v] req (t & Hv & Ha & Ht) Hreq IH]; cbn; [done|].
  cbn in Hv, Ht. subst v. unfold get, get_or. rewrite (He _ _ Ht). cbn. rewrite Ha. cbn.
  by rewrite bool_decide_true.
Qed.

Lemma has_key_get o k : has_key o k = false <-> obj_get o k = None.
Proof. unfold has_key. by destruct (obj_get o k). Qed.

Lemma reserved_get i aud purpose iss jti now ttl extra k :
  NoDup extra.*1 ->
  Forall (fun kv => has_key (ticket_claims i aud purpose iss jti now ttl) kv.1 = false) extra ->
  is_Some (obj_get (ticket_claims i aud purpose iss jti now ttl) k) ->
  obj_get (obj_update (ticket_claims i aud purpose iss jti now ttl) extra) k =
  obj_get (ticket_claims i aud purpose iss jti now ttl) k.
Proof.
  intros Hn He [v Hk]. rewrite obj_get_update by done. destruct (obj_get extra k) as [w|] eqn:E; [|done].
  assert (k ∈ extra.*1) as Hin.
  { clear -E. induction extra as [|[k' v'] e IH]; cbn in *; [done|].
    destruct (decide (k = k')); [set_solver|]. right. auto. }
  apply list_elem_of_fmap in Hin as ([k' w'] & -> & Hin). rewrite Forall_forall in He.
  apply He, has_key_get in Hin. cbn [fst] in Hin, Hk. congruence.
Qed.

Lemma ticket_claims_field i aud purpose iss jti now ttl k v :
  (k, v) ∈ [("aud", JStr aud); ("purpose", JStr purpose); ("iat", JInt now);
            ("exp", JInt (now + ttl)); ("iss", JStr iss)] ->
  obj_get (ticket_claims i aud purpose iss jti now ttl) k = Some v.
Proof.
  rewrite !elem_of_cons, elem_of_nil.
  intros [[= -> ->]|[[= -> ->]|[[= -> ->]|[[= -> ->]|[[= -> ->]|[]]]]]];
    destruct i as [t u r [e|] [a|] [s|]]; reflexivity.
Qed.

Lemma obj_pop_set o k v : obj_pop (obj_set o k v) k = obj_pop o k.
Proof.
  unfold obj_pop. induction o as [|[k' v'] o IH]; cbn -[bool_decide].
  - by rewrite bool_decide_true.
  - destruct (decide (k = k')) as [<-|Hk]; cbn -[bool_decide].
    + by rewrite !bool_decide_true.
    + by rewrite bool_decide_false, IH by done.
Qed.

(** The six identity fields of a signed payload read back as the identity. *)
Lemma signed_identity i aud purpose iss jti now ttl extra o :
  wf_identity i -> NoDup extra.*1 ->
  Forall (fun kv => has_key (ticket_claims i aud purpose iss jti now ttl) kv.1 = false /\
                    kv.1 ∉ ["email"; "admin_id"; "session_id"]) extra ->
  (forall k, obj_get o k = obj_get (obj_update (ticket_claims i aud purpose iss jti now ttl) extra) k) ->
  from_mapping o = Ok i.
Proof.
  intros Hw Hn He Ho. apply from_mapping_to_dict; [done|]. intros k Hk. rewrite Ho, obj_get_update by done.
  assert (obj_get extra k = None) as ->.
  { apply obj_get_not_in. intros Hin. apply list_elem_of_fmap in Hin as ([k' v] & -> & Hin).
    rewrite Forall_forall in He. apply He in Hin as [Hh Ho']. cbn in *.
    rewrite !elem_of_cons, elem_of_nil in Hk.
    destruct Hk as [->|[->|[->|[->|[->|[->|[]]]]]]]; [done|done|done|set_solver..]. }
  destruct i as [t u r [e|] [a|] [s|]]; rewrite !elem_of_cons, elem_of_nil in Hk;
    destruct Hk as [->|[->|[->|[->|[->|[->|[]]]]]]]; reflexivity.
Qed.

(** The checks on a signed payload, as a function of the time. *)
Lemma check_signed i aud purpose iss jti iat ttl extra req o now :
  wf_identity i -> iss ∈ ISSUERS -> NoDup extra.*1 ->
  Forall (fun kv => has_key (ticket_claims i aud purpose iss jti iat ttl) kv.1 = false /\
                    kv.1 ∉ ["email"; "admin_id"; "session_id"]) extra ->
  (forall k, obj_get o k = obj_get (obj_update (ticket_claims i aud purpose iss jti iat ttl) extra) k) ->
  claims_bound extra req ->
  check_payload o aud (Some purpose) now 30 req =
  if now <? iat - 30 then AuthError "authentication ticket is not active yet"
  else if iat + ttl + 30 <=? now then AuthError "authentication ticket has expired"
  else Ok i.
Proof.
  intros Hw Hi Hn He Ho Hreq.
  assert (Forall (fun kv => has_key (ticket_claims i aud purpose iss jti iat ttl) kv.1 = false) extra) as He'
    by (eapply Forall_impl; [exact He|]; naive_solver).
  assert (forall k v, (k, v) ∈ [("aud", JStr aud); ("purpose", JStr purpose); ("iat", JInt iat);
                                ("exp", JInt (iat + ttl)); ("iss", JStr iss)] -> get o k = v) as Hfield.
  { intros k v Hk%(ticket_claims_field i aud purpose iss jti iat ttl). unfold get, get_or.
    rewrite Ho, reserved_get, Hk by first [done|by eexists]. done. }
  unfold check_payload.
  rewrite (Hfield "iss" (JStr iss)), (Hfield "aud" (JStr aud)), (Hfield "purpose" (JStr purpose)),
    (Hfield "iat" (JInt iat)), (Hfield "exp" (JInt (iat + ttl))) by set_solver.
  cbn [in_strings obind]. rewrite bool_decide_true by done.
  rewrite !(proj2 (py_eqb_str _ _) eq_refl). cbn [negb orb as_int].
  destruct (Z.ltb_spec (now + 30) iat), (Z.ltb_spec now (iat - 30)); try lia; [done|].
  destruct (Z.leb_spec (iat + ttl) (now - 30)), (Z.leb_spec (iat + ttl + 30) now); try lia; [done|].
  rewrite (check_claims_bound o extra req); cbn [obind].
  - by eapply signed_identity.
  - intros k v Hk. rewrite Ho, obj_get_update by done. by rewrite Hk.
  - done.
Qed.

(** a ticket is accepted exactly in its window.  For a valid identity, audience,
    lifetime and secret, signing succeeds; verifying the ticket for the same secret,
    audience and purpose, with claims it was signed with, gives back the identity at every
    time from 30 seconds before it was issued until just before 30 seconds after it
    expires, and raises the two lifetime errors before and after. *)
Theorem ticket_window i secret aud ttl purpose iss iat jti extra req :
  wf_identity i -> (exists key, secret_bytes secret = Ok key) -> aud <> [] -> 0 < ttl <= 900 ->
  iss ∈ ISSUERS -> Forall plain [aud; purpose; iss; jti] -> claims_ok extra ->
  Forall (fun kv => has_key (ticket_claims i aud purpose iss jti iat ttl) kv.1 = false /\
                    kv.1 ∉ ["email"; "admin_id"; "session_id"]) extra ->
  claims_bound extra req ->
  exists ticket, sign_auth_ticket i secret aud ttl purpose iss iat jti extra = Ok ticket /\
    forall now, verify_auth_ticket ticket secret aud (Some purpose) now 30 req =
      if now <? iat - 30 then AuthError "authentication ticket is not active yet"
      else if iat + ttl + 30 <=? now then AuthError "authentication ticket has expired"
      else Ok i.
Proof.
  intros Hw [key Hkey] Ha Ht Hi Hp Hx He Hreq. eexists. split.
  - apply (sign_auth_ticket_ok _ _ key); [done..|]. eapply Forall_impl; [exact He|]. naive_solver.
  - destruct (verify_ticket_text key secret
      (obj_update (ticket_claims i aud purpose iss jti iat ttl) extra)) as (o & Ho & Hver);
      [done|by apply ticket_claims_ok|].
    intros now. rewrite Hver. by eapply check_signed; [..|apply Hx|exact He|exact Ho|].
Qed.

Definition envelope_digest (envelope : obj) : text :=
  sha256_hex (json_dumps (JObj (obj_pop envelope "auth_context"))).

Lemma internal_envelope_digest_eq e : internal_envelope_digest e = Ok (envelope_digest e).
Proof. unfold internal_envelope_digest. by rewrite encode_dumps. Qed.

(** Verification of the signature and the lifetime alone, then of the bound message. *)
Lemma check_payload_digest payload aud purpose now skew digest i :
  check_payload payload aud purpose now skew [] = Ok i ->
  forall t, get payload "payload_sha256" = JStr t -> is_ascii t = true -> is_ascii digest = true ->
  check_payload payload aud purpose now skew [("payload_sha256", JStr digest)] =
  if decide (t = digest) then Ok i
  else AuthError "authentication ticket is not bound to this request".
Proof.
  intros Hi t Ht Ha Hd. revert Hi. unfold check_payload.
  destruct (in_strings (get payload "iss") ISSUERS) as [known|]; cbn [obind]; [|done].
  destruct (negb known || _); [done|]. destruct (match purpose with Some _ => _ | None => _ end); [done|].
  destruct (as_int (get payload "iat")) as [n|]; [|done]. destruct (as_int (get payload "exp")) as [x|]; [|done].
  destruct (now + skew <? n); [done|]. destruct (x <=? now - skew); [done|]. cbn [check_claims obind].
  intros Hi. rewrite Ht. cbn [claim_matches]. rewrite Ha, Hd. cbn [andb obind].
  destruct (decide (t = digest)) as [->|Hne]; [by rewrite bool_decide_true|by rewrite bool_decide_false].
Qed.

(** a signed envelope is bound to its content.  When an identity is bound to the
    context and a secret is configured, the envelope that is published carries a ticket
    such that, within its lifetime, every envelope with this ticket is accepted with that
    identity when its digest is the digest of the envelope that was signed, and refused
    otherwise; the published envelope itself is accepted, and only the field
    [auth_context] was added to it. *)
Theorem envelope_bound context secret required iat jti ttl envelope i :
  identity_from_context false context = Ok (Some i) -> wf_identity i ->
  (exists key, secret_bytes secret = Ok key) -> 0 < ttl <= 900 -> plain jti ->
  exists published,
    attach_internal_auth_context context secret required iat jti ttl envelope = Ok published /\
    (forall k, k <> "auth_context" -> obj_get published k = obj_get envelope k) /\
    forall now auth_required, iat - 30 <= now < iat + ttl + 30 ->
      verify_internal_ticket_from_envelope auth_required secret now published = Ok (Some i) /\
      forall other, get other "auth_context" = get published "auth_context" ->
        verify_internal_ticket_from_envelope auth_required secret now other =
        if decide (envelope_digest envelope = envelope_digest other) then Ok (Some i)
        else AuthError "authentication ticket is not bound to this request".
Proof.
  intros Hc Hw [key Hkey] Ht Hj. set (extra := [("payload_sha256", JStr (envelope_digest envelope))]).
  set (claims := ticket_claims i (lit "internal") (lit "request") (lit "ragapp-internal") jti iat ttl).
  assert (claims_ok extra) as Hextra.
  { split; [apply NoDup_singleton|]. constructor; [apply ascii_plain, sha256_hex_ascii|constructor]. }
  assert (Forall (fun kv => has_key claims kv.1 = false /\ kv.1 ∉ ["email"; "admin_id"; "session_id"]) extra) as Hres.
  { constructor; [|constructor]. split; [destruct i as [t u r [e|] [a|] [s|]]; reflexivity|set_solver]. }
  assert (Forall plain [lit "internal"; lit "request"; lit "ragapp-internal"; jti]) as Hplain
    by (repeat (constructor; [first [apply lit_plain|exact Hj]|]); constructor).
  assert (claims_ok (obj_update claims extra)) as Hok by by apply ticket_claims_ok.
  set (ticket := ticket_text key (obj_update claims extra)).
  assert (ticket <> []) as Hne by (unfold ticket, ticket_text; by destruct (b64encode _)).
  assert (attach_internal_auth_context context secret required iat jti ttl envelope =
          Ok (obj_set envelope "auth_context" (JStr ticket))) as Hatt.
  { unfold attach_internal_auth_context. rewrite Hc. cbn [obind].
    rewrite bool_decide_false by (intros ->; discriminate Hkey). rewrite internal_envelope_digest_eq. cbn [obind].
    rewrite (sign_auth_ticket_ok i secret key); [done|done|done|done|].
    eapply Forall_impl; [exact Hres|]. naive_solver. }
  exists (obj_set envelope "auth_context" (JStr ticket)). split; [done|].
  split; [intros k Hk; by apply obj_get_set_ne|]. intros now auth_required Hnow.
  assert (forall other, get other "auth_context" = JStr ticket ->
    verify_internal_ticket_from_envelope auth_required secret now other =
    if decide (envelope_digest envelope = envelope_digest other) then Ok (Some i)
    else AuthError "authentication ticket is not bound to this request") as Hall.
  { intros other Ho. unfold verify_internal_ticket_from_envelope. rewrite Ho, jtrue_str by done.
    rewrite internal_envelope_digest_eq. cbn [obind py_str].
    destruct (verify_ticket_text key secret _ Hkey Hok) as (p & Hp & Hver).
    unfold ticket. rewrite Hver.
    assert (check_payload p (lit "internal") (Some (lit "request")) now 30 [] = Ok i) as Hfree.
    { erewrite check_signed; [|exact Hw|..|apply Hextra|exact Hres|exact Hp|constructor]; [|set_solver].
      destruct (Z.ltb_spec now (iat - 30)); [lia|]. by destruct (Z.leb_spec (iat + ttl + 30) now); [lia|]. }
    erewrite (check_payload_digest _ _ _ _ _ _ _ Hfree (envelope_digest envelope));
      [by destruct (decide _)| |apply sha256_hex_ascii..].
    unfold get, get_or. by rewrite Hp, obj_get_update by apply NoDup_singleton. }
  assert (get (obj_set envelope "auth_context" (JStr ticket)) "auth_context" = JStr ticket) as Hpub
    by (rewrite get_set; by rewrite decide_True).
  split; [|intros other Ho; apply Hall; by rewrite Ho].
  rewrite Hall by done. unfold envelope_digest. rewrite obj_pop_set. by rewrite decide_True.
Qed.

(** ** Passwords *)

Lemma lit_append a b : lit (a +:+ b) = lit a ++ lit b.
Proof.
  induction a as [|c a IH]; [done|].
  change (lit (String c a +:+ b)) with (Z.of_nat (Ascii.nat_of_ascii c) :: lit (a +:+ b)). by rewrite IH.
Qed.

Definition digit (c : Z) : Prop := 48 <= c <= 57.

Lemma lit_pretty_N_go x s : Forall digit (lit s) -> Forall digit (lit (pretty.pretty_N_go x s)).
Proof.
  revert s. induction (N.lt_wf_0 x) as [x _ IH]. intros s Hs.
  destruct (decide (0 < x)%N) as [Hx|Hx].
  - rewrite pretty.pretty_N_go_step by done. apply IH; [by apply N.div_lt|].
    change (Forall digit (Z.of_nat (Ascii.nat_of_ascii (pretty.pretty_N_char (x mod 10))) :: lit s)).
    constructor; [|done]. assert (x mod 10 < 10)%N as Hm by by apply N.mod_lt. revert Hm.
    generalize (x mod 10)%N. intros d Hd. unfold digit.
    assert (d = 0 \/ d = 1 \/ d = 2 \/ d = 3 \/ d = 4 \/ d = 5 \/ d = 6 \/ d = 7 \/ d = 8 \/ d = 9)%N as Hc by lia.
    destruct Hc as [->|[->|[->|[->|[->|[->|[->|[->|[->| ->]]]]]]]]]; vm_compute; split; congruence.
  - assert (x = 0%N) as -> by lia. by rewrite pretty.pretty_N_go_0.
Qed.

Lemma show_digits n : 0 < n -> Forall digit (show n).
Proof.
  intros Hn. unfold show, pretty, pretty.pretty_Z. destruct n as [|p|p]; [lia| |lia].
  cbn. unfold pretty, pretty.pretty_N. by apply lit_pretty_N_go.
Qed.

(** a password record verifies exactly the password it was made of.  Hashing with an
    allowed iteration count gives a record; verifying any password against it answers
    whether the key derived from that password, with the stored salt and iteration count,
    is the stored key, so the original password is accepted. *)
Theorem password_record password pepper iterations salt material :
  15 <= zlen password -> 100000 <= iterations <= 2147483647 -> Forall is_byte salt ->
  utf8 (password ++ pepper) = Some material -> parse_int (show iterations) = Some iterations ->
  exists record, hash_password password pepper iterations salt = Ok record /\
    verify_password password record pepper = Ok true /\
    forall other pepper' material', utf8 (other ++ pepper') = Some material' ->
      verify_password other record pepper' =
      Ok (bool_decide (pbkdf2_sha256 material' salt iterations = pbkdf2_sha256 material salt iterations)).
Proof.
  intros Hl Hi Hs Hm Hp. eexists. split.
  { unfold hash_password. destruct (Z.ltb_spec (zlen password) 15); [lia|].
    destruct (Z.ltb_spec iterations 100000); [lia|]. unfold encode_utf8. by rewrite Hm. }
  assert (forall other pepper' material', utf8 (other ++ pepper') = Some material' ->
    verify_password other
      (PASSWORD_SCHEME ++ lit "$" ++ show iterations ++ lit "$" ++ b64encode salt ++ lit "$"
       ++ b64encode (pbkdf2_sha256 material salt iterations)) pepper' =
    Ok (bool_decide (pbkdf2_sha256 material' salt iterations = pbkdf2_sha256 material salt iterations))) as Hall.
  { intros other pepper' material' Ho. unfold verify_password.
    assert (forall x, lit "$" ++ x = 36 :: x) as Hdollar by done. rewrite !Hdollar.
    rewrite split_once_app by (apply (bool_decide_unpack _); vm_compute; exact I). rewrite split_once_app.
    2: { intros Hin. pose proof (show_digits iterations) as Hd. rewrite Forall_forall in Hd.
         apply Hd in Hin; [unfold digit in Hin|]; lia. }
    rewrite split_once_app by (eapply b64_no_sep; [by apply b64encode_safe|apply dollar_unsafe]).
    rewrite bool_decide_true by done. rewrite Hp, !b64_roundtrip, Ho by (done || apply pbkdf2_bytes).
    destruct (Z.ltb_spec iterations 1); [lia|]. by destruct (Z.ltb_spec 2147483647 iterations); [lia|]. }
  split; [|exact Hall]. rewrite (Hall _ _ material) by done. by rewrite bool_decide_true.
Qed.
End TicketFacts.

(** ** Instances *)

Section Witness.
#[local] Existing Instance ascii_text.

(** A printer of flat dictionaries as binary digits, hashes that copy their input. *)
Definition flat_value (v : json) : option (text + Z) :=
  match v with JStr t => Some (inl t) | JInt n => Some (inr n) | _ => None end.
Definition unflat (v : text + Z) : json := match v with inl t => JStr t | inr n => JInt n end.

Fixpoint bits_of (p : positive) : text :=
  match p with xH => [49] | xO q => 48 :: bits_of q | xI q => 50 :: bits_of q end.
Fixpoint of_bits (t : text) : option positive :=
  match t with
  | [] => None
  | c :: t' => if c =? 49 then Some xH
               else p ← of_bits t'; if c =? 48 then Some (xO p) else Some (xI p)
  end.

Lemma of_bits_of p : of_bits (bits_of p) = Some p.
Proof. induction p as [p IH|p IH|]; cbn; [by rewrite IH..|done]. Qed.

Lemma bits_ascii p : is_ascii (bits_of p) = true.
Proof. induction p as [p IH|p IH|]; cbn; [exact IH..|done]. Qed.

Definition flat_entry (kv : string * json) : option (string * (text + Z)) :=
  match flat_value kv.2 with Some v => Some (kv.1, v) | None => None end.

Definition flat_dumps (v : json) : text :=
  match v with
  | JObj o =>
      match mapM flat_entry o with
      | Some l => bits_of (encode l)
      | None => []
      end
  | _ => []
  end.

Definition flat_loads (b : bytes) : option json :=
  p ← of_bits b;
  l ← (decode p : option (list (string * (text + Z))));
  Some (JObj ((fun kv => (kv.1, unflat kv.2)) <$> l)).

Definition copy_crypto : Crypto := {|
  hmac_sha256 := fun k m => map (fun c => c mod 256) (k ++ m);
  sha256_hex := fun m => map (fun c => c mod 128) m;
  pbkdf2_sha256 := fun p s n => map (fun c => c mod 256) (p ++ s ++ [n]);
  json_dumps := flat_dumps; json_loads := flat_loads
|}.
#[local] Existing Instance copy_crypto.

Lemma map_mod_bytes l : Forall is_byte (map (fun c => c mod 256) l).
Proof. apply Forall_fmap, Forall_forall. intros c _. apply Z.mod_pos_bound. lia. Qed.

Lemma flat_values o : Forall (fun kv => scalar kv.2) o ->
  exists l, mapM flat_entry o = Some l /\
            (fun kv => (kv.1, unflat kv.2)) <$> l = o.
Proof.
  induction 1 as [|[k v] o Hv Ho (l & Hl & Hu)]; [by exists []|]. cbn. rewrite Hl.
  destruct v; cbn in *; try done; eexists; (split; [reflexivity|]); cbn; by rewrite Hu.
Qed.

#[local] Instance copy_crypto_laws : CryptoLaws.
Proof.
  split.
  - intros. apply map_mod_bytes.
  - intros. apply map_mod_bytes.
  - intros m. apply is_ascii_spec, Forall_fmap, Forall_forall. intros c _. apply Z.mod_pos_bound. lia.
  - intros v. destruct v; try done. cbn. destruct (mapM _ o); [apply bits_ascii|done].
  - intros o _ Ho. exists o. split; [|done]. destruct (flat_values o Ho) as (l & Hl & Hu).
    unfold json_loads, json_dumps. cbn -[encode decode]. rewrite Hl. unfold flat_loads. rewrite of_bits_of.
    cbn -[encode decode]. rewrite decode_encode. cbn. by rewrite Hu.
Defined.

Definition demo_identity : auth_identity :=
  mkAuth (lit "acme") (lit "u1") (lit "user") None (Some (lit "a1")) None.
Definition demo_secret : text := lit "0123456789abcdef0123456789abcdef".
Definition demo_claims : obj := [("payload_sha256", s_ "ab12")].

Lemma demo_identity_wf : wf_identity demo_identity.
Proof.
  split_and!; try apply lit_plain; try (vm_compute; congruence); try exact I.
  - right. left.
  - split; [vm_compute; congruence|apply lit_plain].
Defined.

Lemma ticket_window_witness :
  exists ticket, sign_auth_ticket demo_identity demo_secret (lit "internal") 60 (lit "request")
      (lit "ragapp-gateway") 1000 (lit "t1") demo_claims = Ok ticket /\
    forall now, verify_auth_ticket ticket demo_secret (lit "internal") (Some (lit "request")) now 30 demo_claims =
      if now <? 970 then AuthError "authentication ticket is not active yet"
      else if 1090 <=? now then AuthError "authentication ticket has expired"
      else Ok demo_identity.
Proof.
  apply (ticket_window demo_identity demo_secret (lit "internal") 60 (lit "request") (lit "ragapp-gateway")
           1000 (lit "t1") demo_claims demo_claims).
  - apply demo_identity_wf.
  - eexists. vm_compute. reflexivity.
  - vm_compute. congruence.
  - lia.
  - left.
  - repeat (constructor; [apply lit_plain|]). constructor.
  - split; [apply NoDup_singleton|]. constructor; [apply lit_plain|constructor].
  - constructor; [|constructor]. split; [reflexivity|]. apply (bool_decide_unpack _). vm_compute. exact I.
  - constructor; [|constructor]. exists (lit "ab12"). repeat split.
Defined.

Definition demo_context : obj :=
  [("tenant_id", s_ "acme"); ("user_id", s_ "u1"); ("role", s_ "user"); ("admin_id", s_ "a1")].
Definition demo_envelope : obj := [("action", s_ "search_chunks"); ("payload", JStr [])].

Lemma envelope_bound_witness :
  exists published,
    attach_internal_auth_context demo_context demo_secret true 1000 (lit "t1") 300 demo_envelope = Ok published /\
    (forall k, k <> "auth_context" -> obj_get published k = obj_get demo_envelope k) /\
    forall now auth_required, 970 <= now < 1330 ->
      verify_internal_ticket_from_envelope auth_required demo_secret now published = Ok (Some demo_identity) /\
      forall other, get other "auth_context" = get published "auth_context" ->
        verify_internal_ticket_from_envelope auth_required demo_secret now other =
        if decide (envelope_digest demo_envelope = envelope_digest other) then Ok (Some demo_identity)
        else AuthError "authentication ticket is not bound to this request".
Proof.
  apply (envelope_bound demo_context demo_secret true 1000 (lit "t1") 300 demo_envelope demo_identity).
  - vm_compute. reflexivity.
  - apply demo_identity_wf.
  - eexists. vm_compute. reflexivity.
  - lia.
  - apply lit_plain.
Defined.

Lemma password_record_witness :
  exists record, hash_password (lit "correct horse battery") (lit "p") 600000 [1; 2; 3] = Ok record /\
    verify_password (lit "correct horse battery") record (lit "p") = Ok true /\
    forall other pepper' material', utf8 (other ++ pepper') = Some material' ->
      verify_password other record pepper' =
      Ok (bool_decide (pbkdf2_sha256 material' [1; 2; 3] 600000 =
                       pbkdf2_sha256 (lit "correct horse batteryp") [1; 2; 3] 600000)).
Proof.
  apply (password_record (lit "correct horse battery") (lit "p") 600000 [1; 2; 3] (lit "correct horse batteryp")).
  - vm_compute. congruence.
  - lia.
  - repeat (constructor; [unfold is_byte; lia|]). constructor.
  - reflexivity.
  - vm_compute. reflexivity.
Defined.
End Witness.
