(* ===== verification/SparseRetrieval.v ===== *)
(** * Lexical sparse vectors

    [src/backend/shared/sparse_retrieval.py]: the hashed term frequencies that the index
    and the query side compute from text.  The token pattern, the hash and the
    logarithm and square root of the standard library are the class [Lexical]. *)

From Stdlib Require Import QArith.
From stdpp Require Import base strings sets list sorting.
From S2P Require Import Prelude PyValue Base64 ContextAssembler.

Local Open Scope string_scope.
Local Open Scope list_scope.
Local Open Scope Z_scope.

(** [token_matches] are the matches of [_TOKEN_RE] in order, [blake2b_int] the big-endian
    number of a four byte digest. *)
Class Lexical := {
  token_matches : text -> list text;
  blake2b_int : bytes -> Z;
  log1p : Q -> Q;
  math_sqrt : Q -> Q
}.

Definition MAX_SPARSE_TERMS : Z := 512.
Definition MAX_SPARSE_TEXT_CHARS : Z := 20000.

(** [Counter]: a dictionary of counts in insertion order. *)
Fixpoint count_into {K} `{EqDecision K} (k : K) (n : Z) (c : list (K * Z)) : list (K * Z) :=
  match c with
  | [] => [(k, n)]
  | (k', m) :: c' => if decide (k = k') then (k', m + n) :: c' else (k', m) :: count_into k n c'
  end.

Section Sparse.
Context `{PyText} `{Lexical}.

Definition token_counts (t : text) : list (text * Z) :=
  foldl (fun c token => count_into (casefold token) 1 c) [] (token_matches (py_prefix t MAX_SPARSE_TEXT_CHARS)).

Definition token_index (token : text) : outcome py_exn Z :=
  match utf8 token with
  | Some b => Ok (Z.land (blake2b_int b) 2147483647)
  | None => Raise (PyError (lit "UnicodeEncodeError") (lit "surrogates not allowed"))
  end.

Fixpoint hash_counts (counts : list (text * Z)) (hashed : list (Z * Z)) : outcome py_exn (list (Z * Z)) :=
  match counts with
  | [] => Ok hashed
  | (token, count) :: rest =>
      let* index := token_index token in
      hash_counts rest (count_into index count hashed)
  end.

Definition weigh (e : Z * Z) : Z * Q := (e.1, 1 + log1p (inject_Z e.2))%Q.

(** [(-weight, index)] and [index]. *)
Definition heavier (a b : Z * Q) : bool :=
  (b.2 <?q a.2) || (Qeq_bool a.2 b.2 && (a.1 <=? b.1)).
Definition index_leb (a b : Z * Q) : bool := a.1 <=? b.1.

Definition sumQ (l : list Q) : Q := foldl Qplus 0%Q l.

Definition sparse_lexical_vector (t : text) (max_terms : Z) : outcome py_exn (list Z * list Q) :=
  if max_terms <? 1 then Raise (PyError (lit "ValueError") (lit "max_terms must be positive"))
  else
    match token_counts t with
    | [] => Ok ([], [])
    | counts =>
        let* hashed := hash_counts counts [] in
        let weighted := py_prefix (py_sorted heavier (map weigh hashed)) max_terms in
        let root := math_sqrt (sumQ (map (fun e : Z * Q => e.2 * e.2)%Q weighted)) in
        let norm := if Qeq_bool root 0 then 1%Q else root in
        let weighted := py_sorted index_leb weighted in
        Ok (weighted.*1, map (fun e => e.2 / norm)%Q weighted)
    end.

(** ** Facts *)

Lemma count_into_keys {K} `{EqDecision K} (k : K) n c :
  NoDup c.*1 -> NoDup (count_into k n c).*1.
Proof.
  induction c as [|[k' m] c IH]; cbn; intros Hc; [apply NoDup_singleton|].
  destruct (decide (k = k')) as [->|Hk]; [done|]. cbn. apply NoDup_cons in Hc as [Hk' Hc].
  constructor; [|by apply IH]. clear -Hk Hk'. induction c as [|[k2 m2] c IH]; cbn in *; [set_solver|].
  destruct (decide (k = k2)); cbn; [done|]. rewrite elem_of_cons in *. naive_solver.
Qed.

Lemma count_into_all {K} `{EqDecision K} (P : K -> Prop) (k : K) n c :
  P k -> Forall P c.*1 -> Forall P (count_into k n c).*1.
Proof.
  intros Hk. induction c as [|[k' m] c IH]; cbn; [by repeat constructor|].
  intros [Hk' Hc]%Forall_cons. destruct (decide (k = k')); constructor; auto.
Qed.

Definition index_range (n : Z) : Prop := 0 <= n < 2 ^ 31.

Lemma token_index_range token n : token_index token = Ok n -> index_range n.
Proof.
  unfold token_index. destruct (utf8 token) as [b|]; [|done]. intros [= <-].
  change 2147483647 with (Z.ones 31). rewrite Z.land_ones by lia. by apply Z.mod_pos_bound.
Qed.

Lemma hash_counts_ok counts hashed r :
  hash_counts counts hashed = Ok r -> NoDup hashed.*1 -> Forall index_range hashed.*1 ->
  NoDup r.*1 /\ Forall index_range r.*1.
Proof.
  revert hashed. induction counts as [|[token n] counts IH]; intros hashed; cbn; [by intros [= <-]|].
  destruct (token_index token) as [i|] eqn:E; cbn; [|done]. intros Hr Hn Ha.
  apply (IH _ Hr); [by apply count_into_keys|]. apply count_into_all; [by eapply token_index_range|done].
Qed.

Lemma index_leb_sorted l :
  NoDup l.*1 -> StronglySorted Z.lt (py_sorted index_leb l).*1.
Proof.
  intros Hn. assert (StronglySorted (fun a b => index_leb a b = true) (py_sorted index_leb l)) as Hs.
  { apply py_sorted_sorted; unfold index_leb; [intros a b|intros a b c]; rewrite !Z.leb_le; lia. }
  assert (NoDup (py_sorted index_leb l).*1) as Hn' by by rewrite py_sorted_perm.
  revert Hn'. induction Hs as [|a l' Hs IH Ha]; cbn; [constructor|]. intros [Hna Hn']%NoDup_cons.
  constructor; [by apply IH|]. apply Forall_fmap. rewrite Forall_forall in Ha |- *. intros b Hb.
  specialize (Ha b Hb). unfold index_leb in Ha. apply Z.leb_le in Ha. cbn.
  assert (a.1 <> b.1); [|lia]. intros E. apply Hna. rewrite E. apply list_elem_of_fmap. eauto.
Qed.

(** The vector of a text: at most [max_terms] entries with strictly increasing 31-bit
    indices and one value for each. *)
Lemma sparse_lexical_vector_shape t max_terms ids vs :
  sparse_lexical_vector t max_terms = Ok (ids, vs) ->
  StronglySorted Z.lt ids /\ Forall index_range ids /\ length vs = length ids /\ zlen ids <= max_terms.
Proof.
  unfold sparse_lexical_vector. destruct (Z.ltb_spec max_terms 1) as [|Hm]; [done|].
  destruct (token_counts t) as [|p rest]; [intros [= <- <-]; split_and!; [apply SSorted_nil|by apply Forall_nil|done|unfold zlen; cbn; lia]|].
  destruct (hash_counts (p :: rest) []) as [hashed|] eqn:E; cbn [obind]; [|done].
  destruct (hash_counts_ok _ _ _ E) as [Hn Hr]; [apply NoDup_nil_2|by apply Forall_nil|]. intros [= <- <-].
  assert ((map weigh hashed).*1 = hashed.*1) as Hw.
  { clear. induction hashed as [|e l IH]; cbn; [done|]. by f_equal. }
  set (top := py_prefix (py_sorted heavier (map weigh hashed)) max_terms).
  assert (top `sublist_of` py_sorted heavier (map weigh hashed)) as Hsub.
  { unfold top. rewrite py_prefix_nonneg by lia. apply sublist_take. }
  assert (NoDup top.*1) as Htop.
  { eapply sublist_NoDup; [|by apply fmap_sublist]. by rewrite py_sorted_perm, Hw. }
  split_and!.
  - by apply index_leb_sorted.
  - rewrite py_sorted_perm. rewrite <- Hw in Hr.
    rewrite <- (py_sorted_perm heavier (map weigh hashed)) in Hr.
    unfold top. rewrite py_prefix_nonneg, fmap_take by lia. by apply Forall_take.
  - by rewrite length_map, length_fmap.
  - unfold zlen. rewrite length_fmap, length_py_sorted. unfold top. rewrite py_prefix_nonneg by lia.
    rewrite length_take. lia.
Qed.
End Sparse.
