(* ===== verification/VectorStore.v ===== *)
(** * The vector store interface

    [src/backend/vector_db/app/db/interfaces.py]: the operations a chunk store offers, as a
    class over the state of the store, and what its documentation promises, as the classes
    of laws [ScopedStore] and [SafeStore].  The service is proved against the laws; each
    backend has a file with its operations and the proof that it keeps them. *)

From Stdlib Require Import QArith.
From stdpp Require Import base strings sets list.
From S2P Require Import Prelude PyValue Base64.

Local Open Scope string_scope.
Local Open Scope list_scope.
Local Open Scope Z_scope.

Definition ValueError {A} (message : text) : outcome py_exn A := Raise (PyError (lit "ValueError") message).

(** ** Payloads and filters *)

(** A chunk may be returned to a caller. *)
Definition retrievable (p : obj) : bool :=
  jtrue (get p "retrieval_allowed") && negb (py_eqb (get p "review_status") (s_ "removed")).

(** The fields that decide who owns a chunk. *)
Definition SCOPE_FIELDS : list string := ["tenant_id"; "owner_user_id"; "owner_admin_id"].

(** [p] has the value of every ownership field a filter names. *)
Definition in_scope (filters p : obj) : Prop :=
  forall k t, k ∈ SCOPE_FIELDS -> obj_get filters k = Some (JStr t) -> t <> [] ->
    obj_get p k = Some (JStr t).

(** A filter of the service: its ownership conditions are strings that are not empty. *)
Definition plain_filter (filters : obj) : Prop :=
  NoDup filters.*1 /\ forall k v, obj_get filters k = Some v -> exists t, v = JStr t /\ t <> [].

(** What a deletion request selects. *)
Definition delete_scope (filters p : obj) : Prop :=
  in_scope filters p /\
  forall k t, k ∈ ["file_id"; "document_id"] -> obj_get filters k = Some (JStr t) -> t <> [] ->
    obj_get p k = Some (JStr t).

(** The fields of a chunk that every backend stores unchanged. *)
Definition KEPT_FIELDS : list string :=
  ["tenant_id"; "owner_user_id"; "owner_admin_id"; "file_id"; "document_id"; "chunk_id"; "text";
   "retrieval_allowed"; "review_status"].

Definition stored_as (c p : obj) : Prop :=
  forall k v, k ∈ KEPT_FIELDS -> obj_get c k = Some v -> obj_get p k = Some v.

(** ** Identifiers to verify *)

Definition MAX_VERIFY_IDS : Z := 1000.
Definition VERIFIABLE_ID_FIELDS : list string := ["chunk_id"; "file_id"].

Section Targets.
Context `{PyText}.

(** The values that are not blank; the callers pass strings. *)
Definition nonblank (values : list text) : list text :=
  List.filter (fun v => negb (bool_decide (py_strip v = []))) values.

Definition verify_targets (field : string) (values : list text) : outcome py_exn (list text) :=
  if bool_decide (field ∈ VERIFIABLE_ID_FIELDS) then
    let wanted := remove_dups (nonblank values) in
    if MAX_VERIFY_IDS <? zlen wanted
    then ValueError (lit "lookup_ids was given " ++ show (zlen wanted) ++ lit " ids; the limit is 1000")
    else Ok wanted
  else ValueError (lit "'" ++ lit field ++ lit "' is not a verifiable id field").

Lemma nonblank_spec values x : x ∈ nonblank values <-> x ∈ values /\ py_strip x <> [].
Proof.
  unfold nonblank. rewrite !list_elem_of_In, filter_In, negb_true_iff, bool_decide_eq_false. done.
Qed.

Lemma verify_targets_elem field values wanted x :
  verify_targets field values = Ok wanted -> x ∈ wanted <-> x ∈ nonblank values.
Proof.
  unfold verify_targets. case_bool_decide; [|done]. case_match; [done|]. intros [= <-].
  apply elem_of_remove_dups.
Qed.
End Targets.

(** ** Operations *)

Record lookup := mkLookup { lk_present : list text; lk_retrievable : list text }.

Class IVectorStore (S : Type) := {
  collection_name : S -> text;
  st_initialize : eff S text;
  st_upsert : list obj -> eff S Z;
  st_search : list Q -> Z -> obj -> bool -> bool -> eff S (list obj);
  st_search_sparse : list Z * list Q -> Z -> obj -> bool -> eff S (list obj);
  st_delete : obj -> eff S Z;
  st_lookup : string -> list text -> obj -> eff S lookup;
  st_count : eff S Z
}.

(** ** Laws

    [points] are the stored payloads and [point_key] the identity of a point; a state may
    carry an invariant [store_ok]. *)
Class StoreView (S : Type) := {
  points : S -> list obj;
  point_key : obj -> text;
  store_ok : S -> Prop
}.

(** A search result shows a stored chunk inside the scope of the filter. *)
Definition hit_in (ok : obj -> Prop) (stored : list obj) (filters : obj) (include_payload : bool)
    (r : obj) : Prop :=
  exists p, p ∈ stored /\ ok p /\ in_scope filters p /\
    (include_payload = true -> get r "payload" = JObj p) /\ exists id, get r "id" = JStr id.

(** A read leaves the state alone, whether it returns or raises. *)
Definition reads_ok {S A} `{StoreView S} (c : eff S A) (Q : S -> A -> Prop) : Prop :=
  forall s, store_ok s ->
    match c s with (Ok a, s') => s' = s /\ Q s a | (Raise _, s') => s' = s end.

(** Every point after a write was there before or is the payload of a written chunk, and
    every point that is gone had the key of a written chunk. *)
Definition written {S} `{StoreView S} (chunks : list obj) (s s' : S) : Prop :=
  (forall p, p ∈ points s' -> p ∈ points s \/ exists c, c ∈ chunks /\ stored_as c p) /\
  (forall p, p ∈ points s -> p ∈ points s' \/ exists c, c ∈ chunks /\ point_key p = point_key c).

(** The last chunk with its key is stored. *)
Definition stored_all {S} `{StoreView S} (chunks : list obj) (s' : S) : Prop :=
  forall pre c post, chunks = pre ++ c :: post -> Forall (fun c' => point_key c' <> point_key c) post ->
    exists p, p ∈ points s' /\ stored_as c p /\ point_key p = point_key c.

(** A deletion removes the points some test selects, all inside the scope of the request,
    and for a plain filter every point of the scope. *)
Definition deleted {S} `{StoreView S} (filters : obj) (n : Z) (s s' : S) : Prop :=
  exists m : obj -> bool,
    points s' = List.filter (fun p => negb (m p)) (points s) /\
    n = zlen (List.filter m (points s)) /\
    (forall p, p ∈ points s -> m p = true -> delete_scope filters p) /\
    (plain_filter filters -> (forall k, is_Some (obj_get filters k) -> k ∈ "file_id" :: "document_id" :: SCOPE_FIELDS) ->
     forall p, p ∈ points s -> delete_scope filters p -> m p = true).

(** [str(p[field])] is [x]. *)
Definition has_id `{PyText} (field : string) (x : text) (p : obj) : Prop :=
  exists v, obj_get p field = Some v /\ v <> JNull /\ py_str v = x.

(** A call of a remote store that raises may have been applied. *)
Class ScopedStore (S : Type) `{PyText} `{IVectorStore S} `{StoreView S} := {
  law_initialize s : store_ok s ->
    points (st_initialize s).2 = points s /\ store_ok (st_initialize s).2 /\
    collection_name (st_initialize s).2 = collection_name s /\
    match (st_initialize s).1 with Ok name => name = collection_name s | Raise _ => True end;
  law_count : reads_ok st_count (fun s n => n = zlen (points s));
  law_search v k f ip iv :
    reads_ok (st_search v k f ip iv)
      (fun s rs => Forall (hit_in (fun _ => True) (points s) f ip) rs /\ (0 <= k -> zlen rs <= k));
  law_search_sparse q k f ip :
    reads_ok (st_search_sparse q k f ip)
      (fun s rs => Forall (hit_in (fun _ => True) (points s) f ip) rs /\ (0 <= k -> zlen rs <= k));
  law_lookup field values f :
    plain_filter f -> (forall k, is_Some (obj_get f k) -> k ∈ SCOPE_FIELDS) ->
    reads_ok (st_lookup field values f) (fun s l => forall x,
      (x ∈ lk_present l <->
       x ∈ nonblank values /\ exists p, p ∈ points s /\ has_id field x p /\ in_scope f p) /\
      (x ∈ lk_retrievable l <->
       x ∈ nonblank values /\ exists p, p ∈ points s /\ has_id field x p /\ in_scope f p /\ retrievable p = true));
  law_upsert chunks s : store_ok s ->
    match st_upsert chunks s with
    | (Ok n, s') => n = zlen chunks /\ written chunks s s' /\ stored_all chunks s' /\ store_ok s'
                    /\ collection_name s' = collection_name s
    | (Raise _, s') => written chunks s s' /\ store_ok s' /\ collection_name s' = collection_name s
    end;
  law_delete f s : store_ok s ->
    match st_delete f s with
    | (Ok n, s') => deleted f n s s' /\ store_ok s' /\ collection_name s' = collection_name s
    | (Raise _, s') => (points s' = points s \/ exists n, deleted f n s s') /\ store_ok s' /\
                       collection_name s' = collection_name s
    end
}.

(** The mandatory safety filter of the interface: a search returns only chunks that may be
    retrieved. *)
Class SafeStore (S : Type) `{IVectorStore S} `{StoreView S} := {
  safe_search v k f ip iv :
    reads_ok (st_search v k f ip iv)
      (fun s rs => Forall (hit_in (fun p => retrievable p = true) (points s) f ip) rs);
  safe_search_sparse q k f ip :
    reads_ok (st_search_sparse q k f ip)
      (fun s rs => Forall (hit_in (fun p => retrievable p = true) (points s) f ip) rs)
}.

(** Keys of points separate tenants whose names have no colon. *)
Class TenantKeys (St : Type) `{StoreView St} :=
  key_tenant p c t t' :
    obj_get p "tenant_id" = Some (JStr t) -> obj_get c "tenant_id" = Some (JStr t') ->
    58 ∉ t -> 58 ∉ t' -> point_key (S := St) p = point_key c -> t = t'.
