(* ===== verification/ChunkStore.v ===== *)
(** * The in-memory chunk store

    [src/backend/vector_db/app/db/implementations/in_memory.py]: a dictionary from
    [tenant:chunk_id] to an embedding, a sparse vector and a payload.  What numpy computes
    is the class [Numpy]. *)

From Stdlib Require Import QArith Lqa.
From stdpp Require Import base strings sets sorting list.
From S2P Require Import Prelude PyValue Base64 ContextAssembler SparseRetrieval VectorStore.

Local Open Scope string_scope.
Local Open Scope list_scope.
Local Open Scope Z_scope.

(** [np.asarray(_, dtype=np.float32)] of a JSON value, [None] when it raises; the norm of a
    vector and the dot product of two, [None] when their lengths differ. *)
Class Numpy := {
  np_asarray : json -> option (list Q);
  np_norm : list Q -> Q;
  np_dot : list Q -> list Q -> option Q
}.

Record entry := mkEntry {
  e_embedding : list Q; e_sparse : list Z * list Q; e_payload : obj
}.

Record mem_store := mkMem { mem_name : text; mem_entries : list (text * entry) }.

(** [self._store[key] = e]. *)
Fixpoint entry_set (l : list (text * entry)) (key : text) (e : entry) : list (text * entry) :=
  match l with
  | [] => [(key, e)]
  | (k, e') :: l' => if decide (k = key) then (k, e) :: l' else (k, e') :: entry_set l' key e
  end.

Section InMemory.
Context `{PyText} `{Lexical} `{Numpy}.

(** ** Writing *)

Definition mem_key (tenant_id chunk_id : json) : text := py_str tenant_id ++ lit ":" ++ py_str chunk_id.

Definition mem_entry (chunk : obj) : outcome py_exn (text * entry) :=
  let chunk_id := get chunk "chunk_id" in
  if negb (jtrue chunk_id) then ValueError (lit "chunk_id is required")
  else if is_none (get chunk "embedding") then ValueError (lit "embedding is required")
  else
    let tenant_id := get chunk "tenant_id" in
    if negb (jtrue tenant_id) || negb (jtrue (get chunk "owner_user_id"))
       || negb (jtrue (get chunk "owner_admin_id"))
    then ValueError (lit "tenant and owner fields are required")
    else
      match np_asarray (get chunk "embedding") with
      | None => ValueError (lit "could not convert to float")
      | Some embedding =>
          let* sparse := sparse_lexical_vector (py_str (get_or chunk "text" (JStr []))) MAX_SPARSE_TERMS in
          Ok (mem_key tenant_id chunk_id, mkEntry embedding sparse (obj_pop chunk "embedding"))
      end.

(** Chunks before a chunk that raises stay stored. *)
Fixpoint mem_upsert_loop (chunks : list obj) (l : list (text * entry))
    : outcome py_exn unit * list (text * entry) :=
  match chunks with
  | [] => (Ok tt, l)
  | chunk :: rest =>
      match mem_entry chunk with
      | Ok (key, e) => mem_upsert_loop rest (entry_set l key e)
      | Raise x => (Raise x, l)
      end
  end.

Definition mem_upsert_chunks (chunks : list obj) : eff mem_store Z := fun s =>
  let '(o, l) := mem_upsert_loop chunks (mem_entries s) in
  (match o with Ok _ => Ok (zlen chunks) | Raise x => Raise x end, mkMem (mem_name s) l).

(** ** Filters *)

Definition filter_matches (payload : obj) (kv : string * json) : bool :=
  match obj_get payload kv.1 with
  | None => false
  | Some v =>
      match kv.2 with
      | JArr l => existsb (py_eqb v) l
      | w => py_eqb v w
      end
  end.

Definition matches_filters (payload filters : obj) : bool := forallb (filter_matches payload) filters.

Definition matches_delete_filters (payload : obj) (file_id document_id : json) : bool :=
  negb (jtrue file_id && negb (py_eqb (get payload "file_id") file_id)) &&
  negb (jtrue document_id && negb (py_eqb (get payload "document_id") document_id)).

(** The safety filter, then the filters of the caller. *)
Definition mem_visible (filters payload : obj) : bool :=
  jtrue (get_or payload "retrieval_allowed" (JBool false)) &&
  negb (py_eqb (get payload "review_status") (s_ "removed")) &&
  (match filters with [] => true | _ => matches_filters payload filters end).

(** ** Dense search *)

Definition cosine_similarity (a b : list Q) : outcome py_exn Q :=
  let na := np_norm a in
  let nb := np_norm b in
  if Qeq_bool na 0 || Qeq_bool nb 0 then Ok 0%Q
  else match np_dot a b with
       | Some d => Ok (d / (na * nb))%Q
       | None => ValueError (lit "shapes not aligned")
       end.

Definition search_item (id : text) (score : Q) (e : entry) (include_payload include_vector : bool) : obj :=
  [("id", JStr id); ("score", JFloat score)]
  ++ (if include_payload then [("payload", JObj (e_payload e))] else [])
  ++ (if include_vector then [("vector", JArr (map JFloat (e_embedding e)))] else []).

Fixpoint dense_loop (query : list Q) (filters : obj) (include_payload include_vector : bool)
    (l : list (text * entry)) : outcome py_exn (list (Q * obj)) :=
  match l with
  | [] => Ok []
  | (id, e) :: rest =>
      if mem_visible filters (e_payload e) then
        let* score := cosine_similarity query (e_embedding e) in
        let* items := dense_loop query filters include_payload include_vector rest in
        Ok ((score, search_item id score e include_payload include_vector) :: items)
      else dense_loop query filters include_payload include_vector rest
  end.

(** [sort(key=score, reverse=True)] keeps the order of equal scores. *)
Definition score_desc (a b : Q * obj) : bool := b.1 <=?q a.1.

Definition mem_search_chunks (query : list Q) (top_k : Z) (filters : obj)
    (include_payload include_vector : bool) : eff mem_store (list obj) := fun s =>
  (let* results := dense_loop query filters include_payload include_vector (mem_entries s) in
   Ok (py_prefix (py_sorted score_desc results).*2 top_k), s).

(** ** Sparse search *)

(** [dict(zip(indices, values))]: the last value of an index counts. *)
Definition sparse_dict (v : list Z * list Q) : list (Z * Q) :=
  foldl (fun d p => (fix set (d : list (Z * Q)) : list (Z * Q) :=
           match d with
           | [] => [p]
           | (i, x) :: d' => if decide (i = p.1) then p :: d' else (i, x) :: set d'
           end) d) [] (zip v.1 v.2).

Fixpoint sparse_get (d : list (Z * Q)) (i : Z) : Q :=
  match d with [] => 0%Q | (j, x) :: d' => if decide (i = j) then x else sparse_get d' i end.

Definition sparse_score (query document : list (Z * Q)) : Q :=
  sumQ (map (fun p => p.2 * sparse_get document p.1)%Q query).

Definition sparse_item (id : text) (score : Q) (e : entry) (include_payload : bool) : obj :=
  [("id", JStr id); ("score", JFloat score)]
  ++ (if include_payload then [("payload", JObj (e_payload e))] else []).

Definition sparse_loop (query : list (Z * Q)) (filters : obj) (include_payload : bool)
    (l : list (text * entry)) : list ((Q * text) * obj) :=
  omap (fun ke : text * entry =>
    let score := sparse_score query (sparse_dict (e_sparse ke.2)) in
    if mem_visible filters (e_payload ke.2) && negb (score <=?q 0)
    then Some ((score, ke.1), sparse_item ke.1 score ke.2 include_payload) else None) l.

(** [(-score, str(id))]. *)
Definition sparse_leb (a b : (Q * text) * obj) : bool :=
  (b.1.1 <?q a.1.1) || (Qeq_bool a.1.1 b.1.1 && text_leb a.1.2 b.1.2).

Definition mem_search_sparse (query_sparse : list Z * list Q) (top_k : Z) (filters : obj)
    (include_payload : bool) : eff mem_store (list obj) := fun s =>
  (Ok (match sparse_dict query_sparse with
       | [] => []
       | query => py_prefix (py_sorted sparse_leb (sparse_loop query filters include_payload (mem_entries s))).*2 top_k
       end), s).

(** ** Deletion and lookup *)

Definition mem_selected (filters payload : obj) : bool :=
  matches_delete_filters payload (get filters "file_id") (get filters "document_id") &&
  matches_filters payload (obj_pop (obj_pop filters "file_id") "document_id").

Definition mem_delete_chunks (filters : obj) : eff mem_store Z := fun s =>
  if negb (jtrue (get filters "file_id")) && negb (jtrue (get filters "document_id"))
  then (ValueError (lit "delete_chunks requires file_id, document_id, or both"), s)
  else
    let selected := List.filter (fun ke => mem_selected filters (e_payload ke.2)) (mem_entries s) in
    (Ok (zlen selected),
     mkMem (mem_name s) (List.filter (fun ke => negb (bool_decide (ke.1 ∈ selected.*1))) (mem_entries s))).

Definition mem_found (field : string) (wanted : list text) (scope payload : obj) : option (text * bool) :=
  match obj_get payload field with
  | None | Some JNull => None
  | Some v =>
      if bool_decide (py_str v ∈ wanted) &&
         (match scope with [] => true | _ => matches_filters payload scope end)
      then Some (py_str v, jtrue (get payload "retrieval_allowed")
                           && negb (py_eqb (get payload "review_status") (s_ "removed")))
      else None
  end.

Definition sorted_set (l : list text) : list text := py_sorted text_leb (remove_dups l).

Definition mem_lookup_ids (field : string) (values : list text) (filters : obj) : eff mem_store lookup := fun s =>
  (let* wanted := verify_targets field values in
   match wanted with
   | [] => Ok (mkLookup [] [])
   | _ =>
       let scope := List.filter (fun kv => negb (is_none kv.2)) filters in
       let found := omap (fun ke : text * entry => mem_found field wanted scope (e_payload ke.2)) (mem_entries s) in
       Ok (mkLookup (sorted_set found.*1) (sorted_set (List.filter snd found).*1))
   end, s).

Definition mem_count : eff mem_store Z := fun s => (Ok (zlen (mem_entries s)), s).

#[export] Instance mem_ops : IVectorStore mem_store := {|
  collection_name := mem_name;
  st_initialize := gets mem_name;
  st_upsert := mem_upsert_chunks;
  st_search := mem_search_chunks;
  st_search_sparse := mem_search_sparse;
  st_delete := mem_delete_chunks;
  st_lookup := mem_lookup_ids;
  st_count := mem_count
|}.

(** ** The store keeps the laws of the interface *)

Definition mem_points (s : mem_store) : list obj := map (fun ke => e_payload ke.2) (mem_entries s).
Definition mem_point_key (p : obj) : text := mem_key (get p "tenant_id") (get p "chunk_id").

(** Keys are distinct and each is the key of its payload. *)
Definition entries_ok (l : list (text * entry)) : Prop :=
  NoDup l.*1 /\ Forall (fun ke => ke.1 = mem_point_key (e_payload ke.2)) l.

#[export] Instance mem_view : StoreView mem_store := {|
  points := mem_points; point_key := mem_point_key; store_ok := fun s => entries_ok (mem_entries s)
|}.

Lemma entry_set_elem l key e x : x ∈ entry_set l key e -> x = (key, e) \/ x ∈ l.
Proof.
  induction l as [|[k e'] l IH]; cbn; [set_solver|].
  destruct (decide (k = key)) as [->|]; rewrite !elem_of_cons; naive_solver.
Qed.

Lemma entry_set_new l key e : (key, e) ∈ entry_set l key e.
Proof.
  induction l as [|[k e'] l IH]; cbn; [set_solver|].
  destruct (decide (k = key)) as [->|]; [by left|by right].
Qed.

Lemma entry_set_old l key e k e' : k <> key -> (k, e') ∈ l -> (k, e') ∈ entry_set l key e.
Proof.
  intros Hk. induction l as [|[k2 e2] l IH]; cbn; [set_solver|]. rewrite elem_of_cons.
  destruct (decide (k2 = key)) as [->|]; rewrite elem_of_cons; naive_solver.
Qed.

Lemma entry_set_ok l key e :
  entries_ok l -> key = mem_point_key (e_payload e) -> entries_ok (entry_set l key e).
Proof.
  intros [Hn Hk] He. split.
  - clear Hk. induction l as [|[k e'] l IH]; cbn in *; [apply NoDup_singleton|].
    destruct (decide (k = key)) as [->|Hne]; [done|]. cbn. apply NoDup_cons in Hn as [Hk Hn].
    constructor; [|auto]. intros ([k2 e2] & -> & Hin)%list_elem_of_fmap.
    apply entry_set_elem in Hin as [[= -> ->]|Hin]; [done|]. apply Hk, list_elem_of_fmap. by exists (k2, e2).
  - rewrite Forall_forall in Hk |- *. intros x [->|Hx]%entry_set_elem; auto.
Qed.

(** What one chunk becomes. *)
Lemma mem_entry_spec c key e :
  mem_entry c = Ok (key, e) ->
  e_payload e = obj_pop c "embedding" /\ key = mem_point_key c /\ key = mem_point_key (e_payload e).
Proof.
  unfold mem_entry. repeat case_match; try done.
  destruct (sparse_lexical_vector _ _) as [v|]; cbn [obind]; [|done]. intros [= <- <-]. cbn [e_payload].
  split; [done|]. split; [done|]. unfold mem_point_key, get, get_or. by rewrite !obj_get_pop.
Qed.

Lemma stored_as_pop c : stored_as c (obj_pop c "embedding").
Proof.
  intros k v Hk Hv. rewrite obj_get_pop. rewrite decide_False; [done|].
  unfold KEPT_FIELDS in Hk. set_solver.
Qed.

Lemma mem_upsert_loop_ok chunks l : entries_ok l -> entries_ok (mem_upsert_loop chunks l).2.
Proof.
  revert l. induction chunks as [|c chunks IH]; intros l Hl; cbn; [done|].
  destruct (mem_entry c) as [[key e]|] eqn:E; [|done]. apply mem_entry_spec in E as (_ & _ & E).
  by apply IH, entry_set_ok.
Qed.

(** Entries after the loop are old or written; an old entry survives unless its key is
    written. *)
Lemma mem_upsert_loop_new chunks l ke :
  ke ∈ (mem_upsert_loop chunks l).2 -> ke ∈ l \/ exists c, c ∈ chunks /\ stored_as c (e_payload ke.2).
Proof.
  revert l. induction chunks as [|c chunks IH]; intros l; cbn; [by left|].
  destruct (mem_entry c) as [[key e]|] eqn:E; [|by left]. apply mem_entry_spec in E as (Ep & _ & _).
  intros [Hl|(c' & Hc & Hs)]%IH; [|right; exists c'; set_solver].
  apply entry_set_elem in Hl as [->|Hl]; [|by left]. right. exists c. split; [by left|].
  cbn. rewrite Ep. apply stored_as_pop.
Qed.

Lemma mem_upsert_loop_old chunks l k e :
  (k, e) ∈ l -> (k, e) ∈ (mem_upsert_loop chunks l).2 \/ exists c, c ∈ chunks /\ k = mem_point_key c.
Proof.
  revert l. induction chunks as [|c chunks IH]; intros l Hl; cbn; [by left|].
  destruct (mem_entry c) as [[key e']|] eqn:E; [|by left]. apply mem_entry_spec in E as (_ & Ek & _).
  destruct (decide (k = key)) as [->|Hk]; [right; exists c; split; [by left|done]|].
  destruct (IH (entry_set l key e')) as [?|(c' & ? & ?)]; [by apply entry_set_old|by left|].
  right. exists c'. set_solver.
Qed.

Lemma mem_upsert_loop_last chunks l pre c post :
  (mem_upsert_loop chunks l).1 = Ok tt -> chunks = pre ++ c :: post ->
  Forall (fun c' => mem_point_key c' <> mem_point_key c) post ->
  exists ke, ke ∈ (mem_upsert_loop chunks l).2 /\ stored_as c (e_payload ke.2) /\
             mem_point_key (e_payload ke.2) = mem_point_key c.
Proof.
  intros Hok -> Hp. revert l Hok. induction pre as [|c0 pre IH]; intros l; cbn.
  - destruct (mem_entry c) as [[key e]|] eqn:E; cbn; [|done]. apply mem_entry_spec in E as (Ep & Ek & Ek').
    intros _. exists (key, e). cbn. rewrite <- Ek', <- Ek, Ep. split_and!; [|apply stored_as_pop|done].
    destruct (mem_upsert_loop_old post (entry_set l key e) key e) as [?|(c' & Hc & Hk)];
      [apply entry_set_new|done|]. rewrite Forall_forall in Hp. destruct (Hp c' Hc). congruence.
  - destruct (mem_entry c0) as [[key e]|]; cbn; [|done]. apply IH.
Qed.

Lemma mem_points_elem s p : p ∈ mem_points s <-> exists ke, ke ∈ mem_entries s /\ p = e_payload ke.2.
Proof. unfold mem_points. rewrite list_elem_of_fmap. naive_solver. Qed.

Lemma mem_written chunks s :
  entries_ok (mem_entries s) ->
  written chunks s (mkMem (mem_name s) (mem_upsert_loop chunks (mem_entries s)).2).
Proof.
  intros [_ Hk]. split; cbn [points mem_view point_key]; intros p Hp; apply mem_points_elem in Hp as (ke & Hin & ->).
  - cbn [mem_entries] in Hin. apply mem_upsert_loop_new in Hin as [Hin|?]; [left|by right].
    apply mem_points_elem. eauto.
  - destruct ke as [k e]. rewrite Forall_forall in Hk. pose proof (Hk _ Hin) as Hke. cbn in Hke.
    destruct (mem_upsert_loop_old chunks _ k e Hin) as [Hin'|(c & Hc & ->)]; [left|right; by exists c].
    apply mem_points_elem. exists (k, e). done.
Qed.

(** Filters: a match holds the ownership conditions, and for a plain filter nothing more
    is asked. *)
Lemma filter_matches_str p k t : filter_matches p (k, JStr t) = true <-> obj_get p k = Some (JStr t).
Proof.
  unfold filter_matches. cbn. destruct (obj_get p k) as [v|]; [|done]. rewrite py_eqb_str. naive_solver.
Qed.

Lemma matches_filters_get p f k v :
  matches_filters p f = true -> obj_get f k = Some v -> filter_matches p (k, v) = true.
Proof.
  unfold matches_filters. rewrite forallb_forall. intros Hf Hk. apply Hf. clear Hf. revert Hk.
  induction f as [|[k' v'] f IH]; cbn; [done|]. destruct (decide (k = k')) as [->|].
  - intros [= ->]. by left.
  - intros ?. right. auto.
Qed.

Lemma matches_filters_scope p f : matches_filters p f = true -> in_scope f p.
Proof.
  intros Hm k t _ Hk _. apply filter_matches_str. by eapply matches_filters_get.
Qed.

Lemma matches_filters_plain p f :
  plain_filter f -> (forall k t, obj_get f k = Some (JStr t) -> t <> [] -> obj_get p k = Some (JStr t)) ->
  matches_filters p f = true.
Proof.
  intros [Hn Hv] Hs. apply forallb_forall. intros [k v] Hin. apply list_elem_of_In in Hin.
  apply (obj_get_elem f k v Hn) in Hin. destruct (Hv _ _ Hin) as (t & -> & Ht).
  apply filter_matches_str. auto.
Qed.

Lemma mem_visible_spec f p : mem_visible f p = true -> retrievable p = true /\ in_scope f p.
Proof.
  unfold mem_visible, retrievable. rewrite !andb_true_iff. intros [[Ha Hr] Hm]. split.
  - split; [|done]. revert Ha. unfold get, get_or. by destruct (obj_get p "retrieval_allowed").
  - destruct f as [|kv f]; [by intros k t _ [=]|]. by apply matches_filters_scope.
Qed.

(** Search *)
Definition shows (include_payload : bool) (p r : obj) : Prop :=
  (include_payload = true -> get r "payload" = JObj p) /\ exists id, get r "id" = JStr id.

Lemma search_item_shows id score e ip iv : shows ip (e_payload e) (search_item id score e ip iv).
Proof. split; [intros ->; reflexivity|]. exists id. by destruct ip, iv. Qed.

Lemma sparse_item_shows id score e ip : shows ip (e_payload e) (sparse_item id score e ip).
Proof. split; [intros ->; reflexivity|]. exists id. by destruct ip. Qed.

Definition mem_hit (l : list (text * entry)) (f : obj) (ip : bool) (r : obj) : Prop :=
  exists ke, ke ∈ l /\ mem_visible f (e_payload ke.2) = true /\ shows ip (e_payload ke.2) r.

Lemma dense_loop_hits q f ip iv l items :
  dense_loop q f ip iv l = Ok items -> Forall (mem_hit l f ip) items.*2.
Proof.
  revert items. induction l as [|[id e] l IH]; intros items; cbn; [by intros [= <-]|].
  assert (forall its, Forall (mem_hit l f ip) its -> Forall (mem_hit ((id, e) :: l) f ip) its) as Hmono.
  { intros its Hits. eapply Forall_impl; [exact Hits|]. intros r (ke & ? & ?). exists ke. split; [by right|done]. }
  destruct (mem_visible f (e_payload e)) eqn:Hv; [|intros ?%IH; auto].
  destruct (cosine_similarity q (e_embedding e)) as [score|]; cbn; [|done].
  destruct (dense_loop q f ip iv l) as [its|]; cbn; [|done]. intros [= <-]. cbn.
  constructor; [|by apply Hmono, IH]. exists (id, e). split; [by left|]. split; [done|apply search_item_shows].
Qed.

Lemma sparse_loop_hits q f ip l : Forall (mem_hit l f ip) (sparse_loop q f ip l).*2.
Proof.
  apply Forall_forall. intros r ([[sc id] r'] & -> & Hin)%list_elem_of_fmap.
  apply list_elem_of_omap in Hin as ([id' e] & Hin & Hm). cbn in Hm.
  destruct (mem_visible f (e_payload e)) eqn:Hv; cbn in Hm; [|done]. destruct (negb _); [|done].
  injection Hm as <- <- <-. exists (id', e). split; [done|]. split; [done|apply sparse_item_shows].
Qed.

Lemma mem_hit_in s f ip r :
  mem_hit (mem_entries s) f ip r -> hit_in (fun p => retrievable p = true) (mem_points s) f ip r.
Proof.
  intros (ke & Hin & Hv & Hs). exists (e_payload ke.2). apply mem_visible_spec in Hv as [Hr Hf].
  split; [apply mem_points_elem; eauto|]. done.
Qed.

(** The head of a sorted list of hits. *)
Lemma top_hits {K} (leb : K * obj -> K * obj -> bool) (P : obj -> Prop) items k :
  Forall P items.*2 ->
  Forall P (py_prefix (py_sorted leb items).*2 k) /\ (0 <= k -> zlen (py_prefix (py_sorted leb items).*2 k) <= k).
Proof.
  intros Hi. split.
  - unfold py_prefix, py_slice. apply Forall_take, Forall_drop. by rewrite py_sorted_perm.
  - intros Hk. rewrite py_prefix_nonneg by done. unfold zlen. rewrite length_take. lia.
Qed.

Lemma mem_search_spec v k f ip iv s :
  match mem_search_chunks v k f ip iv s with
  | (Ok rs, s') => s' = s /\ Forall (mem_hit (mem_entries s) f ip) rs /\ (0 <= k -> zlen rs <= k)
  | (Raise _, s') => s' = s
  end.
Proof.
  unfold mem_search_chunks. destruct (dense_loop v f ip iv (mem_entries s)) as [items|] eqn:E; cbn [obind]; [|done].
  split; [done|]. apply top_hits. by eapply dense_loop_hits.
Qed.

Lemma mem_search_sparse_spec q k f ip s :
  match mem_search_sparse q k f ip s with
  | (Ok rs, s') => s' = s /\ Forall (mem_hit (mem_entries s) f ip) rs /\ (0 <= k -> zlen rs <= k)
  | (Raise _, s') => s' = s
  end.
Proof.
  unfold mem_search_sparse. split; [done|]. destruct (sparse_dict q) as [|p d].
  - split; [by apply Forall_nil|]. intros ?. unfold zlen. cbn. lia.
  - apply top_hits, sparse_loop_hits.
Qed.

(** Deletion *)
Lemma filter_map_comm {A B} (f : A -> B) (g : B -> bool) l :
  List.filter g (map f l) = map f (List.filter (fun x => g (f x)) l).
Proof. induction l as [|x l IH]; cbn; [done|]. destruct (g (f x)); cbn; by rewrite IH. Qed.

Lemma delete_by_key (sel : text * entry -> bool) l :
  NoDup l.*1 ->
  List.filter (fun ke => negb (bool_decide (ke.1 ∈ (List.filter sel l).*1))) l =
  List.filter (fun ke => negb (sel ke)) l.
Proof.
  intros Hn. apply filter_ext_in. intros [k e] Hin. cbn. f_equal.
  destruct (sel (k, e)) eqn:Hs.
  - apply bool_decide_true. apply list_elem_of_fmap. exists (k, e). split; [done|].
    apply list_elem_of_In, filter_In. done.
  - apply bool_decide_false. intros ([k' e'] & Hk & Hf)%list_elem_of_fmap. cbn in Hk. subst k'.
    apply list_elem_of_In, filter_In in Hf as [Hf Hs'].
    assert (e' = e) as ->; [|congruence]. apply list_elem_of_In in Hin, Hf. clear -Hn Hin Hf.
    induction l as [|[k2 e2] l IH]; [set_solver|]. cbn in Hn. apply NoDup_cons in Hn as [Hk Hn].
    apply elem_of_cons in Hin, Hf.
    destruct Hin as [E1|Hin], Hf as [E2|Hf]; simplify_eq; auto;
      destruct Hk; apply list_elem_of_fmap; by eexists (_, _).
Qed.

Lemma get_str_obj p k t : get p k = JStr t -> obj_get p k = Some (JStr t).
Proof. unfold get, get_or. by destruct (obj_get p k) as [v|]; [intros ->|]. Qed.

Lemma matches_delete_field x t :
  t <> [] -> jtrue (JStr t) && negb (py_eqb x (JStr t)) = false <-> x = JStr t.
Proof.
  intros Ht. cbn. rewrite bool_decide_false by done. cbn. rewrite negb_false_iff. apply py_eqb_str.
Qed.

Lemma pop_two_get f k :
  k ∉ ["file_id"; "document_id"] -> obj_get (obj_pop (obj_pop f "file_id") "document_id") k = obj_get f k.
Proof. intros Hk. rewrite !obj_get_pop, !decide_False by set_solver. done. Qed.

Lemma mem_selected_scope f p : mem_selected f p = true -> delete_scope f p.
Proof.
  unfold mem_selected, matches_delete_filters. rewrite !andb_true_iff, !negb_true_iff. intros [[Hf Hd] Hm].
  split.
  - intros k t Hk Hg Ht. eapply matches_filters_scope; [exact Hm|done| |done].
    rewrite pop_two_get; [done|]. unfold SCOPE_FIELDS in Hk. set_solver.
  - intros k t Hk Hg Ht. rewrite !elem_of_cons, elem_of_nil in Hk.
    assert (get f k = JStr t) as Hgk by (unfold get, get_or; by rewrite Hg).
    destruct Hk as [->|[->|[]]]; rewrite Hgk in *; by apply get_str_obj, matches_delete_field.
Qed.

Lemma mem_selected_plain f p :
  plain_filter f -> (forall k, is_Some (obj_get f k) -> k ∈ "file_id" :: "document_id" :: SCOPE_FIELDS) ->
  delete_scope f p -> mem_selected f p = true.
Proof.
  intros [Hn Hv] Hkeys [Hs Hd]. unfold mem_selected, matches_delete_filters.
  assert (forall k, k ∈ ["file_id"; "document_id"] ->
            jtrue (get f k) && negb (py_eqb (get p k) (get f k)) = false) as Hfield.
  { intros k Hk. unfold get at 1 3. unfold get_or. destruct (obj_get f k) as [v|] eqn:E; [|done].
    destruct (Hv _ _ E) as (t & -> & Ht). apply matches_delete_field; [done|].
    unfold get, get_or. by rewrite (Hd k t). }
  rewrite !Hfield by set_solver. cbn [negb andb]. apply matches_filters_plain.
  - split; [by apply obj_pop_keys, obj_pop_keys|]. intros k v. rewrite !obj_get_pop.
    destruct (decide _); [done|]. destruct (decide _); [done|]. apply Hv.
  - intros k t. rewrite !obj_get_pop. destruct (decide (k = "document_id")) as [|Hk1]; [done|].
    destruct (decide (k = "file_id")) as [|Hk2]; [done|]. intros Hk Ht. apply Hs; [|done..].
    assert (k ∈ "file_id" :: "document_id" :: SCOPE_FIELDS) as Hin by (apply Hkeys; by eexists). set_solver.
Qed.

(** Lookup *)
Lemma sorted_set_elem l x : x ∈ sorted_set l <-> x ∈ l.
Proof. unfold sorted_set. rewrite py_sorted_perm. apply elem_of_remove_dups. Qed.

Lemma plain_scope_filter f : plain_filter f -> List.filter (fun kv => negb (is_none kv.2)) f = f.
Proof.
  intros [Hn Hv]. rewrite (filter_ext_in _ (fun _ => true)); [apply filter_true|].
  intros [k v] Hin. apply list_elem_of_In in Hin. apply (obj_get_elem f k v Hn) in Hin.
  destruct (Hv _ _ Hin) as (t & -> & _). done.
Qed.

Lemma scope_matches f p :
  plain_filter f -> (forall k, is_Some (obj_get f k) -> k ∈ SCOPE_FIELDS) ->
  (match f with [] => true | _ => matches_filters p f end = true <-> in_scope f p).
Proof.
  intros Hf Hk. assert (match f with [] => true | _ => matches_filters p f end = matches_filters p f) as ->
    by by destruct f. split; [apply matches_filters_scope|]. intros Hs. apply matches_filters_plain; [done|].
  intros k t Hg Ht. apply Hs; [|done..]. apply Hk. by eexists.
Qed.

Lemma mem_found_spec field wanted f p x b :
  plain_filter f -> (forall k, is_Some (obj_get f k) -> k ∈ SCOPE_FIELDS) ->
  mem_found field wanted f p = Some (x, b) <->
  x ∈ wanted /\ has_id field x p /\ in_scope f p /\ b = retrievable p.
Proof.
  intros Hf Hk. rewrite <- (scope_matches f p Hf Hk). unfold mem_found, has_id, retrievable.
  destruct (obj_get p field) as [v|]; [|naive_solver].
  assert (match v with JNull => None | _ => if bool_decide (py_str v ∈ wanted) &&
            match f with [] => true | _ => matches_filters p f end
          then Some (py_str v, jtrue (get p "retrieval_allowed") && negb (py_eqb (get p "review_status") (s_ "removed")))
          else None end = Some (x, b) <->
          v <> JNull /\ py_str v ∈ wanted /\ match f with [] => true | _ => matches_filters p f end = true /\
          x = py_str v /\ b = jtrue (get p "retrieval_allowed") && negb (py_eqb (get p "review_status") (s_ "removed"))) as ->.
  { destruct v; try (split; [done|naive_solver]);
    (case_bool_decide; [|naive_solver]); cbn [andb];
    (destruct (match f with [] => true | _ => matches_filters p f end); [|naive_solver]);
    (split; [intros [= <- <-]; split_and!; done|intros (_ & _ & _ & -> & ->); done]). }
  split.
  - intros (Hv & Hw & Hm & -> & ->). eauto 10.
  - intros (Hw & (w & [= <-] & Hv & <-) & Hm & ->). done.
Qed.

Lemma mem_lookup_spec field values f s l s' :
  plain_filter f -> (forall k, is_Some (obj_get f k) -> k ∈ SCOPE_FIELDS) ->
  mem_lookup_ids field values f s = (Ok l, s') -> forall x,
  (x ∈ lk_present l <->
   x ∈ nonblank values /\ exists p, p ∈ mem_points s /\ has_id field x p /\ in_scope f p) /\
  (x ∈ lk_retrievable l <->
   x ∈ nonblank values /\ exists p, p ∈ mem_points s /\ has_id field x p /\ in_scope f p /\ retrievable p = true).
Proof.
  intros Hf Hk. unfold mem_lookup_ids. rewrite plain_scope_filter by done.
  destruct (verify_targets field values) as [wanted|] eqn:E; cbn [obind]; [|done].
  intros Hl x. rewrite <- (verify_targets_elem _ _ _ x E).
  set (found := omap _ (mem_entries s)) in Hl.
  assert (forall y b, (y, b) ∈ found <-> exists p, p ∈ mem_points s /\ y ∈ wanted /\ has_id field y p /\
            in_scope f p /\ b = retrievable p) as Hfound.
  { intros y b. unfold found. rewrite list_elem_of_omap. split.
    - intros (ke & Hin & Hm). apply mem_found_spec in Hm; [|done..].
      exists (e_payload ke.2). rewrite mem_points_elem. naive_solver.
    - intros (p & (ke & Hin & ->)%mem_points_elem & Hm). exists ke. split; [done|]. by apply mem_found_spec. }
  assert (l = mkLookup (sorted_set found.*1) (sorted_set (List.filter snd found).*1) \/
          wanted = [] /\ l = mkLookup [] []) as [->|[-> ->]] by (destruct wanted; naive_solver);
    cbn [lk_present lk_retrievable]; [|set_solver].
  rewrite !sorted_set_elem, !list_elem_of_fmap. split; split.
  - intros ([y b] & -> & (p & ? & ?)%Hfound). naive_solver.
  - intros (Hx & p & Hp & Hid & Hs). exists (x, retrievable p). split; [done|]. apply Hfound. eauto 10.
  - intros ([y b] & -> & Hin). apply list_elem_of_In, filter_In in Hin as [Hin Hb].
    apply list_elem_of_In, Hfound in Hin as (p & Hp & Hw & Hid & Hs & ->). cbn in *. eauto 10.
  - intros (Hx & p & Hp & Hid & Hs & Hr). exists (x, true). split; [done|].
    apply list_elem_of_In, filter_In. split; [|done]. apply list_elem_of_In, Hfound. eauto 10.
Qed.

#[export] Instance mem_scoped : ScopedStore mem_store.
Proof.
  split.
  - by intros s ?.
  - intros s _. cbn. split; [done|]. unfold mem_points, zlen. by rewrite length_map.
  - intros v k f ip iv s _. pose proof (mem_search_spec v k f ip iv s) as Hs. cbn [st_search mem_ops].
    destruct (mem_search_chunks v k f ip iv s) as [[rs|] s']; [|done]. destruct Hs as (? & Hh & ?).
    split; [done|]. split; [|done]. eapply Forall_impl; [exact Hh|].
    intros r (p & ? & _ & ?)%mem_hit_in. by exists p.
  - intros q k f ip s _. pose proof (mem_search_sparse_spec q k f ip s) as Hs. cbn [st_search_sparse mem_ops].
    destruct (mem_search_sparse q k f ip s) as [[rs|] s']; [|done]. destruct Hs as (? & Hh & ?).
    split; [done|]. split; [|done]. eapply Forall_impl; [exact Hh|].
    intros r (p & ? & _ & ?)%mem_hit_in. by exists p.
  - intros field values f Hf Hk s _. cbn [st_lookup mem_ops].
    destruct (mem_lookup_ids field values f s) as [[l|] s'] eqn:E.
    + split; [by injection E|]. by apply mem_lookup_spec with s'.
    + by injection E.
  - intros chunks s Hs. cbn [st_upsert mem_ops]. unfold mem_upsert_chunks.
    pose proof (mem_written chunks s Hs) as Hw. pose proof (mem_upsert_loop_ok chunks _ Hs) as Hok.
    pose proof (mem_upsert_loop_last chunks (mem_entries s)) as Hlast.
    destruct (mem_upsert_loop chunks (mem_entries s)) as [[[]|e] l]; cbn [fst snd] in *; [|done].
    split; [done|]. split; [done|]. split; [|done]. intros pre c post Hc Hp.
    destruct (Hlast pre c post eq_refl Hc Hp) as (ke & Hin & Hst & Hkey).
    exists (e_payload ke.2). split; [apply mem_points_elem; eauto|done].
  - intros f s [Hn Hkey]. cbn [st_delete mem_ops]. unfold mem_delete_chunks.
    destruct (negb _ && negb _); [split; [by left|done]|]. rewrite delete_by_key by done. split; [|split; [|done]].
    + exists (mem_selected f). cbn [points mem_view]. unfold mem_points. cbn [mem_entries].
      rewrite (filter_map_comm _ (mem_selected f)), (filter_map_comm _ (fun p => negb (mem_selected f p))).
      split; [done|]. split; [unfold zlen; by rewrite length_map|].
      split; [intros p _; apply mem_selected_scope|]. intros Hf Hk p _. by apply mem_selected_plain.
    + split; cbn [mem_entries].
      * by apply NoDup_keys_filter.
      * rewrite Forall_forall in Hkey |- *. intros x Hx. apply Hkey.
        apply list_elem_of_In, filter_In in Hx as [Hx _]. by apply list_elem_of_In.
Qed.

#[export] Instance mem_safe : SafeStore mem_store.
Proof.
  split.
  - intros v k f ip iv s _. pose proof (mem_search_spec v k f ip iv s) as Hs. cbn [st_search mem_ops].
    destruct (mem_search_chunks v k f ip iv s) as [[rs|] s']; [|done]. destruct Hs as (? & Hh & ?).
    split; [done|]. eapply Forall_impl; [exact Hh|]. apply mem_hit_in.
  - intros q k f ip s _. pose proof (mem_search_sparse_spec q k f ip s) as Hs. cbn [st_search_sparse mem_ops].
    destruct (mem_search_sparse q k f ip s) as [[rs|] s']; [|done]. destruct Hs as (? & Hh & ?).
    split; [done|]. eapply Forall_impl; [exact Hh|]. apply mem_hit_in.
Qed.

(** The tenant of a key is what precedes its first colon. *)
Lemma mem_key_tenant p c t t' :
  obj_get p "tenant_id" = Some (JStr t) -> obj_get c "tenant_id" = Some (JStr t') ->
  58 ∉ t -> 58 ∉ t' -> mem_point_key p = mem_point_key c -> t = t'.
Proof.
  unfold mem_point_key, mem_key, get, get_or. intros -> -> Ht Ht' E. cbn [py_str default] in E.
  pose proof (f_equal (split_once 58) E) as E'. change (lit ":") with [58] in E'. cbn [app] in E'.
  rewrite !split_once_app in E' by done. by injection E'.
Qed.

#[export] Instance mem_tenant_keys : TenantKeys mem_store := mem_key_tenant.
End InMemory.
