(* ===== verification/QdrantStore.v ===== *)
(** * The Qdrant chunk store

    [src/backend/vector_db/app/db/implementations/qdrant.py]: validation of chunks into
    payloads, the filters it sends with every search and deletion, and the reading of
    answers.  The client library is the class [QdrantClient] over the state of the server;
    [QdrantLaws] is its documented behaviour: a filter selects the points whose payload
    meets all its conditions and none of the excluded ones, a condition on an array holds
    when one element meets it, an upsert replaces points by identifier, pages of a scroll
    end.  The store keeps the laws of the interface over every such client. *)

From Stdlib Require Import QArith.
From stdpp Require Import base strings sets list.
From S2P Require Import Prelude PyValue Base64 Auth SparseRetrieval VectorStore ChunkStore.

Local Open Scope string_scope.
Local Open Scope list_scope.
Local Open Scope Z_scope.

(** ** Filters *)

Inductive qmatch := MatchValue (v : json) | MatchAny (l : list json).
Record FieldCondition := mkCond { fc_key : string; fc_match : qmatch }.
Record Filter := mkFilter { f_must : list FieldCondition; f_must_not : list FieldCondition }.

(** Equality of stored scalars, which keeps types apart. *)
Definition same_scalar (a b : json) : bool :=
  match a, b with
  | JStr s, JStr t => bool_decide (s = t)
  | JInt m, JInt n => m =? n
  | JBool x, JBool y => eqb x y
  | _, _ => false
  end.

Definition meets (m : qmatch) (v : json) : bool :=
  match m with
  | MatchValue w => same_scalar v w
  | MatchAny l => existsb (same_scalar v) l
  end.

Definition condition_holds (payload : obj) (c : FieldCondition) : bool :=
  match obj_get payload (fc_key c) with
  | None => false
  | Some (JArr l) => existsb (meets (fc_match c)) l
  | Some v => meets (fc_match c) v
  end.

Definition selects (f : Filter) (payload : obj) : bool :=
  forallb (condition_holds payload) (f_must f) && forallb (fun c => negb (condition_holds payload c)) (f_must_not f).

(** ** The client *)

Record PointStruct := mkPoint { pt_id : text; pt_dense : list Q; pt_sparse : list Z * list Q; pt_payload : obj }.

Inductive query := DenseQuery (v : list Q) | SparseQuery (v : list Z * list Q).

Record scored := mkScored { sc_id : text; sc_score : Q; sc_payload : option obj; sc_vector : json }.

Class QdrantClient (C : Type) := {
  q_points : C -> list PointStruct;
  q_offset : Type;
  q_upsert : list PointStruct -> eff C unit;
  q_query : query -> Z -> Filter -> bool -> bool -> eff C (list scored);
  q_count : option Filter -> eff C Z;
  q_points_count : eff C Z;
  q_delete : Filter -> eff C unit;
  q_scroll : Filter -> option q_offset -> Z -> list string -> eff C (list obj * option q_offset);
  q_collections : eff C (list text);
  q_create_collection : text -> Z -> eff C unit;
  q_vector_names : text -> eff C (list string * list string);
  q_create_payload_index : text -> string -> eff C unit
}.

(** [uuid.uuid5(uuid.NAMESPACE_DNS, name)]. *)
Class Uuid5 := uuid5 : text -> text.

Definition ALLOWED_CALLER_FILTERS : list string :=
  ["tenant_id"; "owner_user_id"; "owner_admin_id"; "file_id"; "document_id"; "chunk_version";
   "review_status"; "page"; "section"].
Definition SAFE_REVIEW_STATUSES : list text := [lit "clean"; lit "accepted_with_risk"; lit "sanitized"].
Definition ALLOWED_REVIEW_STATUSES : list text :=
  [lit "clean"; lit "accepted_with_risk"; lit "sanitized"; lit "removed"].

Section Qdrant.
Context {C : Type} `{PyText} `{Lexical} `{Numpy} `{QdrantClient C} `{Uuid5}.

(** The adapter: the collection name and the size of its vectors are fixed at
    construction. *)
Record qdrant_store := mkQdrant { qs_name : text; qs_vector_size : Z; qs_client : C }.

Definition on_client {A} (c : eff C A) : eff qdrant_store A := fun s =>
  let '(o, x) := c (qs_client s) in (o, mkQdrant (qs_name s) (qs_vector_size s) x).

(** ** Payloads *)

Definition require_string (chunk : obj) (key : string) : outcome py_exn text :=
  match get chunk key with
  | JStr ((_ :: _) as t) => Ok t
  | _ => ValueError (lit key ++ lit " is required")
  end.

(** [int(v)]. *)
Definition py_int (v : json) : outcome py_exn Z :=
  match v with
  | JInt n => Ok n
  | JBool b => Ok (if b then 1 else 0)
  | JFloat q => Ok (Z.quot (Qnum q) (Zpos (Qden q)))
  | JStr t => match parse_int t with
              | Some n => Ok n
              | None => ValueError (lit "invalid literal for int()")
              end
  | _ => TypeError
  end.

Definition is_str_list (v : json) : bool :=
  match v with JArr l => forallb (fun f => match f with JStr _ => true | _ => false end) l | _ => false end.

Definition build_payload (chunk : obj) : outcome py_exn obj :=
  let* file_id := require_string chunk "file_id" in
  let* tenant_id := require_string chunk "tenant_id" in
  let* owner_user_id := require_string chunk "owner_user_id" in
  let* owner_admin_id := require_string chunk "owner_admin_id" in
  let* document_id := require_string chunk "document_id" in
  let* chunk_id := require_string chunk "chunk_id" in
  let* source_name := require_string chunk "source_name" in
  let* body := match get chunk "text" with JStr t => Ok t | _ => ValueError (lit "text is required") end in
  let text_preview := match get chunk "text_preview" with
                      | JStr ((_ :: _) as t) => t
                      | _ => py_prefix body 250
                      end in
  let* retrieval_allowed := match get chunk "retrieval_allowed" with
                            | JBool b => Ok b
                            | _ => ValueError (lit "retrieval_allowed must be a boolean")
                            end in
  let* allowed := in_strings (get chunk "review_status") ALLOWED_REVIEW_STATUSES in
  if negb allowed then ValueError (lit "review_status is invalid")
  else
    let issue_flags := get_or chunk "issue_flags" (JArr []) ||| JArr [] in
    if negb (is_str_list issue_flags) then ValueError (lit "issue_flags must be a list of strings")
    else
      let* created_at := require_string chunk "created_at" in
      let* chunk_index := py_int (get_or chunk "chunk_index" (JInt 0)) in
      let* chunk_version := py_int (get chunk "chunk_version") in
      Ok [("tenant_id", JStr tenant_id); ("owner_user_id", JStr owner_user_id);
          ("owner_admin_id", JStr owner_admin_id); ("file_id", JStr file_id);
          ("document_id", JStr document_id); ("chunk_id", JStr chunk_id);
          ("chunk_index", JInt chunk_index); ("chunk_version", JInt chunk_version);
          ("text", JStr body); ("text_preview", JStr text_preview); ("source_name", JStr source_name);
          ("page", get chunk "page"); ("section", get chunk "section");
          ("retrieval_allowed", JBool retrieval_allowed); ("review_status", get chunk "review_status");
          ("issue_flags", issue_flags); ("created_at", JStr created_at)].

Definition normalize_embedding (size : Z) (embedding : json) : outcome py_exn (list Q) :=
  match np_asarray embedding with
  | None => ValueError (lit "could not convert to float")
  | Some v => if zlen v =? size then Ok v
              else ValueError (lit "Vector size mismatch: expected " ++ show size ++ lit ", got " ++ show (zlen v))
  end.

Definition build_point (size : Z) (chunk : obj) : outcome py_exn PointStruct :=
  let* payload := build_payload chunk in
  let* embedding := normalize_embedding size (get_or chunk "embedding" (JArr [])) in
  let* sparse := sparse_lexical_vector (py_str (get payload "text")) MAX_SPARSE_TERMS in
  Ok (mkPoint (uuid5 (mem_key (get payload "tenant_id") (get payload "chunk_id"))) embedding sparse payload).

Fixpoint build_points (size : Z) (chunks : list obj) : outcome py_exn (list PointStruct) :=
  match chunks with
  | [] => Ok []
  | c :: rest =>
      let* p := build_point size c in
      let* ps := build_points size rest in
      Ok (p :: ps)
  end.

(** All chunks are validated before the one call that writes. *)
Definition qdrant_upsert_chunks (chunks : list obj) : eff qdrant_store Z :=
  match chunks with
  | [] => ret 0
  | _ =>
      size <-- gets qs_vector_size;
      points <-- lift (build_points size chunks);
      on_client (q_upsert points);;;
      ret (zlen points)
  end.

(** ** Search *)

Fixpoint safe_values (l : list json) : outcome py_exn (list json) :=
  match l with
  | [] => Ok []
  | v :: rest =>
      let* safe := in_strings v SAFE_REVIEW_STATUSES in
      let* vs := safe_values rest in
      Ok (if safe : bool then v :: vs else vs)
  end.

Definition normalize_match_value (key : string) (value : json) : outcome py_exn (option qmatch) :=
  if is_none value then Ok None
  else if bool_decide (key = "review_status") then
    match value with
    | JArr l =>
        let* safe := safe_values l in
        Ok (match safe with [] => None | _ => Some (MatchAny safe) end)
    | v => let* safe := in_strings v SAFE_REVIEW_STATUSES in
           Ok (if safe : bool then Some (MatchValue v) else None)
    end
  else match value with
       | JArr l =>
           match List.filter (fun v => negb (is_none v)) l with
           | [] => Ok None
           | filtered => Ok (Some (MatchAny filtered))
           end
       | v => Ok (Some (MatchValue v))
       end.

Fixpoint caller_conditions (filters : obj) : outcome py_exn (list FieldCondition) :=
  match filters with
  | [] => Ok []
  | (key, value) :: rest =>
      if bool_decide (key ∈ ALLOWED_CALLER_FILTERS) then
        let* m := normalize_match_value key value in
        let* cs := caller_conditions rest in
        Ok (match m with Some m => mkCond key m :: cs | None => cs end)
      else caller_conditions rest
  end.

Definition build_search_filter (filters : obj) : outcome py_exn Filter :=
  let* cs := caller_conditions filters in
  Ok (mkFilter (mkCond "retrieval_allowed" (MatchValue (JBool true)) :: cs)
        [mkCond "review_status" (MatchValue (s_ "removed"))]).

Definition dense_item (include_payload include_vector : bool) (r : scored) : obj :=
  [("id", JStr (sc_id r)); ("score", JFloat (sc_score r))]
  ++ (if include_payload then [("payload", JObj (default [] (sc_payload r)))] else [])
  ++ (if include_vector then [("vector", sc_vector r)] else []).

Definition qdrant_search_chunks (query_vector : list Q) (top_k : Z) (filters : obj)
    (include_payload include_vector : bool) : eff qdrant_store (list obj) :=
  size <-- gets qs_vector_size;
  if negb (zlen query_vector =? size) then
    lift (ValueError (lit "Query vector size mismatch: expected " ++ show size ++ lit ", got "
                      ++ show (zlen query_vector)))
  else
    f <-- lift (build_search_filter filters);
    found <-- on_client (q_query (DenseQuery query_vector) top_k f include_payload include_vector);
    ret (map (dense_item include_payload include_vector) found).

Definition qdrant_search_sparse (query_sparse : list Z * list Q) (top_k : Z) (filters : obj)
    (include_payload : bool) : eff qdrant_store (list obj) :=
  match query_sparse.1 with
  | [] => ret []
  | _ =>
      if negb (length query_sparse.1 =? length query_sparse.2)%nat
      then lift (ValueError (lit "Sparse query indices and values must have equal length"))
      else
        f <-- lift (build_search_filter filters);
        found <-- on_client (q_query (SparseQuery query_sparse) top_k f include_payload false);
        ret (map (dense_item include_payload false) found)
  end.

(** ** Deletion *)

Definition value_condition (key : string) (value : json) : list FieldCondition :=
  if jtrue value then [mkCond key (MatchValue value)] else [].

Definition build_delete_filter (filters : obj) : outcome py_exn Filter :=
  let file_id := get filters "file_id" in
  let document_id := get filters "document_id" in
  let must := value_condition "file_id" file_id ++ value_condition "document_id" document_id
              ++ flat_map (fun field => value_condition field (get filters field)) SCOPE_FIELDS in
  if negb (jtrue file_id) && negb (jtrue document_id)
  then ValueError (lit "delete_chunks requires file_id, document_id, or both")
  else Ok (mkFilter must []).

Definition qdrant_delete_chunks (filters : obj) : eff qdrant_store Z :=
  f <-- lift (build_delete_filter filters);
  deleted_count <-- on_client (q_count (Some f));
  if deleted_count =? 0 then ret 0
  else on_client (q_delete f);;; ret deleted_count.

(** ** Lookup *)

Definition record_found (field : string) (wanted : list text) (payload : obj) : option (text * bool) :=
  match get payload field with
  | JNull => None
  | v => if bool_decide (py_str v ∈ wanted) then Some (py_str v, retrievable payload) else None
  end.

(** [while True] over the pages; the fuel bounds the number of pages. *)
Fixpoint scroll_loop (fuel : nat) (f : Filter) (offset : option q_offset) (field : string)
    (wanted : list text) (acc : list (text * bool)) : eff qdrant_store (list (text * bool)) :=
  match fuel with
  | O => raise (PyError (lit "fuel") [])
  | S fuel' =>
      page <-- on_client (q_scroll f offset 256 [field; "retrieval_allowed"; "review_status"]);
      let acc := acc ++ omap (record_found field wanted) page.1 in
      match page.2 with
      | None => ret acc
      | Some next => scroll_loop fuel' f (Some next) field wanted acc
      end
  end.

Definition lookup_filter (field : string) (wanted : list text) (filters : obj) : Filter :=
  mkFilter
    (mkCond field (MatchAny (map JStr (py_sorted text_leb wanted)))
     :: omap (fun kv => if bool_decide (kv.1 ∈ ALLOWED_CALLER_FILTERS) && negb (is_none kv.2)
                        then Some (mkCond kv.1 (MatchValue kv.2)) else None) filters)
    [].

Definition qdrant_lookup_ids (field : string) (values : list text) (filters : obj) : eff qdrant_store lookup :=
  wanted <-- lift (verify_targets field values);
  match wanted with
  | [] => ret (mkLookup [] [])
  | _ =>
      fuel <-- gets (fun s => S (length (q_points (qs_client s))));
      found <-- scroll_loop fuel (lookup_filter field wanted filters) None field wanted [];
      ret (mkLookup (sorted_set found.*1) (sorted_set (List.filter snd found).*1))
  end.

(** The exact count, else what the collection reports, else the first error. *)
Definition qdrant_count : eff qdrant_store Z :=
  o <-- attempt (on_client (q_count None));
  match o with
  | Ok n => ret n
  | Raise Cancelled => raise Cancelled
  | Raise e => catch (on_client q_points_count) (fun e' => match e' with Cancelled => None | _ => Some (raise e) end)
  end.

Definition INDEXED_FIELDS : list string :=
  ["tenant_id"; "owner_user_id"; "owner_admin_id"; "file_id"; "document_id"; "chunk_id"; "chunk_version";
   "retrieval_allowed"; "review_status"].

(** A collection that exists must have the dense and the lexical vector. *)
Definition qdrant_initialize : eff qdrant_store text :=
  name <-- gets qs_name;
  size <-- gets qs_vector_size;
  existing <-- on_client q_collections;
  (if negb (bool_decide (name ∈ existing)) then on_client (q_create_collection name size)
   else
     names <-- on_client (q_vector_names name);
     if bool_decide ("dense" ∈ names.1) && bool_decide ("lexical" ∈ names.2) then ret tt
     else raise (PyError (lit "RuntimeError")
            (lit "Collection '" ++ name ++ lit "' lacks the required dense+sparse schema; rebuild/reindex it before enabling hybrid retrieval")));;;
  iterM (fun field => on_client (q_create_payload_index name field)) INDEXED_FIELDS;;;
  ret name.

#[export] Instance qdrant_ops : IVectorStore qdrant_store := {|
  collection_name := qs_name;
  st_initialize := qdrant_initialize;
  st_upsert := qdrant_upsert_chunks;
  st_search := qdrant_search_chunks;
  st_search_sparse := qdrant_search_sparse;
  st_delete := qdrant_delete_chunks;
  st_lookup := qdrant_lookup_ids;
  st_count := qdrant_count
|}.

(** ** Documented behaviour of the client *)

(** The payload fields a scroll asked for. *)
Definition projected (fields : list string) (p : obj) : obj :=
  List.filter (fun kv => bool_decide (kv.1 ∈ fields)) p.

(** The points an upsert leaves: the last of a batch counts. *)
Definition upserted (new : list PointStruct) (before after : list PointStruct) : Prop :=
  forall x, x ∈ after <->
    (exists pre post, new = pre ++ x :: post /\ Forall (fun y => pt_id y <> pt_id x) post) \/
    (x ∈ before /\ pt_id x ∉ map pt_id new).

(** A call that raises may have been applied, in whole or in part. *)
Definition partly_upserted (new : list PointStruct) (before after : list PointStruct) : Prop :=
  (forall x, x ∈ after -> x ∈ before \/ x ∈ new) /\
  (forall x, x ∈ before -> x ∈ after \/ pt_id x ∈ map pt_id new).

Definition unselected (f : Filter) (before : list PointStruct) : list PointStruct :=
  List.filter (fun x => negb (selects f (pt_payload x))) before.

(** A read of the server. *)
Definition client_reads {A} (c : eff C A) (Q : C -> A -> Prop) : Prop :=
  forall x, match c x with (Ok a, x') => x' = x /\ Q x a | (Raise _, x') => x' = x end.

(** A change of the server that leaves the points alone. *)
Definition keeps_points {A} (c : eff C A) : Prop := forall x, q_points (c x).2 = q_points x.
End Qdrant.

Arguments qdrant_store C : clear implicits.

Class QdrantLaws (C : Type) `{QdrantClient C} := {
  law_q_query q k f ip iv :
    client_reads (q_query q k f ip iv) (fun x found =>
      (0 <= k -> zlen found <= k) /\
      Forall (fun r => exists p, p ∈ q_points x /\ selects f (pt_payload p) = true /\
                (ip = true -> sc_payload r = Some (pt_payload p))) found);
  law_q_count f :
    client_reads (q_count (Some f)) (fun x n => n = zlen (List.filter (fun p => selects f (pt_payload p)) (q_points x)));
  law_q_count_all : client_reads (q_count None) (fun x n => n = zlen (q_points x));
  law_q_points_count : client_reads q_points_count (fun x n => n = zlen (q_points x));
  law_q_upsert ps x :
    match q_upsert ps x with
    | (Ok _, x') => upserted ps (q_points x) (q_points x')
    | (Raise _, x') => partly_upserted ps (q_points x) (q_points x')
    end;
  law_q_delete f x :
    match q_delete f x with
    | (Ok _, x') => q_points x' = unselected f (q_points x)
    | (Raise _, x') => q_points x' = q_points x \/ q_points x' = unselected f (q_points x)
    end;
  (** The records from an offset on; a page takes a part of them and the next offset has
      fewer. *)
  q_rest : C -> Filter -> option q_offset -> list PointStruct;
  law_q_rest x f : q_rest x f None = List.filter (fun p => selects f (pt_payload p)) (q_points x);
  law_q_scroll f o n fields :
    client_reads (q_scroll f o n fields) (fun x page => exists rs,
      page.1 = map (fun p => projected fields (pt_payload p)) rs /\
      q_rest x f o = rs ++ match page.2 with None => [] | Some o' => q_rest x f (Some o') end /\
      (is_Some page.2 -> rs <> []));
  law_q_collections : client_reads q_collections (fun _ _ => True);
  law_q_vector_names n : client_reads (q_vector_names n) (fun _ _ => True);
  law_q_create n k : keeps_points (q_create_collection n k);
  law_q_index n k : keeps_points (q_create_payload_index n k)
}.

(** ** The store keeps the laws of the interface *)

Section Laws.
Context {C : Type} `{PyText} `{Lexical} `{Numpy} `{QdrantClient C} `{Uuid5} `{!QdrantLaws C}.

Definition qdrant_points (s : qdrant_store C) : list obj := map pt_payload (q_points (qs_client s)).
Definition qdrant_key (p : obj) : text := uuid5 (mem_key (get p "tenant_id") (get p "chunk_id")).

Definition STRING_FIELDS : list string :=
  ["tenant_id"; "owner_user_id"; "owner_admin_id"; "file_id"; "document_id"; "chunk_id"; "review_status"].

(** A payload of the store: identifiers and the review status are strings, the retrieval
    flag is a boolean. *)
Definition payload_ok (p : obj) : Prop :=
  (forall k, k ∈ STRING_FIELDS -> exists t, obj_get p k = Some (JStr t)) /\
  exists b, obj_get p "retrieval_allowed" = Some (JBool b).

(** Every point has a validated payload and the identifier of its payload. *)
Definition points_ok (l : list PointStruct) : Prop :=
  Forall (fun x => payload_ok (pt_payload x) /\ pt_id x = qdrant_key (pt_payload x)) l.

#[export] Instance qdrant_view : StoreView (qdrant_store C) := {|
  points := qdrant_points; point_key := qdrant_key; store_ok := fun s => points_ok (q_points (qs_client s))
|}.

(** *** Validated chunks *)

Lemma require_string_spec c k t : require_string c k = Ok t -> obj_get c k = Some (JStr t).
Proof.
  unfold require_string, get, get_or. destruct (obj_get c k) as [[| | | |[|x s]| |]|]; intros E; try discriminate E.
  by injection E as <-.
Qed.

Ltac bind_cases :=
  repeat match goal with
  | |- obind ?o _ = Ok _ -> _ => let E := fresh "E" in destruct o eqn:E; cbn [obind]; [|done]
  | |- (if negb ?b then _ else _) = Ok _ -> _ => destruct b; cbn [negb]; [|done]
  end.

Lemma build_payload_spec c p :
  build_payload c = Ok p -> payload_ok p /\ stored_as c p /\ qdrant_key p = qdrant_key c.
Proof.
  unfold build_payload. cbv zeta. bind_cases. intros [= <-].
  repeat match goal with E : require_string _ _ = Ok _ |- _ => apply require_string_spec in E end.
  assert (exists r, obj_get c "review_status" = Some (JStr r)) as [r Hr].
  { revert E8. unfold in_strings, get, get_or. destruct (obj_get c "review_status") as [[| | | |r| |]|]; naive_solver. }
  assert (get c "review_status" = JStr r) as Hr' by (unfold get, get_or; by rewrite Hr).
  split; [split|split].
  - intros k Hk. unfold STRING_FIELDS in Hk. rewrite !elem_of_cons, elem_of_nil in Hk.
    destruct Hk as [->|[->|[->|[->|[->|[->|[->|[]]]]]]]]; obj_field; rewrite ?Hr'; by eexists.
  - obj_field. by eexists.
  - intros k v Hk Hv. unfold KEPT_FIELDS in Hk. rewrite !elem_of_cons, elem_of_nil in Hk.
    assert (forall t, get c k = JStr t -> v = JStr t) as Hs by (unfold get, get_or; rewrite Hv; naive_solver).
    destruct Hk as [->|[->|[->|[->|[->|[->|[->|[->|[->|[]]]]]]]]]]; obj_field; try congruence.
    + destruct (get c "text") eqn:Et; try done. injection E6 as <-. f_equal. symmetry. by apply Hs.
    + unfold get, get_or in E7. rewrite Hv in E7. destruct v; try done. by injection E7 as <-.
  - unfold qdrant_key, get, get_or. obj_field. by rewrite E0, E4.
Qed.

Lemma build_points_spec size cs ps :
  build_points size cs = Ok ps ->
  Forall2 (fun c x => payload_ok (pt_payload x) /\ stored_as c (pt_payload x) /\
             pt_id x = qdrant_key c /\ qdrant_key (pt_payload x) = qdrant_key c) cs ps.
Proof.
  revert ps. induction cs as [|c cs IH]; intros ps; cbn; [intros [= <-]; constructor|].
  destruct (build_point size c) as [x|] eqn:E; cbn; [|done].
  destruct (build_points size cs) as [xs|]; cbn; [|done]. intros [= <-]. constructor; [|by apply IH].
  unfold build_point in E. destruct (build_payload c) as [p|] eqn:Ep; cbn [obind] in E; [|done].
  destruct (normalize_embedding _ _); cbn [obind] in E; [|done].
  destruct (sparse_lexical_vector _ _); cbn [obind] in E; [|done]. injection E as <-. cbn.
  apply build_payload_spec in Ep as (? & ? & Hk). split_and!; try done.
Qed.

Lemma qdrant_points_elem s p : p ∈ qdrant_points s <-> exists x, x ∈ q_points (qs_client s) /\ p = pt_payload x.
Proof. unfold qdrant_points. rewrite list_elem_of_fmap. naive_solver. Qed.

(** *** Conditions *)

Lemma condition_string p k t u :
  obj_get p k = Some (JStr t) -> condition_holds p (mkCond k (MatchValue (JStr u))) = true <-> t = u.
Proof. intros E. unfold condition_holds. cbn. rewrite E. cbn. apply bool_decide_eq_true. Qed.

Lemma caller_conditions_scope f cs k t :
  caller_conditions f = Ok cs -> k ∈ SCOPE_FIELDS -> obj_get f k = Some (JStr t) ->
  mkCond k (MatchValue (JStr t)) ∈ cs.
Proof.
  revert cs. induction f as [|[k' v] f IH]; intros cs Hcs Hk Hg; cbn in *; [done|].
  destruct (decide (k = k')) as [<-|Hne].
  - injection Hg as ->. rewrite bool_decide_true in Hcs by (unfold SCOPE_FIELDS in Hk; unfold ALLOWED_CALLER_FILTERS; set_solver).
    unfold normalize_match_value in Hcs. cbn [is_none] in Hcs.
    rewrite bool_decide_false in Hcs by (intros ->; unfold SCOPE_FIELDS in Hk; set_solver). cbn [obind] in Hcs.
    destruct (caller_conditions f); cbn [obind] in Hcs; [|done]. injection Hcs as <-. by left.
  - case_bool_decide; [|by apply IH].
    destruct (normalize_match_value k' v) as [m|]; cbn [obind] in Hcs; [|done].
    destruct (caller_conditions f) as [cs'|]; cbn [obind] in Hcs; [|done]. injection Hcs as <-.
    destruct m; [right|]; by apply IH.
Qed.

Lemma selects_must f p c : selects f p = true -> c ∈ f_must f -> condition_holds p c = true.
Proof.
  unfold selects. rewrite andb_true_iff, forallb_forall. intros [Hm _] Hc. by apply Hm, list_elem_of_In.
Qed.

Lemma search_filter_spec filters f p :
  build_search_filter filters = Ok f -> payload_ok p -> selects f p = true ->
  retrievable p = true /\ in_scope filters p.
Proof.
  unfold build_search_filter. destruct (caller_conditions filters) as [cs|] eqn:E; cbn [obind]; [|done].
  intros [= <-] [Hs [b Hb]] Hsel. split.
  - pose proof (selects_must _ _ (mkCond "retrieval_allowed" (MatchValue (JBool true))) Hsel) as Ha.
    specialize (Ha ltac:(by left)). unfold condition_holds in Ha. cbn in Ha. rewrite Hb in Ha. cbn in Ha.
    apply eqb_prop in Ha as ->. unfold selects in Hsel. apply andb_true_iff in Hsel as [_ Hn]. cbn in Hn.
    rewrite andb_true_r in Hn. destruct (Hs "review_status") as [r Hr]; [unfold STRING_FIELDS; set_solver|].
    unfold condition_holds in Hn. cbn in Hn. rewrite Hr in Hn. unfold retrievable, get, get_or. rewrite Hb, Hr.
    exact Hn.
  - intros k t Hk Hg _. destruct (Hs k) as [u Hu]; [unfold SCOPE_FIELDS in Hk; unfold STRING_FIELDS; set_solver|].
    rewrite Hu. apply (caller_conditions_scope _ _ _ _ E Hk) in Hg.
    pose proof (selects_must _ _ (mkCond k (MatchValue (JStr t))) Hsel) as Hc.
    specialize (Hc ltac:(cbn; by right)). apply (condition_string p k u t Hu) in Hc as ->. done.
Qed.

(** *** Running the client *)

Lemma on_client_reads {A} (c : eff C A) Q s :
  client_reads c Q ->
  match on_client c s with (Ok a, s') => s' = s /\ Q (qs_client s) a | (Raise _, s') => s' = s end.
Proof.
  intros Hc. specialize (Hc (qs_client s)). unfold on_client. destruct s as [n k x]. cbn in *.
  destruct (c x) as [[a|e] x']; [destruct Hc as [-> ?]|subst x']; done.
Qed.

Lemma query_hits q k filters f ip iv s :
  build_search_filter filters = Ok f -> store_ok s ->
  match on_client (q_query q k f ip iv) s with
  | (Ok found, s') => s' = s /\
      Forall (hit_in (fun p => retrievable p = true) (qdrant_points s) filters ip) (map (dense_item ip iv) found) /\
      (0 <= k -> zlen (map (dense_item ip iv) found) <= k)
  | (Raise _, s') => s' = s
  end.
Proof.
  intros Hf Hok. pose proof (on_client_reads (q_query q k f ip iv) _ s (law_q_query q k f ip iv)) as Hq.
  destruct (on_client _ s) as [[found|] s']; [|done]. destruct Hq as (-> & Hl & Hh). split; [done|].
  split; [|unfold zlen in *; by rewrite length_map]. apply Forall_fmap. eapply Forall_impl; [exact Hh|].
  intros r (x & Hx & Hsel & Hp). cbn in Hok. unfold points_ok in Hok. rewrite Forall_forall in Hok.
  destruct (search_filter_spec _ _ _ Hf (proj1 (Hok x Hx)) Hsel) as [Hr Hs].
  exists (pt_payload x). split; [apply qdrant_points_elem; eauto|]. split; [done|]. split; [done|]. cbn. split.
  - intros ->. unfold dense_item. rewrite Hp by done. destruct iv; reflexivity.
  - exists (sc_id r). by destruct ip, iv.
Qed.

Lemma qdrant_search_spec v k f ip iv s : store_ok s ->
  match qdrant_search_chunks v k f ip iv s with
  | (Ok rs, s') => s' = s /\
      Forall (hit_in (fun p => retrievable p = true) (qdrant_points s) f ip) rs /\ (0 <= k -> zlen rs <= k)
  | (Raise _, s') => s' = s
  end.
Proof.
  intros Hok. unfold qdrant_search_chunks. unfold bind at 1. cbn [gets].
  destruct (negb _); [done|]. unfold bind at 1, lift. destruct (build_search_filter f) as [qf|] eqn:E; [|done].
  pose proof (query_hits (DenseQuery v) k f qf ip iv s E Hok) as Hq. unfold bind.
  by destruct (on_client _ s) as [[found|] s'].
Qed.

Lemma qdrant_search_sparse_spec q k f ip s : store_ok s ->
  match qdrant_search_sparse q k f ip s with
  | (Ok rs, s') => s' = s /\
      Forall (hit_in (fun p => retrievable p = true) (qdrant_points s) f ip) rs /\ (0 <= k -> zlen rs <= k)
  | (Raise _, s') => s' = s
  end.
Proof.
  intros Hok. unfold qdrant_search_sparse. destruct (q.1).
  { split; [done|]. split; [apply Forall_nil; exact I|]. intros ?. unfold zlen. cbn. lia. }
  destruct (negb _); [done|]. unfold bind at 1, lift. destruct (build_search_filter f) as [qf|] eqn:E; [|done].
  pose proof (query_hits (SparseQuery q) k f qf ip false s E Hok) as Hq. unfold bind.
  by destruct (on_client _ s) as [[found|] s'].
Qed.

(** *** Upsert *)

Lemma qdrant_written cs ps s x :
  Forall2 (fun c x => payload_ok (pt_payload x) /\ stored_as c (pt_payload x) /\
             pt_id x = qdrant_key c /\ qdrant_key (pt_payload x) = qdrant_key c) cs ps ->
  points_ok (q_points (qs_client s)) ->
  partly_upserted ps (q_points (qs_client s)) (q_points x) ->
  written cs s (mkQdrant (qs_name s) (qs_vector_size s) x) /\ points_ok (q_points x).
Proof.
  intros Hps Hok [Hnew Hold].
  assert (forall y, y ∈ ps -> exists c, c ∈ cs /\ payload_ok (pt_payload y) /\ stored_as c (pt_payload y) /\
            pt_id y = qdrant_key c /\ qdrant_key (pt_payload y) = qdrant_key c) as Hin.
  { intros y Hy. apply list_elem_of_lookup in Hy as [n Hn].
    destruct (Forall2_lookup_r _ _ _ _ _ Hps Hn) as (c & Hc & ?). exists c. split; [|done].
    by eapply list_elem_of_lookup_2. }
  unfold points_ok in *. rewrite Forall_forall in Hok. split; [split|].
  - intros p (y & Hy & ->)%qdrant_points_elem. cbn in Hy.
    destruct (Hnew y Hy) as [Hy'|Hy']; [left; apply qdrant_points_elem; eauto|right].
    destruct (Hin y Hy') as (c & ? & _ & ? & _). eauto.
  - intros p (y & Hy & ->)%qdrant_points_elem.
    destruct (Hold y Hy) as [Hy'|(z & Hz & Hz')%list_elem_of_fmap]; [left; apply qdrant_points_elem; cbn; eauto|right].
    destruct (Hin z Hz') as (c & Hc & _ & _ & Hzc & _). exists c. split; [done|]. cbn.
    rewrite <- (proj2 (Hok y Hy)), Hz, Hzc. done.
  - apply Forall_forall. intros y Hy. destruct (Hnew y Hy) as [Hy'|Hy']; [auto|].
    destruct (Hin y Hy') as (c & _ & Hp & _ & Hi & Hk). split; [done|congruence].
Qed.

Lemma upserted_partly ps before after : upserted ps before after -> partly_upserted ps before after.
Proof.
  intros Hu. split; intros x Hx.
  - apply Hu in Hx as [(pre & post & -> & _)|[? _]]; [right; set_solver|by left].
  - destruct (decide (pt_id x ∈ map pt_id ps)) as [|Hn]; [by right|]. left. apply Hu. by right.
Qed.

(** *** Deletion *)

Lemma value_condition_spec p k v t :
  obj_get p k = Some (JStr t) ->
  forallb (condition_holds p) (value_condition k (get v k)) = true ->
  forall u, obj_get v k = Some (JStr u) -> u <> [] -> obj_get p k = Some (JStr u).
Proof.
  intros Hp Hc u Hu Hne. unfold value_condition, get, get_or in Hc. rewrite Hu, jtrue_str in Hc by done.
  cbn in Hc. rewrite andb_true_r in Hc. apply (condition_string p k t u Hp) in Hc as <-. done.
Qed.

Lemma delete_filter_spec filters f p :
  build_delete_filter filters = Ok f -> payload_ok p -> selects f p = true -> delete_scope filters p.
Proof.
  unfold build_delete_filter. case_match; [done|]. intros [= <-] [Hs _]. unfold selects. cbn.
  rewrite andb_true_r, !forallb_app, !andb_true_iff. intros (Hf & Hd & H1' & H2' & H3' & _).
  assert (forall k, k ∈ STRING_FIELDS -> forallb (condition_holds p) (value_condition k (get filters k)) = true ->
    forall u, obj_get filters k = Some (JStr u) -> u <> [] -> obj_get p k = Some (JStr u)) as Hk.
  { intros k Hk Hc. destruct (Hs k Hk) as [t Ht]. by eapply value_condition_spec. }
  unfold STRING_FIELDS in Hk. split.
  - intros k t Hin. unfold SCOPE_FIELDS in Hin. rewrite !elem_of_cons, elem_of_nil in Hin.
    destruct Hin as [->|[->|[->|[]]]]; apply Hk; (set_solver || done).
  - intros k t Hin. rewrite !elem_of_cons, elem_of_nil in Hin.
    destruct Hin as [->|[->|[]]]; apply Hk; (set_solver || done).
Qed.

Lemma value_condition_plain p v k :
  (forall w, obj_get v k = Some w -> exists t, w = JStr t /\ t <> []) ->
  (forall t, obj_get v k = Some (JStr t) -> t <> [] -> obj_get p k = Some (JStr t)) ->
  forallb (condition_holds p) (value_condition k (get v k)) = true.
Proof.
  intros Hv Hp. unfold value_condition, get, get_or. destruct (obj_get v k) as [w|] eqn:E; [|done].
  destruct (Hv w eq_refl) as (t & -> & Ht). rewrite jtrue_str by done. cbn. rewrite andb_true_r.
  by apply (condition_string p k t t); [apply Hp|].
Qed.

Lemma delete_filter_plain filters f p :
  build_delete_filter filters = Ok f -> plain_filter filters -> delete_scope filters p -> selects f p = true.
Proof.
  unfold build_delete_filter. case_match; [done|]. intros [= <-] [_ Hv] [Hs Hd]. unfold selects. cbn.
  rewrite !forallb_app. cbn. rewrite !value_condition_plain; [done|..]; try (intros w; apply Hv).
  all: intros t; first [apply Hd; set_solver|apply Hs; unfold SCOPE_FIELDS; set_solver].
Qed.

Lemma filter_unselected_none {A} (f : A -> bool) l : zlen (List.filter f l) = 0 -> List.filter (fun x => negb (f x)) l = l.
Proof.
  induction l as [|x l IH]; cbn; [done|]. destruct (f x); cbn; [rewrite zlen_cons; pose proof (zlen_nonneg (List.filter f l)); lia|].
  intros ?. f_equal. auto.
Qed.

Lemma unselected_deleted filters f s x n :
  build_delete_filter filters = Ok f -> points_ok (q_points (qs_client s)) ->
  q_points x = unselected f (q_points (qs_client s)) ->
  n = zlen (List.filter (fun p => selects f (pt_payload p)) (q_points (qs_client s))) ->
  deleted filters n s (mkQdrant (qs_name s) (qs_vector_size s) x).
Proof.
  intros Hf Hok Hx Hn. exists (selects f). cbn. unfold qdrant_points. cbn.
  rewrite Hx, !filter_map_comm. split; [done|]. split; [unfold zlen in *; by rewrite length_map|].
  unfold points_ok in Hok. rewrite Forall_forall in Hok. split.
  - intros p (y & Hy & ->)%qdrant_points_elem. apply (delete_filter_spec _ _ _ Hf), Hok, Hy.
  - intros Hp _ p _. by apply delete_filter_plain.
Qed.

Lemma points_ok_unselected f l : points_ok l -> points_ok (unselected f l).
Proof.
  unfold points_ok. rewrite !Forall_forall. intros Hl x Hx. apply Hl. unfold unselected in Hx.
  apply list_elem_of_In, filter_In in Hx as [Hx _]. by apply list_elem_of_In.
Qed.

(** *** Lookup *)

Definition SCROLL_FIELDS (field : string) : list string := [field; "retrieval_allowed"; "review_status"].

Definition found_in (field : string) (wanted : list text) (rs : list PointStruct) : list (text * bool) :=
  omap (record_found field wanted) (map (fun p => projected (SCROLL_FIELDS field) (pt_payload p)) rs).

(** The loop ends before its fuel: it reads every page, or the client raises. *)
Lemma scroll_loop_spec fuel f o field wanted acc s :
  (length (q_rest (qs_client s) f o) < fuel)%nat ->
  match scroll_loop fuel f o field wanted acc s with
  | (Ok r, s') => s' = s /\ r = acc ++ found_in field wanted (q_rest (qs_client s) f o)
  | (Raise e, s') => s' = s /\ exists o', (q_scroll f o' 256 (SCROLL_FIELDS field) (qs_client s)).1 = Raise e
  end.
Proof.
  revert o acc. induction fuel as [|fuel IH]; intros o acc Hlen; [lia|]. cbn [scroll_loop]. unfold bind at 1.
  fold (SCROLL_FIELDS field).
  pose proof (on_client_reads (q_scroll f o 256 (SCROLL_FIELDS field)) _ s (law_q_scroll f o 256 _)) as Hq.
  destruct (on_client (q_scroll f o 256 (SCROLL_FIELDS field)) s) as [[page|e] s'] eqn:E.
  - destruct Hq as (-> & rs & Hp & Hrest & Hprog). destruct page as [recs next]. cbn [fst snd] in *. subst recs.
    rewrite Hrest. unfold found_in at 1. destruct next as [o'|].
    + specialize (IH (Some o') (acc ++ omap (record_found field wanted)
        (map (fun p => projected (SCROLL_FIELDS field) (pt_payload p)) rs))).
      assert (rs <> []) as Hne by (apply Hprog; by eexists).
      rewrite Hrest, length_app in Hlen. destruct rs as [|r rs]; [done|]. cbn [length] in Hlen.
      specialize (IH ltac:(lia)). destruct (scroll_loop fuel _ _ _ _ _ s) as [[r'|e] s'']; [|done].
      destruct IH as [-> ->]. split; [done|]. unfold found_in. by rewrite map_app, omap_app, app_assoc.
    + cbn. split; [done|]. by rewrite app_nil_r.
  - subst s'. split; [done|]. exists o. unfold on_client in E.
    destruct (q_scroll f o 256 (SCROLL_FIELDS field) (qs_client s)) as [o' x']. by injection E as -> _.
Qed.

Lemma projected_get fields p k : k ∈ fields -> obj_get (projected fields p) k = obj_get p k.
Proof.
  intros Hk. unfold projected. induction p as [|[k' v] p IH]; cbn; [done|].
  destruct (decide (k = k')) as [<-|Hne].
  - rewrite bool_decide_true by done. rewrite obj_get_cons. by rewrite decide_True.
  - destruct (bool_decide (k' ∈ fields)); [|done]. rewrite obj_get_cons. by rewrite decide_False.
Qed.

Lemma record_found_spec field wanted p x b :
  payload_ok p -> field ∈ VERIFIABLE_ID_FIELDS ->
  record_found field wanted (projected (SCROLL_FIELDS field) p) = Some (x, b) <->
  x ∈ wanted /\ has_id field x p /\ b = retrievable p.
Proof.
  intros [Hs _] Hf. assert (field ∈ STRING_FIELDS) as Hf'.
  { unfold VERIFIABLE_ID_FIELDS in Hf. unfold STRING_FIELDS. set_solver. }
  destruct (Hs field Hf') as [t Ht].
  assert (retrievable (projected (SCROLL_FIELDS field) p) = retrievable p) as Hr.
  { unfold retrievable, get, get_or. rewrite !projected_get by (unfold SCROLL_FIELDS; set_solver). done. }
  unfold record_found, get, get_or. rewrite projected_get by (unfold SCROLL_FIELDS; set_solver).
  rewrite Ht, Hr. cbn [py_str]. unfold has_id. rewrite Ht. case_bool_decide; naive_solver.
Qed.

Lemma any_string p k t l : obj_get p k = Some (JStr t) ->
  condition_holds p (mkCond k (MatchAny (map JStr l))) = true <-> t ∈ l.
Proof.
  intros E. unfold condition_holds. cbn. rewrite E. cbn. rewrite existsb_exists, list_elem_of_In. split.
  - intros (v & (u & <- & Hu)%in_map_iff & Hs). cbn in Hs. apply bool_decide_eq_true in Hs as ->. done.
  - intros Hin. exists (JStr t). split; [by apply in_map|]. cbn. by apply bool_decide_true.
Qed.

Lemma lookup_filter_spec field wanted filters p :
  payload_ok p -> field ∈ VERIFIABLE_ID_FIELDS -> plain_filter filters ->
  (forall k, is_Some (obj_get filters k) -> k ∈ SCOPE_FIELDS) ->
  selects (lookup_filter field wanted filters) p = true <->
  (exists t, obj_get p field = Some (JStr t) /\ t ∈ wanted) /\ in_scope filters p.
Proof.
  intros [Hs _] Hf [Hn Hv] Hk. assert (field ∈ STRING_FIELDS) as Hf'.
  { unfold VERIFIABLE_ID_FIELDS in Hf. unfold STRING_FIELDS. set_solver. }
  destruct (Hs field Hf') as [t Ht]. unfold selects, lookup_filter. cbn [f_must f_must_not forallb].
  rewrite andb_true_r, andb_true_iff, (any_string _ _ _ _ Ht), py_sorted_perm, forallb_forall.
  assert (forall k u, obj_get filters k = Some (JStr u) ->
    mkCond k (MatchValue (JStr u)) ∈ omap (fun kv => if bool_decide (kv.1 ∈ ALLOWED_CALLER_FILTERS) && negb (is_none kv.2)
      then Some (mkCond kv.1 (MatchValue kv.2)) else None) filters) as Hin.
  { intros k u Hu. apply list_elem_of_omap. exists (k, JStr u). split.
    - clear -Hu. induction filters as [|[k' v] f IH]; cbn in *; [done|].
      destruct (decide (k = k')) as [<-|]; [injection Hu as ->; by left|right; auto].
    - cbn. rewrite bool_decide_true; [done|].
      assert (k ∈ SCOPE_FIELDS) as Hks by (apply Hk; by eexists). unfold SCOPE_FIELDS in Hks.
      unfold ALLOWED_CALLER_FILTERS. set_solver. }
  split.
  - intros [Hw Hall]. split; [by exists t|]. intros k u Hks Hu _.
    destruct (Hs k) as [u' Hu']; [unfold SCOPE_FIELDS in Hks; unfold STRING_FIELDS; set_solver|].
    specialize (Hall _ (proj1 (list_elem_of_In _ _) (Hin k u Hu))).
    apply (condition_string _ _ _ _ Hu') in Hall as ->. done.
  - intros [(t' & Ht' & Hw) Hsc]. split; [congruence|]. intros c Hc%list_elem_of_In.
    apply list_elem_of_omap in Hc as ([k v] & Hkv & Hc). cbn in Hc. case_match; [|done]. injection Hc as <-.
    apply (obj_get_elem _ _ _ Hn) in Hkv. destruct (Hv _ _ Hkv) as (u & -> & Hu).
    apply (condition_string _ _ u u); [|done]. apply Hsc; [|done|done]. apply Hk. by eexists.
Qed.

Lemma qdrant_lookup_spec field values f s :
  plain_filter f -> (forall k, is_Some (obj_get f k) -> k ∈ SCOPE_FIELDS) -> store_ok s ->
  match qdrant_lookup_ids field values f s with
  | (Ok l, s') => s' = s /\ forall x,
      (x ∈ lk_present l <->
       x ∈ nonblank values /\ exists p, p ∈ qdrant_points s /\ has_id field x p /\ in_scope f p) /\
      (x ∈ lk_retrievable l <->
       x ∈ nonblank values /\ exists p, p ∈ qdrant_points s /\ has_id field x p /\ in_scope f p /\ retrievable p = true)
  | (Raise _, s') => s' = s
  end.
Proof.
  intros Hf Hk Hok. unfold qdrant_lookup_ids. unfold bind at 1, lift.
  destruct (verify_targets field values) as [wanted|] eqn:E; [|done].
  assert (field ∈ VERIFIABLE_ID_FIELDS) as Hfield by (unfold verify_targets in E; by case_bool_decide).
  destruct wanted as [|w ws].
  { split; [done|]. cbn. intros x. rewrite <- (verify_targets_elem _ _ _ x E). set_solver. }
  set (wanted := w :: ws) in *. unfold bind at 1. cbn [gets]. unfold bind at 1.
  set (qf := lookup_filter field wanted f).
  pose proof (scroll_loop_spec (S (length (q_points (qs_client s)))) qf None field wanted [] s) as Hl.
  rewrite law_q_rest in Hl. specialize (Hl ltac:(apply Nat.lt_succ_r, filter_length_le)).
  destruct (scroll_loop _ qf None field wanted [] s) as [[found|e] s']; [|by destruct Hl].
  destruct Hl as [-> ->]. split; [done|]. cbn [app lk_present lk_retrievable]. intros x.
  unfold points_ok in Hok. cbn in Hok. unfold points_ok in Hok. rewrite Forall_forall in Hok.
  assert (forall y b, (y, b) ∈ found_in field wanted (List.filter (fun p => selects qf (pt_payload p)) (q_points (qs_client s)))
    <-> y ∈ nonblank values /\ exists p, p ∈ qdrant_points s /\ has_id field y p /\ in_scope f p /\ b = retrievable p) as Hfound.
  { intros y b. unfold found_in. rewrite list_elem_of_omap, <- (verify_targets_elem _ _ _ y E). split.
    - intros (r & (z & <- & [Hz Hsel]%filter_In)%list_elem_of_In%in_map_iff & Hr). apply list_elem_of_In in Hz.
      apply record_found_spec in Hr as (Hy & Hid & ->); [|apply Hok, Hz|done].
      apply lookup_filter_spec in Hsel as [_ Hsc]; [|apply Hok, Hz|done..].
      split; [done|]. exists (pt_payload z). rewrite qdrant_points_elem. eauto 10.
    - intros (Hy & p & (z & Hz & ->)%qdrant_points_elem & Hid & Hsc & ->).
      exists (projected (SCROLL_FIELDS field) (pt_payload z)). split.
      + apply list_elem_of_In, in_map_iff. exists z. split; [done|]. apply filter_In. split; [by apply list_elem_of_In|].
        apply lookup_filter_spec; [apply Hok, Hz|done..|]. split; [|done].
        destruct (Hok z Hz) as [[Hs _] _]. destruct (Hs field) as [t Ht];
          [unfold VERIFIABLE_ID_FIELDS in Hfield; unfold STRING_FIELDS; set_solver|].
        exists t. split; [done|]. destruct Hid as (v & Hv & _ & Hx). rewrite Ht in Hv. injection Hv as <-.
        cbn in Hx. by subst y.
      + apply record_found_spec; [apply Hok, Hz|done|done]. }
  rewrite !sorted_set_elem, !list_elem_of_fmap. split; split.
  - intros ([y b] & -> & (? & p & ?)%Hfound). naive_solver.
  - intros (Hx & p & Hp & Hid & Hsc). exists (x, retrievable p). split; [done|]. apply Hfound. eauto 10.
  - intros ([y b] & -> & [Hin Hb]%list_elem_of_In%filter_In). apply list_elem_of_In, Hfound in Hin as (? & p & ? & ? & ? & ->).
    cbn in *. eauto 10.
  - intros (Hx & p & Hp & Hid & Hsc & Hr). exists (x, true). split; [done|].
    apply list_elem_of_In, filter_In. split; [|done]. apply list_elem_of_In, Hfound. eauto 10.
Qed.

(** *** Instances *)

Lemma on_client_keeps {A} (c : eff C A) s :
  keeps_points c -> q_points (qs_client (on_client c s).2) = q_points (qs_client s) /\
    qs_name (on_client c s).2 = qs_name s.
Proof.
  intros Hc. unfold on_client. specialize (Hc (qs_client s)). by destruct (c (qs_client s)).
Qed.

Definition same_points (s s' : qdrant_store C) : Prop :=
  q_points (qs_client s') = q_points (qs_client s) /\ qs_name s' = qs_name s.
#[local] Instance same_points_preorder : PreOrder same_points.
Proof. split; [by intros s|]. intros s1 s2 s3 [? ?] [? ?]. split; congruence. Qed.

Lemma reads_keep {A} (c : eff C A) Q : client_reads c Q -> within same_points (on_client c).
Proof.
  intros Hc s. pose proof (on_client_reads c Q s Hc) as Hr.
  destruct (on_client c s) as [[a|e] s']; [destruct Hr as [-> _]|subst s']; reflexivity.
Qed.

Lemma qdrant_initialize_keeps : within same_points qdrant_initialize.
Proof.
  assert (forall A (c : eff C A), keeps_points c -> within same_points (on_client c)) as Hk.
  { intros A c Hc s. by apply on_client_keeps. }
  unfold qdrant_initialize.
  apply within_bind; [typeclasses eauto|apply within_gets; typeclasses eauto|intros name].
  apply within_bind; [typeclasses eauto|apply within_gets; typeclasses eauto|intros size].
  apply within_bind; [typeclasses eauto|eapply reads_keep, law_q_collections|intros existing].
  apply within_bind; [typeclasses eauto| |intros _].
  - case_match; [apply Hk, law_q_create|].
    apply within_bind; [typeclasses eauto|eapply reads_keep, law_q_vector_names|intros names].
    case_match; [apply within_ret|apply within_raise]; typeclasses eauto.
  - apply within_bind; [typeclasses eauto| |intros _; apply within_ret; typeclasses eauto].
    apply within_iterM; [typeclasses eauto|]. intros field. apply Hk, law_q_index.
Qed.

Lemma qdrant_initialize_name s name s' : qdrant_initialize s = (Ok name, s') -> name = qs_name s.
Proof.
  assert (forall A B (c : eff (qdrant_store C) A) (k : A -> eff (qdrant_store C) B) x b x',
    bind c k x = (Ok b, x') -> exists a x1, k a x1 = (Ok b, x')) as Hb.
  { intros A B c k x b x'. unfold bind. destruct (c x) as [[a|] x1]; [eauto|done]. }
  unfold qdrant_initialize. unfold bind at 1, gets at 1. intros Hi.
  do 4 (apply Hb in Hi as (? & ? & Hi)). by injection Hi.
Qed.

Lemma qdrant_count_reads s :
  match qdrant_count s with
  | (Ok n, s') => s' = s /\ n = zlen (q_points (qs_client s))
  | (Raise _, s') => s' = s
  end.
Proof.
  unfold qdrant_count, bind, attempt.
  pose proof (on_client_reads (q_count None) _ s law_q_count_all) as H1'.
  destruct (on_client (q_count None) s) as [[n|e] s']; [exact H1'|]. subst s'.
  pose proof (on_client_reads q_points_count _ s law_q_points_count) as H2'.
  assert (match catch (on_client q_points_count)
            (fun e' => match e' with Cancelled => None | _ => Some (raise e) end) s with
          | (Ok n, s') => s' = s /\ n = zlen (q_points (qs_client s))
          | (Raise _, s') => s' = s end) as Hc.
  { unfold catch. destruct (on_client q_points_count s) as [[n|e'] s']; [exact H2'|]. subst s'. by destruct e'. }
  by destruct e.
Qed.

#[export] Instance qdrant_scoped : ScopedStore (qdrant_store C).
Proof.
  split.
  - intros s Hs. pose proof (qdrant_initialize_keeps s) as [Hp Hn]. pose proof (qdrant_initialize_name s) as Hname.
    cbn [st_initialize qdrant_ops points qdrant_view store_ok collection_name]. unfold qdrant_points.
    rewrite Hp, Hn. split; [done|]. split; [exact Hs|]. split; [done|].
    destruct (qdrant_initialize s) as [[n|] s']; [|done]. by eapply Hname.
  - intros s _. pose proof (qdrant_count_reads s) as Hc. cbn [st_count qdrant_ops points qdrant_view].
    unfold qdrant_points, zlen in *. rewrite length_map. exact Hc.
  - intros v k f ip iv s Hs. pose proof (qdrant_search_spec v k f ip iv s Hs) as Hq. cbn [st_search qdrant_ops].
    destruct (qdrant_search_chunks v k f ip iv s) as [[rs|] s']; [|done]. destruct Hq as (? & Hh & ?).
    split; [done|]. split; [|done]. eapply Forall_impl; [exact Hh|]. intros r (p & ? & _ & ?). by exists p.
  - intros q k f ip s Hs. pose proof (qdrant_search_sparse_spec q k f ip s Hs) as Hq. cbn [st_search_sparse qdrant_ops].
    destruct (qdrant_search_sparse q k f ip s) as [[rs|] s']; [|done]. destruct Hq as (? & Hh & ?).
    split; [done|]. split; [|done]. eapply Forall_impl; [exact Hh|]. intros r (p & ? & _ & ?). by exists p.
  - intros field values f Hf Hk s Hs. exact (qdrant_lookup_spec field values f s Hf Hk Hs).
  - intros cs s Hs. cbn [st_upsert qdrant_ops store_ok qdrant_view collection_name]. unfold qdrant_upsert_chunks.
    destruct cs as [|c cs].
    { cbn. split; [done|]. split; [split; by left|]. split; [|done]. intros pre c post. by destruct pre. }
    set (all := c :: cs). unfold bind at 1. cbn [gets]. unfold bind at 1, lift.
    destruct (build_points (qs_vector_size s) all) as [ps|] eqn:E; [|split; [split; by left|done]].
    pose proof (build_points_spec _ _ _ E) as Hps. unfold bind, on_client.
    pose proof (law_q_upsert ps (qs_client s)) as Hu. destruct (q_upsert ps (qs_client s)) as [[[]|e] x].
    + destruct (qdrant_written all ps s x Hps Hs (upserted_partly _ _ _ Hu)) as [Hw Hok]. cbn.
      split; [unfold zlen; by rewrite (Forall2_length _ _ _ Hps)|]. split; [done|]. split; [|done].
      intros pre c' post Hc Hpost. rewrite Hc in Hps.
      apply Forall2_app_inv_l in Hps as (pre' & rest & Hpre & Hrest & ->).
      apply Forall2_cons_inv_l in Hrest as (y & post' & (Hy1 & Hy2 & Hy3 & Hy4) & Hpost' & ->).
      exists (pt_payload y). split; [|done]. apply qdrant_points_elem. exists y. split; [|done]. apply Hu. left.
      exists pre', post'. split; [done|]. clear -Hpost Hpost' Hy3. cbn in Hpost. revert Hpost.
      induction Hpost' as [|c1 z1 l l' (_ & _ & Hz & _) Hl IH]; intros Hpost; [by apply Forall_nil|].
      apply Forall_cons in Hpost as [Hne Hpost]. constructor; [congruence|auto].
    + destruct (qdrant_written all ps s x Hps Hs Hu) as [Hw Hok]. done.
  - intros f s Hs. cbn [st_delete qdrant_ops store_ok qdrant_view collection_name]. unfold qdrant_delete_chunks.
    unfold bind at 1, lift. destruct (build_delete_filter f) as [qf|] eqn:E; [|split; [by left|done]]. unfold bind at 1.
    pose proof (on_client_reads (q_count (Some qf)) _ s (law_q_count qf)) as Hc.
    destruct (on_client (q_count (Some qf)) s) as [[n|e] s']; [|subst s'; split; [by left|done]]. destruct Hc as [-> ->].
    destruct (Z.eqb_spec (zlen (List.filter (fun p => selects qf (pt_payload p)) (q_points (qs_client s)))) 0) as [E0|E0].
    + cbn. split; [|done]. destruct s as [nm sz x]. rewrite <- E0. eapply (unselected_deleted f qf (mkQdrant nm sz x) x); try done.
      unfold unselected. by rewrite filter_unselected_none.
    + unfold bind, on_client. pose proof (law_q_delete qf (qs_client s)) as Hd.
      destruct (q_delete qf (qs_client s)) as [[[]|e] x]; cbn.
      * split; [by eapply unselected_deleted|]. split; [|done]. rewrite Hd. by apply points_ok_unselected.
      * destruct Hd as [Hd|Hd].
        -- split; [left; cbn; unfold qdrant_points; cbn; by rewrite Hd|]. by rewrite Hd.
        -- split; [right; eexists; by eapply unselected_deleted|]. split; [|done].
           rewrite Hd. by apply points_ok_unselected.
Qed.

#[export] Instance qdrant_safe : SafeStore (qdrant_store C).
Proof.
  split.
  - intros v k f ip iv s Hs. pose proof (qdrant_search_spec v k f ip iv s Hs) as Hq. cbn [st_search qdrant_ops].
    destruct (qdrant_search_chunks v k f ip iv s) as [[rs|] s']; [|done]. by destruct Hq as (? & ? & ?).
  - intros q k f ip s Hs. pose proof (qdrant_search_sparse_spec q k f ip s Hs) as Hq. cbn [st_search_sparse qdrant_ops].
    destruct (qdrant_search_sparse q k f ip s) as [[rs|] s']; [|done]. by destruct Hq as (? & ? & ?).
Qed.

(** As far as [uuid5] has no collision, the identifiers of points separate tenants. *)
#[export] Instance qdrant_tenant_keys `{!Inj (=) (=) uuid5} : TenantKeys (qdrant_store C).
Proof.
  intros p c t t' Hp Hc Ht Ht' E.
  change (uuid5 (mem_point_key p) = uuid5 (mem_point_key c)) in E. apply (inj uuid5) in E.
  by eapply mem_key_tenant.
Qed.
End Laws.
