(* ===== verification/VectorService.v ===== *)
(** * Domain operations of the vector service

    [src/backend/vector_db/app/services/vector_service.py], lines 46 to 465: scoping of
    filters and chunks by the identity bound to the request, upsert with its review
    outcomes, dense and hybrid search, deletion, verification of identifiers and the
    collection metrics, over any store of the interface.  The two threads of a hybrid
    search only read the store, so the model runs one after the other; the permits they
    take are counted. *)

From Stdlib Require Import QArith.
From stdpp Require Import base strings sets list.
From S2P Require Import Prelude PyValue Base64 Auth ContextAssembler RankFusion VectorStore ChunkStore SparseRetrieval.

Local Open Scope string_scope.
Local Open Scope list_scope.
Local Open Scope Z_scope.

(** ** Exceptions *)

Definition InvalidVectorError (message : text) : py_exn := PyError (lit "InvalidVectorError") message.
Definition VectorStoreError (message : text) : py_exn := PyError (lit "VectorStoreError") message.
Definition RuntimeError (message : text) : py_exn := PyError (lit "RuntimeError") message.

(** [AuthError], the encoding errors and the validation errors of pydantic are value errors;
    [InvalidVectorError] is not. *)
Definition is_value_error (e : py_exn) : bool :=
  is_class "ValueError" e || is_class "AuthError" e || is_class "UnicodeEncodeError" e
  || is_class "pydantic.ValidationError" e.

(** ** State *)

(** A message the producer accepted: topic, key and envelope. *)
Record sent_message := mkSent { sm_topic : json; sm_key : option text; sm_envelope : obj }.

Record vworld (St : Type) := mkVW {
  vw_store : St; vw_tick : nat; vw_sent : list sent_message; vw_slots : Z; vw_closed : bool
}.
Arguments mkVW {St}.
Arguments vw_store {St}.
Arguments vw_tick {St}.
Arguments vw_sent {St}.
Arguments vw_slots {St}.
Arguments vw_closed {St}.

#[export] Instance eta_vworld St : Eta (vworld St) := fun w =>
  mkVW (vw_store w) (vw_tick w) (vw_sent w) (vw_slots w) (vw_closed w).

Definition on_store {St A} (c : eff St A) : eff (vworld St) A := fun w =>
  let '(o, s) := c (vw_store w) in (o, w {{ vw_store := s }}).

Section Service.
Context {St : Type} `{PyText} `{Numpy} `{IVectorStore St}.

(** The contextvars of the request and [INTERNAL_AUTH_REQUIRED]. *)
Context (auth_required : bool) (context : obj).

Definition identity_ : eff (vworld St) (option auth_identity) :=
  lift (identity_from_context auth_required context).

Definition privileged (i : auth_identity) : bool := identity_is_admin i || identity_is_service i.

(** ** Scope *)

Definition scope_filters (identity : option auth_identity) (filters : obj) : obj :=
  match identity with
  | None => filters
  | Some i =>
      let scoped := obj_set filters "tenant_id" (JStr (ai_tenant_id i)) in
      if identity_is_admin i
      then obj_pop (obj_set scoped "owner_admin_id" (JStr (ai_user_id i))) "owner_user_id"
      else if identity_is_service i then scoped
      else obj_pop (obj_set scoped "owner_user_id" (JStr (ai_user_id i))) "owner_admin_id"
  end.

Definition scoped_filters (filters : obj) : eff (vworld St) obj :=
  i <-- identity_;
  ret (scope_filters i filters).

Definition owned_chunk (i : auth_identity) (source : obj) : outcome py_exn obj :=
  let supplied_tenant := get source "tenant_id" in
  if jtrue supplied_tenant && negb (py_eqb supplied_tenant (JStr (ai_tenant_id i)))
  then Raise (InvalidVectorError (lit "Cross-tenant chunk write denied"))
  else
    let chunk := obj_set source "tenant_id" (JStr (ai_tenant_id i)) in
    if identity_is_admin i then
      if is_none (get chunk "owner_admin_id") || py_eqb (get chunk "owner_admin_id") (JStr (ai_user_id i))
      then Ok (obj_setdefault (obj_set chunk "owner_admin_id" (JStr (ai_user_id i)))
                 "owner_user_id" (JStr (ai_user_id i)))
      else Raise (InvalidVectorError (lit "Chunk is outside the administrator scope"))
    else if identity_is_service i then
      if jtrue (get chunk "owner_user_id") && jtrue (get chunk "owner_admin_id") then Ok chunk
      else Raise (InvalidVectorError (lit "Service chunk writes require explicit ownership"))
    else
      let chunk := obj_set chunk "owner_user_id" (JStr (ai_user_id i)) in
      Ok (obj_set chunk "owner_admin_id"
            (match ai_admin_id i with
             | Some a => JStr a ||| JStr (ai_user_id i)
             | None => JStr (ai_user_id i)
             end)).

Fixpoint own_all (i : auth_identity) (chunks : list obj) : outcome py_exn (list obj) :=
  match chunks with
  | [] => Ok []
  | c :: rest =>
      let* o := owned_chunk i c in
      let* os := own_all i rest in
      Ok (o :: os)
  end.

Definition owned_chunks (chunks : list obj) : eff (vworld St) (list obj) :=
  i <-- identity_;
  match i with
  | None => ret chunks
  | Some i => lift (own_all i chunks)
  end.

Definition require_admin_for_review (review_outcome : text) : eff (vworld St) unit :=
  i <-- identity_;
  match i with
  | Some i =>
      if negb (bool_decide (review_outcome = lit "none")) && negb (privileged i)
      then raise (InvalidVectorError (lit "Administrator role required for review decisions"))
      else ret tt
  | None => ret tt
  end.

(** The three [except] clauses around a call of the store. *)
Definition store_errors {A} (prefix : text) (e : py_exn) : option (eff (vworld St) A) :=
  if is_class "AuthError" e then None
  else if is_value_error e then Some (raise (InvalidVectorError (exn_text e)))
  else if is_exception e then Some (raise (VectorStoreError (prefix ++ exn_text e)))
  else None.

(** ** Deletion *)

Definition delete_chunks (filters : obj) : eff (vworld St) Z :=
  i <-- identity_;
  match i with
  | Some i =>
      if negb (privileged i)
      then raise (InvalidVectorError (lit "Administrator role required for chunk deletion"))
      else ret tt
  | None => ret tt
  end ;;;
  catch (scoped <-- scoped_filters filters;
         on_store (st_delete scoped))
        (store_errors (lit "Failed to delete chunks: ")).

(** ** Upsert *)

Record upsert_result := mkUpsert {
  ur_collection : text; ur_upserted : Z; ur_deleted : Z;
  ur_document_id : json; ur_file_id : json; ur_review_outcome : text
}.

Definition mark_reviewed (status : string) (chunks : list obj) : list obj :=
  map (fun c => obj_set c "review_status" (s_ status)) chunks.

(** Chunks after the review outcome, and how many points it deleted. *)
Definition apply_review (review_outcome : text) (target_filters : option obj) (prepared : list obj)
    : eff (vworld St) (list obj * Z) :=
  if bool_decide (review_outcome = lit "accept_as_is")
  then ret (mark_reviewed "accepted_with_risk" prepared, 0)
  else if bool_decide (review_outcome = lit "remove_problematic_text") then
    match target_filters with
    | Some ((_ :: _) as filters) =>
        deleted_count <-- delete_chunks filters;
        ret (mark_reviewed "sanitized" prepared, deleted_count)
    | _ => raise (InvalidVectorError (lit "target_filters is required for remove_problematic_text"))
    end
  else if bool_decide (review_outcome = lit "none") then ret (prepared, 0)
  else raise (InvalidVectorError (lit "Unsupported review_outcome: " ++ review_outcome)).

Definition upsert_chunks (chunks : list obj) (review_outcome : text) (target_filters : option obj)
    : eff (vworld St) upsert_result :=
  match chunks with
  | [] => raise (InvalidVectorError (lit "chunks is required"))
  | _ =>
      require_admin_for_review review_outcome;;;
      owned <-- owned_chunks chunks;
      reviewed <-- apply_review review_outcome target_filters owned;
      let '(prepared, deleted_count) := reviewed in
      upserted_count <-- catch (on_store (st_upsert prepared)) (store_errors (lit "Failed to upsert chunks: "));
      name <-- gets (fun w => collection_name (vw_store w));
      let first_chunk := default [] (head prepared) in
      ret (mkUpsert name upserted_count deleted_count (get first_chunk "document_id")
             (get first_chunk "file_id") review_outcome)
  end.

(** ** Search *)

(** [_submit_hybrid_arm]: a permit, then the pool; a refused submission gives the permit
    back.  What is submitted runs when the results are awaited and then releases it. *)
Definition submit_hybrid_arm : eff (vworld St) unit :=
  modify (fun w => w {{ vw_slots ::= Z.pred }});;;
  closed <-- gets vw_closed;
  if closed : bool then
    modify (fun w => w {{ vw_slots ::= Z.succ }});;;
    raise (RuntimeError (lit "cannot schedule new futures after shutdown"))
  else ret tt.

Definition await_arm {A} (c : eff St A) : eff (vworld St) (outcome py_exn A) :=
  o <-- attempt (on_store c);
  modify (fun w => w {{ vw_slots ::= Z.succ }});;;
  ret o.

Definition arm_result {A} (arm : string) (o : outcome py_exn A) : eff (vworld St) A :=
  match o with
  | Ok a => ret a
  | Raise e => if is_exception e
               then raise (RuntimeError (lit arm ++ lit " hybrid search failed: " ++ exn_text e))
               else raise e
  end.

Definition search_hybrid_arms (query : list Q) (query_sparse : list Z * list Q)
    (dense_candidate_k sparse_candidate_k : Z) (filters : obj) (include_payload include_vector : bool)
    : eff (vworld St) (list obj * list obj) :=
  submit_hybrid_arm;;;
  submit_hybrid_arm;;;
  dense <-- await_arm (st_search query dense_candidate_k filters include_payload include_vector);
  sparse <-- await_arm (st_search_sparse query_sparse sparse_candidate_k filters include_payload);
  dense <-- arm_result "dense" dense;
  sparse <-- arm_result "sparse" sparse;
  ret (dense, sparse).

Record search_request := mkSearch {
  sr_query_vector : list Q; sr_top_k : Z; sr_filters : obj;
  sr_include_payload : bool; sr_include_vector : bool;
  sr_query_sparse : option (list Z * list Q); sr_strategy : text;
  sr_dense_k : Z; sr_sparse_k : Z; sr_rrf_k : Z
}.

Definition search_body (r : search_request) : eff (vworld St) (list obj) :=
  query <-- lift (match np_asarray (JArr (map JFloat (sr_query_vector r))) with
                  | Some q => Ok q
                  | None => ValueError (lit "could not convert to float")
                  end);
  filters <-- scoped_filters (sr_filters r);
  if bool_decide (sr_strategy r = lit "hybrid") then
    match sr_query_sparse r with
    | None => raise (InvalidVectorError (lit "query_sparse is required for hybrid retrieval"))
    | Some query_sparse =>
        arms <-- search_hybrid_arms query query_sparse (sr_dense_k r) (sr_sparse_k r) filters
                   (sr_include_payload r) (sr_include_vector r);
        lift (reciprocal_rank_fusion arms.1 arms.2 (sr_top_k r) (sr_rrf_k r))
    end
  else if bool_decide (sr_strategy r = lit "dense") then
    on_store (st_search query (sr_top_k r) filters (sr_include_payload r) (sr_include_vector r))
  else raise (InvalidVectorError (lit "Unsupported retrieval_strategy: " ++ sr_strategy r)).

Definition search_chunks (r : search_request) : eff (vworld St) (list obj) :=
  match sr_query_vector r with
  | [] => raise (InvalidVectorError (lit "query_vector is required"))
  | _ => catch (search_body r) (store_errors (lit "Failed to search chunks: "))
  end.

(** ** Verification of identifiers *)

Definition verify_field (field : string) (values : list text) (scope : obj) : eff (vworld St) obj :=
  match values with
  | [] => ret [("present", JArr []); ("retrievable", JArr []); ("missing", JArr [])]
  | _ =>
      found <-- catch (on_store (st_lookup field values scope))
                  (store_errors (lit "Failed to verify " ++ lit field ++ lit " values: "));
      ret [("present", JArr (map JStr (sorted_set (lk_present found))));
           ("retrievable", JArr (map JStr (sorted_set (lk_retrievable found))));
           ("missing", JArr (map JStr (sorted_set
              (List.filter (fun v => negb (bool_decide (v ∈ lk_present found))) values))))]
  end.

Definition verify_chunk_ids (chunk_ids file_ids : list text) : eff (vworld St) obj :=
  let chunks := nonblank chunk_ids in
  let files := nonblank file_ids in
  match chunks, files with
  | [], [] => raise (InvalidVectorError (lit "chunk_ids, file_ids, or both are required"))
  | _, _ =>
      scope <-- scoped_filters [];
      verified_chunks <-- verify_field "chunk_id" chunks scope;
      verified_files <-- verify_field "file_id" files scope;
      name <-- gets (fun w => collection_name (vw_store w));
      ret [("collection_name", JStr name); ("chunk_ids", JObj verified_chunks);
           ("file_ids", JObj verified_files)]
  end.

(** ** Collection *)

Definition initialize_collection : eff (vworld St) text := on_store st_initialize.

Definition collection_metrics : eff (vworld St) obj :=
  i <-- identity_;
  match i with
  | Some i =>
      if negb (privileged i)
      then raise (InvalidVectorError (lit "Administrator role required for vector metrics"))
      else ret tt
  | None => ret tt
  end ;;;
  name <-- gets (fun w => collection_name (vw_store w));
  vectors <-- catch (on_store st_count)
                (fun e => if is_exception e
                          then Some (raise (VectorStoreError (lit "Failed to count vectors: " ++ exn_text e)))
                          else None);
  ret [("scope", s_ "all_tenants");
       ("collections", JArr [JObj [("collection", JStr name); ("vectors", JInt vectors)]])].

(** [close] shuts the pool down; submitted arms finish first. *)
Definition close : eff (vworld St) unit := modify (fun w => w {{ vw_closed := true }}).
End Service.

(** ** A small chunk store

    Concrete instances of what the vector service gets from libraries, and a store with
    chunks of two tenants, for the examples of the files that follow. *)

(** Lists of numbers as vectors; the norm is the sum of squares. *)
Definition number (v : json) : option Q :=
  match v with JFloat q => Some q | JInt n => Some (inject_Z n) | _ => None end.

Fixpoint dot (a b : list Q) : option Q :=
  match a, b with
  | [], [] => Some 0%Q
  | x :: a', y :: b' => match dot a' b' with Some d => Some (x * y + d)%Q | None => None end
  | _, _ => None
  end.

Definition list_numpy : Numpy := {|
  np_asarray := fun v => match v with JArr l => mapM number l | _ => None end;
  np_norm := fun a => default 0%Q (dot a a);
  np_dot := dot
|}.

(** One token per text. *)
Definition whole_lexical : Lexical := {|
  token_matches := fun t => match t with [] => [] | _ => [t] end;
  blake2b_int := fun b => foldl (fun n c => (31 * n + c) mod 1000003) 7 b;
  log1p := fun q => q; math_sqrt := fun q => q
|}.

Definition chunk_of (tenant user admin file id txt : string) (allowed : bool) (x y : Q) : obj :=
  [("file_id", s_ file); ("document_id", s_ "d1"); ("chunk_id", s_ id); ("chunk_index", JInt 0);
   ("chunk_version", JInt 1); ("text", s_ txt); ("text_preview", s_ txt); ("source_name", s_ "notes.txt");
   ("retrieval_allowed", JBool allowed); ("review_status", s_ "clean"); ("created_at", s_ "2026-01-01T00:00:00Z");
   ("tenant_id", s_ tenant); ("owner_user_id", s_ user); ("owner_admin_id", s_ admin);
   ("embedding", JArr [JFloat x; JFloat y])].

Definition demo_chunks : list obj :=
  [chunk_of "acme" "u1" "a1" "f1" "c1" "red" true 1 0;
   chunk_of "acme" "u1" "a1" "f1" "c2" "blue" false 1 0;
   chunk_of "acme" "u2" "a1" "f2" "c3" "red" true 1 0;
   chunk_of "umbrella" "u9" "a9" "f9" "c1" "red" true 1 0].

Section Demo.
#[local] Existing Instance ascii_text.
#[local] Existing Instance list_numpy.
#[local] Existing Instance whole_lexical.

Definition demo_store : mem_store := (mem_upsert_chunks demo_chunks (mkMem (lit "chunks") [])).2.

Lemma demo_store_ok : store_ok demo_store.
Proof.
  pose proof (mem_upsert_loop_ok demo_chunks []) as Hok. unfold demo_store, mem_upsert_chunks.
  cbn [mem_entries]. destruct (mem_upsert_loop demo_chunks []) as [o l]. apply Hok.
  split; [apply NoDup_nil_2|apply Forall_nil_2].
Qed.

Definition demo_vworld : vworld mem_store := mkVW demo_store 0 [] 8 false.

Example demo_store_size : zlen (points demo_store) = 4.
Proof. vm_compute. reflexivity. Qed.

Definition context_of (tenant user role : string) : obj :=
  [("tenant_id", s_ tenant); ("user_id", s_ user); ("role", s_ role)].

Definition demo_user : auth_identity := mkAuth (lit "acme") (lit "u1") (lit "user") None None None.
Definition demo_admin : auth_identity := mkAuth (lit "acme") (lit "a1") (lit "admin") None None None.

Definition demo_search (strategy : string) : search_request :=
  mkSearch [1%Q; 0%Q] 5 [] true false 
    (match sparse_lexical_vector (lit "red") MAX_SPARSE_TERMS with Ok v => Some v | Raise _ => None end)
    (lit strategy) 10 10 60.

(** The caller finds the one chunk that is its own and may be retrieved. *)
Example demo_search_runs :
  match (search_chunks true (context_of "acme" "u1" "user") (demo_search "hybrid") demo_vworld).1 with
  | Ok rs => map (fun r => get r "id") rs
  | Raise _ => []
  end = [s_ "acme:c1"].
Proof. vm_compute. reflexivity. Qed.
End Demo.
