(* ===== verification/VectorSafety.v ===== *)
(** * Safety of the vector service

    What the service of [VectorService] guarantees over any store that keeps the laws of
    [VectorStore]: searches return retrievable chunks of the caller and change nothing,
    writes carry the ownership of the caller, deletions stay in its scope, verification
    answers exactly for the caller's own chunks, and no sequence of requests touches the
    chunks of another tenant. *)

From Stdlib Require Import QArith.
From stdpp Require Import base strings sets list.
From S2P Require Import Prelude PyValue Base64 Auth ContextAssembler RankFusion SparseRetrieval VectorStore ChunkStore VectorService.

Local Open Scope string_scope.
Local Open Scope list_scope.
Local Open Scope Z_scope.

(** ** Operations that only read *)

Section Reads.
Context {St : Type} `{StoreView St}.

Definition vreads {A} (c : eff (vworld St) A) (Q : vworld St -> A -> Prop) : Prop :=
  forall w, store_ok (vw_store w) ->
    match c w with (Ok a, w') => w' = w /\ Q w a | (Raise _, w') => w' = w end.

Lemma vreads_ret {A} (a : A) (Q : vworld St -> A -> Prop) : (forall w, Q w a) -> vreads (ret a) Q.
Proof. intros HQ w _. split; [done|apply HQ]. Qed.

Lemma vreads_raise {A} e (Q : vworld St -> A -> Prop) : vreads (raise e) Q.
Proof. by intros w _. Qed.

Lemma vreads_lift {A} (o : outcome py_exn A) (Q : vworld St -> A -> Prop) :
  (forall a w, o = Ok a -> Q w a) -> vreads (lift o) Q.
Proof. intros HQ w _. cbn. destruct o; [|done]. split; [done|by apply HQ]. Qed.

Lemma vreads_gets {A} (f : vworld St -> A) (Q : vworld St -> A -> Prop) :
  (forall w, Q w (f w)) -> vreads (gets f) Q.
Proof. intros HQ w _. split; [done|apply HQ]. Qed.

Lemma vreads_bind {A B} (c : eff (vworld St) A) (k : A -> eff (vworld St) B) R Q :
  vreads c R -> (forall a, vreads (k a) (fun w b => R w a -> Q w b)) -> vreads (bind c k) Q.
Proof.
  intros Hc Hk w Hw. specialize (Hc w Hw). unfold bind. destruct (c w) as [[a|e] w']; [|done].
  destruct Hc as [-> HR]. specialize (Hk a w Hw). destruct (k a w) as [[b|e] w']; [|done]. naive_solver.
Qed.

Lemma vreads_catch {A} (c : eff (vworld St) A) h Q :
  vreads c Q -> (forall e k, h e = Some k -> vreads k Q) -> vreads (catch c h) Q.
Proof.
  intros Hc Hh w Hw. specialize (Hc w Hw). unfold catch. destruct (c w) as [[a|e] w']; [done|]. subst w'.
  destruct (h e) as [k|] eqn:E; [|done]. by apply (Hh _ _ E).
Qed.

Lemma vreads_impl {A} (c : eff (vworld St) A) (Q Q' : vworld St -> A -> Prop) :
  vreads c Q -> (forall w a, Q w a -> Q' w a) -> vreads c Q'.
Proof.
  intros Hc HQ w Hw. specialize (Hc w Hw). destruct (c w) as [[a|e] w']; [|done]. naive_solver.
Qed.

Lemma vworld_store_same (w : vworld St) : w {{ vw_store := vw_store w }} = w.
Proof. by destruct w. Qed.

Lemma vreads_on_store {A} (c : eff St A) (Q : St -> A -> Prop) :
  reads_ok c Q -> vreads (on_store c) (fun w a => Q (vw_store w) a).
Proof.
  intros Hc w Hw. specialize (Hc _ Hw). unfold on_store.
  destruct (c (vw_store w)) as [[a|e] s]; [destruct Hc as [-> ?]|subst s]; rewrite vworld_store_same; done.
Qed.

Lemma store_errors_raise {A} prefix e (k : eff (vworld St) A) :
  store_errors prefix e = Some k -> exists e', k = raise e'.
Proof. unfold store_errors. repeat case_match; intros [= <-]; eauto. Qed.

Lemma vreads_store_catch {A} prefix (c : eff (vworld St) A) Q :
  vreads c Q -> vreads (catch c (store_errors prefix)) Q.
Proof.
  intros Hc. apply vreads_catch; [done|]. intros e k [e' ->]%store_errors_raise. apply vreads_raise.
Qed.
End Reads.

(** ** Scope of an identity *)

(** The chunks an identity may see: its tenant, and within it the chunks of the
    administrator or of the user; a service sees the whole tenant. *)
Definition owns (i : auth_identity) (p : obj) : Prop :=
  obj_get p "tenant_id" = Some (JStr (ai_tenant_id i)) /\
  (identity_is_admin i = true -> obj_get p "owner_admin_id" = Some (JStr (ai_user_id i))) /\
  (privileged i = false -> obj_get p "owner_user_id" = Some (JStr (ai_user_id i))).

Lemma get_scope_tenant i f : obj_get (scope_filters (Some i) f) "tenant_id" = Some (JStr (ai_tenant_id i)).
Proof.
  cbn. destruct (identity_is_admin i); [|destruct (identity_is_service i)];
    rewrite ?obj_get_pop, ?decide_False, ?(obj_get_set_ne _ _ _ _) by done; by rewrite obj_get_set_eq.
Qed.

Lemma get_scope_admin i f : identity_is_admin i = true ->
  obj_get (scope_filters (Some i) f) "owner_admin_id" = Some (JStr (ai_user_id i)).
Proof. intros Ha. cbn. rewrite Ha, obj_get_pop, decide_False by done. apply obj_get_set_eq. Qed.

Lemma get_scope_user i f : privileged i = false ->
  obj_get (scope_filters (Some i) f) "owner_user_id" = Some (JStr (ai_user_id i)).
Proof.
  unfold privileged. intros [Ha Hs]%orb_false_iff. cbn. rewrite Ha, Hs.
  rewrite obj_get_pop, decide_False by done. apply obj_get_set_eq.
Qed.

Lemma scope_owns i f p :
  ai_tenant_id i <> [] -> ai_user_id i <> [] -> in_scope (scope_filters (Some i) f) p -> owns i p.
Proof.
  intros Ht Hu Hs. split; [|split].
  - apply Hs; [set_solver|apply get_scope_tenant|done].
  - intros Ha. apply Hs; [set_solver|by apply get_scope_admin|done].
  - intros Hp. apply Hs; [set_solver|by apply get_scope_user|done].
Qed.

(** The filter the service builds from an identity alone has no other condition. *)
Lemma scope_empty i :
  scope_filters (Some i) [] =
  ("tenant_id", JStr (ai_tenant_id i)) ::
  (if identity_is_admin i then [("owner_admin_id", JStr (ai_user_id i))]
   else if identity_is_service i then [] else [("owner_user_id", JStr (ai_user_id i))]).
Proof. cbn. by destruct (identity_is_admin i), (identity_is_service i). Qed.

Lemma scope_plain i : ai_tenant_id i <> [] -> ai_user_id i <> [] ->
  plain_filter (scope_filters (Some i) []) /\
  (forall k, is_Some (obj_get (scope_filters (Some i) []) k) -> k ∈ SCOPE_FIELDS).
Proof.
  intros Ht Hu. rewrite scope_empty. unfold SCOPE_FIELDS.
  destruct (identity_is_admin i); [|destruct (identity_is_service i)];
    (split; [split; [apply (bool_decide_unpack _); vm_compute; exact I|]|]); intros k.
  all: rewrite !obj_get_cons; repeat destruct (decide (k = _)) as [->|?]; cbn.
  all: try (intros v [= <-]; by eexists); try (intros _; set_solver).
  all: try (by intros v [=]); by intros [? [=]].
Qed.

Lemma scope_owns_iff i p : ai_tenant_id i <> [] -> ai_user_id i <> [] ->
  in_scope (scope_filters (Some i) []) p <-> owns i p.
Proof.
  intros Ht Hu. split; [by apply scope_owns|]. intros (H1 & H2 & H3) k t Hk Hg _. unfold privileged in H3.
  rewrite scope_empty in Hg. revert Hg.
  destruct (identity_is_admin i); [|destruct (identity_is_service i)]; rewrite !obj_get_cons;
    repeat destruct (decide (k = _)) as [->|?]; cbn; try done; intros [= <-]; auto.
Qed.

Lemma from_mapping_nonempty `{PyText} o i : from_mapping o = Ok i -> ai_tenant_id i <> [] /\ ai_user_id i <> [].
Proof.
  unfold from_mapping, new_identity. cbn [ai_tenant_id ai_user_id ai_role].
  repeat case_bool_decide; cbn; try done. intros [= <-]. done.
Qed.

Lemma context_nonempty `{PyText} required context i :
  identity_from_context required context = Ok (Some i) -> ai_tenant_id i <> [] /\ ai_user_id i <> [].
Proof.
  unfold identity_from_context. case_match; [by destruct required|].
  destruct (from_mapping context) as [j|] eqn:E; cbn; [|done]. intros [= <-].
  by eapply from_mapping_nonempty.
Qed.

Section Search.
Context {St : Type} `{PyText} `{Numpy} `{IVectorStore St} `{StoreView St}.
Context (auth_required : bool) (context : obj).

Abbreviation search_chunks := (VectorService.search_chunks auth_required context).

Lemma vreads_scoped i f (Q : vworld St -> obj -> Prop) :
  identity_from_context auth_required context = Ok i -> (forall w, Q w (scope_filters i f)) ->
  vreads (scoped_filters auth_required context f) Q.
Proof.
  intros Hi HQ w _. unfold scoped_filters, identity_, bind, lift, ret. rewrite Hi. split; [done|apply HQ].
Qed.

(** A hybrid search joins both arms and gives the permits back, on every path. *)
Lemma hybrid_reads q qs dk sk f ip iv (Q1 Q2 : St -> list obj -> Prop) :
  reads_ok (st_search q dk f ip iv) Q1 -> reads_ok (st_search_sparse qs sk f ip) Q2 ->
  vreads (search_hybrid_arms q qs dk sk f ip iv)
    (fun w arms => Q1 (vw_store w) arms.1 /\ Q2 (vw_store w) arms.2).
Proof.
  intros Hd Hs [s t out slots closed] Hw. cbn in Hw. specialize (Hd s Hw). specialize (Hs s Hw).
  unfold search_hybrid_arms, submit_hybrid_arm, await_arm, on_store, attempt, bind, modify, gets, ret, raise.
  destruct closed; unfold setf; cbn -[Z.succ Z.pred]; [f_equal; lia|].
  destruct (st_search q dk f ip iv s) as [[ds|e] s1]; [destruct Hd as [-> Hd]|subst s1]; cbn;
    destruct (st_search_sparse qs sk f ip s) as [[ss|e'] s2];
    [destruct Hs as [-> Hs]|subst s2|destruct Hs as [-> Hs]|subst s2];
    cbn -[Z.succ Z.pred]; unfold ret, raise; repeat case_match; simplify_eq;
    try (split; [|done]); f_equal; lia.
Qed.

(** Either arm or the dense search alone, then the fusion. *)
Lemma search_hits (ok : obj -> Prop) r i :
  identity_from_context auth_required context = Ok i ->
  (forall v k f ip iv, reads_ok (st_search v k f ip iv)
     (fun s rs => Forall (hit_in ok (points s) f ip) rs /\ (0 <= k -> zlen rs <= k))) ->
  (forall q k f ip, reads_ok (st_search_sparse q k f ip) (fun s rs => Forall (hit_in ok (points s) f ip) rs)) ->
  vreads (search_chunks r) (fun w rs =>
    Forall (hit_in ok (points (vw_store w)) (scope_filters i (sr_filters r)) (sr_include_payload r)) rs /\
    (0 <= sr_top_k r -> zlen rs <= sr_top_k r)).
Proof.
  intros Hi Hd Hs. unfold VectorService.search_chunks. destruct (sr_query_vector r) as [|x xs]; [apply vreads_raise|].
  apply vreads_store_catch. unfold search_body.
  eapply vreads_bind; [apply (vreads_lift _ (fun _ _ => True)); done|]. intros q.
  eapply vreads_bind; [apply (vreads_scoped i _ (fun _ f => f = scope_filters i (sr_filters r))); done|].
  intros f. case_bool_decide; [|case_bool_decide].
  - destruct (sr_query_sparse r) as [qs|]; [|apply vreads_raise].
    eapply vreads_bind; [apply (hybrid_reads _ _ _ _ _ _ _ _ _ (Hd _ _ _ _ _) (Hs _ _ _ _))|].
    intros [ds ss]. apply vreads_lift. intros rs w Hrs [[Hds _] Hss] -> _. cbn [fst snd] in *.
    apply rrf_candidates in Hrs as [Hf Hl]. split; [|done]. eapply Forall_impl; [exact Hf|].
    intros item (c & Hc & Hg). assert (Forall (hit_in ok (points (vw_store w))
      (scope_filters i (sr_filters r)) (sr_include_payload r)) (ds ++ ss)) as Hall by by apply Forall_app.
    rewrite Forall_forall in Hall. destruct (Hall c Hc) as (p & Hp & Hok & Hsc & Hpay & id & Hid).
    exists p. unfold get, get_or in *. rewrite !Hg by done. eauto 10.
  - eapply vreads_impl; [apply vreads_on_store, Hd|]. intros w rs [Hh Hl] -> _. done.
  - apply vreads_raise.
Qed.
End Search.

Section SafeSearch.
Context {St : Type} `{PyText} `{Numpy} `{IVectorStore St} `{StoreView St} `{!ScopedStore St} `{!SafeStore St}.

(** C10: search is safe.  Whatever the caller asks, dense or hybrid, a search leaves the
    store, the permits of the arms and everything else unchanged, also when it raises, and
    returns at most [top_k] results, each of which shows a stored chunk that may be
    retrieved and that belongs to the caller's tenant and, for a user or an administrator,
    to the caller. *)
Theorem search_safe auth_required context i r w :
  identity_from_context auth_required context = Ok (Some i) -> store_ok (vw_store w) ->
  (search_chunks auth_required context r w).2 = w /\
  match (search_chunks auth_required context r w).1 with
  | Ok rs =>
      (0 <= sr_top_k r -> zlen rs <= sr_top_k r) /\
      Forall (fun item => exists p, p ∈ points (vw_store w) /\ retrievable p = true /\ owns i p /\
                (sr_include_payload r = true -> get item "payload" = JObj p)) rs
  | Raise _ => True
  end.
Proof.
  intros Hi Hw. destruct (context_nonempty _ _ _ Hi) as [Ht Hu].
  pose proof (search_hits auth_required context (fun p => retrievable p = true) r (Some i) Hi) as Hs.
  specialize (Hs ltac:(intros v k f ip iv s Hok; pose proof (law_search v k f ip iv s Hok) as H1';
    pose proof (safe_search v k f ip iv s Hok) as H2'; destruct (st_search v k f ip iv s) as [[rs|] s']; naive_solver)).
  specialize (Hs safe_search_sparse w Hw).
  destruct (search_chunks auth_required context r w) as [[rs|e] w']; [|done]. cbn.
  destruct Hs as (-> & Hh & Hl). split; [done|]. split; [done|]. eapply Forall_impl; [exact Hh|].
  intros item (p & Hp & Hr & Hsc & Hpay & _). exists p. split; [done|]. split; [done|]. split; [|done].
  by eapply scope_owns.
Qed.
End SafeSearch.

(** ** Ownership of written chunks *)

Lemma has_key_is_some o k : has_key o k = true <-> is_Some (obj_get o k).
Proof. unfold has_key. destruct (obj_get o k); naive_solver. Qed.

Lemma owned_chunk_owns i c c' :
  owned_chunk i c = Ok c' -> owns i c'.
Proof.
  unfold owned_chunk, owns, privileged. case_match; [done|]. destruct (identity_is_admin i) eqn:Ha.
  - case_match; [|done]. intros [= <-]. unfold obj_setdefault. split; [|split; [|done]].
    + case_match; repeat (rewrite obj_get_set_ne by done); apply obj_get_set_eq.
    + intros _. case_match; [|rewrite obj_get_set_ne by done]; apply obj_get_set_eq.
  - destruct (identity_is_service i) eqn:Hs.
    + case_match; [|done]. intros [= <-]. split; [apply obj_get_set_eq|done].
    + intros [= <-]. split; [|split; [done|intros _]].
      * do 2 rewrite obj_get_set_ne by done. apply obj_get_set_eq.
      * rewrite obj_get_set_ne by done. apply obj_get_set_eq.
Qed.

Lemma own_all_owns i cs cs' : own_all i cs = Ok cs' -> Forall (owns i) cs'.
Proof.
  revert cs'. induction cs as [|c cs IH]; intros cs'; cbn; [intros [= <-]; by apply Forall_nil|].
  destruct (owned_chunk i c) as [o|] eqn:E; cbn; [|done]. destruct (own_all i cs) as [os|]; cbn; [|done].
  intros [= <-]. constructor; [by eapply owned_chunk_owns|by apply IH].
Qed.

Lemma mark_reviewed_owns i st cs : Forall (owns i) cs -> Forall (owns i) (mark_reviewed st cs).
Proof.
  intros Hcs. apply Forall_fmap. eapply Forall_impl; [exact Hcs|]. intros c (? & ? & ?). unfold owns.
  cbn. by rewrite !obj_get_set_ne.
Qed.

Lemma owns_stored i c p : stored_as c p -> owns i c -> owns i p.
Proof.
  intros Hs (Ht & Ha & Hu). unfold stored_as, KEPT_FIELDS in Hs.
  split; [apply Hs; [set_solver|done]|]. split; intros Hx; apply Hs; (set_solver || auto).
Qed.

Section Writes.
Context {St : Type} `{PyText} `{Numpy} `{IVectorStore St} `{StoreView St} `{!ScopedStore St}.
Context (auth_required : bool) (context : obj) (i : auth_identity).
Hypothesis Hid : identity_from_context auth_required context = Ok (Some i).

(** What a request of [i] may do to the store: points are added only with its ownership,
    and a point disappears only when [i] owns it or a chunk with its key was written. *)
Definition confined (s s' : St) : Prop :=
  store_ok s -> store_ok s' /\
  (forall p, p ∈ points s' -> p ∈ points s \/ owns i p) /\
  (forall p, p ∈ points s -> p ∈ points s' \/ owns i p \/ exists c, owns i c /\ point_key p = point_key c).

#[export] Instance confined_preorder : PreOrder confined.
Proof.
  split.
  - intros s Hs. split; [done|]. split; by left.
  - intros s1 s2 s3 H12 H23 H1'. destruct (H12 H1') as (Hok & Hn & Ho). destruct (H23 Hok) as (Hok' & Hn' & Ho').
    split; [done|]. split.
    + intros p Hp. destruct (Hn' p Hp) as [Hp'|]; [|by right]. by apply Hn.
    + intros p Hp. destruct (Ho p Hp) as [Hp'|Hr]; [by apply Ho'|by right].
Qed.

Definition wconfined (w w' : vworld St) : Prop := confined (vw_store w) (vw_store w').

#[export] Instance wconfined_preorder : PreOrder wconfined.
Proof.
  split; [intros w; unfold wconfined; reflexivity|].
  intros w1 w2 w3 H12 H23. unfold wconfined in *. by etrans.
Qed.

Lemma within_store {A} (c : eff St A) : within confined c -> within wconfined (on_store c).
Proof. intros Hc w. unfold on_store, wconfined. specialize (Hc (vw_store w)). by destruct (c (vw_store w)). Qed.

Lemma within_read {A} (c : eff (vworld St) A) Q : vreads c Q -> within wconfined c.
Proof.
  intros Hc w Hw. specialize (Hc w Hw). destruct (c w) as [[a|e] w']; cbn;
    [destruct Hc as [-> _]|subst w']; (split; [done|split; by left]).
Qed.

Lemma within_store_catch {A} prefix (c : eff (vworld St) A) :
  within wconfined c -> within wconfined (catch c (store_errors prefix)).
Proof.
  intros Hc. apply within_catch; [typeclasses eauto|done|]. intros e k [e' ->]%store_errors_raise.
  apply within_raise. typeclasses eauto.
Qed.

Lemma identity_run (w : vworld St) : identity_ auth_required context w = (Ok (Some i), w).
Proof. unfold identity_, lift. by rewrite Hid. Qed.

Lemma bind_identity {A} (k : option auth_identity -> eff (vworld St) A) w :
  bind (identity_ auth_required context) k w = k (Some i) w.
Proof. unfold bind. by rewrite identity_run. Qed.

Lemma upsert_confined chunks : Forall (owns i) chunks -> within confined (st_upsert chunks).
Proof.
  intros Hc s Hs. pose proof (law_upsert chunks s Hs) as Hl. rewrite Forall_forall in Hc.
  assert (forall s', written chunks s s' -> store_ok s' ->
    store_ok s' /\ (forall p, p ∈ points s' -> p ∈ points s \/ owns i p) /\
    (forall p, p ∈ points s -> p ∈ points s' \/ owns i p \/ exists c, owns i c /\ point_key p = point_key c)) as Hw.
  { intros s' [Hn Ho] Hok. split; [done|]. split.
    - intros p Hp. destruct (Hn p Hp) as [|(c & Hin & Hst)]; [by left|right]. eapply owns_stored; eauto.
    - intros p Hp. destruct (Ho p Hp) as [|(c & Hin & Hk)]; [by left|]. right; right. eauto. }
  destruct (st_upsert chunks s) as [[n|e] s']; cbn; naive_solver.
Qed.

Lemma deleted_confined f n s s' :
  deleted (scope_filters (Some i) f) n s s' -> store_ok s' -> confined s s'.
Proof.
  intros (m & Hpts & _ & Hm & _) Hok Hs. destruct (context_nonempty _ _ _ Hid) as [Ht Hu].
  split; [done|]. rewrite Hpts. split.
  - intros p Hp. left. apply list_elem_of_In, filter_In in Hp as [Hp _]. by apply list_elem_of_In.
  - intros p Hp. destruct (m p) eqn:Em.
    + right; left. apply Hm in Em as [Hsc _]; [|done]. by eapply scope_owns.
    + left. apply list_elem_of_In, filter_In. split; [by apply list_elem_of_In|by rewrite Em].
Qed.

Lemma delete_confined f : within confined (st_delete (scope_filters (Some i) f)).
Proof.
  intros s Hs. pose proof (law_delete (scope_filters (Some i) f) s Hs) as Hl.
  destruct (st_delete (scope_filters (Some i) f) s) as [[n|e] s']; cbn.
  - destruct Hl as (Hd & Hok & _). by eapply deleted_confined.
  - destruct Hl as ([Hp|[n Hd]] & Hok & _); [|by eapply deleted_confined].
    rewrite Hp. split; [done|]. split; by left.
Qed.

Lemma delete_chunks_confined f : within wconfined (delete_chunks auth_required context f).
Proof.
  intros w. unfold delete_chunks. rewrite bind_identity. revert w.
  apply within_bind; [typeclasses eauto|destruct (negb (privileged i)); auto using within_raise, within_ret with typeclass_instances|].
  intros _. apply within_store_catch. intros w. unfold scoped_filters.
  assert (forall w' : vworld St, bind (bind (identity_ auth_required context) (fun i0 => ret (scope_filters i0 f)))
    (fun scoped => on_store (st_delete scoped)) w' = on_store (st_delete (scope_filters (Some i) f)) w') as ->.
  { intros w'. unfold bind at 1. by rewrite bind_identity. }
  apply within_store, delete_confined.
Qed.

Lemma apply_review_confined ro tf prepared :
  Forall (owns i) prepared ->
  within wconfined (apply_review auth_required context ro tf prepared) /\
  forall w r w', apply_review auth_required context ro tf prepared w = (Ok r, w') -> Forall (owns i) r.1.
Proof.
  intros Hp. unfold apply_review. case_bool_decide; [|case_bool_decide; [|case_bool_decide]].
  - split; [apply within_ret; typeclasses eauto|]. intros w r w' [= <- <-]. by apply mark_reviewed_owns.
  - destruct tf as [[|kv tf]|]; [split; [apply within_raise; typeclasses eauto|done]| |split; [apply within_raise; typeclasses eauto|done]].
    split.
    + apply within_bind; [typeclasses eauto|apply delete_chunks_confined|]. intros n. apply within_ret. typeclasses eauto.
    + intros w r w'. unfold bind. destruct (delete_chunks _ _ _ w) as [[n|] w1]; [|done].
      intros [= <- <-]. by apply mark_reviewed_owns.
  - split; [apply within_ret; typeclasses eauto|]. by intros w r w' [= <- <-].
  - split; [apply within_raise; typeclasses eauto|done].
Qed.

Lemma upsert_chunks_confined chunks ro tf : within wconfined (upsert_chunks auth_required context chunks ro tf).
Proof.
  unfold upsert_chunks. destruct chunks as [|c cs]; [apply within_raise; typeclasses eauto|].
  apply within_bind; [typeclasses eauto| |intros _].
  { intros w. unfold require_admin_for_review. rewrite bind_identity. case_match; reflexivity. }
  intros w. unfold owned_chunks. unfold bind at 1. rewrite bind_identity.
  unfold lift. destruct (own_all i (c :: cs)) as [prepared|e] eqn:E; [|reflexivity].
  destruct (apply_review_confined ro tf prepared) as [Hw Hp]; [by eapply own_all_owns|].
  unfold bind at 1. specialize (Hw w). specialize (Hp w).
  destruct (apply_review auth_required context ro tf prepared w) as [[r|e] w1]; [|exact Hw].
  specialize (Hp r w1 eq_refl). cbn in Hw. etrans; [exact Hw|]. destruct r as [ps n]. cbn in Hp.
  match goal with |- wconfined w1 (?c w1).2 => enough (within wconfined c) as Hc by apply Hc end.
  apply within_bind; [typeclasses eauto|by apply within_store_catch, within_store, upsert_confined|].
  intros m. apply within_bind; [typeclasses eauto|apply within_gets; typeclasses eauto|].
  intros name. apply within_ret. typeclasses eauto.
Qed.
End Writes.

(** ** Sequences of requests *)

Inductive vrequest :=
  | ReqSearch (r : search_request)
  | ReqUpsert (chunks : list obj) (review_outcome : text) (target_filters : option obj)
  | ReqDelete (filters : obj)
  | ReqVerify (chunk_ids file_ids : list text)
  | ReqMetrics
  | ReqInitialize.

Section Sequences.
Context {St : Type} `{PyText} `{Numpy} `{IVectorStore St} `{StoreView St} `{!ScopedStore St}.
Context (auth_required : bool).

Definition serve (context : obj) (r : vrequest) : eff (vworld St) unit :=
  match r with
  | ReqSearch r => search_chunks auth_required context r;;; ret tt
  | ReqUpsert cs ro tf => upsert_chunks auth_required context cs ro tf;;; ret tt
  | ReqDelete f => delete_chunks auth_required context f;;; ret tt
  | ReqVerify cs fs => verify_chunk_ids auth_required context cs fs;;; ret tt
  | ReqMetrics => collection_metrics auth_required context;;; ret tt
  | ReqInitialize => initialize_collection;;; ret tt
  end.

(** Requests one after the other, each with its own context; one that raises leaves what
    it did. *)
Fixpoint serve_all (l : list (obj * vrequest)) (w : vworld St) : vworld St :=
  match l with
  | [] => w
  | (context, r) :: l' => serve_all l' (serve context r w).2
  end.

Lemma within_then {A} (R : vworld St -> vworld St -> Prop) `{!PreOrder R} (c : eff (vworld St) A) :
  within R c -> within R (c;;; ret tt).
Proof. intros Hc. apply within_bind; [done|done|]. intros a. by apply within_ret. Qed.

Lemma verify_field_reads field values scope :
  plain_filter scope -> (forall k, is_Some (obj_get scope k) -> k ∈ SCOPE_FIELDS) ->
  vreads (verify_field field values scope) (fun w v => exists l,
    (forall x, x ∈ lk_present l <-> x ∈ nonblank values /\
       exists p, p ∈ points (vw_store w) /\ has_id field x p /\ in_scope scope p) /\
    (forall x, x ∈ lk_retrievable l <-> x ∈ nonblank values /\
       exists p, p ∈ points (vw_store w) /\ has_id field x p /\ in_scope scope p /\ retrievable p = true) /\
    v = [("present", JArr (map JStr (sorted_set (lk_present l))));
         ("retrievable", JArr (map JStr (sorted_set (lk_retrievable l))));
         ("missing", JArr (map JStr (sorted_set
            (List.filter (fun v => negb (bool_decide (v ∈ lk_present l))) values))))]).
Proof.
  intros Hf Hk. unfold verify_field. destruct values as [|v values].
  { apply vreads_ret. intros w. exists (mkLookup [] []). set_solver. }
  eapply vreads_bind; [apply vreads_store_catch, vreads_on_store, law_lookup; done|].
  intros l. apply vreads_ret. intros w Hl. exists l. split; [apply Hl|]. split; [apply Hl|done].
Qed.

Lemma initialize_confined i : within (wconfined i) (initialize_collection (St := St)).
Proof.
  intros w. unfold initialize_collection, on_store, wconfined. intros Hw.
  pose proof (law_initialize (vw_store w) Hw) as (Hp & Hok & _).
  destruct (st_initialize (vw_store w)) as [o s']. cbn in *. rewrite Hp. split; [done|]. split; by left.
Qed.

Lemma serve_confined context i r :
  identity_from_context auth_required context = Ok (Some i) -> within (wconfined i) (serve context r).
Proof.
  intros Hid. destruct (context_nonempty _ _ _ Hid) as [Ht Hu]. destruct r as [r|cs ro tf|f|cs fs| |]; cbn;
    apply within_then; try typeclasses eauto.
  - eapply within_read, (search_hits auth_required context (fun _ => True)); [done|intros; apply law_search|].
    intros q k f ip s Hs. pose proof (law_search_sparse q k f ip s Hs) as Hl.
    destruct (st_search_sparse q k f ip s) as [[rs|] s']; naive_solver.
  - by apply upsert_chunks_confined.
  - by apply delete_chunks_confined.
  - destruct (scope_plain i Ht Hu) as [Hp Hk]. apply within_read with (Q := fun _ _ => True).
    unfold verify_chunk_ids.
    assert (vreads (scope <-- scoped_filters auth_required context [];
        verified_chunks <-- verify_field "chunk_id" (nonblank cs) scope;
        verified_files <-- verify_field "file_id" (nonblank fs) scope;
        name <-- gets (fun w => collection_name (vw_store w));
        ret [("collection_name", JStr name); ("chunk_ids", JObj verified_chunks);
             ("file_ids", JObj verified_files)])%rf (fun (_ : vworld St) _ => True)) as Hbody.
    { intros w Hw. unfold bind at 1. unfold scoped_filters. rewrite bind_identity with (i := i) by done.
      cbn [ret]. revert w Hw. apply vreads_bind with (R := fun _ _ => True).
      - eapply vreads_impl; [by apply verify_field_reads|done].
      - intros v1. apply vreads_bind with (R := fun _ _ => True); [eapply vreads_impl; [by apply verify_field_reads|done]|].
        intros v2. apply vreads_bind with (R := fun _ _ => True); [by apply vreads_gets|]. intros n. by apply vreads_ret. }
    destruct (nonblank cs); [destruct (nonblank fs); [apply vreads_raise|]|]; exact Hbody.
  - apply within_read with (Q := fun _ _ => True). intros w Hw. unfold collection_metrics.
    rewrite bind_identity with (i := i) by done. revert w Hw. apply vreads_bind with (R := fun _ _ => True).
    { case_match; [apply vreads_raise|by apply vreads_ret]. }
    intros _. apply vreads_bind with (R := fun _ _ => True); [by apply vreads_gets|]. intros n.
    apply vreads_bind with (R := fun _ _ => True); [|intros v; by apply vreads_ret].
    apply vreads_catch; [eapply vreads_impl; [apply vreads_on_store, law_count|done]|].
    intros e k. case_match; [|done]. intros [= <-]. apply vreads_raise.
  - by apply initialize_confined.
Qed.
End Sequences.

(** ** Tenants *)

Definition plain_tenant (p : obj) : Prop :=
  exists t, obj_get p "tenant_id" = Some (JStr t) /\ 58 ∉ t.

Section Isolation.
Context {St : Type} `{PyText} `{Numpy} `{IVectorStore St} `{StoreView St} `{!ScopedStore St} `{!TenantKeys St}.

(** The request is authenticated as a member of another tenant. *)
Definition foreign (auth_required : bool) (t : text) (context : obj) : Prop :=
  exists i, identity_from_context auth_required context = Ok (Some i) /\ ai_tenant_id i <> t /\
    58 ∉ ai_tenant_id i.

(** The points of a tenant. *)
Definition of_tenant (t : text) (s : St) (p : obj) : Prop :=
  p ∈ points s /\ obj_get p "tenant_id" = Some (JStr t).

Definition tenant_kept (t : text) (s s' : St) : Prop :=
  store_ok s' /\ (forall p, p ∈ points s' -> plain_tenant p) /\
  forall p, of_tenant t s' p <-> of_tenant t s p.

Lemma confined_kept i t s s' :
  58 ∉ t -> ai_tenant_id i <> t -> 58 ∉ ai_tenant_id i ->
  store_ok s -> (forall p, p ∈ points s -> plain_tenant p) ->
  confined i s s' -> tenant_kept t s s'.
Proof.
  intros Ht Hi Hc Hok Hp Hconf. destruct (Hconf Hok) as (Hok' & Hnew & Hold).
  assert (forall p, owns i p -> obj_get p "tenant_id" = Some (JStr t) -> False) as Hno.
  { intros p [E _] E'. congruence. }
  split; [done|]. split.
  - intros p [Hin|Ho]%Hnew; [by apply Hp|]. destruct Ho as [E _]. by exists (ai_tenant_id i).
  - intros p. split; intros [Hin E]; (split; [|done]).
    + destruct (Hnew p Hin) as [|Ho]; [done|]. by destruct (Hno p Ho).
    + destruct (Hold p Hin) as [|[Ho|(c & Ho & Hk)]]; [done|by destruct (Hno p Ho)|].
      destruct Ho as [Ec _]. pose proof (key_tenant p c t (ai_tenant_id i) E Ec Ht Hc Hk). congruence.
Qed.

(** tenants are isolated.  Let the names of the tenants have no colon.  After any
    sequence of requests authenticated as members of other tenants - searches, upserts
    with any review outcome, deletions, verifications, in any order, with any arguments,
    failing or not - the chunks of a tenant are exactly those it had before. *)
Theorem tenant_isolation auth_required t requests (w : vworld St) :
  58 ∉ t -> store_ok (vw_store w) -> (forall p, p ∈ points (vw_store w) -> plain_tenant p) ->
  Forall (fun cr => foreign auth_required t cr.1) requests ->
  forall p, of_tenant t (vw_store (serve_all auth_required requests w)) p <-> of_tenant t (vw_store w) p.
Proof.
  intros Ht Hok Hp Hr. revert w Hok Hp. induction Hr as [|[context r] l (i & Hid & Hi & Hc) Hl IH]; cbn; [done|].
  intros w Hok Hp p. pose proof (serve_confined auth_required context i r Hid w) as Hconf.
  destruct (confined_kept i t (vw_store w) (vw_store (serve auth_required context r w).2)) as (Hok' & Hp' & Heq);
    [done..|]. rewrite (IH _ Hok' Hp'). apply Heq.
Qed.
End Isolation.

(** ** Verification and deletion, exactly *)

Section Exact.
Context {St : Type} `{PyText} `{Numpy} `{IVectorStore St} `{StoreView St} `{!ScopedStore St}.
Context (auth_required : bool) (context : obj) (i : auth_identity).
Hypothesis Hid : identity_from_context auth_required context = Ok (Some i).

(** The answer for one kind of identifier: of the values asked for, those of chunks the
    caller owns are present, those of retrievable ones retrievable, the others missing. *)
Definition verified_as (stored : list obj) (field : string) (values : list text) (v : json) : Prop :=
  exists present retr missing,
    v = JObj [("present", JArr (map JStr present)); ("retrievable", JArr (map JStr retr));
              ("missing", JArr (map JStr missing))] /\
    NoDup present /\ NoDup retr /\ NoDup missing /\
    (forall x, x ∈ present <-> x ∈ nonblank values /\ exists p, p ∈ stored /\ has_id field x p /\ owns i p) /\
    (forall x, x ∈ retr <-> x ∈ nonblank values /\
       exists p, p ∈ stored /\ has_id field x p /\ owns i p /\ retrievable p = true) /\
    (forall x, x ∈ missing <-> x ∈ nonblank values /\ x ∉ present).

Lemma sorted_set_nodup l : NoDup (sorted_set l).
Proof. unfold sorted_set. rewrite py_sorted_perm. apply NoDup_remove_dups. Qed.

Lemma nonblank_idem values : nonblank (nonblank values) = nonblank values.
Proof.
  unfold nonblank. induction values as [|v values IH]; cbn; [done|].
  destruct (negb _) eqn:E; cbn; [|done]. by rewrite E, IH.
Qed.

Lemma verify_field_as field values :
  vreads (verify_field (St := St) field (nonblank values) (scope_filters (Some i) []))
    (fun w v => verified_as (points (vw_store w)) field values (JObj v)).
Proof.
  destruct (context_nonempty _ _ _ Hid) as [Ht Hu]. destruct (scope_plain i Ht Hu) as [Hp Hk].
  eapply vreads_impl; [by apply verify_field_reads|]. cbn. intros w v (l & Hpr & Hre & ->).
  rewrite nonblank_idem in Hpr, Hre. exists (sorted_set (lk_present l)), (sorted_set (lk_retrievable l)),
    (sorted_set (List.filter (fun v => negb (bool_decide (v ∈ lk_present l))) (nonblank values))).
  split; [done|]. do 3 (split; [apply sorted_set_nodup|]). split_and!; intros x; rewrite ?sorted_set_elem.
  - rewrite Hpr. by setoid_rewrite (scope_owns_iff i _ Ht Hu).
  - rewrite Hre. by setoid_rewrite (scope_owns_iff i _ Ht Hu).
  - rewrite !list_elem_of_In, filter_In, negb_true_iff, bool_decide_eq_false, <- !list_elem_of_In. done.
Qed.

(** verification is exact and discloses nothing.  A verification changes nothing; when
    it answers, each identifier asked for is reported present exactly when a chunk of the
    caller has it, retrievable exactly when such a chunk may be retrieved, and missing
    otherwise, so an identifier of another tenant or owner reads like a deleted one, and
    no identifier that was not asked for is named. *)
Theorem verify_exact chunk_ids file_ids (w : vworld St) :
  store_ok (vw_store w) ->
  (verify_chunk_ids auth_required context chunk_ids file_ids w).2 = w /\
  match (verify_chunk_ids auth_required context chunk_ids file_ids w).1 with
  | Ok reply =>
      verified_as (points (vw_store w)) "chunk_id" chunk_ids (get reply "chunk_ids") /\
      verified_as (points (vw_store w)) "file_id" file_ids (get reply "file_ids")
  | Raise _ => True
  end.
Proof.
  intros Hw. enough (vreads (verify_chunk_ids auth_required context chunk_ids file_ids) (fun w reply =>
    verified_as (points (vw_store w)) "chunk_id" chunk_ids (get reply "chunk_ids") /\
    verified_as (points (vw_store w)) "file_id" file_ids (get reply "file_ids"))) as Hv.
  { specialize (Hv w Hw). destruct (verify_chunk_ids _ _ _ _ w) as [[r|] w']; naive_solver. }
  unfold verify_chunk_ids.
  assert (vreads (scope <-- scoped_filters auth_required context [];
        verified_chunks <-- verify_field "chunk_id" (nonblank chunk_ids) scope;
        verified_files <-- verify_field "file_id" (nonblank file_ids) scope;
        name <-- gets (fun w => collection_name (vw_store w));
        ret [("collection_name", JStr name); ("chunk_ids", JObj verified_chunks);
             ("file_ids", JObj verified_files)])%rf (fun (w : vworld St) reply =>
    verified_as (points (vw_store w)) "chunk_id" chunk_ids (get reply "chunk_ids") /\
    verified_as (points (vw_store w)) "file_id" file_ids (get reply "file_ids"))) as Hbody.
  { clear w Hw. intros w Hw. unfold bind at 1. unfold scoped_filters. rewrite bind_identity with (i := i) by done.
    cbn [ret]. revert w Hw. eapply vreads_bind; [apply verify_field_as|]. intros v1.
    eapply vreads_bind; [apply verify_field_as|]. intros v2.
    eapply vreads_bind; [apply (vreads_gets _ (fun _ _ => True)); done|]. intros name.
    apply vreads_ret. intros w _ H2' H1'. done. }
  destruct (nonblank chunk_ids); [destruct (nonblank file_ids); [apply vreads_raise|]|]; exact Hbody.
Qed.

(** Which points a deletion of [i] took away: some test selected them, all owned by [i] and
    with the file or document asked for; the others stay, in order. *)
Definition removed_by (filters : obj) (n : Z) (s s' : St) : Prop :=
  exists m : obj -> bool,
    points s' = List.filter (fun p => negb (m p)) (points s) /\
    n = zlen (List.filter m (points s)) /\
    forall p, p ∈ points s -> m p = true -> owns i p /\ delete_scope (scope_filters (Some i) filters) p.

Lemma deleted_removed f n s s' : deleted (scope_filters (Some i) f) n s s' -> removed_by f n s s'.
Proof.
  intros (m & Hpts & Hn & Hm & _). destruct (context_nonempty _ _ _ Hid) as [Ht Hu]. exists m.
  split; [done|]. split; [done|]. intros p Hp Em. specialize (Hm p Hp Em). split; [|done].
  eapply scope_owns; [done|done|apply Hm].
Qed.

(** deletion is privileged and stays in scope.  A user cannot delete: the request
    raises and nothing changes.  For an administrator or a service, every chunk that
    disappears belongs to the caller's tenant, and to the caller for an administrator, and
    has the file or document asked for; every other chunk stays, in order; and the number
    returned is the number of chunks that disappeared.  A deletion that raises has done
    nothing or no more than that. *)
Theorem delete_privileged filters (w : vworld St) :
  store_ok (vw_store w) ->
  let '(o, w') := delete_chunks auth_required context filters w in
  (privileged i = false ->
     o = Raise (InvalidVectorError (lit "Administrator role required for chunk deletion")) /\ w' = w) /\
  match o with
  | Ok n => removed_by filters n (vw_store w) (vw_store w')
  | Raise _ => points (vw_store w') = points (vw_store w) \/
               exists n, removed_by filters n (vw_store w) (vw_store w')
  end.
Proof.
  intros Hw. unfold delete_chunks.
  rewrite bind_identity with (i := i) by done. destruct (privileged i) eqn:Hpriv; cbn [negb]; [|cbn; split; [done|by left]].
  unfold bind at 1. cbn [ret]. unfold catch.
  assert (bind (scoped_filters auth_required context filters) (fun scoped => on_store (st_delete scoped)) w =
          on_store (st_delete (scope_filters (Some i) filters)) w) as ->.
  { unfold bind at 1, scoped_filters. by rewrite bind_identity with (i := i). }
  unfold on_store. pose proof (law_delete (scope_filters (Some i) filters) _ Hw) as Hl.
  destruct (st_delete (scope_filters (Some i) filters) (vw_store w)) as [[n|e] s'].
  - destruct Hl as [Hd _]. split; [done|]. by apply deleted_removed.
  - assert (points s' = points (vw_store w) \/ exists n, removed_by filters n (vw_store w) s') as Hr.
    { destruct Hl as ([Hp|[n Hd]] & _); [by left|right; exists n; by apply deleted_removed]. }
    destruct (store_errors (lit "Failed to delete chunks: ") e) as [k|] eqn:E; [|done].
    by apply store_errors_raise in E as [e' ->].
Qed.
End Exact.

(** ** Examples *)

Section Witness.
#[local] Existing Instance ascii_text.
#[local] Existing Instance list_numpy.
#[local] Existing Instance whole_lexical.

Abbreviation user_context := (context_of "acme" "u1" "user").
Abbreviation admin_context := (context_of "acme" "a1" "admin").

Lemma search_safe_witness :
  (search_chunks true user_context (demo_search "hybrid") demo_vworld).2 = demo_vworld /\
  match (search_chunks true user_context (demo_search "hybrid") demo_vworld).1 with
  | Ok rs =>
      (0 <= 5 -> zlen rs <= 5) /\
      Forall (fun item => exists p, p ∈ points demo_store /\ retrievable p = true /\ owns demo_user p /\
                (true = true -> get item "payload" = JObj p)) rs
  | Raise _ => True
  end.
Proof.
  exact (search_safe true user_context demo_user (demo_search "hybrid") demo_vworld eq_refl demo_store_ok).
Defined.

(** Two requests of the other tenant: its chunk [c1] is written again, then deleted. *)
Definition intruder_requests : list (obj * vrequest) :=
  [(context_of "umbrella" "a9" "admin",
    ReqUpsert [chunk_of "umbrella" "u9" "a9" "f9" "c1" "green" true 0 1] (lit "accept_as_is") None);
   (context_of "umbrella" "a9" "admin", ReqDelete [("file_id", s_ "f9")])].

Lemma demo_plain p : p ∈ points demo_store -> plain_tenant p.
Proof.
  intros Hp. enough (Forall plain_tenant (points demo_store)) as Hall.
  { rewrite Forall_forall in Hall. by apply Hall. }
  repeat (apply Forall_cons; split;
    [eexists; split; [reflexivity|apply (bool_decide_unpack _); vm_compute; exact I]|]). apply Forall_nil. exact I.
Qed.

Definition acme_c1 : obj := obj_pop (chunk_of "acme" "u1" "a1" "f1" "c1" "red" true 1 0) "embedding".

Lemma tenant_isolation_witness :
  of_tenant (lit "acme") (vw_store (serve_all true intruder_requests demo_vworld)) acme_c1 <->
  of_tenant (lit "acme") demo_store acme_c1.
Proof.
  apply (tenant_isolation true (lit "acme") intruder_requests demo_vworld).
  - apply (bool_decide_unpack _). vm_compute. exact I.
  - exact demo_store_ok.
  - exact demo_plain.
  - repeat (apply Forall_cons; split; [eexists; split; [reflexivity|split;
      [vm_compute; congruence|apply (bool_decide_unpack _); vm_compute; exact I]]|]). apply Forall_nil. exact I.
Defined.

(** The chunk of the other owner and the chunk of the other tenant read as missing. *)
Example demo_verify :
  match (verify_chunk_ids true user_context [lit "c1"; lit "c3"; lit "c2"] [lit "f9"] demo_vworld).1 with
  | Ok reply => (get reply "chunk_ids", get reply "file_ids")
  | Raise _ => (JNull, JNull)
  end = (JObj [("present", JArr [s_ "c1"; s_ "c2"]); ("retrievable", JArr [s_ "c1"]); ("missing", JArr [s_ "c3"])],
         JObj [("present", JArr []); ("retrievable", JArr []); ("missing", JArr [s_ "f9"])]).
Proof. vm_compute. reflexivity. Qed.

Lemma verify_exact_witness :
  (verify_chunk_ids true user_context [lit "c1"; lit "c3"] [lit "f9"] demo_vworld).2 = demo_vworld /\
  match (verify_chunk_ids true user_context [lit "c1"; lit "c3"] [lit "f9"] demo_vworld).1 with
  | Ok reply =>
      verified_as demo_user (points demo_store) "chunk_id" [lit "c1"; lit "c3"] (get reply "chunk_ids") /\
      verified_as demo_user (points demo_store) "file_id" [lit "f9"] (get reply "file_ids")
  | Raise _ => True
  end.
Proof. exact (verify_exact true user_context demo_user eq_refl [lit "c1"; lit "c3"] [lit "f9"] demo_vworld demo_store_ok). Defined.

Example demo_delete :
  (delete_chunks true admin_context [("file_id", s_ "f1")] demo_vworld).1 = Ok 2.
Proof. vm_compute. reflexivity. Qed.

Lemma delete_privileged_witness :
  let '(o, w') := delete_chunks true admin_context [("file_id", s_ "f1")] demo_vworld in
  (privileged demo_admin = false ->
     o = Raise (InvalidVectorError (lit "Administrator role required for chunk deletion")) /\ w' = demo_vworld) /\
  match o with
  | Ok n => removed_by demo_admin [("file_id", s_ "f1")] n demo_store (vw_store w')
  | Raise _ => points (vw_store w') = points demo_store \/
               exists n, removed_by demo_admin [("file_id", s_ "f1")] n demo_store (vw_store w')
  end.
Proof. exact (delete_privileged true admin_context demo_admin eq_refl [("file_id", s_ "f1")] demo_vworld demo_store_ok). Defined.
End Witness.
