(* ===== verification/VectorSchemas.v ===== *)
(** * Requests of the vector service

    [src/backend/vector_db/app/schemas/vector.py]: the pydantic models of the requests, as
    functions from a dictionary to the validated values.  How pydantic converts a scalar
    (an integer from a string of digits, a number from an integer) and the text of its
    errors are the class [Pydantic]; a string is accepted only as a string. *)

From Stdlib Require Import QArith.
From stdpp Require Import base strings sets list.
From S2P Require Import Prelude PyValue VectorStore VectorService.

Local Open Scope string_scope.
Local Open Scope list_scope.
Local Open Scope Z_scope.

Class Pydantic := {
  coerce_int : json -> option Z;
  coerce_float : json -> option Q;
  coerce_bool : json -> option bool;
  validation_text : string -> obj -> text
}.

(** Documented conversions: a value of the type itself is kept. *)
Class PydanticLaws `{Pydantic} := {
  coerce_int_int n : coerce_int (JInt n) = Some n;
  coerce_float_float q : coerce_float (JFloat q) = Some q;
  coerce_bool_bool b : coerce_bool (JBool b) = Some b
}.

(** ** Fields *)

Section Fields.
Context `{Pydantic}.

Definition as_str (v : json) : option text := match v with JStr t => Some t | _ => None end.
Definition as_list (v : json) : option (list json) := match v with JArr l => Some l | _ => None end.

(** A required field, and an optional one with its default. *)
Definition required {A} (parse : json -> option A) (o : obj) (k : string) : option A :=
  v ← obj_get o k; parse v.
Definition with_default {A} (parse : json -> option A) (d : A) (o : obj) (k : string) : option A :=
  match obj_get o k with None => Some d | Some v => parse v end.
(** [Optional[...] = None], as the value that [model_dump] gives. *)
Definition optional {A} (parse : json -> option A) (dump : A -> json) (o : obj) (k : string) : option json :=
  match obj_get o k with
  | None | Some JNull => Some JNull
  | Some v => dump <$> parse v
  end.

Definition literal (choices : list string) (v : json) : option text :=
  t ← as_str v; if existsb (fun s => bool_decide (t = lit s)) choices then Some t else None.
Definition int_in (lo hi : Z) (v : json) : option Z :=
  n ← coerce_int v; if (lo <=? n) && (n <=? hi) then Some n else None.
Definition floats (v : json) : option (list Q) := l ← as_list v; mapM coerce_float l.
Definition ints (v : json) : option (list Z) := l ← as_list v; mapM coerce_int l.
Definition strs (v : json) : option (list text) := l ← as_list v; mapM as_str l.
Definition at_most {A} (n : Z) (l : list A) : option (list A) := if zlen l <=? n then Some l else None.

Definition REVIEW_STATUSES : list string := ["clean"; "accepted_with_risk"; "sanitized"; "removed"].

(** [model_dump(exclude_none=True)]. *)
Definition exclude_none (o : obj) : obj := List.filter (fun kv => negb (is_none kv.2)) o.

(** ** Filters and chunks *)

Definition ChunkFilters (v : json) : option obj :=
  o ← as_obj v;
  file_id ← optional as_str JStr o "file_id";
  document_id ← optional as_str JStr o "document_id";
  chunk_version ← optional coerce_int JInt o "chunk_version";
  review_status ← optional (literal REVIEW_STATUSES) JStr o "review_status";
  page ← optional coerce_int JInt o "page";
  section ← optional as_str JStr o "section";
  tenant_id ← optional as_str JStr o "tenant_id";
  owner_user_id ← optional as_str JStr o "owner_user_id";
  owner_admin_id ← optional as_str JStr o "owner_admin_id";
  Some (exclude_none
    [("file_id", file_id); ("document_id", document_id); ("chunk_version", chunk_version);
     ("review_status", review_status); ("page", page); ("section", section);
     ("tenant_id", tenant_id); ("owner_user_id", owner_user_id); ("owner_admin_id", owner_admin_id)]).

(** [validate_scope] asks for a file or a document. *)
Definition ChunkDeleteFilters (v : json) : option obj :=
  o ← as_obj v;
  file_id ← optional as_str JStr o "file_id";
  document_id ← optional as_str JStr o "document_id";
  tenant_id ← optional as_str JStr o "tenant_id";
  owner_user_id ← optional as_str JStr o "owner_user_id";
  owner_admin_id ← optional as_str JStr o "owner_admin_id";
  if negb (jtrue file_id) && negb (jtrue document_id) then None
  else Some (exclude_none
    [("file_id", file_id); ("document_id", document_id); ("tenant_id", tenant_id);
     ("owner_user_id", owner_user_id); ("owner_admin_id", owner_admin_id)]).

(** A chunk as [model_dump()] gives it: every field is present, absent ones are [None]. *)
Definition ChunkUpsertItem (v : json) : option obj :=
  o ← as_obj v;
  file_id ← required as_str o "file_id";
  document_id ← required as_str o "document_id";
  chunk_id ← required as_str o "chunk_id";
  chunk_index ← required coerce_int o "chunk_index";
  chunk_version ← required coerce_int o "chunk_version";
  body ← required as_str o "text";
  text_preview ← required as_str o "text_preview";
  source_name ← required as_str o "source_name";
  page ← optional coerce_int JInt o "page";
  section ← optional as_str JStr o "section";
  retrieval_allowed ← required coerce_bool o "retrieval_allowed";
  review_status ← required (literal REVIEW_STATUSES) o "review_status";
  issue_flags ← with_default strs [] o "issue_flags";
  created_at ← required as_str o "created_at";
  tenant_id ← optional as_str JStr o "tenant_id";
  owner_user_id ← optional as_str JStr o "owner_user_id";
  owner_admin_id ← optional as_str JStr o "owner_admin_id";
  embedding ← required floats o "embedding";
  Some
    [("file_id", JStr file_id); ("document_id", JStr document_id); ("chunk_id", JStr chunk_id);
     ("chunk_index", JInt chunk_index); ("chunk_version", JInt chunk_version); ("text", JStr body);
     ("text_preview", JStr text_preview); ("source_name", JStr source_name); ("page", page);
     ("section", section); ("retrieval_allowed", JBool retrieval_allowed);
     ("review_status", JStr review_status); ("issue_flags", JArr (map JStr issue_flags));
     ("created_at", JStr created_at); ("tenant_id", tenant_id); ("owner_user_id", owner_user_id);
     ("owner_admin_id", owner_admin_id); ("embedding", JArr (map JFloat embedding))].

Definition SparseVectorModel (v : json) : option (list Z * list Q) :=
  o ← as_obj v;
  indices ← with_default (fun v => l ← ints v; at_most 512 l) [] o "indices";
  values ← with_default (fun v => l ← floats v; at_most 512 l) [] o "values";
  if (length indices =? length values)%nat then Some (indices, values) else None.

(** ** Payloads *)

Definition SearchChunksPayload (v : json) : option search_request :=
  o ← as_obj v;
  query_vector ← required floats o "query_vector";
  query_sparse ← match obj_get o "query_sparse" with
                 | None | Some JNull => Some None
                 | Some v => Some <$> SparseVectorModel v
                 end;
  retrieval_strategy ← with_default (literal ["dense"; "hybrid"]) (lit "dense") o "retrieval_strategy";
  top_k ← with_default (int_in 1 100) 10 o "top_k";
  dense_candidate_k ← with_default (int_in 1 100) 20 o "dense_candidate_k";
  sparse_candidate_k ← with_default (int_in 1 100) 20 o "sparse_candidate_k";
  rrf_k ← with_default (int_in 1 1000) 60 o "rrf_k";
  filters ← with_default ChunkFilters [] o "filters";
  include_payload ← with_default coerce_bool true o "include_payload";
  include_vector ← with_default coerce_bool false o "include_vector";
  Some (mkSearch query_vector top_k filters include_payload include_vector query_sparse
          retrieval_strategy dense_candidate_k sparse_candidate_k rrf_k).

Record upsert_payload := mkUpsertPayload {
  up_review_outcome : text; up_target_filters : option obj; up_chunks : list obj
}.

Definition UpsertChunksPayload (v : json) : option upsert_payload :=
  o ← as_obj v;
  review_outcome ← with_default (literal ["none"; "remove_problematic_text"; "accept_as_is"]) (lit "none")
                     o "review_outcome";
  target_filters ← match obj_get o "target_filters" with
                   | None | Some JNull => Some None
                   | Some v => Some <$> ChunkDeleteFilters v
                   end;
  chunks ← required (fun v => l ← as_list v; mapM ChunkUpsertItem l) o "chunks";
  match target_filters with
  | None => if bool_decide (review_outcome = lit "remove_problematic_text") then None
            else Some (mkUpsertPayload review_outcome None chunks)
  | _ => Some (mkUpsertPayload review_outcome target_filters chunks)
  end.

Definition DeleteChunksPayload (v : json) : option (text * obj) :=
  o ← as_obj v;
  review_outcome ← with_default (literal ["none"; "delete_file"]) (lit "none") o "review_outcome";
  filters ← required ChunkDeleteFilters o "filters";
  Some (review_outcome, filters).

Definition VerifyChunkIdsPayload (v : json) : option (list text * list text) :=
  o ← as_obj v;
  chunk_ids ← with_default (fun v => l ← strs v; at_most MAX_VERIFY_IDS l) [] o "chunk_ids";
  file_ids ← with_default (fun v => l ← strs v; at_most MAX_VERIFY_IDS l) [] o "file_ids";
  match chunk_ids, file_ids with
  | [], [] => None
  | _, _ => Some (chunk_ids, file_ids)
  end.

(** ** Envelopes *)

Record kafka_envelope := mkKafka {
  ke_message_id : text; ke_message_type : text; ke_action : text; ke_source_service : text;
  ke_target_service : text; ke_request_id : text; ke_trace_id : text; ke_correlation_id : text;
  ke_reply_to : option text; ke_stream_to : option text; ke_timestamp : text
}.

Definition optional_text (o : obj) (k : string) : option (option text) :=
  match obj_get o k with
  | None | Some JNull => Some None
  | Some v => Some <$> as_str v
  end.

(** The envelope of a request class, with its literal message type and action. *)
Definition KafkaEnvelopeBase (message_type action : string) (o : obj) : option kafka_envelope :=
  message_id ← required as_str o "message_id";
  mt ← with_default (literal [message_type]) (lit message_type) o "message_type";
  ac ← with_default (literal [action]) (lit action) o "action";
  source_service ← required as_str o "source_service";
  target_service ← required as_str o "target_service";
  request_id ← required as_str o "request_id";
  trace_id ← required as_str o "trace_id";
  correlation_id ← required as_str o "correlation_id";
  reply_to ← optional_text o "reply_to";
  stream_to ← optional_text o "stream_to";
  timestamp ← required as_str o "timestamp";
  Some (mkKafka message_id mt ac source_service target_service request_id trace_id correlation_id
          reply_to stream_to timestamp).

Definition ValidationError {A} (model : string) (o : obj) : outcome py_exn A :=
  Raise (PyError (lit "pydantic.ValidationError") (validation_text model o)).

Definition validated {A} (model : string) (o : obj) (r : option A) : outcome py_exn A :=
  match r with Some a => Ok a | None => ValidationError model o end.

(** A search needs a reply topic. *)
Definition SearchChunksRequest (o : obj) : outcome py_exn (kafka_envelope * search_request) :=
  validated "SearchChunksRequest" o
    (e ← KafkaEnvelopeBase "query" "search_chunks" o;
     _ ← ke_reply_to e;
     p ← required SearchChunksPayload o "payload";
     Some (e, p)).

Definition VerifyChunkIdsRequest (o : obj) : outcome py_exn (kafka_envelope * (list text * list text)) :=
  validated "VerifyChunkIdsRequest" o
    (e ← KafkaEnvelopeBase "query" "verify_chunk_ids" o;
     p ← required VerifyChunkIdsPayload o "payload";
     Some (e, p)).

Definition UpsertChunksRequest (o : obj) : outcome py_exn (kafka_envelope * upsert_payload) :=
  validated "UpsertChunksRequest" o
    (e ← KafkaEnvelopeBase "command" "upsert_chunks" o;
     p ← required UpsertChunksPayload o "payload";
     Some (e, p)).

Definition DeleteChunksRequest (o : obj) : outcome py_exn (kafka_envelope * (text * obj)) :=
  validated "DeleteChunksRequest" o
    (e ← KafkaEnvelopeBase "command" "delete_chunks" o;
     p ← required DeleteChunksPayload o "payload";
     Some (e, p)).

Definition InitializeCollectionRequest (o : obj) : outcome py_exn kafka_envelope :=
  validated "InitializeCollectionRequest" o
    (e ← KafkaEnvelopeBase "command" "initialize_collection" o;
     _ ← with_default (fun v => _ ← as_obj v; Some tt) tt o "payload";
     Some e).
End Fields.
