(* ===== verification/VectorMessages.v ===== *)
(** * Messages of the vector service

    [src/backend/vector_db/app/services/base.py] and the dispatchers of
    [src/backend/vector_db/app/services/vector_service.py]: a request in its canonical or
    its legacy shape is brought into the canonical envelope, validated, served, and
    answered: by a returned reply for RabbitMQ, by messages of the producer for Kafka.
    The producer, the clocks and the identifiers are the class [VectorEnv]. *)

From Stdlib Require Import QArith.
From stdpp Require Import base strings sets list.
From S2P Require Import Prelude PyValue Base64 Auth VectorStore ChunkStore VectorService VectorSchemas.

Local Open Scope string_scope.
Local Open Scope list_scope.
Local Open Scope Z_scope.

(** One answer per interaction, numbered by [vw_tick]: [Some e] when the producer raises. *)
Class VectorEnv := {
  uuid4 : nat -> text;
  now_iso : nat -> text;
  epoch : nat -> Z;
  producer_send : nat -> json -> option text -> obj -> option py_exn;
  producer_flush : nat -> option py_exn
}.

Record vector_config := mkVectorConfig {
  upsert_completed_topic : text; files_topic : text; request_topic : text;
  upsert_requested_topic : text; delete_requested_topic : text; service_name : text;
  internal_auth_secret : text
}.

Definition UPSERT_COMPLETION_STAGES : list string := ["semantic"; "vector"].

(** ** The ordering key of a message

    [kafka_document_key] of [src/backend/shared/kafka_base.py]. *)
Section Key.
Context `{PyText}.

Definition id_of (o : obj) : option text :=
  let v := get o "document_id" ||| get o "file_id" in
  if jtrue v then Some (py_str v) else None.

Definition kafka_document_key (message : obj) : option text :=
  let nested :=
    match get message "payload" with
    | JObj payload =>
        match id_of payload with
        | Some k => Some k
        | None => match get payload "chunks" with
                  | JArr (JObj c :: _) => id_of c
                  | _ => None
                  end
        end
    | _ => None
    end in
  match nested with Some k => Some k | None => id_of message end.
End Key.

Section Messages.
Context {St : Type} `{PyText} `{Numpy} `{IVectorStore St} `{Crypto} `{Pydantic} `{VectorEnv}.
Context (cfg : vector_config) (auth_required : bool) (context : obj).

Abbreviation veff := (eff (vworld St)).

Definition tick : veff nat := fun w => (Ok (vw_tick w), w {{ vw_tick ::= S }}).
Definition fresh_id : veff text := n <-- tick; ret (uuid4 n).
Definition now_iso_ : veff text := n <-- tick; ret (now_iso n).

(** ** Producer *)

Definition send (topic : json) (message : obj) : veff unit :=
  n <-- tick;
  jti <-- fresh_id;
  envelope <-- lift (attach_internal_auth_context context (internal_auth_secret cfg) auth_required
                       (epoch n) jti 300 message);
  let key := kafka_document_key envelope in
  match producer_send n topic key envelope with
  | Some e => raise e
  | None => modify (fun w => w {{ vw_sent ::= (fun l => l ++ [mkSent topic key envelope]) }})
  end.

Definition flush : veff unit :=
  n <-- tick;
  match producer_flush n with Some e => raise e | None => ret tt end.

Definition send_and_flush (topic : json) (message : obj) : veff unit := send topic message;;; flush.

(** ** Inference for legacy requests *)

(** [reply_to.split(".", 1)[0]]; on a value that is no string the test itself may raise. *)
Definition infer_source_service (reply_to : json) : outcome py_exn text :=
  if jtrue reply_to then
    match reply_to with
    | JStr s => Ok (match split_once 46 s with Some (a, _) => a | None => lit "unknown" end)
    | JArr l => if existsb (py_eqb (s_ ".")) l then AttributeError else Ok (lit "unknown")
    | JObj o => if has_key o "." then AttributeError else Ok (lit "unknown")
    | _ => TypeError
    end
  else Ok (lit "unknown").

Definition infer_action (topic : text) (request : obj) : json :=
  let action := get request "action" in
  if jtrue action then action
  else if bool_decide (topic = upsert_requested_topic cfg) then s_ "upsert_chunks"
  else if bool_decide (topic = delete_requested_topic cfg) then s_ "delete_chunks"
  else JStr [].

Definition infer_message_type (action : json) : json :=
  if is_str action "search_chunks" then s_ "query" else s_ "command".

Definition extract_legacy_payload (action : json) (request : obj) : obj :=
  if is_str action "search_chunks" then
    [("query_vector", get request "query_vector"); ("top_k", get_or request "top_k" (JInt 10));
     ("filters", get_or request "filters" (JObj []));
     ("include_payload", get_or request "include_payload" (JBool true));
     ("include_vector", get_or request "include_vector" (JBool false))]
  else if is_str action "upsert_chunks" then
    [("review_outcome", get_or request "review_outcome" (s_ "none"));
     ("target_filters", get request "target_filters"); ("chunks", get_or request "chunks" (JArr []))]
  else if is_str action "delete_chunks" then
    [("review_outcome", get_or request "review_outcome" (s_ "none"));
     ("filters", get_or request "filters" (JObj []))]
  else [].

Definition normalize_delete_topic_request (request : obj) (action message_type : json) (payload : obj)
    : json * json * obj :=
  let is_cleanup_event :=
    negb (has_key payload "filters") &&
    (is_str action "vector_db.delete.requested"
     || is_str (get payload "event_type") "vector_db.delete.requested"
     || is_str message_type "event") in
  if is_cleanup_event then
    let file_id := get payload "file_id" ||| get request "file_id" in
    let document_id := get payload "document_id" ||| get request "document_id" in
    let filters := (if jtrue file_id then [("file_id", file_id)] else [])
                   ++ (if jtrue document_id then [("document_id", document_id)] else []) in
    (s_ "delete_chunks", s_ "command", [("review_outcome", s_ "delete_file"); ("filters", JObj filters)])
  else (action, message_type, payload).

(** [v or str(uuid4())]. *)
Definition or_fresh (v : json) : veff json :=
  if jtrue v then ret v else i <-- fresh_id; ret (JStr i).

Definition build_envelope_context (topic : text) (request : obj) (action : option json) : veff obj :=
  let resolved_action :=
    match action with Some a => if jtrue a then a else infer_action topic request
                    | None => infer_action topic request end in
  let payload := match get request "payload" with
                 | JObj p => p
                 | _ => extract_legacy_payload resolved_action request
                 end in
  let resolved_message_type := get request "message_type" ||| infer_message_type resolved_action in
  let '(resolved_action, resolved_message_type, payload) :=
    if bool_decide (topic = delete_requested_topic cfg)
    then normalize_delete_topic_request request resolved_action resolved_message_type payload
    else (resolved_action, resolved_message_type, payload) in
  message_id <-- or_fresh (get request "message_id");
  let correlation_id := get request "correlation_id" ||| message_id in
  let request_id := get request "request_id" ||| correlation_id in
  let trace_id := get request "trace_id" ||| request_id in
  let reply_to := get request "reply_to" in
  source_service <-- (if jtrue (get request "source_service") then ret (get request "source_service")
                      else s <-- lift (infer_source_service reply_to); ret (JStr s));
  timestamp <-- (if is_none (get request "timestamp") then now_iso_
                 else ret (py_str (get request "timestamp")));
  ret [("message_id", message_id); ("message_type", resolved_message_type); ("action", resolved_action);
       ("source_service", source_service);
       ("target_service", get request "target_service" ||| JStr (service_name cfg));
       ("request_id", request_id); ("trace_id", trace_id); ("correlation_id", correlation_id);
       ("reply_to", reply_to); ("stream_to", get request "stream_to"); ("timestamp", JStr timestamp);
       ("payload", JObj payload)].

Definition normalize_request (topic : text) (request : obj) : veff obj :=
  normalized <-- build_envelope_context topic request None;
  if jtrue (get normalized "action") then ret normalized
  else raise (InvalidVectorError (lit "action is required")).

(** ** Replies *)

(** [KafkaReplyEnvelope(...).model_dump(exclude_none=True)]. *)
Definition reply_envelope (message_id action source_service target_service request_id trace_id correlation_id
    timestamp : json) (success : bool) (payload : obj) (error : option obj) : outcome py_exn obj :=
  let o := [("message_id", message_id); ("message_type", s_ "reply"); ("action", action);
            ("source_service", source_service); ("target_service", target_service);
            ("request_id", request_id); ("trace_id", trace_id); ("correlation_id", correlation_id);
            ("timestamp", timestamp); ("success", JBool success); ("payload", JObj payload)]
           ++ match error with Some e => [("error", JObj e)] | None => [] end in
  if forallb (fun k => match get o k with JStr _ => true | _ => false end)
       ["message_id"; "action"; "source_service"; "target_service"; "request_id"; "trace_id";
        "correlation_id"; "timestamp"]
  then Ok o else ValidationError "KafkaReplyEnvelope" o.

Definition send_success_reply (request : kafka_envelope) (action : string) (payload : obj) : veff unit :=
  match ke_reply_to request with
  | None | Some [] => ret tt
  | Some reply_to =>
      message_id <-- fresh_id;
      timestamp <-- now_iso_;
      reply <-- lift (reply_envelope (JStr message_id) (s_ action) (JStr (service_name cfg))
                        (JStr (ke_source_service request)) (JStr (ke_request_id request))
                        (JStr (ke_trace_id request)) (JStr (ke_correlation_id request)) (JStr timestamp)
                        true payload None);
      send_and_flush (JStr reply_to) reply
  end.

Definition send_error_reply (request : obj) (action : json) (error_message : text) : veff unit :=
  let reply_to := get request "reply_to" in
  if negb (jtrue reply_to) then ret tt
  else
    message_id <-- fresh_id;
    id1 <-- fresh_id;
    id2 <-- fresh_id;
    id3 <-- fresh_id;
    timestamp <-- now_iso_;
    reply <-- lift (reply_envelope (JStr message_id) action (JStr (service_name cfg))
                      (get_or request "source_service" (s_ "unknown"))
                      (get_or request "request_id" (get_or request "correlation_id" (JStr id1)))
                      (get_or request "trace_id" (get_or request "request_id" (JStr id2)))
                      (get_or request "correlation_id" (JStr id3)) (JStr timestamp)
                      false [] (Some [("message", JStr error_message)]));
    send_and_flush reply_to reply.

(** ** Events *)

Definition opt_str_json (v : json) : bool := match v with JNull | JStr _ => true | _ => false end.

(** [UpsertCompletedEvent(...).model_dump(exclude_none=True)]. *)
Definition completed_event (message_id source_service target_service request_id trace_id correlation_id : json)
    (completed_at status collection : text) (document_id file_id review_outcome : json)
    (upserted_count deleted_count : Z) (message : string) (error : option text) : outcome py_exn obj :=
  let payload := exclude_none
    [("completed_at", JStr completed_at); ("status", JStr status); ("collection_name", JStr collection);
     ("document_id", document_id); ("file_id", file_id); ("review_outcome", review_outcome);
     ("upserted_count", JInt upserted_count); ("deleted_count", JInt deleted_count);
     ("message", s_ message); ("error", match error with Some e => JStr e | None => JNull end)] in
  let o := [("message_id", message_id); ("message_type", s_ "event"); ("action", s_ "upsert_chunks");
            ("source_service", source_service); ("target_service", target_service);
            ("request_id", request_id); ("trace_id", trace_id); ("correlation_id", correlation_id);
            ("timestamp", JStr completed_at); ("event_type", s_ "vector_db.upsert.completed");
            ("payload", JObj payload)] in
  if forallb (fun k => match get o k with JStr _ => true | _ => false end)
       ["message_id"; "source_service"; "target_service"; "request_id"; "trace_id"; "correlation_id"]
     && opt_str_json document_id && opt_str_json file_id
     && match review_outcome with JStr _ => true | _ => false end
  then Ok o else ValidationError "UpsertCompletedEvent" o.

Definition publish_upsert_completed (request : obj) (status : string) (review_outcome : json)
    (upserted_count deleted_count : Z) (message : string) (document_id file_id : json) (error : option text)
    : veff unit :=
  completed_at <-- now_iso_;
  message_id <-- fresh_id;
  inferred <-- lift (infer_source_service (get request "reply_to"));
  id1 <-- fresh_id;
  id2 <-- fresh_id;
  id3 <-- fresh_id;
  collection <-- gets (fun w => collection_name (vw_store w));
  event <-- lift (completed_event (JStr message_id) (JStr (service_name cfg))
                    (get_or request "source_service" (JStr inferred))
                    (get_or request "request_id" (get_or request "correlation_id" (JStr id1)))
                    (get_or request "trace_id" (get_or request "request_id" (JStr id2)))
                    (get_or request "correlation_id" (JStr id3))
                    completed_at (lit status) collection document_id file_id review_outcome
                    upserted_count deleted_count message error);
  send_and_flush (JStr (upsert_completed_topic cfg)) event.

Definition stage_message (id : text) (request_id trace_id correlation_id : json) (timestamp : text)
    (file_id : json) (stage : string) : obj :=
  [("message_id", JStr id); ("message_type", s_ "command"); ("action", s_ "update_stage");
   ("source_service", JStr (service_name cfg)); ("target_service", s_ "files");
   ("request_id", request_id); ("trace_id", trace_id); ("correlation_id", correlation_id);
   ("timestamp", JStr timestamp);
   ("payload", JObj [("file_id", file_id); ("stage", s_ stage); ("status", s_ "done")])].

Definition publish_files_stage_updates (request : obj) (file_id : json) : veff unit :=
  if negb (jtrue file_id) then ret tt
  else
    id1 <-- fresh_id;
    let request_id := get_or request "request_id" (get_or request "correlation_id" (JStr id1)) in
    let trace_id := get_or request "trace_id" request_id in
    id2 <-- fresh_id;
    let correlation_id := get_or request "correlation_id" (JStr id2) in
    timestamp <-- now_iso_;
    iterM (fun stage =>
      i <-- fresh_id;
      send (JStr (files_topic cfg)) (stage_message i request_id trace_id correlation_id timestamp file_id stage))
      UPSERT_COMPLETION_STAGES;;;
    flush.

(** The envelope of a validated request as a dictionary; the publishers read no payload
    from it. *)
Definition envelope_dict (e : kafka_envelope) : obj :=
  exclude_none
    [("message_id", JStr (ke_message_id e)); ("message_type", JStr (ke_message_type e));
     ("action", JStr (ke_action e)); ("source_service", JStr (ke_source_service e));
     ("target_service", JStr (ke_target_service e)); ("request_id", JStr (ke_request_id e));
     ("trace_id", JStr (ke_trace_id e)); ("correlation_id", JStr (ke_correlation_id e));
     ("reply_to", match ke_reply_to e with Some t => JStr t | None => JNull end);
     ("stream_to", match ke_stream_to e with Some t => JStr t | None => JNull end);
     ("timestamp", JStr (ke_timestamp e))].

(** ** Handlers of Kafka topics *)

Definition upsert_reply (r : upsert_result) : obj :=
  [("collection_name", JStr (ur_collection r)); ("upserted_count", JInt (ur_upserted r));
   ("deleted_count", JInt (ur_deleted r)); ("document_id", ur_document_id r);
   ("file_id", ur_file_id r); ("review_outcome", JStr (ur_review_outcome r))].

Definition delete_reply (deleted_count : Z) (collection : text) (filters : obj) (review_outcome : text) : obj :=
  [("deleted_count", JInt deleted_count); ("collection_name", JStr collection);
   ("filters", JObj filters); ("review_outcome", JStr review_outcome)].

Abbreviation search_chunks := (VectorService.search_chunks auth_required context).
Abbreviation upsert_chunks := (VectorService.upsert_chunks auth_required context).
Abbreviation delete_chunks := (VectorService.delete_chunks auth_required context).
Abbreviation verify_chunk_ids := (VectorService.verify_chunk_ids auth_required context).

Definition handle_search_request (r : kafka_envelope * search_request) : veff unit :=
  results <-- search_chunks r.2;
  send_success_reply r.1 "search_chunks" [("results", JArr (map JObj results))].

Definition handle_upsert_request (r : kafka_envelope * upsert_payload) : veff unit :=
  result <-- upsert_chunks (up_chunks r.2) (up_review_outcome r.2) (up_target_filters r.2);
  send_success_reply r.1 "upsert_chunks" (upsert_reply result);;;
  publish_upsert_completed (envelope_dict r.1) "success" (JStr (up_review_outcome r.2))
    (ur_upserted result) (ur_deleted result) "Chunk upsert completed"
    (ur_document_id result) (ur_file_id result) None;;;
  publish_files_stage_updates (envelope_dict r.1) (ur_file_id result).

Definition handle_delete_request (r : kafka_envelope * (text * obj)) : veff unit :=
  deleted_count <-- delete_chunks r.2.2;
  collection <-- gets (fun w => collection_name (vw_store w));
  send_success_reply r.1 "delete_chunks" (delete_reply deleted_count collection r.2.2 r.2.1).

Definition handle_verify_request (r : kafka_envelope * (list text * list text)) : veff unit :=
  reply <-- verify_chunk_ids r.2.1 r.2.2;
  send_success_reply r.1 "verify_chunk_ids" reply.

Definition handle_initialize_request (e : kafka_envelope) : veff unit :=
  name <-- initialize_collection;
  send_success_reply e "initialize_collection" [("collection_name", JStr name)].

Definition unsupported_action (action : json) : py_exn :=
  InvalidVectorError (lit "Unsupported action: " ++ py_str action).

Definition dispatch_kafka (topic : text) (normalized : obj) : veff unit :=
  let action := get normalized "action" in
  if bool_decide (topic = upsert_requested_topic cfg)
  then r <-- lift (UpsertChunksRequest normalized); handle_upsert_request r
  else if bool_decide (topic = delete_requested_topic cfg)
  then r <-- lift (DeleteChunksRequest normalized); handle_delete_request r
  else if negb (bool_decide (topic = request_topic cfg))
  then raise (InvalidVectorError (lit "Unsupported topic: " ++ topic))
  else if is_str action "search_chunks"
  then r <-- lift (SearchChunksRequest normalized); handle_search_request r
  else if is_str action "upsert_chunks"
  then r <-- lift (UpsertChunksRequest normalized); handle_upsert_request r
  else if is_str action "delete_chunks"
  then r <-- lift (DeleteChunksRequest normalized); handle_delete_request r
  else if is_str action "initialize_collection"
  then r <-- lift (InitializeCollectionRequest normalized); handle_initialize_request r
  else if is_str action "verify_chunk_ids"
  then r <-- lift (VerifyChunkIdsRequest normalized); handle_verify_request r
  else raise (unsupported_action action).

(** The exceptions the dispatchers answer; everything else reaches the consumer. *)
Definition handled (e : py_exn) : bool :=
  is_class "pydantic.ValidationError" e || is_class "InvalidVectorError" e || is_class "VectorStoreError" e.

Definition kafka_failed (topic : text) (raw_request : obj) (normalized : option obj) (action reply_to : json)
    (error_message : text) : veff unit :=
  error_context <-- match normalized with
                    | Some ((_ :: _) as n) => ret n
                    | _ => build_envelope_context topic raw_request (Some action)
                    end;
  (if jtrue reply_to then send_error_reply error_context (action ||| s_ "unknown") error_message else ret tt);;;
  if is_str action "upsert_chunks" then
    review_outcome <-- lift (match get_or error_context "payload" (JObj []) with
                             | JObj p => Ok (get_or p "review_outcome" (s_ "none"))
                             | _ => AttributeError
                             end);
    publish_upsert_completed error_context "error" review_outcome 0 0 "Chunk upsert failed" JNull JNull
      (Some error_message)
  else ret tt.

Definition process_kafka_message (topic : text) (request : json) : veff unit :=
  let raw_request := match request with JObj o => o | _ => [] end in
  let action := get_or raw_request "action" (s_ "unknown") in
  let reply_to := get raw_request "reply_to" in
  normalized <-- attempt (normalize_request topic raw_request);
  match normalized with
  | Raise e =>
      if handled e then kafka_failed topic raw_request None action reply_to (exn_text e) else raise e
  | Ok n =>
      catch (dispatch_kafka topic n)
        (fun e => if handled e
                  then Some (kafka_failed topic raw_request (Some n) (get n "action") (get n "reply_to")
                               (exn_text e))
                  else None)
  end.

(** ** RabbitMQ *)

Definition build_rpc_success (normalized : obj) (action : json) (payload : obj) : veff obj :=
  message_id <-- fresh_id;
  timestamp <-- now_iso_;
  ret [("message_id", JStr message_id); ("message_type", s_ "reply"); ("action", action);
       ("source_service", JStr (service_name cfg));
       ("target_service", get_or normalized "source_service" (s_ "unknown"));
       ("request_id", get normalized "request_id"); ("trace_id", get normalized "trace_id");
       ("correlation_id", get normalized "correlation_id"); ("timestamp", JStr timestamp);
       ("success", JBool true); ("payload", JObj payload)].

Definition build_rpc_error (raw_request : obj) (action : json) (error_message : text) : veff obj :=
  message_id <-- fresh_id;
  id1 <-- fresh_id;
  id2 <-- fresh_id;
  id3 <-- fresh_id;
  timestamp <-- now_iso_;
  ret [("message_id", JStr message_id); ("message_type", s_ "reply"); ("action", action);
       ("source_service", JStr (service_name cfg));
       ("target_service", get_or raw_request "source_service" (s_ "unknown"));
       ("request_id", get_or raw_request "request_id" (get_or raw_request "correlation_id" (JStr id1)));
       ("trace_id", get_or raw_request "trace_id" (get_or raw_request "request_id" (JStr id2)));
       ("correlation_id", get_or raw_request "correlation_id" (JStr id3)); ("timestamp", JStr timestamp);
       ("success", JBool false); ("payload", JObj []); ("error", JObj [("message", JStr error_message)])].

(** The payload of a successful reply. *)
Definition serve_rpc (action : json) (normalized : obj) : veff obj :=
  if is_str action "search_chunks" then
    r <-- lift (SearchChunksRequest normalized);
    results <-- search_chunks r.2;
    ret [("results", JArr (map JObj results))]
  else if is_str action "upsert_chunks" then
    r <-- lift (UpsertChunksRequest normalized);
    result <-- upsert_chunks (up_chunks r.2) (up_review_outcome r.2) (up_target_filters r.2);
    ret (upsert_reply result)
  else if is_str action "delete_chunks" then
    r <-- lift (DeleteChunksRequest normalized);
    deleted_count <-- delete_chunks r.2.2;
    collection <-- gets (fun w => collection_name (vw_store w));
    ret (delete_reply deleted_count collection r.2.2 r.2.1)
  else if is_str action "initialize_collection" then
    name <-- initialize_collection;
    ret [("collection_name", JStr name)]
  else if is_str action "verify_chunk_ids" then
    r <-- lift (VerifyChunkIdsRequest normalized);
    verify_chunk_ids r.2.1 r.2.2
  else if is_str action "get_metrics" then collection_metrics auth_required context
  else raise (unsupported_action action).

Definition process_request (body : json) : veff obj :=
  let raw_request := match body with JObj o => o | _ => [] end in
  let action := get_or raw_request "action" (s_ "unknown") in
  normalized <-- attempt (normalize_request (request_topic cfg) raw_request);
  match normalized with
  | Raise e => if handled e then build_rpc_error raw_request action (exn_text e) else raise e
  | Ok n =>
      let action := get n "action" in
      catch (payload <-- serve_rpc action n;
             build_rpc_success n action payload)
        (fun e => if handled e then Some (build_rpc_error raw_request action (exn_text e)) else None)
  end.

(** ** Worker

    One message of the Kafka consumer loop of [src/backend/vector_db/app/worker.py]: the
    ticket of the message binds the identity the service sees. *)
End Messages.

Section Worker.
Context {St : Type} `{PyText} `{Numpy} `{IVectorStore St} `{Crypto} `{Pydantic} `{VectorEnv}.
Context (cfg : vector_config) (auth_required : bool).

(** What [bound_context] binds in the thread of the worker, which has no identity of its
    own; a field bound to [None] reads as unset. *)
Definition worker_context (identity : option auth_identity) (message : obj) : obj :=
  exclude_none
    (obj_update (match identity with Some i => to_dict i | None => [] end)
       [("request_id", get message "request_id"); ("trace_id", get message "trace_id");
        ("correlation_id", get message "correlation_id")]).

Definition worker_step (topic : text) (message : obj) : eff (vworld St) unit :=
  n <-- tick;
  identity <-- lift (verify_internal_ticket_from_envelope auth_required (internal_auth_secret cfg)
                       (epoch n) message);
  process_kafka_message cfg auth_required (worker_context identity message) topic (JObj message).
End Worker.
