(* ===== verification/VectorProtocol.v ===== *)
(** * The vector service behind its transports

    The guarantees of [VectorSafety] for whole messages: a request over RabbitMQ or Kafka
    does to the store only what its identity may do, every error of a request is answered,
    and with signed tickets no sequence of messages reaches the chunks of a tenant that did
    not sign any of them. *)

From Stdlib Require Import QArith.
From stdpp Require Import base strings sets list.
From S2P Require Import Prelude PyValue Base64 Auth ContextAssembler VectorStore ChunkStore VectorService VectorSafety VectorSchemas VectorMessages.

Local Open Scope string_scope.
Local Open Scope list_scope.
Local Open Scope Z_scope.

Section Protocol.
Context {St : Type} `{PyText} `{Numpy} `{IVectorStore St} `{StoreView St} `{!ScopedStore St}.
Context `{Crypto} `{Pydantic} `{VectorEnv}.
Context (cfg : vector_config) (auth_required : bool) (context : obj) (i : auth_identity).
Hypothesis Hid : identity_from_context auth_required context = Ok (Some i).

(** The world outside the store may change freely. *)
Lemma wconfined_store (w w' : vworld St) : vw_store w' = vw_store w -> wconfined i w w'.
Proof. intros E. unfold wconfined. rewrite E. reflexivity. Qed.

Lemma within_tick : within (wconfined i) (tick (St := St)).
Proof. intros w. by apply wconfined_store. Qed.

Lemma within_fresh_id : within (wconfined i) (fresh_id (St := St)).
Proof. apply within_bind; [typeclasses eauto|apply within_tick|]. intros n. apply within_ret. typeclasses eauto. Qed.

Lemma within_now : within (wconfined i) (now_iso_ (St := St)).
Proof. apply within_bind; [typeclasses eauto|apply within_tick|]. intros n. apply within_ret. typeclasses eauto. Qed.

Lemma within_send topic m : within (wconfined i) (send (St := St) cfg auth_required context topic m).
Proof.
  unfold send. apply within_bind; [typeclasses eauto|apply within_tick|]. intros n.
  apply within_bind; [typeclasses eauto|apply within_fresh_id|]. intros jti.
  apply within_bind; [typeclasses eauto|apply within_lift; typeclasses eauto|]. intros e.
  destruct (producer_send _ _ _ _); [apply within_raise; typeclasses eauto|].
  intros w. by apply wconfined_store.
Qed.

Lemma within_flush : within (wconfined i) (flush (St := St)).
Proof.
  apply within_bind; [typeclasses eauto|apply within_tick|]. intros n.
  destruct (producer_flush n); [apply within_raise|apply within_ret]; typeclasses eauto.
Qed.

Lemma within_send_and_flush topic m : within (wconfined i) (send_and_flush (St := St) cfg auth_required context topic m).
Proof. apply within_bind; [typeclasses eauto|apply within_send|]. intros _. apply within_flush. Qed.

Lemma confined_search r : within (wconfined i) (search_chunks (St := St) auth_required context r).
Proof.
  pose proof (serve_confined auth_required context i (ReqSearch r) Hid) as Hs. intros w. specialize (Hs w).
  cbn in Hs. unfold bind in Hs. by destruct (search_chunks auth_required context r w) as [[a|e] w'].
Qed.

Lemma within_verify cs fs : within (wconfined i) (verify_chunk_ids (St := St) auth_required context cs fs).
Proof.
  pose proof (serve_confined auth_required context i (ReqVerify cs fs) Hid) as Hs. intros w. specialize (Hs w).
  cbn in Hs. unfold bind in Hs. by destruct (verify_chunk_ids auth_required context cs fs w) as [[a|e] w'].
Qed.

Lemma within_metrics : within (wconfined i) (collection_metrics (St := St) auth_required context).
Proof.
  pose proof (serve_confined auth_required context i ReqMetrics Hid) as Hs. intros w. specialize (Hs w).
  cbn in Hs. unfold bind in Hs. by destruct (collection_metrics auth_required context w) as [[a|e] w'].
Qed.

Lemma within_initialize : within (wconfined i) (initialize_collection (St := St)).
Proof. apply initialize_confined. Qed.

Lemma within_upsert cs ro tf : within (wconfined i) (upsert_chunks (St := St) auth_required context cs ro tf).
Proof. by apply upsert_chunks_confined. Qed.

Lemma within_delete f : within (wconfined i) (delete_chunks (St := St) auth_required context f).
Proof. by apply delete_chunks_confined. Qed.

#[local] Hint Resolve within_tick within_fresh_id within_now within_send within_flush within_send_and_flush
  confined_search within_verify within_metrics within_initialize within_upsert within_delete : effects.

Ltac walk := within_walk; try typeclasses eauto.

Lemma confined_envelope topic r a : within (wconfined i) (build_envelope_context (St := St) cfg topic r a).
Proof. unfold build_envelope_context, or_fresh. walk. Qed.
#[local] Hint Resolve confined_envelope : effects.

Lemma confined_normalize topic r : within (wconfined i) (normalize_request (St := St) cfg topic r).
Proof. unfold normalize_request. walk. Qed.
#[local] Hint Resolve confined_normalize : effects.

Lemma within_success_reply e a p :
  within (wconfined i) (send_success_reply (St := St) cfg auth_required context e a p).
Proof. unfold send_success_reply. walk. Qed.

Lemma within_error_reply r a m :
  within (wconfined i) (send_error_reply (St := St) cfg auth_required context r a m).
Proof. unfold send_error_reply. walk. Qed.

Lemma within_completed r s ro u d m di fi e :
  within (wconfined i) (publish_upsert_completed (St := St) cfg auth_required context r s ro u d m di fi e).
Proof. unfold publish_upsert_completed. walk. Qed.

Lemma within_stages r f :
  within (wconfined i) (publish_files_stage_updates (St := St) cfg auth_required context r f).
Proof. unfold publish_files_stage_updates. walk. Qed.
#[local] Hint Resolve within_success_reply within_error_reply within_completed within_stages : effects.

Lemma within_dispatch topic n : within (wconfined i) (dispatch_kafka (St := St) cfg auth_required context topic n).
Proof.
  unfold dispatch_kafka, handle_search_request, handle_upsert_request, handle_delete_request,
    handle_verify_request, handle_initialize_request. walk.
Qed.

Lemma within_kafka_failed topic r n a rt m :
  within (wconfined i) (kafka_failed (St := St) cfg auth_required context topic r n a rt m).
Proof. unfold kafka_failed. walk. Qed.

(** What a Kafka message does to the store, its identity may do. *)
Lemma within_kafka topic m : within (wconfined i) (process_kafka_message (St := St) cfg auth_required context topic m).
Proof.
  unfold process_kafka_message. apply within_bind; [typeclasses eauto|apply within_attempt, confined_normalize|].
  intros [n|e].
  - apply within_catch; [typeclasses eauto|apply within_dispatch|]. intros e k. destruct (handled e); [|done].
    intros [= <-]. apply within_kafka_failed.
  - destruct (handled e); [apply within_kafka_failed|apply within_raise; typeclasses eauto].
Qed.

Lemma within_rpc_success n a p : within (wconfined i) (build_rpc_success (St := St) cfg n a p).
Proof. unfold build_rpc_success. walk. Qed.
Lemma within_rpc_error r a m : within (wconfined i) (build_rpc_error (St := St) cfg r a m).
Proof. unfold build_rpc_error. walk. Qed.
#[local] Hint Resolve within_rpc_success within_rpc_error : effects.

Lemma within_rpc m : within (wconfined i) (process_request (St := St) cfg auth_required context m).
Proof.
  unfold process_request. apply within_bind; [typeclasses eauto|apply within_attempt, confined_normalize|].
  intros [n|e].
  - apply within_catch; [typeclasses eauto| |].
    + apply within_bind; [typeclasses eauto| |intros p; apply within_rpc_success]. unfold serve_rpc. walk.
    + intros e k. destruct (handled e); [|done]. intros [= <-]. apply within_rpc_error.
  - destruct (handled e); [apply within_rpc_error|apply within_raise; typeclasses eauto].
Qed.
End Protocol.

(** ** Signed messages *)

Section Worker.
Context {St : Type} `{PyText} `{Numpy} `{IVectorStore St} `{StoreView St} `{!ScopedStore St} `{!TenantKeys St}.
Context `{Crypto} `{Pydantic} `{VectorEnv}.
Context (cfg : vector_config).

Lemma new_identity_ok j i : new_identity j = Ok i ->
  i = j /\ ai_tenant_id i <> [] /\ ai_user_id i <> [] /\ ai_role i ∈ VALID_ROLES.
Proof. unfold new_identity. repeat case_bool_decide; cbn; try done. by intros [= <-]. Qed.

Lemma check_payload_identity p aud purpose now skew req i :
  check_payload p aud purpose now skew req = Ok i -> from_mapping p = Ok i.
Proof.
  unfold check_payload. destruct (in_strings _ _); cbn [obind]; [|done].
  destruct (_ || _); [done|]. destruct (match purpose with Some _ => _ | None => _ end); [done|].
  destruct (as_int _); [|done]. destruct (as_int _); [|done]. do 2 (case_match; [done|]).
  by destruct (check_claims p req).
Qed.

(** What a ticket says, whoever signed it. *)
Definition ticket_payload (ticket : text) : option json :=
  '(encoded, _) ← split_once 46 ticket; raw ← b64decode encoded; json_loads raw.

Lemma verify_ticket_payload ticket secret aud purpose now skew req i :
  verify_auth_ticket ticket secret aud purpose now skew req = Ok i ->
  exists p, ticket_payload ticket = Some (JObj p) /\ from_mapping p = Ok i.
Proof.
  unfold verify_auth_ticket, ticket_payload. destruct (split_once 46 ticket) as [[encoded raw]|]; [|done].
  destruct (secret_bytes secret); cbn [obind]; [|done]. destruct (encode_ascii encoded); cbn [obind]; [|done].
  destruct (b64decode_or_raise raw); cbn [obind]; [|done]. case_match; [done|].
  unfold b64decode_or_raise. cbn. destruct (b64decode encoded) as [b|]; cbn [obind mbind option_bind]; [|done].
  destruct (json_loads b) as [[]|]; try done. intros E%check_payload_identity. by eexists.
Qed.

Lemma verify_envelope_payload secret now m i :
  verify_internal_ticket_from_envelope true secret now m = Ok (Some i) ->
  exists p, ticket_payload (py_str (get m "auth_context")) = Some (JObj p) /\ from_mapping p = Ok i.
Proof.
  unfold verify_internal_ticket_from_envelope. case_match; [|done].
  destruct (internal_envelope_digest m); cbn [obind]; [|done].
  destruct (verify_auth_ticket _ _ _ _ _ _ _) as [j|] eqn:E; cbn [obind]; [|done]. intros [= <-].
  by eapply verify_ticket_payload.
Qed.

Lemma verified_identity secret now m i :
  verify_internal_ticket_from_envelope true secret now m = Ok (Some i) ->
  ai_tenant_id i <> [] /\ ai_user_id i <> [] /\ ai_role i ∈ VALID_ROLES.
Proof.
  intros (p & _ & E)%verify_envelope_payload. unfold from_mapping in E.
  by apply new_identity_ok in E as (_ & ? & ? & ?).
Qed.

(** The identity the service reads in the worker is the one of the ticket. *)
Lemma worker_identity i m :
  ai_tenant_id i <> [] -> ai_user_id i <> [] -> ai_role i ∈ VALID_ROLES ->
  exists i', identity_from_context true (worker_context (Some i) m) = Ok (Some i') /\
    ai_tenant_id i' = ai_tenant_id i.
Proof.
  intros Ht Hu Hr. pose proof (role_nonempty _ Hr) as Hr'.
  assert (forall k t, (k, t) ∈ [("tenant_id", ai_tenant_id i); ("user_id", ai_user_id i); ("role", ai_role i)] ->
    get (worker_context (Some i) m) k = JStr t) as Hg.
  { intros k t. rewrite !elem_of_cons, elem_of_nil. intros [[= -> ->]|[[= -> ->]|[[= -> ->]|[]]]];
      destruct i as [t u r [e|] [a|] [s|]]; reflexivity. }
  unfold identity_from_context, from_mapping.
  rewrite (Hg "tenant_id" (ai_tenant_id i)), (Hg "user_id" (ai_user_id i)), (Hg "role" (ai_role i)) by set_solver.
  rewrite !jor_true, !jtrue_str by (done || by apply jtrue_str). cbn [negb orb py_str].
  unfold new_identity. cbn [ai_tenant_id ai_user_id ai_role].
  rewrite !bool_decide_false, bool_decide_true by done. cbn [orb obind]. by eexists.
Qed.

(** Messages the worker consumes one after the other; a message that raises is dropped
    with what it did. *)
Fixpoint consume (l : list (text * obj)) (w : vworld St) : vworld St :=
  match l with
  | [] => w
  | (topic, m) :: l' => consume l' (worker_step cfg true topic m w).2
  end.

(** Whenever the ticket of a message is accepted, it names another tenant. *)
Definition signed_elsewhere (t : text) (m : obj) : Prop :=
  forall now i, verify_internal_ticket_from_envelope true (internal_auth_secret cfg) now m = Ok (Some i) ->
    ai_tenant_id i <> t /\ 58 ∉ ai_tenant_id i.

Lemma worker_step_kept t topic m (w : vworld St) :
  58 ∉ t -> signed_elsewhere t m -> store_ok (vw_store w) ->
  (forall p, p ∈ points (vw_store w) -> plain_tenant p) ->
  tenant_kept t (vw_store w) (vw_store (worker_step cfg true topic m w).2).
Proof.
  intros Ht Hm Hok Hp. unfold worker_step. unfold bind at 1. cbn [tick].
  set (w1 := w {{ vw_tick ::= S }}). assert (vw_store w1 = vw_store w) as Hw1 by done.
  unfold bind at 1, lift.
  assert (tenant_kept t (vw_store w) (vw_store w1)) as Hrefl by (rewrite Hw1; by split).
  destruct (verify_internal_ticket_from_envelope true (internal_auth_secret cfg) (epoch (vw_tick w)) m)
    as [[i|]|e] eqn:E; [| |exact Hrefl].
  - destruct (Hm _ _ E) as [Hne Hc]. destruct (verified_identity _ _ _ _ E) as (Hti & Hui & Hri).
    destruct (worker_identity i m Hti Hui Hri) as (i' & Hid & Et).
    rewrite <- Hw1. apply (confined_kept i'); rewrite ?Et, ?Hw1; try done.
    exact (within_kafka cfg true (worker_context (Some i) m) i' Hid topic (JObj m) w1).
  - unfold verify_internal_ticket_from_envelope in E. case_match; [|done].
    destruct (internal_envelope_digest m); cbn [obind] in E; [|done].
    by destruct (verify_auth_ticket _ _ _ _ _ _ _).
Qed.

(** C9: with signed tickets, messages cannot cross tenants.  Let tickets be required and
    the names of tenants have no colon.  After any sequence of Kafka messages - on any
    topic, well formed or not, in the canonical or the legacy shape, each rejected or
    accepted with the ticket of another tenant - the chunks of a tenant are exactly those
    it had before. *)
Theorem worker_isolation t messages (w : vworld St) :
  58 ∉ t -> store_ok (vw_store w) -> (forall p, p ∈ points (vw_store w) -> plain_tenant p) ->
  Forall (fun tm => signed_elsewhere t tm.2) messages ->
  forall p, of_tenant t (vw_store (consume messages w)) p <-> of_tenant t (vw_store w) p.
Proof.
  intros Ht Hok Hp Hm. revert w Hok Hp. induction Hm as [|[topic m] l Hm Hl IH]; cbn; [done|].
  intros w Hok Hp p. destruct (worker_step_kept t topic m w Ht Hm Hok Hp) as (Hok' & Hp' & Heq).
  rewrite (IH _ Hok' Hp'). apply Heq.
Qed.
End Worker.

(** ** Replies *)

Section Replies.
Context {St : Type} `{PyText} `{Numpy} `{IVectorStore St} `{Crypto} `{Pydantic} `{VectorEnv}.
Context (cfg : vector_config) (auth_required : bool) (context : obj).

(** Nothing is published. *)
Definition quiet (w w' : vworld St) : Prop := vw_sent w' = vw_sent w.
#[local] Instance quiet_preorder : PreOrder quiet.
Proof. split; [by intros w|]. intros w1 w2 w3. unfold quiet. congruence. Qed.

Lemma quiet_store {A} (c : eff St A) : within quiet (on_store c).
Proof. intros w. unfold on_store, quiet. by destruct (c (vw_store w)). Qed.

Lemma quiet_catch {A} prefix (c : eff (vworld St) A) :
  within quiet c -> within quiet (catch c (store_errors prefix)).
Proof.
  intros Hc. apply within_catch; [typeclasses eauto|done|]. intros e k [e' ->]%store_errors_raise.
  apply within_raise. typeclasses eauto.
Qed.

Lemma quiet_modify (f : vworld St -> vworld St) : (forall w, vw_sent (f w) = vw_sent w) -> within quiet (modify f).
Proof. intros Hf w. apply Hf. Qed.

Lemma quiet_tick : within quiet (tick (St := St)).
Proof. by intros w. Qed.
Lemma quiet_fresh_id : within quiet (fresh_id (St := St)).
Proof. by intros w. Qed.
Lemma quiet_now : within quiet (now_iso_ (St := St)).
Proof. by intros w. Qed.
Lemma quiet_identity : within quiet (identity_ (St := St) auth_required context).
Proof. by intros w. Qed.
Lemma quiet_scoped f : within quiet (scoped_filters (St := St) auth_required context f).
Proof. apply within_bind; [typeclasses eauto|apply quiet_identity|]. intros j. by intros w. Qed.
#[local] Hint Resolve quiet_store quiet_tick quiet_fresh_id quiet_now quiet_identity quiet_scoped : effects.

Ltac quiet_walk :=
  repeat (within_walk; first [apply quiet_catch|apply quiet_modify; done]); try typeclasses eauto.

Lemma quiet_delete f : within quiet (delete_chunks (St := St) auth_required context f).
Proof. unfold delete_chunks. quiet_walk. Qed.
#[local] Hint Resolve quiet_delete : effects.

Lemma quiet_upsert cs ro tf : within quiet (upsert_chunks (St := St) auth_required context cs ro tf).
Proof. unfold upsert_chunks, require_admin_for_review, owned_chunks, apply_review. quiet_walk. Qed.

Lemma quiet_arm {A} (c : eff St A) : within quiet (await_arm c).
Proof. unfold await_arm. quiet_walk. Qed.
Lemma quiet_submit : within quiet (submit_hybrid_arm (St := St)).
Proof. unfold submit_hybrid_arm. quiet_walk. Qed.
#[local] Hint Resolve quiet_arm quiet_submit : effects.

Lemma quiet_search r : within quiet (search_chunks (St := St) auth_required context r).
Proof. unfold search_chunks, search_body, search_hybrid_arms, arm_result. quiet_walk. Qed.

Lemma quiet_verify cs fs : within quiet (verify_chunk_ids (St := St) auth_required context cs fs).
Proof. unfold verify_chunk_ids, verify_field. quiet_walk. Qed.

Lemma quiet_metrics : within quiet (collection_metrics (St := St) auth_required context).
Proof.
  unfold collection_metrics. within_walk; try typeclasses eauto.
  apply within_catch; [typeclasses eauto|apply quiet_store|].
  intros e k. destruct (is_exception e); [|done]. intros [= <-]. apply within_raise. typeclasses eauto.
Qed.

Lemma quiet_initialize : within quiet (initialize_collection (St := St)).
Proof. apply quiet_store. Qed.
#[local] Hint Resolve quiet_upsert quiet_search quiet_verify quiet_metrics quiet_initialize : effects.

Lemma quiet_rpc m : within quiet (process_request (St := St) cfg auth_required context m).
Proof.
  unfold process_request. apply within_bind; [typeclasses eauto| |].
  - apply within_attempt. unfold normalize_request, build_envelope_context, or_fresh. quiet_walk.
  - intros [n|e].
    + apply within_catch; [typeclasses eauto|unfold serve_rpc, build_rpc_success; quiet_walk|].
      intros e k. destruct (handled e); [|done]. intros [= <-]. unfold build_rpc_error. quiet_walk.
    + destruct (handled e); [unfold build_rpc_error|]; quiet_walk.
Qed.

(** The correlation of a normalized request. *)
Lemma normalize_correlation topic r (w : vworld St) n w' v :
  normalize_request cfg topic r w = (Ok n, w') -> obj_get r "correlation_id" = Some v -> jtrue v = true ->
  get n "correlation_id" = v.
Proof.
  intros Hn Hv Ht. unfold normalize_request, bind in Hn.
  destruct (build_envelope_context cfg topic r None w) as [[n'|e] w1] eqn:E; [|done].
  assert (n = n') as -> by (revert Hn; case_match; unfold ret, raise; congruence). clear Hn. revert E.
  unfold build_envelope_context.
  destruct (if bool_decide (topic = delete_requested_topic cfg) then _ else _) as [[ra rm] p].
  unfold bind at 1. destruct (or_fresh (get r "message_id") w) as [[mid|e] w2]; [|done]. cbv zeta.
  unfold bind at 1. destruct (if jtrue (get r "source_service") then _ else _) as [[src|e] w3]; [|done].
  unfold bind at 1. destruct (if is_none (get r "timestamp") then _ else _) as [[ts|e] w4]; [|done].
  intros [= <- <-]. unfold get at 1. cbn. unfold get, get_or. rewrite Hv. by apply jor_true.
Qed.

(** every request error of an RPC is answered.  Serving a request over RabbitMQ
    publishes nothing.  What escapes it is never a validation error, a request error or a
    store error: those become an error reply.  Every reply has a success flag, and carries
    the correlation identifier of its request. *)
Theorem rpc_answers body (w : vworld St) :
  vw_sent (process_request cfg auth_required context body w).2 = vw_sent w /\
  match (process_request cfg auth_required context body w).1 with
  | Ok reply =>
      (exists b, get reply "success" = JBool b) /\
      forall o v, body = JObj o -> obj_get o "correlation_id" = Some v -> jtrue v = true ->
        get reply "correlation_id" = v
  | Raise e => handled e = false
  end.
Proof.
  split; [apply quiet_rpc|]. unfold process_request. set (raw := match body with JObj o => o | _ => [] end).
  unfold bind at 1, attempt. destruct (normalize_request cfg (request_topic cfg) raw w) as [[n|e] w1] eqn:En.
  - unfold catch, bind at 1.
    destruct (serve_rpc auth_required context (get n "action") n w1) as [[p|e] w2]; cbn.
    + split; [by eexists|]. intros o v -> Hv Ht.
      change (get n "correlation_id" = v). by eapply normalize_correlation.
    + destruct (handled e) eqn:Hh; [|done]. cbn. split; [by eexists|]. intros o v -> Hv Ht.
      change (get_or raw "correlation_id" (JStr (uuid4 (S (S (S (vw_tick w2)))))) = v).
      unfold get_or, raw. by rewrite Hv.
  - destruct (handled e) eqn:Hh; [|done]. cbn. split; [by eexists|]. intros o v -> Hv Ht.
    change (get_or raw "correlation_id" (JStr (uuid4 (S (S (S (vw_tick w1)))))) = v).
    unfold get_or, raw. by rewrite Hv.
Qed.
End Replies.

(** ** Examples *)

Section Witness.
#[local] Existing Instance ascii_text.
#[local] Existing Instance list_numpy.
#[local] Existing Instance whole_lexical.
#[local] Existing Instance copy_crypto.

(** Numbers are kept, nothing is converted. *)
#[local] Instance strict_pydantic : Pydantic := {|
  coerce_int := fun v => match v with JInt n => Some n | _ => None end;
  coerce_float := number;
  coerce_bool := fun v => match v with JBool b => Some b | _ => None end;
  validation_text := fun model _ => lit model
|}.

(** A clock that stands still and a producer that accepts everything. *)
#[local] Instance calm_env : VectorEnv := {|
  uuid4 := fun n => lit "id-" ++ show (Z.of_nat n); now_iso := fun _ => lit "2026-01-01T00:00:00Z";
  epoch := fun _ => 1000; producer_send := fun _ _ _ _ => None; producer_flush := fun _ => None
|}.

Definition demo_vector_config : vector_config :=
  mkVectorConfig (lit "vector.upsert.completed") (lit "files.requests") (lit "vector.requests")
    (lit "vector.upsert.requested") (lit "vector.delete.requested") (lit "vector_db") demo_secret.

Definition intruder_upsert : obj :=
  [("message_id", s_ "m1"); ("message_type", s_ "command"); ("action", s_ "upsert_chunks");
   ("source_service", s_ "files"); ("target_service", s_ "vector_db"); ("request_id", s_ "r1");
   ("trace_id", s_ "t1"); ("correlation_id", s_ "k1"); ("timestamp", s_ "2026-01-01T00:00:00Z");
   ("payload", JObj [("chunks", JArr [JObj (chunk_of "umbrella" "u9" "a9" "f9" "c1" "green" true 0 1)])])].

(** The message as an administrator of the other tenant publishes it. *)
Definition signed_upsert : obj :=
  match attach_internal_auth_context (context_of "umbrella" "a9" "admin") demo_secret true 1000 (lit "t1") 300
          intruder_upsert with
  | Ok m => m
  | Raise _ => []
  end.

(** It is accepted: the reply, the completion event and the two stage updates are sent. *)
Example demo_consumed :
  map sm_topic (vw_sent (consume demo_vector_config [(lit "vector.upsert.requested", signed_upsert)] demo_vworld)) =
  [s_ "vector.upsert.completed"; s_ "files.requests"; s_ "files.requests"].
Proof. vm_compute. reflexivity. Qed.

Lemma worker_isolation_witness :
  of_tenant (lit "acme") (vw_store (consume demo_vector_config
    [(lit "vector.upsert.requested", signed_upsert)] demo_vworld)) acme_c1 <->
  of_tenant (lit "acme") demo_store acme_c1.
Proof.
  apply (worker_isolation demo_vector_config (lit "acme") [(lit "vector.upsert.requested", signed_upsert)] demo_vworld).
  - apply (bool_decide_unpack _). vm_compute. exact I.
  - exact demo_store_ok.
  - exact demo_plain.
  - apply Forall_cons. split; [|by apply Forall_nil]. intros now i (p & Hp & Hi)%verify_envelope_payload.
    vm_compute in Hp. injection Hp as <-. vm_compute in Hi. injection Hi as <-.
    split; [vm_compute; congruence|apply (bool_decide_unpack _); vm_compute; exact I].
Defined.
End Witness.
