(* ===== verification/Interleaving.v ===== *)
(** * Programs as atomic steps

    A request handler that talks to a database is a sequence of atomic actions, and the
    handlers of concurrent requests interleave at these actions.  [prog] is such a program
    over a shared state, [run] executes it alone and [interleave] runs a pool of programs
    under a schedule.  The program logic is rely-guarantee: [rg S R p w Q] says that [p],
    started in [w] while the others change the state as [S] allows, changes it only as [R]
    allows and finishes with [Q].  [update_first] and its like are the calls of a MongoDB
    collection that such actions make. *)

From stdpp Require Import base list.
From S2P Require Import Prelude PyValue.

Inductive prog (W A : Type) :=
  | Done (o : outcome py_exn A)
  | Act (f : W -> prog W A * W).
Arguments Done {W A}.
Arguments Act {W A}.

(** Induction on what may still happen. *)
Definition prog_acts_ind {W A} (P : prog W A -> Prop) (Hdone : forall o, P (Done o))
    (Hact : forall f, (forall w, P (f w).1) -> P (Act f)) : forall p, P p :=
  fix ind p := match p with
               | Done o => Hdone o
               | Act f => Hact f (fun w => match f w as x return P x.1 with (q, _) => ind q end)
               end.

Section Programs.
Context {W : Type}.

Definition pret {A} (a : A) : prog W A := Done (Ok a).
Definition praise {A} (e : py_exn) : prog W A := Done (Raise e).
Definition plift {A} (o : outcome py_exn A) : prog W A := Done o.

Fixpoint pbind {A B} (p : prog W A) (k : A -> prog W B) : prog W B :=
  match p with
  | Done (Ok a) => k a
  | Done (Raise e) => Done (Raise e)
  | Act f => Act (fun w => let '(q, w') := f w in (pbind q k, w'))
  end.

(** [try: p except E: h(e)]. *)
Fixpoint pcatch {A} (p : prog W A) (h : py_exn -> option (prog W A)) : prog W A :=
  match p with
  | Done (Ok a) => Done (Ok a)
  | Done (Raise e) => match h e with Some q => q | None => Done (Raise e) end
  | Act f => Act (fun w => let '(q, w') := f w in (pcatch q h, w'))
  end.

Definition atomically {A} (c : eff W A) : prog W A :=
  Act (fun w => let '(o, w') := c w in (Done o, w')).

(** Alone. *)
Fixpoint run {A} (p : prog W A) (w : W) : outcome py_exn A * W :=
  match p with
  | Done o => (o, w)
  | Act f => let '(q, w') := f w in run q w'
  end.

Lemma run_bind {A B} (p : prog W A) (k : A -> prog W B) w :
  run (pbind p k) w =
  match run p w with (Ok a, w') => run (k a) w' | (Raise e, w') => (Raise e, w') end.
Proof.
  revert w. induction p as [[a|e]|f IH] using prog_acts_ind; intros w; cbn; [done|done|].
  specialize (IH w). destruct (f w) as [q w1]. apply IH.
Qed.

Lemma run_catch {A} (p : prog W A) h w :
  run (pcatch p h) w =
  match run p w with
  | (Ok a, w') => (Ok a, w')
  | (Raise e, w') => match h e with Some q => run q w' | None => (Raise e, w') end
  end.
Proof.
  revert w. induction p as [[a|e]|f IH] using prog_acts_ind; intros w; cbn; [done|by destruct (h e)|].
  specialize (IH w). destruct (f w) as [q w1]. apply IH.
Qed.

(** A pool of programs under a schedule: each entry lets one program act once. *)
Definition advance {A} (i : nat) (c : list (prog W A) * W) : list (prog W A) * W :=
  match c.1 !! i with
  | Some (Act f) => let '(q, w') := f c.2 in (<[i := q]> c.1, w')
  | _ => c
  end.

Fixpoint interleave {A} (schedule : list nat) (c : list (prog W A) * W) : list (prog W A) * W :=
  match schedule with
  | [] => c
  | i :: schedule' => interleave schedule' (advance i c)
  end.

Lemma run_atomically {A} (c : eff W A) w : run (atomically c) w = c w.
Proof. unfold atomically. cbn. by destruct (c w). Qed.
End Programs.

(** ** Rely and guarantee *)

Section RelyGuarantee.
Context {W : Type} (S : W -> W -> Prop) `{!PreOrder S}.

Fixpoint rg {A} (R : W -> W -> Prop) (p : prog W A) (w : W) (Q : outcome py_exn A -> W -> Prop) : Prop :=
  match p with
  | Done o => Q o w
  | Act f => forall w', S w w' -> let '(q, w2) := f w' in R w' w2 /\ rg R q w2 Q
  end.

Lemma rg_conseq {A} (R R' : W -> W -> Prop) (p : prog W A) w (Q Q' : outcome py_exn A -> W -> Prop) :
  rg R p w Q -> (forall w w', R w w' -> R' w w') -> (forall o w, Q o w -> Q' o w) -> rg R' p w Q'.
Proof.
  intros Hp HR HQ. revert w Hp. induction p as [o|f IH] using prog_acts_ind; intros w; cbn; [by apply HQ|].
  intros Hp w' Hw. specialize (Hp w' Hw). specialize (IH w'). destruct (f w') as [q w2]. naive_solver.
Qed.

Lemma rg_ret {A} R (a : A) w (Q : outcome py_exn A -> W -> Prop) : Q (Ok a) w -> rg R (pret a) w Q.
Proof. done. Qed.

Lemma rg_raise {A} R e w (Q : outcome py_exn A -> W -> Prop) : Q (Raise e) w -> rg R (praise e) w Q.
Proof. done. Qed.

Lemma rg_bind {A B} R (p : prog W A) (k : A -> prog W B) w Q :
  rg R p w (fun o w' => match o with Ok a => rg R (k a) w' Q | Raise e => Q (Raise e) w' end) ->
  rg R (pbind p k) w Q.
Proof.
  revert w. induction p as [[a|e]|f IH] using prog_acts_ind; intros w; cbn; [done|done|].
  intros Hp w' Hw. specialize (Hp w' Hw). specialize (IH w'). destruct (f w') as [q w2]. naive_solver.
Qed.

Lemma rg_catch {A} R (p : prog W A) h w Q :
  rg R p w (fun o w' => match o with
                        | Ok a => Q (Ok a) w'
                        | Raise e => match h e with Some q => rg R q w' Q | None => Q (Raise e) w' end
                        end) ->
  rg R (pcatch p h) w Q.
Proof.
  revert w. induction p as [[a|e]|f IH] using prog_acts_ind; intros w; cbn; [done|by destruct (h e)|].
  intros Hp w' Hw. specialize (Hp w' Hw). specialize (IH w'). destruct (f w') as [q w2]. naive_solver.
Qed.

Lemma rg_atomically {A} R (c : eff W A) w Q :
  (forall w', S w w' -> R w' (c w').2 /\ Q (c w').1 (c w').2) -> rg R (atomically c) w Q.
Proof. intros Hc w' Hw. specialize (Hc w' Hw). unfold atomically. by destruct (c w') as [o w2]. Qed.

(** A program that has acted may be interrupted before it acts again. *)
Lemma rg_later {A} R (p : prog W A) w w' (Q : outcome py_exn A -> W -> Prop) :
  (forall o w w', Q o w -> S w w' -> Q o w') -> rg R p w Q -> S w w' -> rg R p w' Q.
Proof. destruct p; cbn; [naive_solver|]. intros _ Hp Hw w2 Hw2. apply Hp. by etrans. Qed.

(** What a program guarantees while others interfere, it guarantees alone. *)
Lemma rg_run {A} R (p : prog W A) w Q : rg R p w Q -> Q (run p w).1 (run p w).2.
Proof.
  revert w. induction p as [o|f IH] using prog_acts_ind; intros w; cbn; [done|].
  intros Hp. specialize (Hp w (reflexivity w)). specialize (IH w). destruct (f w) as [q w2]. destruct Hp as [_ Hq]. by apply IH.
Qed.

(** When the guarantee is part of the rely, the final state is one the rely reaches. *)
Lemma rg_reach {A} (R : W -> W -> Prop) (p : prog W A) w Q :
  (forall w w', R w w' -> S w w') -> rg R p w Q -> rg R p w (fun o w' => Q o w' /\ S w w').
Proof.
  intros HR. revert w. induction p as [o|f IH] using prog_acts_ind; intros w; cbn; [done|].
  intros Hp w' Hw. specialize (Hp w' Hw). specialize (IH w'). destruct (f w') as [q w2]. destruct Hp as [Hr Hq].
  split; [done|]. eapply rg_conseq; [by apply IH|done|]. intros o w3 [HQ H3]. split; [done|].
  etrans; [exact Hw|]. etrans; [by apply HR|done].
Qed.

(** Every program of the pool keeps its guarantee, and with it what the others rely on. *)
Theorem rg_interleave {A} (T : W -> W -> Prop) `{!PreOrder T} (R : nat -> W -> W -> Prop)
    (Q : nat -> outcome py_exn A -> W -> Prop) schedule l w :
  (forall i w w', R i w w' -> S w w' /\ T w w') ->
  (forall i o w w', Q i o w -> S w w' -> Q i o w') ->
  (forall i p, l !! i = Some p -> rg (R i) p w (Q i)) ->
  let '(l', w') := interleave schedule (l, w) in
  S w w' /\ T w w' /\ forall i p, l' !! i = Some p -> rg (R i) p w' (Q i).
Proof.
  intros HR HQ. revert l w. induction schedule as [|j schedule IH]; intros l w Hl; cbn; [done|].
  unfold advance. cbn. destruct (l !! j) as [[o|f]|] eqn:E; [by apply IH| |by apply IH].
  pose proof (Hl j _ E w (reflexivity w)) as Hj. destruct (f w) as [q w2] eqn:Ef. destruct Hj as [HRj Hq].
  destruct (HR _ _ _ HRj) as [HS HT].
  assert (forall i p, <[j:=q]> l !! i = Some p -> rg (R i) p w2 (Q i)) as Hl'.
  { intros i p. destruct (decide (i = j)) as [->|Hij].
    - rewrite list_lookup_insert_eq by by eapply lookup_lt_Some. by intros [= <-].
    - rewrite list_lookup_insert_ne by done. intros Hi. eapply rg_later; eauto. }
  specialize (IH _ _ Hl'). destruct (interleave schedule _) as [l' w']. destruct IH as (? & ? & ?).
  split; [by etrans|]. split; [by etrans|done].
Qed.
End RelyGuarantee.

(** ** Collections *)

(** [delete_one] and [update_one] touch the first match. *)
Fixpoint delete_first {A} (p : A -> bool) (l : list A) : list A :=
  match l with [] => [] | x :: l' => if p x then l' else x :: delete_first p l' end.
Fixpoint update_first {A} (p : A -> bool) (f : A -> A) (l : list A) : list A :=
  match l with [] => [] | x :: l' => if p x then f x :: l' else x :: update_first p f l' end.
Definition update_all {A} (p : A -> bool) (f : A -> A) (l : list A) : list A :=
  map (fun x => if p x then f x else x) l.

(** Milliseconds, as BSON stores a date. *)
Definition bson_date (t : Z) : Z := (t / 1000 * 1000)%Z.

Lemma find_spec {A} (p : A -> bool) l x : List.find p l = Some x -> x ∈ l /\ p x = true.
Proof. intros E%find_some. by rewrite list_elem_of_In. Qed.

Lemma update_first_elem {A} (p : A -> bool) f (l : list A) y :
  y ∈ update_first p f l -> y ∈ l \/ exists x, x ∈ l /\ p x = true /\ y = f x.
Proof.
  induction l as [|x l IH]; cbn; [by left|]. destruct (p x) eqn:E; intros [->|Hy]%elem_of_cons.
  - right. exists x. split; [by left|done].
  - left. by right.
  - left. by left.
  - destruct (IH Hy) as [?|(z & ? & ? & ?)]; [left; by right|right; exists z; split; [by right|done]].
Qed.

Lemma update_first_old {A} (p : A -> bool) f (l : list A) x :
  x ∈ l -> exists y, y ∈ update_first p f l /\ (y = x \/ p x = true /\ y = f x).
Proof.
  induction l as [|z l IH]; cbn; [by intros ?%elem_of_nil|]. rewrite elem_of_cons.
  destruct (p z) eqn:E; intros [->|Hx].
  - exists (f z). split; [by left|by right].
  - exists x. split; [by right|by left].
  - exists z. split; [by left|by left].
  - destruct (IH Hx) as (y & Hy & Hc). exists y. split; [by right|done].
Qed.

Lemma update_first_map {A B} (p : A -> bool) f (g : A -> B) (l : list A) :
  (forall x, g (f x) = g x) -> map g (update_first p f l) = map g l.
Proof. intros Hg. induction l as [|x l IH]; cbn; [done|]. destruct (p x); cbn; by rewrite ?Hg, ?IH. Qed.

Lemma update_all_map {A B} (p : A -> bool) f (g : A -> B) (l : list A) :
  (forall x, g (f x) = g x) -> map g (update_all p f l) = map g l.
Proof. intros Hg. unfold update_all. induction l as [|x l IH]; cbn; [done|]. rewrite IH. by destruct (p x); rewrite ?Hg. Qed.

Lemma update_all_elem {A} (p : A -> bool) f (l : list A) y :
  y ∈ update_all p f l <-> exists x, x ∈ l /\ y = (if p x then f x else x).
Proof. unfold update_all. rewrite list_elem_of_fmap. naive_solver. Qed.

Lemma delete_first_sublist {A} (p : A -> bool) (l : list A) : sublist (delete_first p l) l.
Proof. induction l as [|x l IH]; cbn; [done|]. destruct (p x); by constructor. Qed.

Lemma existsb_false {A} (p : A -> bool) l x : existsb p l = false -> x ∈ l -> p x = false.
Proof.
  intros E Hx. destruct (p x) eqn:Ep; [|done]. rewrite <- E. symmetry. apply existsb_exists.
  exists x. by rewrite <- list_elem_of_In.
Qed.

Lemma NoDup_map_inj {A B} (g : A -> B) (l : list A) x y : NoDup (map g l) -> x ∈ l -> y ∈ l -> g x = g y -> x = y.
Proof.
  induction l as [|z l IH]; cbn; [by intros _ ?%elem_of_nil|]. intros [Hz Hl]%NoDup_cons.
  rewrite !elem_of_cons. intros [->|Hx] [->|Hy] E; [done| | |by apply IH];
    destruct Hz; rewrite list_elem_of_fmap; eauto.
Qed.

Lemma update_first_other {A} (p : A -> bool) f (l : list A) x : x ∈ l -> p x = false -> x ∈ update_first p f l.
Proof.
  induction l as [|y l IH]; cbn; [done|]. rewrite elem_of_cons. intros [->|Hx] E.
  - rewrite E. by left.
  - destruct (p y); [by right|]. right. auto.
Qed.

Lemma update_first_unique {A} (p : A -> bool) f (l : list A) x :
  x ∈ l -> p x = true -> (forall y, y ∈ l -> p y = true -> y = x) -> f x ∈ update_first p f l.
Proof.
  induction l as [|y l IH]; cbn; [by intros ?%elem_of_nil|]. intros Hx E Hu. destruct (p y) eqn:Ey.
  - rewrite (Hu y) by (done || by left). by left.
  - apply elem_of_cons in Hx as [->|Hx]; [congruence|]. right. apply IH; [done|done|]. intros z Hz. apply Hu. by right.
Qed.

Notation "x <~ c ; k" := (pbind c (fun x => k))
  (at level 100, c at next level, right associativity) : ragforge_scope.
Notation "c ;;~ k" := (pbind c (fun _ => k))
  (at level 100, right associativity) : ragforge_scope.
