(* ===== verification/GatewayAuth.v ===== *)
(** * Users and sessions of the gateway

    [src/backend/gateway/app/services/auth_service.py]: tenants, users with their lockout,
    opaque sessions and the security audit, in four MongoDB collections.  Every call of the
    database is one atomic action that may fail, before or after it was applied; the
    operations are programs of [Interleaving], so concurrent requests interleave between
    their calls.  Dates are microseconds, and BSON keeps milliseconds of them. *)

From stdpp Require Import base strings sets list.
From S2P Require Import Prelude PyValue Base64 Auth Interleaving.

Local Open Scope string_scope.
Local Open Scope list_scope.
Local Open Scope Z_scope.

(** ** Documents *)

Record tenant := mkTenant {
  t_tenant_id : text; t_slug : text; t_name : text; t_status : text; t_created_at : Z
}.

Record user := mkUser {
  u_oid : nat; u_user_id : text; u_tenant_id : text; u_admin_id : text; u_email : text;
  u_display_name : text; u_role : text; u_status : text; u_password_hash : text;
  u_failed_login_count : Z; u_lock_until : option Z; u_last_login_at : option Z;
  u_created_at : Z; u_updated_at : Z
}.

Record session := mkSession {
  s_oid : nat; s_session_id : text; s_token_digest : text; s_csrf_digest : text;
  s_tenant_id : text; s_user_id : text; s_created_at : Z; s_last_seen_at : Z; s_expires_at : Z;
  s_ip_address : option text; s_user_agent : text; s_revoked_at : option Z
}.

Record audit_event := mkAudit {
  a_event_id : text; a_tenant_id : text; a_actor_user_id : text; a_target_user_id : option text;
  a_action : text; a_ip_address : option text; a_created_at : Z
}.

Record gateway := mkGateway {
  g_users : list user; g_tenants : list tenant; g_sessions : list session;
  g_audit : list audit_event; g_tick : nat
}.

#[export] Instance eta_user : Eta user := fun u =>
  mkUser (u_oid u) (u_user_id u) (u_tenant_id u) (u_admin_id u) (u_email u) (u_display_name u)
    (u_role u) (u_status u) (u_password_hash u) (u_failed_login_count u) (u_lock_until u)
    (u_last_login_at u) (u_created_at u) (u_updated_at u).
#[export] Instance eta_session : Eta session := fun s =>
  mkSession (s_oid s) (s_session_id s) (s_token_digest s) (s_csrf_digest s) (s_tenant_id s)
    (s_user_id s) (s_created_at s) (s_last_seen_at s) (s_expires_at s) (s_ip_address s)
    (s_user_agent s) (s_revoked_at s).
#[export] Instance eta_gateway : Eta gateway := fun g =>
  mkGateway (g_users g) (g_tenants g) (g_sessions g) (g_audit g) (g_tick g).

Record gateway_config := mkGatewayConfig {
  auth_required : bool; session_ttl_seconds : Z; internal_auth_secret : text;
  internal_auth_ticket_ttl_seconds : Z; password_pepper : text; session_pepper : text;
  bootstrap_tenant_id : text; bootstrap_tenant_name : text;
  bootstrap_admin_email : text; bootstrap_admin_password : text;
  cors_origins_list : list text
}.

(** What one interaction gets from the outside, numbered by [g_tick]; [db_fault] is
    [Some (applied, message)] when the call of the driver raises. *)
Class GatewayEnv := {
  clock : nat -> Z;
  uuid4 : nat -> text;
  token_urlsafe : nat -> text;
  token_bytes : nat -> bytes;
  db_fault : nat -> option (bool * text)
}.

Definition SECOND : Z := 1000000.
Definition MAX_FAILED_LOGINS : Z := 5.
Definition LOCKOUT_MINUTES : Z := 15.
Definition DEFAULT_PASSWORD_ITERATIONS : Z := 600000.

Definition AuthenticationFailed (m : string) : py_exn := PyError (lit "AuthenticationFailed") (lit m).
Definition AccountLocked (m : string) : py_exn := PyError (lit "AccountLocked") (lit m).
Definition UserConflict (m : string) : py_exn := PyError (lit "UserConflict") (lit m).
Definition DuplicateKeyError : py_exn := PyError (lit "DuplicateKeyError") (lit "E11000 duplicate key error").
Definition auth_error (m : string) : py_exn := PyError (lit "AuthError") (lit m).

Section Service.
Context `{PyText} `{Crypto} `{GatewayEnv}.

Abbreviation gprog := (prog gateway).

(** One answer of the environment. *)
Definition interact {A} (f : nat -> A) : gprog A :=
  atomically (fun g => (Ok (f (g_tick g)), g {{ g_tick ::= S }})).
Definition utcnow : gprog Z := interact clock.
Definition new_uuid : gprog text := interact uuid4.
Definition new_opaque_token : gprog text := interact token_urlsafe.

Definition mongo_error (m : text) : py_exn := PyError (lit "PyMongoError") m.

Definition db_step {A} (c : eff gateway A) : eff gateway A := fun g =>
  match db_fault (g_tick g) with
  | None => let '(o, g') := c g in (o, g' {{ g_tick ::= S }})
  | Some (applied, m) => (Raise (mongo_error m), (if applied : bool then (c g).2 else g) {{ g_tick ::= S }})
  end.
Definition db_call {A} (c : eff gateway A) : gprog A := atomically (db_step c).

Definition count_users : gprog Z := db_call (gets (fun g => zlen (g_users g))).
Definition find_user (p : user -> bool) : gprog (option user) := db_call (gets (fun g => List.find p (g_users g))).
Definition find_tenant (p : tenant -> bool) : gprog (option tenant) :=
  db_call (gets (fun g => List.find p (g_tenants g))).
Definition find_session (p : session -> bool) : gprog (option session) :=
  db_call (gets (fun g => List.find p (g_sessions g))).

(** Unique indexes: [tenant_id] and [slug]. *)
Definition insert_tenant (t : tenant) : gprog unit :=
  db_call (fun g =>
    if existsb (fun t' => bool_decide (t_tenant_id t' = t_tenant_id t) || bool_decide (t_slug t' = t_slug t))
         (g_tenants g)
    then (Raise DuplicateKeyError, g) else (Ok tt, g {{ g_tenants ::= (.++ [t]) }})).
Definition delete_tenant (tenant_id : text) : gprog unit :=
  db_call (modify (fun g => g {{ g_tenants ::= delete_first (fun t => bool_decide (t_tenant_id t = tenant_id)) }})).

(** Unique indexes: [user_id], and [email] in a tenant.  [_id] is assigned. *)
Definition insert_user (u : user) : gprog unit :=
  db_call (fun g =>
    if existsb (fun u' => bool_decide (u_user_id u' = u_user_id u)
                  || (bool_decide (u_tenant_id u' = u_tenant_id u) && bool_decide (u_email u' = u_email u)))
         (g_users g)
    then (Raise DuplicateKeyError, g)
    else (Ok tt, g {{ g_users ::= (.++ [u {{ u_oid := g_tick g }}]) }})).
Definition update_user (oid : nat) (f : user -> user) : gprog unit :=
  db_call (modify (fun g => g {{ g_users ::= update_first (fun u => bool_decide (u_oid u = oid)) f }})).

(** Unique index: [token_digest]. *)
Definition insert_session (s : session) : gprog unit :=
  db_call (fun g =>
    if existsb (fun s' => bool_decide (s_token_digest s' = s_token_digest s)) (g_sessions g)
    then (Raise DuplicateKeyError, g)
    else (Ok tt, g {{ g_sessions ::= (.++ [s {{ s_oid := g_tick g }}]) }})).
Definition update_session (p : session -> bool) (f : session -> session) : gprog unit :=
  db_call (modify (fun g => g {{ g_sessions ::= update_first p f }})).
Definition update_sessions (p : session -> bool) (f : session -> session) : gprog unit :=
  db_call (modify (fun g => g {{ g_sessions ::= update_all p f }})).

(** The index [session_ttl] drops expired sessions in the background. *)
Definition expire_sessions : gprog unit :=
  now <~ utcnow;
  db_call (modify (fun g => g {{ g_sessions ::= List.filter (fun s => negb (s_expires_at s <=? bson_date now)) }})).

(** [except Exception]. *)
Definition on_exception {A} (p : gprog A) (h : py_exn -> gprog A) : gprog A :=
  pcatch p (fun e => match e with Cancelled => None | _ => Some (h e) end).

(** ** Text *)

Definition normalize_email (email : text) : text := casefold (py_strip email).

Definition slug_char (c : Z) : bool := ((97 <=? c) && (c <=? 122)) || ((48 <=? c) && (c <=? 57)).

(** [re.sub("[^a-z0-9]+", "-", _)]; [gap] when the last character was replaced. *)
Fixpoint dashes (gap : bool) (t : text) : text :=
  match t with
  | [] => []
  | c :: t' => if slug_char c then c :: dashes false t' else if gap then dashes true t' else 45 :: dashes true t'
  end.

Definition slugify (value : text) : outcome py_exn text :=
  let slug := strip (fun c => c =? 45) (dashes false (casefold (py_strip value))) in
  match slug with
  | [] => Raise (auth_error "tenant identifier is invalid")
  | _ => Ok (py_prefix slug 100)
  end.

Definition hex_digit (n : Z) : Z := if n <? 10 then 48 + n else 87 + n.
Definition hexdigest (b : bytes) : text := concat (map (fun c => [hex_digit (c / 16); hex_digit (c mod 16)]) b).

Definition token_digest (token pepper : text) : outcome py_exn text :=
  let* key := encode_utf8 pepper in
  let* message := encode_utf8 token in
  Ok (hexdigest (hmac_sha256 key message)).

Definition has_id (tenant_id user_id : text) (u : user) : bool :=
  bool_decide (u_tenant_id u = tenant_id) && bool_decide (u_user_id u = user_id).

Definition public_user (u : user) : obj :=
  [("user_id", JStr (u_user_id u)); ("tenant_id", JStr (u_tenant_id u)); ("admin_id", JStr (u_admin_id u));
   ("email", JStr (u_email u)); ("display_name", JStr (u_display_name u) ||| JStr (u_email u));
   ("role", JStr (u_role u)); ("status", JStr (u_status u))].

Definition identity_of (u : user) (session_id : text) : outcome py_exn auth_identity :=
  new_identity (mkAuth (u_tenant_id u) (u_user_id u) (u_role u) (Some (u_email u)) (Some (u_admin_id u))
                  (Some session_id)).

Definition require_admin_role (actor : auth_identity) : outcome py_exn unit :=
  if identity_is_admin actor then Ok tt else Raise (auth_error "Administrator role required").

Definition audit (tenant_id actor : text) (action : text) (target ip : option text) : gprog unit :=
  event_id <~ new_uuid;
  now <~ utcnow;
  db_call (modify (fun g => g {{ g_audit ::= (.++ [mkAudit event_id tenant_id actor target action ip (bson_date now)]) }})).

(** ** Configuration *)

Context (cfg : gateway_config) (dummy_hash : text).

Definition password_hash (password : text) : gprog text :=
  salt <~ interact token_bytes;
  plift (hash_password password (password_pepper cfg) DEFAULT_PASSWORD_ITERATIONS salt).

Definition digest_of (token : text) : outcome py_exn text := token_digest token (session_pepper cfg).

(** ** Setup and provisioning *)

Definition active_tenant (tenant_id : text) (t : tenant) : bool :=
  bool_decide (t_tenant_id t = tenant_id) && bool_decide (t_status t = lit "active").

Definition create_initial_admin (email password display_name : text) (audit_action : string) : gprog obj :=
  let tenant_id := py_strip (bootstrap_tenant_id cfg) in
  slug <~ plift (slugify tenant_id);
  now <~ utcnow;
  on_exception
    (insert_tenant (mkTenant tenant_id slug (py_strip (bootstrap_tenant_name cfg)) (lit "active") (bson_date now)))
    (fun e =>
       n <~ count_users;
       if 0 <? n then praise (UserConflict "Setup has already been completed")
       else
         t <~ find_tenant (active_tenant tenant_id);
         match t with Some _ => pret tt | None => praise e end);;~
  user_id <~ new_uuid;
  hash <~ password_hash password;
  let u := mkUser 0 user_id tenant_id user_id (normalize_email email)
             (match py_strip display_name with [] => lit "Administrator" | d => d end)
             (lit "admin") (lit "active") hash 0 None None (bson_date now) (bson_date now) in
  insert_user u;;~
  audit tenant_id user_id (lit audit_action) (Some user_id) None;;~
  pret (public_user u).

Definition bootstrap_admin : gprog unit :=
  n <~ count_users;
  if 0 <? n then pret tt
  else if bool_decide (bootstrap_admin_email cfg = []) || bool_decide (bootstrap_admin_password cfg = []) then pret tt
  else
    create_initial_admin (bootstrap_admin_email cfg) (bootstrap_admin_password cfg) (lit "Administrator")
      "bootstrap_admin_created";;~
    pret tt.

Definition needs_setup : gprog bool :=
  if auth_required cfg then n <~ count_users; pret (n =? 0) else pret false.

Definition claim_initial_admin (email display_name password : text) : gprog obj :=
  n <~ count_users;
  if 0 <? n then praise (UserConflict "Setup has already been completed")
  else create_initial_admin email password display_name "initial_admin_claimed".

Definition provision_tenant_admin (tenant_id tenant_name admin_email admin_password display_name : text)
    : gprog (tenant * obj) :=
  let normalized := py_strip tenant_id in
  if bool_decide (normalized = []) || (100 <? zlen normalized)
  then praise (auth_error "tenant identifier is invalid")
  else
    slug <~ plift (slugify normalized);
    let email := normalize_email admin_email in
    existing <~ find_tenant (fun t => bool_decide (t_tenant_id t = normalized) || bool_decide (t_slug t = slug));
    match existing with
    | Some _ => praise (UserConflict "Tenant already exists")
    | None =>
        now <~ utcnow;
        let t := mkTenant normalized slug (match py_strip tenant_name with [] => normalized | n => n end)
                   (lit "active") (bson_date now) in
        insert_tenant t;;~
        u <~ on_exception
               (user_id <~ new_uuid;
                hash <~ password_hash admin_password;
                let u := mkUser 0 user_id normalized user_id email
                           (match py_strip display_name with [] => lit "Administrator" | d => d end)
                           (lit "admin") (lit "active") hash 0 None None (bson_date now) (bson_date now) in
                insert_user u;;~
                pret u)
               (fun e => delete_tenant normalized;;~ praise e);
        audit normalized (u_user_id u) (lit "tenant_admin_provisioned") (Some (u_user_id u)) None;;~
        pret (t, public_user u)
    end.

(** ** Login *)

Definition locked (now : Z) (u : user) : bool :=
  match u_lock_until u with Some t => now <? t | None => false end.

(** The fields a failed login sets. *)
Definition failed_login (count now : Z) (u : user) : user :=
  let failed_count := count + 1 in
  let u := (u {{ u_failed_login_count := failed_count }}) {{ u_updated_at := bson_date now }} in
  if MAX_FAILED_LOGINS <=? failed_count
  then (u {{ u_lock_until := Some (bson_date (now + LOCKOUT_MINUTES * 60 * SECOND)) }}) {{ u_failed_login_count := 0 }}
  else u.

Definition successful_login (now : Z) (u : user) : user :=
  (((u {{ u_failed_login_count := 0 }}) {{ u_lock_until := None }}) {{ u_last_login_at := Some (bson_date now) }})
    {{ u_updated_at := bson_date now }}.

Definition tenant_matches (tenant_value : text) (t : tenant) : bool :=
  (bool_decide (t_tenant_id t = tenant_value)
   || match slugify tenant_value with Ok s => bool_decide (t_slug t = s) | Raise _ => false end)
  && bool_decide (t_status t = lit "active").

Record login_result := mkLogin {
  lr_session_token : text; lr_csrf_token : text; lr_identity : auth_identity; lr_user : obj
}.

(** From the user that was found, or none. *)
Definition finish_login (user : option user) (password : text) (ip_address user_agent : option text)
    : gprog login_result :=
  password_valid <~ plift (verify_password password (match user with Some u => u_password_hash u | None => dummy_hash end)
                             (password_pepper cfg));
  now <~ utcnow;
  match user with
  | None => praise (AuthenticationFailed "Invalid tenant, email or password")
  | Some u =>
      if locked now u then
        audit (u_tenant_id u) (u_user_id u) (lit "login_locked") None ip_address;;~
        praise (AccountLocked "Account is temporarily locked")
      else if negb password_valid || negb (bool_decide (u_status u = lit "active")) then
        update_user (u_oid u) (failed_login (u_failed_login_count u) now);;~
        audit (u_tenant_id u) (u_user_id u) (lit "login_failed") None ip_address;;~
        praise (AuthenticationFailed "Invalid tenant, email or password")
      else
        update_user (u_oid u) (successful_login now);;~
        session_token <~ new_opaque_token;
        csrf_token <~ new_opaque_token;
        session_id <~ new_uuid;
        token <~ plift (digest_of session_token);
        csrf <~ plift (digest_of csrf_token);
        insert_session (mkSession 0 session_id token csrf (u_tenant_id u) (u_user_id u) (bson_date now)
                          (bson_date now) (bson_date (now + session_ttl_seconds cfg * SECOND)) ip_address
                          (py_prefix (default [] user_agent) 512) None);;~
        identity <~ plift (identity_of u session_id);
        audit (u_tenant_id u) (u_user_id u) (lit "login_succeeded") None ip_address;;~
        pret (mkLogin session_token csrf_token identity (public_user u))
  end.

Definition login (tenant_name email password : text) (ip_address user_agent : option text)
    : gprog login_result :=
  tenant_doc <~ find_tenant (tenant_matches (py_strip tenant_name));
  user <~ match tenant_doc with
          | Some t => find_user (fun u => bool_decide (u_tenant_id u = t_tenant_id t)
                                          && bool_decide (u_email u = normalize_email email))
          | None => pret None
          end;
  finish_login user password ip_address user_agent.

(** ** Sessions *)

Definition live (now : Z) (s : session) : bool :=
  (bson_date now <? s_expires_at s) && match s_revoked_at s with None => true | Some _ => false end.

Definition local_identity : auth_identity :=
  mkAuth (bootstrap_tenant_id cfg) (lit "local-development-admin") (lit "admin")
    (Some (lit "local-admin@localhost")) (Some (lit "local-development-admin"))
    (Some (lit "local-development-session")).

Definition local_user (i : auth_identity) : obj :=
  [("tenant_id", JStr (ai_tenant_id i)); ("user_id", JStr (ai_user_id i)); ("role", JStr (ai_role i));
   ("email", s_ "local-admin@localhost"); ("display_name", s_ "Local Administrator"); ("status", s_ "active")].

(** The double-submit check: cookie and header agree and have the digest of the session. *)
Definition csrf_valid (s : session) (csrf_cookie csrf_header : option text) : outcome py_exn bool :=
  match csrf_cookie, csrf_header with
  | Some ((_ :: _) as cookie), Some ((_ :: _) as header) =>
      if bool_decide (cookie = header) then
        let* supplied := digest_of header in
        Ok (negb (bool_decide (s_csrf_digest s = [])) && bool_decide (s_csrf_digest s = supplied))
      else Ok false
  | _, _ => Ok false
  end.

Definition authenticate_session (session_token : text) (csrf_cookie csrf_header : option text)
    (require_csrf : bool) : gprog (auth_identity * obj) :=
  if negb (auth_required cfg) then
    identity <~ plift (new_identity local_identity);
    pret (identity, local_user identity)
  else match session_token with
  | [] => praise (AuthenticationFailed "Authentication required")
  | _ =>
      now <~ utcnow;
      digest <~ plift (digest_of session_token);
      session <~ find_session (fun s => bool_decide (s_token_digest s = digest) && live now s);
      match session with
      | None => praise (AuthenticationFailed "Authentication required")
      | Some s =>
          (if require_csrf : bool then
             valid <~ plift (csrf_valid s csrf_cookie csrf_header);
             if valid : bool then pret tt else praise (AuthenticationFailed "CSRF validation failed")
           else pret tt);;~
          user <~ find_user (fun u => has_id (s_tenant_id s) (s_user_id s) u
                                      && bool_decide (u_status u = lit "active"));
          match user with
          | None => praise (AuthenticationFailed "Authentication required")
          | Some u =>
              (if 300 * SECOND <=? now - s_last_seen_at s
               then update_session (fun s' => bool_decide (s_oid s' = s_oid s))
                      (fun s' => s' {{ s_last_seen_at := bson_date now }})
               else pret tt);;~
              identity <~ plift (identity_of u (s_session_id s));
              pret (identity, public_user u)
          end
      end
  end.

Definition logout (session_token : text) (actor : auth_identity) : gprog unit :=
  digest <~ plift (digest_of session_token);
  now <~ utcnow;
  update_session (fun s => bool_decide (s_token_digest s = digest))
    (fun s => s {{ s_revoked_at := Some (bson_date now) }});;~
  audit (ai_tenant_id actor) (ai_user_id actor) (lit "logout") None None.

(** ** Management of users *)

Definition create_user (actor : auth_identity) (email display_name password : text) : gprog obj :=
  plift (require_admin_role actor);;~
  now <~ utcnow;
  user_id <~ new_uuid;
  hash <~ password_hash password;
  let u := mkUser 0 user_id (ai_tenant_id actor) (ai_user_id actor) (normalize_email email)
             (py_strip display_name) (lit "user") (lit "active") hash 0 None None (bson_date now) (bson_date now) in
  existing <~ find_user (fun u' => bool_decide (u_tenant_id u' = ai_tenant_id actor)
                                   && bool_decide (u_email u' = u_email u));
  match existing with
  | Some _ => praise (UserConflict "A user with this email already exists in the workspace")
  | None =>
      insert_user u;;~
      audit (ai_tenant_id actor) (ai_user_id actor) (lit "user_created") (Some user_id) None;;~
      pret (public_user u)
  end.

(** The users an administrator manages: those it created, and itself. *)
Definition managed (actor : auth_identity) (u : user) : bool :=
  bool_decide (u_tenant_id u = ai_tenant_id actor) &&
  (bool_decide (u_admin_id u = ai_user_id actor) || bool_decide (u_user_id u = ai_user_id actor)).

Definition list_users (actor : auth_identity) : gprog (list obj) :=
  plift (require_admin_role actor);;~
  users <~ db_call (gets (fun g => py_sorted (fun u v => u_created_at u <=? u_created_at v)
                                     (List.filter (managed actor) (g_users g))));
  pret (map public_user users).

Definition managed_user (actor : auth_identity) (user_id : text) : gprog user :=
  plift (require_admin_role actor);;~
  user <~ find_user (fun u => managed actor u && bool_decide (u_user_id u = user_id));
  match user with
  | Some u => pret u
  | None => praise (AuthenticationFailed "User not found")
  end.

Definition revoke_user_sessions (tenant_id user_id : text) : gprog unit :=
  now <~ utcnow;
  update_sessions
    (fun s => bool_decide (s_tenant_id s = tenant_id) && bool_decide (s_user_id s = user_id)
              && match s_revoked_at s with None => true | Some _ => false end)
    (fun s => s {{ s_revoked_at := Some (bson_date now) }}).

Definition set_user_status (actor : auth_identity) (user_id status : text) : gprog obj :=
  u <~ managed_user actor user_id;
  if bool_decide (u_user_id u = ai_user_id actor)
  then praise (auth_error "An administrator cannot disable their own account")
  else
    now <~ utcnow;
    update_user (u_oid u) (fun u => (u {{ u_status := status }}) {{ u_updated_at := bson_date now }});;~
    (if bool_decide (status = lit "disabled") then revoke_user_sessions (ai_tenant_id actor) user_id else pret tt);;~
    audit (ai_tenant_id actor) (ai_user_id actor) (lit "user_" ++ status) (Some user_id) None;;~
    pret (public_user (u {{ u_status := status }})).

Definition set_user_password (actor : auth_identity) (user_id password : text) : gprog unit :=
  u <~ managed_user actor user_id;
  hash <~ password_hash password;
  now <~ utcnow;
  update_user (u_oid u) (fun u =>
    (((u {{ u_password_hash := hash }}) {{ u_updated_at := bson_date now }}) {{ u_failed_login_count := 0 }})
      {{ u_lock_until := None }});;~
  revoke_user_sessions (ai_tenant_id actor) user_id;;~
  audit (ai_tenant_id actor) (ai_user_id actor) (lit "user_password_reset") (Some user_id) None.

(** The audience is not empty, and [sign_auth_ticket] checks the lifetime. *)
Definition socket_ticket (identity : auth_identity) : gprog text :=
  now <~ utcnow;
  jti <~ new_uuid;
  plift (sign_auth_ticket identity (internal_auth_secret cfg) (lit "rag")
           (Z.min 120 (internal_auth_ticket_ttl_seconds cfg * 2)) (lit "socket") (lit "ragapp-gateway")
           (now / SECOND) jti []).
End Service.
