(* ===== verification/GatewayHttp.v ===== *)
(** * Authentication endpoints of the gateway

    [src/backend/gateway/app/rest/v1/auth.py], [rest/v1/admin_users.py],
    [core/auth.py] and the request bodies of [schemas/auth.py]: which request reaches which
    operation of [GatewayAuth], and which errors become which status. *)

From stdpp Require Import base strings sets list.
From S2P Require Import Prelude PyValue Base64 Auth Interleaving GatewayAuth.

Local Open Scope string_scope.
Local Open Scope list_scope.
Local Open Scope Z_scope.

Record http_request := mkRequest {
  rq_method : text; rq_origin : option text; rq_session_cookie : text;
  rq_csrf_cookie : option text; rq_csrf_header : option text;
  rq_client_host : option text; rq_user_agent : option text
}.

(** Cookies that are set; an empty value deletes the cookie. *)
Record http_reply := mkReply {
  rp_status : Z; rp_body : json; rp_session_cookie : option text; rp_csrf_cookie : option text
}.

Inductive endpoint :=
  | SetupStatus
  | Setup (email display_name password : text)
  | Login (tenant email password : text)
  | Me
  | Logout
  | SocketTicket
  | ListUsers
  | CreateUser (email display_name password : text)
  | UpdateStatus (user_id status : text)
  | ResetPassword (user_id password : text).

Definition HTTPException (code : Z) (detail : text) : py_exn :=
  PyError (lit "HTTPException " ++ show code) detail.

Definition raised (cls : string) (e : py_exn) : option text :=
  match e with PyError c m => if bool_decide (c = lit cls) then Some m else None | _ => None end.

Section Endpoints.
Context `{PyText} `{Crypto} `{GatewayEnv}.
Context (cfg : gateway_config) (dummy_hash : text).

Abbreviation gprog := (prog gateway).

(** ** Bodies *)

Definition sized (lo hi : Z) (t : text) : bool := (lo <=? zlen t) && (zlen t <=? hi).

(** [validate_email]: a local part, a domain with a dot, no space. *)
Definition validate_email (value : text) : option text :=
  let normalized := casefold (py_strip value) in
  match split_once 64 normalized with
  | Some ((_ :: _), ((_ :: _) as domain)) =>
      if bool_decide (46 ∈ domain) && (zlen normalized <=? 254) && negb (existsb isspace normalized)
      then Some normalized else None
  | _ => None
  end.

Definition valid_email (email : text) : option text := if sized 3 254 email then validate_email email else None.

Definition invalid_body : py_exn := HTTPException 422 (lit "validation error").

Definition validated (o : option text) : gprog text :=
  match o with Some t => pret t | None => praise invalid_body end.
Definition check_body (b : bool) : gprog unit := if b then pret tt else praise invalid_body.

(** ** Dependencies *)

Definition SAFE_METHODS : list text := [lit "GET"; lit "HEAD"; lit "OPTIONS"].

Definition rstrip_slash (t : text) : text := reverse (drop_while (fun c => c =? 47) (reverse t)).

Definition validate_browser_origin (r : http_request) : outcome py_exn unit :=
  match rq_origin r with
  | Some ((_ :: _) as origin) =>
      if bool_decide (rstrip_slash origin ∈ cors_origins_list cfg) then Ok tt
      else Raise (HTTPException 403 (lit "Origin is not allowed"))
  | _ => Ok tt
  end.

(** [except cls as exc: raise HTTPException(code, detail)]. *)
Definition translate {A} (p : gprog A) (clauses : list (string * (text -> py_exn))) : gprog A :=
  pcatch p (fun e =>
    match omap (fun c : string * (text -> py_exn) => match raised c.1 e with Some m => Some (c.2 m) | None => None end)
            clauses with
    | e' :: _ => Some (praise e')
    | [] => None
    end).

Definition get_current_user (r : http_request) : gprog (auth_identity * obj) :=
  plift (validate_browser_origin r);;~
  translate (authenticate_session cfg (rq_session_cookie r) (rq_csrf_cookie r) (rq_csrf_header r)
               (negb (bool_decide (rq_method r ∈ SAFE_METHODS))))
    [("AuthenticationFailed", HTTPException 401)].

Definition require_admin (r : http_request) : gprog auth_identity :=
  current <~ get_current_user r;
  if identity_is_admin current.1 then pret current.1
  else praise (HTTPException 403 (lit "Administrator role required")).

(** ** Endpoints *)

Definition signed_in (code : Z) (l : login_result) : http_reply :=
  mkReply code (JObj [("user", JObj (lr_user l))]) (Some (lr_session_token l)) (Some (lr_csrf_token l)).
Definition plain_reply (code : Z) (body : json) : http_reply := mkReply code body None None.

Definition bad_credentials (m : text) : py_exn := HTTPException 401 (lit "Invalid tenant, email or password").

Definition serve (r : http_request) (e : endpoint) : gprog http_reply :=
  match e with
  | SetupStatus =>
      b <~ needs_setup cfg;
      pret (plain_reply 200 (JObj [("needs_setup", JBool b)]))
  | Setup email display_name password =>
      email <~ validated (valid_email email);
      check_body (sized 1 120 display_name && sized 15 1024 password);;~
      plift (validate_browser_origin r);;~
      l <~ translate
             (claim_initial_admin cfg email display_name password;;~
              login cfg dummy_hash (bootstrap_tenant_id cfg) email password (rq_client_host r) (rq_user_agent r))
             [("UserConflict", HTTPException 409); ("AccountLocked", bad_credentials);
              ("AuthenticationFailed", bad_credentials)];
      pret (signed_in 201 l)
  | Login tenant_name email password =>
      check_body (sized 1 100 tenant_name && sized 1 1024 password);;~
      email <~ validated (valid_email email);
      plift (validate_browser_origin r);;~
      l <~ translate (login cfg dummy_hash tenant_name email password (rq_client_host r) (rq_user_agent r))
             [("AccountLocked", bad_credentials); ("AuthenticationFailed", HTTPException 401)];
      pret (signed_in 200 l)
  | Me =>
      current <~ get_current_user r;
      pret (plain_reply 200 (JObj [("user", JObj current.2)]))
  | Logout =>
      current <~ get_current_user r;
      logout cfg (rq_session_cookie r) current.1;;~
      pret (mkReply 204 JNull (Some []) (Some []))
  | SocketTicket =>
      current <~ get_current_user r;
      ticket <~ socket_ticket cfg current.1;
      pret (plain_reply 200 (JObj [("ticket", JStr ticket);
                                   ("expires_in", JInt (Z.min 120 (internal_auth_ticket_ttl_seconds cfg * 2)))]))
  | ListUsers =>
      actor <~ require_admin r;
      users <~ list_users actor;
      pret (plain_reply 200 (JArr (map JObj users)))
  | CreateUser email display_name password =>
      actor <~ require_admin r;
      email <~ validated (valid_email email);
      check_body (sized 1 120 display_name && sized 15 1024 password);;~
      u <~ translate (create_user cfg actor email display_name password)
             [("UserConflict", HTTPException 409); ("AuthError", HTTPException 400)];
      pret (plain_reply 201 (JObj u))
  | UpdateStatus user_id status =>
      actor <~ require_admin r;
      check_body (bool_decide (status = lit "active") || bool_decide (status = lit "disabled"));;~
      u <~ translate (set_user_status actor user_id status)
             [("AuthenticationFailed", fun _ => HTTPException 404 (lit "User not found"));
              ("AuthError", HTTPException 400)];
      pret (plain_reply 200 (JObj u))
  | ResetPassword user_id password =>
      actor <~ require_admin r;
      check_body (sized 15 1024 password);;~
      translate (set_user_password cfg actor user_id password)
        [("AuthenticationFailed", fun _ => HTTPException 404 (lit "User not found"));
         ("AuthError", HTTPException 400)];;~
      pret (plain_reply 204 JNull)
  end.

(** What runs concurrently: requests, the removal of expired sessions, and the operator's
    command that adds a tenant. *)
Inductive activity :=
  | Serve (r : http_request) (e : endpoint)
  | ExpireSessions
  | Bootstrap
  | Provision (tenant_id tenant_name admin_email admin_password display_name : text).

Definition act (a : activity) : gprog http_reply :=
  match a with
  | Serve r e => serve r e
  | ExpireSessions => expire_sessions;;~ pret (plain_reply 0 JNull)
  | Bootstrap => bootstrap_admin cfg;;~ pret (plain_reply 0 JNull)
  | Provision t n e p d => provision_tenant_admin cfg t n e p d;;~ pret (plain_reply 0 JNull)
  end.
End Endpoints.

(** ** A small gateway

    Concrete instances of what the gateway gets from libraries and from the outside, and
    collections with users of two tenants, for the examples of the files that follow. *)

Definition demo_gateway_env : GatewayEnv := {|
  clock := fun _ => 5000000000;
  uuid4 := fun n => lit "id-" ++ show (Z.of_nat n);
  token_urlsafe := fun n => lit "token-" ++ show (Z.of_nat n);
  token_bytes := fun _ => [1; 2; 3; 4];
  db_fault := fun _ => None
|}.

(** Every token drawn is the same. *)
Definition stuck_env : GatewayEnv := {|
  clock := fun _ => 5000000000;
  uuid4 := fun n => lit "id-" ++ show (Z.of_nat n);
  token_urlsafe := fun n => lit "token";
  token_bytes := fun _ => [1; 2; 3; 4];
  db_fault := fun _ => None
|}.

Definition demo_gateway_config : gateway_config :=
  mkGatewayConfig true 28800 demo_secret 60 (lit "pepper") [] (lit "default") (lit "Default Workspace") [] []
    [lit "https://app.example"].

(** Digests that copy their input after a zero. *)
Definition demo_crypto : Crypto := {|
  hmac_sha256 := fun k m => 0 :: map (fun c => c mod 256) (k ++ m);
  sha256_hex := @sha256_hex copy_crypto; pbkdf2_sha256 := @pbkdf2_sha256 copy_crypto;
  json_dumps := @json_dumps copy_crypto; json_loads := @json_loads copy_crypto
|}.

Section Demo.
#[local] Existing Instance ascii_text.
#[local] Existing Instance demo_crypto.

Definition demo_password : text := lit "correct horse battery".

Definition demo_hash : text :=
  match hash_password demo_password (lit "pepper") DEFAULT_PASSWORD_ITERATIONS [9; 9] with
  | Ok h => h
  | Raise _ => []
  end.

Definition demo_digest (token : string) : text :=
  match digest_of demo_gateway_config (lit token) with Ok d => d | Raise _ => [] end.

Definition account (oid : nat) (id tenant_id admin role : string) : user :=
  mkUser oid (lit id) (lit tenant_id) (lit admin) (lit id ++ lit "@example.org") (lit id) (lit role) (lit "active")
    demo_hash 0 None None 0 0.

Definition session_of (oid : nat) (token tenant_id user_id : string) (revoked : option Z) : session :=
  mkSession oid (lit token) (demo_digest token) (demo_digest "csrf") (lit tenant_id) (lit user_id) 0 0
    (bson_date 99000000000) None [] revoked.

Definition demo_gateway : gateway :=
  mkGateway
    [account 0 "a1" "acme" "a1" "admin"; account 1 "u1" "acme" "a1" "user";
     account 2 "a9" "umbrella" "a9" "admin"; account 3 "a2" "acme" "a2" "admin"]
    [mkTenant (lit "acme") (lit "acme") (lit "Acme") (lit "active") 0;
     mkTenant (lit "umbrella") (lit "umbrella") (lit "Umbrella") (lit "active") 0]
    [session_of 4 "alpha" "acme" "a1" None; session_of 5 "beta" "acme" "u1" (Some 0);
     session_of 6 "gamma" "umbrella" "a9" None; session_of 7 "delta" "acme" "a2" None]
    [] 8.

Definition request_with (method token : string) : http_request :=
  mkRequest (lit method) None (lit token) (Some (lit "csrf")) (Some (lit "csrf")) None None.
End Demo.
