(* ===== verification/GatewayLogic.v ===== *)
(** * Invariants of the gateway's collections

    What every atomic action of [GatewayAuth] keeps ([wf]), how the collections evolve
    under any interleaving ([evolves]), and rules of the rely-guarantee logic for the
    primitives of the service.  A class of accounts may be [protected]: then no action of a
    program verified here changes the status, the password or the identity of such an
    account. *)

From stdpp Require Import base strings sets list.
From S2P Require Import Prelude PyValue Base64 Auth Interleaving GatewayAuth GatewayHttp.

Local Open Scope string_scope.
Local Open Scope list_scope.
Local Open Scope Z_scope.

(** ** Lists *)

Lemma NoDup_snoc {A} (l : list A) x : x ∉ l -> NoDup l -> NoDup (l ++ [x]).
Proof. intros Hx Hl. apply NoDup_app. split; [done|]. split; [set_solver|apply NoDup_singleton]. Qed.

(** ** Well-formed collections *)

Definition count_ok (u : user) : Prop := 0 <= u_failed_login_count u < MAX_FAILED_LOGINS.

Record wf (g : gateway) : Prop := mkWf {
  wf_user_oid : NoDup (map u_oid (g_users g));
  wf_user_id : NoDup (map u_user_id (g_users g));
  wf_email : NoDup (map (fun u => (u_tenant_id u, u_email u)) (g_users g));
  wf_count : Forall count_ok (g_users g);
  wf_oid_bound : Forall (fun u => (u_oid u < g_tick g)%nat) (g_users g);
  wf_tenant_id : NoDup (map t_tenant_id (g_tenants g));
  wf_slug : NoDup (map t_slug (g_tenants g));
  wf_digest : NoDup (map s_token_digest (g_sessions g));
  wf_session_oid : NoDup (map s_oid (g_sessions g));
  wf_session_bound : Forall (fun s => (s_oid s < g_tick g)%nat) (g_sessions g)
}.

(** What never changes of a user, and what a login may not change either. *)
Definition person_id : Type := nat * text * text * text * text * text.
Definition person (u : user) : person_id := (u_oid u, u_user_id u, u_tenant_id u, u_admin_id u, u_email u, u_role u).
Definition same_person (u u' : user) : Prop := person u = person u'.
Definition same_account (u u' : user) : Prop :=
  same_person u u' /\ u_status u = u_status u' /\ u_password_hash u = u_password_hash u' /\
  u_display_name u = u_display_name u'.

(** A session keeps its owner, its digests and its lifetime, and stays revoked. *)
Definition same_session (s s' : session) : Prop :=
  s_oid s = s_oid s' /\ s_session_id s = s_session_id s' /\ s_token_digest s = s_token_digest s' /\
  s_csrf_digest s = s_csrf_digest s' /\ s_tenant_id s = s_tenant_id s' /\ s_user_id s = s_user_id s' /\
  s_expires_at s = s_expires_at s' /\ (is_Some (s_revoked_at s) -> is_Some (s_revoked_at s')).

#[export] Instance same_person_equiv : Equivalence same_person.
Proof. split; unfold same_person; repeat intro; congruence. Qed.
#[export] Instance same_account_preorder : PreOrder same_account.
Proof.
  split; [by intros u|]. intros u v w (H1 & H2 & H3 & H4) (H5 & H6 & H7 & H8). unfold same_account.
  split; [by etrans|]. split_and!; congruence.
Qed.
#[export] Instance same_session_preorder : PreOrder same_session.
Proof.
  split; [by intros s|]. unfold same_session. intros s1 s2 s3 (H1 & H2 & H3 & H4 & H5 & H6 & H7 & H8)
    (K1 & K2 & K3 & K4 & K5 & K6 & K7 & K8). split_and!; try congruence. auto.
Qed.

Section Logic.
Context `{PyText} `{Crypto} `{GatewayEnv}.
Context (cfg : gateway_config) (n0 : nat) (protected : person_id -> Prop).

(** A session opened with a token drawn at [n0] or later. *)
Definition fresh_session (s : session) : Prop :=
  exists n, (n0 <= n)%nat /\ digest_of cfg (token_urlsafe n) = Ok (s_token_digest s).

Definition users_kept (g g' : gateway) : Prop :=
  forall u, u ∈ g_users g -> exists u', u' ∈ g_users g' /\ same_person u u'.
Definition sessions_kept (g g' : gateway) : Prop :=
  forall s', s' ∈ g_sessions g' -> (exists s, s ∈ g_sessions g /\ same_session s s') \/ fresh_session s'.

Definition evolves (g g' : gateway) : Prop :=
  (wf g -> wf g') /\ (g_tick g <= g_tick g')%nat /\ users_kept g g' /\ sessions_kept g g'.

#[export] Instance evolves_preorder : PreOrder evolves.
Proof.
  split.
  - intros g. split; [done|]. split; [lia|]. split; [intros u Hu; by exists u|]. intros s Hs. left. by exists s.
  - intros g1 g2 g3 (W1 & T1 & U1 & S1) (W2 & T2 & U2 & S2). split; [auto|]. split; [lia|]. split.
    + intros u (u' & Hu' & E)%U1. destruct (U2 _ Hu') as (u2 & Hu2 & E2). exists u2. split; [done|by etrans].
    + intros s3 [(s2 & Hs2 & E2)|]%S2; [|by right]. destruct (S1 _ Hs2) as [(s1 & Hs1 & E1)|(n & Hn & E)].
      * left. exists s1. split; [done|by etrans].
      * right. exists n. split; [done|]. destruct E2 as (_ & _ & <- & _). done.
Qed.

Definition accounts_kept (g g' : gateway) : Prop :=
  wf g -> forall u, u ∈ g_users g -> protected (person u) -> exists u', u' ∈ g_users g' /\ same_account u u'.

Definition guar (g g' : gateway) : Prop := evolves g g' /\ accounts_kept g g'.
Definition good (g : gateway) : Prop := wf g /\ (n0 <= g_tick g)%nat.

(** [p] keeps the collections, changes no protected account and ends with [Q], whatever the
    others do meanwhile. *)
Definition spec {A} (p : prog gateway A) (g : gateway) (Q : outcome py_exn A -> gateway -> Prop) : Prop :=
  good g -> rg evolves guar p g (fun o g' => good g' /\ evolves g g' /\ Q o g').

Lemma good_evolves g g' : good g -> evolves g g' -> good g'.
Proof. intros [Hw Hn] (W & Ht & _). split; [auto|lia]. Qed.

Lemma gspec_conseq {A} (p : prog gateway A) g (Q Q' : outcome py_exn A -> gateway -> Prop) :
  spec p g Q -> (forall o g', evolves g g' -> good g' -> Q o g' -> Q' o g') -> spec p g Q'.
Proof. intros Hp HQ Hg. eapply rg_conseq; [by apply Hp|done|]. naive_solver. Qed.

Lemma gspec_ret {A} (a : A) g (Q : outcome py_exn A -> gateway -> Prop) : Q (Ok a) g -> spec (pret a) g Q.
Proof. intros HQ Hg. by split_and!. Qed.
Lemma gspec_raise {A} e g (Q : outcome py_exn A -> gateway -> Prop) : Q (Raise e) g -> spec (praise e) g Q.
Proof. intros HQ Hg. by split_and!. Qed.
Lemma gspec_lift {A} (o : outcome py_exn A) g (Q : outcome py_exn A -> gateway -> Prop) : Q o g -> spec (plift o) g Q.
Proof. intros HQ Hg. by split_and!. Qed.

Lemma gspec_bind {A B} (p : prog gateway A) (k : A -> prog gateway B) g Q :
  spec p g (fun o g' => match o with Ok a => spec (k a) g' Q | Raise e => Q (Raise e) g' end) ->
  spec (pbind p k) g Q.
Proof.
  intros Hp Hg. apply rg_bind. eapply rg_conseq; [by apply Hp|done|].
  intros [a|e] g' (Hg' & He & Hk); [|done]. eapply rg_conseq; [by apply Hk|done|].
  intros o g2 (? & ? & ?). split_and!; [done|by etrans|done].
Qed.

Lemma gspec_catch {A} (p : prog gateway A) h g Q :
  spec p g (fun o g' => match o with
                        | Ok a => Q (Ok a) g'
                        | Raise e => match h e with Some q => spec q g' Q | None => Q (Raise e) g' end
                        end) ->
  spec (pcatch p h) g Q.
Proof.
  intros Hp Hg. apply rg_catch. eapply rg_conseq; [by apply Hp|done|].
  intros [a|e] g' (Hg' & He & Hk); [done|]. destruct (h e) as [q|]; [|done].
  eapply rg_conseq; [by apply Hk|done|]. intros o g2 (? & ? & ?). split_and!; [done|by etrans|done].
Qed.

Lemma spec_atomically {A} (c : eff gateway A) g Q :
  (forall g', evolves g g' -> good g' -> guar g' (c g').2 /\ Q (c g').1 (c g').2) -> spec (atomically c) g Q.
Proof.
  intros Hc Hg. apply rg_atomically. intros g' He. pose proof (good_evolves _ _ Hg He) as Hg'.
  destruct (Hc g' He Hg') as [Hr HQ]. split; [done|]. split_and!; [|by etrans; [|apply Hr]|done].
  eapply good_evolves; [done|apply Hr].
Qed.

(** ** Primitives *)

#[export] Instance guar_preorder : PreOrder guar.
Proof.
  split.
  - intros g. split; [done|]. intros _ u Hu _. by exists u.
  - intros g1 g2 g3 [E1 A1] [E2 A2]. split; [by etrans|]. intros Hw u Hu Hp.
    destruct (A1 Hw u Hu Hp) as (u' & Hu' & Ha). destruct E1 as [W1 _].
    destruct (A2 (W1 Hw) u' Hu') as (u2 & Hu2 & Ha2); [destruct Ha as [Ha _]; unfold same_person in Ha; by rewrite <- Ha|].
    exists u2. split; [done|by etrans].
Qed.

Definition ticked (g : gateway) : gateway := g {{ g_tick ::= S }}.

Lemma guar_ticked g : guar g (ticked g).
Proof.
  split; [|intros _ u Hu _; by exists u]. split; [|split; [cbn; lia|split]].
  - intros []. split; try done; cbn; (eapply Forall_impl; [done|]); cbn; lia.
  - intros u Hu. by exists u.
  - intros s Hs. left. by exists s.
Qed.

Lemma spec_interact {A} (f : nat -> A) g Q :
  (forall g', evolves g g' -> good g' -> Q (Ok (f (g_tick g'))) (ticked g')) -> spec (interact f) g Q.
Proof. intros HQ. apply spec_atomically. intros g' He Hg. split; [apply guar_ticked|by apply HQ]. Qed.

(** A call of the database that does [c], or fails before or after it. *)
Lemma spec_db {A} (c : eff gateway A) g (Q : outcome py_exn A -> gateway -> Prop) :
  (forall g', evolves g g' -> good g' ->
     guar g' (ticked (c g').2) /\ Q (c g').1 (ticked (c g').2) /\
     forall m, Q (Raise (mongo_error m)) (ticked (c g').2) /\ Q (Raise (mongo_error m)) (ticked g')) ->
  spec (db_call c) g Q.
Proof.
  intros Hc. apply spec_atomically. intros g' He Hg. destruct (Hc g' He Hg) as (Hr & HQ & Hm).
  unfold db_step. destruct (db_fault (g_tick g')) as [[[] m]|]; cbn.
  - split; [done|apply Hm].
  - split; [apply guar_ticked|apply Hm].
  - by destruct (c g') as [o g2].
Qed.

(** A read. *)
Lemma spec_read {A} (f : gateway -> A) g (Q : outcome py_exn A -> gateway -> Prop) :
  (forall g', evolves g g' -> good g' -> Q (Ok (f g')) (ticked g')) ->
  (forall g' m, Q (Raise (mongo_error m)) g') ->
  spec (db_call (gets f)) g Q.
Proof. intros HQ Hm. apply spec_db. intros g' He Hg. split; [apply guar_ticked|]. split; [by apply HQ|auto]. Qed.

(** A write. *)
Lemma spec_write {A} (c : eff gateway A) g (Q : outcome py_exn A -> gateway -> Prop) :
  (forall g', evolves g g' -> good g' -> guar g' (ticked (c g').2)) ->
  (forall o g', evolves g g' -> Q o g') -> spec (db_call c) g Q.
Proof.
  intros Hr HQ. apply spec_db. intros g' He Hg. pose proof (Hr g' He Hg) as Hg'. split; [done|].
  assert (evolves g (ticked (c g').2)) by (etrans; [exact He|apply Hg']).
  assert (evolves g (ticked g')) by (etrans; [exact He|apply guar_ticked]). auto.
Qed.

(** The users stay, and the other collections keep their indexes. *)
Lemma guar_others g l k a :
  (wf g -> NoDup (map t_tenant_id l) /\ NoDup (map t_slug l)) ->
  (wf g -> NoDup (map s_token_digest k) /\ NoDup (map s_oid k) /\ Forall (fun s => (s_oid s <= g_tick g)%nat) k) ->
  (forall s', s' ∈ k -> (exists s, s ∈ g_sessions g /\ same_session s s') \/ fresh_session s') ->
  guar g (ticked (mkGateway (g_users g) l k a (g_tick g))).
Proof.
  intros Hl Hk Hs. split; [|intros _ u Hu _; by exists u]. split; [|split; [cbn; lia|split]].
  - intros Hw. destruct (Hl Hw) as [? ?]. destruct (Hk Hw) as (? & ? & Hb). destruct Hw.
    split; try done; cbn; (eapply Forall_impl; [done|]); cbn; lia.
  - intros u Hu. by exists u.
  - exact Hs.
Qed.

Lemma wf_sessions g : wf g -> NoDup (map s_token_digest (g_sessions g)) /\ NoDup (map s_oid (g_sessions g)) /\
  Forall (fun s => (s_oid s <= g_tick g)%nat) (g_sessions g).
Proof. intros []. split_and!; try done. eapply Forall_impl; [done|]. cbn. lia. Qed.

Lemma guar_tenants g l :
  (wf g -> NoDup (map t_tenant_id l) /\ NoDup (map t_slug l)) -> guar g (ticked (g {{ g_tenants := l }})).
Proof.
  intros Hl. apply (guar_others g l (g_sessions g) (g_audit g)); [done|apply wf_sessions|].
  intros s Hs. left. by exists s.
Qed.

(** A change of sessions that keeps their identity. *)
Lemma guar_sessions g k :
  (forall s', s' ∈ k -> exists s, s ∈ g_sessions g /\ same_session s s') ->
  sublist (map (fun s => (s_oid s, s_token_digest s)) k) (map (fun s => (s_oid s, s_token_digest s)) (g_sessions g)) ->
  guar g (ticked (g {{ g_sessions := k }})).
Proof.
  intros Hk Hsub. apply (guar_others g (g_tenants g) k (g_audit g)); [by intros []| |by left; apply Hk].
  intros Hw. destruct (wf_sessions g Hw) as (Hd & Ho & Hb).
  assert (forall B (f : nat * text -> B), NoDup (map f (map (fun s => (s_oid s, s_token_digest s)) (g_sessions g))) ->
    NoDup (map f (map (fun s => (s_oid s, s_token_digest s)) k))) as Hn.
  { intros B f HN. eapply sublist_NoDup; [exact HN|]. by apply fmap_sublist. }
  split_and!.
  - specialize (Hn _ snd). rewrite !map_map in Hn. by apply Hn.
  - specialize (Hn _ fst). rewrite !map_map in Hn. by apply Hn.
  - rewrite Forall_forall in Hb |- *. intros s' (s & Hs & E & _)%Hk. rewrite <- E. by apply Hb.
Qed.

(** An update keeps the person of every user, and the account of a protected one. *)
Lemma guar_update_user g oid f :
  (forall u, same_person u (f u)) -> (forall u, count_ok u -> count_ok (f u)) ->
  (forall u, u ∈ g_users g -> u_oid u = oid -> protected (person u) -> same_account u (f u)) ->
  guar g (ticked (g {{ g_users ::= update_first (fun u => bool_decide (u_oid u = oid)) f }})).
Proof.
  intros Hf Hc Ha.
  assert (forall B (p : user -> B), (forall u, p (f u) = p u) ->
    map p (update_first (fun u => bool_decide (u_oid u = oid)) f (g_users g)) = map p (g_users g)) as Hm.
  { intros B p Hp. by apply update_first_map. }
  assert (forall u, person (f u) = person u) as Hf' by (intros u; symmetry; apply Hf). unfold person in Hf'.
  split; [split; [|split; [cbn; lia|split]]|].
  - intros Hw. pose proof (wf_count g Hw) as Hcount. pose proof (wf_oid_bound g Hw) as Hbound. destruct Hw.
    split; cbn; rewrite ?Hm by (intros u; specialize (Hf' u); congruence); try done.
    + rewrite Forall_forall in Hcount |- *. intros u [Hu|(v & Hv & _ & ->)]%update_first_elem; auto.
    + rewrite Forall_forall in Hbound |- *. intros u [Hu|(v & Hv & _ & ->)]%update_first_elem.
      * specialize (Hbound u Hu). lia.
      * specialize (Hbound v Hv). specialize (Hf' v). cbn in *. injection Hf' as -> _ _ _ _ _. lia.
    + eapply Forall_impl; [done|]. cbn. lia.
  - intros u Hu. cbn. destruct (update_first_old (fun u => bool_decide (u_oid u = oid)) f _ u Hu) as (v & Hv & [->|[_ ->]]).
    + by exists u.
    + exists (f u). split; [done|apply Hf].
  - intros s Hs. left. by exists s.
  - intros _ u Hu Hp. cbn.
    destruct (update_first_old (fun u => bool_decide (u_oid u = oid)) f _ u Hu) as (v & Hv & [->|[E ->]]).
    + by exists u.
    + exists (f u). split; [done|]. apply bool_decide_eq_true in E. by apply Ha.
Qed.

Lemma guar_insert_user g u :
  existsb (fun u' => bool_decide (u_user_id u' = u_user_id u)
             || (bool_decide (u_tenant_id u' = u_tenant_id u) && bool_decide (u_email u' = u_email u)))
    (g_users g) = false ->
  count_ok u ->
  guar g (ticked (g {{ g_users ::= (.++ [u {{ u_oid := g_tick g }}]) }})).
Proof.
  intros Hnew Hc.
  assert (forall u', u' ∈ g_users g -> u_user_id u' <> u_user_id u /\
    (u_tenant_id u', u_email u') <> (u_tenant_id u, u_email u)) as Hne.
  { intros u' Hu'. pose proof (existsb_false _ _ _ Hnew Hu') as E. apply orb_false_iff in E as [E1 E2].
    apply bool_decide_eq_false in E1. split; [done|]. intros [= E3 E4]. rewrite E3, E4 in E2.
    by rewrite !bool_decide_true in E2. }
  split; [split; [|split; [cbn; lia|split]]|].
  - intros []. split; cbn; rewrite ?map_app; try done.
    + apply NoDup_snoc; [|done]. cbn. intros (u' & E & Hu')%list_elem_of_fmap.
      rewrite Forall_forall in wf_oid_bound0. specialize (wf_oid_bound0 _ Hu'). lia.
    + apply NoDup_snoc; [|done]. cbn. intros (u' & E & Hu')%list_elem_of_fmap. by destruct (Hne _ Hu').
    + apply NoDup_snoc; [|done]. cbn. intros (u' & E & Hu')%list_elem_of_fmap. by destruct (Hne _ Hu').
    + apply Forall_app. split; [done|]. by apply Forall_singleton.
    + apply Forall_app. split; [|apply Forall_singleton; cbn; lia].
      eapply Forall_impl; [done|]. cbn. lia.
    + eapply Forall_impl; [done|]. cbn. lia.
  - intros u' Hu'. exists u'. split; [cbn; set_solver|done].
  - intros s Hs. left. by exists s.
  - intros _ u' Hu' _. exists u'. split; [cbn; set_solver|done].
Qed.

Lemma guar_insert_session g s :
  existsb (fun s' => bool_decide (s_token_digest s' = s_token_digest s)) (g_sessions g) = false ->
  fresh_session s ->
  guar g (ticked (g {{ g_sessions ::= (.++ [s {{ s_oid := g_tick g }}]) }})).
Proof.
  intros Hnew Hf. apply (guar_others g (g_tenants g) _ (g_audit g)); [by intros []| |].
  - intros Hw. destruct (wf_sessions g Hw) as (Hd & Ho & Hb). rewrite !map_app. split_and!.
    + apply NoDup_snoc; [|done]. cbn. intros (s' & E & Hs')%list_elem_of_fmap.
      pose proof (existsb_false _ _ _ Hnew Hs') as E'. cbn in E'. by rewrite bool_decide_true in E'.
    + apply NoDup_snoc; [|done]. cbn. intros (s' & E & Hs')%list_elem_of_fmap.
      destruct Hw. rewrite Forall_forall in wf_session_bound0. specialize (wf_session_bound0 _ Hs'). lia.
    + apply Forall_app. split; [done|]. apply Forall_singleton. cbn. lia.
  - intros s' [Hs'|Hs'%list_elem_of_singleton]%elem_of_app; [left; by exists s'|right]. by subst s'.
Qed.

(** *** Writes of the service *)

Lemma spec_insert_tenant t g (Q : outcome py_exn unit -> gateway -> Prop) :
  (forall o g', evolves g g' -> Q o g') -> spec (insert_tenant t) g Q.
Proof.
  apply spec_write. intros g' _ Hg. destruct (existsb _ _) eqn:E; [apply guar_ticked|].
  apply (guar_tenants g' (g_tenants g' ++ [t])). intros []. rewrite !map_app.
  assert (forall t', t' ∈ g_tenants g' -> t_tenant_id t' <> t_tenant_id t /\ t_slug t' <> t_slug t) as Hne.
  { intros t' Ht'. pose proof (existsb_false _ _ _ E Ht') as E'. apply orb_false_iff in E' as [E1 E2].
    by apply bool_decide_eq_false in E1, E2. }
  split; (apply NoDup_snoc; [|done]); intros (t' & Et & Ht')%list_elem_of_fmap; by destruct (Hne _ Ht').
Qed.

Lemma spec_delete_tenant id g (Q : outcome py_exn unit -> gateway -> Prop) :
  (forall o g', evolves g g' -> Q o g') -> spec (delete_tenant id) g Q.
Proof.
  apply spec_write. intros g' _ Hg. apply (guar_tenants g'). intros [].
  split; (eapply sublist_NoDup; [|apply fmap_sublist, delete_first_sublist]); done.
Qed.

Lemma spec_insert_user u g (Q : outcome py_exn unit -> gateway -> Prop) :
  count_ok u -> (forall o g', evolves g g' -> Q o g') -> spec (insert_user u) g Q.
Proof.
  intros Hc. apply spec_write. intros g' _ Hg. destruct (existsb _ _) eqn:E; [apply guar_ticked|].
  by apply guar_insert_user.
Qed.

Lemma spec_update_user oid f g (Q : outcome py_exn unit -> gateway -> Prop) :
  (forall u, same_person u (f u)) -> (forall u, count_ok u -> count_ok (f u)) ->
  (forall g', evolves g g' -> wf g' ->
     forall u, u ∈ g_users g' -> u_oid u = oid -> protected (person u) -> same_account u (f u)) ->
  (forall o g', evolves g g' -> Q o g') -> spec (update_user oid f) g Q.
Proof. intros Hf Hc Ha. apply spec_write. intros g' He [Hw _]. apply guar_update_user; [done|done|by apply Ha]. Qed.

Lemma spec_insert_session s g (Q : outcome py_exn unit -> gateway -> Prop) :
  fresh_session s -> (forall o g', evolves g g' -> Q o g') -> spec (insert_session s) g Q.
Proof.
  intros Hf. apply spec_write. intros g' _ Hg. destruct (existsb _ _) eqn:E; [apply guar_ticked|].
  by apply guar_insert_session.
Qed.

Lemma spec_update_session p f g (Q : outcome py_exn unit -> gateway -> Prop) :
  (forall s, same_session s (f s)) -> (forall o g', evolves g g' -> Q o g') -> spec (update_session p f) g Q.
Proof.
  intros Hf. apply spec_write. intros g' _ Hg. apply guar_sessions.
  - intros s' [Hs|(s & Hs & _ & ->)]%update_first_elem; [by exists s'|]. exists s. split; [done|apply Hf].
  - rewrite update_first_map; [done|]. intros s. by destruct (Hf s) as (-> & _ & -> & _).
Qed.

Lemma spec_update_sessions p f g (Q : outcome py_exn unit -> gateway -> Prop) :
  (forall s, same_session s (f s)) -> (forall o g', evolves g g' -> Q o g') -> spec (update_sessions p f) g Q.
Proof.
  intros Hf. apply spec_write. intros g' _ Hg. apply guar_sessions.
  - intros s' (s & Hs & ->)%update_all_elem. exists s. split; [done|]. destruct (p s); [apply Hf|done].
  - rewrite update_all_map; [done|]. intros s. by destruct (Hf s) as (-> & _ & -> & _).
Qed.

Lemma spec_expire_sessions g (Q : outcome py_exn unit -> gateway -> Prop) :
  (forall o g', Q o g') -> spec expire_sessions g Q.
Proof.
  intros HQ. apply gspec_bind, spec_interact. intros g1 He1 Hg1. apply spec_write; [|auto].
  intros g' _ Hg. apply guar_sessions.
  - intros s' Hs. apply list_elem_of_In, filter_In in Hs as [Hs _]. exists s'. by rewrite list_elem_of_In.
  - apply fmap_sublist. clear. induction (g_sessions g') as [|s l IH]; cbn; [done|]. case_match; by constructor.
Qed.

Lemma spec_audit t a n target ip g (Q : outcome py_exn unit -> gateway -> Prop) :
  (forall o g', evolves g g' -> Q o g') -> spec (audit t a n target ip) g Q.
Proof.
  intros HQ. apply gspec_bind, spec_interact. intros g1 He1 Hg1. apply gspec_bind, spec_interact. intros g2 He2 Hg2.
  apply spec_write.
  - intros g' _ Hg. apply (guar_others g' (g_tenants g') (g_sessions g')); [by intros []|apply wf_sessions|].
    intros s Hs. left. by exists s.
  - intros o g' He. apply HQ. etrans; [exact He1|]. etrans; [apply guar_ticked|]. etrans; [exact He2|].
    etrans; [apply guar_ticked|done].
Qed.

Lemma spec_hash password g (Q : outcome py_exn text -> gateway -> Prop) :
  (forall o g', evolves g g' -> Q o g') -> spec (password_hash cfg password) g Q.
Proof.
  intros HQ. apply gspec_bind, spec_interact. intros g1 He1 Hg1. apply gspec_lift, HQ.
  etrans; [exact He1|apply guar_ticked].
Qed.

(** The user with an [_id] stays the same person. *)
Lemma oid_person g g' u v :
  evolves g g' -> wf g' -> u ∈ g_users g -> v ∈ g_users g' -> u_oid v = u_oid u -> same_person u v.
Proof.
  intros (_ & _ & Hu & _) Hw Hin Hv E. destruct (Hu u Hin) as (u' & Hu' & Hp). unfold same_person in *.
  assert (v = u') as ->; [|done]. eapply NoDup_map_inj; [apply (wf_user_oid g' Hw)|done|done|].
  rewrite E. by injection Hp.
Qed.
End Logic.

(** The example collections are well formed. *)
Lemma demo_gateway_wf : wf demo_gateway.
Proof.
  split; try (apply (bool_decide_unpack _); vm_compute; exact I);
    repeat (apply Forall_cons; split; [unfold count_ok, MAX_FAILED_LOGINS; cbn; lia|]); apply Forall_nil; exact I.
Qed.
