(* ===== verification/GatewaySafety.v ===== *)
(** * Safety of users and sessions under concurrency

    Every activity of [GatewayHttp] verified in the logic of [GatewayLogic], and what
    follows for any number of concurrent requests in any interleaving of their database
    calls: the collections stay well formed, revoked sessions stay dead, accounts change
    only through the session of the administrator that manages them, and the first-run
    setup stays closed. *)

From stdpp Require Import base strings sets list.
From S2P Require Import Prelude PyValue Base64 Auth Interleaving GatewayAuth GatewayHttp GatewayLogic.

Local Open Scope string_scope.
Local Open Scope list_scope.
Local Open Scope Z_scope.

Section Safety.
Context `{PyText} `{Crypto} `{GatewayEnv}.
Context (cfg : gateway_config) (dummy_hash : text) (n0 : nat) (protected : person_id -> Prop).

Abbreviation spec := (GatewayLogic.spec cfg n0 protected).
Abbreviation evolves := (GatewayLogic.evolves cfg n0).
Abbreviation safe p g := (spec p g (fun _ _ => True)).

Lemma evolves_ticked g : evolves g (ticked g).
Proof. apply (guar_ticked cfg n0 protected). Qed.

(** One step of a program whose result does not matter. *)
Ltac gstep :=
  lazymatch goal with
  | |- GatewayLogic.spec _ _ _ (pbind _ _) _ _ => apply gspec_bind
  | |- GatewayLogic.spec _ _ _ (pret _) _ _ => apply gspec_ret
  | |- GatewayLogic.spec _ _ _ (praise _) _ _ => apply gspec_raise
  | |- GatewayLogic.spec _ _ _ (plift ?o) _ _ => apply gspec_lift; destruct o eqn:?
  | |- GatewayLogic.spec _ _ _ (interact _) _ _ => apply spec_interact; intros ? ? ?
  | |- GatewayLogic.spec _ _ _ utcnow _ _ => apply spec_interact; intros ? ? ?
  | |- GatewayLogic.spec _ _ _ new_uuid _ _ => apply spec_interact; intros ? ? ?
  | |- GatewayLogic.spec _ _ _ new_opaque_token _ _ => apply spec_interact; intros ? ? ?
  | |- GatewayLogic.spec _ _ _ (password_hash _ _) _ _ => apply spec_hash; intros [?|?] ? ?
  | |- GatewayLogic.spec _ _ _ (audit _ _ _ _ _) _ _ => apply spec_audit; intros [?|?] ? ?
  | |- GatewayLogic.spec _ _ _ (insert_tenant _) _ _ => apply spec_insert_tenant; intros [?|?] ? ?
  | |- GatewayLogic.spec _ _ _ (delete_tenant _) _ _ => apply spec_delete_tenant; intros [?|?] ? ?
  | |- GatewayLogic.spec _ _ _ (insert_user _) _ _ => apply spec_insert_user; [|intros [?|?] ? ?]
  | |- GatewayLogic.spec _ _ _ count_users _ _ => apply spec_read; [intros ? ? ?|intros ? ?]
  | |- GatewayLogic.spec _ _ _ (find_user _) _ _ => apply spec_read; [intros ? ? ?|intros ? ?]
  | |- GatewayLogic.spec _ _ _ (find_tenant _) _ _ => apply spec_read; [intros ? ? ?|intros ? ?]
  | |- GatewayLogic.spec _ _ _ (find_session _) _ _ => apply spec_read; [intros ? ? ?|intros ? ?]
  | |- GatewayLogic.spec _ _ _ (on_exception _ _) _ _ => apply gspec_catch
  | |- GatewayLogic.spec _ _ _ (if ?b then _ else _) _ _ => destruct b eqn:?
  | |- GatewayLogic.spec _ _ _ (match ?x with _ => _ end) _ _ => destruct x eqn:?
  | e : py_exn |- match _ with Some _ => _ | None => _ end => destruct e
  | |- count_ok _ => unfold count_ok, MAX_FAILED_LOGINS; cbn; lia
  | |- True => exact I
  end; cbn beta iota zeta.
Ltac gwalk := repeat gstep.

(** ** Setup and provisioning *)

Lemma safe_create_initial_admin email password name action g :
  safe (create_initial_admin cfg email password name action) g.
Proof. unfold create_initial_admin. gwalk. Qed.

Lemma safe_claim email name password g : safe (claim_initial_admin cfg email name password) g.
Proof. unfold claim_initial_admin. gwalk. apply safe_create_initial_admin. Qed.

Lemma safe_bootstrap g : safe (bootstrap_admin cfg) g.
Proof.
  unfold bootstrap_admin. gwalk. eapply gspec_conseq; [apply safe_create_initial_admin|].
  intros [o|e] ? _ _ _; gwalk.
Qed.

Lemma safe_provision t n e p d g : safe (provision_tenant_admin cfg t n e p d) g.
Proof. unfold provision_tenant_admin. gwalk. Qed.

(** ** Login *)

Lemma good_tick g : good n0 g -> (n0 <= g_tick g)%nat.
Proof. by intros [_ ?]. Qed.

Lemma failed_login_account c now u : same_account u (failed_login c now u).
Proof. unfold failed_login. by case_match. Qed.
Lemma successful_login_account now u : same_account u (successful_login now u).
Proof. done. Qed.
Lemma failed_login_count c now u : 0 <= c < MAX_FAILED_LOGINS -> count_ok (failed_login c now u).
Proof.
  unfold failed_login, count_ok, MAX_FAILED_LOGINS. intros Hc. destruct (Z.leb_spec 5 (c + 1)); cbn; lia.
Qed.

Lemma safe_login_update oid f g (Q : outcome py_exn unit -> gateway -> Prop) :
  (forall u, same_account u (f u)) -> (forall u, count_ok u -> count_ok (f u)) ->
  (forall o g', evolves g g' -> Q o g') -> spec (update_user oid f) g Q.
Proof. intros Hf Hc. apply spec_update_user; [intros u; apply Hf|done|auto]. Qed.

Lemma safe_login t email password ip ua g : safe (login cfg dummy_hash t email password ip ua) g.
Proof.
  unfold login, finish_login. gwalk.
  all: lazymatch goal with
  | E : List.find _ (g_users ?g1) = Some ?u, Hg : good _ ?g1 |- context [update_user] =>
      apply safe_login_update;
      [intros v; apply failed_login_account || apply successful_login_account
      |intros v Hv; try (apply failed_login_count; destruct Hg as [Hw _]; apply find_spec in E as [E _];
         pose proof (wf_count _ Hw) as Hc; rewrite Forall_forall in Hc; by apply (Hc u)); done
      |intros [?|?] ? ?; cbn beta iota; gwalk]
  end.
  apply spec_insert_session; [eexists; split; [|eassumption]; by apply good_tick|].
  intros [?|?] ? ?; gwalk.
Qed.

(** ** Sessions *)

(** The caller holds the token of a session of that user, opened before [g] or with a token
    drawn since, and not revoked when it was read. *)
Definition speaks (g : gateway) (i : auth_identity) (token : text) : Prop :=
  exists s, digest_of cfg token = Ok (s_token_digest s) /\ s_revoked_at s = None /\
    ai_tenant_id i = s_tenant_id s /\ ai_user_id i = s_user_id s /\
    ((exists s0, s0 ∈ g_sessions g /\ same_session s0 s) \/ fresh_session cfg n0 s).

Hypothesis auth_on : auth_required cfg = true.

Lemma identity_of_ids u sid i : identity_of u sid = Ok i -> ai_tenant_id i = u_tenant_id u /\ ai_user_id i = u_user_id u.
Proof. unfold identity_of, new_identity. repeat case_match; intros [= <-]; done. Qed.

Lemma same_session_seen s now : same_session s (s {{ s_last_seen_at := now }}).
Proof. done. Qed.
Lemma same_session_revoked s now : same_session s (s {{ s_revoked_at := Some now }}).
Proof. by unfold same_session. Qed.

Lemma found_speaks g g' token now d s u i :
  evolves g g' -> digest_of cfg token = Ok d ->
  List.find (fun s => bool_decide (s_token_digest s = d) && live now s) (g_sessions g') = Some s ->
  has_id (s_tenant_id s) (s_user_id s) u && bool_decide (u_status u = lit "active") = true ->
  identity_of u (s_session_id s) = Ok i -> speaks g i token.
Proof.
  intros (_ & _ & _ & Hs) Hd [Hin [E1 E2]%andb_true_iff]%find_spec [Hu _]%andb_true_iff [Et Eu]%identity_of_ids.
  apply bool_decide_eq_true in E1. apply andb_true_iff in Hu as [Ht Hu]. apply bool_decide_eq_true in Ht, Hu.
  exists s. split_and!; [by rewrite E1| |congruence|congruence|by apply Hs].
  unfold live in E2. apply andb_true_iff in E2 as [_ E2]. by destruct (s_revoked_at s).
Qed.

Lemma spec_authenticate token cookie header csrf g :
  spec (authenticate_session cfg token cookie header csrf) g
    (fun o _ => match o with Ok (i, _) => speaks g i token | Raise _ => True end).
Proof.
  unfold authenticate_session. rewrite auth_on. cbn [negb]. destruct token as [|c token]; [gwalk|].
  set (token' := c :: token). gwalk.
  all: try (apply spec_update_session; [intros; apply same_session_seen|intros [?|?] ? ?; gwalk]).
  all: lazymatch goal with
  | Hu : List.find _ (g_users _) = Some ?u, Hs : List.find _ (g_sessions ?g1) = Some ?s,
    H1 : GatewayLogic.evolves _ _ ?g ?ga, H2 : GatewayLogic.evolves _ _ (ticked ?ga) ?g1 |- speaks ?g _ _ =>
      apply find_spec in Hu as [_ Hu]; eapply (found_speaks g g1); [|eassumption..];
      etrans; [exact H1|]; etrans; [apply evolves_ticked|exact H2]
  end.
Qed.

Lemma safe_logout token i g : safe (logout cfg token i) g.
Proof.
  unfold logout. gwalk. apply spec_update_session; [intros; apply same_session_revoked|].
  intros [?|?] ? ?; gwalk.
Qed.

Lemma safe_revoke t u g (Q : outcome py_exn unit -> gateway -> Prop) :
  (forall o g', evolves g g' -> Q o g') -> spec (revoke_user_sessions t u) g Q.
Proof.
  intros HQ. unfold revoke_user_sessions. gwalk. apply spec_update_sessions; [intros; apply same_session_revoked|].
  intros o g2 He. apply HQ. etrans; [eassumption|]. etrans; [apply evolves_ticked|done].
Qed.

(** ** Management *)

(** [i] manages none of the protected accounts. *)
Definition harmless (i : auth_identity) : Prop :=
  forall u, protected (person u) -> managed i u = false.

Lemma managed_person i u v : same_person u v -> managed i u = managed i v.
Proof. unfold same_person, person, managed. intros [= _ -> -> -> _ _]. done. Qed.

Lemma safe_create_user i email name password g : safe (create_user cfg i email name password) g.
Proof. unfold create_user. gwalk. Qed.

Lemma safe_list_users i g : safe (list_users i) g.
Proof. unfold list_users. gwalk. apply spec_read; intros; gwalk. Qed.

(** The user that is found stays the user of its [_id], and is not protected. *)
Lemma spec_managed_user i uid g (Q : outcome py_exn user -> gateway -> Prop) :
  (forall u g', evolves g g' ->
     (forall g2, evolves g' g2 -> wf g2 -> forall v, v ∈ g_users g2 -> u_oid v = u_oid u -> managed i v = true) ->
     Q (Ok u) g') ->
  (forall e g', Q (Raise e) g') -> spec (managed_user i uid) g Q.
Proof.
  intros HQ He. unfold managed_user. apply gspec_bind. gstep; cbn beta iota; [|apply He]. apply gspec_bind.
  gstep; [|apply He]. destruct (List.find _ _) as [u|] eqn:E; gstep; [|apply He].
  apply find_spec in E as [Hin [Em _]%andb_true_iff]. apply HQ.
  - etrans; [eassumption|apply evolves_ticked].
  - intros g2 He2 Hw v Hv Eo. rewrite <- Em. symmetry. apply managed_person.
    eapply (oid_person cfg n0 (ticked _) g2); eauto.
Qed.

Lemma harmless_update i u g oid f :
  harmless i ->
  (forall g2, evolves g g2 -> wf g2 -> forall v, v ∈ g_users g2 -> u_oid v = u_oid u -> managed i v = true) ->
  oid = u_oid u ->
  forall g', evolves g g' -> wf g' -> forall v, v ∈ g_users g' -> u_oid v = oid -> protected (person v) -> same_account v (f v).
Proof. intros Hi Hm -> g' He Hw v Hv E Hp. specialize (Hm g' He Hw v Hv E). by rewrite (Hi v Hp) in Hm. Qed.

Lemma safe_set_status i uid status g : harmless i -> safe (set_user_status i uid status) g.
Proof.
  intros Hi. unfold set_user_status. apply gspec_bind, spec_managed_user; [|gwalk; done].
  intros u g1 He1 Hm. gwalk.
  apply spec_update_user; [done|done| |].
  - eapply harmless_update; [done| |done]. intros g2 He2. apply Hm. etrans; [|exact He2].
    etrans; [eassumption|apply evolves_ticked].
  - intros [?|?] ? ?; gwalk. apply safe_revoke. intros [?|?] ? ?; gwalk.
Qed.

Lemma safe_set_password i uid password g : harmless i -> safe (set_user_password cfg i uid password) g.
Proof.
  intros Hi. unfold set_user_password. apply gspec_bind, spec_managed_user; [|gwalk; done].
  intros u g1 He1 Hm. gwalk.
  apply spec_update_user; [done| | |].
  - intros v _. unfold count_ok, MAX_FAILED_LOGINS. cbn. lia.
  - eapply harmless_update; [done| |done]. intros g2 He2. apply Hm. etrans; [eassumption|].
    etrans; [eassumption|]. etrans; [apply evolves_ticked|exact He2].
  - intros [?|?] ? ?; gwalk. apply safe_revoke. intros [?|?] ? ?; gwalk.
Qed.

(** ** Endpoints *)

Lemma spec_translate {A} (p : prog gateway A) cl g (Q : outcome py_exn A -> gateway -> Prop) :
  spec p g Q -> (forall e g', Q (Raise e) g') -> spec (translate p cl) g Q.
Proof.
  intros Hp HQ. apply gspec_catch. eapply gspec_conseq; [exact Hp|].
  intros [a|e] g' _ _ Ho; [done|]. destruct (omap _ _); [done|]. apply gspec_raise, HQ.
Qed.

Lemma spec_current_user r g :
  spec (get_current_user cfg r) g
    (fun o _ => match o with Ok (i, _) => speaks g i (rq_session_cookie r) | Raise _ => True end).
Proof.
  unfold get_current_user. apply gspec_bind, gspec_lift. destruct (validate_browser_origin cfg r); [|done].
  apply spec_translate; [apply spec_authenticate|done].
Qed.

Lemma spec_require_admin r g :
  spec (require_admin cfg r) g
    (fun o _ => match o with Ok i => speaks g i (rq_session_cookie r) | Raise _ => True end).
Proof.
  apply gspec_bind. eapply gspec_conseq; [apply spec_current_user|]. intros [[i u]|e] g' _ _ Hi; [|done].
  cbn [fst]. by gwalk.
Qed.

(** The token of the request opens no session that manages a protected account. *)
Definition cookie_harmless (g : gateway) (r : http_request) : Prop :=
  forall i, speaks g i (rq_session_cookie r) -> harmless i.

Lemma safe_translate {A} (p : prog gateway A) cl g : safe p g -> safe (translate p cl) g.
Proof. intros Hp. by apply spec_translate. Qed.

Lemma safe_then {A B} (p : prog gateway A) (k : A -> prog gateway B) g :
  safe p g -> (forall a g', evolves g g' -> safe (k a) g') -> safe (pbind p k) g.
Proof. intros Hp Hk. apply gspec_bind. eapply gspec_conseq; [exact Hp|]. intros [a|e] g' He _ _; [by apply Hk|done]. Qed.

Lemma safe_as_user {A} r (k : auth_identity * obj -> prog gateway A) g :
  (forall i u g', speaks g i (rq_session_cookie r) -> safe (k (i, u)) g') ->
  safe (pbind (get_current_user cfg r) k) g.
Proof. intros Hk. apply gspec_bind. eapply gspec_conseq; [apply spec_current_user|]. intros [[i u]|e] g' _ _ ?; auto. Qed.

Lemma safe_as_admin {A} r (k : auth_identity -> prog gateway A) g :
  (forall i g', speaks g i (rq_session_cookie r) -> safe (k i) g') ->
  safe (pbind (require_admin cfg r) k) g.
Proof. intros Hk. apply gspec_bind. eapply gspec_conseq; [apply spec_require_admin|]. intros [i|e] g' _ _ ?; auto. Qed.

Lemma safe_validated {A} o (k : text -> prog gateway A) g :
  (forall t, safe (k t) g) -> safe (pbind (validated o) k) g.
Proof. intros Hk. apply gspec_bind. destruct o; [apply gspec_ret, Hk|by apply gspec_raise]. Qed.

Lemma safe_checked {A} b (k : unit -> prog gateway A) g : safe (k tt) g -> safe (pbind (check_body b) k) g.
Proof. intros Hk. apply gspec_bind. destruct b; [by apply gspec_ret|by apply gspec_raise]. Qed.

Lemma safe_lifted {A B} (o : outcome py_exn A) (k : A -> prog gateway B) g :
  (forall a, safe (k a) g) -> safe (pbind (plift o) k) g.
Proof. intros Hk. apply gspec_bind, gspec_lift. destruct o; [apply Hk|done]. Qed.

Lemma safe_serve r e g : cookie_harmless g r -> safe (serve cfg dummy_hash r e) g.
Proof.
  intros Hr. destruct e; cbn [serve].
  - unfold needs_setup. rewrite auth_on. gwalk.
  - apply safe_validated. intros m. apply safe_checked, safe_lifted. intros _. apply safe_then; [|intros; gwalk].
    apply safe_translate, safe_then; [apply safe_claim|]. intros. apply safe_login.
  - apply safe_checked, safe_validated. intros m. apply safe_lifted. intros _. apply safe_then; [|intros; gwalk].
    apply safe_translate, safe_login.
  - apply safe_as_user. intros. gwalk.
  - apply safe_as_user. intros i u g' _. apply safe_then; [apply safe_logout|]. intros. gwalk.
  - apply safe_as_user. intros i u g' _. unfold socket_ticket. gwalk.
  - apply safe_as_admin. intros i g' _. apply safe_then; [apply safe_list_users|]. intros. gwalk.
  - apply safe_as_admin. intros i g' _. apply safe_validated. intros m. apply safe_checked, safe_then; [|intros; gwalk].
    apply safe_translate, safe_create_user.
  - apply safe_as_admin. intros i g' Hi. apply safe_checked, safe_then; [|intros; gwalk].
    by apply safe_translate, safe_set_status, Hr.
  - apply safe_as_admin. intros i g' Hi. apply safe_checked, safe_then; [|intros; gwalk].
    by apply safe_translate, safe_set_password, Hr.
Qed.

Definition activity_harmless (g : gateway) (a : activity) : Prop :=
  match a with Serve r _ => cookie_harmless g r | _ => True end.

Lemma safe_act a g : activity_harmless g a -> safe (act cfg dummy_hash a) g.
Proof.
  destruct a as [r e| | |t n e p d]; cbn [act activity_harmless]; intros Ha.
  - by apply safe_serve.
  - apply safe_then; [by apply spec_expire_sessions|intros; gwalk].
  - apply safe_then; [apply safe_bootstrap|intros; gwalk].
  - apply safe_then; [apply safe_provision|intros; gwalk].
Qed.

(** Any interleaving of activities that start in [g]. *)
Lemma pool_safe activities schedule g :
  good n0 g -> Forall (activity_harmless g) activities ->
  let g' := (interleave schedule (map (act cfg dummy_hash) activities, g)).2 in
  evolves g g' /\ accounts_kept protected g g'.
Proof.
  intros Hg Ha.
  pose proof (rg_interleave evolves (guar cfg n0 protected) (fun _ => guar cfg n0 protected)
    (fun _ _ _ => True) schedule (map (act cfg dummy_hash) activities) g) as Hi.
  destruct (interleave schedule _) as [l' g']. apply Hi.
  - intros _ w w' Hr. split; [apply Hr|done].
  - done.
  - intros i p Hp. rewrite list_lookup_fmap in Hp. apply fmap_Some in Hp as (a & Hl & ->).
    eapply rg_conseq; [|done|by intros]. apply safe_act; [|done].
    rewrite Forall_lookup in Ha. by eapply Ha.
Qed.
End Safety.

(** ** Concurrent requests *)

Section Concurrent.
Context `{PyText} `{Crypto} `{GatewayEnv}.
Context (cfg : gateway_config) (dummy_hash : text).
Hypothesis auth_on : auth_required cfg = true.

(** The state after the activities have made the steps of the schedule. *)
Definition after (activities : list activity) (schedule : list nat) (g : gateway) : gateway :=
  (interleave schedule (map (act cfg dummy_hash) activities, g)).2.

(** The answer of an activity, once it has finished. *)
Definition answer (activities : list activity) (schedule : list nat) (g : gateway) (i : nat)
    : option (outcome py_exn http_reply) :=
  match (interleave schedule (map (act cfg dummy_hash) activities, g)).1 !! i with
  | Some (Done o) => Some o
  | _ => None
  end.

Lemma good_start g : wf g -> good (g_tick g) g.
Proof. by split. Qed.

(** the collections stay well formed.  However the database calls of any number of
    concurrent requests, of the operator's command and of the expiry of sessions interleave,
    and whichever of them fail, before or after they were applied: identifiers of users,
    the e-mail of a user in its tenant, identifiers and slugs of tenants and digests of
    session tokens stay unique, the count of failed logins stays below the limit, and no
    user disappears or changes its identifier, tenant, administrator, e-mail or role. *)
Theorem gateway_wf activities schedule g :
  wf g -> wf (after activities schedule g) /\ users_kept g (after activities schedule g).
Proof.
  intros Hw. destruct (pool_safe cfg dummy_hash (g_tick g) (fun _ => False) auth_on activities schedule g
    (good_start g Hw)) as [(W & _ & Hu & _) _]; [|split; [by apply W|exact Hu]].
  apply Forall_forall. intros [r e| | |] _; cbn; try done. by intros i _ u.
Qed.

(** The token of a request belongs to a session of neither the administrator of [u] nor of
    [u], and will not be issued again. *)
Definition stranger (g : gateway) (u : user) (a : activity) : Prop :=
  match a with
  | Serve r _ => forall d, digest_of cfg (rq_session_cookie r) = Ok d ->
      (forall s, s ∈ g_sessions g -> s_token_digest s = d ->
         s_tenant_id s = u_tenant_id u -> s_user_id s <> u_admin_id u /\ s_user_id s <> u_user_id u) /\
      (forall n, (g_tick g <= n)%nat -> digest_of cfg (token_urlsafe n) <> Ok d)
  | _ => True
  end.

Lemma stranger_harmless g u a :
  stranger g u a -> activity_harmless cfg (g_tick g) (fun p => p = person u) g a.
Proof.
  destruct a as [r e| | |]; cbn; [|done..]. intros Ha i (s & Hd & _ & Et & Eu & Hs) v [= E1 E2 E3 E4 E5 E6].
  destruct (Ha _ Hd) as [Hold Hnew]. destruct Hs as [(s0 & Hin & Hsame)|(n & Hn & Ed)]; [|by destruct (Hnew n Hn)].
  destruct Hsame as (_ & _ & Ed & _ & Ets & Eus & _).
  destruct (managed i v) eqn:Em; [|done]. unfold managed in Em.
  apply andb_true_iff in Em as [Em1 Em2]. apply bool_decide_eq_true in Em1.
  destruct (Hold s0 Hin Ed) as [Ha1 Ha2]; [congruence|].
  apply orb_true_iff in Em2 as [Em2|Em2]; apply bool_decide_eq_true in Em2; congruence.
Qed.

(** C11: accounts change only through the session of their administrator.  Take a user and
    any number of concurrent requests, none of which carries the token of a session of that
    user or of its administrator: logins with right or wrong passwords, setups, and
    everything that other administrators do, of the same tenant or of others.  In every
    interleaving the user keeps its status, its password, its name, its role, its tenant
    and its administrator. *)
Theorem account_confined activities schedule g u :
  wf g -> u ∈ g_users g -> Forall (stranger g u) activities ->
  exists u', u' ∈ g_users (after activities schedule g) /\ same_account u u'.
Proof.
  intros Hw Hu Ha.
  destruct (pool_safe cfg dummy_hash (g_tick g) (fun p => p = person u) auth_on activities schedule g
    (good_start g Hw)) as [_ Hk]; [|by apply Hk].
  eapply Forall_impl; [exact Ha|]. apply stranger_harmless.
Qed.

(** The endpoints that ask for a session. *)
Definition authenticated (e : endpoint) : bool :=
  match e with SetupStatus | Setup _ _ _ | Login _ _ _ => false | _ => true end.

(** No session has the digest, but revoked ones, and no token to come has it. *)
Definition dead (g : gateway) (d : text) : Prop :=
  (forall s, s ∈ g_sessions g -> s_token_digest s = d -> is_Some (s_revoked_at s)) /\
  (forall n, (g_tick g <= n)%nat -> digest_of cfg (token_urlsafe n) <> Ok d).

Definition refused {A} (o : outcome py_exn A) : Prop := exists e, o = Raise e.

Lemma dead_speaks g d i r :
  dead g d -> digest_of cfg (rq_session_cookie r) = Ok d -> ~ speaks cfg (g_tick g) g i (rq_session_cookie r).
Proof.
  intros [Hold Hnew] Hd (s & Hd' & Hr & _ & _ & Hs). rewrite Hd in Hd'. injection Hd' as Ed.
  destruct Hs as [(s0 & Hin & Hsame)|(n & Hn & En)]; [|apply (Hnew n Hn); congruence].
  destruct Hsame as (_ & _ & E & _ & _ & _ & _ & Hrev).
  destruct (Hrev (Hold s0 Hin ltac:(congruence))) as [x Hx]. congruence.
Qed.

Lemma spec_refused g d r e :
  dead g d -> digest_of cfg (rq_session_cookie r) = Ok d -> authenticated e = true ->
  spec cfg (g_tick g) (fun _ => False) (serve cfg dummy_hash r e) g (fun o _ => refused o).
Proof.
  intros Hdead Hd He.
  assert (forall A (k : auth_identity * obj -> prog gateway A), spec cfg (g_tick g) (fun _ => False)
    (pbind (get_current_user cfg r) k) g (fun o _ => refused o)) as Huser.
  { intros A k. apply gspec_bind. eapply gspec_conseq; [by apply spec_current_user|].
    intros [[i u]|ex] g' _ _ Hi; [by destruct (dead_speaks g d i r)|by exists ex]. }
  assert (forall A (k : auth_identity -> prog gateway A), spec cfg (g_tick g) (fun _ => False)
    (pbind (require_admin cfg r) k) g (fun o _ => refused o)) as Hadmin.
  { intros A k. apply gspec_bind. eapply gspec_conseq; [by apply spec_require_admin|].
    intros [i|ex] g' _ _ Hi; [by destruct (dead_speaks g d i r)|by exists ex]. }
  destruct e; try done; cbn [serve]; auto.
Qed.

(** What an activity ends with among any others. *)
Lemma pool_answer activities schedule g i a (Q : outcome py_exn http_reply -> Prop) o :
  wf g -> activities !! i = Some a ->
  spec cfg (g_tick g) (fun _ => False) (act cfg dummy_hash a) g (fun o _ => Q o) ->
  answer activities schedule g i = Some o -> Q o.
Proof.
  intros Hw Hi Hs. unfold answer.
  pose proof (rg_interleave (evolves cfg (g_tick g)) (evolves cfg (g_tick g))
    (fun _ => guar cfg (g_tick g) (fun _ => False)) (fun j o _ => j = i -> Q o) schedule
    (map (act cfg dummy_hash) activities) g) as Hrg.
  destruct (interleave schedule _) as [l' g']. cbn. destruct Hrg as (_ & _ & Hl).
  - intros _ w w' [Hr _]. done.
  - auto.
  - intros j p Hp. rewrite list_lookup_fmap in Hp. apply fmap_Some in Hp as (b & Hb & ->).
    destruct (decide (j = i)) as [->|Hj].
    + rewrite Hi in Hb. injection Hb as <-. eapply rg_conseq; [apply Hs; by apply good_start|done|].
      intros ? ? (_ & _ & ?) _. done.
    + eapply rg_conseq; [apply safe_act; [done| |by apply good_start]|done|].
      * destruct b as [r' e'| | |]; cbn; try done. by intros x _ u.
      * intros ? ? _ ?. done.
  - destruct (l' !! i) as [[o'|f]|] eqn:E; try done. intros [= <-]. by apply (Hl i _ E).
Qed.

(** C12: a revoked session is dead.  With authentication required, the default: when every session with the digest of a token is revoked
    - its user logged out, was disabled, or had its password reset - then among any number
    of concurrent requests that start afterwards, in any interleaving, with the collection
    losing expired sessions meanwhile, no request that carries the token is served: each is
    answered with an error. *)
Theorem revoked_session_dead activities schedule g d i r e o :
  wf g -> dead g d -> activities !! i = Some (Serve r e) -> authenticated e = true ->
  digest_of cfg (rq_session_cookie r) = Ok d ->
  answer activities schedule g i = Some o -> refused o.
Proof.
  intros Hw Hdead Hi He Hd. eapply pool_answer; [done|exact Hi|]. by eapply spec_refused.
Qed.

(** the setup stays closed.  Once a user exists, no claim of the first administrator
    that starts afterwards is served, whatever runs concurrently. *)
Theorem setup_closed activities schedule g i r email name password o :
  wf g -> g_users g <> [] -> activities !! i = Some (Serve r (Setup email name password)) ->
  answer activities schedule g i = Some o -> refused o.
Proof.
  intros Hw Hne Hi. eapply pool_answer; [done|exact Hi|]. cbn [act serve].
  apply gspec_bind. destruct (valid_email email); [|apply gspec_raise; by eexists]. apply gspec_ret.
  apply gspec_bind. destruct (_ && _); [|apply gspec_raise; by eexists]. apply gspec_ret.
  apply gspec_bind, gspec_lift. destruct (validate_browser_origin cfg r); [|by eexists].
  apply gspec_bind, spec_translate; [|by eexists]. apply gspec_bind, gspec_bind, spec_read; [|by eexists].
  intros g' (_ & _ & Hu & _) _. destruct (g_users g) as [|u us] eqn:Eg; [done|].
  destruct (Hu u) as (u' & Hin & _); [rewrite Eg; by left|]. unfold zlen. destruct (Z.ltb_spec 0 (Z.of_nat (length (g_users g')))).
  - apply gspec_raise. by eexists.
  - destruct (g_users g'); cbn in *; [by apply elem_of_nil in Hin|lia].
Qed.
End Concurrent.

(** ** Examples *)

Section Witness.
#[local] Existing Instance ascii_text.
#[local] Existing Instance demo_crypto.
#[local] Existing Instance stuck_env.

Abbreviation cfg := demo_gateway_config.

(** Round robin. *)
Definition fair (threads rounds : nat) : list nat := concat (repeat (seq 0 threads) rounds).

(** Administrators of another tenant and of another group, and a guess of the password. *)
Definition strangers : list activity :=
  [Serve (request_with "POST" "gamma") (UpdateStatus (lit "u1") (lit "disabled"));
   Serve (request_with "POST" "delta") (ResetPassword (lit "u1") (lit "a new long password"));
   Serve (request_with "POST" "") (Login (lit "acme") (lit "u1@example.org") (lit "wrong"))].

Definition status_of (o : option (outcome py_exn http_reply)) : option (Z + text) :=
  match o with
  | Some (Ok r) => Some (inl (rp_status r))
  | Some (Raise (PyError c _)) => Some (inr c)
  | _ => None
  end.

Example demo_strangers :
  map (fun i => status_of (answer cfg demo_hash strangers (fair 3 20) demo_gateway i)) [0; 1; 2]%nat =
  [Some (inr (lit "HTTPException 404")); Some (inr (lit "HTTPException 404")); Some (inr (lit "HTTPException 401"))].
Proof. vm_compute. reflexivity. Qed.

Lemma gateway_wf_witness :
  wf (after cfg demo_hash strangers (fair 3 20) demo_gateway) /\
  users_kept demo_gateway (after cfg demo_hash strangers (fair 3 20) demo_gateway).
Proof. apply (gateway_wf cfg demo_hash eq_refl strangers (fair 3 20) demo_gateway demo_gateway_wf). Defined.

(** A condition on the sessions of the example, decided by computation. *)
Lemma demo_sessions (p : session -> bool) s :
  forallb p (g_sessions demo_gateway) = true -> s ∈ g_sessions demo_gateway -> p s = true.
Proof. intros Hp Hs. rewrite forallb_forall in Hp. by apply Hp, list_elem_of_In. Qed.

Definition unrelated (d : text) (s : session) : bool :=
  negb (bool_decide (s_token_digest s = d)) ||
  negb (bool_decide (s_tenant_id s = lit "acme")) ||
  (negb (bool_decide (s_user_id s = lit "a1")) && negb (bool_decide (s_user_id s = lit "u1"))).

Lemma demo_stranger token e :
  match digest_of cfg (lit token) with
  | Ok d => forallb (unrelated d) (g_sessions demo_gateway)
            && negb (bool_decide (demo_digest "token" = d))
  | Raise _ => true
  end = true ->
  stranger cfg demo_gateway (account 1 "u1" "acme" "a1" "user") (Serve (request_with "POST" token) e).
Proof.
  intros Hb d Hd. change (digest_of cfg (lit token) = Ok d) in Hd. rewrite Hd in Hb.
  apply andb_true_iff in Hb as [Hb Hn]. apply negb_true_iff, bool_decide_eq_false in Hn. split;
    [|intros n _ En; apply Hn; unfold demo_digest; change (token_urlsafe n) with (lit "token") in En; by rewrite En].
  intros s Hs Ed Et. pose proof (demo_sessions _ _ Hb Hs) as Hu. unfold unrelated in Hu.
  rewrite (bool_decide_true _ Ed), (bool_decide_true _ Et) in Hu. cbn in Hu.
  apply andb_true_iff in Hu as [H1' H2']. by apply negb_true_iff, bool_decide_eq_false in H1', H2'.
Qed.

Lemma account_confined_witness :
  exists u', u' ∈ g_users (after cfg demo_hash strangers (fair 3 20) demo_gateway) /\
    same_account (account 1 "u1" "acme" "a1" "user") u'.
Proof.
  apply (account_confined cfg demo_hash eq_refl strangers (fair 3 20) demo_gateway (account 1 "u1" "acme" "a1" "user")).
  - exact demo_gateway_wf.
  - right. left.
  - repeat (apply Forall_cons; split; [apply demo_stranger; vm_compute; reflexivity|]). apply Forall_nil. exact I.
Defined.

(** The token of [beta] was revoked; a login runs alongside. *)
Definition late_requests : list activity :=
  [Serve (request_with "GET" "beta") Me;
   Serve (request_with "POST" "") (Login (lit "acme") (lit "u1@example.org") demo_password);
   ExpireSessions].

Definition revoked_or_other (d : text) (s : session) : bool :=
  negb (bool_decide (s_token_digest s = d)) || match s_revoked_at s with Some _ => true | None => false end.

Lemma revoked_session_dead_witness :
  exists o, answer cfg demo_hash late_requests (fair 3 20) demo_gateway 0 = Some o /\ refused o.
Proof.
  destruct (answer cfg demo_hash late_requests (fair 3 20) demo_gateway 0) as [o|] eqn:E; [|vm_compute in E; discriminate E].
  exists o. split; [reflexivity|].
  apply (revoked_session_dead cfg demo_hash eq_refl late_requests (fair 3 20) demo_gateway (demo_digest "beta") 0
    (request_with "GET" "beta") Me o demo_gateway_wf); [|reflexivity|reflexivity|reflexivity|exact E].
  split; [|intros n _ Hn; vm_compute in Hn; congruence].
  intros s Hs Ed.
  pose proof (demo_sessions (revoked_or_other (demo_digest "beta")) s ltac:(vm_compute; reflexivity) Hs) as Hr.
  unfold revoked_or_other in Hr. rewrite (bool_decide_true _ Ed) in Hr. destruct (s_revoked_at s); [by eexists|done].
Defined.

Lemma setup_closed_witness :
  exists o, answer cfg demo_hash
    [Serve (request_with "POST" "") (Setup (lit "me@example.org") (lit "Me") (lit "a very long password"))]
    (fair 1 20) demo_gateway 0 = Some o /\ refused o.
Proof.
  set (l := [Serve (request_with "POST" "") (Setup (lit "me@example.org") (lit "Me") (lit "a very long password"))]).
  destruct (answer cfg demo_hash l (fair 1 20) demo_gateway 0) as [o|] eqn:E; [|vm_compute in E; discriminate E].
  exists o. split; [reflexivity|].
  refine (setup_closed cfg demo_hash eq_refl l (fair 1 20) demo_gateway 0 _ _ _ _ o demo_gateway_wf _ eq_refl E).
  discriminate.
Defined.
End Witness.

(** ** Interleavings that the gateway does not exclude

    The database calls of a request are not one transaction, and three rules of
    [GatewayAuth] read the database, decide, and write later.  These schedules show what two
    concurrent requests can do between the read and the write; each theorem exhibits one
    execution of the modelled code. *)

Section Races.
#[local] Existing Instance ascii_text.
#[local] Existing Instance demo_crypto.
#[local] Existing Instance demo_gateway_env.

Abbreviation cfg := demo_gateway_config.
Abbreviation answers activities schedule g :=
  (map (fun i => status_of (answer cfg demo_hash activities schedule g i)) (seq 0 (length activities))).

Definition empty_gateway : gateway := mkGateway [] [] [] [] 0.

Definition two_claims : list activity :=
  [Serve (request_with "POST" "") (Setup (lit "first@example.org") (lit "First") demo_password);
   Serve (request_with "POST" "") (Setup (lit "second@example.org") (lit "Second") demo_password)].

(** Two claims of the first administrator both succeed: the second finds the tenant that the
    first has inserted and, since no user exists yet, takes it for the remains of a crash. *)
Theorem setup_race :
  let schedule := repeat 0%nat 5 ++ repeat 1%nat 40 ++ repeat 0%nat 40 in
  answers two_claims schedule empty_gateway = [Some (inl 201); Some (inl 201)] /\
  map (fun u => (u_email u, u_role u, u_tenant_id u)) (g_users (after cfg demo_hash two_claims schedule empty_gateway)) =
  [(lit "second@example.org", lit "admin", lit "default"); (lit "first@example.org", lit "admin", lit "default")].
Proof. vm_compute. split; reflexivity. Qed.

Definition guesses : list activity :=
  map (fun n => Serve (request_with "POST" "")
                  (Login (lit "acme") (lit "u1@example.org") (lit "guess " ++ show (Z.of_nat n))))
    (seq 0 20).

(** Twenty concurrent guesses are all tested, and count as one: each reads a count of zero
    before any of them writes. *)
Theorem lockout_race :
  let schedule := fair 20 40 in
  Forall (fun o => o = Some (inr (lit "HTTPException 401"))) (answers guesses schedule demo_gateway) /\
  map (fun u => (u_failed_login_count u, u_lock_until u))
    (List.filter (has_id (lit "acme") (lit "u1")) (g_users (after cfg demo_hash guesses schedule demo_gateway))) =
  [(1, None)].
Proof.
  split; [|vm_compute; reflexivity]. vm_compute.
  repeat (apply Forall_cons; split; [reflexivity|]). apply Forall_nil. exact I.
Qed.

Definition reset_during_login : list activity :=
  [Serve (request_with "POST" "") (Login (lit "acme") (lit "u1@example.org") demo_password);
   Serve (request_with "POST" "alpha") (ResetPassword (lit "u1") (lit "a different password"))].

(** A login that has checked the old password opens its session after the reset has revoked
    the sessions of the user: the session survives the reset. *)
Theorem reset_race :
  let schedule := repeat 0%nat 4 ++ repeat 1%nat 40 ++ repeat 0%nat 40 in
  let g := after cfg demo_hash reset_during_login schedule demo_gateway in
  answers reset_during_login schedule demo_gateway = [Some (inl 200); Some (inl 204)] /\
  map (fun s => s_revoked_at s)
    (List.filter (fun s => bool_decide (s_user_id s = lit "u1")) (g_sessions g)) = [Some 0; None].
Proof. vm_compute. split; reflexivity. Qed.
End Races.
