(* ===== verification/GatewayLogin.v ===== *)
(** * Logging in

    What one login does when no other request interferes: the lockout bounds the guesses of
    a password, and a successful login opens a session that authenticates the user. *)

From stdpp Require Import base strings sets list.
From S2P Require Import Prelude PyValue Base64 Auth Interleaving GatewayAuth GatewayHttp GatewayLogic.

Local Open Scope string_scope.
Local Open Scope list_scope.
Local Open Scope Z_scope.

(** ** Programs that run alone *)

Section Alone.
Context `{PyText} `{Crypto} `{GatewayEnv}.

Definition alone {A} (p : prog gateway A) (g : gateway) (Q : outcome py_exn A -> gateway -> Prop) : Prop :=
  Q (run p g).1 (run p g).2.

Lemma alone_bind {A B} (p : prog gateway A) (k : A -> prog gateway B) g Q :
  alone p g (fun o g' => match o with Ok a => alone (k a) g' Q | Raise e => Q (Raise e) g' end) ->
  alone (pbind p k) g Q.
Proof. unfold alone. rewrite run_bind. by destruct (run p g) as [[a|e] g']. Qed.

Lemma alone_interact {A} (f : nat -> A) g (Q : outcome py_exn A -> gateway -> Prop) :
  Q (Ok (f (g_tick g))) (ticked g) -> alone (interact f) g Q.
Proof. done. Qed.

Lemma alone_lift {A} (o : outcome py_exn A) g (Q : outcome py_exn A -> gateway -> Prop) :
  Q o g -> alone (plift o) g Q.
Proof. done. Qed.

Lemma alone_db {A} (c : eff gateway A) g (Q : outcome py_exn A -> gateway -> Prop) :
  Q (c g).1 (ticked (c g).2) ->
  (forall m, Q (Raise (mongo_error m)) (ticked (c g).2) /\ Q (Raise (mongo_error m)) (ticked g)) ->
  alone (db_call c) g Q.
Proof.
  intros HQ Hm. unfold alone, db_call. rewrite run_atomically. unfold db_step.
  destruct (db_fault (g_tick g)) as [[[] m]|]; [apply Hm|apply Hm|by destruct (c g)].
Qed.

Lemma alone_read {A} (f : gateway -> A) g (Q : outcome py_exn A -> gateway -> Prop) :
  Q (Ok (f g)) (ticked g) -> (forall m, Q (Raise (mongo_error m)) (ticked g)) -> alone (db_call (gets f)) g Q.
Proof. intros HQ Hm. by apply alone_db. Qed.

Lemma alone_audit t a n target ip g (Q : outcome py_exn unit -> gateway -> Prop) :
  (forall o g', (o = Ok tt \/ exists m, o = Raise (mongo_error m)) -> g_users g' = g_users g ->
     g_sessions g' = g_sessions g -> Q o g') ->
  alone (audit t a n target ip) g Q.
Proof.
  intros HQ. apply alone_bind, alone_interact, alone_bind, alone_interact, alone_db.
  - apply HQ; [by left|done|done].
  - intros m. split; (apply HQ; [right; by exists m|done|done]).
Qed.

(** A program that does not touch the users. *)
Definition keeps_users {A} (p : prog gateway A) : Prop := forall g, g_users (run p g).2 = g_users g.

Lemma gkeeps_bind {A B} (p : prog gateway A) (k : A -> prog gateway B) :
  keeps_users p -> (forall a, keeps_users (k a)) -> keeps_users (pbind p k).
Proof.
  intros Hp Hk g. rewrite run_bind. specialize (Hp g). destruct (run p g) as [[a|e] g']; cbn in *; [|done].
  by rewrite Hk.
Qed.
Lemma keeps_done {A} (o : outcome py_exn A) : keeps_users (Done o).
Proof. done. Qed.
Lemma keeps_interact {A} (f : nat -> A) : keeps_users (interact f).
Proof. done. Qed.
Lemma keeps_db {A} (c : eff gateway A) : (forall g, g_users (c g).2 = g_users g) -> keeps_users (db_call c).
Proof.
  intros Hc g. unfold db_call. rewrite run_atomically. unfold db_step.
  specialize (Hc g). destruct (db_fault (g_tick g)) as [[[] m]|], (c g); done.
Qed.
Lemma keeps_insert_session s : keeps_users (insert_session s).
Proof. apply keeps_db. intros g. by case_match. Qed.
Lemma keeps_audit t a n target ip : keeps_users (audit t a n target ip).
Proof. apply gkeeps_bind; [done|]. intros x. apply gkeeps_bind; [done|]. intros y. by apply keeps_db. Qed.
End Alone.

(** ** The lockout *)

Section Lockout.
Context `{PyText} `{Crypto} `{GatewayEnv}.
Context (cfg : gateway_config) (dummy_hash : text).

(** The user a login is about. *)
Definition target (g : gateway) (tenant_name email : text) : option user :=
  match List.find (tenant_matches (py_strip tenant_name)) (g_tenants g) with
  | Some t => List.find (fun u => bool_decide (u_tenant_id u = t_tenant_id t)
                                  && bool_decide (u_email u = normalize_email email)) (g_users g)
  | None => None
  end.

Record attempt := mkAttempt { at_tenant : text; at_email : text; at_password : text; at_ip : option text }.

Definition try_login (a : attempt) : prog gateway login_result :=
  login cfg dummy_hash (at_tenant a) (at_email a) (at_password a) (at_ip a) None.

(** The attempt tested its password against the account, and the answer was that it is
    wrong. *)
Definition strike_of (oid : nat) (found : option user) (o : outcome py_exn login_result) : Z :=
  match found, o with
  | Some u, Raise (PyError c _) =>
      if bool_decide (u_oid u = oid) && bool_decide (c = lit "AuthenticationFailed") then 1 else 0
  | _, _ => 0
  end.

Definition strike (oid : nat) (g : gateway) (a : attempt) : Z :=
  strike_of oid (target g (at_tenant a) (at_email a)) (run (try_login a) g).1.

(** One attempt after the other: how many were strikes, and the state at the end. *)
Fixpoint strikes (oid : nat) (g : gateway) (l : list attempt) : Z * gateway :=
  match l with
  | [] => (0, g)
  | a :: l' => let '(n, g') := strikes oid (run (try_login a) g).2 l' in (strike oid g a + n, g')
  end.

(** How many strikes are left until [t]. *)
Definition remaining (t : Z) (u : user) : Z :=
  match u_lock_until u with
  | Some x => if t <? x then 0 else MAX_FAILED_LOGINS - u_failed_login_count u
  | None => MAX_FAILED_LOGINS - u_failed_login_count u
  end.

Definition LOCKOUT : Z := LOCKOUT_MINUTES * 60 * SECOND.

Lemma bson_date_bounds t : t - 1000 < bson_date t <= t.
Proof. unfold bson_date. pose proof (Z.mod_pos_bound t 1000). pose proof (Z.div_mod t 1000). lia. Qed.

(** A failed login costs one, and leaves nothing when it locks the account. *)
Lemma remaining_failed t now u :
  count_ok u -> locked now u = false -> now <= t -> t <= now + LOCKOUT - 1000 ->
  count_ok (failed_login (u_failed_login_count u) now u) /\
  remaining t (failed_login (u_failed_login_count u) now u) + 1 <= remaining t u.
Proof.
  intros Hc Hl Hn Ht. unfold count_ok, MAX_FAILED_LOGINS in *. unfold failed_login, remaining, locked in *.
  pose proof (bson_date_bounds (now + LOCKOUT)) as Hb. unfold LOCKOUT in *.
  assert (match u_lock_until u with Some x => if t <? x then 0 else 5 - u_failed_login_count u
          | None => 5 - u_failed_login_count u end = 5 - u_failed_login_count u) as Hr.
  { destruct (u_lock_until u) as [x|]; [|done]. apply Z.ltb_ge in Hl. destruct (Z.ltb_spec t x); [lia|done]. }
  unfold MAX_FAILED_LOGINS. rewrite Hr. destruct (Z.leb_spec 5 (u_failed_login_count u + 1)); cbn.
  - split; [lia|]. destruct (Z.ltb_spec t (bson_date (now + LOCKOUT_MINUTES * 60 * SECOND))); lia.
  - split; [lia|]. cbn in Hr. destruct (u_lock_until u) as [x|]; [|lia].
    destruct (Z.ltb_spec t x); lia.
Qed.

Context (t0 : Z).
Hypothesis window : forall n, t0 <= clock n <= t0 + LOCKOUT - 1000.
Abbreviation left := (remaining (t0 + LOCKOUT - 1000)).

(** The account of [u] after an attempt that ended with [o]. *)
Definition tried (u : user) (g : gateway) (a : attempt) (o : outcome py_exn login_result) (g' : gateway) : Prop :=
  NoDup (map u_oid (g_users g')) /\
  exists u', u' ∈ g_users g' /\ count_ok u' /\ u_oid u' = u_oid u /\ u_password_hash u' = u_password_hash u /\
    left u' + strike_of (u_oid u) (target g (at_tenant a) (at_email a)) o <= left u.

Lemma tried_same u g a o g' :
  NoDup (map u_oid (g_users g)) -> u ∈ g_users g -> count_ok u -> u ∈ g_users g' ->
  map u_oid (g_users g') = map u_oid (g_users g) ->
  (forall v c m, target g (at_tenant a) (at_email a) = Some v -> o = Raise (PyError c m) ->
     c = lit "AuthenticationFailed" -> u_oid v <> u_oid u) ->
  tried u g a o g'.
Proof.
  intros Hn Hu Hc Hu' Hm Ho. split; [by rewrite Hm|]. exists u. split_and!; try done. unfold strike_of.
  destruct (target g (at_tenant a) (at_email a)) as [v|]; [|lia]. destruct o as [|[| |c m|]]; try lia.
  case_bool_decide; cbn; [|lia]. case_bool_decide; [|lia]. by destruct (Ho v c m eq_refl eq_refl).
Qed.

Lemma verify_password_raise p e q x m : verify_password p e q = Raise (PyError x m) -> x <> lit "AuthenticationFailed".
Proof. unfold verify_password. repeat (case_match; try done). all: intros [= <- _]; vm_compute; congruence. Qed.

Lemma target_elem g t e v : target g t e = Some v -> v ∈ g_users g.
Proof. unfold target. destruct (List.find _ (g_tenants g)); [|done]. by intros [? _]%find_spec. Qed.

(** A failed or successful login of [v] as [u] sees it. *)
Lemma tried_update u v g g1 a o g' f :
  NoDup (map u_oid (g_users g)) -> u ∈ g_users g -> count_ok u -> v ∈ g_users g ->
  target g (at_tenant a) (at_email a) = Some v -> g_users g1 = g_users g ->
  (forall x, u_oid (f x) = u_oid x /\ u_password_hash (f x) = u_password_hash x) ->
  (v = u -> count_ok (f u) /\ left (f u) + 1 <= left u) ->
  g_users g' = update_first (fun x => bool_decide (u_oid x = u_oid v)) f (g_users g1) \/ g_users g' = g_users g1 /\
    (forall c m, o = Raise (PyError c m) -> c <> lit "AuthenticationFailed") ->
  tried u g a o g'.
Proof.
  intros Hn Hu Hc Hv Et Hg1 Hf Hvu [Hg'|[Hg' Ho]].
  2: { apply tried_same; rewrite ?Hg', ?Hg1; try done. intros v' c m _ Eo Ec. by destruct (Ho c m). }
  rewrite Hg1 in Hg'.
  assert (map u_oid (g_users g') = map u_oid (g_users g)) as Hm.
  { rewrite Hg'. apply update_first_map. intros x. apply Hf. }
  destruct (decide (u_oid v = u_oid u)) as [E|E].
  - assert (v = u) as -> by by eapply (NoDup_map_inj u_oid (g_users g)). destruct (Hvu eq_refl) as [Hc' Hr].
    split; [by rewrite Hm|]. exists (f u). split_and!; try apply Hf; [|done|].
    + rewrite Hg'. apply update_first_unique; [done|by apply bool_decide_eq_true|].
      intros y Hy Ey%bool_decide_eq_true. by eapply (NoDup_map_inj u_oid (g_users g)).
    + rewrite Et. unfold strike_of. repeat case_match; lia.
  - apply tried_same; try done.
    + rewrite Hg'. apply update_first_other; [done|]. apply bool_decide_eq_false. congruence.
    + intros v' c m Ev _ _. congruence.
Qed.

(** The account of the user that was found. *)
Lemma finish_login_strike u g g1 a ua :
  NoDup (map u_oid (g_users g)) -> u ∈ g_users g -> count_ok u -> g_users g1 = g_users g ->
  verify_password (at_password a) (u_password_hash u) (password_pepper cfg) = Ok false ->
  alone (finish_login cfg dummy_hash (target g (at_tenant a) (at_email a)) (at_password a) (at_ip a) ua) g1 (tried u g a).
Proof.
  intros Hn Hu Hc Hg1 Hwrong.
  assert (forall o g', g_users g' = g_users g ->
    (forall v c m, target g (at_tenant a) (at_email a) = Some v -> o = Raise (PyError c m) ->
       c = lit "AuthenticationFailed" -> u_oid v <> u_oid u) -> tried u g a o g') as Hsame.
  { intros o g' Hg'. apply tried_same; try done; by rewrite Hg'. }
  unfold finish_login. destruct (target g (at_tenant a) (at_email a)) as [v|] eqn:Et.
  2: { apply alone_bind, alone_lift. destruct (verify_password _ dummy_hash _); [|by apply Hsame].
       apply alone_bind, alone_interact. by apply Hsame. }
  pose proof (target_elem _ _ _ _ Et) as Hv. apply alone_bind, alone_lift.
  destruct (verify_password (at_password a) (u_password_hash v) (password_pepper cfg)) as [ok|e] eqn:Ev.
  2: { apply Hsame; [done|]. intros v' c m _ [= ->] Ec. by apply verify_password_raise in Ev. }
  assert (v = u -> ok = false) as Hok by (intros ->; congruence).
  apply alone_bind, alone_interact. set (g2 := ticked g1). set (now := clock (g_tick g1)).
  cbn beta iota. destruct (locked now v) eqn:El.
  { apply alone_bind, alone_audit. intros o g' [->|[m ->]] Hg' _; (apply Hsame; [etrans; [exact Hg'|exact Hg1]|]);
      intros ? ? ? _ [= <- _]; vm_compute; congruence. }
  destruct (negb ok || _) eqn:Eb.
  - assert (v = u -> count_ok (failed_login (u_failed_login_count v) now u) /\
      left (failed_login (u_failed_login_count v) now u) + 1 <= left u) as Hfail.
    { intros ->. destruct (window (g_tick g1)). apply remaining_failed; unfold now in *; try done; lia. }
    assert (forall x, u_oid (failed_login (u_failed_login_count v) now x) = u_oid x /\
      u_password_hash (failed_login (u_failed_login_count v) now x) = u_password_hash x) as Hids.
    { intros x. unfold failed_login. by case_match. }
    apply alone_bind, alone_db; cbn [modify fst snd].
    + apply alone_bind, alone_audit. intros o g' Ho Hg' _.
      assert (forall o', tried u g a o' g') as Ht.
      { intros o'. eapply (tried_update u v g g2); try done. left. by rewrite Hg'. }
      destruct Ho as [->|[m ->]]; apply Ht.
    + intros m. split.
      * eapply (tried_update u v g g2); try done. by left.
      * apply Hsame; [done|]. intros ? ? ? _ [= <- _]. vm_compute. congruence.
  - assert (v <> u) as Hne. { intros ->. by rewrite Hok in Eb. }
    assert (forall o g', g_users g' = update_first (fun x => bool_decide (u_oid x = u_oid v)) (successful_login now) (g_users g2) ->
      tried u g a o g') as Hdone.
    { intros o g' Hg'. eapply (tried_update u v g g2 a o g' (successful_login now)); try done. by left. }
    apply alone_bind, alone_db; cbn [modify fst snd].
    + unfold alone. apply Hdone. match goal with |- g_users (run ?p _).2 = _ => assert (keeps_users p) as Hk end.
      { repeat (apply gkeeps_bind; [first [apply keeps_interact|apply keeps_done|apply keeps_insert_session|apply keeps_audit]|intros ?]).
        apply keeps_done. }
      by rewrite Hk.
    + intros m. split; [by apply Hdone|]. apply Hsame; [done|]. intros ? ? ? _ [= <- _]. vm_compute. congruence.
Qed.

Lemma login_strike u g a :
  NoDup (map u_oid (g_users g)) -> u ∈ g_users g -> count_ok u ->
  verify_password (at_password a) (u_password_hash u) (password_pepper cfg) = Ok false ->
  alone (try_login a) g (tried u g a).
Proof.
  intros Hn Hu Hc Hwrong. unfold try_login, login.
  assert (forall m g', g_users g' = g_users g -> tried u g a (Raise (mongo_error m)) g') as Hsame.
  { intros m g' Hg'. apply tried_same; rewrite ?Hg'; try done. intros ? ? ? _ [= <- _]. vm_compute. congruence. }
  apply alone_bind, alone_read; [|intros m; by apply Hsame].
  pose proof (finish_login_strike u g) as Hf. unfold target in Hf.
  destruct (List.find (tenant_matches (py_strip (at_tenant a))) (g_tenants g)) as [t|] eqn:Et.
  - apply alone_bind, alone_read; [|intros m; by apply Hsame]. specialize (Hf (ticked (ticked g)) a None). rewrite Et in Hf.
    by apply Hf.
  - apply alone_bind. specialize (Hf (ticked g) a None). rewrite Et in Hf. by apply Hf.
Qed.

(** the lockout bounds guessing.  While the clock stays within a window shorter than the
    fifteen minutes of the lockout, and requests are served one after the other, at most
    five attempts get to test a wrong password against an account; whoever makes them, with
    whatever names for the tenant and whatever attempts on other accounts in between, and
    also when calls of the database fail. *)
Theorem lockout_bound attempts g u :
  wf g -> u ∈ g_users g ->
  Forall (fun a => verify_password (at_password a) (u_password_hash u) (password_pepper cfg) = Ok false) attempts ->
  (strikes (u_oid u) g attempts).1 <= MAX_FAILED_LOGINS.
Proof.
  intros Hw Hu Hwrong. pose proof (wf_user_oid g Hw) as Hn. pose proof (wf_count g Hw) as Hc.
  rewrite Forall_forall in Hc. specialize (Hc u Hu). clear Hw.
  enough ((strikes (u_oid u) g attempts).1 <= left u).
  { assert (left u <= MAX_FAILED_LOGINS); [|lia]. unfold remaining, count_ok, MAX_FAILED_LOGINS in *.
    repeat case_match; lia. }
  revert g u Hu Hn Hc Hwrong. induction attempts as [|a l IH]; intros g u Hu Hn Hc Hw; cbn [strikes].
  { cbn [fst]. unfold remaining, count_ok, MAX_FAILED_LOGINS in *. repeat case_match; lia. }
  apply Forall_cons in Hw as [Ha Hl]. destruct (login_strike u g a Hn Hu Hc Ha) as (Hn' & u' & Hu' & Hc' & Eo & Eh & Hr).
  rewrite <- Eh in Hl. specialize (IH _ u' Hu' Hn' Hc' Hl). rewrite Eo in IH.
  destruct (strikes (u_oid u) (run (try_login a) g).2 l) as [n g']. cbn [fst] in *. unfold strike. lia.
Qed.
End Lockout.

(** ** A login opens a session *)

Section Opens.
Context `{PyText} `{Crypto} `{GatewayEnv}.
Context (cfg : gateway_config) (dummy_hash : text).
Hypothesis auth_on : auth_required cfg = true.
Hypothesis no_fault : forall n, db_fault n = None.
Hypothesis tokens : forall n, token_urlsafe n <> [].
Hypothesis digests : forall k m, hmac_sha256 k m <> [].

Lemma alone_ok {A} (c : eff gateway A) g (Q : outcome py_exn A -> gateway -> Prop) :
  Q (c g).1 (ticked (c g).2) -> alone (db_call c) g Q.
Proof. intros HQ. unfold alone, db_call. rewrite run_atomically. unfold db_step. rewrite no_fault. by destruct (c g). Qed.

Lemma digest_nonempty t d : digest_of cfg t = Ok d -> d <> [].
Proof.
  unfold digest_of, token_digest. destruct (encode_utf8 _) as [k|]; cbn [obind]; [|done].
  destruct (encode_utf8 t) as [m|]; cbn [obind]; [|done]. intros [= <-]. unfold hexdigest.
  pose proof (digests k m). by destruct (hmac_sha256 k m).
Qed.

(** The session of [l], and the user it belongs to. *)
Record opened (g : gateway) (u : user) (since : Z) (l : login_result) : Prop := mkOpened {
  op_user : find (fun v => has_id (u_tenant_id u) (u_user_id u) v && bool_decide (u_status v = lit "active")) (g_users g)
            = Some (successful_login since u);
  op_session : exists s csrf, s ∈ g_sessions g /\ NoDup (map s_token_digest (g_sessions g)) /\
    digest_of cfg (lr_session_token l) = Ok (s_token_digest s) /\
    digest_of cfg (lr_csrf_token l) = Ok csrf /\ s_csrf_digest s = csrf /\
    s_tenant_id s = u_tenant_id u /\ s_user_id s = u_user_id u /\ s_revoked_at s = None /\
    s_expires_at s = bson_date (since + session_ttl_seconds cfg * SECOND) /\
    identity_of u (s_session_id s) = Ok (lr_identity l);
  op_public : lr_user l = public_user u;
  op_token : lr_session_token l <> [] /\ lr_csrf_token l <> []
}.

Lemma find_unique {A} (p : A -> bool) (l : list A) x :
  x ∈ l -> p x = true -> (forall y, y ∈ l -> p y = true -> y = x) -> List.find p l = Some x.
Proof.
  induction l as [|y l IH]; cbn; [by intros ?%elem_of_nil|]. intros Hx E Hu. destruct (p y) eqn:Ey.
  - f_equal. apply Hu; [by left|done].
  - apply elem_of_cons in Hx as [->|Hx]; [congruence|]. apply IH; [done|done|]. intros z Hz. apply Hu. by right.
Qed.

Lemma finish_login_opens u password ip ua g :
  wf g -> u ∈ g_users g ->
  alone (finish_login cfg dummy_hash (Some u) password ip ua) g (fun o g' => forall l, o = Ok l ->
    verify_password password (u_password_hash u) (password_pepper cfg) = Ok true /\
    u_status u = lit "active" /\ locked (clock (g_tick g)) u = false /\ opened g' u (clock (g_tick g)) l).
Proof.
  intros Hw Hu. unfold finish_login. apply alone_bind, alone_lift.
  destruct (verify_password password _ _) as [ok|]; [|done]. apply alone_bind, alone_interact. cbn beta iota.
  destruct (locked _ u) eqn:El.
  { apply alone_bind, alone_audit. by intros o g' [->|[m ->]] _ _. }
  set (now := clock (g_tick g)) in *. destruct ok; cbn [negb orb].
  2: { apply alone_bind, alone_ok, alone_bind, alone_audit. by intros o g' [->|[m ->]] _ _. }
  case_bool_decide as Ea; cbn [negb].
  2: { apply alone_bind, alone_ok, alone_bind, alone_audit. by intros o g' [->|[m ->]] _ _. }
  apply alone_bind, alone_ok. cbn [fst snd modify].
  set (g1 := ticked _). apply alone_bind, alone_interact. set (t1 := token_urlsafe _).
  apply alone_bind, alone_interact. set (t2 := token_urlsafe _).
  apply alone_bind, alone_interact. set (sid := uuid4 _).
  apply alone_bind, alone_lift. destruct (digest_of cfg t1) as [d1|] eqn:E1; [|done].
  apply alone_bind, alone_lift. destruct (digest_of cfg t2) as [d2|] eqn:E2; [|done].
  apply alone_bind, alone_ok. destruct (existsb _ _) eqn:Ex; [done|]. cbn [fst snd].
  apply alone_bind, alone_lift. destruct (identity_of u sid) as [i|] eqn:Ei; [|done].
  apply alone_bind, alone_audit. intros o g' [->|[m ->]] Hus Hss; [|done]. intros l [= <-].
  split; [done|]. split; [done|]. split; [done|]. split; [| |done|split; apply tokens].
  - change (run (pret _) g').2 with g'. rewrite Hus.
    change (g_users _) with (update_first (fun v => bool_decide (u_oid v = u_oid u)) (successful_login now) (g_users g)).
    assert (successful_login now u ∈ update_first (fun v => bool_decide (u_oid v = u_oid u)) (successful_login now) (g_users g)) as Hin.
    { apply update_first_unique; [done|by apply bool_decide_eq_true|]. intros y Hy Ey%bool_decide_eq_true.
      by eapply (NoDup_map_inj u_oid); [apply wf_user_oid|..]. }
    apply find_unique; [done| |].
    + unfold has_id. cbn. by rewrite !bool_decide_true.
    + intros y Hy [Hy' _]%andb_true_iff. unfold has_id in Hy'. apply andb_true_iff in Hy' as [_ Hid%bool_decide_eq_true].
      eapply (NoDup_map_inj u_user_id); [|exact Hy|exact Hin|exact Hid].
      rewrite update_first_map by done. by apply wf_user_id.
  - change (run (pret _) g').2 with g'. rewrite Hss. eexists _, d2. split; [cbn; apply elem_of_app; right; by left|].
    split; [|by split_and!]. cbn. rewrite map_app. apply NoDup_snoc; [|by apply wf_digest].
    intros (s' & E & Hs')%list_elem_of_fmap. pose proof (existsb_false _ _ _ Ex Hs') as E'. cbn in E'.
    by rewrite bool_decide_true in E'.
Qed.

Lemma opened_authenticates g u since l :
  opened g u since l -> bson_date (clock (g_tick g)) < bson_date (since + session_ttl_seconds cfg * SECOND) ->
  alone (authenticate_session cfg (lr_session_token l) (Some (lr_csrf_token l)) (Some (lr_csrf_token l)) true) g
    (fun o _ => o = Ok (lr_identity l, lr_user l)).
Proof.
  intros [Hu (s & csrf & Hs & Hn & Hd & Hc & Ec & Et & Eu & Er & Ee & Ei) Hp [Ht1 Ht2]] Hlive.
  unfold authenticate_session. rewrite auth_on. cbn [negb].
  destruct (lr_session_token l) as [|c t] eqn:El; [done|]. rewrite <- El in *.
  apply alone_bind, alone_interact, alone_bind, alone_lift. rewrite Hd.
  apply alone_bind, alone_ok. cbn [fst snd gets].
  assert (List.find (fun s' => bool_decide (s_token_digest s' = s_token_digest s) && live (clock (g_tick g)) s')
    (g_sessions (ticked g)) = Some s) as Hf.
  { apply find_unique; [done| |].
    - unfold live. rewrite bool_decide_true, Er, Ee by done. by apply Z.ltb_lt in Hlive as ->.
    - intros y Hy [Ey _]%andb_true_iff. apply bool_decide_eq_true in Ey. by eapply (NoDup_map_inj s_token_digest). }
  cbn beta iota. rewrite Hf. apply alone_bind, alone_bind, alone_lift.
  assert (csrf_valid cfg s (Some (lr_csrf_token l)) (Some (lr_csrf_token l)) = Ok true) as Hcsrf.
  { unfold csrf_valid. pose proof (digest_nonempty _ _ Hc) as Hne. destruct (lr_csrf_token l) as [|c2 t2] eqn:E2; [done|].
    rewrite bool_decide_true by done. rewrite Hc. cbn [obind]. by rewrite bool_decide_false, bool_decide_true by congruence. }
  rewrite Hcsrf. cbn beta iota. apply alone_bind, alone_ok. cbn [fst snd gets]. rewrite Et, Eu.
  change (g_users _) with (g_users g). rewrite Hu. cbn beta iota. apply alone_bind.
  assert (forall g2, alone (pbind (plift (identity_of (successful_login since u) (s_session_id s)))
    (fun identity => pret (identity, public_user (successful_login since u)))) g2
    (fun o _ => o = Ok (lr_identity l, lr_user l))) as Hend.
  { intros g2. apply alone_bind, alone_lift. change (identity_of (successful_login since u)) with (identity_of u).
    rewrite Ei. by rewrite Hp. }
  destruct (_ <=? _); [|apply Hend]. apply alone_ok. apply Hend.
Qed.

(** a login opens a session, and only the right password does.  When a login succeeds,
    it found an active user that is not locked and whose password it was given; and until
    the session expires the two tokens it returns authenticate that user, with the same
    identity and the same public data, for requests that need the CSRF token as well. *)
Theorem login_opens_session tenant_name email password ip ua g l g' :
  wf g -> run (login cfg dummy_hash tenant_name email password ip ua) g = (Ok l, g') ->
  let now := clock (S (S (g_tick g))) in
  exists u, target g tenant_name email = Some u /\
    verify_password password (u_password_hash u) (password_pepper cfg) = Ok true /\
    u_status u = lit "active" /\ locked now u = false /\ lr_user l = public_user u /\
    (bson_date (clock (g_tick g')) < bson_date (now + session_ttl_seconds cfg * SECOND) ->
     (run (authenticate_session cfg (lr_session_token l) (Some (lr_csrf_token l)) (Some (lr_csrf_token l)) true) g').1 =
     Ok (lr_identity l, lr_user l)).
Proof.
  intros Hw Hrun now.
  enough (alone (login cfg dummy_hash tenant_name email password ip ua) g (fun o g' => forall l, o = Ok l ->
    exists u, target g tenant_name email = Some u /\
    verify_password password (u_password_hash u) (password_pepper cfg) = Ok true /\
    u_status u = lit "active" /\ locked now u = false /\ opened g' u now l)) as Ha.
  { unfold alone in Ha. rewrite Hrun in Ha. destruct (Ha l eq_refl) as (u & Ht & Hv & Hst & Hl & Ho).
    exists u. split_and!; try done; [apply Ho|]. intros Hlive. by apply (opened_authenticates g' u now l). }
  clear Hrun l g'. unfold login. apply alone_bind, alone_ok. cbn [fst snd gets]. unfold target.
  destruct (List.find _ (g_tenants g)) as [t|]; cbn beta iota.
  - apply alone_bind, alone_ok. cbn [fst snd gets]. change (g_users (ticked g)) with (g_users g).
    destruct (List.find _ (g_users g)) as [u|] eqn:Eu.
    + pose proof (finish_login_opens u password ip ua (ticked (ticked g))) as Hf. unfold alone in *.
      intros l El. destruct (Hf ltac:(by do 2 apply (guar_ticked cfg 0 (fun _ => False)))
        ltac:(by apply find_spec in Eu as [? _]) l El) as (? & ? & ? & ?). eauto 10.
    + unfold finish_login. apply alone_bind, alone_lift. destruct (verify_password _ _ _); [|done].
      by apply alone_bind, alone_interact.
  - apply alone_bind. unfold finish_login. apply alone_bind, alone_lift. destruct (verify_password _ _ _); [|done].
    by apply alone_bind, alone_interact.
Qed.
End Opens.

(** ** Examples *)

Section Witness.
#[local] Existing Instance ascii_text.
#[local] Existing Instance demo_crypto.
#[local] Existing Instance demo_gateway_env.

Definition wrong_guesses : list attempt :=
  map (fun p => mkAttempt (lit "Acme") (lit "u1@example.org") (lit p) None)
    ["guess 1"; "guess 2"; "guess 3"; "guess 4"; "guess 5"; "guess 6"; "guess 7"].

(** Seven guesses: five are tested, then the account is locked. *)
Example demo_strikes : (strikes demo_gateway_config demo_hash 1 demo_gateway wrong_guesses).1 = 5.
Proof. vm_compute. reflexivity. Qed.

Lemma lockout_bound_witness : (strikes demo_gateway_config demo_hash 1 demo_gateway wrong_guesses).1 <= 5.
Proof.
  apply (lockout_bound demo_gateway_config demo_hash 5000000000) with (u := account 1 "u1" "acme" "a1" "user").
  - intros n. cbn [clock demo_gateway_env]. split; [lia|vm_compute; congruence].
  - apply demo_gateway_wf.
  - right. left.
  - repeat (apply Forall_cons; split; [vm_compute; reflexivity|]). apply Forall_nil. exact I.
Defined.

Definition demo_login := login demo_gateway_config demo_hash (lit "acme") (lit " U1@example.org ") demo_password None None.

Lemma login_opens_session_witness :
  match run demo_login demo_gateway with
  | (Ok l, g') =>
      exists u, target demo_gateway (lit "acme") (lit " U1@example.org ") = Some u /\
        verify_password demo_password (u_password_hash u) (lit "pepper") = Ok true /\
        u_status u = lit "active" /\ locked 5000000000 u = false /\ lr_user l = public_user u /\
        (bson_date 5000000000 < bson_date (5000000000 + 28800 * SECOND) ->
         (run (authenticate_session demo_gateway_config (lr_session_token l) (Some (lr_csrf_token l))
                 (Some (lr_csrf_token l)) true) g').1 = Ok (lr_identity l, lr_user l))
  | (Raise _, _) => False
  end.
Proof.
  destruct (run demo_login demo_gateway) as [[l|e] g'] eqn:E; [|vm_compute in E; discriminate E].
  refine (login_opens_session demo_gateway_config demo_hash eq_refl (fun _ => eq_refl) _ _ (lit "acme")
    (lit " U1@example.org ") demo_password None None demo_gateway l g' demo_gateway_wf E).
  - intros n. discriminate.
  - intros k m. discriminate.
Defined.
End Witness.
