(* ===== verification/MemoryConsolidation.v ===== *)
(** * Consolidation policy of memory writes

    [src/backend/memory/app/services/memory_consolidation.py]: what a new candidate does to
    the memories an owner already holds.  Memories are the dictionaries stored in the
    database; a similarity is a rational.  [round6] is [round(x, 6)]. *)

From Stdlib Require Import QArith Qround Lqa.
From stdpp Require Import base strings sets list sorting.
From S2P Require Import Prelude PyValue.

Local Open Scope string_scope.
Local Open Scope list_scope.
Local Open Scope Z_scope.

(** Round half to even at six decimals. *)
Definition round_half_even (q : Q) : Z :=
  let f := Qfloor q in
  let r := (q - inject_Z f)%Q in
  if (r <?q (1 # 2)) then f
  else if ((1 # 2) <?q r) then f + 1
  else if Z.even f then f else f + 1.
Definition round6 (q : Q) : Q := (round_half_even (q * 1000000) # 1000000)%Q.

Inductive consolidation_outcome :=
  | OUTCOME_CREATE | OUTCOME_DUPLICATE_EXACT | OUTCOME_DUPLICATE_SEMANTIC | OUTCOME_SUPERSEDE
  | OUTCOME_COEXIST | OUTCOME_HISTORICAL | OUTCOME_NEEDS_REVIEW.

#[export] Instance consolidation_outcome_eq : EqDecision consolidation_outcome.
Proof. solve_decision. Defined.

Definition outcome_label (o : consolidation_outcome) : text :=
  lit match o with
      | OUTCOME_CREATE => "create"
      | OUTCOME_DUPLICATE_EXACT => "duplicate_exact"
      | OUTCOME_DUPLICATE_SEMANTIC => "duplicate_semantic"
      | OUTCOME_SUPERSEDE => "supersede"
      | OUTCOME_COEXIST => "coexist"
      | OUTCOME_HISTORICAL => "historical"
      | OUTCOME_NEEDS_REVIEW => "needs_review"
      end.

Definition COMPARISON_SEMANTIC : text := lit "semantic".
Definition COMPARISON_LEXICAL : text := lit "lexical".

(** [{k: v for ...}] with string keys: a later value replaces an earlier one. *)
Fixpoint assoc_set (k v : text) (l : list (text * text)) : list (text * text) :=
  match l with
  | [] => [(k, v)]
  | (k', v') :: l' => if decide (k = k') then (k, v) :: l' else (k', v') :: assoc_set k v l'
  end.

Record ConsolidationDecision := mkDecision {
  cd_outcome : consolidation_outcome;
  cd_reason : text;
  cd_target_id : option text;
  cd_similarity : option Q;
  cd_comparison : text;
  cd_candidates_considered : Z;
  cd_related_ids : list text
}.

#[export] Instance eta_decision : Eta ConsolidationDecision := fun d =>
  mkDecision (cd_outcome d) (cd_reason d) (cd_target_id d) (cd_similarity d) (cd_comparison d)
    (cd_candidates_considered d) (cd_related_ids d).

Definition opt_str (o : option text) : json := match o with Some t => JStr t | None => JNull end.

Definition as_provenance (d : ConsolidationDecision) : json :=
  JObj [("outcome", JStr (outcome_label (cd_outcome d)));
        ("reason", JStr (cd_reason d));
        ("target_id", opt_str (cd_target_id d));
        ("similarity", match cd_similarity d with Some s => JFloat (round6 s) | None => JNull end);
        ("comparison", JStr (cd_comparison d));
        ("candidates_considered", JInt (cd_candidates_considered d));
        ("related_ids", JArr (map JStr (cd_related_ids d)))].

Abbreviation scored := (obj * Q)%type.

Section Policy.
Context `{PyText}.

Definition scope_entries (o : obj) : list (text * text) :=
  foldl (fun acc kv =>
           let key := lower (py_strip (lit kv.1)) in
           let value := lower (py_strip (py_str kv.2)) in
           if bool_decide (py_strip (lit kv.1) = []) || bool_decide (py_strip (py_str kv.2) = []) then acc
           else assoc_set key value acc) [] o.

Definition scope_key (scope : json) : text :=
  match scope with
  | JObj o =>
      join (lit "&") (map (fun kv => kv.1 ++ lit "=" ++ kv.2)
                        (py_sorted (fun a b => text_leb a.1 b.1) (scope_entries o)))
  | _ => []
  end.

(** [str(doc.get("id") or "")] and [str(doc.get("id"))]. *)
Definition sort_id (d : obj) : text := py_str (get d "id" ||| JStr [])%rf.
Definition doc_id (d : obj) : text := py_str (get d "id").

(** The order of the keys [(-similarity, id)]. *)
Definition pair_leb (a b : scored) : bool :=
  (b.2 <?q a.2) || (Qeq_bool a.2 b.2 && text_leb (sort_id a.1) (sort_id b.1)).
Definition ordered (candidates : list scored) : list scored := py_sorted pair_leb candidates.

Definition fact_key (d : obj) : text := lower (py_strip (py_str (get d "fact_key" ||| JStr []))%rf).

(** The thresholds of [ConsolidationPolicy]. *)
Record policy := mkPolicy { duplicate_threshold : Q; conflict_threshold : Q }.

Context (cfg : policy).

Definition in_candidate_scope (candidate : obj) (p : scored) : bool :=
  bool_decide (scope_key (get p.1 "scope") = scope_key (get candidate "scope")).
Definition same_fact_key (candidate : obj) (p : scored) : bool :=
  negb (bool_decide (fact_key candidate = [])) && bool_decide (fact_key candidate = fact_key p.1).
Definition exact_duplicate (candidate : obj) (p : scored) : bool :=
  in_candidate_scope candidate p && jtrue (get p.1 "content_hash")
  && py_eqb (get p.1 "content_hash") (get candidate "content_hash").

Definition explicit_target (candidate : obj) : text :=
  py_strip (py_str (get candidate "supersedes" ||| JStr []))%rf.

Definition decide_candidate (candidate : obj) (comparable : list scored) (comparison : text) : ConsolidationDecision :=
  let ordered := ordered comparable in
  let decision outcome reason (doc : option scored) (similarity : option Q) :=
    mkDecision outcome (lit reason) ((fun p => doc_id p.1) <$> doc) similarity comparison (zlen ordered)
      (map (fun p => doc_id p.1) (List.filter (fun p => jtrue (get p.1 "id")) ordered)) in
  let about outcome reason (p : scored) := decision outcome reason (Some p) (Some p.2) in
  let target := explicit_target candidate in
  if negb (bool_decide (target = [])) then
    match List.find (fun p => bool_decide (doc_id p.1 = target)) ordered with
    | Some p => about OUTCOME_SUPERSEDE "candidate explicitly supersedes this memory" p
    | None =>
        (decision OUTCOME_SUPERSEDE "candidate explicitly supersedes a named memory" None None)
          {{ cd_target_id := Some target }}
    end
  else if jtrue (get candidate "valid_to") then
    decision OUTCOME_HISTORICAL "candidate is written as a closed historical fact" None None
  else
    match List.find (exact_duplicate candidate) ordered with
    | Some p => decision OUTCOME_DUPLICATE_EXACT "identical active memory already stored" (Some p) (Some 1%Q)
    | None =>
        match ordered with
        | [] => decision OUTCOME_CREATE "no comparable memory found" None None
        | first :: _ =>
            let in_scope := List.filter (in_candidate_scope candidate) ordered in
            let out_of_scope := List.filter (fun p => negb (in_candidate_scope candidate p)) ordered in
            let beyond_scope :=
              match out_of_scope with
              | other :: _ =>
                  if conflict_threshold cfg <=?q other.2
                  then about OUTCOME_COEXIST "related memory belongs to a different scope and stays valid" other
                  else about OUTCOME_CREATE "no comparable memory passed the conflict threshold" first
              | [] => about OUTCOME_CREATE "no comparable memory passed the conflict threshold" first
              end in
            match in_scope with
            | [] => beyond_scope
            | best :: _ =>
                match List.find (same_fact_key candidate) in_scope with
                | Some p =>
                    if duplicate_threshold cfg <=?q p.2
                    then about OUTCOME_DUPLICATE_SEMANTIC "near-identical memory already stored in the same scope" p
                    else about OUTCOME_SUPERSEDE "same fact key in the same scope carries a new value" p
                | None =>
                    if duplicate_threshold cfg <=?q best.2
                    then about OUTCOME_DUPLICATE_SEMANTIC "near-identical memory already stored in the same scope" best
                    else if conflict_threshold cfg <=?q best.2
                    then about OUTCOME_NEEDS_REVIEW "related memory found but no fact key declares them the same fact" best
                    else beyond_scope
                end
            end
        end
    end.

(** ** Facts *)

Lemma pair_leb_le a b : pair_leb a b = true -> (b.2 <= a.2)%Q.
Proof.
  unfold pair_leb. rewrite orb_true_iff, andb_true_iff, qltb_true, Qeq_bool_iff.
  intros [?|[-> _]]; lra.
Qed.

Lemma pair_leb_total a b : pair_leb a b = true \/ pair_leb b a = true.
Proof.
  unfold pair_leb. rewrite !orb_true_iff, !andb_true_iff, !qltb_true, !Qeq_bool_iff.
  destruct (Q_dec a.2 b.2) as [[?|?]|E]; [by right; left|by left; left|].
  destruct (text_leb_total (sort_id a.1) (sort_id b.1)); [left|right]; right; split; (done || by symmetry).
Qed.

Lemma pair_leb_trans a b c : pair_leb a b = true -> pair_leb b c = true -> pair_leb a c = true.
Proof.
  unfold pair_leb. rewrite !orb_true_iff, !andb_true_iff, !qltb_true, !Qeq_bool_iff.
  intros [?|[E1 ?]] [?|[E2 ?]]; [left; lra|left; lra|left; lra|right].
  split; [lra|by eapply text_leb_trans].
Qed.

Lemma pair_leb_antisymm a b :
  pair_leb a b = true -> pair_leb b a = true -> sort_id a.1 = sort_id b.1.
Proof.
  unfold pair_leb. rewrite !orb_true_iff, !andb_true_iff, !qltb_true, !Qeq_bool_iff.
  intros [?|[E1 ?]] [?|[E2 ?]]; try (exfalso; lra). by apply text_leb_antisymm.
Qed.

Lemma ordered_perm l : ordered l ≡ₚ l.
Proof. apply py_sorted_perm. Qed.

Lemma ordered_sorted l : StronglySorted (fun a b => pair_leb a b = true) (ordered l).
Proof. apply py_sorted_sorted; [apply pair_leb_total|apply pair_leb_trans]. Qed.

Lemma ordered_in p l : In p (ordered l) <-> p ∈ l.
Proof. rewrite <- list_elem_of_In. by rewrite ordered_perm. Qed.

Lemma sorted_filter (f : scored -> bool) l :
  StronglySorted (fun a b => pair_leb a b = true) l ->
  StronglySorted (fun a b => pair_leb a b = true) (List.filter f l).
Proof.
  induction 1 as [|x l Hl IH Hx]; cbn; [constructor|]. destruct (f x); [|done].
  constructor; [done|]. apply List.Forall_forall. intros y [Hy _]%filter_In.
  rewrite Forall_forall in Hx. apply Hx. by apply list_elem_of_In.
Qed.

(** The first of the selected memories is a most similar one. *)
Lemma first_is_best (f : scored -> bool) l p rest :
  List.filter f (ordered l) = p :: rest ->
  p ∈ l /\ f p = true /\ forall q, q ∈ l -> f q = true -> (q.2 <= p.2)%Q.
Proof.
  intros E. assert (Hp : In p (List.filter f (ordered l))) by (rewrite E; by left).
  apply filter_In in Hp as [Hin Hf]. split; [by apply ordered_in|]. split; [done|].
  intros q Hq Hfq. assert (Hq' : In q (List.filter f (ordered l))).
  { apply filter_In. split; [by apply ordered_in|done]. }
  pose proof (sorted_filter f _ (ordered_sorted l)) as Hs. rewrite E in Hs, Hq'.
  apply StronglySorted_inv in Hs as [_ Hs]. destruct Hq' as [->|Hq']; [lra|].
  rewrite Forall_forall in Hs. apply pair_leb_le, Hs. by apply list_elem_of_In.
Qed.

Lemma none_selected (f : scored -> bool) l q :
  List.filter f (ordered l) = [] -> q ∈ l -> f q = false.
Proof.
  intros E Hq. destruct (f q) eqn:Hf; [|done].
  assert (Hin : In q (List.filter f (ordered l))) by (apply filter_In; split; [by apply ordered_in|done]).
  by rewrite E in Hin.
Qed.

(** What each outcome says about the memories that were compared, and which of them the
    decision points at. *)
Inductive decision_view (candidate : obj) (l : list scored) : consolidation_outcome -> option text -> Prop :=
  | view_named :
      explicit_target candidate <> [] ->
      decision_view candidate l OUTCOME_SUPERSEDE (Some (explicit_target candidate))
  | view_historical :
      explicit_target candidate = [] -> jtrue (get candidate "valid_to") = true ->
      decision_view candidate l OUTCOME_HISTORICAL None
  | view_exact p :
      explicit_target candidate = [] -> p ∈ l -> exact_duplicate candidate p = true ->
      decision_view candidate l OUTCOME_DUPLICATE_EXACT (Some (doc_id p.1))
  | view_same_fact p outcome :
      explicit_target candidate = [] -> p ∈ l -> in_candidate_scope candidate p = true ->
      same_fact_key candidate p = true ->
      (forall q, q ∈ l -> exact_duplicate candidate q = false) ->
      outcome = (if duplicate_threshold cfg <=?q p.2 then OUTCOME_DUPLICATE_SEMANTIC else OUTCOME_SUPERSEDE) ->
      decision_view candidate l outcome (Some (doc_id p.1))
  | view_similar p outcome :
      explicit_target candidate = [] -> p ∈ l -> in_candidate_scope candidate p = true ->
      (forall q, q ∈ l -> exact_duplicate candidate q = false) ->
      (forall q, q ∈ l -> in_candidate_scope candidate q = true ->
         same_fact_key candidate q = false /\ (q.2 <= p.2)%Q) ->
      (outcome = OUTCOME_DUPLICATE_SEMANTIC /\ (duplicate_threshold cfg <= p.2)%Q \/
       outcome = OUTCOME_NEEDS_REVIEW /\ (conflict_threshold cfg <= p.2 < duplicate_threshold cfg)%Q) ->
      decision_view candidate l outcome (Some (doc_id p.1))
  | view_unrelated outcome target :
      explicit_target candidate = [] ->
      (forall q, q ∈ l -> exact_duplicate candidate q = false) ->
      (forall q, q ∈ l -> in_candidate_scope candidate q = true ->
         same_fact_key candidate q = false /\ (q.2 < conflict_threshold cfg)%Q) ->
      (outcome = OUTCOME_CREATE /\ (forall q, q ∈ l -> (q.2 < conflict_threshold cfg)%Q) \/
       outcome = OUTCOME_COEXIST /\ exists p, p ∈ l /\ in_candidate_scope candidate p = false /\
         (conflict_threshold cfg <= p.2)%Q /\ target = Some (doc_id p.1)) ->
      decision_view candidate l outcome target.

Lemma find_none_all (f : scored -> bool) l q : List.find f (ordered l) = None -> q ∈ l -> f q = false.
Proof. intros E Hq. eapply find_none in E; [exact E|]. by apply ordered_in. Qed.

Lemma in_scope_find (f g : scored -> bool) l p :
  List.find f (List.filter g (ordered l)) = Some p -> p ∈ l /\ f p = true /\ g p = true.
Proof. intros [Hin Hf]%find_some. apply filter_In in Hin as [Hin Hg]. split; [by apply ordered_in|done]. Qed.

Lemma in_scope_find_none (f g : scored -> bool) l q :
  List.find f (List.filter g (ordered l)) = None -> q ∈ l -> g q = true -> f q = false.
Proof. intros E Hq Hg. eapply find_none in E; [exact E|]. apply filter_In. split; [by apply ordered_in|done]. Qed.

(** The cases in which nothing in the candidate's scope is related to it. *)
Lemma beyond_scope_view candidate l first rest comparison related :
  explicit_target candidate = [] -> ordered l = first :: rest ->
  (forall q, q ∈ l -> exact_duplicate candidate q = false) ->
  (forall q, q ∈ l -> in_candidate_scope candidate q = true ->
     same_fact_key candidate q = false /\ (q.2 < conflict_threshold cfg)%Q) ->
  let about outcome reason (p : scored) :=
    mkDecision outcome (lit reason) (Some (doc_id p.1)) (Some p.2) comparison (zlen (ordered l)) related in
  let d := match List.filter (fun p => negb (in_candidate_scope candidate p)) (ordered l) with
           | other :: _ =>
               if conflict_threshold cfg <=?q other.2
               then about OUTCOME_COEXIST "related memory belongs to a different scope and stays valid" other
               else about OUTCOME_CREATE "no comparable memory passed the conflict threshold" first
           | [] => about OUTCOME_CREATE "no comparable memory passed the conflict threshold" first
           end in
  decision_view candidate l (cd_outcome d) (cd_target_id d).
Proof.
  intros He Eo Hx Hin about d. subst d.
  destruct (List.filter _ _) as [|other others] eqn:Ef.
  - apply view_unrelated; [done..|]. left. split; [done|]. intros q Hq.
    pose proof (none_selected _ _ _ Ef Hq) as Hn. apply negb_false_iff in Hn. by apply Hin.
  - apply first_is_best in Ef as (Ho & Hs & Hmax). apply negb_true_iff in Hs.
    destruct (conflict_threshold cfg <=?q other.2) eqn:Ec.
    + apply qleb_true in Ec. apply view_unrelated; [done..|]. right. split; [done|]. by exists other.
    + apply qleb_false in Ec. apply view_unrelated; [done..|]. left. split; [done|]. intros q Hq.
      destruct (in_candidate_scope candidate q) eqn:Eq; [by apply Hin|].
      eapply Qle_lt_trans; [apply Hmax; [done|by rewrite Eq]|done].
Qed.

Lemma decide_candidate_view candidate l comparison :
  let d := decide_candidate candidate l comparison in
  decision_view candidate l (cd_outcome d) (cd_target_id d).
Proof.
  cbn zeta. unfold decide_candidate. cbn zeta.
  destruct (bool_decide (explicit_target candidate = [])) eqn:He; cbn [negb].
  2: { apply bool_decide_eq_false in He. case_match eqn:Ef; [|by apply view_named].
       apply find_some in Ef as [_ Ei]. apply bool_decide_eq_true in Ei. cbn. rewrite Ei. by apply view_named. }
  apply bool_decide_eq_true in He.
  destruct (jtrue (get candidate "valid_to")) eqn:Hv; [by apply view_historical|].
  destruct (List.find (exact_duplicate candidate) (ordered l)) as [p|] eqn:Ex.
  { apply find_some in Ex as [Hp Ex]. apply view_exact; [done|by apply ordered_in|done]. }
  pose proof (fun q => find_none_all _ _ q Ex) as Hx.
  destruct (ordered l) as [|first rest] eqn:Eo.
  { assert (l = []) as -> by (apply Permutation_nil_r; by rewrite <- (ordered_perm l), Eo).
    apply view_unrelated; [done|done|set_solver|]. left. split; [done|set_solver]. }
  rewrite <- Eo. destruct (List.filter (in_candidate_scope candidate) (ordered l)) as [|best others] eqn:Es.
  { eapply beyond_scope_view; [done..|]. intros q Hq. by rewrite (none_selected _ _ _ Es Hq). }
  destruct (List.find (same_fact_key candidate) (best :: others)) as [p|] eqn:Ef; rewrite <- Es in Ef.
  { apply in_scope_find in Ef as (Hp & Hf & Hs). destruct (duplicate_threshold cfg <=?q p.2) eqn:Ed; cbn;
      eapply view_same_fact; eauto; by rewrite Ed. }
  apply first_is_best in Es as (Hb & Hbs & Hmax).
  assert (Hn : forall q, q ∈ l -> in_candidate_scope candidate q = true ->
                same_fact_key candidate q = false /\ (q.2 <= best.2)%Q).
  { intros q Hq Hs. split; [by eapply in_scope_find_none|by apply Hmax]. }
  destruct (duplicate_threshold cfg <=?q best.2) eqn:Ed.
  { apply qleb_true in Ed. eapply view_similar; [done..|]. by left. }
  apply qleb_false in Ed. destruct (conflict_threshold cfg <=?q best.2) eqn:Ec.
  { apply qleb_true in Ec. eapply view_similar; [done..|]. right. by repeat split. }
  apply qleb_false in Ec. eapply beyond_scope_view; [done..|]. intros q Hq Hs.
  destruct (Hn q Hq Hs) as [? ?]. split; [done|lra].
Qed.

(** Memories with different identities have one order. *)
Lemma ordered_unique l l' :
  NoDup (map (fun p => sort_id p.1) l) -> l ≡ₚ l' -> ordered l = ordered l'.
Proof.
  intros Hnd Hp. eapply StronglySorted_unique_strong; [|apply ordered_sorted..|].
  - intros p q Hin1 Hin2 H1 H2.
    assert (sort_id p.1 = sort_id q.1) as E by by apply pair_leb_antisymm.
    rewrite ordered_perm in Hin1, Hin2. rewrite <- Hp in Hin2.
    apply list_elem_of_lookup in Hin1 as [i Hi], Hin2 as [j Hj].
    enough (i = j) by congruence.
    apply (NoDup_lookup _ i j (sort_id p.1) Hnd).
    + by rewrite list_lookup_fmap, Hi.
    + by rewrite list_lookup_fmap, Hj, E.
  - by rewrite !ordered_perm.
Qed.

(** The decision does not depend on the order in which the memories were found. *)
Lemma decide_candidate_order candidate l l' comparison :
  NoDup (map (fun p => sort_id p.1) l) -> l ≡ₚ l' ->
  decide_candidate candidate l comparison = decide_candidate candidate l' comparison.
Proof. intros Hnd Hp. unfold decide_candidate. by rewrite (ordered_unique l l'). Qed.

(** The consolidation decision: it does not depend on the order in which comparable
    memories with different identities were found; its outcome and its target are those the
    view [decision_view] allows; and similarity alone never retires a memory: a supersession
    either names its target, or its target is a memory of the same scope whose declared,
    non-empty fact key is that of the candidate. *)
Theorem decision_sound candidate l l' comparison :
  NoDup (map (fun p => sort_id p.1) l) -> l ≡ₚ l' ->
  let d := decide_candidate candidate l comparison in
  decide_candidate candidate l' comparison = d /\
  decision_view candidate l (cd_outcome d) (cd_target_id d) /\
  (cd_outcome d = OUTCOME_SUPERSEDE ->
     explicit_target candidate <> [] /\ cd_target_id d = Some (explicit_target candidate) \/
     exists p, p ∈ l /\ in_candidate_scope candidate p = true /\ fact_key candidate <> [] /\
       fact_key p.1 = fact_key candidate /\ cd_target_id d = Some (doc_id p.1)).
Proof.
  intros Hnd Hp d. split; [symmetry; by apply decide_candidate_order|].
  assert (Hv : decision_view candidate l (cd_outcome d) (cd_target_id d)) by apply decide_candidate_view.
  split; [done|]. intros Ho. rewrite Ho in Hv. inversion Hv as [|?|?|p ? ? Hin Hs Hf|?|]; subst; try done.
  - by left.
  - right. exists p. apply andb_true_iff in Hf as [Hne%negb_true_iff%bool_decide_eq_false Hf%bool_decide_eq_true].
    by rewrite Hf in Hne |- *.
  - naive_solver.
  - naive_solver.
Qed.
End Policy.

Section Demo.
#[local] Existing Instance ascii_text.

Definition deploy_fact (memory_id target scope : string) : obj :=
  [("id", s_ memory_id); ("fact_key", s_ "Deploy.Target"); ("content_hash", s_ target);
   ("scope", JObj [("env", s_ scope)])].

Lemma decision_sound_witness :
  let old := [(deploy_fact "m-1" "gcp" "prod", (8 # 10)%Q); (deploy_fact "m-2" "azure" "dev", (9 # 10)%Q)] in
  let d := decide_candidate (mkPolicy (92 # 100) (75 # 100)) (deploy_fact "new" "aws" "Prod ") old COMPARISON_SEMANTIC in
  cd_outcome d = OUTCOME_SUPERSEDE /\ cd_target_id d = Some (lit "m-1") /\
  decide_candidate (mkPolicy (92 # 100) (75 # 100)) (deploy_fact "new" "aws" "Prod ") (reverse old) COMPARISON_SEMANTIC = d.
Proof.
  intros old d.
  destruct (decision_sound (mkPolicy (92 # 100) (75 # 100)) (deploy_fact "new" "aws" "Prod ") old (reverse old)
    COMPARISON_SEMANTIC) as [Hd _].
  - vm_compute. repeat constructor; set_solver.
  - symmetry. apply reverse_Permutation.
  - split; [vm_compute; reflexivity|]. split; [vm_compute; reflexivity|]. exact Hd.
Defined.
End Demo.
