(* ===== verification/MemoryNormalize.v ===== *)
(** * Normalisation of memory candidates and the write policy

    The pure part of [LongTermMemoryService]
    ([src/backend/memory/app/services/memory_service.py]): how a candidate becomes a memory
    document, and the checks it has to pass before it is stored.  [is_word] is the class
    [\w] of the regular expressions; text functions, hashes and printing are those of
    [PyText] and [Crypto]. *)

From Stdlib Require Import QArith Qminmax.
From stdpp Require Import base strings sets list.
From S2P Require Import Prelude PyValue Base64 Auth MemoryConsolidation.

Local Open Scope string_scope.
Local Open Scope list_scope.
Local Open Scope Z_scope.

Class WordChars := is_word : Z -> bool.

Definition ascii_words_chars : WordChars := ascii_word_char.

Definition ALLOWED_OWNER_TYPES : list text := [lit "user"; lit "session"; lit "conversation"].
Definition ALLOWED_MEMORY_CLASSES : list text := [lit "episodic"; lit "semantic_preference"].
Definition SEMANTIC_PREFERENCE : text := lit "semantic_preference".
Definition EPISODIC : text := lit "episodic".

Definition STATUS_ACTIVE : text := lit "active".
Definition STATUS_SUPERSEDED : text := lit "superseded".
Definition STATUS_ARCHIVED : text := lit "archived".
Definition STATUS_DELETED : text := lit "deleted".

Definition EMB_DISABLED : text := lit "disabled".
Definition EMB_INDEXED : text := lit "indexed".
Definition EMB_PENDING : text := lit "pending".
Definition EMB_FAILED : text := lit "failed".
Definition EMB_DELETE_PENDING : text := lit "delete_pending".
Definition RECONCILIATION_STATUSES : list text := [EMB_PENDING; EMB_FAILED; EMB_DELETE_PENDING].

(** ** Coercions *)

(** [float(v)] and [int(v)], [None] when they raise. *)
Definition py_float `{PyText} (v : json) : option Q :=
  match v with JStr s => parse_float s | _ => as_num v end.
Definition py_int `{PyText} (v : json) : option Z :=
  match v with
  | JStr s => parse_int s
  | JFloat q => Some (Z.quot (Qnum q) (Zpos (Qden q)))
  | JInt n => Some n
  | JBool b => Some (if b then 1 else 0)
  | _ => None
  end.

(** [max(0.0, min(1.0, x))]. *)
Definition clamp01 (q : Q) : Q :=
  let m := if q <?q 1 then q else 1%Q in if 0%Q <?q m then m else 0%Q.

Definition coerce_float `{PyText} (v : json) (d : Q) : Q :=
  match py_float v with Some q => clamp01 q | None => d end.
Definition coerce_int `{PyText} (v : json) (d : Z) : Z :=
  match py_int v with Some n => Z.max 0 n | None => d end.

(** [max(a, b)] of two floats. *)
Definition qmax (a b : Q) : Q := if a <?q b then b else a.

(** ** Text *)

(** [needle in hay]. *)
Fixpoint contains (needle hay : text) : bool :=
  bool_decide (needle `prefix_of` hay) || match hay with [] => false | _ :: h => contains needle h end.

Definition has_any (markers : list string) (t : text) : bool :=
  existsb (fun m => contains (lit m) t) markers.

(** [list(dict.fromkeys(l))]. *)
Definition fromkeys (l : list text) : list text :=
  foldl (fun acc x => if bool_decide (x ∈ acc) then acc else acc ++ [x]) [] l.

(** [re.split("[,|]", t)]. *)
Fixpoint split_at (cur t : text) : list text :=
  match t with
  | [] => [reverse cur]
  | c :: t' => if (c =? 44) || (c =? 124) then reverse cur :: split_at [] t' else split_at (c :: cur) t'
  end.

(** [doc.get(a, {}).get(b)]. *)
Definition field2 (d : obj) (a b : string) : json :=
  match get d a with JObj o => get o b | _ => JNull end.

Definition as_list (v : json) : list json := match v with JArr l => l | _ => [] end.
Definition strings_of (l : list text) : json := JArr (map JStr l).
Definition as_text (v : json) : text := match v with JStr s => s | _ => [] end.
Definition as_q (v : json) : Q := default 0%Q (as_num v).

Section Normalize.
Context `{PyText} `{Crypto} `{WordChars}.

(** [re.sub("\s+", " ", t)]. *)
Fixpoint collapse (in_run : bool) (t : text) : text :=
  match t with
  | [] => []
  | c :: t' =>
      if isspace c then (if in_run then collapse true t' else 32 :: collapse true t')
      else c :: collapse false t'
  end.

Definition normalize_text (v : json) : text :=
  py_strip (collapse false (py_str (v ||| JStr [])%rf)).

Definition normalize_lower (v : json) : text := lower (normalize_text v).

Definition as_string_list (v : json) : list text :=
  match v with
  | JNull => []
  | _ =>
      let parts := match v with JStr s => map JStr (split_at [] s) | JArr l => l | _ => [v] end in
      foldl (fun seen item =>
               let n := normalize_lower item in
               if bool_decide (n = []) || bool_decide (n ∈ seen) then seen else seen ++ [n]) [] parts
  end.

(** The runs [[\w+-]+] of a text. *)
Definition token_char (c : Z) : bool := is_word c || (c =? 43) || (c =? 45).
Fixpoint token_runs (cur t : text) : list text :=
  match t with
  | [] => match cur with [] => [] | _ => [reverse cur] end
  | c :: t' =>
      if token_char c then token_runs (c :: cur) t'
      else match cur with [] => token_runs [] t' | _ => reverse cur :: token_runs [] t' end
  end.

Definition tokenize (t : text) : list text := fromkeys (token_runs [] (lower t)).

Definition content_hash (owner_id owner_type memory_class t : text) : outcome py_exn text :=
  let* material := encode_utf8 (join (lit "|") [owner_id; owner_type; memory_class; lower (py_strip t)]) in
  Ok (sha256_hex material).

Definition build_summary (t : text) : text :=
  if zlen t <=? 160 then t else rstrip (py_prefix t 157) ++ lit "...".

Definition PROVENANCE_KEYS : list string :=
  ["chat_id"; "conversation_id"; "message_id"; "message_ids"; "event_at"; "explicit_user_signal";
   "stable_feedback_count"; "source_type"; "hidden_reasoning"; "raw_retrieval_dump"; "raw_transcript"].

Definition normalize_provenance (provenance : json) (request_context candidate : obj) : obj :=
  let raw := match provenance with JObj o => o | _ => [] end in
  let result := foldl (fun r k => if has_key raw k then obj_set r k (get raw k) else r) [] PROVENANCE_KEYS in
  let result := foldl (fun r k => if has_key candidate k && negb (has_key r k)
                                  then obj_set r k (get candidate k) else r)
                  result ["chat_id"; "conversation_id"; "message_id"] in
  let result := if jtrue (get request_context "trace_id") && negb (has_key result "trace_id")
                then obj_set result "trace_id" (get request_context "trace_id") else result in
  match get result "message_ids" with
  | JNull | JArr _ => result
  | v => obj_set result "message_ids" (JArr [v])
  end.

Definition PREFERENCE_MARKERS : list string :=
  ["prefer concise"; "prefer detailed"; "prefers concise"; "prefers detailed"; "prefer citations";
   "prefers citations"; "use bullet"; "use markdown"; "format answers"].

Definition classify_candidate (candidate : obj) (t : text) : text :=
  let explicit_class := normalize_lower (get candidate "memory_class") in
  if bool_decide (explicit_class ∈ ALLOWED_MEMORY_CLASSES) then explicit_class
  else
    let category := normalize_lower (get candidate "category") in
    if jtrue (get candidate "preference_key") || negb (is_none (get candidate "value")) then SEMANTIC_PREFERENCE
    else if contains (lit "preference") category then SEMANTIC_PREFERENCE
    else if has_any PREFERENCE_MARKERS (lower t) then SEMANTIC_PREFERENCE
    else EPISODIC.

Definition infer_preference_key (t : text) (tags : list text) : text :=
  let l := lower t in
  if has_any ["citation"; "cite"] l then lit "citations"
  else if has_any ["bullet"; "markdown"; "format"] l then lit "formatting_style"
  else if has_any ["concise"; "brief"; "extended"; "detailed"] l then lit "response_style"
  else if has_any ["tone"] l then lit "tone"
  else match tags with tag :: _ => tag | [] => lit "communication_preference" end.

Definition infer_preference_value (preference_key t : text) : text :=
  let l := lower t in
  if bool_decide (preference_key = lit "citations")
  then if has_any ["citation"; "cite"] l then lit "required" else lit "preferred"
  else if bool_decide (preference_key = lit "response_style") && has_any ["concise"; "brief"] l
  then lit "concise"
  else if bool_decide (preference_key = lit "response_style") && has_any ["extended"; "detailed"] l
  then lit "extended"
  else if bool_decide (preference_key = lit "formatting_style") && has_any ["bullet"] l
  then lit "bullets"
  else if bool_decide (preference_key = lit "formatting_style") && has_any ["markdown"] l
  then lit "markdown"
  else build_summary t.

Definition infer_value_type (v : json) : text :=
  match v with
  | JBool _ => lit "boolean"
  | JInt _ | JFloat _ => lit "number"
  | _ => lit "string"
  end.

(** ** Ownership *)

Definition ownership_fields (identity : option auth_identity) : obj :=
  match identity with
  | None => []
  | Some i =>
      [("tenant_id", JStr (ai_tenant_id i)); ("owner_user_id", JStr (ai_user_id i));
       ("owner_admin_id", JStr (match ai_admin_id i with
                                | Some a => if bool_decide (a = []) then ai_user_id i else a
                                | None => ai_user_id i
                                end))]
  end.

(** ** Candidates *)

(** The text and the summary a candidate carries. *)
Definition candidate_content (candidate : obj) : json * json :=
  match get_or candidate "content" (JObj []) with
  | JObj content =>
      (get content "text" ||| get candidate "text" ||| JStr [],
       get content "summary" ||| get candidate "summary" ||| JStr [])%rf
  | JStr content => (JStr content, (get candidate "summary" ||| JStr [])%rf)
  | _ => ((get candidate "text" ||| JStr [])%rf, (get candidate "summary" ||| JStr [])%rf)
  end.

Definition candidate_owner (identity : option auth_identity) (candidate request_context : obj) : text * text :=
  match identity with
  | Some i => (normalize_text (JStr (ai_user_id i)), normalize_lower (JStr (lit "user")))
  | None =>
      (normalize_text (get candidate "owner_id" ||| get request_context "owner_id")%rf,
       normalize_lower (get candidate "owner_type" ||| get request_context "owner_type"
                          ||| JStr (lit "user"))%rf)
  end.

Definition candidate_keywords (candidate retrieval : obj) (tags : list text) (t : text) (summary : json) : list text :=
  match as_string_list (get retrieval "keywords" ||| get candidate "keywords")%rf with
  | [] => as_string_list (strings_of (tags ++ py_prefix (tokenize (t ++ lit " " ++ py_str summary)) 12))
  | keywords => keywords
  end.

Definition or_null (t : text) : json := if bool_decide (t = []) then JNull else JStr t.

(** The fields of either class. *)
Definition class_fields (candidate provenance normalized : obj) (memory_class t now : text) (tags : list text)
    (explicit_signal : bool) (stable_feedback_count : Z) : obj :=
  let confidence := as_q (get normalized "confidence") in
  if bool_decide (memory_class = SEMANTIC_PREFERENCE) then
    let preference_key :=
      normalize_lower (get candidate "preference_key" ||| JStr (infer_preference_key t tags))%rf in
    let value := match get candidate "value" with
                 | JNull => JStr (infer_preference_value preference_key t)
                 | v => v
                 end in
    let normalized :=
      obj_update normalized
        [("preference_key", JStr preference_key);
         ("value", value);
         ("value_type", (get candidate "value_type" ||| JStr (infer_value_type value))%rf);
         ("strength", JFloat (coerce_float (get candidate "strength") (qmax confidence (65 # 100))));
         ("evidence_count",
          JInt (Z.max (coerce_int (get candidate "evidence_count") stable_feedback_count)
                  (if explicit_signal then 1 else stable_feedback_count)))] in
    if bool_decide (as_text (field2 normalized "content" "text") = []) && negb (bool_decide (preference_key = []))
    then
      let written := lit "Preference " ++ preference_key ++ lit ": " ++ py_str value in
      obj_set normalized "content" (JObj [("text", JStr written); ("summary", JStr (build_summary written))])
    else normalized
  else
    obj_update normalized
      [("event_at", (get candidate "event_at" ||| get provenance "event_at" ||| JStr now)%rf);
       ("expires_at", get candidate "expires_at");
       ("stability", JFloat (coerce_float (get candidate "stability") (qmax confidence (55 # 100))))].

(** [_normalize_candidate]; [fresh] is the identifier [uuid4] would generate. *)
Definition normalize_candidate (identity : option auth_identity) (index_enabled : bool) (now fresh : text)
    (candidate request_context : obj) : outcome py_exn obj :=
  let '(raw_text, summary) := candidate_content candidate in
  let t := normalize_text raw_text in
  let memory_class := classify_candidate candidate t in
  let '(owner_id, owner_type) := candidate_owner identity candidate request_context in
  let provenance := normalize_provenance (get candidate "provenance") request_context candidate in
  let scope := match get candidate "scope" with JObj o => JObj o | _ => JObj [] end in
  let tags := as_string_list (get candidate "tags") in
  let retrieval := match get candidate "retrieval" with JObj o => o | _ => [] end in
  let keywords := candidate_keywords candidate retrieval tags t summary in
  let explicit_signal := jtrue (get provenance "explicit_user_signal") in
  let stable_feedback_count := coerce_int (get provenance "stable_feedback_count") 0 in
  let default_confidence := if explicit_signal then (8 # 10)%Q else (6 # 10)%Q in
  let default_importance :=
    if bool_decide (memory_class = SEMANTIC_PREFERENCE) then (8 # 10)%Q else (65 # 100)%Q in
  let* hash := content_hash owner_id owner_type memory_class t in
  let normalized :=
    [("id", JStr (match normalize_text (get candidate "id") with [] => fresh | i => i end));
     ("owner_id", JStr owner_id);
     ("owner_type", JStr owner_type);
     ("memory_class", JStr memory_class);
     ("content", JObj [("text", JStr t);
                       ("summary", JStr (match normalize_text summary with [] => build_summary t | s => s end))]);
     ("source", (get candidate "source" ||| get request_context "source" ||| get provenance "source_type"
                   ||| JStr (lit "unknown"))%rf);
     ("confidence", JFloat (coerce_float (get candidate "confidence") default_confidence));
     ("importance", JFloat (coerce_float (get candidate "importance") default_importance));
     ("tags", strings_of tags);
     ("created_at", (get candidate "created_at" ||| JStr now)%rf);
     ("updated_at", (get candidate "updated_at" ||| JStr now)%rf);
     ("last_accessed_at", get candidate "last_accessed_at");
     ("archived_at", get candidate "archived_at");
     ("status", JStr STATUS_ACTIVE);
     ("revision", JInt (Z.max 1 (coerce_int (get candidate "revision") 1)));
     ("supersedes", or_null (normalize_text (get candidate "supersedes")));
     ("superseded_by", JNull);
     ("content_hash", JStr hash);
     ("valid_from", (get candidate "valid_from" ||| get candidate "event_at" ||| JStr now)%rf);
     ("valid_to", get candidate "valid_to");
     ("scope", scope);
     ("scope_key", JStr (scope_key scope));
     ("fact_key", or_null (normalize_lower (get candidate "fact_key")));
     ("consolidation", JNull);
     ("provenance", JObj provenance);
     ("retrieval",
      JObj [("keywords", strings_of keywords);
            ("embedding_status",
             (get retrieval "embedding_status" ||| JStr (if index_enabled then EMB_PENDING else EMB_DISABLED))%rf);
            ("qdrant_point_id", get retrieval "qdrant_point_id");
            ("embedding_model", JNull); ("embedding_dimensions", JNull); ("vector_collection", JNull);
            ("vector_synced_at", JNull); ("indexed_revision", JNull)])]
    ++ ownership_fields identity in
  Ok (class_fields candidate provenance normalized memory_class t now tags explicit_signal stable_feedback_count).

(** ** Write policy *)

Definition looks_like_transcript (t : text) : bool :=
  contains (lit "user:") (lower t) && contains (lit "assistant:") (lower t).

Definition looks_like_retrieval_dump (t : text) (normalized : obj) : bool :=
  jtrue (field2 normalized "provenance" "raw_retrieval_dump") ||
  has_any ["page_content"; "document:"; "chunk"; "retrieval result"; "embedding score"] (lower t).

Definition looks_like_hidden_reasoning (t : text) (normalized : obj) : bool :=
  jtrue (field2 normalized "provenance" "hidden_reasoning") ||
  has_any ["chain of thought"; "hidden reasoning"; "reasoning trace"; "internal scratchpad"] (lower t).

Definition looks_like_temporary_state (t : text) : bool :=
  has_any ["for this session"; "for now"; "currently working on"; "temporary"; "todo"; "next turn"; "draft";
           "in progress"] (lower t).

Definition policy_check := (string * bool * string)%type.

Fixpoint first_failed_reason (checks : list policy_check) : text :=
  match checks with
  | [] => lit "accepted"
  | (_, passed, reason) :: rest => if passed then first_failed_reason rest else lit reason
  end.

Definition text_of (normalized : obj) : text := as_text (field2 normalized "content" "text").

Definition ordered_checks (normalized : obj) : list policy_check :=
  let t := text_of normalized in
  let explicit_signal := jtrue (field2 normalized "provenance" "explicit_user_signal") in
  let stable_feedback := coerce_int (field2 normalized "provenance" "stable_feedback_count") 0 in
  let preference_signal :=
    explicit_signal || (2 <=? stable_feedback)
    || match as_num (get_or normalized "evidence_count" (JInt 0)) with Some n => 2%Q <=?q n | None => false end in
  [("owner_id", jtrue (get normalized "owner_id"), "owner_id is required");
   ("owner_type", bool_decide (as_text (get normalized "owner_type") ∈ ALLOWED_OWNER_TYPES),
    "owner_type is invalid");
   ("text", negb (bool_decide (t = [])), "memory text is required");
   ("not_transcript", negb (looks_like_transcript t), "raw transcript dumps are not stored");
   ("not_retrieval_dump", negb (looks_like_retrieval_dump t normalized), "raw retrieval dumps are not stored");
   ("not_hidden_reasoning", negb (looks_like_hidden_reasoning t normalized), "hidden reasoning is not stored");
   ("not_temporary_state", negb (looks_like_temporary_state t), "temporary task state is not stored");
   ("confidence", (35 # 100)%Q <=?q as_q (get normalized "confidence"), "candidate confidence is too low");
   ("importance", (35 # 100)%Q <=?q as_q (get normalized "importance"), "candidate importance is too low")]
  ++ (if bool_decide (as_text (get normalized "memory_class") = SEMANTIC_PREFERENCE)
      then [("preference_key", jtrue (get normalized "preference_key"), "preference_key is required");
            ("preference_value",
             negb (is_none (get normalized "value") || py_eqb (get normalized "value") (JStr [])),
             "preference value is required");
            ("preference_signal", preference_signal,
             "semantic preferences require explicit signal or repeated stable feedback")]
      else [("event_at", jtrue (get normalized "event_at"), "event_at is required")]).

Definition evaluate_write_policy (normalized : obj) : bool * obj * text :=
  let checks := ordered_checks normalized in
  (forallb (fun c => c.1.2) checks, map (fun c => (c.1.1, JBool c.1.2)) checks, first_failed_reason checks).
End Normalize.
