(* ===== verification/MemoryClients.v ===== *)
(** * The collections and clients of the memory service

    The state [LongTermMemoryService] works on and its two clients, at the level of
    documents: [src/backend/memory/app/services/tenant_scope.py],
    [memory_embedding_client.py] and [memory_vector_index.py].  MongoDB is four lists of
    dictionaries with the unique indexes the service creates; a call of the driver may
    raise, with or without its effect.  The HTTP interface of Qdrant and the transport of
    the embedding request are parameters. *)

From Stdlib Require Import QArith.
From stdpp Require Import base strings sets list.
From S2P Require Import Prelude PyValue Base64 Auth MemoryConsolidation MemoryNormalize.

Local Open Scope string_scope.
Local Open Scope list_scope.
Local Open Scope Z_scope.

(** ** State *)

Inductive coll := CEpisodic | CSemantic | CTombstones | CLog.

#[export] Instance coll_eq : EqDecision coll.
Proof. solve_decision. Defined.

(** [mw_unique]: the unique indexes exist.  [mw_indexes_ready] and [mw_collection_ready] are
    the flags of the service and of the index client. *)
Record mworld (St : Type) := mkMW {
  mw_episodic : list obj; mw_semantic : list obj; mw_tombstones : list obj; mw_log : list obj;
  mw_index : St; mw_collection_ready : bool; mw_indexes_ready : bool; mw_unique : bool; mw_tick : nat
}.
Arguments mkMW {St}.
Arguments mw_episodic {St}.
Arguments mw_semantic {St}.
Arguments mw_tombstones {St}.
Arguments mw_log {St}.
Arguments mw_index {St}.
Arguments mw_collection_ready {St}.
Arguments mw_indexes_ready {St}.
Arguments mw_unique {St}.
Arguments mw_tick {St}.

#[export] Instance eta_mworld St : Eta (mworld St) := fun w =>
  mkMW (mw_episodic w) (mw_semantic w) (mw_tombstones w) (mw_log w) (mw_index w)
    (mw_collection_ready w) (mw_indexes_ready w) (mw_unique w) (mw_tick w).

Definition rows {St} (c : coll) (w : mworld St) : list obj :=
  match c with
  | CEpisodic => mw_episodic w | CSemantic => mw_semantic w
  | CTombstones => mw_tombstones w | CLog => mw_log w
  end.
Definition on_rows {St} (c : coll) (f : list obj -> list obj) (w : mworld St) : mworld St :=
  match c with
  | CEpisodic => w {{ mw_episodic ::= f }} | CSemantic => w {{ mw_semantic ::= f }}
  | CTombstones => w {{ mw_tombstones ::= f }} | CLog => w {{ mw_log ::= f }}
  end.

(** ** Environment *)

(** Answers are numbered by [mw_tick].  [mdb_fault] is [Some (applied, message)] when the
    driver raises; [index_creation] is whether [create_index] succeeds; [rpc_reply n queue t]
    is what [request_from_thread] returns or raises for the text [t]. *)
Class MemEnv := {
  now_iso : nat -> text;
  new_uuid4 : nat -> text;
  unix_time : nat -> Z;
  utc_micros : nat -> Z;
  mdb_fault : nat -> option (bool * text);
  index_creation : nat -> bool;
  rpc_reply : nat -> text -> outcome py_exn json
}.

(** A condition of a Qdrant filter. *)
Inductive qmatch := MatchValue (v : json) | MatchAny (l : list text).

Inductive qrequest :=
  | QEnsure (size : Z)
  | QUpsert (point_id : text) (vector : list Q) (payload : obj)
  | QSearch (vector : list Q) (limit : Z) (must : list (string * qmatch))
  | QDelete (must : list (string * qmatch)).

(** The body, a status [raise_for_status] rejects, another error of [httpx], or an exception
    that is not one of its errors (a body that is not JSON). *)
Inductive http_reply :=
  | HttpBody (body : json)
  | HttpStatusError (code : Z) (message : text)
  | HttpError (message : text)
  | HttpOther (e : py_exn).

Class QdrantHttp (St : Type) := qdrant_request : qrequest -> St -> http_reply * St.

(** [uuid.uuid5(NAMESPACE_URL, name)]. *)
Class NameUuid := name_uuid : text -> text.

Record mem_config := mkMemConfig {
  qdrant_on : bool;
  qdrant_collection_name : text;
  embedding_queue : text;
  memory_embedding_model : text;
  memory_embedding_dimensions : Z;
  memory_embedding_max_chars : Z;
  query_prefix : text;
  passage_prefix : text;
  memory_dedupe_candidate_limit : Z;
  memory_retrieval_default_limit : Z;
  consolidation_policy : policy;
  auth_secret : text
}.

Definition MemoryEmbeddingError (m : text) : py_exn := PyError (lit "MemoryEmbeddingError") m.
Definition MemoryVectorIndexError (m : text) : py_exn := PyError (lit "MemoryVectorIndexError") m.
Definition DatabaseError (m : text) : py_exn := PyError (lit "DatabaseException") m.
Definition DuplicateKey : py_exn := PyError (lit "DuplicateKeyError") (lit "E11000 duplicate key error").
Definition KeyError {A} : outcome py_exn A := Raise (PyError (lit "KeyError") (lit "missing key")).
Definition NotFound {A} (m : text) : outcome py_exn A := Raise (PyError (lit "ValueError") m).

(** [d[k]]. *)
Definition item (d : obj) (k : string) : outcome py_exn json :=
  match obj_get d k with Some v => Ok v | None => KeyError end.
(** [v.get] and [v[k] = x] need a dictionary. *)
Definition as_dict (v : json) : outcome py_exn obj := match v with JObj o => Ok o | _ => AttributeError end.

Definition mongo_error_ (m : text) : py_exn := PyError (lit "PyMongoError") m.

(** A condition [{k: v}] of a query: the value itself or an element of an array. *)
Definition mongo_eq (k : string) (v : json) (d : obj) : bool :=
  py_eqb (get d k) v || match get d k with JArr l => existsb (fun x => py_eqb x v) l | _ => false end.

Definition mongo_all (q : obj) (d : obj) : bool := forallb (fun kv => mongo_eq kv.1 kv.2 d) q.

(** [update_one] and [delete_one] touch the first match. *)
Fixpoint update_first_row (p : obj -> bool) (f : obj -> obj) (l : list obj) : list obj :=
  match l with [] => [] | d :: l' => if p d then f d :: l' else d :: update_first_row p f l' end.
Fixpoint delete_first_row (p : obj -> bool) (l : list obj) : list obj :=
  match l with [] => [] | d :: l' => if p d then l' else d :: delete_first_row p l' end.

(** [{"$set": fields}]. *)
Definition mongo_set (x fields : obj) : obj := foldr (fun kv acc => obj_set acc kv.1 kv.2) x fields.

(** The keys of the unique indexes; the one on [request_id] is sparse. *)
Definition unique_key (c : coll) (d : obj) : option (list json) :=
  match c with
  | CEpisodic => None
  | CSemantic => Some (map (get d) ["tenant_id"; "owner_user_id"; "owner_id"; "owner_type"; "preference_key"])
  | CTombstones => Some (map (get d) ["tenant_id"; "owner_user_id"; "memory_id"])
  | CLog => if has_key d "request_id" then Some [get d "request_id"] else None
  end.

Definition same_unique_key (c : coll) (d d' : obj) : bool :=
  match unique_key c d, unique_key c d' with
  | Some k, Some k' => py_eqb (JArr k) (JArr k')
  | _, _ => false
  end.

Section Clients.
Context {St : Type} `{PyText} `{Crypto} `{WordChars} `{MemEnv} `{QdrantHttp St} `{NameUuid}.

(** The contextvars of the request and [INTERNAL_AUTH_REQUIRED]. *)
Context (cfg : mem_config) (auth_required : bool) (context : obj).

Abbreviation meff := (eff (mworld St)).

Definition interact {A} (f : nat -> A) : meff A := fun w => (Ok (f (mw_tick w)), w {{ mw_tick ::= S }}).
Definition now_fn : meff text := interact now_iso.

(** ** Database *)

Definition db {A} (c : meff A) : meff A := fun w =>
  match mdb_fault (mw_tick w) with
  | None => let '(o, w') := c w in (o, w' {{ mw_tick ::= S }})
  | Some (applied, m) => (Raise (mongo_error_ m), (if applied : bool then (c w).2 else w) {{ mw_tick ::= S }})
  end.

Definition find_one (c : coll) (p : obj -> bool) : meff (option obj) := db (gets (fun w => List.find p (rows c w))).
Definition find_all (c : coll) (p : obj -> bool) : meff (list obj) := db (gets (fun w => List.filter p (rows c w))).
Definition update_one (c : coll) (p : obj -> bool) (f : obj -> obj) : meff unit :=
  db (modify (on_rows c (update_first_row p f))).
Definition insert_one (c : coll) (d : obj) : meff unit :=
  db (fun w => if mw_unique w && existsb (same_unique_key c d) (rows c w) then (Raise DuplicateKey, w)
               else (Ok tt, on_rows c (.++ [d]) w)).
(** [result.deleted_count]. *)
Definition delete_one (c : coll) (p : obj -> bool) : meff bool :=
  db (fun w => (Ok (existsb p (rows c w)), on_rows c (delete_first_row p) w)).

(** [_ensure_indexes]: a failure to create them is logged. *)
Definition ensure_indexes : meff unit := fun w =>
  if mw_indexes_ready w then (Ok tt, w)
  else if index_creation (mw_tick w)
  then (Ok tt, w {{ mw_unique := true }} {{ mw_indexes_ready := true }} {{ mw_tick ::= S }})
  else (Ok tt, w {{ mw_tick ::= S }}).

(** ** Scope *)

Definition current_identity : meff (option auth_identity) := lift (identity_from_context auth_required context).

Definition boundary (identity : option auth_identity) : obj :=
  match identity with
  | None => []
  | Some i => [("tenant_id", JStr (ai_tenant_id i)); ("owner_user_id", JStr (ai_user_id i))]
  end.

(** [scope_filter(query)] as a test on rows. *)
Definition scope_filter (identity : option auth_identity) (query : obj) (d : obj) : bool :=
  mongo_all (boundary identity) d && mongo_all query d.

Definition scoped (query : obj) : meff (obj -> bool) :=
  i <-- current_identity; ret (scope_filter i query).

(** ** Embedding client *)

Definition bounded_text (t : text) : outcome py_exn text :=
  let normalized := py_strip t in
  if bool_decide (normalized = []) then Raise (MemoryEmbeddingError (lit "embedding text is empty"))
  else Ok (py_prefix normalized (memory_embedding_max_chars cfg)).

Definition vector_from_reply (now : Z) (reply : json) : outcome py_exn json :=
  match reply with
  | JObj r =>
      let* _ := verify_internal_ticket_from_envelope true (auth_secret cfg) now r in
      let data := match get r "data" with
                  | JObj o => o
                  | _ => match get r "payload" with JObj o => o | _ => [] end
                  end in
      if jtrue (get data "error") then Raise (MemoryEmbeddingError (py_str (get data "error")))
      else Ok (match get data "embedding" with JArr l => JArr l | _ => JArr [] end)
  | _ => Raise (MemoryEmbeddingError (lit "embedding service returned a malformed reply"))
  end.

Definition request_embedding (payload_text : text) : meff json :=
  reply <-- (fun w => (rpc_reply (mw_tick w) payload_text, w {{ mw_tick ::= S }}));
  now <-- interact unix_time;
  lift (vector_from_reply now reply).

Fixpoint floats (l : list json) : option (list Q) :=
  match l with
  | [] => Some []
  | v :: l' => match py_float v, floats l' with Some q, Some r => Some (q :: r) | _, _ => None end
  end.

(** [_embed]; [asyncio.CancelledError] is not caught. *)
Definition embed (prefix : text) (t : text) : meff (list Q) :=
  bounded <-- lift (bounded_text t);
  vector <-- catch (request_embedding (prefix ++ bounded))
    (fun e => if is_class "MemoryEmbeddingError" e then None
              else if is_class "TimeoutError" e
              then Some (raise (MemoryEmbeddingError (lit "embedding request timed out")))
              else if is_exception e
              then Some (raise (MemoryEmbeddingError (lit "embedding request failed: " ++ exn_text e)))
              else None);
  match vector with
  | JArr (x :: l) =>
      if zlen (x :: l) =? memory_embedding_dimensions cfg then
        match floats (x :: l) with
        | Some v => ret v
        | None => raise (MemoryEmbeddingError (lit "embedding service returned a non-numeric vector"))
        end
      else raise (MemoryEmbeddingError (lit "embedding dimensionality mismatch"))
  | _ => raise (MemoryEmbeddingError (lit "embedding service returned no vector"))
  end.

Definition embed_memory (t : text) : meff (list Q) := embed (passage_prefix cfg) t.
Definition embed_query (t : text) : meff (list Q) := embed (query_prefix cfg) t.

(** ** Index client *)

Definition http (r : qrequest) : meff http_reply := fun w =>
  let '(reply, s) := qdrant_request r (mw_index w) in (Ok reply, w {{ mw_index := s }}).

(** [_request] under [except httpx.HTTPError]. *)
Definition request_or_error (r : qrequest) : meff obj :=
  reply <-- http r;
  match reply with
  | HttpBody (JObj body) => ret body
  | HttpBody _ => ret []
  | HttpStatusError _ m | HttpError m => raise (MemoryVectorIndexError m)
  | HttpOther e => raise e
  end.

Definition ensure_collection : meff unit :=
  ready <-- gets mw_collection_ready;
  if ready || negb (qdrant_on cfg) then ret tt
  else
    reply <-- http (QEnsure (memory_embedding_dimensions cfg));
    match reply with
    | HttpBody _ => modify (fun w => w {{ mw_collection_ready := true }})
    | HttpStatusError code m =>
        if code =? 409 then modify (fun w => w {{ mw_collection_ready := true }})
        else raise (MemoryVectorIndexError m)
    | HttpError m => raise (MemoryVectorIndexError m)
    | HttpOther e => raise e
    end.

Definition require_identity : meff auth_identity :=
  i <-- current_identity;
  match i with
  | Some i => ret i
  | None => raise (MemoryVectorIndexError (lit "authenticated identity is required"))
  end.

Definition point_id (tenant_id user_id memory_id : text) : text :=
  name_uuid (lit "memory:" ++ tenant_id ++ lit ":" ++ user_id ++ lit ":" ++ memory_id).

Definition index_enabled_or_raise : meff unit :=
  if qdrant_on cfg then ret tt else raise (MemoryVectorIndexError (lit "memory vector index is disabled")).
Definition check_dimensions (vector : list Q) : meff unit :=
  if zlen vector =? memory_embedding_dimensions cfg then ret tt
  else raise (MemoryVectorIndexError (lit "vector dimensionality mismatch")).

Definition upsert_memory (d : obj) (vector : list Q) : meff text :=
  index_enabled_or_raise;;;
  check_dimensions vector;;;
  i <-- require_identity;
  ensure_collection;;;
  owner_id <-- lift (item d "owner_id");
  owner_type <-- lift (item d "owner_type");
  memory_id <-- lift (item d "id");
  memory_class <-- lift (item d "memory_class");
  content <-- lift (as_dict (get_or d "content" (JObj [])));
  let payload :=
    [("owner_id", owner_id); ("owner_type", owner_type); ("memory_id", memory_id);
     ("memory_class", memory_class); ("text", get_or content "text" (JStr []));
     ("tags", get_or d "tags" (JArr [])); ("importance", get_or d "importance" (JFloat 0));
     ("updated_at", get d "updated_at"); ("status", get_or d "status" (JStr STATUS_ACTIVE));
     ("revision", get_or d "revision" (JInt 1)); ("valid_to", get d "valid_to");
     ("archived", JBool (jtrue (get d "archived_at")))] ++ ownership_fields (Some i) in
  let pid := point_id (ai_tenant_id i) (ai_user_id i) (py_str memory_id) in
  request_or_error (QUpsert pid vector payload);;;
  ret pid.

Definition search_must (identity : option auth_identity) (owner_id owner_type : text) (statuses : list text)
    : list (string * qmatch) :=
  [("owner_id", MatchValue (JStr owner_id)); ("owner_type", MatchValue (JStr owner_type));
   ("archived", MatchValue (JBool false)); ("status", MatchAny statuses)]
  ++ map (fun kv => (kv.1, MatchValue kv.2)) (boundary identity).

Definition hit_of (v : json) : outcome py_exn (json * json) :=
  let* hit := as_dict v in
  let* payload := as_dict (get hit "payload" ||| JObj [])%rf in
  Ok ((get payload "memory_id" ||| get hit "id")%rf, get_or hit "score" (JFloat 0)).

Fixpoint hits_of (l : list json) : outcome py_exn (list (json * json)) :=
  match l with
  | [] => Ok []
  | v :: l' => let* h := hit_of v in let* r := hits_of l' in Ok (h :: r)
  end.

(** The hits as [(memory_id, score)]. *)
Definition search (vector : list Q) (owner_id owner_type : text) (limit : Z) (statuses : list text)
    : meff (list (json * json)) :=
  index_enabled_or_raise;;;
  check_dimensions vector;;;
  ensure_collection;;;
  i <-- current_identity;
  response <-- request_or_error (QSearch vector limit (search_must i owner_id owner_type statuses));
  lift (match (get response "result" ||| JArr [])%rf with
        | JArr l => hits_of l
        | _ => TypeError
        end).

Definition index_delete_memory (memory_id : text) : meff unit :=
  index_enabled_or_raise;;;
  i <-- require_identity;
  ensure_collection;;;
  request_or_error (QDelete (("memory_id", MatchValue (JStr memory_id))
                      :: map (fun kv => (kv.1, MatchValue kv.2)) (boundary (Some i))));;;
  ret tt.

Definition is_index_error (e : py_exn) : bool := is_class "MemoryVectorIndexError" e.
Definition is_embedding_error (e : py_exn) : bool := is_class "MemoryEmbeddingError" e.
End Clients.
