(* ===== verification/MemoryWrite.v ===== *)
(** * Writing memories

    The write path of [LongTermMemoryService]
    ([src/backend/memory/app/services/memory_service.py]): which memories are current, what a
    candidate is compared with, the guard against resurrecting deleted facts, and the whole of
    [write_memory] with its log and its idempotent replay.  Metrics and logging are left out. *)

From Stdlib Require Import QArith.
From stdpp Require Import base strings sets list.
From S2P Require Import Prelude PyValue Base64 Auth MemoryConsolidation MemoryNormalize MemoryClients.

Local Open Scope string_scope.
Local Open Scope list_scope.
Local Open Scope Z_scope.

(** [str(doc["id"])]. *)
Definition id_of `{PyText} (d : obj) : outcome py_exn text := let* v := item d "id" in Ok (py_str v).

(** [{"retrieval.embedding_status": v}] of an update. *)
Definition set_retrieval (k : string) (v : json) (d : obj) : obj :=
  obj_set d "retrieval" (JObj (obj_set (match get d "retrieval" with JObj o => o | _ => [] end) k v)).

(** ** Dates *)

(** [datetime.fromisoformat]; a date without an offset is naive, and Python does not compare
    naive with aware dates. *)
Record datetime := mkDatetime { dt_aware : bool; dt_micros : Z }.
Class PyDates := {
  fromisoformat : text -> option datetime;
  isoformat : datetime -> text
}.

(** [t.replace("Z", "+00:00")]. *)
Definition z_offset (t : text) : text :=
  concat (map (fun c => if c =? 90 then lit "+00:00" else [c]) t).

Definition parse_datetime `{PyText} `{PyDates} (v : json) : option datetime :=
  if jtrue v then fromisoformat (z_offset (py_str v)) else None.

(** [a > b]. *)
Definition later (a b : datetime) : outcome py_exn bool :=
  if Bool.eqb (dt_aware a) (dt_aware b) then Ok (dt_micros b <? dt_micros a) else TypeError.

Fixpoint filterM {A} (f : A -> outcome py_exn bool) (l : list A) : outcome py_exn (list A) :=
  match l with
  | [] => Ok []
  | x :: l' => let* b := f x in let* r := filterM f l' in Ok (if b : bool then x :: r else r)
  end.

Fixpoint mapM_ {A B} (f : A -> outcome py_exn B) (l : list A) : outcome py_exn (list B) :=
  match l with
  | [] => Ok []
  | x :: l' => let* y := f x in let* r := mapM_ f l' in Ok (y :: r)
  end.

Section Documents.
Context `{PyText} `{PyDates}.

Definition memory_status (d : obj) : text :=
  if jtrue (get d "status") then py_str (get d "status")
  else if jtrue (get d "archived_at") then STATUS_ARCHIVED else STATUS_ACTIVE.

Definition is_valid_at (d : obj) (as_of : option datetime) : outcome py_exn bool :=
  match as_of with
  | None => Ok (negb (jtrue (get d "valid_to")))
  | Some at_ =>
      let* started_later :=
        match parse_datetime (get d "valid_from") with Some f => later f at_ | None => Ok false end in
      if started_later then Ok false
      else match parse_datetime (get d "valid_to") with Some t => later t at_ | None => Ok true end
  end.

Record memory_query := mkQuery {
  mq_owner_id : text; mq_owner_type : option text; mq_classes : list text; mq_include_archived : bool;
  mq_include_history : bool; mq_as_of : option datetime; mq_scope : option text
}.

(** The tests of the loop of [_active_memory_documents], in its order. *)
Definition selected (q : memory_query) (d : obj) : outcome py_exn bool :=
  if negb (existsb (fun c => py_eqb (get d "memory_class") (JStr c)) (mq_classes q)) then Ok false
  else if negb (bool_decide (mq_owner_id q = [])) && negb (py_eqb (get d "owner_id") (JStr (mq_owner_id q)))
  then Ok false
  else if match mq_owner_type q with
          | Some t => negb (bool_decide (t = [])) && negb (py_eqb (get d "owner_type") (JStr t))
          | None => false
          end then Ok false
  else if match mq_scope q with
          | Some s => negb (bool_decide (py_str (get d "scope_key" ||| JStr [])%rf = s))
          | None => false
          end then Ok false
  else if negb (mq_include_archived q) && jtrue (get d "archived_at") then Ok false
  else
    let historical := mq_include_history q || match mq_as_of q with Some _ => true | None => false end in
    if negb (mq_include_archived q) && negb historical && negb (bool_decide (memory_status d = STATUS_ACTIVE))
    then Ok false
    else if bool_decide (memory_status d = STATUS_DELETED) then Ok false
    else if mq_include_history q then Ok true else is_valid_at d (mq_as_of q).
End Documents.

Section Similarity.
(** [_text_similarity]: the Jaccard index of two token sets. *)
Definition text_similarity (left right : list text) : Q :=
  let l := fromkeys left in
  let r := fromkeys right in
  let common := zlen (List.filter (fun x => bool_decide (x ∈ r)) l) in
  if bool_decide (l = []) || bool_decide (r = []) then 0%Q
  else (inject_Z common / inject_Z (Z.max (zlen l + zlen r - common) 1))%Q.
End Similarity.

Definition as_str (v : json) : outcome py_exn text := match v with JStr t => Ok t | _ => TypeError end.

(** A list of strings stored in a document. *)
Fixpoint text_list (l : list json) : outcome py_exn (list text) :=
  match l with
  | [] => Ok []
  | JStr s :: l' => let* r := text_list l' in Ok (s :: r)
  | _ :: _ => TypeError
  end.

Section Write.
Context {St : Type} `{PyText} `{Crypto} `{WordChars} `{MemEnv} `{QdrantHttp St} `{NameUuid} `{PyDates}.
Context (cfg : mem_config) (auth_required : bool) (context : obj).

Abbreviation meff := (eff (mworld St)).
Abbreviation scoped := (scoped auth_required context).
Abbreviation current_identity := (current_identity auth_required context).

(** ** Reads *)

Definition all_memory_documents (include_tombstones : bool) : meff (list obj) :=
  mine <-- scoped [];
  episodic <-- find_all CEpisodic mine;
  semantic <-- find_all CSemantic mine;
  let documents := episodic ++ semantic in
  ret (if include_tombstones then documents
       else List.filter (fun d => negb (py_eqb (get d "status") (JStr STATUS_DELETED))) documents).

Definition active_memory_documents (q : memory_query) : meff (list obj) :=
  documents <-- all_memory_documents false;
  lift (filterM (selected q) documents).

Definition find_in (c : coll) (p : obj -> bool) (include_tombstones : bool) : meff (option obj) :=
  found <-- find_one c p;
  ret (match found with
       | Some d => if negb (jtrue (JObj d)) then None
                   else if negb include_tombstones && py_eqb (get d "status") (JStr STATUS_DELETED)
                   then None else Some d
       | None => None
       end).

Definition find_memory_document (memory_id : text) (include_tombstones : bool) : meff (option (coll * obj)) :=
  p <-- scoped [("id", JStr memory_id)];
  episodic <-- find_in CEpisodic p include_tombstones;
  match episodic with
  | Some d => ret (Some (CEpisodic, d))
  | None =>
      semantic <-- find_in CSemantic p include_tombstones;
      ret ((fun d => (CSemantic, d)) <$> semantic)
  end.

(** ** Comparison *)

(** [doc.get("retrieval", {}).get("keywords", []) or tokenize(doc.get("content", {}).get("text", ""))]. *)
Definition document_tokens (d : obj) : outcome py_exn (list text) :=
  let* retrieval := as_dict (get_or d "retrieval" (JObj [])) in
  let keywords := get_or retrieval "keywords" (JArr []) in
  if jtrue keywords then
    match keywords with JArr l => text_list l | _ => TypeError end
  else
    let* content := as_dict (get_or d "content" (JObj [])) in
    match get_or content "text" (JStr []) with
    | JStr t => Ok (tokenize t)
    | _ => AttributeError
    end.

(** [by_id.get(memory_id)]: the last document with this id. *)
Definition find_last_id (memory_id : json) (active : list obj) : option obj :=
  List.find (fun d => py_eqb (get d "id") memory_id) (reverse active).

Fixpoint score_hits (active : list obj) (hits : list (json * json)) : outcome py_exn (list (obj * Q)) :=
  match hits with
  | [] => Ok []
  | (memory_id, score) :: rest =>
      match memory_id with
      | JArr _ | JObj _ => TypeError
      | _ =>
          match find_last_id memory_id active with
          | None => score_hits active rest
          | Some d =>
              match py_float score with
              | Some s => let* r := score_hits active rest in Ok ((d, s) :: r)
              | None => TypeError
              end
          end
      end
  end.

Record comparison := mkComparison {
  cmp_scored : list (obj * Q); cmp_mode : text; cmp_vector : option (list Q)
}.

Definition semantic_comparison (normalized : obj) (active : list obj) (limit : Z) : meff comparison :=
  vector <-- embed_memory cfg (text_of normalized);
  hits <-- search cfg auth_required context vector (as_text (get normalized "owner_id"))
             (as_text (get normalized "owner_type")) limit [STATUS_ACTIVE];
  scored <-- lift (score_hits active hits);
  ret (mkComparison scored COMPARISON_SEMANTIC (Some vector)).

Definition lexical_scores (normalized : obj) (active : list obj) (limit : Z) : outcome py_exn (list (obj * Q)) :=
  let keywords := map as_text (as_list (field2 normalized "retrieval" "keywords")) in
  let candidate_tokens := match keywords with [] => tokenize (text_of normalized) | _ => keywords end in
  let* scored := mapM_ (fun d => let* tokens := document_tokens d in
                                 Ok (d, text_similarity candidate_tokens tokens)) active in
  Ok (py_prefix (ordered scored) limit).

Definition compare_candidate (normalized : obj) (active : list obj) (limit : Z) : meff comparison :=
  let lexical := mkComparison [] COMPARISON_LEXICAL None in
  c <-- (if qdrant_on cfg && negb (bool_decide (text_of normalized = []))
         then catch (semantic_comparison normalized active limit)
                (fun e => if is_embedding_error e || is_index_error e then Some (ret lexical) else None)
         else ret lexical);
  if bool_decide (cmp_mode c = COMPARISON_LEXICAL)
  then scored <-- lift (lexical_scores normalized active limit);
       ret (mkComparison scored COMPARISON_LEXICAL (cmp_vector c))
  else ret c.

(** An exact match or a value of the declared fact, with rank, identity and score. *)
Record forced_match := mkForced { fm_rank : Z; fm_id : text; fm_doc : obj; fm_score : Q }.

Definition scored_for (scored : list (obj * Q)) (i : text) : option Q :=
  snd <$> List.find (fun p => bool_decide (doc_id p.1 = i)) (reverse scored).

Definition forced_of (normalized : obj) (scored : list (obj * Q)) (d : obj) : outcome py_exn (option forced_match) :=
  let candidate_scope := py_str (get normalized "scope_key" ||| JStr [])%rf in
  let candidate_fact_key := py_str (get normalized "fact_key" ||| JStr [])%rf in
  if negb (bool_decide (py_str (get d "scope_key" ||| JStr [])%rf = candidate_scope)) then Ok None
  else
    let exact := py_eqb (get d "content_hash") (get normalized "content_hash") in
    let same_fact := negb (bool_decide (candidate_fact_key = []))
                     && bool_decide (py_str (get d "fact_key" ||| JStr [])%rf = candidate_fact_key) in
    if negb exact && negb same_fact then Ok None
    else
      let* i := id_of d in
      Ok (Some (mkForced (if exact then 0 else 1) i d
                  (match scored_for scored i with Some s => s | None => if exact then 1%Q else 0%Q end))).

Definition omit_none {A} (l : list (option A)) : list A := omap id l.

(** [sorted(forced)] compares the documents of two entries with one rank and identity, which
    raises unless they are equal. *)
Definition forced_leb (a b : forced_match) : bool :=
  (fm_rank a <? fm_rank b) || ((fm_rank a =? fm_rank b) && text_leb (fm_id a) (fm_id b)).
Definition forced_clash (a b : forced_match) : bool :=
  (fm_rank a =? fm_rank b) && bool_decide (fm_id a = fm_id b) && negb (py_eqb (JObj (fm_doc a)) (JObj (fm_doc b))).
Definition sort_forced (l : list forced_match) : outcome py_exn (list forced_match) :=
  if existsb (fun a => existsb (forced_clash a) l) l then TypeError else Ok (py_sorted forced_leb l).

(** The loops that fill [bounded]. *)
Definition bound_into (limit : Z) (acc : list (obj * Q) * list text) (e : text * (obj * Q))
    : list (obj * Q) * list text :=
  if negb (bool_decide (e.1 ∈ acc.2)) && (zlen acc.1 <? limit)
  then (acc.1 ++ [e.2], acc.2 ++ [e.1]) else acc.

Definition bounded_set (limit : Z) (forced : list forced_match) (scored : list (obj * Q)) : list (obj * Q) :=
  let first := foldl (bound_into limit) ([], []) (map (fun f => (fm_id f, (fm_doc f, fm_score f))) forced) in
  (foldl (bound_into limit) first (map (fun p => (doc_id p.1, p)) scored)).1.

Definition comparable_memories (normalized : obj) : meff comparison :=
  active <-- active_memory_documents
    (mkQuery (as_text (get normalized "owner_id")) (Some (as_text (get normalized "owner_type")))
       [as_text (get normalized "memory_class")] false false None None);
  let limit := Z.max 1 (memory_dedupe_candidate_limit cfg) in
  lift (mapM_ id_of active);;;
  c <-- compare_candidate normalized active limit;
  forced <-- lift (mapM_ (forced_of normalized (cmp_scored c)) active);
  sorted <-- lift (sort_forced (omit_none forced));
  ret (mkComparison (bounded_set limit sorted (cmp_scored c)) (cmp_mode c) (cmp_vector c)).

(** ** Deletion identities *)

Definition tombstone_where (query : obj) : meff (option obj) :=
  p <-- scoped query;
  find_one CTombstones p.

(** Try queries until one finds a row. *)
Fixpoint first_tombstone (queries : list (obj * string)) : meff (option text) :=
  match queries with
  | [] => ret None
  | (q, rule) :: rest =>
      t <-- tombstone_where q;
      match t with
      | Some (_ :: _) => ret (Some (lit rule))
      | _ => first_tombstone rest
      end
  end.

Definition tombstone_queries (normalized : obj) : list (obj * string) :=
  let base := [("owner_id", get normalized "owner_id"); ("owner_type", get normalized "owner_type");
               ("memory_class", get normalized "memory_class")] in
  let scoped_base := base ++ [("scope_key", (get normalized "scope_key" ||| JStr [])%rf)] in
  let when_ v q := if jtrue v then q else [] in
  when_ (get normalized "id") [(base ++ [("memory_id", get normalized "id")], "canonical_memory_id")]
  ++ when_ (get normalized "supersedes")
       [(base ++ [("memory_id", get normalized "supersedes")], "supersedes_deleted_memory")]
  ++ (if bool_decide (as_text (get normalized "memory_class") = SEMANTIC_PREFERENCE)
      then when_ (get normalized "preference_key")
             [(base ++ [("preference_key", get normalized "preference_key")], "preference_key_same_owner")]
      else [])
  ++ [(scoped_base ++ [("content_hash", get normalized "content_hash")], "exact_content_same_scope")]
  ++ when_ (get normalized "fact_key")
       [(scoped_base ++ [("fact_key", get normalized "fact_key")], "fact_key_same_scope")].

(** The rule by which a durable deletion matches the candidate. *)
Definition matching_deletion_tombstone (normalized : obj) : meff (option text) :=
  first_tombstone (tombstone_queries normalized).

(** ** Persistence *)

Definition persist_memory (c : coll) (d : obj) (is_update : bool) : meff unit :=
  if is_update then
    memory_id <-- lift (item d "id");
    p <-- scoped [("id", memory_id)];
    update_one c p (fun x => mongo_set x d)
  else
    i <-- current_identity;
    insert_one c (obj_update d (ownership_fields i)).

Definition collection_for (memory_class : text) : coll :=
  if bool_decide (memory_class = SEMANTIC_PREFERENCE) then CSemantic else CEpisodic.

Definition persist_retrieval_state (d : obj) : meff unit :=
  memory_class <-- lift (item d "memory_class");
  memory_id <-- lift (item d "id");
  p <-- scoped [("id", memory_id)];
  retrieval <-- lift (item d "retrieval");
  updated_at <-- lift (item d "updated_at");
  update_one (if py_eqb memory_class (JStr EPISODIC) then CEpisodic else CSemantic) p
    (fun x => mongo_set x [("retrieval", retrieval); ("updated_at", updated_at)]).

(** [doc["retrieval"].update(fields)]. *)
Definition update_retrieval (fields : obj) (d : obj) : outcome py_exn obj :=
  let* v := item d "retrieval" in
  let* retrieval := as_dict v in
  Ok (obj_set d "retrieval" (JObj (obj_update retrieval fields))).

Definition index_fields (status : text) (pid synced_at revision : json) : obj :=
  [("embedding_status", JStr status); ("qdrant_point_id", pid);
   ("embedding_model", JStr (memory_embedding_model cfg));
   ("embedding_dimensions", JInt (memory_embedding_dimensions cfg));
   ("vector_collection", JStr (qdrant_collection_name cfg));
   ("vector_synced_at", synced_at); ("indexed_revision", revision)].

(** The outcome of a synchronisation: whether it was indexed, the error, and the document
    with its new retrieval state. *)
Record sync_result := mkSync { sr_indexed : json; sr_error : json; sr_doc : obj }.

Definition record_vector_failure (d : obj) (status error : text) : meff sync_result :=
  d <-- lift (update_retrieval (index_fields status JNull JNull JNull) d);
  updated <-- now_fn;
  let d := obj_set d "updated_at" (JStr updated) in
  persist_retrieval_state d;;;
  ret (mkSync (JBool false) (JStr error) d).

(** An attempt that reports errors of one class as values. *)
Definition try_class {A} (cls : py_exn -> bool) (c : meff A) : meff (A + text) :=
  catch (a <-- c; ret (inl a)) (fun e => if cls e then Some (ret (inr (exn_text e))) else None).

Definition sync_vector_index (d : obj) (vector : option (list Q)) : meff sync_result :=
  if negb (qdrant_on cfg) then
    d <-- lift (update_retrieval [("embedding_status", JStr EMB_DISABLED)] d);
    persist_retrieval_state d;;;
    ret (mkSync JNull JNull d)
  else
    content <-- lift (as_dict (get_or d "content" (JObj [])));
    embedded <-- (match vector with
                  | Some v => ret (inl v)
                  | None => try_class is_embedding_error
                              (embed_memory cfg (py_str (get_or content "text" (JStr []) ||| JStr [])%rf))
                  end);
    match embedded with
    | inr error => record_vector_failure d EMB_FAILED error
    | inl v =>
        upserted <-- try_class is_index_error (upsert_memory cfg auth_required context d v);
        match upserted with
        | inr error => record_vector_failure d EMB_PENDING error
        | inl pid =>
            synced <-- now_fn;
            d <-- lift (update_retrieval
                          (index_fields EMB_INDEXED (JStr pid) (JStr synced) (get_or d "revision" (JInt 1))) d);
            updated <-- now_fn;
            let d := obj_set d "updated_at" (JStr updated) in
            persist_retrieval_state d;;;
            ret (mkSync (JBool true) JNull d)
        end
    end.

(** ** The write log *)

Definition log_fields (status : string) (memory_id memory_class : json) (reason : text) (checks : obj)
    (indexed error normalized : json) : obj :=
  [("status", s_ status); ("memory_id", memory_id); ("memory_class", memory_class); ("reason", JStr reason);
   ("policy_checks", JObj checks); ("qdrant_indexed", indexed); ("qdrant_error", error);
   ("normalized_candidate", normalized)].

Definition log_outcome (request_context : obj) (snapshot normalized : json) (status : string)
    (memory_id memory_class : json) (reason : text) (checks : obj) (indexed error : json) : meff unit :=
  let request_id := get request_context "request_id" in
  let fields := log_fields status memory_id memory_class reason checks indexed error normalized in
  existing <-- (if jtrue request_id
                then p <-- scoped [("request_id", request_id)]; find_one CLog p
                else ret None);
  match existing with
  | Some ((_ :: _) as row) =>
      row_id <-- lift (item row "id");
      p <-- scoped [("id", row_id)];
      update_one CLog p (fun x => mongo_set x fields)
  | _ =>
      log_id <-- interact new_uuid4;
      created <-- now_fn;
      i <-- current_identity;
      let doc :=
        obj_update ([("id", JStr log_id); ("trace_id", get request_context "trace_id");
           ("correlation_id", get request_context "correlation_id");
           ("owner_id", get request_context "owner_id"); ("owner_type", get request_context "owner_type");
           ("candidate_snapshot", snapshot)] ++ fields ++ [("created_at", JStr created)])
          (ownership_fields i) in
      insert_one CLog (if jtrue request_id then obj_set doc "request_id" request_id else doc)
  end.

(** [embedding_status in RECONCILIATION_STATUSES]. *)
Definition reconciliation_required (status : json) : outcome py_exn bool := in_strings status RECONCILIATION_STATUSES.

Definition result_from_log (row : obj) : meff obj :=
  let memory_id := get row "memory_id" in
  status <-- (if jtrue memory_id then
                found <-- find_memory_document (py_str memory_id) false;
                match found with
                | Some (_, d) => retrieval <-- lift (as_dict (get_or d "retrieval" (JObj [])));
                                 ret (get retrieval "embedding_status")
                | None => ret JNull
                end
              else ret JNull);
  required <-- lift (reconciliation_required status);
  ret [("status", get row "status"); ("memory_id", memory_id); ("memory_class", get row "memory_class");
       ("reason", get row "reason"); ("qdrant_indexed", get row "qdrant_indexed");
       ("embedding_status", status); ("reconciliation_required", JBool required)].

(** ** Merging *)

(** [max(a, b)]. *)
Definition py_max (a b : json) : outcome py_exn json :=
  match as_num a, as_num b with
  | Some x, Some y => Ok (if x <?q y then b else a)
  | _, _ => TypeError
  end.

Definition py_len (v : json) : outcome py_exn Z :=
  match v with JStr s => Ok (zlen s) | JArr l => Ok (zlen l) | JObj o => Ok (zlen o) | _ => TypeError end.

(** [a + b] on lists. *)
Definition list_concat (a b : json) : outcome py_exn (list json) :=
  match a, b with JArr l, JArr r => Ok (l ++ r) | _, _ => TypeError end.

Definition hashable (v : json) : bool := match v with JArr _ | JObj _ => false | _ => true end.
Definition dedup_values (l : list json) : outcome py_exn (list json) :=
  if forallb hashable l
  then Ok (foldl (fun acc x => if existsb (py_eqb x) acc then acc else acc ++ [x]) [] l)
  else TypeError.

Definition merge_entry (merged : obj) (kv : string * json) : outcome py_exn obj :=
  let '(k, v) := kv in
  if bool_decide (k = "message_ids") then
    let* all := list_concat (get merged k ||| JArr [])%rf (match v with JArr _ => v | _ => JArr [v] end) in
    let* distinct := dedup_values all in
    Ok (obj_set merged k (JArr distinct))
  else
    let current := get merged k in
    if negb (has_key merged k) || is_none current || py_eqb current (JStr []) || py_eqb current (JArr [])
    then Ok (obj_set merged k v)
    else if bool_decide (k ∈ ["explicit_user_signal"; "raw_transcript"; "raw_retrieval_dump"; "hidden_reasoning"])
    then Ok (obj_set merged k (JBool (jtrue (current ||| v)%rf)))
    else Ok merged.

Fixpoint foldO {A B} (f : A -> B -> outcome py_exn A) (a : A) (l : list B) : outcome py_exn A :=
  match l with [] => Ok a | x :: l' => let* a' := f a x in foldO f a' l' end.

Definition merge_provenance (left right : json) : outcome py_exn obj :=
  let merged := match left with JObj o => o | _ => [] end in
  match right with JObj o => foldO merge_entry merged o | _ => Ok merged end.

Definition merged_retrieval_state (existing normalized : obj) : outcome py_exn obj :=
  let* r := as_dict (get_or existing "retrieval" (JObj []) ||| JObj [])%rf in
  let* keywords := list_concat (get_or r "keywords" (JArr [])) (field2 normalized "retrieval" "keywords") in
  Ok ([("keywords", strings_of (as_string_list (JArr keywords)));
       ("embedding_status", JStr (if qdrant_on cfg then EMB_PENDING else EMB_DISABLED))]
      ++ map (fun k => (k, get r k))
           ["qdrant_point_id"; "embedding_model"; "embedding_dimensions"; "vector_collection";
            "vector_synced_at"; "indexed_revision"]).

(** [merged["content_hash"] = self._content_hash(...)] from the merged fields. *)
Definition rehash (d : obj) : outcome py_exn obj :=
  let* owner_id := as_str (get d "owner_id") in
  let* owner_type := as_str (get d "owner_type") in
  let* memory_class := as_str (get d "memory_class") in
  let* t := as_str (field2 d "content" "text") in
  let* hash := content_hash owner_id owner_type memory_class t in
  Ok (obj_set d "content_hash" (JStr hash)).

Definition merged_content (existing normalized : obj) : outcome py_exn json :=
  let* content := as_dict (get_or existing "content" (JObj [])) in
  let incoming_text := field2 normalized "content" "text" in
  let incoming_summary := field2 normalized "content" "summary" in
  let current_text := get_or content "text" (JStr []) in
  let* il := py_len incoming_text in
  let* cl := py_len current_text in
  let* isl := py_len incoming_summary in
  let* csl := py_len (get_or content "summary" (JStr [])) in
  Ok (JObj [("text", if cl <? il then incoming_text else current_text);
            ("summary", if csl <=? isl then incoming_summary else get_or content "summary" incoming_summary)]).

Definition reinforced (existing normalized : obj) (now : text) : outcome py_exn obj :=
  let* content := merged_content existing normalized in
  let* confidence := py_max (get_or existing "confidence" (JFloat 0)) (get normalized "confidence") in
  let* importance := py_max (get_or existing "importance" (JFloat 0)) (get normalized "importance") in
  let merged := obj_update existing [("content", content); ("confidence", confidence); ("importance", importance)] in
  let* merged :=
    if py_eqb (get existing "memory_class") (JStr EPISODIC) then
      let* stability := py_max (get_or existing "stability" (JFloat 0)) (get_or normalized "stability" (JFloat 0)) in
      Ok (obj_update merged
            [("stability", stability); ("event_at", (get normalized "event_at" ||| get existing "event_at")%rf);
             ("expires_at", (get normalized "expires_at" ||| get existing "expires_at")%rf)])
    else Ok merged in
  let* tags := list_concat (get_or existing "tags" (JArr [])) (get normalized "tags") in
  let* provenance := merge_provenance (get existing "provenance") (get normalized "provenance") in
  let* retrieval := merged_retrieval_state existing normalized in
  rehash (obj_update merged
    [("tags", strings_of (as_string_list (JArr tags)));
     ("source", (get normalized "source" ||| get existing "source")%rf);
     ("updated_at", JStr now); ("provenance", JObj provenance); ("retrieval", JObj retrieval);
     ("status", JStr STATUS_ACTIVE); ("revision", JInt (coerce_int (get existing "revision") 1 + 1));
     ("fact_key", (get existing "fact_key" ||| get normalized "fact_key")%rf)]).

Definition reinforce_existing_memory (existing normalized : obj) : meff obj :=
  now <-- now_fn;
  merged <-- lift (reinforced existing normalized now);
  persist_memory (collection_for (as_text (get existing "memory_class"))) merged true;;;
  ret merged.

Definition merged_preference (existing normalized : obj) (now : text) : outcome py_exn obj :=
  let explicit_signal := jtrue (field2 normalized "provenance" "explicit_user_signal") in
  let* content :=
    if explicit_signal then Ok (get normalized "content")
    else
      let* old := as_dict (get_or existing "content" (JObj [])) in
      Ok (JObj [("text", (field2 normalized "content" "text" ||| get_or old "text" (JStr []))%rf);
                ("summary", (field2 normalized "content" "summary" ||| get_or old "summary" (JStr []))%rf)]) in
  let* strength := py_max (get_or existing "strength" (JFloat 0)) (get normalized "strength") in
  let* confidence := py_max (get_or existing "confidence" (JFloat 0)) (get normalized "confidence") in
  let* importance := py_max (get_or existing "importance" (JFloat 0)) (get normalized "importance") in
  let* e1 := py_max (JInt 1) (get_or existing "evidence_count" (JInt 0)) in
  let* e2 := py_max (JInt 1) (get_or normalized "evidence_count" (JInt 1)) in
  let* tags := list_concat (get_or existing "tags" (JArr [])) (get normalized "tags") in
  let* provenance := merge_provenance (get existing "provenance") (get normalized "provenance") in
  let* retrieval := merged_retrieval_state existing normalized in
  rehash (obj_update existing
    [("value", get normalized "value"); ("value_type", get normalized "value_type"); ("content", content);
     ("strength", JFloat (let s := (as_q strength + (5 # 100))%Q in if s <?q 1%Q then s else 1%Q));
     ("confidence", confidence); ("importance", importance);
     ("evidence_count", match e1, e2 with JInt a, JInt b => JInt (a + b) | _, _ => JFloat (as_q e1 + as_q e2) end);
     ("tags", strings_of (as_string_list (JArr tags))); ("updated_at", JStr now);
     ("source", (get normalized "source" ||| get existing "source")%rf);
     ("provenance", JObj provenance); ("retrieval", JObj retrieval); ("status", JStr STATUS_ACTIVE);
     ("revision", JInt (coerce_int (get existing "revision") 1 + 1))]).

(** What was stored: the document, the status and the reason, and whether the document is
    the candidate itself. *)
Record stored := mkStored { sd_doc : obj; sd_status : string; sd_reason : text; sd_is_candidate : bool }.

Definition upsert_semantic_preference (normalized : obj) : meff stored :=
  p <-- scoped [("owner_id", get normalized "owner_id"); ("owner_type", get normalized "owner_type");
                ("preference_key", get normalized "preference_key"); ("archived_at", JNull)];
  existing <-- find_one CSemantic p;
  match existing with
  | Some ((_ :: _) as row) =>
      now <-- now_fn;
      merged <-- lift (merged_preference row normalized now);
      persist_memory CSemantic merged true;;;
      ret (mkStored merged "merged" (lit "upserted semantic preference") false)
  | _ =>
      persist_memory CSemantic normalized false;;;
      ret (mkStored normalized "accepted" (lit "stored semantic preference") true)
  end.

Definition decision_target (comparable : list (obj * Q)) (d : ConsolidationDecision) : option obj :=
  fst <$> List.find (fun p => bool_decide (Some (doc_id p.1) = cd_target_id d)) comparable.

Definition create_memory_row (normalized : obj) (reason : text) : meff stored :=
  persist_memory CEpisodic normalized false;;;
  ret (mkStored normalized "accepted" reason true).

Definition apply_decision (normalized : obj) (comparable : list (obj * Q)) (d : ConsolidationDecision) : meff stored :=
  if bool_decide (as_text (get normalized "memory_class") = SEMANTIC_PREFERENCE)
  then upsert_semantic_preference normalized
  else match cd_outcome d, decision_target comparable d with
  | OUTCOME_DUPLICATE_SEMANTIC, Some existing =>
      merged <-- reinforce_existing_memory existing normalized;
      ret (mkStored merged "merged" (lit "reinforced an existing near-duplicate memory") false)
  | OUTCOME_NEEDS_REVIEW, _ =>
      detected <-- now_fn;
      create_memory_row
        (obj_set normalized "conflict"
           (JObj [("status", JStr (outcome_label OUTCOME_NEEDS_REVIEW)); ("related_id", opt_str (cd_target_id d));
                  ("similarity", match cd_similarity d with Some s => JFloat (round6 s) | None => JNull end);
                  ("detected_at", JStr detected)]))
        (cd_reason d)
  | _, _ => create_memory_row normalized (cd_reason d)
  end.

Definition apply_supersession (normalized : obj) (superseded_id : text) : meff (option text) :=
  let superseded_id := normalize_text (JStr superseded_id) in
  if bool_decide (superseded_id = []) then ret None
  else
    found <-- find_memory_document superseded_id false;
    match found with
    | None => ret None
    | Some (c, _) =>
        p <-- scoped [("id", JStr superseded_id)];
        valid_to <-- (if jtrue (get normalized "valid_from") then ret (get normalized "valid_from")
                      else t <-- now_fn; ret (JStr t));
        updated <-- now_fn;
        update_one c p (fun x => mongo_set x
          [("status", JStr STATUS_SUPERSEDED); ("superseded_by", get normalized "id");
           ("valid_to", valid_to); ("updated_at", JStr updated)]);;;
        (if qdrant_on cfg then
           deleted <-- try_class is_index_error (index_delete_memory cfg auth_required context superseded_id);
           match deleted with
           | inl _ => ret tt
           | inr _ => p <-- scoped [("id", JStr superseded_id)];
                      update_one c p (set_retrieval "embedding_status" (JStr EMB_DELETE_PENDING))
           end
         else ret tt);;;
        ret (Some superseded_id)
    end.

(** ** [write_memory] *)

Definition rejected (memory_class : json) (reason : text) : obj :=
  [("status", s_ "rejected"); ("memory_id", JNull); ("memory_class", memory_class); ("reason", JStr reason);
   ("qdrant_indexed", JNull); ("embedding_status", JNull); ("reconciliation_required", JBool false)].

Definition suppressed (memory_class : json) (reason rule : text) : obj :=
  [("status", s_ "rejected"); ("outcome", s_ "resurrection_suppressed"); ("memory_id", JNull);
   ("memory_class", memory_class); ("reason", JStr reason); ("tombstone_match", JStr rule);
   ("qdrant_indexed", JNull); ("embedding_status", JNull); ("reconciliation_required", JBool false);
   ("restore_allowed", JBool false)].

Definition store_candidate (request_context : obj) (snapshot : json) (normalized : obj) (checks : obj) : meff obj :=
  c <-- comparable_memories normalized;
  let comparable := cmp_scored c in
  let decision := decide_candidate (consolidation_policy cfg) normalized comparable (cmp_mode c) in
  let memory_class := get normalized "memory_class" in
  if bool_decide (cd_outcome decision = OUTCOME_DUPLICATE_EXACT) then
    log_outcome request_context snapshot (JObj normalized) "duplicate" (opt_str (cd_target_id decision))
      memory_class (cd_reason decision) checks JNull JNull;;;
    retrieval <-- lift (as_dict (get_or (default [] (decision_target comparable decision)) "retrieval" (JObj [])));
    ret [("status", s_ "duplicate"); ("memory_id", opt_str (cd_target_id decision));
         ("memory_class", memory_class); ("reason", JStr (cd_reason decision)); ("qdrant_indexed", JNull);
         ("embedding_status", get retrieval "embedding_status"); ("reconciliation_required", JBool false);
         ("consolidation", as_provenance decision); ("superseded_memory_id", JNull)]
  else
    let normalized := obj_set normalized "consolidation" (as_provenance decision) in
    st <-- apply_decision normalized comparable decision;
    stored_id <-- lift (item (sd_doc st) "id");
    let same_id := py_eqb stored_id (get normalized "id") in
    superseded_id <-- (if bool_decide (cd_outcome decision = OUTCOME_SUPERSEDE) && same_id
                       then apply_supersession normalized (default [] (cd_target_id decision))
                       else ret None);
    sync <-- sync_vector_index (sd_doc st) (if same_id then cmp_vector c else None);
    let stored_doc := sr_doc sync in
    let embedding_status := field2 stored_doc "retrieval" "embedding_status" in
    let stored_class := get stored_doc "memory_class" in
    log_outcome request_context snapshot
      (JObj (if sd_is_candidate st then stored_doc else normalized))
      (sd_status st) stored_id stored_class (sd_reason st) checks (sr_indexed sync) (sr_error sync);;;
    required <-- lift (reconciliation_required embedding_status);
    ret [("status", s_ (sd_status st)); ("memory_id", stored_id); ("memory_class", stored_class);
         ("reason", JStr (sd_reason st)); ("qdrant_indexed", sr_indexed sync);
         ("embedding_status", embedding_status); ("reconciliation_required", JBool required);
         ("superseded_memory_id", opt_str superseded_id); ("consolidation", as_provenance decision);
         ("is_current", JBool (is_none (get stored_doc "valid_to")))].

Definition normalized_for (candidate request_context : obj) : meff obj :=
  i <-- current_identity;
  now <-- now_fn;
  fresh <-- (if bool_decide (normalize_text (get candidate "id") = []) then interact new_uuid4 else ret []);
  lift (normalize_candidate i (qdrant_on cfg) now fresh candidate request_context).

(** The context after [setdefault] of the owner. *)
Definition with_owner (request_context normalized : obj) : obj :=
  obj_setdefault (obj_setdefault request_context "owner_id" (get normalized "owner_id"))
    "owner_type" (get normalized "owner_type").

Definition write_normalized (candidate request_context : obj) (normalized : obj) : meff obj :=
  let snapshot := JObj candidate in
  let request_context := with_owner request_context normalized in
  let '(accepted, checks, reason) := evaluate_write_policy normalized in
  let memory_class := get normalized "memory_class" in
  if negb accepted then
    log_outcome request_context snapshot (JObj normalized) "rejected" JNull memory_class reason checks JNull JNull;;;
    ret (rejected memory_class reason)
  else
    match_ <-- matching_deletion_tombstone normalized;
    match match_ with
    | Some rule =>
        let reason := lit "resurrection suppressed by deletion tombstone (" ++ rule ++ lit ")" in
        log_outcome request_context snapshot (JObj normalized) "rejected" JNull memory_class reason checks
          JNull JNull;;;
        ret (suppressed memory_class reason rule)
    | None => store_candidate request_context snapshot normalized checks
    end.

(** The context the handler of [write_memory] sees when the body raises: the owner is set
    once the candidate is normalised. *)
Definition write_body (candidate request_context : obj) : meff obj :=
  normalized <-- catch (normalized_for candidate request_context)
    (fun e => if is_exception e then Some (
       log_outcome request_context (JObj candidate) JNull "failed" JNull JNull (exn_text e) [] JNull JNull;;;
       raise (DatabaseError (lit "Failed to write memory: " ++ exn_text e))) else None);
  catch (write_normalized candidate request_context normalized)
    (fun e => if is_exception e then Some (
       log_outcome (with_owner request_context normalized) (JObj candidate) JNull "failed" JNull JNull
         (exn_text e) [] JNull JNull;;;
       raise (DatabaseError (lit "Failed to write memory: " ++ exn_text e))) else None).

Definition write_memory (candidate request_context : obj) : meff obj :=
  ensure_indexes;;;
  let request_id := get request_context "request_id" in
  existing <-- (if jtrue request_id
                then p <-- scoped [("request_id", request_id)]; find_one CLog p
                else ret None);
  match existing with
  | Some ((_ :: _) as row) => result_from_log row
  | _ => write_body candidate request_context
  end.
End Write.
