(* ===== verification/MemoryRetrieve.v ===== *)
(** * Retrieving and administering memories

    The read side of [LongTermMemoryService]
    ([src/backend/memory/app/services/memory_service.py]): ranking, class balance and the
    answer of [get_relevant_memories], the listings, and the create, update and delete
    operations that work on one memory. *)

From Stdlib Require Import QArith.
From stdpp Require Import base strings sets list.
From S2P Require Import Prelude PyValue Base64 Auth MemoryConsolidation MemoryNormalize MemoryClients MemoryWrite.

Local Open Scope string_scope.
Local Open Scope list_scope.
Local Open Scope Z_scope.

Definition MICROS_PER_DAY : Z := 86400000000.

Record ranking := mkRanking {
  rk_score : Q; rk_semantic_relevance : Q; rk_keyword_overlap : Q; rk_importance : Q; rk_class_signal : Q
}.

(** ** Class balance *)

Definition nonempty {A} (l : list A) : bool := match l with [] => false | _ => true end.

Section Diversify.
Context {A : Type} (is_episodic is_semantic : A -> bool).

(** [max(1, math.ceil(limit / 2))]. *)
Definition max_semantic (limit : Z) : Z := Z.max 1 (- ((- limit) / 2)).

(** The loop of [_diversify_ranked_documents]: what is left of either class, and the
    results. *)
Fixpoint balance (fuel : nat) (limit : Z) (had_episodic : bool) (episodic semantic results : list A)
    (semantic_count : Z) : list A * list A * list A :=
  match fuel with
  | O => (episodic, semantic, results)
  | S fuel =>
      if (zlen results <? limit) && (nonempty episodic || nonempty semantic) then
        let '(episodic, results, appended) :=
          match episodic with
          | e :: rest => (rest, results ++ [e], true)
          | [] => ([], results, false)
          end in
        if (appended : bool) && (limit <=? zlen results) then (episodic, semantic, results)
        else
          match semantic with
          | s :: rest =>
              if (semantic_count <? max_semantic limit) || negb had_episodic
              then balance fuel limit had_episodic episodic rest (results ++ [s]) (semantic_count + 1)
              else if appended then balance fuel limit had_episodic episodic semantic results semantic_count
              else (episodic, semantic, results)
          | [] =>
              if appended then balance fuel limit had_episodic episodic [] results semantic_count
              else (episodic, [], results)
          end
      else (episodic, semantic, results)
  end.

Definition diversify (ranked : list A) (limit : Z) : list A :=
  let episodic := List.filter is_episodic ranked in
  let semantic := List.filter is_semantic ranked in
  let had_episodic := nonempty episodic in
  let '(episodic, semantic, results) :=
    balance (S (length ranked)) limit had_episodic episodic semantic [] 0 in
  let results :=
    if zlen results <? limit
    then results ++ py_prefix (if had_episodic then episodic else semantic) (Z.max 0 (limit - zlen results))
    else results in
  py_prefix results limit.
End Diversify.

Section Ranking.
Context `{PyText} `{WordChars} `{PyDates}.

Definition keyword_overlap (query_tokens memory_tokens : list text) : Q :=
  if bool_decide (query_tokens = []) || bool_decide (memory_tokens = []) then 0%Q
  else
    let q := fromkeys query_tokens in
    (inject_Z (zlen (List.filter (fun x => bool_decide (x ∈ memory_tokens)) q)) / inject_Z (Z.max (zlen q) 1))%Q.

(** [_episodic_recency_score] at the moment [now]: the difference with a naive date raises. *)
Definition episodic_recency_score (now : Z) (event_at : json) : outcome py_exn Q :=
  match parse_datetime event_at with
  | None => Ok (1 # 2)%Q
  | Some t =>
      if dt_aware t
      then let days_old := Z.max ((now - dt_micros t) / MICROS_PER_DAY) 0 in
           Ok (1 / (1 + inject_Z days_old / 30))%Q
      else TypeError
  end.

Fixpoint score_of (scores : list (json * Q)) (memory_id : json) : option Q :=
  match scores with
  | [] => None
  | (k, s) :: rest => match score_of rest memory_id with
                      | Some s' => Some s'
                      | None => if py_eqb k memory_id then Some s else None
                      end
  end.

Definition score_document (now : Z) (d : obj) (query_tokens : list text) (qdrant_scores : list (json * Q))
    : outcome py_exn ranking :=
  let* memory_tokens := document_tokens d in
  let overlap := keyword_overlap query_tokens memory_tokens in
  let lexical_similarity := text_similarity query_tokens memory_tokens in
  let* memory_id := item d "id" in
  let semantic_relevance := default lexical_similarity (score_of qdrant_scores memory_id) in
  let importance := coerce_float (get d "importance") 0 in
  let* memory_class := item d "memory_class" in
  let* class_signal :=
    if py_eqb memory_class (JStr EPISODIC) then episodic_recency_score now (get d "event_at")
    else Ok (coerce_float (get d "strength") (coerce_float (get d "confidence") (1 # 2))) in
  let score := ((40 # 100) * semantic_relevance + (25 # 100) * overlap + (15 # 100) * importance
                + (20 # 100) * class_signal)%Q in
  let* explicit :=
    if py_eqb memory_class (JStr SEMANTIC_PREFERENCE)
    then let* provenance := as_dict (get_or d "provenance" (JObj [])) in
         Ok (jtrue (get provenance "explicit_user_signal"))
    else Ok false in
  let score := if explicit : bool then (score + (5 # 100))%Q else score in
  Ok (mkRanking (round6 score) (round6 semantic_relevance) (round6 overlap) (round6 importance)
        (round6 class_signal)).

(** ** Order *)

Record ranked_doc := mkRanked {
  rd_doc : obj; rd_ranking : ranking; rd_valid : bool; rd_updated : json
}.

(** [a >= b] on the keys [(score, updated_at or "", id)] and [(valid, score, updated_at or "", id)]. *)
Definition score_leb (a b : ranked_doc) : bool :=
  (rk_score (rd_ranking b) <?q rk_score (rd_ranking a)) ||
  (Qeq_bool (rk_score (rd_ranking a)) (rk_score (rd_ranking b)) &&
   (negb (text_leb (as_text (rd_updated a)) (as_text (rd_updated b))) ||
    (bool_decide (as_text (rd_updated a) = as_text (rd_updated b)) &&
     text_leb (doc_id (rd_doc b)) (doc_id (rd_doc a))))).
Definition ranked_leb (a b : ranked_doc) : bool :=
  if Bool.eqb (rd_valid a) (rd_valid b) then score_leb a b else rd_valid a.

(** Two entries whose first keys are equal and whose times or identities Python cannot
    order. *)
Definition is_string (v : json) : bool := match v with JStr _ => true | _ => false end.
Definition rank_clash (a b : ranked_doc) : bool :=
  Bool.eqb (rd_valid a) (rd_valid b) && Qeq_bool (rk_score (rd_ranking a)) (rk_score (rd_ranking b)) &&
  ((negb (is_string (rd_updated a) && is_string (rd_updated b)) && negb (py_eqb (rd_updated a) (rd_updated b))) ||
   (py_eqb (rd_updated a) (rd_updated b) && negb (py_eqb (get (rd_doc a) "id") (get (rd_doc b) "id")) &&
    negb (is_string (get (rd_doc a) "id") && is_string (get (rd_doc b) "id")))).

Definition sort_ranked (l : list ranked_doc) : outcome py_exn (list ranked_doc) :=
  if existsb (fun a => existsb (rank_clash a) l) l then TypeError else Ok (py_sorted ranked_leb l).

(** ** Output *)

Definition SAFE_PROVENANCE : list string :=
  ["chat_id"; "conversation_id"; "message_id"; "message_ids"; "source_type"; "explicit_user_signal"].

Definition safe_provenance (provenance : json) : json :=
  match provenance with
  | JObj o => JObj (List.filter (fun kv => bool_decide (kv.1 ∈ SAFE_PROVENANCE)) o)
  | _ => JObj []
  end.

Definition normalize_output_memory (d : obj) (rank : option obj) : outcome py_exn obj :=
  let* memory_id := item d "id" in
  let* owner_id := item d "owner_id" in
  let* owner_type := item d "owner_type" in
  let* memory_class := item d "memory_class" in
  let* retrieval := as_dict (get_or d "retrieval" (JObj [])) in
  let copied ks := map (fun k => (k, get d k)) ks in
  let result :=
    [("id", memory_id); ("owner_id", owner_id); ("owner_type", owner_type); ("memory_class", memory_class);
     ("content", get_or d "content" (JObj []))]
    ++ copied ["source"; "confidence"; "importance"]
    ++ [("tags", get_or d "tags" (JArr []))]
    ++ copied ["created_at"; "updated_at"; "last_accessed_at"; "archived_at"]
    ++ [("status", get_or d "status" (JStr STATUS_ACTIVE)); ("revision", get_or d "revision" (JInt 1))]
    ++ copied ["supersedes"; "superseded_by"; "valid_from"; "valid_to"]
    ++ [("is_current", JBool (is_none (get d "valid_to"))); ("scope", (get d "scope" ||| JObj [])%rf)]
    ++ copied ["fact_key"; "consolidation"; "conflict"]
    ++ [("provenance", safe_provenance (get d "provenance"));
        ("retrieval",
         JObj (("keywords", get_or retrieval "keywords" (JArr []))
               :: map (fun k => (k, get retrieval k))
                    ["embedding_status"; "qdrant_point_id"; "embedding_model"; "embedding_dimensions";
                     "vector_collection"; "vector_synced_at"; "indexed_revision"]))]
    ++ (if py_eqb memory_class (JStr EPISODIC) then copied ["event_at"; "expires_at"; "stability"]
        else copied ["preference_key"; "value"; "value_type"; "strength"; "evidence_count"]) in
  Ok (match rank with Some r => obj_set result "ranking" (JObj r) | None => result end).

Definition to_legacy_memory (d : obj) : outcome py_exn obj :=
  let* memory_id := item d "id" in
  let* content := as_dict (get_or d "content" (JObj [])) in
  let* memory_class := item d "memory_class" in
  let metadata :=
    [("owner_id", get d "owner_id"); ("owner_type", get d "owner_type"); ("source", get d "source");
     ("tags", get_or d "tags" (JArr [])); ("provenance", safe_provenance (get d "provenance"))]
    ++ (if py_eqb memory_class (JStr SEMANTIC_PREFERENCE)
        then [("preference_key", get d "preference_key"); ("value", get d "value")] else []) in
  Ok [("id", memory_id); ("content", get_or content "text" (JStr [])); ("category", memory_class);
      ("metadata", JObj metadata); ("created_at", get d "created_at"); ("updated_at", get d "updated_at")].

Definition ranking_payload (r : ranking) (rank : Z) : obj :=
  [("score", JFloat (rk_score r)); ("semantic_relevance", JFloat (rk_semantic_relevance r));
   ("keyword_overlap", JFloat (rk_keyword_overlap r)); ("importance", JFloat (rk_importance r));
   ("class_signal", JFloat (rk_class_signal r)); ("rank", JInt rank)].

Fixpoint output_memories (rank : Z) (l : list ranked_doc) : outcome py_exn (list obj) :=
  match l with
  | [] => Ok []
  | r :: rest =>
      let* o := normalize_output_memory (rd_doc r) (Some (ranking_payload (rd_ranking r) rank)) in
      let* os := output_memories (rank + 1) rest in
      Ok (o :: os)
  end.
End Ranking.

Section Retrieve.
Context {St : Type} `{PyText} `{Crypto} `{WordChars} `{MemEnv} `{QdrantHttp St} `{NameUuid} `{PyDates}.
Context (cfg : mem_config) (auth_required : bool) (context : obj).

Abbreviation meff := (eff (mworld St)).
Abbreviation scoped := (scoped auth_required context).
Abbreviation current_identity := (current_identity auth_required context).

Definition of_class (c : text) (r : ranked_doc) : bool := py_eqb (get (rd_doc r) "memory_class") (JStr c).

Definition touch (timestamp : text) (memory_id : text) : meff unit :=
  found <-- find_memory_document auth_required context memory_id false;
  match found with
  | None => ret tt
  | Some (c, _) =>
      p <-- scoped [("id", JStr memory_id)];
      update_one c p (fun x => obj_set x "last_accessed_at" (JStr timestamp))
  end.

Definition update_last_accessed (memory_ids : list text) : meff unit :=
  timestamp <-- now_fn;
  iterM (touch timestamp) memory_ids.

(** The hits, their scores, the mode, and why it is not the semantic one. *)
Record semantic_leg := mkLeg {
  leg_hits : list (json * json); leg_scores : list (json * Q); leg_mode : string; leg_reason : json
}.

Definition lexical_leg (reason : text) : semantic_leg := mkLeg [] [] "lexical" (JStr reason).

Fixpoint hit_scores (hits : list (json * json)) : outcome py_exn (list (json * Q)) :=
  match hits with
  | [] => Ok []
  | (memory_id, score) :: rest =>
      if jtrue memory_id then
        match py_float score with
        | Some s => if hashable memory_id then let* r := hit_scores rest in Ok ((memory_id, s) :: r) else TypeError
        | None => TypeError
        end
      else hit_scores rest
  end.

Definition semantic_candidates (query_text owner_id owner_type : text) (limit : Z) : meff semantic_leg :=
  if bool_decide (query_text = []) then ret (lexical_leg (lit "no query text supplied"))
  else if negb (qdrant_on cfg) then ret (lexical_leg (lit "vector index disabled"))
  else
    embedded <-- try_class is_embedding_error (embed_query cfg query_text);
    match embedded with
    | inr e => ret (lexical_leg (lit "embedding unavailable: " ++ e))
    | inl vector =>
        found <-- try_class is_index_error
          (search cfg auth_required context vector owner_id owner_type (Z.max (limit * 2) limit) [STATUS_ACTIVE]);
        match found with
        | inr e => ret (lexical_leg (lit "vector search unavailable: " ++ e))
        | inl hits =>
            scores <-- lift (hit_scores hits);
            ret (mkLeg hits scores "semantic" JNull)
        end
    end.

(** [for c in v if c in ALLOWED_MEMORY_CLASSES]. *)
Definition requested_classes (v : json) : outcome py_exn (list text) :=
  let* classes :=
    match v with
    | JArr l => filterM (fun c => in_strings c ALLOWED_MEMORY_CLASSES) l
    | JObj o => Ok (List.filter (fun c => bool_decide (as_text c ∈ ALLOWED_MEMORY_CLASSES)) (map (fun kv => s_ kv.1) o))
    | JStr _ => Ok []
    | _ => if jtrue v then TypeError else Ok []
    end in
  Ok (match classes with [] => ALLOWED_MEMORY_CLASSES | _ => map as_text classes end).

(** The scores of the candidates; those without any are dropped when there are tokens. *)
Fixpoint rank_all (keep_all : bool) (as_of : option datetime) (query_tokens : list text)
    (scores : list (json * Q)) (docs : list obj) : meff (list ranked_doc) :=
  match docs with
  | [] => ret []
  | d :: rest =>
      now <-- interact utc_micros;
      r <-- lift (score_document now d query_tokens scores);
      ranked <-- rank_all keep_all as_of query_tokens scores rest;
      ret (if negb keep_all && (rk_score r <=?q 0) then ranked
           else mkRanked d r true (get d "updated_at" ||| JStr [])%rf :: ranked)
  end.

Fixpoint mark_valid (as_of : option datetime) (l : list ranked_doc) : outcome py_exn (list ranked_doc) :=
  match l with
  | [] => Ok []
  | r :: rest =>
      let* v := is_valid_at (rd_doc r) as_of in
      let* rest := mark_valid as_of rest in
      Ok (mkRanked (rd_doc r) (rd_ranking r) v (rd_updated r) :: rest)
  end.

Definition owner_for_query (identity : option auth_identity) (query_context : obj) : text * text :=
  match identity with
  | Some i => (normalize_text (JStr (ai_user_id i)), normalize_lower (JStr (lit "user")))
  | None => (normalize_text (get query_context "owner_id"),
             normalize_lower (get query_context "owner_type" ||| JStr (lit "user"))%rf)
  end.

Definition index_provenance : obj :=
  [("implementation", s_ "app.services.memory_service.LongTermMemoryService"); ("persistence", s_ "mongodb");
   ("vector_index", JObj [("enabled", JBool (qdrant_on cfg)); ("collection", JStr (qdrant_collection_name cfg))]);
   ("embedding",
    JObj [("model", JStr (memory_embedding_model cfg)); ("dimensions", JInt (memory_embedding_dimensions cfg));
          ("service", JStr (embedding_queue cfg)); ("query_prefix", JStr (query_prefix cfg));
          ("passage_prefix", JStr (passage_prefix cfg))])].

(** A query as the service reads it. *)
Definition query_classes (query_context : obj) : outcome py_exn (list text) :=
  requested_classes (get query_context "memory_classes").
Definition query_as_of (query_context : obj) : option datetime := parse_datetime (get query_context "as_of").
Definition query_scope (query_context : obj) : option text :=
  match get query_context "scope" with JObj o => Some (scope_key (JObj o)) | _ => None end.

Definition answer_provenance (identity : option auth_identity) (query_context : obj) (owner_id owner_type : text)
    (classes : list text) : obj :=
  index_provenance ++
  [("scope",
    JObj [("tenant_scoped", JBool (match identity with Some _ => true | None => false end));
          ("user_scoped", JBool (match identity with Some _ => true | None => false end));
          ("owner_id", JStr owner_id); ("owner_type", JStr owner_type);
          ("memory_classes", strings_of (py_sorted text_leb classes));
          ("statuses", strings_of [STATUS_ACTIVE]); ("scope", opt_str (query_scope query_context))]);
   ("temporal",
    JObj [("include_history", JBool (jtrue (get query_context "include_history")));
          ("as_of", opt_str (isoformat <$> query_as_of query_context))])].

(** The memories of an answer, best first, and the semantic leg behind it. *)
Definition relevant (query_context : obj) (owner_id owner_type : text) : meff (list ranked_doc * semantic_leg * Z) :=
  classes <-- lift (query_classes query_context);
  let query_text :=
    normalize_text (get query_context "text" ||| get query_context "query" ||| get query_context "query_text")%rf in
  let query_tokens := match as_string_list (get query_context "keywords") with
                      | [] => tokenize query_text
                      | ks => ks
                      end in
  let limit := Z.max 1 (coerce_int (get query_context "limit") (memory_retrieval_default_limit cfg)) in
  let as_of := query_as_of query_context in
  candidates <-- active_memory_documents auth_required context
    (mkQuery owner_id (Some owner_type) classes false (jtrue (get query_context "include_history")) as_of
       (query_scope query_context));
  leg <-- semantic_candidates query_text owner_id owner_type limit;
  ranked <-- rank_all (bool_decide (query_tokens = [])) as_of query_tokens (leg_scores leg) candidates;
  marked <-- lift (mark_valid as_of ranked);
  sorted <-- lift (sort_ranked marked);
  let diversified := diversify (of_class EPISODIC) (of_class SEMANTIC_PREFERENCE) sorted limit in
  update_last_accessed (map (fun r => py_str (get (rd_doc r) "id")) diversified);;;
  ret (diversified, leg, zlen candidates).

Definition get_relevant_memories (query_context : obj) : meff obj :=
  ensure_indexes;;;
  identity <-- current_identity;
  let '(owner_id, owner_type) := owner_for_query identity query_context in
  if bool_decide (owner_id = []) then raise (DatabaseError (lit "owner_id is required for memory retrieval"))
  else if negb (bool_decide (owner_type ∈ ALLOWED_OWNER_TYPES))
  then raise (DatabaseError (lit "owner_type is invalid for memory retrieval"))
  else
    found <-- relevant query_context owner_id owner_type;
    let '(diversified, leg, candidate_count) := found in
    memories <-- lift (output_memories 1 diversified);
    classes <-- lift (query_classes query_context);
    ret ([("status", s_ "success"); ("memories", JArr (map JObj memories));
          ("retrieval_mode", s_ (leg_mode leg));
          ("degraded", JBool (negb (bool_decide (leg_mode leg = "semantic"))));
          ("degraded_reason", leg_reason leg);
          ("provenance", JObj (answer_provenance identity query_context owner_id owner_type classes))]
         ++ (if jtrue (get query_context "include_debug")
             then [("debug", JObj [("mongo_candidate_count", JInt candidate_count);
                                   ("qdrant_candidate_count", JInt (zlen (leg_hits leg)));
                                   ("qdrant_memory_ids",
                                    JArr (List.filter jtrue (map fst (leg_hits leg))))])]
             else [])).
End Retrieve.
