(* ===== verification/MemoryAdmin.v ===== *)
(** * Listing, creating, updating and deleting memories

    The operations of [LongTermMemoryService]
    ([src/backend/memory/app/services/memory_service.py]) beside the write and the search:
    listings for administrators, the wrappers of the older interface, and deletion at the
    level of documents. *)

From Stdlib Require Import QArith.
From stdpp Require Import base strings sets list.
From S2P Require Import Prelude PyValue Base64 Auth MemoryConsolidation MemoryNormalize MemoryClients MemoryWrite MemoryRetrieve.

Local Open Scope string_scope.
Local Open Scope list_scope.
Local Open Scope Z_scope.

Section Admin.
Context {St : Type} `{PyText} `{Crypto} `{WordChars} `{MemEnv} `{QdrantHttp St} `{NameUuid} `{PyDates}.
Context (cfg : mem_config) (auth_required : bool) (context : obj).

Abbreviation meff := (eff (mworld St)).
Abbreviation scoped := (scoped auth_required context).
Abbreviation current_identity := (current_identity auth_required context).
Abbreviation find_memory_document := (find_memory_document auth_required context).

(** ** Listings *)

(** [l.sort(key=lambda d: d.get(k) or "", reverse=True)] on documents whose key is text. *)
Definition newest_first (k : string) (l : list obj) : outcome py_exn (list obj) :=
  if (1 <? zlen l) && negb (forallb (fun d => is_string (get d k ||| JStr [])%rf) l) then TypeError
  else Ok (py_sorted (fun a b => text_leb (as_text (get b k)) (as_text (get a k))) l).

Definition list_memory_for_debug (filters : obj) : meff obj :=
  ensure_indexes;;;
  identity <-- current_identity;
  let owner_id := match identity with
                  | Some i => normalize_text (JStr (ai_user_id i))
                  | None => normalize_text (get filters "owner_id")
                  end in
  let owner_type := match identity with
                    | Some _ => Some (lit "user")
                    | None => if jtrue (get filters "owner_type")
                              then Some (normalize_lower (get filters "owner_type")) else None
                    end in
  let memory_class := normalize_lower (get filters "memory_class") in
  let tag := normalize_lower (get filters "tag") in
  let preference_key := normalize_lower (get filters "preference_key") in
  let limit := Z.max 1 (coerce_int (get filters "limit") 50) in
  documents <-- active_memory_documents auth_required context
    (mkQuery owner_id owner_type
       (if bool_decide (memory_class = []) then ALLOWED_MEMORY_CLASSES else [memory_class])
       (jtrue (get filters "include_archived")) false None None);
  let filtered := List.filter (fun d =>
    (bool_decide (tag = []) || bool_decide (tag ∈ as_string_list (get_or d "tags" (JArr [])))) &&
    (bool_decide (preference_key = []) || py_eqb (get d "preference_key") (JStr preference_key))) documents in
  sorted <-- lift (newest_first "updated_at" filtered);
  memories <-- lift (mapM_ (fun d => normalize_output_memory d None) (py_prefix sorted limit));
  let response := [("status", s_ "success"); ("memories", JArr (map JObj memories))] in
  if jtrue (get filters "include_write_log") then
    mine <-- scoped [];
    logs <-- find_all CLog mine;
    let logs := List.filter (fun l =>
      (bool_decide (owner_id = []) || py_eqb (get l "owner_id") (JStr owner_id)) &&
      match owner_type with
      | Some t => bool_decide (t = []) || py_eqb (get l "owner_type") (JStr t)
      | None => true
      end) logs in
    sorted_logs <-- lift (newest_first "created_at" logs);
    ret (response ++ [("write_log", JArr (map JObj (py_prefix sorted_logs limit)))])
  else ret response.

Definition get_all_memories : meff (list obj) :=
  ensure_indexes;;;
  documents <-- all_memory_documents auth_required context false;
  sorted <-- lift (newest_first "updated_at" documents);
  lift (mapM_ to_legacy_memory sorted).

Definition get_memory (memory_id : text) : meff obj :=
  ensure_indexes;;;
  found <-- find_memory_document memory_id false;
  match found with
  | Some (_, d) => lift (to_legacy_memory d)
  | None => lift (NotFound (lit "Memory " ++ memory_id ++ lit " not found"))
  end.

(** ** Wrappers of the older interface *)

Definition legacy_candidate (content category : json) (metadata : obj) : obj :=
  let provenance := match get metadata "provenance" with JObj o => o | _ => [] end in
  let provenance := obj_setdefault provenance "chat_id" (get metadata "chat_id") in
  let provenance := obj_setdefault provenance "explicit_user_signal"
                      (get_or metadata "explicit_user_signal" (JBool true)) in
  [("memory_class", if contains (lit "preference") (normalize_lower category)
                    then JStr SEMANTIC_PREFERENCE else JNull);
   ("content", JObj [("text", content); ("summary", get metadata "summary")]);
   ("source", get_or metadata "source" (s_ "legacy_create_memory"));
   ("tags", get_or metadata "tags" (JArr [])); ("provenance", JObj provenance);
   ("event_at", get metadata "event_at"); ("preference_key", get metadata "preference_key");
   ("value", get metadata "value"); ("evidence_count", get metadata "evidence_count")].

Definition legacy_context (metadata request_context : obj) : obj :=
  let owner_id := (get metadata "owner_id" ||| get metadata "chat_id" ||| get metadata "conversation_id"
                     ||| s_ "legacy-owner")%rf in
  let owner_type :=
    (get metadata "owner_type" |||
     s_ (if jtrue (get metadata "chat_id" ||| get metadata "conversation_id")
         then "conversation" else "user"))%rf in
  obj_setdefault (obj_setdefault (obj_setdefault request_context "owner_id" owner_id) "owner_type" owner_type)
    "source" (s_ "legacy_create_memory").

Definition create_memory (content category : json) (metadata request_context : obj) : meff obj :=
  result <-- write_memory cfg auth_required context (legacy_candidate content category metadata)
               (legacy_context metadata request_context);
  stored <-- lift (in_strings (get result "status") [lit "accepted"; lit "merged"; lit "duplicate"]);
  if negb stored || negb (jtrue (get result "memory_id"))
  then raise (DatabaseError (py_str (get result "reason")))
  else get_memory (py_str (get result "memory_id")).

(** The new content of a memory: text, summary, keywords and hash. *)
Definition with_content (content : json) (d : obj) : outcome py_exn obj :=
  let t := normalize_text content in
  let d := obj_set d "content" (JObj [("text", JStr t); ("summary", JStr (build_summary t))]) in
  let* tags := item d "tags" in
  let* keywords := list_concat tags (strings_of (py_prefix (tokenize t) 12)) in
  let* d := update_retrieval [("keywords", strings_of (as_string_list (JArr keywords)))] d in
  rehash d.

Definition set_if (metadata : obj) (k : string) (v : obj -> json) (d : obj) : obj :=
  if has_key metadata k then obj_set d k (v d) else d.

Definition with_metadata (metadata d : obj) : outcome py_exn obj :=
  if negb (jtrue (JObj metadata)) then Ok d
  else
    let d := set_if metadata "tags" (fun _ => strings_of (as_string_list (get metadata "tags"))) d in
    let* d := match obj_get metadata "provenance" with
              | Some (JObj p) => let* merged := merge_provenance (get d "provenance") (JObj p) in
                                 Ok (obj_set d "provenance" (JObj merged))
              | _ => Ok d
              end in
    let* memory_class := item d "memory_class" in
    if py_eqb memory_class (JStr SEMANTIC_PREFERENCE) then
      let d := if has_key metadata "value"
               then obj_update d [("value", get metadata "value");
                                  ("value_type", JStr (infer_value_type (get metadata "value")))]
               else d in
      let d := set_if metadata "strength"
                 (fun d => match py_float (get metadata "strength") with
                           | Some q => JFloat (clamp01 q)
                           | None => get_or d "strength" (JFloat (7 # 10))
                           end) d in
      Ok (set_if metadata "evidence_count"
            (fun d => match py_int (get metadata "evidence_count") with
                      | Some n => JInt (Z.max 0 n)
                      | None => get_or d "evidence_count" (JInt 1)
                      end) d)
    else
      let d := set_if metadata "event_at" (fun _ => get metadata "event_at") d in
      let d := set_if metadata "expires_at" (fun _ => get metadata "expires_at") d in
      Ok (set_if metadata "stability"
            (fun d => match py_float (get metadata "stability") with
                      | Some q => JFloat (clamp01 q)
                      | None => get_or d "stability" (JFloat (6 # 10))
                      end) d).

Definition update_memory (memory_id : text) (content : json) (metadata : obj) : meff obj :=
  found <-- find_memory_document memory_id false;
  match found with
  | None => lift (NotFound (lit "Memory " ++ memory_id ++ lit " not found"))
  | Some (c, d) =>
      updated <-- lift (if is_none content then Ok d else with_content content d);
      updated <-- lift (with_metadata metadata updated);
      now <-- now_fn;
      let updated := obj_update updated
        [("updated_at", JStr now); ("revision", JInt (coerce_int (get updated "revision") 1 + 1));
         ("status", JStr STATUS_ACTIVE)] in
      updated <-- lift (if negb (is_none content) && qdrant_on cfg
                        then update_retrieval [("embedding_status", JStr EMB_PENDING)] updated else Ok updated);
      p <-- scoped [("id", JStr memory_id)];
      update_one c p (fun x => mongo_set x updated);;;
      (if qdrant_on cfg then sync_vector_index cfg auth_required context updated None;;; ret tt else ret tt);;;
      get_memory memory_id
  end.

(** ** Deletion *)

Definition deletion_tombstone_by_memory_id (memory_id : text) : meff (option obj) :=
  if bool_decide (memory_id = []) then ret None
  else tombstone_where auth_required context [("memory_id", JStr memory_id)].

Definition tombstone_of (identity : option auth_identity) (deleted_at memory_id : text) (d : obj) : obj :=
  [("memory_id", JStr memory_id)]
  ++ map (fun k => (k, get d k)) ["owner_id"; "owner_type"; "memory_class"; "content_hash"; "fact_key"; "preference_key"]
  ++ [("scope_key", (get d "scope_key" ||| JStr [])%rf); ("deleted_at", JStr deleted_at);
      ("deletion_provenance", s_ "explicit_delete"); ("revision", get_or d "revision" (JInt 1))]
  ++ ownership_fields identity.

(** [update_one(filter, {"$setOnInsert": row}, upsert=True)]. *)
Definition upsert_tombstone (p : obj -> bool) (row : obj) : meff unit :=
  db (fun w => if existsb p (mw_tombstones w) then (Ok tt, w)
               else if mw_unique w && existsb (same_unique_key CTombstones row) (mw_tombstones w)
               then (Raise DuplicateKey, w)
               else (Ok tt, on_rows CTombstones (.++ [row]) w)).

Definition store_deletion_tombstone (d : obj) : meff unit :=
  memory_id <-- lift (id_of d);
  existing <-- deletion_tombstone_by_memory_id memory_id;
  match existing with
  | Some (_ :: _) => ret tt
  | _ =>
      deleted_at <-- now_fn;
      i <-- current_identity;
      p <-- scoped [("memory_id", JStr memory_id)];
      upsert_tombstone p (tombstone_of i deleted_at memory_id d)
  end.

Definition deletion (status : string) (memory_id : text) (vector_deleted : json) (required : bool) (reason : json) : obj :=
  [("status", s_ status); ("memory_id", JStr memory_id); ("vector_deleted", vector_deleted);
   ("reconciliation_required", JBool required); ("reason", reason)].

Definition remove_row (c : coll) (memory_id : text) : meff obj :=
  p <-- scoped [("id", JStr memory_id)];
  deleted <-- delete_one c p;
  if deleted : bool then ret (deletion "deleted" memory_id (JBool (qdrant_on cfg)) false JNull)
  else lift (NotFound (lit "Memory " ++ memory_id ++ lit " not found")).

Definition delete_memory (memory_id : text) : meff obj :=
  ensure_indexes;;;
  found <-- find_memory_document memory_id true;
  match found with
  | None =>
      t <-- deletion_tombstone_by_memory_id memory_id;
      match t with
      | Some (_ :: _) =>
          ret (obj_set (deletion "deleted" memory_id JNull false JNull) "already_deleted" (JBool true))
      | _ => lift (NotFound (lit "Memory " ++ memory_id ++ lit " not found"))
      end
  | Some (c, d) =>
      if bool_decide (memory_status d = STATUS_DELETED)
      then ret (obj_set (deletion "partial" memory_id (JBool false) true
                           (s_ "vector deletion remains pending reconciliation")) "already_deleted" (JBool true))
      else
        store_deletion_tombstone d;;;
        if qdrant_on cfg then
          outcome <-- try_class is_index_error (index_delete_memory cfg auth_required context memory_id);
          match outcome with
          | inl _ => remove_row c memory_id
          | inr error =>
              p <-- scoped [("id", JStr memory_id)];
              deleted_at <-- now_fn;
              updated <-- now_fn;
              update_one c p (fun x =>
                set_retrieval "embedding_status" (JStr EMB_DELETE_PENDING)
                  (mongo_set x [("status", JStr STATUS_DELETED); ("deleted_at", JStr deleted_at);
                                 ("updated_at", JStr updated)]));;;
              ret (deletion "partial" memory_id (JBool false) true (JStr error))
          end
        else remove_row c memory_id
  end.

(** [except ValueError] and its subclasses. *)
Definition is_value_error (e : py_exn) : bool :=
  existsb (fun c => is_class c e) ["ValueError"; "JSONDecodeError"; "AuthError"; "UnicodeEncodeError"].

Definition belongs_to_chat (chat_id : text) (d : obj) : outcome py_exn bool :=
  if py_eqb (get d "owner_type") (s_ "conversation") && py_eqb (get d "owner_id") (JStr chat_id) then Ok true
  else let* provenance := as_dict (get_or d "provenance" (JObj [])) in
       Ok (py_eqb (get provenance "chat_id") (JStr chat_id)).

Definition delete_memories_by_chat_id (chat_id : text) : meff Z :=
  documents <-- all_memory_documents auth_required context false;
  foldM (fun deleted d =>
    mine <-- lift (belongs_to_chat chat_id d);
    if mine : bool then
      memory_id <-- lift (id_of d);
      catch (result <-- delete_memory memory_id;
             ret (if py_eqb (get result "status") (s_ "deleted") then deleted + 1 else deleted))
        (fun e => if is_value_error e then Some (ret deleted) else None)
    else ret deleted) 0 documents.
End Admin.

(** ** Concrete instances for the memory service

    Executable stand-ins for what the memory service gets from outside, and small worlds,
    for the examples and witnesses of the theorems. *)

(** Digests that are the material itself: injective. *)
Definition plain_crypto : Crypto := {|
  hmac_sha256 := fun k m => k ++ m; sha256_hex := fun b => b; pbkdf2_sha256 := fun p s _ => p ++ s;
  json_dumps := fun _ => []; json_loads := fun _ => None
|}.

(** Dates are years: "2024" is naive, "2024+00:00" has an offset. *)
Definition year_dates : PyDates := {|
  fromisoformat := fun t =>
    if bool_decide (lit "+00:00" `suffix_of` t)
    then mkDatetime true <$> ascii_int (take (length t - 6) t)
    else mkDatetime false <$> ascii_int t;
  isoformat := fun d => show (dt_micros d) ++ (if dt_aware d then lit "+00:00" else [])
|}.

Definition memory_env : MemEnv := {|
  now_iso := fun n => show (3000 + Z.of_nat n) ++ lit "+00:00";
  new_uuid4 := fun n => lit "uuid-" ++ show (Z.of_nat n);
  unix_time := fun _ => 0; utc_micros := fun n => 3000 + Z.of_nat n;
  mdb_fault := fun _ => None; index_creation := fun _ => true;
  rpc_reply := fun _ _ => Raise (PyError (lit "ConnectionError") (lit "no broker"))
|}.

(** A vector database that answers no request. *)
Definition silent_qdrant : QdrantHttp unit := fun _ s => (HttpError (lit "connection refused"), s).
Definition plain_uuid : NameUuid := fun t => t.

Definition memory_cfg (index_on : bool) : mem_config :=
  mkMemConfig index_on (lit "memory_items_v2") (lit "embedding") (lit "e5") 3 4000 (lit "query: ") (lit "passage: ")
    10 6 (mkPolicy (92 # 100) (75 # 100)) (lit "secret").

Definition empty_memory : mworld unit := mkMW [] [] [] [] tt false false false 0.

Definition memory_context (tenant user : string) : obj :=
  [("tenant_id", s_ tenant); ("user_id", s_ user); ("role", s_ "user")].

Definition demo_write (ctx candidate request : obj) : eff (mworld unit) obj :=
  write_memory (H := ascii_text) (H0 := plain_crypto) (H1 := ascii_words_chars) (H2 := memory_env)
    (H3 := silent_qdrant) (H4 := plain_uuid) (H5 := year_dates) (memory_cfg false) true ctx candidate request.

(** A user with one note. *)
Definition demo_ctx : obj := memory_context "acme" "ada".
Definition demo_identity : auth_identity := mkAuth (lit "acme") (lit "ada") (lit "user") None None None.
Definition demo_note (memory_id text : string) : obj := [("id", s_ memory_id); ("content", s_ text)].

Section Noted.
#[local] Existing Instance ascii_text.
#[local] Existing Instance plain_crypto.
#[local] Existing Instance ascii_words_chars.
#[local] Existing Instance memory_env.
#[local] Existing Instance silent_qdrant.
#[local] Existing Instance plain_uuid.
#[local] Existing Instance year_dates.

Definition demo_noted : mworld unit := Eval vm_compute in
  (write_memory (memory_cfg true) true demo_ctx (demo_note "note-1" "The team deploys on Fridays") []
     empty_memory).2.
Definition demo_row : obj := Eval vm_compute in default [] (head (mw_episodic demo_noted)).
End Noted.
