(* ===== verification/MemoryFacts.v ===== *)
(** * Facts about the effects of the memory service

    [ensures R c Q]: whatever happens, [c] moves the world along the preorder [R], and a
    value it returns satisfies [Q].  Two preorders are used: [outside i], nothing beyond the
    boundary of the identity [i] changes, and [same_memories], no memory changes at all. *)

From Stdlib Require Import QArith.
From stdpp Require Import base strings sets list.
From S2P Require Import Prelude PyValue Base64 Auth MemoryConsolidation MemoryNormalize MemoryClients MemoryWrite MemoryRetrieve MemoryAdmin.

Local Open Scope string_scope.
Local Open Scope list_scope.
Local Open Scope Z_scope.

Section Ensures.
Context {W : Type} (R : W -> W -> Prop) `{!PreOrder R}.

Definition ensures {A} (c : eff W A) (Q : A -> Prop) : Prop :=
  forall w, R w (c w).2 /\ forall a, (c w).1 = Ok a -> Q a.

Lemma ensures_within {A} (c : eff W A) : within R c -> ensures c (fun _ => True).
Proof. intros Hc w. split; [apply Hc|done]. Qed.

Lemma ensures_conseq {A} (c : eff W A) (P Q : A -> Prop) :
  ensures c P -> (forall a, P a -> Q a) -> ensures c Q.
Proof. intros Hc HPQ w. destruct (Hc w). split; [done|]. eauto. Qed.

Lemma ensures_ret {A} (a : A) (Q : A -> Prop) : Q a -> ensures (ret a) Q.
Proof. intros HQ w. split; [reflexivity|]. by intros ? [= <-]. Qed.

Lemma ensures_raise {A} e (Q : A -> Prop) : ensures (raise e) Q.
Proof. intros w. split; [reflexivity|done]. Qed.

Lemma ensures_lift {A} (o : outcome py_exn A) (Q : A -> Prop) : (forall a, o = Ok a -> Q a) -> ensures (lift o) Q.
Proof. intros HQ w. split; [reflexivity|]. cbn. eauto. Qed.

Lemma ensures_bind {A B} (c : eff W A) (k : A -> eff W B) (P : A -> Prop) (Q : B -> Prop) :
  ensures c P -> (forall a, P a -> ensures (k a) Q) -> ensures (bind c k) Q.
Proof.
  intros Hc Hk w. destruct (Hc w) as [HR HP]. unfold bind. destruct (c w) as [[a|e] w'] eqn:E; cbn in *.
  - destruct (Hk a (HP a eq_refl) w') as [HR' HQ]. split; [by etrans|done].
  - by split.
Qed.

Lemma ensures_lift_bind {A B} (o : outcome py_exn A) (k : A -> eff W B) (Q : B -> Prop) :
  (forall a, o = Ok a -> ensures (k a) Q) -> ensures (bind (lift o) k) Q.
Proof. intros Hk w. destruct o as [a|e]; [exact (Hk a eq_refl w)|]. split; [reflexivity|done]. Qed.

Lemma ensures_catch {A} (c : eff W A) h (Q : A -> Prop) :
  ensures c Q -> (forall e k, h e = Some k -> ensures k Q) -> ensures (catch c h) Q.
Proof.
  intros Hc Hh w. destruct (Hc w) as [HR HQ]. unfold catch. destruct (c w) as [[a|e] w'] eqn:E; cbn in *; [by split|].
  destruct (h e) as [k|] eqn:Ek; [|by split]. destruct (Hh e k Ek w') as [HR' HQ']. split; [by etrans|done].
Qed.
End Ensures.

(** ** Rows of an identity *)

(** The rows of a collection beyond the boundary of [i]. *)
Definition mine (i : auth_identity) (d : obj) : bool := mongo_all (boundary (Some i)) d.
Arguments mine : simpl never.
Definition foreign (i : auth_identity) (l : list obj) : list obj := List.filter (fun d => negb (mine i d)) l.

Lemma foreign_app i l k : foreign i (l ++ k) = foreign i l ++ foreign i k.
Proof. apply List.filter_app. Qed.

Lemma foreign_update i p f l :
  (forall d, p d = true -> mine i d = true) -> (forall d, p d = true -> mine i (f d) = true) ->
  foreign i (update_first_row p f l) = foreign i l.
Proof.
  intros Hp Hf. induction l as [|d l IH]; cbn; [done|]. destruct (p d) eqn:E; cbn.
  - by rewrite (Hp d E), (Hf d E).
  - unfold foreign in *. by rewrite IH.
Qed.

Lemma foreign_delete_row i p l : (forall d, p d = true -> mine i d = true) -> foreign i (delete_first_row p l) = foreign i l.
Proof.
  intros Hp. induction l as [|d l IH]; cbn; [done|]. destruct (p d) eqn:E; cbn.
  - by rewrite (Hp d E).
  - unfold foreign in *. by rewrite IH.
Qed.

(** The fields of the boundary decide whether a row is mine. *)
Lemma mine_fields i d d' :
  get d' "tenant_id" = get d "tenant_id" -> get d' "owner_user_id" = get d "owner_user_id" -> mine i d' = mine i d.
Proof. intros H1 H2. unfold mine, mongo_all, mongo_eq. cbn. by rewrite H1, H2. Qed.

Lemma scope_filter_mine i q d : scope_filter (Some i) q d = true -> mine i d = true.
Proof. unfold scope_filter. by intros [? _]%andb_true_iff. Qed.

(** Updates of other fields keep the owner. *)
Lemma get_update d fields k : NoDup fields.*1 ->
  get (obj_update d fields) k = match obj_get fields k with Some v => v | None => get d k end.
Proof. intros Hn. unfold get, get_or. rewrite obj_get_update by done. by destruct (obj_get fields k). Qed.

Lemma get_mongo_set x fields k :
  get (mongo_set x fields) k = match obj_get fields k with Some v => v | None => get x k end.
Proof.
  induction fields as [|[k' v] fields IH]; cbn [mongo_set foldr]; [done|]. rewrite get_set. cbn [obj_get fst snd].
  destruct (decide (k = k')); [done|]. exact IH.
Qed.

Lemma mine_mongo_set i x d : mine i x = true -> mine i d = true -> mine i (mongo_set x d) = true.
Proof.
  intros Hx Hd.
  unfold mine, mongo_all, mongo_eq in *. cbn [boundary forallb fst snd] in *.
  rewrite !get_mongo_set. unfold get, get_or in *.
  destruct (obj_get d "tenant_id"), (obj_get d "owner_user_id"); cbn in *; try done.
  all: by rewrite ?andb_false_r in Hd.
Qed.

Lemma mine_set_fields i x fields :
  obj_get fields "tenant_id" = None -> obj_get fields "owner_user_id" = None ->
  mine i (mongo_set x fields) = mine i x.
Proof. intros H1 H2. apply mine_fields; rewrite get_mongo_set; [by rewrite H1|by rewrite H2]. Qed.

Lemma ownership_nodup i : NoDup (ownership_fields (Some i)).*1.
Proof. cbn. repeat constructor; set_solver. Qed.

Lemma mine_by_fields i d :
  get d "tenant_id" = JStr (ai_tenant_id i) -> get d "owner_user_id" = JStr (ai_user_id i) -> mine i d = true.
Proof.
  intros H1 H2. unfold mine, mongo_all, mongo_eq. cbn [boundary forallb fst snd]. rewrite H1, H2. cbn.
  by rewrite !bool_decide_true.
Qed.

Lemma mine_owned i d : mine i (obj_update d (ownership_fields (Some i))) = true.
Proof.
  apply mine_by_fields; rewrite get_update by apply ownership_nodup; unfold ownership_fields; by obj_field.
Qed.

Lemma mine_update_row i d fields :
  NoDup fields.*1 -> obj_get fields "tenant_id" = None -> obj_get fields "owner_user_id" = None ->
  mine i (obj_update d fields) = mine i d.
Proof. intros Hn H1 H2. apply mine_fields; rewrite get_update by done; [by rewrite H1|by rewrite H2]. Qed.

(** ** Preorders *)

Definition outside {St} (i : auth_identity) (w w' : mworld St) : Prop :=
  forall c, foreign i (rows c w') = foreign i (rows c w).

Definition same_memories {St} (w w' : mworld St) : Prop :=
  mw_episodic w' = mw_episodic w /\ mw_semantic w' = mw_semantic w /\ mw_tombstones w' = mw_tombstones w.

#[export] Instance outside_preorder {St} i : PreOrder (@outside St i).
Proof. split; [done|]. intros x y z H1 H2 c. by rewrite H2, H1. Qed.
#[export] Instance same_memories_preorder {St} : PreOrder (@same_memories St).
Proof. split; [done|]. intros x y z (? & ? & ?) (? & ? & ?). split_and!; congruence. Qed.

(** Preorders that do not depend on the parts of the world beside the collections. *)
Class RowsOnly {St} (R : mworld St -> mworld St -> Prop) := {
  rows_only_preorder :: PreOrder R;
  rows_only w w' : (forall c, rows c w' = rows c w) -> R w w'
}.

#[export] Instance outside_rows {St} i : RowsOnly (@outside St i).
Proof. split; [apply _|]. intros w w' E c. by rewrite E. Qed.
#[export] Instance same_memories_rows {St} : RowsOnly (@same_memories St).
Proof. split; [apply _|]. intros w w' E. split_and!; [apply (E CEpisodic)|apply (E CSemantic)|apply (E CTombstones)]. Qed.

Lemma rows_on_rows {St} c f (w : mworld St) c' :
  rows c' (on_rows c f w) = if decide (c' = c) then f (rows c w) else rows c' w.
Proof. by destruct c, c'. Qed.

Create HintDb memory.

(** Walk through a program: steps with a known specification are taken, what they return is
    kept. *)
Ltac ens_step :=
  first
    [ apply ensures_ret; [typeclasses eauto|try exact I]
    | apply ensures_raise; typeclasses eauto
    | solve [eauto with memory typeclass_instances]
    | eapply ensures_bind; [typeclasses eauto|solve [eauto with memory typeclass_instances]|intros ? ?; cbv beta in *]
    | apply ensures_lift; [typeclasses eauto|intros ? ?; try exact I]
    | apply ensures_lift_bind; [typeclasses eauto|intros ? ?]
    | match goal with
      | |- ensures _ (if ?b then _ else _) _ => destruct b eqn:?
      | |- ensures _ (let '(_, _) := ?x in _) _ => destruct x as [? ?] eqn:?
      | |- ensures _ (match ?x with _ => _ end) _ => destruct x eqn:?
      | |- ensures _ (let _ := _ in _) _ => cbv zeta
      end
    | eapply (ensures_bind _ _ _ (fun _ => True)); [|intros ? _]
    | eapply ensures_conseq; [solve [eauto with memory typeclass_instances]|done] ].
Ltac ens_walk := repeat ens_step.

Section Clients.
Context {St : Type} `{PyText} `{Crypto} `{WordChars} `{MemEnv} `{QdrantHttp St} `{NameUuid} `{PyDates}.
Context (cfg : mem_config) (auth_required : bool) (context : obj).
Context (R : mworld St -> mworld St -> Prop) `{!RowsOnly R}.

Abbreviation ens := (ensures R).
Abbreviation anything := (fun _ => True).

Lemma tick_rows (w : mworld St) c : rows c (w {{ mw_tick ::= S }}) = rows c w.
Proof. by destruct c. Qed.

Lemma ens_interact {A} (f : nat -> A) : ens (interact f) anything.
Proof. intros w. split; [|done]. by apply rows_only. Qed.

(** A call of the driver that raises may have been applied. *)
Lemma ens_db {A} (c : eff (mworld St) A) (Q : A -> Prop) : ens c Q -> ens (db c) Q.
Proof.
  intros Hc w. destruct (Hc w) as [HR HQ]. unfold db.
  assert (Ht : forall w' : mworld St, R w' (w' {{ mw_tick ::= S }})) by (intros; by apply rows_only).
  destruct (mdb_fault (mw_tick w)) as [[[] m]|].
  - split; [|done]. by etrans.
  - split; [|done]. apply Ht.
  - destruct (c w) as [o w']. split; [by etrans|]. exact HQ.
Qed.

Lemma ens_find_one c p : ens (find_one c p) (fun o => forall d, o = Some d -> p d = true).
Proof.
  apply ens_db. intros w. split; [reflexivity|]. intros o [= <-] d Hd. by apply find_some in Hd as [_ ?].
Qed.

Lemma ens_find_all c p : ens (find_all c p) (Forall (fun d => p d = true)).
Proof.
  apply ens_db. intros w. split; [reflexivity|]. intros o [= <-]. apply List.Forall_forall.
  intros d. by intros [_ ?]%filter_In.
Qed.

Lemma ens_ensure_indexes : ens ensure_indexes anything.
Proof.
  intros w. split; [|done]. unfold ensure_indexes. destruct (mw_indexes_ready w); [reflexivity|].
  destruct (index_creation _); cbn; apply rows_only; by intros [].
Qed.

Lemma ens_current_identity : ens (current_identity auth_required context)
    (fun i => identity_from_context auth_required context = Ok i).
Proof. apply ensures_lift; [apply _|]. done. Qed.

Lemma ens_scoped q : ens (scoped auth_required context q)
    (fun p => exists i, identity_from_context auth_required context = Ok i /\ p = scope_filter i q).
Proof.
  eapply ensures_bind; [apply _|apply ens_current_identity|]. intros i Hi. apply ensures_ret; [apply _|]. by exists i.
Qed.

Lemma ens_http r : ens (http r) anything.
Proof.
  intros w. split; [|done]. unfold http. destruct (qdrant_request r (mw_index w)). apply rows_only. by intros [].
Qed.

#[local] Hint Resolve ens_interact ens_ensure_indexes ens_current_identity ens_scoped ens_http ens_find_one
  ens_find_all : memory.

Lemma ens_collection_ready : ens (modify (fun w => w {{ mw_collection_ready := true }})) anything.
Proof. intros w. split; [|done]. apply rows_only. by intros []. Qed.
Lemma ens_gets {A} (f : mworld St -> A) : ens (gets f) anything.
Proof. intros w. split; [|done]. by apply rows_only. Qed.
#[local] Hint Resolve ens_collection_ready ens_gets : memory.

Lemma ens_ensure_collection : ens (ensure_collection cfg) anything.
Proof. unfold ensure_collection. ens_walk. Qed.
Lemma ens_request_or_error r : ens (request_or_error r) anything.
Proof. unfold request_or_error. ens_walk. Qed.
Lemma ens_require_identity : ens (require_identity auth_required context) anything.
Proof. unfold require_identity. ens_walk. Qed.
Lemma ens_enabled : ens (index_enabled_or_raise cfg) anything.
Proof. unfold index_enabled_or_raise. ens_walk. Qed.
Lemma ens_dimensions v : ens (check_dimensions cfg v) anything.
Proof. unfold check_dimensions. ens_walk. Qed.
#[local] Hint Resolve ens_ensure_collection ens_request_or_error ens_require_identity ens_enabled ens_dimensions
  : memory.

Lemma ens_upsert_memory d v : ens (upsert_memory cfg auth_required context d v) anything.
Proof. unfold upsert_memory. ens_walk. Qed.
Lemma ens_search v owner_id owner_type limit statuses :
  ens (search cfg auth_required context v owner_id owner_type limit statuses) anything.
Proof. unfold search. ens_walk. Qed.
Lemma ens_index_delete memory_id : ens (index_delete_memory cfg auth_required context memory_id) anything.
Proof. unfold index_delete_memory. ens_walk. Qed.

Lemma ens_rpc payload : ens (fun w : mworld St => (rpc_reply (mw_tick w) payload, w {{ mw_tick ::= S }})) anything.
Proof. intros w. split; [|done]. apply rows_only. by intros []. Qed.
#[local] Hint Resolve ens_rpc : memory.

Lemma ens_embed prefix t : ens (embed cfg prefix t) anything.
Proof.
  unfold embed. ens_step. eapply ensures_bind; [apply _|apply ensures_catch; [apply _| |]|].
  - unfold request_embedding. instantiate (1 := anything). ens_walk.
  - intros e k. repeat case_match; intros [= <-]; ens_walk.
  - intros v _. ens_walk.
Qed.

Lemma ens_try_class {A} cls (c : eff (mworld St) A) : ens c anything -> ens (try_class cls c) anything.
Proof.
  intros Hc. unfold try_class. apply ensures_catch; [apply _| |].
  - eapply ensures_bind; [apply _|exact Hc|]. intros. by apply ensures_ret; [apply _|].
  - intros e k. case_match; intros [= <-]. by apply ensures_ret; [apply _|].
Qed.
End Clients.

#[export] Hint Resolve ens_interact ens_ensure_indexes ens_current_identity ens_scoped ens_http ens_find_one
  ens_find_all ens_collection_ready ens_gets ens_ensure_collection ens_request_or_error ens_require_identity
  ens_enabled ens_dimensions ens_upsert_memory ens_search ens_index_delete ens_rpc ens_embed ens_try_class : memory.

(** ** Reads *)

Lemma py_prefix_in {A} (l : list A) n x : x ∈ py_prefix l n -> x ∈ l.
Proof.
  unfold py_prefix, py_slice. intros Hx. eapply subseteq_drop, subseteq_take. exact Hx.
Qed.

(** Filters and maps that may raise keep what they select. *)
Lemma filterM_sound {A} (f : A -> outcome py_exn bool) l r :
  filterM f l = Ok r -> forall x, x ∈ r -> x ∈ l /\ f x = Ok true.
Proof.
  revert r. induction l as [|y l IH]; intros r; cbn; [intros [= <-]; set_solver|].
  destruct (f y) as [b|e] eqn:Ef; cbn; [|done]. destruct (filterM f l) as [r'|e]; cbn; [|done].
  intros [= <-] x Hx. destruct b; [apply elem_of_cons in Hx as [->|Hx]|].
  - split; [by left|done].
  - destruct (IH r' eq_refl x Hx). split; [by right|done].
  - destruct (IH r' eq_refl x Hx). split; [by right|done].
Qed.

Lemma mapM_length {A B} (f : A -> outcome py_exn B) l r : mapM_ f l = Ok r -> length r = length l.
Proof.
  revert r. induction l as [|y l IH]; intros r; cbn; [by intros [= <-]|].
  destruct (f y); cbn; [|done]. destruct (mapM_ f l); cbn; [|done]. intros [= <-]. cbn. f_equal. eauto.
Qed.

Lemma mapM_in {A B} (f : A -> outcome py_exn B) l r y :
  mapM_ f l = Ok r -> y ∈ r -> exists x, x ∈ l /\ f x = Ok y.
Proof.
  revert r. induction l as [|x l IH]; intros r; cbn; [intros [= <-]; set_solver|].
  destruct (f x) eqn:E; cbn; [|done]. destruct (mapM_ f l); cbn; [|done]. intros [= <-].
  intros [->|Hin]%elem_of_cons; [exists x; split; [by left|done]|].
  destruct (IH _ eq_refl Hin) as (x' & ? & ?). exists x'. split; [by right|done].
Qed.

Lemma mapM_image {A B} (f : A -> outcome py_exn B) l r x :
  mapM_ f l = Ok r -> x ∈ l -> exists y, f x = Ok y /\ y ∈ r.
Proof.
  revert r. induction l as [|z l IH]; intros r; cbn; [set_solver|].
  destruct (f z) eqn:E; cbn; [|done]. destruct (mapM_ f l); cbn; [|done]. intros [= <-].
  intros [->|Hin]%elem_of_cons; [eexists; split; [done|by left]|].
  destruct (IH _ eq_refl Hin) as (y & ? & ?). exists y. split; [done|by right].
Qed.

Section Reads.
Context {St : Type} `{PyText} `{Crypto} `{WordChars} `{MemEnv} `{QdrantHttp St} `{NameUuid} `{PyDates}.
Context (cfg : mem_config) (auth_required : bool) (context : obj) (i : auth_identity).
Context (Hid : identity_from_context auth_required context = Ok (Some i)).
Context (R : mworld St -> mworld St -> Prop) `{!RowsOnly R}.

Abbreviation ens := (ensures R).
Abbreviation anything := (fun _ => True).

Lemma ens_mine q : ens (scoped auth_required context q) (fun p => p = scope_filter (Some i) q).
Proof. eapply ensures_conseq; [apply ens_scoped; apply _|]. intros p (j & Hj & ->). congruence. Qed.
#[local] Hint Resolve ens_mine : memory.

Lemma ens_all_documents t :
  ens (all_memory_documents auth_required context t) (Forall (fun d => mine i d = true)).
Proof.
  unfold all_memory_documents. eapply ensures_bind; [apply _|apply ens_mine|]. intros p ->.
  eapply ensures_bind; [apply _|apply ens_find_all; apply _|]. intros l1 Ha.
  eapply ensures_bind; [apply _|apply ens_find_all; apply _|]. intros l2 Hb.
  apply ensures_ret; [apply _|]. assert (Hall : Forall (fun d => mine i d = true) (l1 ++ l2)).
  { apply Forall_app. split; (eapply Forall_impl; [eassumption|]); intros d; apply scope_filter_mine. }
  destruct t; [done|]. apply List.Forall_forall. intros d [Hd _]%filter_In.
  rewrite Forall_forall in Hall. apply Hall. by apply list_elem_of_In.
Qed.

Lemma ens_active q :
  ens (active_memory_documents auth_required context q) (Forall (fun d => mine i d = true /\ selected q d = Ok true)).
Proof.
  unfold active_memory_documents. eapply ensures_bind; [apply _|apply ens_all_documents|]. intros l Hl.
  apply ensures_lift; [apply _|]. intros r Hr. apply Forall_forall. intros d Hd.
  destruct (filterM_sound _ _ _ Hr d Hd). rewrite Forall_forall in Hl. split; [by apply Hl|done].
Qed.

Lemma ens_find_in c p t : ens (find_in c p t) (fun o => forall d, o = Some d -> p d = true).
Proof.
  unfold find_in. eapply ensures_bind; [apply _|apply ens_find_one; apply _|]. intros o Ho.
  apply ensures_ret; [apply _|]. intros d. repeat case_match; intros [= <-]; eauto.
Qed.

(** The document found is in the collection it is found in. *)
Lemma ens_find_document memory_id t :
  ens (find_memory_document auth_required context memory_id t)
    (fun o => forall c d, o = Some (c, d) -> (c = CEpisodic \/ c = CSemantic) /\
                          scope_filter (Some i) [("id", JStr memory_id)] d = true).
Proof.
  unfold find_memory_document. eapply ensures_bind; [apply _|apply ens_mine|]. intros p ->.
  eapply ensures_bind; [apply _|apply ens_find_in|]. intros [d|] Hd.
  - apply ensures_ret; [apply _|]. intros c d' [= <- <-]. split; [by left|]. by apply Hd.
  - eapply ensures_bind; [apply _|apply ens_find_in|]. intros [d|] Hd'; (apply ensures_ret; [apply _|]); [|done].
    intros c d' [= <- <-]. split; [by right|]. by apply Hd'.
Qed.

Lemma ens_tombstone_where q : ens (tombstone_where auth_required context q) anything.
Proof. unfold tombstone_where. eapply ensures_bind; [apply _|apply ens_scoped; apply _|]. intros. 
  eapply ensures_conseq; [apply ens_find_one; apply _|done]. Qed.

Lemma ens_first_tombstone qs : ens (first_tombstone auth_required context qs) anything.
Proof.
  induction qs as [|[q rule] qs IH]; cbn; [by apply ensures_ret; [apply _|]|].
  eapply ensures_bind; [apply _|apply ens_tombstone_where|]. intros [[|]|] _; [done| |done].
  by apply ensures_ret; [apply _|].
Qed.

(** ** Comparison *)

Lemma ens_semantic_comparison normalized active limit :
  ens (semantic_comparison cfg auth_required context normalized active limit)
    (fun c => forall p, p ∈ cmp_scored c -> p.1 ∈ active).
Proof.
  unfold semantic_comparison, embed_memory.
  eapply ensures_bind; [apply _|apply ens_embed; apply _|]. intros v _.
  eapply ensures_bind; [apply _|apply ens_search; apply _|]. intros hits _.
  apply ensures_lift_bind; [apply _|]. intros scored Hs. apply ensures_ret; [apply _|]. cbn.
  revert scored Hs. induction hits as [|[memory_id score] hits IH]; intros scored; cbn; [intros [= <-]; set_solver|].
  assert (Hstep : match find_last_id memory_id active with
                  | Some d => match py_float score with
                              | Some s => let* r := score_hits active hits in Ok ((d, s) :: r)
                              | None => TypeError
                              end
                  | None => score_hits active hits
                  end = Ok scored -> forall p : obj * Q, p ∈ scored -> p.1 ∈ active).
  { destruct (find_last_id memory_id active) as [d|] eqn:Ef; [|apply IH].
    destruct (py_float score) as [s|]; [|done]. destruct (score_hits active hits) as [r|]; cbn; [|done].
    intros [= <-] p [->|Hp]%elem_of_cons; [|by eapply IH].
    apply find_some in Ef as [Hd _]. apply list_elem_of_In in Hd. by rewrite elem_of_reverse in Hd. }
  by destruct memory_id.
Qed.

Lemma lexical_scores_in normalized active limit r :
  lexical_scores normalized active limit = Ok r -> forall p, p ∈ r -> p.1 ∈ active.
Proof.
  unfold lexical_scores. destruct (mapM_ _ active) as [scored|] eqn:E; cbn; [|done]. intros [= <-] p Hp.
  assert (Hin : p ∈ scored).
  { rewrite <- (ordered_perm scored). by eapply py_prefix_in. }
  destruct (mapM_in _ _ _ _ E Hin) as (d & Hd & Hf). destruct (document_tokens d); cbn in Hf; [|done].
  injection Hf as <-. done.
Qed.
End Reads.
