(* ===== verification/MemoryCompare.v ===== *)
(** * What a candidate is compared with

    Facts about [_comparable_memories]: the set is bounded, it holds memories of the caller
    only, and an identical memory of the same scope is always in it, first, whatever the
    index answers. *)

From Stdlib Require Import QArith.
From stdpp Require Import base strings sets list sorting.
From S2P Require Import Prelude PyValue Base64 Auth MemoryConsolidation MemoryNormalize MemoryClients MemoryWrite MemoryRetrieve MemoryAdmin MemoryFacts.

Local Open Scope string_scope.
Local Open Scope list_scope.
Local Open Scope Z_scope.

(** ** The bounded set *)

Section Bounded.
Context `{PyText}.

Lemma bound_into_cases limit acc e :
  bound_into limit acc e = acc \/
  bound_into limit acc e = (acc.1 ++ [e.2], acc.2 ++ [e.1]) /\ zlen acc.1 < limit.
Proof.
  unfold bound_into. destruct (negb _ && _) eqn:E; [right|by left].
  apply andb_true_iff in E as [_ E%Z.ltb_lt]. by split.
Qed.

Lemma bound_fold_in limit acc l p :
  p ∈ (foldl (bound_into limit) acc l).1 -> p ∈ acc.1 \/ p ∈ l.*2.
Proof.
  revert acc. induction l as [|e l IH]; intros acc; cbn; [by left|]. intros Hp%IH.
  destruct (bound_into_cases limit acc e) as [E|[E _]]; rewrite E in Hp; cbn in Hp; set_solver.
Qed.

Lemma bound_fold_prefix limit acc l : acc.1 `prefix_of` (foldl (bound_into limit) acc l).1.
Proof.
  revert acc. induction l as [|e l IH]; intros acc; cbn; [done|]. etrans; [|apply IH].
  destruct (bound_into_cases limit acc e) as [E|[E _]]; rewrite E; [done|]. by apply prefix_app_r.
Qed.

Lemma bound_fold_length limit acc l :
  zlen acc.1 <= Z.max 0 limit -> zlen (foldl (bound_into limit) acc l).1 <= Z.max 0 limit.
Proof.
  revert acc. induction l as [|e l IH]; intros acc Hl; cbn; [done|]. apply IH.
  destruct (bound_into_cases limit acc e) as [E|[E Hlt]]; rewrite E; [done|]. cbn.
  rewrite zlen_app. change (zlen [e.2]) with 1. lia.
Qed.

Lemma bounded_set_in limit forced scored p :
  p ∈ bounded_set limit forced scored -> (exists f, f ∈ forced /\ p = (fm_doc f, fm_score f)) \/ p ∈ scored.
Proof.
  unfold bounded_set. intros [Hp|Hp]%bound_fold_in.
  - apply bound_fold_in in Hp as [Hp|Hp]; [set_solver|]. rewrite <- list_fmap_compose in Hp.
    apply list_elem_of_fmap in Hp as (f & -> & Hf). left. by exists f.
  - rewrite <- list_fmap_compose in Hp. apply list_elem_of_fmap in Hp as (q & -> & Hq). by right.
Qed.

Lemma bounded_set_length limit forced scored : zlen (bounded_set limit forced scored) <= Z.max 0 limit.
Proof. unfold bounded_set. apply bound_fold_length, bound_fold_length. unfold zlen. cbn. lia. Qed.

Lemma bounded_set_first limit f forced scored :
  1 <= limit -> (fm_doc f, fm_score f) ∈ bounded_set limit (f :: forced) scored.
Proof.
  intros Hl. unfold bounded_set.
  assert (Hf : (fm_doc f, fm_score f) ∈
                (foldl (bound_into limit) ([], []) (map (fun f => (fm_id f, (fm_doc f, fm_score f))) (f :: forced))).1).
  { cbn [map foldl]. eapply elem_of_prefix; [|apply bound_fold_prefix].
    unfold bound_into at 1. cbn. rewrite bool_decide_false by set_solver.
    change (zlen []) with 0. rewrite (proj2 (Z.ltb_lt 0 limit)) by lia. cbn. set_solver. }
  eapply elem_of_prefix; [exact Hf|apply bound_fold_prefix].
Qed.

(** ** Forced matches *)

Lemma omit_none_in {A} (l : list (option A)) x : x ∈ omit_none l <-> Some x ∈ l.
Proof.
  unfold omit_none. rewrite list_elem_of_omap. split.
  - intros (y & Hy & Hx). cbn in Hx. by subst.
  - intros Hx. by exists (Some x).
Qed.

Lemma forced_leb_total a b : forced_leb a b = true \/ forced_leb b a = true.
Proof.
  unfold forced_leb. rewrite !orb_true_iff, !andb_true_iff, !Z.ltb_lt, !Z.eqb_eq.
  destruct (Z.lt_total (fm_rank a) (fm_rank b)) as [?|[E|?]]; [by left; left| |by right; left].
  destruct (text_leb_total (fm_id a) (fm_id b)); [left|right]; right; by split.
Qed.

Lemma forced_leb_trans a b c : forced_leb a b = true -> forced_leb b c = true -> forced_leb a c = true.
Proof.
  unfold forced_leb. rewrite !orb_true_iff, !andb_true_iff, !Z.ltb_lt, !Z.eqb_eq.
  intros [?|[E1 ?]] [?|[E2 ?]]; [left; lia|left; lia|left; lia|right].
  split; [lia|by eapply text_leb_trans].
Qed.

(** The first of the sorted matches has the smallest rank. *)
Lemma sort_forced_first l r x :
  sort_forced l = Ok r -> x ∈ l -> exists f rest, r = f :: rest /\ f ∈ l /\ fm_rank f <= fm_rank x.
Proof.
  unfold sort_forced. destruct (existsb _ l); [done|]. intros [= <-] Hx.
  pose proof (py_sorted_perm forced_leb l) as Hp.
  pose proof (py_sorted_sorted forced_leb forced_leb_total forced_leb_trans l) as Hs.
  destruct (py_sorted forced_leb l) as [|f rest]; [by rewrite <- Hp in Hx; apply not_elem_of_nil in Hx|].
  exists f, rest. split; [done|]. split; [rewrite <- Hp; by left|].
  rewrite <- Hp in Hx. apply elem_of_cons in Hx as [->|Hx]; [done|].
  apply StronglySorted_inv in Hs as [_ Hs]. rewrite Forall_forall in Hs. specialize (Hs x Hx).
  unfold forced_leb in Hs. rewrite orb_true_iff, andb_true_iff, Z.ltb_lt, Z.eqb_eq in Hs. lia.
Qed.

Lemma sort_forced_in l r f : sort_forced l = Ok r -> f ∈ r -> f ∈ l.
Proof.
  unfold sort_forced. destruct (existsb _ l); [done|]. intros [= <-]. by rewrite py_sorted_perm.
Qed.

(** The identity of a memory the candidate repeats: same scope and same content. *)
Definition repeats (normalized d : obj) : bool :=
  bool_decide (py_str (get d "scope_key" ||| JStr [])%rf = py_str (get normalized "scope_key" ||| JStr [])%rf)
  && py_eqb (get d "content_hash") (get normalized "content_hash").

Lemma forced_of_doc normalized scored d f :
  forced_of normalized scored d = Ok (Some f) -> fm_doc f = d /\ (0 <= fm_rank f) /\
    (fm_rank f = 0 -> repeats normalized d = true).
Proof.
  unfold forced_of, repeats. destruct (bool_decide _) eqn:Es; cbn; [|done].
  destruct (py_eqb (get d "content_hash") (get normalized "content_hash")) eqn:Ee; cbn.
  - destruct (id_of d); cbn; [|done]. intros [= <-]. by split_and!.
  - destruct (negb _); [done|]. destruct (id_of d); cbn; [|done]. intros [= <-]. cbn. split_and!; [done|lia|lia].
Qed.

Lemma forced_of_repeats normalized scored d :
  repeats normalized d = true -> forall o, forced_of normalized scored d = Ok o ->
  exists f, o = Some f /\ fm_rank f = 0.
Proof.
  unfold repeats, forced_of. intros [E1 E2]%andb_true_iff o. rewrite E1, E2. cbn.
  destruct (id_of d); cbn; [|done]. intros [= <-]. eauto.
Qed.
End Bounded.

(** ** The whole comparison *)

Section Compare.
Context {St : Type} `{PyText} `{Crypto} `{WordChars} `{MemEnv} `{QdrantHttp St} `{NameUuid} `{PyDates}.
Context (cfg : mem_config) (auth_required : bool) (context : obj) (i : auth_identity).
Context (Hid : identity_from_context auth_required context = Ok (Some i)).
Context (R : mworld St -> mworld St -> Prop) `{!RowsOnly R}.

Abbreviation ens := (ensures R).

Lemma ens_compare_candidate normalized active limit :
  ens (compare_candidate cfg auth_required context normalized active limit)
    (fun c => forall p, p ∈ cmp_scored c -> p.1 ∈ active).
Proof.
  unfold compare_candidate. cbv zeta.
  eapply (ensures_bind _ _ _ (fun c => forall p, p ∈ cmp_scored c -> p.1 ∈ active)).
  - destruct (_ && _); [|apply ensures_ret; [apply _|cbn; set_solver]].
    apply ensures_catch; [apply _|by eapply ens_semantic_comparison|].
    intros e k. case_match; intros [= <-]. apply ensures_ret; [apply _|cbn; set_solver].
  - intros c Hc. destruct (bool_decide _); [|by apply ensures_ret; [apply _|]].
    apply ensures_lift_bind; [apply _|]. intros r Hr. apply ensures_ret; [apply _|]. cbn.
    by eapply lexical_scores_in.
Qed.

Definition candidate_query (normalized : obj) : memory_query :=
  mkQuery (as_text (get normalized "owner_id")) (Some (as_text (get normalized "owner_type")))
    [as_text (get normalized "memory_class")] false false None None.

(** The candidate is compared with current memories of the caller, at most as many as
    configured. *)
Lemma ens_comparable normalized :
  ens (comparable_memories cfg auth_required context normalized)
    (fun c => zlen (cmp_scored c) <= Z.max 1 (memory_dedupe_candidate_limit cfg) /\
              forall p, p ∈ cmp_scored c -> mine i p.1 = true /\ selected (candidate_query normalized) p.1 = Ok true).
Proof.
  unfold comparable_memories. fold (candidate_query normalized).
  eapply ensures_bind; [apply _|by apply ens_active|]. intros active Ha. cbv zeta.
  apply ensures_lift_bind; [apply _|]. intros _ _.
  eapply ensures_bind; [apply _|apply ens_compare_candidate|]. intros c Hc.
  apply ensures_lift_bind; [apply _|]. intros forced Hf.
  apply ensures_lift_bind; [apply _|]. intros sorted Hs. apply ensures_ret; [apply _|]. cbn.
  split; [pose proof (bounded_set_length (Z.max 1 (memory_dedupe_candidate_limit cfg)) sorted (cmp_scored c)); lia|].
  intros p Hp. rewrite Forall_forall in Ha. apply bounded_set_in in Hp as [(f & Hin & ->)|Hp]; [|by apply Ha, Hc].
  apply (sort_forced_in _ _ _ Hs), omit_none_in in Hin.
  destruct (mapM_in _ _ _ _ Hf Hin) as (d & Hd & Hfd). apply forced_of_doc in Hfd as [<- _]. by apply Ha.
Qed.
End Compare.

(** ** Completeness for repeated content *)

Definition same_rows {St} (w w' : mworld St) : Prop := forall c, rows c w' = rows c w.

#[export] Instance same_rows_only {St} : RowsOnly (@same_rows St).
Proof. split; [split; [done|]|done]. intros x y z E1 E2 c. by rewrite E2, E1. Qed.

Lemma bind_ok {W A B} (c : eff W A) (k : A -> eff W B) w b w' :
  bind c k w = (Ok b, w') -> exists a w1, c w = (Ok a, w1) /\ k a w1 = (Ok b, w').
Proof. unfold bind. destruct (c w) as [[a|e] w1]; [|done]. eauto. Qed.

Lemma bind_run {W A B} (c : eff W A) (k : A -> eff W B) w :
  bind c k w = match c w with (Ok a, w1) => k a w1 | (Raise e, w1) => (Raise e, w1) end.
Proof. done. Qed.

Lemma filterM_complete {A} (f : A -> outcome py_exn bool) l r x :
  filterM f l = Ok r -> x ∈ l -> f x = Ok true -> x ∈ r.
Proof.
  revert r. induction l as [|y l IH]; intros r; cbn; [set_solver|].
  destruct (f y) as [b|e] eqn:Ef; cbn; [|done]. destruct (filterM f l) as [r'|e]; cbn; [|done].
  intros [= <-] [->|Hx]%elem_of_cons Hf; [rewrite Hf in Ef; injection Ef as <-; by left|].
  destruct b; [right|]; by apply IH.
Qed.

Section Complete.
Context {St : Type} `{PyText} `{Crypto} `{WordChars} `{MemEnv} `{QdrantHttp St} `{NameUuid} `{PyDates}.
Context (cfg : mem_config) (auth_required : bool) (context : obj) (i : auth_identity).
Context (Hid : identity_from_context auth_required context = Ok (Some i)).

Lemma scoped_ok (w w' : mworld St) q p :
  scoped auth_required context q w = (Ok p, w') -> p = scope_filter (Some i) q /\ w' = w.
Proof. unfold scoped, bind, current_identity, lift. rewrite Hid. by intros [= <- <-]. Qed.

Lemma find_all_ok c p (w w' : mworld St) l :
  find_all c p w = (Ok l, w') -> l = List.filter p (rows c w) /\ same_rows w w'.
Proof.
  unfold find_all, db. destruct (mdb_fault _) as [[]|]; [done|]. cbn. intros [= <- <-]. split; [done|]. by intros [].
Qed.

Lemma find_one_ok c p (w w' : mworld St) o :
  find_one c p w = (Ok o, w') -> o = List.find p (rows c w) /\ same_rows w w'.
Proof.
  unfold find_one, db. destruct (mdb_fault _) as [[]|]; [done|]. cbn. intros [= <- <-]. split; [done|]. by intros [].
Qed.

(** Every row of the caller that is not a deletion in progress is read. *)
Lemma all_documents_ok (w w' : mworld St) l x :
  all_memory_documents auth_required context false w = (Ok l, w') ->
  x ∈ mw_episodic w ++ mw_semantic w -> mine i x = true ->
  py_eqb (get x "status") (JStr STATUS_DELETED) = false -> x ∈ l.
Proof.
  unfold all_memory_documents. intros (p & w1 & Hs & Hk)%bind_ok. apply scoped_ok in Hs as [-> ->].
  apply bind_ok in Hk as (l1 & w2 & [-> E1]%find_all_ok & Hk).
  apply bind_ok in Hk as (l2 & w3 & [-> E2]%find_all_ok & Hk).
  injection Hk as <- <-. intros Hx Hm Hst.
  assert (Hall : In x (List.filter (scope_filter (Some i) []) (rows CEpisodic w)
                       ++ List.filter (scope_filter (Some i) []) (rows CSemantic w2))).
  { rewrite (E1 CSemantic), <- List.filter_app. apply filter_In. split; [by apply list_elem_of_In|].
    apply andb_true_iff. by split. }
  apply list_elem_of_In, filter_In. split; [done|]. by rewrite Hst.
Qed.

Lemma all_documents_stored (w w' : mworld St) l x :
  all_memory_documents auth_required context false w = (Ok l, w') -> x ∈ l -> x ∈ mw_episodic w ++ mw_semantic w.
Proof.
  unfold all_memory_documents. intros (p & w1 & Hs & Hk)%bind_ok. apply scoped_ok in Hs as [-> ->].
  apply bind_ok in Hk as (l1 & w2 & [-> E1]%find_all_ok & Hk).
  apply bind_ok in Hk as (l2 & w3 & [-> E2]%find_all_ok & Hk).
  injection Hk as <- <-. pose proof (E1 CSemantic) as E. cbn [rows] in E |- *. rewrite E, <- List.filter_app.
  intros [[Hx _]%filter_In _]%list_elem_of_In%filter_In. by apply list_elem_of_In.
Qed.

Lemma selected_current n x : selected (candidate_query n) x = Ok true -> py_eqb (get x "status") (JStr STATUS_DELETED) = false.
Proof.
  intros Hs. destruct (py_eqb _ _) eqn:E; [|done]. apply py_eqb_str in E.
  assert (Hm : memory_status x = STATUS_DELETED) by (unfold memory_status; rewrite E; done).
  unfold selected in Hs. rewrite Hm in Hs. repeat case_match; done.
Qed.

Lemma comparable_repeats (w w' : mworld St) n c x :
  comparable_memories cfg auth_required context n w = (Ok c, w') ->
  x ∈ mw_episodic w ++ mw_semantic w -> mine i x = true -> selected (candidate_query n) x = Ok true ->
  repeats n x = true ->
  exists p, p ∈ cmp_scored c /\ repeats n p.1 = true.
Proof.
  unfold comparable_memories. fold (candidate_query n).
  intros (active & w1 & Ha & Hk)%bind_ok Hx Hm Hsel Hr. cbv zeta in Hk.
  assert (Hact : x ∈ active).
  { unfold active_memory_documents in Ha. apply bind_ok in Ha as (l & w2 & Hl & Hf).
    eapply all_documents_ok in Hl; [|done..|by eapply selected_current].
    unfold lift in Hf. injection Hf as Hf _. by eapply filterM_complete. }
  apply bind_ok in Hk as (ids & w3 & _ & Hk). apply bind_ok in Hk as (cmp & w4 & _ & Hk).
  apply bind_ok in Hk as (forced & w5 & Hf & Hk). unfold lift in Hf. injection Hf as Hf _.
  apply bind_ok in Hk as (sorted & w6 & Hs & Hk). unfold lift in Hs. injection Hs as Hs _.
  injection Hk as <- _. cbn.
  destruct (mapM_image _ _ _ _ Hf Hact) as (o & Ho & Hin).
  destruct (forced_of_repeats _ _ _ Hr _ Ho) as (f & -> & Hrank).
  apply omit_none_in in Hin.
  destruct (sort_forced_first _ _ _ Hs Hin) as (g & rest & -> & Hg & Hle).
  exists (fm_doc g, fm_score g). split; [apply bounded_set_first; lia|]. cbn.
  apply omit_none_in in Hg. destruct (mapM_in _ _ _ _ Hf Hg) as (d & Hd & Hfd).
  apply forced_of_doc in Hfd as (-> & Hnn & Hrep). apply Hrep. lia.
Qed.

(** What is compared are rows of the database. *)
Lemma comparable_stored (w w' : mworld St) n c p :
  comparable_memories cfg auth_required context n w = (Ok c, w') -> p ∈ cmp_scored c ->
  p.1 ∈ mw_episodic w ++ mw_semantic w.
Proof.
  unfold comparable_memories. fold (candidate_query n).
  intros (active & w1 & Ha & Hk)%bind_ok. cbv zeta in Hk.
  assert (Hact : forall x, x ∈ active -> x ∈ mw_episodic w ++ mw_semantic w).
  { unfold active_memory_documents in Ha. apply bind_ok in Ha as (l & w2 & Hl & Hf).
    unfold lift in Hf. injection Hf as Hf _. intros x Hx. eapply all_documents_stored; [exact Hl|].
    by destruct (filterM_sound _ _ _ Hf x Hx). }
  apply bind_ok in Hk as (ids & w3 & _ & Hk). apply bind_ok in Hk as (cmp & w4 & Hc & Hk).
  apply bind_ok in Hk as (forced & w5 & Hf & Hk). unfold lift in Hf. injection Hf as Hf _.
  apply bind_ok in Hk as (sorted & w6 & Hs & Hk). unfold lift in Hs. injection Hs as Hs _.
  injection Hk as <- _. cbn. intros [(f & Hin & ->)|Hp]%bounded_set_in.
  - apply (sort_forced_in _ _ _ Hs), omit_none_in in Hin.
    destruct (mapM_in _ _ _ _ Hf Hin) as (d & Hd & Hfd). apply forced_of_doc in Hfd as [<- _]. by apply Hact.
  - apply Hact. destruct (ens_compare_candidate cfg auth_required context i Hid same_rows n active
      (Z.max 1 (memory_dedupe_candidate_limit cfg)) w3) as [_ Hpost]. rewrite Hc in Hpost. by apply (Hpost cmp eq_refl).
Qed.

(** Documents whose stored scope key is the key of their scope. *)
Definition coherent (d : obj) : Prop :=
  scope_key (get d "scope") = py_str (get d "scope_key" ||| JStr [])%rf /\ jtrue (get d "content_hash") = true.

(** A repeated content is decided to be a duplicate. *)
Lemma decide_repeated pol n l comparison p :
  explicit_target n = [] -> jtrue (get n "valid_to") = false ->
  scope_key (get n "scope") = py_str (get n "scope_key" ||| JStr [])%rf -> coherent p.1 ->
  p ∈ l -> repeats n p.1 = true ->
  cd_outcome (decide_candidate pol n l comparison) = OUTCOME_DUPLICATE_EXACT.
Proof.
  intros He Hv Hn [Hp Hh] Hin [E1 E2]%andb_true_iff. unfold decide_candidate. cbv zeta.
  rewrite He, bool_decide_true, Hv by done. cbn [negb].
  destruct (List.find (exact_duplicate n) (ordered l)) eqn:Ef; [done|exfalso].
  pose proof (find_none_all _ _ p Ef Hin) as Hfalse. unfold exact_duplicate, in_candidate_scope in Hfalse.
  rewrite Hh, E2, Hp, Hn, E1 in Hfalse. done.
Qed.
End Complete.

(** ** Fields of a normalised candidate *)

Section Fields.
Context `{PyText} `{Crypto} `{WordChars}.

Definition CLASS_KEYS : list string :=
  ["preference_key"; "value"; "value_type"; "strength"; "evidence_count"; "content"; "event_at"; "expires_at";
   "stability"].

Lemma class_fields_get candidate provenance n memory_class t now tags explicit stable k :
  k ∉ CLASS_KEYS ->
  get (class_fields candidate provenance n memory_class t now tags explicit stable) k = get n k.
Proof.
  unfold CLASS_KEYS. intros Hk. unfold class_fields. cbv zeta.
  assert (Hset : forall o v, get (obj_set o "content" v) k = get o k).
  { intros. rewrite get_set. by rewrite decide_False by set_solver. }
  destruct (bool_decide (memory_class = _)).
  - case_match; [rewrite Hset|]; (rewrite get_update by (repeat constructor; set_solver));
      by rewrite obj_get_not_in by set_solver.
  - rewrite get_update by (repeat constructor; set_solver). by rewrite obj_get_not_in by set_solver.
Qed.

Lemma normalized_scope i on now fresh candidate rc n :
  normalize_candidate i on now fresh candidate rc = Ok n ->
  scope_key (get n "scope") = py_str (get n "scope_key" ||| JStr [])%rf.
Proof.
  unfold normalize_candidate. destruct (candidate_content candidate), (candidate_owner i candidate rc).
  destruct (content_hash _ _ _ _) as [hash|]; [|done]. cbn [obind]. intros [= <-].
  rewrite !class_fields_get by (unfold CLASS_KEYS; set_solver). unfold get, get_or. cbn [app]. obj_field.
  unfold jor. destruct (jtrue (JStr _)) eqn:E; [done|]. cbn in E. by apply negb_false_iff, bool_decide_eq_true in E.
Qed.

Lemma normalized_current i on now fresh candidate rc n :
  normalize_candidate i on now fresh candidate rc = Ok n ->
  get candidate "supersedes" = JNull -> jtrue (get candidate "valid_to") = false ->
  explicit_target n = [] /\ jtrue (get n "valid_to") = false.
Proof.
  unfold normalize_candidate. destruct (candidate_content candidate), (candidate_owner i candidate rc).
  destruct (content_hash _ _ _ _) as [hash|]; [|done]. cbn [obind]. intros [= <-] Hs Hv. unfold explicit_target.
  rewrite !class_fields_get by (unfold CLASS_KEYS; set_solver). unfold get at 1 2, get_or. cbn [app]. obj_field.
  by rewrite Hs.
Qed.
End Fields.
