(* ===== verification/MemoryWriteSafety.v ===== *)
(** * Safety of memory writes

    Three promises of [write_memory], for every driver fault and every answer of the index:
    content that is already stored is not stored again, a deleted fact does not come back,
    and nothing beyond the boundary of the caller changes. *)

From Stdlib Require Import QArith.
From stdpp Require Import base strings sets list sorting.
From S2P Require Import Prelude PyValue Base64 Auth MemoryConsolidation MemoryNormalize MemoryClients MemoryWrite MemoryRetrieve MemoryAdmin MemoryFacts MemoryCompare.

Local Open Scope string_scope.
Local Open Scope list_scope.
Local Open Scope Z_scope.

(** ** Writing the log leaves the memories alone *)

Section Log.
Context {St : Type} `{PyText} `{Crypto} `{WordChars} `{MemEnv} `{QdrantHttp St} `{NameUuid} `{PyDates}.
Context (cfg : mem_config) (auth_required : bool) (context : obj).

Abbreviation same := (@same_memories St).

Lemma same_update_log p f : ensures same (update_one CLog p f) (fun _ => True).
Proof. apply ens_db; [apply _|]. intros w. by split. Qed.
Lemma same_insert_log d : ensures same (insert_one CLog d) (fun _ => True).
Proof. apply ens_db; [apply _|]. intros w. split; [|done]. by destruct (_ && _). Qed.
#[local] Hint Resolve same_update_log same_insert_log : memory.

Lemma same_log rc snapshot n status memory_id memory_class reason checks indexed error :
  ensures same (log_outcome auth_required context rc snapshot n status memory_id memory_class reason checks
                  indexed error) (fun _ => True).
Proof.
  unfold log_outcome. cbv zeta. eapply (ensures_bind _ _ _ (fun _ => True)).
  - ens_walk.
  - intros o _. ens_walk.
Qed.

Lemma same_result_from_log row : ensures same (result_from_log auth_required context row) (fun _ => True).
Proof.
  unfold result_from_log. cbv zeta. eapply (ensures_bind _ _ _ (fun _ => True)); [|intros; ens_walk].
  destruct (jtrue _); [|by apply ensures_ret; [apply _|]].
  eapply (ensures_bind _ _ _ (fun _ => True)).
  - unfold find_memory_document, find_in. ens_walk.
  - intros [[]|] _; ens_walk.
Qed.
End Log.

(** ** Duplicates *)

Section Duplicates.
Context {St : Type} `{PyText} `{Crypto} `{WordChars} `{MemEnv} `{QdrantHttp St} `{NameUuid} `{PyDates}.
Context (cfg : mem_config) (auth_required : bool) (context : obj) (i : auth_identity).
Context (Hid : identity_from_context auth_required context = Ok (Some i)).

Abbreviation same := (@same_memories St).

Lemma same_rows_memories (w w' : mworld St) : same_rows w w' -> same w w'.
Proof. intros E. split_and!; [apply (E CEpisodic)|apply (E CSemantic)|apply (E CTombstones)]. Qed.

(** The memories of the caller carry the key of their scope and a hash. *)
Definition rows_coherent (w : mworld St) : Prop :=
  forall d, d ∈ mw_episodic w ++ mw_semantic w -> mine i d = true -> coherent d.

(** [x] already holds the content of the candidate [n], in its scope, and is current. *)
Definition already_stored (w : mworld St) (n x : obj) : Prop :=
  x ∈ mw_episodic w ++ mw_semantic w /\ mine i x = true /\ selected (candidate_query n) x = Ok true /\
  repeats n x = true.

Lemma store_repeated rc snapshot n checks (w : mworld St) x :
  explicit_target n = [] -> jtrue (get n "valid_to") = false ->
  scope_key (get n "scope") = py_str (get n "scope_key" ||| JStr [])%rf ->
  rows_coherent w -> already_stored w n x ->
  same w (store_candidate cfg auth_required context rc snapshot n checks w).2 /\
  forall r, (store_candidate cfg auth_required context rc snapshot n checks w).1 = Ok r ->
            get r "status" = s_ "duplicate".
Proof.
  intros He Hv Hsc Hco (Hx & Hm & Hsel & Hr). unfold store_candidate.
  destruct (ens_comparable cfg auth_required context i Hid same_rows n w) as [Hsame Hpost].
  rewrite (bind_run (comparable_memories _ _ _ _)). destruct (comparable_memories cfg auth_required context n w) as [[c|e] w1] eqn:Ec; cbn in Hsame;
    [|split; [by apply same_rows_memories|done]].
  destruct (comparable_repeats _ _ _ _ Hid _ _ _ _ _ Ec Hx Hm Hsel Hr) as (p & Hp & Hrep). cbv zeta.
  assert (Hcp : coherent p.1).
  { apply Hco; [by eapply comparable_stored|]. by apply (Hpost c eq_refl). }
  assert (Hd : cd_outcome (decide_candidate (consolidation_policy cfg) n (cmp_scored c) (cmp_mode c)) =
               OUTCOME_DUPLICATE_EXACT) by (by eapply decide_repeated).
  rewrite Hd.
  rewrite bool_decide_true by done.
  assert (Hrest : forall T : eff (mworld St) obj, ensures same T (fun r => get r "status" = s_ "duplicate") ->
                  same w (T w1).2 /\ forall r, (T w1).1 = Ok r -> get r "status" = s_ "duplicate").
  { intros T HT. destruct (HT w1) as [HR HQ]. split; [|done]. etrans; [by apply same_rows_memories|done]. }
  apply Hrest. eapply ensures_bind; [apply _|apply same_log|]. intros _ _.
  apply ensures_lift_bind; [apply _|]. intros retrieval _. by apply ensures_ret; [apply _|].
Qed.

(** ** From the body of a write to the write *)

(** No logged outcome answers the request. *)
Definition unlogged (rc : obj) (w : mworld St) : Prop :=
  jtrue (get rc "request_id") = true ->
  existsb (scope_filter (Some i) [("request_id", get rc "request_id")]) (mw_log w) = false.

(** Every outcome of a step, with the world it leaves. *)
Lemma step_rows {A B} (c : eff (mworld St) A) (k : A -> eff (mworld St) B) (P : A -> Prop) (Q : B -> Prop) w :
  ensures same_rows c P ->
  (forall a w1, same_rows w w1 -> c w = (Ok a, w1) -> P a ->
     same w (k a w1).2 /\ forall b, (k a w1).1 = Ok b -> Q b) ->
  same w (bind c k w).2 /\ forall b, (bind c k w).1 = Ok b -> Q b.
Proof.
  intros Hc Hk. destruct (Hc w) as [HR HP]. rewrite bind_run. destruct (c w) as [[a|e] w1] eqn:E; cbn in *.
  - by apply Hk; [| |apply HP].
  - split; [by apply same_rows_memories|done].
Qed.

Lemma from_rows {A} (c : eff (mworld St) A) (Q : A -> Prop) w w1 :
  same_rows w w1 -> (same w1 (c w1).2 /\ forall a, (c w1).1 = Ok a -> Q a) ->
  same w (c w1).2 /\ forall a, (c w1).1 = Ok a -> Q a.
Proof. intros Hw [H1' H2']. split; [|done]. etrans; [by apply same_rows_memories|done]. Qed.

Lemma ensures_at {A} (c : eff (mworld St) A) (Q : A -> Prop) w :
  ensures same c Q -> same w (c w).2 /\ forall a, (c w).1 = Ok a -> Q a.
Proof. intros Hc. apply Hc. Qed.

Lemma rows_trans (w w1 w2 : mworld St) : same_rows w w1 -> same_rows w1 w2 -> same_rows w w2.
Proof. intros E1 E2. etrans; [exact E1|exact E2]. Qed.

Lemma catch_run {W A} (c : eff W A) h w :
  catch c h w = match c w with
                | (Ok a, w1) => (Ok a, w1)
                | (Raise e, w1) => match h e with Some k => k w1 | None => (Raise e, w1) end
                end.
Proof. done. Qed.

(** A failure of a write is logged and reported. *)
Lemma same_failure {A} (c : eff (mworld St) A) rc snapshot (Q : A -> Prop) w :
  (same w (c w).2 /\ forall a, (c w).1 = Ok a -> Q a) ->
  let h e := if is_exception e then Some (
       log_outcome auth_required context rc snapshot JNull "failed" JNull JNull (exn_text e) [] JNull JNull;;;
       raise (DatabaseError (lit "Failed to write memory: " ++ exn_text e))) else None in
  same w (catch c h w).2 /\ forall a, (catch c h w).1 = Ok a -> Q a.
Proof.
  intros [HR HQ] h. unfold catch. destruct (c w) as [[a|e] w1]; cbn in *; [by split|].
  unfold h. destruct (is_exception e); [|by split].
  assert (Hl : ensures same (log_outcome auth_required context rc snapshot JNull "failed" JNull JNull (exn_text e) []
                 JNull JNull;;; @raise _ A (DatabaseError (lit "Failed to write memory: " ++ exn_text e)))
                 (fun _ => False)).
  { eapply ensures_bind; [apply _|apply same_log|]. intros _ _. apply ensures_raise. apply _. }
  destruct (Hl w1) as [HR' HQ']. split; [by etrans|]. intros a Ha. by destruct (HQ' a Ha).
Qed.

Lemma ens_normalized_for candidate rc :
  ensures (@same_rows St) (normalized_for cfg auth_required context candidate rc)
    (fun n => exists now fresh, normalize_candidate (Some i) (qdrant_on cfg) now fresh candidate rc = Ok n).
Proof.
  unfold normalized_for. eapply ensures_bind; [apply _|apply ens_current_identity; apply _|]. intros j Hj.
  assert (j = Some i) as -> by congruence.
  eapply ensures_bind; [apply _|apply ens_interact; apply _|]. intros now _.
  eapply (ensures_bind _ _ _ (fun _ => True)); [ens_walk|]. intros fresh _.
  apply ensures_lift; [apply _|]. eauto.
Qed.

Lemma write_body_same candidate rc (Q : obj -> Prop) w :
  (forall now fresh n w1, normalize_candidate (Some i) (qdrant_on cfg) now fresh candidate rc = Ok n ->
     same_rows w w1 ->
     same w1 (write_normalized cfg auth_required context candidate rc n w1).2 /\
     forall r, (write_normalized cfg auth_required context candidate rc n w1).1 = Ok r -> Q r) ->
  same w (write_body cfg auth_required context candidate rc w).2 /\
  forall r, (write_body cfg auth_required context candidate rc w).1 = Ok r -> Q r.
Proof.
  intros Hbody. unfold write_body. rewrite bind_run.
  destruct (ens_normalized_for candidate rc w) as [HR HQ].
  destruct (normalized_for cfg auth_required context candidate rc w) as [[n|e] w1] eqn:En; cbn in HR, HQ.
  - rewrite (catch_run (normalized_for _ _ _ _ _)), En.
    destruct (HQ n eq_refl) as (now & fresh & Hn). apply (from_rows _ _ _ _ HR).
    apply (same_failure (write_normalized cfg auth_required context candidate rc n)). by eapply Hbody.
  - pose proof (same_failure (normalized_for cfg auth_required context candidate rc) rc (JObj candidate)
      (fun _ => False) w) as Hf. cbv zeta in Hf. rewrite En in Hf.
    destruct Hf as [Hf1 Hf2]; [by split; [apply same_rows_memories|]|].
    destruct (catch _ _ w) as [[n|e'] w2]; cbn in *; [by destruct (Hf2 n)|by split].
Qed.

Lemma write_memory_same candidate rc (Q : obj -> Prop) w :
  (forall now fresh n w1, normalize_candidate (Some i) (qdrant_on cfg) now fresh candidate rc = Ok n ->
     same_rows w w1 ->
     same w1 (write_normalized cfg auth_required context candidate rc n w1).2 /\
     forall r, (write_normalized cfg auth_required context candidate rc n w1).1 = Ok r -> Q r) ->
  same w (write_memory cfg auth_required context candidate rc w).2 /\
  forall r, (write_memory cfg auth_required context candidate rc w).1 = Ok r -> unlogged rc w -> Q r.
Proof.
  intros Hbody. unfold write_memory.
  apply (step_rows _ _ (fun _ => True) (fun r => unlogged rc w -> Q r)); [apply ens_ensure_indexes; apply _|].
  intros [] w1 E1 _ _. apply (from_rows _ _ _ _ E1).
  apply (step_rows _ _ (fun _ => True) (fun r => unlogged rc w -> Q r)).
  { destruct (jtrue (get rc "request_id")); [|by apply ensures_ret; [apply _|]]. ens_walk. }
  intros o w2 E2 Ho _. apply (from_rows _ _ _ _ E2).
  assert (Hnew : same w2 (write_body cfg auth_required context candidate rc w2).2 /\
                 forall r, (write_body cfg auth_required context candidate rc w2).1 = Ok r -> Q r).
  { apply write_body_same. intros now fresh n w3 Hn E3.
    eapply Hbody; [done|]. by eapply rows_trans, rows_trans. }
  destruct o as [[|kv row]|]; [by destruct Hnew; split; auto| |by destruct Hnew; split; auto].
  split; [apply same_result_from_log|].
  intros r _ Hun. exfalso. unfold unlogged in Hun. destruct (jtrue (get rc "request_id")); [|done].
  specialize (Hun eq_refl). apply bind_ok in Ho as (p & w3 & Hp & Hf).
  apply (scoped_ok _ _ _ Hid) in Hp as [-> ->]. apply find_one_ok in Hf as [Hf _].
  symmetry in Hf. apply find_some in Hf as [Hin Hsat]. rewrite (E1 CLog) in Hin.
  apply not_true_iff_false in Hun. apply Hun, existsb_exists. eauto.
Qed.

(** ** The branches of a write *)

Lemma find_none_rows (p : obj -> bool) l d : List.find p l = None -> d ∈ l -> p d = false.
Proof. intros E Hd. eapply find_none in E; [exact E|]. by apply list_elem_of_In. Qed.

Lemma mine_nonempty d : mine i d = true -> exists kv rest, d = kv :: rest.
Proof. destruct d as [|kv rest]; [|by eauto]. unfold mine. cbn. done. Qed.

(** A write passes the guard only when no deletion matches. *)
Lemma first_tombstone_none qs (w w1 : mworld St) :
  first_tombstone auth_required context qs w = (Ok None, w1) ->
  forall q rule t, (q, rule) ∈ qs -> t ∈ mw_tombstones w -> scope_filter (Some i) q t = false.
Proof.
  revert w. induction qs as [|[q0 rule0] qs IH]; intros w; cbn [first_tombstone]; [set_solver|].
  intros (o & w2 & Hf & Hk)%bind_ok q rule t Hin Ht. unfold tombstone_where in Hf.
  apply bind_ok in Hf as (p & w3 & Hp & Hf). apply (scoped_ok _ _ _ Hid) in Hp as [-> ->].
  apply find_one_ok in Hf as [-> E]. cbn [rows] in Hk.
  destruct (List.find (scope_filter (Some i) q0) (mw_tombstones w)) as [d|] eqn:Ef.
  - apply find_some in Ef as [_ Hd%scope_filter_mine]. apply mine_nonempty in Hd as (kv & rest & ->). done.
  - apply elem_of_cons in Hin as [[= -> ->]|Hin]; [by eapply find_none_rows|].
    eapply IH; [exact Hk|exact Hin|]. pose proof (E CTombstones) as Et. cbn [rows] in Et. by rewrite Et.
Qed.

Lemma write_normalized_same candidate rc n (Q : obj -> Prop) w :
  (forall memory_class reason, Q (rejected memory_class reason)) ->
  (forall memory_class reason rule, Q (suppressed memory_class reason rule)) ->
  (forall rc checks w1, same_rows w w1 -> matching_deletion_tombstone auth_required context n w = (Ok None, w1) ->
     same w1 (store_candidate cfg auth_required context rc (JObj candidate) n checks w1).2 /\
     forall r, (store_candidate cfg auth_required context rc (JObj candidate) n checks w1).1 = Ok r -> Q r) ->
  same w (write_normalized cfg auth_required context candidate rc n w).2 /\
  forall r, (write_normalized cfg auth_required context candidate rc n w).1 = Ok r -> Q r.
Proof.
  intros Hrej Hsup Hstore. unfold write_normalized. cbv zeta.
  destruct (evaluate_write_policy n) as [[accepted checks] reason]. destruct accepted; cbn [negb].
  - apply (step_rows _ _ (fun _ => True)); [apply ens_first_tombstone; apply _|]. intros [rule|] w1 E Hm _.
    + apply (from_rows _ _ _ _ E). revert w1 E Hm. intros w1 _ _. apply ensures_at.
      eapply ensures_bind; [apply _|apply same_log|]. intros _ _. by apply ensures_ret; [apply _|].
    + apply (from_rows _ _ _ _ E). by apply Hstore.
  - apply ensures_at. eapply ensures_bind; [apply _|apply same_log|]. intros _ _. by apply ensures_ret; [apply _|].
Qed.

(** C15: A memory whose content the caller already holds is not stored again.  Let a row of the
    caller be one that the service compares the candidate with (active, current and of its
    scope) and have its content, let the candidate neither name a memory to supersede nor
    carry an end of validity, and let the stored rows of the caller carry the scope key and
    the hash the service writes.  Then, whatever the driver and the index do, the write
    changes no memory and no deletion identity, and its answer, unless the log already holds
    one for the request, says duplicate or rejected.  The condition on supersedes is needed:
    a candidate that names a memory which does not exist is stored beside its duplicate
    ([duplicate_beside_supersedes], a finding). *)
Theorem duplicate_never_stored candidate rc (w : mworld St) x :
  get candidate "supersedes" = JNull -> jtrue (get candidate "valid_to") = false -> rows_coherent w ->
  (forall now fresh n, normalize_candidate (Some i) (qdrant_on cfg) now fresh candidate rc = Ok n ->
     already_stored w n x) ->
  same_memories w (write_memory cfg auth_required context candidate rc w).2 /\
  forall r, (write_memory cfg auth_required context candidate rc w).1 = Ok r -> unlogged rc w ->
            get r "status" = s_ "duplicate" \/ get r "status" = s_ "rejected".
Proof.
  intros Hsup Hval Hco Hx. apply write_memory_same. intros now fresh n w1 Hn E1.
  destruct (normalized_current _ _ _ _ _ _ _ Hn Hsup Hval) as [He Hv].
  apply write_normalized_same; [by right|by right|]. intros rc' checks w2 E2 _.
  assert (Hw : mw_episodic w2 ++ mw_semantic w2 = mw_episodic w ++ mw_semantic w).
  { pose proof (E1 CEpisodic) as A1. pose proof (E1 CSemantic) as A2.
    pose proof (E2 CEpisodic) as B1. pose proof (E2 CSemantic) as B2. cbn [rows] in *. congruence. }
  destruct (store_repeated rc' (JObj candidate) n checks w2 x) as [HR HQ]; try done.
  - by eapply normalized_scope.
  - intros d. rewrite Hw. apply Hco.
  - destruct (Hx _ _ _ Hn) as (A & B & C & D). split_and!; [by rewrite Hw|done..].
  - split; [exact HR|]. intros r Hr. left. by apply HQ.
Qed.
End Duplicates.

(** ** A note written twice *)

Section Demo.
#[local] Existing Instance ascii_text.
#[local] Existing Instance plain_crypto.
#[local] Existing Instance ascii_words_chars.
#[local] Existing Instance memory_env.
#[local] Existing Instance silent_qdrant.
#[local] Existing Instance plain_uuid.
#[local] Existing Instance year_dates.

Lemma duplicate_never_stored_witness :
  same_memories demo_noted
    (write_memory (memory_cfg true) true demo_ctx (demo_note "uuid" "the team  deploys on FRIDAYS") [] demo_noted).2.
Proof.
  destruct (duplicate_never_stored (memory_cfg true) true demo_ctx demo_identity eq_refl
    (demo_note "uuid" "the team  deploys on FRIDAYS") [] demo_noted demo_row) as [Hs _].
  - reflexivity.
  - reflexivity.
  - intros d Hd _. apply elem_of_cons in Hd as [->|Hd]; [|by apply not_elem_of_nil in Hd].
    split; vm_compute; reflexivity.
  - intros now fresh n Hn. vm_compute in Hn. injection Hn as <-. split; [by left|].
    split_and!; vm_compute; reflexivity.
  - exact Hs.
Defined.
End Demo.

(** ** Writes that lose or hide a fact

    Sequences of requests under which the write path of
    [src/backend/memory/app/services/memory_service.py] does not do what its comments say,
    evaluated on the small world of [MemoryAdmin]. *)

Section Scenarios.
#[local] Existing Instance ascii_text.
#[local] Existing Instance plain_crypto.
#[local] Existing Instance ascii_words_chars.
#[local] Existing Instance memory_env.
#[local] Existing Instance silent_qdrant.
#[local] Existing Instance plain_uuid.
#[local] Existing Instance year_dates.

Definition submit (ctx candidate request : obj) (w : mworld unit) : outcome py_exn obj * mworld unit :=
  write_memory (memory_cfg false) true ctx candidate request w.

(** The value of a field of an answer. *)
Definition answer (k : string) (r : outcome py_exn obj * mworld unit) : json :=
  match r.1 with Ok o => get o k | Raise _ => JNull end.

Definition explicit : json := JObj [("explicit_user_signal", JBool true)].
Definition preference (key value : string) : obj :=
  [("preference_key", s_ key); ("value", s_ value); ("provenance", explicit)].

Definition values (w : mworld unit) : list (json * json) :=
  map (fun d => (get d "preference_key", get d "value")) (mw_semantic w).

(** A preference given by key and value has no text when its hash is taken.  A new value for
    it, and another preference altogether, are answered as duplicates and dropped. *)
Theorem preference_value_lost :
  let w1 := submit demo_ctx (preference "tone" "formal") [] empty_memory in
  let w2 := submit demo_ctx (preference "tone" "casual") [] w1.2 in
  let w3 := submit demo_ctx (preference "language" "french") [] w2.2 in
  answer "status" w1 = s_ "accepted" /\ answer "status" w2 = s_ "duplicate" /\
  answer "status" w3 = s_ "duplicate" /\ values w3.2 = [(s_ "tone", s_ "formal")].
Proof. by vm_compute. Qed.

(** Deleting one such preference blocks every other one of the owner. *)
Theorem preference_deletion_blocks_others :
  let w1 := submit demo_ctx (preference "tone" "formal" ++ [("id", s_ "p-1")]) [] empty_memory in
  let w2 := (delete_memory (memory_cfg false) true demo_ctx (lit "p-1") w1.2).2 in
  let w3 := submit demo_ctx (preference "language" "french") [] w2 in
  answer "status" w3 = s_ "rejected" /\ answer "tombstone_match" w3 = s_ "exact_content_same_scope".
Proof. by vm_compute. Qed.

Definition worded (key value text : string) : obj := preference key value ++ [("content", s_ text)].

(** A preference that another one superseded is merged into again, and stays history: its
    new value is never current. *)
Theorem superseded_preference_stays_closed :
  let w1 := submit demo_ctx (worded "tone" "formal" "Write formally" ++ [("id", s_ "p-1")]) [] empty_memory in
  let w2 := submit demo_ctx (worded "style" "short" "Answer shortly" ++ [("supersedes", s_ "p-1")]) [] w1.2 in
  let w3 := submit demo_ctx (worded "tone" "casual" "Write casually") [] w2.2 in
  answer "status" w3 = s_ "merged" /\ answer "is_current" w3 = JBool false.
Proof. by vm_compute. Qed.

Definition fact (text : string) : obj := [("content", s_ text)].

(** An identical memory becomes a second active one when the candidate names a memory to
    supersede that does not exist. *)
Theorem duplicate_beside_supersedes :
  let w1 := submit demo_ctx (fact "The team deploys on Fridays") [] empty_memory in
  let w2 := submit demo_ctx (fact "The team deploys on Fridays" ++ [("supersedes", s_ "gone")]) [] w1.2 in
  answer "status" w2 = s_ "accepted" /\ answer "superseded_memory_id" w2 = JNull /\
  map (fun d => (get d "status", get d "valid_to")) (mw_episodic w2.2) =
    [(JStr STATUS_ACTIVE, JNull); (JStr STATUS_ACTIVE, JNull)] /\
  ~ NoDup (map (fun d => get d "content_hash") (mw_episodic w2.2)).
Proof. vm_compute. split_and!; try done. intros [Hn _]%NoDup_cons. apply Hn. by left. Qed.

(** The log is unique in the request identity across tenants: a request identity another
    tenant has used lets the write store its memory and then raise. *)
Theorem request_identity_collides :
  let w1 := submit demo_ctx (fact "The team deploys on Fridays") [("request_id", s_ "req-1")] empty_memory in
  let w2 := submit (memory_context "globex" "bob") (fact "Backups run on Sundays") [("request_id", s_ "req-1")] w1.2 in
  w2.1 = Raise DuplicateKey /\
  map (fun d => (get d "tenant_id", get d "status")) (mw_episodic w2.2) =
    [(s_ "acme", JStr STATUS_ACTIVE); (s_ "globex", JStr STATUS_ACTIVE)].
Proof. by vm_compute. Qed.

(** A memory that names itself is stored and retired in one write, and reported accepted. *)
Theorem self_supersession :
  let w1 := submit demo_ctx (fact "The team deploys on Fridays" ++ [("id", s_ "n-1"); ("supersedes", s_ "n-1")]) []
              empty_memory in
  answer "status" w1 = s_ "accepted" /\ answer "is_current" w1 = JBool true /\
  map (fun d => (get d "status", get d "superseded_by")) (mw_episodic w1.2) = [(JStr STATUS_SUPERSEDED, s_ "n-1")].
Proof. by vm_compute. Qed.

(** A date without an offset in one memory fails the retrievals of its owner. *)
Theorem naive_date_fails_retrieval :
  let w1 := submit demo_ctx (fact "The launch was a success" ++ [("event_at", s_ "2024")]) [] empty_memory in
  let r := get_relevant_memories (memory_cfg false) true demo_ctx [("text", s_ "launch")] w1.2 in
  answer "status" w1 = s_ "accepted" /\ r.1 = TypeError.
Proof. by vm_compute. Qed.
End Scenarios.
