(* ===== verification/MemoryDeletion.v ===== *)
(** * Deleted memories stay deleted

    Deletion and writing composed: once [delete_memory] has answered, a candidate that is the
    same memory, names it, or carries its content, fact or preference is refused, and nothing
    it would have stored exists. *)

From Stdlib Require Import QArith.
From stdpp Require Import base strings sets list.
From S2P Require Import Prelude PyValue Base64 Auth MemoryConsolidation MemoryNormalize MemoryClients MemoryWrite MemoryRetrieve MemoryAdmin MemoryFacts MemoryCompare MemoryWriteSafety.

Local Open Scope string_scope.
Local Open Scope list_scope.
Local Open Scope Z_scope.

Definition same_tombstones {St} (w w' : mworld St) : Prop := mw_tombstones w' = mw_tombstones w.

#[export] Instance same_tombstones_rows {St} : RowsOnly (@same_tombstones St).
Proof.
  split; [split; [done|by intros x y z; unfold same_tombstones; intros -> ->]|].
  intros w w' E. apply (E CTombstones).
Qed.

(** The candidate [n] would bring back the memory [d]. *)
Definition resurrects (n d : obj) : Prop :=
  let agree k := py_eqb (get d k) (get n k) = true in
  agree "owner_id" /\ agree "owner_type" /\ agree "memory_class" /\
  (agree "id" \/
   py_eqb (get d "id") (get n "supersedes") = true \/
   (as_text (get n "memory_class") = SEMANTIC_PREFERENCE /\ jtrue (get n "preference_key") = true /\
    agree "preference_key") \/
   (py_eqb (get d "scope_key" ||| JStr [])%rf (get n "scope_key" ||| JStr [])%rf = true /\
    (agree "content_hash" \/ (jtrue (get n "fact_key") = true /\ agree "fact_key")))).

Ltac in_literal := solve [repeat first [apply list_elem_of_here|apply list_elem_of_further]].

Section Deletion.
Context {St : Type} `{PyText} `{Crypto} `{WordChars} `{MemEnv} `{QdrantHttp St} `{NameUuid} `{PyDates}.
Context (cfg : mem_config) (auth_required : bool) (context : obj) (i : auth_identity).
Context (Hid : identity_from_context auth_required context = Ok (Some i)).

Definition by_id (memory_id : text) : obj -> bool := scope_filter (Some i) [("id", JStr memory_id)].

(** The row a lookup by identity finds. *)
Definition located (w : mworld St) (memory_id : text) (d : obj) : Prop :=
  get d "id" = JStr memory_id /\
  (List.find (by_id memory_id) (mw_episodic w) = Some d \/
   List.find (by_id memory_id) (mw_episodic w) = None /\ List.find (by_id memory_id) (mw_semantic w) = Some d).

(** ** Fields of a deletion identity *)

Lemma tombstone_mine at_ memory_id d : mine i (tombstone_of (Some i) at_ memory_id d) = true.
Proof.
  apply mine_by_fields; unfold tombstone_of, get, get_or, ownership_fields; cbn [map app]; by obj_field.
Qed.

Lemma tombstone_copied at_ memory_id d k :
  k ∈ ["owner_id"; "owner_type"; "memory_class"; "content_hash"; "fact_key"; "preference_key"] ->
  get (tombstone_of (Some i) at_ memory_id d) k = get d k.
Proof.
  intros Hk. unfold tombstone_of, get at 1, get_or. cbn [map app].
  repeat (apply elem_of_cons in Hk as [->|Hk]; [by obj_field|]). by apply not_elem_of_nil in Hk.
Qed.

Lemma tombstone_id at_ memory_id d : get (tombstone_of (Some i) at_ memory_id d) "memory_id" = JStr memory_id.
Proof. unfold tombstone_of, get at 1, get_or. cbn [map app]. by obj_field. Qed.

Lemma tombstone_scope at_ memory_id d :
  get (tombstone_of (Some i) at_ memory_id d) "scope_key" = (get d "scope_key" ||| JStr [])%rf.
Proof. unfold tombstone_of, get at 1, get_or. cbn [map app]. by obj_field. Qed.

Lemma mongo_eq_value k v d : py_eqb (get d k) v = true -> mongo_eq k v d = true.
Proof. intros E. unfold mongo_eq. by rewrite E. Qed.

Lemma mongo_all_app q q' d : mongo_all (q ++ q') d = mongo_all q d && mongo_all q' d.
Proof. apply forallb_app. Qed.

Lemma mongo_one k v d : py_eqb (get d k) v = true -> mongo_all [(k, v)] d = true.
Proof. intros E. unfold mongo_all. cbn. by rewrite mongo_eq_value. Qed.

(** The deletion of [d] matches whatever would bring it back. *)
Lemma tombstone_matches n d at_ memory_id :
  get d "id" = JStr memory_id -> memory_id <> [] -> resurrects n d ->
  exists q rule, (q, rule) ∈ tombstone_queries n /\
    scope_filter (Some i) q (tombstone_of (Some i) at_ memory_id d) = true.
Proof.
  intros Hd Hne (E1 & E2 & E3 & Hrule).
  set (t := tombstone_of (Some i) at_ memory_id d).
  assert (Hc : forall k, k ∈ ["owner_id"; "owner_type"; "memory_class"; "content_hash"; "fact_key"; "preference_key"] ->
            py_eqb (get d k) (get n k) = true -> mongo_all [(k, get n k)] t = true).
  { intros k Hk E. apply mongo_one. unfold t. by rewrite tombstone_copied. }
  assert (Hbase : mongo_all [("owner_id", get n "owner_id"); ("owner_type", get n "owner_type");
                             ("memory_class", get n "memory_class")] t = true).
  { change (mongo_all ([("owner_id", get n "owner_id")] ++ [("owner_type", get n "owner_type")] ++
              [("memory_class", get n "memory_class")]) t = true).
    rewrite !mongo_all_app, !Hc by (assumption || in_literal). done. }
  assert (Hm : mine i t = true) by apply tombstone_mine.
  assert (Hid' : forall v, py_eqb (get d "id") v = true -> jtrue v = true /\ mongo_all [("memory_id", v)] t = true).
  { intros v E. rewrite Hd in E. destruct v; try done. cbn in E. apply bool_decide_eq_true in E as <-.
    split; [by cbn; rewrite bool_decide_false|]. apply mongo_one. unfold t. rewrite tombstone_id. cbn.
    by rewrite bool_decide_true. }
  assert (Hans : forall q rule, (q, rule) ∈ tombstone_queries n -> mongo_all q t = true ->
            exists q rule, (q, rule) ∈ tombstone_queries n /\ scope_filter (Some i) q t = true).
  { intros q rule Hin Hq. exists q, rule. split; [done|]. apply andb_true_iff. by split. }
  unfold tombstone_queries in Hans |- *. cbv zeta in Hans |- *.
  destruct Hrule as [E|[E|[(Ecls & Ep & E)|[Es Ef]]]].
  - destruct (Hid' _ E) as [Ej Eq]. rewrite Ej in Hans |- *.
    eapply Hans; [apply elem_of_app; left; by left|]. by rewrite mongo_all_app, Hbase, Eq.
  - destruct (Hid' _ E) as [Ej Eq]. rewrite Ej in Hans |- *.
    eapply Hans; [do 1 (apply elem_of_app; right); apply elem_of_app; left; by left|].
    by rewrite mongo_all_app, Hbase, Eq.
  - rewrite Ep in Hans |- *. rewrite (bool_decide_true _ Ecls) in Hans |- *.
    eapply Hans; [do 2 (apply elem_of_app; right); apply elem_of_app; left; by left|].
    rewrite mongo_all_app, Hbase. rewrite Hc by (assumption || in_literal). done.
  - assert (Hsb : mongo_all [("scope_key", (get n "scope_key" ||| JStr [])%rf)] t = true).
    { apply mongo_one. unfold t. by rewrite tombstone_scope. }
    destruct Ef as [E|[Ej E]].
    + eapply Hans; [do 3 (apply elem_of_app; right); apply elem_of_app; left; by left|].
      rewrite !mongo_all_app, Hbase, Hsb. rewrite Hc by (assumption || in_literal). done.
    + rewrite Ej in Hans |- *. eapply Hans; [do 4 (apply elem_of_app; right); by left|].
      rewrite !mongo_all_app, Hbase, Hsb. rewrite Hc by (assumption || in_literal). done.
Qed.

(** ** Deletion *)

Lemma find_in_ok c q (w w1 : mworld St) o :
  find_in c (scope_filter (Some i) q) true w = (Ok o, w1) ->
  o = List.find (scope_filter (Some i) q) (rows c w) /\ same_rows w w1.
Proof.
  unfold find_in. intros (f & w2 & Hf & Hk)%bind_ok. apply find_one_ok in Hf as [-> E]. injection Hk as <- <-.
  split; [|done]. destruct (List.find _ _) as [d|] eqn:Ef; [|done].
  apply find_some in Ef as [_ Hm%scope_filter_mine]. apply mine_nonempty in Hm as (kv & rest & ->). done.
Qed.

Lemma find_document_located (w w1 : mworld St) memory_id d o :
  located w memory_id d -> find_memory_document auth_required context memory_id true w = (Ok o, w1) ->
  same_rows w w1 /\ exists c, o = Some (c, d) /\ (c = CEpisodic \/ c = CSemantic).
Proof.
  intros [_ Hloc] (p & w2 & Hp & Hk)%bind_ok. apply (scoped_ok _ _ _ Hid) in Hp as [-> ->].
  apply bind_ok in Hk as (e & w3 & [-> E3]%find_in_ok & Hk). cbn [rows] in Hk. fold (by_id memory_id) in Hk.
  destruct Hloc as [He|[He Hs]]; rewrite He in Hk.
  - injection Hk as <- <-. split; [done|]. exists CEpisodic. by split; [|left].
  - apply bind_ok in Hk as (s & w4 & [-> E4]%find_in_ok & Hk). injection Hk as <- <-.
    split; [by eapply rows_trans|]. exists CSemantic. split; [|by right].
    pose proof (E3 CSemantic) as E. cbn [rows] in E |- *. rewrite E. fold (by_id memory_id). by rewrite Hs.
Qed.

(** The identity of the deletion is stored before anything is removed. *)
Lemma store_tombstone_ok (w w1 : mworld St) memory_id d :
  get d "id" = JStr memory_id -> memory_id <> [] ->
  existsb (scope_filter (Some i) [("memory_id", JStr memory_id)]) (mw_tombstones w) = false ->
  store_deletion_tombstone auth_required context d w = (Ok tt, w1) ->
  exists at_, tombstone_of (Some i) at_ memory_id d ∈ mw_tombstones w1.
Proof.
  intros Hd Hne Hno. unfold store_deletion_tombstone. intros (m & w2 & Hm & Hk)%bind_ok.
  unfold lift, id_of, item in Hm.
  assert (Hitem : obj_get d "id" = Some (JStr memory_id)).
  { unfold get, get_or in Hd. destruct (obj_get d "id"); congruence. }
  rewrite Hitem in Hm. cbn in Hm. injection Hm as <- <-.
  apply bind_ok in Hk as (e & w3 & He & Hk). unfold deletion_tombstone_by_memory_id in He.
  rewrite bool_decide_false in He by done. unfold tombstone_where in He.
  apply bind_ok in He as (p & w4 & Hp & He). apply (scoped_ok _ _ _ Hid) in Hp as [-> ->].
  apply find_one_ok in He as [-> E3]. pose proof (E3 CTombstones) as Et. cbn [rows] in Et, Hk.
  assert (Hnf : List.find (scope_filter (Some i) [("memory_id", JStr memory_id)]) (mw_tombstones w) = None).
  { destruct (List.find _ _) as [t|] eqn:Ef; [|done]. apply find_some in Ef as [Hin Hs].
    apply not_true_iff_false in Hno. destruct Hno. apply existsb_exists. eauto. }
  rewrite Hnf in Hk. apply bind_ok in Hk as (at_ & w5 & Hat & Hk). injection Hat as _ <-.
  apply bind_ok in Hk as (j & w6 & Hj & Hk). unfold current_identity, lift in Hj. rewrite Hid in Hj.
  injection Hj as <- <-. apply bind_ok in Hk as (p & w7 & Hp & Hk). apply (scoped_ok _ _ _ Hid) in Hp as [-> ->].
  unfold upsert_tombstone, db in Hk. destruct (mdb_fault _) as [[]|]; [done|]. cbn in Hk. rewrite Et, Hno in Hk.
  destruct (_ && _) in Hk; [done|]. injection Hk as <-. exists at_. cbn. rewrite Et.
  apply elem_of_app. right. by left.
Qed.

Lemma tomb_update c p f :
  c = CEpisodic \/ c = CSemantic -> ensures (@same_tombstones St) (update_one c p f) (fun _ => True).
Proof. intros Hc. apply ens_db; [apply _|]. intros w. split; [|done]. by destruct Hc as [->| ->]. Qed.
Lemma tomb_delete c p :
  c = CEpisodic \/ c = CSemantic -> ensures (@same_tombstones St) (delete_one c p) (fun _ => True).
Proof. intros Hc. apply ens_db; [apply _|]. intros w. split; [|done]. by destruct Hc as [->| ->]. Qed.
#[local] Hint Resolve tomb_update tomb_delete : memory.

Lemma tomb_remove c memory_id :
  c = CEpisodic \/ c = CSemantic ->
  ensures (@same_tombstones St) (remove_row cfg auth_required context c memory_id) (fun _ => True).
Proof. intros Hc. unfold remove_row. ens_walk. Qed.
#[local] Hint Resolve tomb_remove : memory.

Lemma delete_leaves_tombstone (w w' : mworld St) memory_id d r :
  located w memory_id d -> memory_id <> [] -> memory_status d <> STATUS_DELETED ->
  existsb (scope_filter (Some i) [("memory_id", JStr memory_id)]) (mw_tombstones w) = false ->
  delete_memory cfg auth_required context memory_id w = (Ok r, w') ->
  exists at_, tombstone_of (Some i) at_ memory_id d ∈ mw_tombstones w'.
Proof.
  intros Hloc Hne Hst Hno. unfold delete_memory. intros (u & w1 & Hi & Hk)%bind_ok.
  destruct (ens_ensure_indexes same_rows w) as [E1 _]. rewrite Hi in E1. cbn in E1.
  apply bind_ok in Hk as (o & w2 & Hf & Hk).
  assert (Hloc1 : located w1 memory_id d).
  { destruct Hloc as [Hd Hl]. split; [done|]. pose proof (E1 CEpisodic) as A. pose proof (E1 CSemantic) as B.
    cbn [rows] in A, B. by rewrite A, B. }
  destruct (find_document_located _ _ _ _ _ Hloc1 Hf) as (E2 & c & -> & Hc).
  rewrite bool_decide_false in Hk by done. apply bind_ok in Hk as (v & w3 & Hs & Hk). destruct v.
  destruct (store_tombstone_ok w2 w3 memory_id d) as [at_ Hat]; [by destruct Hloc|done| |done|].
  { pose proof (E1 CTombstones) as A. pose proof (E2 CTombstones) as B. cbn [rows] in A, B. by rewrite B, A. }
  exists at_.
  match type of Hk with ?prog w3 = _ => assert (Hrest : ensures same_tombstones prog (fun _ => True)) end.
  { ens_walk. }
  destruct (Hrest w3) as [HR _]. rewrite Hk in HR. cbn in HR. by rewrite HR.
Qed.

(** C14: A deleted memory does not come back.  After a deletion that answered, completely or
    with the vector still to be removed, every candidate that is the same memory, supersedes
    it, or has its content or its fact in the same scope, or its preference, changes no
    memory whatever the driver and the index do; an answer says rejected. *)
Theorem deleted_stays_deleted (w w' : mworld St) memory_id d r candidate rc :
  located w memory_id d -> memory_id <> [] -> memory_status d <> STATUS_DELETED ->
  existsb (scope_filter (Some i) [("memory_id", JStr memory_id)]) (mw_tombstones w) = false ->
  delete_memory cfg auth_required context memory_id w = (Ok r, w') ->
  (forall now fresh n, normalize_candidate (Some i) (qdrant_on cfg) now fresh candidate rc = Ok n ->
     resurrects n d) ->
  same_memories w' (write_memory cfg auth_required context candidate rc w').2 /\
  forall r', (write_memory cfg auth_required context candidate rc w').1 = Ok r' -> unlogged i rc w' ->
             get r' "status" = s_ "rejected" /\ get r' "memory_id" = JNull.
Proof.
  intros Hloc Hne Hst Hno Hdel Hres.
  destruct (delete_leaves_tombstone _ _ _ _ _ Hloc Hne Hst Hno Hdel) as [at_ Hat].
  apply (write_memory_same _ _ _ _ Hid). intros now fresh n w1 Hn E1.
  eapply write_normalized_same; [done|done|]. intros rc' checks w2 _ Hmatch. exfalso.
  destruct (tombstone_matches n d at_ memory_id) as (q & rule & Hin & Hq); [by destruct Hloc|done|eauto|].
  apply not_false_iff_true in Hq. apply Hq.
  eapply first_tombstone_none; [exact Hid|exact Hmatch|exact Hin|].
  pose proof (E1 CTombstones) as A. cbn [rows] in A. by rewrite A.
Qed.
End Deletion.

(** ** A deployment note, deleted and written again *)

Section Demo.
#[local] Existing Instance ascii_text.
#[local] Existing Instance plain_crypto.
#[local] Existing Instance ascii_words_chars.
#[local] Existing Instance memory_env.
#[local] Existing Instance silent_qdrant.
#[local] Existing Instance plain_uuid.
#[local] Existing Instance year_dates.

Lemma deleted_stays_deleted_witness :
  let w' := (delete_memory (memory_cfg true) true demo_ctx (lit "note-1") demo_noted).2 in
  same_memories w' (write_memory (memory_cfg true) true demo_ctx (demo_note "uuid" "the team  deploys on FRIDAYS") [] w').2.
Proof.
  intros w'.
  destruct (deleted_stays_deleted (memory_cfg true) true demo_ctx demo_identity eq_refl demo_noted w' (lit "note-1")
    demo_row (match (delete_memory (memory_cfg true) true demo_ctx (lit "note-1") demo_noted).1 with
              | Ok r => r | Raise _ => [] end) (demo_note "uuid" "the team  deploys on FRIDAYS") []) as [Hs _].
  - split; [vm_compute; reflexivity|]. left. vm_compute. reflexivity.
  - discriminate.
  - vm_compute. discriminate.
  - vm_compute. reflexivity.
  - vm_compute. reflexivity.
  - intros now fresh n Hn. vm_compute in Hn. injection Hn as <-. vm_compute.
    split_and!; [done..|]. right. right. right. split; [done|]. by left.
  - exact Hs.
Defined.
End Demo.
