(* ===== verification/MemoryConfined.v ===== *)
(** * The boundary of the memory service

    Every operation of [LongTermMemoryService] under an authenticated identity leaves the
    memories, deletion identities and log entries of everyone else as they are. *)

From Stdlib Require Import QArith.
From stdpp Require Import base strings sets list.
From S2P Require Import Prelude PyValue Base64 Auth MemoryConsolidation MemoryNormalize MemoryClients MemoryWrite MemoryRetrieve MemoryAdmin MemoryFacts MemoryCompare.

Local Open Scope string_scope.
Local Open Scope list_scope.
Local Open Scope Z_scope.

(** The operations of the service. *)
Inductive mem_op :=
  | OpWrite (candidate request_context : obj)
  | OpRelevant (query_context : obj)
  | OpListDebug (filters : obj)
  | OpGetAll
  | OpGet (memory_id : text)
  | OpCreate (content category : json) (metadata request_context : obj)
  | OpUpdate (memory_id : text) (content : json) (metadata : obj)
  | OpDelete (memory_id : text)
  | OpDeleteByChat (chat_id : text).

(** Documents that keep the owner of another one. *)
Definition keeps_owner (d d' : obj) : Prop :=
  get d' "tenant_id" = get d "tenant_id" /\ get d' "owner_user_id" = get d "owner_user_id".

Lemma keeps_owner_refl d : keeps_owner d d.
Proof. done. Qed.
Lemma keeps_owner_trans d1 d2 d3 : keeps_owner d1 d2 -> keeps_owner d2 d3 -> keeps_owner d1 d3.
Proof. intros [A B] [C D]. split; congruence. Qed.
Lemma keeps_owner_mine i d d' : keeps_owner d d' -> mine i d = true -> mine i d' = true.
Proof. intros [A B] Hm. by rewrite (mine_fields i d). Qed.

Lemma keeps_owner_set d k v : k <> "tenant_id" -> k <> "owner_user_id" -> keeps_owner d (obj_set d k v).
Proof. intros H1 H2. split; rewrite get_set; by rewrite decide_False. Qed.

Lemma keeps_owner_update d fields :
  NoDup fields.*1 -> obj_get fields "tenant_id" = None -> obj_get fields "owner_user_id" = None ->
  keeps_owner d (obj_update d fields).
Proof. intros Hn H1 H2. split; rewrite get_update by done; [by rewrite H1|by rewrite H2]. Qed.

(** Literal fields beside those of the owner. *)
Ltac literal_fields :=
  apply keeps_owner_update; [repeat constructor; set_solver|by rewrite obj_get_not_in by set_solver..].

#[local] Arguments obj_update : simpl never.
#[local] Arguments obj_set : simpl never.

Section Documents.
Context `{PyText} `{Crypto} `{WordChars}.

Lemma rehash_owner d d' : rehash d = Ok d' -> keeps_owner d d'.
Proof.
  unfold rehash. repeat (destruct (as_str _); cbn [obind]; [|done]).
  destruct (content_hash _ _ _ _); cbn [obind]; [|done]. intros [= <-]. by apply keeps_owner_set.
Qed.

Lemma update_retrieval_owner fields d d' : update_retrieval fields d = Ok d' -> keeps_owner d d'.
Proof.
  unfold update_retrieval. destruct (item d _); cbn; [|done]. destruct (as_dict _); cbn; [|done].
  intros [= <-]. by apply keeps_owner_set.
Qed.

Lemma reinforced_owner cfg existing n now m : reinforced cfg existing n now = Ok m -> keeps_owner existing m.
Proof.
  unfold reinforced. destruct (merged_content existing n) as [content|]; cbn [obind]; [|done].
  repeat (destruct (py_max _ _) as [?|]; cbn [obind]; [|done]).
  intros Hm. eapply keeps_owner_trans with
    (obj_update existing [("content", content); ("confidence", a); ("importance", a0)]); [literal_fields|].
  revert Hm. set (base := obj_update existing _). clearbody base.
  assert (Hb : forall m1, (if py_eqb (get existing "memory_class") (JStr EPISODIC) then
      let* stability := py_max (get_or existing "stability" (JFloat 0)) (get_or n "stability" (JFloat 0)) in
      Ok (obj_update base
            [("stability", stability); ("event_at", (get n "event_at" ||| get existing "event_at")%rf);
             ("expires_at", (get n "expires_at" ||| get existing "expires_at")%rf)])
    else Ok base) = Ok m1 -> keeps_owner base m1).
  { intros m1. destruct (py_eqb _ _); [|by intros [= <-]]. destruct (py_max _ _); cbn [obind]; [|done].
    intros [= <-]. literal_fields. }
  destruct (if py_eqb _ _ then _ else _) as [m1|]; cbn [obind]; [|done]. specialize (Hb m1 eq_refl).
  destruct (list_concat _ _); cbn [obind]; [|done]. destruct (merge_provenance _ _); cbn [obind]; [|done].
  destruct (merged_retrieval_state _ _ _); cbn [obind]; [|done]. intros Hr%rehash_owner.
  eapply keeps_owner_trans; [exact Hb|]. eapply keeps_owner_trans; [|exact Hr]. literal_fields.
Qed.

Lemma merged_preference_owner cfg existing n now m : merged_preference cfg existing n now = Ok m -> keeps_owner existing m.
Proof.
  unfold merged_preference. destruct (if jtrue _ then _ else _) as [content|]; cbn [obind]; [|done].
  repeat (destruct (py_max _ _) as [?|]; cbn [obind]; [|done]).
  destruct (list_concat _ _); cbn [obind]; [|done]. destruct (merge_provenance _ _); cbn [obind]; [|done].
  destruct (merged_retrieval_state _ _ _); cbn [obind]; [|done]. intros Hr%rehash_owner.
  eapply keeps_owner_trans; [|exact Hr]. literal_fields.
Qed.
End Documents.

Section Confined.
Context {St : Type} `{PyText} `{Crypto} `{WordChars} `{MemEnv} `{QdrantHttp St} `{NameUuid} `{PyDates}.
Context (cfg : mem_config) (auth_required : bool) (context : obj) (i : auth_identity).
Context (Hid : identity_from_context auth_required context = Ok (Some i)).

Abbreviation out := (ensures (@outside St i)).
Abbreviation anything := (fun _ => True).

(** ** Calls of the driver *)

Lemma outside_on_rows c f (w : mworld St) :
  foreign i (f (rows c w)) = foreign i (rows c w) -> outside i w (on_rows c f w).
Proof. intros E c'. rewrite rows_on_rows. destruct (decide (c' = c)) as [->|]; done. Qed.

Lemma out_update c q f :
  (forall d, mine i d = true -> mine i (f d) = true) -> out (update_one c (scope_filter (Some i) q) f) anything.
Proof.
  intros Hf. apply ens_db; [apply _|]. intros w. split; [|done]. apply outside_on_rows, foreign_update.
  - intros d. apply scope_filter_mine.
  - intros d Hd%scope_filter_mine. by apply Hf.
Qed.

Lemma out_insert c d : mine i d = true -> out (insert_one c d) anything.
Proof.
  intros Hd. apply ens_db; [apply _|]. intros w. split; [|done]. destruct (_ && _); [done|].
  apply outside_on_rows. rewrite foreign_app. cbn. rewrite Hd. apply app_nil_r.
Qed.

Lemma out_delete c q : out (delete_one c (scope_filter (Some i) q)) anything.
Proof.
  apply ens_db; [apply _|]. intros w. split; [|done]. apply outside_on_rows, foreign_delete_row.
  intros d. apply scope_filter_mine.
Qed.

Lemma out_identity : out (current_identity auth_required context) (fun j => j = Some i).
Proof. eapply ensures_conseq; [apply ens_current_identity; apply _|]. intros j Hj. congruence. Qed.

(** Take the steps that know the caller first. *)
Ltac out_step :=
  first
    [ eapply ensures_bind; [typeclasses eauto|apply (ens_mine _ _ _ Hid); apply _|intros ? ->]
    | eapply ensures_bind; [typeclasses eauto|apply out_identity|intros ? ->]
    | ens_step ].
Ltac out_walk := repeat out_step.

Lemma out_persist_insert c d : out (persist_memory auth_required context c d false) anything.
Proof. unfold persist_memory. out_step. apply out_insert, mine_owned. Qed.

Lemma out_persist_update c d : mine i d = true -> out (persist_memory auth_required context c d true) anything.
Proof. intros Hd. unfold persist_memory. out_step. out_step. apply out_update. intros x Hx. by apply mine_mongo_set. Qed.

Lemma out_retrieval_state d : out (persist_retrieval_state auth_required context d) anything.
Proof.
  unfold persist_retrieval_state. out_walk. apply out_update. intros x Hx. by rewrite mine_set_fields.
Qed.
#[local] Hint Resolve out_persist_insert out_retrieval_state : memory.

Lemma out_failure d status error : out (record_vector_failure cfg auth_required context d status error) anything.
Proof. unfold record_vector_failure. out_walk. Qed.
#[local] Hint Resolve out_failure : memory.

Lemma out_sync d v : out (sync_vector_index cfg auth_required context d v) anything.
Proof. unfold sync_vector_index, embed_memory. out_walk. Qed.
#[local] Hint Resolve out_sync : memory.

Lemma out_log rc snapshot n status memory_id memory_class reason checks indexed error :
  out (log_outcome auth_required context rc snapshot n status memory_id memory_class reason checks indexed error) anything.
Proof.
  unfold log_outcome. cbv zeta. eapply (ensures_bind _ _ _ (fun _ => True)); [out_walk|].
  assert (Hins : forall log_id created,
    out (insert_one CLog
      (let doc := obj_update ([("id", JStr log_id); ("trace_id", get rc "trace_id");
           ("correlation_id", get rc "correlation_id");
           ("owner_id", get rc "owner_id"); ("owner_type", get rc "owner_type");
           ("candidate_snapshot", snapshot)]
           ++ log_fields status memory_id memory_class reason checks indexed error n
           ++ [("created_at", JStr created)]) (ownership_fields (Some i)) in
       if jtrue (get rc "request_id") then obj_set doc "request_id" (get rc "request_id") else doc)) anything).
  { intros. apply out_insert. cbv zeta. destruct (jtrue _); [|apply mine_owned].
    eapply keeps_owner_mine; [|apply mine_owned]. by apply keeps_owner_set. }
  intros [[|kv row]|] _; out_walk; try apply Hins.
  apply out_update. intros x Hx. by rewrite mine_set_fields.
Qed.
#[local] Hint Resolve out_log : memory.

(** ** The write *)

Lemma out_preference n : out (upsert_semantic_preference cfg auth_required context n) anything.
Proof.
  unfold upsert_semantic_preference. out_step.
  eapply ensures_bind; [apply _|apply ens_find_one; apply _|]. intros [[|kv row]|] Hrow; [out_walk| |out_walk].
  out_step. out_step. eapply ensures_bind; [apply _|apply out_persist_update|intros; out_walk].
  eapply keeps_owner_mine; [by eapply merged_preference_owner|]. exact (scope_filter_mine _ _ _ (Hrow _ eq_refl)).
Qed.

Lemma out_reinforce existing n :
  mine i existing = true -> out (reinforce_existing_memory cfg auth_required context existing n) anything.
Proof.
  intros Hm. unfold reinforce_existing_memory. out_step. out_step.
  eapply ensures_bind; [apply _|apply out_persist_update|intros; out_walk].
  eapply keeps_owner_mine; [by eapply reinforced_owner|done].
Qed.

Lemma out_apply n comparable d :
  (forall p, p ∈ comparable -> mine i p.1 = true) -> out (apply_decision cfg auth_required context n comparable d) anything.
Proof.
  intros Hc. unfold apply_decision. destruct (bool_decide _); [apply out_preference|].
  assert (Hcreate : forall n reason, out (create_memory_row auth_required context n reason) anything).
  { intros. unfold create_memory_row. out_walk. }
  assert (Htarget : forall e, decision_target comparable d = Some e -> mine i e = true).
  { intros e. unfold decision_target. destruct (List.find _ _) as [p|] eqn:Ef; [|done]. cbn. intros [= <-].
    apply find_some in Ef as [Hin _]. by apply Hc, list_elem_of_In. }
  destruct (cd_outcome d); try (destruct (decision_target comparable d); apply Hcreate).
  - destruct (decision_target comparable d) as [e|]; [|apply Hcreate].
    eapply ensures_bind; [apply _|by apply out_reinforce, Htarget|intros; out_walk].
  - destruct (decision_target comparable d); (out_step; apply Hcreate).
Qed.

Lemma out_supersession n superseded_id : out (apply_supersession cfg auth_required context n superseded_id) anything.
Proof.
  unfold apply_supersession. cbv zeta. destruct (bool_decide _); [out_walk|].
  eapply ensures_bind; [apply _|apply (ens_find_document _ _ _ Hid); apply _|]. intros [[c d]|] _; [|out_walk].
  out_step. eapply (ensures_bind _ _ _ anything); [out_walk|]. intros valid_to _. out_step.
  eapply ensures_bind; [apply _|apply out_update; intros x Hx; by rewrite mine_set_fields|]. intros _ _.
  eapply (ensures_bind _ _ _ anything); [|intros; out_walk].
  destruct (qdrant_on cfg); [|out_walk]. out_step. case_match; [out_walk|]. out_step.
  apply out_update. intros x Hx. by eapply keeps_owner_mine; [apply keeps_owner_set|].
Qed.

Lemma out_store rc snapshot n checks : out (store_candidate cfg auth_required context rc snapshot n checks) anything.
Proof.
  unfold store_candidate. eapply ensures_bind; [apply _|apply (ens_comparable _ _ _ _ Hid); apply _|]. intros c [_ Hc].
  cbv zeta. destruct (bool_decide _); [out_walk|].
  eapply ensures_bind; [apply _|apply out_apply; by intros p Hp; apply Hc|]. intros st _. out_step.
  eapply (ensures_bind _ _ _ anything); [|intros; out_walk].
  destruct (_ && _); [apply out_supersession|out_walk].
Qed.
#[local] Hint Resolve out_store ens_first_tombstone : memory.

Lemma out_write candidate rc : out (write_memory cfg auth_required context candidate rc) anything.
Proof.
  assert (Hfail : forall A (c : eff (mworld St) A) rc snapshot, out c anything ->
    out (catch c (fun e => if is_exception e then Some (
       log_outcome auth_required context rc snapshot JNull "failed" JNull JNull (exn_text e) [] JNull JNull;;;
       raise (DatabaseError (lit "Failed to write memory: " ++ exn_text e))) else None)) anything).
  { intros A c rc' snapshot Hc. apply ensures_catch; [apply _|exact Hc|]. intros e k. case_match; intros [= <-]. out_walk. }
  assert (Hbody : out (write_body cfg auth_required context candidate rc) anything).
  { unfold write_body. eapply ensures_bind; [apply _|apply Hfail; unfold normalized_for; out_walk|]. intros n _.
    apply Hfail. unfold write_normalized, matching_deletion_tombstone. cbv zeta.
    destruct (evaluate_write_policy n) as [[[] checks] reason]; cbn [negb]; out_walk. }
  unfold write_memory. out_step. eapply (ensures_bind _ _ _ anything); [out_walk|].
  intros [[|kv row]|] _; [exact Hbody| |exact Hbody]. unfold result_from_log. cbv zeta.
  eapply (ensures_bind _ _ _ anything); [|intros; out_walk]. destruct (jtrue _); [|out_walk].
  eapply ensures_bind; [apply _|apply (ens_find_document _ _ _ Hid); apply _|]. intros [[]|] _; out_walk.
Qed.

(** ** Retrieval and administration *)

Lemma out_active q : out (active_memory_documents auth_required context q) anything.
Proof. eapply ensures_conseq; [apply (ens_active _ _ _ Hid); apply _|done]. Qed.
Lemma out_all t : out (all_memory_documents auth_required context t) anything.
Proof. eapply ensures_conseq; [apply (ens_all_documents _ _ _ Hid); apply _|done]. Qed.
Lemma out_find memory_id t : out (find_memory_document auth_required context memory_id t) anything.
Proof. eapply ensures_conseq; [apply (ens_find_document _ _ _ Hid); apply _|done]. Qed.
#[local] Hint Resolve out_active out_all out_find out_write out_delete : memory.

Lemma out_touch t memory_id : out (touch auth_required context t memory_id) anything.
Proof.
  unfold touch. out_step. case_match; [|out_walk]. case_match. out_step. apply out_update. intros x Hx.
  by eapply keeps_owner_mine; [apply keeps_owner_set|].
Qed.

Lemma out_last_accessed ids : out (update_last_accessed auth_required context ids) anything.
Proof.
  unfold update_last_accessed. out_step. induction ids as [|x ids IH]; cbn [iterM]; [out_walk|].
  eapply ensures_bind; [apply _|apply out_touch|]. intros. exact IH.
Qed.

Lemma out_rank_all k as_of tokens scores docs : out (rank_all k as_of tokens scores docs) anything.
Proof. induction docs as [|d docs IH]; cbn [rank_all]; out_walk. Qed.

Lemma out_candidates t owner_id owner_type limit :
  out (semantic_candidates cfg auth_required context t owner_id owner_type limit) anything.
Proof. unfold semantic_candidates, embed_query. out_walk. Qed.
#[local] Hint Resolve out_last_accessed out_rank_all out_candidates : memory.

Lemma out_relevant q : out (get_relevant_memories cfg auth_required context q) anything.
Proof. unfold get_relevant_memories, relevant. out_walk. Qed.

Lemma out_list_debug f : out (list_memory_for_debug auth_required context f) anything.
Proof. unfold list_memory_for_debug. out_walk. Qed.

Lemma out_get memory_id : out (get_memory auth_required context memory_id) anything.
Proof. unfold get_memory. out_walk. Qed.
#[local] Hint Resolve out_get : memory.

Lemma out_create content category metadata rc :
  out (create_memory cfg auth_required context content category metadata rc) anything.
Proof. unfold create_memory. out_walk. Qed.

Lemma set_if_owner m k v d : k <> "tenant_id" -> k <> "owner_user_id" -> keeps_owner d (set_if m k v d).
Proof. intros. unfold set_if. destruct (has_key m k); [by apply keeps_owner_set|done]. Qed.

Lemma with_content_owner content d d' : with_content content d = Ok d' -> keeps_owner d d'.
Proof.
  unfold with_content. cbv zeta. destruct (item _ _); cbn [obind]; [|done].
  destruct (list_concat _ _); cbn [obind]; [|done].
  destruct (update_retrieval _ _) as [d1|] eqn:E1; cbn [obind]; [|done]. intros E2%rehash_owner.
  apply update_retrieval_owner in E1. eapply keeps_owner_trans; [|exact E2].
  eapply keeps_owner_trans; [|exact E1]. by apply keeps_owner_set.
Qed.

Lemma with_metadata_owner m d d' : with_metadata m d = Ok d' -> keeps_owner d d'.
Proof.
  unfold with_metadata. destruct (negb _); [by intros [= <-]|]. cbv zeta.
  set (d1 := set_if m "tags" _ d). assert (H1' : keeps_owner d d1) by by apply set_if_owner.
  set (step := match obj_get m "provenance" with Some (JObj p) => _ | _ => Ok d1 end).
  assert (H2' : forall d2, step = Ok d2 -> keeps_owner d1 d2).
  { intros d2. unfold step. repeat case_match; try (by intros [= <-]).
    destruct (merge_provenance _ _); cbn [obind]; [|done]. intros [= <-]. by apply keeps_owner_set. }
  destruct step as [d2|]; cbn [obind]; [|done]. specialize (H2' d2 eq_refl).
  destruct (item d2 _); cbn [obind]; [|done]. intros Hd.
  eapply keeps_owner_trans; [exact H1'|]. eapply keeps_owner_trans; [exact H2'|]. revert Hd.
  destruct (py_eqb _ _); intros [= <-].
  - eapply keeps_owner_trans; [|by apply set_if_owner]. eapply keeps_owner_trans; [|by apply set_if_owner].
    destruct (has_key m "value"); [literal_fields|done].
  - eapply keeps_owner_trans; [|by apply set_if_owner]. eapply keeps_owner_trans; [|by apply set_if_owner].
    by apply set_if_owner.
Qed.

Lemma out_update_memory memory_id content m : out (update_memory cfg auth_required context memory_id content m) anything.
Proof.
  unfold update_memory. eapply ensures_bind; [apply _|apply (ens_find_document _ _ _ Hid); apply _|].
  intros [[c d]|] Hd; [|out_walk]. destruct (Hd c d eq_refl) as [_ Hm%scope_filter_mine].
  apply ensures_lift_bind; [apply _|]. intros u1 E1. apply ensures_lift_bind; [apply _|]. intros u2 E2. out_step.
  apply ensures_lift_bind; [apply _|]. intros u3 E3. out_step.
  assert (Hu : mine i u3 = true).
  { apply with_metadata_owner in E2. eapply keeps_owner_mine; [|exact Hm].
    eapply keeps_owner_trans; [|eapply keeps_owner_trans; [exact E2|]].
    - destruct (is_none content); [by injection E1 as <-|by eapply with_content_owner].
    - match type of E3 with (if _ then _ else Ok ?u) = _ =>
        assert (keeps_owner u2 u) as Hk by literal_fields; eapply keeps_owner_trans; [exact Hk|] end.
      destruct (_ && _); [by eapply update_retrieval_owner|by injection E3 as <-]. }
  eapply ensures_bind; [apply _|apply out_update; intros x Hx; by apply mine_mongo_set|]. intros _ _. out_walk.
Qed.

Lemma out_store_tombstone d : out (store_deletion_tombstone auth_required context d) anything.
Proof.
  unfold store_deletion_tombstone, deletion_tombstone_by_memory_id, tombstone_where. out_step.
  eapply (ensures_bind _ _ _ anything); [out_walk|].
  assert (Hup : forall p at_ memory_id, out (upsert_tombstone p (tombstone_of (Some i) at_ memory_id d)) anything).
  { intros. apply ens_db; [apply _|]. intros w. split; [|done]. destruct (existsb _ _); [done|].
    destruct (_ && _); [done|]. apply (outside_on_rows CTombstones). rewrite foreign_app. cbn -[tombstone_of].
    assert (Hm : mine i (tombstone_of (Some i) at_ memory_id d) = true); [|by rewrite Hm, app_nil_r].
    apply mine_by_fields; unfold tombstone_of, get, get_or, ownership_fields; cbn [map app]; by obj_field. }
  intros [[|kv row]|] _; out_walk; apply Hup.
Qed.

Lemma out_remove c memory_id : out (remove_row cfg auth_required context c memory_id) anything.
Proof. unfold remove_row. out_walk. Qed.
#[local] Hint Resolve out_store_tombstone out_remove : memory.

Lemma out_delete_memory memory_id : out (delete_memory cfg auth_required context memory_id) anything.
Proof.
  unfold delete_memory. out_step. out_step.
  assert (Hmark : forall c q deleted_at updated, out (update_one c (scope_filter (Some i) q) (fun x =>
            set_retrieval "embedding_status" (JStr EMB_DELETE_PENDING)
              (mongo_set x [("status", JStr STATUS_DELETED); ("deleted_at", JStr deleted_at);
                            ("updated_at", JStr updated)]))) anything).
  { intros. apply out_update. intros x Hx. eapply keeps_owner_mine; [apply keeps_owner_set; done|].
    by rewrite mine_set_fields. }
  case_match; [case_match|].
  - destruct (bool_decide _); [out_walk|]. out_step. destruct (qdrant_on cfg); [|out_walk].
    out_step. case_match; out_walk.
  - unfold deletion_tombstone_by_memory_id, tombstone_where. out_walk.
Qed.

Lemma out_delete_chat chat_id : out (delete_memories_by_chat_id cfg auth_required context chat_id) anything.
Proof.
  unfold delete_memories_by_chat_id. out_step. generalize 0. rename a into docs.
  induction docs as [|d docs IH]; intros n; cbn [foldM]; [out_walk|].
  eapply (ensures_bind _ _ _ anything); [|intros; apply IH].
  out_step. destruct (a : bool); [|out_walk]. out_step. apply ensures_catch; [apply _| |].
  - eapply ensures_bind; [apply _|apply out_delete_memory|intros; out_walk].
  - intros e k. case_match; intros [= <-]. out_walk.
Qed.

Definition discard {A} (c : eff (mworld St) A) : eff (mworld St) unit := c;;; ret tt.

(** An operation of the service, its answer left out. *)
Definition run_op (op : mem_op) : eff (mworld St) unit :=
  match op with
  | OpWrite candidate rc => discard (write_memory cfg auth_required context candidate rc)
  | OpRelevant q => discard (get_relevant_memories cfg auth_required context q)
  | OpListDebug f => discard (list_memory_for_debug auth_required context f)
  | OpGetAll => discard (get_all_memories auth_required context)
  | OpGet memory_id => discard (get_memory auth_required context memory_id)
  | OpCreate content category metadata rc =>
      discard (create_memory cfg auth_required context content category metadata rc)
  | OpUpdate memory_id content metadata => discard (update_memory cfg auth_required context memory_id content metadata)
  | OpDelete memory_id => discard (delete_memory cfg auth_required context memory_id)
  | OpDeleteByChat chat_id => discard (delete_memories_by_chat_id cfg auth_required context chat_id)
  end.

Lemma out_discard {A} (c : eff (mworld St) A) : out c anything -> out (discard c) anything.
Proof. intros Hc. unfold discard. eapply ensures_bind; [apply _|exact Hc|]. intros. out_walk. Qed.

Lemma out_run_op op : out (run_op op) anything.
Proof.
  destruct op; cbn [run_op]; apply out_discard.
  - apply out_write.
  - apply out_relevant.
  - apply out_list_debug.
  - unfold get_all_memories. out_walk.
  - apply out_get.
  - apply out_create.
  - apply out_update_memory.
  - apply out_delete_memory.
  - apply out_delete_chat.
Qed.
End Confined.

(** ** Without an identity *)

Section Anonymous.
Context {St : Type} `{PyText} `{Crypto} `{WordChars} `{MemEnv} `{QdrantHttp St} `{NameUuid} `{PyDates}.
Context (cfg : mem_config) (auth_required : bool) (context : obj) (error : py_exn).
Context (Hno : identity_from_context auth_required context = Raise error).

Abbreviation ens := (ensures (@same_rows St)).
Abbreviation refused := (fun _ => False).

Lemma anon_identity : ens (current_identity auth_required context) refused.
Proof. apply ensures_lift; [apply _|]. rewrite Hno. done. Qed.
Lemma anon_scoped q : ens (scoped auth_required context q) refused.
Proof. unfold scoped. eapply ensures_bind; [apply _|apply anon_identity|done]. Qed.

(** A program that asks for the identity first. *)
Lemma anon_first {A B} (c : eff (mworld St) A) (k : A -> eff (mworld St) B) :
  ens c refused -> ens (bind c k) refused.
Proof. intros Hc. eapply ensures_bind; [apply _|exact Hc|done]. Qed.
Lemma anon_after {A B} (c : eff (mworld St) A) (k : A -> eff (mworld St) B) :
  ens c (fun _ => True) -> (forall a, ens (k a) refused) -> ens (bind c k) refused.
Proof. intros Hc Hk. eapply ensures_bind; [apply _|exact Hc|auto]. Qed.

#[local] Hint Resolve anon_identity anon_scoped anon_first : memory.

Lemma anon_find memory_id t : ens (find_memory_document auth_required context memory_id t) refused.
Proof. unfold find_memory_document. apply anon_first, anon_scoped. Qed.
Lemma anon_all t : ens (all_memory_documents auth_required context t) refused.
Proof. unfold all_memory_documents. apply anon_first, anon_scoped. Qed.

Lemma anon_log rc snapshot n status memory_id memory_class reason checks indexed error' :
  ens (log_outcome auth_required context rc snapshot n status memory_id memory_class reason checks indexed error') refused.
Proof.
  unfold log_outcome. cbv zeta. destruct (jtrue (get rc "request_id")); [apply anon_first, anon_first, anon_scoped|].
  apply anon_after; [by apply ensures_ret; [apply _|]|]. intros o.
  assert (Hins : forall k : text -> text -> option auth_identity -> eff (mworld St) unit,
    ens (log_id <-- interact new_uuid4; created <-- now_fn; i <-- current_identity auth_required context;
         k log_id created i) refused).
  { intros k. apply anon_after; [apply ens_interact; apply _|]. intros. apply anon_after; [apply ens_interact; apply _|].
    intros. apply anon_first, anon_identity. }
  destruct o as [[|kv row]|]; [apply Hins| |apply Hins].
  apply anon_after; [apply ensures_lift; [apply _|done]|]. intros. apply anon_first, anon_scoped.
Qed.

Lemma anon_write candidate rc : ens (write_memory cfg auth_required context candidate rc) refused.
Proof.
  unfold write_memory. apply anon_after; [apply ens_ensure_indexes; apply _|]. intros _. cbv zeta.
  destruct (jtrue (get rc "request_id")); [apply anon_first, anon_first, anon_scoped|].
  eapply (ensures_bind _ _ _ (fun o => o = None)); [by apply ensures_ret; [apply _|]|]. intros o ->.
  unfold write_body. apply anon_first. apply ensures_catch; [apply _| |].
  - unfold normalized_for. apply anon_first, anon_identity.
  - intros e k. case_match; intros [= <-]. apply anon_first, anon_log.
Qed.

Lemma anonymous_op op : ens (run_op cfg auth_required context op) refused.
Proof.
  assert (Hix : ens ensure_indexes (fun _ => True)) by (apply ens_ensure_indexes; apply _).
  destruct op; cbn [run_op]; apply anon_first.
  - apply anon_write.
  - unfold get_relevant_memories. apply anon_after; [exact Hix|]. intros _. apply anon_first, anon_identity.
  - unfold list_memory_for_debug. apply anon_after; [exact Hix|]. intros _. apply anon_first, anon_identity.
  - unfold get_all_memories. apply anon_after; [exact Hix|]. intros _. apply anon_first, anon_all.
  - unfold get_memory. apply anon_after; [exact Hix|]. intros _. apply anon_first, anon_find.
  - apply anon_first, anon_write.
  - apply anon_first, anon_find.
  - unfold delete_memory. apply anon_after; [exact Hix|]. intros _. apply anon_first, anon_find.
  - apply anon_first, anon_all.
Qed.
End Anonymous.

(** A request: who makes it, and what is asked. *)
Record mem_request := mkRequest { mr_context : obj; mr_op : mem_op }.

Section Runs.
Context {St : Type} `{PyText} `{Crypto} `{WordChars} `{MemEnv} `{QdrantHttp St} `{NameUuid} `{PyDates}.
Context (cfg : mem_config).

(** A service that requires authentication handles requests one after the other; a request
    that raises leaves what it did. *)
Definition serve (w : mworld St) (r : mem_request) : mworld St := (run_op cfg true (mr_context r) (mr_op r) w).2.
Definition serve_all (w : mworld St) (rs : list mem_request) : mworld St := foldl serve w rs.

(** The rows of one user of one tenant. *)
Definition owned (i : auth_identity) (d : obj) : bool :=
  py_eqb (get d "tenant_id") (JStr (ai_tenant_id i)) && py_eqb (get d "owner_user_id") (JStr (ai_user_id i)).
Definition rows_of (i : auth_identity) (c : coll) (w : mworld St) : list obj := List.filter (owned i) (rows c w).

Definition different (i j : auth_identity) : Prop :=
  ai_tenant_id j <> ai_tenant_id i \/ ai_user_id j <> ai_user_id i.

Lemma owned_foreign i j d : different i j -> owned i d = true -> mine j d = false.
Proof.
  intros Hd [H1'%py_eqb_str H2'%py_eqb_str]%andb_true_iff. unfold mine, mongo_all, mongo_eq.
  cbn [boundary forallb fst snd]. rewrite H1', H2'. cbn. destruct Hd; [by rewrite bool_decide_false by congruence|].
  rewrite (bool_decide_false (ai_user_id i = _)) by congruence. cbn. by rewrite andb_false_r.
Qed.

Lemma rows_of_foreign i j l :
  different i j -> List.filter (owned i) l = List.filter (owned i) (foreign j l).
Proof.
  intros Hd. unfold foreign. induction l as [|d l IH]; cbn; [done|]. destruct (owned i d) eqn:E.
  - rewrite (owned_foreign i j d Hd E). cbn. rewrite E. by f_equal.
  - destruct (negb (mine j d)); cbn; [by rewrite E|done].
Qed.

(** A request of another user. *)
Lemma serve_other i w r c :
  (forall j, identity_from_context true (mr_context r) = Ok (Some j) -> different i j) ->
  rows_of i c (serve w r) = rows_of i c w.
Proof.
  intros Hj. unfold serve, rows_of. destruct (identity_from_context true (mr_context r)) as [[j|]|e] eqn:E.
  - specialize (Hj j eq_refl). rewrite (rows_of_foreign i j (rows c w)), (rows_of_foreign i j (rows c _)) by done.
    destruct (out_run_op cfg true (mr_context r) j E (mr_op r) w) as [HR _]. by rewrite (HR c).
  - exfalso. revert E. unfold identity_from_context. case_match; [done|]. by destruct (from_mapping _).
  - destruct (anonymous_op cfg true (mr_context r) e E (mr_op r) w) as [HR _]. by rewrite (HR c).
Qed.

(** C13: Requests of others never touch the memories, the deletion identities and the log of a
    user: after any sequence of operations by other users, of the same or another tenant,
    and by callers without a valid identity, with any faults of the driver and any answers
    of the index, the rows of the user are what they were.  (The reconciliation action is
    not among these operations.) *)
Theorem memory_isolation (i : auth_identity) (w : mworld St) (rs : list mem_request) c :
  (forall r j, r ∈ rs -> identity_from_context true (mr_context r) = Ok (Some j) -> different i j) ->
  rows_of i c (serve_all w rs) = rows_of i c w.
Proof.
  unfold serve_all. revert w. induction rs as [|r rs IH]; intros w Hrs; cbn [foldl]; [done|].
  rewrite IH by (intros; eapply Hrs; [by right|done]). apply serve_other. intros j. apply Hrs. by left.
Qed.
End Runs.

(** ** Two users of one tenant *)

Section Demo.
#[local] Existing Instance ascii_text.
#[local] Existing Instance plain_crypto.
#[local] Existing Instance ascii_words_chars.
#[local] Existing Instance memory_env.
#[local] Existing Instance silent_qdrant.
#[local] Existing Instance plain_uuid.
#[local] Existing Instance year_dates.

Definition bob_requests : list mem_request :=
  [mkRequest (memory_context "acme" "bob") (OpDelete (lit "note-1"));
   mkRequest (memory_context "acme" "bob") (OpUpdate (lit "note-1") (s_ "changed") []);
   mkRequest [] (OpDelete (lit "note-1"));
   mkRequest (memory_context "acme" "bob") (OpWrite (demo_note "note-1" "The team deploys on Mondays") [])].

Lemma memory_isolation_witness :
  rows_of demo_identity CEpisodic (serve_all (memory_cfg true) demo_noted bob_requests) = [demo_row] /\
  length (mw_episodic (serve_all (memory_cfg true) demo_noted bob_requests)) = 2%nat.
Proof.
  split; [|vm_compute; reflexivity].
  rewrite (memory_isolation (memory_cfg true) demo_identity demo_noted bob_requests CEpisodic); [vm_compute; reflexivity|].
  intros r j Hr Hj. right.
  repeat (apply elem_of_cons in Hr as [->|Hr]; [vm_compute in Hj; try discriminate; injection Hj as <-; discriminate|]).
  by apply not_elem_of_nil in Hr.
Defined.
End Demo.
