(* ===== verification/MemoryReplay.v ===== *)
(** * Replayed writes

    A write that answered under a request identity is answered from the log when it is
    repeated: nothing is stored again, and the outcome is the one reported first. *)

From Stdlib Require Import QArith.
From stdpp Require Import base strings sets list.
From S2P Require Import Prelude PyValue Base64 Auth MemoryConsolidation MemoryNormalize MemoryClients MemoryWrite MemoryRetrieve MemoryAdmin MemoryFacts MemoryCompare MemoryWriteSafety.

Local Open Scope string_scope.
Local Open Scope list_scope.
Local Open Scope Z_scope.

Definition same_log {St} (w w' : mworld St) : Prop := mw_log w' = mw_log w.

#[export] Instance same_log_rows {St} : RowsOnly (@same_log St).
Proof.
  split; [split; [done|by intros x y z; unfold same_log; intros -> ->]|].
  intros w w' E. apply (E CLog).
Qed.

Lemma existsb_find_none {A} (f : A -> bool) l : existsb f l = false -> List.find f l = None.
Proof. induction l as [|x l IH]; cbn; [done|]. destruct (f x); [done|exact IH]. Qed.

(** A handler that raises answers nothing. *)
Lemma catch_raises_ok {W A} (c : eff W A) h w a w' :
  (forall e k w0, h e = Some k -> forall b w1, k w0 <> (Ok b, w1)) -> catch c h w = (Ok a, w') -> c w = (Ok a, w').
Proof.
  intros Hh. rewrite catch_run. destruct (c w) as [[x|e] w1]; [done|]. destruct (h e) as [k|] eqn:E; [|done].
  intros Hk. by destruct (Hh e k w1 E a w').
Qed.

Lemma then_raise {W A B} (c : eff W A) e w (b : B) w1 : (c;;; raise e) w <> (Ok b, w1).
Proof. rewrite bind_run. by destruct (c w) as [[]]. Qed.

(** From a given world: the rows stay and an answer satisfies [Q]. *)
Definition ensures_from {St A} (w : mworld St) (c : eff (mworld St) A) (Q : A -> Prop) : Prop :=
  same_rows w (c w).2 /\ forall a, (c w).1 = Ok a -> Q a.

Lemma from_bind {St A B} (c : eff (mworld St) A) (k : A -> eff (mworld St) B) w (P : A -> Prop) (Q : B -> Prop) :
  ensures same_rows c P ->
  (forall a w1, same_rows w w1 -> c w = (Ok a, w1) -> ensures_from w1 (k a) Q) -> ensures_from w (bind c k) Q.
Proof.
  intros Hc Hk. destruct (Hc w) as [HR _]. unfold ensures_from. rewrite bind_run.
  destruct (c w) as [[a|e] w1] eqn:E; cbn in *; [|by split].
  destruct (Hk a w1 HR eq_refl) as [HR' HQ]. split; [by etrans|done].
Qed.

Section Replay.
Context {St : Type} `{PyText} `{Crypto} `{WordChars} `{MemEnv} `{QdrantHttp St} `{NameUuid} `{PyDates}.
Context (cfg : mem_config) (auth_required : bool) (context : obj) (i : auth_identity).
Context (Hid : identity_from_context auth_required context = Ok (Some i)).

Abbreviation logs := (ensures (@same_log St)).
Abbreviation anything := (fun _ => True).

(** ** Storing a memory does not write the log *)

Lemma logs_update c p f : c <> CLog -> logs (update_one c p f) anything.
Proof. intros Hc. apply ens_db; [apply _|]. intros w. split; [|done]. by destruct c. Qed.
Lemma logs_insert c d : c <> CLog -> logs (insert_one c d) anything.
Proof. intros Hc. apply ens_db; [apply _|]. intros w. split; [|done]. destruct (_ && _); [done|]. by destruct c. Qed.
#[local] Hint Resolve logs_update logs_insert : memory.
#[local] Hint Extern 1 (_ <> CLog) => discriminate : memory.

Lemma logs_persist c d u : c <> CLog -> logs (persist_memory auth_required context c d u) anything.
Proof. intros Hc. unfold persist_memory. ens_walk. Qed.
#[local] Hint Resolve logs_persist : memory.
Lemma logs_retrieval d : logs (persist_retrieval_state auth_required context d) anything.
Proof. unfold persist_retrieval_state. ens_walk. apply logs_update. by destruct (py_eqb _ _). Qed.
#[local] Hint Resolve logs_retrieval : memory.
Lemma logs_failure d status error : logs (record_vector_failure cfg auth_required context d status error) anything.
Proof. unfold record_vector_failure. ens_walk. Qed.
#[local] Hint Resolve logs_failure : memory.
Lemma logs_sync d v : logs (sync_vector_index cfg auth_required context d v) anything.
Proof. unfold sync_vector_index, embed_memory. ens_walk. Qed.
Lemma logs_preference n : logs (upsert_semantic_preference cfg auth_required context n) anything.
Proof. unfold upsert_semantic_preference. ens_walk. Qed.
Lemma logs_create n reason : logs (create_memory_row auth_required context n reason) anything.
Proof. unfold create_memory_row. ens_walk. Qed.
#[local] Hint Resolve logs_sync logs_preference logs_create : memory.
Lemma logs_reinforce existing n : logs (reinforce_existing_memory cfg auth_required context existing n) anything.
Proof.
  unfold reinforce_existing_memory. ens_step. ens_step.
  eapply ensures_bind; [apply _|apply logs_persist; unfold collection_for; by destruct (bool_decide _)|].
  intros. ens_walk.
Qed.
#[local] Hint Resolve logs_reinforce : memory.
Lemma logs_apply n comparable d : logs (apply_decision cfg auth_required context n comparable d) anything.
Proof. unfold apply_decision. ens_walk. Qed.

Lemma logs_supersession n superseded_id : logs (apply_supersession cfg auth_required context n superseded_id) anything.
Proof.
  unfold apply_supersession. cbv zeta. destruct (bool_decide _); [ens_walk|].
  eapply ensures_bind; [apply _|apply (ens_find_document _ _ _ Hid); apply _|]. intros [[c d]|] Hc; [|ens_walk].
  destruct (Hc c d eq_refl) as [Hc' _]. assert (Hne : c <> CLog) by by destruct Hc' as [->| ->]. ens_walk.
Qed.

(** ** Logged outcomes *)

(** The row of an outcome. *)
Definition logs_outcome (rc : obj) (status memory_id reason : json) (row : obj) : Prop :=
  scope_filter (Some i) [("request_id", get rc "request_id")] row = true /\
  get row "status" = status /\ get row "memory_id" = memory_id /\ get row "reason" = reason.

(** The world after a write that was answered: the log has one more row, the answer. *)
Definition answered (rc : obj) (w w' : mworld St) (r : obj) : Prop :=
  exists row, mw_log w' = mw_log w ++ [row] /\
    logs_outcome rc (get r "status") (get r "memory_id") (get r "reason") row.

Lemma log_answers rc snapshot n status memory_id memory_class reason checks indexed error key (w w' : mworld St) :
  get rc "request_id" = JStr key -> key <> [] -> unlogged i rc w ->
  log_outcome auth_required context rc snapshot n status memory_id memory_class reason checks indexed error w = (Ok tt, w') ->
  exists row, mw_log w' = mw_log w ++ [row] /\ logs_outcome rc (s_ status) memory_id (JStr reason) row.
Proof.
  intros Hk Hne Hun. unfold log_outcome. cbv zeta.
  assert (Ht : jtrue (get rc "request_id") = true) by (rewrite Hk; cbn; by rewrite bool_decide_false).
  rewrite Ht. intros (o & w1 & Ho & Hrest)%bind_ok.
  apply bind_ok in Ho as (p & w2 & Hp & Hf). apply (scoped_ok _ _ _ Hid) in Hp as [-> ->].
  apply find_one_ok in Hf as [-> E1]. cbn [rows] in Hrest.
  pose proof (existsb_find_none _ _ (Hun Ht)) as Hnone.
  rewrite Hnone in Hrest. apply bind_ok in Hrest as (log_id & w3 & [= _ <-] & Hrest).
  apply bind_ok in Hrest as (created & w4 & [= _ <-] & Hrest).
  apply bind_ok in Hrest as (j & w5 & Hj & Hrest). unfold current_identity, lift in Hj. rewrite Hid in Hj.
  injection Hj as <- <-. set (row := obj_set _ "request_id" (get rc "request_id")) in Hrest.
  unfold insert_one, db in Hrest. destruct (mdb_fault _) as [[]|]; [done|]. destruct (_ && _) in Hrest; [done|].
  injection Hrest as <-. exists row. pose proof (E1 CLog) as El. cbn [rows] in El.
  split; [by cbn; rewrite El|].
  assert (Hget : forall k, k <> "request_id" -> k ∉ (ownership_fields (Some i)).*1 ->
            get row k = get ([("id", JStr log_id); ("trace_id", get rc "trace_id");
           ("correlation_id", get rc "correlation_id");
           ("owner_id", get rc "owner_id"); ("owner_type", get rc "owner_type");
           ("candidate_snapshot", snapshot)] ++ log_fields status memory_id memory_class reason checks indexed error n
           ++ [("created_at", JStr created)]) k).
  { intros k H1' H2'. unfold row. rewrite get_set, decide_False by done.
    rewrite get_update by apply ownership_nodup. by rewrite obj_get_not_in. }
  unfold logs_outcome. rewrite !Hget by (done || (cbn; set_solver)). split.
  - apply andb_true_iff. split.
    + change (mine i row = true). apply mine_by_fields; unfold row; rewrite get_set, decide_False by done;
        (rewrite get_update by apply ownership_nodup); unfold ownership_fields; by obj_field.
    + unfold mongo_all. cbn [forallb fst snd]. unfold mongo_eq, row. rewrite get_set, decide_True by done.
      rewrite Hk. cbn. by rewrite bool_decide_true.
  - unfold get, get_or, log_fields. cbn [app]. split_and!; by obj_field.
Qed.

(** The owner of a context does not change the request. *)
Lemma with_owner_request rc n : get (with_owner rc n) "request_id" = get rc "request_id".
Proof.
  unfold with_owner, obj_setdefault. repeat (destruct (has_key _ _)); rewrite ?get_set, ?decide_False by done; done.
Qed.

Lemma unlogged_rows rc rc' (w w1 : mworld St) :
  get rc' "request_id" = get rc "request_id" -> same_log w w1 -> unlogged i rc w -> unlogged i rc' w1.
Proof. unfold unlogged, same_log. by intros -> ->. Qed.

Lemma answered_log rc rc' (w w1 w' : mworld St) r :
  get rc' "request_id" = get rc "request_id" -> same_log w w1 -> answered rc' w1 w' r -> answered rc w w' r.
Proof. unfold answered, logs_outcome, same_log. by intros -> ->. Qed.

Lemma logged_before {A} (c : eff (mworld St) A) (Q : A -> Prop) w a w1 : logs c Q -> c w = (Ok a, w1) -> same_log w w1.
Proof. intros Hc E. destruct (Hc w) as [HR _]. by rewrite E in HR. Qed.

Section Answered.
Context (key : text) (rc : obj).
Context (Hk : get rc "request_id" = JStr key) (Hne : key <> []).

Lemma store_answers snapshot n checks (w w' : mworld St) r :
  unlogged i rc w -> store_candidate cfg auth_required context rc snapshot n checks w = (Ok r, w') -> answered rc w w' r.
Proof.
  intros Hun. unfold store_candidate. intros (c & w1 & Hc & Hrest)%bind_ok.
  assert (E1 : same_log w w1) by (eapply logged_before; [|exact Hc]; apply (ens_comparable _ _ _ _ Hid); apply _).
  cbv zeta in Hrest. eapply answered_log; [done|exact E1|]. pose proof (unlogged_rows rc rc w w1 eq_refl E1 Hun) as Hun1.
  destruct (bool_decide _) in Hrest.
  - apply bind_ok in Hrest as ([] & w2 & Hl & Hrest). destruct (log_answers _ _ _ _ _ _ _ _ _ _ _ _ _ Hk Hne Hun1 Hl)
      as (row & Hrow & Hout). apply bind_ok in Hrest as (ret' & w3 & [= _ <-] & [= <- <-]). by exists row.
  - apply bind_ok in Hrest as (st & w2 & Hst & Hrest).
    assert (E2 : same_log w1 w2) by (eapply logged_before; [|exact Hst]; apply logs_apply).
    apply bind_ok in Hrest as (stored_id & w3 & [= Hi <-] & Hrest).
    apply bind_ok in Hrest as (sup & w4 & Hsup & Hrest).
    assert (E3 : same_log w2 w4).
    { destruct (_ && _) in Hsup; [by eapply logged_before; [apply logs_supersession|exact Hsup]|by injection Hsup as _ <-]. }
    apply bind_ok in Hrest as (sync & w5 & Hsync & Hrest).
    assert (E4 : same_log w4 w5) by (eapply logged_before; [|exact Hsync]; apply logs_sync).
    assert (E5 : same_log w1 w5) by (unfold same_log in *; congruence).
    apply bind_ok in Hrest as ([] & w6 & Hl & Hrest).
    pose proof (unlogged_rows rc rc w1 w5 eq_refl E5 Hun1) as Hun5.
    destruct (log_answers _ _ _ _ _ _ _ _ _ _ _ _ _ Hk Hne Hun5 Hl) as (row & Hrow & Hout).
    apply bind_ok in Hrest as (req & w7 & [= _ <-] & [= <- <-]). eapply answered_log; [done|exact E5|]. by exists row.
Qed.
End Answered.

(** A write that answers leaves its answer in the log. *)
Lemma write_answers candidate rc key (w w' : mworld St) r :
  get rc "request_id" = JStr key -> key <> [] -> unlogged i rc w ->
  write_memory cfg auth_required context candidate rc w = (Ok r, w') -> answered rc w w' r.
Proof.
  intros Hk Hne Hun. unfold write_memory. intros (u & w1 & Hi & Hrest)%bind_ok.
  assert (E1 : same_log w w1) by (eapply logged_before; [|exact Hi]; apply ens_ensure_indexes; apply _).
  assert (Ht : jtrue (get rc "request_id") = true) by (rewrite Hk; cbn; by rewrite bool_decide_false).
  cbv zeta in Hrest. rewrite Ht in Hrest. apply bind_ok in Hrest as (o & w2 & Ho & Hrest).
  apply bind_ok in Ho as (p & w3 & Hp & Hf). apply (scoped_ok _ _ _ Hid) in Hp as [-> ->].
  apply find_one_ok in Hf as [-> E2]. pose proof (E2 CLog) as E2'. cbn [rows] in E2', Hrest.
  pose proof (existsb_find_none _ _ (Hun Ht)) as Hnone. rewrite <- E1 in Hnone. rewrite Hnone in Hrest. unfold write_body in Hrest. apply bind_ok in Hrest as (n & w4 & Hn & Hrest).
  apply catch_raises_ok in Hn; [|intros e k w0; destruct (is_exception e); intros [= <-]; apply then_raise].
  apply catch_raises_ok in Hrest; [|intros e k w0; destruct (is_exception e); intros [= <-]; apply then_raise].
  assert (E4 : same_log w2 w4).
  { destruct (ens_normalized_for cfg auth_required context i Hid candidate rc w2) as [HR _]. rewrite Hn in HR.
    exact (HR CLog). }
  assert (E5 : same_log w w4) by (unfold same_log in *; congruence).
  assert (Hrq : get (with_owner rc n) "request_id" = get rc "request_id") by apply with_owner_request.
  eapply (answered_log rc (with_owner rc n)); [done|exact E5|].
  assert (Hun4 : unlogged i (with_owner rc n) w4) by (eapply unlogged_rows; [exact Hrq|exact E5|exact Hun]).
  assert (Hk' : get (with_owner rc n) "request_id" = JStr key) by congruence.
  unfold write_normalized in Hrest. cbv zeta in Hrest.
  destruct (evaluate_write_policy n) as [[[] checks] reason]; cbn [negb] in Hrest.
  - apply bind_ok in Hrest as (m & w5 & Hm & Hrest).
    assert (E6 : same_log w4 w5) by (eapply logged_before; [|exact Hm]; apply ens_first_tombstone; apply _).
    eapply (answered_log _ (with_owner rc n)); [reflexivity|exact E6|].
    pose proof (unlogged_rows _ (with_owner rc n) w4 w5 eq_refl E6 Hun4) as Hun5.
    destruct m as [rule|]; [|by eapply store_answers].
    apply bind_ok in Hrest as ([] & w6 & Hl & [= <- <-]).
    destruct (log_answers _ _ _ _ _ _ _ _ _ _ _ _ _ Hk' Hne Hun5 Hl) as (row & Hrow & Hout). by exists row.
  - apply bind_ok in Hrest as ([] & w6 & Hl & [= <- <-]).
    destruct (log_answers _ _ _ _ _ _ _ _ _ _ _ _ _ Hk' Hne Hun4 Hl) as (row & Hrow & Hout). by exists row.
Qed.

Lemma replay_rows row : ensures (@same_rows St) (result_from_log auth_required context row)
  (fun r => get r "status" = get row "status" /\ get r "memory_id" = get row "memory_id" /\
            get r "reason" = get row "reason").
Proof.
  unfold result_from_log. cbv zeta. eapply (ensures_bind _ _ _ (fun _ => True)).
  - destruct (jtrue _); [|ens_walk]. eapply ensures_bind; [apply _|apply (ens_find_document _ _ _ Hid); apply _|].
    intros [[]|] _; ens_walk.
  - intros status _. apply ensures_lift_bind; [apply _|]. intros req _. by apply ensures_ret; [apply _|].
Qed.

(** C28: A write is idempotent in its request identity: once a write under a request
    identity has answered, every further write with that identity, whatever candidate it
    carries, stores nothing, and if it answers, it reports the status, the memory and the
    reason of the first. *)
Theorem write_idempotent candidate rc candidate' rc' key (w w' : mworld St) r :
  get rc "request_id" = JStr key -> key <> [] -> get rc' "request_id" = JStr key -> unlogged i rc w ->
  write_memory cfg auth_required context candidate rc w = (Ok r, w') ->
  same_rows w' (write_memory cfg auth_required context candidate' rc' w').2 /\
  forall r', (write_memory cfg auth_required context candidate' rc' w').1 = Ok r' ->
    get r' "status" = get r "status" /\ get r' "memory_id" = get r "memory_id" /\ get r' "reason" = get r "reason".
Proof.
  intros Hk Hne Hk' Hun Hw. destruct (write_answers _ _ _ _ _ _ Hk Hne Hun Hw) as (row & Hlog & Hrow & Hs & Hm & Hr).
  assert (Ht : jtrue (JStr key) = true) by (cbn; by rewrite bool_decide_false).
  assert (Hfound : List.find (scope_filter (Some i) [("request_id", JStr key)]) (mw_log w') = Some row).
  { rewrite Hk in Hrow. unfold unlogged in Hun. rewrite Hk in Hun. specialize (Hun Ht). rewrite Hlog.
    clear -Hrow Hun. induction (mw_log w) as [|d l IH]; cbn in *; [by rewrite Hrow|].
    destruct (scope_filter _ _ d); [done|]. by apply IH. }
  pose proof (mine_nonempty i row (scope_filter_mine _ _ _ Hrow)) as (kv & rest & Erow).
  assert (Hrun : ensures_from w' (write_memory cfg auth_required context candidate' rc')
    (fun r' => get r' "status" = get r "status" /\ get r' "memory_id" = get r "memory_id" /\
               get r' "reason" = get r "reason")).
  { unfold write_memory. eapply from_bind; [apply ens_ensure_indexes; apply _|]. intros u w1 E1 _.
    cbv zeta. rewrite Hk', Ht.
    eapply (from_bind _ _ _ (fun _ => True)).
    { eapply (ensures_bind _ _ _ (fun _ => True)); [eapply ensures_conseq; [apply (ens_scoped (St := St)); apply _|done]|].
      intros p _. eapply ensures_conseq; [apply ens_find_one; apply _|done]. }
    intros o w2 E2 Ho. apply bind_ok in Ho as (p & w3 & Hp & Hf). apply (scoped_ok _ _ _ Hid) in Hp as [-> ->].
    apply find_one_ok in Hf as [-> _]. pose proof (E1 CLog) as El. cbn [rows] in El. cbn [rows].
    rewrite El, Hfound, Erow. intros; rewrite <- Erow. 
    destruct (replay_rows row w2) as [HR HQ]. split; [exact HR|]. intros r' Hr'.
    destruct (HQ r' Hr') as (A & B & C). rewrite A, B, C. by rewrite Hs, Hm, Hr. }
  exact Hrun.
Qed.
End Replay.

(** ** A request sent twice *)

Section Demo.
#[local] Existing Instance ascii_text.
#[local] Existing Instance plain_crypto.
#[local] Existing Instance ascii_words_chars.
#[local] Existing Instance memory_env.
#[local] Existing Instance silent_qdrant.
#[local] Existing Instance plain_uuid.
#[local] Existing Instance year_dates.

Definition first_request : outcome py_exn obj * mworld unit := Eval vm_compute in
  write_memory (memory_cfg true) true demo_ctx (demo_note "note-2" "Builds run every night")
    [("request_id", s_ "req-1")] demo_noted.
Definition first_answer : obj := Eval vm_compute in match first_request.1 with Ok r => r | Raise _ => [] end.

Lemma write_idempotent_witness :
  let again := write_memory (memory_cfg true) true demo_ctx (demo_note "note-3" "Something else")
                 [("request_id", s_ "req-1")] first_request.2 in
  same_rows first_request.2 again.2 /\ get first_answer "status" = s_ "accepted" /\
  exists r, again.1 = Ok r /\ get r "memory_id" = s_ "note-2".
Proof.
  intros again.
  destruct (write_idempotent (memory_cfg true) true demo_ctx demo_identity eq_refl
    (demo_note "note-2" "Builds run every night") [("request_id", s_ "req-1")] (demo_note "note-3" "Something else")
    [("request_id", s_ "req-1")] (lit "req-1") demo_noted first_request.2 first_answer) as [Hs Hr].
  - reflexivity.
  - discriminate.
  - reflexivity.
  - intros _. vm_compute. reflexivity.
  - vm_compute. reflexivity.
  - split; [exact Hs|]. split; [vm_compute; reflexivity|].
    destruct again.1 as [r|e] eqn:E; [|vm_compute in E; discriminate].
    exists r. split; [done|]. destruct (Hr r E) as (_ & Hm & _). exact Hm.
Defined.
End Demo.
