(* ===== verification/MemoryRanking.v ===== *)
(** * What a retrieval returns

    The class balance of [_diversify_ranked_documents], and the answer of
    [get_relevant_memories]: only current memories of the caller that match the query, at
    most as many as asked for, current before historical ones. *)

From Stdlib Require Import QArith Lqa.
From stdpp Require Import base strings sets list sorting.
From S2P Require Import Prelude PyValue Base64 Auth MemoryConsolidation MemoryNormalize MemoryClients MemoryWrite MemoryRetrieve MemoryAdmin MemoryFacts MemoryCompare.

Local Open Scope string_scope.
Local Open Scope list_scope.
Local Open Scope Z_scope.

(** ** Class balance *)

(** [l] holds the elements of [a] and of [b], each in their order. *)
Inductive interleaves {A} : list A -> list A -> list A -> Prop :=
  | il_nil : interleaves [] [] []
  | il_left x a b l : interleaves a b l -> interleaves (x :: a) b (x :: l)
  | il_right x a b l : interleaves a b l -> interleaves a (x :: b) (x :: l).

Lemma interleaves_snoc_left {A} (x : A) a b l : interleaves a b l -> interleaves (a ++ [x]) b (l ++ [x]).
Proof. induction 1; cbn; by repeat constructor. Qed.
Lemma interleaves_snoc_right {A} (x : A) a b l : interleaves a b l -> interleaves a (b ++ [x]) (l ++ [x]).
Proof. induction 1; cbn; by repeat constructor. Qed.
Lemma interleaves_perm {A} (a b l : list A) : interleaves a b l -> l ≡ₚ a ++ b.
Proof. induction 1; cbn; [done|by f_equiv|]. rewrite IHinterleaves. by rewrite Permutation_middle. Qed.
Lemma interleaves_length {A} (a b l : list A) : interleaves a b l -> zlen l = zlen a + zlen b.
Proof. intros Hi%interleaves_perm. unfold zlen. rewrite Hi, length_app. lia. Qed.

Section Balance.
Context {A : Type}.

(** What the loop keeps: the taken parts [ce] and [cs] of either class and the results. *)
Record taken (limit : Z) (had : bool) (E M ep se res ce cs : list A) : Prop := mkTaken {
  tk_episodic : E = ce ++ ep;
  tk_semantic : M = cs ++ se;
  tk_results : interleaves ce cs res;
  tk_bound : zlen res <= limit;
  tk_balance : had = true -> zlen cs <= max_semantic limit;
  tk_had : had = nonempty E
}.

(** Nothing more can be added. *)
Definition full (limit : Z) (had : bool) (ep se res cs : list A) : Prop :=
  zlen res = limit \/ ep = [] /\ (se = [] \/ had = true /\ zlen cs = max_semantic limit).

Lemma zlen_snoc (l : list A) x : zlen (l ++ [x]) = zlen l + 1.
Proof. rewrite zlen_app. done. Qed.

Lemma balance_spec fuel limit had E M ep se res cnt ce cs :
  (length ep + length se < fuel)%nat -> cnt = zlen cs -> taken limit had E M ep se res ce cs ->
  let '(ep', se', res') := balance fuel limit had ep se res cnt in
  exists ce' cs', taken limit had E M ep' se' res' ce' cs' /\ full limit had ep' se' res' cs'.
Proof.
  revert ep se res cnt ce cs. induction fuel as [|fuel IH]; intros ep se res cnt ce cs Hfuel -> Ht; [lia|].
  cbn [balance]. pose proof Ht as [He Hs Hi Hb Hbal Hhad].
  destruct ((zlen res <? limit) && (nonempty ep || nonempty se)) eqn:Eg; cbn [andb].
  2: { exists ce, cs. split; [done|]. apply andb_false_iff in Eg as [Eg%Z.ltb_ge|Eg]; [left; lia|right].
       apply orb_false_iff in Eg as [E1 E2]. destruct ep, se; try done. split; [done|by left]. }
  apply andb_true_iff in Eg as [Eg%Z.ltb_lt _].
  (* the semantic half of a step, once an episodic one may have been taken *)
  assert (Hsem : forall ep res ce (appended : bool), (length ep + length se < S fuel)%nat ->
    (appended = false -> ep = []) -> ((appended = true) -> (length ep + length se < fuel)%nat) ->
    zlen res < limit -> taken limit had E M ep se res ce cs ->
    let '(ep', se', res') :=
      match se with
      | s :: rest =>
          if (zlen cs <? max_semantic limit) || negb had
          then balance fuel limit had ep rest (res ++ [s]) (zlen cs + 1)
          else if appended then balance fuel limit had ep se res (zlen cs) else (ep, se, res)
      | [] => if appended then balance fuel limit had ep [] res (zlen cs) else (ep, [], res)
      end in
    exists ce' cs', taken limit had E M ep' se' res' ce' cs' /\ full limit had ep' se' res' cs').
  { clear ep res ce He Hi Hb Ht Eg Hfuel Hbal Hhad Hs. intros ep res ce appended Hf Hep Hap Hlt Ht.
    pose proof Ht as [He Hs Hi Hb Hbal Hhad]. destruct se as [|s rest].
    - destruct appended; [by apply (IH _ _ _ _ ce cs); auto|].
      exists ce, cs. split; [done|]. right. split; [auto|by left].
    - destruct ((zlen cs <? max_semantic limit) || negb had) eqn:Ec.
      + apply (IH _ _ _ _ ce (cs ++ [s])); [cbn in Hf; lia|by rewrite zlen_snoc|].
        constructor; try done.
        * by rewrite <- app_assoc.
        * by apply interleaves_snoc_right.
        * rewrite zlen_snoc. lia.
        * intros Hh. rewrite zlen_snoc. apply orb_true_iff in Ec as [Ec%Z.ltb_lt|Ec]; [lia|]. by rewrite Hh in Ec.
      + destruct appended; [by apply (IH _ _ _ _ ce cs); auto|].
        exists ce, cs. split; [done|]. right. split; [auto|]. right.
        apply orb_false_iff in Ec as [Ec%Z.ltb_ge Eh%negb_false_iff]. split; [done|]. specialize (Hbal Eh). lia. }
  destruct ep as [|e ep].
  - cbn [andb]. apply (Hsem [] res ce false); [done|done|done|done|done].
  - cbn [andb]. assert (Ht' : taken limit had E M ep se (res ++ [e]) (ce ++ [e]) cs).
    { constructor; try done; [by rewrite <- app_assoc|by apply interleaves_snoc_left|rewrite zlen_snoc; lia]. }
    destruct (limit <=? zlen (res ++ [e])) eqn:El.
    + exists (ce ++ [e]), cs. split; [done|]. left. destruct Ht'. apply Z.leb_le in El. lia.
    + apply Z.leb_gt in El. cbn in Hfuel.
      apply (Hsem ep (res ++ [e]) (ce ++ [e]) true); [lia|done|lia|done|done].
Qed.
End Balance.

Section Diversified.
Context {A : Type} (is_episodic is_semantic : A -> bool).
Context (Hdisjoint : forall x, is_episodic x = true -> is_semantic x = false).

Lemma classes_length l :
  (length (List.filter is_episodic l) + length (List.filter is_semantic l) <= length l)%nat.
Proof using Hdisjoint.
  induction l as [|x l IH]; cbn; [lia|]. destruct (is_episodic x) eqn:E.
  - rewrite (Hdisjoint x E). cbn. lia.
  - destruct (is_semantic x); cbn; lia.
Qed.

Lemma diversify_taken ranked limit :
  1 <= limit ->
  let E := List.filter is_episodic ranked in
  let M := List.filter is_semantic ranked in
  exists ep se ce cs, taken limit (nonempty E) E M ep se (diversify is_episodic is_semantic ranked limit) ce cs /\
    full limit (nonempty E) ep se (diversify is_episodic is_semantic ranked limit) cs.
Proof using Hdisjoint.
  intros Hl E M. unfold diversify. fold E M. cbv zeta.
  pose proof (balance_spec (S (length ranked)) limit (nonempty E) E M E M [] 0 [] []) as Hb.
  destruct (balance _ _ _ _ _ _ _) as [[ep se] res].
  destruct Hb as (ce & cs & Ht & Hf).
  { pose proof (classes_length ranked). fold E M in H. lia. }
  { done. }
  { constructor; try done; [constructor|unfold zlen; cbn; lia|unfold zlen, max_semantic; cbn; lia]. }
  exists ep, se, ce, cs.
  assert (Hres : py_prefix (if zlen res <? limit
      then res ++ py_prefix (if nonempty E then ep else se) (Z.max 0 (limit - zlen res)) else res) limit = res).
  { assert (Hpre : py_prefix res limit = res).
    { rewrite py_prefix_nonneg by lia. apply take_ge. pose proof (tk_bound _ _ _ _ _ _ _ _ _ Ht). unfold zlen in *. lia. }
    destruct (zlen res <? limit) eqn:El; [|done]. apply Z.ltb_lt in El.
    assert (Hleft : (if nonempty E then ep else se) = []).
    { destruct Hf as [?|[-> Hse]]; [lia|]. destruct (nonempty E); [done|]. by destruct Hse as [->|[? _]]. }
    rewrite Hleft. rewrite (py_prefix_nonneg [] _) by lia. rewrite take_nil, app_nil_r. done. }
  by rewrite Hres.
Qed.
End Diversified.

(** ** Order *)

Section Order.
Context `{PyText}.

Lemma score_leb_total a b : score_leb a b = true \/ score_leb b a = true.
Proof.
  unfold score_leb. rewrite !orb_true_iff, !andb_true_iff, !qltb_true, !Qeq_bool_iff.
  destruct (Q_dec (rk_score (rd_ranking a)) (rk_score (rd_ranking b))) as [[?|?]|E]; [by right; left|by left; left|].
  destruct (text_leb (as_text (rd_updated a)) (as_text (rd_updated b))) eqn:E1; [|by left; right].
  destruct (text_leb (as_text (rd_updated b)) (as_text (rd_updated a))) eqn:E2; [|by right; right; split; [symmetry|]].
  pose proof (text_leb_antisymm _ _ E1 E2) as Ee. rewrite !(bool_decide_true _ Ee), !(bool_decide_true _ (eq_sym Ee)).
  destruct (text_leb_total (doc_id (rd_doc b)) (doc_id (rd_doc a))) as [->| ->];
    [left|right]; right; (split; [done || by symmetry|done]).
Qed.

Lemma text_gt_trans a b c :
  text_leb a b = false -> text_leb b c = false -> text_leb a c = false.
Proof.
  intros H1 H2. destruct (text_leb a c) eqn:E; [|done]. exfalso.
  destruct (text_leb_total b c) as [?|Hcb]; [congruence|].
  assert (text_leb a b = true) by by eapply text_leb_trans. congruence.
Qed.

Lemma score_leb_trans a b c : score_leb a b = true -> score_leb b c = true -> score_leb a c = true.
Proof.
  unfold score_leb. rewrite !orb_true_iff, !andb_true_iff, !qltb_true, !Qeq_bool_iff, !orb_true_iff, !andb_true_iff,
    !negb_true_iff, !bool_decide_eq_true.
  intros [?|[E1 Ha]] [?|[E2 Hb]]; [left; lra|left; lra|left; lra|right; split; [lra|]].
  destruct Ha as [Ha|[U1 Ha]], Hb as [Hb|[U2 Hb]].
  - left. by eapply text_gt_trans.
  - left. by rewrite <- U2.
  - left. by rewrite U1.
  - right. split; [congruence|by eapply text_leb_trans].
Qed.

Lemma ranked_leb_total a b : ranked_leb a b = true \/ ranked_leb b a = true.
Proof.
  unfold ranked_leb. destruct (rd_valid a), (rd_valid b); cbn; try (by left); try (by right); apply score_leb_total.
Qed.

Lemma ranked_leb_trans a b c : ranked_leb a b = true -> ranked_leb b c = true -> ranked_leb a c = true.
Proof. unfold ranked_leb. destruct (rd_valid a), (rd_valid b), (rd_valid c); cbn; try done; apply score_leb_trans. Qed.

(** A historical memory does not precede a current one. *)
Definition current_first (l : list ranked_doc) : Prop :=
  StronglySorted (fun a b => rd_valid b = true -> rd_valid a = true) l.

Lemma ranked_current a b : ranked_leb a b = true -> rd_valid b = true -> rd_valid a = true.
Proof. unfold ranked_leb. by destruct (rd_valid a), (rd_valid b). Qed.

Lemma sort_ranked_sorted l r :
  sort_ranked l = Ok r -> r ≡ₚ l /\ StronglySorted (fun a b => ranked_leb a b = true) r.
Proof.
  unfold sort_ranked. destruct (existsb _ l); [done|]. intros [= <-]. split; [apply py_sorted_perm|].
  apply py_sorted_sorted; [apply ranked_leb_total|apply ranked_leb_trans].
Qed.

Lemma sorted_filter_ {B} (R : B -> B -> Prop) (f : B -> bool) l :
  StronglySorted R l -> StronglySorted R (List.filter f l).
Proof.
  induction 1 as [|x l Hl IH Hx]; cbn; [constructor|]. destruct (f x); [|done]. constructor; [done|].
  apply List.Forall_forall. intros y [Hy _]%filter_In. rewrite List.Forall_forall in Hx. by apply Hx.
Qed.

Lemma sorted_app_left {B} (R : B -> B -> Prop) (l k : list B) : StronglySorted R (l ++ k) -> StronglySorted R l.
Proof.
  induction l as [|x l IH]; cbn; [constructor|]. intros [Hs Hx]%StronglySorted_inv. constructor; [auto|].
  by apply Forall_app in Hx as [? _].
Qed.

Lemma interleaves_filter {B} (f : B -> bool) a b l :
  interleaves a b l -> Forall (fun x => f x = true) a -> Forall (fun x => f x = false) b -> List.filter f l = a.
Proof.
  induction 1 as [|x a b l Hi IH|x a b l Hi IH]; intros Ha Hb; cbn; [done| |].
  - apply Forall_cons in Ha as [-> Ha]. by rewrite IH.
  - apply Forall_cons in Hb as [-> Hb]. auto.
Qed.

Lemma interleaves_swap {B} (a b l : list B) : interleaves a b l -> interleaves b a l.
Proof. induction 1; by constructor. Qed.
End Order.

(** ** The answer *)

Section Retrieval.
Context {St : Type} `{PyText} `{Crypto} `{WordChars} `{MemEnv} `{QdrantHttp St} `{NameUuid} `{PyDates}.
Context (cfg : mem_config) (auth_required : bool) (context : obj) (i : auth_identity).
Context (Hid : identity_from_context auth_required context = Ok (Some i)).

(** The limit and the filter of a query. *)
Definition query_limit (q : obj) : Z := Z.max 1 (coerce_int (get q "limit") (memory_retrieval_default_limit cfg)).
Definition query_filter (q : obj) (classes : list text) (owner_id owner_type : text) : memory_query :=
  mkQuery owner_id (Some owner_type) classes false (jtrue (get q "include_history")) (query_as_of q) (query_scope q).

Lemma rank_all_docs k as_of tokens scores docs (w w' : mworld St) r :
  rank_all k as_of tokens scores docs w = (Ok r, w') ->
  same_rows w w' /\ forall x, x ∈ r -> rd_doc x ∈ docs.
Proof.
  revert w r w'. induction docs as [|d docs IH]; intros w r w'; cbn [rank_all]; [intros [= <- <-]; split; [done|set_solver]|].
  intros (now & w1 & [= _ <-] & Hk)%bind_ok. apply bind_ok in Hk as (rk & w2 & [= _ <-] & Hk).
  apply bind_ok in Hk as (ranked & w3 & Hr & Hk). injection Hk as <- <-. apply IH in Hr as [E Hin]. split.
  - intros c. rewrite (E c). by destruct c.
  - intros x Hx. destruct (_ && _); [right; by apply Hin|]. apply elem_of_cons in Hx as [->|Hx]; [by left|].
    right. by apply Hin.
Qed.

Lemma mark_valid_docs as_of l r :
  mark_valid as_of l = Ok r -> forall x, x ∈ r ->
  (exists y, y ∈ l /\ rd_doc x = rd_doc y) /\ is_valid_at (rd_doc x) as_of = Ok (rd_valid x).
Proof.
  revert r. induction l as [|y l IH]; intros r; cbn [mark_valid]; [intros [= <-]; set_solver|].
  destruct (is_valid_at (rd_doc y) as_of) as [v|] eqn:Ev; cbn [obind]; [|done].
  destruct (mark_valid as_of l) as [r'|]; cbn [obind]; [|done]. intros [= <-] x [->|Hx]%elem_of_cons.
  - split; [exists y; split; [by left|done]|done].
  - destruct (IH r' eq_refl x Hx) as [(z & Hz & E) Hv]. split; [exists z; split; [by right|done]|done].
Qed.

Lemma of_class_disjoint x : of_class EPISODIC x = true -> of_class SEMANTIC_PREFERENCE x = false.
Proof.
  unfold of_class. intros E%py_eqb_str. rewrite E. cbn. by apply bool_decide_false.
Qed.

(** A memory the query asks for: of its classes and its owner, in its scope, not archived and
    not deleted; and unless history is asked for, in force at the moment asked for, or, when
    no moment is, active and not ended. *)
Record wanted (q : obj) (classes : list text) (owner_id owner_type : text) (d : obj) : Prop := mkWanted {
  wa_class : exists c, c ∈ classes /\ get d "memory_class" = JStr c;
  wa_owner : (owner_id <> [] -> get d "owner_id" = JStr owner_id) /\ (owner_type <> [] -> get d "owner_type" = JStr owner_type);
  wa_scope : forall s, query_scope q = Some s -> py_str (get d "scope_key" ||| JStr [])%rf = s;
  wa_archived : jtrue (get d "archived_at") = false;
  wa_deleted : jtrue (get d "status") = true -> py_str (get d "status") <> STATUS_DELETED;
  wa_current : jtrue (get q "include_history") = false ->
    match query_as_of q with
    | None => jtrue (get d "valid_to") = false /\
              (jtrue (get d "status") = true -> py_str (get d "status") = STATUS_ACTIVE)
    | Some t => (forall f, parse_datetime (get d "valid_from") = Some f -> later f t = Ok false) /\
                (forall e, parse_datetime (get d "valid_to") = Some e -> later e t = Ok true)
    end
}.

Lemma selected_wanted q classes owner_id owner_type d :
  selected (query_filter q classes owner_id owner_type) d = Ok true -> wanted q classes owner_id owner_type d.
Proof.
  unfold selected, query_filter. cbn.
  destruct (existsb _ classes) eqn:Ec; [|done]. apply existsb_exists in Ec as (c & Hc%list_elem_of_In & Ec%py_eqb_str). cbn.
  destruct (negb (bool_decide (owner_id = [])) && _) eqn:Eo; [done|].
  destruct (negb (bool_decide (owner_type = [])) && _) eqn:Et; [done|].
  destruct (match query_scope q with Some s => _ | None => false end) eqn:Es; [done|].
  destruct (jtrue (get d "archived_at")) eqn:Ea; [done|].
  destruct (negb (jtrue (get q "include_history") || _) && _) eqn:Est; [done|].
  destruct (bool_decide (memory_status d = STATUS_DELETED)) eqn:Hdel; [done|].
  apply bool_decide_eq_false in Hdel. intros Hv.
  assert (forall x k, x <> [] -> negb (bool_decide (x = [])) && negb (py_eqb (get d k) (JStr x)) = false -> get d k = JStr x) as Hown.
  { intros x k Hx Hk. rewrite bool_decide_false in Hk by done. cbn in Hk. apply negb_false_iff, py_eqb_str in Hk. done. }
  unfold memory_status in *. rewrite Ea in *. constructor.
  - by exists c.
  - split; intros Hx; by apply Hown.
  - intros s Hs. rewrite Hs in Es. by apply negb_false_iff, bool_decide_eq_true in Es.
  - done.
  - intros Hj. by rewrite Hj in Hdel.
  - intros Hh. rewrite Hh in *. cbn in Est. unfold is_valid_at in Hv. destruct (query_as_of q) as [t|].
    + destruct (parse_datetime (get d "valid_from")) as [f|].
      * destruct (later f t) as [[]|] eqn:El; cbn in Hv; try done. split; [by intros f' [= <-]|].
        intros e He. by rewrite He in Hv.
      * cbn in Hv. split; [done|]. intros e He. by rewrite He in Hv.
    + injection Hv as Hv. apply negb_true_iff in Hv. split; [done|]. intros Hj. rewrite Hj in Est.
      by apply negb_false_iff, bool_decide_eq_true in Est.
Qed.

(** What the documents of an answer satisfy. *)
Record answer_ok (q : obj) (f : memory_query) (w : mworld St) (docs : list ranked_doc) : Prop := mkAnswerOk {
  ans_bound : zlen docs <= query_limit q;
  ans_docs : forall x, x ∈ docs ->
    rd_doc x ∈ mw_episodic w ++ mw_semantic w /\ mine i (rd_doc x) = true /\ selected f (rd_doc x) = Ok true /\
    is_valid_at (rd_doc x) (query_as_of q) = Ok (rd_valid x);
  ans_order : forall c, c ∈ ALLOWED_MEMORY_CLASSES -> current_first (List.filter (of_class c) docs);
  ans_balance : nonempty (List.filter (of_class EPISODIC) docs) = true ->
    zlen (List.filter (of_class SEMANTIC_PREFERENCE) docs) <= max_semantic (query_limit q)
}.

Lemma sorted_current (l : list ranked_doc) :
  StronglySorted (fun a b => ranked_leb a b = true) l -> current_first l.
Proof.
  induction 1 as [|x l Hl IH Hx]; [constructor|]. constructor; [done|].
  eapply Forall_impl; [exact Hx|]. intros y Hy. by apply ranked_current.
Qed.

Lemma diversified_ok q sorted :
  StronglySorted (fun a b => ranked_leb a b = true) sorted ->
  let docs := diversify (of_class EPISODIC) (of_class SEMANTIC_PREFERENCE) sorted (query_limit q) in
  zlen docs <= query_limit q /\ (forall x, x ∈ docs -> x ∈ sorted) /\
  (forall c, c ∈ ALLOWED_MEMORY_CLASSES -> current_first (List.filter (of_class c) docs)) /\
  (nonempty (List.filter (of_class EPISODIC) docs) = true ->
   zlen (List.filter (of_class SEMANTIC_PREFERENCE) docs) <= max_semantic (query_limit q)).
Proof.
  intros Hs docs.
  destruct (diversify_taken _ _ of_class_disjoint sorted (query_limit q)) as (ep & se & ce & cs & Ht & Hf);
    [unfold query_limit; lia|]. fold docs in Ht, Hf. destruct Ht as [He Hm Hi Hb Hbal Hhad].
  assert (Hce : Forall (fun x => of_class EPISODIC x = true) ce).
  { apply List.Forall_forall. intros x Hx. assert (Hin : In x (List.filter (of_class EPISODIC) sorted)).
    { rewrite He. apply in_app_iff. by left. } by apply filter_In in Hin as [_ ?]. }
  assert (Hcs : Forall (fun x => of_class SEMANTIC_PREFERENCE x = true) cs).
  { apply List.Forall_forall. intros x Hx. assert (Hin : In x (List.filter (of_class SEMANTIC_PREFERENCE) sorted)).
    { rewrite Hm. apply in_app_iff. by left. } by apply filter_In in Hin as [_ ?]. }
  assert (Fe : List.filter (of_class EPISODIC) docs = ce).
  { eapply interleaves_filter; [exact Hi|done|]. eapply Forall_impl; [exact Hcs|]. intros x Hx.
    destruct (of_class EPISODIC x) eqn:E; [|done]. apply of_class_disjoint in E. congruence. }
  assert (Fs : List.filter (of_class SEMANTIC_PREFERENCE) docs = cs).
  { eapply interleaves_filter; [by apply interleaves_swap|done|]. eapply Forall_impl; [exact Hce|].
    intros x Hx. by apply of_class_disjoint. }
  split_and!.
  - done.
  - intros x Hx. rewrite (interleaves_perm _ _ _ Hi) in Hx. apply list_elem_of_In.
    apply elem_of_app in Hx as [Hx|Hx]; apply list_elem_of_In in Hx.
    + assert (Hin : In x (List.filter (of_class EPISODIC) sorted)) by (rewrite He; apply in_app_iff; by left).
      by apply filter_In in Hin as [? _].
    + assert (Hin : In x (List.filter (of_class SEMANTIC_PREFERENCE) sorted)) by (rewrite Hm; apply in_app_iff; by left).
      by apply filter_In in Hin as [? _].
  - intros c [->|[->|Hc%not_elem_of_nil]%elem_of_cons]%elem_of_cons; [..|done].
    + change (lit "episodic") with EPISODIC. rewrite Fe. apply sorted_current. eapply sorted_app_left. rewrite <- He. by apply sorted_filter_.
    + change (lit "semantic_preference") with SEMANTIC_PREFERENCE. rewrite Fs. apply sorted_current. eapply sorted_app_left. rewrite <- Hm. by apply sorted_filter_.
  - rewrite Fe, Fs. intros Hne. apply Hbal. rewrite He. by destruct ce.
Qed.

Lemma relevant_ok q owner_id owner_type (w w' : mworld St) docs leg n :
  relevant cfg auth_required context q owner_id owner_type w = (Ok (docs, leg, n), w') ->
  exists classes, query_classes q = Ok classes /\ answer_ok q (query_filter q classes owner_id owner_type) w docs.
Proof.
  unfold relevant. intros (classes & w1 & [= Hcl <-] & Hk)%bind_ok. cbv zeta in Hk.
  exists classes. split; [done|]. fold (query_filter q classes owner_id owner_type) in Hk. fold (query_limit q) in Hk.
  apply bind_ok in Hk as (cands & w2 & Hc & Hk). apply bind_ok in Hk as (l & w3 & _ & Hk).
  apply bind_ok in Hk as (ranked & w4 & Hr & Hk). apply rank_all_docs in Hr as [_ Hr].
  apply bind_ok in Hk as (marked & w5 & [= Hm <-] & Hk). apply bind_ok in Hk as (sorted & w6 & [= Hs <-] & Hk).
  apply bind_ok in Hk as (u & w7 & _ & [= <- <- <- <-]).
  apply sort_ranked_sorted in Hs as [Hperm Hsort]. pose proof (diversified_ok q sorted Hsort) as Hd. cbv zeta in Hd.
  destruct Hd as (Hb & Hsub & Hord & Hbal). constructor; [done| |done|done].
  intros x Hx. apply Hsub in Hx. rewrite Hperm in Hx.
  destruct (mark_valid_docs _ _ _ Hm x Hx) as [(y & Hy & Exy) Hv]. apply Hr in Hy. rewrite <- Exy in Hy.
  destruct (ens_active auth_required context i Hid same_rows (query_filter q classes owner_id owner_type) w) as [_ Hpost].
  rewrite Hc in Hpost. specialize (Hpost cands eq_refl). rewrite Forall_forall in Hpost.
  destruct (Hpost _ Hy) as [Hmine Hsel]. split_and!; [|done..].
  unfold active_memory_documents in Hc. apply bind_ok in Hc as (all & w8 & Hall & [= Hf _]).
  eapply all_documents_stored; [exact Hid|exact Hall|]. by destruct (filterM_sound _ _ _ Hf _ Hy).
Qed.

Lemma retrieval_answer q (w w' : mworld St) r :
  get_relevant_memories cfg auth_required context q w = (Ok r, w') ->
  exists docs memories classes,
    get r "memories" = JArr (map JObj memories) /\ output_memories 1 docs = Ok memories /\
    query_classes q = Ok classes /\
    answer_ok q (query_filter q classes (normalize_text (JStr (ai_user_id i))) (normalize_lower (JStr (lit "user")))) w docs.
Proof.
  unfold get_relevant_memories. intros (u & w1 & Hix & Hk)%bind_ok.
  destruct (ens_ensure_indexes same_rows w) as [E1 _]. rewrite Hix in E1. cbn in E1.
  apply bind_ok in Hk as (j & w2 & Hj & Hk). unfold current_identity, lift in Hj. rewrite Hid in Hj.
  injection Hj as <- <-. cbn [owner_for_query] in Hk.
  destruct (bool_decide _) in Hk; [done|]. destruct (negb _) in Hk; [done|].
  apply bind_ok in Hk as ([[docs leg] n] & w3 & Hrel & Hk).
  apply bind_ok in Hk as (memories & w4 & [= Ho <-] & Hk). apply bind_ok in Hk as (classes & w5 & [= Hcl <-] & [= <- _]).
  destruct (relevant_ok _ _ _ _ _ _ _ _ Hrel) as (classes' & Hcl' & Hans).
  assert (classes' = classes) as -> by congruence. exists docs, memories, classes. split_and!; [done..|].
  destruct Hans as [Hb Hd Hor Hbal]. constructor; [done| |done|done]. intros x Hx.
  destruct (Hd x Hx) as (Hin & ?). split; [|done].
  pose proof (E1 CEpisodic) as A1. pose proof (E1 CSemantic) as A2. cbn [rows] in A1, A2. by rewrite <- A1, <- A2.
Qed.

(** C30: A retrieval that answers returns only stored memories of the caller that the query asks
    for ([wanted]: of the requested classes, of its owner, in its scope, not archived, not
    deleted, and, unless history is asked for, in force at the moment asked for or, without
    one, active and not ended), at most as many as the limit; within a class no memory that is
    not in force precedes one that is; and beside episodic memories, preferences take at most
    half of the places, rounded up. *)
Theorem retrieval_sound q (w w' : mworld St) r :
  get_relevant_memories cfg auth_required context q w = (Ok r, w') ->
  exists docs memories classes,
    get r "memories" = JArr (map JObj memories) /\ output_memories 1 docs = Ok memories /\
    query_classes q = Ok classes /\ zlen docs <= query_limit q /\
    (forall x, x ∈ docs ->
       rd_doc x ∈ mw_episodic w ++ mw_semantic w /\ mine i (rd_doc x) = true /\
       wanted q classes (normalize_text (JStr (ai_user_id i))) (normalize_lower (JStr (lit "user"))) (rd_doc x) /\
       is_valid_at (rd_doc x) (query_as_of q) = Ok (rd_valid x)) /\
    (forall c, c ∈ ALLOWED_MEMORY_CLASSES -> current_first (List.filter (of_class c) docs)) /\
    (nonempty (List.filter (of_class EPISODIC) docs) = true ->
     2 * zlen (List.filter (of_class SEMANTIC_PREFERENCE) docs) <= query_limit q + 1).
Proof.
  intros (docs & memories & classes & Hm & Ho & Hc & [Hb Hd Hor Hbal])%retrieval_answer.
  exists docs, memories, classes. split_and!; try done.
  - intros x Hx. destruct (Hd x Hx) as (? & ? & Hs & ?). split_and!; [done|done|by apply selected_wanted|done].
  - intros Hne. specialize (Hbal Hne). unfold max_semantic, query_limit in *.
    Z.to_euclidean_division_equations. lia.
Qed.
End Retrieval.

(** ** A dated memory without an offset *)

Section Blocked.
Context {St : Type} `{PyText} `{Crypto} `{WordChars} `{MemEnv} `{QdrantHttp St} `{NameUuid} `{PyDates}.
Context (cfg : mem_config) (auth_required : bool) (context : obj) (i : auth_identity).
Context (Hid : identity_from_context auth_required context = Ok (Some i)).

Lemma rank_all_naive k as_of tokens scores docs (w w' : mworld St) r x t :
  x ∈ docs -> get x "memory_class" = JStr EPISODIC -> parse_datetime (get x "event_at") = Some t -> dt_aware t = false ->
  rank_all k as_of tokens scores docs w <> (Ok r, w').
Proof.
  intros Hx Hc Hp Ha. revert w r w'. induction docs as [|d docs IH]; intros w r w'; [by apply not_elem_of_nil in Hx|].
  cbn [rank_all]. intros (now & w1 & _ & Hk)%bind_ok. apply bind_ok in Hk as (rk & w2 & [= Hs _] & Hk).
  apply elem_of_cons in Hx as [<-|Hx].
  - revert Hs. unfold score_document. destruct (document_tokens x); cbn [obind]; [|done].
    destruct (item x "id"); cbn [obind]; [|done].
    assert (Hi : item x "memory_class" = Ok (JStr EPISODIC)).
    { unfold item. unfold get, get_or in Hc. destruct (obj_get x "memory_class"); congruence. }
    rewrite Hi. cbn [obind]. rewrite (proj2 (py_eqb_str _ _) eq_refl). unfold episodic_recency_score. by rewrite Hp, Ha.
  - apply bind_ok in Hk as (ranked & w3 & Hr & _). by eapply IH.
Qed.

(** One current episodic memory whose event date has no offset makes every retrieval that
    selects it fail: no query of its owner is answered. *)
Theorem naive_event_blocks q classes (w w' : mworld St) r x t :
  query_classes q = Ok classes -> x ∈ mw_episodic w ++ mw_semantic w -> mine i x = true ->
  selected (query_filter q classes (normalize_text (JStr (ai_user_id i))) (normalize_lower (JStr (lit "user")))) x = Ok true ->
  memory_status x <> STATUS_DELETED ->
  get x "memory_class" = JStr EPISODIC -> parse_datetime (get x "event_at") = Some t -> dt_aware t = false ->
  get_relevant_memories cfg auth_required context q w <> (Ok r, w').
Proof.
  intros Hcl Hx Hm Hsel Hst Hc Hp Ha. unfold get_relevant_memories. intros (u & w1 & Hix & Hk)%bind_ok.
  destruct (ens_ensure_indexes same_rows w) as [E1 _]. rewrite Hix in E1. cbn in E1.
  apply bind_ok in Hk as (j & w2 & Hj & Hk). unfold current_identity, lift in Hj. rewrite Hid in Hj.
  injection Hj as <- <-. cbn [owner_for_query] in Hk.
  destruct (bool_decide _) in Hk; [done|]. destruct (negb _) in Hk; [done|].
  apply bind_ok in Hk as ([[docs leg] n] & w3 & Hrel & _). unfold relevant in Hrel.
  apply bind_ok in Hrel as (classes' & w4 & [= Hcl' <-] & Hk). assert (classes' = classes) as -> by congruence.
  cbv zeta in Hk. apply bind_ok in Hk as (cands & w5 & Hact & Hk). apply bind_ok in Hk as (l & w6 & _ & Hk).
  apply bind_ok in Hk as (ranked & w7 & Hr & _). revert Hr. eapply rank_all_naive; [|exact Hc|exact Hp|exact Ha].
  unfold active_memory_documents in Hact. apply bind_ok in Hact as (all & w8 & Hall & [= Hf _]).
  eapply filterM_complete; [exact Hf| |exact Hsel].
  pose proof (E1 CEpisodic) as A1. pose proof (E1 CSemantic) as A2. cbn [rows] in A1, A2.
  eapply all_documents_ok; [exact Hid|exact Hall|by rewrite A1, A2|done|].
  destruct (py_eqb (get x "status") (JStr STATUS_DELETED)) eqn:E; [|done]. apply py_eqb_str in E.
  destruct Hst. unfold memory_status. rewrite E. done.
Qed.
End Blocked.

(** ** Examples *)

Section Demo.
#[local] Existing Instance ascii_text.
#[local] Existing Instance plain_crypto.
#[local] Existing Instance ascii_words_chars.
#[local] Existing Instance memory_env.
#[local] Existing Instance silent_qdrant.
#[local] Existing Instance plain_uuid.
#[local] Existing Instance year_dates.

Definition demo_query : obj := [("text", s_ "when does the team deploy"); ("limit", JInt 3)].
Definition demo_answer : obj := Eval vm_compute in
  match (get_relevant_memories (memory_cfg true) true demo_ctx demo_query demo_noted).1 with Ok r => r | Raise _ => [] end.

Lemma retrieval_sound_witness :
  exists (docs : list ranked_doc) (memories : list obj),
    get demo_answer "memories" = JArr (map JObj memories) /\ length memories = 1%nat /\
    forall x, x ∈ docs -> rd_doc x ∈ mw_episodic demo_noted ++ mw_semantic demo_noted.
Proof.
  destruct (retrieval_sound (memory_cfg true) true demo_ctx demo_identity eq_refl demo_query demo_noted
    (get_relevant_memories (memory_cfg true) true demo_ctx demo_query demo_noted).2 demo_answer)
    as (docs & memories & classes & Hm & Ho & _ & _ & Hans & _).
  - vm_compute. reflexivity.
  - exists docs, memories. split; [exact Hm|]. split; [|intros x Hx; by destruct (Hans x Hx)].
    vm_compute in Hm. injection Hm as Hm. destruct memories as [|m [|]]; [discriminate|reflexivity|discriminate].
Defined.
End Demo.
