(* ===== verification/ProviderCapacity.v ===== *)
(** * Admission of model calls

    [src/backend/llm_agent/app/llm/provider_capacity.py]: a process-wide gate in front of the
    model server, shared by live and evaluation traffic.  Every section under the condition's
    lock is one function on the shared state; a caller that waits is parked until
    [notify_all], its deadline or a spurious wake-up makes it look again.  Metrics are left
    out; the clock is seen as the flag that a deadline has passed. *)

From stdpp Require Import base list relations.
From S2P Require Import Prelude.

Local Open Scope Z_scope.

Inductive traffic := LIVE_TRAFFIC | EVAL_TRAFFIC.

#[export] Instance traffic_eq_dec : EqDecision traffic.
Proof. solve_decision. Defined.

Definition other (c : traffic) : traffic :=
  match c with EVAL_TRAFFIC => LIVE_TRAFFIC | LIVE_TRAFFIC => EVAL_TRAFFIC end.

(** A dictionary with one counter per class. *)
Record counts := mkCounts { live_count : Z; eval_count : Z }.
#[export] Instance eta_counts : Eta counts := fun x => mkCounts (live_count x) (eval_count x).

Definition count (n : counts) (c : traffic) : Z :=
  match c with LIVE_TRAFFIC => live_count n | EVAL_TRAFFIC => eval_count n end.
Definition add (c : traffic) (k : Z) (n : counts) : counts :=
  match c with
  | LIVE_TRAFFIC => n {{ live_count ::= Z.add k }}
  | EVAL_TRAFFIC => n {{ eval_count ::= Z.add k }}
  end.
Definition total (n : counts) : Z := live_count n + eval_count n.

(** Where a caller of [admit] is: about to test the condition, parked in [wait], inside the
    [with] block, or gone. *)
Inductive caller := Testing (c : traffic) | Parked (c : traffic) | Inside (c : traffic) | Gone.

#[export] Instance caller_eq_dec : EqDecision caller.
Proof. solve_decision. Defined.

Record capacity := mkCapacity {
  active : counts; waiting : counts; preferred : traffic; closed : bool; callers : list caller
}.
#[export] Instance eta_capacity : Eta capacity := fun x =>
  mkCapacity (active x) (waiting x) (preferred x) (closed x) (callers x).

Definition idle : capacity := mkCapacity (mkCounts 0 0) (mkCounts 0 0) LIVE_TRAFFIC false [].

Section Gate.
Context (limit : Z).

Definition can_admit (s : capacity) (c : traffic) : bool :=
  if closed s || (limit <=? total (active s)) then false
  else if limit =? 1 then (count (waiting s) (other c) =? 0) || bool_decide (preferred s = c)
  else
    match c with
    | EVAL_TRAFFIC => count (active s) EVAL_TRAFFIC <? limit - 1
    | LIVE_TRAFFIC =>
        if negb (count (waiting s) EVAL_TRAFFIC =? 0) && (count (active s) EVAL_TRAFFIC =? 0)
        then total (active s) <? limit - 1
        else true
    end.

Definition wake (x : caller) : caller := match x with Parked c => Testing c | _ => x end.
Definition notify_all (s : capacity) : capacity := s {{ callers ::= map wake }}.
Definition place (i : nat) (x : caller) (s : capacity) : capacity := s {{ callers ::= <[i := x]> }}.

Inductive verdict := Granted | Refused | TimedOut | Waits.

(** One turn of the loop of caller [i], up to [wait] or to the end of the section. *)
Definition turn (i : nat) (c : traffic) (expired : bool) (s : capacity) : verdict * capacity :=
  let leave := notify_all (place i Gone (s {{ waiting ::= add c (-1) }})) in
  if can_admit s c
  then (Granted, place i (Inside c) (s {{ waiting ::= add c (-1) }} {{ active ::= add c 1 }}))
  else if closed s then (Refused, leave)
  else if expired then (TimedOut, leave)
  else (Waits, place i (Parked c) s).

(** A new caller takes the lock, counts itself and runs its first turn. *)
Definition arrive (c : traffic) (s : capacity) : capacity :=
  s {{ waiting ::= add c 1 }} {{ callers ::= fun l => l ++ [Testing c] }}.
Definition admission (c : traffic) (expired : bool) (s : capacity) : verdict * capacity :=
  turn (length (callers s)) c expired (arrive c s).

(** The [finally] block. *)
Definition release (i : nat) (c : traffic) (s : capacity) : capacity :=
  let s := place i Gone (s {{ active ::= add c (-1) }}) in
  notify_all
    (if (limit =? 1) && negb (count (waiting s) (other c) =? 0) then s {{ preferred := other c }} else s).

Definition close (s : capacity) : capacity := notify_all (s {{ closed := true }}).

Inductive event := Answered (i : nat) (c : traffic) (v : verdict) | Released (c : traffic) | Silent.

Inductive step : capacity -> event -> capacity -> Prop :=
  | step_admit c expired s :
      step s (Answered (length (callers s)) c (admission c expired s).1) (admission c expired s).2
  | step_retry i c expired s : callers s !! i = Some (Testing c) ->
      step s (Answered i c (turn i c expired s).1) (turn i c expired s).2
  | step_elapse i c s : callers s !! i = Some (Parked c) -> step s Silent (place i (Testing c) s)
  | step_release i c s : callers s !! i = Some (Inside c) -> step s (Released c) (release i c s)
  | step_close s : step s Silent (close s).

Inductive run : capacity -> list event -> capacity -> Prop :=
  | run_nil s : run s [] s
  | run_cons s e s' l s'' : step s e s' -> run s' l s'' -> run s (e :: l) s''.

Definition reachable (s : capacity) : Prop := exists l, run idle l s.

(** ** Counting *)

Definition is_inside (c : traffic) (x : caller) : Z := if decide (x = Inside c) then 1 else 0.
Definition is_waiting (c : traffic) (x : caller) : Z :=
  if decide (x = Testing c \/ x = Parked c) then 1 else 0.
Fixpoint sum (f : caller -> Z) (l : list caller) : Z :=
  match l with [] => 0 | x :: l => f x + sum f l end.

Lemma sum_insert f l i x y : l !! i = Some y -> sum f (<[i := x]> l) = sum f l + f x - f y.
Proof.
  revert i. induction l as [|z l IH]; intros [|i] H; cbn [lookup list_lookup] in H; simplify_eq.
  - cbn. lia.
  - specialize (IH i H). change (f z + sum f (<[i:=x]> l) = f z + sum f l + f x - f y). lia.
Qed.

Lemma sum_snoc f l x : sum f (l ++ [x]) = sum f l + f x.
Proof. induction l as [|z l IH]; cbn in *; lia. Qed.

Lemma sum_wake f l : (forall c, f (Parked c) = f (Testing c)) -> sum f (map wake l) = sum f l.
Proof. intros H. induction l as [|[] l IH]; cbn; rewrite ?IH, ?H; done. Qed.

Lemma sum_nonneg f l : (forall x, 0 <= f x) -> 0 <= sum f l.
Proof. intros H. induction l as [|x l IH]; cbn; [done|]. specialize (H x). lia. Qed.

Lemma sum_pos f l i x : (forall y, 0 <= f y) -> l !! i = Some x -> f x <= sum f l.
Proof.
  intros Hf. revert i. induction l as [|z l IH]; intros [|i] H; cbn in *; simplify_eq.
  - pose proof (sum_nonneg f l Hf). lia.
  - apply IH in H. specialize (Hf z). lia.
Qed.

(** What holds in every state between two sections: the counters count the callers, the
    bounds hold, and a caller is parked only while it cannot be admitted. *)
Record gate_ok (s : capacity) : Prop := {
  go_active c : count (active s) c = sum (is_inside c) (callers s);
  go_waiting c : count (waiting s) c = sum (is_waiting c) (callers s);
  go_total : total (active s) <= limit;
  go_eval : 1 < limit -> eval_count (active s) <= limit - 1;
  go_parked i c : callers s !! i = Some (Parked c) -> can_admit s c = false /\ closed s = false
}.

Lemma count_add c c' k n : count (add c k n) c' = count n c' + (if decide (c = c') then k else 0).
Proof. destruct c, c', n; case_decide; try done; cbn; lia. Qed.

Lemma total_add c k n : total (add c k n) = total n + k.
Proof. destruct c, n; unfold total; cbn; lia. Qed.

Lemma total_counts n : total n = count n LIVE_TRAFFIC + count n EVAL_TRAFFIC.
Proof. done. Qed.

Lemma other_neq c : other c <> c.
Proof. by destruct c. Qed.

Lemma waking_none l i c : map wake l !! i = Some (Parked c) -> False.
Proof. rewrite list_lookup_fmap. intros (x & _ & E)%fmap_Some. by destruct x. Qed.

(** Whether a class can be admitted depends on the other counters in one direction only. *)
Lemma can_admit_mono s s' c :
  closed s = false -> closed s' = false -> preferred s' = preferred s ->
  count (waiting s) (other c) <= count (waiting s') (other c) -> 0 <= count (waiting s) (other c) ->
  active s' = active s -> can_admit s c = false -> can_admit s' c = false.
Proof.
  intros H1 H2 Hp Hw H0 Ha. unfold can_admit. rewrite H1, H2, Hp, Ha. cbn [orb].
  destruct (limit <=? _); [done|]. destruct (limit =? 1).
  - destruct (Z.eqb_spec (count (waiting s) (other c)) 0), (Z.eqb_spec (count (waiting s') (other c)) 0); cbn; try done; lia.
  - destruct c; [|done]. cbn [other count] in *.
    destruct (Z.eqb_spec (eval_count (waiting s)) 0), (Z.eqb_spec (eval_count (waiting s')) 0); cbn; try done; lia.
Qed.

Lemma can_admit_open s c : can_admit s c = true -> closed s = false /\ total (active s) < limit.
Proof. unfold can_admit. destruct (closed s); [done|]. cbn. destruct (Z.leb_spec limit (total (active s))); [done|]. lia. Qed.

Lemma can_admit_eval s : can_admit s EVAL_TRAFFIC = true -> 1 < limit -> eval_count (active s) < limit - 1.
Proof.
  unfold can_admit. intros H Hl. repeat case_match; try done; [lia|]. apply Z.ltb_lt. done.
Qed.

(** An admission never frees a place for a caller that was refused one. *)
Lemma admitted_refused s c c' :
  0 <= total (active s) -> can_admit s c = true -> can_admit s c' = false ->
  can_admit (s {{ waiting ::= add c (-1) }} {{ active ::= add c 1 }}) c' = false.
Proof.
  intros H0 Hc Hc'. pose proof (can_admit_open _ _ Hc) as [Ho Ht].
  unfold can_admit in Hc' |- *. cbn [closed active waiting preferred setf]. rewrite Ho in *. cbn [orb] in *.
  rewrite total_add. destruct (Z.leb_spec limit (total (active s))); [lia|].
  destruct (Z.leb_spec limit (total (active s) + 1)); [done|].
  destruct (Z.eqb_spec limit 1) as [Hl|Hl]; [lia|]. destruct c'.
  - destruct (_ && _) in Hc'; [|done]. apply Z.ltb_ge in Hc'. lia.
  - apply Z.ltb_ge. apply Z.ltb_ge in Hc'. rewrite count_add. case_decide; lia.
Qed.

Lemma inside_nonneg c x : 0 <= is_inside c x.
Proof. unfold is_inside. case_decide; lia. Qed.
Lemma waiting_nonneg c x : 0 <= is_waiting c x.
Proof. unfold is_waiting. case_decide; lia. Qed.

Lemma gate_nonneg s : gate_ok s ->
  (forall c, 0 <= count (active s) c) /\ (forall c, 0 <= count (waiting s) c) /\ 0 <= total (active s).
Proof.
  intros [Ha Hw _ _ _].
  assert (H : forall c, 0 <= count (active s) c) by (intros; rewrite Ha; apply sum_nonneg, inside_nonneg).
  split_and!; [done|intros; rewrite Hw; apply sum_nonneg, waiting_nonneg|].
  rewrite total_counts. pose proof (H LIVE_TRAFFIC). pose proof (H EVAL_TRAFFIC). lia.
Qed.

(** Everyone awake: the invariant is about counters and bounds only. *)
Lemma gate_awake s :
  (forall c, count (active s) c = sum (is_inside c) (callers s)) ->
  (forall c, count (waiting s) c = sum (is_waiting c) (callers s)) ->
  total (active s) <= limit -> (1 < limit -> eval_count (active s) <= limit - 1) ->
  gate_ok (notify_all s).
Proof.
  intros Ha Hw Ht He. constructor; cbn [notify_all active waiting callers setf]; try done.
  - intros c. rewrite sum_wake; [apply Ha|]. done.
  - intros c. rewrite sum_wake; [apply Hw|]. intros c'. unfold is_waiting. repeat case_decide; naive_solver.
  - intros i c H. by apply waking_none in H.
Qed.

(** The values the two counters give to the places of a caller. *)
Lemma inside_at c x : is_inside c x = match x with Inside c' => if decide (c' = c) then 1 else 0 | _ => 0 end.
Proof. unfold is_inside. destruct x; repeat case_decide; naive_solver. Qed.
Lemma waiting_at c x :
  is_waiting c x = match x with Testing c' | Parked c' => if decide (c' = c) then 1 else 0 | _ => 0 end.
Proof. unfold is_waiting. destruct x; repeat case_decide; naive_solver. Qed.

Ltac counting Hi :=
  intros; cbn [place active waiting callers setf];
  rewrite ?(sum_insert _ _ _ _ _ Hi), ?count_add, ?inside_at, ?waiting_at;
  repeat case_decide; simplify_eq; lia.

Lemma turn_ok s i c expired : gate_ok s -> callers s !! i = Some (Testing c) -> gate_ok (turn i c expired s).2.
Proof.
  intros Hs Hi. pose proof (gate_nonneg s Hs) as (Hna & Hnw & Hnt). destruct Hs as [Ha Hw Ht He Hp].
  assert (Hleave : gate_ok (notify_all (place i Gone (s {{ waiting ::= add c (-1) }})))).
  { apply gate_awake; [..|done|done].
    - intros c'. pose proof (Ha c'). counting Hi.
    - intros c'. pose proof (Hw c'). counting Hi. }
  unfold turn. destruct (can_admit s c) eqn:Ec; [|destruct (closed s) eqn:Eo; [done|]; destruct expired; [done|]]; cbn [snd].
  - constructor; cbn [place active waiting callers setf].
    + intros c'. pose proof (Ha c'). counting Hi.
    + intros c'. pose proof (Hw c'). counting Hi.
    + rewrite total_add. apply can_admit_open in Ec. lia.
    + intros Hl. change (count (add c 1 (active s)) EVAL_TRAFFIC <= limit - 1). rewrite count_add.
      specialize (He Hl). cbn [count]. case_decide; [subst; pose proof (can_admit_eval _ Ec Hl)|]; lia.
    + intros j c' Hj. apply list_lookup_insert_Some in Hj as [(-> & ? & _)|[Hne Hj]]; [done|].
      destruct (Hp j c' Hj) as [Hf Hcl]. split; [|done]. by apply (admitted_refused s c c').
  - constructor; cbn [place active waiting callers setf]; try done.
    + intros c'. pose proof (Ha c'). counting Hi.
    + intros c'. pose proof (Hw c'). counting Hi.
    + intros j c' Hj. apply list_lookup_insert_Some in Hj as [(-> & ? & _)|[Hne Hj]]; [by simplify_eq|].
      destruct (Hp j c' Hj) as [Hf _]. done.
Qed.

Lemma arrive_ok s c : gate_ok s -> gate_ok (arrive c s).
Proof.
  intros Hs. pose proof (gate_nonneg s Hs) as (_ & Hnw & _). destruct Hs as [Ha Hw Ht He Hp].
  constructor; cbn [arrive active waiting callers setf]; try done.
  - intros c'. rewrite sum_snoc, inside_at. specialize (Ha c'). lia.
  - intros c'. rewrite sum_snoc, count_add, waiting_at. specialize (Hw c'). lia.
  - intros j c' Hj. apply lookup_snoc_Some in Hj as [[_ Hj]|[_ ?]]; [|done]. destruct (Hp j c' Hj) as [Hf Hcl].
    split; [|done]. eapply (can_admit_mono s); [exact Hcl|exact Hcl|done| |apply Hnw|done|exact Hf].
    cbn [arrive waiting setf]. rewrite count_add. case_decide; lia.
Qed.

Lemma arrive_tests s c : callers (arrive c s) !! length (callers s) = Some (Testing c).
Proof. by apply list_lookup_middle. Qed.

Lemma release_ok s i c : gate_ok s -> callers s !! i = Some (Inside c) -> gate_ok (release i c s).
Proof.
  intros Hs Hi. pose proof (gate_nonneg s Hs) as (_ & _ & Hnt). destruct Hs as [Ha Hw Ht He Hp]. unfold release. cbv zeta.
  match goal with |- gate_ok (notify_all (if ?b then ?s1 else ?s2)) =>
    assert (H : gate_ok (notify_all s2)); [|destruct b; [|done]] end.
  - apply gate_awake; cbn [place active waiting callers setf].
    + intros c'. pose proof (Ha c'). counting Hi.
    + intros c'. pose proof (Hw c'). counting Hi.
    + rewrite total_add. lia.
    + intros Hl. change (count (add c (-1) (active s)) EVAL_TRAFFIC <= limit - 1). rewrite count_add.
      specialize (He Hl). cbn [count]. case_decide; lia.
  - destruct H as [H1 H2 H3 H4 H5]. constructor; try done. intros j c' Hj. by apply waking_none in Hj.
Qed.

Lemma step_ok s e s' : gate_ok s -> step s e s' -> gate_ok s'.
Proof.
  intros Hs H. destruct H as [c expired s|i c expired s Hi|i c s Hi|i c s Hi|s].
  - by apply turn_ok; [apply arrive_ok|apply arrive_tests].
  - by apply turn_ok.
  - destruct Hs as [Ha Hw Ht He Hp]. constructor; cbn [place active waiting callers setf]; try done.
    + intros c'. pose proof (Ha c'). counting Hi.
    + intros c'. pose proof (Hw c'). counting Hi.
    + intros j c' Hj. apply list_lookup_insert_Some in Hj as [(-> & ? & _)|[Hne Hj]]; [done|]. by apply (Hp j c').
  - by apply release_ok.
  - destruct Hs as [Ha Hw Ht He Hp]. by apply gate_awake.
Qed.

Lemma idle_ok : 1 <= limit -> gate_ok idle.
Proof. intros Hl. constructor; cbn; try lia; try (intros []; done); unfold total; cbn; lia. Qed.

Lemma run_ok s l s' : gate_ok s -> run s l s' -> gate_ok s'.
Proof. intros Hs H. induction H as [|s e s' l s'' Hst _ IH]; [done|]. apply IH. by eapply step_ok. Qed.

(** ** Fairness *)

(** A live caller finds a place whenever no live call is inside, and an evaluation finds one
    whenever a place is free and none is inside: each class keeps one place from the other. *)
Lemma reserved_place s : 1 < limit -> gate_ok s -> closed s = false ->
  (live_count (active s) = 0 -> can_admit s LIVE_TRAFFIC = true) /\
  (eval_count (active s) = 0 -> total (active s) < limit -> can_admit s EVAL_TRAFFIC = true).
Proof.
  intros Hl [_ _ Ht He _] Ho. specialize (He Hl). unfold can_admit, total in *. rewrite Ho. cbn [orb count].
  destruct (Z.eqb_spec limit 1); [lia|]. split; intros H0; rewrite H0 in *.
  - destruct (Z.leb_spec limit (0 + eval_count (active s))); [lia|].
    destruct (Z.eqb_spec (eval_count (active s)) 0) as [->|]; [|by rewrite andb_false_r].
    destruct (negb _); cbn; [|done]. apply Z.ltb_lt. lia.
  - intros Hlt. destruct (Z.leb_spec limit (live_count (active s) + 0)); [lia|]. apply Z.ltb_lt. lia.
Qed.

(** A free place is not kept from everybody: unless the only callers waiting are evaluations
    that already hold all their places, one of them can be admitted. *)
Lemma work_conserving s : gate_ok s -> closed s = false -> total (active s) < limit ->
  (0 < live_count (waiting s) ->
     can_admit s LIVE_TRAFFIC = true \/ (0 < eval_count (waiting s) /\ can_admit s EVAL_TRAFFIC = true)) /\
  (0 < eval_count (waiting s) -> (limit = 1 \/ eval_count (active s) < limit - 1) ->
     can_admit s EVAL_TRAFFIC = true \/ (0 < live_count (waiting s) /\ can_admit s LIVE_TRAFFIC = true)).
Proof.
  intros Hs Ho Ht. pose proof (gate_nonneg s Hs) as (_ & Hnw & _).
  pose proof (Hnw LIVE_TRAFFIC) as Hwl. pose proof (Hnw EVAL_TRAFFIC) as Hwe. cbn [count] in *.
  unfold can_admit. rewrite Ho. cbn [orb count other]. destruct (Z.leb_spec limit (total (active s))); [lia|].
  destruct (Z.eqb_spec limit 1) as [->|Hl1].
  - split; intros Hw; destruct (Z.eqb_spec (eval_count (waiting s)) 0), (Z.eqb_spec (live_count (waiting s)) 0);
      destruct (preferred s); cbn; try (by left); try (by right; split; [lia|]); try lia.
  - split.
    + intros _. destruct (Z.eqb_spec (eval_count (waiting s)) 0) as [|Hwe']; cbn; [by left|].
      destruct (Z.eqb_spec (eval_count (active s)) 0) as [H0|]; [|by left].
      destruct (Z.ltb_spec (total (active s)) (limit - 1)); [by left|]. right. split; [lia|]. apply Z.ltb_lt.
      unfold total in *. destruct Hs as [Ha _ Hto _ _]. pose proof (Ha LIVE_TRAFFIC) as HaL. cbn in HaL.
      pose proof (sum_nonneg (is_inside LIVE_TRAFFIC) (callers s) (inside_nonneg _)). lia.
    + intros _ [?|He]; [done|]. left. by apply Z.ltb_lt.
Qed.

(** A caller that waits and can be admitted is awake, so its next turn admits it. *)
Lemma waiter_awake s c : gate_ok s -> 0 < count (waiting s) c -> can_admit s c = true ->
  exists i s', step s (Answered i c Granted) s'.
Proof.
  intros [_ Hw _ _ Hp] Hpos Hc. rewrite Hw in Hpos.
  assert (exists i x, callers s !! i = Some x /\ 0 < is_waiting c x) as (i & x & Hi & Hx).
  { clear -Hpos. induction (callers s) as [|x l IH]; cbn in Hpos; [lia|].
    destruct (decide (0 < is_waiting c x)); [by exists 0%nat, x|].
    destruct IH as (i & y & Hi & Hy); [lia|]. by exists (S i), y. }
  rewrite waiting_at in Hx. destruct x as [c'|c'|c'|]; try lia; case_decide; try lia; subst c'.
  - exists i, (turn i c false s).2. replace Granted with (turn i c false s).1 by (unfold turn; by rewrite Hc).
    by constructor.
  - destruct (Hp i c Hi). congruence.
Qed.

(** ** One place *)

Definition leaves (c : traffic) (e : event) : bool :=
  match e with
  | Answered _ c' v => bool_decide (c' = c) && (match v with Waits => false | _ => true end)
  | _ => false
  end.
Definition admits (c : traffic) (e : event) : bool :=
  match e with Answered _ c' Granted => bool_decide (c' = c) | _ => false end.

Record turn_of (d : traffic) (s : capacity) : Prop := {
  to_gate : gate_ok s; to_preferred : preferred s = d; to_waits : 0 < count (waiting s) d;
  to_empty : total (active s) = 0
}.

Lemma turn_of_blocked d s : limit = 1 -> turn_of d s -> can_admit s (other d) = false.
Proof.
  intros Hl [_ Hp Hw _]. unfold can_admit. destruct (closed s || _); [done|]. rewrite (proj2 (Z.eqb_eq limit 1) Hl).
  replace (other (other d)) with d by (by destruct d). destruct (Z.eqb_spec (count (waiting s) d) 0); [lia|].
  cbn. apply bool_decide_eq_false. rewrite Hp. intros E. by apply (other_neq d).
Qed.

Lemma turn_event d s i c expired : limit = 1 -> turn_of d s -> callers s !! i = Some (Testing c) ->
  leaves d (Answered i c (turn i c expired s).1) = false ->
  turn_of d (turn i c expired s).2 /\ admits (other d) (Answered i c (turn i c expired s).1) = false.
Proof.
  intros Hl Hto Hi Hleave. pose proof (turn_of_blocked d s Hl Hto) as Hb.
  pose proof (turn_ok s i c expired (to_gate _ _ Hto) Hi) as Hok. destruct Hto as [Hg Hp Hw He].
  unfold turn in *. destruct (decide (c = d)) as [->|Hcd].
  - destruct (can_admit s d), (closed s), expired; cbn in Hleave |- *; rewrite ?bool_decide_true in Hleave by done;
      try done. all: split; [|done]; constructor; cbn [place active waiting preferred notify_all setf]; done.
  - assert (c = other d) as -> by (destruct c, d; done). rewrite Hb in *.
    assert (Hwait : 0 < count (add (other d) (-1) (waiting s)) d).
    { rewrite count_add, decide_False by apply other_neq. lia. }
    destruct (closed s), expired; cbn in Hok |- *; split; try done;
      constructor; cbn [place active waiting preferred notify_all setf]; done.
Qed.

Lemma step_turn d s e s' : limit = 1 -> turn_of d s -> step s e s' -> leaves d e = false ->
  turn_of d s' /\ admits (other d) e = false.
Proof.
  intros Hl Hto Hst. destruct Hst as [c expired s|i c expired s Hi|i c s Hi|i c s Hi|s].
  - apply turn_event; [done| |apply arrive_tests]. destruct Hto as [Hg Hpr Hwd Hem].
    constructor; [by apply arrive_ok|done| |done]. cbn [arrive waiting setf]. rewrite count_add. case_decide; lia.
  - by apply turn_event.
  - intros _. split; [|done]. pose proof (step_ok s Silent (place i (Testing c) s) (to_gate _ _ Hto)) as Hok.
    destruct Hto. constructor; try done. apply Hok. by constructor.
  - exfalso. destruct Hto as [[Ha _ _ _ _] _ _ He].
    pose proof (sum_pos (is_inside c) _ i _ (inside_nonneg c) Hi) as H. rewrite inside_at, decide_True in H by done.
    assert (forall c', 0 <= count (active s) c') by (intros; rewrite Ha; apply sum_nonneg, inside_nonneg).
    rewrite total_counts in He. pose proof (Ha c). destruct c; specialize (H0 LIVE_TRAFFIC) as A;
      specialize (H0 EVAL_TRAFFIC) as B; lia.
  - intros _. split; [|done]. pose proof (step_ok s Silent (close s) (to_gate _ _ Hto)) as Hok.
    destruct Hto. constructor; try done. apply Hok. by constructor.
Qed.

(** C22: The gate in every state that any interleaving of callers, deadlines and a shutdown can
    reach: the counters are the numbers of callers inside and waiting, at most [limit] calls
    are inside, evaluations leave one of several places to live traffic, and no wake-up is
    lost: a caller is asleep only while the gate is open and it cannot be admitted. *)
Theorem capacity_invariant s : 1 <= limit -> reachable s -> gate_ok s.
Proof. intros Hl [l Hr]. by eapply run_ok; [apply idle_ok|]. Qed.

Definition admissible (s : capacity) (c : traffic) : Prop := exists i s', step s (Answered i c Granted) s'.

(** Progress of both classes while the gate is open.  With several places, a waiting live
    caller can be admitted whenever no live call is inside, and a waiting evaluation whenever
    a place is free and no evaluation is inside; with a place free, a waiting live caller, or
    an evaluation that waits beside it, can be admitted.  With one place, after a call of one
    class ended while the other class waited, that class is not admitted again before a
    caller of the other class has been admitted or has left. *)
Theorem capacity_progress s : 1 <= limit -> reachable s ->
  (closed s = false ->
     (1 < limit -> 0 < live_count (waiting s) -> live_count (active s) = 0 -> admissible s LIVE_TRAFFIC) /\
     (1 < limit -> 0 < eval_count (waiting s) -> eval_count (active s) = 0 -> total (active s) < limit ->
        admissible s EVAL_TRAFFIC) /\
     (0 < live_count (waiting s) -> total (active s) < limit ->
        admissible s LIVE_TRAFFIC \/ admissible s EVAL_TRAFFIC)) /\
  (forall i c l s', limit = 1 -> callers s !! i = Some (Inside c) -> 0 < count (waiting s) (other c) ->
     run (release i c s) l s' -> existsb (leaves (other c)) l = false -> existsb (admits c) l = false).
Proof.
  intros Hl [h Hh]. pose proof (run_ok _ _ _ (idle_ok Hl) Hh) as Hs. split.
  - intros Ho. split_and!.
    + intros H1 Hw H0. apply waiter_awake; [done|done|]. by apply (reserved_place s H1 Hs Ho).
    + intros H1 Hw H0 Ht. apply waiter_awake; [done|done|]. by apply (reserved_place s H1 Hs Ho).
    + intros Hw Ht. destruct (proj1 (work_conserving s Hs Ho Ht) Hw) as [Hc|[Hw' Hc]]; [left|right];
        by apply waiter_awake.
  - intros i c l s' H1 Hi Hw Hrun Hno.
    assert (Hto : turn_of (other c) (release i c s)).
    { pose proof (release_ok s i c Hs Hi) as Hok. destruct Hs as [Ha _ Ht _ _].
      pose proof (sum_pos (is_inside c) _ i _ (inside_nonneg c) Hi) as Hpos. rewrite inside_at, decide_True in Hpos by done.
      unfold release in *. cbv zeta in *. cbn [place waiting setf] in *.
      rewrite H1 in *. cbn [Z.eqb Pos.eqb andb] in *.
      destruct (Z.eqb_spec (count (waiting s) (other c)) 0); [lia|]. cbn [negb] in *.
      constructor; [done|done|done|]. change (total (add c (-1) (active s)) = 0). rewrite total_add.
      rewrite total_counts in *. pose proof (Ha LIVE_TRAFFIC) as A. pose proof (Ha EVAL_TRAFFIC) as B.
      pose proof (sum_nonneg (is_inside LIVE_TRAFFIC) (callers s) (inside_nonneg _)).
      pose proof (sum_nonneg (is_inside EVAL_TRAFFIC) (callers s) (inside_nonneg _)). destruct c; lia. }
    clear -Hto Hrun Hno H1. induction Hrun as [|s0 e s1 l s2 Hst _ IH]; [done|].
    cbn in Hno |- *. apply orb_false_iff in Hno as [He Hno].
    destruct (step_turn _ _ _ _ H1 Hto Hst He) as [Hto' Ha]. replace (other (other c)) with c in Ha by (by destruct c).
    rewrite Ha. by apply IH.
Qed.
End Gate.

(** ** Two small gates *)

Definition enter (limit : Z) (c : traffic) (s : capacity) : capacity := (admission limit c false s).2.

Lemma enter_reachable limit c s : reachable limit s -> reachable limit (enter limit c s).
Proof.
  intros [l Hl]. exists (l ++ [Answered (length (callers s)) c (admission limit c false s).1]).
  induction Hl as [s|s e s' l s'' Hst _ IH]; cbn.
  - eapply run_cons; [constructor|constructor].
  - by eapply run_cons.
Qed.

(** Two places: an evaluation inside and another one parked, since the second place is kept
    for live traffic. *)
Definition crowded : capacity := enter 2 EVAL_TRAFFIC (enter 2 EVAL_TRAFFIC idle).

(** One place: a live call inside and an evaluation parked. *)
Definition single : capacity := enter 1 EVAL_TRAFFIC (enter 1 LIVE_TRAFFIC idle).

Lemma capacity_invariant_witness :
  callers crowded = [Inside EVAL_TRAFFIC; Parked EVAL_TRAFFIC] /\ gate_ok 2 crowded.
Proof.
  split; [reflexivity|]. apply (capacity_invariant 2 crowded); [lia|]. do 2 apply enter_reachable. exists []. constructor.
Defined.

Lemma capacity_progress_witness :
  callers single = [Inside LIVE_TRAFFIC; Parked EVAL_TRAFFIC] /\
  forall l s', run 1 (release 1 0 LIVE_TRAFFIC single) l s' -> existsb (leaves EVAL_TRAFFIC) l = false ->
               existsb (admits LIVE_TRAFFIC) l = false.
Proof.
  split; [reflexivity|]. intros l s' Hrun Hno.
  apply (proj2 (capacity_progress 1 single ltac:(lia)
    ltac:(do 2 apply enter_reachable; exists []; constructor)) 0%nat LIVE_TRAFFIC l s'); [done|done| |done|done].
  vm_compute. reflexivity.
Defined.
