(* ===== verification/TextWindow.v ===== *)
(** * Sizing text to a context window

    [src/backend/llm_agent/app/services/text_window.py]: the estimate of tokens, the
    splitting of a document at natural boundaries, the middle cut of one prompt, and the
    resolver of a model's input budget with its cache.  What the client answers when it is
    asked for the window is a parameter. *)

From stdpp Require Import base strings list.
From S2P Require Import Prelude PyValue.

Local Open Scope string_scope.
Local Open Scope list_scope.
Local Open Scope Z_scope.

(** [int(len(text) / 3.5) + 1], and 0 for the empty text. *)
Definition estimate_tokens (t : text) : Z :=
  match t with [] => 0 | _ => 2 * zlen t / 7 + 1 end.

Definition SAFETY_MARGIN_TOKENS : Z := 128.

(** ** Boundaries *)

(** [text.startswith(sep, i)]. *)
Definition starts_at (sep t : text) (i : nat) : bool := bool_decide (take (length sep) (drop i t) = sep).

(** The last of [n] positions from [lo] on at which [sep] starts. *)
Fixpoint last_at (sep t : text) (lo n : nat) : option nat :=
  match n with
  | O => None
  | S n' => if starts_at sep t (lo + n') then Some (lo + n')%nat else last_at sep t lo n'
  end.

(** [text.rfind(sep, lo, hi)]; [None] is -1. *)
Definition rfind (sep t : text) (lo hi : nat) : option nat := last_at sep t lo (S (hi - lo) - length sep).

Definition SEPARATORS : list text := [[10; 10]; lit ". "; [10]; lit " "].

Fixpoint boundary_of (seps : list text) (t : text) (floor end_ : nat) : nat :=
  match seps with
  | [] => end_
  | sep :: seps =>
      match rfind sep t floor end_ with
      | Some found => if (floor <? found)%nat then (found + length sep)%nat else boundary_of seps t floor end_
      | None => boundary_of seps t floor end_
      end
  end.

Definition boundary_before (t : text) (start end_ : nat) : nat :=
  boundary_of SEPARATORS t (start + (end_ - start) / 2)%nat end_.

(** ** Splitting *)

Definition slice (t : text) (i j : nat) : text := take (j - i) (drop i t).

Definition piece_end (t : text) (max_chars start : nat) : nat :=
  let end_ := Nat.min (start + max_chars) (length t) in
  if (end_ <? length t)%nat then boundary_before t start end_ else end_.

Fixpoint split_from (fuel : nat) (t : text) (max_chars overlap start : nat) : list text :=
  match fuel with
  | O => []
  | S fuel =>
      if (start <? length t)%nat then
        let end_ := piece_end t max_chars start in
        slice t start end_ ::
          (if (length t <=? end_)%nat then []
           else split_from fuel t max_chars overlap (Nat.max (end_ - overlap) (start + 1)))
      else []
  end.

Definition ValueError {A} (m : string) : outcome py_exn A := Raise (PyError (lit "ValueError") (lit m)).

Definition clamp_overlap (max_chars overlap_chars : Z) : Z := Z.max 0 (Z.min overlap_chars (max_chars / 2)).

Definition split_text (t : text) (max_chars overlap_chars : Z) : outcome py_exn (list text) :=
  if max_chars <=? 0 then ValueError "max_chars must be positive"
  else match t with
       | [] => Ok []
       | _ => if zlen t <=? max_chars then Ok [t]
              else Ok (split_from (length t) t (Z.to_nat max_chars)
                         (Z.to_nat (clamp_overlap max_chars overlap_chars)) 0)
       end.

Definition truncate_middle (t : text) (max_chars : Z) : outcome py_exn text :=
  if max_chars <=? 0 then ValueError "max_chars must be positive"
  else if zlen t <=? max_chars then Ok t
  else
    let prefix_chars := max_chars / 2 in
    Ok (py_prefix t prefix_chars ++ py_suffix t (- (max_chars - prefix_chars))).

(** ** The budget of a model *)

Record window_config := mkWindowConfig { vllm_max_model_len : Z; vllm_max_tokens : Z }.

Definition or_default (n d : Z) : Z := if n =? 0 then d else n.

(** Python's [int] of a window the client reports. *)
Definition positive_window (w : option Z) : option Z :=
  match w with Some n => if n <=? 0 then None else Some n | None => None end.

(** [_discover]: the answer of [get_context_window], when the client has one. *)
Definition discover (probe : option (outcome py_exn (option Z))) : option Z :=
  match probe with
  | None => None
  | Some (Raise _) => None
  | Some (Ok w) => positive_window w
  end.

(** The cache of the resolver. *)
Abbreviation windows := (list (text * Z)).

Fixpoint cached (model : text) (c : windows) : option Z :=
  match c with
  | [] => None
  | (m, w) :: c => if decide (m = model) then Some w else cached model c
  end.

Section Resolver.
Context (cfg : window_config).

Definition configured_window : Z := or_default (vllm_max_model_len cfg) 4096.

(** [probe] is what asking the client would answer now. *)
Definition context_tokens (probe : option (outcome py_exn (option Z))) (model : text) (c : windows) : Z * windows :=
  match cached model c with
  | Some w => (w, c)
  | None => let w := default configured_window (discover probe) in (w, c ++ [(model, w)])
  end.

Definition available_tokens (window reserved_tokens output_tokens : Z) : Z :=
  window - output_tokens - reserved_tokens - SAFETY_MARGIN_TOKENS.

Definition budget_of (window reserved_tokens output_tokens : Z) : outcome py_exn Z :=
  let available := available_tokens window reserved_tokens output_tokens in
  if available <=? 0 then ValueError "Prompt reservations leave no room in the model context window"
  else Ok (Z.max 1 (Z.max 1 (available - 1) * 7 / 2)).

Definition input_budget_chars (probe : option (outcome py_exn (option Z))) (model : text) (reserved_tokens : Z)
    (output_tokens : option Z) (c : windows) : outcome py_exn Z * windows :=
  let output := match output_tokens with Some n => n | None => or_default (vllm_max_tokens cfg) 512 end in
  let '(w, c') := context_tokens probe model c in
  (budget_of w reserved_tokens output, c').
End Resolver.

(** ** Tokens of a text within the budget *)

Lemma estimate_bound t : 7 * estimate_tokens t <= 2 * zlen t + 7.
Proof.
  destruct t as [|x t]; [done|]. unfold estimate_tokens. set (n := 2 * zlen (x :: t)).
  pose proof (Z.mul_div_le n 7). lia.
Qed.

Lemma estimate_lower t : 2 * zlen t <= 7 * estimate_tokens t.
Proof.
  destruct t as [|x t]; [done|]. unfold estimate_tokens. set (n := 2 * zlen (x :: t)).
  pose proof (Z.mul_succ_div_gt n 7). lia.
Qed.

Lemma estimate_mono t n : 0 < n -> 2 * zlen t <= 7 * n - 1 -> estimate_tokens t <= n.
Proof.
  intros Hn H. destruct t as [|x t]; [cbn; lia|]. unfold estimate_tokens.
  enough (2 * zlen (x :: t) / 7 < n) by lia. apply Z.div_lt_upper_bound; lia.
Qed.

(** A text of the budget's length, with the reservations and the margin, fits the window. *)
Lemma budget_fits w reserved output b t :
  budget_of w reserved output = Ok b -> zlen t <= b ->
  estimate_tokens t + reserved + output + SAFETY_MARGIN_TOKENS <= w.
Proof.
  unfold budget_of, available_tokens. destruct (Z.leb_spec (w - output - reserved - SAFETY_MARGIN_TOKENS) 0); [done|].
  intros [= <-] Ht. set (a := w - output - reserved - SAFETY_MARGIN_TOKENS) in *.
  enough (estimate_tokens t <= a) by lia. apply estimate_mono; [lia|].
  pose proof (Z.mul_div_le (Z.max 1 (a - 1) * 7) 2). lia.
Qed.

(** ** The pieces of a text *)

Lemma last_at_Some sep t lo n i : last_at sep t lo n = Some i -> (lo <= i < lo + n)%nat /\ starts_at sep t i = true.
Proof.
  induction n as [|n IH]; cbn; [done|]. case_match; [intros [= <-]; split; [lia|done]|].
  intros H'. apply IH in H' as [? ?]. split; [lia|done].
Qed.

Lemma rfind_Some sep t lo hi i : (lo <= hi)%nat -> rfind sep t lo hi = Some i ->
  (lo <= i)%nat /\ (i + length sep <= hi)%nat.
Proof. intros Hle H. apply last_at_Some in H as [? _]. lia. Qed.

Lemma boundary_of_bounds seps t floor end_ : (floor < end_)%nat -> Forall (fun s => s <> []) seps ->
  (floor < boundary_of seps t floor end_ <= end_)%nat.
Proof.
  intros Hle. induction 1 as [|sep seps Hsep _ IH]; cbn [boundary_of]; [lia|].
  destruct (rfind sep t floor end_) as [i|] eqn:E; [|exact IH]. destruct (Nat.ltb_spec floor i); [|exact IH].
  apply rfind_Some in E as [? ?]; [|lia]. destruct sep; [done|]. cbn in *. lia.
Qed.

(** A piece advances past the middle of its room and stays within it. *)
Lemma piece_end_bounds t max_chars start : (0 < max_chars)%nat -> (start < length t)%nat ->
  (start < piece_end t max_chars start <= length t)%nat /\
  (piece_end t max_chars start <= start + max_chars)%nat /\
  ((piece_end t max_chars start < length t)%nat -> (start + max_chars / 2 < piece_end t max_chars start)%nat).
Proof.
  intros Hm Hs. unfold piece_end. set (e := Nat.min _ _).
  assert (He : (start < e <= length t)%nat /\ (e <= start + max_chars)%nat) by lia.
  destruct (Nat.ltb_spec e (length t)) as [Hlt|]; [|split_and!; lia].
  assert (e = start + max_chars)%nat as E by lia. unfold boundary_before. rewrite E.
  replace (start + max_chars - start)%nat with max_chars by lia.
  assert (max_chars / 2 < max_chars)%nat by (apply Nat.div_lt; lia).
  pose proof (boundary_of_bounds SEPARATORS t (start + max_chars / 2) (start + max_chars)) as Hb.
  assert (Forall (fun s : text => s <> []) SEPARATORS) as Hsep by (by repeat (apply Forall_cons; split; [done|])).
  specialize (Hb ltac:(lia) Hsep). split_and!; lia.
Qed.

(** What it means that [l] are pieces of [t] from [start] on: each starts inside or at the end
    of its predecessor, shares at most [overlap] characters with it, makes [advance] characters
    of progress, and the last one ends the text. *)
Inductive pieces (t : text) (overlap advance : nat) : nat -> list text -> Prop :=
  | piece_last start : (start < length t)%nat -> pieces t overlap advance start [drop start t]
  | piece_more start e start' l :
      (start + overlap < e < length t)%nat -> (start' <= e <= start' + overlap)%nat -> (start + advance <= start')%nat ->
      pieces t overlap advance start' l -> pieces t overlap advance start (slice t start e :: l).

Lemma split_from_pieces fuel t max_chars overlap start :
  (0 < max_chars)%nat -> (overlap <= max_chars / 2)%nat -> (start < length t)%nat -> (length t - start <= fuel)%nat ->
  pieces t overlap (max_chars / 2 + 1 - overlap) start (split_from fuel t max_chars overlap start) /\
  Forall (fun p => (0 < length p <= max_chars)%nat) (split_from fuel t max_chars overlap start).
Proof.
  revert start. induction fuel as [|fuel IH]; intros start Hm Ho Hs Hf; [lia|]. cbn [split_from].
  destruct (piece_end_bounds t max_chars start Hm Hs) as (H1 & H2 & H3).
  set (e := piece_end t max_chars start) in *. destruct (Nat.ltb_spec start (length t)); [|lia].
  assert (Hlen : (0 < length (slice t start e) <= max_chars)%nat).
  { unfold slice. rewrite length_take, length_drop. lia. }
  destruct (Nat.leb_spec (length t) e) as [Hge|Hlt].
  - assert (slice t start e = drop start t) as ->.
    { unfold slice. apply take_ge. rewrite length_drop. lia. }
    split; [by constructor|]. constructor; [|constructor]. rewrite length_drop. lia.
  - specialize (H3 Hlt). replace (Nat.max (e - overlap) (start + 1)) with (e - overlap)%nat by lia.
    destruct (IH (e - overlap)%nat Hm Ho ltac:(lia) ltac:(lia)) as [Hp Hl].
    split; [|by constructor]. econstructor; [| | |exact Hp]; lia.
Qed.

Lemma slice_app t i j : (i <= j <= length t)%nat -> slice t i j ++ drop j t = drop i t.
Proof.
  intros H. unfold slice. rewrite <- (take_drop (j - i) (drop i t)) at 2. rewrite drop_drop. by replace (i + (j - i))%nat with j by lia.
Qed.

(** The text is the pieces without what each of them repeats. *)
Lemma pieces_rejoin t overlap advance start l : pieces t overlap advance start l ->
  forall k, (k <= overlap)%nat -> exists ks, length ks = length l /\ head ks = Some k /\
    Forall (fun n => n <= overlap)%nat ks /\ drop k (drop start t) = concat (zip_with drop ks l).
Proof.
  induction 1 as [start Hs|start e start' l He Ho Ha _ IH]; intros k Hk.
  - exists [k]. split_and!; [done|done|by constructor|]. cbn. by rewrite app_nil_r.
  - destruct (IH (e - start')%nat) as (ks & Hl & Hh & Hf & E); [lia|].
    exists (k :: ks). split_and!; cbn; [by rewrite Hl|done|by constructor|].
    rewrite <- (slice_app t start e) by lia. rewrite <- E, drop_drop.
    replace (start' + (e - start'))%nat with e by lia. rewrite drop_app_le; [done|]. unfold slice. rewrite length_take, length_drop. lia.
Qed.

Lemma pieces_count t overlap advance start l : pieces t overlap advance start l ->
  ((length l - 1) * advance <= length t - start)%nat.
Proof.
  induction 1 as [start Hs|start e start' l He Ho Ha Hp IH]; cbn; [lia|].
  assert (0 < length l)%nat by (destruct Hp; cbn; lia). nia.
Qed.

Lemma rejoin_concat ks (l : list text) : length ks = length l -> Forall (fun n => n = 0%nat) ks ->
  concat (zip_with drop ks l) = concat l.
Proof.
  revert l. induction ks as [|k ks IH]; intros [|p l] Hl Hf; try done. apply Forall_cons in Hf as [-> Hf]. cbn in *.
  rewrite IH; [done|lia|done].
Qed.

(** [split_text] splits a document without losing any of it: every piece has at least one
    and at most [max_chars] characters; dropping from the start of each later piece the at
    most [overlap] characters it repeats, the pieces join to the text, so without overlap the
    pieces are the text; and beyond the first piece each advances by half the bound less the
    overlap, which bounds the number of model calls. *)
Theorem split_text_covers t max_chars overlap_chars l :
  split_text t max_chars overlap_chars = Ok l -> t <> [] ->
  Forall (fun p => 0 < zlen p <= max_chars) l /\
  (exists ks, length ks = length l /\ head ks = Some 0%nat /\
     Forall (fun k => Z.of_nat k <= clamp_overlap max_chars overlap_chars) ks /\ concat (zip_with drop ks l) = t) /\
  (overlap_chars <= 0 -> concat l = t) /\
  (zlen l - 1) * (max_chars / 2 + 1 - clamp_overlap max_chars overlap_chars) <= zlen t.
Proof.
  unfold split_text. destruct (Z.leb_spec max_chars 0) as [|Hm]; [done|]. intros H Ht. destruct t as [|x t]; [done|].
  set (t' := x :: t) in *. assert (Hpos : 0 < zlen t') by (unfold zlen; cbn; lia).
  assert (Hov : 0 <= clamp_overlap max_chars overlap_chars <= max_chars / 2).
  { unfold clamp_overlap. pose proof (Z.div_pos max_chars 2). lia. }
  destruct (Z.leb_spec (zlen t') max_chars) as [Hle|Hgt];
    apply (f_equal (fun o => match o with Ok a => a | Raise _ => [] end)) in H; cbv beta iota in H.
  - rewrite <- H. split_and!; [by constructor| |cbn; by rewrite app_nil_r|unfold zlen at 1; cbn [length]; lia].
    exists [0%nat]. split_and!; [done|done|constructor; [lia|constructor]|cbn; by rewrite app_nil_r].
  - set (ov := clamp_overlap max_chars overlap_chars) in *.
    assert (Hdiv : (Z.to_nat max_chars / 2 = Z.to_nat (max_chars / 2))%nat) by (rewrite Z2Nat.inj_div; [done|lia|lia]).
    destruct (split_from_pieces (length t') t' (Z.to_nat max_chars) (Z.to_nat ov) 0) as [Hp Hf]; [lia|lia|cbn; lia|lia|].
    rewrite H in Hp, Hf. split_and!.
    + eapply Forall_impl; [exact Hf|]. intros p Hp'. cbn in Hp'. unfold zlen. lia.
    + destruct (pieces_rejoin _ _ _ _ _ Hp 0) as (ks & H1 & H2 & H3 & H4); [lia|].
      exists ks. split_and!; [done|done| |done]. eapply Forall_impl; [exact H3|]. intros k Hk. cbn in Hk. lia.
    + intros Ho. destruct (pieces_rejoin _ _ _ _ _ Hp 0) as (ks & H1 & H2 & H3 & H4); [lia|].
      rewrite <- (rejoin_concat ks l H1); [done|]. eapply Forall_impl; [exact H3|].
      intros k Hk. cbn in Hk. unfold ov, clamp_overlap in Hk. lia.
    + pose proof (pieces_count _ _ _ _ _ Hp) as Hc. unfold zlen. rewrite Hdiv in Hc. nia.
Qed.

(** [truncate_middle] returns the text when it fits and otherwise exactly [max_chars]
    characters, the first half from its start and the rest from its end. *)
Lemma truncate_middle_spec t max_chars r : truncate_middle t max_chars = Ok r ->
  zlen r <= max_chars /\
  (r = t \/ exists a b c, t = a ++ b ++ c /\ r = a ++ c /\ zlen a = max_chars / 2 /\ zlen r = max_chars).
Proof.
  unfold truncate_middle. destruct (Z.leb_spec max_chars 0) as [|Hm]; [done|].
  destruct (Z.leb_spec (zlen t) max_chars) as [Hle|Hgt]; intros [= <-]; [split; [done|by left]|].
  assert (Hh : 0 <= max_chars / 2 < max_chars) by (split; [apply Z.div_pos; lia|apply Z.div_lt; lia]).
  set (h := max_chars / 2) in *. set (n := Z.to_nat (zlen t - (max_chars - h))).
  assert (Hs : py_suffix t (- (max_chars - h)) = drop n t).
  { unfold py_suffix, py_slice, py_index. destruct (Z.ltb_spec (- (max_chars - h)) 0); [|lia].
    destruct (Z.ltb_spec (Z.of_nat (length t)) 0); [lia|]. rewrite take_ge; [|rewrite length_drop; unfold zlen in *; lia].
    f_equal. unfold n, zlen in *. lia. }
  rewrite Hs, py_prefix_nonneg by lia.
  assert (Hlen : zlen (take (Z.to_nat h) t ++ drop n t) = max_chars).
  { unfold n, zlen in *. rewrite length_app, length_take, length_drop. lia. }
  split; [lia|]. right. exists (take (Z.to_nat h) t), (drop (Z.to_nat h) (take n t)), (drop n t).
  split_and!; [|done|unfold zlen in *; rewrite length_take; lia|done].
  assert (Z.to_nat h <= n)%nat by (unfold n, zlen in *; lia).
  rewrite app_assoc. rewrite <- (take_drop n t) at 1. f_equal.
  rewrite <- (take_drop (Z.to_nat h) (take n t)) at 1. by rewrite take_take, Nat.min_l by lia.
Qed.

(** The window that was configured because the client could not answer is kept for the life
    of the process, whatever the client says later. *)
Theorem fallback_window_kept cfg model probe probe' c :
  cached model c = None -> discover probe = None ->
  let '(w, c') := context_tokens cfg probe model c in
  context_tokens cfg probe' model c' = (configured_window cfg, c').
Proof.
  intros Hc Hd. unfold context_tokens at 1. rewrite Hc, Hd. cbn [default]. unfold context_tokens.
  assert (cached model (c ++ [(model, configured_window cfg)]) = Some (configured_window cfg)) as ->; [|done].
  induction c as [|[m w] c IH]; cbn in *; [by rewrite decide_True|]. destruct (decide (m = model)); [done|by apply IH].
Qed.

(** Twelve characters fit two pieces of six, and are split into three: the search for a
    boundary is not a search for the fewest pieces. *)
Theorem split_not_fewest :
  split_text (lit "abcd e fgh i") 6 0 = Ok [lit "abcd "; lit "e fgh "; lit "i"] /\
  lit "abcd e fgh i" = lit "abcd e" ++ lit " fgh i" /\ zlen (lit "abcd e") = 6 /\ zlen (lit " fgh i") = 6.
Proof. by vm_compute. Qed.

Lemma split_text_covers_witness :
  split_text (lit "one two. three four") 8 2 = Ok [lit "one two."; lit "o. three"; lit "ee four"] /\
  Forall (fun p => 0 < zlen p <= 8) [lit "one two."; lit "o. three"; lit "ee four"].
Proof.
  split; [reflexivity|]. apply (split_text_covers (lit "one two. three four") 8 2); [reflexivity|done].
Defined.
