(* ===== verification/LlmPrompts.v ===== *)
(** * Prompts and parsers of the LLM agent

    [src/backend/llm_agent/app/llm/prompts]: the text each request type sends to the model
    and the reading of what the model answers, with the extraction of JSON from surrounding
    prose, the citations of an answer and the normalisation of a review.  The JSON reader and
    printer and the values of decimal digits are those of the standard library, as classes;
    the regular expressions are written out as the searches they are.  Texts are quoted with
    ` for a double quote and ~ for a line feed. *)

From stdpp Require Import base strings list sets.
From S2P Require Import Prelude PyValue MemoryNormalize TextWindow.

Local Open Scope string_scope.
Local Open Scope list_scope.
Local Open Scope Z_scope.

Definition prose (s : string) : text :=
  map (fun c => if c =? 96 then 34 else if c =? 126 then 10 else c) (lit s).

(** [json.loads] ([None] when it raises) and [json.dumps], with [ensure_ascii] or not. *)
Class JsonText := { json_parse : text -> option json; json_dump : bool -> json -> text }.

(** The value of a character that [\d] matches. *)
Class Digits := digit_value : Z -> option Z.

Record rendered := mkRendered { system_prompt : text; raw_prompt : text }.

Record message := mkMessage { role : text; content_ : text }.

(** A passage with its identity, and the three shapes of a context. *)
Record passage := mkPassage { p_source_id : option text; p_text : text; p_locator : option text }.

Inductive context :=
  | CText (t : text)
  | CStrings (l : list text)
  | CPassages (l : list (text * text * option text)).

Definition strings_json (l : list text) : json := JArr (map JStr l).

(** [o or d] on optional strings. *)
Definition or_text (o : option text) (d : text) : text :=
  match o with Some ((_ :: _) as t) => t | _ => d end.

Section Prompts.
Context `{PyText} `{WordChars} `{JsonText} `{Digits}.

(** ** Formatting *)

Definition format_history (history : option (list message)) : text :=
  match history with
  | Some ((_ :: _) as l) => join [10] (map (fun m => role m ++ lit ": " ++ content_ m) l)
  | _ => lit "None"
  end.

Definition context_passages (c : context) : list passage :=
  match c with
  | CText t => [mkPassage None t None]
  | CStrings l => map (fun t => mkPassage None t None) l
  | CPassages l => map (fun p => mkPassage (Some p.1.1) p.1.2 p.2) l
  end.

Definition format_context (c : context) : text :=
  match c with
  | CText t => t
  | _ => join [10; 10] (map p_text (context_passages c))
  end.

Definition numbered (index : nat) (p : passage) : text :=
  lit "[" ++ show (Z.of_nat index) ++ lit "] " ++ p_text p.

Definition format_numbered_context (c : context) : text :=
  match context_passages c with
  | [] => lit "None"
  | l => join [10; 10] (imap (fun i p => numbered (S i) p) l)
  end.

(** ** Builders *)

Definition CITATION_INSTRUCTION : text :=
  prose "Cite the passages that support your answer inline, as [1], [2], matching the numbers " ++
  prose "above. Cite only numbers that exist. Still answer in at most 1-3 short sentences.".

Definition DEFAULT_INSTRUCTIONS : text :=
  prose "Answer briefly and professionally in at most 1-3 short sentences, using the supplied " ++
  prose "context when relevant. No filler, no preamble.".

Definition answer_generation_prompt (citations_on : bool) (question : text) (retrieved : context)
    (history : option (list message)) (instructions_ : option text) : rendered :=
  let instructions := or_text instructions_ DEFAULT_INSTRUCTIONS in
  let context := if citations_on then format_numbered_context retrieved else format_context retrieved in
  let citation_block := if citations_on then CITATION_INSTRUCTION ++ prose "~~" else [] in
  mkRendered
    (prose "You are a professional assistant. Answer briefly and professionally in at most 1-3 " ++
     prose "short sentences. No filler, no preamble, no hidden reasoning. If the context is " ++
     prose "insufficient, say so plainly.")
    (prose "Instructions:~" ++
     instructions ++
     prose "~~Conversation History:~" ++
     format_history history ++
     prose "~~Retrieved Context:~" ++
     context ++
     prose "~~Question:~" ++
     question ++
     prose "~~" ++
     citation_block ++
     prose "Do not repeat these instructions. Write only the answer below.~Answer:").

Definition DEFAULT_RUBRIC : list text := [lit "accuracy"; lit "grounding"; lit "completeness"; lit "clarity"].
Definition or_list (o : option (list text)) (d : list text) : list text :=
  match o with Some ((_ :: _) as l) => l | _ => d end.

Definition answer_evaluation_prompt_v1 (question answer : text) (context : context)
    (rubric_ : option (list text)) : rendered :=
  let rubric := or_list rubric_ DEFAULT_RUBRIC in
  mkRendered
    (prose "You evaluate answer quality. Respond with JSON only. No markdown, no code fences, no " ++
     prose "additional commentary.")
    (prose "Review the answer against the question and reference context.~~Question:~" ++
     question ++
     prose "~~Answer:~" ++
     answer ++
     prose "~~Reference Context:~" ++
     format_context context ++
     prose "~~Rubric:~" ++
     json_dump true (strings_json rubric) ++
     prose "~~Return a JSON object with exactly these keys:~- verdict~- groundedness_score~- " ++
     prose "completeness_score~- safety_score~- issues~- revision_applied~~issues must be an " ++
     prose "array of short strings. Do not include review_id, model_name, created_at, markdown, " ++
     prose "or extra keys.").

Definition answer_evaluation_prompt_v2 (question answer : text) (context : context)
    (rubric_ : option (list text)) : rendered :=
  let rubric := or_list rubric_ DEFAULT_RUBRIC in
  mkRendered
    (prose "You evaluate answer quality. Return exactly one JSON object and nothing else. Do not " ++
     prose "wrap the JSON in markdown or code fences.")
    (prose "Review the answer against the question and reference context.~~Question:~" ++
     question ++
     prose "~~Answer:~" ++
     answer ++
     prose "~~Reference Context:~" ++
     format_numbered_context context ++
     prose "~~Rubric:~" ++
     json_dump true (strings_json rubric) ++
     prose "~~Split the answer into atomic claims, then review AT MOST 4 MATERIAL~claims. For " ++
     prose "each reviewed claim, decide whether the reference context~above supports it, and list " ++
     prose "the passage numbers that do. A claim no~passage supports is unsupported.~~If the " ++
     prose "answer contains more than 4 atomic claims, choose which 4 to~review in this order of " ++
     prose "priority:~1. claims that are unsupported or contradicted by the reference context;~2. " ++
     prose "claims that materially affect the answer to the user's question;~3. otherwise the " ++
     prose "most information-bearing distinct claims.~Do not spend a claim slot on a trivial " ++
     prose "restatement or on a claim you~have already listed.~~The `claims` array is a bounded " ++
     prose "diagnostic sample of the most~material claims, not an exhaustive enumeration of every " ++
     prose "sentence in the~answer. `unsupported_claim_count` counts the unsupported claims~among " ++
     prose "the claims you reviewed; it is not a count of every unsupported~claim in the whole " ++
     prose "answer.~~Return exactly one JSON object with these keys and value types:~- `verdict`: " ++
     prose "string~- `groundedness_score`: number~- `completeness_score`: number~- " ++
     prose "`safety_score`: number~- `issues`: array of strings~- `claims`: array of AT MOST 4 " ++
     prose "objects {`claim`: string, `supported`: boolean, `supporting_passage_ids`: array of " ++
     prose "strings}~- `unsupported_claim_count`: number of unsupported claims among `claims`~- " ++
     prose "`hallucination_verdict`: one of `none`, `minor`, `severe`~- `revision_applied`: " ++
     prose "boolean~~Use `none` when every claim is supported, `minor` for an unsupported~detail " ++
     prose "that does not change the answer, and `severe` for an unsupported~claim a reader would " ++
     prose "act on.~Do not include markdown, explanations, trailing text, extra keys, or " ++
     prose "alternative JSON objects.~If you revise your answer internally, output only the final " ++
     prose "JSON object once.~Minimal valid " ++
     prose "example:~{`verdict`:`pass`,`groundedness_score`:0.92,`completeness_score`:0.85,`safety" ++
     prose "_score`:1.0,`issues`:[],`claims`:[{`claim`:`X is " ++
     prose "Y`,`supported`:true,`supporting_passage_ids`:[`1`]}],`unsupported_claim_count`:0,`hall" ++
     prose "ucination_verdict`:`none`,`revision_applied`:false}").

Definition content_risk_prompt_v1 (content : text) (hints : option (list text)) (content_type : option text) : rendered :=
  let policy_hints := or_list hints [] in
  mkRendered
    (prose "You perform content risk classification. Respond with JSON only. No markdown, no code " ++
     prose "fences, no extra prose.")
    (prose "Content Type: " ++
     or_text content_type (lit "unknown") ++
     prose "~Policy Hints: " ++
     json_dump true (strings_json policy_hints) ++
     prose "~~Content:~" ++
     content ++
     prose "~~Return a JSON object with keys: risk_level, categories, flags, summary.~flags must " ++
     prose "be an array of objects with keys: code, span, rationale.").

Definition content_risk_prompt_v2 (content : text) (hints : option (list text)) (content_type : option text) : rendered :=
  let policy_hints := or_list hints [] in
  mkRendered
    (prose "You perform content risk classification. Return exactly one JSON object and nothing " ++
     prose "else. Do not use markdown, code fences, or commentary.")
    (prose "Content Type: " ++
     or_text content_type (lit "unknown") ++
     prose "~Policy Hints: " ++
     json_dump true (strings_json policy_hints) ++
     prose "~~Content:~" ++
     content ++
     prose "~~Return exactly one JSON object with these keys and value types:~- `risk_level`: " ++
     prose "string~- `categories`: array of strings~- `flags`: array of objects with keys `code` " ++
     prose "(string), `span` (string or null), `rationale` (string)~- `summary`: string~~Do not " ++
     prose "include extra keys, markdown, surrounding prose, or alternative JSON objects.~If you " ++
     prose "revise your answer internally, output only the final JSON object once.~Minimal valid " ++
     prose "example:~{`risk_level`:`low`,`categories`:[`none`],`flags`:[],`summary`:`No material " ++
     prose "policy issues detected.`}").

Definition query_rewrite_prompt (query : text) (history : option (list message)) (rewrite_goal : option text) : rendered :=
  mkRendered
    (prose "You rewrite user queries for retrieval and search. Prefer a single best rewritten " ++
     prose "query and keep the meaning intact.")
    (prose "Conversation History:~" ++
     format_history history ++
     prose "~~Rewrite Goal:~" ++
     or_text rewrite_goal (lit "Improve retrieval quality") ++
     prose "~~Original Query:~" ++
     query ++
     prose "~~Return JSON with keys: rewritten_query, search_intent.").

Definition memory_extraction_prompt (history : list message) (existing_memory : option (list obj))
    (extraction_scope : option text) : rendered :=
  mkRendered
    (prose "Extract durable memory candidates explicitly supplied by the user or an approved " ++
     prose "product source. Ignore greetings, transient state, assistant-generated claims, " ++
     prose "unsupported inference, and facts already represented in Existing Memory. Return JSON " ++
     prose "only.")
    (prose "Conversation History:~" ++
     format_history (Some history) ++
     prose "~~Existing Memory:~" ++
     json_dump true (JArr (map JObj (default [] existing_memory))) ++
     prose "~~Extraction Scope:~" ++
     or_text extraction_scope (lit "user profile and stable preferences") ++
     prose "~~Return JSON with a top-level memories array. Each memory must include type " ++
     prose "(preference, project_fact, personal_fact, temporal_fact, scope_fact, or other), " ++
     prose "content (3..500 characters), confidence (0..1), action (ignore or create), and " ++
     prose "source_role (user or product). Return an empty array when nothing is memory-worthy.").

Definition chat_title_prompt (history : list message) : rendered :=
  mkRendered
    (prose "Create a concise conversation title. Return JSON only.")
    (prose "Conversation:~" ++
     format_history (Some (py_prefix history 10)) ++
     prose "~~Return exactly one JSON object: {`title`:`maximum 50 characters`}.").

Definition chat_summary_prompt (history : list message) : rendered :=
  mkRendered
    (prose "Compress the conversation into at most five concise sentences. Keep key facts, " ++
     prose "decisions, and outcomes; omit pleasantries. Return JSON only.")
    (prose "Conversation:~" ++
     format_history (Some history) ++
     prose "~~Return exactly one JSON object: {`summary`:`compressed history`}.").

Definition memory_curation_prompt_v1 (history : list message) (existing_memory : list obj) : rendered :=
  mkRendered
    (prose "Maintain concise, durable user memory. Merge duplicates, remove superseded facts, and " ++
     prose "add at most three genuinely new insights. Return JSON only.")
    (prose "Conversation:~" ++
     format_history (Some history) ++
     prose "~~Existing memory:~" ++
     json_dump false (JArr (map JObj existing_memory)) ++
     prose "~~Return an actions array (maximum 10) and a one-line summary. Each action is add, " ++
     prose "update, or delete. Add requires content and optional category; update requires " ++
     prose "memory_id and content; delete requires memory_id.").

Definition memory_curation_prompt_v2 (history : list message) (existing_memory : list obj)
    (deletion_authorized : bool) (validation_feedback : option text) : rendered :=
  let correction :=
    match validation_feedback with
    | Some ((_ :: _) as feedback) =>
        prose "~~The prior response failed deterministic validation: " ++ feedback ++
        prose "~Return a corrected full plan."
    | _ => []
    end in
  mkRendered
    (prose "You are a bounded memory policy, not a persistence owner. Retain only durable facts " ++
     prose "explicitly supplied by the user or an approved product source. Ignore greetings, " ++
     prose "transient chatter, assistant-authored claims, unsupported inferences, and duplicates. " ++
     prose "Distinguish corrections, temporal updates, scope differences, paraphrases, and " ++
     prose "unrelated facts. Never invent an id or authorization scope. Return JSON only.")
    (prose "Conversation:~" ++
     format_history (Some history) ++
     prose "~~Existing memory:~" ++
     json_dump false (JArr (map JObj existing_memory)) ++
     prose "~~Return an actions array (maximum 10) and a one-line summary. Allowed actions are " ++
     prose "ignore, create, update, supersede, merge_suggestion, and delete. Create requires " ++
     prose "content and no memory_id. Update/supersede require content and an id from Existing " ++
     prose "memory. Merge suggestions require an existing id and are advisory only. Delete " ++
     prose "requires an existing id and is " ++
     (if deletion_authorized then lit "authorized" else lit "NOT authorized") ++
     prose " for this request. Prefer ignore whenever evidence or lifecycle intent is uncertain. " ++
     prose "Optional fields are category, confidence (0..1), reason, fact_key, and scope." ++
     correction).

(** ** JSON in model output *)

Definition starts (p t : text) : bool := bool_decide (take (length p) t = p).

(** [re.IGNORECASE] on the letters the patterns use: [s] also matches U+017F. *)
Definition fold_case (c : Z) : Z := if (65 <=? c) && (c <=? 90) then c + 32 else if c =? 383 then 115 else c.
Definition starts_ci (p t : text) : bool := bool_decide (map fold_case (take (length p) t) = p).

Definition FENCE : text := lit "```".

(** The fenced block: three backticks, an optional [json], and three backticks at the end. *)
Definition unfence (candidate : text) : text :=
  if starts FENCE candidate then
    let body := drop 3 candidate in
    let body := if starts_ci (lit "json") body then drop 4 body else body in
    if starts FENCE (drop (length body - 3) body) && (3 <=? length body)%nat
    then py_strip (take (length body - 3) body) else candidate
  else candidate.

Fixpoint find_char (c : Z) (t : text) : option nat :=
  match t with
  | [] => None
  | x :: t => if x =? c then Some O else S <$> find_char c t
  end.

Fixpoint rfind_char (c : Z) (t : text) : option nat :=
  match t with
  | [] => None
  | x :: t => match rfind_char c t with Some i => Some (S i) | None => if x =? c then Some O else None end
  end.

(** [candidate[start : end + 1]] between the first opening and the last closing character. *)
Definition between (opening closing : Z) (t : text) : option text :=
  match find_char opening t, rfind_char closing t with
  | Some i, Some j => if (i <? j)%nat then Some (slice t i (S j)) else None
  | _, _ => None
  end.

Definition loads (t : text) : outcome py_exn json :=
  match json_parse t with
  | Some v => Ok v
  | None => Raise (PyError (lit "JSONDecodeError") (lit "Expecting value"))
  end.

Definition extract_json_payload (raw_output : text) : outcome py_exn json :=
  match py_strip raw_output with
  | [] => ValueError "Model returned an empty response"
  | stripped =>
      let candidate := unfence stripped in
      match json_parse candidate with
      | Some v => Ok v
      | None =>
          match between 123 125 candidate with
          | Some t => loads t
          | None =>
              match between 91 93 candidate with
              | Some t => loads t
              | None => ValueError "No valid JSON object found in model output"
              end
          end
      end
  end.

(** The state of the scan for complete top-level values: where the open value started, the
    closing characters that are expected, and whether a string or an escape is open. *)
Record scan := mkScan {
  sc_start : option nat; sc_stack : list Z; sc_in_string : bool; sc_escape : bool; sc_found : list text
}.
#[local] Instance eta_scan : Eta scan := fun x =>
  mkScan (sc_start x) (sc_stack x) (sc_in_string x) (sc_escape x) (sc_found x).

Definition closer (c : Z) : option Z := if c =? 123 then Some 125 else if c =? 91 then Some 93 else None.

Definition scan_char (candidate : text) (s : scan) (index : nat) (c : Z) : scan :=
  if sc_in_string s then
    if sc_escape s then s {{ sc_escape := false }}
    else if c =? 92 then s {{ sc_escape := true }}
    else if c =? 34 then s {{ sc_in_string := false }}
    else s
  else if c =? 34 then s {{ sc_in_string := true }}
  else
    match closer c with
    | Some e =>
        (match sc_stack s with [] => s {{ sc_start := Some index }} | _ => s end) {{ sc_stack ::= cons e }}
    | None =>
        if (c =? 125) || (c =? 93) then
          match sc_stack s with
          | [] => s
          | expected :: rest =>
              if negb (c =? expected) then s {{ sc_stack := [] }} {{ sc_start := None }}
              else
                let s := s {{ sc_stack := rest }} in
                match rest, sc_start s with
                | [], Some start =>
                    s {{ sc_found ::= fun l => l ++ [slice candidate start (S index)] }} {{ sc_start := None }}
                | _, _ => s
                end
          end
        else s
    end.

Fixpoint scan_from (candidate : text) (s : scan) (index : nat) (t : text) : scan :=
  match t with
  | [] => s
  | c :: t => scan_from candidate (scan_char candidate s index c) (S index) t
  end.

Definition scan_top_level_json_fragments (candidate : text) : list text :=
  sc_found (scan_from candidate (mkScan None [] false false []) 0 candidate).

Record extraction := mkExtraction { ex_payload : json; ex_metadata : obj }.

Definition StructuredOutputParseError (m : string) : py_exn := PyError (lit "StructuredOutputParseError") (lit m).

(** [selection_policy] is [last_valid] for both callers. *)
Definition extract_json_payload_with_metadata (raw_output : text) : outcome py_exn extraction :=
  match py_strip raw_output with
  | [] => Raise (StructuredOutputParseError "Model returned an empty response")
  | stripped =>
      let candidate := unfence stripped in
      let done mode (index : nat) (parsed : list json) payload :=
        Ok (mkExtraction payload
              [("payload_count", JInt (zlen parsed)); ("selected_payload_index", JInt (Z.of_nat index));
               ("selection_policy", s_ "last_valid"); ("extraction_mode", s_ mode); ("candidates", JArr parsed)]) in
      match json_parse candidate with
      | Some v => done "single_payload" O [v] v
      | None =>
          let fragments := scan_top_level_json_fragments candidate in
          let parsed := omap json_parse fragments in
          match last parsed with
          | None => Raise (StructuredOutputParseError "No valid JSON object found in model output")
          | Some payload =>
              if (1 <? length parsed)%nat then done "multi_payload_last_valid" (length parsed - 1)%nat parsed payload
              else
                done (if bool_decide (head fragments = Some candidate) then "single_payload" else "embedded_payload")
                  O parsed payload
          end
      end
  end.

(** ** Coercions *)

Definition coerce_bool (v : json) : json :=
  match v with
  | JStr t =>
      let n := lower (py_strip t) in
      if bool_decide (n = lit "true") then JBool true
      else if bool_decide (n = lit "false") then JBool false else v
  | _ => v
  end.

Definition coerce_number (v : json) : json :=
  match v with
  | JStr t =>
      match py_strip t with
      | [] => v
      | n => match parse_float n with Some q => JFloat q | None => v end
      end
  | _ => v
  end.

Definition normalize_string_list (v : json) : outcome py_exn (list text) :=
  match v with
  | JNull => Ok []
  | JStr t => Ok (match py_strip t with [] => [] | n => [n] end)
  | JArr l => Ok (List.filter (fun t => match t with [] => false | _ => true end) (map (fun x => py_strip (py_str x)) l))
  | _ => ValueError "Expected a string or list of strings"
  end.

(** [None if span is None else str(span).strip() or None]. *)
Definition span_text (v : json) : json :=
  match v with JNull => JNull | _ => match py_strip (py_str v) with [] => JNull | t => JStr t end end.

Definition normalize_flag_item (item : json) : outcome py_exn json :=
  match item with
  | JStr t =>
      match py_strip t with
      | [] => ValueError "Risk flag strings must not be empty"
      | n => Ok (JObj [("code", JStr n); ("span", JNull); ("rationale", JStr n)])
      end
  | JObj o =>
      let raw_code := get o "code" in
      let raw_rationale := get_or o "rationale" (get o "reason") in
      let code := py_strip (py_str (raw_code ||| raw_rationale ||| JStr []))%rf in
      let rationale := py_strip (py_str (raw_rationale ||| raw_code ||| JStr []))%rf in
      if bool_decide (code = []) || bool_decide (rationale = [])
      then ValueError "Risk flag objects must include a code or rationale"
      else Ok (JObj [("code", JStr code); ("span", span_text (get o "span")); ("rationale", JStr rationale)])
  | _ => ValueError "Risk flags must be strings or objects"
  end.

Fixpoint traverse {A B} (f : A -> outcome py_exn B) (l : list A) : outcome py_exn (list B) :=
  match l with
  | [] => Ok []
  | x :: l => let* y := f x in let* r := traverse f l in Ok (y :: r)
  end.

Definition normalize_risk_payload (payload : json) : outcome py_exn json :=
  match payload with
  | JObj o =>
      let* categories := normalize_string_list (get o "categories") in
      let* flags :=
        match (get o "flags" ||| JArr [])%rf with
        | JStr t => Ok [JStr t]
        | JArr l => Ok l
        | _ => ValueError "Risk scan flags must be a string or list"
        end in
      let* flags := traverse normalize_flag_item flags in
      Ok (JObj (obj_set (obj_set o "categories" (strings_json categories)) "flags" (JArr flags)))
  | _ => ValueError "Content risk scan output must be a JSON object"
  end.

(** ** Reviews of an answer *)

Definition HALLUCINATION_VERDICTS : list text := [lit "none"; lit "minor"; lit "severe"].

Definition VERDICT_ALIASES : list (text * text) :=
  [(lit "no", lit "none"); (lit "false", lit "none"); (lit "not_hallucinated", lit "none");
   (lit "low", lit "minor"); (lit "moderate", lit "minor"); (lit "medium", lit "minor");
   (lit "major", lit "severe"); (lit "high", lit "severe"); (lit "critical", lit "severe")].

Definition normalize_hallucination_verdict (v : json) : option text :=
  match v with
  | JNull => None
  | _ =>
      let n := lower (py_strip (py_str v)) in
      if bool_decide (n ∈ HALLUCINATION_VERDICTS) then Some n
      else snd <$> List.find (fun a => bool_decide (a.1 = n)) VERDICT_ALIASES
  end.

Record claim := mkClaim { cl_text : text; cl_supported : bool; cl_passages : list text }.

Definition some_of (vs : list json) : json := default JNull (List.find (fun v => negb (is_none v)) vs).

Definition normalize_claim (item : json) : option claim :=
  match item with
  | JStr t => match py_strip t with [] => None | n => Some (mkClaim n false []) end
  | JObj o =>
      match py_strip (py_str (get o "claim" ||| get o "text" ||| get o "statement" ||| JStr []))%rf with
      | [] => None
      | n =>
          let supported := coerce_bool (some_of [get o "supported"; get o "is_supported"]) in
          let ids := some_of [get o "supporting_passage_ids"; get o "supporting_passages"; get o "passage_ids"] in
          Some (mkClaim n (match supported with JBool true => true | _ => false end)
                  (match normalize_string_list ids with Ok l => l | Raise _ => [] end))
      end
  | _ => None
  end.

Definition normalize_claims (v : json) : list claim :=
  match v with JArr l => omap normalize_claim l | _ => [] end.

(** [int] of a number, a boolean or a string. *)
Definition int_of (v : json) : option Z :=
  match v with
  | JInt n => Some n
  | JFloat q => Some (Z.quot (QArith_base.Qnum q) (Zpos (QArith_base.Qden q)))
  | JBool b => Some (if b then 1 else 0)
  | JStr t => parse_int t
  | _ => None
  end.

Definition normalize_unsupported_count (v : json) (claims : list claim) : option Z :=
  match claims with
  | _ :: _ => Some (zlen (List.filter (fun c => negb (cl_supported c)) claims))
  | [] =>
      match int_of (coerce_number v) with
      | Some n => if n <? 0 then None else Some n
      | None => None
      end
  end.

Definition claim_json (c : claim) : json :=
  JObj [("claim", JStr (cl_text c)); ("supported", JBool (cl_supported c));
        ("supporting_passage_ids", strings_json (cl_passages c))].

Definition opt_int (o : option Z) : json := match o with Some n => JInt n | None => JNull end.

Definition normalize_review_payload (payload : json) : outcome py_exn json :=
  match payload with
  | JObj o =>
      let* issues := normalize_string_list (get o "issues") in
      let groundedness := (get o "groundedness_score" ||| get o "grounding_score" ||| get o "groundedness"
                           ||| get o "relevance_score")%rf in
      let completeness := (get o "completeness_score" ||| get o "completeness" ||| get o "coverage_score")%rf in
      let safety := (get o "safety_score" ||| get o "safety" ||| get o "harmlessness_score")%rf in
      let verdict := (get o "verdict" ||| get o "result" ||| get o "assessment")%rf in
      let claims := normalize_claims (get o "claims" ||| get o "atomic_claims" ||| get o "claim_analysis")%rf in
      let hallucination := normalize_hallucination_verdict
        (get o "hallucination_verdict" ||| get o "hallucination" ||| get o "hallucination_level")%rf in
      let fields :=
        [("issues", strings_json issues); ("groundedness_score", coerce_number groundedness);
         ("completeness_score", coerce_number completeness); ("safety_score", coerce_number safety);
         ("revision_applied", coerce_bool (get_or o "revision_applied" (JBool false)))]
        ++ (if is_none verdict then [] else [("verdict", JStr (py_strip (py_str verdict)))])
        ++ [("claims", JArr (map claim_json claims));
            ("unsupported_claim_count", opt_int (normalize_unsupported_count
               (some_of [get o "unsupported_claim_count"; get o "unsupported_claims"]) claims));
            ("hallucination_verdict", match hallucination with Some t => JStr t | None => JNull end)] in
      Ok (JObj (obj_update o fields))
  | _ => ValueError "Answer evaluation output must be a JSON object"
  end.

(** ** Answers *)

(** What follows the last [Answer:] that starts a word. *)
Fixpoint last_anchor (after_word : bool) (t : text) : option text :=
  match t with
  | [] => None
  | c :: t' =>
      match last_anchor (is_word c) t' with
      | Some r => Some r
      | None => if negb after_word && starts_ci (lit "answer:") t then Some (drop_while isspace (drop 7 t)) else None
      end
  end.

(** What precedes the first run of line feeds that [System:] or [User:] follows. *)
Fixpoint before_turn (t : text) : option text :=
  match t with
  | [] => None
  | c :: t' =>
      let rest := drop_while (fun c => c =? 10) t in
      if (c =? 10) && (starts (lit "System:") rest || starts (lit "User:") rest) then Some []
      else cons c <$> before_turn t'
  end.

Definition strip_prompt_echo (t : text) : text :=
  let t := match last_anchor false t with
           | Some r => match py_strip r with [] => t | candidate => candidate end
           | None => t
           end in
  let t := match before_turn t with Some p => py_strip p | None => t end in
  py_strip (if starts_ci (lit "answer:") t then drop_while isspace (drop 7 t) else t).

(** One to three digits between brackets: [left] digits may still follow. *)
Fixpoint digits_then_bracket (left : nat) (t : text) (acc : Z) : option Z :=
  match t with
  | [] => None
  | c :: t' =>
      if c =? 93 then (if (left <? 3)%nat then Some acc else None)
      else match left, digit_value c with
           | S left', Some d => digits_then_bracket left' t' (10 * acc + d)
           | _, _ => None
           end
  end.

Definition marker_at (t : text) : option Z :=
  match t with
  | c :: r => if c =? 91 then digits_then_bracket 3 r 0 else None
  | [] => None
  end.

Fixpoint markers (t : text) : list Z :=
  match t with
  | [] => []
  | _ :: t' => match marker_at t with Some n => n :: markers t' | None => markers t' end
  end.

Definition SNIPPET_MAX_CHARS : Z := 240.

Record citation := mkCitation { ci_source_id : option text; ci_locator : text; ci_snippet : option text }.

Definition cite (passages : list passage) (index : Z) : option citation :=
  p ← passages !! Z.to_nat (index - 1);
  Some (mkCitation (p_source_id p) (or_text (p_locator p) (lit "[" ++ show index ++ lit "]"))
          (match py_prefix (p_text p) SNIPPET_MAX_CHARS with [] => None | t => Some t end)).

Definition in_range (n : Z) (index : Z) : bool := (1 <=? index) && (index <=? n).

Definition add_new (l : list Z) (n : Z) : list Z := if bool_decide (n ∈ l) then l else l ++ [n].

Definition extract_citations (answer : text) (passages : list passage) : list citation * Z :=
  let found := markers answer in
  let seen := foldl add_new [] (List.filter (in_range (zlen passages)) found) in
  let invalid := foldl add_new [] (List.filter (fun n => negb (in_range (zlen passages) n)) found) in
  (omap (cite passages) seen, zlen invalid).

Definition opt_text (o : option text) : json := match o with Some t => JStr t | None => JNull end.

Definition citation_json (c : citation) : json :=
  JObj [("source_id", opt_text (ci_source_id c)); ("locator", JStr (ci_locator c)); ("snippet", opt_text (ci_snippet c))].

Definition parse_answer (citations_on : bool) (raw_output : text) (retrieved : context) : json :=
  let t := strip_prompt_echo (py_strip raw_output) in
  if citations_on then
    let '(citations, invalid) := extract_citations t (context_passages retrieved) in
    JObj [("answer", JStr t); ("citations", JArr (map citation_json citations));
          ("invalid_citation_count", JInt invalid); ("confidence", JNull)]
  else JObj [("answer", JStr t); ("citations", JNull); ("confidence", JNull)].
End Prompts.

(** ** What is read from a model's answer

    The citation contract of [src/backend/llm_agent/app/llm/prompts/answer_generation.py]:
    the numbers the prompt shows and the markers of the answer mean the same passages.  And a
    score of zero in a review, which is lost. *)

Lemma add_new_spec (l : list Z) (acc : list Z) : NoDup acc ->
  NoDup (foldl add_new acc l) /\ forall n, n ∈ foldl add_new acc l <-> n ∈ acc \/ n ∈ l.
Proof.
  revert acc. induction l as [|x l IH]; intros acc Hn; cbn [foldl]; [set_solver|].
  assert (Hx : NoDup (add_new acc x) /\ forall n, n ∈ add_new acc x <-> n ∈ acc \/ n = x).
  { unfold add_new. case_bool_decide; [split; [done|set_solver]|]. split; [|set_solver].
    apply NoDup_app. split; [done|]. split; [set_solver|apply NoDup_singleton]. }
  destruct Hx as [Hx1 Hx2]. destruct (IH _ Hx1) as [H1 H2]. split; [done|]. intros n. rewrite H2, Hx2. set_solver.
Qed.

(** The marker the prompt puts before a passage. *)
Definition marker (i : Z) : text := lit "[" ++ show i ++ lit "]".

(** The decimal digits of ASCII, which every reading of [\d] includes. *)
Definition ascii_digit (c : Z) : option Z := if (48 <=? c) && (c <=? 57) then Some (c - 48) else None.
Class DigitsLaw `{Digits} := ascii_digits : forall c d, ascii_digit c = Some d -> digit_value c = Some d.

Definition ascii_digits_value : Digits := ascii_digit.

Section Citations.
Context `{Digits} `{!DigitsLaw}.

Lemma digits_ascii left t acc n : @digits_then_bracket ascii_digits_value left t acc = Some n ->
  digits_then_bracket left t acc = Some n.
Proof.
  revert t acc. induction left as [|left IH]; intros [|c t] acc; cbn [digits_then_bracket]; try done;
    destruct (c =? 93); try done.
  change (@digit_value ascii_digits_value c) with (ascii_digit c).
  destruct (ascii_digit c) as [d|] eqn:E; [|done]. rewrite (ascii_digits _ _ E). apply IH.
Qed.

Lemma digits_app left t rest acc n : digits_then_bracket left t acc = Some n -> digits_then_bracket left (t ++ rest) acc = Some n.
Proof.
  revert t acc. induction left as [|left IH]; intros [|c t] acc; cbn [digits_then_bracket app]; try done;
    destruct (c =? 93); try done.
  destruct (digit_value c); [apply IH|done].
Qed.

(** The markers of one to three digits, evaluated. *)
Lemma marker_read i rest : 1 <= i <= 999 -> marker_at (marker i ++ rest) = Some i.
Proof.
  intros Hi.
  assert (Hall : forallb (fun k => let i := Z.of_nat k in
     match @digits_then_bracket ascii_digits_value 3 (show i ++ lit "]") 0 with Some n => n =? i | None => false end)
     (seq 1 999) = true) by (vm_compute; reflexivity).
  rewrite forallb_forall in Hall. specialize (Hall (Z.to_nat i)). cbv zeta in Hall. rewrite Z2Nat.id in Hall by lia.
  assert (In (Z.to_nat i) (seq 1 999)) as Hin by (apply in_seq; lia). specialize (Hall Hin).
  destruct (digits_then_bracket 3 (show i ++ lit "]") 0) as [n|] eqn:E; [|done]. apply Z.eqb_eq in Hall as ->.
  apply digits_ascii in E. unfold marker. rewrite <- !app_assoc. change (lit "[" ++ ?t) with (91 :: t). cbn [marker_at].
  rewrite app_assoc. by apply digits_app.
Qed.

Lemma markers_app before t i : marker_at t = Some i -> i ∈ markers (before ++ t).
Proof.
  intros Hm. induction before as [|c before IH]; cbn [app markers].
  - destruct t; [done|]. cbn [markers]. rewrite Hm. by left.
  - destruct (marker_at (c :: before ++ t)); [by right|done].
Qed.

Lemma cite_all (passages : list passage) (idx : list Z) : Forall (fun i => 1 <= i <= zlen passages) idx ->
  Forall2 (fun i c => 1 <= i /\ exists p, passages !! Z.to_nat (i - 1) = Some p /\ cite passages i = Some c) idx (omap (cite passages) idx).
Proof.
  induction 1 as [|i idx Hi _ IH]; [constructor|]. cbn.
  destruct (lookup_lt_is_Some_2 passages (Z.to_nat (i - 1))) as [p Hp]; [unfold zlen in Hi; lia|].
  assert (exists c, cite passages i = Some c) as [c Hc] by (unfold cite; rewrite Hp; by eexists).
  rewrite Hc. constructor; [split; [lia|by exists p]|done].
Qed.

(** The passages are printed as numbered blocks, from 1 and in order. *)
Lemma numbered_blocks (retrieved : context) :
  exists blocks, length blocks = length (context_passages retrieved) /\
    (context_passages retrieved <> [] -> format_numbered_context retrieved = join [10; 10] blocks) /\
    forall i p, 1 <= i -> context_passages retrieved !! Z.to_nat (i - 1) = Some p ->
      blocks !! Z.to_nat (i - 1) = Some (marker i ++ lit " " ++ p_text p).
Proof using.
  exists (imap (fun k p => numbered (S k) p) (context_passages retrieved)). split; [apply length_imap|]. split.
  - unfold format_numbered_context. by destruct (context_passages retrieved).
  - intros i p Hi Hp. rewrite list_lookup_imap, Hp. cbn. f_equal. unfold numbered, marker.
    replace (Z.of_nat (S (Z.to_nat (i - 1)))) with i by lia. by rewrite <- !app_assoc.
Qed.

Lemma prompt_shows question retrieved history instructions :
  exists head tail, raw_prompt (answer_generation_prompt true question retrieved history instructions)
    = head ++ format_numbered_context retrieved ++ tail.
Proof using.
  cbn [answer_generation_prompt raw_prompt]. do 2 eexists. rewrite !(app_assoc _ _ (format_numbered_context _ ++ _)).
  reflexivity.
Qed.

Lemma cited_passage (passages : list passage) i c p :
  passages !! Z.to_nat (i - 1) = Some p -> cite passages i = Some c ->
  ci_source_id c = p_source_id p /\ ci_locator c = or_text (p_locator p) (marker i) /\
  default [] (ci_snippet c) = take 240 (p_text p).
Proof using.
  unfold cite. intros -> [= <-]. cbn. split_and!; [done..|].
  transitivity (py_prefix (p_text p) 240); [by destruct (py_prefix (p_text p) _)|].
  unfold py_prefix. by rewrite py_slice_bounded by lia.
Qed.

Lemma selected_once (keep : Z -> bool) (l : list Z) :
  NoDup (foldl add_new [] (List.filter keep l)) /\
  forall n, n ∈ foldl add_new [] (List.filter keep l) <-> n ∈ l /\ keep n = true.
Proof using.
  destruct (add_new_spec (List.filter keep l) []) as [Hnd Hin]; [constructor|]. split; [done|].
  intros n. rewrite Hin, (list_elem_of_In (List.filter _ _)), filter_In, <- list_elem_of_In, elem_of_nil. tauto.
Qed.

(** C34: the citation contract between the prompt and the parser.  The prompt of an answer
    prints the passages as blocks, the i-th with the marker [i] in front.  The citations of
    an answer are, each once, the numbers between 1 and the number of passages that its
    markers name; each carries the identity, the locator (the marker itself when the passage
    has none) and the first 240 characters of the passage whose block the prompt printed
    under that number.  The invalid count is the number of different markers that name no
    passage; none of them is resolved.  In turn a number up to 999 of a block is cited
    wherever the answer repeats its marker. *)
Theorem citations_resolve (question : text) (retrieved : context) (history : option (list message))
    (instructions : option text) (answer : text) (citations : list citation) (invalid : Z) :
  extract_citations answer (context_passages retrieved) = (citations, invalid) ->
  context_passages retrieved <> [] ->
  exists head tail blocks idx bad,
    raw_prompt (answer_generation_prompt true question retrieved history instructions)
      = head ++ join [10; 10] blocks ++ tail /\
    length blocks = length (context_passages retrieved) /\
    NoDup idx /\ (forall i, i ∈ idx <-> i ∈ markers answer /\ 1 <= i <= zlen blocks) /\
    Forall2 (fun i c => exists p, context_passages retrieved !! Z.to_nat (i - 1) = Some p /\
               blocks !! Z.to_nat (i - 1) = Some (marker i ++ lit " " ++ p_text p) /\
               ci_source_id c = p_source_id p /\ ci_locator c = or_text (p_locator p) (marker i) /\
               default [] (ci_snippet c) = take 240 (p_text p)) idx citations /\
    NoDup bad /\ (forall i, i ∈ bad <-> i ∈ markers answer /\ ~ 1 <= i <= zlen blocks) /\
    invalid = zlen bad /\
    (forall i before after, 1 <= i <= 999 -> i <= zlen blocks ->
       answer = before ++ marker i ++ after -> i ∈ idx).
Proof.
  set (passages := context_passages retrieved). unfold extract_citations. intros [= <- <-] Hne.
  destruct (numbered_blocks retrieved) as (blocks & Hlen & Hprint & Hblock). fold passages in Hlen, Hprint, Hblock.
  assert (Hz : zlen blocks = zlen passages) by (unfold zlen; by rewrite Hlen).
  destruct (selected_once (in_range (zlen passages)) (markers answer)) as [Hnd Hidx].
  destruct (selected_once (fun n => negb (in_range (zlen passages) n)) (markers answer)) as [Hbnd Hbad].
  set (idx := foldl add_new [] _) in *. set (bad := foldl add_new [] (List.filter (fun n => negb _) _)) in *.
  setoid_rewrite negb_true_iff in Hbad. unfold in_range in Hidx, Hbad. setoid_rewrite andb_true_iff in Hidx.
  setoid_rewrite andb_false_iff in Hbad. setoid_rewrite Z.leb_le in Hidx. setoid_rewrite Z.leb_gt in Hbad.
  destruct (prompt_shows question retrieved history instructions) as (head & tail & ->). rewrite (Hprint Hne).
  exists head, tail, blocks, idx, bad. rewrite Hz. do 4 (split; [done|]). split.
  { eapply Forall2_impl; [apply cite_all|].
    - apply Forall_forall. intros i Hi. by apply Hidx.
    - intros i c (Hi & p & Hp & Hc). exists p. split; [done|].
      split; [by apply Hblock|by apply (cited_passage passages)]. }
  split; [done|]. split; [intros i; rewrite Hbad; intuition lia|]. split; [done|].
  intros i before after Hi Hn ->. apply Hidx. split; [by apply markers_app, marker_read|lia].
Qed.
End Citations.

Section Witness.
#[local] Existing Instance ascii_digits_value.
#[local] Instance ascii_law : DigitsLaw.
Proof. by intros c d. Qed.

Definition demo_context : context :=
  CPassages [(lit "doc-1", lit "Paris is in France.", None); (lit "doc-2", lit "Rome is in Italy.", None)].

Definition demo_answer : text := lit "Rome [2], again [2]; not [7] or [0].".

Lemma citations_resolve_witness :
  extract_citations demo_answer (context_passages demo_context)
    = ([mkCitation (Some (lit "doc-2")) (lit "[2]") (Some (lit "Rome is in Italy."))], 2) /\
  exists (blocks : list text) (idx : list Z), (exists head tail,
      raw_prompt (answer_generation_prompt true (lit "Where is Rome?") demo_context None None)
        = head ++ join [10; 10] blocks ++ tail) /\
    (forall i, i ∈ idx <-> i ∈ markers demo_answer /\ 1 <= i <= zlen blocks).
Proof.
  split; [reflexivity|].
  destruct (citations_resolve (lit "Where is Rome?") demo_context None None demo_answer
    [mkCitation (Some (lit "doc-2")) (lit "[2]") (Some (lit "Rome is in Italy."))] 2)
    as (head & tail & blocks & idx & bad & H1 & _ & _ & H2 & _); [reflexivity|discriminate|].
  exists blocks, idx. split; [by exists head, tail|exact H2].
Defined.

(** A review that scores groundedness with zero is read as one with the score of another name,
    and without that name as one that has no score. *)
#[local] Existing Instance ascii_text.
Definition review_score (o : obj) : outcome py_exn json :=
  let* v := normalize_review_payload (JObj o) in
  match v with JObj o' => Ok (get o' "groundedness_score") | _ => TypeError end.

Example zero_score_replaced : review_score [("groundedness_score", JInt 0); ("relevance_score", JInt 9)] = Ok (JInt 9).
Proof. reflexivity. Qed.
Example zero_score_dropped : review_score [("groundedness_score", JInt 0)] = Ok JNull.
Proof. reflexivity. Qed.
End Witness.
