(* ===== verification/LlmRegistry.v ===== *)
(** * Typed requests, settings and the prompt registry of the LLM agent

    [src/backend/llm_agent/app/schemas/llm.py] (requests), [core/config.py] and
    [llm/prompt_registry.py]: what a typed request carries once it is validated, the settings
    that bound it, and the table of prompt builders, parsers and output models.  Validation of
    an output against its pydantic model, and the digest of the model's schema, are the class
    [OutputModels]. *)

From Stdlib Require Import QArith.
From stdpp Require Import base strings list.
From S2P Require Import Prelude PyValue MemoryNormalize TextWindow LlmPrompts.

Local Open Scope string_scope.
Local Open Scope list_scope.
Local Open Scope Z_scope.

Inductive request_type :=
  | ANSWER_GENERATION | ANSWER_EVALUATION | CONTENT_RISK_SCAN | QUERY_REWRITE
  | MEMORY_EXTRACTION | CHAT_TITLE | CHAT_SUMMARY | MEMORY_CURATION.

#[export] Instance request_type_eq_dec : EqDecision request_type.
Proof. solve_decision. Defined.

Definition request_label (t : request_type) : text :=
  lit match t with
      | ANSWER_GENERATION => "answer_generation" | ANSWER_EVALUATION => "answer_evaluation"
      | CONTENT_RISK_SCAN => "content_risk_scan" | QUERY_REWRITE => "query_rewrite"
      | MEMORY_EXTRACTION => "memory_extraction" | CHAT_TITLE => "chat_title"
      | CHAT_SUMMARY => "chat_summary" | MEMORY_CURATION => "memory_curation"
      end.

(** The input of each request type. *)
Inductive model_input :=
  | AnswerGenerationInput (question : text) (retrieved_context : context) (history : option (list message))
      (instructions : option text)
  | AnswerEvaluationInput (question answer : text) (reference_context : context) (rubric : option (list text))
  | ContentRiskScanInput (content : text) (policy_hints : option (list text)) (content_type : option text)
  | QueryRewriteInput (query : text) (history : option (list message)) (rewrite_goal : option text)
  | MemoryExtractionInput (history : list message) (existing_memory : option (list obj)) (scope : option text)
  | ChatTitleInput (history : list message)
  | ChatSummaryInput (history : list message)
  | MemoryCurationInput (history : list message) (existing_memory : list obj) (deletion_authorized : bool)
      (validation_feedback : option text).

Definition input_type (i : model_input) : request_type :=
  match i with
  | AnswerGenerationInput _ _ _ _ => ANSWER_GENERATION
  | AnswerEvaluationInput _ _ _ _ => ANSWER_EVALUATION
  | ContentRiskScanInput _ _ _ => CONTENT_RISK_SCAN
  | QueryRewriteInput _ _ _ => QUERY_REWRITE
  | MemoryExtractionInput _ _ _ => MEMORY_EXTRACTION
  | ChatTitleInput _ => CHAT_TITLE
  | ChatSummaryInput _ => CHAT_SUMMARY
  | MemoryCurationInput _ _ _ _ => MEMORY_CURATION
  end.

Record exec_request := mkExec {
  rq_input : model_input; rq_model : option text; rq_timeout : option Q; rq_prompt_version : option text;
  rq_metadata : obj; rq_include_steps : bool
}.

Definition rq_type (r : exec_request) : request_type := input_type (rq_input r).

(** The envelope; the action is the type of the request. *)
Record request_message := mkRequestMessage {
  rm_request_id : text; rm_trace_id : text; rm_correlation_id : text; rm_source_service : text;
  rm_reply_to : option text; rm_stream_to : option text; rm_payload : exec_request
}.

Record llm_settings := mkLlmSettings {
  service_name : text; llm_implementation : text; rag_chat_model : text; default_model : text; summary_model : text;
  metadata_model : text; window_settings : window_config; answer_generation_max_tokens : Z;
  answer_evaluation_max_tokens : Z; content_risk_scan_max_tokens : Z; query_rewrite_max_tokens : Z;
  memory_extraction_max_tokens : Z; chat_title_max_tokens : Z; chat_summary_max_tokens : Z;
  memory_curation_max_tokens : Z; summary_max_tokens : Z; llm_timeout : Q; summary_timeout : Q; metadata_timeout : Q;
  debug_max_field_length : Z; structured_output_transport : text; enable_answer_citations : bool;
  vllm_temperature : Q; vllm_top_p : Q; vllm_top_k : Z; max_concurrent_requests : Z; vllm_max_num_seqs : Z
}.

Definition max_tokens_for_request_type (cfg : llm_settings) (t : request_type) : Z :=
  match t with
  | ANSWER_GENERATION => answer_generation_max_tokens cfg
  | ANSWER_EVALUATION => answer_evaluation_max_tokens cfg
  | CONTENT_RISK_SCAN => content_risk_scan_max_tokens cfg
  | QUERY_REWRITE => query_rewrite_max_tokens cfg
  | MEMORY_EXTRACTION => memory_extraction_max_tokens cfg
  | CHAT_TITLE => chat_title_max_tokens cfg
  | CHAT_SUMMARY => chat_summary_max_tokens cfg
  | MEMORY_CURATION => memory_curation_max_tokens cfg
  end.

Definition REQUEST_TYPES : list request_type :=
  [ANSWER_GENERATION; ANSWER_EVALUATION; CONTENT_RISK_SCAN; QUERY_REWRITE; MEMORY_EXTRACTION; CHAT_TITLE;
   CHAT_SUMMARY; MEMORY_CURATION].

(** The constraints the settings are validated against. *)
Definition validate_output_token_budgets (cfg : llm_settings) : bool :=
  let window := vllm_max_model_len (window_settings cfg) in
  forallb (fun n => n <=? window)
    (vllm_max_tokens (window_settings cfg) :: summary_max_tokens cfg
     :: map (max_tokens_for_request_type cfg) REQUEST_TYPES)
  && (max_concurrent_requests cfg <=? vllm_max_num_seqs cfg).

Definition field_bounds (cfg : llm_settings) : bool :=
  (1 <=? max_concurrent_requests cfg) && (1 <=? vllm_max_num_seqs cfg) && (1 <=? vllm_max_tokens (window_settings cfg))
  && forallb (fun t => let n := max_tokens_for_request_type cfg t in (1 <=? n) && (n <=? 131072)) REQUEST_TYPES.

(** ** The registry *)

Inductive output_model :=
  | AnswerGenerationParsedOutput | AnswerReviewParsedOutput | ContentRiskScanParsedOutput
  | QueryRewriteParsedOutput | MemoryExtractionParsedOutput | ChatTitleParsedOutput
  | ChatSummaryParsedOutput | MemoryCurationParsedOutput | MemoryCurationParsedOutputV1.

(** [model_validate], the JSON schema of a model and its canonical digest, 64 hexadecimal
    digits. *)
Class OutputModels := {
  model_validate : output_model -> json -> outcome py_exn json;
  model_json_schema : output_model -> obj;
  schema_sha256 : output_model -> text
}.

Definition or_texts (l : list text) : text := default [] (List.find (fun t => negb (bool_decide (t = []))) l).

(** A parsed payload and, for parsers that report it, how it was extracted. *)
Record decoded := mkDecoded { de_payload : json; de_debug : option obj }.

Record entry := mkEntry {
  en_type : request_type; en_version : text; en_default_model : llm_settings -> text;
  en_build : llm_settings -> exec_request -> outcome py_exn rendered;
  en_parse : llm_settings -> text -> exec_request -> outcome py_exn decoded;
  en_output : output_model; en_streaming : bool; en_structured : bool
}.

Section Registry.
Context `{PyText} `{WordChars} `{JsonText} `{Digits}.

Definition chat_first (cfg : llm_settings) : text := or_texts [rag_chat_model cfg; default_model cfg].
Definition default_first (cfg : llm_settings) : text := or_texts [default_model cfg; rag_chat_model cfg].
Definition summary_first (cfg : llm_settings) : text := or_texts [summary_model cfg; default_model cfg].

Definition plain_json (raw : text) : outcome py_exn decoded :=
  let* v := extract_json_payload raw in Ok (mkDecoded v None).
Definition with_debug (normalize : json -> outcome py_exn json) (raw : text) : outcome py_exn decoded :=
  let* e := extract_json_payload_with_metadata raw in
  let* v := normalize (ex_payload e) in
  Ok (mkDecoded v (Some (ex_metadata e))).

(** An entry of the table; a builder that is given the input of another type has no such
    attributes. *)
Definition structured (t : request_type) (version : string) (model : llm_settings -> text)
    (build : model_input -> option rendered) (parse : text -> outcome py_exn decoded) (output : output_model) : entry :=
  mkEntry t (lit version) model
    (fun _ r => match build (rq_input r) with Some p => Ok p | None => AttributeError end)
    (fun _ raw _ => parse raw) output false true.

Definition answer_generation_v1 : entry :=
  mkEntry ANSWER_GENERATION (lit "answer_generation.v1") chat_first
    (fun cfg r => match rq_input r with
                  | AnswerGenerationInput q c h i => Ok (answer_generation_prompt (enable_answer_citations cfg) q c h i)
                  | _ => AttributeError
                  end)
    (fun cfg raw r => match rq_input r with
                      | AnswerGenerationInput _ c _ _ =>
                          Ok (mkDecoded (parse_answer (enable_answer_citations cfg) raw c) None)
                      | _ => AttributeError
                      end)
    AnswerGenerationParsedOutput true false.

Definition ENTRIES : list entry :=
  [answer_generation_v1;
   structured ANSWER_EVALUATION "answer_evaluation.v2" default_first
     (fun i => match i with AnswerEvaluationInput q a c r => Some (answer_evaluation_prompt_v2 q a c r) | _ => None end)
     (with_debug normalize_review_payload) AnswerReviewParsedOutput;
   structured ANSWER_EVALUATION "answer_evaluation.v1" default_first
     (fun i => match i with AnswerEvaluationInput q a c r => Some (answer_evaluation_prompt_v1 q a c r) | _ => None end)
     (with_debug normalize_review_payload) AnswerReviewParsedOutput;
   structured CONTENT_RISK_SCAN "content_risk_scan.v2" default_first
     (fun i => match i with ContentRiskScanInput c h t => Some (content_risk_prompt_v2 c h t) | _ => None end)
     (with_debug normalize_risk_payload) ContentRiskScanParsedOutput;
   structured CONTENT_RISK_SCAN "content_risk_scan.v1" default_first
     (fun i => match i with ContentRiskScanInput c h t => Some (content_risk_prompt_v1 c h t) | _ => None end)
     (with_debug normalize_risk_payload) ContentRiskScanParsedOutput;
   structured QUERY_REWRITE "query_rewrite.v1" default_first
     (fun i => match i with QueryRewriteInput q h g => Some (query_rewrite_prompt q h g) | _ => None end)
     plain_json QueryRewriteParsedOutput;
   structured MEMORY_EXTRACTION "memory_extraction.v1" default_first
     (fun i => match i with MemoryExtractionInput h m s => Some (memory_extraction_prompt h m s) | _ => None end)
     plain_json MemoryExtractionParsedOutput;
   structured CHAT_TITLE "chat_title.v1" default_first
     (fun i => match i with ChatTitleInput h => Some (chat_title_prompt h) | _ => None end)
     plain_json ChatTitleParsedOutput;
   structured CHAT_SUMMARY "chat_summary.v1" summary_first
     (fun i => match i with ChatSummaryInput h => Some (chat_summary_prompt h) | _ => None end)
     plain_json ChatSummaryParsedOutput;
   structured MEMORY_CURATION "memory_curation.v2" default_first
     (fun i => match i with MemoryCurationInput h m d f => Some (memory_curation_prompt_v2 h m d f) | _ => None end)
     plain_json MemoryCurationParsedOutput;
   structured MEMORY_CURATION "memory_curation.v1" default_first
     (fun i => match i with MemoryCurationInput h m _ _ => Some (memory_curation_prompt_v1 h m) | _ => None end)
     plain_json MemoryCurationParsedOutputV1].

Definition default_version (t : request_type) : text :=
  lit match t with
      | ANSWER_GENERATION => "answer_generation.v1" | ANSWER_EVALUATION => "answer_evaluation.v2"
      | CONTENT_RISK_SCAN => "content_risk_scan.v2" | QUERY_REWRITE => "query_rewrite.v1"
      | MEMORY_EXTRACTION => "memory_extraction.v1" | CHAT_TITLE => "chat_title.v1"
      | CHAT_SUMMARY => "chat_summary.v1" | MEMORY_CURATION => "memory_curation.v2"
      end.

Definition resolve (t : request_type) (version : option text) : outcome py_exn entry :=
  let wanted := match version with Some ((_ :: _) as v) => v | _ => default_version t end in
  match List.find (fun e => bool_decide (en_type e = t) && bool_decide (en_version e = wanted)) ENTRIES with
  | Some e => Ok e
  | None => Raise (PyError (lit "ValueError")
                     (lit "Unsupported prompt_version '" ++ wanted ++ lit "' for " ++ request_label t))
  end.

(** ** Plans *)

Record plan := mkPlan {
  pl_entry : entry; pl_model : text; pl_version : text; pl_max_tokens : Z; pl_timeout : Q; pl_can_stream : bool
}.

(** [request.timeout or cfg]: a timeout of zero is none. *)
Definition or_timeout (o : option Q) (d : Q) : Q :=
  match o with Some q => if Qeq_bool q 0 then d else q | None => d end.

Definition make_plan (cfg : llm_settings) (m : request_message) (streaming_requested : bool) : outcome py_exn plan :=
  let r := rm_payload m in
  let* e := resolve (rq_type r) (rq_prompt_version r) in
  Ok (mkPlan e (or_text (rq_model r) (en_default_model e cfg)) (en_version e)
        (max_tokens_for_request_type cfg (rq_type r)) (or_timeout (rq_timeout r) (llm_timeout cfg))
        (match rm_stream_to m with Some (_ :: _) => true | _ => false end && en_streaming e && streaming_requested)).

(** Every request type has its default entry, and an entry that is found is for that type and
    its builder accepts the input. *)
Lemma resolve_sound r e : resolve (rq_type r) (rq_prompt_version r) = Ok e ->
  en_type e = rq_type r /\ forall cfg, exists p, en_build e cfg r = Ok p.
Proof.
  unfold resolve. cbv zeta. destruct (List.find _ ENTRIES) as [e'|] eqn:E; [|done]. intros [= ->].
  apply List.find_some in E as [Hin Hm]. apply andb_true_iff in Hm as [Ht%bool_decide_eq_true _].
  split; [done|]. intros cfg. unfold rq_type in Ht.
  repeat (destruct Hin as [<-|Hin]; [cbn in Ht |- *; destruct (rq_input r); try done; eauto|]). done.
Qed.

Lemma resolve_default t : exists e, resolve t None = Ok e /\ en_type e = t.
Proof. destruct t; eexists; split; reflexivity. Qed.
End Registry.
