(* ===== verification/VllmClient.v ===== *)
(** * The client of the model server

    [src/backend/llm_agent/app/llm/implementations/vllm.py] and the invocation of
    [llm/interfaces.py]: the completion request a call sends, the reading of a plain and of a
    streamed answer, and the translation of transport errors.  The server is the class
    [ModelServer]: admission by the gate of [ProviderCapacity], the answers of the HTTP
    library in the format of the completions API, and the window it reports. *)

From Stdlib Require Import QArith.
From stdpp Require Import base strings list.
From S2P Require Import Prelude PyValue MemoryNormalize TextWindow LlmPrompts LlmRegistry.

Local Open Scope string_scope.
Local Open Scope list_scope.
Local Open Scope Z_scope.

Record usage := mkUsage { us_provider : text; us_input : option Z; us_output : option Z; us_total : option Z }.

Record invocation := mkInvocation {
  iv_system : text; iv_raw : text; iv_model : text; iv_timeout : Q; iv_streaming : bool;
  iv_structured : bool; iv_transport : text; iv_schema : option obj; iv_max_tokens : option Z
}.

Definition to_prompt (i : invocation) : text :=
  match iv_system i with
  | [] => iv_raw i
  | s => prose "System:~" ++ s ++ prose "~~User:~" ++ iv_raw i
  end.

Record generation := mkGeneration { ge_output : text; ge_usage : usage; ge_finish : text }.

(** ** Requests and answers of the completions API *)

Inductive response_format := NoFormat | GuidedJson | JsonSchema (name : text) (schema : obj).

Record completion_request := mkCompletion {
  cr_model : text; cr_prompt : text; cr_max_tokens : Z; cr_temperature : Q; cr_top_p : Q; cr_top_k : Z;
  cr_stream : bool; cr_stop : list text; cr_format : response_format
}.

Record choice := mkChoice { ch_text : option text; ch_finish : option text }.
Record completion := mkReply { co_choices : list choice; co_usage : option (option Z * option Z * option Z) }.

(** What the HTTP library raises. *)
Inductive http_exn :=
  | ConnectError | HTTPStatusError (code : Z) | PoolTimeout | ReadTimeout | ConnectTimeout | WriteTimeout
  | OtherTimeout | OtherError (e : py_exn).

(** One entry of the model list. *)
Record model_entry := mkModelEntry { me_id : text; me_max_len : option Z }.

Class ModelServer := {
  admitted : nat -> bool;
  post : nat -> completion_request -> outcome http_exn completion;
  (** the lines that arrive, and the error that ends them early *)
  stream_lines : nat -> completion_request -> outcome http_exn (list text * option http_exn);
  (** [json.loads] of the data of one line *)
  chunk_of : text -> option completion;
  list_entries : nat -> option (list model_entry)
}.

Definition ProviderOverloaded (m : string) : py_exn := PyError (lit "ProviderOverloadedError") (lit m).
Definition ProviderProtocol (m : text) : py_exn := PyError (lit "ProviderProtocolError") m.
Definition ProviderHTTP (m : text) : py_exn := PyError (lit "ProviderHTTPError") m.
Definition ProviderTimeout (m : string) : py_exn := PyError (lit "ProviderTimeoutError") (lit m).

Definition http_error (e : http_exn) : py_exn :=
  match e with
  | ConnectError => ProviderHTTP (lit "The AI service is not available right now. Please try again in a moment.")
  | HTTPStatusError code =>
      if (code =? 400) || (code =? 409) || (code =? 415) || (code =? 422)
      then ProviderProtocol (lit "vLLM rejected the structured-output protocol (HTTP " ++ show code ++ lit ")")
      else ProviderHTTP (lit "vLLM request failed (HTTP " ++ show code ++ lit ")")
  | PoolTimeout => ProviderOverloaded "The vLLM HTTP connection pool is saturated. Please retry shortly."
  | ReadTimeout => ProviderTimeout "The request took too long to process. Please try again."
  | ConnectTimeout | WriteTimeout => ProviderHTTP (lit "The vLLM HTTP transport timed out")
  | OtherTimeout => ProviderTimeout "The vLLM request timed out"
  | OtherError e => e
  end.

(** The assistant turn with a closed, empty block of thoughts. *)
Definition NO_THINK_SUFFIX : text := prose "~~Assistant:~<think>~~</think>~~".

Section Client.
Context `{PyText} (cfg : llm_settings).

Definition base_payload (i : invocation) : completion_request :=
  mkCompletion (iv_model i) (to_prompt i ++ NO_THINK_SUFFIX)
    (match iv_max_tokens i with Some n => or_default n (vllm_max_tokens (window_settings cfg))
                              | None => vllm_max_tokens (window_settings cfg) end)
    (vllm_temperature cfg) (vllm_top_p cfg) (vllm_top_k cfg) (iv_streaming i) [] NoFormat.

Definition payload_of (i : invocation) : outcome py_exn completion_request :=
  let p := base_payload i in
  if iv_structured i then
    let with_format f :=
      Ok (mkCompletion (cr_model p) (cr_prompt p) (cr_max_tokens p) 0 (cr_top_p p) (cr_top_k p) (cr_stream p) [FENCE] f) in
    if bool_decide (iv_transport i = lit "json_schema") then
      match iv_schema i with
      | Some schema => with_format (JsonSchema (lit "answer_evaluation") schema)
      | None => Raise (ProviderProtocol (lit "JSON-schema transport requires an authoritative object schema"))
      end
    else if bool_decide (iv_transport i = lit "legacy") then with_format GuidedJson
    else Raise (ProviderProtocol (lit "Unsupported structured-output transport: " ++ repr (JStr (iv_transport i))))
  else Ok p.

(** [finish_reason or current]. *)
Definition finish_or (f : option text) (d : text) : text := or_text f d.

Definition usage_of (u : option Z * option Z * option Z) : usage := mkUsage (lit "vllm") u.1.1 u.1.2 u.2.

Definition generation_of (c : completion) : generation :=
  let u := match co_usage c with Some u => usage_of u | None => usage_of (None, None, None) end in
  match co_choices c with
  | [] => mkGeneration [] u (lit "completed")
  | ch :: _ => mkGeneration (default [] (ch_text ch)) u (finish_or (ch_finish ch) (lit "completed"))
  end.

(** ** Streams *)

Record streamed := mkStreamed { st_chunks : list text; st_finish : text; st_usage : usage }.
#[local] Instance eta_streamed : Eta streamed := fun x => mkStreamed (st_chunks x) (st_finish x) (st_usage x).

Inductive line_action := Skip | Stop | Chunk (c : completion) | Malformed.

Context `{ModelServer}.

Definition read_line (line : text) : line_action :=
  if negb (starts (lit "data:") line) then Skip
  else
    let data := py_strip (drop 5 line) in
    if bool_decide (data = lit "[DONE]") then Stop
    else match chunk_of data with Some c => Chunk c | None => Malformed end.

(** The token of a chunk, if it has one. *)
Definition chunk_token (c : completion) : option text :=
  match co_choices c with
  | ch :: _ => match ch_text ch with Some ((_ :: _) as t) => Some t | _ => None end
  | [] => None
  end.

(** What a chunk leaves behind besides its token. *)
Definition note_chunk (c : completion) (s : streamed) : streamed :=
  let s := match co_usage c with Some u => s {{ st_usage := usage_of u }} | None => s end in
  match co_choices c with
  | ch :: _ => s {{ st_finish ::= finish_or (ch_finish ch) }}
  | [] => s
  end.

(** [get_context_window]: the entry of the model, else the first window on offer. *)
Definition get_context_window (tick : nat) (model : text) : option Z :=
  match list_entries tick with
  | None => None
  | Some entries =>
      let has e := match me_max_len e with Some n => negb (n =? 0) | None => false end in
      match List.find (fun e => bool_decide (me_id e = model) && has e) entries with
      | Some e => me_max_len e
      | None => e ← List.find has entries; me_max_len e
      end
  end.
End Client.
