(* ===== verification/LlmExecution.v ===== *)
(** * Typed execution

    [src/backend/llm_agent/app/services/execution_pipeline.py],
    [services/llm_service.py] and the reply of [messaging/llm_handler.py]: planning, rendering
    within the window, invocation with streaming, decoding, validation, and the response that
    reports what happened.  The local variables of [execute] are part of the state, because
    an exception keeps what they held.  Secrets are removed by the patterns of
    [core/safety.py], which are the class [Redaction]; tracing and metrics are left out. *)

From Stdlib Require Import QArith.
From stdpp Require Import base strings list.
From S2P Require Import Prelude PyValue MemoryNormalize TextWindow LlmPrompts LlmRegistry VllmClient.

Local Open Scope string_scope.
Local Open Scope list_scope.
Local Open Scope Z_scope.

Class Redaction := redact_patterns : text -> text.

(** ** Debug text *)

Definition redact_secrets `{Redaction} (t : text) : text := match t with [] => [] | _ => redact_patterns t end.

Definition truncate_text (t : text) (max_chars : Z) : text :=
  if (max_chars <=? 0) || (zlen t <=? max_chars) then t
  else py_prefix t max_chars ++ lit "...[TRUNCATED " ++ show (zlen t - max_chars) ++ lit " chars]".

Definition sanitize_debug_text `{Redaction} (t : text) (max_chars : Z) : text := truncate_text (redact_secrets t) max_chars.

(** ** Finish reasons and statuses *)

Definition BOUNDED_FINISH_REASONS : list text :=
  [lit "completed"; lit "stop"; lit "length"; lit "content_filter"; lit "tool_calls"; lit "cancelled"].

Definition provider_finish_reason `{PyText} (v : option text) : text :=
  match v with
  | None => lit "unknown"
  | Some t =>
      match lower (py_strip t) with
      | [] => lit "unknown"
      | n => if bool_decide (n ∈ BOUNDED_FINISH_REASONS) then n else lit "other"
      end
  end.

(** The literals a response may carry as its application status. *)
Definition APPLICATION_STATUSES : list text :=
  [lit "success"; lit "provider_error"; lit "provider_protocol_error"; lit "provider_http_error"; lit "provider_timeout";
   lit "structured_output_invalid"; lit "validation_error"; lit "timeout"; lit "execution_error";
   lit "streaming_not_supported"; lit "invalid_request"].

Definition provider_failure_code (e : py_exn) (provider_attempted : bool) : text :=
  lit (if is_class "ProviderProtocolError" e then "provider_protocol_error"
       else if is_class "ProviderOverloadedError" e then "provider_overloaded"
       else if is_class "ProviderTimeoutError" e then "provider_timeout"
       else if is_class "ProviderHTTPError" e then "provider_http_error"
       else if is_class "TimeoutError" e || is_class "TimeoutException" e then "provider_timeout"
       else if provider_attempted then "provider_error" else "execution_error").

(** ** State *)

Inductive stream_event :=
  | LlmToken (token : text) (index : nat)
  | LlmDone (finish_reason : text) (token_count : nat)
  | LlmError (code message : text).

Record locals := mkLocals {
  lo_steps : list text; lo_system_prompt : text; lo_raw_prompt : text; lo_raw_output : text; lo_parsed : option json;
  lo_debug : option obj; lo_errors : list (text * text); lo_usage : usage; lo_finish : text;
  lo_provider_finish : option text; lo_parse_stage : option text; lo_max_tokens : option Z; lo_schema : option text;
  lo_attempted : bool; lo_tokens : nat; lo_success : bool; lo_version : text; lo_model : text
}.
#[export] Instance eta_locals : Eta locals := fun x =>
  mkLocals (lo_steps x) (lo_system_prompt x) (lo_raw_prompt x) (lo_raw_output x) (lo_parsed x) (lo_debug x) (lo_errors x)
    (lo_usage x) (lo_finish x) (lo_provider_finish x) (lo_parse_stage x) (lo_max_tokens x) (lo_schema x) (lo_attempted x)
    (lo_tokens x) (lo_success x) (lo_version x) (lo_model x).

(** What the service keeps and what it has done: the cache of windows, the requests sent to
    the server, the events built for the stream, and those of them that reached it. *)
Record lworld := mkLW {
  lw_tick : nat; lw_windows : windows; lw_sent : list completion_request; lw_stream : list stream_event;
  lw_heard : list stream_event; lw_local : locals
}.
#[export] Instance eta_lworld : Eta lworld := fun x =>
  mkLW (lw_tick x) (lw_windows x) (lw_sent x) (lw_stream x) (lw_heard x) (lw_local x).

(** What becomes of an event: the transport takes it; it fails (or does not answer in time),
    which is logged and goes no further; or no event loop runs and nothing is published. *)
Inductive publication := Delivered | Lost | NoLoop.

(** What publishing an event does, which raises if building or signing its envelope does, and
    the milliseconds of the clock. *)
Class LlmEnv := { publish_result : nat -> outcome py_exn publication; now_ms : nat -> Z }.

Abbreviation leff := (eff lworld).

(** The publisher a caller may pass. *)
Abbreviation publisher := (option (stream_event -> leff unit)).

Section Service.
Context `{PyText} `{WordChars} `{JsonText} `{Digits} `{OutputModels} `{ModelServer} `{Redaction} `{LlmEnv}.
Context (cfg : llm_settings).

Definition tick : leff nat := fun w => (Ok (lw_tick w), w {{ lw_tick ::= S }}).
Definition local {A} (f : locals -> A) : leff A := gets (fun w => f (lw_local w)).
Definition assign (f : locals -> locals) : leff unit := modify (fun w => w {{ lw_local ::= f }}).
Definition step (t : text) : leff unit := assign (fun l => l {{ lo_steps ::= fun s => s ++ [t] }}).

Definition publish (ev : stream_event) : leff unit :=
  n <-- tick;
  match publish_result n with
  | Ok Delivered =>
      modify (fun w => w {{ lw_stream ::= fun s => s ++ [ev] }} {{ lw_heard ::= fun s => s ++ [ev] }})
  | Ok (Lost | NoLoop) => modify (fun w => w {{ lw_stream ::= fun s => s ++ [ev] }})
  | Raise e => raise e
  end.

Definition emit (pub : publisher) (ev : stream_event) : leff unit :=
  match pub with Some f => f ev | None => ret tt end.
Definition has_publisher (pub : publisher) : bool := match pub with Some _ => true | None => false end.

(** ** The client *)

Definition send (p : completion_request) : leff nat :=
  modify (fun w => w {{ lw_sent ::= fun s => s ++ [p] }});;; tick.

(** The loop over the lines of a stream; [on_token] publishes when the call streams. *)
Fixpoint read_stream (on_token : text -> nat -> leff unit) (s : streamed) (lines : list text) : leff streamed :=
  match lines with
  | [] => ret s
  | line :: lines =>
      match read_line line with
      | Skip => read_stream on_token s lines
      | Stop => ret s
      | Malformed => raise (PyError (lit "JSONDecodeError") (lit "Expecting value"))
      | Chunk c =>
          match chunk_token c with
          | Some token =>
              on_token token (length (st_chunks s));;;
              read_stream on_token (note_chunk c (mkStreamed (st_chunks s ++ [token]) (st_finish s) (st_usage s))) lines
          | None => read_stream on_token (note_chunk c s) lines
          end
      end
  end.

Definition stream_generate (on_token : text -> nat -> leff unit) (p : completion_request) : leff generation :=
  n <-- send p;
  match stream_lines n p with
  | Raise e => raise (http_error e)
  | Ok (lines, broken) =>
      s <-- read_stream on_token (mkStreamed [] (lit "completed") (mkUsage (lit "vllm") None None None)) lines;
      match broken with
      | Some e => raise (http_error e)
      | None => ret (mkGeneration (concat (st_chunks s)) (st_usage s) (st_finish s))
      end
  end.

Definition generate_once (p : completion_request) : leff generation :=
  n <-- send p;
  match post n p with
  | Raise e => raise (http_error e)
  | Ok c => ret (generation_of c)
  end.

Definition generate (on_token : text -> nat -> leff unit) (i : invocation) : leff generation :=
  n <-- tick;
  if admitted n then
    p <-- lift (payload_of cfg i);
    if iv_streaming i then stream_generate on_token p else generate_once p
  else raise (ProviderOverloaded "vLLM provider admission timed out before capacity was available").

(** ** The pipeline *)

Definition input_budget (model : text) (reserved : Z) (output : option Z) : leff Z :=
  n <-- tick;
  fun w =>
    let '(r, c) := input_budget_chars (window_settings cfg) (Some (Ok (get_context_window n model))) model reserved output
                     (lw_windows w) in
    (r, w {{ lw_windows := c }}).

Definition render (m : request_message) (p : plan) : leff rendered :=
  r <-- lift (en_build (pl_entry p) cfg (rm_payload m));
  budget <-- input_budget (pl_model p) (estimate_tokens (system_prompt r)) (Some (pl_max_tokens p));
  raw <-- lift (truncate_middle (raw_prompt r) budget);
  ret (mkRendered (system_prompt r) raw).

Definition invocation_of (m : request_message) (p : plan) (r : rendered) : invocation :=
  let evaluation := bool_decide (rq_type (rm_payload m) = ANSWER_EVALUATION) in
  mkInvocation (system_prompt r) (raw_prompt r) (pl_model p) (pl_timeout p) (pl_can_stream p)
    (en_structured (pl_entry p)) (if evaluation then structured_output_transport cfg else lit "legacy")
    (if evaluation && bool_decide (structured_output_transport cfg = lit "json_schema")
     then Some (model_json_schema (en_output (pl_entry p))) else None)
    (Some (pl_max_tokens p)).

Definition float_or_none (v : json) : json :=
  match v with
  | JNull => JNull
  | JInt n => JFloat (inject_Z n)
  | JFloat q => JFloat q
  | JBool b => JFloat (if b then 1 else 0)
  | JStr t => match parse_float t with Some q => JFloat q | None => JNull end
  | _ => JNull
  end.
Definition int_or_none (v : json) : json := match int_of v with Some n => JInt n | None => JNull end.

Definition finalize_payload (m : request_message) (v : json) (model : text) (now : Z) : outcome py_exn json :=
  if bool_decide (rq_type (rm_payload m) = ANSWER_EVALUATION) then
    match v with
    | JObj o =>
        Ok (JObj [("review_id", JStr (py_str (get o "review_id" ||| JStr (lit "review_" ++ rm_request_id m))%rf));
                  ("verdict", JStr (py_strip (py_str (get o "verdict" ||| s_ "unknown")%rf)));
                  ("groundedness_score", float_or_none (get o "groundedness_score"));
                  ("completeness_score", float_or_none (get o "completeness_score"));
                  ("safety_score", float_or_none (get o "safety_score"));
                  ("issues", (get o "issues" ||| JArr [])%rf); ("claims", (get o "claims" ||| JArr [])%rf);
                  ("unsupported_claim_count", int_or_none (get o "unsupported_claim_count"));
                  ("hallucination_verdict", get o "hallucination_verdict");
                  ("revision_applied", JBool (jtrue (get_or o "revision_applied" (JBool false))));
                  ("model_name", JStr model); ("created_at", JInt now)])
    | _ => ValueError "Answer evaluation output must be a JSON object"
    end
  else Ok v.

Definition structured_output_debug_steps (metadata : obj) : list text :=
  [lit "Structured output extraction mode: " ++ py_str (get_or metadata "extraction_mode" (s_ "unknown"));
   lit "Structured output payload count: " ++ py_str (get_or metadata "payload_count" (JInt 0));
   lit "Structured output selected index: " ++ py_str (get metadata "selected_payload_index");
   lit "__structured_output_debug__:" ++ json_dump true
     (JObj [("payload_count", get metadata "payload_count"); ("selected_payload_index", get metadata "selected_payload_index");
            ("selection_policy", get metadata "selection_policy"); ("extraction_mode", get metadata "extraction_mode");
            ("candidates", get_or metadata "candidates" (JArr []))])].

(** ** Execution *)

Definition no_usage : usage := mkUsage (llm_implementation cfg) None None None.

Definition normalize_usage (u : usage) : usage :=
  mkUsage (or_text (Some (us_provider u)) (llm_implementation cfg)) (us_input u) (us_output u) (us_total u).

Definition initial_locals (m : request_message) : locals :=
  let r := rm_payload m in
  mkLocals [] [] [] [] None None [] no_usage (lit "completed") None None None None false 0 true
    (or_text (rq_prompt_version r) []) (or_text (rq_model r) (or_texts [default_model cfg; rag_chat_model cfg])).

Definition on_token (pub : publisher) (token : text) (index : nat) : leff unit :=
  assign (fun l => l {{ lo_tokens ::= S }});;;
  emit pub (LlmToken token index).

(** The first [try] block. *)
Definition run_model (m : request_message) (pub : publisher) : leff plan :=
  p <-- lift (make_plan cfg m (has_publisher pub));
  assign (fun l => l {{ lo_schema := if en_structured (pl_entry p) then Some (schema_sha256 (en_output (pl_entry p)))
                                     else lo_schema l }}
                     {{ lo_version := pl_version p }} {{ lo_model := pl_model p }} {{ lo_max_tokens := Some (pl_max_tokens p) }});;;
  r <-- render m p;
  assign (fun l => l {{ lo_system_prompt := system_prompt r }} {{ lo_raw_prompt := raw_prompt r }});;;
  step (lit "Rendered " ++ pl_version p);;;
  assign (fun l => l {{ lo_attempted := true }});;;
  g <-- generate (on_token pub) (invocation_of m p r);
  assign (fun l => l {{ lo_raw_output := ge_output g }} {{ lo_finish := finish_or (Some (ge_finish g)) (lit "completed") }}
                     {{ lo_provider_finish := Some (finish_or (Some (ge_finish g)) (lit "completed")) }}
                     {{ lo_usage := normalize_usage (ge_usage g) }});;;
  step (lit "Invoked model " ++ pl_model p);;;
  ret p.

(** [try: c except Exception as exc: stage; raise ValueError(...) from exc]. *)
Definition at_stage {A} (stage message : string) (c : leff A) : leff A :=
  catch c (fun e => if is_exception e
                    then Some (assign (fun l => l {{ lo_parse_stage := Some (lit stage) }});;;
                               raise (PyError (lit "ValueError") (lit message ++ exn_text e)))
                    else None).

(** The second [try] block. *)
Definition read_output (m : request_message) (p : plan) (pub : publisher) : leff unit :=
  d <-- at_stage "parse" "Structured output parse failed: "
          (raw <-- local lo_raw_output; lift (en_parse (pl_entry p) cfg raw (rm_payload m)));
  assign (fun l => l {{ lo_debug := de_debug d }});;;
  v <-- at_stage "validation" "Structured output validation failed: "
          (n <-- tick;
           v <-- lift (finalize_payload m (de_payload d) (pl_model p) (now_ms n));
           lift (model_validate (en_output (pl_entry p)) v));
  assign (fun l => l {{ lo_parsed := Some v }});;;
  step (lit "Validated parsed output");;;
  iterM step (match de_debug d with Some ((_ :: _) as o) => structured_output_debug_steps o | _ => [] end);;;
  if pl_can_stream p && has_publisher pub then
    fin <-- local lo_finish;
    n <-- local lo_tokens;
    emit pub (LlmDone fin n)
  else ret tt.

Definition error_entry (code message : text) : text * text :=
  (code, sanitize_debug_text (redact_secrets message) (debug_max_field_length cfg)).

Definition publish_stream_error (pub : publisher) (code message : text) : leff unit :=
  emit pub (LlmError code (sanitize_debug_text message (debug_max_field_length cfg))).

(** What the handlers of both blocks share. *)
Definition record_failure (pub : publisher) (code note : text) (e : py_exn) : leff unit :=
  assign (fun l => l {{ lo_success := false }} {{ lo_errors ::= fun es => es ++ [error_entry code (exn_text e)] }}
                     {{ lo_steps ::= fun s => s ++ [note] }});;;
  publish_stream_error pub code (exn_text e).

Definition model_failed (pub : publisher) (e : py_exn) : leff unit :=
  if is_class "StreamingNotSupportedException" e then
    record_failure pub (lit "streaming_not_supported") (lit "Streaming was not supported by the active provider") e
  else
    attempted <-- local lo_attempted;
    record_failure pub (provider_failure_code e attempted) (lit "Execution failed") e.

Definition output_code (structured_required : bool) (stage : option text) : text :=
  lit (if structured_required
       then (if bool_decide (stage = Some (lit "validation")) then "validation_error" else "structured_output_invalid")
       else "execution_error").

Definition output_failed (p : plan) (pub : publisher) (e : py_exn) : leff unit :=
  stage <-- local lo_parse_stage;
  let code := output_code (en_structured (pl_entry p)) stage in
  assign (fun l => if bool_decide (code = lit "structured_output_invalid") && bool_decide (stage = None)
                   then l {{ lo_parse_stage := Some (lit "unknown") }} else l);;;
  record_failure pub code
    (lit (if bool_decide (code = lit "structured_output_invalid") then "Structured output validation failed"
          else "Execution failed")) e.

Record response := mkResponse {
  rs_type : request_type; rs_success : bool; rs_raw_prompt : text; rs_system_prompt : text; rs_steps : list text;
  rs_raw_output : text; rs_parsed : option json; rs_usage : usage; rs_provider_finish : text; rs_status : text;
  rs_parse_stage : option text; rs_max_tokens : option Z; rs_model : text; rs_version : text; rs_schema : option text;
  rs_errors : list (text * text)
}.

(** [errors[0].code if status == "error" and errors else status]. *)
Definition application_status (l : locals) : text :=
  if lo_success l then lit "success"
  else match lo_errors l with (code, _) :: _ => code | [] => lit "error" end.

(** The response model rejects an application status outside its literals. *)
Definition build_response (m : request_message) (l : locals) : outcome py_exn response :=
  let debug t := sanitize_debug_text t (debug_max_field_length cfg) in
  let status := application_status l in
  if bool_decide (status ∈ APPLICATION_STATUSES) then
    Ok (mkResponse (rq_type (rm_payload m)) (lo_success l) (debug (lo_raw_prompt l)) (debug (lo_system_prompt l))
          (if rq_include_steps (rm_payload m) then lo_steps l else []) (debug (lo_raw_output l)) (lo_parsed l) (lo_usage l)
          (provider_finish_reason (lo_provider_finish l)) status (lo_parse_stage l) (lo_max_tokens l) (lo_model l)
          (lo_version l) (lo_schema l) (lo_errors l))
  else Raise (PyError (lit "ValidationError") (lit "application_status")).

(** [try: c except Exception as e: h(e) else: k]. *)
Definition try_else {A} (c : leff A) (h : py_exn -> leff unit) (k : A -> leff unit) : leff unit :=
  o <-- attempt c;
  match o with
  | Ok a => k a
  | Raise e => if is_exception e then h e else raise e
  end.

Definition execute (m : request_message) (pub : publisher) : leff response :=
  assign (fun _ => initial_locals m);;;
  try_else (run_model m pub) (model_failed pub)
    (fun p => try_else (read_output m p pub) (output_failed p pub) ret);;;
  l <-- local id;
  lift (build_response m l).

(** ** The handler *)

Record reply := mkReplyMessage {
  rp_request_id : text; rp_trace_id : text; rp_correlation_id : text; rp_reply_to : option text; rp_success : bool;
  rp_payload : response; rp_error : option (text * text)
}.

Definition build_reply_message (m : request_message) (r : response) : reply :=
  mkReplyMessage (rm_request_id m) (rm_trace_id m) (rm_correlation_id m) (rm_reply_to m) (rs_success r) r
    (if rs_success r then None else head (rs_errors r)).

(** The publisher of the handler: events of a request without a stream are dropped. *)
Definition publish_stream (m : request_message) (ev : stream_event) : leff unit :=
  match rm_stream_to m with Some (_ :: _) => publish ev | _ => ret tt end.

(** [handle] for a request that was validated. *)
Definition handle (m : request_message) : leff reply :=
  r <-- execute m (Some (publish_stream m));
  ret (build_reply_message m r).
End Service.

(** ** One model server, evaluated

    Concrete answers of the classes [LlmExecution] is written over, on which the witnesses
    evaluate: a server that streams two tokens and answers plain calls with JSON, a JSON
    reader for that answer, and a publisher that never raises. *)

Definition demo_json : JsonText := {|
  json_parse t := if bool_decide (t = lit "{title}") then Some (JObj [("title", s_ "Rome")]) else None;
  json_dump _ _ := lit "{}"
|}.

Definition demo_digits : Digits := fun c => if (48 <=? c) && (c <=? 57) then Some (c - 48) else None.

Definition demo_models : OutputModels := {|
  model_validate _ v := Ok v; model_json_schema _ := []; schema_sha256 _ := repeat 97 64
|}.

(** Streams [Rome] and [ again.]; a plain call answers with the JSON; the window is 4096. *)
Definition demo_server (admits : bool) : ModelServer := {|
  admitted _ := admits;
  post _ _ := Ok (mkReply [mkChoice (Some (lit "{title}")) (Some (lit "stop"))] (Some (Some 9, Some 1, Some 10)));
  stream_lines _ _ := Ok ([lit "data:Rome"; []; lit "data: again."; lit "data: [DONE]"], None);
  chunk_of t := Some (mkReply [mkChoice (Some t) None] None);
  list_entries _ := Some [mkModelEntry (lit "chat-model") (Some 4096)]
|}.

Definition demo_redaction : Redaction := fun t => t.
Definition demo_llm_env : LlmEnv := {| publish_result _ := Ok Delivered; now_ms _ := 1000 |}.

Definition demo_settings : llm_settings :=
  mkLlmSettings (lit "llm") (lit "vllm") (lit "chat-model") (lit "chat-model") (lit "chat-model") (lit "chat-model")
    (mkWindowConfig 4096 512) 512 512 512 512 512 64 256 512 512 60 60 60 2000 (lit "legacy") true
    (1 # 5) (9 # 10) 20 4 16.

Definition demo_request (stream : option text) (input : model_input) : request_message :=
  mkRequestMessage (lit "r1") (lit "t1") (lit "c1") (lit "rag") (Some (lit "replies")) stream
    (mkExec input None None None [] true).

Definition ask_rome : request_message :=
  demo_request (Some (lit "events")) (AnswerGenerationInput (lit "Where?") (CText (lit "Rome is in Italy.")) None None).
Definition ask_title : request_message :=
  demo_request None (ChatTitleInput [mkMessage (lit "user") (lit "hello")]).

Definition demo_start : lworld := mkLW 0 [] [] [] [] (initial_locals demo_settings ask_rome).

Section Evaluated.
#[local] Existing Instance ascii_text.
#[local] Existing Instance ascii_words_chars.
#[local] Existing Instance demo_json.
#[local] Existing Instance demo_digits.
#[local] Existing Instance demo_models.
#[local] Existing Instance demo_redaction.
#[local] Existing Instance demo_llm_env.

Definition run_demo (admits : bool) (m : request_message) : outcome py_exn reply * lworld :=
  let _ := demo_server admits in handle demo_settings m demo_start.

Example streamed_answer :
  lw_stream (run_demo true ask_rome).2 = [LlmToken (lit "Rome") 0; LlmToken (lit "again.") 1; LlmDone (lit "completed") 2]
  /\ (exists r, (run_demo true ask_rome).1 = Ok r /\ rp_success r = true /\ rs_raw_output (rp_payload r) = lit "Romeagain.").
Proof. split; [vm_compute; reflexivity|]. eexists. split; [vm_compute; reflexivity|]. by vm_compute. Qed.

Example plain_answer :
  exists r, (run_demo true ask_title).1 = Ok r /\ rp_success r = true /\
    rs_parsed (rp_payload r) = Some (JObj [("title", s_ "Rome")]) /\ rs_provider_finish (rp_payload r) = lit "stop".
Proof. eexists. split; [vm_compute; reflexivity|]. by vm_compute. Qed.

(** A provider without capacity is reported on the stream, and then no reply is built: the
    response model does not know the status. *)
Example overload_unanswered :
  (run_demo false ask_rome).1 = Raise (PyError (lit "ValidationError") (lit "application_status")) /\
  lw_stream (run_demo false ask_rome).2
    = [LlmError (lit "provider_overloaded") (lit "vLLM provider admission timed out before capacity was available")].
Proof. split; vm_compute; reflexivity. Qed.
End Evaluated.
