(* ===== verification/LlmSafety.v ===== *)
(** * What typed execution guarantees

    A calculus for the programs of [LlmExecution], and with it the invariant that every prompt
    that is sent fits the window the service knows for its model.  Then what [handle] hands to
    the stream and answers: the tokens of the model in order, the one event that ends the
    stream, and a reply whose status is the reason it failed; one invariant, [clean], is
    carried through the two blocks of [execute]. *)

From Stdlib Require Import QArith.
From stdpp Require Import base strings list.
From S2P Require Import Prelude PyValue MemoryNormalize TextWindow LlmPrompts LlmRegistry VllmClient LlmExecution.

Local Open Scope string_scope.
Local Open Scope list_scope.
Local Open Scope Z_scope.

(** ** Runs of a program

    [wp c Q E w]: from [w], [c] returns a value and a state in [Q] or raises in [E]. *)

Section Wp.
Context {W : Type}.

Definition wp {A} (c : eff W A) (Q : A -> W -> Prop) (E : py_exn -> W -> Prop) (w : W) : Prop :=
  match c w with (Ok a, w') => Q a w' | (Raise e, w') => E e w' end.

Lemma wp_bind {A B} (c : eff W A) (k : A -> eff W B) Q E w :
  wp c (fun a => wp (k a) Q E) E w -> wp (bind c k) Q E w.
Proof. unfold wp, bind. by destruct (c w) as [[a|e] w']. Qed.

Lemma wp_mono {A} (c : eff W A) (Q Q' : A -> W -> Prop) (E E' : py_exn -> W -> Prop) w :
  wp c Q E w -> (forall a w', Q a w' -> Q' a w') -> (forall e w', E e w' -> E' e w') -> wp c Q' E' w.
Proof. unfold wp. destruct (c w) as [[a|e] w']; naive_solver. Qed.

Lemma wp_ret {A} (a : A) (Q : A -> W -> Prop) E w : Q a w -> wp (ret a) Q E w.
Proof. done. Qed.
Lemma wp_raise {A} e (Q : A -> W -> Prop) (E : py_exn -> W -> Prop) w : E e w -> wp (raise e) Q E w.
Proof. done. Qed.
Lemma wp_gets {A} (f : W -> A) (Q : A -> W -> Prop) E w : Q (f w) w -> wp (gets f) Q E w.
Proof. done. Qed.
Lemma wp_modify f (Q : unit -> W -> Prop) E w : Q tt (f w) -> wp (modify f) Q E w.
Proof. done. Qed.
Lemma wp_lift {A} (o : outcome py_exn A) (Q : A -> W -> Prop) (E : py_exn -> W -> Prop) w :
  (forall a, o = Ok a -> Q a w) -> (forall e, o = Raise e -> E e w) -> wp (lift o) Q E w.
Proof. unfold wp, lift. destruct o; auto. Qed.
Lemma wp_attempt {A} (c : eff W A) (Q : outcome py_exn A -> W -> Prop) E w :
  wp c (fun a => Q (Ok a)) (fun e => Q (Raise e)) w -> wp (attempt c) Q E w.
Proof. unfold wp, attempt. by destruct (c w) as [[a|e] w']. Qed.
Lemma wp_catch {A} (c : eff W A) h (Q : A -> W -> Prop) E w :
  wp c Q (fun e => match h e with Some k => wp k Q E | None => E e end) w -> wp (catch c h) Q E w.
Proof. unfold wp, catch. destruct (c w) as [[a|e] w']; [done|]. by destruct (h e). Qed.
End Wp.

Section Safety.
Context `{PyText} `{WordChars} `{JsonText} `{Digits} `{OutputModels} `{ModelServer} `{Redaction} `{LlmEnv}.
Context (cfg : llm_settings).

(** ** Prompts and windows *)

Definition fits (w : lworld) (r : completion_request) : Prop :=
  exists window, cached (cr_model r) (lw_windows w) = Some window /\
    estimate_tokens (cr_prompt r) + cr_max_tokens r <= window.

Definition all_fit (w : lworld) : Prop := Forall (fits w) (lw_sent w).

(** The parts of the state the invariant reads. *)
Definition same_calls (w w' : lworld) : Prop := lw_windows w' = lw_windows w /\ lw_sent w' = lw_sent w.

Lemma all_fit_same w w' : same_calls w w' -> all_fit w -> all_fit w'.
Proof. intros [E1 E2]. unfold all_fit, fits. by rewrite E1, E2. Qed.

Lemma cached_app model c m n window : cached model c = Some window -> cached model (c ++ [(m, n)]) = Some window.
Proof. induction c as [|[m' n'] c IH]; cbn; [done|]. by destruct (decide (m' = model)). Qed.

Lemma context_tokens_cached wc probe model c :
  let '(n, c') := context_tokens wc probe model c in
  cached model c' = Some n /\ forall m window, cached m c = Some window -> cached m c' = Some window.
Proof.
  unfold context_tokens. destruct (cached model c) as [n|] eqn:E; [done|]. split.
  - induction c as [|[m' n'] c IH]; cbn in *; [by rewrite decide_True|]. by destruct (decide (m' = model)); [|apply IH].
  - intros m window Hm. by apply cached_app.
Qed.

(** What is sent around the two prompts costs at most fourteen tokens. *)
Lemma prompt_overhead i :
  estimate_tokens (to_prompt i ++ NO_THINK_SUFFIX) <= estimate_tokens (iv_system i) + estimate_tokens (iv_raw i) + 14.
Proof.
  pose proof (estimate_bound (to_prompt i ++ NO_THINK_SUFFIX)) as Hb.
  pose proof (estimate_lower (iv_system i)). pose proof (estimate_lower (iv_raw i)).
  assert (zlen (to_prompt i ++ NO_THINK_SUFFIX) <= zlen (iv_system i) + zlen (iv_raw i) + 48).
  { unfold to_prompt. destruct (iv_system i) as [|x s]; rewrite !zlen_app;
      change (zlen NO_THINK_SUFFIX) with 32; [change (zlen (A := Z) []) with 0; lia|].
    change (zlen (prose "System:~")) with 8. change (zlen (prose "~~User:~")) with 8. lia. }
  lia.
Qed.

Lemma payload_of_shape i p : payload_of cfg i = Ok p ->
  cr_model p = iv_model i /\ cr_prompt p = to_prompt i ++ NO_THINK_SUFFIX /\
  forall n, iv_max_tokens i = Some n -> n <> 0 -> cr_max_tokens p = n.
Proof.
  unfold payload_of. cbv zeta. intros Hp.
  assert (Hb : forall n, iv_max_tokens i = Some n -> n <> 0 -> cr_max_tokens (base_payload cfg i) = n).
  { intros n Hn Hz. unfold base_payload, or_default. rewrite Hn. cbn. by destruct (Z.eqb_spec n 0). }
  repeat case_match; simplify_eq; done.
Qed.

(** Sending a fitting request keeps the invariant; nothing else of the client matters to it. *)
Lemma wp_generate on_token i w :
  (forall t n w, all_fit w -> wp (on_token t n) (fun _ => all_fit) (fun _ => all_fit) w) ->
  all_fit w -> (forall p, payload_of cfg i = Ok p -> fits w p) ->
  wp (generate cfg on_token i) (fun _ => all_fit) (fun _ => all_fit) w.
Proof.
  intros Hon Hw Hp. unfold generate. apply wp_bind. cbn. destruct (admitted _).
  2: { apply wp_raise. by apply (all_fit_same w). }
  apply wp_bind, wp_lift; [|intros; by apply (all_fit_same w)]. intros p Ep. specialize (Hp p Ep).
  set (w1 := w {{ lw_tick ::= S }}).
  assert (Hsend : forall (A : Type) (k : nat -> eff lworld A),
    (forall n w2, all_fit w2 -> wp (k n) (fun _ => all_fit) (fun _ => all_fit) w2) ->
    wp (bind (send p) k) (fun _ => all_fit) (fun _ => all_fit) w1).
  { intros A k Hk. apply wp_bind. cbn. apply Hk. unfold all_fit. cbn. apply Forall_app. split; [done|]. by constructor. }
  destruct (iv_streaming i); apply Hsend; intros n w2 Hw2.
  - destruct (stream_lines n p) as [[lines broken]|e]; [|done]. apply wp_bind.
    assert (Hread : forall lines s w2, all_fit w2 ->
      wp (read_stream on_token s lines) (fun _ => all_fit) (fun _ => all_fit) w2).
    { clear -Hon. induction lines as [|line lines IH]; intros s w2 Hw2; [done|]. cbn [read_stream].
      destruct (read_line line) as [| |c|]; [by apply IH|done| |done].
      destruct (chunk_token c); [|by apply IH]. apply wp_bind.
      eapply wp_mono; [by apply Hon|intros [] w3 H3; by apply IH|done]. }
    eapply wp_mono; [by apply Hread| |done]. intros s w3 Hw3. by destruct broken.
  - by destruct (post n p).
Qed.

Lemma wp_input_budget model reserved output w : all_fit w ->
  wp (input_budget cfg model reserved output)
    (fun b w' => all_fit w' /\ exists window, cached model (lw_windows w') = Some window /\
       budget_of window reserved (match output with Some n => n | None => or_default (vllm_max_tokens (window_settings cfg)) 512 end) = Ok b)
    (fun _ => all_fit) w.
Proof.
  intros Hw. unfold input_budget. apply wp_bind. cbn. unfold wp, input_budget_chars.
  match goal with |- context [context_tokens ?wc ?pr ?m ?c] =>
    pose proof (context_tokens_cached wc pr m c) as Hc; destruct (context_tokens wc pr m c) as [n c'] end.
  destruct Hc as [Hc Hk]. cbn in Hk.
  assert (Hall : all_fit (w {{ lw_tick ::= S }} {{ lw_windows := c' }})).
  { unfold all_fit in *. cbn. eapply Forall_impl; [exact Hw|]. intros r (window & Hr & Hle). exists window. cbn. eauto. }
  destruct (budget_of n reserved _) as [b|e] eqn:Eb; [|exact Hall]. split; [exact Hall|]. exists n. by cbn.
Qed.

(** A publisher that does not talk to the model. *)
Definition quiet (pub : publisher) : Prop :=
  forall ev w, all_fit w -> wp (emit pub ev) (fun _ => all_fit) (fun _ => all_fit) w.

Lemma wp_publish ev w : all_fit w -> wp (publish ev) (fun _ => all_fit) (fun _ => all_fit) w.
Proof. intros Hw. unfold publish. apply wp_bind. cbn. by destruct (publish_result _) as [[]|]. Qed.

Lemma quiet_stream m : quiet (Some (publish_stream m)).
Proof. intros ev w Hw. cbn. unfold publish_stream. repeat case_match; try done. by apply wp_publish. Qed.

Lemma wp_assign_fit f (Q : unit -> lworld -> Prop) E w :
  Q tt (w {{ lw_local ::= f }}) -> wp (assign f) Q E w.
Proof. done. Qed.

Lemma field_bounds_tokens t : field_bounds cfg = true -> 1 <= max_tokens_for_request_type cfg t.
Proof.
  unfold field_bounds. rewrite !andb_true_iff. intros [_ Hf]. rewrite forallb_forall in Hf.
  specialize (Hf t). cbv zeta in Hf. assert (In t REQUEST_TYPES) as Hin by (destruct t; cbn; tauto).
  apply Hf in Hin. lia.
Qed.

Lemma wp_run_model m pub w : field_bounds cfg = true -> quiet pub -> all_fit w ->
  wp (run_model cfg m pub) (fun _ => all_fit) (fun _ => all_fit) w.
Proof.
  intros Hcfg Hq Hw. unfold run_model. apply wp_bind, wp_lift; [|done]. intros p Ep.
  assert (Htok : pl_max_tokens p = max_tokens_for_request_type cfg (rq_type (rm_payload m))).
  { unfold make_plan in Ep. destruct (resolve _ _); [|done]. by injection Ep as <-. }
  apply wp_bind, wp_assign_fit, wp_bind.
  match goal with |- wp _ _ _ ?w0 => set (w1 := w0); assert (all_fit w1) as Hw1 by done; clearbody w1 end.
  unfold render. apply wp_bind, wp_lift; [|done]. intros r Er. apply wp_bind.
  eapply wp_mono; [by apply wp_input_budget| |done]. intros b w2 (Hw2 & window & Hc & Hb).
  apply wp_bind, wp_lift; [|done]. intros raw Hraw. apply wp_ret, wp_bind, wp_assign_fit, wp_bind, wp_assign_fit.
  apply wp_bind, wp_assign_fit, wp_bind.
  match goal with |- wp _ _ _ ?w0 => set (w3 := w0); assert (same_calls w2 w3) as Hs by done; clearbody w3 end.
  eapply wp_mono; [apply wp_generate| |done].
  - intros t n w4 Hw4. unfold on_token. apply wp_bind, wp_assign_fit. by apply Hq.
  - by apply (all_fit_same w2).
  - intros q Hpay. destruct (payload_of_shape _ _ Hpay) as (Hm & Hpr & Hmax). destruct Hs as [Hs _].
    exists window. rewrite Hm, Hpr, Hs. split; [done|].
    pose proof (field_bounds_tokens (rq_type (rm_payload m)) Hcfg) as Hpos.
    rewrite (Hmax (pl_max_tokens p)) by (done || (rewrite Htok; lia)).
    destruct (truncate_middle_spec _ _ _ Hraw) as [Hlen _].
    pose proof (budget_fits _ _ _ _ _ Hb Hlen) as Hfit. pose proof (prompt_overhead (invocation_of cfg m p (mkRendered (system_prompt r) raw))) as Ho.
    cbn [iv_system iv_raw invocation_of system_prompt raw_prompt] in Ho. unfold SAFETY_MARGIN_TOKENS in Hfit. lia.
  - intros g w4 Hw4. by apply wp_bind, wp_assign_fit, wp_bind, wp_assign_fit, wp_ret.
Qed.

(** The rest of an execution sends nothing. *)
Lemma wp_iter_steps l (P : lworld -> Prop) w : (forall f w, P w -> P (w {{ lw_local ::= f }})) -> P w ->
  wp (iterM step l) (fun _ => P) (fun _ _ => False) w.
Proof.
  intros HP. revert w. induction l as [|t l IH]; intros w Hw; [done|]. cbn. apply wp_bind, wp_assign_fit. apply IH. by apply HP.
Qed.

Lemma wp_record_failure pub code note e w : quiet pub -> all_fit w ->
  wp (record_failure cfg pub code note e) (fun _ => all_fit) (fun _ => all_fit) w.
Proof. intros Hq Hw. unfold record_failure, publish_stream_error. apply wp_bind, wp_assign_fit. by apply Hq. Qed.

Lemma wp_read_output m p pub w : quiet pub -> all_fit w ->
  wp (read_output cfg m p pub) (fun _ => all_fit) (fun _ => all_fit) w.
Proof.
  intros Hq Hw. unfold read_output, at_stage.
  assert (Hh : forall (A : Type) stage message (c : leff A) w, wp c (fun _ => all_fit) (fun _ => all_fit) w ->
    wp (at_stage stage message c) (fun _ => all_fit) (fun _ => all_fit) w).
  { intros A stage message c w0 Hc. apply wp_catch. eapply wp_mono; [exact Hc|done|]. intros e w1 Hw1. cbn.
    by destruct (is_exception e). }
  apply wp_bind. eapply wp_mono; [apply Hh| |done].
  { apply wp_bind, wp_gets, wp_lift; done. }
  intros d w1 Hw1. apply wp_bind, wp_assign_fit, wp_bind. eapply wp_mono; [apply Hh| |done].
  { apply wp_bind. cbn. apply wp_bind, wp_lift; [|done]. intros v _. by apply wp_lift. }
  intros v w2 Hw2. apply wp_bind, wp_assign_fit, wp_bind, wp_assign_fit, wp_bind.
  eapply wp_mono; [apply (wp_iter_steps _ all_fit)|intros [] w3 Hw3|done]; [done|done|].
  destruct (pl_can_stream p && has_publisher pub); [|done]. apply wp_bind, wp_gets, wp_bind, wp_gets. by apply Hq.
Qed.

Lemma wp_execute m pub w : field_bounds cfg = true -> quiet pub -> all_fit w ->
  wp (execute cfg m pub) (fun _ => all_fit) (fun _ => all_fit) w.
Proof.
  intros Hcfg Hq Hw. unfold execute, try_else. apply wp_bind, wp_assign_fit, wp_bind, wp_bind, wp_attempt.
  assert (Hend : forall w, all_fit w -> wp (l <-- local id; lift (build_response cfg m l)) (fun _ => all_fit) (fun _ => all_fit) w).
  { intros w0 Hw0. apply wp_bind, wp_gets. by apply wp_lift. }
  eapply wp_mono; [by apply wp_run_model|intros p w1 Hw1|intros e w1 Hw1].
  - apply wp_bind, wp_attempt. eapply wp_mono; [by apply wp_read_output|intros [] w2 Hw2|intros e w2 Hw2].
    + by apply wp_ret, Hend.
    + destruct (is_exception e); [|by apply wp_raise]. unfold output_failed. apply wp_bind, wp_gets, wp_bind, wp_assign_fit.
      eapply wp_mono; [by apply wp_record_failure|intros [] w3 Hw3; by apply Hend|done].
  - destruct (is_exception e); [|by apply wp_raise]. unfold model_failed. destruct (is_class _ e).
    + eapply wp_mono; [by apply wp_record_failure|intros [] w3 Hw3; by apply Hend|done].
    + apply wp_bind, wp_gets. eapply wp_mono; [by apply wp_record_failure|intros [] w3 Hw3; by apply Hend|done].
Qed.

(** C18: typed execution never overruns the window of a model.  For settings within the bounds
    of their fields, handling a message of the typed protocol keeps, whatever its outcome, that
    every request the typed pipeline has sent to the model server fits: the tokens estimated
    for its whole prompt (the system prompt, the role markers and the closed block of thoughts
    included) and the tokens it may generate are together at most the window the service keeps
    for that model.  (The untyped [generate_text], which the metadata and summary services
    call, and the probe of the server send outside this pipeline.) *)
Theorem prompts_fit_window m w :
  field_bounds cfg = true -> all_fit w -> all_fit (handle cfg m w).2.
Proof.
  intros Hcfg Hw. unfold handle.
  assert (Hx : wp (bind (execute cfg m (Some (publish_stream m))) (fun r => ret (build_reply_message m r)))
                 (fun _ => all_fit) (fun _ => all_fit) w).
  { apply wp_bind. eapply wp_mono; [by apply wp_execute, Hw; [|apply quiet_stream]|done|done]. }
  unfold wp in Hx. by destruct (bind _ _ w) as [[?|?] ?].
Qed.
End Safety.

Section Witness.
#[local] Existing Instance ascii_text.
#[local] Existing Instance ascii_words_chars.
#[local] Existing Instance demo_json.
#[local] Existing Instance demo_digits.
#[local] Existing Instance demo_models.
#[local] Existing Instance demo_redaction.
#[local] Existing Instance demo_llm_env.
#[local] Instance admitting : ModelServer := demo_server true.

Lemma prompts_fit_window_witness :
  length (lw_sent (handle demo_settings ask_rome demo_start).2) = 1%nat /\
  all_fit (handle demo_settings ask_rome demo_start).2.
Proof.
  split; [vm_compute; reflexivity|]. apply (prompts_fit_window demo_settings ask_rome demo_start); [reflexivity|constructor].
Defined.
End Witness.

(** ** The stream and the reply *)

Section Stream.
Context `{PyText} `{WordChars} `{JsonText} `{Digits} `{OutputModels} `{ModelServer} `{Redaction} `{LlmEnv}.
Context (cfg : llm_settings).

Definition token_events (ts : list text) : list stream_event := imap (fun i t => LlmToken t i) ts.

Lemma token_events_snoc ts t : token_events (ts ++ [t]) = token_events ts ++ [LlmToken t (length ts)].
Proof. unfold token_events. rewrite imap_app. cbn. by rewrite Nat.add_0_r. Qed.

(** Events of a message are published when it names a stream; only answers are streamed. *)
Definition has_stream (m : request_message) : bool := match rm_stream_to m with Some (_ :: _) => true | _ => false end.
Definition streams (m : request_message) : bool :=
  has_stream m && bool_decide (rq_type (rm_payload m) = ANSWER_GENERATION).

(** No failure has been recorded and only tokens were published since [s0]. *)
Definition clean (s0 : list stream_event) (m : request_message) (ts : list text) (w : lworld) : Prop :=
  lw_stream w = s0 ++ token_events ts /\ lo_success (lw_local w) = true /\ lo_errors (lw_local w) = []
  /\ (streams m = false -> ts = []).

Definition some_clean (s0 : list stream_event) (m : request_message) (_ : py_exn) (w : lworld) : Prop := exists ts, clean s0 m ts w.

(** After the model answered. *)
Definition invoked (s0 : list stream_event) (m : request_message) (p : plan) (w : lworld) : Prop :=
  exists ts, clean s0 m ts w /\ pl_can_stream p = streams m /\
    (if streams m then lo_tokens (lw_local w) = length ts /\ lo_raw_output (lw_local w) = concat ts else ts = []).

Lemma wp_publish_stream m ev (Q : unit -> lworld -> Prop) (E : py_exn -> lworld -> Prop) w :
  (if has_stream m
   then let w1 := w {{ lw_tick ::= S }} in
        (forall heard, Q tt (w1 {{ lw_stream ::= fun s => s ++ [ev] }} {{ lw_heard := heard }})) /\ (forall e, publish_result (lw_tick w) = Raise e -> E e w1)
   else Q tt w) -> wp (publish_stream m ev) Q E w.
Proof.
  unfold has_stream, publish_stream. destruct (rm_stream_to m) as [[|x s]|]; [done| |done].
  intros [HQ HE]. unfold publish. apply wp_bind. cbn.
  destruct (publish_result (lw_tick w)) as [[]|e] eqn:Ep; [exact (HQ _)| | |by apply HE]; exact (HQ (lw_heard w)).
Qed.

Lemma wp_read_stream m s0 lines s w : streams m = true ->
  clean s0 m (st_chunks s) w -> lo_tokens (lw_local w) = length (st_chunks s) ->
  wp (read_stream (on_token (Some (publish_stream m))) s lines)
    (fun s' w' => clean s0 m (st_chunks s') w' /\ lo_tokens (lw_local w') = length (st_chunks s')) (some_clean s0 m) w.
Proof.
  intros Hs. revert s w. induction lines as [|line lines IH]; intros s w Hc Hn; [done|]. cbn [read_stream].
  assert (Hnote : forall c s, st_chunks (note_chunk c s) = st_chunks s).
  { intros c s'. unfold note_chunk. by destruct (co_usage c), (co_choices c). }
  destruct (read_line line) as [| |c|]; [by apply IH|done| |by exists (st_chunks s)].
  destruct (chunk_token c) as [t|]; [|apply IH; by rewrite Hnote].
  destruct Hc as (Hstream & Hok & Herr & Hts). pose proof Hs as [Hhas _]%andb_true_iff. unfold on_token. apply wp_bind, wp_bind, wp_assign_fit. cbn [emit].
  apply wp_publish_stream. rewrite Hhas. cbv zeta. split; [intros heard|].
  - apply IH; rewrite Hnote; cbn; [|rewrite length_app; cbn; lia].
    split; [cbn; by rewrite Hstream, token_events_snoc, app_assoc|]. split; [done|]. split; [done|]. by rewrite Hs.
  - intros e _. by exists (st_chunks s).
Qed.

(** What a generation leaves behind. *)
Definition generated (s0 : list stream_event) (m : request_message) (g : generation) (w : lworld) : Prop :=
  exists ts, clean s0 m ts w /\
    (if streams m then lo_tokens (lw_local w) = length ts /\ ge_output g = concat ts else ts = []).

Lemma wp_generate_stream m i s0 w : iv_streaming i = streams m -> clean s0 m [] w -> lo_tokens (lw_local w) = 0%nat ->
  wp (generate cfg (on_token (Some (publish_stream m))) i) (generated s0 m) (some_clean s0 m) w.
Proof.
  intros Hi Hc Hn. unfold generate. apply wp_bind. cbn. destruct (admitted _); [|by exists []].
  apply wp_bind, wp_lift; [|by exists []]. intros p _. rewrite Hi. unfold generated. destruct (streams m) eqn:Es.
  - unfold stream_generate, send. apply wp_bind, wp_bind, wp_modify. cbn.
    destruct (stream_lines _ p) as [[lines broken]|e]; [|by exists []]. apply wp_bind.
    eapply wp_mono; [by apply (wp_read_stream m s0)| |done].
    intros s w1 [Hc1 Hn1]. destruct broken; [by exists (st_chunks s)|]. by exists (st_chunks s).
  - unfold generate_once, send. apply wp_bind, wp_bind, wp_modify. cbn. destruct (post _ p); by exists [].
Qed.

Lemma wp_input_budget_clean model reserved output s0 m ts w : clean s0 m ts w ->
  wp (input_budget cfg model reserved output)
    (fun _ w' => clean s0 m ts w' /\ lw_local w' = lw_local w) (some_clean s0 m) w.
Proof.
  intros Hc. unfold input_budget. apply wp_bind. cbn. unfold wp.
  destruct (input_budget_chars _ _ _ _ _ _) as [[b|e] c]; [done|by exists ts].
Qed.

Lemma plan_streams m p : make_plan cfg m true = Ok p -> pl_can_stream p = streams m.
Proof.
  unfold make_plan, streams. fold (has_stream m). destruct (resolve _ _) as [e|] eqn:Er; [|done]. intros [= <-]. cbn.
  rewrite andb_true_r. f_equal. pose proof (proj1 (resolve_sound _ _ Er)) as Ht. rewrite <- Ht.
  unfold resolve in Er. cbv zeta in Er. destruct (List.find _ ENTRIES) as [e'|] eqn:E; [|done]. injection Er as ->.
  apply List.find_some in E as [Hin _]. repeat (destruct Hin as [<-|Hin]; [reflexivity|]). done.
Qed.

Lemma wp_run_model_stream m s0 w : clean s0 m [] w -> lo_tokens (lw_local w) = 0%nat ->
  wp (run_model cfg m (Some (publish_stream m))) (invoked s0 m) (some_clean s0 m) w.
Proof.
  intros Hc Hn. unfold run_model. apply wp_bind, wp_lift; [|by exists []]. intros p Hp%plan_streams.
  apply wp_bind, wp_assign_fit, wp_bind. unfold render. apply wp_bind, wp_lift; [|by exists []]. intros r _.
  apply wp_bind. eapply wp_mono; [by apply (wp_input_budget_clean _ _ _ s0 m [])| |done]. intros b w2 [Hc2 Hl2].
  apply wp_bind, wp_lift; [|by exists []]. intros raw _. apply wp_ret, wp_bind, wp_assign_fit, wp_bind, wp_assign_fit.
  apply wp_bind, wp_assign_fit, wp_bind.
  eapply wp_mono; [apply (wp_generate_stream m _ s0)| |done]; [done|done|cbn; by rewrite Hl2|].
  intros g w3 (ts & Hc3 & Hg). apply wp_bind, wp_assign_fit, wp_bind, wp_assign_fit, wp_ret.
  exists ts. split; [done|]. split; [done|]. cbn. by destruct (streams m).
Qed.

(** ** The end of an execution *)

(** What the stream holds and what the locals say once both blocks are done. *)
Inductive finished (s0 : list stream_event) (m : request_message) (w : lworld) : Prop :=
  | FinishedOk ts v :
      lw_stream w = s0 ++ token_events ts
        ++ (if streams m then [LlmDone (lo_finish (lw_local w)) (length ts)] else []) ->
      lo_success (lw_local w) = true -> lo_errors (lw_local w) = [] -> lo_parsed (lw_local w) = Some v ->
      (if streams m then lo_raw_output (lw_local w) = concat ts else ts = []) -> finished s0 m w
  | FinishedError ts code note msg :
      lw_stream w = s0 ++ token_events ts ++ (if has_stream m then [LlmError code msg] else []) ->
      lo_success (lw_local w) = false -> lo_errors (lw_local w) = [(code, note)] ->
      code ∈ lit "provider_overloaded" :: APPLICATION_STATUSES -> code <> lit "success" -> (streams m = false -> ts = []) -> finished s0 m w.

(** An exception that leaves [execute]: it is not an [Exception], or the publisher raised it. *)
Definition escaped (s0 : list stream_event) (m : request_message) (e : py_exn) (w : lworld) : Prop :=
  (exists ts, lw_stream w = s0 ++ token_events ts /\ (streams m = false -> ts = [])) /\ (is_exception e = false \/ exists n, publish_result n = Raise e).

Lemma wp_record_failure_stream m s0 code note e w : some_clean s0 m e w ->
  code ∈ lit "provider_overloaded" :: APPLICATION_STATUSES -> code <> lit "success" ->
  wp (record_failure cfg (Some (publish_stream m)) code note e) (fun _ => finished s0 m) (escaped s0 m) w.
Proof.
  intros (ts & Hstream & Hok & Herr & Hts) Hin Hne. unfold record_failure, publish_stream_error. apply wp_bind, wp_assign_fit.
  cbn [emit]. apply wp_publish_stream. destruct (has_stream m) eqn:Es; cbv zeta.
  - split; [intros heard|].
    + eapply (FinishedError _ _ _ ts); try rewrite Es; cbn; [by rewrite Hstream, app_assoc|done|by rewrite Herr|done|done|done].
    + intros e' He. split; [exists ts; by cbn|by eauto].
  - eapply (FinishedError _ _ _ ts code _ []); try rewrite Es; cbn; [by rewrite Hstream, app_nil_r|done|by rewrite Herr|done|done|done].
Qed.

Definition read_kept (s0 : list stream_event) (m : request_message) (ts : list text) (w w' : lworld) : Prop :=
  clean s0 m ts w' /\ lo_tokens (lw_local w') = lo_tokens (lw_local w) /\ lo_raw_output (lw_local w') = lo_raw_output (lw_local w).

Lemma wp_stage {A} stage message (c : leff A) (R : lworld -> Prop) w :
  (forall w st, R w -> R (w {{ lw_local ::= fun l => l {{ lo_parse_stage := st }} }})) ->
  wp c (fun _ => R) (fun _ => R) w -> wp (at_stage stage message c) (fun _ => R) (fun _ => R) w.
Proof.
  intros HR Hc. apply wp_catch. eapply wp_mono; [exact Hc|done|]. intros e w1 Hw1. cbn.
  destruct (is_exception e); [|done]. apply wp_bind, wp_assign_fit. by apply HR.
Qed.

Lemma wp_steps l (P : lworld -> Prop) w : (forall w t, P w -> P (w {{ lw_local ::= fun l => l {{ lo_steps ::= fun s => s ++ [t] }} }})) ->
  P w -> wp (iterM step l) (fun _ => P) (fun _ _ => False) w.
Proof. intros HP. revert w. induction l as [|t l IH]; intros w Hw; [done|]. cbn. apply wp_bind, wp_assign_fit. apply IH. by apply HP. Qed.

Lemma wp_read_output_stream m p s0 w : invoked s0 m p w ->
  wp (read_output cfg m p (Some (publish_stream m))) (fun _ => finished s0 m) (some_clean s0 m) w.
Proof.
  intros (ts & Hc & Hp & Ht). unfold read_output.
  assert (HE : forall e w', read_kept s0 m ts w w' -> some_clean s0 m e w') by (intros e w' [? _]; by exists ts).
  apply wp_bind. eapply wp_mono; [apply (wp_stage _ _ _ (read_kept s0 m ts w))| |by apply HE]; [done| |].
  { apply wp_bind, wp_gets, wp_lift; done. }
  intros d w1 Hw1. apply wp_bind, wp_assign_fit, wp_bind.
  eapply wp_mono; [apply (wp_stage _ _ _ (read_kept s0 m ts w))| |by apply HE]; [done| |].
  { apply wp_bind. cbn. apply wp_bind, wp_lift; [|done]. intros v _. by apply wp_lift. }
  intros v w2 Hw2. apply wp_bind, wp_assign_fit, wp_bind, wp_assign_fit, wp_bind.
  eapply wp_mono; [apply (wp_steps _ (fun w' => read_kept s0 m ts w w' /\ lo_parsed (lw_local w') = Some v))| |done]; [done|done|].
  intros [] w3 [[(Hst & Hok & Herr & Hts) [Hn Hraw]] Hpar]. rewrite Hp. cbn [has_publisher]. rewrite andb_true_r.
  destruct (streams m) eqn:Es.
  - apply wp_bind, wp_gets, wp_bind, wp_gets. cbn [emit]. apply wp_publish_stream.
    destruct Ht as [Ht1 Ht2]. pose proof Es as [-> _]%andb_true_iff. cbv zeta. split; [intros heard|].
    + apply (FinishedOk _ _ _ ts v); rewrite ?Es; cbn; [by rewrite Hst, Hn, Ht1, app_assoc|done|done|done|congruence].
    + intros e _. exists ts. repeat split; try done. congruence.
  - apply wp_ret, (FinishedOk _ _ _ ts v); rewrite ?Es; cbn; [by rewrite Hst, app_nil_r|done|done|done|done].
Qed.

Lemma provider_failure_codes e b :
  provider_failure_code e b ∈ lit "provider_overloaded" :: APPLICATION_STATUSES /\ provider_failure_code e b <> lit "success".
Proof. unfold provider_failure_code. repeat case_match; (split; [apply (bool_decide_unpack _); by vm_compute|done]). Qed.

Lemma output_codes b st : output_code b st ∈ lit "provider_overloaded" :: APPLICATION_STATUSES /\ output_code b st <> lit "success".
Proof. unfold output_code. repeat case_match; (split; [apply (bool_decide_unpack _); by vm_compute|done]). Qed.

Lemma wp_model_failed m s0 e w : some_clean s0 m e w ->
  wp (model_failed cfg (Some (publish_stream m)) e) (fun _ => finished s0 m) (escaped s0 m) w.
Proof.
  intros Hc. unfold model_failed. destruct (is_class _ e).
  - apply wp_record_failure_stream; [done|apply (bool_decide_unpack _); by vm_compute|done].
  - apply wp_bind, wp_gets. by apply wp_record_failure_stream; [|apply provider_failure_codes..].
Qed.

Lemma wp_output_failed m p s0 e w : some_clean s0 m e w ->
  wp (output_failed cfg p (Some (publish_stream m)) e) (fun _ => finished s0 m) (escaped s0 m) w.
Proof.
  intros [ts Hc]. unfold output_failed. apply wp_bind, wp_gets, wp_bind, wp_assign_fit.
  apply wp_record_failure_stream; [|apply output_codes..]. exists ts. unfold clean in *. cbn. by destruct (_ && _).
Qed.

Lemma some_clean_escaped s0 m e w : some_clean s0 m e w -> is_exception e = false -> escaped s0 m e w.
Proof. intros (ts & Hs & _ & _ & Hts) He. split; [by exists ts|by left]. Qed.

(** The two blocks of [execute]. *)
Lemma wp_blocks m w :
  wp (try_else (run_model cfg m (Some (publish_stream m))) (model_failed cfg (Some (publish_stream m)))
        (fun p => try_else (read_output cfg m p (Some (publish_stream m))) (output_failed cfg p (Some (publish_stream m))) ret))
    (fun _ => finished (lw_stream w) m) (escaped (lw_stream w) m) (w {{ lw_local := initial_locals cfg m }}).
Proof.
  unfold try_else. apply wp_bind, wp_attempt. eapply wp_mono; [apply (wp_run_model_stream m (lw_stream w))|intros p w1 Hw1|intros e w1 Hw1].
  - split; [by rewrite app_nil_r|done].
  - done.
  - apply wp_bind, wp_attempt. eapply wp_mono; [by apply wp_read_output_stream|intros [] w2 Hw2; exact Hw2|intros e w2 Hw2].
    destruct (is_exception e) eqn:Ee; [by apply wp_output_failed|by eapply wp_raise, some_clean_escaped].
  - destruct (is_exception e) eqn:Ee; [by apply wp_model_failed|by eapply wp_raise, some_clean_escaped].
Qed.

Definition answered (s0 : list stream_event) (m : request_message) (r : reply) (w : lworld) : Prop :=
  finished s0 m w /\ build_response cfg m (lw_local w) = Ok (rp_payload r) /\ r = build_reply_message m (rp_payload r).

Lemma wp_handle m w :
  wp (handle cfg m) (answered (lw_stream w) m)
    (fun e w' => escaped (lw_stream w) m e w' \/ finished (lw_stream w) m w' /\ build_response cfg m (lw_local w') = Raise e) w.
Proof.
  unfold handle, execute. apply wp_bind, wp_bind, wp_assign_fit, wp_bind.
  eapply wp_mono; [apply wp_blocks| |by left]. intros [] w1 Hw1. apply wp_bind, wp_gets. cbv beta.
  apply wp_lift; [intros r Hr; by apply wp_ret|by right].
Qed.

Lemma build_response_ok m l r : build_response cfg m l = Ok r ->
  rs_success r = lo_success l /\ rs_status r = application_status l /\ rs_errors r = lo_errors l /\ rs_parsed r = lo_parsed l
  /\ rs_raw_output r = sanitize_debug_text (lo_raw_output l) (debug_max_field_length cfg).
Proof. unfold build_response. case_bool_decide; [|done]. by intros [= <-]. Qed.

(** *** What reaches the stream *)

(** Between two states: the events built, of which those delivered are a part in order, and
    all of them when every publication delivers. *)
Definition heard_of (w w' : lworld) : Prop :=
  exists built heard, lw_stream w' = lw_stream w ++ built /\ lw_heard w' = lw_heard w ++ heard /\
    heard `sublist_of` built /\ ((forall n, publish_result n = Ok Delivered) -> heard = built).

#[local] Instance heard_of_preorder : PreOrder heard_of.
Proof.
  split.
  - intros w. exists [], []. by rewrite !app_nil_r.
  - intros w1 w2 w3 (b1 & h1 & S1 & H1' & L1 & E1) (b2 & h2 & S2 & H2' & L2 & E2).
    exists (b1 ++ b2), (h1 ++ h2). rewrite S2, H2', S1, H1', !app_assoc. split_and!; [done..|by apply sublist_app|].
    intros Hd. by rewrite E1, E2.
Qed.

Lemma heard_same w w' : lw_stream w' = lw_stream w -> lw_heard w' = lw_heard w -> heard_of w w'.
Proof. intros E1 E2. exists [], []. by rewrite E1, E2, !app_nil_r. Qed.

Lemma heard_tick : within heard_of tick.
Proof. intros w. by apply heard_same. Qed.
Lemma heard_assign f : within heard_of (assign f).
Proof. intros w. by apply heard_same. Qed.
Lemma heard_step t : within heard_of (step t).
Proof. apply heard_assign. Qed.
Lemma heard_local {A} (f : locals -> A) : within heard_of (local f).
Proof. intros w. by apply heard_same. Qed.
Lemma heard_send p : within heard_of (send p).
Proof. intros w. by apply heard_same. Qed.
Lemma heard_budget model reserved output : within heard_of (input_budget cfg model reserved output).
Proof.
  intros w. unfold input_budget, bind, tick. cbn. destruct (input_budget_chars _ _ _ _ _ _) as [r c].
  by apply heard_same.
Qed.

Lemma heard_publish m ev : within heard_of (publish_stream m ev).
Proof.
  unfold publish_stream. destruct (rm_stream_to m) as [[|]|]; try (apply within_ret; apply _).
  intros w. unfold publish, bind, tick, modify, raise. cbn.
  destruct (publish_result (lw_tick w)) as [[]|e] eqn:Ep; cbn; [| | |by apply heard_same];
    [exists [ev], [ev]|exists [ev], []|exists [ev], []]; cbn; rewrite ?app_nil_r; split_and!; try done;
    try apply sublist_nil_l; intros Hd; by rewrite Hd in Ep.
Qed.

#[local] Hint Resolve heard_tick heard_assign heard_step heard_local heard_send heard_budget heard_publish : effects.

Lemma heard_stage {A} stage message (c : leff A) : within heard_of c -> within heard_of (at_stage stage message c).
Proof.
  intros Hc. unfold at_stage. apply within_catch; [apply _|done|]. intros e k.
  destruct (is_exception e); [|done]. intros [= <-]. within_walk.
Qed.

Lemma heard_read_stream m lines : forall s,
  within heard_of (read_stream (on_token (Some (publish_stream m))) s lines).
Proof.
  induction lines as [|line lines IH]; intros s; cbn [read_stream]; [within_walk|].
  destruct (read_line line) as [| |c|]; [apply IH|within_walk| |within_walk].
  destruct (chunk_token c); [|apply IH]. apply within_bind; [apply _| |intros _; apply IH].
  unfold on_token, emit. within_walk.
Qed.

#[local] Hint Resolve heard_read_stream : effects.

Lemma heard_generate m i : within heard_of (generate cfg (on_token (Some (publish_stream m))) i).
Proof.
  unfold generate, stream_generate, generate_once. within_walk.
Qed.
#[local] Hint Resolve heard_generate heard_stage : effects.

Lemma heard_run_model m : within heard_of (run_model cfg m (Some (publish_stream m))).
Proof. unfold run_model, render. within_walk. Qed.

Lemma heard_read_output m p : within heard_of (read_output cfg m p (Some (publish_stream m))).
Proof.
  unfold read_output, emit. apply within_bind; [apply _|apply heard_stage; within_walk|intros d].
  apply within_bind; [apply _|apply heard_assign|intros _].
  apply within_bind; [apply _|apply heard_stage; within_walk|intros v]. within_walk.
Qed.

Lemma heard_failure m code note e : within heard_of (record_failure cfg (Some (publish_stream m)) code note e).
Proof. unfold record_failure, publish_stream_error, emit. within_walk. Qed.

#[local] Hint Resolve heard_run_model heard_read_output heard_failure : effects.

Lemma heard_handle m : within heard_of (handle cfg m).
Proof.
  unfold handle, execute, try_else, model_failed, output_failed. within_walk.
Qed.

(** How the stream ends, and the reply it goes with. *)
Definition stream_end (m : request_message) (ts : list text) (tail : list stream_event) (o : outcome py_exn reply) : Prop :=
  match o with
  | Ok r =>
      exists finish msg,
        tail = (if rp_success r then (if streams m then [LlmDone finish (length ts)] else [])
                else if has_stream m then [LlmError (rs_status (rp_payload r)) msg] else []) /\
        (if rp_success r && streams m
         then rs_raw_output (rp_payload r) = sanitize_debug_text (concat ts) (debug_max_field_length cfg) else True)
  | Raise _ => tail = [] \/ exists code msg, tail = [LlmError code msg]
  end.

(** C16: what a request puts on its stream, whatever the model, the parser and the publisher do.
    Handling a message builds tokens numbered from zero in the order they arrived, none for a
    request that is not streamed, and after them at most one event.  A successful reply to a
    streamed request follows exactly one done event with the number of tokens, and reports as
    its output the tokens concatenated, as [sanitize_debug_text] shows them (secrets redacted,
    cut to the length for debugging); a failed reply to a request with a stream follows exactly
    one error event with the status of the reply (without a stream, none); when no reply is
    built there is no done event.  A listener hears these events in this order, less those the
    transport lost or that found no running loop, which the service does not notice; all of
    them if every publication delivers. *)
Theorem stream_protocol m w :
  let '(o, w') := handle cfg m w in
  exists ts tail heard, lw_stream w' = lw_stream w ++ token_events ts ++ tail /\
    (lw_heard w' = lw_heard w ++ heard /\ heard `sublist_of` (token_events ts ++ tail) /\
     ((forall n, publish_result n = Ok Delivered) -> heard = token_events ts ++ tail)) /\
    (streams m = false -> ts = []) /\
    stream_end m ts tail o.
Proof.
  pose proof (heard_handle m w) as (built & heard & Hbuilt & Hheard).
  enough (Hs : let '(o, w') := handle cfg m w in exists ts tail,
    lw_stream w' = lw_stream w ++ token_events ts ++ tail /\ (streams m = false -> ts = []) /\
    stream_end m ts tail o).
  { destruct (handle cfg m w) as [o w']. destruct Hs as (ts & tail & Hs & Hts & Ho). exists ts, tail, heard.
    cbn [snd] in Hbuilt, Hheard. rewrite Hbuilt in Hs. apply (inj (app _)) in Hs as ->.
    split; [done|]. split; [done|]. split; [done|exact Ho]. }
  clear built heard Hbuilt Hheard. unfold stream_end. pose proof (wp_handle m w) as Hw. unfold wp in Hw. destruct (handle cfg m w) as [[r|e] w'].
  - destruct Hw as (Hf & Hr & Er). apply build_response_ok in Hr as (Hok & Hst & _ & _ & Hraw).
    assert (Hs : rp_success r = rs_success (rp_payload r)) by (by rewrite Er at 1). rewrite Hs, Hok.
    destruct Hf as [ts v Hstream -> _ _ Hts|ts code note msg Hstream E1 E2 _ _ Hts]; [|rewrite E1].
    + eexists ts, _. split; [exact Hstream|]. split; [by destruct (streams m)|]. eexists _, []. split; [reflexivity|].
      cbn. destruct (streams m); [|done]. by rewrite Hraw, Hts.
    + eexists ts, _. split; [exact Hstream|]. split; [done|]. eexists [], msg. split; [|done].
      rewrite Hst. unfold application_status. by rewrite E1, E2.
  - destruct Hw as [[(ts & Hts & Hn) _]|[Hf Hr]].
    + exists ts, []. rewrite app_nil_r. eauto.
    + destruct Hf as [ts v Hstream E1 _ _ _|ts code note msg Hstream _ _ _ _ Hts].
      * unfold build_response, application_status in Hr. by rewrite E1 in Hr.
      * eexists ts, _. split; [exact Hstream|]. split; [done|]. destruct (has_stream m); eauto.
Qed.

(** C17: how a message is answered.  A reply carries the correlation id of the message; it
    succeeds with a validated output, the status success and no error, or it fails with
    exactly one error, whose code is the status and which is the error of the envelope.  No
    reply is built only if something that is not an exception passed through, the publisher
    raised, or the provider was overloaded, a status the response model does not know. *)
Theorem execution_answers m w :
  let '(o, w') := handle cfg m w in
  match o with
  | Ok r =>
      rp_correlation_id r = rm_correlation_id m /\
      (if rp_success r
       then rs_status (rp_payload r) = lit "success" /\ rs_errors (rp_payload r) = [] /\ rp_error r = None /\
            exists v, rs_parsed (rp_payload r) = Some v
       else exists code note, rs_errors (rp_payload r) = [(code, note)] /\ rp_error r = Some (code, note) /\
            rs_status (rp_payload r) = code /\ code <> lit "success")
  | Raise e =>
      is_exception e = false \/ (exists n, publish_result n = Raise e) \/
      (is_class "ValidationError" e = true /\ exists note, lo_errors (lw_local w') = [(lit "provider_overloaded", note)])
  end.
Proof.
  pose proof (wp_handle m w) as Hw. unfold wp in Hw. destruct (handle cfg m w) as [[r|e] w'].
  - destruct Hw as (Hf & Hr & Er). apply build_response_ok in Hr as (Hok & Hst & Herr & Hpar & _).
    unfold application_status in Hst.
    rewrite Er. cbn [build_reply_message rp_correlation_id rp_success rp_payload rp_error]. split; [done|]. rewrite Hok.
    destruct Hf as [ts v _ E1 E2 E3 _|ts code note msg _ E1 E2 _ Hne _]; rewrite E1, E2, ?E3 in *; [by eauto|].
    exists code, note. by rewrite Herr.
  - destruct Hw as [[_ [He|[n Hn]]]|[Hf Hr]]; [by left|by right; left; exists n|]. right; right.
    unfold build_response, application_status in Hr.
    destruct Hf as [ts v _ E1 _ _ _|ts code note msg _ E1 E2 Hin _ _]; rewrite E1 in Hr; [done|].
    rewrite E2 in Hr. case_bool_decide as Hd; [done|]. injection Hr as <-. split; [done|].
    apply elem_of_cons in Hin as [->|Hin]; [|done]. by exists note.
Qed.
End Stream.
