(* ===== verification/RetrievalMetrics.v ===== *)
(** * Retrieval metrics

    [src/backend/rag/app/services/retrieval_metrics.py]: recall, precision, reciprocal rank,
    hit rate and nDCG of a ranked list of ids against a set of relevant ones.  Quotients are
    exact.  The logarithm is the class [Discount]: the weight of a rank, positive and strictly
    decreasing. *)

From Stdlib Require Import QArith Lqa.
From stdpp Require Import base list gmap sets.
From S2P Require Import Prelude PyValue.

Local Open Scope list_scope.
Local Open Scope Z_scope.

(** [1.0 / log2(rank + 1)]. *)
Class Discount := gain : nat -> Q.
Class DiscountLaws `{Discount} := {
  gain_pos : forall r, (0 < gain r)%Q;
  gain_less : forall r, (gain (S r) < gain r)%Q
}.

Section Metrics.
Context `{Discount}.

Fixpoint dedupe_from (seen : list text) (retrieved : list text) : list text :=
  match retrieved with
  | [] => []
  | x :: l => if bool_decide (x ∈ seen) then dedupe_from seen l else x :: dedupe_from (x :: seen) l
  end.
Definition dedupe (retrieved : list text) : list text := dedupe_from [] retrieved.

Definition top_k (retrieved : list text) (k : Z) : list text :=
  if k <=? 0 then [] else take (Z.to_nat k) (dedupe retrieved).

Definition ratio (a b : nat) : Q := inject_Z (Z.of_nat a) / inject_Z (Z.of_nat b).

Definition hits (top : list text) (relevant : gset text) : nat := size (list_to_set top ∩ relevant).

Definition recall_at_k (retrieved : list text) (relevant : gset text) (k : Z) : Q :=
  if bool_decide (relevant = ∅) then 0 else ratio (hits (top_k retrieved k) relevant) (size relevant).

Definition precision_at_k (retrieved : list text) (relevant : gset text) (k : Z) : Q :=
  if bool_decide (relevant = ∅) then 0
  else match top_k retrieved k with
       | [] => 0
       | top => ratio (hits top relevant) (length top)
       end.

Fixpoint first_hit (rank : nat) (ids : list text) (relevant : gset text) : option nat :=
  match ids with
  | [] => None
  | x :: l => if bool_decide (x ∈ relevant) then Some rank else first_hit (S rank) l relevant
  end.

Definition reciprocal_rank (retrieved : list text) (relevant : gset text) : Q :=
  if bool_decide (relevant = ∅) then 0
  else match first_hit 1 (dedupe retrieved) relevant with Some rank => ratio 1 rank | None => 0 end.

Fixpoint dcg (rank : nat) (top : list text) (relevant : gset text) : Q :=
  match top with
  | [] => 0
  | x :: l => (if bool_decide (x ∈ relevant) then gain rank else 0) + dcg (S rank) l relevant
  end.
Fixpoint idcg (rank count : nat) : Q :=
  match count with O => 0 | S n => gain rank + idcg (S rank) n end.

Definition ideal_count (relevant : gset text) (k : Z) : nat := Nat.min (size relevant) (Z.to_nat k).

Definition ndcg_at_k (retrieved : list text) (relevant : gset text) (k : Z) : Q :=
  if bool_decide (relevant = ∅) then 0
  else match top_k retrieved k with
       | [] => 0
       | top =>
           let ideal := idcg 1 (ideal_count relevant k) in
           if Qeq_bool ideal 0 then 0 else dcg 1 top relevant / ideal
       end.

Definition hit_rate_at_k (retrieved : list text) (relevant : gset text) (k : Z) : Q :=
  if bool_decide (relevant = ∅) then 0
  else if bool_decide (list_to_set (top_k retrieved k) ∩ relevant = ∅) then 0 else 1.
End Metrics.

(** ** Ranked lists without repetition *)

Lemma dedupe_from_spec seen l :
  NoDup (dedupe_from seen l) /\ forall x, x ∈ dedupe_from seen l <-> x ∈ l /\ x ∉ seen.
Proof.
  revert seen. induction l as [|y l IH]; intros seen; cbn; [split; [constructor|set_solver]|].
  case_bool_decide as Hy; destruct (IH (if bool_decide (y ∈ seen) then seen else y :: seen)) as [Hn Hin].
  - destruct (IH seen) as [Hn' Hin']. split; [done|]. intros x. rewrite Hin'. set_solver.
  - destruct (IH (y :: seen)) as [Hn' Hin']. split; [|intros x; rewrite elem_of_cons, Hin'].
    + constructor; [rewrite Hin'; set_solver|done].
    + destruct (decide (x = y)); set_solver.
Qed.

Lemma dedupe_nodup l : NoDup (dedupe l).
Proof. apply dedupe_from_spec. Qed.
Lemma elem_of_dedupe x l : x ∈ dedupe l <-> x ∈ l.
Proof. unfold dedupe. rewrite (proj2 (dedupe_from_spec [] l)). set_solver. Qed.

Lemma top_k_nodup l k : NoDup (top_k l k).
Proof. unfold top_k. destruct (k <=? 0); [constructor|]. eapply sublist_NoDup; [apply dedupe_nodup|apply sublist_take]. Qed.

Lemma top_k_mono l k k' : k <= k' -> top_k l k `prefix_of` top_k l k'.
Proof.
  intros Hk. unfold top_k. destruct (Z.leb_spec k 0); [apply prefix_nil|]. destruct (Z.leb_spec k' 0); [lia|].
  exists (take (Z.to_nat k' - Z.to_nat k) (drop (Z.to_nat k) (dedupe l))).
  rewrite take_take_drop. f_equal. lia.
Qed.

Lemma hits_filter top relevant : NoDup top -> hits top relevant = length (filter (.∈ relevant) top).
Proof.
  intros Hn. unfold hits. rewrite <- (size_list_to_set (C := gset text)) by by apply NoDup_filter.
  f_equal. apply set_eq. intros x. rewrite elem_of_intersection, !elem_of_list_to_set, list_elem_of_filter. tauto.
Qed.

Lemma hits_le top relevant : (hits top relevant <= size relevant)%nat.
Proof. apply subseteq_size, intersection_subseteq_r. Qed.
Lemma hits_le_length top relevant : NoDup top -> (hits top relevant <= length top)%nat.
Proof. intros Hn. rewrite hits_filter by done. apply length_filter. Qed.

Lemma hits_mono top top' relevant : top ⊆ top' -> (hits top relevant <= hits top' relevant)%nat.
Proof. intros Ht. apply subseteq_size. intros x. rewrite !elem_of_intersection, !elem_of_list_to_set. naive_solver. Qed.

Lemma ratio_zero a : (ratio a 0 == 0)%Q.
Proof. unfold ratio, Qdiv. change (/ inject_Z (Z.of_nat 0))%Q with 0%Q. apply Qmult_0_r. Qed.

Lemma ratio_bounds a b : (a <= b)%nat -> (0 <= ratio a b <= 1)%Q.
Proof.
  intros Hab. destruct b as [|b]; [rewrite ratio_zero; lra|]. unfold ratio.
  assert (Hb : (0 < inject_Z (Z.of_nat (S b)))%Q) by (unfold Qlt; cbn; lia).
  split.
  - apply Qle_shift_div_l; [done|]. rewrite Qmult_0_l. unfold Qle; cbn; lia.
  - apply Qle_shift_div_r; [done|]. rewrite Qmult_1_l. rewrite <- Zle_Qle. lia.
Qed.

Lemma ratio_mono a a' b : (a <= a')%nat -> (ratio a b <= ratio a' b)%Q.
Proof.
  intros Ha. destruct b as [|b]; [rewrite !ratio_zero; lra|]. unfold ratio.
  apply Qmult_le_compat_r; [rewrite <- Zle_Qle; lia|]. apply Qinv_le_0_compat. unfold Qle; cbn; lia.
Qed.

(** ** Gains *)

Section Gains.
Context `{DiscountLaws}.

Lemma gain_anti r r' : (r <= r')%nat -> (gain r' <= gain r)%Q.
Proof. induction 1 as [|r' _ IH]; [lra|]. pose proof (gain_less r'). lra. Qed.

Lemma idcg_nonneg r n : (0 <= idcg r n)%Q.
Proof. revert r. induction n as [|n IH]; intros r; cbn; [lra|]. pose proof (gain_pos r). specialize (IH (S r)). lra. Qed.

Lemma idcg_pos r n : n <> O -> (0 < idcg r n)%Q.
Proof. destruct n as [|n]; [done|]. intros _. cbn. pose proof (gain_pos r). pose proof (idcg_nonneg (S r) n). lra. Qed.

Lemma idcg_later r n : (idcg (S r) n <= idcg r n)%Q /\ (n <> O -> (idcg (S r) n < idcg r n)%Q).
Proof.
  revert r. induction n as [|n IH]; intros r; cbn; [split; [lra|done]|].
  pose proof (gain_less r). destruct (IH (S r)) as [Hle _]. split; [lra|intros _; lra].
Qed.

Lemma idcg_mono r n n' : (n <= n')%nat -> (idcg r n <= idcg r n')%Q.
Proof.
  revert r n'. induction n as [|n IH]; intros r n' Hn; [apply idcg_nonneg|]. destruct n' as [|n']; [lia|].
  cbn. specialize (IH (S r) n'). assert ((idcg (S r) n <= idcg (S r) n')%Q) by (apply IH; lia). lra.
Qed.

Lemma dcg_nonneg r top relevant : (0 <= dcg r top relevant)%Q.
Proof.
  revert r. induction top as [|x top IH]; intros r; cbn; [lra|]. specialize (IH (S r)). pose proof (gain_pos r).
  case_bool_decide; lra.
Qed.

Definition count_hits (top : list text) (relevant : gset text) : nat := length (filter (.∈ relevant) top).

(** No arrangement of at most [n] hits gains more than [n] hits at the top. *)
Lemma dcg_ideal r n top relevant : (count_hits top relevant <= n)%nat ->
  (dcg r top relevant <= idcg r n)%Q /\
  ((dcg r top relevant == idcg r n)%Q -> (n <= length top)%nat /\ Forall (.∈ relevant) (take n top)).
Proof.
  unfold count_hits. revert r n. induction top as [|x top IH]; intros r n Hn.
  - cbn. split; [apply idcg_nonneg|]. intros He. destruct n as [|n]; [done|].
    pose proof (idcg_pos r (S n)) as Hp. rewrite <- He in Hp. exfalso. assert (0 < 0)%Q by by apply Hp. lra.
  - cbn [dcg]. rewrite filter_cons in Hn. case_bool_decide as Hx.
    + rewrite decide_True in Hn by done. cbn in Hn. destruct n as [|n]; [lia|]. cbn [idcg].
      destruct (IH (S r) n) as [Hle Heq]; [lia|]. split; [lra|]. intros He.
      destruct Heq as [Hl Hf]; [lra|]. cbn. split; [lia|]. by constructor.
    + rewrite decide_False in Hn by done. destruct (IH (S r) n) as [Hle Heq]; [done|].
      destruct (idcg_later r n) as [Hlat Hlt]. split; [lra|]. intros He.
      destruct n as [|n]; [split; [lia|constructor]|]. assert (idcg (S r) (S n) < idcg r (S n))%Q by by apply Hlt. lra.
Qed.

(** Hits at the top gain everything, and nothing else is found below. *)
Lemma dcg_full r n top relevant : (count_hits top relevant <= n)%nat -> (n <= length top)%nat ->
  Forall (.∈ relevant) (take n top) -> (dcg r top relevant == idcg r n)%Q.
Proof.
  unfold count_hits. revert r n. induction top as [|x top IH]; intros r n Hn Hl Hf.
  - destruct n; [done|cbn in Hl; lia].
  - cbn [dcg]. rewrite filter_cons in Hn. destruct n as [|n].
    + case_decide; [cbn in Hn; lia|]. rewrite bool_decide_eq_false_2 by done. cbn [idcg].
      rewrite (IH (S r) 0%nat); [cbn; lra|done|lia|constructor].
    + cbn in Hf. apply Forall_cons in Hf as [Hx Hf]. rewrite decide_True in Hn by done. cbn in Hn.
      rewrite bool_decide_eq_true_2 by done. cbn [idcg]. cbn in Hl.
      rewrite (IH (S r) n); [lra|lia|lia|done].
Qed.
End Gains.

Section Laws.
Context `{DiscountLaws}.

Lemma top_k_length l k : (length (top_k l k) <= Z.to_nat k)%nat.
Proof. unfold top_k. destruct (Z.leb_spec k 0); cbn; [lia|]. rewrite length_take. lia. Qed.

Lemma count_hits_ideal l relevant k : (count_hits (top_k l k) relevant <= ideal_count relevant k)%nat.
Proof.
  unfold count_hits, ideal_count. rewrite <- hits_filter by apply top_k_nodup.
  pose proof (hits_le (top_k l k) relevant). pose proof (hits_le_length (top_k l k) relevant (top_k_nodup l k)).
  pose proof (top_k_length l k). lia.
Qed.

Lemma ideal_nonzero relevant k : relevant <> ∅ -> 0 < k -> ideal_count relevant k <> O.
Proof. intros Hr Hk. assert (size relevant <> O) by by apply size_non_empty_iff; set_solver. unfold ideal_count. lia. Qed.

Lemma hits_zero top relevant : hits top relevant = O <-> list_to_set top ∩ relevant = ∅.
Proof. unfold hits. by rewrite size_empty_iff, <- leibniz_equiv_iff. Qed.

Lemma first_hit_rank r ids relevant n : first_hit r ids relevant = Some n -> (r <= n)%nat.
Proof.
  revert r. induction ids as [|x ids IH]; intros r; cbn; [done|]. case_bool_decide; [intros [= ->]; lia|].
  intros Hn%IH. lia.
Qed.

(** every metric of a ranking is between 0 and 1, recall never falls when the window grows,
    and a query counts as a hit exactly when its recall is not zero. *)
Theorem metrics_bounded ids relevant k k' : k <= k' ->
  (0 <= recall_at_k ids relevant k <= 1)%Q /\ (0 <= precision_at_k ids relevant k <= 1)%Q /\
  (0 <= reciprocal_rank ids relevant <= 1)%Q /\ (0 <= ndcg_at_k ids relevant k <= 1)%Q /\
  (recall_at_k ids relevant k <= recall_at_k ids relevant k')%Q /\
  (hit_rate_at_k ids relevant k = 1%Q <-> (0 < recall_at_k ids relevant k)%Q).
Proof.
  intros Hk. unfold recall_at_k, precision_at_k, reciprocal_rank, ndcg_at_k, hit_rate_at_k.
  case_bool_decide as Hr; [repeat split; try lra; done|].
  repeat split; try apply ratio_bounds, hits_le.
  - destruct (top_k ids k) as [|x top] eqn:E; [lra|]. rewrite <- E. apply ratio_bounds, hits_le_length, top_k_nodup.
  - destruct (top_k ids k) as [|x top] eqn:E; [lra|]. rewrite <- E. apply ratio_bounds, hits_le_length, top_k_nodup.
  - destruct (first_hit _ _ _) as [n|] eqn:E; [|lra]. apply ratio_bounds. apply first_hit_rank in E. lia.
  - destruct (first_hit _ _ _) as [n|] eqn:E; [|lra]. apply ratio_bounds. apply first_hit_rank in E. lia.
  - destruct (top_k ids k) as [|x top] eqn:E; [lra|]. rewrite <- E. case_match eqn:Hz; [lra|]. apply Qeq_bool_neq in Hz.
    apply Qle_shift_div_l; [pose proof (idcg_nonneg 1 (ideal_count relevant k)); lra|]. rewrite Qmult_0_l. apply dcg_nonneg.
  - destruct (top_k ids k) as [|x top] eqn:E; [lra|]. rewrite <- E. case_match eqn:Hz; [lra|]. apply Qeq_bool_neq in Hz.
    apply Qle_shift_div_r; [pose proof (idcg_nonneg 1 (ideal_count relevant k)); lra|]. rewrite Qmult_1_l.
    apply dcg_ideal, count_hits_ideal.
  - apply ratio_mono, hits_mono. destruct (top_k_mono ids k k' Hk) as [l ->]. intros x. rewrite elem_of_app. tauto.
  - case_bool_decide as He; [done|]. intros _. rewrite <- hits_zero in He.
    unfold ratio. apply Qlt_shift_div_l; [|rewrite Qmult_0_l; unfold Qlt; cbn; lia].
    assert (size relevant <> O) by by apply size_non_empty_iff; set_solver. unfold Qlt; cbn; lia.
  - intros Hlt. case_bool_decide as He; [|done]. apply hits_zero in He. rewrite He in Hlt.
    unfold ratio, Qdiv in Hlt. change (inject_Z (Z.of_nat 0)) with 0%Q in Hlt. rewrite Qmult_0_l in Hlt. lra.
Qed.

(** nDCG says what its documentation promises: it is 1 exactly when every relevant chunk
    within reach of the window sits at the top of the ranking, which then is at least that
    long. *)
Theorem ndcg_perfect ids relevant k : relevant <> ∅ -> 0 < k ->
  (ndcg_at_k ids relevant k == 1)%Q <->
  (ideal_count relevant k <= length (dedupe ids))%nat /\
  Forall (.∈ relevant) (take (ideal_count relevant k) (dedupe ids)).
Proof.
  intros Hr Hk. pose proof (ideal_nonzero relevant k Hr Hk) as Hi. pose proof (idcg_pos 1 _ Hi) as Hp.
  unfold ndcg_at_k. rewrite bool_decide_eq_false_2 by done.
  assert (Htop : top_k ids k = take (Z.to_nat k) (dedupe ids)) by (unfold top_k; by destruct (Z.leb_spec k 0); [lia|]).
  assert (Hpre : take (ideal_count relevant k) (top_k ids k) = take (ideal_count relevant k) (dedupe ids)).
  { rewrite Htop, take_take. f_equal. unfold ideal_count. lia. }
  assert (Hlen : (ideal_count relevant k <= length (top_k ids k))%nat <-> (ideal_count relevant k <= length (dedupe ids))%nat).
  { rewrite Htop, length_take. unfold ideal_count. lia. }
  rewrite <- Hpre, <- Hlen. pose proof (count_hits_ideal ids relevant k) as Hc.
  destruct (top_k ids k) as [|x top] eqn:E.
  { split; [intros He; lra|]. cbn. intros [Hl _]. lia. }
  rewrite <- E in *. destruct (Qeq_bool _ 0) eqn:Hz; [apply Qeq_bool_eq in Hz; lra|].
  assert (Hd : (dcg 1 (top_k ids k) relevant / idcg 1 (ideal_count relevant k) == 1)%Q <->
               (dcg 1 (top_k ids k) relevant == idcg 1 (ideal_count relevant k))%Q).
  { split; intros He.
    - rewrite <- (Qmult_1_l (idcg 1 _)), <- He. field. lra.
    - rewrite He. field. lra. }
  rewrite Hd. split; [by apply dcg_ideal|]. intros [Hl Hf]. by apply dcg_full.
Qed.
End Laws.

Section Witness.
(** [1 / rank], which is positive and decreasing too. *)
Definition reciprocal_gain : Discount := fun r => 1 # Pos.of_succ_nat r.
#[local] Existing Instance reciprocal_gain.
#[local] Instance reciprocal_laws : DiscountLaws.
Proof.
  split; intros r; unfold gain, reciprocal_gain, Qlt; cbn [Qnum Qden]; [lia|].
  rewrite !Z.mul_1_l, !SuccNat2Pos.inj_succ || lia. lia.
Qed.

Definition ranked_ids : list text := [[1]; [2]; [1]; [3]; [4]].
Definition half_found : gset text := {[ [3]; [9] ]}.
Definition all_on_top : gset text := {[ [1]; [2] ]}.

Lemma metrics_bounded_witness :
  2 <= 10 /\ (recall_at_k ranked_ids half_found 2 <= recall_at_k ranked_ids half_found 10)%Q /\
  (recall_at_k ranked_ids half_found 10 == 1 # 2)%Q /\ (precision_at_k ranked_ids half_found 10 == 1 # 4)%Q.
Proof.
  split; [lia|]. split; [apply (metrics_bounded ranked_ids half_found 2 10); lia|]. split; vm_compute; reflexivity.
Defined.

Lemma ndcg_perfect_witness : (ndcg_at_k ranked_ids all_on_top 10 == 1)%Q.
Proof.
  apply (ndcg_perfect ranked_ids all_on_top 10); [by apply (bool_decide_unpack _); vm_compute|lia|].
  split; [apply Nat.leb_le; by vm_compute|]. by apply (bool_decide_unpack _); vm_compute.
Defined.
End Witness.
