(* ===== verification/GoldenSet.v ===== *)
(** * Golden sets

    [src/backend/rag/app/services/golden_set_parser.py] and the canonical form and fingerprint
    of [eval_store.py]: reading an uploaded dataset, normalising and validating its items,
    applying the resolutions of file names and expected facts, and the content a run's scores
    depend on.  The JSON reader and printer and the digest are the classes [JsonText] and
    [Fingerprint]; the position a syntax error reports is the library's and left out. *)

From Stdlib Require Import QArith.
From stdpp Require countable.
From stdpp Require Import base strings list sets sorting.
From S2P Require Import Prelude PyValue Base64 Interleaving MemoryNormalize TextWindow LlmPrompts RetrievalMetrics.

Local Open Scope string_scope.
Local Open Scope list_scope.
Local Open Scope Z_scope.

(** One canonical item.  A stored benchmark snapshot keeps only what scores. *)
Record golden_item := mkItem {
  gi_item_id : text; gi_query : text; gi_chunk_ids : list text; gi_file_ids : list text; gi_file_names : list text;
  gi_answer : option text; gi_claims : list text; gi_unresolved_facts : list text; gi_difficulty : option text;
  gi_answerable : option bool; gi_tags : list text; gi_notes : option text
}.
#[export] Instance eta_golden_item : Eta golden_item := fun x =>
  mkItem (gi_item_id x) (gi_query x) (gi_chunk_ids x) (gi_file_ids x) (gi_file_names x) (gi_answer x) (gi_claims x)
    (gi_unresolved_facts x) (gi_difficulty x) (gi_answerable x) (gi_tags x) (gi_notes x).
#[export] Instance golden_item_eq_dec : EqDecision golden_item.
Proof. solve_decision. Defined.

Definition GoldenSetError (m : text) : py_exn := PyError (lit "GoldenSetValidationError") m.
Definition item_error {A} (index : nat) (m : text) : outcome py_exn A :=
  Raise (GoldenSetError (lit "Item " ++ show (Z.of_nat index) ++ m)).

(** [sorted(set(l))]. *)
Definition sorted_ids (l : list text) : list text := py_sorted text_leb (remove_dups l).
Section Items.
Context `{PyText}.

(** ** Normalisation *)

Fixpoint string_elements (index : nat) (field : string) (position : nat) (l : list json) : outcome py_exn (list text) :=
  match l with
  | [] => Ok []
  | v :: l =>
      match v with
      | JStr t =>
          match py_strip t with
          | [] => item_error index (lit ": " ++ lit field ++ lit "[" ++ show (Z.of_nat position) ++ lit "] must be a non-empty string")
          | n => let* rest := string_elements index field (S position) l in Ok (n :: rest)
          end
      | _ => item_error index (lit ": " ++ lit field ++ lit "[" ++ show (Z.of_nat position) ++ lit "] must be a non-empty string")
      end
  end.

Definition string_list (v : json) (index : nat) (field : string) : outcome py_exn (list text) :=
  match v with
  | JNull => Ok []
  | JArr l => string_elements index field 0 l
  | _ => item_error index (lit ": " ++ lit field ++ lit " must be a list")
  end.

Definition optional_string (v : json) (index : nat) (field : string) : outcome py_exn (option text) :=
  match v with
  | JNull => Ok None
  | JStr t => Ok (match py_strip t with [] => None | n => Some n end)
  | _ => item_error index (lit ": " ++ lit field ++ lit " must be a string or null")
  end.

Definition expected_claims (raw : obj) (index : nat) : outcome py_exn (list text) :=
  let* facts := string_list (get raw "expected_facts") index "expected_facts" in
  let* claims := string_list (get raw "expected_claims") index "expected_claims" in
  match facts, claims with
  | _ :: _, _ :: _ => if bool_decide (facts = claims) then Ok facts
                      else item_error index (lit ": expected_facts and expected_claims disagree")
  | _ :: _, [] => Ok facts
  | [], _ => Ok claims
  end.

Definition item_query (raw : obj) (index : nat) (max_query_length : Z) : outcome py_exn text :=
  match get raw "query" with
  | JStr query =>
      match py_strip query with
      | [] => item_error index (lit " has no query")
      | n =>
          if max_query_length <? zlen query
          then item_error index (lit " has a " ++ show (zlen query) ++ lit "-character query; the limit is " ++ show max_query_length)
          else Ok n
      end
  | _ => item_error index (lit " has no query")
  end.

(** [fresh] is the [uuid4] of an item without an identifier. *)
Definition item_identifier (raw : obj) (index : nat) (fresh : text) : outcome py_exn text :=
  match get raw "item_id" with
  | JNull => Ok fresh
  | JStr t =>
      match py_strip t with
      | [] => item_error index (lit ": item_id must be a non-empty string")
      | n => Ok n
      end
  | _ => item_error index (lit ": item_id must be a non-empty string")
  end.

Definition answerable_of (v : json) (index : nat) : outcome py_exn (option bool) :=
  match v with
  | JNull => Ok None
  | JBool b => Ok (Some b)
  | _ => item_error index (lit ": answerable must be a boolean or null")
  end.

Definition labelled (chunk_ids file_ids file_names claims : list text) (answer : option text) : bool :=
  negb (bool_decide (chunk_ids = [])) || negb (bool_decide (file_ids = [])) || negb (bool_decide (file_names = []))
  || negb (bool_decide (claims = [])) || negb (bool_decide (answer = None)).

(** The body of the loop. *)
Definition normalize_item (raw : json) (index : nat) (fresh : text) (seen : list text) (max_query_length : Z)
    : outcome py_exn golden_item :=
  match raw with
  | JObj raw =>
      let* query := item_query raw index max_query_length in
      let* item_id := item_identifier raw index fresh in
      if bool_decide (item_id ∈ seen) then item_error index (lit " repeats item_id " ++ repr (JStr item_id)) else
      let* chunk_ids := string_list (get raw "relevant_chunk_ids") index "relevant_chunk_ids" in
      let* file_ids := string_list (get raw "relevant_file_ids") index "relevant_file_ids" in
      let* file_names := string_list (get raw "expected_file_names") index "expected_file_names" in
      let* claims := expected_claims raw index in
      let* unresolved := string_list (get raw "unresolved_expected_facts") index "unresolved_expected_facts" in
      let* tags := string_list (get raw "tags") index "tags" in
      let* answer := optional_string (get raw "expected_answer") index "expected_answer" in
      let* difficulty := optional_string (get raw "difficulty") index "difficulty" in
      let* notes := optional_string (get raw "notes") index "notes" in
      let* answerable := answerable_of (get raw "answerable") index in
      if labelled chunk_ids file_ids file_names claims answer || bool_decide (answerable = Some false)
      then Ok (mkItem item_id query chunk_ids file_ids file_names answer claims unresolved difficulty answerable tags notes)
      else item_error index
        (lit " lists no relevant_chunk_ids or relevant_file_ids, expected_file_names, expected facts, or expected_answer")
  | _ => item_error index (lit " is not an object")
  end.

Fixpoint normalize_from (fresh : nat -> text) (max_query_length : Z) (index : nat) (seen : list text) (raws : list json)
    : outcome py_exn (list golden_item) :=
  match raws with
  | [] => Ok []
  | raw :: raws =>
      let* item := normalize_item raw index (fresh index) seen max_query_length in
      let* rest := normalize_from fresh max_query_length (S index) (gi_item_id item :: seen) raws in
      Ok (item :: rest)
  end.

Definition normalize_golden_set_items (fresh : nat -> text) (raw_items : json) (max_items max_query_length : Z)
    : outcome py_exn (list golden_item) :=
  match raw_items with
  | JArr ((_ :: _) as raws) =>
      if max_items <? zlen raws
      then Raise (GoldenSetError (lit "Dataset has " ++ show (zlen raws) ++ lit " items; the limit is " ++ show max_items))
      else normalize_from fresh max_query_length 0 [] raws
  | _ => Raise (GoldenSetError (lit "A dataset must contain at least one item"))
  end.

(** An item as it is sent back. *)
Definition item_fields (i : golden_item) : obj :=
  [("item_id", JStr (gi_item_id i)); ("query", JStr (gi_query i)); ("relevant_chunk_ids", strings_json (gi_chunk_ids i));
   ("relevant_file_ids", strings_json (gi_file_ids i)); ("expected_file_names", strings_json (gi_file_names i));
        ("expected_answer", opt_text (gi_answer i)); ("expected_claims", strings_json (gi_claims i));
        ("unresolved_expected_facts", strings_json (gi_unresolved_facts i)); ("difficulty", opt_text (gi_difficulty i));
        ("answerable", match gi_answerable i with Some b => JBool b | None => JNull end);
        ("tags", strings_json (gi_tags i)); ("notes", opt_text (gi_notes i))].
Definition item_json (i : golden_item) : json := JObj (item_fields i).

(** ** Reading a file *)

Context `{JsonText}.

Definition bounded_text (content : json) (max_input_bytes : Z) : outcome py_exn text :=
  if max_input_bytes <? 1 then Raise (GoldenSetError (lit "The input-size limit must be positive")) else
  match content with
  | JStr t =>
      match utf8 t with
      | None => Raise (PyError (lit "UnicodeEncodeError") (lit "surrogates not allowed"))
      | Some encoded =>
          if max_input_bytes <? zlen encoded
          then Raise (GoldenSetError (lit "Golden Set input is " ++ show (zlen encoded) ++ lit " bytes; the limit is " ++ show max_input_bytes))
          (* [decode("utf-8-sig")] drops one byte-order mark *)
          else Ok (match t with c :: t' => if c =? 65279 then t' else t | [] => t end)
      end
  | _ => Raise (GoldenSetError (lit "Golden Set content must be text or UTF-8 bytes"))
  end.

Definition parse_json (t : text) : outcome py_exn (list json) :=
  match json_parse t with
  | None => Raise (GoldenSetError (lit "Malformed JSON"))
  | Some (JArr l) => Ok l
  | Some (JObj o) =>
      match obj_get o "items" with
      | Some (JArr l) => Ok l
      | Some _ => Raise (GoldenSetError (lit "JSON field 'items' must be an array"))
      | None => Ok [JObj o]
      end
  | Some _ => Raise (GoldenSetError (lit "JSON must contain an item, an item array, or an object with 'items'"))
  end.

(** The characters at which [str.splitlines] ends a line. *)
Definition line_end (c : Z) : bool :=
  bool_decide (c ∈ [10; 11; 12; 13; 28; 29; 30; 133; 8232; 8233]).

(** [line] is the line that is being read, reversed. *)
Fixpoint split_lines (line : text) (t : text) : list text :=
  match t with
  | [] => match line with [] => [] | _ => [reverse line] end
  | c :: t' =>
      if line_end c then
        match t' with
        | d :: t'' => if (c =? 13) && (d =? 10) then reverse line :: split_lines [] t''
                      else reverse line :: split_lines [] t'
        | [] => [reverse line]
        end
      else split_lines (c :: line) t'
  end.
Definition splitlines (t : text) : list text := split_lines [] t.

Fixpoint jsonl_from (max_items : Z) (number count : Z) (lines : list text) : outcome py_exn (list json) :=
  match lines with
  | [] => Ok []
  | line :: lines =>
      match py_strip line with
      | [] => jsonl_from max_items (number + 1) count lines
      | _ =>
          if max_items <=? count
          then Raise (GoldenSetError (lit "Dataset has more than " ++ show max_items ++ lit " items; the limit is " ++ show max_items))
          else match json_parse line with
               | None => Raise (GoldenSetError (lit "Malformed JSONL at line " ++ show number))
               | Some (JObj o) => let* rest := jsonl_from max_items (number + 1) (count + 1) lines in Ok (JObj o :: rest)
               | Some _ => Raise (GoldenSetError (lit "JSONL line " ++ show number ++ lit " is not an object"))
               end
      end
  end.

(** [str.strip().lower().lstrip(".")]. *)
Definition normalized_format (t : text) : text := drop_while (fun c => c =? 46) (lower (py_strip t)).

Definition parse_source (t format : text) (max_items : Z) : outcome py_exn (list json) :=
  let f := normalized_format format in
  if bool_decide (f = lit "json") then parse_json t
  else if bool_decide (f = lit "jsonl") || bool_decide (f = lit "ndjson") then jsonl_from max_items 1 0 (splitlines t)
  else Raise (GoldenSetError (lit "Unsupported Golden Set format " ++ repr (JStr format) ++ lit "; use 'json' or 'jsonl'")).

Definition parse_golden_set (fresh : nat -> text) (content : json) (format : text)
    (max_input_bytes max_items max_query_length : Z) : outcome py_exn (list golden_item) :=
  let* t := bounded_text content max_input_bytes in
  let* raws := parse_source t format max_items in
  normalize_golden_set_items fresh (JArr raws) max_items max_query_length.

(** ** Validation without storing *)

Record report := mkReport {
  re_total : Z; re_valid_items : Z; re_invalid_items : Z; re_errors : list (option nat * text)
}.
Definition re_valid (r : report) : bool := bool_decide (re_errors r = []).

(** ["Item 0..."] of a single item is renumbered. *)
Definition renumbered (index : nat) (m : text) : text :=
  let zero := lit "Item 0" in
  if starts zero m then lit "Item " ++ show (Z.of_nat index) ++ drop (length zero) m else m.

(** One pass of the loop: the item's identifier, or the message. *)
Definition validate_item (fresh : nat -> text) (max_query_length : Z) (index : nat) (seen : list text) (raw : json)
    : outcome py_exn text :=
  let* items := normalize_golden_set_items (fun _ => fresh index) (JArr [raw]) 1 max_query_length in
  match items, raw with
  | item :: _, JObj o =>
      if negb (is_none (get o "item_id")) && bool_decide (gi_item_id item ∈ seen)
      then item_error index (lit " repeats item_id " ++ repr (JStr (gi_item_id item)))
      else Ok (gi_item_id item)
  | item :: _, _ => Ok (gi_item_id item)
  | [], _ => Raise (PyError (lit "IndexError") (lit "list index out of range"))
  end.

Fixpoint validate_from (fresh : nat -> text) (max_query_length : Z) (index : nat) (seen : list text) (raws : list json)
    : Z * list (option nat * text) :=
  match raws with
  | [] => (0, [])
  | raw :: raws =>
      match validate_item fresh max_query_length index seen raw with
      | Ok item_id =>
          let '(n, errors) := validate_from fresh max_query_length (S index) (item_id :: seen) raws in (n + 1, errors)
      | Raise e =>
          let '(n, errors) := validate_from fresh max_query_length (S index) seen raws in
          (n, (Some index, renumbered index (exn_text e)) :: errors)
      end
  end.

(** Only validation errors become part of the report. *)
Definition validate_golden_set (fresh : nat -> text) (content : json) (format : text)
    (max_input_bytes max_items max_query_length : Z) : outcome py_exn report :=
  match (let* t := bounded_text content max_input_bytes in parse_source t format max_items) with
  | Raise e => if is_class "GoldenSetValidationError" e then Ok (mkReport 0 0 0 [(None, exn_text e)]) else Raise e
  | Ok [] => Ok (mkReport 0 0 0 [(None, lit "A dataset must contain at least one item")])
  | Ok raws =>
      if max_items <? zlen raws
      then Ok (mkReport (zlen raws) 0 (zlen raws)
                 [(None, lit "Dataset has " ++ show (zlen raws) ++ lit " items; the limit is " ++ show max_items)])
      else let '(n, errors) := validate_from fresh max_query_length 0 [] raws in
           Ok (mkReport (zlen raws) n (zlen raws - n) errors)
  end.
End Items.

(** ** Stripping twice *)

Lemma drop_while_head {A} (f : A -> bool) l x k : drop_while f l = x :: k -> f x = false.
Proof. induction l as [|y l IH]; cbn; [done|]. destruct (f y) eqn:E; [apply IH|]. by intros [= <- _]. Qed.
Lemma drop_while_keeps {A} (f : A -> bool) l : (forall x k, l = x :: k -> f x = false) -> drop_while f l = l.
Proof. destruct l as [|x k]; [done|]. intros Hl. cbn. by rewrite (Hl x k). Qed.

Lemma strip_idem f t : strip f (strip f t) = strip f t.
Proof.
  unfold strip at 2 3. set (u := drop_while f t). set (v := drop_while f (reverse u)).
  assert (Hv : forall x k, v = x :: k -> f x = false) by (intros x k Hk; by eapply drop_while_head).
  assert (Hs : drop_while f (reverse v) = reverse v).
  { apply drop_while_keeps. intros x k Hk. destruct (drop_while_suffix f (reverse u)) as [p Hp]. fold v in Hp.
    assert (Hu : u = reverse v ++ reverse p) by (rewrite <- reverse_app, <- Hp; by rewrite reverse_involutive).
    rewrite Hk in Hu. cbn in Hu. by apply (drop_while_head f t x (k ++ reverse p)). }
  unfold strip. by rewrite Hs, reverse_involutive, (drop_while_keeps f v Hv).
Qed.

Lemma strip_length f t : zlen (strip f t) <= zlen t.
Proof.
  unfold strip, zlen. rewrite length_reverse.
  assert (Hd : forall l, (length (drop_while f l) <= length l)%nat).
  { intros l. destruct (drop_while_suffix f l) as [p Hp]. rewrite Hp at 2. rewrite length_app. lia. }
  pose proof (Hd (reverse (drop_while f t))) as H1. rewrite length_reverse in H1. pose proof (Hd t). lia.
Qed.

Section Laws.
Context `{PyText}.

Definition trimmed (t : text) : Prop := t <> [] /\ py_strip t = t.

Lemma trimmed_strip t x k : py_strip t = x :: k -> trimmed (x :: k).
Proof. intros Ht. split; [done|]. rewrite <- Ht. apply strip_idem. Qed.

(** ** What each reader accepts does not depend on the position it reports *)

Lemma string_elements_ok i j field pos pos' l r :
  string_elements i field pos l = Ok r -> string_elements j field pos' l = Ok r /\ Forall trimmed r.
Proof.
  revert pos pos' r. induction l as [|v l IH]; intros pos pos' r; cbn; [by intros [= <-]|].
  destruct v as [| | | |t| |]; try done. destruct (py_strip t) as [|x n] eqn:Et; [done|].
  destruct (string_elements i field (S pos) l) as [rest|] eqn:E; [|done]. cbn. intros [= <-].
  destruct (IH _ (S pos') _ E) as [-> Hf]. cbn. split; [done|]. constructor; [by eapply trimmed_strip|done].
Qed.

Lemma string_list_ok i j field v r : string_list v i field = Ok r -> string_list v j field = Ok r /\ Forall trimmed r.
Proof. destruct v; cbn; try done; [by intros [= <-]|]. apply string_elements_ok. Qed.

Lemma string_list_trimmed l i field : Forall trimmed l -> string_list (strings_json l) i field = Ok l.
Proof.
  cbn. generalize 0%nat. induction l as [|t l IH]; intros pos Hl; [done|]. apply Forall_cons in Hl as [[Hne Ht] Hl].
  cbn. rewrite Ht. destruct t; [done|]. by rewrite (IH (S pos) Hl).
Qed.

Definition trimmed_opt (o : option text) : Prop := match o with Some t => trimmed t | None => True end.

Lemma optional_string_ok i j field v r : optional_string v i field = Ok r -> optional_string v j field = Ok r /\ trimmed_opt r.
Proof.
  destruct v; cbn; try done; [by intros [= <-]|]. intros [= <-]. split; [done|].
  destruct (py_strip s) eqn:E; [done|]. by eapply trimmed_strip.
Qed.
Lemma optional_string_trimmed o i field : trimmed_opt o -> optional_string (opt_text o) i field = Ok o.
Proof. destruct o as [t|]; [|done]. intros [Hne Ht]. cbn. rewrite Ht. by destruct t. Qed.

Lemma expected_claims_ok i j raw r : expected_claims raw i = Ok r -> expected_claims raw j = Ok r /\ Forall trimmed r.
Proof.
  unfold expected_claims. destruct (string_list (get raw "expected_facts") i _) as [facts|] eqn:E1; [|done].
  destruct (string_list_ok i j _ _ _ E1) as [-> H1]. cbn.
  destruct (string_list (get raw "expected_claims") i _) as [claims|] eqn:E2; [|done].
  destruct (string_list_ok i j _ _ _ E2) as [-> H2]. cbn.
  destruct facts, claims; try case_bool_decide; by intros [= <-].
Qed.

Lemma item_query_ok i j raw n r : item_query raw i n = Ok r -> item_query raw j n = Ok r /\ trimmed r /\ zlen r <= n.
Proof.
  unfold item_query. destruct (get raw "query"); try done. destruct (py_strip s) as [|x q] eqn:E; [done|].
  destruct (Z.ltb_spec n (zlen s)); [done|]. intros [= <-]. split; [done|]. split; [by eapply trimmed_strip|].
  rewrite <- E. pose proof (strip_length isspace s). unfold py_strip. lia.
Qed.

Lemma item_identifier_ok i j raw fresh r : item_identifier raw i fresh = Ok r ->
  item_identifier raw j fresh = Ok r /\
  (get raw "item_id" = JNull /\ r = fresh \/ exists t, get raw "item_id" = JStr t /\ r = py_strip t /\ trimmed r).
Proof.
  unfold item_identifier. destruct (get raw "item_id"); try done; [intros [= <-]; auto|].
  destruct (py_strip s) as [|x q] eqn:E; [done|]. intros [= <-]. split; [done|]. right. exists s. split; [done|].
  split; [done|]. by eapply trimmed_strip.
Qed.

Lemma answerable_ok i j v r : answerable_of v i = Ok r -> answerable_of v j = Ok r.
Proof. by destruct v. Qed.

(** An item that was normalised under a limit for queries. *)
Record item_ok (max_query_length : Z) (i : golden_item) : Prop := {
  ok_query : trimmed (gi_query i); ok_query_len : zlen (gi_query i) <= max_query_length;
  ok_lists : Forall (Forall trimmed)
    [gi_chunk_ids i; gi_file_ids i; gi_file_names i; gi_claims i; gi_unresolved_facts i; gi_tags i];
  ok_options : Forall trimmed_opt [gi_answer i; gi_difficulty i; gi_notes i];
  ok_labelled : labelled (gi_chunk_ids i) (gi_file_ids i) (gi_file_names i) (gi_claims i) (gi_answer i)
                || bool_decide (gi_answerable i = Some false) = true
}.

(** The identifier an item gets. *)
Definition identifier_of (raw : json) (fresh : text) (r : text) : Prop :=
  exists o, raw = JObj o /\
    (get o "item_id" = JNull /\ r = fresh \/ exists t, get o "item_id" = JStr t /\ r = py_strip t /\ trimmed r).

(** Read the next field at both positions. *)
Ltac next_field i j :=
  match goal with
  | |- obind ?c _ = _ -> _ =>
      let E := fresh "E" in
      destruct c eqn:E; [|done]; cbn [obind];
      first [apply (string_list_ok i j) in E as [-> ?] | apply (expected_claims_ok i j) in E as [-> ?]
            | apply (optional_string_ok i j) in E as [-> ?] | apply (item_query_ok i j) in E as (-> & ? & ?)
            | apply (item_identifier_ok i j) in E as [-> ?] | apply (answerable_ok i j) in E as ->];
      cbn [obind]
  end.

Lemma normalize_item_ok i j raw fresh seen seen' q it :
  normalize_item raw i fresh seen q = Ok it -> gi_item_id it ∉ seen' ->
  normalize_item raw j fresh seen' q = Ok it /\ item_ok q it /\ identifier_of raw fresh (gi_item_id it) /\ gi_item_id it ∉ seen.
Proof.
  destruct raw as [| | | | | |o]; try done. unfold normalize_item. do 2 next_field i j. case_bool_decide as Hseen; [done|].
  do 10 next_field i j. destruct (labelled _ _ _ _ _ || _) eqn:El; [|done]. intros [= <-]. cbn. intros Hn.
  rewrite bool_decide_eq_false_2 by done. split; [done|]. split; [|split; [by exists o|done]].
  split; cbn; [done|done|by repeat constructor|by repeat constructor|done].
Qed.

Lemma normalize_item_back q it i fresh seen : item_ok q it -> trimmed (gi_item_id it) -> gi_item_id it ∉ seen ->
  normalize_item (item_json it) i fresh seen q = Ok it.
Proof.
  intros [[Hqn Hqs] Hql Hl Ho Hlab] [Hid Hids] Hseen.
  repeat (apply Forall_cons in Hl as [? Hl]). repeat (apply Forall_cons in Ho as [? Ho]).
  assert (Hq : item_query (item_fields it) i q = Ok (gi_query it)).
  { unfold item_query. change (get (item_fields it) "query") with (JStr (gi_query it)). cbv iota. rewrite Hqs.
    destruct (gi_query it) as [|c t]; [done|]. by destruct (Z.ltb_spec q (zlen (c :: t))); [lia|]. }
  assert (Hd : item_identifier (item_fields it) i fresh = Ok (gi_item_id it)).
  { unfold item_identifier. change (get (item_fields it) "item_id") with (JStr (gi_item_id it)). cbv iota. rewrite Hids.
    by destruct (gi_item_id it). }
  assert (Hc : expected_claims (item_fields it) i = Ok (gi_claims it)).
  { unfold expected_claims. change (get (item_fields it) "expected_facts") with JNull. cbn [string_list obind].
    change (get (item_fields it) "expected_claims") with (strings_json (gi_claims it)).
    rewrite string_list_trimmed by done. cbn [obind]. by destruct (gi_claims it). }
  unfold normalize_item, item_json. rewrite Hq. cbn [obind]. rewrite Hd. cbn [obind]. rewrite bool_decide_eq_false_2 by done.
  repeat match goal with
  | |- context [get (item_fields it) "relevant_chunk_ids"] => change (get (item_fields it) "relevant_chunk_ids") with (strings_json (gi_chunk_ids it))
  | |- context [get (item_fields it) "relevant_file_ids"] => change (get (item_fields it) "relevant_file_ids") with (strings_json (gi_file_ids it))
  | |- context [get (item_fields it) "expected_file_names"] => change (get (item_fields it) "expected_file_names") with (strings_json (gi_file_names it))
  | |- context [get (item_fields it) "unresolved_expected_facts"] =>
      change (get (item_fields it) "unresolved_expected_facts") with (strings_json (gi_unresolved_facts it))
  | |- context [get (item_fields it) "tags"] => change (get (item_fields it) "tags") with (strings_json (gi_tags it))
  | |- context [get (item_fields it) "expected_answer"] => change (get (item_fields it) "expected_answer") with (opt_text (gi_answer it))
  | |- context [get (item_fields it) "difficulty"] => change (get (item_fields it) "difficulty") with (opt_text (gi_difficulty it))
  | |- context [get (item_fields it) "notes"] => change (get (item_fields it) "notes") with (opt_text (gi_notes it))
  end.
  rewrite !string_list_trimmed by done. cbn [obind]. rewrite Hc. cbn [obind]. rewrite ?string_list_trimmed by done. cbn [obind].
  rewrite !optional_string_trimmed by done. cbn [obind].
  assert (Ha : answerable_of (get (item_fields it) "answerable") i = Ok (gi_answerable it)).
  { change (get (item_fields it) "answerable") with (match gi_answerable it with Some b => JBool b | None => JNull end).
    by destruct (gi_answerable it). }
  rewrite Ha. cbn [obind]. rewrite Hlab. by destruct it.
Qed.

Lemma normalize_from_ok fresh q i seen raws items : normalize_from fresh q i seen raws = Ok items ->
  Forall (item_ok q) items /\ NoDup (map gi_item_id items) /\ length items = length raws /\
  Forall (fun it => gi_item_id it ∉ seen) items /\
  ((forall j, trimmed (fresh j)) -> Forall (fun it => trimmed (gi_item_id it)) items).
Proof.
  revert i seen items. induction raws as [|raw raws IH]; intros i seen items; cbn [normalize_from].
  { intros [= <-]. repeat split; try constructor. }
  destruct (normalize_item raw i (fresh i) seen q) as [it|] eqn:E; [|done]. cbn [obind].
  destruct (normalize_from fresh q (S i) (gi_item_id it :: seen) raws) as [rest|] eqn:Er; [|done]. cbn [obind]. intros [= <-].
  destruct (normalize_item_ok i i raw (fresh i) seen [] q it E) as (_ & Hok & Hid & Hn); [apply not_elem_of_nil|].
  destruct (IH _ _ _ Er) as (H1 & H2 & H3 & H4 & H5).
  split; [by constructor|]. split; [|split; [by cbn; f_equal|split]].
  - cbn. constructor; [|done]. rewrite list_elem_of_fmap. intros (y & Hy & Hin). rewrite Forall_forall in H4.
    specialize (H4 y Hin). rewrite <- Hy in H4. by apply H4; left.
  - constructor; [done|]. eapply Forall_impl; [exact H4|]. intros y Hy. by apply not_elem_of_cons in Hy as [_ ?].
  - intros Hf. constructor; [|by apply H5]. destruct Hid as (o & _ & [[_ ->]|(t & _ & _ & Ht)]); [done|exact Ht].
Qed.

Lemma normalize_from_back fresh q i seen items : Forall (item_ok q) items -> NoDup (map gi_item_id items) ->
  Forall (fun it => trimmed (gi_item_id it)) items -> Forall (fun it => gi_item_id it ∉ seen) items ->
  normalize_from fresh q i seen (map item_json items) = Ok items.
Proof.
  intros Hok. revert i seen. induction Hok as [|it items Hit Hok IH]; intros i seen Hn Ht Hs; [done|].
  cbn in Hn. apply NoDup_cons in Hn as [Hnin Hn]. apply Forall_cons in Ht as [Ht Hts]. apply Forall_cons in Hs as [Hs Hss].
  cbn [map normalize_from]. rewrite normalize_item_back by done. cbn [obind]. rewrite IH; [done|done|done|].
  apply Forall_forall. intros y Hy. rewrite not_elem_of_cons. split; [|by rewrite Forall_forall in Hss; apply Hss].
  intros Heq. apply Hnin. rewrite <- Heq. by apply list_elem_of_fmap_2.
Qed.

(** normalisation is a fixed point of itself.  Items that were accepted from an upload are
    within the limits, trimmed, labelled and distinct by identifier, and uploading them again
    as they are sent back gives exactly the same items, whatever identifiers are fresh. *)
Theorem normalized_round_trip fresh fresh' raws max_items q items :
  (forall j, trimmed (fresh j)) -> normalize_golden_set_items fresh (JArr raws) max_items q = Ok items ->
  Forall (item_ok q) items /\ NoDup (map gi_item_id items) /\
  normalize_golden_set_items fresh' (JArr (map item_json items)) max_items q = Ok items.
Proof.
  intros Hf. unfold normalize_golden_set_items. destruct raws as [|raw raws]; [done|].
  destruct (Z.ltb_spec max_items (zlen (raw :: raws))) as [|Hmax]; [done|]. intros Hn.
  destruct (normalize_from_ok _ _ _ _ _ _ Hn) as (H1 & H2 & H3 & H4 & H5). split; [done|]. split; [done|].
  destruct items as [|it items]; [done|]. cbn [map].
  assert (Hlen : zlen (item_json it :: map item_json items) = zlen (raw :: raws)).
  { unfold zlen. cbn in *. rewrite length_map. lia. }
  rewrite Hlen. destruct (Z.ltb_spec max_items (zlen (raw :: raws))); [lia|].
  change (item_json it :: map item_json items) with (map item_json (it :: items)). by apply normalize_from_back; auto.
Qed.

(** ** Validation and import *)

Definition explicit_id (raw : json) (r : text) : Prop :=
  exists o t, raw = JObj o /\ get o "item_id" = JStr t /\ r = py_strip t.

(** Fresh identifiers are distinct and none that the file gives. *)
Definition fresh_for (fresh : nat -> text) (raws : list json) : Prop :=
  (forall i j, fresh i = fresh j -> i = j) /\ forall raw r j, raw ∈ raws -> explicit_id raw r -> r <> fresh j.

Lemma validate_item_ok fresh q i seen raw : (forall j, (i <= j)%nat -> fresh j ∉ seen) ->
  match validate_item fresh q i seen raw with
  | Ok r => exists it, normalize_item raw i (fresh i) seen q = Ok it /\ r = gi_item_id it
  | Raise _ => forall it, normalize_item raw i (fresh i) seen q <> Ok it
  end.
Proof.
  intros Hs. unfold validate_item, normalize_golden_set_items. change (1 <? zlen [raw]) with false. cbn [normalize_from].
  destruct (normalize_item raw 0 (fresh i) [] q) as [it|e] eqn:E; cbn [obind].
  - destruct (normalize_item_ok 0 0 _ _ _ [] _ _ E) as (_ & _ & (o & -> & Hid) & _); [apply not_elem_of_nil|].
    destruct (negb (is_none (get o "item_id")) && bool_decide (gi_item_id it ∈ seen)) eqn:Hb.
    + apply andb_true_iff in Hb as [_ Hb%bool_decide_eq_true]. intros it' E'.
      destruct (normalize_item_ok i 0 _ _ _ [] _ _ E') as (E2 & _ & _ & Hn); [apply not_elem_of_nil|].
      rewrite E in E2. by injection E2 as ->.
    + exists it. split; [|done]. apply (normalize_item_ok 0 i _ _ _ seen _ _ E).
      destruct Hid as [[Hnone ->]|(t & Ht & _)]; [by apply Hs|]. rewrite Ht in Hb. by apply bool_decide_eq_false in Hb.
  - intros it' E'. destruct (normalize_item_ok i 0 _ _ _ [] _ _ E') as (E2 & _); [apply not_elem_of_nil|]. by rewrite E in E2.
Qed.

Lemma validate_from_ok fresh q i seen raws : fresh_for fresh raws -> (forall j, (i <= j)%nat -> fresh j ∉ seen) ->
  (validate_from fresh q i seen raws).2 = [] <-> exists items, normalize_from fresh q i seen raws = Ok items.
Proof.
  revert i seen. induction raws as [|raw raws IH]; intros i seen Hf Hs; [split; [by exists []|done]|].
  assert (Hf' : fresh_for fresh raws).
  { destruct Hf as [H1 H2]. split; [done|]. intros raw' r j Hin. apply H2. by right. }
  cbn [validate_from normalize_from]. pose proof (validate_item_ok fresh q i seen raw Hs) as Hv.
  destruct (validate_item fresh q i seen raw) as [r|e].
  - destruct Hv as (it & E & ->). rewrite E. cbn [obind].
    assert (Hs' : forall j, (S i <= j)%nat -> fresh j ∉ gi_item_id it :: seen).
    { intros j Hj. rewrite not_elem_of_cons. split; [|apply Hs; lia].
      destruct (normalize_item_ok i i _ _ _ [] _ _ E) as (_ & _ & (o & -> & Hid) & _); [apply not_elem_of_nil|].
      destruct Hid as [[_ ->]|(t & Ht & Heq & _)].
      - intros Heq%Hf. lia.
      - intros Heq2. symmetry in Heq2. revert Heq2. apply (proj2 Hf (JObj o)); [by left|]. by exists o, t. }
    specialize (IH (S i) _ Hf' Hs'). destruct (validate_from fresh q (S i) _ raws) as [n errors]. cbn in *. rewrite IH.
    destruct (normalize_from fresh q (S i) _ raws) as [rest|]; cbn [obind]; split; naive_solver.
  - destruct (validate_from fresh q (S i) seen raws) as [n errors]. cbn. split; [done|].
    intros [items Hi]. destruct (normalize_item raw i (fresh i) seen q) as [it|] eqn:E; [|done]. by destruct (Hv it).
Qed.
End Laws.

Section Upload.
Context `{PyText} `{JsonText}.

(** C35: the report shown before an import and the import itself agree.  When fresh
    identifiers are new (different from each other and from those of the file), a file is
    reported valid exactly when parsing it succeeds, although the report validates each item
    alone, as a dataset of one, and goes on after an error. *)
Theorem validation_agrees fresh content format max_bytes max_items q r :
  (forall t raws, bounded_text content max_bytes = Ok t -> parse_source t format max_items = Ok raws -> fresh_for fresh raws) ->
  validate_golden_set fresh content format max_bytes max_items q = Ok r ->
  re_valid r = true <-> exists items, parse_golden_set fresh content format max_bytes max_items q = Ok items.
Proof.
  intros Hf. unfold validate_golden_set, parse_golden_set.
  destruct (bounded_text content max_bytes) as [t|e] eqn:Et; cbn [obind].
  2: { destruct (is_class _ e); [|done]. intros [= <-]. split; [done|naive_solver]. }
  specialize (Hf t). destruct (parse_source t format max_items) as [raws|e] eqn:Ep; cbn [obind].
  2: { destruct (is_class _ e); [|done]. intros [= <-]. split; [done|naive_solver]. }
  specialize (Hf raws eq_refl eq_refl). unfold normalize_golden_set_items. destruct raws as [|raw raws].
  { intros [= <-]. split; [done|naive_solver]. }
  destruct (Z.ltb_spec max_items (zlen (raw :: raws))).
  { intros [= <-]. split; [done|naive_solver]. }
  pose proof (validate_from_ok fresh q 0 [] (raw :: raws) Hf) as Hv.
  destruct (validate_from fresh q 0 [] (raw :: raws)) as [n errors]. intros [= <-]. cbn.
  unfold re_valid. rewrite bool_decide_eq_true. apply Hv. intros j _. apply not_elem_of_nil.
Qed.
End Upload.

(** ** Content and fingerprint *)

(** The fields a score depends on. *)
Record canon := mkCanon {
  ca_query : option text; ca_chunk_ids : list text; ca_file_ids : list text; ca_answer : option text; ca_claims : list text;
  ca_file_names : option (list text); ca_answerable : option bool
}.

(** [_canonical_json] of one entry, and the digest of the JSON of the list. *)
Class Fingerprint := { canonical_json : canon -> text; digest : list canon -> text }.
(** JSON keeps what it prints.  Of the digest nothing is assumed: where a statement needs that
    two given datasets do not collide, it says so. *)
Class FingerprintLaws `{Fingerprint} := { canonical_json_inj :: Inj (=) (=) canonical_json }.

Definition nonempty_text (t : text) : option text := match t with [] => None | _ => Some t end.
Definition nonempty_list (l : list text) : option (list text) := match l with [] => None | _ => Some (sorted_ids l) end.

Definition canonical_item (i : golden_item) : canon :=
  mkCanon (nonempty_text (gi_query i)) (sorted_ids (gi_chunk_ids i)) (sorted_ids (gi_file_ids i))
    (gi_answer i ≫= nonempty_text) (sorted_ids (gi_claims i)) (nonempty_list (gi_file_names i)) (gi_answerable i).

Section Content.
Context `{Fingerprint}.

Definition canon_leb (a b : canon) : bool := text_leb (canonical_json a) (canonical_json b).
Definition canonical_items (items : list golden_item) : list canon := py_sorted canon_leb (map canonical_item items).
Definition dataset_fingerprint (items : list golden_item) : text := digest (canonical_items items).

(** What a benchmark keeps of an item: its identifier and its content. *)
Definition snapshot_item (i : golden_item) : golden_item :=
  mkItem (gi_item_id i) (gi_query i) (sorted_ids (gi_chunk_ids i)) (sorted_ids (gi_file_ids i)) (sorted_ids (gi_file_names i))
    (gi_answer i ≫= nonempty_text) (sorted_ids (gi_claims i)) [] None (gi_answerable i) [] None.

(** The digests of two datasets do not collide. *)
Definition no_collision (a b : list golden_item) : Prop :=
  digest (canonical_items a) = digest (canonical_items b) -> canonical_items a = canonical_items b.

Context `{!FingerprintLaws}.

Lemma sorted_unique (l k : list canon) : l ≡ₚ k -> py_sorted canon_leb l = py_sorted canon_leb k.
Proof.
  intros Hp. apply (StronglySorted_unique_strong (fun a b => canon_leb a b = true)).
  - intros a b _ _ Ha Hb. apply canonical_json_inj. by apply text_leb_antisymm.
  - apply py_sorted_sorted; [intros a b; apply text_leb_total|intros a b c; apply text_leb_trans].
  - apply py_sorted_sorted; [intros a b; apply text_leb_total|intros a b c; apply text_leb_trans].
  - by rewrite !py_sorted_perm.
Qed.

Lemma elem_of_sorted_ids l x : x ∈ sorted_ids l <-> x ∈ l.
Proof. unfold sorted_ids. by rewrite py_sorted_perm, elem_of_remove_dups. Qed.

Lemma sorted_ids_eq l k : sorted_ids l = sorted_ids k <-> forall x, x ∈ l <-> x ∈ k.
Proof.
  split; [intros E x; by rewrite <- (elem_of_sorted_ids l), E, elem_of_sorted_ids|]. intros Hm. unfold sorted_ids.
  assert (Hs : forall k : list text, StronglySorted (fun a b => text_leb a b = true) (py_sorted text_leb k)).
  { intros k'. apply py_sorted_sorted; [apply text_leb_total|apply text_leb_trans]. }
  apply (StronglySorted_unique_strong (fun a b => text_leb a b = true)); [|by apply Hs..|].
  - intros a b _ _. apply text_leb_antisymm.
  - rewrite !py_sorted_perm. apply NoDup_Permutation; [apply NoDup_remove_dups..|].
    intros x. by rewrite !elem_of_remove_dups.
Qed.

Lemma sorted_ids_idem l : sorted_ids (sorted_ids l) = sorted_ids l.
Proof. apply sorted_ids_eq. intros x. apply elem_of_sorted_ids. Qed.

Lemma canonical_snapshot i : canonical_item (snapshot_item i) = canonical_item i.
Proof.
  unfold canonical_item, snapshot_item. cbn -[sorted_ids nonempty_list]. rewrite !sorted_ids_idem. f_equal.
  - destruct (gi_answer i) as [[|c t]|]; done.
  - unfold nonempty_list. destruct (gi_file_names i) as [|n names] eqn:E; [done|].
    pose proof (sorted_ids_idem (n :: names)) as Hi.
    destruct (sorted_ids (n :: names)) as [|m ms] eqn:Es; [exfalso|by f_equal].
    assert (n ∈ sorted_ids (n :: names)) as Hn by (apply elem_of_sorted_ids; by left).
    rewrite Es in Hn. by apply elem_of_nil in Hn.
Qed.

(** Two items that every scorer treats alike: the same question, expected answer (none and an
    empty one are the same) and answerability, and the same sets of relevant chunks, relevant
    files, expected claims and expected file names. *)
Record scores_alike (i j : golden_item) : Prop := {
  al_query : gi_query i = gi_query j;
  al_answer : default [] (gi_answer i) = default [] (gi_answer j);
  al_answerable : gi_answerable i = gi_answerable j;
  al_chunk_ids x : x ∈ gi_chunk_ids i <-> x ∈ gi_chunk_ids j;
  al_file_ids x : x ∈ gi_file_ids i <-> x ∈ gi_file_ids j;
  al_claims x : x ∈ gi_claims i <-> x ∈ gi_claims j;
  al_file_names x : x ∈ gi_file_names i <-> x ∈ gi_file_names j
}.

(** The same scoring content: up to the order, the items correspond one to one. *)
Definition same_content (a b : list golden_item) : Prop := exists b', b' ≡ₚ b /\ Forall2 scores_alike a b'.

Lemma nonempty_list_eq l k : nonempty_list l = nonempty_list k <-> forall x, x ∈ l <-> x ∈ k.
Proof.
  rewrite <- sorted_ids_eq. unfold nonempty_list. destruct l as [|x l], k as [|y k]; [done| | |split; congruence].
  - split; [done|]. intros E. pose proof (proj1 (sorted_ids_eq _ _) E y) as Hy. set_solver.
  - split; [done|]. intros E. pose proof (proj1 (sorted_ids_eq _ _) E x) as Hx. set_solver.
Qed.

Lemma nonempty_text_inj t u : nonempty_text t = nonempty_text u -> t = u.
Proof. destruct t, u; cbn; congruence. Qed.

Lemma nonempty_answer_eq (o o' : option text) :
  o ≫= nonempty_text = o' ≫= nonempty_text <-> default [] o = default [] o'.
Proof. destruct o as [[|]|], o' as [[|]|]; cbn; split; congruence. Qed.

Lemma canonical_alike i j : canonical_item i = canonical_item j <-> scores_alike i j.
Proof.
  unfold canonical_item. split.
  - intros [= Eq Ec Ef Ea Ecl En Eb]. split; [by apply nonempty_text_inj|by apply nonempty_answer_eq|done|..];
      [by apply sorted_ids_eq..|by apply nonempty_list_eq].
  - intros [Eq Ea Eb Ec Ef Ecl En]. f_equal; [by rewrite Eq|..|done];
      first [by apply sorted_ids_eq|by apply nonempty_list_eq|by apply nonempty_answer_eq].
Qed.

Lemma same_content_perm a b : same_content a b <-> map canonical_item a ≡ₚ map canonical_item b.
Proof.
  split.
  - intros (b' & <- & Hf). apply reflexive_eq. induction Hf as [|i j l k Hij _ IH]; [done|]. cbn. rewrite IH. f_equal.
    by apply canonical_alike.
  - intros (b' & E & Hp)%Permutation_map_inv. exists b'. split; [done|].
    clear Hp. revert b' E. induction a as [|i a IH]; intros [|j b'] E; [constructor|done|done|].
    apply (inj2 cons) in E as [E1 E2]. constructor; [by apply canonical_alike|by apply IH].
Qed.

Lemma fingerprint_same a b : same_content a b -> dataset_fingerprint a = dataset_fingerprint b.
Proof. intros Hp%same_content_perm. unfold dataset_fingerprint, canonical_items. by rewrite (sorted_unique _ _ Hp). Qed.

Lemma fingerprint_distinguishes a b :
  no_collision a b -> dataset_fingerprint a = dataset_fingerprint b -> same_content a b.
Proof.
  intros Hn Hd%Hn. apply same_content_perm. unfold canonical_items in Hd.
  by rewrite <- (py_sorted_perm canon_leb (map canonical_item a)), Hd, py_sorted_perm.
Qed.

(** C36: the fingerprint depends on the labels and on nothing else.  Two datasets whose items
    correspond one to one, in whatever order, so that corresponding items have the same
    query, expected answer and answerability and the same sets of relevant chunks, relevant
    files, expected claims and expected file names, have the same fingerprint, whatever their
    identifiers, notes, tags, difficulties and unresolved facts.  Conversely two datasets
    with the same fingerprint correspond in this way, unless their digests collide (nothing
    is assumed of the digest; the JSON the items are sorted by is taken to be injective).
    And the snapshot a benchmark executes has the fingerprint of the dataset it was taken
    from. *)
Theorem fingerprint_content (a b : list golden_item) :
  (same_content a b -> dataset_fingerprint a = dataset_fingerprint b) /\
  (no_collision a b -> dataset_fingerprint a = dataset_fingerprint b -> same_content a b) /\
  dataset_fingerprint (map snapshot_item a) = dataset_fingerprint a.
Proof.
  split; [apply fingerprint_same|]. split; [apply fingerprint_distinguishes|].
  unfold dataset_fingerprint, canonical_items. do 2 f_equal. rewrite map_map. apply map_ext, canonical_snapshot.
Qed.
End Content.

(** ** Resolving labels *)

Inductive label_state := READY | UNRESOLVED_FILE | AMBIGUOUS_FILE_MATCH | UNANSWERABLE.
#[export] Instance label_state_eq_dec : EqDecision label_state.
Proof. solve_decision. Defined.

Definition is_str (v : json) (s : string) : bool := match v with JStr t => bool_decide (t = lit s) | _ => false end.

Section Preparation.
Context `{PyText}.

(** [{str(e.get(key)): e for e in entries ...}]: the last entry of a key counts. *)
Fixpoint keyed (key : string) (wanted : text) (entries : list json) : option obj :=
  match entries with
  | [] => None
  | e :: entries =>
      match keyed key wanted entries, e with
      | Some o, _ => Some o
      | None, JObj o => if jtrue (get o key) && bool_decide (py_str (get o key) = wanted) then Some o else None
      | None, _ => None
      end
  end.

(** The resolution of one file name. *)
Definition file_match (resolutions : list json) (label : text) : obj :=
  default [("status", s_ "UNRESOLVED_FILE")] (keyed "label" label resolutions).

Definition ambiguous (m : obj) : bool := is_str (get m "status") "AMBIGUOUS_FILE_MATCH".
Definition unresolved (m : obj) : bool :=
  negb (is_str (get m "status") "RESOLVED" || ambiguous m) || negb (jtrue (get m "file_id")).

Definition prepare_file_item (resolutions : list json) (item : golden_item) : golden_item * label_state :=
  if bool_decide (gi_answerable item = Some false) then (item, UNANSWERABLE)
  else
    let matches := map (file_match resolutions) (gi_file_names item) in
    if existsb ambiguous matches then (item, AMBIGUOUS_FILE_MATCH)
    else if existsb unresolved matches then (item, UNRESOLVED_FILE)
    else
      let resolved := map (fun m => py_str (get m "file_id")) (List.filter (fun m => jtrue (get m "file_id")) matches) in
      (item {{ gi_file_ids := dedupe (gi_file_ids item ++ resolved) }}, READY).

(** The entry an item adds to the errors: its code and the names its message lists. *)
Definition file_error (resolutions : list json) (item : golden_item) (state : label_state) : option (label_state * list text) :=
  match state with
  | AMBIGUOUS_FILE_MATCH => Some (state, List.filter (fun n => ambiguous (file_match resolutions n)) (gi_file_names item))
  | UNRESOLVED_FILE => Some (state, List.filter (fun n => unresolved (file_match resolutions n)) (gi_file_names item))
  | READY | UNANSWERABLE => None
  end.

Record file_preparation := mkFilePreparation {
  fp_items : list (golden_item * label_state); fp_ready : Z; fp_unresolved : Z; fp_ambiguous : Z; fp_unanswerable : Z;
  fp_errors : list (nat * (label_state * list text))
}.
Definition count_state (s : label_state) (l : list (golden_item * label_state)) : Z :=
  zlen (List.filter (fun x => bool_decide (x.2 = s)) l).

Definition prepare_file_labels (items : list golden_item) (resolutions : list json) : file_preparation :=
  let l := map (prepare_file_item resolutions) items in
  mkFilePreparation l (count_state READY l) (count_state UNRESOLVED_FILE l) (count_state AMBIGUOUS_FILE_MATCH l)
    (count_state UNANSWERABLE l)
    (omap (fun e => match e with (n, (item, state)) => (fun err => (n, err)) <$> file_error resolutions item state end)
       (imap pair l)).
Definition fp_blocking (p : file_preparation) : bool := negb (fp_unresolved p =? 0) || negb (fp_ambiguous p =? 0).

(** ** Resolving facts *)

Definition entries_of (v : json) : list json := match v with JArr l => l | _ => [] end.

(** [file_states.get(file_id)]. *)
Definition file_state (resolution : obj) (file_id : text) : option text :=
  (fun o => py_str (get o "status" ||| s_ "FILE_MISSING")%rf) <$> keyed "file_id" file_id (entries_of (get resolution "files")).
Definition file_ready (resolution : obj) (file_id : text) : bool := bool_decide (file_state resolution file_id = Some (lit "READY")).

Definition fact_resolved (resolution : obj) (fact : text) : bool :=
  match keyed "fact" fact (entries_of (get resolution "facts")) with
  | Some o => is_str (get o "status") "RESOLVED" && jtrue (get o "chunk_ids")
  | None => false
  end.

(** How one item came out: its labels, the files that are not searchable with their states, the
    facts that were not found, and whether it is scored on chunks, on files, or on neither. *)
Inductive fact_level := ByChunk | ByFile | Neither.
#[export] Instance fact_level_eq_dec : EqDecision fact_level.
Proof. solve_decision. Defined.

Record fact_outcome := mkFactOutcome {
  fo_item : golden_item; fo_unready : list (text * text); fo_unresolved : list text; fo_resolved : Z; fo_level : fact_level
}.

(** The identifiers of the chunks a resolution names; they are strings. *)
Definition chunk_texts (v : json) : list text :=
  omap (fun v => match v with JStr t => Some t | _ => None end) (entries_of v).

(** One item; an item that cannot be answered is left alone. *)
Definition prepare_chunk_item (resolutions : list json) (item : golden_item) : fact_outcome :=
  let item := item {{ gi_unresolved_facts := [] }} in
  if bool_decide (gi_answerable item = Some false) then mkFactOutcome item [] [] 0 Neither
  else
    let facts := gi_claims item in
    let file_ids := gi_file_ids item in
    let resolution := default [] (keyed "item_id" (gi_item_id item) resolutions) in
    let unready := map (fun f => (f, default (lit "FILE_MISSING") (file_state resolution f)))
                     (List.filter (fun f => negb (file_ready resolution f)) file_ids) in
    let missing := List.filter (fun f => negb (fact_resolved resolution f)) facts in
    let item := item {{ gi_unresolved_facts := missing }} in
    let resolved := zlen facts - zlen missing in
    if negb (bool_decide (facts = [])) && bool_decide (missing = []) && bool_decide (unready = [])
    then mkFactOutcome (item {{ gi_chunk_ids := dedupe (gi_chunk_ids item ++ chunk_texts (get resolution "chunk_ids")) }})
           unready missing resolved ByChunk
    else if negb (bool_decide (facts = [])) && negb (bool_decide (file_ids = [])) && bool_decide (unready = [])
    then mkFactOutcome item unready missing resolved ByFile
    else if negb (bool_decide (facts = [])) && bool_decide (file_ids = [])
    then mkFactOutcome item unready missing resolved ByFile
    else mkFactOutcome item unready missing resolved Neither.

Record chunk_preparation := mkChunkPreparation {
  cp_items : list golden_item; cp_chunk_ready : Z; cp_file_fallback : Z; cp_resolved_facts : Z; cp_unresolved_facts : Z;
  cp_unready_files : Z; cp_unready_items : Z;
  cp_errors : list (nat * (text * text)); cp_warnings : list (nat * text)
}.

Definition indexed {A} (f : fact_outcome -> list A) (l : list fact_outcome) : list (nat * A) :=
  concat (imap (fun n o => map (pair n) (f o)) l).
Definition total (f : fact_outcome -> Z) (l : list fact_outcome) : Z := foldr (fun o n => f o + n) 0 l.
Definition count_if (f : fact_outcome -> bool) (l : list fact_outcome) : Z := zlen (List.filter f l).

Definition prepare_chunk_labels (items : list golden_item) (resolutions : list json) : chunk_preparation :=
  let l := map (prepare_chunk_item resolutions) items in
  mkChunkPreparation (map fo_item l) (count_if (fun o => bool_decide (fo_level o = ByChunk)) l)
    (count_if (fun o => bool_decide (fo_level o = ByFile)) l) (total fo_resolved l) (total (fun o => zlen (fo_unresolved o)) l)
    (total (fun o => zlen (fo_unready o)) l) (count_if (fun o => negb (bool_decide (fo_unready o = []))) l)
    (indexed fo_unready l)
    (indexed (fun o => if bool_decide (fo_level o = ByFile) then fo_unresolved o else []) l).
Definition cp_blocking (p : chunk_preparation) : bool := negb (bool_decide (cp_errors p = [])).

(** ** What preparation gives *)

Lemma count_state_zero s l : count_state s l = 0 -> forall x, x ∈ l -> x.2 <> s.
Proof.
  unfold count_state. intros Hz x Hx E.
  assert (List.In x (List.filter (fun x => bool_decide (x.2 = s)) l)) as Hin.
  { apply filter_In. split; [by apply list_elem_of_In|by apply bool_decide_eq_true]. }
  unfold zlen in Hz. by destruct (List.filter _ l).
Qed.

Lemma count_state_cons s x l : count_state s (x :: l) = (if bool_decide (x.2 = s) then 1 else 0) + count_state s l.
Proof. unfold count_state, zlen. cbn [List.filter]. case_bool_decide; cbn [length]; lia. Qed.

(** An item that is ready has the file of each of its names, and every label it had. *)
Lemma ready_item rs item item' :
  prepare_file_item rs item = (item', READY) ->
  (forall name, name ∈ gi_file_names item ->
     is_str (get (file_match rs name) "status") "RESOLVED" = true /\
     py_str (get (file_match rs name) "file_id") ∈ gi_file_ids item') /\
  (forall f, f ∈ gi_file_ids item -> f ∈ gi_file_ids item').
Proof.
  unfold prepare_file_item. repeat case_match; intros [= <-]. cbn -[get dedupe]. split.
  - intros name Hn.
    assert (file_match rs name ∈ map (file_match rs) (gi_file_names item)) as Hm.
    { apply list_elem_of_In, in_map. by apply list_elem_of_In. }
    pose proof (existsb_false _ _ _ H1 Hm) as Ha. pose proof (existsb_false _ _ _ H2 Hm) as Hu.
    unfold unresolved in Hu. rewrite Ha, orb_false_r in Hu. apply orb_false_elim in Hu as [Hr%negb_false_iff Hf%negb_false_iff].
    split; [done|]. apply elem_of_dedupe, elem_of_app. right. apply list_elem_of_In, in_map_iff.
    exists (file_match rs name). split; [done|]. apply filter_In. by rewrite <- list_elem_of_In.
  - intros f Hf. apply elem_of_dedupe, elem_of_app. by left.
Qed.

(** What the resolution of its facts does to one item. *)
Lemma chunk_item_cases rs item :
  let o := prepare_chunk_item rs item in
  let resolution := default [] (keyed "item_id" (gi_item_id item) rs) in
  (forall c, c ∈ gi_chunk_ids item -> c ∈ gi_chunk_ids (fo_item o)) /\
  (gi_chunk_ids (fo_item o) <> gi_chunk_ids item ->
   gi_answerable item <> Some false /\ gi_claims item <> [] /\
   (forall fact, fact ∈ gi_claims item -> fact_resolved resolution fact = true) /\
   (forall f, f ∈ gi_file_ids item -> file_ready resolution f = true)) /\
  gi_file_ids (fo_item o) = gi_file_ids item /\ gi_answerable (fo_item o) = gi_answerable item.
Proof.
  unfold prepare_chunk_item. cbv zeta. cbn [gi_answerable gi_claims gi_file_ids gi_item_id gi_chunk_ids].
  case_bool_decide as Ha; cbn [fo_item gi_chunk_ids gi_file_ids gi_answerable]; [done|].
  destruct (negb _ && _ && _) eqn:E; [|repeat case_match; done].
  cbn [fo_item gi_chunk_ids gi_file_ids gi_answerable].
  apply andb_prop in E as [[Hc Hm%bool_decide_eq_true]%andb_prop Hu%bool_decide_eq_true%map_eq_nil].
  split; [intros c Hin; apply elem_of_dedupe, elem_of_app; by left|]. split; [intros _|done].
  split; [done|]. split; [by apply negb_true_iff, bool_decide_eq_false in Hc|].
  assert (forall {A} (f : A -> bool) l, List.filter (fun x => negb (f x)) l = [] -> forall x, x ∈ l -> f x = true) as Hall.
  { intros A f l Hl x Hx. destruct (f x) eqn:Ef; [done|].
    assert (List.In x (List.filter (fun x => negb (f x)) l)) as Hin; [|by rewrite Hl in Hin].
    apply filter_In. rewrite <- list_elem_of_In. by rewrite Ef. }
  split; [by apply Hall|by apply Hall].
Qed.

(** labels are only ever added, and only when all of them are known.  A set whose files were
    resolved without a blocking error has, for every answerable item, the file of each of
    its names and every file it already had; the chunks of an item grow only when each of
    its expected facts was found and each of its files is searchable, so a partial match
    is never taken for chunk-level truth; and a blocked preparation is one that counts an
    unresolved or ambiguous file, or a file that is not ready. *)
Theorem prepared_labels (items : list golden_item) (files chunks : list json) :
  let p := prepare_file_labels items files in
  (fp_blocking p = false ->
   forall n item, items !! n = Some item -> gi_answerable item <> Some false ->
   exists item', fp_items p !! n = Some (item', READY) /\
     (forall name, name ∈ gi_file_names item -> py_str (get (file_match files name) "file_id") ∈ gi_file_ids item') /\
     (forall f, f ∈ gi_file_ids item -> f ∈ gi_file_ids item')) /\
  fp_ready p + fp_unresolved p + fp_ambiguous p + fp_unanswerable p = zlen items /\
  (forall n item, items !! n = Some item ->
   exists item', cp_items (prepare_chunk_labels items chunks) !! n = Some item' /\
     (forall c, c ∈ gi_chunk_ids item -> c ∈ gi_chunk_ids item') /\
     (gi_chunk_ids item' <> gi_chunk_ids item ->
      let resolution := default [] (keyed "item_id" (gi_item_id item) chunks) in
      gi_claims item <> [] /\ (forall fact, fact ∈ gi_claims item -> fact_resolved resolution fact = true) /\
      (forall f, f ∈ gi_file_ids item -> file_ready resolution f = true))).
Proof.
  cbv zeta. split; [|split].
  - intros Hb n item Hn Ha. unfold fp_blocking in Hb. apply orb_false_elim in Hb as [Hu Hm].
    apply negb_false_iff, Z.eqb_eq in Hu, Hm. cbn in Hu, Hm.
    destruct (prepare_file_item files item) as [item' st] eqn:E.
    assert (fp_items (prepare_file_labels items files) !! n = Some (item', st)) as Hl.
    { cbn. by rewrite list_lookup_fmap, Hn, <- E. }
    pose proof (count_state_zero _ _ Hu _ (list_elem_of_lookup_2 _ _ _ Hl)) as Hnu.
    pose proof (count_state_zero _ _ Hm _ (list_elem_of_lookup_2 _ _ _ Hl)) as Hnm.
    assert (st = READY) as ->.
    { unfold prepare_file_item in E. rewrite bool_decide_false in E by done.
      repeat case_match; simplify_eq; done. }
    exists item'. split; [done|]. pose proof (ready_item _ _ _ E) as [Hr Hk]. split; [|done].
    intros name Hname. by apply Hr.
  - cbn. induction items as [|i items IH]; [done|]. cbn [map]. rewrite !count_state_cons, zlen_cons.
    destruct (prepare_file_item files i) as [i' []]; cbn [snd]; repeat (case_bool_decide; [|]); try done; lia.
  - intros n item Hn. exists (fo_item (prepare_chunk_item chunks item)).
    pose proof (chunk_item_cases chunks item) as (Hk & Hg & _). split; [|split; [done|]].
    + cbn. by rewrite !list_lookup_fmap, Hn.
    + intros Hd. cbv zeta. destruct (Hg Hd) as (_ & Hrest). exact Hrest.
Qed.

End Preparation.

(** ** A small dataset *)

Definition demo_fresh (j : nat) : text := replicate (S j) 120.
Definition demo_raws : list json :=
  [ JObj [("query", s_ " When is the exam? "); ("expected_file_names", JArr [s_ "notes.txt"]);
          ("expected_claims", JArr [s_ "in June"])];
    JObj [("query", s_ "Who teaches?"); ("item_id", s_ "alpha"); ("answerable", JBool false)] ].
Definition demo_reader : JsonText := {|
  json_parse := fun _ => Some (JArr demo_raws); json_dump := fun _ _ => []
|}.
Definition demo_items : list golden_item :=
  match normalize_golden_set_items (H := ascii_text) demo_fresh (JArr demo_raws) 10 100 with Ok l => l | Raise _ => [] end.

Lemma demo_fresh_trimmed j : trimmed (H := ascii_text) (demo_fresh j).
Proof.
  split; [done|]. unfold py_strip, strip, demo_fresh.
  rewrite (drop_while_keeps _ (replicate (S j) 120)) by (cbn; by intros x k [= <- _]).
  rewrite reverse_replicate, (drop_while_keeps _ (replicate (S j) 120)) by (cbn; by intros x k [= <- _]).
  apply reverse_replicate.
Qed.

Lemma normalized_round_trip_witness :
  length demo_items = 2%nat /\
  normalize_golden_set_items (H := ascii_text) (fun _ => []) (JArr (map item_json demo_items)) 10 100 = Ok demo_items.
Proof.
  split; [by vm_compute|].
  apply (normalized_round_trip (H := ascii_text) demo_fresh (fun _ => []) demo_raws 10 100 demo_items).
  - apply demo_fresh_trimmed.
  - by vm_compute.
Defined.

Definition demo_report : report := mkReport 2 2 0 [].

Lemma demo_fresh_for : fresh_for (H := ascii_text) demo_fresh demo_raws.
Proof.
  split.
  - intros i j E. apply (f_equal length) in E. unfold demo_fresh in E. rewrite !length_replicate in E. lia.
  - intros raw r j Hin (o & t & -> & Hi & ->) E. unfold demo_raws in Hin.
    apply elem_of_cons in Hin as [[= ->]|Hin]; [done|]. apply list_elem_of_singleton in Hin as [= ->].
    vm_compute in Hi. injection Hi as <-. by vm_compute in E.
Qed.

Lemma validation_agrees_witness :
  re_valid demo_report = true <->
  exists items, parse_golden_set (H := ascii_text) (H0 := demo_reader) demo_fresh (s_ "dataset") (lit ".JSON") 100 10 100 = Ok items.
Proof.
  eapply (validation_agrees (H := ascii_text) (H0 := demo_reader) demo_fresh (s_ "dataset") (lit ".JSON") 100 10 100 demo_report).
  - intros t raws Ht. vm_compute in Ht. injection Ht as <-.
    change (parse_source (H := ascii_text) (H0 := demo_reader) _ _ _) with (Ok (E := py_exn) demo_raws). intros [= <-]. apply demo_fresh_for.
  - by vm_compute.
Defined.

(** ** A fingerprint *)

Definition canon_tuple (c : canon) :=
  (ca_query c, ca_chunk_ids c, ca_file_ids c, ca_answer c, ca_claims c, ca_file_names c, ca_answerable c).
#[export] Instance canon_tuple_inj : Inj (=) (=) canon_tuple.
Proof. intros [] []. unfold canon_tuple. cbn. intros [= -> -> -> -> -> -> ->]. done. Qed.

Definition demo_fingerprint : Fingerprint := {|
  canonical_json := fun c => [Zpos (countable.encode (canon_tuple c))]; digest := fun l => [Zpos (countable.encode (map canon_tuple l))]
|}.
#[export] Instance demo_fingerprint_laws : @FingerprintLaws demo_fingerprint.
Proof. split. intros a b [= E]. by apply (inj countable.encode), (inj canon_tuple) in E. Qed.

Lemma demo_no_collision a b : no_collision (H := demo_fingerprint) a b.
Proof. intros [= E]. apply (inj countable.encode) in E. revert E. apply list_fmap_eq_inj, _. Qed.

(** The small dataset in another order, under other identifiers and with notes and tags, and
    one of its questions asked differently. *)
Definition demo_edited : list golden_item :=
  reverse (map (fun i => i {{ gi_item_id ::= cons 120 }} {{ gi_notes := Some (lit "checked") }} {{ gi_tags := [lit "june"] }})
             demo_items).
Definition demo_reworded : list golden_item := map (fun i => i {{ gi_query ::= cons 63 }}) demo_items.

Lemma fingerprint_content_witness :
  dataset_fingerprint (H := demo_fingerprint) demo_edited = dataset_fingerprint (H := demo_fingerprint) demo_items /\
  dataset_fingerprint (H := demo_fingerprint) demo_reworded <> dataset_fingerprint (H := demo_fingerprint) demo_items /\
  dataset_fingerprint (H := demo_fingerprint) (map snapshot_item demo_items) =
  dataset_fingerprint (H := demo_fingerprint) demo_items.
Proof.
  split_and!.
  - apply (proj1 (fingerprint_content (H := demo_fingerprint) demo_edited demo_items)). exists (reverse demo_items).
    split; [apply reverse_Permutation|]. apply Forall2_reverse, Forall2_fmap_l, Forall_Forall2_diag, Forall_true.
    by intros i.
  - intros E. destruct (proj1 (proj2 (fingerprint_content (H := demo_fingerprint) demo_reworded demo_items))
      (demo_no_collision _ _) E) as (b' & Hp & Hf).
    vm_compute in Hf. apply Forall2_cons_inv_l in Hf as (j & b'' & Hj & _ & ->).
    assert (Hin : j ∈ demo_items) by (rewrite <- Hp; by left). apply al_query in Hj. vm_compute in Hin.
    apply elem_of_cons in Hin as [->|Hin]; [by vm_compute in Hj|].
    apply list_elem_of_singleton in Hin as ->. by vm_compute in Hj.
  - exact (proj2 (proj2 (fingerprint_content (H := demo_fingerprint) demo_items demo_items))).
Defined.

(** ** Its labels *)

Definition demo_resolution : list json :=
  [JObj [("label", s_ "notes.txt"); ("status", s_ "RESOLVED"); ("file_id", s_ "f1")]].

Lemma prepared_labels_witness :
  fp_blocking (prepare_file_labels (H := ascii_text) demo_items demo_resolution) = false /\
  exists item item', demo_items !! 0%nat = Some item /\
    fp_items (prepare_file_labels (H := ascii_text) demo_items demo_resolution) !! 0%nat = Some (item', READY) /\
    lit "f1" ∈ gi_file_ids item'.
Proof.
  split; [by vm_compute|].
  destruct (prepared_labels (H := ascii_text) demo_items demo_resolution []) as [Hp _].
  eexists. destruct (Hp ltac:(by vm_compute) 0%nat _ ltac:(by vm_compute) ltac:(by vm_compute)) as (item' & Hl & Hn & _).
  exists item'. split; [by vm_compute|]. split; [exact Hl|]. apply (Hn (lit "notes.txt")). vm_compute. by left.
Defined.
