(* ===== verification/EvalStore.v ===== *)
(** * The evaluation store

    [src/backend/rag/app/services/eval_store.py]: golden sets, evaluation runs and benchmarks
    of the tenants in three collections, with versions, leases and the recovery of runs whose
    worker is gone.  Every call of the driver is one atomic action of [Interleaving] that may
    fail before or after it was applied, so several replicas interleave between their calls;
    with the in-memory backend the same calls cannot fail.  Documents are typed, with [None]
    where a document written by an older release lacks a field.  Dates are microseconds.  The
    rendering of a reply as JSON ([_serialize]), the creation of indexes and the connection
    are left out. *)

From Stdlib Require Import QArith.
From stdpp Require Import base strings list sets gmap sorting.
From S2P Require Import Prelude PyValue Base64 Auth Interleaving MemoryNormalize TextWindow LlmPrompts RetrievalMetrics GoldenSet.

Local Open Scope string_scope.
Local Open Scope list_scope.
Local Open Scope Z_scope.

(** ** Documents *)

Inductive run_status := QUEUED | RUNNING | COMPLETED | PARTIAL | FAILED | INTERRUPTED.
#[export] Instance run_status_eq_dec : EqDecision run_status.
Proof. solve_decision. Defined.

Record lease := mkLease { le_owner : option text; le_heartbeat : Z; le_expires : option Z }.
#[export] Instance lease_eq_dec : EqDecision lease.
Proof. solve_decision. Defined.

Record dataset := mkDataset {
  ds_id : text; ds_tenant : text; ds_name : text; ds_description : option text; ds_created : Z; ds_updated : Z;
  ds_version : option Z; ds_sha256 : option text; ds_items : list golden_item
}.

(** The scores and the per-item rows of a run are the runner's; the store only keeps them. *)
Record run_doc := mkRun {
  ru_id : text; ru_dataset : text; ru_dataset_version : option Z; ru_dataset_sha256 : option text; ru_tenant : text;
  ru_started : Z; ru_finished : option Z; ru_status : run_status; ru_match_mode : text; ru_mode : text;
  ru_pipeline_mode : option text; ru_benchmark : option text; ru_snapshot : obj; ru_validation : option obj;
  ru_results : obj; ru_per_item : list obj; ru_error : option text; ru_lease : option lease;
  ru_recovery : option (text * Z)
}.

(** A phase of a benchmark with the counters of its items; a date is the instant its text
    names. *)
Inductive phase_status := PHASE_QUEUED | PHASE_RUNNING | PHASE_COMPLETED | PHASE_PARTIAL | PHASE_FAILED | PHASE_SKIPPED
  | PHASE_UNSUPPORTED | PHASE_INTERRUPTED.
#[export] Instance phase_status_eq_dec : EqDecision phase_status.
Proof. solve_decision. Defined.

Record item_counts := mkItemCounts {
  ic_completed : Z; ic_in_flight : Z; ic_succeeded : Z; ic_blocked : Z; ic_failed : Z; ic_timed_out : Z; ic_started : Z; ic_last : Z
}.
Record phase := mkPhase {
  ph_name : text; ph_mode : text; ph_pipeline : option text; ph_status : phase_status; ph_reason : option text;
  ph_run : option text; ph_started : option Z; ph_finished : option Z; ph_phase_started : option Z;
  ph_phase_finished : option Z; ph_wall_clock : option Q; ph_error : option text; ph_results : option obj;
  ph_items : option item_counts
}.

Record benchmark := mkBenchmark {
  be_id : text; be_dataset : text; be_dataset_version : option Z; be_dataset_sha256 : option text;
  be_snapshot : option (list golden_item); be_tenant : text; be_created : Z; be_started : option Z;
  be_finished : option Z; be_status : run_status; be_profile : option text; be_phases : list phase; be_progress : obj;
  be_manifest : option obj; be_metrics : option obj; be_error : option text; be_lease : option lease
}.

(** The three collections, and the phase tables that the orchestrations of benchmarks hold in
    memory, where their coroutines share them. *)
Record eval_db := mkDb {
  db_datasets : list dataset; db_runs : list run_doc; db_benchmarks : list benchmark; db_tables : gmap text (list phase); db_tick : nat
}.

#[export] Instance eta_lease : Eta lease := fun x => mkLease (le_owner x) (le_heartbeat x) (le_expires x).
#[export] Instance eta_dataset : Eta dataset := fun x =>
  mkDataset (ds_id x) (ds_tenant x) (ds_name x) (ds_description x) (ds_created x) (ds_updated x) (ds_version x)
    (ds_sha256 x) (ds_items x).
#[export] Instance eta_run : Eta run_doc := fun x =>
  mkRun (ru_id x) (ru_dataset x) (ru_dataset_version x) (ru_dataset_sha256 x) (ru_tenant x) (ru_started x)
    (ru_finished x) (ru_status x) (ru_match_mode x) (ru_mode x) (ru_pipeline_mode x) (ru_benchmark x) (ru_snapshot x)
    (ru_validation x) (ru_results x) (ru_per_item x) (ru_error x) (ru_lease x) (ru_recovery x).
#[export] Instance eta_item_counts : Eta item_counts := fun x =>
  mkItemCounts (ic_completed x) (ic_in_flight x) (ic_succeeded x) (ic_blocked x) (ic_failed x) (ic_timed_out x)
    (ic_started x) (ic_last x).
#[export] Instance eta_phase : Eta phase := fun x =>
  mkPhase (ph_name x) (ph_mode x) (ph_pipeline x) (ph_status x) (ph_reason x) (ph_run x) (ph_started x) (ph_finished x)
    (ph_phase_started x) (ph_phase_finished x) (ph_wall_clock x) (ph_error x) (ph_results x) (ph_items x).
#[export] Instance eta_benchmark : Eta benchmark := fun x =>
  mkBenchmark (be_id x) (be_dataset x) (be_dataset_version x) (be_dataset_sha256 x) (be_snapshot x) (be_tenant x)
    (be_created x) (be_started x) (be_finished x) (be_status x) (be_profile x) (be_phases x) (be_progress x)
    (be_manifest x) (be_metrics x) (be_error x) (be_lease x).
#[export] Instance eta_eval_db : Eta eval_db := fun x =>
  mkDb (db_datasets x) (db_runs x) (db_benchmarks x) (db_tables x) (db_tick x).

Record eval_config := mkEvalConfig {
  in_memory : bool; eval_lease_seconds : Z; eval_max_name_length : Z; eval_max_query_length : Z;
  eval_max_dataset_bytes : Z; eval_max_dataset_items : Z
}.

(** What one interaction gets from the outside, numbered by [db_tick]; [store_fault] is
    [Some (applied, message)] when the call of the driver raises. *)
Class EvalEnv := {
  now_at : nat -> Z; uuid_at : nat -> text; item_uuid_at : nat -> nat -> text; store_fault : nat -> option (bool * text)
}.

Definition EvalAccessDenied : py_exn := PyError (lit "EvalAccessDenied") (lit "Administrator role required for eval datasets").
Definition EvalValidationError (m : text) : py_exn := PyError (lit "EvalValidationError") m.
Definition EvalNotFound (m : text) : py_exn := PyError (lit "EvalNotFound") m.

Definition DEFAULT_RUN_LIMIT : Z := 20.
Definition MAX_RUN_LIMIT : Z := 100.
Definition INITIAL_DATASET_VERSION : Z := 1.
Definition MICROSECONDS : Z := 1000000.

(** ** Leases *)

Definition lease_expiry (now seconds : Z) : Z := now + Z.max 1 seconds * MICROSECONDS.
Definition new_lease (owner_id : option text) (now seconds : Z) : lease :=
  mkLease owner_id now (Some (lease_expiry now seconds)).
Definition lease_expires_at (l : option lease) : option Z := l ≫= le_expires.
(** [expiry is not None and expiry > now]. *)
Definition lease_holds (l : option lease) (now : Z) : bool :=
  match lease_expires_at l with Some expiry => now <? expiry | None => false end.
Definition owned_by (owner_id : text) (l : option lease) : bool := bool_decide (l ≫= le_owner = Some owner_id).

(** ** Values *)

(** [json.dumps] without spaces and with [ensure_ascii=False]. *)
Class CompactJson := compact_json : json -> text.

Section Values.
Context `{PyText} `{CompactJson}.

Definition bounded_metadata (value : json) (field : string) (max_length : Z) : outcome py_exn (option text) :=
  let normalized := if is_none value then [] else py_strip (py_str value) in
  if max_length <? zlen normalized
  then Raise (EvalValidationError (lit "Dataset " ++ lit field ++ lit " has " ++ show (zlen normalized) ++
                                   lit " characters; the limit is " ++ show max_length))
  else Ok (nonempty_text normalized).

(** [len] of the encoded JSON; an item that cannot be encoded is left to the normalizer. *)
Definition require_bounded_items (items : json) (max_bytes : Z) : outcome py_exn unit :=
  match utf8 (compact_json items) with
  | None => Ok tt
  | Some encoded =>
      if max_bytes <? zlen encoded
      then Raise (EvalValidationError (lit "Dataset items are " ++ show (zlen encoded) ++ lit " bytes; the limit is " ++
                                       show max_bytes))
      else Ok tt
  end.

(** [except GoldenSetValidationError as exc: raise EvalValidationError(str(exc))]. *)
Definition as_eval_error {A} (o : outcome py_exn A) : outcome py_exn A :=
  match o with
  | Raise e => if is_class "GoldenSetValidationError" e then Raise (EvalValidationError (exn_text e)) else Raise e
  | Ok a => Ok a
  end.

Definition normalize_items (fresh : nat -> text) (raw_items : json) (max_items max_query_length : Z)
    : outcome py_exn (list golden_item) :=
  as_eval_error (normalize_golden_set_items fresh raw_items max_items max_query_length).
End Values.

(** ** The driver *)

Section Store.
Context `{PyText} `{JsonText} `{CompactJson} `{Fingerprint} `{EvalEnv}.
Context (cfg : eval_config).

Abbreviation eprog := (prog eval_db).

Definition interact {A} (f : nat -> A) : eprog A :=
  atomically (fun d => (Ok (f (db_tick d)), d {{ db_tick ::= S }})).
Definition now_ : eprog Z := interact now_at.
Definition uuid4_ : eprog text := interact uuid_at.

(** A date as it is stored and as a filter compares it. *)
Definition stored (t : Z) : Z := if in_memory cfg then t else bson_date t.
Definition stored_lease (l : lease) : lease :=
  l {{ le_heartbeat ::= stored }} {{ le_expires ::= fmap stored }}.

(** One call; the in-memory collections never fail. *)
Definition db_step {A} (c : eff eval_db A) : eff eval_db A := fun d =>
  match (if in_memory cfg then None else store_fault (db_tick d)) with
  | None => let '(o, d') := c d in (o, d' {{ db_tick ::= S }})
  | Some (applied, m) =>
      (Raise (PyError (lit "PyMongoError") m), (if applied : bool then (c d).2 else d) {{ db_tick ::= S }})
  end.
Definition db_call {A} (c : eff eval_db A) : eprog A := atomically (db_step c).

(** [_query] in natural order; a limit of 0 is none. *)
Definition limited {A} (limit : Z) (l : list A) : list A := if limit =? 0 then l else take (Z.to_nat limit) l.

Definition insert_dataset (x : dataset) : eprog unit := db_call (modify (fun d => d {{ db_datasets ::= (.++ [x]) }})).
Definition query_datasets (p : dataset -> bool) : eprog (list dataset) :=
  db_call (gets (fun d => List.filter p (db_datasets d))).
Definition find_dataset (p : dataset -> bool) : eprog (option dataset) :=
  db_call (gets (fun d => List.find p (db_datasets d))).
Definition update_datasets (p : dataset -> bool) (f : dataset -> dataset) : eprog bool :=
  db_call (fun d => (Ok (existsb p (db_datasets d)), d {{ db_datasets ::= update_first p f }})).
Definition delete_datasets (p : dataset -> bool) : eprog bool :=
  db_call (fun d => (Ok (existsb p (db_datasets d)), d {{ db_datasets ::= delete_first p }})).

Definition insert_run (x : run_doc) : eprog unit := db_call (modify (fun d => d {{ db_runs ::= (.++ [x]) }})).
Definition query_runs (p : run_doc -> bool) : eprog (list run_doc) := db_call (gets (fun d => List.filter p (db_runs d))).
Definition find_run (p : run_doc -> bool) : eprog (option run_doc) := db_call (gets (fun d => List.find p (db_runs d))).
Definition update_runs (p : run_doc -> bool) (f : run_doc -> run_doc) : eprog bool :=
  db_call (fun d => (Ok (existsb p (db_runs d)), d {{ db_runs ::= update_first p f }})).
(** [find_one_and_update], and in memory the check and the change of one document. *)
Definition claim_runs (p : run_doc -> bool) (f : run_doc -> run_doc) : eprog (option run_doc) :=
  db_call (fun d => (Ok (f <$> List.find p (db_runs d)), d {{ db_runs ::= update_first p f }})).

Definition insert_benchmark (x : benchmark) : eprog unit :=
  db_call (modify (fun d => d {{ db_benchmarks ::= (.++ [x]) }})).
Definition query_benchmarks (p : benchmark -> bool) : eprog (list benchmark) :=
  db_call (gets (fun d => List.filter p (db_benchmarks d))).
Definition find_benchmark (p : benchmark -> bool) : eprog (option benchmark) :=
  db_call (gets (fun d => List.find p (db_benchmarks d))).
Definition update_benchmarks (p : benchmark -> bool) (f : benchmark -> benchmark) : eprog bool :=
  db_call (fun d => (Ok (existsb p (db_benchmarks d)), d {{ db_benchmarks ::= update_first p f }})).

(** The filters of the store. *)
Definition dataset_scope (tenant_id dataset_id : text) (x : dataset) : bool :=
  bool_decide (ds_tenant x = tenant_id) && bool_decide (ds_id x = dataset_id).
Definition run_scope (tenant_id run_id : text) (x : run_doc) : bool :=
  bool_decide (ru_tenant x = tenant_id) && bool_decide (ru_id x = run_id).
Definition benchmark_scope (tenant_id benchmark_id : text) (x : benchmark) : bool :=
  bool_decide (be_tenant x = tenant_id) && bool_decide (be_id x = benchmark_id).

(** [sort(..., -1)], newest first; equal dates keep their order. *)
Definition newest {A} (date : A -> Z) (l : list A) : list A := py_sorted (fun a b => date b <=? date a) l.

(** ** Datasets *)

(** [_require_admin]; [caller] is the identity bound to the request. *)
Definition require_admin (caller : option auth_identity) : eprog auth_identity :=
  match caller with
  | Some i => if identity_is_admin i then pret i else praise EvalAccessDenied
  | None => praise EvalAccessDenied
  end.

Definition no_dataset {A} (dataset_id : text) : eprog A :=
  praise (EvalNotFound (lit "No eval dataset " ++ repr (JStr dataset_id))).

Definition normalized_items (items : json) : eprog (list golden_item) :=
  plift (require_bounded_items items (eval_max_dataset_bytes cfg)) ;;~
  fresh <~ interact item_uuid_at;
  plift (normalize_items fresh items (eval_max_dataset_items cfg) (eval_max_query_length cfg)).

Definition named (name : json) : eprog text :=
  o <~ plift (bounded_metadata name "name" (eval_max_name_length cfg));
  match o with Some n => pret n | None => praise (EvalValidationError (lit "A dataset needs a name")) end.

Definition create_dataset (caller : option auth_identity) (name description items : json) : eprog dataset :=
  identity <~ require_admin caller;
  o <~ plift (bounded_metadata name "name" (eval_max_name_length cfg));
  normalized_description <~ plift (bounded_metadata description "description" (eval_max_query_length cfg));
  match o with
  | None => praise (EvalValidationError (lit "A dataset needs a name"))
  | Some normalized_name =>
      normalized <~ normalized_items items;
      timestamp <~ now_;
      dataset_id <~ uuid4_;
      let document := mkDataset dataset_id (ai_tenant_id identity) normalized_name normalized_description timestamp timestamp
        (Some INITIAL_DATASET_VERSION) (Some (dataset_fingerprint normalized)) normalized in
      insert_dataset (document {{ ds_created ::= stored }} {{ ds_updated ::= stored }}) ;;~ pret document
  end.

Definition parsed_import (content : json) (format : text) : eprog (list golden_item) :=
  fresh <~ interact item_uuid_at;
  plift (as_eval_error (parse_golden_set fresh content format (eval_max_dataset_bytes cfg)
                          (eval_max_dataset_items cfg) (eval_max_query_length cfg))).

Definition import_dataset (caller : option auth_identity) (name description content : json) (format : text) : eprog dataset :=
  items <~ parsed_import content format;
  create_dataset caller name description (JArr (map item_json items)).

Definition validate_import (caller : option auth_identity) (content : json) (format : text) : eprog report :=
  require_admin caller ;;~
  fresh <~ interact item_uuid_at;
  plift (validate_golden_set fresh content format (eval_max_dataset_bytes cfg) (eval_max_dataset_items cfg)
           (eval_max_query_length cfg)).

Definition parse_import (caller : option auth_identity) (content : json) (format : text) : eprog (list golden_item) :=
  require_admin caller ;;~ parsed_import content format.

(** [_normalize_dataset]: the version and the fingerprint of an older document. *)
Definition truthy_sha (x : dataset) : bool := match ds_sha256 x with Some (_ :: _) => true | _ => false end.
Definition truthy_version (x : dataset) : bool := match ds_version x with Some v => negb (v =? 0) | None => false end.
Definition normalize_dataset (x : dataset) : dataset :=
  if truthy_sha x && truthy_version x then x
  else x {{ ds_version := Some (if truthy_version x then default INITIAL_DATASET_VERSION (ds_version x)
                                else INITIAL_DATASET_VERSION) }}
         {{ ds_sha256 := Some (if truthy_sha x then default [] (ds_sha256 x) else dataset_fingerprint (ds_items x)) }}.

(** The time of the newest run of a dataset. *)
Definition last_run_times (rows : list run_doc) (dataset_id : text) : option Z :=
  ru_started <$> List.find (fun r => bool_decide (ru_dataset r = dataset_id)) (newest ru_started rows).

Record dataset_row := mkDatasetRow {
  dr_id : text; dr_name : text; dr_description : option text; dr_item_count : Z; dr_version : option Z;
  dr_sha256 : option text; dr_created : Z; dr_updated : Z; dr_last_run : option Z
}.

Definition dataset_row_of (runs : list run_doc) (x : dataset) : dataset_row :=
  let row := normalize_dataset x in
  mkDatasetRow (ds_id row) (ds_name row) (ds_description row) (zlen (ds_items row)) (ds_version row) (ds_sha256 row)
    (ds_created row) (ds_updated row) (last_run_times runs (ds_id row)).

Definition list_datasets (caller : option auth_identity) : eprog (list dataset_row) :=
  identity <~ require_admin caller;
  datasets <~ query_datasets (fun x => bool_decide (ds_tenant x = ai_tenant_id identity));
  runs <~ query_runs (fun x => bool_decide (ru_tenant x = ai_tenant_id identity));
  pret (map (dataset_row_of runs) (newest ds_created datasets)).

Definition get_dataset (caller : option auth_identity) (dataset_id : text) : eprog dataset :=
  identity <~ require_admin caller;
  o <~ find_dataset (dataset_scope (ai_tenant_id identity) dataset_id);
  match o with None => no_dataset dataset_id | Some document => pret (normalize_dataset document) end.

(** The new content, version and fingerprint of an update. *)
Record dataset_changes := mkChanges {
  ch_updated : Z; ch_name : option text; ch_description : option (option text); ch_items : option (list golden_item);
  ch_version : Z; ch_sha256 : text
}.
Definition apply_changes (c : dataset_changes) (x : dataset) : dataset :=
  x {{ ds_updated := stored (ch_updated c) }} {{ ds_name := default (ds_name x) (ch_name c) }}
    {{ ds_description := default (ds_description x) (ch_description c) }}
    {{ ds_items := default (ds_items x) (ch_items c) }} {{ ds_version := Some (ch_version c) }}
    {{ ds_sha256 := Some (ch_sha256 c) }}.

(** The fields [dataset_version] and [dataset_sha256] of the current document. *)
Definition current_version (x : dataset) : Z := default INITIAL_DATASET_VERSION (ds_version x).
Definition current_sha256 (x : dataset) : text := default [] (ds_sha256 x).

Definition update_dataset (caller : option auth_identity) (dataset_id : text) (name description items : json) : eprog dataset :=
  identity <~ require_admin caller;
  let scope := dataset_scope (ai_tenant_id identity) dataset_id in
  found <~ find_dataset scope;
  match found with
  | None => no_dataset dataset_id
  | Some document =>
      let current := normalize_dataset document in
      now <~ now_;
      new_name <~ (if is_none name then pret None else n <~ named name; pret (Some n));
      new_description <~ (if is_none description then pret None
                          else o <~ plift (bounded_metadata description "description" (eval_max_query_length cfg));
                               pret (Some o));
      new_items <~ (if is_none items then pret None else l <~ normalized_items items; pret (Some l));
      let changes :=
        match new_items with
        | Some normalized =>
            let fingerprint := dataset_fingerprint normalized in
            mkChanges now new_name new_description (Some normalized)
              (if bool_decide (fingerprint = current_sha256 current) then current_version current
               else current_version current + 1) fingerprint
        | None => mkChanges now new_name new_description None (current_version current) (current_sha256 current)
        end in
      updated <~ update_datasets scope (apply_changes changes);
      if updated : bool then get_dataset caller dataset_id else no_dataset dataset_id
  end.

Definition delete_dataset (caller : option auth_identity) (dataset_id : text) : eprog text :=
  identity <~ require_admin caller;
  deleted <~ delete_datasets (dataset_scope (ai_tenant_id identity) dataset_id);
  if deleted : bool then pret dataset_id else no_dataset dataset_id.

(** The startup migration: the documents that lack a field, one after the other, each
    addressed by its identity. *)
Fixpoint backfill_rows (rows : list dataset) (migrated : Z) : eprog Z :=
  match rows with
  | [] => pret migrated
  | row :: rows =>
      let normalized := normalize_dataset row in
      update_datasets (fun x => bool_decide (ds_id x = ds_id row) && bool_decide (ds_tenant x = ds_tenant row))
        (fun x => x {{ ds_version := ds_version normalized }} {{ ds_sha256 := ds_sha256 normalized }}) ;;~
      backfill_rows rows (migrated + 1)
  end.
Definition backfill_dataset_fingerprints : eprog Z :=
  rows <~ query_datasets (fun x => negb (truthy_sha x && truthy_version x));
  backfill_rows rows 0.

(** ** Runs *)

Definition create_run (caller : option auth_identity) (dataset_id : text) (config_snapshot : obj) (match_mode mode : text)
    (dataset_version : option Z) (dataset_sha256 pipeline_mode benchmark_id owner_id : option text) : eprog run_doc :=
  identity <~ require_admin caller;
  now <~ now_;
  run_id <~ uuid4_;
  let document := mkRun run_id dataset_id dataset_version dataset_sha256 (ai_tenant_id identity) now None RUNNING match_mode
    mode pipeline_mode benchmark_id config_snapshot None [] [] None
    (Some (new_lease owner_id now (eval_lease_seconds cfg))) None in
  insert_run (document {{ ru_started ::= stored }} {{ ru_lease ::= fmap stored_lease }}) ;;~ pret document.

Definition record_label_validation (run_id tenant_id : text) (validation : obj) : eprog unit :=
  update_runs (run_scope tenant_id run_id) (fun x => x {{ ru_validation := Some validation }}) ;;~ pret tt.

Definition append_item_result (run_id tenant_id : text) (row : obj) : eprog unit :=
  update_runs (run_scope tenant_id run_id) (fun x => x {{ ru_per_item ::= (.++ [row]) }}) ;;~ pret tt.

Definition finish_run (run_id tenant_id : text) (status : run_status) (results : obj) (error : option text) : eprog unit :=
  now <~ now_;
  update_runs (run_scope tenant_id run_id)
    (fun x => x {{ ru_status := status }} {{ ru_results := results }} {{ ru_error := error }}
                {{ ru_finished := Some (stored now) }}) ;;~ pret tt.

(** A lease is renewed by its owner, while the run is running. *)
Definition renewed (owner_id : text) (now : Z) (l : option lease) : option lease :=
  if in_memory cfg then Some (new_lease (Some owner_id) now (eval_lease_seconds cfg))
  else (fun l => l {{ le_heartbeat := stored now }}
                   {{ le_expires := Some (stored (lease_expiry now (eval_lease_seconds cfg))) }}) <$> l.

Definition heartbeat_run (run_id tenant_id owner_id : text) : eprog bool :=
  now <~ now_;
  update_runs (fun x => run_scope tenant_id run_id x && bool_decide (ru_status x = RUNNING) && owned_by owner_id (ru_lease x))
    (fun x => x {{ ru_lease ::= renewed owner_id now }}).

(** A run is claimed when its lease has expired by then. *)
Definition claim_stale_run (row : run_doc) (owner_id : text) : eprog (option run_doc) :=
  now <~ now_;
  if lease_holds (ru_lease row) now then pret None
  else
    claim_runs (fun x => run_scope (ru_tenant row) (ru_id row) x && bool_decide (ru_status x = RUNNING)
                         && negb (lease_holds (ru_lease x) (stored now)))
      (fun x => x {{ ru_lease := Some (stored_lease (new_lease (Some owner_id) now (eval_lease_seconds cfg))) }}
                  {{ ru_recovery := Some (owner_id, stored now) }}).

Definition INTERRUPTED_ERROR : text := lit "Eval run interrupted after its worker lease expired".

Definition interrupt_claimed_run (run : run_doc) (owner_id : text) : eprog bool :=
  now <~ now_;
  update_runs (fun x => run_scope (ru_tenant run) (ru_id run) x && bool_decide (ru_status x = RUNNING)
                        && owned_by owner_id (ru_lease x))
    (fun x => x {{ ru_status := INTERRUPTED }} {{ ru_results := [] }} {{ ru_error := Some INTERRUPTED_ERROR }}
                {{ ru_finished := Some (stored now) }}).

Fixpoint recover_rows (owner_id : text) (rows recovered : list run_doc) : eprog (list run_doc) :=
  match rows with
  | [] => pret recovered
  | row :: rows =>
      o <~ claim_stale_run row owner_id;
      match o with
      | None => recover_rows owner_id rows recovered
      | Some claimed =>
          closed <~ interrupt_claimed_run claimed owner_id;
          recover_rows owner_id rows (if closed : bool then recovered ++ [claimed] else recovered)
      end
  end.
Definition recover_stale_runs (owner_id : text) : eprog (list run_doc) :=
  rows <~ query_runs (fun x => bool_decide (ru_status x = RUNNING));
  recover_rows owner_id rows [].

Definition capped (limit : Z) : Z :=
  Z.max 1 (Z.min (if limit =? 0 then DEFAULT_RUN_LIMIT else limit) MAX_RUN_LIMIT).
Definition of_dataset (dataset_id : option text) (x : text) : bool :=
  match dataset_id with None | Some [] => true | Some t => bool_decide (x = t) end.

(** [_normalize_run]: an older snapshot is of version 1. *)
Definition normalize_run (x : run_doc) : run_doc :=
  match obj_get (ru_snapshot x) "snapshot_version" with
  | None => x {{ ru_snapshot ::= cons ("snapshot_version", JInt 1) }}
  | Some _ => x
  end.

Definition list_runs (caller : option auth_identity) (dataset_id : option text) (limit : Z) : eprog (list run_doc) :=
  identity <~ require_admin caller;
  rows <~ query_runs (fun x => bool_decide (ru_tenant x = ai_tenant_id identity) && of_dataset dataset_id (ru_dataset x));
  pret (map (fun x => (normalize_run x) {{ ru_per_item := [] }}) (limited (capped limit) (newest ru_started rows))).

Definition no_run {A} (run_id : text) : eprog A := praise (EvalNotFound (lit "No eval run " ++ repr (JStr run_id))).

Definition get_run (caller : option auth_identity) (run_id : text) : eprog run_doc :=
  identity <~ require_admin caller;
  o <~ find_run (run_scope (ai_tenant_id identity) run_id);
  match o with None => no_run run_id | Some document => pret (normalize_run document) end.

(** The rows of the wanted runs, the last of an identifier, in the order asked for. *)
Fixpoint by_ids (rows : list run_doc) (ids : list text) : outcome text (list run_doc) :=
  match ids with
  | [] => Ok []
  | i :: ids =>
      match List.find (fun x => bool_decide (ru_id x = i)) (reverse rows), by_ids rows ids with
      | Some x, Ok l => Ok (normalize_run x :: l)
      | Some _, Raise e => Raise e
      | None, _ => Raise i
      end
  end.

Definition get_runs (caller : option auth_identity) (run_ids : list text) : eprog (list run_doc) :=
  identity <~ require_admin caller;
  match dedupe (List.filter (fun t => negb (bool_decide (t = []))) run_ids) with
  | [] => pret []
  | ordered_ids =>
      if MAX_RUN_LIMIT <? zlen ordered_ids
      then praise (EvalValidationError (lit "At most " ++ show MAX_RUN_LIMIT ++ lit " eval runs can be fetched at once"))
      else
        rows <~ query_runs (fun x => bool_decide (ru_tenant x = ai_tenant_id identity) && bool_decide (ru_id x ∈ ordered_ids));
        match by_ids rows ordered_ids with Ok l => pret l | Raise missing => no_run missing end
  end.

(** ** Benchmarks *)

Definition create_benchmark_run (caller : option auth_identity) (dataset_id : text) (phases : list phase) (progress : obj)
    (dataset_version : option Z) (dataset_sha256 : option text) (dataset_snapshot : option (list golden_item))
    (manifest operational_metrics : option obj) (owner_id profile : option text) : eprog benchmark :=
  identity <~ require_admin caller;
  benchmark_id <~ uuid4_;
  created <~ now_;
  now <~ now_;
  let document := mkBenchmark benchmark_id dataset_id dataset_version dataset_sha256 dataset_snapshot (ai_tenant_id identity)
    created None None QUEUED profile phases progress manifest operational_metrics None
    (Some (new_lease owner_id now (eval_lease_seconds cfg))) in
  insert_benchmark (document {{ be_created ::= stored }} {{ be_lease ::= fmap stored_lease }}) ;;~ pret document.

Definition record_benchmark_operational_metrics (benchmark_id tenant_id : text) (operational_metrics : obj) : eprog unit :=
  update_benchmarks (benchmark_scope tenant_id benchmark_id) (fun x => x {{ be_metrics := Some operational_metrics }}) ;;~
  pret tt.

Definition record_benchmark_progress (benchmark_id tenant_id : text) (status : run_status) (phases : list phase) (progress : obj)
    (started : bool) : eprog unit :=
  now <~ (if started then t <~ now_; pret (Some t) else pret None);
  update_benchmarks (benchmark_scope tenant_id benchmark_id)
    (fun x => x {{ be_status := status }} {{ be_phases := phases }} {{ be_progress := progress }}
                {{ be_started := match now with Some t => Some (stored t) | None => be_started x end }}) ;;~ pret tt.

Definition finish_benchmark_run (benchmark_id tenant_id : text) (status : run_status) (phases : list phase) (progress : obj)
    (error : option text) : eprog unit :=
  now <~ now_;
  update_benchmarks (benchmark_scope tenant_id benchmark_id)
    (fun x => x {{ be_status := status }} {{ be_phases := phases }} {{ be_progress := progress }} {{ be_error := error }}
                {{ be_finished := Some (stored now) }}) ;;~ pret tt.

Definition active (s : run_status) : bool := match s with QUEUED | RUNNING => true | _ => false end.

(** On MongoDB the status of the document is not part of the filter. *)
Definition heartbeat_benchmark (benchmark_id tenant_id owner_id : text) : eprog bool :=
  now <~ now_;
  update_benchmarks (fun x => benchmark_scope tenant_id benchmark_id x && (negb (in_memory cfg) || active (be_status x))
                              && owned_by owner_id (be_lease x))
    (fun x => x {{ be_lease ::= renewed owner_id now }}).

Definition active_benchmarks : eprog (list benchmark) :=
  running <~ query_benchmarks (fun x => bool_decide (be_status x = RUNNING));
  queued <~ query_benchmarks (fun x => bool_decide (be_status x = QUEUED));
  pret (running ++ queued).

Definition stale_benchmarks : eprog (list benchmark) :=
  now <~ now_;
  rows <~ active_benchmarks;
  pret (List.filter (fun x => negb (lease_holds (be_lease x) now)) rows).

Definition DEFAULT_PROGRESS : obj :=
  [("current_phase", JNull); ("items_total", JInt 0); ("items_completed", JInt 0); ("items_in_flight", JInt 0);
   ("items_succeeded", JInt 0); ("items_guardrail_blocked", JInt 0); ("items_failed", JInt 0); ("items_timed_out", JInt 0);
   ("phase_started_at", JNull); ("last_progress_at", JNull)].
Definition normalize_benchmark (x : benchmark) : benchmark := x {{ be_progress := obj_update DEFAULT_PROGRESS (be_progress x) }}.

Definition list_benchmark_runs (caller : option auth_identity) (dataset_id : option text) (limit : Z) : eprog (list benchmark) :=
  identity <~ require_admin caller;
  rows <~ query_benchmarks (fun x => bool_decide (be_tenant x = ai_tenant_id identity) && of_dataset dataset_id (be_dataset x));
  pret (map normalize_benchmark (limited (capped limit) (newest be_created rows))).

Definition get_benchmark_run (caller : option auth_identity) (benchmark_id : text) : eprog benchmark :=
  identity <~ require_admin caller;
  o <~ find_benchmark (benchmark_scope (ai_tenant_id identity) benchmark_id);
  match o with
  | None => praise (EvalNotFound (lit "No benchmark run " ++ repr (JStr benchmark_id)))
  | Some document => pret (normalize_benchmark document)
  end.
End Store.
