(* ===== verification/EvalSafety.v ===== *)
(** * What the evaluation store guarantees

    Theorems about [EvalStore], for any number of replicas whose calls of the database
    interleave: a tenant's evaluation data is changed and seen only by its own
    administrators, a stale run is recovered by at most one replica, and a recovery that is
    not disturbed closes every stale run; and for one replica: the version of a dataset
    identifies its content. *)

From Stdlib Require Import QArith.
From stdpp Require Import base strings list sets gmap sorting.
From S2P Require Import Prelude PyValue Base64 Auth Interleaving MemoryNormalize TextWindow LlmPrompts RetrievalMetrics GoldenSet EvalStore.

Local Open Scope string_scope.
Local Open Scope list_scope.
Local Open Scope Z_scope.

(** ** Operations of a tenant *)

(** What a request of a caller, or the background task of one of its runs, asks of the store. *)
Inductive store_op :=
  | OCreateDataset (name description items : json)
  | OImportDataset (name description content : json) (format : text)
  | OValidateImport (content : json) (format : text)
  | OParseImport (content : json) (format : text)
  | OListDatasets
  | OGetDataset (dataset_id : text)
  | OUpdateDataset (dataset_id : text) (name description items : json)
  | ODeleteDataset (dataset_id : text)
  | OCreateRun (dataset_id : text) (snapshot : obj) (match_mode mode : text) (version : option Z)
      (sha256 pipeline benchmark owner : option text)
  | ORecordLabels (run_id : text) (validation : obj)
  | OAppendItem (run_id : text) (row : obj)
  | OFinishRun (run_id : text) (status : run_status) (results : obj) (error : option text)
  | OHeartbeatRun (run_id owner : text)
  | OListRuns (dataset_id : option text) (limit : Z)
  | OGetRun (run_id : text)
  | OGetRuns (run_ids : list text)
  | OCreateBenchmark (dataset_id : text) (phases : list phase) (progress : obj) (version : option Z) (sha256 : option text)
      (snapshot : option (list golden_item)) (manifest metrics : option obj) (owner profile : option text)
  | ORecordMetrics (benchmark_id : text) (metrics : obj)
  | ORecordProgress (benchmark_id : text) (status : run_status) (phases : list phase) (progress : obj) (started : bool)
  | OFinishBenchmark (benchmark_id : text) (status : run_status) (phases : list phase) (progress : obj) (error : option text)
  | OHeartbeatBenchmark (benchmark_id owner : text)
  | OListBenchmarks (dataset_id : option text) (limit : Z)
  | OGetBenchmark (benchmark_id : text).

(** The documents a reply shows. *)
Inductive store_reply :=
  | RDone
  | RDatasets (l : list dataset)
  | RDatasetRows (l : list dataset_row)
  | RRuns (l : list run_doc)
  | RBenchmarks (l : list benchmark).

Section Perform.
Context `{PyText} `{JsonText} `{CompactJson} `{Fingerprint} `{EvalEnv}.
Context (cfg : eval_config).

Definition silent {A} (p : prog eval_db A) : prog eval_db store_reply := p ;;~ pret RDone.

(** A background task acts for the identity its run was opened with. *)
Definition perform (i : auth_identity) (op : store_op) : prog eval_db store_reply :=
  let t := ai_tenant_id i in
  match op with
  | OCreateDataset name description items => x <~ create_dataset cfg (Some i) name description items; pret (RDatasets [x])
  | OImportDataset name description content format =>
      x <~ import_dataset cfg (Some i) name description content format; pret (RDatasets [x])
  | OValidateImport content format => silent (validate_import cfg (Some i) content format)
  | OParseImport content format => silent (parse_import cfg (Some i) content format)
  | OListDatasets => l <~ list_datasets cfg (Some i); pret (RDatasetRows l)
  | OGetDataset dataset_id => x <~ get_dataset cfg (Some i) dataset_id; pret (RDatasets [x])
  | OUpdateDataset dataset_id name description items =>
      x <~ update_dataset cfg (Some i) dataset_id name description items; pret (RDatasets [x])
  | ODeleteDataset dataset_id => silent (delete_dataset cfg (Some i) dataset_id)
  | OCreateRun dataset_id snapshot match_mode mode version sha256 pipeline benchmark owner =>
      x <~ create_run cfg (Some i) dataset_id snapshot match_mode mode version sha256 pipeline benchmark owner;
      pret (RRuns [x])
  | ORecordLabels run_id validation => silent (record_label_validation cfg run_id t validation)
  | OAppendItem run_id row => silent (append_item_result cfg run_id t row)
  | OFinishRun run_id status results error => silent (finish_run cfg run_id t status results error)
  | OHeartbeatRun run_id owner => silent (heartbeat_run cfg run_id t owner)
  | OListRuns dataset_id limit => l <~ list_runs cfg (Some i) dataset_id limit; pret (RRuns l)
  | OGetRun run_id => x <~ get_run cfg (Some i) run_id; pret (RRuns [x])
  | OGetRuns run_ids => l <~ get_runs cfg (Some i) run_ids; pret (RRuns l)
  | OCreateBenchmark dataset_id phases progress version sha256 snapshot manifest metrics owner profile =>
      x <~ create_benchmark_run cfg (Some i) dataset_id phases progress version sha256 snapshot manifest metrics owner profile;
      pret (RBenchmarks [x])
  | ORecordMetrics benchmark_id metrics => silent (record_benchmark_operational_metrics cfg benchmark_id t metrics)
  | ORecordProgress benchmark_id status phases progress started =>
      silent (record_benchmark_progress cfg benchmark_id t status phases progress started)
  | OFinishBenchmark benchmark_id status phases progress error =>
      silent (finish_benchmark_run cfg benchmark_id t status phases progress error)
  | OHeartbeatBenchmark benchmark_id owner => silent (heartbeat_benchmark cfg benchmark_id t owner)
  | OListBenchmarks dataset_id limit => l <~ list_benchmark_runs cfg (Some i) dataset_id limit; pret (RBenchmarks l)
  | OGetBenchmark benchmark_id => x <~ get_benchmark_run cfg (Some i) benchmark_id; pret (RBenchmarks [x])
  end.

(** Every document of a reply is of the tenant; the listed rows are made of its datasets and
    its runs. *)
Definition shows_only (t : text) (r : store_reply) : Prop :=
  match r with
  | RDone => True
  | RDatasetRows l => exists datasets runs, Forall (fun x => ds_tenant x = t) datasets /\ Forall (fun x => ru_tenant x = t) runs
      /\ l = map (dataset_row_of runs) datasets
  | RDatasets l => Forall (fun x => ds_tenant x = t) l
  | RRuns l => Forall (fun x => ru_tenant x = t) l
  | RBenchmarks l => Forall (fun x => be_tenant x = t) l
  end.

(** A task closes a run and never reopens it. *)
Definition closing (op : store_op) : Prop :=
  match op with OFinishRun _ status _ _ => status <> RUNNING | _ => True end.

Definition writes_datasets (op : store_op) : bool :=
  match op with OCreateDataset _ _ _ | OImportDataset _ _ _ _ | OUpdateDataset _ _ _ _ | ODeleteDataset _ => true | _ => false end.

(** ** Programs and the changes they make *)

(** A run keeps its identity, and a closed run stays closed and keeps its lease. *)
Definition run_step (x y : run_doc) : Prop :=
  ru_tenant y = ru_tenant x /\ ru_id y = ru_id x /\
  (ru_status x <> RUNNING -> ru_status y <> RUNNING /\ ru_lease y = ru_lease x).

(** The changes of the data of tenant [t] that [R] must allow, those of its datasets only when
    [w] is set. *)
Record allows (R : eval_db -> eval_db -> Prop) (t : text) (w : bool) : Prop := {
  al_tick d : R d (d {{ db_tick ::= S }});
  al_add_dataset d x : w = true -> ds_tenant x = t -> R d (d {{ db_datasets ::= (.++ [x]) }} {{ db_tick ::= S }});
  al_dataset d p f : w = true -> (forall x, p x = true -> ds_tenant x = t) -> (forall x, ds_tenant (f x) = ds_tenant x) ->
    R d (d {{ db_datasets ::= update_first p f }} {{ db_tick ::= S }});
  al_drop_dataset d p : w = true -> (forall x, p x = true -> ds_tenant x = t) ->
    R d (d {{ db_datasets ::= delete_first p }} {{ db_tick ::= S }});
  al_add_run d x : ru_tenant x = t -> R d (d {{ db_runs ::= (.++ [x]) }} {{ db_tick ::= S }});
  al_run d p f : (forall x, p x = true -> ru_tenant x = t) -> (forall x, p x = true -> run_step x (f x)) ->
    R d (d {{ db_runs ::= update_first p f }} {{ db_tick ::= S }});
  al_add_benchmark d x : be_tenant x = t -> R d (d {{ db_benchmarks ::= (.++ [x]) }} {{ db_tick ::= S }});
  al_benchmark d p f : (forall x, p x = true -> be_tenant x = t) -> (forall x, be_tenant (f x) = be_tenant x) ->
    R d (d {{ db_benchmarks ::= update_first p f }} {{ db_tick ::= S }})
}.

Section Guarantee.
Context (S R : eval_db -> eval_db -> Prop) (t : text) (w : bool) (Hal : allows R t w).

(** Every action of [p] is a change [R] allows, and what it returns satisfies [P]. *)
Definition spec {A} (p : prog eval_db A) (P : A -> Prop) : Prop :=
  forall d, rg S R p d (fun o _ => match o with Ok a => P a | Raise _ => True end).

Lemma sp_ret {A} (a : A) (P : A -> Prop) : P a -> spec (pret a) P.
Proof. by intros Ha d. Qed.
Lemma sp_raise {A} e (P : A -> Prop) : spec (praise e) P.
Proof. by intros d. Qed.
Lemma sp_lift {A} (o : outcome py_exn A) (P : A -> Prop) : (forall a, o = Ok a -> P a) -> spec (plift o) P.
Proof. intros Ho d. cbn. destruct o; [by apply Ho|done]. Qed.
Lemma sp_bind {A B} (p : prog eval_db A) (k : A -> prog eval_db B) (P : A -> Prop) (Q : B -> Prop) :
  spec p P -> (forall a, P a -> spec (k a) Q) -> spec (pbind p k) Q.
Proof.
  intros Hp Hk d. apply rg_bind. eapply rg_conseq; [apply Hp|done|]. intros [a|e] d' Ha; [by apply Hk|done].
Qed.
Lemma sp_then {A B} (p : prog eval_db A) (k : A -> prog eval_db B) (Q : B -> Prop) :
  spec p (fun _ => True) -> (forall a, spec (k a) Q) -> spec (pbind p k) Q.
Proof. intros Hp Hk. eapply sp_bind; [exact Hp|]. intros a _. apply Hk. Qed.
Lemma spec_weak {A} (p : prog eval_db A) (P Q : A -> Prop) : spec p P -> (forall a, P a -> Q a) -> spec p Q.
Proof. intros Hp HPQ d. eapply rg_conseq; [apply Hp|done|]. intros [a|e] d'; auto. Qed.

Lemma sp_interact {A} (f : nat -> A) : spec (interact f) (fun _ => True).
Proof. intros d d' _. cbn. split; [|done]. exact (al_tick R t w Hal d'). Qed.

Lemma spec_call {A} (c : eff eval_db A) (P : A -> Prop) :
  (forall d, match (c d).1 with Ok a => P a | Raise _ => True end) ->
  (forall d, R d ((c d).2 {{ db_tick ::= Datatypes.S }})) -> spec (db_call cfg c) P.
Proof.
  intros HP HR d. apply rg_atomically. intros d' _. unfold db_step.
  destruct (if in_memory cfg then None else store_fault (db_tick d')) as [[applied m]|].
  - cbn. split; [|done]. destruct applied; [apply HR|exact (al_tick R t w Hal d')].
  - specialize (HP d'). specialize (HR d'). destruct (c d') as [o d2]. cbn in *. split; [apply HR|done].
Qed.

Lemma spec_gets {A} (f : eval_db -> A) (P : A -> Prop) : (forall d, P (f d)) -> spec (db_call cfg (gets f)) P.
Proof. intros Hf. apply spec_call; [intros d; apply Hf|]. intros d. exact (al_tick R t w Hal d). Qed.

(** *** The primitives *)

Definition dataset_of (x : dataset) : Prop := ds_tenant x = t.
Definition run_of (x : run_doc) : Prop := ru_tenant x = t.
Definition benchmark_of (x : benchmark) : Prop := be_tenant x = t.

Lemma spec_insert_dataset x : w = true -> dataset_of x -> spec (insert_dataset cfg x) (fun _ => True).
Proof. intros Hw Hx. apply spec_call; [done|]. intros d. exact (al_add_dataset R t w Hal d x Hw Hx). Qed.
Lemma spec_query_datasets p : (forall x, p x = true -> dataset_of x) -> spec (query_datasets cfg p) (Forall dataset_of).
Proof.
  intros Hp. apply spec_gets. intros d. apply Forall_forall. intros x Hx. apply list_elem_of_In, filter_In in Hx as [_ Hx].
  by apply Hp.
Qed.
Lemma spec_find_dataset p : (forall x, p x = true -> dataset_of x) ->
  spec (find_dataset cfg p) (fun o => forall x, o = Some x -> dataset_of x).
Proof. intros Hp. apply spec_gets. intros d x E. apply find_spec in E as [_ E]. by apply Hp. Qed.
Lemma spec_update_datasets p f : w = true -> (forall x, p x = true -> dataset_of x) -> (forall x, ds_tenant (f x) = ds_tenant x) ->
  spec (update_datasets cfg p f) (fun _ => True).
Proof. intros Hw Hp Hf. apply spec_call; [done|]. intros d. exact (al_dataset R t w Hal d p f Hw Hp Hf). Qed.
Lemma spec_delete_datasets p : w = true -> (forall x, p x = true -> dataset_of x) -> spec (delete_datasets cfg p) (fun _ => True).
Proof. intros Hw Hp. apply spec_call; [done|]. intros d. exact (al_drop_dataset R t w Hal d p Hw Hp). Qed.

Lemma spec_insert_run x : run_of x -> spec (insert_run cfg x) (fun _ => True).
Proof. intros Hx. apply spec_call; [done|]. intros d. exact (al_add_run R t w Hal d x Hx). Qed.
Lemma spec_query_runs p : (forall x, p x = true -> run_of x) -> spec (query_runs cfg p) (Forall run_of).
Proof.
  intros Hp. apply spec_gets. intros d. apply Forall_forall. intros x Hx. apply list_elem_of_In, filter_In in Hx as [_ Hx].
  by apply Hp.
Qed.
Lemma spec_find_run p : (forall x, p x = true -> run_of x) ->
  spec (find_run cfg p) (fun o => forall x, o = Some x -> run_of x).
Proof. intros Hp. apply spec_gets. intros d x E. apply find_spec in E as [_ E]. by apply Hp. Qed.
Lemma spec_update_runs p f : (forall x, p x = true -> run_of x) -> (forall x, p x = true -> run_step x (f x)) ->
  spec (update_runs cfg p f) (fun _ => True).
Proof. intros Hp Hf. apply spec_call; [done|]. intros d. exact (al_run R t w Hal d p f Hp Hf). Qed.

Lemma spec_insert_benchmark x : benchmark_of x -> spec (insert_benchmark cfg x) (fun _ => True).
Proof. intros Hx. apply spec_call; [done|]. intros d. exact (al_add_benchmark R t w Hal d x Hx). Qed.
Lemma spec_query_benchmarks p : (forall x, p x = true -> benchmark_of x) ->
  spec (query_benchmarks cfg p) (Forall benchmark_of).
Proof.
  intros Hp. apply spec_gets. intros d. apply Forall_forall. intros x Hx. apply list_elem_of_In, filter_In in Hx as [_ Hx].
  by apply Hp.
Qed.
Lemma spec_find_benchmark p : (forall x, p x = true -> benchmark_of x) ->
  spec (find_benchmark cfg p) (fun o => forall x, o = Some x -> benchmark_of x).
Proof. intros Hp. apply spec_gets. intros d x E. apply find_spec in E as [_ E]. by apply Hp. Qed.
Lemma spec_update_benchmarks p f : (forall x, p x = true -> benchmark_of x) -> (forall x, be_tenant (f x) = be_tenant x) ->
  spec (update_benchmarks cfg p f) (fun _ => True).
Proof. intros Hp Hf. apply spec_call; [done|]. intros d. exact (al_benchmark R t w Hal d p f Hp Hf). Qed.

Lemma scope_dataset id x : dataset_scope t id x = true -> dataset_of x.
Proof. unfold dataset_scope. by intros [E%bool_decide_eq_true _]%andb_true_iff. Qed.
Lemma scope_run id x : run_scope t id x = true -> run_of x.
Proof. unfold run_scope. by intros [E%bool_decide_eq_true _]%andb_true_iff. Qed.
Lemma scope_benchmark id x : benchmark_scope t id x = true -> benchmark_of x.
Proof. unfold benchmark_scope. by intros [E%bool_decide_eq_true _]%andb_true_iff. Qed.
End Guarantee.

(** *** The operations *)

Section Operations.
Context (S R : eval_db -> eval_db -> Prop) (i : auth_identity) (w : bool) (Hal : allows R (ai_tenant_id i) w).
Abbreviation t := (ai_tenant_id i).
Abbreviation ok p := (spec S R p (fun _ => True)).

Ltac walk :=
  repeat lazymatch goal with
    | |- spec _ _ (pbind _ _) _ => apply sp_then; [|intros ?]
    | |- spec _ _ (pret _) _ => apply sp_ret; try done
    | |- spec _ _ (praise _) _ => apply sp_raise
    | |- spec _ _ (plift _) _ => apply sp_lift; done
    | |- spec _ _ (interact _) _ => apply (sp_interact S R t w Hal)
    | |- spec _ _ now_ _ => apply (sp_interact S R t w Hal)
    | |- spec _ _ uuid4_ _ => apply (sp_interact S R t w Hal)
    | |- spec _ _ (no_dataset _) _ => apply sp_raise
    | |- spec _ _ (no_run _) _ => apply sp_raise
    | |- spec _ _ (match ?x with _ => _ end) _ => destruct x eqn:?
    end.

Lemma spec_admin (P : auth_identity -> Prop) : P i -> spec S R (require_admin (Some i)) P.
Proof. intros Hi. unfold require_admin. walk. Qed.

Lemma ok_normalized_items items : ok (normalized_items cfg items).
Proof. unfold normalized_items. walk. Qed.
Lemma ok_named name : ok (named cfg name).
Proof. unfold named. walk. Qed.
Lemma ok_parsed_import content format : ok (parsed_import cfg content format).
Proof. unfold parsed_import. walk. Qed.

Lemma spec_create_dataset name description items : w = true ->
  spec S R (create_dataset cfg (Some i) name description items) (dataset_of t).
Proof.
  intros Hw. unfold create_dataset. eapply sp_bind; [by apply (spec_admin (eq i))|]. intros _ <-. walk.
  - apply ok_normalized_items.
  - by apply (spec_insert_dataset S R t w Hal).
Qed.
Lemma spec_import_dataset name description content format : w = true ->
  spec S R (import_dataset cfg (Some i) name description content format) (dataset_of t).
Proof. intros Hw. eapply sp_bind; [apply ok_parsed_import|]. intros l _. by apply spec_create_dataset. Qed.
Lemma ok_validate_import content format : ok (validate_import cfg (Some i) content format).
Proof. unfold validate_import. apply sp_then; [by apply spec_admin|intros _]. walk. Qed.
Lemma ok_parse_import content format : ok (parse_import cfg (Some i) content format).
Proof. unfold parse_import. apply sp_then; [by apply spec_admin|intros _]. apply ok_parsed_import. Qed.

Lemma normalized_of x : dataset_of t x -> dataset_of t (normalize_dataset x).
Proof. unfold normalize_dataset. by destruct (_ && _). Qed.

Lemma spec_list_datasets : spec S R (list_datasets cfg (Some i)) (fun l => shows_only t (RDatasetRows l)).
Proof.
  unfold list_datasets. eapply sp_bind; [by apply (spec_admin (eq i))|]. intros _ <-. 
  eapply sp_bind; [eapply (spec_query_datasets S R t w Hal); intros x; by apply bool_decide_eq_true_1|]. intros datasets Hd.
  eapply sp_bind; [eapply (spec_query_runs S R t w Hal); intros x; by apply bool_decide_eq_true_1|]. intros runs Hr.
  apply sp_ret. exists (newest ds_created datasets), runs. split; [|done]. unfold newest. by rewrite py_sorted_perm.
Qed.

Lemma spec_get_dataset id : spec S R (get_dataset cfg (Some i) id) (dataset_of t).
Proof.
  unfold get_dataset. eapply sp_bind; [by apply (spec_admin (eq i))|]. intros _ <-.
  eapply sp_bind; [eapply (spec_find_dataset S R t w Hal), scope_dataset|]. intros [x|] Hx; [|walk].
  apply sp_ret, normalized_of. by apply Hx.
Qed.

Lemma spec_update_dataset id name description items : w = true ->
  spec S R (update_dataset cfg (Some i) id name description items) (dataset_of t).
Proof.
  intros Hw. unfold update_dataset. eapply sp_bind; [by apply (spec_admin (eq i))|]. intros _ <-.
  eapply sp_bind; [eapply (spec_find_dataset S R t w Hal), scope_dataset|]. intros [x|] _; [|walk].
  eapply sp_bind; [eapply sp_interact; eauto|]. intros now _.
  eapply (sp_bind S R _ _ (fun _ => True)); [destruct (is_none name); walk; apply ok_named|]. intros new_name _.
  eapply (sp_bind S R _ _ (fun _ => True)); [destruct (is_none description); walk|]. intros new_description _.
  eapply (sp_bind S R _ _ (fun _ => True)); [destruct (is_none items); walk; apply ok_normalized_items|]. intros l _.
  eapply sp_bind; [eapply (spec_update_datasets S R t w Hal); [done|apply scope_dataset|done]|]. intros [] _; [|walk].
  apply spec_get_dataset.
Qed.

Lemma ok_delete_dataset id : w = true -> ok (delete_dataset cfg (Some i) id).
Proof.
  intros Hw. unfold delete_dataset. eapply sp_bind; [by apply (spec_admin (eq i))|]. intros _ <-.
  eapply sp_bind; [apply (spec_delete_datasets S R t w Hal); [done|apply scope_dataset]|]. intros [] _; walk.
Qed.

Lemma spec_create_run dataset_id snapshot match_mode mode version sha256 pipeline benchmark owner :
  spec S R (create_run cfg (Some i) dataset_id snapshot match_mode mode version sha256 pipeline benchmark owner) (run_of t).
Proof.
  unfold create_run. eapply sp_bind; [by apply (spec_admin (eq i))|]. intros _ <-. walk. by apply (spec_insert_run S R t w Hal).
Qed.

Lemma ok_update_run id q f : (forall x, run_scope t id x && q x = true -> run_step x (f x)) ->
  ok (update_runs cfg (fun x => run_scope t id x && q x) f).
Proof. intros Hf. apply (spec_update_runs S R t w Hal); [|done]. intros x [E _]%andb_true_iff. by eapply scope_run. Qed.
Lemma ok_update_scope id f : (forall x, run_step x (f x)) -> ok (update_runs cfg (run_scope t id) f).
Proof. intros Hf. apply (spec_update_runs S R t w Hal); [by apply scope_run|auto]. Qed.
Lemma ok_update_benchmark p f : (forall x, p x = true -> be_tenant x = t) -> (forall x, be_tenant (f x) = be_tenant x) ->
  ok (update_benchmarks cfg p f).
Proof. intros Hp Hf. by apply (spec_update_benchmarks S R t w Hal). Qed.

(** The writes of the tasks in the background. *)
Lemma ok_tasks op : closing op ->
  match op with
  | ORecordLabels _ _ | OAppendItem _ _ | OFinishRun _ _ _ _ | OHeartbeatRun _ _ | ORecordMetrics _ _
  | ORecordProgress _ _ _ _ _ | OFinishBenchmark _ _ _ _ _ | OHeartbeatBenchmark _ _ => spec S R (perform i op) (shows_only t)
  | _ => True
  end.
Proof.
  intros Hc. destruct op; try done; unfold perform, silent, record_label_validation, append_item_result, finish_run,
    heartbeat_run, record_benchmark_operational_metrics, record_benchmark_progress, finish_benchmark_run, heartbeat_benchmark; walk.
  - by apply ok_update_scope.
  - by apply ok_update_scope.
  - by apply ok_update_scope.
  - apply (spec_update_runs S R t w Hal).
    + intros x [[E _]%andb_true_iff _]%andb_true_iff. by eapply scope_run.
    + intros x [[_ E%bool_decide_eq_true]%andb_true_iff _]%andb_true_iff. by split_and!.
  - by apply ok_update_benchmark; [apply scope_benchmark|].
  - by apply ok_update_benchmark; [apply scope_benchmark|].
  - by apply ok_update_benchmark; [apply scope_benchmark|].
  - apply ok_update_benchmark; [|done]. intros x [[E _]%andb_true_iff _]%andb_true_iff. by eapply scope_benchmark.
Qed.

Lemma forall_newest {A} (P : A -> Prop) (date : A -> Z) limit l : Forall P l -> Forall P (limited limit (newest date l)).
Proof.
  intros Hl. assert (Forall P (newest date l)) as Hn by (unfold newest; by rewrite py_sorted_perm).
  unfold limited. destruct (limit =? 0); [done|by apply Forall_take].
Qed.

Lemma normalize_run_of x : run_of t x -> run_of t (normalize_run x).
Proof. unfold normalize_run. by destruct (obj_get _ _). Qed.

Lemma spec_list_runs dataset_id limit : spec S R (list_runs cfg (Some i) dataset_id limit) (Forall (run_of t)).
Proof.
  unfold list_runs. eapply sp_bind; [by apply (spec_admin (eq i))|]. intros _ <-.
  eapply sp_bind; [eapply (spec_query_runs S R t w Hal)|].
  { by intros x [E%bool_decide_eq_true _]%andb_true_iff. }
  intros rows Hr. apply sp_ret, Forall_fmap. eapply Forall_impl; [by apply forall_newest|].
  intros x Hx. exact (normalize_run_of x Hx).
Qed.

Lemma spec_get_run id : spec S R (get_run cfg (Some i) id) (run_of t).
Proof.
  unfold get_run. eapply sp_bind; [by apply (spec_admin (eq i))|]. intros _ <-.
  eapply sp_bind; [eapply (spec_find_run S R t w Hal), scope_run|]. intros [x|] Hx; [|walk].
  apply sp_ret, normalize_run_of. by apply Hx.
Qed.

Lemma by_ids_of rows ids l : Forall (run_of t) rows -> by_ids rows ids = Ok l -> Forall (run_of t) l.
Proof.
  intros Hr. revert l. induction ids as [|j ids IH]; intros l; cbn; [by intros [= <-]|].
  destruct (List.find _ _) as [x|] eqn:E; [|done]. destruct (by_ids rows ids) as [k|]; [|done]. intros [= <-].
  constructor; [|by apply IH]. apply normalize_run_of. apply find_spec in E as [E _]. rewrite elem_of_reverse in E.
  by eapply Forall_forall in Hr.
Qed.

Lemma spec_get_runs ids : spec S R (get_runs cfg (Some i) ids) (Forall (run_of t)).
Proof.
  unfold get_runs. eapply sp_bind; [by apply (spec_admin (eq i))|]. intros _ <-.
  destruct (dedupe _) as [|j ordered]; [by walk|]. destruct (_ <? _); [walk|].
  eapply sp_bind; [eapply (spec_query_runs S R t w Hal)|].
  { by intros x [E%bool_decide_eq_true _]%andb_true_iff. }
  intros rows Hr. destruct (by_ids rows _) as [l|] eqn:E; [|walk]. apply sp_ret. by eapply by_ids_of.
Qed.

Lemma spec_create_benchmark dataset_id phases progress version sha256 snapshot manifest metrics owner profile :
  spec S R (create_benchmark_run cfg (Some i) dataset_id phases progress version sha256 snapshot manifest metrics owner profile)
    (benchmark_of t).
Proof.
  unfold create_benchmark_run. eapply sp_bind; [by apply (spec_admin (eq i))|]. intros _ <-. walk.
  by apply (spec_insert_benchmark S R t w Hal).
Qed.

Lemma spec_list_benchmarks dataset_id limit :
  spec S R (list_benchmark_runs cfg (Some i) dataset_id limit) (Forall (benchmark_of t)).
Proof.
  unfold list_benchmark_runs. eapply sp_bind; [by apply (spec_admin (eq i))|]. intros _ <-.
  eapply sp_bind; [eapply (spec_query_benchmarks S R t w Hal)|].
  { by intros x [E%bool_decide_eq_true _]%andb_true_iff. }
  intros rows Hr. apply sp_ret, Forall_fmap. eapply Forall_impl; [by apply forall_newest|]. done.
Qed.

Lemma spec_get_benchmark id : spec S R (get_benchmark_run cfg (Some i) id) (benchmark_of t).
Proof.
  unfold get_benchmark_run. eapply sp_bind; [by apply (spec_admin (eq i))|]. intros _ <-.
  eapply sp_bind; [eapply (spec_find_benchmark S R t w Hal), scope_benchmark|]. intros [x|] Hx; [|walk].
  apply sp_ret. exact (Hx x eq_refl).
Qed.

(** Every operation of the tenant makes changes its tenant may make, and shows its documents. *)
Lemma spec_perform op : (writes_datasets op = true -> w = true) -> closing op -> spec S R (perform i op) (shows_only t).
Proof.
  intros Hw Hc. pose proof (ok_tasks op Hc) as Hk.
  assert (forall A (p : prog eval_db A), ok p -> spec S R (silent p) (shows_only t)) as Hs.
  { intros A p Hp. apply sp_then; [done|]. intros _. by apply sp_ret. }
  destruct op; try exact Hk; cbn [perform]; try (by apply Hs; auto using ok_validate_import, ok_parse_import, ok_delete_dataset).
  all: eapply sp_bind; [first [by apply spec_create_dataset, Hw | by apply spec_import_dataset, Hw | apply spec_list_datasets
    | apply spec_get_dataset | by apply spec_update_dataset, Hw | apply spec_create_run | apply spec_list_runs | apply spec_get_run
    | apply spec_get_runs | apply spec_create_benchmark | apply spec_list_benchmarks | apply spec_get_benchmark]|].
  all: intros r Hr; apply sp_ret; first [done | by constructor].
Qed.
End Operations.

(** ** Tenants *)

(** The evaluation data of a tenant. *)
Definition view (T : text) (d : eval_db) : list dataset * list run_doc * list benchmark :=
  (List.filter (fun x => bool_decide (ds_tenant x = T)) (db_datasets d),
   List.filter (fun x => bool_decide (ru_tenant x = T)) (db_runs d),
   List.filter (fun x => bool_decide (be_tenant x = T)) (db_benchmarks d)).
Definition keeps (T : text) (d d' : eval_db) : Prop := view T d' = view T d.
#[local] Instance keeps_preorder T : PreOrder (keeps T).
Proof. split; [done|]. intros a b c Hab Hbc. unfold keeps in *. congruence. Qed.

Lemma filter_updated {A} (q p : A -> bool) f (l : list A) :
  (forall x, p x = true -> q x = false /\ q (f x) = false) -> List.filter q (update_first p f l) = List.filter q l.
Proof.
  intros Hp. induction l as [|x l IH]; cbn; [done|]. destruct (p x) eqn:E; cbn; [|by rewrite IH].
  destruct (Hp x E) as [-> ->]. done.
Qed.
Lemma filter_deleted {A} (q p : A -> bool) (l : list A) :
  (forall x, p x = true -> q x = false) -> List.filter q (delete_first p l) = List.filter q l.
Proof.
  intros Hp. induction l as [|x l IH]; cbn; [done|]. destruct (p x) eqn:E; cbn; [by rewrite (Hp x E)|by rewrite IH].
Qed.
Lemma filter_added {A} (q : A -> bool) (l : list A) x : q x = false -> List.filter q (l ++ [x]) = List.filter q l.
Proof. intros Hx. rewrite List.filter_app. cbn. by rewrite Hx, app_nil_r. Qed.

(** Changes of another tenant's data keep the view. *)
Lemma keeps_allows T t : t <> T -> allows (keeps T) t true.
Proof.
  intros Ht. split; unfold keeps, view; cbn.
  - done.
  - intros d x _ Hx. rewrite filter_added; [done|]. apply bool_decide_eq_false. congruence.
  - intros d p f _ Hp Hf. rewrite filter_updated; [done|]. intros x Hx. rewrite !bool_decide_eq_false, Hf, (Hp x Hx). done.
  - intros d p _ Hp. rewrite filter_deleted; [done|]. intros x Hx. rewrite bool_decide_eq_false, (Hp x Hx). done.
  - intros d x Hx. rewrite filter_added; [done|]. apply bool_decide_eq_false. congruence.
  - intros d p f Hp Hf. rewrite filter_updated; [done|]. intros x Hx. destruct (Hf x Hx) as (E & _).
    rewrite !bool_decide_eq_false, E, (Hp x Hx). done.
  - intros d x Hx. rewrite filter_added; [done|]. apply bool_decide_eq_false. congruence.
  - intros d p f Hp Hf. rewrite filter_updated; [done|]. intros x Hx. rewrite !bool_decide_eq_false, Hf, (Hp x Hx). done.
Qed.

(** The requests of users, as opposed to the writes of a task in the background. *)
Definition client (op : store_op) : bool :=
  match op with
  | ORecordLabels _ _ | OAppendItem _ _ | OFinishRun _ _ _ _ | OHeartbeatRun _ _ | ORecordMetrics _ _
  | ORecordProgress _ _ _ _ _ | OFinishBenchmark _ _ _ _ _ | OHeartbeatBenchmark _ _ => false
  | _ => true
  end.

(** A caller that is not an administrator gets no reply and changes nothing. *)
Lemma refused S T i op : identity_is_admin i = false -> client op = true -> spec S (keeps T) (perform i op) (fun _ => False).
Proof.
  intros Hi Hc.
  assert (forall A B (k : auth_identity -> prog eval_db A) (j : A -> prog eval_db B),
    spec S (keeps T) (pbind (pbind (require_admin (Some i)) k) j) (fun _ => False)) as Hr.
  { intros A B k j d. unfold require_admin. rewrite Hi. done. }
  destruct op; try done; try (apply Hr); unfold perform, silent.
  - intros d. unfold import_dataset, parsed_import. cbn. intros d' _. split; [done|].
    destruct (as_eval_error _); [|done]. unfold create_dataset, require_admin. by rewrite Hi.
Qed.

Definition anything (d d' : eval_db) : Prop := True.
#[local] Instance anything_preorder : PreOrder anything.
Proof. by split. Qed.

Lemma confined_spec S T i op :
  closing op -> ai_tenant_id i <> T \/ identity_is_admin i = false /\ client op = true ->
  spec S (keeps T) (perform i op)
    (fun r => shows_only (ai_tenant_id i) r /\ (client op = true -> identity_is_admin i = true)).
Proof.
  intros Hc Hi. destruct (identity_is_admin i) eqn:Ea.
  - eapply spec_weak; [apply (spec_perform S _ i true); [apply keeps_allows; naive_solver|done|done]|]. done.
  - destruct (client op) eqn:Ec; [by eapply spec_weak; [apply refused|]|].
    eapply spec_weak; [apply (spec_perform S _ i true); [apply keeps_allows; naive_solver|done|done]|]. done.
Qed.

(** C26: the evaluation data of a tenant belongs to its administrators.  Let any number of requests
    and background tasks run at once, their database calls interleaved and failing in any
    way.  If those of tenant [T] are requests of callers who are not administrators, then
    the datasets, runs and benchmarks of [T] are afterwards what they were; and in every
    case a reply shows a caller only documents of its own tenant, and only administrators
    get a reply.  The recovery of stale runs at start-up, which works across tenants, is not
    among these requests. *)
Theorem eval_tenant_confined (T : text) (calls : list (auth_identity * store_op)) (schedule : list nat) (d : eval_db) :
  Forall (fun c => closing c.2 /\ (ai_tenant_id c.1 <> T \/ identity_is_admin c.1 = false /\ client c.2 = true)) calls ->
  let '(l, d') := interleave schedule (map (fun c => perform c.1 c.2) calls, d) in
  view T d' = view T d /\
  forall n i op r, calls !! n = Some (i, op) -> l !! n = Some (Done (Ok r)) ->
    shows_only (ai_tenant_id i) r /\ (client op = true -> identity_is_admin i = true).
Proof.
  intros Hc.
  pose (Q := fun n (o : outcome py_exn store_reply) (_ : eval_db) =>
    match o with
    | Ok r => forall i op, calls !! n = Some (i, op) -> shows_only (ai_tenant_id i) r /\ (client op = true -> identity_is_admin i = true)
    | Raise _ => True
    end).
  pose proof (rg_interleave anything (keeps T) (fun _ => keeps T) Q schedule (map (fun c => perform c.1 c.2) calls) d) as Hi.
  destruct (interleave schedule _) as [l d']. destruct Hi as (_ & Hk & Hq).
  - done.
  - done.
  - intros n p Hp. rewrite list_lookup_fmap in Hp. apply fmap_Some in Hp as ([i op] & Hn & ->).
    rewrite Forall_lookup in Hc. destruct (Hc n _ Hn) as [Hcl Hi]. cbn in Hcl, Hi |- *.
    eapply rg_conseq; [by apply confined_spec|done|]. intros [r|e] d2; [|done]. intros Hr i' op' E. by simplify_eq.
  - split; [done|]. intros n i op r Hn Hl. apply (Hq n _ Hl _ _ Hn).
Qed.

(** ** Leases *)

(** Runs are never dropped, and every run takes steps. *)
Definition runs_step (d d' : eval_db) : Prop :=
  forall n x, db_runs d !! n = Some x -> exists y, db_runs d' !! n = Some y /\ run_step x y.

#[local] Instance run_step_preorder : PreOrder run_step.
Proof.
  split; [done|]. intros x y z (Ht & Hi & Hc) (Ht' & Hi' & Hc'). split_and!; [congruence|congruence|].
  intros Hx. destruct (Hc Hx) as [Hy El]. destruct (Hc' Hy) as [Hz El']. split; [done|congruence].
Qed.
#[export] Instance runs_step_preorder : PreOrder runs_step.
Proof.
  split; [intros d n x Hx; by exists x|]. intros a b c Hab Hbc n x Hx. destruct (Hab n x Hx) as (y & Hy & Hxy).
  destruct (Hbc n y Hy) as (z & Hz & Hyz). exists z. split; [done|by etrans].
Qed.

Lemma update_first_lookup {A} (p : A -> bool) f (l : list A) n x :
  l !! n = Some x -> exists y, update_first p f l !! n = Some y /\ (y = x \/ p x = true /\ y = f x).
Proof.
  revert n. induction l as [|z l IH]; intros n; cbn; [done|]. destruct (p z) eqn:E, n as [|n]; cbn.
  - intros [= ->]. exists (f x). auto.
  - intros Hx. exists x. auto.
  - intros [= ->]. exists x. auto.
  - apply IH.
Qed.

Lemma update_first_hit {A} (p : A -> bool) f (l : list A) :
  existsb p l = true -> exists n x, l !! n = Some x /\ p x = true /\ update_first p f l !! n = Some (f x).
Proof.
  induction l as [|z l IH]; cbn; [done|]. destruct (p z) eqn:E; cbn; intros Hl; [by exists 0%nat, z|].
  destruct (IH Hl) as (n & x & ? & ? & ?). by exists (Datatypes.S n), x.
Qed.

Lemma runs_step_allows t : allows runs_step t true.
Proof.
  split; intros d; try (intros; intros m z Hz; by exists z).
  - intros x _ m y Hy. exists y. split; [cbn; by apply lookup_app_l_Some|done].
  - intros p f _ Hf m x Hx. cbn. destruct (update_first_lookup p f _ _ _ Hx) as (y & Hy & [->|[Hp ->]]); [by exists x|].
    exists (f x). split; [done|by apply Hf].
Qed.

(** A run with the identity of [r] is closed, under a lease of [owner]. *)
Definition closed_by (owner : text) (d : eval_db) (r : run_doc) : Prop :=
  exists n x, db_runs d !! n = Some x /\ ru_tenant x = ru_tenant r /\ ru_id x = ru_id r /\ ru_status x <> RUNNING /\
    ru_lease x ≫= le_owner = Some owner.

Lemma closed_by_step owner d d' r : closed_by owner d r -> runs_step d d' -> closed_by owner d' r.
Proof.
  intros (n & x & Hx & Ht & Hi & Hs & Ho) Hd. destruct (Hd n x Hx) as (y & Hy & Ht' & Hi' & Hc).
  destruct (Hc Hs) as [Hs' Hl]. exists n, y. split_and!; try done; congruence.
Qed.

Abbreviation rgs p d Q := (rg runs_step runs_step p d Q).

Lemma rgs_spec {A} (p : prog eval_db A) P d :
  spec runs_step runs_step p P -> rgs p d (fun o d' => match o with Ok a => P a | Raise _ => True end /\ runs_step d d').
Proof. intros Hp. apply rg_reach; [apply _|done|apply Hp]. Qed.

Lemma spec_claim row owner : spec runs_step runs_step (claim_stale_run cfg row owner) (fun _ => True).
Proof.
  unfold claim_stale_run. apply sp_then; [apply (sp_interact _ _ [] _ (runs_step_allows _))|]. intros now.
  destruct (lease_holds _ _); [by apply sp_ret|]. apply (spec_call _ _ (ru_tenant row) _ (runs_step_allows _)); [done|].
  intros d. apply (al_run _ _ _ (runs_step_allows (ru_tenant row))).
  - intros x [[E _]%andb_true_iff _]%andb_true_iff. by eapply scope_run.
  - intros x [[_ E%bool_decide_eq_true]%andb_true_iff _]%andb_true_iff. by split_and!.
Qed.

Lemma rg_interrupt run owner d :
  rgs (interrupt_claimed_run cfg run owner) d
    (fun o d' => match o with Ok true => closed_by owner d' run | _ => True end /\ runs_step d d').
Proof.
  apply rg_reach; [apply _|done|]. unfold interrupt_claimed_run. apply rg_bind.
  intros d1 _. cbn. split; [apply (al_tick _ _ _ (runs_step_allows []))|]. apply rg_atomically. intros d2 _. unfold db_step.
  set (p := fun x => run_scope _ _ x && _ && _). set (f := fun x : run_doc => _).
  assert (runs_step d2 (d2 {{ db_runs ::= update_first p f }} {{ db_tick ::= Datatypes.S }})) as Hs.
  { apply (al_run _ _ _ (runs_step_allows (ru_tenant run))); subst p; cbn.
    - intros x [[E _]%andb_true_iff _]%andb_true_iff. by eapply scope_run.
    - intros x [[_ E%bool_decide_eq_true]%andb_true_iff _]%andb_true_iff. by split_and!. }
  destruct (if in_memory cfg then None else store_fault (db_tick d2)) as [[applied m]|]; cbn.
  - split; [|done]. destruct applied; [apply Hs|apply (al_tick _ _ _ (runs_step_allows []))].
  - split; [apply Hs|]. destruct (existsb p (db_runs d2)) eqn:E; [|done].
    destruct (update_first_hit p f _ E) as (n & x & Hx & Hp & Hu). exists n, (f x). cbn. split; [done|].
    subst p. cbn in Hp. apply andb_true_iff in Hp as [[Hp _]%andb_true_iff Ho%bool_decide_eq_true].
    unfold run_scope in Hp. apply andb_true_iff in Hp as [E1%bool_decide_eq_true E2%bool_decide_eq_true]. by split_and!.
Qed.

Lemma rg_recover_rows owner rows recovered d :
  Forall (closed_by owner d) recovered ->
  rgs (recover_rows cfg owner rows recovered) d
    (fun o d' => match o with Ok l => Forall (closed_by owner d') l | Raise _ => True end).
Proof.
  assert (forall d d' l, Forall (closed_by owner d) l -> runs_step d d' -> Forall (closed_by owner d') l) as Hmono.
  { intros d1 d2 l Hl Hs. eapply Forall_impl; [exact Hl|]. intros r Hr. by eapply closed_by_step. }
  revert recovered d. induction rows as [|row rows IH]; intros recovered d Hr; cbn [recover_rows]; [done|]. apply rg_bind.
  eapply rg_conseq; [apply rgs_spec, spec_claim|done|]. intros [[claimed|]|e] d1 [_ Hd1]; [|apply IH; by eapply Hmono|done].
  apply rg_bind. eapply rg_conseq; [apply rg_interrupt|done|]. intros [[]|e] d2 [Hc Hd2]; [| |done].
  - apply IH, Forall_app. split; [eapply Hmono; [exact Hr|by etrans]|by repeat constructor].
  - apply IH. eapply Hmono; [exact Hr|by etrans].
Qed.

Lemma rg_recover owner d :
  rgs (recover_stale_runs cfg owner) d
    (fun o d' => match o with Ok l => Forall (closed_by owner d') l | Raise _ => True end).
Proof.
  apply rg_bind. eapply rg_conseq; [|done|].
  - apply rgs_spec. apply (spec_gets _ _ [] _ (runs_step_allows _) _ (fun _ => True)). done.
  - intros [rows|e] d' _; [by apply rg_recover_rows|done].
Qed.

(** One replica recovers, another serves a request or writes for a task. *)
Inductive activity := Call (i : auth_identity) (op : store_op) | Recover (owner : text).
Definition act (a : activity) : prog eval_db (list run_doc) :=
  match a with
  | Call i op => perform i op ;;~ pret []
  | Recover owner => recover_stale_runs cfg owner
  end.

Definition identity_of (x : run_doc) : text * text := (ru_tenant x, ru_id x).

(** C27: a stale run is recovered once.  Whatever requests, tasks and recoveries of any number of
    replicas run at once, interleaved at their database calls, which may fail: a run that
    a recovery reports is closed from then on and leased to that replica; and when the stored
    runs have different identities, two replicas, whose owners differ, never both report the
    same run. *)
Theorem recovered_once (activities : list activity) (schedule : list nat) (d : eval_db) :
  Forall (fun a => match a with Call _ op => closing op | Recover _ => True end) activities ->
  let '(l, d') := interleave schedule (map act activities, d) in
  (forall n owner rs, activities !! n = Some (Recover owner) -> l !! n = Some (Done (Ok rs)) -> Forall (closed_by owner d') rs) /\
  (NoDup (map identity_of (db_runs d')) ->
   forall n m o1 o2 rs1 rs2 r1 r2, activities !! n = Some (Recover o1) -> activities !! m = Some (Recover o2) -> o1 <> o2 ->
     l !! n = Some (Done (Ok rs1)) -> l !! m = Some (Done (Ok rs2)) -> r1 ∈ rs1 -> r2 ∈ rs2 -> identity_of r1 <> identity_of r2).
Proof.
  intros Ha.
  pose (Q := fun n (o : outcome py_exn (list run_doc)) d =>
    match o with Ok rs => forall owner, activities !! n = Some (Recover owner) -> Forall (closed_by owner d) rs | Raise _ => True end).
  pose proof (rg_interleave runs_step runs_step (fun _ => runs_step) Q schedule (map act activities) d) as Hi.
  destruct (interleave schedule _) as [l d']. destruct Hi as (_ & _ & Hq).
  - done.
  - intros n [rs|e] d1 d2 Hr Hs; [|done]. intros owner Hn. eapply Forall_impl; [by apply Hr|]. intros r ?. by eapply closed_by_step.
  - intros n p Hp. rewrite list_lookup_fmap in Hp. apply fmap_Some in Hp as ([i op|owner] & Hn & ->); cbn [act].
    + rewrite Forall_lookup in Ha. specialize (Ha n _ Hn). cbn in Ha. apply rg_bind.
      eapply rg_conseq; [by apply (spec_perform _ _ i _ (runs_step_allows _))|done|].
      intros [r|e] d2 _; [|done]. cbn. congruence.
    + eapply rg_conseq; [apply rg_recover|done|]. intros [rs|e] d2 Hr; [|done]. intros owner' E. by simplify_eq.
  - assert (Hc : forall n owner rs, activities !! n = Some (Recover owner) -> l !! n = Some (Done (Ok rs)) -> Forall (closed_by owner d') rs).
    { intros n owner rs Hn Hl. by apply (Hq n _ Hl). }
    split; [done|]. intros Hu n m o1 o2 rs1 rs2 r1 r2 Hn Hm Ho Hl1 Hl2 Hr1 Hr2 E.
    pose proof (Hc _ _ _ Hn Hl1) as Hc1. pose proof (Hc _ _ _ Hm Hl2) as Hc2.
    rewrite Forall_forall in Hc1, Hc2. destruct (Hc1 _ Hr1) as (a & x & Hx & Hx1 & Hx2 & _ & Hxo).
    destruct (Hc2 _ Hr2) as (b & y & Hy & Hy1 & Hy2 & _ & Hyo).
    assert (x = y) as ->; [|congruence]. eapply (NoDup_map_inj identity_of); [exact Hu|by eapply list_elem_of_lookup_2..|].
    unfold identity_of in *. congruence.
Qed.

(** ** A recovery that is not disturbed *)

(** One document is updated where it stands. *)
Lemma update_first_none {A} (p : A -> bool) f (l : list A) : (forall x, x ∈ l -> p x = false) -> update_first p f l = l.
Proof.
  induction l as [|x l IH]; cbn; [done|]. intros Hl. rewrite (Hl x) by by left. rewrite IH; [done|].
  intros y Hy. apply Hl. by right.
Qed.

Lemma find_none {A} (p : A -> bool) (l : list A) : (forall x, x ∈ l -> p x = false) -> List.find p l = None.
Proof. induction l as [|x l IH]; cbn; [done|]. intros Hl. rewrite (Hl x) by by left. apply IH. intros y Hy. apply Hl. by right. Qed.

Lemma first_unique {A} (p : A -> bool) (l : list A) x :
  x ∈ l -> p x = true -> (forall y, y ∈ l -> p y = true -> y = x) -> List.find p l = Some x.
Proof.
  induction l as [|y l IH]; cbn; [by intros ?%elem_of_nil|]. intros Hx E Hu. destruct (p y) eqn:Ey.
  - f_equal. apply Hu; [by left|done].
  - apply elem_of_cons in Hx as [->|Hx]; [congruence|]. apply IH; [done|done|]. intros z Hz. apply Hu. by right.
Qed.

Lemma map_update_identity (p : run_doc -> bool) f (l : list run_doc) :
  (forall x, identity_of (f x) = identity_of x) -> map identity_of (update_first p f l) = map identity_of l.
Proof. apply update_first_map. Qed.

Lemma NoDup_filter_map {A B} (g : A -> B) (q : A -> bool) (l : list A) : NoDup (map g l) -> NoDup (map g (List.filter q l)).
Proof.
  induction l as [|x l IH]; cbn; [done|]. intros [Hx Hl]%NoDup_cons. destruct (q x); cbn; [|auto]. constructor; [|auto].
  rewrite list_elem_of_fmap. intros (y & E & Hy). apply Hx. rewrite list_elem_of_fmap. exists y. split; [done|].
  rewrite list_elem_of_In, filter_In, <- list_elem_of_In in Hy. apply Hy.
Qed.

Lemma scope_identity x y : run_scope (ru_tenant x) (ru_id x) y = true <-> identity_of y = identity_of x.
Proof.
  unfold run_scope, identity_of. rewrite andb_true_iff, !bool_decide_eq_true. split; [by intros [-> ->]|by intros [= -> ->]].
Qed.

Lemma stored_le t : stored cfg t <= t.
Proof. unfold stored, bson_date. destruct (in_memory cfg); [lia|]. pose proof (Z.mod_pos_bound t 1000). pose proof (Z.div_mod t 1000). lia. Qed.
Lemma stored_mono t u : t <= u -> stored cfg t <= stored cfg u.
Proof.
  unfold stored, bson_date. destruct (in_memory cfg); [done|]. intros Htu. pose proof (Z.div_le_mono t u 1000). lia.
Qed.
Lemma lease_later l t u : t <= u -> lease_holds l t = false -> lease_holds l u = false.
Proof. unfold lease_holds. destruct (lease_expires_at l); [|done]. rewrite !Z.ltb_ge. lia. Qed.

Section Undisturbed.
Context (quiet : in_memory cfg = true \/ forall n, store_fault n = None).
Context (monotone : forall n m, (n <= m)%nat -> now_at n <= now_at m).

Lemma run_call {A} (c : eff eval_db A) d : run (db_call cfg c) d = ((c d).1, (c d).2 {{ db_tick ::= Datatypes.S }}).
Proof.
  unfold db_call. rewrite run_atomically. unfold db_step.
  destruct quiet as [->|Hq]; [|rewrite Hq; destruct (in_memory cfg)]; by destruct (c d).
Qed.

(** What happens to the runs when [row] is recovered: nothing, or that one is interrupted. *)
Lemma recover_row owner row d :
  NoDup (map identity_of (db_runs d)) -> row ∈ db_runs d -> ru_status row = RUNNING ->
  exists o d', run (claim_stale_run cfg row owner) d = (Ok o, d') /\ (db_tick d <= db_tick d')%nat /\
  match o with
  | None => db_runs d' = db_runs d /\ lease_holds (ru_lease row) (stored cfg (now_at (db_tick d))) = true
  | Some claimed =>
      identity_of claimed = identity_of row /\ lease_holds (ru_lease row) (now_at (db_tick d)) = false /\
      exists d2, run (interrupt_claimed_run cfg claimed owner) d' = (Ok true, d2) /\ (db_tick d' <= db_tick d2)%nat /\
        map identity_of (db_runs d2) = map identity_of (db_runs d) /\
        (forall x, x ∈ db_runs d -> identity_of x <> identity_of row -> x ∈ db_runs d2) /\
        (exists y, y ∈ db_runs d2 /\ identity_of y = identity_of row /\ ru_status y = INTERRUPTED)
  end.
Proof.
  intros Hu Hrow Hrun. unfold claim_stale_run. rewrite run_bind. cbn [now_ interact run atomically].
  set (now := now_at (db_tick d)).
  destruct (lease_holds (ru_lease row) now) eqn:Eh.
  { cbn. do 2 eexists. split; [done|]. split; [cbn; lia|]. split; [done|].
    destruct (lease_holds (ru_lease row) (stored cfg now)) eqn:Es; [done|].
    rewrite (lease_later _ _ _ (stored_le now) Es) in Eh. done. }
  unfold claim_runs. rewrite run_call. cbn [fst snd]. set (p := fun x => _ && negb _). set (f := fun x : run_doc => _).
  destruct (lease_holds (ru_lease row) (stored cfg now)) eqn:Es.
  - assert (forall x, x ∈ db_runs d -> p x = false) as Hp.
    { intros x Hx. subst p. cbn. destruct (run_scope _ _ x) eqn:Esc; [|done]. apply scope_identity in Esc.
      rewrite (NoDup_map_inj identity_of _ x row Hu Hx Hrow Esc), Es. by rewrite andb_false_r. }
    do 2 eexists. split; [cbn; by rewrite (find_none p _ Hp)|]. cbn. rewrite (update_first_none p f _ Hp). split; [lia|done].
  - assert (p row = true) as Hp.
    { subst p. cbn. rewrite (proj2 (scope_identity row row)) by done. by rewrite Hrun, bool_decide_true, Es. }
    assert (forall x, x ∈ db_runs d -> p x = true -> x = row) as Hpu.
    { intros x Hx E. apply andb_true_iff in E as [[E _]%andb_true_iff _]. apply scope_identity in E. by eapply NoDup_map_inj. }
    do 2 eexists. split; [cbn; by rewrite (first_unique p _ row Hrow Hp Hpu)|]. cbn [db_tick]. split; [cbn; lia|].
    split; [done|]. split; [done|].
    set (d1 := d {{ db_tick ::= _ }} {{ db_runs ::= _ }} {{ db_tick ::= _ }}).
    assert (db_runs d1 = update_first p f (db_runs d)) as Er by done.
    assert (f row ∈ db_runs d1) as Hf by (rewrite Er; by apply update_first_unique).
    assert (NoDup (map identity_of (db_runs d1))) as Hu1 by (by rewrite Er, map_update_identity).
    unfold interrupt_claimed_run. rewrite run_bind. cbn [now_ interact run atomically].
    unfold update_runs. rewrite run_call. cbn [fst snd].
    set (q := fun x => run_scope _ _ x && _ && _). set (g := fun x : run_doc => _).
    assert (q (f row) = true) as Hq.
    { apply andb_true_iff. split; [apply andb_true_iff; split|]; [by apply (scope_identity (f row))|..].
      - by apply bool_decide_eq_true.
      - by apply bool_decide_eq_true. }
    assert (forall x, x ∈ db_runs d1 -> q x = true -> x = f row) as Hqu.
    { intros x Hx E. apply andb_true_iff in E as [[E _]%andb_true_iff _]. apply (scope_identity (f row)) in E.
      by eapply NoDup_map_inj. }
    eexists. split; [cbn; f_equal; f_equal; apply existsb_exists; exists (f row); by rewrite <- list_elem_of_In|].
    cbn [db_tick db_runs setf]. split; [cbn; lia|]. cbn. fold (db_runs d1). split; [|split].
    + rewrite map_update_identity by done. by rewrite map_update_identity.
    + intros x Hx Hne. apply update_first_other.
      * apply update_first_other; [done|]. destruct (p x) eqn:E; [|done]. by rewrite (Hpu x Hx E) in Hne.
      * destruct (q x) eqn:E; [|done]. apply andb_true_iff in E as [[E _]%andb_true_iff _]. by apply (scope_identity (f row)) in E.
    + exists (g (f row)). split; [|done]. by apply update_first_unique.
Qed.

Lemma recover_rows_run owner rows recovered d :
  NoDup (map identity_of (db_runs d)) -> NoDup (map identity_of rows) -> (forall x, x ∈ rows -> x ∈ db_runs d /\ ru_status x = RUNNING) ->
  exists rs d', run (recover_rows cfg owner rows recovered) d = (Ok rs, d') /\ (db_tick d <= db_tick d')%nat /\
    (forall x, x ∈ recovered -> x ∈ rs) /\
    (forall x, x ∈ db_runs d -> (forall r, r ∈ rows -> identity_of r <> identity_of x) -> x ∈ db_runs d') /\
    (forall row, row ∈ rows -> lease_holds (ru_lease row) (stored cfg (now_at (db_tick d))) = false ->
       (exists y, y ∈ db_runs d' /\ identity_of y = identity_of row /\ ru_status y = INTERRUPTED) /\
       exists r, r ∈ rs /\ identity_of r = identity_of row) /\
    (forall row, row ∈ rows -> lease_holds (ru_lease row) (now_at (db_tick d')) = true -> row ∈ db_runs d').
Proof.
  revert recovered d. induction rows as [|row rows IH]; intros recovered d Hu Hn Hr; cbn [recover_rows].
  { exists recovered, d. split; [done|]. split; [lia|]. split_and!; [done|auto|by intros x ?%elem_of_nil|by intros x ?%elem_of_nil]. }
  cbn [map] in Hn. apply NoDup_cons in Hn as [Hrow Hn]. destruct (Hr row) as [Hin Hrun]; [by left|].
  assert (forall r, r ∈ rows -> identity_of r <> identity_of row) as Hne.
  { intros r Hr' E. apply Hrow. rewrite list_elem_of_fmap. by exists r. }
  destruct (recover_row owner row d Hu Hin Hrun) as (o & d1 & E1 & Ht1 & Ho). rewrite run_bind, E1.
  destruct o as [claimed|].
  - destruct Ho as (Ec & Eh & d2 & E2 & Ht2 & Em & Hk & (y & Hy & Hyi & Hys)). rewrite run_bind, E2.
    destruct (IH (recovered ++ [claimed]) d2) as (rs & d3 & E3 & Ht3 & Hrec & Hkeep & Hclosed & Hheld).
    + by rewrite Em.
    + done.
    + intros x Hx. destruct (Hr x) as [Hxi Hxr]; [by right|]. split; [|done]. apply Hk; [done|by apply Hne].
    + exists rs, d3. rewrite E3. split; [done|]. split; [lia|]. split_and!.
      * intros x Hx. apply Hrec, elem_of_app. by left.
      * intros x Hx Hd. apply Hkeep; [apply Hk; [done|]|]; [|intros r Hr'; apply Hd; by right].
        intros E. apply (Hd row); [by left|done].
      * intros r [->|Hr']%elem_of_cons Hl.
        -- split; [|exists claimed; split; [|done]; apply Hrec, elem_of_app; right; by left].
           exists y. split; [|done]. apply Hkeep; [done|]. intros r Hr'. rewrite Hyi. by apply Hne.
        -- apply Hclosed; [done|]. eapply lease_later; [|exact Hl]. apply stored_mono, monotone. lia.
      * intros r [->|Hr']%elem_of_cons Hl; [|by apply Hheld]. exfalso.
        rewrite (lease_later _ (now_at (db_tick d)) (now_at (db_tick d3))) in Hl; [done| |done]. apply monotone. lia.
  - destruct Ho as [Er Eh]. destruct (IH recovered d1) as (rs & d2 & E2 & Ht2 & H1' & H2' & H3' & H4').
    + by rewrite Er.
    + done.
    + intros x Hx. rewrite Er. apply Hr. by right.
    + exists rs, d2. rewrite E2. split; [done|]. split; [lia|]. split; [done|]. split_and!.
      * intros x Hx Hd. apply H2'; [by rewrite Er|]. intros r Hr'. apply Hd. by right.
      * intros r [->|Hr']%elem_of_cons Hl; [congruence|]. apply H3'; [done|]. eapply lease_later; [|exact Hl].
        by apply stored_mono, monotone.
      * intros r [->|Hr']%elem_of_cons Hl; [|by apply H4']. apply H2'; [by rewrite Er|]. done.
Qed.

(** C29: recovery closes what is stale and nothing else.  While the database answers and no other
    replica interferes, a recovery ends with a list of runs, and every run that was running
    under a lease that had expired when it began is then interrupted and reported; a run
    that was closed, or whose lease still holds at the end, is untouched. *)
Theorem stale_runs_closed owner d :
  NoDup (map identity_of (db_runs d)) ->
  exists rs d', run (recover_stale_runs cfg owner) d = (Ok rs, d') /\
    (forall x, x ∈ db_runs d -> ru_status x = RUNNING -> lease_holds (ru_lease x) (stored cfg (now_at (db_tick d))) = false ->
       (exists y, y ∈ db_runs d' /\ identity_of y = identity_of x /\ ru_status y = INTERRUPTED) /\
       exists r, r ∈ rs /\ identity_of r = identity_of x) /\
    (forall x, x ∈ db_runs d -> ru_status x <> RUNNING \/ lease_holds (ru_lease x) (now_at (db_tick d')) = true -> x ∈ db_runs d').
Proof.
  intros Hu. unfold recover_stale_runs. rewrite run_bind. unfold query_runs. rewrite run_call. cbn [fst snd gets].
  set (rows := List.filter _ _). set (d1 := d {{ db_tick ::= _ }}).
  assert (forall x, x ∈ rows <-> x ∈ db_runs d /\ ru_status x = RUNNING) as Hrows.
  { intros x. unfold rows. rewrite list_elem_of_In, filter_In, <- list_elem_of_In, bool_decide_eq_true. done. }
  destruct (recover_rows_run owner rows [] d1) as (rs & d' & E & Ht & _ & Hk & Hc & Hh).
  - done.
  - apply (NoDup_filter_map identity_of), Hu.
  - intros x Hx. by apply Hrows.
  - exists rs, d'. split; [done|]. split.
    + intros x Hx Hs Hl. apply Hc; [by apply Hrows|]. eapply lease_later; [|exact Hl]. apply stored_mono, monotone. cbn. lia.
    + intros x Hx Hs. destruct (decide (ru_status x = RUNNING)) as [Er|Er].
      * destruct Hs as [?|Hs]; [done|]. apply Hh; [by apply Hrows|done].
      * apply Hk; [done|]. intros r Hr Eq. apply Hrows in Hr as [Hr Hrr]. by rewrite (NoDup_map_inj _ _ _ _ Hu Hr Hx Eq) in Hrr.
Qed.
End Undisturbed.

(** ** Versions *)

(** Nobody else writes datasets. *)
Definition still (d d' : eval_db) : Prop := db_datasets d' = db_datasets d /\ (db_tick d <= db_tick d')%nat.
#[local] Instance still_preorder : PreOrder still.
Proof. split; [by intros d|]. intros a b c [E1 L1] [E2 L2]. split; [congruence|lia]. Qed.

Lemma still_allows t : allows still t false.
Proof. by split; intros; split; cbn; try lia. Qed.

Abbreviation calm p d Q := (rg still anything p d Q).

Lemma calm_spec {A} (p : prog eval_db A) d (Q : outcome py_exn A -> eval_db -> Prop) :
  spec still still p (fun _ => True) -> (forall o d', still d d' -> Q o d') -> calm p d Q.
Proof.
  intros Hp HQ. eapply rg_conseq; [apply rg_reach; [apply _|done|apply Hp]|done|]. intros o d' [_ Hd]. by apply HQ.
Qed.
Lemma calm_then {A B} (p : prog eval_db A) (k : A -> prog eval_db B) d (Q : outcome py_exn B -> eval_db -> Prop) :
  spec still still p (fun _ => True) -> (forall a d', still d d' -> calm (k a) d' Q) -> (forall e d', still d d' -> Q (Raise e) d') ->
  calm (pbind p k) d Q.
Proof. intros Hp Hk He. apply rg_bind, calm_spec; [done|]. intros [a|e] d' Hd; auto. Qed.

(** A call that writes the datasets, while nobody else does. *)
Lemma calm_call {A} (c : eff eval_db A) d (Q : outcome py_exn A -> eval_db -> Prop) :
  (forall d', still d d' -> Q (c d').1 ((c d').2 {{ db_tick ::= Datatypes.S }})) ->
  (forall d' m, still d d' -> Q (Raise (PyError (lit "PyMongoError") m)) (d' {{ db_tick ::= Datatypes.S }}) /\
     Q (Raise (PyError (lit "PyMongoError") m)) ((c d').2 {{ db_tick ::= Datatypes.S }})) ->
  calm (db_call cfg c) d Q.
Proof.
  intros Ho Hf. apply rg_atomically. intros d' Hd. split; [done|]. unfold db_step. specialize (Ho d' Hd).
  destruct (if in_memory cfg then None else store_fault (db_tick d')) as [[applied m]|].
  - cbn. destruct (Hf d' m Hd). by destruct applied.
  - by destruct (c d').
Qed.

(** The fingerprint of a dataset is that of its items, and its version is at least 1. *)
Definition dataset_ok (x : dataset) : Prop :=
  ds_sha256 x = Some (dataset_fingerprint (ds_items x)) /\ exists v, ds_version x = Some v /\ 1 <= v.
Definition same_fingerprint (x y : dataset) : bool :=
  bool_decide (dataset_fingerprint (ds_items y) = dataset_fingerprint (ds_items x)).
(** The version moves by one exactly when the fingerprint changes. *)
Definition version_step (x y : dataset) : Prop :=
  ds_tenant y = ds_tenant x /\ ds_id y = ds_id x /\
  current_version y = current_version x + if same_fingerprint x y then 0 else 1.
(** Over several operations: equal versions have equal fingerprints. *)
Definition version_path (x y : dataset) : Prop :=
  ds_tenant y = ds_tenant x /\ ds_id y = ds_id x /\ current_version x <= current_version y /\
  (current_version x = current_version y -> same_fingerprint x y = true).

#[local] Instance version_path_preorder : PreOrder version_path.
Proof.
  split; [intros x; split_and!; try done; intros _; by apply bool_decide_eq_true|].
  intros x y z (T1 & I1 & L1 & E1) (T2 & I2 & L2 & E2). split_and!; [congruence|congruence|lia|]. intros E.
  unfold same_fingerprint in *. rewrite !bool_decide_eq_true in *. rewrite E2, E1; [done|lia|lia].
Qed.
Lemma version_step_path x y : version_step x y -> version_path x y.
Proof.
  intros (Ht & Hi & Hv). unfold version_path. destruct (same_fingerprint x y); split_and!; try done; try lia.
Qed.
Lemma version_step_refl x : version_step x x.
Proof. split_and!; [done|done|]. unfold same_fingerprint. rewrite bool_decide_true by done. lia. Qed.

(** Every dataset of [d'] comes from one of [d] or has a new identifier. *)
Definition evolve (P : dataset -> dataset -> Prop) (d d' : eval_db) : Prop :=
  (db_tick d <= db_tick d')%nat /\
  (Forall dataset_ok (db_datasets d) ->
   Forall dataset_ok (db_datasets d') /\
   forall y, y ∈ db_datasets d' ->
     (exists x, x ∈ db_datasets d /\ P x y) \/ exists n, (db_tick d <= n)%nat /\ ds_id y = uuid_at n).

Lemma evolve_still P d d' : (forall x, P x x) -> still d d' -> evolve P d d'.
Proof. intros HP [E Hl]. split; [done|]. rewrite E. intros Hok. split; [done|]. intros y Hy. left. by exists y. Qed.
Lemma evolve_weak (P P' : dataset -> dataset -> Prop) d d' : (forall x y, P x y -> P' x y) -> evolve P d d' -> evolve P' d d'.
Proof. intros HP [Hl He]. split; [done|]. intros Hok. destruct (He Hok) as [? Hy]. split; [done|]. intros y Hin. destruct (Hy y Hin); naive_solver. Qed.
Lemma evolve_trans d1 d2 d3 : evolve version_path d1 d2 -> evolve version_path d2 d3 -> evolve version_path d1 d3.
Proof.
  intros [L1 E1] [L2 E2]. split; [lia|]. intros Hok. destruct (E1 Hok) as [Hok2 Hy2]. destruct (E2 Hok2) as [Hok3 Hy3].
  split; [done|]. intros z Hz. destruct (Hy3 z Hz) as [(y & Hy & Hyz)|(n & Hn & Ez)]; [|right; exists n; split; [lia|done]].
  destruct (Hy2 y Hy) as [(x & Hx & Hxy)|(n & Hn & Ey)]; [left; exists x; split; [done|by etrans]|].
  right. exists n. split; [done|]. destruct Hyz as (_ & -> & _). done.
Qed.

Lemma update_first_find {A} (p : A -> bool) f (l : list A) y :
  y ∈ update_first p f l -> y ∈ l \/ exists x, List.find p l = Some x /\ y = f x.
Proof.
  induction l as [|z l IH]; cbn; [by left|]. destruct (p z); intros [->|Hy]%elem_of_cons.
  - right. by exists z.
  - left. by right.
  - left. by left.
  - destruct (IH Hy) as [?|?]; [left; by right|by right].
Qed.

(** Replacing the first match by its successor. *)
Lemma evolve_update d p f : 
  (forall x, List.find p (db_datasets d) = Some x -> dataset_ok x -> dataset_ok (f x) /\ version_step x (f x)) ->
  evolve version_step d (d {{ db_datasets ::= update_first p f }} {{ db_tick ::= Datatypes.S }}).
Proof.
  intros Hf. split; [cbn; lia|]. intros Hok. cbn. rewrite Forall_forall in Hok.
  assert (forall y, y ∈ update_first p f (db_datasets d) -> y ∈ db_datasets d \/
    exists x, x ∈ db_datasets d /\ y = f x /\ dataset_ok (f x) /\ version_step x (f x)) as Hy.
  { intros y Hy. destruct (update_first_find p f _ y Hy) as [?|(x & Hx & ->)]; [by left|right].
    pose proof (find_spec _ _ _ Hx) as [Hin _]. exists x. split; [done|]. split; [done|]. apply Hf; [done|by apply Hok]. }
  rewrite Forall_forall. split.
  - intros y Hin. destruct (Hy y Hin) as [?|(x & _ & -> & ? & _)]; [by apply Hok|done].
  - intros y Hin. left. destruct (Hy y Hin) as [Hd|(x & Hx & -> & _ & Hv)]; [exists y; split; [done|apply version_step_refl]|by exists x].
Qed.

Lemma evolve_add d n x : (db_tick d <= n)%nat -> ds_id x = uuid_at n -> dataset_ok x -> 
  forall d', still d d' -> evolve version_step d (d' {{ db_datasets ::= (.++ [x]) }} {{ db_tick ::= Datatypes.S }}).
Proof.
  intros Hn Hi Hx d' [E Hl]. split; [cbn; lia|]. intros Hok. cbn. rewrite E.
  split; [apply Forall_app_2; [done|by apply Forall_singleton]|].
  intros y [Hy|Hy%list_elem_of_singleton]%elem_of_app; [left; exists y; split; [done|apply version_step_refl]|].
  right. exists n. by rewrite Hy.
Qed.

Lemma evolve_delete d p : evolve version_step d (d {{ db_datasets ::= delete_first p }} {{ db_tick ::= Datatypes.S }}).
Proof.
  split; [cbn; lia|]. intros Hok. cbn. pose proof (delete_first_sublist p (db_datasets d)) as Hs.
  rewrite Forall_forall in Hok |- *. split; [intros y Hy; apply Hok; by eapply elem_of_sublist|].
  intros y Hy. left. exists y. split; [by eapply elem_of_sublist|apply version_step_refl].
Qed.

Lemma normalize_ok x : dataset_ok x -> current_version (normalize_dataset x) = current_version x /\
  current_sha256 (normalize_dataset x) = dataset_fingerprint (ds_items x).
Proof.
  intros [Hs (v & Hv & Hl)]. unfold normalize_dataset, current_version, current_sha256.
  destruct (truthy_sha x && truthy_version x) eqn:E; [by rewrite Hs, Hv|]. cbn [ds_version ds_sha256 setf].
  unfold truthy_version, truthy_sha in *. rewrite Hs, Hv in *. destruct (Z.eqb_spec v 0); [lia|]. cbn.
  split; [done|]. by destruct (dataset_fingerprint (ds_items x)).
Qed.

Section Versions.
Context (i : auth_identity).
Abbreviation ok p := (spec still still p (fun _ => True)).

Lemma ok_admin : ok (require_admin (Some i)).
Proof. by apply (spec_admin still still i). Qed.

Definition evolving {A} (p : prog eval_db A) : Prop := forall d, calm p d (fun _ d' => evolve version_step d d').

Lemma evolve_before d d1 d' : still d d1 -> evolve version_step d1 d' -> evolve version_step d d'.
Proof.
  intros [E Hl] [Hl' He]. split; [lia|]. rewrite <- E. intros Hok. destruct (He Hok) as [? Hy]. split; [done|].
  intros y Hin. destruct (Hy y Hin) as [?|(n & Hn & ?)]; [by left|right]. exists n. split; [lia|done].
Qed.

Lemma evolving_ok {A} (p : prog eval_db A) : ok p -> evolving p.
Proof. intros Hp d. apply calm_spec; [done|]. intros o d' Hd. by apply evolve_still; [apply version_step_refl|]. Qed.
Lemma evolving_then {A B} (p : prog eval_db A) (k : A -> prog eval_db B) : ok p -> (forall a, evolving (k a)) -> evolving (pbind p k).
Proof.
  intros Hp Hk d. apply calm_then; [done| |].
  - intros a d1 Hd. eapply rg_conseq; [apply Hk|done|]. intros o d'. by apply evolve_before.
  - intros e d' Hd. by apply evolve_still; [apply version_step_refl|].
Qed.
Lemma calm_last {A B} (p : prog eval_db A) (k : A -> prog eval_db B) d :
  calm p d (fun _ d' => evolve version_step d d') -> (forall a, ok (k a)) ->
  calm (pbind p k) d (fun _ d' => evolve version_step d d').
Proof.
  intros Hp Hk. apply rg_bind. eapply rg_conseq; [apply Hp|done|]. intros [a|e] d1 H1'; [|done].
  apply calm_spec; [apply Hk|]. intros o d2 [E Hl]. destruct H1' as [Hl1 He]. split; [lia|]. by rewrite E.
Qed.

Lemma ok_tick {A} (f : nat -> A) : ok (interact f).
Proof. apply (sp_interact still still [] false (still_allows [])). Qed.

Lemma calm_interact {A B} (f : nat -> A) (k : A -> prog eval_db B) d Q :
  (forall d', still d d' -> calm (k (f (db_tick d'))) (d' {{ db_tick ::= Datatypes.S }}) Q) -> calm (pbind (interact f) k) d Q.
Proof. intros Hk d' Hd. split; [done|]. by apply Hk. Qed.

Lemma calm_keep {A B} (p : prog eval_db A) (k : A -> prog eval_db B) d :
  ok p -> (forall a d', still d d' -> calm (k a) d' (fun _ d'' => evolve version_step d' d'')) ->
  calm (pbind p k) d (fun _ d'' => evolve version_step d d'').
Proof.
  intros Hp Hk. apply calm_then; [done| |].
  - intros a d1 Hd. eapply rg_conseq; [by apply Hk|done|]. intros o d'. by apply evolve_before.
  - intros e d' Hd. by apply evolve_still; [apply version_step_refl|].
Qed.

Lemma still_tick d d' : still d d' -> still d (d' {{ db_tick ::= Datatypes.S }}).
Proof. intros [E Hl]. split; [done|cbn; lia]. Qed.

Lemma evolving_create name description items : evolving (create_dataset cfg (Some i) name description items).
Proof.
  unfold create_dataset. apply evolving_then; [apply ok_admin|]. intros a.
  apply evolving_then; [by apply sp_lift|]. intros o. apply evolving_then; [by apply sp_lift|]. intros descr.
  destruct o as [name'|]; [|apply evolving_ok, sp_raise].
  apply evolving_then; [apply (ok_normalized_items still still i false (still_allows _))|]. intros normalized.
  apply evolving_then; [apply ok_tick|]. intros timestamp d. apply calm_interact. intros d1 Hd1. apply rg_bind.
  set (x := (mkDataset _ _ _ _ _ _ _ _ _) {{ ds_created ::= _ }} {{ ds_updated ::= _ }}).
  assert (forall d2, still (d1 {{ db_tick ::= Datatypes.S }}) d2 ->
    evolve version_step d (d2 {{ db_datasets ::= (.++ [x]) }} {{ db_tick ::= Datatypes.S }})) as Ha.
  { intros d2 Hd2. apply (evolve_add d (db_tick d1)); [apply Hd1|done| |].
    - split; [done|]. exists INITIAL_DATASET_VERSION. by split.
    - etrans; [by apply still_tick|done]. }
  apply calm_call.
  - intros d2 Hd2. by apply Ha.
  - intros d2 m Hd2. split; [|by apply Ha]. apply evolve_still; [apply version_step_refl|].
    apply still_tick. etrans; [by apply still_tick|done].
Qed.

Lemma evolving_import name description content format : evolving (import_dataset cfg (Some i) name description content format).
Proof.
  apply evolving_then; [apply (ok_parsed_import still still i false (still_allows _))|]. intros l. apply evolving_create.
Qed.

Lemma evolving_delete id : evolving (delete_dataset cfg (Some i) id).
Proof.
  unfold delete_dataset. apply evolving_then; [apply ok_admin|]. intros a d. apply calm_last.
  - apply calm_call.
    + intros d' Hd. eapply evolve_before; [exact Hd|]. apply evolve_delete.
    + intros d' m Hd. split; [apply evolve_still; [apply version_step_refl|by apply still_tick]|].
      eapply evolve_before; [exact Hd|]. apply evolve_delete.
  - intros []; [by apply sp_ret|apply sp_raise].
Qed.

(** The document an update writes. *)
Lemma changes_ok now name description (items : option (list golden_item)) x :
  dataset_ok x ->
  let current := normalize_dataset x in
  let c := match items with
    | Some normalized =>
        let fingerprint := dataset_fingerprint normalized in
        mkChanges now name description (Some normalized)
          (if bool_decide (fingerprint = current_sha256 current) then current_version current
           else current_version current + 1) fingerprint
    | None => mkChanges now name description None (current_version current) (current_sha256 current)
    end in
  dataset_ok (apply_changes cfg c x) /\ version_step x (apply_changes cfg c x).
Proof.
  intros Hx. destruct (normalize_ok x Hx) as [Ev Es]. cbv zeta. rewrite Ev, Es.
  destruct Hx as [_ (v & Hv & Hl)]. assert (current_version x = v) as -> by (unfold current_version; by rewrite Hv).
  unfold version_step, same_fingerprint. destruct items as [l|]; cbn.
  - split; [split; [done|]; eexists; split; [done|]; cbn; case_bool_decide; lia|]. split; [done|]. split; [done|].
    unfold current_version. rewrite Hv. cbn. case_bool_decide; lia.
  - split; [split; [done|]; by eexists|]. split; [done|]. split; [done|]. unfold current_version. rewrite Hv. cbn.
    rewrite bool_decide_true by done. lia.
Qed.

Lemma evolving_update id name description items : evolving (update_dataset cfg (Some i) id name description items).
Proof.
  unfold update_dataset. apply evolving_then; [apply ok_admin|]. intros a d. apply rg_bind.
  set (p := dataset_scope (ai_tenant_id a) id).
  apply calm_call; [|intros d' m Hd; by split; apply evolve_still, still_tick; try apply version_step_refl].
  intros d1 Hd1. cbn [fst snd gets]. destruct (List.find p (db_datasets d1)) as [x|] eqn:Ef.
  2: { apply evolve_still, still_tick; [apply version_step_refl|done]. }
  set (d2 := d1 {{ db_tick ::= Datatypes.S }}). assert (still d d2) as Hd2 by by apply still_tick.
  eapply (rg_conseq _ _ anything); [|done|intros o d'; by apply (evolve_before d d2)].
  assert (List.find p (db_datasets d2) = Some x) as Ef2 by done. clearbody d2. clear d1 Hd1 Ef Hd2 d. rename d2 into d, Ef2 into Ef.
  assert (forall d', still d d' -> List.find p (db_datasets d') = Some x) as Hfind by (intros d' [-> _]; done).
  apply calm_keep; [apply ok_tick|]. intros now d1 H1'.
  apply calm_keep; [destruct (is_none name); [by apply sp_ret|]|].
  { apply sp_then; [apply ok_named|]. intros n. by apply sp_ret. }
  intros name' d2 H2'. apply calm_keep; [destruct (is_none description); [by apply sp_ret|]|].
  { apply sp_then; [by apply sp_lift|]. intros n. by apply sp_ret. }
  intros descr d3 H3'. apply calm_keep; [destruct (is_none items); [by apply sp_ret|]|].
  { apply sp_then; [apply (ok_normalized_items still still i false (still_allows _))|]. intros n. by apply sp_ret. }
  intros l d4 H4'. assert (still d d4) as Hd4 by (etrans; [exact H1'|]; etrans; [exact H2'|]; by etrans).
  revert d4 Hd4 H4'. cbv zeta. set (c := match l with Some _ => _ | None => _ end). intros d4 Hd4 _.
  assert (forall d5, still d4 d5 -> evolve version_step d4 (d5 {{ db_datasets ::= update_first p (apply_changes cfg c) }} {{ db_tick ::= Datatypes.S }})) as Hu.
  { intros d5 Hd5. eapply evolve_before; [exact Hd5|]. apply evolve_update. intros y Hy Hok.
    rewrite Hfind in Hy by by etrans. injection Hy as <-. by apply changes_ok. }
  apply calm_last.
  - apply calm_call; [by intros d5 Hd5; apply Hu|]. intros d5 m Hd5.
    split; [by apply evolve_still, still_tick; [apply version_step_refl|]|by apply Hu].
  - intros []; [|apply sp_raise]. eapply spec_weak; [apply (spec_get_dataset still still i false (still_allows _))|done].
Qed.

(** One operation, whatever fails. *)
Lemma evolving_perform op : closing op -> evolving (perform i op).
Proof.
  intros Hc. destruct (writes_datasets op) eqn:Ew.
  - destruct op; try done; cbn [perform]; unfold silent; intros d; apply calm_last; try (by intros; apply sp_ret).
    + apply evolving_create.
    + apply evolving_import.
    + apply evolving_update.
    + apply evolving_delete.
  - apply evolving_ok. eapply spec_weak; [|by intros]. apply (spec_perform still still i false (still_allows _)); [congruence|done].
Qed.
End Versions.

(** The operations of one replica, one after the other. *)
Fixpoint history (ops : list (auth_identity * store_op)) (d : eval_db) : eval_db :=
  match ops with [] => d | (i, op) :: ops => history ops (run (perform i op) d).2 end.

Lemma evolve_op i op d : closing op -> evolve version_step d (run (perform i op) d).2.
Proof. intros Hc. by apply (rg_run still anything _ _ _ (evolving_perform i op Hc d)). Qed.

Lemma evolve_history ops d : Forall (fun c => closing c.2) ops -> evolve version_path d (history ops d).
Proof.
  revert d. induction ops as [|[i op] ops IH]; intros d; cbn [history].
  - intros _. by apply evolve_still.
  - intros [Hc Ho]%Forall_cons. eapply evolve_trans; [|by apply IH].
    eapply evolve_weak; [apply version_step_path|by apply evolve_op].
Qed.

Context `{!FingerprintLaws}.

(** C31: a version identifies the labels.  Start where every dataset carries the fingerprint of its
    items and new identifiers are new.  However the operations of a replica follow each
    other, failing calls included, every dataset then carries the fingerprint of its
    items; its version never decreases, and while the version is the same the scoring
    content is the same, whatever was renamed, reordered or re-keyed; and a single
    operation moves the version of a dataset by one exactly when it changes that content.
    Versions are compared by SHA-256 digests: that two contents are the same holds unless
    the digests of these two collide, which the theorem states as a condition on the pair. *)
Theorem version_identifies_content (ops : list (auth_identity * store_op)) (d : eval_db) :
  Forall dataset_ok (db_datasets d) -> NoDup (map ds_id (db_datasets d)) ->
  (forall x n, x ∈ db_datasets d -> (db_tick d <= n)%nat -> uuid_at n <> ds_id x) -> Forall (fun c => closing c.2) ops ->
  Forall dataset_ok (db_datasets (history ops d)) /\
  (forall x y, x ∈ db_datasets d -> y ∈ db_datasets (history ops d) -> ds_id y = ds_id x ->
     current_version x <= current_version y /\
     (no_collision (ds_items x) (ds_items y) -> current_version x = current_version y ->
      same_content (ds_items x) (ds_items y))) /\
  (forall i op x y, closing op -> x ∈ db_datasets d -> y ∈ db_datasets (run (perform i op) d).2 -> ds_id y = ds_id x ->
     no_collision (ds_items x) (ds_items y) ->
     exists moved, current_version y = current_version x + moved /\
       (same_content (ds_items x) (ds_items y) /\ moved = 0 \/
        ~ same_content (ds_items x) (ds_items y) /\ moved = 1)).
Proof.
  intros Hok Hu Hf Hc.
  assert (forall P d' x y, evolve P d d' -> (forall a b, P a b -> ds_id b = ds_id a) -> x ∈ db_datasets d ->
    y ∈ db_datasets d' -> ds_id y = ds_id x -> P x y) as Hpick.
  { intros P d' x y [_ He] HP Hx Hy E. destruct (He Hok) as [_ Hd]. destruct (Hd y Hy) as [(x' & Hx' & Hxy)|(n & Hn & Ey)].
    - rewrite (NoDup_map_inj ds_id _ x x' Hu Hx Hx'); [done|]. rewrite <- E. by apply HP.
    - exfalso. apply (Hf x n Hx Hn). congruence. }
  split_and!.
  - by apply evolve_history.
  - intros x y Hx Hy E. destruct (Hpick version_path (history ops d) x y) as (_ & _ & Hl & Hs); try done.
    { by apply evolve_history. } { by intros a b (_ & ? & _). }
    split; [done|]. intros Hn Ev. specialize (Hs Ev). unfold same_fingerprint in Hs. apply bool_decide_eq_true in Hs.
    by apply fingerprint_distinguishes.
  - intros i op x y Hcl Hx Hy E Hn. destruct (Hpick version_step (run (perform i op) d).2 x y) as (_ & _ & Hv); try done.
    { by apply evolve_op. } { by intros a b (_ & ? & _). }
    eexists. split; [exact Hv|]. unfold same_fingerprint. case_bool_decide as Hs; [left|right]; (split; [|done]).
    + by apply fingerprint_distinguishes.
    + intros Hp. by apply Hs, eq_sym, fingerprint_same.
Qed.
End Perform.

(** ** A small store *)

Definition demo_compact : CompactJson := fun _ => [].
Definition demo_env : EvalEnv := {|
  now_at := fun n => Z.of_nat n * MICROSECONDS; uuid_at := fun n => 117 :: replicate n 120;
  item_uuid_at := fun _ j => 105 :: replicate j 120; store_fault := fun _ => None
|}.
Definition demo_cfg : eval_config := mkEvalConfig false 5 100 100 1000 10.
Definition admin_of (t : string) : auth_identity := mkAuth (lit t) (lit "u1") (lit "admin") None None None.
Definition raw_items (q : string) : json := JArr [JObj [("query", s_ q); ("relevant_file_ids", JArr [s_ "f1"])]].

Abbreviation demo_perform := (perform (H := ascii_text) (H0 := demo_reader) (H1 := demo_compact) (H2 := demo_fingerprint)
  (H3 := demo_env) demo_cfg).

Definition empty_db : eval_db := mkDb [] [] [] ∅ 0.
Definition demo_db : eval_db :=
  (run (demo_perform (admin_of "blue") (OCreateDataset (s_ "exam") JNull (raw_items "When?"))) empty_db).2.

Definition demo_calls : list (auth_identity * store_op) :=
  [(admin_of "red", OCreateDataset (s_ "other") JNull (raw_items "Where?")); (admin_of "red", OListDatasets);
   (mkAuth (lit "blue") (lit "u2") (lit "user") None None None, ODeleteDataset (lit "uxx"))].

Lemma eval_tenant_confined_witness :
  length (db_datasets (interleave [0; 1; 0; 0; 2; 1; 0; 0; 1]%nat (map (fun c => demo_perform c.1 c.2) demo_calls, demo_db)).2) = 2%nat /\
  view (lit "blue") (interleave [0; 1; 0; 0; 2; 1; 0; 0; 1]%nat (map (fun c => demo_perform c.1 c.2) demo_calls, demo_db)).2 =
  view (lit "blue") demo_db.
Proof.
  split; [by vm_compute|].
  pose proof (eval_tenant_confined (H := ascii_text) (H0 := demo_reader) (H1 := demo_compact) (H2 := demo_fingerprint)
    (H3 := demo_env) demo_cfg (lit "blue") demo_calls [0; 1; 0; 0; 2; 1; 0; 0; 1]%nat demo_db) as Hc.
  destruct (interleave _ _) as [l d']. apply Hc.
  unfold demo_calls. repeat (apply Forall_cons; split; [split; [done|]|]); [by left|by left| |by apply Forall_nil].
  right. by vm_compute.
Defined.

(** A run of "blue" that was started at second 0 and never renewed; at tick 20 its lease is over. *)
Definition stale_db : eval_db :=
  (run (demo_perform (admin_of "blue")
     (OCreateRun (lit "ds") [] (lit "file_id") (lit "retrieval") None None None None (Some (lit "worker")))) demo_db).2
  {{ db_tick := 20%nat }}.

Abbreviation demo_act := (act (H := ascii_text) (H0 := demo_reader) (H1 := demo_compact) (H2 := demo_fingerprint)
  (H3 := demo_env) demo_cfg).
Definition two_recoveries : list activity := [Recover (lit "r1"); Recover (lit "r2")].
(** Both replicas see the stale run; the first claims and interrupts it. *)
Definition race : list nat := [0; 1; 0; 0; 0; 1; 1; 1; 0; 1]%nat.

Lemma recovered_once_witness :
  length (db_runs (interleave race (map demo_act two_recoveries, stale_db)).2) = 1%nat /\
  exists r, (interleave race (map demo_act two_recoveries, stale_db)).1 = [Done (Ok [r]); Done (Ok [])] /\
    closed_by (lit "r1") (interleave race (map demo_act two_recoveries, stale_db)).2 r.
Proof.
  split; [by vm_compute|].
  pose proof (recovered_once (H := ascii_text) (H0 := demo_reader) (H1 := demo_compact) (H2 := demo_fingerprint)
    (H3 := demo_env) demo_cfg two_recoveries race stale_db) as Hr.
  destruct (interleave race (map demo_act two_recoveries, stale_db)) as [l d'] eqn:E.
  vm_compute in E. injection E as <- <-. eexists. split; [reflexivity|].
  destruct Hr as [Hc _]; [by repeat constructor|].
  specialize (Hc 0%nat (lit "r1") _ ltac:(reflexivity) ltac:(reflexivity)). by apply Forall_cons in Hc as [Hc _].
Defined.

Lemma stale_runs_closed_witness :
  exists rs d', run (recover_stale_runs (H3 := demo_env) demo_cfg (lit "r1")) stale_db = (Ok rs, d') /\ length rs = 1%nat.
Proof.
  destruct (stale_runs_closed (H3 := demo_env) demo_cfg (or_intror (fun _ => eq_refl)) ltac:(intros n m Hnm; cbn; unfold MICROSECONDS; lia)
    (lit "r1") stale_db) as (rs & d' & E & _).
  - vm_compute. constructor; [by intros ?%elem_of_nil|constructor].
  - exists rs, d'. split; [exact E|]. vm_compute in E. by injection E as <- _.
Defined.

Definition demo_ops : list (auth_identity * store_op) :=
  [(admin_of "blue", OUpdateDataset (lit "uxx") (s_ "renamed") JNull (raw_items " When? "));
   (admin_of "blue", OUpdateDataset (lit "uxx") JNull JNull (raw_items "Who?"))].

Lemma demo_db_ok : Forall (dataset_ok (H2 := demo_fingerprint)) (db_datasets demo_db).
Proof. apply Forall_singleton. split; [reflexivity|]. by exists 1. Qed.

(** Renaming and re-uploading the same labels keeps version 1; other labels are version 2. *)
Lemma version_identifies_content_witness :
  map ds_version (db_datasets (history (H := ascii_text) (H0 := demo_reader) (H1 := demo_compact) (H2 := demo_fingerprint)
    (H3 := demo_env) demo_cfg demo_ops demo_db)) = [Some 2] /\
  Forall (dataset_ok (H2 := demo_fingerprint)) (db_datasets (history (H := ascii_text) (H0 := demo_reader) (H1 := demo_compact)
    (H2 := demo_fingerprint) (H3 := demo_env) demo_cfg demo_ops demo_db)).
Proof.
  split; [by vm_compute|].
  apply (version_identifies_content (H := ascii_text) (H0 := demo_reader) (H1 := demo_compact) (H2 := demo_fingerprint)
    (H3 := demo_env) demo_cfg demo_ops demo_db demo_db_ok).
  - vm_compute. constructor; [by intros ?%elem_of_nil|constructor].
  - intros x n Hx Hn. assert (ds_id x = 117 :: replicate 2 120) as ->.
    { apply list_elem_of_singleton in Hx. by rewrite Hx. }
    cbn. intros E. injection E as E. apply (f_equal length) in E. rewrite length_replicate in E. cbn in E.
    assert (db_tick demo_db = 4%nat) as Ht by by vm_compute. rewrite Ht in Hn. lia.
  - by repeat constructor.
Defined.

(** ** What two replicas can do *)

(** Two edits at once: both read version 1 of the dataset; the first replaces the labels and
    the second renames it, writing back the version and the fingerprint it had read.  The
    stored fingerprint is then not that of the stored items. *)
Definition two_edits : list (auth_identity * store_op) :=
  [(admin_of "blue", OUpdateDataset (lit "uxx") JNull JNull (raw_items "Who?"));
   (admin_of "blue", OUpdateDataset (lit "uxx") (s_ "renamed") JNull JNull)].

Example edits_race :
  exists x, db_datasets (interleave [1; 0; 0; 0; 0; 1; 1]%nat (map (fun c => demo_perform c.1 c.2) two_edits, demo_db)).2 = [x] /\
    ds_version x = Some 1 /\ ds_sha256 x <> Some (dataset_fingerprint (H := demo_fingerprint) (ds_items x)).
Proof. eexists. split; [vm_compute; reflexivity|]. split; [reflexivity|]. by vm_compute. Qed.

(** A worker that was only slow: its run has been claimed and interrupted by another replica,
    and then the worker finishes and overwrites the recorded interruption. *)
Example late_finish :
  map (fun d => ru_status <$> db_runs d)
    [(run (demo_act (Recover (lit "r1"))) stale_db).2;
     (run (demo_act (Recover (lit "r1")) ;;~
       demo_act (Call (admin_of "blue") (OFinishRun (lit "uxxxxx") COMPLETED [] None))) stale_db).2] = [[INTERRUPTED]; [COMPLETED]].
Proof. by vm_compute. Qed.
