(* ===== verification/EvalScoring.v ===== *)
(** * Scoring an evaluation run

    The pure part of [src/backend/rag/app/services/eval_runner.py] and
    [failure_attribution.py]: which labels a run scores against and whether the index can
    return them, what of a search reply the application would use, the scores of an item,
    the stage that lost it, and the figures of a run.  A row is a record here and becomes the
    stored dictionary by [row_json]; the means are exact rationals. *)

From Stdlib Require Import QArith.
From stdpp Require Import base strings list sets gmap sorting.
From S2P Require Import Prelude PyValue Base64 MemoryNormalize ContextAssembler RetrievalTrace CitationMetrics RetrievalMetrics GoldenSet.

Local Open Scope string_scope.
Local Open Scope list_scope.
Local Open Scope Z_scope.

(** ** Labels *)

Inductive matching := MATCH_CHUNK | MATCH_FILE | MATCH_MIXED.
#[export] Instance matching_eq_dec : EqDecision matching.
Proof. solve_decision. Defined.

Definition match_text (m : matching) : text :=
  match m with MATCH_CHUNK => lit "chunk_id" | MATCH_FILE => lit "file_id" | MATCH_MIXED => lit "mixed" end.

Definition relevant_ids (item : golden_item) (m : matching) : gset text :=
  let chunk_ids : gset text := list_to_set (gi_chunk_ids item) in
  let file_ids : gset text := list_to_set (gi_file_ids item) in
  match m with
  | MATCH_CHUNK => chunk_ids
  | MATCH_FILE => file_ids
  | MATCH_MIXED => if bool_decide (chunk_ids = ∅) then file_ids else chunk_ids
  end.

Definition item_match_mode (item : golden_item) (m : matching) : matching :=
  match m with
  | MATCH_MIXED => match gi_chunk_ids item with [] => MATCH_FILE | _ => MATCH_CHUNK end
  | _ => m
  end.

Definition has_chunks (item : golden_item) : bool := match gi_chunk_ids item with [] => false | _ => true end.
Definition has_files (item : golden_item) : bool := match gi_file_ids item with [] => false | _ => true end.

Definition dataset_match_mode (items : list golden_item) : matching :=
  if forallb has_chunks items then MATCH_CHUNK else if forallb has_files items then MATCH_FILE else MATCH_MIXED.

(** The chunk and file identifiers a run scores against. *)
Definition label_targets (items : list golden_item) (m : matching) : gset text * gset text :=
  foldl (fun acc item =>
    let ids := relevant_ids item m in
    match item_match_mode item m with
    | MATCH_CHUNK => (acc.1 ∪ ids, acc.2)
    | _ => (acc.1, acc.2 ∪ ids)
    end) (∅, ∅) items.

(** The reply of the index, for one field: what exists, what may be returned, what is missing. *)
Record id_report := mkIdReport { ir_present : gset text; ir_retrievable : gset text; ir_missing : gset text }.
Record verified := mkVerified { vf_chunks : id_report; vf_files : id_report }.

(** [_unreachable_sets]: missing, and present but barred. *)
Definition unreachable_sets (r : id_report) : gset text * gset text := (ir_missing r, ir_present r ∖ ir_retrievable r).

Inductive stale_policy := STALE_POLICY_FAIL | STALE_POLICY_UNSCORABLE.
#[export] Instance stale_policy_eq_dec : EqDecision stale_policy.
Proof. solve_decision. Defined.

(** An unknown setting is fail-fast. *)
Definition stale_label_policy (configured : text) : stale_policy :=
  if bool_decide (configured = lit "mark_unscorable") then STALE_POLICY_UNSCORABLE else STALE_POLICY_FAIL.

Record label_counts := mkCounts {
  lc_checked : Z; lc_stale_labels : Z; lc_stale_items : Z; lc_stale_ids : list text; lc_item_ids : list text;
  lc_barred_labels : Z; lc_barred_items : Z; lc_barred_ids : list text; lc_truncated : bool
}.

(** [lr_counts] is [None] when the labels were not checked. *)
Record label_report := mkLabelReport {
  lr_reason : option string; lr_error : option text; lr_policy : stale_policy; lr_counts : option label_counts;
  lr_unscorable_count : Z; lr_unscorable : gset text
}.
Definition blocking (r : label_report) : bool :=
  bool_decide (lr_policy r = STALE_POLICY_FAIL) && negb (lr_unscorable_count r =? 0).
Definition unchecked_report (reason : string) (policy : stale_policy) (error : option text) : label_report :=
  mkLabelReport (Some reason) error policy None 0 ∅.

(** The labels of one item that the index does not hold, and those it may not return. *)
Definition item_missing (v : verified) (m : matching) (item : golden_item) : gset text :=
  relevant_ids item m ∩ (unreachable_sets (match item_match_mode item m with MATCH_CHUNK => vf_chunks v | _ => vf_files v end)).1.
Definition item_barred (v : verified) (m : matching) (item : golden_item) : gset text :=
  relevant_ids item m ∩ (unreachable_sets (match item_match_mode item m with MATCH_CHUNK => vf_chunks v | _ => vf_files v end)).2.

Definition affected (f : golden_item -> gset text) (items : list golden_item) : gset text :=
  list_to_set (map gi_item_id (List.filter (fun i => negb (bool_decide (f i = ∅))) items)).

Definition set_sorted (s : gset text) : list text := py_sorted text_leb (elements s).

Definition classify_labels (items : list golden_item) (m : matching) (v : verified) (policy : stale_policy)
    (max_reported_ids : Z) : label_report :=
  let stale_ids : gset text := ⋃ (map (item_missing v m) items) in
  let barred_ids : gset text := ⋃ (map (item_barred v m) items) in
  let stale_items := affected (item_missing v m) items in
  let barred_items := affected (item_barred v m) items in
  let unscorable := stale_items ∪ barred_items in
  let size (s : gset text) : Z := Z.of_nat (size s) in
  mkLabelReport None None policy
    (Some (mkCounts (foldr (fun i n => size (relevant_ids i m) + n) 0 items) (size stale_ids) (size stale_items)
             (py_prefix (set_sorted stale_ids) max_reported_ids) (py_prefix (set_sorted unscorable) max_reported_ids)
             (size barred_ids) (size barred_items) (py_prefix (set_sorted barred_ids) max_reported_ids)
             ((max_reported_ids <? size stale_ids) || (max_reported_ids <? size barred_ids)
              || (max_reported_ids <? size unscorable))))
    (size unscorable) unscorable.

(** ** Search replies *)

Section Replies.
Context `{PyText}.

(** [x or {}], used as a dictionary. *)
Definition dict_or_empty (v : json) : outcome py_exn obj := sub_obj v.

Inductive gate := Eligible (chunk : obj) | Dropped (view : obj).

(** One entry: what the application would use of it, or why it refuses it. *)
Definition gate_item (item : obj) : outcome py_exn gate :=
  let* payload := dict_or_empty (get item "payload") in
  let* metadata := dict_or_empty (get item "metadata" ||| get payload "metadata") in
  let review_status := get item "review_status" ||| get payload "review_status" ||| get metadata "review_status" ||| s_ "clean" in
  let allowed := jtrue (get_or item "retrieval_allowed"
                          (get_or payload "retrieval_allowed" (get_or metadata "retrieval_allowed" (JBool true)))) in
  let refuse (reason : string) : outcome py_exn gate :=
    let* chunk_id := trace_field item "chunk_id" in Ok (Dropped [("chunk_id", clean_id chunk_id); ("reason", s_ reason)]) in
  if negb allowed then refuse "retrieval_not_allowed"
  else if is_str review_status "removed" then refuse "review_removed"
  else Ok (Eligible (obj_update (obj_update metadata payload) item)).

(** The entries of the reply that are dictionaries. *)
Definition reply_entries (response : obj) : outcome py_exn (list obj) :=
  match get response "chunks" ||| get response "results" ||| JArr [] with
  | JArr l => Ok (omap (fun v => match v with JObj o => Some o | _ => None end) l)
  | JStr _ | JObj _ => Ok []
  | _ => TypeError
  end.

Fixpoint partition_from (items : list obj) : outcome py_exn (list obj * list obj) :=
  match items with
  | [] => Ok ([], [])
  | item :: items =>
      let* g := gate_item item in
      let* rest := partition_from items in
      Ok (match g with Eligible c => (c :: rest.1, rest.2) | Dropped d => (rest.1, d :: rest.2) end)
  end.
Definition partition_eligible (response : obj) : outcome py_exn (list obj * list obj) :=
  let* items := reply_entries response in partition_from items.

Definition chunk_identifier (m : matching) (chunk : obj) : option text :=
  let value := match m with MATCH_CHUNK => get chunk "chunk_id" | _ => get chunk "file_id" ||| get chunk "document_id" end in
  if jtrue value then Some (py_str value) else None.
Definition retrieved_ids (chunks : list obj) (m : matching) : list text := omap (chunk_identifier m) chunks.
End Replies.

Definition K_VALUES : list Z := [1; 3; 5; 10; 20].
Definition MAX_ROW_IDS : Z := 20.
Definition candidate_depth (configured : Z) : Z := Z.max configured 20.

(** ** Rows *)

(** Every metric at every [k] of [K_VALUES]. *)
Record item_scores := mkScores { sc_recall : list Q; sc_precision : list Q; sc_hit_rate : list Q; sc_ndcg : list Q }.

Definition scores_of `{Discount} (ids : list text) (relevant : gset text) : item_scores :=
  mkScores (map (recall_at_k ids relevant) K_VALUES) (map (precision_at_k ids relevant) K_VALUES)
    (map (hit_rate_at_k ids relevant) K_VALUES) (map (ndcg_at_k ids relevant) K_VALUES).

(** What the graph said of the answer; only an [end_to_end] row has it. *)
Record answer_evidence := mkAnswer {
  an_answer : json; an_groundedness : option Q; an_verdict : option text; an_unsupported : option Q;
  an_citation_precision : option Q; an_citation_recall : option Q; an_citation_count : option Q
}.

Inductive category :=
  | CATEGORY_INDEX | CATEGORY_RETRIEVAL | CATEGORY_PASS_TWO | CATEGORY_RANKING | CATEGORY_CONTEXT | CATEGORY_COMPLETENESS
  | CATEGORY_GENERATION | CATEGORY_GROUNDING | CATEGORY_STALE_LABELS | CATEGORY_PIPELINE_ERROR | CATEGORY_UNCLASSIFIED
  | CATEGORY_NONE | CATEGORY_NOT_APPLICABLE.
#[export] Instance category_eq_dec : EqDecision category.
Proof. solve_decision. Defined.

Record attribution := mkAttribution { at_category : category; at_evidence : obj }.

Record eval_row := mkRow {
  er_item_id : text; er_query : text; er_match_mode : matching; er_expected : list text; er_retrieved : list text;
  er_first_hit : option Z; er_reciprocal_rank : option Q; er_recall_10 : option Q; er_queue_wait : option Q;
  er_execution : option Q; er_skipped : bool; er_unscorable : bool; er_error : option text; er_error_class : option text;
  er_failed_node : option text; er_outcome : text; er_guardrail_stage : json; er_timed_out : bool; er_llm_actions : list obj;
  er_answer : option answer_evidence; er_trace : option RetrievalTrace; er_scores : option item_scores;
  er_attribution : option attribution
}.
#[export] Instance eta_eval_row : Eta eval_row := fun x =>
  mkRow (er_item_id x) (er_query x) (er_match_mode x) (er_expected x) (er_retrieved x) (er_first_hit x) (er_reciprocal_rank x)
    (er_recall_10 x) (er_queue_wait x) (er_execution x) (er_skipped x) (er_unscorable x) (er_error x) (er_error_class x)
    (er_failed_node x) (er_outcome x) (er_guardrail_stage x) (er_timed_out x) (er_llm_actions x) (er_answer x) (er_trace x)
    (er_scores x) (er_attribution x).

Definition total_elapsed (r : eval_row) : option Q :=
  match er_queue_wait r, er_execution r with Some q, Some e => Some (q + e)%Q | _, _ => None end.

(** [row.get("error")] as a condition: the empty message is no error. *)
Definition has_error (r : eval_row) : bool := match er_error r with Some (_ :: _) => true | _ => false end.

(** ** Failure attribution *)

Section Attribution.
Context `{PyText}.

Definition MAX_EVIDENCE_IDS : Z := 5.
Definition evidence_ids (s : gset text) : json := JArr (map JStr (py_prefix (set_sorted s) MAX_EVIDENCE_IDS)).

Definition candidate_ids (candidate : obj) : gset text :=
  let id_of key := if jtrue (get candidate key) then {[ py_str (get candidate key) ]} else ∅ in
  id_of "chunk_id" ∪ id_of "file_id".
Definition stage_ids (e : stage_entry) : gset text := ⋃ (map candidate_ids (se_candidates e)).

(** The missing chunks a gate refused, each with the first reason given. *)
Definition note_drop (missing : gset text) (reasons : list (text * text)) (entry : obj) : list (text * text) :=
  let chunk_id := get entry "chunk_id" in
  if jtrue chunk_id && bool_decide (py_str chunk_id ∈ missing) && negb (bool_decide (py_str chunk_id ∈ reasons.*1))
  then reasons ++ [(py_str chunk_id, py_str (get entry "reason" ||| s_ "unknown"))] else reasons.
Definition dropped_reasons (stages : list stage_entry) (missing : gset text) : list (text * text) :=
  foldl (note_drop missing) [] (concat (map se_dropped stages)).

Definition retrieval_stages (stages : list stage_entry) : list stage_entry :=
  List.filter (fun e => negb (bool_decide (se_stage e = STAGE_FINAL_CONTEXT))) stages.

Definition returned_total (stages : list stage_entry) : option Z :=
  match stages with [] => None | _ => Some (foldr (fun e n => se_returned_count e + n) 0 stages) end.

Definition candidates_truncated (stages : list stage_entry) : bool := existsb se_truncated stages.

Definition pass_two_skip (t : RetrievalTrace) : option decision_entry :=
  List.find (fun d => bool_decide (de_stage d = STAGE_PASS_TWO) && bool_decide (de_decision d = "skipped")) (decisions t).

Definition strings_json (l : list text) : json := JArr (map JStr (sorted_ids l)).
Definition count_json {A} (l : list A) : json := JInt (zlen l).
Definition stage_names (l : list stage_entry) : json := strings_json (map (fun e => lit (se_stage e)) l).

(** None of the labelled identifiers reached the context. *)
Definition retrieval_attribution (row : eval_row) (missing : gset text) : attribution :=
  let trace := er_trace row in
  let stages := match trace with Some t => stages t | None => [] end in
  match stages with
  | [] => mkAttribution CATEGORY_UNCLASSIFIED [("reason", s_ "no_trace"); ("missing_ids", evidence_ids missing)]
  | _ =>
      match dropped_reasons stages missing with
      | (_ :: _) as dropped =>
          mkAttribution CATEGORY_CONTEXT
            [("missing_ids", evidence_ids (list_to_set dropped.*1)); ("drop_reasons", strings_json dropped.*2)]
      | [] =>
          let searched := retrieval_stages stages in
          match List.filter (fun e => negb (bool_decide (stage_ids e ∩ missing = ∅))) searched with
          | (_ :: _) as seen_in =>
              mkAttribution CATEGORY_RANKING [("missing_ids", evidence_ids missing); ("candidate_stages", stage_names seen_in)]
          | [] =>
              let returned := returned_total searched in
              if bool_decide (returned = Some 0)
              then mkAttribution CATEGORY_INDEX [("missing_ids", evidence_ids missing); ("stages_searched", count_json searched)]
              else if candidates_truncated stages
              then mkAttribution CATEGORY_UNCLASSIFIED
                     [("reason", s_ "truncated_candidates"); ("missing_ids", evidence_ids missing)]
              else match trace ≫= pass_two_skip with
                   | Some skipped =>
                       mkAttribution CATEGORY_PASS_TWO
                         [("missing_ids", evidence_ids missing);
                          ("skip_reason", match de_reason skipped with Some r => s_ r | None => JNull end);
                          ("top_score", get (de_detail skipped) "top_score")]
                   | None =>
                       mkAttribution CATEGORY_RETRIEVAL
                         [("missing_ids", evidence_ids missing); ("stages_searched", count_json searched);
                          ("candidates_returned", match returned with Some n => JInt n | None => JNull end)]
                   end
          end
      end
  end.

(** Every labelled identifier was found. *)
Definition answer_attribution (row : eval_row) : attribution :=
  match er_answer row with
  | None => mkAttribution CATEGORY_NONE []
  | Some a =>
      if bool_decide (py_strip (py_str (an_answer a ||| JStr [])) = [])
      then mkAttribution CATEGORY_GENERATION [("reason", s_ "empty_answer")]
      else match an_verdict a with
           | None => mkAttribution CATEGORY_UNCLASSIFIED [("reason", s_ "answer_unjudged")]
           | Some verdict =>
               if bool_decide (verdict = lit "none") then mkAttribution CATEGORY_NONE []
               else mkAttribution CATEGORY_GROUNDING
                      [("hallucination_verdict", JStr verdict);
                       ("unsupported_claim_count", match an_unsupported a with Some q => JFloat q | None => JNull end)]
           end
  end.

Definition classify_item (row : eval_row) : attribution :=
  if bool_decide (er_outcome row = lit "guardrail_blocked")
  then mkAttribution CATEGORY_NOT_APPLICABLE [("reason", s_ "guardrail_blocked")]
  else if er_unscorable row then mkAttribution CATEGORY_STALE_LABELS [("reason", s_ "labels_unreachable")]
  else if has_error row then
    let stages := match er_trace row with Some t => stages t | None => [] end in
    mkAttribution CATEGORY_PIPELINE_ERROR
      [("stages_recorded", count_json stages);
       ("last_stage", match last stages with Some e => s_ (se_stage e) | None => JNull end)]
  else
    let expected : gset text := list_to_set (er_expected row) in
    if bool_decide (expected = ∅) || er_skipped row
    then mkAttribution CATEGORY_NOT_APPLICABLE [("reason", s_ "unlabelled")]
    else
      let retrieved : gset text := list_to_set (er_retrieved row) in
      let missing := expected ∖ retrieved in
      if bool_decide (missing = ∅) then answer_attribution row
      else if negb (bool_decide (expected ∩ retrieved = ∅))
      then mkAttribution CATEGORY_COMPLETENESS
             [("missing_ids", evidence_ids missing); ("expected_count", JInt (Z.of_nat (size expected)));
              ("retrieved_expected_count", JInt (Z.of_nat (size (expected ∩ retrieved))))]
      else retrieval_attribution row missing.

Definition FAILURE_CATEGORIES : list category :=
  [CATEGORY_INDEX; CATEGORY_RETRIEVAL; CATEGORY_PASS_TWO; CATEGORY_RANKING; CATEGORY_CONTEXT; CATEGORY_COMPLETENESS;
   CATEGORY_GENERATION; CATEGORY_GROUNDING; CATEGORY_STALE_LABELS; CATEGORY_PIPELINE_ERROR; CATEGORY_UNCLASSIFIED].

Definition category_of (row : eval_row) : category :=
  at_category (match er_attribution row with Some a => a | None => classify_item row end).

Record attribution_summary := mkSummary {
  as_counts : list (category * Z); as_rates : list (category * option Q); as_attributed : Z; as_passed : Z;
  as_failed : Z; as_unclassified : Z
}.
Definition count_category (rows : list eval_row) (c : category) : Z :=
  zlen (List.filter (fun r => bool_decide (category_of r = c)) rows).

Definition aggregate_attribution (rows : list eval_row) : attribution_summary :=
  let attributed := zlen rows - count_category rows CATEGORY_NOT_APPLICABLE in
  let passed := count_category rows CATEGORY_NONE in
  let counts := map (fun c => (c, count_category rows c)) FAILURE_CATEGORIES in
  mkSummary counts
    (map (fun c => (c.1, if attributed =? 0 then None else Some (inject_Z c.2 / inject_Z attributed)%Q)) counts)
    attributed passed (attributed - passed - count_category rows CATEGORY_UNCLASSIFIED)
    (count_category rows CATEGORY_UNCLASSIFIED).
End Attribution.

(** ** The figures of a run *)

Section Aggregate.
Context `{PyText}.

(** [None] over nothing. *)
Definition mean_of (values : list Q) : option Q :=
  match values with [] => None | _ => Some (foldr Qplus 0%Q values / inject_Z (zlen values))%Q end.

Record execution_counts := mkExecution {
  ex_total : Z; ex_succeeded : Z; ex_blocked : Z; ex_failed : Z; ex_timed_out : Z; ex_interrupted : Z
}.
#[export] Instance eta_execution : Eta execution_counts := fun x =>
  mkExecution (ex_total x) (ex_succeeded x) (ex_blocked x) (ex_failed x) (ex_timed_out x) (ex_interrupted x).

(** The counter a row's outcome moves; an unknown outcome is a failure. *)
Definition count_outcome (c : execution_counts) (row : eval_row) : execution_counts :=
  let outcome_is s := bool_decide (er_outcome row = lit s) in
  if outcome_is "success" || outcome_is "succeeded" then c {{ ex_succeeded ::= Z.succ }}
  else if outcome_is "guardrail_blocked" then c {{ ex_blocked ::= Z.succ }}
  else if outcome_is "timed_out" then c {{ ex_timed_out ::= Z.succ }}
  else if outcome_is "interrupted" then c {{ ex_interrupted ::= Z.succ }}
  else if outcome_is "total" then c {{ ex_total ::= Z.succ }}
  else c {{ ex_failed ::= Z.succ }}.

Record scoring_counts := mkScoring { sg_items : Z; sg_scored : Z; sg_skipped : Z; sg_unscorable : Z }.

Definition scored (row : eval_row) : bool := match er_scores row with Some _ => true | None => false end.
Definition count_rows (p : eval_row -> bool) (rows : list eval_row) : Z := zlen (List.filter p rows).

Record answer_quality := mkQuality {
  aq_groundedness : mean_result; aq_citation_precision : mean_result; aq_citation_recall : mean_result;
  aq_unsupported : mean_result; aq_hallucination_rate : option Q; aq_severe_rate : option Q; aq_judged : Z; aq_unjudged : Z
}.

Definition answer_quality_of (rows : list eval_row) : answer_quality :=
  let rows := List.filter (fun r => negb (bool_decide (er_outcome r = lit "guardrail_blocked"))) rows in
  let field (A : Type) (f : answer_evidence -> option A) : list (option A) := map (fun r => er_answer r ≫= f) rows in
  let judged : list text := omap (fun o : option text => o) (field text an_verdict) in
  let rate (n : Z) : option Q := match judged with [] => None | _ => Some (inject_Z n / inject_Z (zlen judged))%Q end in
  mkQuality (aggregate_mean (field Q an_groundedness)) (aggregate_mean (field Q an_citation_precision))
    (aggregate_mean (field Q an_citation_recall)) (aggregate_mean (field Q an_unsupported))
    (rate (zlen (List.filter (fun v => negb (bool_decide (v = lit "none"))) judged)))
    (rate (zlen (List.filter (fun v => bool_decide (v = lit "severe")) judged)))
    (zlen judged) (zlen rows - zlen judged).

Record run_results := mkResults {
  rr_recall : list (option Q); rr_precision : list (option Q); rr_hit_rate : list (option Q); rr_ndcg : list (option Q);
  rr_mrr : option Q; rr_evaluated : Z; rr_skipped : Z; rr_unscorable : Z; rr_blocked : Z; rr_failed : Z;
  rr_execution : execution_counts; rr_scoring : scoring_counts; rr_latency : option Q;
  rr_attribution : attribution_summary; rr_quality : option answer_quality
}.

(** The mean of a metric at the [n]-th [k], over the rows that were scored. *)
Definition mean_at (f : item_scores -> list Q) (rows : list eval_row) (n : nat) : option Q :=
  mean_of (omap (fun r => er_scores r ≫= fun s => f s !! n) rows).
Definition mean_at_k (f : item_scores -> list Q) (rows : list eval_row) : list (option Q) :=
  map (mean_at f rows) (seq 0 (length K_VALUES)).

Definition aggregate (rows : list eval_row) (end_to_end : bool) : run_results :=
  mkResults (mean_at_k sc_recall rows) (mean_at_k sc_precision rows) (mean_at_k sc_hit_rate rows) (mean_at_k sc_ndcg rows)
    (mean_of (omap (fun r => if scored r then er_reciprocal_rank r else None) rows))
    (count_rows scored rows) (count_rows er_skipped rows) (count_rows er_unscorable rows)
    (count_rows (fun r => bool_decide (er_outcome r = lit "guardrail_blocked")) rows)
    (count_rows (fun r => bool_decide (er_outcome r = lit "failed")) rows)
    (foldl count_outcome (mkExecution (zlen rows) 0 0 0 0 0) rows)
    (mkScoring (zlen rows) (count_rows scored rows) (count_rows (fun r => negb (scored r) && er_skipped r) rows)
       (count_rows (fun r => negb (scored r) && negb (er_skipped r)) rows))
    (mean_of (omap total_elapsed rows)) (aggregate_attribution rows)
    (if end_to_end then Some (answer_quality_of rows) else None).

Definition all_failed (rows : list eval_row) : bool :=
  match rows with [] => false | _ => forallb has_error rows end.
Definition first_error (rows : list eval_row) : option text := List.find has_error rows ≫= er_error.
End Aggregate.

(** ** Labels are checked *)

Lemma affected_in f items i : i ∈ items -> f i <> ∅ -> gi_item_id i ∈ affected f items.
Proof.
  intros Hi Hf. unfold affected. apply elem_of_list_to_set. rewrite list_elem_of_fmap. exists i. split; [done|].
  apply list_elem_of_In, filter_In. split; [by apply list_elem_of_In|]. by rewrite bool_decide_false.
Qed.
Lemma affected_from f items id : id ∈ affected f items -> exists i, i ∈ items /\ gi_item_id i = id /\ f i <> ∅.
Proof.
  unfold affected. intros Hid%elem_of_list_to_set. rewrite list_elem_of_fmap in Hid. destruct Hid as (i & -> & Hi).
  apply list_elem_of_In, filter_In in Hi as [Hi Hf]. exists i. split; [by apply list_elem_of_In|]. split; [done|].
  by apply negb_true_iff, bool_decide_eq_false in Hf.
Qed.

(** The report of the index covers the labels of an item. *)
Definition report_of (v : verified) (m : matching) (item : golden_item) : id_report :=
  match item_match_mode item m with MATCH_CHUNK => vf_chunks v | _ => vf_files v end.
Definition covers (v : verified) (m : matching) (items : list golden_item) : Prop :=
  forall i id, i ∈ items -> id ∈ relevant_ids i m -> id ∈ ir_present (report_of v m i) \/ id ∈ ir_missing (report_of v m i).

(** no score rests on a label the index cannot return.  An item is marked unscorable exactly when
    one of the labels it would be scored by is missing from the index or barred from
    retrieval; a run that the fail-fast policy does not refuse has no such item; and when the
    report covers the labels, every label of an item that is scored may be returned. *)
Theorem labels_checked items m v policy limit :
  let r := classify_labels items m v policy limit in
  (forall id, id ∈ lr_unscorable r <->
     exists i l, i ∈ items /\ gi_item_id i = id /\ l ∈ relevant_ids i m /\
       (l ∈ ir_missing (report_of v m i) \/ l ∈ ir_present (report_of v m i) /\ l ∉ ir_retrievable (report_of v m i))) /\
  (policy = STALE_POLICY_FAIL -> blocking r = false -> lr_unscorable r = ∅) /\
  (covers v m items -> forall i l, i ∈ items -> gi_item_id i ∉ lr_unscorable r -> l ∈ relevant_ids i m ->
     l ∈ ir_retrievable (report_of v m i)).
Proof.
  cbv zeta.
  assert (forall id, id ∈ lr_unscorable (classify_labels items m v policy limit) <->
     exists i l, i ∈ items /\ gi_item_id i = id /\ l ∈ relevant_ids i m /\
       (l ∈ ir_missing (report_of v m i) \/ l ∈ ir_present (report_of v m i) /\ l ∉ ir_retrievable (report_of v m i))) as Hu.
  { intros id. unfold classify_labels. cbn [lr_unscorable]. rewrite elem_of_union. split.
    - intros [(i & Hi & <- & Hf)%affected_from|(i & Hi & <- & Hf)%affected_from].
      + apply set_choose_L in Hf as [l Hl]. exists i, l. unfold item_missing, report_of in *. cbn in Hl. set_solver.
      + apply set_choose_L in Hf as [l Hl]. exists i, l. unfold item_barred, report_of in *. cbn in Hl. set_solver.
    - intros (i & l & Hi & <- & Hl & [Hm|[Hp Hr]]); [left|right]; (apply affected_in; [done|]).
      + assert (l ∈ item_missing v m i) by (unfold item_missing, report_of in *; cbn; set_solver). set_solver.
      + assert (l ∈ item_barred v m i) by (unfold item_barred, report_of in *; cbn; set_solver). set_solver. }
  split; [done|]. split.
  - intros -> Hb. unfold blocking, classify_labels in *. cbn in *. apply negb_false_iff, Z.eqb_eq in Hb.
    apply leibniz_equiv, size_empty_inv. lia.
  - intros Hc i l Hi Hn Hl. destruct (decide (l ∈ ir_retrievable (report_of v m i))) as [|Hr]; [done|]. exfalso.
    apply Hn, Hu. exists i, l. split; [done|]. split; [done|]. split; [done|]. destruct (Hc i l Hi Hl); auto.
Qed.

(** ** Attribution is evidence *)

Section Evidence.
Context `{PyText}.

(** An entry of the trace refused a chunk. *)
Definition refused (t : RetrievalTrace) (id : text) : Prop :=
  exists e d, e ∈ stages t /\ d ∈ se_dropped e /\ jtrue (get d "chunk_id") = true /\ py_str (get d "chunk_id") = id.
(** A search of the trace lists an identifier among its candidates. *)
Definition listed (t : RetrievalTrace) (id : text) : Prop :=
  exists e, e ∈ stages t /\ se_stage e <> STAGE_FINAL_CONTEXT /\ id ∈ stage_ids e.

Lemma dropped_reasons_in (l : list obj) (missing : gset text) (acc : list (text * text)) (x : text) :
  x ∈ (foldl (note_drop missing) acc l).*1 <->
  x ∈ acc.*1 \/ x ∈ missing /\ exists d, d ∈ l /\ jtrue (get d "chunk_id") = true /\ py_str (get d "chunk_id") = x.
Proof.
  revert acc. induction l as [|d l IH]; intros acc; cbn [foldl].
  { split; [by left|]. intros [?|(_ & d & ?%elem_of_nil & _)]; done. }
  rewrite IH. clear IH. unfold note_drop. destruct (jtrue (get d "chunk_id")) eqn:Ej; cbn [andb].
  2: { split; intros [?|(? & y & Hy & ? & ?)]; try (by left); right; split; try done.
       - exists y. split; [by right|done].
       - apply elem_of_cons in Hy as [->|Hy]; [congruence|]. by exists y. }
  case_bool_decide as Hm; cbn [andb].
  2: { split; intros [?|(? & y & Hy & ? & ?)]; try (by left); right; split; try done.
       - exists y. split; [by right|done].
       - apply elem_of_cons in Hy as [->|Hy]; [congruence|]. by exists y. }
  case_bool_decide as Ha; cbn [negb].
  - split.
    + intros [?|(? & y & Hy & ? & <-)]; [by left|right]. split; [done|]. exists y. split; [by right|done].
    + intros [?|(? & y & Hy & ? & <-)]; [by left|]. apply elem_of_cons in Hy as [->|Hy]; [by left|]. right. split; [done|].
      by exists y.
  - rewrite fmap_app, elem_of_app. cbn. rewrite list_elem_of_singleton. split.
    + intros [[?| ->]|(? & y & Hy & ? & <-)]; [by left| |].
      * right. split; [done|]. exists d. split; [by left|done].
      * right. split; [done|]. exists y. split; [by right|done].
    + intros [?|(? & y & Hy & ? & <-)]; [by left; left|]. apply elem_of_cons in Hy as [->|Hy]; [by left; right|].
      right. split; [done|]. by exists y.
Qed.

Lemma dropped_refused (t : RetrievalTrace) (missing : gset text) (x : text) : x ∈ (dropped_reasons (stages t) missing).*1 <-> x ∈ missing /\ refused t x.
Proof.
  unfold dropped_reasons. rewrite dropped_reasons_in. unfold refused. split.
  - intros [?%elem_of_nil|(Hm & d & Hd & Hj & Hx)]; [done|]. split; [done|].
    rewrite list_elem_of_In, in_concat in Hd. destruct Hd as (l & Hl & Hd). rewrite in_map_iff in Hl.
    destruct Hl as (e & <- & He). exists e, d. by rewrite !list_elem_of_In.
  - intros [Hm (e & d & He & Hd & Hj & Hx)]. right. split; [done|]. exists d. split; [|done].
    rewrite list_elem_of_In, in_concat. exists (se_dropped e). rewrite in_map_iff, <- list_elem_of_In. split; [|done].
    exists e. by rewrite <- list_elem_of_In.
Qed.

Lemma seen_listed (t : RetrievalTrace) (missing : gset text) :
  match List.filter (fun e => negb (bool_decide (stage_ids e ∩ missing = ∅))) (retrieval_stages (stages t)) with
  | [] => forall id, id ∈ missing -> ~ listed t id
  | _ :: _ => exists id, id ∈ missing /\ listed t id
  end.
Proof.
  unfold retrieval_stages, listed. destruct (List.filter _ _) as [|e l] eqn:E.
  - intros id Hid (e & He & Hs & Hin).
    assert (e ∈ List.filter (fun e => negb (bool_decide (stage_ids e ∩ missing = ∅)))
      (List.filter (fun e => negb (bool_decide (se_stage e = STAGE_FINAL_CONTEXT))) (stages t))) as Hx.
    { rewrite !list_elem_of_In, !filter_In, <- list_elem_of_In. rewrite !bool_decide_false; [done|set_solver|done]. }
    rewrite E in Hx. by apply elem_of_nil in Hx.
  - assert (e ∈ e :: l) as He by by left. rewrite <- E, !list_elem_of_In, !filter_In, <- list_elem_of_In in He.
    destruct He as [[He Hs%negb_true_iff%bool_decide_eq_false] Hi%negb_true_iff%bool_decide_eq_false].
    apply set_choose_L in Hi as [id Hid]. exists id. split; [set_solver|]. exists e. split; [done|]. split; [done|]. set_solver.
Qed.

(** C32: an attribution is what the trace shows.  Take a labelled item that was executed without
    an exception (neither blocked nor unscorable nor skipped), and its labels among the
    identifiers its row keeps, which are the first MAX_ROW_IDS of the ranked ones with their
    repetitions (so that an item with full recall can still miss one here:
    [found_and_blamed], a finding).  If none of its labels is kept, it is put down to the gate
    exactly when the trace shows a labelled chunk refused; to the ranking exactly when none was
    refused and a search listed one; to the index, the second pass or retrieval only when the
    trace shows no labelled identifier at all, and to retrieval only when something was
    returned and no list was cut short.  If all are kept it is put down to no stage of
    retrieval, and if some are, to completeness. *)
Theorem attribution_is_evidence (row : eval_row) (t : RetrievalTrace) :
  er_trace row = Some t -> stages t <> [] ->
  let expected : gset text := list_to_set (er_expected row) in
  let retrieved : gset text := list_to_set (er_retrieved row) in
  let c := at_category (classify_item row) in
  er_outcome row <> lit "guardrail_blocked" -> er_unscorable row = false -> er_error row = None ->
  er_skipped row = false -> expected <> ∅ ->
  (expected ∩ retrieved = ∅ ->
   (c = CATEGORY_CONTEXT <-> exists id, id ∈ expected /\ refused t id) /\
   (c = CATEGORY_RANKING <-> (forall id, id ∈ expected -> ~ refused t id) /\ exists id, id ∈ expected /\ listed t id) /\
   (c = CATEGORY_INDEX \/ c = CATEGORY_RETRIEVAL \/ c = CATEGORY_PASS_TWO ->
      forall id, id ∈ expected -> ~ refused t id /\ ~ listed t id) /\
   (c = CATEGORY_RETRIEVAL -> returned_total (retrieval_stages (stages t)) <> Some 0 /\ candidates_truncated (stages t) = false) /\
   c ∈ [CATEGORY_CONTEXT; CATEGORY_RANKING; CATEGORY_INDEX; CATEGORY_RETRIEVAL; CATEGORY_PASS_TWO; CATEGORY_UNCLASSIFIED]) /\
  (expected ⊆ retrieved -> c ∈ [CATEGORY_NONE; CATEGORY_GENERATION; CATEGORY_GROUNDING; CATEGORY_UNCLASSIFIED]) /\
  (expected ∩ retrieved <> ∅ -> ~ expected ⊆ retrieved -> c = CATEGORY_COMPLETENESS).
Proof.
  intros Ht Hne expected retrieved c Ho Hu He Hs Hx.
  assert (Hc : c = at_category (if bool_decide (expected ∖ retrieved = ∅) then answer_attribution row
    else if negb (bool_decide (expected ∩ retrieved = ∅)) then mkAttribution CATEGORY_COMPLETENESS []
    else retrieval_attribution row (expected ∖ retrieved))).
  { subst c. unfold classify_item, has_error. rewrite bool_decide_false by done. rewrite Hu, He, Hs. fold expected retrieved.
    rewrite (bool_decide_false (expected = ∅)) by done. cbn [orb]. by repeat case_match. }
  clearbody c. subst c. split; [|split].
  - intros Hd. assert (expected ∖ retrieved = expected) as -> by set_solver.
    rewrite (bool_decide_false (expected = ∅)) by done. rewrite (bool_decide_true (expected ∩ retrieved = ∅)) by done. cbn [negb].
    unfold retrieval_attribution. rewrite Ht. destruct (stages t) as [|e0 l0] eqn:Est; [done|]. rewrite <- Est.
    pose proof (dropped_refused t expected) as Hdr. pose proof (seen_listed t expected) as Hsl.
    destruct (dropped_reasons (stages t) expected) as [|[x0 r0] dropped] eqn:Ed.
    + assert (forall id, id ∈ expected -> ~ refused t id) as Hnr.
      { intros id Hid Hr. by apply (elem_of_nil id), Hdr. }
      destruct (List.filter _ _) as [|e1 seen] eqn:Es.
      * split; [|split; [|split; [|split]]].
        -- repeat case_match; cbn; (split; [done|]); intros (id & Hid & Hr); by destruct (Hnr id Hid).
        -- repeat case_match; cbn; (split; [done|]); intros (_ & id & Hid & Hr); by destruct (Hsl id Hid).
        -- intros _ id Hid. split; [by apply Hnr|by apply Hsl].
        -- case_bool_decide; cbn; [done|]. destruct (candidates_truncated _) eqn:Ec; cbn; [done|]. by repeat case_match.
        -- repeat case_match; cbn; set_solver.
      * cbn. split; [|split; [|split; [|split]]]; [| |by intros [?|[?|?]]|done|set_solver].
        -- split; [done|]. intros (id & Hid & Hr). by destruct (Hnr id Hid).
        -- by split.
    + destruct (Hdr x0) as [Hr _]. destruct Hr as [Hx0 Hr]; [by left|]. cbn. split; [|split; [|split; [|split]]]; [| |by intros [?|[?|?]]|done|set_solver].
      * split; [|done]. intros _. by exists x0.
      * split; [done|]. intros [Hn _]. by destruct (Hn x0 Hx0).
  - intros Hsub. rewrite bool_decide_true by set_solver. unfold answer_attribution. repeat case_match; cbn; set_solver.
  - intros Hi Hn. rewrite bool_decide_false by (intros E; apply Hn; set_solver). by rewrite bool_decide_false.
Qed.
End Evidence.

(** ** The figures add up *)

Section Figures.
Context `{PyText}.

Lemma count_rows_cons p r rows : count_rows p (r :: rows) = (if p r then 1 else 0) + count_rows p rows.
Proof. unfold count_rows. cbn [List.filter]. destruct (p r); rewrite ?zlen_cons; lia. Qed.

Lemma omap_scored {B} (f : eval_row -> option B) rows :
  (forall r, scored r = false -> f r = None) -> omap f (List.filter scored rows) = omap f rows.
Proof.
  intros Hf. induction rows as [|r rows IH]; cbn [List.filter omap list_omap]; [done|].
  destruct (scored r) eqn:E; cbn [omap list_omap]; [by rewrite IH|]. by rewrite (Hf r E), IH.
Qed.

Definition executed (c : execution_counts) : Z :=
  ex_succeeded c + ex_blocked c + ex_failed c + ex_timed_out c + ex_interrupted c.

Lemma execution_sum rows c : Forall (fun r => er_outcome r <> lit "total") rows ->
  executed (foldl count_outcome c rows) = executed c + zlen rows /\ ex_total (foldl count_outcome c rows) = ex_total c.
Proof.
  revert c. induction rows as [|r rows IH]; intros c; cbn [foldl]; [change (zlen []) with 0; intros _; lia|].
  intros [Hr Hrows]%Forall_cons. destruct (IH (count_outcome c r) Hrows) as [-> ->]. rewrite zlen_cons.
  assert (executed (count_outcome c r) = executed c + 1 /\ ex_total (count_outcome c r) = ex_total c) as [-> ->]; [|lia].
  unfold count_outcome, executed. rewrite (bool_decide_false (er_outcome r = lit "total")) by done.
  repeat case_match; cbn; lia.
Qed.

Lemma categories_sum rows :
  foldr (fun c n => c.2 + n) 0 (map (fun c => (c, count_category rows c)) FAILURE_CATEGORIES) +
  count_category rows CATEGORY_NONE + count_category rows CATEGORY_NOT_APPLICABLE = zlen rows.
Proof.
  assert (forall r rows c, count_category (r :: rows) c = (if bool_decide (category_of r = c) then 1 else 0) + count_category rows c) as Hc.
  { intros r l c. unfold count_category. cbn [List.filter]. case_bool_decide; rewrite ?zlen_cons; lia. }
  induction rows as [|r rows IH]; [done|]. rewrite zlen_cons, <- IH. cbn [map foldr FAILURE_CATEGORIES snd]. rewrite !Hc.
  destruct (category_of r); repeat first [rewrite bool_decide_true by done|rewrite bool_decide_false by done]; lia.
Qed.

(** the figures of a run add up and leave out what was not measured.  Every item is counted once by
    its outcome, once by whether it was scored, and once by the stage it is attributed to;
    and every mean of a retrieval metric, and the mean reciprocal rank, is that of the
    scored items alone, so that items that failed, were skipped or could not be scored move
    no mean. *)
Theorem figures_partition rows end_to_end :
  Forall (fun r => er_outcome r <> lit "total") rows ->
  let a := aggregate rows end_to_end in
  let s := aggregate (List.filter scored rows) end_to_end in
  ex_total (rr_execution a) = zlen rows /\ executed (rr_execution a) = zlen rows /\
  sg_items (rr_scoring a) = zlen rows /\
  sg_scored (rr_scoring a) + sg_skipped (rr_scoring a) + sg_unscorable (rr_scoring a) = zlen rows /\
  foldr (fun c n => c.2 + n) 0 (as_counts (rr_attribution a)) + as_passed (rr_attribution a) = as_attributed (rr_attribution a) /\
  rr_recall a = rr_recall s /\ rr_precision a = rr_precision s /\ rr_hit_rate a = rr_hit_rate s /\ rr_ndcg a = rr_ndcg s /\
  rr_mrr a = rr_mrr s.
Proof.
  intros Ho. unfold aggregate. cbn [rr_execution rr_scoring rr_attribution rr_recall rr_precision rr_hit_rate rr_ndcg rr_mrr
    sg_items sg_scored sg_skipped sg_unscorable].
  destruct (execution_sum rows (mkExecution (zlen rows) 0 0 0 0 0) Ho) as [-> ->].
  assert (forall f, mean_at_k f rows = mean_at_k f (List.filter scored rows)) as Hm.
  { intros f. unfold mean_at_k. apply map_ext. intros n. unfold mean_at. rewrite omap_scored; [done|].
    intros r. unfold scored. by destruct (er_scores r). }
  split_and!; try done.
  - clear Ho Hm. induction rows as [|r rows IH]; [done|]. rewrite !count_rows_cons, zlen_cons.
    destruct (scored r), (er_skipped r); cbn [negb andb]; lia.
  - unfold aggregate_attribution. cbn [as_counts as_passed as_attributed]. pose proof (categories_sum rows). lia.
  - rewrite omap_scored; [done|]. intros r. by intros ->.
Qed.
End Figures.

(** ** An item of a small run *)

Definition demo_entry (stage : string) (ids : list string) (dropped : list string) : stage_entry :=
  mkEntry stage None None None (zlen ids + zlen dropped) (zlen ids) (map (fun i => [("chunk_id", s_ i)]) ids) false
    (map (fun i => [("chunk_id", s_ i); ("reason", s_ "review_removed")]) dropped).
Definition blank_row : eval_row :=
  mkRow (lit "i1") (lit "q") MATCH_CHUNK [] [] None None None None None false false None None None (lit "success") JNull false []
    None None None None.
(** The labelled chunk was found by the search and refused by the gate. *)
Definition barred_row : eval_row :=
  blank_row {{ er_expected := [lit "c9"] }} {{ er_retrieved := [lit "c1"] }}
    {{ er_trace := Some (mkTrace 20 12 200 [demo_entry "base" ["c1"] ["c9"]; demo_entry "final_context" ["c1"] []] [] false) }}.

Lemma attribution_is_evidence_witness : at_category (classify_item (H := ascii_text) barred_row) = CATEGORY_CONTEXT.
Proof.
  pose proof (attribution_is_evidence (H := ascii_text) barred_row
    (mkTrace 20 12 200 [demo_entry "base" ["c1"] ["c9"]; demo_entry "final_context" ["c1"] []] [] false)
    eq_refl ltac:(done) ltac:(done) eq_refl eq_refl eq_refl ltac:(by vm_compute)) as [Hc _].
  apply (Hc ltac:(by vm_compute)). exists (lit "c9"). split; [by apply elem_of_list_to_set; left|].
  exists (demo_entry "base" ["c1"] ["c9"]), [("chunk_id", s_ "c9"); ("reason", s_ "review_removed")].
  split; [by left|]. split; [by left|]. by vm_compute.
Defined.

Lemma figures_partition_witness :
  executed (rr_execution (aggregate (H := ascii_text) [barred_row; blank_row {{ er_outcome := lit "timed_out" }}] false)) = 2.
Proof. apply (figures_partition (H := ascii_text)). by repeat constructor. Defined.

Definition demo_item : golden_item := mkItem (lit "i1") (lit "q") [lit "c9"] [] [] None [] [] None None [] None.
Definition gone : verified := mkVerified (mkIdReport ∅ ∅ {[ lit "c9" ]}) (mkIdReport ∅ ∅ ∅).

Lemma labels_checked_witness :
  blocking (classify_labels [demo_item] MATCH_CHUNK gone STALE_POLICY_FAIL 50) = true /\
  lit "i1" ∈ lr_unscorable (classify_labels [demo_item] MATCH_CHUNK gone STALE_POLICY_UNSCORABLE 50).
Proof.
  split; [by vm_compute|].
  apply (labels_checked [demo_item] MATCH_CHUNK gone STALE_POLICY_UNSCORABLE 50). exists demo_item, (lit "c9").
  split; [by left|]. split; [done|]. split; [by apply elem_of_list_to_set; left|].
  left. change (lit "c9" ∈ ({[ lit "c9" ]} : gset text)). by apply elem_of_singleton.
Defined.

(** ** What an empty message hides *)

(** [str(TimeoutError())] is the empty string, which counts as no error: a run whose every item
    timed out is not one that failed, and each item is put down to retrieval. *)
Definition timed_out_row : eval_row :=
  blank_row {{ er_expected := [lit "c9"] }} {{ er_error := Some [] }} {{ er_error_class := Some (lit "TimeoutError") }}
    {{ er_timed_out := true }} {{ er_outcome := lit "timed_out" }}
    {{ er_trace := Some (mkTrace 20 12 200 [] [] false) }}.

Example timeouts_pass :
  all_failed [timed_out_row; timed_out_row] = false /\
  at_category (classify_item (H := ascii_text) timed_out_row) = CATEGORY_UNCLASSIFIED /\
  rr_failed (aggregate (H := ascii_text) [timed_out_row; timed_out_row] false) = 0.
Proof. by vm_compute. Qed.

(** ** What the display bound hides *)

(** The row keeps twenty identifiers, repetitions included, while the metrics first drop
    repetitions: an item whose file is the second distinct one has full recall at 3 and is
    still attributed to the ranking. *)
Definition deep_ids : list text := repeat (lit "a") 20 ++ [lit "b"].
Definition deep_row : eval_row :=
  blank_row {{ er_match_mode := MATCH_FILE }} {{ er_expected := [lit "b"] }} {{ er_retrieved := py_prefix deep_ids MAX_ROW_IDS }}
    {{ er_trace := Some (mkTrace 30 12 200 [mkEntry "base" None None None 21 21 (map (fun i => [("file_id", JStr i)]) deep_ids) false []] [] false) }}.

Example found_and_blamed :
  (recall_at_k deep_ids {[ lit "b" ]} 3 == 1)%Q /\
  at_category (classify_item (H := ascii_text) deep_row) = CATEGORY_RANKING.
Proof. by vm_compute. Qed.
