(* ===== verification/EvalRunner.v ===== *)
(** * Running an evaluation

    The stateful part of [src/backend/rag/app/services/eval_runner.py]: opening a run,
    checking its labels, executing its items at once, persisting each as it completes, and
    closing the run whatever happens; and the dispatch of the requests.  Programs are those of
    [Interleaving] over the store of [EvalStore].  The replies of the other services, the
    conversation graph and the clock are the class [EvalServices], numbered like every other
    interaction, so that they may be anything, an exception and a cancellation included. *)

From Stdlib Require Import QArith.
From stdpp Require Import base strings list sets gmap sorting.
From S2P Require Import Prelude PyValue Base64 Auth Interleaving MemoryNormalize TextWindow LlmPrompts ContextAssembler RetrievalTrace LearnedReranker CitationMetrics RetrievalMetrics GoldenSet EvalStore EvalScoring EvalSafety.

Local Open Scope string_scope.
Local Open Scope list_scope.
Local Open Scope Z_scope.

Inductive eval_mode := MODE_RETRIEVAL | MODE_END_TO_END.
#[export] Instance eval_mode_eq_dec : EqDecision eval_mode.
Proof. solve_decision. Defined.
Definition mode_text (m : eval_mode) : text :=
  match m with MODE_RETRIEVAL => lit "retrieval" | MODE_END_TO_END => lit "end_to_end" end.
Definition mode_of (t : text) : option eval_mode :=
  if bool_decide (t = lit "retrieval") then Some MODE_RETRIEVAL
  else if bool_decide (t = lit "end_to_end") then Some MODE_END_TO_END else None.

(** What the graph reports of one item. *)
Record graph_result := mkGraph {
  gr_answer : answer_evidence; gr_llm_actions : list obj; gr_outcome : option text; gr_error : option json;
  gr_error_class : option text; gr_failed_node : option text; gr_guardrail_stage : json; gr_sources : option (list obj)
}.

Record runner := mkRunner {
  rn_cfg : eval_config; rn_owner : text; rn_candidate_k : Z; rn_rerank_enabled : bool; rn_rerank_limit : Z;
  rn_validate_labels : bool; rn_stale_policy : text; rn_max_reported : Z; rn_trace : RetrievalTrace; rn_has_graph : bool;
  rn_top_k_documents : Z
}.

(** Replies, by the number of the interaction.  A graph run fills the trace it is given, also
    when it raises; [gather_order] is the order in which the items of a run take turns. *)
Class EvalServices := {
  verify_reply : nat -> list text -> list text -> outcome py_exn verified;
  search_reply : nat -> text -> Z -> outcome py_exn obj;
  rerank_reply : nat -> json -> list text -> score_reply;
  graph_reply : nat -> text -> text -> RetrievalTrace -> outcome py_exn graph_result * RetrievalTrace;
  file_labels_reply : nat -> list text -> outcome py_exn (list json);
  chunk_labels_reply : nat -> list obj -> outcome py_exn (list json);
  monotonic : nat -> Q;
  gather_order : nat -> list nat;
  config_snapshot : text -> Z -> option text -> obj
}.

(** ** [asyncio.gather] *)

Section Gather.
Context {W A : Type}.

Fixpoint first_raise (ps : list (prog W A)) : option py_exn :=
  match ps with
  | [] => None
  | Done (Raise e) :: _ => Some e
  | _ :: ps => first_raise ps
  end.

Fixpoint in_turn (ps : list (prog W A)) : prog W (list A) :=
  match ps with
  | [] => pret []
  | p :: ps => a <~ p; l <~ in_turn ps; pret (a :: l)
  end.

(** The programs take turns as the order says, and the rest run one after the other; the first
    exception is the exception of the whole.  The siblings of a program that raised go on in the
    background; what they write then is interference like any other replica's. *)
Fixpoint gather (order : list nat) (ps : list (prog W A)) : prog W (list A) :=
  match first_raise ps with
  | Some e => praise e
  | None =>
      match order with
      | [] => in_turn ps
      | i :: order =>
          match ps !! i with
          | Some (Act f) => Act (fun w => let '(q, w') := f w in (gather order (<[i := q]> ps), w'))
          | _ => gather order ps
          end
      end
  end.
End Gather.

(** ** Stored rows *)

Definition opt_json {A} (f : A -> json) (o : option A) : json := match o with Some a => f a | None => JNull end.
Definition texts_json (l : list text) : json := JArr (map JStr l).

Definition category_name (c : category) : string :=
  match c with
  | CATEGORY_INDEX => "index" | CATEGORY_RETRIEVAL => "retrieval" | CATEGORY_PASS_TWO => "pass_two"
  | CATEGORY_RANKING => "ranking" | CATEGORY_CONTEXT => "context" | CATEGORY_COMPLETENESS => "completeness"
  | CATEGORY_GENERATION => "generation" | CATEGORY_GROUNDING => "grounding" | CATEGORY_STALE_LABELS => "stale_labels"
  | CATEGORY_PIPELINE_ERROR => "pipeline_error" | CATEGORY_UNCLASSIFIED => "unclassified" | CATEGORY_NONE => "none"
  | CATEGORY_NOT_APPLICABLE => "not_applicable"
  end.
Definition attribution_json (a : attribution) : json :=
  JObj [("category", s_ (category_name (at_category a))); ("evidence", JObj (at_evidence a))].

Definition k_json (values : list json) : json := JObj (zip (map (fun k => match k with 1 => "1" | 3 => "3" | 5 => "5" | 10 => "10" | _ => "20" end) K_VALUES) values).
Definition scores_json (s : item_scores) : json :=
  JObj [("recall_at_k", k_json (map JFloat (sc_recall s))); ("precision_at_k", k_json (map JFloat (sc_precision s)));
        ("hit_rate_at_k", k_json (map JFloat (sc_hit_rate s))); ("ndcg_at_k", k_json (map JFloat (sc_ndcg s)))].

Definition stage_json (e : stage_entry) : json :=
  JObj ([("stage", s_ (se_stage e)); ("query", opt_json JStr (se_query e)); ("query_source", opt_json JStr (se_query_source e));
         ("requested_k", opt_json JInt (se_requested_k e)); ("returned_count", JInt (se_returned_count e));
         ("kept_count", JInt (se_kept_count e)); ("candidates", JArr (map JObj (se_candidates e)));
         ("candidates_truncated", JBool (se_truncated e))] ++
        match se_dropped e with [] => [] | l => [("dropped", JArr (map JObj l))] end).
Definition decision_json (d : decision_entry) : json :=
  JObj [("stage", s_ (de_stage d)); ("decision", s_ (de_decision d)); ("reason", opt_json s_ (de_reason d)); ("detail", JObj (de_detail d))].
Definition trace_json (t : RetrievalTrace) : json :=
  JObj [("stages", JArr (map stage_json (stages t))); ("decisions", JArr (map decision_json (decisions t)));
        ("provenance", JArr (map JObj (provenance t))); ("truncated", JBool (truncated t))].

Definition answer_json (a : answer_evidence) : obj :=
  [("answer", an_answer a); ("groundedness", opt_json JFloat (an_groundedness a));
   ("hallucination_verdict", opt_json JStr (an_verdict a)); ("unsupported_claim_count", opt_json JFloat (an_unsupported a));
   ("citation_precision", opt_json JFloat (an_citation_precision a)); ("citation_recall", opt_json JFloat (an_citation_recall a));
   ("citation_count", opt_json JFloat (an_citation_count a))].

Definition row_json (r : eval_row) : obj :=
  [("item_id", JStr (er_item_id r)); ("query", JStr (er_query r)); ("match_mode", JStr (match_text (er_match_mode r)));
   ("expected_ids", texts_json (er_expected r)); ("retrieved_ids", texts_json (er_retrieved r));
   ("first_hit_rank", opt_json JInt (er_first_hit r)); ("reciprocal_rank", opt_json JFloat (er_reciprocal_rank r));
   ("recall_at_10", opt_json JFloat (er_recall_10 r)); ("latency_ms", opt_json JFloat (total_elapsed r));
   ("queue_wait_ms", opt_json JFloat (er_queue_wait r)); ("execution_ms", opt_json JFloat (er_execution r));
   ("total_elapsed_ms", opt_json JFloat (total_elapsed r)); ("skipped", JBool (er_skipped r));
   ("unscorable", JBool (er_unscorable r)); ("error", opt_json JStr (er_error r));
   ("error_class", opt_json JStr (er_error_class r)); ("failed_node", opt_json JStr (er_failed_node r));
   ("outcome", JStr (er_outcome r)); ("guardrail_stage", er_guardrail_stage r); ("timed_out", JBool (er_timed_out r));
   ("llm_actions", JArr (map JObj (er_llm_actions r)))] ++
  match er_answer r with Some a => answer_json a | None => [] end ++
  match er_trace r with Some t => [("retrieval_trace", trace_json t)] | None => [] end ++
  match er_scores r with Some s => [("scores", scores_json s)] | None => [] end ++
  match er_attribution r with Some a => [("failure_attribution", attribution_json a)] | None => [] end.

Definition mean_json (m : mean_result) : json :=
  JObj [("mean", opt_json JFloat (mean m)); ("counted", JInt (counted m)); ("excluded", JInt (excluded m))].
Definition results_json (r : run_results) : obj :=
  let at_k l := k_json (map (opt_json JFloat) l) in
  let ex := rr_execution r in let sg := rr_scoring r in let fa := rr_attribution r in
  [("recall_at_k", at_k (rr_recall r)); ("precision_at_k", at_k (rr_precision r)); ("hit_rate_at_k", at_k (rr_hit_rate r));
   ("ndcg_at_k", at_k (rr_ndcg r)); ("mrr", opt_json JFloat (rr_mrr r)); ("items_evaluated", JInt (rr_evaluated r));
   ("items_skipped", JInt (rr_skipped r)); ("items_unscorable", JInt (rr_unscorable r));
   ("items_guardrail_blocked", JInt (rr_blocked r)); ("items_failed", JInt (rr_failed r));
   ("execution", JObj [("total", JInt (ex_total ex)); ("succeeded", JInt (ex_succeeded ex)); ("guardrail_blocked", JInt (ex_blocked ex));
                       ("failed", JInt (ex_failed ex)); ("timed_out", JInt (ex_timed_out ex)); ("interrupted", JInt (ex_interrupted ex))]);
   ("scoring", JObj [("dataset_items", JInt (sg_items sg)); ("scored", JInt (sg_scored sg)); ("skipped", JInt (sg_skipped sg));
                     ("unscorable", JInt (sg_unscorable sg))]);
   ("mean_latency_ms", opt_json JFloat (rr_latency r));
   ("failure_attribution", JObj
      [("counts", JObj (map (fun c => (category_name c.1, JInt c.2)) (as_counts fa)));
       ("rates", JObj (map (fun c => (category_name c.1, opt_json JFloat c.2)) (as_rates fa)));
       ("items_attributed", JInt (as_attributed fa)); ("items_without_failure", JInt (as_passed fa));
       ("items_failed_attributed", JInt (as_failed fa)); ("items_unclassified", JInt (as_unclassified fa))])] ++
  match rr_quality r with
  | None => []
  | Some q =>
      [("answer_quality", JObj
          [("groundedness", mean_json (aq_groundedness q)); ("citation_precision", mean_json (aq_citation_precision q));
           ("citation_recall", mean_json (aq_citation_recall q)); ("unsupported_claims", mean_json (aq_unsupported q));
           ("hallucination_rate", opt_json JFloat (aq_hallucination_rate q));
           ("hallucination_severe_rate", opt_json JFloat (aq_severe_rate q)); ("items_judged", JInt (aq_judged q));
           ("items_unjudged", JInt (aq_unjudged q))])]
  end.

Definition policy_text (p : stale_policy) : text :=
  match p with STALE_POLICY_FAIL => lit "fail" | STALE_POLICY_UNSCORABLE => lit "mark_unscorable" end.
(** The stored summary; the counts of a check that was not made are [None]. *)
Definition report_json (r : label_report) : obj :=
  let count f := match lr_counts r with Some c => JInt (f c) | None => JNull end in
  let ids f := match lr_counts r with Some c => texts_json (f c) | None => JArr [] end in
  [("checked", JBool (match lr_counts r with Some _ => true | None => false end)); ("reason", opt_json s_ (lr_reason r));
   ("error", opt_json JStr (lr_error r)); ("policy", JStr (policy_text (lr_policy r))); ("labels_checked", count lc_checked);
   ("stale_label_count", count lc_stale_labels); ("stale_item_count", count lc_stale_items); ("stale_ids", ids lc_stale_ids);
   ("stale_item_ids", ids lc_item_ids); ("unretrievable_label_count", count lc_barred_labels);
   ("unretrievable_item_count", count lc_barred_items); ("unretrievable_ids", ids lc_barred_ids);
   ("unscorable_item_count", JInt (lr_unscorable_count r));
   ("truncated", JBool (match lr_counts r with Some c => lc_truncated c | None => false end))].

Definition show_count (o : option Z) : text := match o with Some n => show n | None => lit "None" end.
Definition stale_label_error (r : label_report) : text :=
  lit "Refused before scoring: " ++ show (lr_unscorable_count r) ++
  lit " item(s) reference golden-set labels the active index cannot return (" ++
  show_count (lc_stale_labels <$> lr_counts r) ++ lit " label(s) no longer exist, " ++
  show_count (lc_barred_labels <$> lr_counts r) ++
  lit " exist but are excluded from retrieval). Re-label the dataset against the current index, or set eval_stale_label_policy to 'mark_unscorable' to score the remaining items and report these separately.".

Definition MAX_LLM_ACTIONS : Z := 16.

Definition exn_class_of (e : py_exn) : text :=
  match e with
  | GuardrailBlockedError _ => lit "GuardrailBlockedError"
  | DownstreamRPCError _ _ _ => lit "DownstreamRPCError"
  | PyError c _ => c
  | Cancelled => lit "CancelledError"
  end.

(** ** Items *)

Section Runner.
Context `{PyText} `{JsonText} `{CompactJson} `{Fingerprint} `{EvalEnv} `{Discount} `{EvalServices}.
Context (rn : runner).

Abbreviation cfg := (rn_cfg rn).
Abbreviation eprog := (prog eval_db).

Definition time_now : eprog Q := interact monotonic.

(** The row before anything has been measured. *)
Definition new_row (item : golden_item) (m : matching) (unscorable : bool) : eval_row :=
  let relevant := relevant_ids item m in
  mkRow (gi_item_id item) (gi_query item) (item_match_mode item m) (set_sorted relevant) [] None None None None None
    (bool_decide (relevant = ∅)) unscorable None None None (lit "success") JNull false [] None None None None.

Definition record_item_timing (row : eval_row) (scheduled started finished : Q) : eval_row :=
  row {{ er_queue_wait := Some ((started - scheduled) * 1000)%Q }} {{ er_execution := Some ((finished - started) * 1000)%Q }}.

(** [row["failure_attribution"] = classify_item(row)]. *)
Definition attributed (row : eval_row) : eval_row := row {{ er_attribution := Some (classify_item row) }}.

Definition persist_item_result (run_id tenant_id : text) (row : eval_row) (on_item : eval_row -> eprog unit) : eprog unit :=
  append_item_result cfg run_id tenant_id (row_json row) ;;~
  heartbeat_run cfg run_id tenant_id (rn_owner rn) ;;~
  on_item row.

(** What an item leaves behind: its row and trace, and the ranked identifiers with whether
    retrieval was measured, or the exception. *)
Definition evidence : Type := eval_row * RetrievalTrace * outcome py_exn (list text * bool).

(** [len(response.get("chunks") or response.get("results") or [])]. *)
Definition reply_length (response : obj) : Z :=
  match get response "chunks" ||| get response "results" with
  | JArr l => zlen l | JStr t => zlen t | JObj o => zlen o | _ => 0
  end.

Definition searched (row : eval_row) (trace : RetrievalTrace) (query : text) (depth : Z) (response : obj)
    (k : RetrievalTrace -> list obj -> eprog evidence) : eprog evidence :=
  match (let* p := partition_eligible response in
         let* t := record_stage trace STAGE_BASE p.1 (Some query) (Some (lit "dataset_query")) (Some depth)
                     (Some (reply_length response)) p.2 in Ok (t, p.1)) with
  | Raise e => pret (row, trace, Raise e)
  | Ok (t, eligible) => k t eligible
  end.

Definition reranked_evidence (row : eval_row) (trace : RetrievalTrace) (r : RerankResult) : evidence :=
  match record_stage trace STAGE_RERANKED (rr_candidates r) None None None None [] with
  | Raise e => (row, trace, Raise e)
  | Ok t =>
      let t := record_decision t STAGE_RERANKED (rr_status r)
        (Some (if bool_decide (rr_status r = "success") then "learned_cross_encoder" else "deterministic_retrieval_order_fallback"))
        [("candidate_count", JInt (zlen (rr_candidates r)))] in
      match record_stage t STAGE_FINAL_CONTEXT (rr_candidates r) None None None None [] with
      | Raise e => (row, t, Raise e)
      | Ok t => (row, t, Ok (retrieved_ids (rr_candidates r) (er_match_mode row), true))
      end
  end.

Definition run_search_item (row : eval_row) (trace : RetrievalTrace) : eprog evidence :=
  let query := er_query row in
  let depth := candidate_depth (rn_candidate_k rn) in
  reply <~ interact (fun n => search_reply n query depth);
  match reply with
  | Raise e => pret (row, trace, Raise e)
  | Ok response =>
      searched row trace query depth response (fun t eligible =>
        r <~ interact (fun n => rerank (rn_rerank_enabled rn) (rn_rerank_limit rn) (rerank_reply n) (JStr query) eligible);
        pret (match r with Raise e => (row, t, Raise e) | Ok r => reranked_evidence row t r end))
  end.

(** [outcome or ("failed" if error else "success")]. *)
Definition graph_outcome (g : graph_result) : text :=
  match gr_outcome g with
  | Some ((_ :: _) as t) => t
  | _ => if match gr_error g with Some e => jtrue e | None => false end then lit "failed" else lit "success"
  end.

Definition graph_row (row : eval_row) (g : graph_result) : eval_row :=
  let outcome := graph_outcome g in
  let row := row {{ er_llm_actions := py_prefix (gr_llm_actions g) MAX_LLM_ACTIONS }} {{ er_answer := Some (gr_answer g) }}
                 {{ er_outcome := outcome }} {{ er_guardrail_stage := gr_guardrail_stage g }} in
  if bool_decide (outcome ∈ [lit "success"; lit "guardrail_blocked"]) then row
  else row {{ er_error := Some (match gr_error g with Some JNull | None => lit "conversation graph failed" | Some e => py_str e end) }}
           {{ er_error_class := Some (match gr_error_class g with Some ((_ :: _) as c) => c | _ => lit "ConversationGraphError" end) }}
           {{ er_failed_node := match gr_failed_node g with Some ((_ :: _) as n) => Some n | _ => None end }}.

(** The recorded context agrees with the sources of the answer. *)
Definition evidence_consistent (sources : option (list obj)) (ids : list text) (m : matching) (final : option stage_entry) : bool :=
  match sources, final with
  | Some chunks, Some stage =>
      let trace_ids := retrieved_ids (se_candidates stage) m in
      (se_kept_count stage =? zlen chunks) && (zlen ids =? zlen chunks) && (zlen trace_ids =? zlen (se_candidates stage))
      && bool_decide (trace_ids = take (length trace_ids) ids)
  | _, _ => false
  end.

Definition graph_evidence (row : eval_row) (trace : RetrievalTrace) (g : graph_result) : evidence :=
  let row := graph_row row g in
  let outcome := er_outcome row in
  match partition_from (default [] (gr_sources g)) with
  | Raise e => (row, trace, Raise e)
  | Ok (eligible, _) =>
      let ids := retrieved_ids eligible (er_match_mode row) in
      if bool_decide (outcome = lit "guardrail_blocked") then (row, trace, Ok (ids, false))
      else
        let final := final_context_stage trace in
        if negb (evidence_consistent (gr_sources g) ids (er_match_mode row) final) && bool_decide (outcome = lit "success")
        then (row, trace, Raise (PyError (lit "EvalEvidenceConsistencyError")
               (lit "Successful end-to-end graph result is missing or inconsistent final-context evidence")))
        else if bool_decide (outcome = lit "success") then (row, trace, Ok (ids, true))
        else (row, trace, Ok (ids, match final with Some _ => true | None => false end))
  end.

Definition run_graph_item (row : eval_row) (pipeline_mode : text) (trace : RetrievalTrace) : eprog evidence :=
  r <~ interact (fun n => graph_reply n (er_query row) pipeline_mode trace);
  pret (match r with (Raise e, t) => (row, t, Raise e) | (Ok g, t) => graph_evidence row t g end).

Fixpoint rank_of (n : Z) (relevant : gset text) (ids : list text) : option Z :=
  match ids with [] => None | x :: ids => if bool_decide (x ∈ relevant) then Some n else rank_of (n + 1) relevant ids end.

(** The row of an item whose retrieval was measured. *)
Definition scored_row (row : eval_row) (relevant : gset text) (ids : list text) : eval_row :=
  if bool_decide (relevant = ∅) then row
  else row {{ er_first_hit := rank_of 1 relevant (dedupe ids) }} {{ er_reciprocal_rank := Some (reciprocal_rank ids relevant) }}
           {{ er_recall_10 := Some (recall_at_k ids relevant 10) }} {{ er_scores := Some (scores_of ids relevant) }}.

Definition failed_row (row : eval_row) (e : py_exn) : eval_row :=
  let timed_out := is_class "TimeoutError" e in
  row {{ er_error := Some (exn_text e) }} {{ er_error_class := Some (exn_class_of e) }} {{ er_timed_out := timed_out }}
      {{ er_outcome := if timed_out then lit "timed_out" else lit "failed" }}.

(** The row an item closes with; a cancellation closes none. *)
Definition close_row (relevant : gset text) (scheduled started finished : Q) (ev : evidence) : outcome py_exn eval_row :=
  let '(row, trace, r) := ev in
  let timed row := (record_item_timing row scheduled started finished) {{ er_trace := Some trace }} in
  match r with
  | Raise e => if is_exception e then Ok (attributed (timed (failed_row row e))) else Raise e
  | Ok (ids, measured) =>
      let row := (timed row) {{ er_retrieved := py_prefix ids MAX_ROW_IDS }} in
      Ok (attributed (if bool_decide (er_outcome row = lit "guardrail_blocked") || negb measured then row
                      else scored_row row relevant ids))
  end.

(** [_score_item]; waiting for the semaphore is the gap between the two times. *)
Definition score_item (run_id : text) (identity : auth_identity) (item : golden_item) (m : matching) (mode : eval_mode)
    (unscorable : bool) (pipeline_mode : option text) (on_item : eval_row -> eprog unit) : eprog eval_row :=
  let tenant_id := ai_tenant_id identity in
  let row := new_row item m unscorable in
  if unscorable then
    let row := attributed row in
    persist_item_result run_id tenant_id row on_item ;;~ pret row
  else
    scheduled <~ time_now;
    started <~ time_now;
    ev <~ match mode with
          | MODE_END_TO_END => run_graph_item row (default (lit "regular") pipeline_mode) (rn_trace rn)
          | MODE_RETRIEVAL => run_search_item row (rn_trace rn)
          end;
    finished <~ time_now;
    row <~ plift (close_row (relevant_ids item m) scheduled started finished ev);
    persist_item_result run_id tenant_id row on_item ;;~ pret row.

(** ** Runs *)

Definition validate_labels (items : list golden_item) (m : matching) : eprog label_report :=
  let policy := stale_label_policy (rn_stale_policy rn) in
  if negb (rn_validate_labels rn) then pret (unchecked_report "disabled" policy None)
  else
    let '(chunk_ids, file_ids) := label_targets items m in
    if bool_decide (chunk_ids = ∅) && bool_decide (file_ids = ∅) then pret (unchecked_report "no_labels" policy None)
    else
      reply <~ interact (fun n => verify_reply n (set_sorted chunk_ids) (set_sorted file_ids));
      match reply with
      | Raise e => if is_exception e then pret (unchecked_report "unavailable" policy (Some (exn_text e))) else praise e
      | Ok v => pret (classify_labels items m v policy (rn_max_reported rn))
      end.

Record run_summary := mkRunSummary { rs_run_id : text; rs_status : run_status; rs_results : obj; rs_error : option text }.

Definition execute_body (run_id : text) (identity : auth_identity) (items : list golden_item) (m : matching) (mode : eval_mode)
    (pipeline_mode : option text) (on_item : eval_row -> eprog unit) : eprog run_summary :=
  let tenant_id := ai_tenant_id identity in
  report <~ validate_labels items m;
  record_label_validation cfg run_id tenant_id (report_json report) ;;~
  if blocking report then
    let error := stale_label_error report in
    finish_run cfg run_id tenant_id FAILED [] (Some error) ;;~ pret (mkRunSummary run_id FAILED [] (Some error))
  else
    order <~ interact gather_order;
    rows <~ gather order
      (map (fun item => score_item run_id identity item m mode (bool_decide (gi_item_id item ∈ lr_unscorable report))
                          pipeline_mode on_item) items);
    let failed := all_failed rows in
    let status := if failed then FAILED else COMPLETED in
    let results := results_json (aggregate rows (bool_decide (mode = MODE_END_TO_END))) in
    let error := if failed then first_error rows else None in
    finish_run cfg run_id tenant_id status results error ;;~ pret (mkRunSummary run_id status results error).

Definition CANCELLED_ERROR : text := lit "Eval run was cancelled before it finished".

(** The two handlers: a cancelled run is closed and the cancellation goes on; any other
    exception closes the run and is reported. *)
Definition execute_run (run_id : text) (identity : auth_identity) (items : list golden_item) (m : matching) (mode : eval_mode)
    (pipeline_mode : option text) (on_item : eval_row -> eprog unit) : eprog run_summary :=
  let tenant_id := ai_tenant_id identity in
  heartbeat_run cfg run_id tenant_id (rn_owner rn) ;;~
  pcatch (execute_body run_id identity items m mode pipeline_mode on_item) (fun e => Some (
    if is_exception e
    then finish_run cfg run_id tenant_id FAILED [] (Some (exn_text e)) ;;~ pret (mkRunSummary run_id FAILED [] (Some (exn_text e)))
    else finish_run cfg run_id tenant_id FAILED [] (Some CANCELLED_ERROR) ;;~ praise e)).

(** ** Opening a run *)

Record prepared_run := mkPrepared {
  pr_run : run_doc; pr_identity : auth_identity; pr_items : list golden_item; pr_match : matching; pr_mode : eval_mode;
  pr_pipeline : option text
}.

Definition PIPELINE_MODES : list text := [lit "regular"; lit "extended"].
Definition invalid {A} (m : text) : eprog A := praise (EvalValidationError m).

(** The items that only name files, by identifier or position. *)
Fixpoint unresolved_items (n : Z) (items : list golden_item) : list text :=
  match items with
  | [] => []
  | item :: items =>
      let rest := unresolved_items (n + 1) items in
      if negb (bool_decide (gi_file_names item = [])) && negb (has_chunks item) && negb (has_files item)
      then match gi_item_id item with [] => show n | t => t end :: rest else rest
  end.

Fixpoint comma (l : list text) : text :=
  match l with [] => [] | [t] => t | t :: l => t ++ lit ", " ++ comma l end.

(** What a run executes: the snapshot of a benchmark, or the live dataset. *)
Record run_source := mkSource { so_items : list golden_item; so_version : option Z; so_sha256 : option text }.

Definition candidate_k_of (mode : eval_mode) : Z :=
  match mode with
  | MODE_END_TO_END => if rn_rerank_enabled rn then rn_rerank_limit rn else rn_top_k_documents rn
  | MODE_RETRIEVAL => candidate_depth (rn_candidate_k rn)
  end.

Definition open_run (caller : option auth_identity) (dataset_id mode : text) (pipeline_mode benchmark_id : option text)
    (snapshot : option run_source) : eprog prepared_run :=
  match mode_of mode with
  | None => invalid (lit "Unsupported eval run mode: " ++ repr (JStr mode))
  | Some mode =>
      if bool_decide (mode = MODE_END_TO_END) && negb (rn_has_graph rn)
      then invalid (lit "end_to_end runs are unavailable: no conversation graph is wired")
      else if match pipeline_mode with Some p => negb (bool_decide (p ∈ PIPELINE_MODES)) | None => false end
      then invalid (lit "Unsupported pipeline mode: " ++ repr (JStr (default [] pipeline_mode)))
      else if bool_decide (is_Some pipeline_mode) && bool_decide (mode = MODE_RETRIEVAL)
      then invalid (lit "pipeline_mode applies to end_to_end runs only: a retrieval run issues one pipeline-independent search")
      else
        let pipeline_mode := match mode with MODE_END_TO_END => Some (default (lit "regular") pipeline_mode) | MODE_RETRIEVAL => pipeline_mode end in
        dataset <~ match snapshot with
                   | Some s => pret s
                   | None => x <~ get_dataset cfg caller dataset_id; pret (mkSource (ds_items x) (ds_version x) (ds_sha256 x))
                   end;
        match caller with
        | None => praise (PyError (lit "AuthError") (lit "authenticated identity is missing from request context"))
        | Some identity =>
            match so_items dataset with
            | [] => invalid (lit "Dataset has no items to evaluate")
            | items =>
                match unresolved_items 0 items with
                | (_ :: _) as l =>
                    invalid (lit "Dataset has unresolved expected_file_names; resolve filenames before running it (items: " ++
                             comma (take 10 l) ++ lit ")")
                | [] =>
                    let m := dataset_match_mode items in
                    run <~ create_run cfg caller dataset_id (config_snapshot (mode_text mode) (candidate_k_of mode) pipeline_mode)
                             (match_text m) (mode_text mode) (so_version dataset) (so_sha256 dataset) pipeline_mode benchmark_id
                             (Some (rn_owner rn));
                    pret (mkPrepared run identity items m mode pipeline_mode)
                end
            end
        end
  end.

(** [PreparedRun.execute]. *)
Definition execute (p : prepared_run) (on_item : eval_row -> eprog unit) : eprog run_summary :=
  execute_run (ru_id (pr_run p)) (pr_identity p) (pr_items p) (pr_match p) (pr_mode p) (pr_pipeline p) on_item.

(** [start_run] returns the open run, and its execution goes on in the background. *)
Definition start_run (caller : option auth_identity) (dataset_id mode : text) (pipeline_mode : option text)
    : eprog (run_doc * eprog run_summary) :=
  p <~ open_run caller dataset_id mode pipeline_mode None None;
  pret (pr_run p, execute p (fun _ => pret tt)).

(** ** Importing a golden set *)

(** The names to resolve, each once. *)
Definition import_labels (items : list golden_item) : list text :=
  dedupe (concat (map gi_file_names (List.filter (fun i => negb (bool_decide (gi_answerable i = Some false))) items))).

Definition chunk_requests (items : list golden_item) : list obj :=
  map (fun i => [("item_id", JStr (gi_item_id i)); ("file_ids", texts_json (gi_file_ids i)); ("facts", texts_json (gi_claims i))])
    (List.filter (fun i => negb (bool_decide (gi_answerable i = Some false)) && has_files i) items).

(** The errors of a preparation: those of validation, of files, of chunks. *)
Inductive import_error := ImportInvalid (index : option nat) (m : text) | ImportFile (index : nat) (s : label_state) (names : list text)
  | ImportChunk (index : nat) (file_id code : text).

Record import_report := mkImport {
  im_items : list golden_item; im_valid : bool; im_valid_items : Z; im_invalid_items : Z; im_errors : list import_error;
  im_warnings : list (nat * text); im_files : option file_preparation; im_chunks : option chunk_preparation; im_blocking : bool
}.

Definition prepare_import (caller : option auth_identity) (content : json) (format : text) : eprog import_report :=
  validation <~ validate_import cfg caller content format;
  let errors := map (fun e => ImportInvalid e.1 e.2) (re_errors validation) in
  if negb (re_valid validation)
  then pret (mkImport [] false (re_valid_items validation) (re_invalid_items validation) errors [] None None true)
  else
    items <~ parse_import cfg caller content format;
    resolutions <~ match import_labels items with
                   | [] => pret []
                   | labels => r <~ interact (fun n => file_labels_reply n labels); plift r
                   end;
    let files := prepare_file_labels items resolutions in
    let prepared := map fst (fp_items files) in
    chunk_resolutions <~ match chunk_requests prepared with
                         | [] => pret []
                         | requests => r <~ interact (fun n => chunk_labels_reply n requests); plift r
                         end;
    let chunks := prepare_chunk_labels prepared chunk_resolutions in
    let blocking := fp_blocking files || cp_blocking chunks in
    pret (mkImport (cp_items chunks) (negb blocking)
            (Z.max 0 (fp_ready files + fp_unanswerable files - cp_unready_items chunks))
            (fp_unresolved files + fp_ambiguous files + cp_unready_items chunks)
            (errors ++ map (fun e => ImportFile e.1 e.2.1 e.2.2) (fp_errors files) ++ map (fun e => ImportChunk e.1 e.2.1 e.2.2) (cp_errors chunks))
            (cp_warnings chunks) (Some files) (Some chunks) blocking).

(** The message of the first error, which refuses the upload. *)
Definition import_error_text (e : import_error) : text :=
  match e with
  | ImportInvalid _ m => m
  | ImportFile n UNRESOLVED_FILE names => lit "UNRESOLVED_FILE: Item " ++ show (Z.of_nat n) ++ lit ": unresolved file " ++ comma names
  | ImportFile n _ names => lit "AMBIGUOUS_FILE_MATCH: Item " ++ show (Z.of_nat n) ++ lit ": ambiguous file match for " ++ comma names
  | ImportChunk n file_id code =>
      code ++ lit ": Item " ++ show (Z.of_nat n) ++ lit ": file " ++ file_id ++ lit " is not ready (" ++ code ++ lit ")"
  end.

Definition create_prepared (caller : option auth_identity) (name description content : json) (format : text) : eprog dataset :=
  prepared <~ prepare_import caller content format;
  if im_blocking prepared then
    match im_errors prepared with
    | e :: _ => invalid (import_error_text e)
    | [] => praise (PyError (lit "IndexError") (lit "list index out of range"))
    end
  else create_dataset cfg caller name description (JArr (map item_json (im_items prepared))).

(** ** Requests *)

Inductive eval_reply :=
  | RepDatasets (l : list dataset_row)
  | RepDataset (x : dataset)
  | RepImport (r : import_report)
  | RepDeleted (dataset_id : text)
  | RepStarted (run : run_doc) (task : eprog run_summary)
  | RepRuns (l : list run_doc)
  | RepRun (x : run_doc)
  | RepError (kind : string) (m : text).

Definition text_or_empty (v : json) : text := py_str (v ||| JStr []).
Definition opt_text (v : json) : option text := if jtrue v then Some (py_str v) else None.

Definition dispatch (caller : option auth_identity) (action : text) (payload : obj) : eprog eval_reply :=
  let is_action s := bool_decide (action = lit s) in
  if is_action "list_eval_datasets" then l <~ list_datasets cfg caller; pret (RepDatasets l)
  else if is_action "create_eval_dataset" then
    let name := get payload "name" ||| JStr [] in
    x <~ (if has_key payload "content"
          then create_prepared caller name (get payload "description") (get payload "content") (text_or_empty (get payload "format"))
          else create_dataset cfg caller name (get payload "description") (get payload "items"));
    pret (RepDataset x)
  else if is_action "validate_eval_dataset" then
    r <~ prepare_import caller (get payload "content") (text_or_empty (get payload "format")); pret (RepImport r)
  else if is_action "update_eval_dataset" then
    x <~ update_dataset cfg caller (text_or_empty (get payload "dataset_id")) (get payload "name") (get payload "description")
           (get payload "items");
    pret (RepDataset x)
  else if is_action "delete_eval_dataset" then
    i <~ delete_dataset cfg caller (text_or_empty (get payload "dataset_id")); pret (RepDeleted i)
  else if is_action "start_eval_run" then
    r <~ start_run caller (text_or_empty (get payload "dataset_id")) (py_str (get payload "mode" ||| s_ "retrieval"))
           (opt_text (get payload "pipeline_mode"));
    pret (RepStarted r.1 r.2)
  else if is_action "list_eval_runs" then
    l <~ list_runs cfg caller (opt_text (get payload "dataset_id")) (match get payload "limit" with JInt n => n | _ => 0 end);
    pret (RepRuns l)
  else if is_action "get_eval_run" then
    x <~ get_run cfg caller (text_or_empty (get payload "run_id")); pret (RepRun x)
  else pret (RepError "validation" (lit "Unsupported eval action: " ++ repr (JStr action))).

(** A refusal is an ordinary reply that says why. *)
Definition handle (caller : option auth_identity) (action : text) (payload : obj) : eprog eval_reply :=
  pcatch (dispatch caller action payload) (fun e =>
    if is_class "EvalValidationError" e then Some (pret (RepError "validation" (exn_text e)))
    else if is_class "EvalNotFound" e then Some (pret (RepError "not_found" (exn_text e)))
    else if is_class "EvalAccessDenied" e then Some (pret (RepError "forbidden" (exn_text e)))
    else None).
End Runner.

(** ** Every run is closed *)

Section Gathered.
Context {W : Type} (S R : W -> W -> Prop) `{!PreOrder S} (Hsub : forall w w', R w w' -> S w w').

Definition returns {A} (P : A -> Prop) (o : outcome py_exn A) (_ : W) : Prop := match o with Ok a => P a | Raise _ => True end.

Lemma first_raise_none {A} (ps : list (prog W A)) i p : first_raise ps = None -> ps !! i = Some p -> forall e, p <> Done (Raise e).
Proof.
  revert i. induction ps as [|q ps IH]; intros i; [done|]. cbn. destruct q as [[a|e]|f], i as [|i]; cbn; try done.
  all: try (intros _ [= <-]; done). all: intros Hn Hi; by eapply IH.
Qed.

Lemma in_turn_rg {A} (ps : list (prog W A)) (Ps : list (A -> Prop)) w :
  Forall2 (fun p P => rg S R p w (returns P)) ps Ps -> rg S R (in_turn ps) w (returns (fun l => Forall2 (fun P a => P a) Ps l)).
Proof.
  revert Ps w. induction ps as [|p ps IH]; intros Ps w Hp; inversion Hp as [|? P ? Ps' Hpp Hps]; subst; cbn [in_turn].
  { constructor. }
  apply rg_bind. eapply rg_conseq; [apply rg_reach; [done|exact Hsub|exact Hpp]|done|].
  intros [a|e] w' [Ha Hw]; [|done]. apply rg_bind. eapply rg_conseq; [apply IH|done|].
  - eapply Forall2_impl; [exact Hps|]. intros q Q Hq. eapply rg_later; [done| |exact Hq|exact Hw]. by intros [?|?].
  - intros [l|e] w2 Hl; [|done]. by constructor.
Qed.

Lemma gather_rg {A} order (ps : list (prog W A)) (Ps : list (A -> Prop)) w :
  Forall2 (fun p P => rg S R p w (returns P)) ps Ps -> rg S R (gather order ps) w (returns (fun l => Forall2 (fun P a => P a) Ps l)).
Proof.
  revert ps w. induction order as [|i order IH]; intros ps w Hp; cbn [gather].
  { destruct (first_raise ps); [done|]. by apply in_turn_rg. }
  destruct (first_raise ps); [done|]. destruct (ps !! i) as [[o|f]|] eqn:E; [by apply IH| |by apply IH].
  destruct (Forall2_lookup_l _ _ _ _ _ Hp E) as (P & EP & Hf). intros w' Hw. specialize (Hf w' Hw).
  destruct (f w') as [q w2]. destruct Hf as [Hr Hq]. split; [done|]. apply IH.
  assert (S w w2) as Hw2 by (etrans; [exact Hw|by apply Hsub]).
  rewrite <- (list_insert_id Ps i P EP). apply Forall2_insert; [|done].
  eapply Forall2_impl; [exact Hp|]. intros p Q Hpq. eapply rg_later; [done| |exact Hpq|exact Hw2]. by intros [?|?].
Qed.
End Gathered.

Section Closing.
Context `{PyText} `{JsonText} `{CompactJson} `{Fingerprint} `{EvalEnv} `{Discount} `{EvalServices}.
Context (rn : runner) (i : auth_identity).
Abbreviation cfg := (rn_cfg rn).

(** The database is one that can fail, and this is how it failed. *)
Definition store_error (e : py_exn) : Prop :=
  in_memory cfg = false /\ exists n applied msg, store_fault n = Some (applied, msg) /\ e = PyError (lit "PyMongoError") msg.

Lemma faulted n applied msg :
  (if in_memory cfg then None else store_fault n) = Some (applied, msg) -> store_error (PyError (lit "PyMongoError") msg).
Proof. unfold store_error. destruct (in_memory cfg); [done|]. intros E. split; [done|]. by exists n, applied, msg. Qed.

(** What the others may do meanwhile, [S], and what the run does, [R]: runs take steps, and the
    run may update those of its tenant. *)
Context (S R : eval_db -> eval_db -> Prop) `{!PreOrder S}.
Context (HRS : forall d d', R d d' -> S d d') (HS : forall d d', S d d' -> runs_step d d').
Context (Htick : forall d, R d (d {{ db_tick ::= Datatypes.S }})).
Context (Hrun : forall d p f, (forall x, p x = true -> ru_tenant x = ai_tenant_id i) -> (forall x, p x = true -> run_step x (f x)) ->
  R d (d {{ db_runs ::= update_first p f }} {{ db_tick ::= Datatypes.S }})).
Abbreviation ok p := (spec S R p (fun _ => True)).
Abbreviation rgs p d Q := (rg S R p d Q).

Lemma ok_interact {A} (f : nat -> A) : ok (interact f).
Proof. intros d d' Hd. split; [apply Htick|done]. Qed.

Lemma rgs_now {B} (k : Z -> prog eval_db B) d Q :
  (forall t d', S d d' -> rgs (k t) d' Q) -> rgs (pbind now_ k) d Q.
Proof. intros Hk d' Hd. split; [apply Htick|]. apply Hk. etrans; [exact Hd|]. apply HRS, Htick. Qed.

(** One call that updates a run of the tenant. *)
Lemma rgs_update p f d (Q : outcome py_exn bool -> eval_db -> Prop) :
  (forall x, p x = true -> ru_tenant x = ai_tenant_id i) -> (forall x, p x = true -> run_step x (f x)) ->
  (forall d1, S d d1 -> Q (Ok (existsb p (db_runs d1))) (d1 {{ db_runs ::= update_first p f }} {{ db_tick ::= Datatypes.S }})) ->
  (forall e d1, S d d1 -> store_error e -> Q (Raise e) d1) -> rgs (update_runs cfg p f) d Q.
Proof.
  intros Hp Hf Hok He. apply rg_atomically. intros d1 Hd1. unfold db_step.
  destruct (if in_memory cfg then None else store_fault (db_tick d1)) as [[applied msg]|] eqn:E; cbn; [|by split; [apply Hrun|apply Hok]].
  assert (R d1 ((if applied then d1 {{ db_runs ::= update_first p f }} else d1) {{ db_tick ::= Datatypes.S }})) as Hr
    by (destruct applied; [by apply Hrun|apply Htick]).
  split; [done|]. apply He; [|by eapply faulted]. etrans; [exact Hd1|by apply HRS].
Qed.

Lemma ok_update p f :
  (forall x, p x = true -> ru_tenant x = ai_tenant_id i) -> (forall x, p x = true -> run_step x (f x)) -> ok (update_runs cfg p f).
Proof. intros Hp Hf d. by apply rgs_update. Qed.

Lemma ok_append run_id row : ok (append_item_result cfg run_id (ai_tenant_id i) row).
Proof.
  apply sp_then; [|by intros _; apply sp_ret]. apply ok_update; [intros x Hx; by eapply scope_run|]. intros x _. by split_and!.
Qed.
Lemma ok_record run_id v : ok (record_label_validation cfg run_id (ai_tenant_id i) v).
Proof.
  apply sp_then; [|by intros _; apply sp_ret]. apply ok_update; [intros x Hx; by eapply scope_run|]. intros x _. by split_and!.
Qed.

Lemma running_step f x (run_id owner : text) :
  (forall y, ru_tenant (f y) = ru_tenant y /\ ru_id (f y) = ru_id y) ->
  run_scope (ai_tenant_id i) run_id x && bool_decide (ru_status x = RUNNING) && owned_by owner (ru_lease x) = true ->
  ru_tenant x = ai_tenant_id i /\ run_step x (f x).
Proof.
  intros Hf [[Hs Hr%bool_decide_eq_true]%andb_true_iff _]%andb_true_iff. split; [by eapply scope_run|].
  unfold run_step. destruct (Hf x) as [-> ->]. by split_and!.
Qed.

Section Items.
Context (run_id : text) (items : list golden_item) (m : matching) (mode : eval_mode)
  (pipeline_mode : option text) (on_item : eval_row -> prog eval_db unit) (Hon : forall r, ok (on_item r)).

(** The run exists; the run is closed. *)
Definition opened (d : eval_db) : Prop := exists n x, db_runs d !! n = Some x /\ run_scope (ai_tenant_id i) run_id x = true.
Definition closed (d : eval_db) : Prop :=
  exists n x, db_runs d !! n = Some x /\ run_scope (ai_tenant_id i) run_id x = true /\ ru_status x <> RUNNING.

Lemma scope_step x y : run_step x y -> run_scope (ai_tenant_id i) run_id x = true -> run_scope (ai_tenant_id i) run_id y = true.
Proof. intros (E1 & E2 & _). unfold run_scope. by rewrite E1, E2. Qed.
Lemma opened_step d d' : opened d -> runs_step d d' -> opened d'.
Proof. intros (n & x & Hx & Hs) Hd. destruct (Hd n x Hx) as (y & Hy & Hst). exists n, y. split; [done|by eapply scope_step]. Qed.
Lemma closed_step d d' : closed d -> runs_step d d' -> closed d'.
Proof.
  intros (n & x & Hx & Hs & Hr) Hd. destruct (Hd n x Hx) as (y & Hy & Hst). exists n, y. split; [done|].
  split; [by eapply scope_step|]. by apply Hst.
Qed.

Lemma rg_heartbeat owner d :
  rgs (heartbeat_run cfg run_id (ai_tenant_id i) owner) d (fun o d' => match o with Ok _ => S d d' | Raise e => store_error e end).
Proof.
  apply rgs_now. intros t d1 Hd1.
  assert (forall y, ru_tenant (y {{ ru_lease ::= renewed cfg owner t }}) = ru_tenant y /\
                    ru_id (y {{ ru_lease ::= renewed cfg owner t }}) = ru_id y) as Hf by done.
  assert (forall x, run_scope (ai_tenant_id i) run_id x && bool_decide (ru_status x = RUNNING) && owned_by owner (ru_lease x) = true ->
    ru_tenant x = ai_tenant_id i /\ run_step x (x {{ ru_lease ::= renewed cfg owner t }})) as Hstep
    by (intros x Hx; by eapply (running_step (fun y => y {{ ru_lease ::= renewed cfg owner t }}))).
  apply rgs_update; [intros x Hx; by apply (Hstep x)|intros x Hx; by apply (Hstep x)| |done].
  intros d2 Hd2. etrans; [exact Hd1|]. etrans; [exact Hd2|]. apply HRS, Hrun; intros x Hx; by apply (Hstep x).
Qed.

Lemma ok_heartbeat owner : ok (heartbeat_run cfg run_id (ai_tenant_id i) owner).
Proof. intros d. eapply rg_conseq; [apply rg_heartbeat|done|]. by intros [?|?]. Qed.

Lemma ok_persist row : ok (persist_item_result rn run_id (ai_tenant_id i) row on_item).
Proof.
  unfold persist_item_result. apply sp_then; [apply ok_append|]. intros _. apply sp_then; [apply ok_heartbeat|].
  intros _. apply Hon.
Qed.

(** The row is that of the item, and an item that cannot be scored has no score. *)
Definition row_of (item : golden_item) (unscorable : bool) (row : eval_row) : Prop :=
  er_item_id row = gi_item_id item /\ er_unscorable row = unscorable /\ (unscorable = true -> er_scores row = None).

(** What happens to an item keeps its identity. *)
Definition about (item : golden_item) (row : eval_row) : Prop := er_item_id row = gi_item_id item /\ er_unscorable row = false.

Lemma about_close item scheduled started finished ev row :
  about item ev.1.1 -> close_row (relevant_ids item m) scheduled started finished ev = Ok row -> about item row.
Proof.
  destruct ev as [[row0 t] r]. cbn. intros Ha. destruct r as [[ids measured]|e].
  - intros [= <-]. unfold attributed, scored_row. by repeat case_match.
  - destruct (is_exception e); [|done]. by intros [= <-].
Qed.

Lemma spec_search item row t : about item row -> spec S R (run_search_item rn row t) (fun ev => about item ev.1.1).
Proof.
  intros Ha. unfold run_search_item. apply sp_then; [apply ok_interact|]. intros [response|e]; [|by apply sp_ret].
  unfold searched. destruct (let* p := _ in _) as [[t' eligible]|e]; [|by apply sp_ret].
  apply sp_then; [apply ok_interact|]. intros r. apply sp_ret. destruct r as [r|e]; [|done].
  unfold reranked_evidence. by repeat case_match.
Qed.

Lemma spec_graph item row p t : about item row -> spec S R (run_graph_item row p t) (fun ev => about item ev.1.1).
Proof.
  intros Ha. unfold run_graph_item. apply sp_then; [apply ok_interact|]. intros [[g|e] t']; apply sp_ret; [|done].
  assert (about item (graph_row row g)) as Hg by (unfold graph_row; by case_match).
  unfold graph_evidence. by repeat case_match.
Qed.

Lemma spec_score item unscorable :
  spec S R (score_item rn run_id i item m mode unscorable pipeline_mode on_item) (row_of item unscorable).
Proof.
  unfold score_item. destruct unscorable.
  - apply sp_then; [apply ok_persist|]. intros _. by apply sp_ret.
  - apply sp_then; [apply ok_interact|]. intros scheduled. apply sp_then; [apply ok_interact|]. intros started.
    eapply (sp_bind _ _ _ _ (fun ev => about item ev.1.1)).
    { destruct mode; [by apply spec_search|by apply spec_graph]. }
    intros ev Hev. apply sp_then; [apply ok_interact|]. intros finished.
    eapply sp_bind; [apply (sp_lift _ _ _ (about item)); intros row; by apply about_close|].
    intros row [Hi Hu]. apply sp_then; [apply ok_persist|]. intros _. by apply sp_ret.
Qed.

Lemma ok_validate : ok (validate_labels rn items m).
Proof.
  unfold validate_labels. destruct (negb _); [by apply sp_ret|]. destruct (label_targets items m) as [a b].
  destruct (_ && _); [by apply sp_ret|]. apply sp_then; [apply ok_interact|]. intros [v|e]; [by apply sp_ret|].
  destruct (is_exception e); [by apply sp_ret|apply sp_raise].
Qed.

Lemma rg_finish status results error d : status <> RUNNING -> opened d ->
  rgs (finish_run cfg run_id (ai_tenant_id i) status results error) d
    (fun o d' => match o with Ok _ => closed d' | Raise e => store_error e end).
Proof.
  intros Hst Ho. apply rgs_now. intros t d1 Hd1. pose proof (opened_step _ _ Ho (HS _ _ Hd1)) as Ho1. apply rg_bind.
  apply rgs_update; [intros y Hy; by eapply scope_run|intros y _; split_and!; [done|done|]; by intros _| |done].
  intros d2 Hd2. destruct (opened_step _ _ Ho1 (HS _ _ Hd2)) as (n & x & Hx & Hs).
  set (p := run_scope _ _). set (f := fun x : run_doc => _). destruct (update_first_hit p f (db_runs d2)) as (k & y & Hy & Hp & Hu).
  { apply existsb_exists. exists x. split; [|done]. apply list_elem_of_In. by eapply list_elem_of_lookup_2. }
  exists k, (f y). cbn. split; [done|]. split; [exact Hp|done].
Qed.

(** Some row has no error text, unless there are no rows. *)
Lemma not_all_failed rows : all_failed rows = false ->
  rows = [] \/ exists row, row ∈ rows /\ (er_error row = None \/ er_error row = Some []).
Proof.
  destruct rows as [|r rows]; [by left|]. cbn [all_failed]. intros Hf. right. revert Hf.
  induction (r :: rows) as [|x l IH]; [done|]. cbn. destruct (has_error x) eqn:Ex; cbn.
  - intros Hl. destruct (IH Hl) as (y & Hy & He). exists y. split; [by right|done].
  - intros _. exists x. split; [by left|]. unfold has_error in Ex.
    destruct (er_error x) as [[|]|]; [by right|done|by left].
Qed.

(** What the summary of a run says. *)
Definition accounted (s : run_summary) : Prop :=
  rs_run_id s = run_id /\
  (rs_status s = FAILED \/
   rs_status s = COMPLETED /\ exists report rows, blocking report = false /\
     Forall2 (fun item row => row_of item (bool_decide (gi_item_id item ∈ lr_unscorable report)) row) items rows /\
     (items = [] \/ exists row, row ∈ rows /\ (er_error row = None \/ er_error row = Some [])) /\
     rs_results s = results_json (aggregate rows (bool_decide (mode = MODE_END_TO_END)))).

(** The run has ended: it is closed and accounted for, or the database failed. *)
Definition settled (o : outcome py_exn run_summary) (d : eval_db) : Prop :=
  match o with Ok s => closed d /\ accounted s | Raise e => closed d \/ store_error e end.

Lemma run_settled_step o d d' : settled o d -> runs_step d d' -> settled o d'.
Proof.
  destruct o as [s|e]; cbn.
  - intros [Hc Ha] Hd. split; [by eapply closed_step|done].
  - intros [Hc|He] Hd; [left; by eapply closed_step|by right].
Qed.

Lemma rg_finished status results error d s : status <> RUNNING -> opened d -> accounted s ->
  rgs (finish_run cfg run_id (ai_tenant_id i) status results error ;;~ pret s) d
    (fun o d' => match o with Ok s => closed d' /\ accounted s | Raise _ => opened d' end).
Proof.
  intros Hst Ho Ha. apply rg_bind. eapply rg_conseq; [apply rg_reach; [apply _|done|by apply rg_finish]|done|].
  intros [u|e] d' [Hq Hd]; [done|by eapply opened_step, HS].
Qed.

Lemma opened_after {A} (p : prog eval_db A) (P : A -> Prop) d : opened d -> spec S R p P ->
  rgs p d (fun o d' => match o with Ok a => P a | Raise _ => True end /\ opened d').
Proof.
  intros Ho Hp. eapply rg_conseq; [apply rg_reach; [apply _|done|apply Hp]|done|].
  intros o d' [Hq Hd]. split; [by destruct o|by eapply opened_step, HS].
Qed.

Lemma rg_body d : opened d ->
  rgs (execute_body rn run_id i items m mode pipeline_mode on_item) d
    (fun o d' => match o with Ok s => closed d' /\ accounted s | Raise _ => opened d' end).
Proof.
  intros Ho. unfold execute_body. apply rg_bind.
  eapply rg_conseq; [apply (opened_after _ _ _ Ho ok_validate)|done|]. intros [report|e] d1 [_ Ho1]; [|done].
  apply rg_bind. eapply rg_conseq; [apply (opened_after _ _ _ Ho1 (ok_record _ _))|done|]. intros [[]|e] d2 [_ Ho2]; [|done].
  destruct (blocking report) eqn:Eb; [by apply rg_finished; [| |split; [|left]]|].
  apply rg_bind. eapply rg_conseq; [apply (opened_after _ _ _ Ho2 (ok_interact _))|done|]. intros [order|e] d3 [_ Ho3]; [|done].
  apply rg_bind. eapply rg_conseq.
  { apply rg_reach; [apply _|done|]. apply (gather_rg S R) with
      (Ps := map (fun item => row_of item (bool_decide (gi_item_id item ∈ lr_unscorable report))) items); [done|].
    apply Forall2_fmap_l, Forall2_fmap_r, Forall_Forall2_diag, Forall_forall. intros item _. apply spec_score. }
  { done. }
  intros [rows|e] d4 [Hrows Hd4]; [|by eapply opened_step, HS]. cbn in Hrows. rewrite Forall2_fmap_l in Hrows.
  apply rg_finished; [by destruct (all_failed rows)|by eapply opened_step, HS|]. split; [done|]. cbn.
  destruct (all_failed rows) eqn:Ef; [by left|right]. split; [done|]. exists report, rows.
  split; [done|]. split; [done|]. split; [|done]. destruct (not_all_failed rows Ef) as [->|Hr]; [|by right].
  left. by apply Forall2_length, nil_length_inv in Hrows.
Qed.

Lemma rg_execute_run d : opened d -> rgs (execute_run rn run_id i items m mode pipeline_mode on_item) d settled.
Proof.
  intros Ho. unfold execute_run. apply rg_bind. eapply rg_conseq; [apply rg_heartbeat|done|].
  intros [b|e] d1 Hd1; [|by right]. pose proof (opened_step _ _ Ho (HS _ _ Hd1)) as Ho1. apply rg_catch. eapply rg_conseq; [by apply rg_body|done|].
  intros [s|e] d2 Hq; [done|]. destruct (is_exception e).
  - apply rg_bind. eapply rg_conseq; [by apply (rg_finish FAILED)|done|]. intros [u|e'] d3 Hc; [|by right].
    split; [done|]. split; [done|by left].
  - apply rg_bind. eapply rg_conseq; [by apply (rg_finish FAILED)|done|]. intros [u|e'] d3 Hc; [by left|by right].
Qed.
End Items.
End Closing.

(** ** A run and the other replicas *)

Section Beside.
Context `{PyText} `{JsonText} `{CompactJson} `{Fingerprint} `{EvalEnv} `{Discount} `{EvalServices}.
Context (rn : runner) (i : auth_identity) (run_id : text) (items : list golden_item) (m : matching) (mode : eval_mode)
  (pipeline_mode : option text) (on_item : eval_row -> prog eval_db unit)
  (Hon : forall r, spec runs_step runs_step (on_item r) (fun _ => True)).
Abbreviation cfg := (rn_cfg rn).
Abbreviation rgs p d Q := (rg runs_step runs_step p d Q).
Abbreviation opened := (opened i run_id).
Abbreviation settled := (settled rn i run_id items mode).

Lemma rg_act a d : match a with Call _ op => closing op | Recover _ => True end -> rgs (act cfg a) d (fun _ _ => True).
Proof.
  intros Ha. destruct a as [i' op|owner]; cbn [act].
  - apply rg_bind. eapply rg_conseq; [by apply (spec_perform cfg runs_step runs_step i' true (runs_step_allows _))|done|].
    by intros [r|e].
  - eapply rg_conseq; [apply rg_recover|done|]. by intros [rs|e].
Qed.

(** The execution of the run, and what the replicas do meanwhile. *)
Definition beside (others : list activity) : list (prog eval_db (run_summary + list run_doc)) :=
  (s <~ execute_run rn run_id i items m mode pipeline_mode on_item; pret (inl s)) ::
  map (fun a => rs <~ act cfg a; pret (inr rs)) others.

(** C24: a run that was opened is always closed.  [execute_run] ends, and leaves the record
    of the run closed, whatever the label check, the searches, the reranker,
    the graph and the callbacks answer, an exception or a cancellation included, in whatever
    order the items take turns: alone, and with any requests, tasks and recoveries of other
    replicas interleaved at the database calls.  The run stays open only where the database
    itself failed.  A run that completed has one row for each item of the dataset, in its order,
    none of the items that cannot be scored has a score, at least one row (of a dataset with
    items) has no error text, and the reported figures are the aggregate of exactly these
    rows.  An exception whose text is empty, a timeout for instance, counts as no error here: a
    run whose every item timed out completes ([timeouts_pass], a finding). *)
Theorem run_always_closes (others : list activity) (schedule : list nat) (d : eval_db) :
  opened d -> Forall (fun a => match a with Call _ op => closing op | Recover _ => True end) others ->
  (let '(o, d') := run (execute_run rn run_id i items m mode pipeline_mode on_item) d in settled o d') /\
  (let '(l, d') := interleave schedule (beside others, d) in
   forall o, l !! 0%nat = Some (Done o) ->
     match o with Ok (inl s) => settled (Ok s) d' | Ok (inr _) => False | Raise e => settled (Raise e) d' end).
Proof.
  intros Ho Ha.
  pose proof (rg_execute_run rn i runs_step runs_step (fun _ _ Hd => Hd) (fun _ _ Hd => Hd) (al_tick _ _ _ (runs_step_allows []))
    (al_run _ _ _ (runs_step_allows (ai_tenant_id i))) run_id items m mode pipeline_mode on_item Hon d Ho) as Hr. split.
  { pose proof (rg_run _ _ _ _ _ Hr) as Hq. by destruct (run _ d). }
  pose (Q := fun n (o : outcome py_exn (run_summary + list run_doc)) d => n = 0%nat ->
    match o with Ok (inl s) => settled (Ok s) d | Ok (inr _) => False | Raise e => settled (Raise e) d end).
  pose proof (rg_interleave runs_step runs_step (fun _ => runs_step) Q schedule (beside others) d) as Hi.
  destruct (interleave schedule _) as [l d']. destruct Hi as (_ & _ & Hq); [done| | |].
  - intros n [[s|rs]|e] d1 d2 Hse Hs E; specialize (Hse E); [exact (run_settled_step rn i run_id items mode (Ok s) _ _ Hse Hs)|done|exact (run_settled_step rn i run_id items mode (Raise e) _ _ Hse Hs)].
  - intros [|n] p Hp.
    + change (Some (s <~ execute_run rn run_id i items m mode pipeline_mode on_item; pret (inl s)) = Some p) in Hp.
      apply (inj Some) in Hp. rewrite <- Hp. apply rg_bind. eapply rg_conseq; [exact Hr|done|]. intros [s|e] d1 Hd1 _; exact Hd1.
    + change ((map (fun a => rs <~ act cfg a; pret (inr rs)) others : list (prog eval_db (run_summary + list run_doc))) !! n = Some p) in Hp. rewrite list_lookup_fmap in Hp. apply fmap_Some in Hp as (a & Hn & ->). rewrite Forall_lookup in Ha. specialize (Ha n _ Hn).
      apply rg_bind. eapply rg_conseq; [by apply rg_act|done|]. by intros [rs|e] d1 _.
  - intros o Hl. exact (Hq 0%nat (Done o) Hl eq_refl).
Qed.
End Beside.

(** ** A run beside a recovery *)

(** The label check is down; the search finds the labelled file. *)
Definition demo_services : EvalServices := {|
  verify_reply := fun _ _ _ => Raise (PyError (lit "RuntimeError") (lit "down"));
  search_reply := fun _ _ _ => Ok [("chunks", JArr [JObj [("chunk_id", s_ "c1"); ("file_id", s_ "f1"); ("text", s_ "t")]])];
  rerank_reply := fun _ _ _ => Overloaded;
  graph_reply := fun _ _ _ t => (Raise (PyError (lit "RuntimeError") (lit "no graph")), t);
  file_labels_reply := fun _ _ => Ok []; chunk_labels_reply := fun _ _ => Ok [];
  monotonic := fun n => inject_Z (Z.of_nat n); gather_order := fun _ => [];
  config_snapshot := fun _ _ _ => []
|}.
Definition demo_runner : runner :=
  mkRunner demo_cfg (lit "worker") 20 false 10 true (lit "unscorable") 5 (mkTrace 20 12 200 [] [] false) false 5.

Abbreviation demo_open := (open_run (H := ascii_text) (H2 := demo_fingerprint) (H3 := demo_env) (H5 := demo_services) demo_runner).

Definition opened_db : eval_db := (run (demo_open (Some (admin_of "blue")) (lit "uxx") (lit "retrieval") None None None) demo_db).2.
Definition demo_items : list golden_item := List.concat (map ds_items (db_datasets demo_db)).
Definition demo_run_id : text := match db_runs opened_db with x :: _ => ru_id x | [] => [] end.
Abbreviation demo_execution := (execute_run (H := ascii_text) (H3 := demo_env) (H4 := reciprocal_gain) (H5 := demo_services)
  demo_runner demo_run_id (admin_of "blue") demo_items MATCH_FILE MODE_RETRIEVAL None (fun _ => pret tt)).

Lemma run_always_closes_witness :
  exists s d', run demo_execution opened_db = (Ok s, d') /\ rs_status s = COMPLETED /\
    closed (admin_of "blue") demo_run_id d'.
Proof.
  pose proof (run_always_closes (H := ascii_text) (H0 := demo_reader) (H1 := demo_compact) (H2 := demo_fingerprint) (H3 := demo_env)
    (H4 := reciprocal_gain) (H5 := demo_services) demo_runner (admin_of "blue") demo_run_id demo_items MATCH_FILE MODE_RETRIEVAL None
    (fun _ => pret tt) (fun _ => sp_ret _ _ tt _ I) [Recover (lit "r2")] [1; 0; 0; 1]%nat opened_db) as [Hr _].
  - eexists 0%nat, _. split; [by vm_compute|by vm_compute].
  - by repeat constructor.
  - destruct (run demo_execution opened_db) as [o d'] eqn:E. vm_compute in E. injection E as <- <-.
    destruct Hr as [Hc _]. by eexists _, _.
Defined.
