(* ===== verification/Benchmark.v ===== *)
(** * Benchmarks

    [src/backend/rag/app/services/benchmark_runner.py]: the phases of a benchmark, their plan,
    their execution as evaluation runs of [EvalRunner] in order of cost, the progress that is
    persisted after every item, and the reconciliation of benchmarks whose process is gone.
    The phase table is a list of dictionaries that the orchestration and the callbacks of its
    items share: it lives in [db_tables] and is read when it is used.  Between reading it and
    the call of the driver that stores it the code does not yield; the model lets the other
    items act there too.  The manifest, the export and the collector of operational metrics
    are the class [BenchmarkServices]; log lines are left out.  Items that go on in the
    background after one of them raised are not followed. *)

From Stdlib Require Import QArith.
From stdpp Require Import base strings list sets gmap sorting.
From S2P Require Import Prelude PyValue Base64 Auth Interleaving MemoryNormalize TextWindow LlmPrompts ContextAssembler RetrievalTrace LearnedReranker CitationMetrics RetrievalMetrics GoldenSet EvalStore EvalScoring EvalSafety EvalRunner.

Local Open Scope string_scope.
Local Open Scope list_scope.
Local Open Scope Z_scope.

(** ** The catalogue *)

Record PhaseSpec := mkSpec {
  sp_name : text; sp_mode : eval_mode; sp_pipeline : option text; sp_requires_graph : bool; sp_unsupported : option text
}.

Definition RETRIEVAL_IS_PIPELINE_INDEPENDENT : text :=
  lit "Retrieval-mode evaluation issues a single search that the conversation pipeline does not influence, so this phase would report the base retrieval numbers under an extended label. Use end_to_end_extended, which scores the extended pipeline's own sources.".
Definition NO_GRAPH : text :=
  lit "No conversation graph is wired into this service, so no phase that generates an answer can run.".

Definition PHASE_RETRIEVAL_BASE : text := lit "retrieval_base".
Definition PHASE_RETRIEVAL_EXTENDED : text := lit "retrieval_extended".
Definition PHASE_END_TO_END_REGULAR : text := lit "end_to_end_regular".
Definition PHASE_END_TO_END_EXTENDED : text := lit "end_to_end_extended".

Definition PHASE_SPECS : list PhaseSpec :=
  [mkSpec PHASE_RETRIEVAL_BASE MODE_RETRIEVAL None false None;
   mkSpec PHASE_RETRIEVAL_EXTENDED MODE_RETRIEVAL (Some (lit "extended")) false (Some RETRIEVAL_IS_PIPELINE_INDEPENDENT);
   mkSpec PHASE_END_TO_END_REGULAR MODE_END_TO_END (Some (lit "regular")) true None;
   mkSpec PHASE_END_TO_END_EXTENDED MODE_END_TO_END (Some (lit "extended")) true None].
Definition PHASE_NAMES : list text := map sp_name PHASE_SPECS.

Definition BENCHMARK_PROFILES : list (text * list text) :=
  [(lit "quick_retrieval", [PHASE_RETRIEVAL_BASE]); (lit "smoke_quality", [PHASE_END_TO_END_REGULAR]);
   (lit "full_quality", [PHASE_RETRIEVAL_BASE; PHASE_END_TO_END_REGULAR]);
   (lit "extended_comparison", [PHASE_END_TO_END_REGULAR; PHASE_END_TO_END_EXTENDED]); (lit "full_diagnostic", PHASE_NAMES)].

(** [spec.unsupported_reason], then the graph that is not wired. *)
Definition unsupported_reason (spec : PhaseSpec) (graph_available : bool) : option text :=
  match sp_unsupported spec with
  | Some reason => Some reason
  | None => if sp_requires_graph spec && negb graph_available then Some NO_GRAPH else None
  end.

Section Plan.
Context `{PyText}.

Definition phases_for_profile (profile : text) : outcome py_exn (list text) :=
  match List.find (fun p => bool_decide (p.1 = profile)) BENCHMARK_PROFILES with
  | Some p => Ok p.2
  | None => Raise (EvalValidationError (lit "Unknown benchmark profile: " ++ repr (JStr profile) ++ lit ". Known profiles: " ++
                                        comma (map fst BENCHMARK_PROFILES)))
  end.

Definition planned (graph_available : bool) (spec : PhaseSpec) : phase :=
  let reason := unsupported_reason spec graph_available in
  mkPhase (sp_name spec) (mode_text (sp_mode spec)) (sp_pipeline spec)
    (match reason with Some _ => PHASE_UNSUPPORTED | None => PHASE_QUEUED end) reason None None None None None None None None None.

Definition is_status (s : phase_status) (p : phase) : bool := bool_decide (ph_status p = s).

Fixpoint reasons (phases : list phase) : list text :=
  match phases with
  | [] => []
  | p :: rest => match ph_reason p with Some r => (ph_name p ++ lit ": " ++ r) :: reasons rest | None => reasons rest end
  end.
Fixpoint semicolons (l : list text) : text :=
  match l with [] => [] | [t] => t | t :: l => t ++ lit "; " ++ semicolons l end.

Definition plan_phases (requested : option (list text)) (graph_available : bool) : outcome py_exn (list phase) :=
  let* selected :=
    match requested with
    | None => Ok PHASE_NAMES
    | Some l =>
        match List.filter (fun n => negb (bool_decide (n ∈ PHASE_NAMES))) l with
        | (_ :: _) as unknown =>
            Raise (EvalValidationError (lit "Unknown benchmark phase(s): " ++ comma (sorted_ids unknown) ++ lit ". Known phases: " ++
                                        comma PHASE_NAMES))
        | [] => match l with [] => Raise (EvalValidationError (lit "No benchmark phases were requested")) | _ => Ok l end
        end
    end in
  let phases := map (planned graph_available) (List.filter (fun s => bool_decide (sp_name s ∈ selected)) PHASE_SPECS) in
  if existsb (is_status PHASE_QUEUED) phases then Ok phases
  else Raise (EvalValidationError (lit "No requested benchmark phase can run on this service: " ++ semicolons (reasons phases))).
End Plan.

(** ** Progress *)

Definition count_status (s : phase_status) (phases : list phase) : Z := zlen (List.filter (is_status s) phases).

(** [int(o.get(k) or 0)], for the counters of an aggregate. *)
Definition count_of (o : obj) (k : string) : Z := match get o k with JInt n => n | _ => 0 end.
Definition results_of (p : phase) : obj := default [] (ph_results p).

Definition phase_item_count (p : phase) : Z :=
  let results := results_of p in
  match get results "execution" with
  | JObj execution => count_of execution "total"
  | _ => Z.max (count_of results "items_evaluated" + count_of results "items_skipped" + count_of results "items_unscorable")
           (count_of results "items_evaluated" + count_of results "items_guardrail_blocked" + count_of results "items_failed")
  end.

(** What one phase adds to the totals; a phase of an older release has only its aggregate. *)
Definition phase_totals (p : phase) : item_counts :=
  match ph_items p with
  | Some c => c
  | None => mkItemCounts (phase_item_count p) 0 (count_of (results_of p) "items_evaluated")
              (count_of (results_of p) "items_guardrail_blocked") (count_of (results_of p) "items_failed") 0 0 0
  end.
Definition total (f : item_counts -> Z) (phases : list phase) : Z := foldr Z.add 0 (map (fun p => f (phase_totals p)) phases).
(** The running phase; of several the last. *)
Definition active_items (phases : list phase) : option item_counts :=
  foldl (fun a p => if is_status PHASE_RUNNING p then ph_items p else a) None phases.
Definition last_progress (phases : list phase) : option Z :=
  foldl (fun a p => match ph_items p with
                    | Some c => match a with Some t => Some (Z.max t (ic_last c)) | None => Some (ic_last c) end
                    | None => a
                    end) None phases.

Section Dates.
(** [datetime.isoformat] of an instant in UTC. *)
Context (iso : Z -> text).
Definition date_json (t : Z) : json := JStr (iso t).

Definition item_progress (phases : list phase) : obj :=
  [("items_completed", JInt (total ic_completed phases)); ("items_succeeded", JInt (total ic_succeeded phases));
   ("items_guardrail_blocked", JInt (total ic_blocked phases)); ("items_failed", JInt (total ic_failed phases));
   ("items_timed_out", JInt (total ic_timed_out phases));
   ("items_in_flight", JInt (match active_items phases with Some c => ic_in_flight c | None => 0 end));
   ("phase_started_at", opt_json date_json (ic_started <$> active_items phases));
   ("last_progress_at", opt_json date_json (last_progress phases))].

Definition executable (phases : list phase) : list phase := List.filter (fun p => negb (is_status PHASE_UNSUPPORTED p)) phases.

Definition build_progress (phases : list phase) (item_count : Z) : obj :=
  [("total_phases", count_json phases); ("executable_phases", count_json (executable phases));
   ("completed_phases", JInt (count_status PHASE_COMPLETED phases)); ("partial_phases", JInt (count_status PHASE_PARTIAL phases));
   ("failed_phases", JInt (count_status PHASE_FAILED phases)); ("skipped_phases", JInt (count_status PHASE_SKIPPED phases));
   ("unsupported_phases", JInt (count_status PHASE_UNSUPPORTED phases));
   ("interrupted_phases", JInt (count_status PHASE_INTERRUPTED phases));
   ("current_phase", opt_json JStr (ph_name <$> List.find (is_status PHASE_RUNNING) phases));
   ("items_per_phase", JInt item_count); ("items_total", JInt (item_count * zlen (executable phases)))] ++ item_progress phases.
End Dates.

Definition initial_phase_progress (item_count started_at : Z) : item_counts :=
  mkItemCounts 0 item_count 0 0 0 0 started_at started_at.

(** [_item_outcome_key], applied. *)
Definition count_item (row : eval_row) (c : item_counts) : item_counts :=
  if bool_decide (er_outcome row = lit "timed_out") then c {{ ic_timed_out ::= Z.succ }}
  else if bool_decide (er_outcome row = lit "guardrail_blocked") then c {{ ic_blocked ::= Z.succ }}
  else if bool_decide (er_outcome row = lit "failed") then c {{ ic_failed ::= Z.succ }}
  else c {{ ic_succeeded ::= Z.succ }}.

(** The terminal state of a finished table. *)
Definition benchmark_status (phases : list phase) : run_status :=
  if existsb (is_status PHASE_INTERRUPTED) phases then INTERRUPTED
  else if negb (existsb (fun p => is_status PHASE_COMPLETED p || is_status PHASE_PARTIAL p) phases) then FAILED
  else if existsb (fun p => is_status PHASE_PARTIAL p || is_status PHASE_FAILED p || is_status PHASE_SKIPPED p) phases then PARTIAL
  else COMPLETED.

Definition first_phase_error (phases : list phase) : option text := List.find (is_status PHASE_FAILED) phases ≫= ph_error.

(** ** Orchestration *)

(** [snapshot_reply] is the collector's answer; [manifest_of] and [export_of] are the documents
    built by the modules of these names. *)
Class BenchmarkServices := {
  iso_text : Z -> text;
  snapshot_reply : nat -> outcome py_exn obj;
  empty_sections : obj;
  prometheus_scope : json;
  manifest_of : dataset -> Z -> list text -> option text -> list text -> list text -> list text -> obj;
  export_of : text -> prog eval_db obj
}.

Record bench_summary := mkBenchSummary { bs_id : text; bs_status : run_status; bs_phases : list phase }.

Section Orchestration.
Context `{PyText} `{JsonText} `{CompactJson} `{Fingerprint} `{EvalEnv} `{Discount} `{EvalServices} `{BenchmarkServices}.
Context (rn : runner) (owner_id : text).

Abbreviation cfg := (rn_cfg rn).
Abbreviation eprog := (prog eval_db).

Definition table (d : eval_db) (id : text) : list phase := default [] (db_tables d !! id).
Definition read_table (id : text) : eprog (list phase) := atomically (fun d => (Ok (table d id), d)).
Definition write_table (id : text) (f : list phase -> list phase) : eprog unit :=
  atomically (fun d => (Ok tt, d {{ db_tables := <[id := f (table d id)]> (db_tables d) }})).
Definition set_phase (id : text) (k : nat) (f : phase -> phase) : eprog unit := write_table id (alter f k).

Definition refusal (e : py_exn) : bool :=
  is_class "EvalValidationError" e || is_class "EvalNotFound" e || is_class "EvalAccessDenied" e.

(** [NullBenchmarkPrometheusSnapshotter.capture]. *)
Definition empty_snapshot : eprog obj :=
  t <~ now_;
  pret [("captured_at", JStr (iso_text t)); ("prometheus_available", JBool false); ("prometheus_scope", prometheus_scope);
        ("sections", JObj empty_sections)].
Definition capture_snapshot : eprog obj :=
  r <~ interact snapshot_reply;
  match r with Ok s => pret s | Raise e => if is_exception e then empty_snapshot else praise e end.

Definition metrics_obj (before after : json) : obj := [("before", before); ("after", after)].

Section One.
Context (benchmark_id tenant_id dataset_id : text) (item_count : Z).

Definition record_progress (started : bool) : eprog unit :=
  phases <~ read_table benchmark_id;
  record_benchmark_progress cfg benchmark_id tenant_id RUNNING phases (build_progress iso_text phases item_count) started.

(** The clock is read when the phase has no end yet; the texts are those of the code, so they
    can be read back. *)
Definition clock_phase (finished_at : Z) (p : phase) : phase :=
  let started_at := match ph_phase_started p with Some t => Some t | None => ph_started p end in
  p {{ ph_finished := Some finished_at }} {{ ph_phase_started := started_at }} {{ ph_phase_finished := Some finished_at }}
    {{ ph_wall_clock := (fun t => qmax 0 (inject_Z (finished_at - t) / 1000)) <$> started_at }}.
Definition finish_phase_clock (k : nat) : eprog unit :=
  phases <~ read_table benchmark_id;
  t <~ match phases !! k ≫= ph_finished with Some t => pret t | None => now_ end;
  set_phase benchmark_id k (clock_phase t).

Definition fail_phase (k : nat) (name error : text) : eprog (option text) :=
  set_phase benchmark_id k (fun p => p {{ ph_status := PHASE_FAILED }} {{ ph_error := Some error }}) ;;~
  finish_phase_clock k ;;~
  pret (Some (lit "Skipped after phase " ++ name ++ lit " failed: " ++ error)).

(** The callback of a phase: one section without a suspension up to the calls of the driver. *)
Definition record_item (k : nat) (row : eval_row) : eprog unit :=
  t <~ now_;
  set_phase benchmark_id k (fun p => p {{ ph_items ::= fmap (fun c =>
    (count_item row (c {{ ic_completed ::= Z.succ }} {{ ic_in_flight ::= Z.pred }})) {{ ic_last := t }}) }}) ;;~
  record_progress false ;;~
  heartbeat_benchmark cfg benchmark_id tenant_id owner_id ;;~ pret tt.

Definition started_phase (t : Z) (p : phase) : phase :=
  p {{ ph_status := PHASE_RUNNING }} {{ ph_started := Some t }} {{ ph_phase_started := Some t }}
    {{ ph_items := Some (initial_phase_progress item_count t) }}.

(** What the summary of its run makes of a phase. *)
Definition closed_phase (failed_items : Z) (p : phase) : phase :=
  if bool_decide (failed_items = 0) then p {{ ph_status := PHASE_COMPLETED }}
  else p {{ ph_status := PHASE_PARTIAL }}
         {{ ph_reason := Some (show failed_items ++ lit " of " ++ show item_count ++
                               lit " items failed and are excluded from this phase's means") }}.

Definition run_phase (identity : auth_identity) (snapshot : run_source) (k : nat) (p : phase) : eprog (option text) :=
  t <~ now_;
  set_phase benchmark_id k (started_phase t) ;;~
  record_progress false ;;~
  prepared <~ pcatch (r <~ open_run rn (Some identity) dataset_id (ph_mode p) (ph_pipeline p) (Some benchmark_id) (Some snapshot);
                      pret (Ok r))
                     (fun e => if refusal e then Some (pret (Raise e)) else None);
  match prepared with
  | Raise e => fail_phase k (ph_name p) (exn_text e)
  | Ok r =>
      set_phase benchmark_id k (fun p => p {{ ph_run := Some (ru_id (pr_run r)) }}) ;;~
      summary <~ execute rn r (record_item k);
      finish_phase_clock k ;;~
      set_phase benchmark_id k (fun p => p {{ ph_results := Some (rs_results summary) }}) ;;~
      if bool_decide (rs_status summary = FAILED)
      then fail_phase k (ph_name p)
             (match rs_error summary with Some ((_ :: _) as m) => m | _ => lit "The phase produced no results" end)
      else
        set_phase benchmark_id k (closed_phase (count_of (rs_results summary) "items_failed")) ;;~ pret None
  end.

Fixpoint run_phases (identity : auth_identity) (snapshot : run_source) (ks : list nat) (aborted : option text) : eprog unit :=
  match ks with
  | [] => pret tt
  | k :: ks =>
      phases <~ read_table benchmark_id;
      match phases !! k with
      | None => run_phases identity snapshot ks aborted
      | Some p =>
          if is_status PHASE_UNSUPPORTED p then run_phases identity snapshot ks aborted
          else match aborted with
               | Some reason =>
                   set_phase benchmark_id k (fun p => p {{ ph_status := PHASE_SKIPPED }} {{ ph_reason := Some reason }}) ;;~
                   run_phases identity snapshot ks aborted
               | None => aborted <~ run_phase identity snapshot k p; run_phases identity snapshot ks aborted
               end
      end
  end.

(** The end of each of the three ways out. *)
Definition close_benchmark (before : obj) (status : run_status) (error : list phase -> option text) : eprog (list phase) :=
  after <~ capture_snapshot;
  record_benchmark_operational_metrics cfg benchmark_id tenant_id (metrics_obj (JObj before) (JObj after)) ;;~
  phases <~ read_table benchmark_id;
  finish_benchmark_run cfg benchmark_id tenant_id status phases (build_progress iso_text phases item_count) (error phases) ;;~
  pret phases.

Fixpoint interrupt_phases (reason : text) (ks : list nat) : eprog unit :=
  match ks with
  | [] => pret tt
  | k :: ks =>
      phases <~ read_table benchmark_id;
      (if bool_decide (ph_status <$> phases !! k = Some PHASE_RUNNING) || bool_decide (ph_status <$> phases !! k = Some PHASE_QUEUED)
       then
         set_phase benchmark_id k (fun p => p {{ ph_status := PHASE_INTERRUPTED }}) ;;~
         finish_phase_clock k ;;~
         set_phase benchmark_id k (fun p => p {{ ph_reason := Some reason }})
       else pret tt) ;;~
      interrupt_phases reason ks
  end.

Definition CANCELLED_REASON : text := lit "The benchmark was cancelled before this phase finished".
Definition BENCHMARK_CANCELLED : text := lit "The benchmark was cancelled before it finished".

Definition execute_phases (identity : auth_identity) (snapshot : run_source) (size : nat) (before : obj) : eprog bench_summary :=
  record_progress true ;;~
  heartbeat_benchmark cfg benchmark_id tenant_id owner_id ;;~
  run_phases identity snapshot (seq 0 size) None ;;~
  phases <~ read_table benchmark_id;
  let status := benchmark_status phases in
  phases <~ close_benchmark before status (fun l => if bool_decide (status = COMPLETED) then None else first_phase_error l);
  pret (mkBenchSummary benchmark_id status phases).

(** [_execute]. *)
Definition execute_benchmark (identity : auth_identity) (snapshot : run_source) (size : nat) : eprog bench_summary :=
  heartbeat_benchmark cfg benchmark_id tenant_id owner_id ;;~
  before <~ capture_snapshot;
  record_benchmark_operational_metrics cfg benchmark_id tenant_id (metrics_obj (JObj before) JNull) ;;~
  pcatch (execute_phases identity snapshot size before) (fun e => Some (
    if is_exception e
    then phases <~ close_benchmark before FAILED (fun _ => Some (exn_text e)); pret (mkBenchSummary benchmark_id FAILED phases)
    else
      interrupt_phases CANCELLED_REASON (seq 0 size) ;;~
      close_benchmark before INTERRUPTED (fun _ => Some BENCHMARK_CANCELLED) ;;~ praise e)).
End One.

(** ** Starting *)

Definition benchmark_dataset_snapshot (x : dataset) : run_source :=
  mkSource (map snapshot_item (ds_items x)) (ds_version x) (ds_sha256 x).

Definition start_benchmark (caller : option auth_identity) (dataset_id : text) (phases : option (list text)) (profile : option text)
    : eprog (benchmark * eprog bench_summary) :=
  dataset <~ get_dataset cfg caller dataset_id;
  match caller with
  | None => praise (PyError (lit "AuthError") (lit "authenticated identity is missing from request context"))
  | Some identity =>
      match ds_items dataset with
      | [] => invalid (lit "Dataset has no items to evaluate")
      | items =>
          if bool_decide (is_Some phases) && bool_decide (is_Some profile)
          then invalid (lit "Specify a benchmark profile or phases, not both")
          else
            let requested_profile :=
              match phases with
              | Some _ => profile
              | None => Some (match profile with Some ((_ :: _) as p) => p | _ => lit "full_quality" end)
              end in
            requested <~ match phases with
                         | Some l => pret l
                         | None => plift (phases_for_profile (default [] requested_profile))
                         end;
            plan <~ plift (plan_phases (Some requested) (rn_has_graph rn));
            let names s := map ph_name (List.filter (is_status s) plan) in
            let skipped := List.filter (fun n => negb (bool_decide (n ∈ map ph_name plan))) PHASE_NAMES in
            let snapshot := benchmark_dataset_snapshot dataset in
            benchmark <~ create_benchmark_run cfg caller dataset_id plan (build_progress iso_text plan (zlen items))
              (so_version snapshot) (so_sha256 snapshot) (Some (so_items snapshot))
              (Some (manifest_of dataset (zlen items) (map ph_name plan) requested_profile (names PHASE_QUEUED)
                       (names PHASE_UNSUPPORTED) skipped))
              (Some (metrics_obj JNull JNull)) (Some owner_id) requested_profile;
            write_table (be_id benchmark) (fun _ => plan) ;;~
            pret (benchmark,
                  execute_benchmark (be_id benchmark) (ai_tenant_id identity) dataset_id (zlen items) identity snapshot (length plan))
      end
  end.

(** ** Reconciliation *)

Definition terminal_phase (s : phase_status) : bool := match s with PHASE_QUEUED | PHASE_RUNNING => false | _ => true end.
Definition RECOVERY_REASON : text := lit "Recovery could not prove a safe idempotent resume boundary".
Definition RECOVERY_ERROR : text := lit "Benchmark interrupted during process restart; safe resume was not proven".

(** The phases of a document of the store, one after the other, with whether one changed. *)
Fixpoint interrupt_stored (phases : list phase) : eprog (list phase * bool) :=
  match phases with
  | [] => pret ([], false)
  | p :: phases =>
      if terminal_phase (ph_status p) then
        r <~ interrupt_stored phases; pret (p :: r.1, r.2)
      else
        t <~ match ph_finished p with Some t => pret t | None => now_ end;
        r <~ interrupt_stored phases;
        pret (((clock_phase t (p {{ ph_status := PHASE_INTERRUPTED }})) {{ ph_reason := Some RECOVERY_REASON }}) :: r.1, true)
  end.

Fixpoint reconcile_all (stale : list benchmark) : eprog unit :=
  match stale with
  | [] => pret tt
  | x :: stale =>
      r <~ interrupt_stored (be_phases x);
      let '(phases, changed) := r in
      (if negb changed && negb (bool_decide (be_status x = QUEUED)) then pret tt
       else finish_benchmark_run cfg (be_id x) (be_tenant x) INTERRUPTED phases
              (build_progress iso_text phases (count_of (be_progress x) "items_total")) (Some RECOVERY_ERROR)) ;;~
      reconcile_all stale
  end.

(** [{id: benchmark}]: of two documents with one id the last, at the place of the first. *)
Fixpoint keyed_by_id (l : list benchmark) : list benchmark :=
  match l with
  | [] => []
  | x :: l =>
      default x (List.find (fun y => bool_decide (be_id y = be_id x)) (rev l)) ::
      List.filter (fun y => negb (bool_decide (be_id y = be_id x))) (keyed_by_id l)
  end.

Definition reconcile_startup : eprog unit :=
  recovered <~ recover_stale_runs cfg (rn_owner rn);
  stale <~ stale_benchmarks cfg;
  active <~ active_benchmarks cfg;
  reconcile_all (keyed_by_id stale).

(** ** Requests *)

Inductive bench_reply :=
  | BenchStarted (x : benchmark) (task : eprog bench_summary)
  | BenchList (l : list benchmark)
  | BenchOne (x : benchmark)
  | BenchExport (o : obj)
  | BenchError (kind : string) (m : text).

(** [[str(name) for name in phases]]. *)
Definition phase_names (v : json) : outcome py_exn (option (list text)) :=
  match v with
  | JNull => Ok None
  | JArr l => Ok (Some (map py_str l))
  | JStr t => Ok (Some (map (fun c => [c]) t))
  | JObj o => Ok (Some (map (fun kv => lit kv.1) o))
  | _ => Raise (PyError (lit "TypeError") (lit "object is not iterable"))
  end.

Definition bench_dispatch (caller : option auth_identity) (action : text) (payload : obj) : eprog bench_reply :=
  let is_action a := bool_decide (action = lit a) in
  if is_action "start_benchmark_run" then
    phases <~ plift (phase_names (get payload "phases"));
    r <~ start_benchmark caller (text_or_empty (get payload "dataset_id")) phases
           (if is_none (get payload "profile") then None else Some (py_str (get payload "profile")));
    pret (BenchStarted r.1 r.2)
  else if is_action "list_benchmark_runs" then
    l <~ list_benchmark_runs cfg caller (opt_text (get payload "dataset_id")) (count_of payload "limit"); pret (BenchList l)
  else if is_action "get_benchmark_run" then
    x <~ get_benchmark_run cfg caller (text_or_empty (get payload "benchmark_id")); pret (BenchOne x)
  else if is_action "export_benchmark_run" then
    o <~ export_of (text_or_empty (get payload "benchmark_id")); pret (BenchExport o)
  else pret (BenchError "validation" (lit "Unsupported benchmark action: " ++ repr (JStr action))).

Definition bench_handle (caller : option auth_identity) (action : text) (payload : obj) : eprog bench_reply :=
  pcatch (bench_dispatch caller action payload) (fun e =>
    if is_class "EvalValidationError" e then Some (pret (BenchError "validation" (exn_text e)))
    else if is_class "EvalNotFound" e then Some (pret (BenchError "not_found" (exn_text e)))
    else if is_class "EvalAccessDenied" e then Some (pret (BenchError "forbidden" (exn_text e)))
    else None).
End Orchestration.

(** ** Programs that rely on different things *)

Lemma rg_rely {W A} (S S' R : W -> W -> Prop) (p : prog W A) w Q :
  (forall w w', S' w w' -> S w w') -> rg S R p w Q -> rg S' R p w Q.
Proof.
  intros HS. revert w. induction p as [o|f IH] using prog_acts_ind; intros w; cbn; [done|].
  intros Hp w' Hw. specialize (Hp w' (HS _ _ Hw)). specialize (IH w'). destruct (f w') as [q w2]. naive_solver.
Qed.

(** As [rg_interleave], where each program relies on a relation of its own. *)
Lemma rg_interleave_each {W A} (S R : nat -> W -> W -> Prop) `{!forall i, PreOrder (S i)} (Q : nat -> outcome py_exn A -> W -> Prop)
    schedule l w :
  (forall i j w w', i <> j -> R i w w' -> S j w w') ->
  (forall i o w w', Q i o w -> S i w w' -> Q i o w') ->
  (forall i p, l !! i = Some p -> rg (S i) (R i) p w (Q i)) ->
  let '(l', w') := interleave schedule (l, w) in forall i p, l' !! i = Some p -> rg (S i) (R i) p w' (Q i).
Proof.
  intros HR HQ. revert l w. induction schedule as [|j schedule IH]; intros l w Hl; cbn; [done|].
  unfold advance. cbn. destruct (l !! j) as [[o|f]|] eqn:E; [by apply IH| |by apply IH].
  pose proof (Hl j _ E w (reflexivity w)) as Hj. destruct (f w) as [q w2]. destruct Hj as [HRj Hq]. apply IH.
  intros i p. destruct (decide (i = j)) as [->|Hij].
  - rewrite list_lookup_insert_eq by by eapply lookup_lt_Some. by intros [= <-].
  - rewrite list_lookup_insert_ne by done. intros Hi. eapply (rg_later (S i)); eauto.
Qed.

(** ** What a program takes from a counter *)

Section Spends.
Context {W : Type} (c : W -> option Z).

(** Each step takes some amount from the counter, in whatever state it is taken.  From [n],
    [Q] holds of the outcome and of what is left. *)
Fixpoint spends {A} (p : prog W A) (n : Z) (Q : outcome py_exn A -> Z -> Prop) : Prop :=
  match p with
  | Done o => Q o n
  | Act f => forall w, exists k, c (f w).2 = (fun x => x - k) <$> c w /\ spends (f w).1 (n - k) Q
  end.

Lemma spends_conseq {A} (p : prog W A) n (Q Q' : outcome py_exn A -> Z -> Prop) :
  spends p n Q -> (forall o m, Q o m -> Q' o m) -> spends p n Q'.
Proof.
  intros Hp HQ. revert n Hp. induction p as [o|f IH] using prog_acts_ind; intros n; cbn; [by apply HQ|].
  intros Hp w. destruct (Hp w) as (k & Hk & Hn). exists k. split; [done|by apply IH].
Qed.

Lemma spends_bind {A B} (p : prog W A) (k : A -> prog W B) n (Q : outcome py_exn B -> Z -> Prop) :
  spends p n (fun o m => match o with Ok a => spends (k a) m Q | Raise e => Q (Raise e) m end) -> spends (pbind p k) n Q.
Proof.
  revert n. induction p as [[a|e]|f IH] using prog_acts_ind; intros n; cbn; [done|done|].
  intros Hp w. destruct (Hp w) as (j & Hj & Hn). specialize (IH w). exists j. destruct (f w) as [q w']. by split; [|apply IH].
Qed.

Lemma spends_catch {A} (p : prog W A) h n (Q : outcome py_exn A -> Z -> Prop) :
  spends p n (fun o m => match o with
                         | Ok a => Q (Ok a) m
                         | Raise e => match h e with Some q => spends q m Q | None => Q (Raise e) m end
                         end) -> spends (pcatch p h) n Q.
Proof.
  revert n. induction p as [[a|e]|f IH] using prog_acts_ind; intros n; cbn; [done|by destruct (h e)|].
  intros Hp w. destruct (Hp w) as (j & Hj & Hn). specialize (IH w). exists j. destruct (f w) as [q w']. by split; [|apply IH].
Qed.

(** Programs that take nothing, and programs that have taken all of [n] when they return. *)
Definition free {A} (p : prog W A) : Prop := forall n, spends p n (fun _ m => m = n).
Definition takes {A} (p : prog W A) (n : Z) : Prop :=
  spends p n (fun o m => match o with Ok _ => m = 0 | Raise _ => True end).

Lemma free_done {A} (o : outcome py_exn A) : free (Done o).
Proof. done. Qed.
Lemma free_atomically {A} (e : eff W A) : (forall w, c (e w).2 = c w) -> free (atomically e).
Proof.
  intros He n w. exists 0. specialize (He w). destruct (e w) as [o w']. cbn in *. rewrite Z.sub_0_r, He.
  split; [|done]. destruct (c w) as [x|]; [|done]. cbn. by rewrite Z.sub_0_r.
Qed.
Lemma free_bind {A B} (p : prog W A) (k : A -> prog W B) : free p -> (forall a, free (k a)) -> free (pbind p k).
Proof. intros Hp Hk n. apply spends_bind. eapply spends_conseq; [apply Hp|]. intros [a|e] m ->; [apply Hk|done]. Qed.

Lemma spends_then {A B} (p : prog W A) (k : A -> prog W B) n (Q : outcome py_exn B -> Z -> Prop) :
  free p -> (forall a, spends (k a) n Q) -> (forall e, Q (Raise e) n) -> spends (pbind p k) n Q.
Proof. intros Hp Hk He. apply spends_bind. eapply spends_conseq; [apply Hp|]. intros [a|e] m ->; auto. Qed.
Lemma takes_then {A B} (p : prog W A) (k : A -> prog W B) n : free p -> (forall a, takes (k a) n) -> takes (pbind p k) n.
Proof. intros Hp Hk. by apply spends_then. Qed.

Lemma free_takes {A} (p : prog W A) : free p -> takes p 0.
Proof. intros Hp. eapply spends_conseq; [apply Hp|]. by intros [a|e] m ->. Qed.

Definition sum (ns : list Z) : Z := foldr Z.add 0 ns.
Lemma counter_sum_insert ns i n m : ns !! i = Some n -> sum (<[i := m]> ns) = sum ns - (n - m).
Proof.
  revert i. induction ns as [|x ns IH]; intros [|i]; cbn; [done|done| |].
  - intros [= ->]. lia.
  - intros Hi. change (x + sum (<[i := m]> ns) = x + sum ns - (n - m)). rewrite (IH i Hi). lia.
Qed.

(** What the items of a [gather] take adds up, in whatever order they take turns. *)
Lemma in_turn_takes {A} (ps : list (prog W A)) ns : Forall2 takes ps ns -> takes (in_turn ps) (sum ns).
Proof.
  assert (forall m, Forall2 takes ps ns ->
    spends (in_turn ps) (sum ns + m) (fun o m' => match o with Ok _ => m' = m | Raise _ => True end)) as Hg.
  { intros m Hp. revert m. induction Hp as [|p n ps ns Hp Hps IH]; intros m; [done|].
    change (in_turn (p :: ps)) with (a <~ p; l <~ in_turn ps; pret (a :: l)).
    change (sum (n :: ns)) with (n + sum ns). apply spends_bind.
    assert (forall k, spends p (n + k) (fun o m' => match o with Ok _ => m' = k | Raise _ => True end)) as Hf.
    { clear -Hp. revert n Hp. unfold takes. induction p as [o|f IHp] using prog_acts_ind; intros n Hp k; cbn in *.
      - destruct o; [lia|done].
      - intros w. destruct (Hp w) as (j & Hj & Hn). exists j. split; [done|].
        replace (n + k - j) with (n - j + k) by lia. by apply IHp. }
    replace (n + sum ns + m) with (n + (sum ns + m)) by lia. eapply spends_conseq; [apply Hf|].
    intros [a|e] m' E; [|done]. rewrite E. apply spends_bind. eapply spends_conseq; [apply IH|].
    by intros [l|e] m2 E2. }
  intros Hp. specialize (Hg 0 Hp). rewrite Z.add_0_r in Hg. exact Hg.
Qed.

Lemma gather_takes {A} order (ps : list (prog W A)) ns : Forall2 takes ps ns -> takes (gather order ps) (sum ns).
Proof.
  revert ps ns. induction order as [|i order IH]; intros ps ns Hp; cbn [gather].
  { destruct (first_raise ps); [done|]. by apply in_turn_takes. }
  destruct (first_raise ps); [done|]. destruct (ps !! i) as [[o|f]|] eqn:E; [by apply IH| |by apply IH].
  destruct (Forall2_lookup_l _ _ _ _ _ Hp E) as (n & En & Hf). intros w. destruct (Hf w) as (k & Hk & Hn). exists k.
  destruct (f w) as [q w2]. cbn in *. split; [done|].
  replace (sum ns - k) with (sum (<[i := n - k]> ns)) by (rewrite (counter_sum_insert _ _ _ _ En); lia).
  apply IH. by apply Forall2_insert.
Qed.

(** With others that leave the counter alone, what is taken is what it has lost. *)
Lemma spends_rg {A} (S R : W -> W -> Prop) (p : prog W A) w n (Q : outcome py_exn A -> W -> Prop) (Qn : outcome py_exn A -> Z -> Prop) :
  (forall w w', S w w' -> c w' = c w) -> rg S R p w Q -> spends p n Qn ->
  rg S R p w (fun o w' => Q o w' /\ exists m, Qn o m /\ c w' = (fun x => x - (n - m)) <$> c w).
Proof.
  intros HS. revert w n. induction p as [o|f IH] using prog_acts_ind; intros w n; cbn.
  - intros HQ Hn. split; [done|]. exists n. split; [done|]. destruct (c w) as [x|]; [|done]. cbn. f_equal. lia.
  - intros Hp Hs w1 Hw. specialize (Hp w1 Hw). destruct (Hs w1) as (k & Hk & Hn). specialize (IH w1).
    destruct (f w1) as [q w2]. destruct Hp as [Hr Hq]. split; [done|]. cbn in *. eapply rg_conseq; [by apply IH|done|].
    intros o w3 [HQ3 (m & Hm & E)]. split; [done|]. exists m. split; [done|]. rewrite E, Hk, (HS _ _ Hw).
    destruct (c w) as [x|]; [|done]. cbn. f_equal. lia.
Qed.
End Spends.

(** ** One benchmark *)

(** Runs take steps, and the documents of benchmarks keep their identity. *)
Definition docs_step (P : benchmark -> benchmark -> Prop) (d d' : eval_db) : Prop :=
  forall n x, db_benchmarks d !! n = Some x -> exists y, db_benchmarks d' !! n = Some y /\
    be_tenant y = be_tenant x /\ be_id y = be_id x /\ P x y.
Definition kept (d d' : eval_db) : Prop := runs_step d d' /\ docs_step (fun _ _ => True) d d'.

Lemma docs_step_trans P d1 d2 d3 : (forall x y z, be_id y = be_id x -> P x y -> P y z -> P x z) ->
  docs_step P d1 d2 -> docs_step P d2 d3 -> docs_step P d1 d3.
Proof.
  intros HP H12 H23 n x Hx. destruct (H12 n x Hx) as (y & Hy & E1 & E2 & Hxy). destruct (H23 n y Hy) as (z & Hz & E3 & E4 & Hyz).
  exists z. split_and!; [done|congruence|congruence|]. by eapply HP.
Qed.
Lemma docs_step_weak (P P' : benchmark -> benchmark -> Prop) d d' : (forall x y, P x y -> P' x y) -> docs_step P d d' -> docs_step P' d d'.
Proof. intros HP Hd n x Hx. destruct (Hd n x Hx) as (y & ? & ? & ? & ?). exists y. by split_and!; [..|apply HP]. Qed.
Lemma docs_step_same (P : benchmark -> benchmark -> Prop) d d' : (forall x, P x x) -> db_benchmarks d' = db_benchmarks d -> docs_step P d d'.
Proof. intros HP E n x Hx. exists x. by rewrite E. Qed.
Lemma docs_step_update (P : benchmark -> benchmark -> Prop) d d' p f :
  (forall x, P x x) -> (forall x, p x = true -> P x (f x)) -> (forall x, be_tenant (f x) = be_tenant x /\ be_id (f x) = be_id x) ->
  db_benchmarks d' = update_first p f (db_benchmarks d) -> docs_step P d d'.
Proof.
  intros HP Hf Hid E n x Hx. rewrite E. destruct (update_first_lookup p f _ _ _ Hx) as (y & Hy & [->|[Hp ->]]).
  - by exists x.
  - exists (f x). destruct (Hid x). by split_and!; [..|apply Hf].
Qed.

#[local] Instance kept_preorder : PreOrder kept.
Proof.
  split; [intros d; split; [reflexivity|by apply docs_step_same]|].
  intros a b c [H1 H2] [H3 H4]. split; [by etrans|by eapply docs_step_trans].
Qed.

Section OneBenchmark.
Context `{PyText} `{JsonText} `{CompactJson} `{Fingerprint} `{EvalEnv} `{Discount} `{EvalServices} `{BenchmarkServices}.
Context (rn : runner) (owner_id : text) (identity : auth_identity) (id dataset_id : text) (item_count : Z).
Abbreviation cfg := (rn_cfg rn).
Abbreviation tenant := (ai_tenant_id identity).
Abbreviation eprog := (prog eval_db).
Abbreviation store_error := (store_error rn).

(** What the execution relies on: its documents, once closed, stay closed, and its table is its
    own.  What it guarantees: it leaves the state of other benchmarks and their tables alone. *)
Definition rely (d d' : eval_db) : Prop :=
  runs_step d d' /\ docs_step (fun x y => be_id x = id -> active (be_status x) = false -> active (be_status y) = false) d d' /\
  db_tables d' !! id = db_tables d !! id.
Definition guarantee (d d' : eval_db) : Prop :=
  runs_step d d' /\ docs_step (fun x y => be_id x <> id -> be_status y = be_status x) d d' /\
  forall j, j <> id -> db_tables d' !! j = db_tables d !! j.

#[export] Instance rely_preorder : PreOrder rely.
Proof.
  split.
  - intros d. split_and!; [reflexivity|by apply docs_step_same|done].
  - intros a b c (Ha1 & Ha2 & E) (Hb1 & Hb2 & E'). split_and!; [by etrans| |congruence].
    eapply docs_step_trans; [|exact Ha2|exact Hb2]. cbn. intros x y z Ei Hxy Hyz Hid Ha. apply Hyz; [congruence|by apply Hxy].
Qed.
Lemma rely_kept d d' : rely d d' -> kept d d' /\ table d' id = table d id.
Proof. intros (Hr & Hd & Ht). split; [split; [done|by eapply docs_step_weak]|]. unfold table. by rewrite Ht. Qed.
Lemma guarantee_kept d d' : guarantee d d' -> kept d d'.
Proof. intros (Hr & Hd & _). split; [done|by eapply docs_step_weak]. Qed.

(** Nothing happens to the documents beyond what is kept, or to the table. *)
Definition quiet (d d' : eval_db) : Prop := kept d d' /\ table d' id = table d id.
#[local] Instance quiet_preorder : PreOrder quiet.
Proof. split; [by intros d|]. intros a b c [Ha Ea] [Hb Eb]. split; [by etrans|congruence]. Qed.

(** A program from [d] on: what happens is within [K], it raises only [E], and returns with
    [Q]. *)
Definition tri_in (K : eval_db -> eval_db -> Prop) {A} (d : eval_db) (p : eprog A) (E : py_exn -> Prop) (Q : A -> eval_db -> Prop) : Prop :=
  rg rely guarantee p d (fun o d' => K d d' /\ match o with Ok a => Q a d' | Raise e => E e end).
Abbreviation tri := (tri_in kept).

Class Coarse (K : eval_db -> eval_db -> Prop) : Prop := { coarse_preorder :: PreOrder K; coarse d d' : quiet d d' -> K d d' }.
#[local] Instance kept_coarse : Coarse kept.
Proof. split; [apply _|by intros d d' []]. Qed.
#[local] Instance quiet_coarse : Coarse quiet.
Proof. split; [apply _|done]. Qed.

Section Triples.
Context (K : eval_db -> eval_db -> Prop) `{!Coarse K}.

Lemma in_ret {A} d (a : A) E Q : Q a d -> tri_in K d (pret a) E Q.
Proof. intros HQ. split; [reflexivity|done]. Qed.
Lemma in_raise {A} d e E (Q : A -> eval_db -> Prop) : E e -> tri_in K d (praise e) E Q.
Proof. intros He. split; [reflexivity|done]. Qed.
Lemma in_bind {A B} d (p : eprog A) (k : A -> eprog B) E Q :
  tri_in K d p E (fun a d' => tri_in K d' (k a) E Q) -> tri_in K d (pbind p k) E Q.
Proof.
  intros Hp. apply rg_bind. eapply rg_conseq; [exact Hp|done|]. intros [a|e] d1 [Hd HQ]; [|done].
  eapply rg_conseq; [exact HQ|done|]. intros o d2 [Hd2 HQ2]. split; [by etrans|done].
Qed.
Lemma in_weak {A} d (p : eprog A) (E E' : py_exn -> Prop) (Q Q' : A -> eval_db -> Prop) :
  tri_in K d p E Q -> (forall e, E e -> E' e) -> (forall a d', K d d' -> Q a d' -> Q' a d') -> tri_in K d p E' Q'.
Proof. intros Hp HE HQ. eapply rg_conseq; [exact Hp|done|]. intros [a|e] d1 [Hd Hq]; split; auto. Qed.

Lemma tick_guarantee d : guarantee d (d {{ db_tick ::= Datatypes.S }}).
Proof. split_and!; [intros n x Hx; by exists x|by apply docs_step_same|done]. Qed.

Lemma in_interact {A} (f : nat -> A) d E Q :
  (forall n d', K d d' -> table d' id = table d id -> Q (f n) d') -> tri_in K d (interact f) E Q.
Proof.
  intros HQ. apply rg_atomically. intros d1 Hd1. destruct (rely_kept _ _ Hd1) as [Hk Ht]. cbn.
  pose proof (tick_guarantee d1) as Hg. split; [done|].
  assert (K d (d1 {{ db_tick ::= Datatypes.S }})) by (apply coarse; split; [etrans; [exact Hk|by apply guarantee_kept]|done]).
  split; [done|]. by apply HQ.
Qed.

(** One call of the driver, which either takes effect or not when it fails. *)
Lemma in_call {A} (c : eff eval_db A) d E Q :
  (forall d', guarantee d' ((c d').2 {{ db_tick ::= Datatypes.S }}) /\ table (c d').2 id = table d' id) ->
  (forall e, store_error e -> E e) ->
  (forall d', rely d d' -> match (c d').1 with Ok a => Q a ((c d').2 {{ db_tick ::= Datatypes.S }}) | Raise e => E e end) ->
  tri_in K d (db_call cfg c) E Q.
Proof.
  intros Hc He HQ. apply rg_atomically. intros d1 Hd1. destruct (rely_kept _ _ Hd1) as [Hk Ht]. unfold db_step.
  specialize (HQ d1 Hd1). destruct (Hc d1) as [Hg Et]. pose proof (tick_guarantee d1) as Hg0.
  assert (forall d2, guarantee d1 d2 -> table d2 id = table d1 id -> K d d2) as HK.
  { intros d2 Hd2 E2. apply coarse. split; [etrans; [exact Hk|by apply guarantee_kept]|congruence]. }
  destruct (if in_memory cfg then None else store_fault (db_tick d1)) as [[applied msg]|] eqn:Ef; cbn.
  - apply faulted in Ef. destruct applied; (split; [done|]; split; [by apply HK|by apply He]).
  - destruct (c d1) as [o d2]. cbn in *. split; [done|]. split; [by apply HK|done].
Qed.
End Triples.
Abbreviation tri_ret := (in_ret kept).
Abbreviation tri_raise := (in_raise kept).
Abbreviation tri_bind := (in_bind kept).
Abbreviation tri_weak := (in_weak kept).
Abbreviation tri_interact := (in_interact kept).
Abbreviation tri_call := (in_call kept).

Lemma tri_read d E Q :
  (forall d', kept d d' -> table d' id = table d id -> Q (table d id) d') -> tri d (read_table id) E Q.
Proof.
  intros HQ. apply rg_atomically. intros d1 Hd1. destruct (rely_kept _ _ Hd1) as [Hk Ht]. cbn. split.
  - split_and!; [reflexivity|by apply docs_step_same|done].
  - split; [done|]. rewrite Ht. by apply HQ.
Qed.

Lemma tri_write d f E Q :
  (forall d', kept d d' -> table d' id = f (table d id) -> Q tt d') -> tri d (write_table id f) E Q.
Proof.
  intros HQ. apply rg_atomically. intros d1 Hd1. destruct (rely_kept _ _ Hd1) as [Hk Ht]. cbn.
  set (d2 := setf db_tables _ d1). assert (guarantee d1 d2) as Hg.
  { split_and!; [intros n x Hx; by exists x|by apply docs_step_same|]. intros j Hj. cbn. by rewrite lookup_insert_ne. }
  assert (kept d d2) by (etrans; [exact Hk|by apply guarantee_kept]).
  split; [done|]. split; [done|]. apply HQ; [done|]. unfold table at 1. cbn. by rewrite lookup_insert, Ht, decide_True.
Qed.

Lemma tri_bench p f d E Q :
  (forall x, p x = true -> benchmark_scope tenant id x = true) -> (forall x, be_tenant (f x) = be_tenant x /\ be_id (f x) = be_id x) ->
  (forall e, store_error e -> E e) ->
  (forall d', rely d d' -> Q (existsb p (db_benchmarks d')) (d' {{ db_benchmarks ::= update_first p f }} {{ db_tick ::= Datatypes.S }})) ->
  tri d (update_benchmarks cfg p f) E Q.
Proof.
  intros Hp Hf He HQ. apply tri_call; [|done|exact HQ]. intros d1. split; [|done].
  split_and!; [intros n x Hx; by exists x| |done]. eapply docs_step_update; [done| |exact Hf|done]. cbn.
  intros x Hx Hid. apply Hp in Hx. unfold benchmark_scope in Hx. apply andb_true_iff in Hx as [_ Hx%bool_decide_eq_true]. done.
Qed.

(** The calls that neither open nor close anything keep the table. *)
Lemma tri_bench_kept p f d E (Q : bool -> eval_db -> Prop) :
  (forall x, p x = true -> benchmark_scope tenant id x = true) -> (forall x, be_tenant (f x) = be_tenant x /\ be_id (f x) = be_id x) ->
  (forall e, store_error e -> E e) -> (forall b d', kept d d' -> table d' id = table d id -> Q b d') ->
  tri d (update_benchmarks cfg p f) E Q.
Proof.
  intros Hp Hf He HQ. eapply tri_weak; [apply (tri_bench p f d E (fun _ d' => table d' id = table d id)); [done|done|done|]|done|].
  - intros d1 Hd. exact (proj2 (rely_kept _ _ Hd)).
  - intros b d1 Hd Ht. by apply HQ.
Qed.

Lemma tri_heartbeat d E (Q : bool -> eval_db -> Prop) : (forall e, store_error e -> E e) ->
  (forall b d', kept d d' -> table d' id = table d id -> Q b d') -> tri d (heartbeat_benchmark cfg id tenant owner_id) E Q.
Proof.
  intros He HQ. apply tri_bind, tri_interact. intros n d1 Hd1 E1. apply tri_bench_kept; [|done|done|].
  - intros x [[Hx _]%andb_true_iff _]%andb_true_iff. done.
  - intros b d2 Hd2 E2. apply HQ; [by etrans|congruence].
Qed.

Lemma tri_metrics m d E (Q : unit -> eval_db -> Prop) : (forall e, store_error e -> E e) ->
  (forall d', kept d d' -> table d' id = table d id -> Q tt d') -> tri d (record_benchmark_operational_metrics cfg id tenant m) E Q.
Proof. intros He HQ. apply tri_bind, tri_bench_kept; [done|done|done|]. intros b d1 Hd1 E1. by apply tri_ret, HQ. Qed.

Lemma tri_progress started d E (Q : unit -> eval_db -> Prop) : (forall e, store_error e -> E e) ->
  (forall d', kept d d' -> table d' id = table d id -> Q tt d') -> tri d (record_progress rn id tenant item_count started) E Q.
Proof.
  intros He HQ. apply tri_bind, tri_read. intros d1 Hd1 E1. apply tri_bind.
  assert (forall d2 (t : option Z), kept d d2 -> table d2 id = table d id ->
    tri d2 (update_benchmarks cfg (benchmark_scope tenant id)
      (fun x => x {{ be_status := RUNNING }} {{ be_phases := table d id }} {{ be_progress := build_progress iso_text (table d id) item_count }}
                  {{ be_started := match t with Some t => Some (stored cfg t) | None => be_started x end }}) ;;~ pret tt) E Q) as Hu.
  { intros d2 t Hd2 E2. apply tri_bind, tri_bench_kept; [done|done|done|]. intros b d3 Hd3 E3. apply tri_ret, HQ; [by etrans|congruence]. }
  destruct started.
  - apply tri_bind, tri_interact. intros n d2 Hd2 E2. apply tri_ret, (Hu d2 (Some (now_at n))); [by etrans|congruence].
  - apply tri_ret, (Hu d1 None); [done|congruence].
Qed.

(** How an execution may fail to close its benchmark: the exception it raises is one of the
    database, or the cancellation that reached it in the collector of metrics. *)
Definition unclosed (e : py_exn) : Prop := store_error e \/ (is_exception e = false /\ exists n, snapshot_reply n = Raise e).

Lemma tri_snapshot d (Q : obj -> eval_db -> Prop) : (forall s d', kept d d' -> table d' id = table d id -> Q s d') ->
  tri d capture_snapshot unclosed Q.
Proof.
  intros HQ. apply tri_bind, tri_interact. intros n d1 Hd1 E1. destruct (snapshot_reply n) as [s|e] eqn:E; [by apply tri_ret, HQ|].
  destruct (is_exception e) eqn:Ee; [|apply tri_raise; right; split; [done|by exists n]].
  apply tri_bind, tri_interact. intros m d2 Hd2 E2. apply tri_ret, HQ; [by etrans|congruence].
Qed.

Definition present (d : eval_db) : Prop := exists n x, db_benchmarks d !! n = Some x /\ benchmark_scope tenant id x = true.
Definition bench_closed (d : eval_db) : Prop :=
  exists n x, db_benchmarks d !! n = Some x /\ benchmark_scope tenant id x = true /\ active (be_status x) = false.

Lemma present_kept d d' : present d -> kept d d' -> present d'.
Proof.
  intros (n & x & Hx & Hs) [_ Hd]. destruct (Hd n x Hx) as (y & Hy & E1 & E2 & _). exists n, y. split; [done|].
  unfold benchmark_scope in *. by rewrite E1, E2.
Qed.
Lemma bench_closed_rely d d' : bench_closed d -> rely d d' -> bench_closed d'.
Proof.
  intros (n & x & Hx & Hs & Ha) (_ & Hd & _). destruct (Hd n x Hx) as (y & Hy & E1 & E2 & Hst). exists n, y. split; [done|].
  unfold benchmark_scope in *. rewrite E1, E2. split; [done|]. apply Hst; [|done]. by apply andb_true_iff in Hs as [_ Hs%bool_decide_eq_true].
Qed.

Lemma tri_finish status phases progress error d E : active status = false -> present d -> (forall e, store_error e -> E e) ->
  tri d (finish_benchmark_run cfg id tenant status phases progress error) E (fun _ d' => bench_closed d' /\ table d' id = table d id).
Proof.
  intros Ha Hp He. apply tri_bind, tri_interact. intros n d1 Hd1 E1. apply tri_bind, tri_bench; [done|done|done|].
  intros d2 Hd2. apply tri_ret. destruct (rely_kept _ _ Hd2) as [Hk E2]. split; [|etrans; [exact E2|exact E1]].
  destruct (present_kept _ _ Hp (transitivity Hd1 Hk)) as (m & x & Hx & Hs). set (p := benchmark_scope _ _). set (f := fun x : benchmark => _).
  destruct (update_first_hit p f (db_benchmarks d2)) as (k & y & Hy & Hpy & Hu).
  { apply existsb_exists. exists x. split; [|done]. apply list_elem_of_In. by eapply list_elem_of_lookup_2. }
  exists k, (f y). cbn. split; [done|]. split; [exact Hpy|done].
Qed.

Lemma tri_close before status error d : active status = false -> present d ->
  tri d (close_benchmark rn id tenant item_count before status error) unclosed
    (fun phases d' => bench_closed d' /\ table d' id = phases /\ phases = table d id).
Proof.
  intros Ha Hp. apply tri_bind, tri_snapshot. intros s d1 Hd1 E1. apply tri_bind, tri_metrics; [by left|]. intros d2 Hd2 E2.
  apply tri_bind, tri_read. intros d3 Hd3 E3. apply tri_bind.
  eapply tri_weak; [apply (tri_finish _ _ _ _ _ unclosed); [done| |by left]|done|].
  - eapply present_kept; [exact Hp|]. etrans; [exact Hd1|]. by etrans.
  - intros [] d4 _ [Hc E4]. apply tri_ret. split_and!; [done|congruence|congruence].
Qed.

Lemma tri_set k f d E (Q : unit -> eval_db -> Prop) :
  (forall d', kept d d' -> table d' id = alter f k (table d id) -> Q tt d') -> tri d (set_phase id k f) E Q.
Proof. apply tri_write. Qed.

Lemma tri_clock k d E (Q : unit -> eval_db -> Prop) :
  (forall t d', kept d d' -> table d' id = alter (clock_phase t) k (table d id) -> Q tt d') -> tri d (finish_phase_clock id k) E Q.
Proof.
  intros HQ. apply tri_bind, tri_read. intros d1 Hd1 E1.
  assert (forall t d2, kept d d2 -> table d2 id = table d id -> tri d2 (set_phase id k (clock_phase t)) E Q) as Hs.
  { intros t d2 Hd2 E2. apply tri_set. intros d3 Hd3 E3. apply (HQ t); [by etrans|congruence]. }
  apply tri_bind. destruct (table d id !! k ≫= ph_finished) as [t|]; [by apply tri_ret, Hs|].
  apply tri_interact. intros n d2 Hd2 E2. apply Hs; [by etrans|congruence].
Qed.

Lemma tri_interrupt reason ks d :
  tri d (interrupt_phases id reason ks) unclosed (fun _ _ => True).
Proof.
  revert d. induction ks as [|k ks IH]; intros d; cbn [interrupt_phases]; [by apply tri_ret|]. apply tri_bind, tri_read. intros d1 _ _.
  apply tri_bind. destruct (_ || _); [|apply tri_ret; apply IH].
  apply tri_bind, tri_set. intros d2 _ _. apply tri_bind, tri_clock. intros t d3 _ _. apply tri_set. intros d4 _ _. apply IH.
Qed.

(** ** The items of a phase *)

(** The counters of a phase account for every item, each on one axis. *)
Definition counted (c : item_counts) : Prop :=
  ic_completed c + ic_in_flight c = item_count /\ ic_completed c = ic_succeeded c + ic_blocked c + ic_failed c + ic_timed_out c.
Definition phase_counted (p : phase) : Prop := match ph_items p with Some c => counted c | None => True end.
Definition with_items (c : option item_counts) (p : phase) : phase := p {{ ph_items := c }}.

(** Only the counters of phase [k] change, and they stay right. *)
Definition items_step (k : nat) (l l' : list phase) : Prop :=
  exists c, l' = alter (with_items c) k l /\ (forall p, l !! k = Some p -> phase_counted p -> phase_counted (with_items c p)).

Lemma alter_same {A} (f : A -> A) k (l : list A) : (forall x, l !! k = Some x -> f x = x) -> alter f k l = l.
Proof.
  intros Hf. apply list_eq. intros j. rewrite list_lookup_alter. destruct (decide (k = j)) as [->|]; [|done].
  destruct (l !! j) as [x|] eqn:E; cbn; [|done]. by rewrite Hf.
Qed.

Lemma items_step_intro k l (f : phase -> phase) :
  (forall p, f p = with_items (ph_items (f p)) p) -> (forall p, phase_counted p -> phase_counted (f p)) -> items_step k l (alter f k l).
Proof.
  intros Hf Hc. destruct (l !! k) as [p|] eqn:E.
  - exists (ph_items (f p)). split.
    + apply list_eq. intros j. rewrite !list_lookup_alter. destruct (decide (k = j)) as [->|]; [|done]. rewrite E. cbn. by rewrite Hf.
    + intros q Hq Hcq. rewrite E in Hq. injection Hq as <-. rewrite <- Hf. by apply Hc.
  - exists None. split; [|congruence]. by rewrite !alter_same by congruence.
Qed.

Lemma items_step_refl k l : items_step k l l.
Proof.
  pose proof (items_step_intro k l (fun p => p)) as Hs. rewrite alter_same in Hs by done. apply Hs; [|done]. by intros [].
Qed.
Lemma items_step_trans k l1 l2 l3 : items_step k l1 l2 -> items_step k l2 l3 -> items_step k l1 l3.
Proof.
  intros (c & -> & Hc) (c' & -> & Hc'). exists c'. split; [by rewrite list_alter_alter_eq|].
  intros p Hp Hcp. apply (Hc' (with_items c p)); [|by apply Hc]. by rewrite list_lookup_alter_eq, Hp.
Qed.

Definition inner (k : nat) (d d' : eval_db) : Prop := kept d d' /\ items_step k (table d id) (table d' id).
Definition inner_guarantee (k : nat) (d d' : eval_db) : Prop := inner k d d' /\ guarantee d d'.

#[local] Instance inner_preorder k : PreOrder (inner k).
Proof.
  split; [intros d; split; [reflexivity|apply items_step_refl]|].
  intros a b c [Ha1 Ha2] [Hb1 Hb2]. split; [by etrans|by eapply items_step_trans].
Qed.

Lemma rely_inner k d d' : rely d d' -> inner k d d'.
Proof. intros Hd. destruct (rely_kept _ _ Hd) as [Hk E]. split; [done|]. rewrite E. apply items_step_refl. Qed.
Lemma inner_intro k d d' : guarantee d d' -> table d' id = table d id -> inner_guarantee k d d'.
Proof. intros Hg E. split; [|done]. split; [by apply guarantee_kept|]. rewrite E. apply items_step_refl. Qed.

Lemma inner_tick k d : inner_guarantee k d (d {{ db_tick ::= Datatypes.S }}).
Proof. apply inner_intro; [|done]. split_and!; [intros n x Hx; by exists x|by apply docs_step_same|done]. Qed.

Lemma inner_run k d p f : (forall x, p x = true -> ru_tenant x = tenant) -> (forall x, p x = true -> run_step x (f x)) ->
  inner_guarantee k d (d {{ db_runs ::= update_first p f }} {{ db_tick ::= Datatypes.S }}).
Proof.
  intros Hp Hf. apply inner_intro; [|done]. split_and!; [|by apply docs_step_same|done].
  by apply (al_run _ _ _ (runs_step_allows tenant)).
Qed.

Abbreviation inner_ok k p := (spec (inner k) (inner_guarantee k) p (fun _ => True)).

Lemma inner_bench k p f :
  (forall x, p x = true -> benchmark_scope tenant id x = true) -> (forall x, be_tenant (f x) = be_tenant x /\ be_id (f x) = be_id x) ->
  inner_ok k (update_benchmarks cfg p f).
Proof.
  intros Hp Hf d. apply rg_atomically. intros d1 _. unfold db_step.
  assert (inner_guarantee k d1 (d1 {{ db_benchmarks ::= update_first p f }} {{ db_tick ::= Datatypes.S }})) as Hu.
  { apply inner_intro; [|done]. split_and!; [intros n x Hx; by exists x| |done].
    eapply docs_step_update; [done| |exact Hf|done]. cbn. intros x Hx Hid. apply Hp in Hx. unfold benchmark_scope in Hx.
    by apply andb_true_iff in Hx as [_ Hx%bool_decide_eq_true]. }
  destruct (if in_memory cfg then None else store_fault (db_tick d1)) as [[[] msg]|]; cbn; (split; [|done]); [exact Hu|apply inner_tick|exact Hu].
Qed.

Lemma count_item_ok row c t :
  counted c -> counted ((count_item row (c {{ ic_completed ::= Z.succ }} {{ ic_in_flight ::= Z.pred }})) {{ ic_last := t }}).
Proof. intros [Ha Hb]. unfold count_item. repeat case_bool_decide; split; cbn in *; lia. Qed.

Lemma record_item_ok k row : inner_ok k (record_item rn owner_id id tenant item_count k row).
Proof.
  assert (forall (f : nat -> Z), inner_ok k (interact f)) as Hi by (intros f d d1 Hd; split; [apply inner_tick|done]).
  apply sp_then; [apply Hi|]. intros t. apply sp_then.
  { intros d. apply rg_atomically. intros d1 _. split; [|done]. set (d2 := setf db_tables _ d1). assert (guarantee d1 d2) as Hg.
    { split_and!; [intros n x Hx; by exists x|by apply docs_step_same|]. intros j Hj. cbn. by rewrite lookup_insert_ne. }
    split; [|done]. split; [by apply guarantee_kept|]. unfold table at 2. cbn. rewrite lookup_insert, decide_True by done.
    apply items_step_intro; [by intros []|]. intros p Hp. unfold phase_counted in *. cbn. destruct (ph_items p) as [c|]; [|done].
    by apply count_item_ok. }
  intros _. apply sp_then.
  { apply sp_then.
    - intros d. apply rg_atomically. intros d1 _. split; [|done]. apply inner_intro; [|done].
      split_and!; [reflexivity|by apply docs_step_same|done].
    - intros phases. apply sp_then; [by apply sp_ret|]. intros u. apply sp_then; [by apply inner_bench|]. intros _. by apply sp_ret. }
  intros _. apply sp_then; [|intros _; by apply sp_ret]. apply sp_then; [apply Hi|]. intros now. apply inner_bench; [|done].
  by intros x [[Hx _]%andb_true_iff _]%andb_true_iff.
Qed.

(** *** Every item is counted once *)

(** The items of phase [k] that are still in flight. *)
Definition flight (k : nat) (d : eval_db) : option Z := ic_in_flight <$> (table d id !! k ≫= ph_items).

Lemma flight_rely k d d' : rely d d' -> flight k d' = flight k d.
Proof. intros Hd. unfold flight. by rewrite (proj2 (rely_kept _ _ Hd)). Qed.

Section Counting.
Context (k : nat).
Abbreviation free := (free (flight k)).
Abbreviation takes := (takes (flight k)).

Lemma free_interact {A} (f : nat -> A) : free (interact f).
Proof. by apply free_atomically. Qed.
Lemma free_call {A} (e : eff eval_db A) : (forall d, db_tables (e d).2 = db_tables d) -> free (db_call cfg e).
Proof.
  intros He. apply free_atomically. intros d. unfold flight, table, db_step. specialize (He d).
  destruct (if in_memory cfg then None else store_fault (db_tick d)) as [[[] msg]|]; cbn; [by rewrite He|done|].
  destruct (e d) as [o d']. cbn in *. by rewrite He.
Qed.

Ltac free_walk :=
  repeat first
    [ apply free_interact | apply free_call; done | apply free_done
    | apply free_bind; [|intros ?]
    | match goal with
      | |- Benchmark.free _ (if ?b then _ else _) => destruct b
      | |- Benchmark.free _ (match ?x with _ => _ end) => destruct x
      end ].

Lemma free_run_calls run_id t :
  (forall o, free (record_label_validation cfg run_id t o)) /\ (forall row, free (append_item_result cfg run_id t row)) /\
  (forall st res e, free (finish_run cfg run_id t st res e)) /\ (forall owner, free (heartbeat_run cfg run_id t owner)).
Proof. split_and!; intros; unfold record_label_validation, append_item_result, finish_run, heartbeat_run, now_, update_runs; free_walk. Qed.

Lemma takes_record_item row : takes (record_item rn owner_id id tenant item_count k row) 1.
Proof.
  assert (takes (record_progress rn id tenant item_count false ;;~ heartbeat_benchmark cfg id tenant owner_id ;;~ pret tt) 0) as Hrest.
  { apply free_takes. unfold record_progress, record_benchmark_progress, heartbeat_benchmark, now_, update_benchmarks, read_table.
    free_walk. by apply free_atomically. }
  unfold record_item. apply takes_then; [apply free_interact|]. intros t. apply spends_bind. intros d. exists 1. split.
  - cbn. unfold flight at 1, table at 1. cbn. rewrite lookup_insert, decide_True by done. cbn. unfold flight.
    rewrite list_lookup_alter, decide_True by done. destruct (table d id !! k) as [p|]; [|done]. cbn.
    destruct (ph_items p) as [c|]; [|done]. cbn. f_equal. unfold count_item. repeat case_bool_decide; cbn; lia.
  - exact Hrest.
Qed.

Lemma free_search row t : free (run_search_item rn row t).
Proof. unfold run_search_item, searched. free_walk. Qed.
Lemma free_graph row p t : free (run_graph_item row p t).
Proof. unfold run_graph_item. free_walk. Qed.
Lemma free_validate its m : free (validate_labels rn its m).
Proof. unfold validate_labels. destruct (label_targets its m) as [a b]. free_walk. Qed.

Section Run.
Context (run_id : text) (m : matching) (mode : eval_mode) (pipeline : option text).
Abbreviation on_item := (record_item rn owner_id id tenant item_count k).

Lemma takes_score item unscorable : takes (score_item rn run_id identity item m mode unscorable pipeline on_item) 1.
Proof.
  destruct (free_run_calls run_id tenant) as (_ & Ha & _ & Hh).
  assert (forall row, takes (persist_item_result rn run_id tenant row on_item ;;~ pret row) 1) as Hp.
  { intros row. unfold persist_item_result. apply spends_bind, spends_then; [apply Ha| |done]. intros [].
    apply spends_then; [apply Hh| |done]. intros b. eapply spends_conseq; [apply takes_record_item|]. by intros [u|e] j Hj. }
  unfold score_item. destruct unscorable; [apply Hp|].
  do 2 (apply takes_then; [apply free_interact|]; intros ?).
  apply takes_then; [destruct mode; [apply free_search|apply free_graph]|]. intros ev.
  apply takes_then; [apply free_interact|]. intros fin. apply takes_then; [apply free_done|]. intros row. apply Hp.
Qed.

(** A run that does not fail has counted each of its items. *)
Lemma spends_run its :
  spends (flight k) (execute_run rn run_id identity its m mode pipeline on_item) (zlen its)
    (fun o left => match o with Ok s => rs_status s = FAILED \/ left = 0 | Raise _ => True end).
Proof.
  destruct (free_run_calls run_id tenant) as (Hl & _ & Hf & Hh). unfold execute_run.
  apply spends_then; [apply Hh| |done]. intros _. apply spends_catch.
  apply (spends_conseq _ _ _ (fun o left => match o with Ok s => rs_status s = FAILED \/ left = 0 | Raise _ => True end)).
  - unfold execute_body. apply spends_then; [apply free_validate| |done]. intros report.
    apply spends_then; [apply Hl| |done]. intros _. destruct (blocking report).
    { apply spends_then; [apply Hf| |done]. intros _. by left. }
    apply spends_then; [apply free_interact| |done]. intros order. apply spends_bind.
    assert (zlen its = sum (map (fun _ => 1) its)) as ->.
    { unfold sum, zlen. clear. induction its as [|x l IH]; [done|]. cbn [map foldr length]. lia. }
    eapply spends_conseq; [apply gather_takes|].
    + apply Forall2_fmap_l, Forall2_fmap_r, Forall_Forall2_diag, Forall_forall. intros item _. apply takes_score.
    + intros [rows|e] left Hleft; [|done]. subst left. apply spends_then; [apply Hf| |done]. intros _. by right.
  - intros [s|e] left Hleft; [done|]. destruct (is_exception e).
    + apply spends_then; [apply Hf| |done]. intros _. by left.
    + apply spends_then; [apply Hf| |done]. done.
Qed.
End Run.
End Counting.

(** ** The phases *)

(** A phase that reports figures names a run of the tenant that is closed, and every item of it
    has been counted: none is in flight. *)
Definition backed (d : eval_db) (p : phase) : Prop :=
  (ph_status p = PHASE_COMPLETED \/ ph_status p = PHASE_PARTIAL ->
     (exists run_id, ph_run p = Some run_id /\ closed identity run_id d) /\
     exists c, ph_items p = Some c /\ ic_in_flight c = 0 /\ ic_completed c = item_count) /\
  phase_counted p.
Lemma backed_kept d d' p : backed d p -> kept d d' -> backed d' p.
Proof.
  intros [Hb Hc] [Hr _]. split; [|done]. intros Hs. destruct (Hb Hs) as [(r & E & Hcl) Hi]. split; [|done].
  exists r. split; [done|by eapply closed_step].
Qed.
Lemma backed_all d d' l : Forall (backed d) l -> kept d d' -> Forall (backed d') l.
Proof. intros Hl Hd. eapply Forall_impl; [exact Hl|]. intros p Hp. by eapply backed_kept. Qed.

Lemma in_open mode pipeline snapshot d :
  tri_in quiet d (open_run rn (Some identity) dataset_id mode pipeline (Some id) (Some snapshot)) (fun _ => True)
    (fun r d' => pr_identity r = identity /\ pr_items r = so_items snapshot /\ opened identity (ru_id (pr_run r)) d').
Proof.
  unfold open_run, invalid. destruct (mode_of mode) as [m|]; [|by apply (in_raise quiet)].
  destruct (_ && _); [by apply (in_raise quiet)|].
  destruct (match pipeline with Some _ => _ | None => _ end); [by apply (in_raise quiet)|]. destruct (_ && _); [by apply (in_raise quiet)|].
  apply (in_bind quiet), (in_ret quiet). destruct (so_items snapshot) as [|it its]; [by apply (in_raise quiet)|].
  destruct (unresolved_items 0 _); [|by apply (in_raise quiet)]. apply (in_bind quiet). unfold create_run, require_admin.
  destruct (identity_is_admin identity); [|by apply (in_raise quiet)].
  apply (in_bind quiet), (in_ret quiet), (in_bind quiet), (in_interact quiet). intros n1 d1 Hd1 E1.
  apply (in_bind quiet), (in_interact quiet). intros n2 d2 Hd2 E2. apply (in_bind quiet), (in_call quiet); [|done|].
  - intros d3. cbn. split; [|done]. split_and!; [|by apply docs_step_same|done].
    intros n x Hx. exists x. split; [cbn; by apply lookup_app_l_Some|done].
  - intros d3 Hd3. refine (in_ret quiet _ _ _ _ _). refine (in_ret quiet _ _ _ _ _). cbn. split; [done|]. split; [done|].
    eexists (length (db_runs d3)), _. split; [cbn; rewrite lookup_app_r, Nat.sub_diag by lia; reflexivity|]. unfold run_scope. cbn. by rewrite !bool_decide_eq_true_2.
Qed.

Lemma tri_execute k r d :
  pr_identity r = identity -> opened identity (ru_id (pr_run r)) d ->
  tri d (execute rn r (record_item rn owner_id id tenant item_count k)) (fun _ => True)
    (fun s d' => (closed identity (ru_id (pr_run r)) d' /\ items_step k (table d id) (table d' id)) /\
       (rs_status s = FAILED \/ flight k d' = (fun x => x - zlen (pr_items r)) <$> flight k d)).
Proof.
  intros Hi Ho. unfold execute. rewrite Hi.
  pose proof (rg_execute_run rn identity (inner k) (inner_guarantee k) (fun _ _ Hd => proj1 Hd) (fun _ _ Hd => proj1 (proj1 Hd))
    (inner_tick k) (inner_run k) (ru_id (pr_run r)) (pr_items r) (pr_match r) (pr_mode r) (pr_pipeline r)
    (record_item rn owner_id id tenant item_count k) (record_item_ok k) d Ho) as Hr.
  apply (rg_reach (inner k)) in Hr; [|by intros d1 d2 [Hd _]]. apply (rg_rely _ rely) in Hr; [|intros d1 d2; apply rely_inner].
  eapply (spends_rg (flight k)) in Hr; [|intros d1 d2; apply flight_rely|apply spends_run].
  eapply rg_conseq; [exact Hr|by intros d1 d2 [_ Hg]|].
  intros [s|e] d' [[Hs [Hk Ht]] (left & Hl & Hfl)]; (split; [done|]); [|done].
  destruct Hs as [Hc _]. split; [done|]. destruct Hl as [Hl|Hl]; [by left|right]. by rewrite Hfl, Hl, Z.sub_0_r.
Qed.

(** The table with one phase replaced. *)
Lemma alter_middle (past rest : list phase) p f : alter f (length past) (past ++ p :: rest) = past ++ f p :: rest.
Proof. induction past as [|q past IH]; [done|]. change (q :: alter f (length past) (past ++ p :: rest) = q :: past ++ f p :: rest). by rewrite IH. Qed.

(** What running a queued phase makes of it. *)
Definition outcome_of (d : eval_db) (aborted : option text) (p : phase) : Prop :=
  backed d p /\ match aborted with None => ph_status p = PHASE_COMPLETED \/ ph_status p = PHASE_PARTIAL | Some _ => ph_status p = PHASE_FAILED end.

Lemma tri_fail past rest p name error d E : table d id = past ++ p :: rest -> phase_counted p ->
  tri d (fail_phase id (length past) name error) E
    (fun aborted d' => exists p', table d' id = past ++ p' :: rest /\ is_Some aborted /\ outcome_of d' aborted p').
Proof.
  intros Et Hc. apply tri_bind, tri_set. intros d1 Hd1 E1. rewrite Et, alter_middle in E1. apply tri_bind, tri_clock. intros t d2 Hd2 E2.
  rewrite E1, alter_middle in E2. apply tri_ret. eexists. split; [exact E2|]. split; [done|]. split; [|done]. split; [|done]. by intros [?|?].
Qed.

Lemma tri_run_phase snapshot past rest p d : item_count = zlen (so_items snapshot) -> table d id = past ++ p :: rest ->
  tri d (run_phase rn owner_id id tenant dataset_id item_count identity snapshot (length past) p) (fun _ => True)
    (fun aborted d' => exists p', table d' id = past ++ p' :: rest /\ outcome_of d' aborted p').
Proof.
  intros Hn Et. apply tri_bind, tri_interact. intros n d1 Hd1 E1. apply tri_bind, tri_set. intros d2 Hd2 E2.
  rewrite E1, Et, alter_middle in E2. set (p0 := started_phase _ _ _) in E2.
  assert (phase_counted p0) as Hc0 by (unfold phase_counted, counted; cbn; lia).
  apply tri_bind, tri_progress; [done|]. intros d3 Hd3 E3. apply tri_bind.
  set (Q := fun (r : outcome py_exn prepared_run) d' => table d' id = past ++ p0 :: rest /\
    match r with
    | Ok r => pr_identity r = identity /\ pr_items r = so_items snapshot /\ opened identity (ru_id (pr_run r)) d'
    | Raise _ => True
    end).
  apply (tri_weak _ _ (fun _ => True) _ Q); [|done|].
  { apply rg_catch, rg_bind. eapply rg_conseq; [apply in_open|done|]. intros [r|e] d4 [[Hd4 E4] Hq].
    - split; [done|]. split; [congruence|done].
    - destruct (refusal e); [|done]. split; [done|]. split; [congruence|done]. }
  intros [r|e] d4 Hd4 [E4 Hr].
  - destruct Hr as (Hi & Hits & Ho). apply tri_bind, tri_set. intros d5 Hd5 E5. rewrite E4, alter_middle in E5. set (p1 := setf ph_run _ p0) in E5.
    apply tri_bind. eapply tri_weak; [apply (tri_execute (length past))|done|]; [done|by eapply opened_step, Hd5|].
    intros s d6 Hd6 [[Hc (c & E6 & Hcount)] Hfl]. rewrite E5, alter_middle in E6. specialize (Hcount p1).
    rewrite E5, list_lookup_middle in Hcount by done. specialize (Hcount eq_refl Hc0).
    assert (rs_status s = FAILED \/ exists x, c = Some x /\ ic_in_flight x = 0 /\ ic_completed x = item_count) as Hall.
    { destruct Hfl as [?|Hfl]; [by left|right]. unfold flight in Hfl. rewrite E6, E5, !list_lookup_middle in Hfl by done.
      cbn in Hfl. rewrite Hits, <- Hn, Z.sub_diag in Hfl. unfold phase_counted in Hcount. cbn in Hcount.
      destruct c as [x|]; [|done]. exists x. injection Hfl as Hx. destruct Hcount as [Hs _]. split_and!; [done|done|lia]. }
    apply tri_bind, tri_clock. intros t d7 Hd7 E7. rewrite E6, alter_middle in E7.
    apply tri_bind, tri_set. intros d8 Hd8 E8. rewrite E7, alter_middle in E8.
    destruct (bool_decide (rs_status s = FAILED)) eqn:Ef.
    + eapply tri_weak; [apply (tri_fail past rest _ _ _ _ (fun _ => True) E8); exact Hcount|done|].
      intros aborted d9 _ (p' & E9 & _ & Hp'). by exists p'.
    + apply tri_bind, tri_set. intros d9 Hd9 E9. rewrite E8, alter_middle in E9. apply tri_ret. eexists. split; [exact E9|].
      assert (closed identity (ru_id (pr_run r)) d9) as Hc9.
      { eapply closed_step; [exact Hc|]. etrans; [apply Hd7|]. etrans; [apply Hd8|apply Hd9]. }
      apply bool_decide_eq_false in Ef. destruct Hall as [?|Hall]; [done|].
      unfold closed_phase. destruct (bool_decide (count_of (rs_results s) "items_failed" = 0)).
      all: split; [split; [intros _; split; [by exists (ru_id (pr_run r))|exact Hall]|exact Hcount]|auto].
  - eapply tri_weak; [apply (tri_fail past rest _ _ _ _ (fun _ => True) E4 Hc0)|done|].
    intros aborted d5 _ (p' & E5 & _ & Hp'). by exists p'.
Qed.

(** A finished table: after a phase that failed everything is skipped, and nothing is skipped
    before; [true] when one failed. *)
Fixpoint scan (failed : bool) (l : list phase) : option bool :=
  match l with
  | [] => Some failed
  | p :: l =>
      match ph_status p with
      | PHASE_UNSUPPORTED => scan failed l
      | PHASE_COMPLETED | PHASE_PARTIAL => if failed then None else scan false l
      | PHASE_FAILED => if failed then None else scan true l
      | PHASE_SKIPPED => if failed then scan true l else None
      | _ => None
      end
  end.
Lemma scan_app b l1 l2 : scan b (l1 ++ l2) = scan b l1 ≫= fun b' => scan b' l2.
Proof. revert b. induction l1 as [|p l1 IH]; intros b; cbn; [done|]. destruct (ph_status p), b; try done; apply IH. Qed.

Definition fresh (p : phase) : Prop := (ph_status p = PHASE_QUEUED \/ ph_status p = PHASE_UNSUPPORTED) /\ phase_counted p.

Definition finished (d : eval_db) : Prop := is_Some (scan false (table d id)) /\ Forall (backed d) (table d id).

Definition aborts (aborted : option text) : bool := match aborted with Some _ => true | None => false end.

Lemma tri_run_phases snapshot rest : item_count = zlen (so_items snapshot) -> forall past aborted d,
  table d id = past ++ rest -> scan false past = Some (aborts aborted) -> Forall (backed d) past -> Forall fresh rest ->
  tri d (run_phases rn owner_id id tenant dataset_id item_count identity snapshot (seq (length past) (length rest)) aborted) (fun _ => True)
    (fun _ d' => finished d').
Proof.
  intros Hn. induction rest as [|p rest IH]; intros past aborted d Et Hs Hb Hf.
  { apply tri_ret. rewrite app_nil_r in Et. split; rewrite Et; [by rewrite Hs|done]. }
  apply Forall_cons in Hf as [[Hp Hpc] Hf].
  (** One phase is done, as [p']. *)
  assert (forall p' aborted' d', table d' id = past ++ p' :: rest -> scan (aborts aborted) [p'] = Some (aborts aborted') ->
    Forall (backed d') past -> backed d' p' ->
    tri d' (run_phases rn owner_id id tenant dataset_id item_count identity snapshot (seq (Datatypes.S (length past)) (length rest)) aborted')
      (fun _ => True) (fun _ d2 => finished d2)) as Hnext.
  { intros p' aborted' d' Et' Hs' Hb' Hp'. replace (Datatypes.S (length past)) with (length (past ++ [p'])) by (rewrite length_app; cbn; lia).
    apply IH; [by rewrite <- app_assoc|by rewrite scan_app, Hs|apply Forall_app; by split; [|constructor]|done]. }
  change (seq (length past) (length (p :: rest))) with (length past :: seq (Datatypes.S (length past)) (length rest)). cbn [run_phases].
  apply tri_bind, tri_read. intros d1 Hd1 E1. rewrite Et, list_lookup_middle by done. rewrite Et in E1.
  pose proof (backed_all _ _ _ Hb Hd1) as Hb1. unfold is_status. destruct Hp as [Ep|Ep].
  - rewrite bool_decide_eq_false_2 by congruence. destruct aborted as [reason|].
    + apply tri_bind, tri_set. intros d2 Hd2 E2. rewrite E1, alter_middle in E2.
      eapply Hnext; [exact E2|done|by eapply backed_all|]. split; [|done]. by intros [?|?].
    + apply tri_bind. eapply tri_weak; [by apply tri_run_phase|done|]. intros aborted' d2 Hd2 (p' & E2 & Hbp & Hst).
      eapply Hnext; [exact E2| |by eapply backed_all|done]. cbn. destruct aborted'; [by rewrite Hst|]. by destruct Hst as [->| ->].
  - rewrite bool_decide_eq_true_2 by done. eapply Hnext; [exact E1| |done|].
    + cbn. by rewrite Ep.
    + split; [|done]. intros [?|?]; congruence.
Qed.

(** What the execution of a benchmark leaves. *)
Definition bench_settled (o : outcome py_exn bench_summary) (d : eval_db) : Prop :=
  match o with
  | Ok s =>
      bench_closed d /\ bs_id s = id /\ table d id = bs_phases s /\
      (bs_status s = FAILED \/ bs_status s = benchmark_status (bs_phases s) /\ finished d)
  | Raise e => bench_closed d \/ unclosed e
  end.
Lemma bench_settled_rely o d d' : bench_settled o d -> rely d d' -> bench_settled o d'.
Proof.
  intros Ho Hd. destruct (rely_kept _ _ Hd) as [Hk Et]. destruct o as [s|e]; cbn in *.
  - destruct Ho as (Hc & Ei & El & Hs). split_and!; [by eapply bench_closed_rely|done|congruence|]. destruct Hs as [Hs|(Hs & Hsc & Hb)]; [by left|].
    right. split; [done|]. split; rewrite Et; [done|by eapply backed_all].
  - destruct Ho as [Hc|Hu]; [left; by eapply bench_closed_rely|by right].
Qed.

Lemma benchmark_status_closed l : active (benchmark_status l) = false.
Proof. unfold benchmark_status. by repeat case_match. Qed.

Lemma tri_phases snapshot before d : item_count = zlen (so_items snapshot) -> present d -> Forall fresh (table d id) ->
  tri d (execute_phases rn owner_id id tenant dataset_id item_count identity snapshot (length (table d id)) before) (fun _ => True)
    (fun s d' => bench_settled (Ok s) d').
Proof.
  intros Hn Hp Hf. apply tri_bind, tri_progress; [done|]. intros d1 Hd1 E1. apply tri_bind, tri_heartbeat; [done|]. intros b d2 Hd2 E2.
  apply tri_bind. eapply tri_weak; [apply (tri_run_phases snapshot (table d id) Hn [] None); [by rewrite E2, E1|done|done|done]|done|].
  intros [] d3 Hd3 [Hsc Hb]. apply tri_bind, tri_read. intros d4 Hd4 E4. apply tri_bind.
  eapply tri_weak; [apply tri_close|done|].
  - apply benchmark_status_closed.
  - eapply present_kept; [exact Hp|]. etrans; [exact Hd1|]. etrans; [exact Hd2|]. by etrans.
  - intros phases d5 Hd5 (Hc & E5 & E6). apply tri_ret. split_and!; [done|done|done|]. right. cbn. rewrite E6, E4. split; [done|].
    unfold finished. rewrite E5, E6, E4. split; [done|]. eapply backed_all; [exact Hb|by etrans].
Qed.

Lemma rg_execute_benchmark snapshot d : item_count = zlen (so_items snapshot) -> present d -> Forall fresh (table d id) ->
  rg rely guarantee (execute_benchmark rn owner_id id tenant dataset_id item_count identity snapshot (length (table d id))) d bench_settled.
Proof.
  intros Hn Hp Hf. unfold execute_benchmark.
  apply rg_bind. eapply rg_conseq; [apply (tri_heartbeat d unclosed (fun _ d' => table d' id = table d id)); [by left|done]|done|].
  intros [b|e] d1 [Hd1 E1]; [|by right]. apply rg_bind.
  eapply rg_conseq; [apply (tri_snapshot d1 (fun _ d' => table d' id = table d1 id)); done|done|]. intros [before|e] d2 [Hd2 E2]; [|by right].
  apply rg_bind. eapply rg_conseq; [apply (tri_metrics _ d2 unclosed (fun _ d' => table d' id = table d2 id)); [by left|done]|done|].
  intros [[]|e] d3 [Hd3 E3]; [|by right].
  assert (kept d d3) as Hk by (etrans; [exact Hd1|by etrans]). assert (table d3 id = table d id) as Et by congruence.
  pose proof (present_kept _ _ Hp Hk) as Hp3. rewrite <- Et in *. apply rg_catch. eapply rg_conseq; [by apply tri_phases|done|].
  intros [s|e] d4 [Hd4 Hs]; [done|]. pose proof (present_kept _ _ Hp3 Hd4) as Hp4. destruct (is_exception e).
  - apply rg_bind. eapply rg_conseq; [by apply (tri_close before FAILED)|done|]. intros [phases|e'] d5 [Hd5 Hq]; [|by right].
    destruct Hq as (Hc & E5 & _). split_and!; [done|done|done|by left].
  - apply rg_bind. eapply rg_conseq; [apply tri_interrupt|done|]. intros [[]|e'] d5 [Hd5 Hq]; [|by right].
    apply rg_bind. eapply rg_conseq; [apply (tri_close before INTERRUPTED); [done|by eapply present_kept]|done|].
    intros [phases|e'] d6 [Hd6 Hq6]; [|by right]. left. apply Hq6.
Qed.
End OneBenchmark.

(** The plan of a request: each phase that was asked for once, in the order of the catalogue,
    ready to be executed. *)
Lemma plan_ready `{PyText} requested graph_available phases n :
  plan_phases (Some requested) graph_available = Ok phases ->
  Forall (fresh n) phases /\ sublist (map ph_name phases) PHASE_NAMES /\ (forall name, name ∈ map ph_name phases <-> name ∈ requested) /\
  existsb (is_status PHASE_QUEUED) phases = true.
Proof.
  unfold plan_phases. destruct (List.filter _ requested) eqn:Ef; [|done]. destruct requested as [|r rs] eqn:Er; [done|]. rewrite <- Er in *.
  cbn [obind]. set (chosen := List.filter _ PHASE_SPECS). destruct (existsb _ _) eqn:Eq; [|done]. intros [= <-].
  assert (map ph_name (map (planned graph_available) chosen) = map sp_name chosen) as En by (rewrite map_map; done).
  rewrite En. split_and!; [| | |done].
  - apply Forall_fmap, Forall_forall. intros s _. unfold fresh, planned. cbn. split; [destruct (unsupported_reason _ _); auto|done].
  - unfold PHASE_NAMES. subst chosen. generalize PHASE_SPECS. induction l as [|s l IH]; cbn; [constructor|]. destruct (bool_decide _); by constructor.
  - intros name. rewrite list_elem_of_fmap. split.
    + intros (s & -> & Hs). subst chosen. apply list_elem_of_In, filter_In in Hs as [_ Hs%bool_decide_eq_true]. done.
    + intros Hn. assert (name ∈ PHASE_NAMES) as Hk.
      { destruct (decide (name ∈ PHASE_NAMES)) as [|Hk]; [done|]. assert (name ∈ []) as []%elem_of_nil. rewrite <- Ef.
        apply list_elem_of_In, filter_In. split; [by apply list_elem_of_In|]. by rewrite bool_decide_eq_false_2. }
      apply list_elem_of_fmap in Hk as (s & -> & Hs). exists s. split; [done|]. subst chosen. apply list_elem_of_In, filter_In.
      split; [by apply list_elem_of_In|by apply bool_decide_eq_true].
Qed.

(** ** Benchmarks that run at once *)

Section Pool.
Context `{PyText} `{JsonText} `{CompactJson} `{Fingerprint} `{EvalEnv} `{Discount} `{EvalServices} `{BenchmarkServices}.
Context (rn : runner).

(** The arguments of one execution. *)
Record bench_task := mkBenchTask {
  bt_owner : text; bt_identity : auth_identity; bt_id : text; bt_dataset : text; bt_count : Z; bt_snapshot : run_source
}.
Definition task_program (d : eval_db) (t : bench_task) : prog eval_db bench_summary :=
  execute_benchmark rn (bt_owner t) (bt_id t) (ai_tenant_id (bt_identity t)) (bt_dataset t) (bt_count t) (bt_identity t) (bt_snapshot t)
    (length (table d (bt_id t))).
(** The document exists, the table is that of a plan, and the count is that of the items. *)
Definition planned_task (d : eval_db) (t : bench_task) : Prop :=
  bt_count t = zlen (so_items (bt_snapshot t)) /\ present (bt_identity t) (bt_id t) d /\ Forall (fresh (bt_count t)) (table d (bt_id t)).
Definition task_settled (t : bench_task) (o : outcome py_exn bench_summary) (d : eval_db) : Prop :=
  bench_settled rn (bt_identity t) (bt_id t) (bt_count t) o d.

Lemma guarantee_rely i j d d' : i <> j -> guarantee i d d' -> rely j d d'.
Proof.
  intros Hij (Hr & Hd & Ht). split_and!; [done| |by apply Ht]. eapply docs_step_weak; [|exact Hd]. cbn.
  intros x y Hxy Hj Ha. rewrite Hxy; [done|congruence].
Qed.

Lemma completed_phases l b : scan false l = Some b -> benchmark_status l = COMPLETED ->
  Forall (fun p => ph_status p = PHASE_COMPLETED \/ ph_status p = PHASE_UNSUPPORTED) l.
Proof.
  unfold benchmark_status. destruct (existsb (is_status PHASE_INTERRUPTED) l); [done|]. destruct (negb _); [done|].
  destruct (existsb _ l) eqn:E; [done|]. intros Hs _. revert Hs E. generalize false at 1. induction l as [|p l IH]; intros f; [constructor|].
  cbn. intros Hs [Ep El]%orb_false_iff. unfold is_status in Ep. destruct (ph_status p) eqn:E; try (by destruct f); try done.
  - destruct f; [done|]. constructor; [by left|]. by eapply IH.
  - constructor; [by right|]. by eapply IH.
Qed.

End Pool.

(** ** A benchmark of two phases *)

Definition demo_bench : BenchmarkServices := {|
  iso_text := fun t => show t; snapshot_reply := fun _ => Raise (PyError (lit "RuntimeError") (lit "down")); empty_sections := [];
  prometheus_scope := s_ "process"; manifest_of := fun _ _ _ _ _ _ _ => []; export_of := fun _ => pret []
|}.
Abbreviation demo_start := (start_benchmark (H := ascii_text) (H2 := demo_fingerprint) (H3 := demo_env) (H4 := reciprocal_gain)
  (H5 := demo_services) (H6 := demo_bench) demo_runner (lit "bench")).
Abbreviation demo_task_program := (task_program (H := ascii_text) (H2 := demo_fingerprint) (H3 := demo_env) (H4 := reciprocal_gain)
  (H5 := demo_services) (H6 := demo_bench) demo_runner).

(** Both retrieval phases are asked for; one of them is not supported. *)
Definition bench_db : eval_db :=
  (run (demo_start (Some (admin_of "blue")) (lit "uxx") (Some [PHASE_RETRIEVAL_EXTENDED; PHASE_RETRIEVAL_BASE]) None) demo_db).2.
Definition bench_id : text := match db_benchmarks bench_db with x :: _ => be_id x | [] => [] end.
Definition demo_task : bench_task :=
  mkBenchTask (lit "bench") (admin_of "blue") bench_id (lit "uxx") 1 (mkSource (map snapshot_item demo_items) (Some 1) None).


(** A failure of the database while a phase runs closes the benchmark and leaves the phase
    running. *)
Definition failing_env : EvalEnv := {|
  now_at := now_at (EvalEnv := demo_env); uuid_at := uuid_at (EvalEnv := demo_env); item_uuid_at := item_uuid_at (EvalEnv := demo_env);
  store_fault := fun n => if bool_decide (n = 22%nat) then Some (false, lit "no primary") else None
|}.
Example abandoned_phase :
  match (run (task_program (H := ascii_text) (H2 := demo_fingerprint) (H3 := failing_env) (H4 := reciprocal_gain)
    (H5 := demo_services) (H6 := demo_bench) demo_runner bench_db demo_task) bench_db) with
  | (Ok s, d') => bs_status s = FAILED /\ map be_status (db_benchmarks d') = [FAILED] /\
      map (fun x => map ph_status (be_phases x)) (db_benchmarks d') = [[PHASE_RUNNING; PHASE_UNSUPPORTED]]
  | _ => False
  end.
Proof. by vm_compute. Qed.

(** The process is gone long enough for the lease to expire, and another one reconciles. *)
Definition orphaned_db : eval_db := bench_db {{ db_tick := 40%nat }}.
Abbreviation demo_reconcile := (reconcile_startup (H3 := demo_env) (H6 := demo_bench) demo_runner).
Definition reconciled_db : eval_db := (run demo_reconcile orphaned_db).2.

(** Three items in two phases make six; taken for the items of one phase they make twelve. *)
Definition two_phases : list phase :=
  [planned true (mkSpec PHASE_RETRIEVAL_BASE MODE_RETRIEVAL None false None);
   planned true (mkSpec PHASE_END_TO_END_REGULAR MODE_END_TO_END (Some (lit "regular")) true None)].
Example reconcile_inflates :
  get (build_progress show two_phases 3) "items_total" = JInt 6 /\
  get (build_progress show two_phases (count_of (build_progress show two_phases 3) "items_total")) "items_total" = JInt 12.
Proof. by vm_compute. Qed.

(** A worker that is late reopens the benchmark that reconciliation closed. *)
Example late_worker_reopens :
  map be_status (db_benchmarks reconciled_db) = [INTERRUPTED] /\
  map be_status (db_benchmarks (run (record_progress (H3 := demo_env) (H6 := demo_bench) demo_runner bench_id (lit "blue") 1 false) reconciled_db).2)
    = [RUNNING].
Proof. by vm_compute. Qed.

(** A phase whose items timed out is completed. *)
Example timeouts_complete :
  ph_status (closed_phase 2 (count_of (results_json (aggregate (H := ascii_text) [timed_out_row; timed_out_row] false)) "items_failed")
    (planned true (mkSpec PHASE_RETRIEVAL_BASE MODE_RETRIEVAL None false None))) = PHASE_COMPLETED.
Proof. by vm_compute. Qed.
